(* ===== verification/_CoqProject ===== *)
-Q . S2P
Prelude.v
Common.v
PageMap.v
PackedCache.v
Sampler.v
LinkedList.v
Span.v
SysEnv.v
Double.v
PageHeap.v
PageHeapInv.v
PageHeapOps.v
PageHeapRelease.v
PageHeapAlloc.v
SystemAlloc.v
SystemAllocSpec.v
PageHeapSpec.v
CentralFreeList.v
CentralFreeListInv.v
CentralFreeListSpec.v
ThreadCache.v
ThreadCacheSpec.v
ThreadCacheLife.v
CentralCaches.v
PageHeapFrame.v
CentralPageHeap.v
Malloc.v
MallocInv.v
MallocAlloc.v
MallocFree.v
MallocPaths.v
MallocSpec.v
Startup.v
Concrete.v
MallocExtension.v
MemoryAccounts.v
MallocExtensionSpec.v
SpinLock.v
AddressMap.v
ProfileData.v
HookList.v
StackTraceTable.v
SkipList.v
LowLevelAlloc.v
EmergencyMalloc.v
DebugAllocation.v
HeapProfileTable.v
HeapProfileSpec.v
HeapProfileMap.v
HeapProfiler.v
GenericWriter.v
ProcMaps.v
CpuProfiler.v
ThreadCachePtr.v
Ia32Tables.v
MiniDisassembler.v
PreamblePatcher.v
PreamblePatcherSpec.v
PreambleUnpatch.v
