(* ===== verification/Prelude.v ===== *)
(** * tcmalloc: verification of gperftools' allocator

    A model of the memory allocator under src/src/src/ and of the tools built
    around it, as Rocq functions and transition systems, with the theorems
    that make it correct. The build modelled is the default 64-bit Linux one:
    8 KiB pages, 48-bit addresses, sampling compiled in, release assertions.

    ** The program and the files that model it

    An allocation enters through [tc_malloc] and its relatives
    (tcmalloc.cc). Small requests are rounded to a size class (common.cc)
    and served from the calling thread's cache (thread_cache.cc), which
    exchanges batches of objects with the central free list of the class
    (central_freelist.cc); a central list cuts its objects out of spans of
    pages, which the page heap (page_heap.cc) hands out, splits and
    coalesces; the page heap finds spans by page number through a radix tree
    (pagemap.h) and gets memory from the system layer (system-alloc.cc).
    Large and sampled requests are spans of their own.

    The allocator, bottom up:
    - Common.v: constants and [SizeMap] of common.h, common.cc;
      PageMap.v: pagemap.h; PackedCache.v: packed-cache-inl.h;
      Sampler.v: sampler.h, sampler.cc; LinkedList.v: linked_list.h;
      Span.v: span.h, span.cc; Double.v: facts about [double] that the
      scavenger's and the page heap's arithmetic needs.
    - SystemAlloc.v, SystemAllocSpec.v: system-alloc.cc, [MetaDataAlloc],
      page_heap_allocator.h. They implement SysEnv.v, the interface between
      the page heap and everything below it.
    - PageHeap.v: page_heap.h, page_heap.cc; PageHeapInv.v, PageHeapOps.v,
      PageHeapRelease.v, PageHeapAlloc.v, PageHeapFrame.v: its invariant and
      what each operation does to it; PageHeapSpec.v: its properties.
    - CentralFreeList.v, CentralFreeListInv.v, CentralFreeListSpec.v:
      central_freelist.h, central_freelist.cc over the interface [SpanHeap];
      CentralPageHeap.v discharges [SpanHeap] with the page heap.
    - ThreadCache.v, ThreadCacheSpec.v, ThreadCacheLife.v: thread_cache.h,
      thread_cache.cc over the interface [CentralCache]; CentralCaches.v
      discharges it with the central lists.
    - Malloc.v, MallocInv.v, MallocAlloc.v, MallocFree.v, MallocPaths.v,
      MallocSpec.v: the entry points of tcmalloc.cc; Startup.v: [InitModule]
      and [InitStaticVars], which put the layers together; Concrete.v:
      states of the whole allocator at which the theorems are applied.
    - MallocExtension.v: [TCMallocImplementation] of tcmalloc.cc, the
      statistics, properties and walks over the heap that programs ask for;
      MemoryAccounts.v: where the bytes of the heap are;
      MallocExtensionSpec.v: what the answers mean.

    The runtime below it and the tools beside it:
    - SpinLock.v: base/spinlock.h, base/spinlock.cc, [TrivialOnce];
      SkipList.v, LowLevelAlloc.v: base/low_level_alloc.cc;
      EmergencyMalloc.v: emergency_malloc.cc on top of it.
    - HookList.v: the hook lists of malloc_hook.cc; StackTraceTable.v:
      stack_trace_table.cc, the growth stacks and the readers of their dumps.
    - AddressMap.v: addressmap-inl.h; HeapProfileTable.v, HeapProfileSpec.v:
      heap-profile-table.cc over the interface [AddressMapOps], which
      HeapProfileMap.v discharges with the address map; HeapProfiler.v:
      heap-profiler.cc on top of the table and the hook lists.
    - ProfileData.v: profiledata.cc, the sample collector of the CPU
      profiler; CpuProfiler.v: profiler.cc and profile-handler.cc on top of
      it; DebugAllocation.v: debugallocation.cc, the debugging front end.
    - ThreadCachePtr.v: thread_cache_ptr.cc, how a thread finds its cache.
    - GenericWriter.v: base/generic_writer.h, base/generic_writer.cc;
      ProcMaps.v: base/proc_maps_iterator.cc over it.

    How the allocator gets into a Windows program, for 32- and 64-bit
    binaries (the argument [x64]; the rest of the development is the Linux
    build):
    - Ia32Tables.v: windows/mini_disassembler_types.h, ia32_opcode_map.cc,
      ia32_modrm_map.cc, entry by entry; MiniDisassembler.v:
      windows/mini_disassembler.cc over them, the instruction format as the
      code reads it and as the manual has it.
    - PreamblePatcher.v: windows/preamble_patcher.h, preamble_patcher.cc,
      preamble_patcher_with_stub.cc over a memory of bytes, with the calls of
      the system in the class [Windows]; PreamblePatcherSpec.v: what a patched
      function and its stub do; PreambleUnpatch.v: taking a patch back, and
      the preambles that patching or unpatching changes.

    ** How code is translated

    A machine integer is a [Z] and every conversion is written out ([u64],
    [s32], ...). Objects are records; pointers are addresses into finite
    maps, with 0 for null. Code that can fail returns [outcome]: [Ret], or
    [Fault] with a reason (a failed check, undefined behaviour, out of
    memory, fuel used up); stateful code is in the monad [M] over it. The
    predicate transformer [wp] allows only the fault that stands for the
    process ending for lack of memory, so a theorem about [wp] says that the
    code returns and nothing undefined happens. Locked operations are single
    steps, except that the central free lists run the parameter [others],
    arbitrary work of other threads that keeps the invariant and the caller's
    objects, wherever the code drops a lock. What the other threads hold is a
    parameter too (the class [Rest]); its instance [nothing] stands for a
    program that is alone, where every object and span that is not free is
    one the caller holds ([settled], [accounted]), so that nothing is lost. Code without locks (the spin
    lock, the traversal of hooks, growth stacks) is a transition
    system of single accesses; memory is sequentially consistent there.

    Loops have fuel: the number of entries where they walk a structure,
    otherwise [release_fuel] = 130 (a pass over the 128 span lists and two
    sets releases or ends), [psize_fuel] = 1024 and [class_fuel] = 128 (the
    classes are fewer than 128), 2 rounds of the low-level allocation loop,
    1024 for the queue of freed blocks, 64 for the bits of a size, and
    2^64 or 2^31 where an integer bounds the loop; 3 for opcode tables
    that refer to one another, 6 for the instructions that cover the five
    bytes of a jump; the number of jumps a resolved function follows and of
    the instructions a stub holds are arguments that theorems bound from
    below. The theorems are about code that returns: running out of fuel is
    a fault they exclude.

    ** What is shown

    - The whole allocator, from startup, refines a heap of disjoint blocks
      with contents, and a program that is alone loses no block
      ([Startup.program_refines_heap]); each entry point returns what its
      documentation says on every path, errors included, with the calls of
      the new-handler and what it is asked for (MallocSpec.v), and startup
      establishes the invariants.
    - The page heap is safe, makes progress and keeps its statistics and its
      own checks ([PageHeapSpec.page_heap_safe], [page_heap_progress],
      [page_heap_check], [Release_correct]); the page map and the system layer
      refine their interfaces.
    - Central lists and thread caches move objects without losing or
      duplicating any, under interference ([RemoveRange_correct],
      [InsertRange_correct], [Allocate_correct], [Deallocate_correct]).
    - The statistics are exact: the bytes reported as allocated are those of
      the objects and spans that users hold, and with the free ones they add
      up to the heap ([MallocExtensionSpec.allocated_bytes_exact]); giving
      memory back keeps the blocks and counts what was released
      ([ReleaseToSystem_correct]).
    - The size map is well formed for every transfer setting that ends.
    - The spin lock excludes, loses no wakeup, and a waiting thread can take
      a free lock; one-time initialisation runs once.
    - The low-level and the emergency allocator hand out disjoint memory and
      lose none; their free list is a sorted set.
    - The debugging allocator accepts correct programs, with page fences and
      without reclaiming too, and stops wrong ones: writes after free, double
      frees, mismatched calls, overruns.
    - The hook list keeps its contract, also under concurrent traversal; the
      address map is a finite map; the heap profile is a ledger; the heap
      profiler dumps when its intervals say so; CPU profiles and dumps of
      stack traces decode to what was recorded.
    - The signal handler of the CPU profiler never runs into a collector
      that is being started, flushed or stopped, and no sample taken while
      the profiler runs is lost ([CpuProfiler.cpu_profiler_safe]); a thread
      has one cache, whichever way it looks it up
      ([ThreadCachePtr.thread_has_one_cache]).
    - What is appended to a writer arrives, in order and unchanged
      ([GenericWriter.writers_deliver_text]); mappings that are printed are
      read back ([ProcMaps.proc_maps_roundtrip]).
    - The disassembler recognises exactly the instructions of its tables and
      gives them the type and, the forms listed as irregular excepted, the
      length that the manual gives them
      ([MiniDisassembler.disassemble_correct]); a patched function jumps to
      its replacement and the stub does what the moved instructions did, the
      forms listed as flawed excepted ([PreamblePatcherSpec.patch_correct]);
      unpatching puts the bytes back where the system grants write access
      ([PreambleUnpatch.unpatch_restores]).

    ** Bounds and assumptions

    The system has fewer than 2^31 pages in one span (the code keeps page
    counts in [int]); the theorem about statistics also bounds the free
    objects of a class and the bytes of a cache by 2^31 ([counts_fit]), for
    the same reason; what the operating system, [log] and client callbacks
    do is a parameter with the documented behaviour as a hypothesis. The
    links of free lists are kept as lists (LinkedList.v and Span.v show that
    the pointer code implements them), so they are not written into the
    bytes of user memory. The memory the
    low-level allocator gets from the system never holds 2^34 contiguous bytes
    ([holed]: the code stops on a free block that large), lies below 2^63, and
    requests are below 2^33 bytes. A patched function and its stub lie below
    2^62 and, in a 64-bit binary, within 2 GiB of each other. Instances with a small operating
    system or allocator show that the hypotheses can be met.

    ** Not modelled

    Statistics texts and heap samples of [MallocExtension]; the fork handlers;
    deletion of arenas; the call trace and the extension class of the
    debugging allocator; the start of the profilers from the environment;
    stack unwinding and symbolisation (machine and platform code); the
    readers of process maps of systems other than Linux; windows/port.cc and
    windows/patch_functions.cc, which enumerate the modules of a process and
    replace the functions of the C runtime over system calls; logging;
    vendored test and backtrace libraries; the builds with other page sizes
    or with TCMALLOC_SMALL_BUT_SLOW. *)
From stdpp Require Export base gmap list fin_maps.
From Stdlib Require Export ZArith Lia.
From Stdlib Require Export Floats.SpecFloat.
Global Open Scope Z_scope.

(** ** Machine integers

    The code is modelled for the 64-bit build: [size_t], [uintptr_t],
    [PageID] and [Length] are 64-bit unsigned, [int] and [int32_t] 32-bit
    signed. A machine integer is a [Z]; a conversion writes its wrap-around
    out. *)
Definition u8 (x : Z) : Z := x mod 2 ^ 8.
Definition u16 (x : Z) : Z := x mod 2 ^ 16.
Definition u32 (x : Z) : Z := x mod 2 ^ 32.
Definition u64 (x : Z) : Z := x mod 2 ^ 64.
Definition s32 (x : Z) : Z := (x + 2 ^ 31) mod 2 ^ 32 - 2 ^ 31.
Definition s64 (x : Z) : Z := (x + 2 ^ 63) mod 2 ^ 64 - 2 ^ 63.

Lemma u32_small x : 0 <= x < 2 ^ 32 -> u32 x = x.
Proof. apply Z.mod_small. Qed.
Lemma u64_small x : 0 <= x < 2 ^ 64 -> u64 x = x.
Proof. apply Z.mod_small. Qed.
Lemma s32_small x : - 2 ^ 31 <= x < 2 ^ 31 -> s32 x = x.
Proof. intros H. unfold s32. rewrite Z.mod_small by lia. lia. Qed.
Lemma s64_small x : - 2 ^ 63 <= x < 2 ^ 63 -> s64 x = x.
Proof. intros H. unfold s64. rewrite Z.mod_small by lia. lia. Qed.
Lemma u64_range x : 0 <= u64 x < 2 ^ 64.
Proof. apply Z.mod_pos_bound. lia. Qed.
Lemma u32_range x : 0 <= u32 x < 2 ^ 32.
Proof. apply Z.mod_pos_bound. lia. Qed.

Lemma u64_add_l a b : u64 (u64 a + b) = u64 (a + b).
Proof. apply Zplus_mod_idemp_l. Qed.
Lemma u64_sub_l a b : u64 (u64 a - b) = u64 (a - b).
Proof. apply Zminus_mod_idemp_l. Qed.
Lemma s32_add_l a b : s32 (s32 a + b) = s32 (a + b).
Proof.
  unfold s32. f_equal.
  replace ((a + 2 ^ 31) mod 2 ^ 32 - 2 ^ 31 + b + 2 ^ 31) with ((a + 2 ^ 31) mod 2 ^ 32 + b) by lia.
  rewrite Zplus_mod_idemp_l. f_equal. lia.
Qed.

(** Equality modulo 2^64. *)
Lemma u64_eq a b : (exists k, a = b + 2 ^ 64 * k) -> u64 a = u64 b.
Proof. intros [k ->]. unfold u64. rewrite (Z.mul_comm (2 ^ 64)). apply Z_mod_plus_full. Qed.
Lemma u64_ex a : exists k, u64 a = a + 2 ^ 64 * k.
Proof. exists (- (a / 2 ^ 64)). unfold u64. pose proof (Z.div_mod a (2 ^ 64)). lia. Qed.

(** ** Faults and the state monad

    Code that can stop the process returns an [outcome]. [OOM] is the
    logged crash of an internal metadata allocation, [CheckFailed] a false
    [CHECK_CONDITION], [Undefined] an access the C++ standard does not
    define (a null descriptor, an index outside an array, a division by
    zero), and [OutOfFuel] a loop whose fuel ran out: theorems exclude it,
    so that a loop of the model is a loop that ends. *)
Inductive fault := OOM | CheckFailed | Undefined | OutOfFuel.

Inductive outcome (A : Type) :=
  | Ret (a : A)
  | Fault (f : fault).
Arguments Ret {A} a.
Arguments Fault {A} f.

#[export] Instance fault_eq_dec : EqDecision fault.
Proof. solve_decision. Defined.
#[export] Instance outcome_eq_dec `{EqDecision A} : EqDecision (outcome A).
Proof. solve_decision. Defined.

#[export] Instance outcome_ret : MRet outcome := @Ret.
#[export] Instance outcome_bind : MBind outcome := fun _ _ f m =>
  match m with Ret a => f a | Fault e => Fault e end.

(** [CHECK_CONDITION(b)]. *)
Definition check (b : bool) : outcome unit :=
  if b then Ret tt else Fault CheckFailed.

Lemma check_true b : b = true -> check b = Ret tt.
Proof. by intros ->. Qed.

(** A pointer that is dereferenced, an index that must be in range. *)
Definition deref {A} (o : option A) : outcome A :=
  match o with Some a => Ret a | None => Fault Undefined end.

(** Reduce the binds of a computation whose head is known. *)
Ltac obind := cbn [mbind outcome_bind mret outcome_ret deref].

(** State passing over a state type [S]. *)
Definition M (S A : Type) : Type := S -> outcome (A * S).

#[export] Instance M_ret S : MRet (M S) := fun _ a s => Ret (a, s).
#[export] Instance M_bind S : MBind (M S) := fun _ _ f m s =>
  match m s with Ret (a, s') => f a s' | Fault e => Fault e end.

Definition getS {S} : M S S := fun s => Ret (s, s).
Definition modS {S} (f : S -> S) : M S unit := fun s => Ret (tt, f s).
Definition liftM {S A} (o : outcome A) : M S A := fun s =>
  match o with Ret a => Ret (a, s) | Fault e => Fault e end.

(** Weakest precondition of a stateful computation: it returns and [Q]
    holds of the result and the final state, or it stops because an
    internal metadata allocation failed. No other fault is allowed. *)
Definition wp {S A} (m : M S A) (Q : A -> S -> Prop) (s : S) : Prop :=
  match m s with
  | Ret (a, s') => Q a s'
  | Fault OOM => True
  | Fault _ => False
  end.

Section WP.
Context {S : Type}.
Implicit Types s : S.

Lemma wp_ret {A} (a : A) (Q : A -> S -> Prop) s : Q a s -> wp (mret a) Q s.
Proof. done. Qed.

Lemma wp_bind {A B} (m : M S A) (f : A -> M S B) (Q : B -> S -> Prop) s :
  wp m (fun a s' => wp (f a) Q s') s -> wp (m ≫= f) Q s.
Proof.
  unfold wp, mbind, M_bind. destruct (m s) as [[a s']|[]]; done.
Qed.

Lemma wp_mono {A} (m : M S A) (P Q : A -> S -> Prop) s :
  wp m P s -> (forall a s', P a s' -> Q a s') -> wp m Q s.
Proof. unfold wp. destruct (m s) as [[a s']|[]]; auto. Qed.

Lemma wp_get (Q : S -> S -> Prop) s : Q s s -> wp getS Q s.
Proof. done. Qed.

Lemma wp_mod (f : S -> S) (Q : unit -> S -> Prop) s : Q tt (f s) -> wp (modS f) Q s.
Proof. done. Qed.

Lemma wp_lift {A} (o : outcome A) a (Q : A -> S -> Prop) s :
  o = Ret a -> Q a s -> wp (liftM o) Q s.
Proof. intros ->. done. Qed.

Lemma wp_conj {A} (m : M S A) (P Q : A -> S -> Prop) s :
  wp m P s -> wp m Q s -> wp m (fun a s' => P a s' /\ Q a s') s.
Proof. unfold wp. destruct (m s) as [[a s']|[]]; auto. Qed.
End WP.

(** Symbolic execution of a monadic program, one construct at a time. *)
Ltac wp_step :=
  lazymatch goal with
  | |- wp (mbind _ _) _ _ => apply wp_bind
  | |- wp (mret _) _ _ => apply wp_ret
  | |- wp getS _ _ => apply wp_get
  | |- wp (modS _) _ _ => apply wp_mod
  end.
Ltac wp_steps := repeat (wp_step; cbn beta).

(** ** Loops

    [loop] is a [while] whose body says to go on ([inl]) or to stop
    ([inr]); [foldM] is a [for] over the values of its index. *)
Fixpoint loop {A B} (fuel : nat) (body : A -> outcome (A + B)) (a : A) : outcome B :=
  match fuel with
  | O => Fault OutOfFuel
  | S fuel =>
      r ← body a;
      match r with
      | inl a' => loop fuel body a'
      | inr b => Ret b
      end
  end.

Fixpoint foldM {A X} (f : A -> X -> outcome A) (l : list X) (a : A) : outcome A :=
  match l with
  | [] => Ret a
  | x :: l => a' ← f a x; foldM f l a'
  end.

(** The values of the index of [for (i = start; i <= last; i += step)]. *)
Definition for_range (start last step : Z) : list Z :=
  (fun k => start + step * k) <$> seqZ 0 ((last - start) / step + 1).

Lemma loop_spec {A B} (body : A -> outcome (A + B)) (I : A -> Prop) (mu : A -> Z)
    (Q : B -> Prop) :
  (forall a, I a -> exists r, body a = Ret r /\
     match r with inl a' => I a' /\ 0 <= mu a' < mu a | inr b => Q b end) ->
  forall fuel a, I a -> 0 <= mu a < Z.of_nat fuel ->
  exists b, loop fuel body a = Ret b /\ Q b.
Proof.
  intros Hbody fuel. induction fuel as [|fuel IH]; intros a Ha Hmu; [lia|].
  simpl. destruct (Hbody a Ha) as ([a'|b] & -> & Hr); simpl; [|eauto].
  destruct Hr as [??]. apply IH; [done|lia].
Qed.

(** The same with the number of iterations left in the invariant. *)
Lemma loop_count {A B} (body : A -> outcome (A + B)) (I : nat -> A -> Prop) (Q : B -> Prop) :
  (forall n a, I n a -> exists r, body a = Ret r /\
     match r with inl a' => exists n', n = S n' /\ I n' a' | inr b => Q b end) ->
  forall n fuel a, I n a -> (n < fuel)%nat ->
  exists b, loop fuel body a = Ret b /\ Q b.
Proof.
  intros Hbody n fuel. revert n. induction fuel as [|fuel IH]; intros n a Ha Hn; [lia|].
  simpl. destruct (Hbody n a Ha) as ([a'|b] & -> & Hr); simpl; [|eauto].
  destruct Hr as (n' & -> & ?). apply (IH n'); [done|lia].
Qed.

Lemma foldM_spec {A X} (f : A -> X -> outcome A) (I : list X -> A -> Prop) :
  forall l a,
  (forall pre x post a, l = pre ++ x :: post -> I pre a ->
     exists a', f a x = Ret a' /\ I (pre ++ [x]) a') ->
  I [] a -> exists a', foldM f l a = Ret a' /\ I l a'.
Proof.
  intros l a Hf Ha.
  enough (Hg : forall post pre a, l = pre ++ post -> I pre a ->
            exists a', foldM f post a = Ret a' /\ I l a') by (by apply (Hg l [])).
  clear a Ha. induction post as [|x post IH]; intros pre a -> Ha; simpl.
  - exists a. by rewrite app_nil_r.
  - destruct (Hf pre x post a eq_refl Ha) as (a' & -> & Ha'). simpl.
    apply (IH (pre ++ [x])); [by rewrite <- app_assoc|done].
Qed.

Lemma elem_of_for_range start last step x :
  0 < step -> start <= last + step ->
  x ∈ for_range start last step <-> start <= x <= last /\ (x - start) mod step = 0.
Proof.
  intros Hs Hl. unfold for_range. rewrite list_elem_of_fmap. split.
  - intros (k & -> & Hk). rewrite elem_of_seqZ in Hk.
    replace (start + step * k - start) with (k * step) by lia.
    rewrite Z_mod_mult. split; [|done].
    assert (step * ((last - start) / step) <= last - start) by (apply Z.mul_div_le; lia). nia.
  - intros [Hx Hm]. exists ((x - start) / step).
    pose proof (Z.div_mod (x - start) step ltac:(lia)). split; [lia|].
    rewrite elem_of_seqZ. split; [apply Z.div_pos; lia|].
    assert ((x - start) / step <= (last - start) / step) by (apply Z.div_le_mono; lia). lia.
Qed.

Lemma elem_of_for_range1 a b x : x ∈ for_range a b 1 <-> a <= x <= b.
Proof.
  unfold for_range. rewrite list_elem_of_fmap, Z.div_1_r. setoid_rewrite elem_of_seqZ. split.
  - intros (k & -> & ?). lia.
  - intros. exists (x - a). lia.
Qed.

(** The state-passing versions. *)
Fixpoint loopM {S A B} (fuel : nat) (body : A -> M S (A + B)) (a : A) : M S B :=
  match fuel with
  | O => liftM (Fault OutOfFuel)
  | S fuel =>
      r ← body a;
      match r with
      | inl a' => loopM fuel body a'
      | inr b => mret b
      end
  end.

Fixpoint forM_ {S X} (l : list X) (f : X -> M S unit) : M S unit :=
  match l with
  | [] => mret tt
  | x :: l => _ ← f x; forM_ l f
  end.

Lemma loopM_count {S A B} (body : A -> M S (A + B)) (I : nat -> A -> S -> Prop)
    (Q : B -> S -> Prop) :
  (forall n a s, I n a s -> wp (body a) (fun r s' =>
     match r with inl a' => exists n', n = Datatypes.S n' /\ I n' a' s' | inr b => Q b s' end) s) ->
  forall n fuel a s, I n a s -> (n < fuel)%nat -> wp (loopM fuel body a) Q s.
Proof.
  intros Hbody n fuel. revert n. induction fuel as [|fuel IH]; intros n a s Ha Hn; [lia|].
  simpl. apply wp_bind. eapply wp_mono; [by apply (Hbody n)|].
  intros [a'|b] s' Hr; cbn beta iota; [|by apply wp_ret].
  destruct Hr as (n' & -> & ?). apply (IH n'); [done|lia].
Qed.

Lemma wp_forM_ {S X} (f : X -> M S unit) (I : list X -> S -> Prop) l s :
  (forall pre x post s, l = pre ++ x :: post -> I pre s -> wp (f x) (fun _ s' => I (pre ++ [x]) s') s) ->
  I [] s -> wp (forM_ l f) (fun _ s' => I l s') s.
Proof.
  intros Hf. enough (Hg : forall post pre s, l = pre ++ post -> I pre s -> wp (forM_ post f) (fun _ s' => I l s') s)
    by (by apply (Hg l [])).
  induction post as [|x post IH]; intros pre s1 E HI.
  - rewrite app_nil_r in E. subst pre. by apply wp_ret.
  - cbn [forM_]. apply wp_bind. eapply wp_mono; [by eapply Hf|]. intros [] s2 HI2.
    apply (IH (pre ++ [x])); [by rewrite <- app_assoc|done].
Qed.

(** A [while] with a bound of [2 ^ n] iterations. *)
Fixpoint wide {A B} (n : nat) (body : A -> outcome (A + B)) (a : A) : outcome (A + B) :=
  match n with
  | O => body a
  | S n => r ← wide n body a; match r with inl a' => wide n body a' | inr b => Ret (inr b) end
  end.
Definition wide_loop {A B} (n : nat) (body : A -> outcome (A + B)) (a : A) : outcome B :=
  r ← wide n body a; match r with inl _ => Fault OutOfFuel | inr b => Ret b end.

Section Wide.
Context {A B : Type} (body : A -> outcome (A + B)) (I : A -> Prop) (mu : A -> Z) (Q : B -> Prop).
Hypothesis Hbody : forall a, I a -> exists r, body a = Ret r /\
  match r with inl a' => I a' /\ 0 <= mu a' < mu a | inr b => Q b end.

Lemma wide_spec n : forall a, I a -> exists r, wide n body a = Ret r /\
  match r with inl a' => I a' /\ 0 <= mu a' /\ mu a' + 2 ^ Z.of_nat n <= mu a | inr b => Q b end.
Proof.
  induction n as [|n IH]; intros a Ha.
  - destruct (Hbody a Ha) as ([a'|b] & E & Hr); eexists; (split; [exact E|]); cbn; [|done]. destruct Hr. split; [done|lia].
  - cbn [wide]. destruct (IH a Ha) as ([a'|b] & -> & Hr); obind; [|by eexists].
    destruct Hr as (Ha' & ? & ?). destruct (IH a' Ha') as ([a2|b] & E & Hr); eexists; (split; [exact E|]); [|done].
    destruct Hr as (? & ? & ?). split; [done|]. rewrite Nat2Z.inj_succ, Z.pow_succ_r by lia. lia.
Qed.
Lemma wide_loop_spec n a : I a -> mu a < 2 ^ Z.of_nat n -> exists b, wide_loop n body a = Ret b /\ Q b.
Proof.
  intros Ha Hmu. unfold wide_loop. destruct (wide_spec n a Ha) as ([a'|b] & -> & Hr); obind; [lia|]. by exists b.
Qed.
End Wide.

(** *** What a program may do to the state

    [moves R m]: whenever [m] returns, the old and the new state are related
    by the preorder [R]. The database follows the structure of the program;
    a file adds the lemmas of its own operations. *)
Definition moves {S A} (R : S -> S -> Prop) (m : M S A) : Prop :=
  forall s a s', m s = Ret (a, s') -> R s s'.

Section Moves.
Context {S : Type} (R : S -> S -> Prop) `{!PreOrder R}.
Lemma moves_ret {A} (a : A) : moves R (mret a).
Proof. by intros s ? ? [= _ <-]. Qed.
Lemma moves_get : moves R getS.
Proof. by intros s ? ? [= _ <-]. Qed.
Lemma moves_mod (g : S -> S) : (forall s, R s (g s)) -> moves R (modS g).
Proof using. intros Hg s ? ? [= _ <-]. apply Hg. Qed.
Lemma moves_lift {A} (o : outcome A) : moves R (liftM o).
Proof. intros s a s'. unfold liftM. by destruct o as [b|]; [intros [= _ <-]|]. Qed.
Lemma moves_bind {A B} (m : M S A) (k : A -> M S B) :
  moves R m -> (forall a, moves R (k a)) -> moves R (mbind k m).
Proof.
  intros Hm Hk s b s'. unfold mbind, M_bind. destruct (m s) as [[a s1]|] eqn:E; [|done].
  intros E'. transitivity s1; [exact (Hm _ _ _ E)|exact (Hk _ _ _ _ E')].
Qed.
Lemma moves_if {A} (c : bool) (m m' : M S A) : moves R m -> moves R m' -> moves R (if c then m else m').
Proof using. by destruct c. Qed.
Lemma moves_loopM {A B} fuel (body : A -> M S (A + B)) a : (forall a, moves R (body a)) -> moves R (loopM fuel body a).
Proof.
  intros Hb. revert a. induction fuel as [|fuel IH]; intros a; [apply moves_lift|].
  cbn [loopM]. apply moves_bind; [apply Hb|]. intros [a'|b]; [apply IH|apply moves_ret].
Qed.
Lemma moves_forM_ {X} (l : list X) (g : X -> M S unit) : (forall x, moves R (g x)) -> moves R (forM_ l g).
Proof.
  intros Hg. induction l as [|x l IH]; [apply moves_ret|]. cbn [forM_]. apply moves_bind; [apply Hg|done].
Qed.
Lemma wp_moves {A} (m : M S A) (Q : A -> S -> Prop) s :
  moves R m -> wp m Q s -> wp m (fun a s' => Q a s' /\ R s s') s.
Proof using. unfold wp. intros Hk. destruct (m s) as [[a s']|] eqn:E; [|done]. intros HQ. split; [done|]. exact (Hk _ _ _ E). Qed.
End Moves.

(** Nothing of [f] changes. *)
Definition same {S T} (f : S -> T) (s s' : S) : Prop := f s' = f s.
#[export] Instance same_preorder {S T} (f : S -> T) : PreOrder (same f).
Proof. split; [by intros s|]. unfold same. intros s1 s2 s3 H1 H2. congruence. Qed.
Abbreviation keeps f := (moves (same f)).

Create HintDb moves.
#[export] Hint Resolve moves_ret moves_get moves_lift : moves.
(** Follow the structure of a program down to the hints. *)
Ltac moves :=
  repeat lazymatch goal with
  | |- PreOrder _ => apply _
  | |- forall _, _ => intro
  | |- moves _ (mbind _ _) => first [solve [auto 3 with moves nocore typeclass_instances] | apply moves_bind]
  | |- moves _ (loopM _ _ _) => apply moves_loopM
  | |- moves _ (forM_ _ _) => apply moves_forM_
  | |- moves _ (modS _) => apply moves_mod; intro
  | |- moves _ (match ?x with _ => _ end) => destruct x
  | |- moves _ _ => solve [auto 5 with moves nocore typeclass_instances]
  | |- _ => solve [auto 5 with moves nocore]
  end.

(** What a call that returned did: run it step by step. *)
Lemma bind_Ret {S A B} (m : M S A) (k : A -> M S B) s b s' : mbind k m s = Ret (b, s') ->
  exists a s1, m s = Ret (a, s1) /\ k a s1 = Ret (b, s').
Proof. unfold mbind, M_bind. destruct (m s) as [[a s1]|]; [|done]. by exists a, s1. Qed.

(** A property of every returned result joins a triple. *)
Lemma wp_result {S A} (m : M S A) (Q R : A -> S -> Prop) s :
  (forall a s', m s = Ret (a, s') -> R a s') -> wp m Q s -> wp m (fun a s' => Q a s' /\ R a s') s.
Proof. unfold wp. destruct (m s) as [[a s']|]; auto. Qed.

(** Fixed-size C arrays with static (zero) initialisation. *)
Definition aget (n : Z) (a : gmap Z Z) (i : Z) : outcome Z :=
  if (0 <=? i) && (i <? n) then Ret (default 0 (a !! i)) else Fault Undefined.
Definition aset (n : Z) (a : gmap Z Z) (i v : Z) : outcome (gmap Z Z) :=
  if (0 <=? i) && (i <? n) then Ret (<[i := v]> a) else Fault Undefined.

Lemma aget_in n (a : gmap Z Z) i : 0 <= i < n -> aget n a i = Ret (default 0 (a !! i)).
Proof.
  intros [??]. unfold aget. rewrite (proj2 (Z.leb_le 0 i)), (proj2 (Z.ltb_lt i n)); done.
Qed.
Lemma aset_in n (a : gmap Z Z) i v : 0 <= i < n -> aset n a i v = Ret (<[i := v]> a).
Proof.
  intros [??]. unfold aset. rewrite (proj2 (Z.leb_le 0 i)), (proj2 (Z.ltb_lt i n)); done.
Qed.

Lemma filter_none {A} (P : A -> Prop) `{forall x, Decision (P x)} (l : list A) :
  (forall x, x ∈ l -> ~ P x) -> filter P l = [].
Proof.
  induction l as [|x l IH]; intros Hl; [done|].
  rewrite filter_cons_False by (apply Hl; left). apply IH. intros y Hy. apply Hl. by right.
Qed.

(** ** Sums and ownership maps *)

(** Sums over lists. *)
Definition sumZ (f : Z -> Z) (l : list Z) : Z := foldr (fun p a => f p + a) 0 l.

Lemma sumZ_perm f l l' : l ≡ₚ l' -> sumZ f l = sumZ f l'.
Proof. induction 1; simpl; lia. Qed.
Lemma sumZ_ext f g l : (forall p, p ∈ l -> f p = g p) -> sumZ f l = sumZ g l.
Proof.
  induction l as [|p l IH]; intros Hf; simpl; [done|].
  rewrite (Hf p), IH; [done| |by left]. intros q Hq. apply Hf. by right.
Qed.
Lemma sumZ_nonneg f l : (forall p, 0 <= f p) -> 0 <= sumZ f l.
Proof. intros Hf. induction l as [|p l IH]; simpl; [lia|]. specialize (Hf p). lia. Qed.

(** The keys [l] added to [m] with the value [a]. *)
Definition give {A} (a : A) (l : list Z) (m : gmap Z A) : gmap Z A := foldr (fun x m => <[x := a]> m) m l.

Lemma lookup_give {A} (a : A) l m x : give a l m !! x = if decide (x ∈ l) then Some a else m !! x.
Proof.
  induction l as [|y l IH]; [done|]. cbn [give foldr]. fold (give a l m).
  destruct (decide (x = y)) as [->|Hn].
  - rewrite lookup_insert_eq, decide_True by set_solver. done.
  - rewrite lookup_insert_ne, IH by done.
    destruct (decide (x ∈ l)), (decide (x ∈ y :: l)); set_solver.
Qed.
Lemma give_app {A} (a : A) l l' m : give a (l ++ l') m = give a l (give a l' m).
Proof. unfold give. by rewrite foldr_app. Qed.
Lemma give_mono {A} (a : A) l (m m' : gmap Z A) : m ⊆ m' -> give a l m ⊆ give a l m'.
Proof.
  intros Hm. apply map_subseteq_spec. intros x v. rewrite !lookup_give.
  destruct (decide _); [done|]. intros Hx. by eapply lookup_weaken.
Qed.

(** ** IEEE double precision, as the C++ [double] *)
Definition double : Type := spec_float.
Definition d_of_Z (n : Z) : double := binary_normalize 53 1024 n 0 false.
Definition d_div (x y : double) : double := SFdiv 53 1024 x y.
Definition d_mul (x y : double) : double := SFmul 53 1024 x y.
Definition d_ltb (x y : double) : bool := SFltb x y.
Definition d_leb (x y : double) : bool := SFleb x y.

(** Conversion to an integer type truncates toward zero; NaN and the
    infinities are undefined. *)
Definition d_trunc (x : double) : option Z :=
  match x with
  | S754_zero _ => Some 0
  | S754_finite s m e =>
      let a := match e with
               | Zneg k => Z.shiftr (Zpos m) (Zpos k)
               | _ => Z.shiftl (Zpos m) e
               end in
      Some (if s then - a else a)
  | _ => None
  end.

(** ** Shared facts about bit operations *)
Lemma land_ones_mod x n : 0 <= n -> Z.land x (2 ^ n - 1) = x mod 2 ^ n.
Proof.
  intros. replace (2 ^ n - 1) with (Z.ones n) by (rewrite Z.ones_equiv; lia).
  by apply Z.land_ones.
Qed.

Lemma shiftr_div x n : 0 <= n -> Z.shiftr x n = x / 2 ^ n.
Proof. apply Z.shiftr_div_pow2. Qed.
Lemma shiftl_mul x n : 0 <= n -> Z.shiftl x n = x * 2 ^ n.
Proof. apply Z.shiftl_mul_pow2. Qed.

Create Rewrite HintDb tcm.
#[export] Hint Rewrite shiftr_div shiftl_mul land_ones_mod using lia : tcm.

(** [lia] with division and remainder by constants. *)
Ltac zdiv := Z.div_mod_to_equations; lia.
