(* ===== verification/Common.v ===== *)
(** * Configuration constants and the size-class map

    Models src/src/src/common.h and the [SizeMap] half of common.cc for the
    default 64-bit configuration: 8 KiB pages, 16-byte minimum alignment,
    48-bit addresses. *)
From S2P Require Import Prelude.

Definition kMinAlign : Z := 16.
Definition kPageShift : Z := 13.
Definition kClassSizesMax : Z := 128.
Definition kMaxThreadCacheSize : Z := Z.shiftl 4 20.
Definition kPageSize : Z := Z.shiftl 1 kPageShift.
Definition kMaxSize : Z := 256 * 1024.
Definition kAlignment : Z := 8.
Definition kMaxPages : Z := Z.shiftl 1 (20 - kPageShift).
Definition kDefaultOverallThreadCacheSize : Z := 8 * kMaxThreadCacheSize.
Definition kMinThreadCacheSize : Z := kMaxSize * 2.
Definition kStealAmount : Z := Z.shiftl 1 16.
Definition kMaxOverages : Z := 3.
Definition kMaxDynamicFreeListLength : Z := 8192.
Definition kMaxValidPages : Z := Z.shiftr (2 ^ 64 - 1) kPageShift.
Definition kAddressBits : Z := 48.

(** [lia] after evaluating the configuration constants. *)
Ltac consts :=
  change kMinAlign with 16 in *; change kPageShift with 13 in *;
  change kClassSizesMax with 128 in *; change kPageSize with 8192 in *;
  change kMaxSize with 262144 in *; change kAlignment with 8 in *;
  change kMaxPages with 128 in *; change kMaxValidPages with 2251799813685247 in *;
  change kAddressBits with 48 in *; change kStealAmount with 65536 in *;
  change kMaxThreadCacheSize with 4194304 in *;
  change kMinThreadCacheSize with 524288 in *;
  change kDefaultOverallThreadCacheSize with 33554432 in *;
  change kMaxDynamicFreeListLength with 8192 in *; change kMaxOverages with 3 in *.
Ltac clia := consts; lia.

(** [tcmalloc::pages]: bytes to pages, rounding up. *)
Definition pages (bytes : Z) : Z :=
  u64 (Z.shiftr bytes kPageShift +
       (if Z.land bytes (kPageSize - 1) >? 0 then 1 else 0)).

Module SizeMap.

Definition kMaxSmallSize : Z := 1024.
Definition kClassArraySize : Z :=
  Z.shiftr (kMaxSize + 127 + Z.shiftl 120 7) 7 + 1.

(** The object: three arrays indexed by class, the flattened size-to-class
    array, and two scalars. *)
Record SizeMap := mkSizeMap {
  class_array_ : gmap Z Z;
  num_objects_to_move_ : gmap Z Z;
  class_to_size_ : gmap Z Z;
  class_to_pages_ : gmap Z Z;
  min_span_size_in_pages_ : Z;
  num_size_classes : Z }.

Definition SmallSizeClass (s : Z) : Z := Z.shiftr (u32 (u32 s + 7)) 3.
Definition LargeSizeClass (s : Z) : Z :=
  Z.shiftr (u32 (u32 s + 127 + Z.shiftl 120 7)) 7.

Definition ClassIndexMaybe (s : Z) : option Z :=
  if s <=? kMaxSmallSize then Some (Z.shiftr (u32 (u32 s + 7)) 3)
  else if s <=? kMaxSize then Some (Z.shiftr (u32 (u32 s + 127 + Z.shiftl 120 7)) 7)
  else None.

Definition ClassIndex (s : Z) : Z :=
  if s <=? kMaxSmallSize then SmallSizeClass s else LargeSizeClass s.

Definition SizeClass (sm : SizeMap) (size : Z) : outcome Z :=
  aget kClassArraySize (class_array_ sm) (ClassIndex size).

Definition GetSizeClass (sm : SizeMap) (size : Z) : outcome (option Z) :=
  match ClassIndexMaybe size with
  | None => Ret None
  | Some idx => cl ← aget kClassArraySize (class_array_ sm) idx; Ret (Some cl)
  end.

Definition ByteSizeForClass (sm : SizeMap) (cl : Z) : outcome Z :=
  aget kClassSizesMax (class_to_size_ sm) cl.
Definition class_to_size (sm : SizeMap) (cl : Z) : outcome Z :=
  aget kClassSizesMax (class_to_size_ sm) cl.
Definition class_to_pages (sm : SizeMap) (cl : Z) : outcome Z :=
  aget kClassSizesMax (class_to_pages_ sm) cl.
Definition num_objects_to_move (sm : SizeMap) (cl : Z) : outcome Z :=
  aget kClassSizesMax (num_objects_to_move_ sm) cl.

(** ** Building the map *)

Definition kDefaultTransferNumObjecs : Z := 32.

(** The flag after the explicit initialisation: [envval] is what [strtol]
    makes of TCMALLOC_TRANSFER_NUM_OBJ, [None] when the variable is unset. *)
Definition InitTCMallocTransferNumObjects (flag : Z) (envval : option Z) : Z :=
  if flag =? 0 then
    match envval with
    | None => kDefaultTransferNumObjecs
    | Some v => s32 v
    end
  else flag.

Definition LgFloor_step (nl : Z * Z) (i : Z) : Z * Z :=
  let '(n, log) := nl in
  let shift := Z.shiftl 1 i in
  let x := Z.shiftr n shift in
  if negb (x =? 0) then (x, log + shift) else (n, log).

Definition LgFloor (n : Z) : Z :=
  snd (foldl LgFloor_step (n, 0) [4; 3; 2; 1; 0]).

Definition AlignmentForSize (size : Z) : outcome Z :=
  let alignment :=
    if size >? kMaxSize then kPageSize
    else if size >=? 128 then Z.shiftl 1 (LgFloor size) / 8
    else if size >=? kMinAlign then kMinAlign
    else kAlignment in
  let alignment := if alignment >? kPageSize then kPageSize else alignment in
  _ ← check ((size <? kMinAlign) || (alignment >=? kMinAlign));
  _ ← check (Z.land alignment (alignment - 1) =? 0);
  Ret alignment.

(** The quotient is computed in [double] and truncated to [int]. *)
Definition NumMoveSize (flag size : Z) : outcome Z :=
  if size =? 0 then Ret 0 else
  num ← deref (d_trunc (d_div (d_of_Z (64 * 1024)) (d_of_Z size)));
  let num := if num <? 2 then 2 else num in
  Ret (if num >? flag then flag else num).

(** The pages of a span of the class: an inner loop that adds spans until
    the left-over is at most an eighth, an outer one until enough objects
    fit. The comparison with [blocks_to_move] is at [size_t]. *)
Definition pad_body (min_span_size size psize : Z) : outcome (Z + Z) :=
  Ret (if psize mod size >? Z.shiftr psize 3 then inl (u64 (psize + min_span_size))
       else inr psize).
Definition psize_fuel : nat := 1024.
Definition psize_body (min_span_size size blocks_to_move psize : Z) : outcome (Z + Z) :=
  psize ← loop psize_fuel (pad_body min_span_size size) (u64 (psize + min_span_size));
  Ret (if psize / size <? u64 blocks_to_move then inl psize else inr psize).
Definition span_bytes (min_span_size size blocks_to_move : Z) : outcome Z :=
  loop psize_fuel (psize_body min_span_size size blocks_to_move) 0.

Record Classes := mkClasses { sc : Z; c_pages : gmap Z Z; c_size : gmap Z Z }.

(** Merge the size into the last class when that leaves its number of
    objects per span unchanged, otherwise open a new class. *)
Definition add_class (size my_pages : Z) (st : Classes) : outcome Classes :=
  prev_pages ← (if sc st >? 1 then aget kClassSizesMax (c_pages st) (sc st - 1) else Ret 0);
  prev_size ← (if sc st >? 1 then aget kClassSizesMax (c_size st) (sc st - 1) else Ret 0);
  let my_objects := Z.shiftl my_pages kPageShift / size in
  let prev_objects := Z.shiftl prev_pages kPageShift / prev_size in
  if (sc st >? 1) && (my_pages =? prev_pages) && (my_objects =? prev_objects) then
    cs ← aset kClassSizesMax (c_size st) (sc st - 1) size;
    Ret (mkClasses (sc st) (c_pages st) cs)
  else
    cp ← aset kClassSizesMax (c_pages st) (sc st) my_pages;
    cs ← aset kClassSizesMax (c_size st) (sc st) size;
    Ret (mkClasses (sc st + 1) cp cs).

(** One iteration of the class-building loop; the result also carries the
    loop's alignment increment. *)
Definition class_step (min_span_size flag : Z) (size : Z) (st : Classes)
    : outcome (Classes * Z) :=
  alignment ← AlignmentForSize size;
  _ ← check (size mod alignment =? 0);
  num ← NumMoveSize flag size;
  let blocks_to_move := Z.quot num 4 in
  psize ← span_bytes min_span_size size blocks_to_move;
  st ← add_class size (Z.shiftr psize kPageShift) st;
  Ret (st, alignment).

Definition class_body (min_span_size flag : Z) (a : Z * Classes)
    : outcome (Z * Classes + Classes) :=
  let '(size, st) := a in
  if size <=? kMaxSize then
    '(st, alignment) ← class_step min_span_size flag size st;
    Ret (inl (u64 (size + alignment), st))
  else Ret (inr st).

Definition class_fuel : nat := 128.
Definition compute_classes (min_span_size flag : Z) (st : Classes) : outcome Classes :=
  loop class_fuel (class_body min_span_size flag) (kAlignment, st).

(** The mapping array: for each class, its sizes in steps of 8. *)
Definition fill_class (c : Z) (arr : gmap Z Z) (s : Z) : outcome (gmap Z Z) :=
  aset kClassArraySize arr (ClassIndex s) c.
Definition fill_step (cs : gmap Z Z) (a : gmap Z Z * Z) (c : Z) : outcome (gmap Z Z * Z) :=
  let '(arr, next_size) := a in
  max_size_in_class ← aget kClassSizesMax cs c;
  arr ← foldM (fill_class c) (for_range next_size max_size_in_class kAlignment) arr;
  Ret (arr, max_size_in_class + kAlignment).
Definition fill_class_array (cs : gmap Z Z) (n : Z) (arr : gmap Z Z) : outcome (gmap Z Z) :=
  '(arr, _) ← foldM (fill_step cs) (seqZ 1 (n - 1)) (arr, 0);
  Ret arr.

(** The "double-check sizes" pass: each failed test logs with [kCrash]. *)
Definition double_check_body (sm : SizeMap) (size : Z) : outcome (Z + unit) :=
  if size <=? kMaxSize then
    c ← SizeClass sm size;
    _ ← check (negb ((c <=? 0) || (c >=? num_size_classes sm)));
    prev ← (if c >? 1 then class_to_size sm (c - 1) else Ret (-1));
    _ ← check (negb ((c >? 1) && (size <=? prev)));
    s ← class_to_size sm c;
    _ ← check (negb ((size >? s) || (s =? 0)));
    Ret (inl (if size <=? kMaxSmallSize then size + 8 else size + 128))
  else Ret (inr tt).
Definition double_check (sm : SizeMap) : outcome unit :=
  loop 4096 (double_check_body sm) 0.

(** The natural-alignment pass over [align = 16, 32, ..., kPageSize]. *)
Definition check_aligned (sm : SizeMap) (align : Z) (_ : unit) (size : Z) : outcome unit :=
  c ← SizeClass sm size;
  s ← class_to_size sm c;
  check (s mod align =? 0).
Definition check_natural_alignment (sm : SizeMap) : outcome unit :=
  foldM (fun _ align =>
           foldM (check_aligned sm align) (for_range align (kPageSize - 1) align) tt)
    ((fun k => Z.shiftl kMinAlign k) <$> seqZ 0 10) tt.

Definition fill_num_objects (flag : Z) (sm : SizeMap) : outcome (gmap Z Z) :=
  foldM (fun m cl => s ← ByteSizeForClass sm cl; n ← NumMoveSize flag s;
                     aset kClassSizesMax m cl n)
    (seqZ 1 (num_size_classes sm - 1)) (num_objects_to_move_ sm).

Definition min_span_bytes (native_page_size : Z) : Z :=
  let m := Z.max native_page_size kPageSize in
  if (m >? kPageSize) && negb (m mod kPageSize =? 0) then kPageSize else m.

(** [SizeMap::Init] on the object [sm0], with the transfer flag already
    initialised and the native page size taken from the environment. *)
Definition Init (native_page_size flag : Z) (sm0 : SizeMap) : outcome SizeMap :=
  let min_span_size := min_span_bytes native_page_size in
  let msp := min_span_size / kPageSize in
  _ ← check (ClassIndex 0 =? 0);
  _ ← check (ClassIndex kMaxSize <? kClassArraySize);
  st ← compute_classes min_span_size flag (mkClasses 1 (class_to_pages_ sm0) (class_to_size_ sm0));
  _ ← check (sc st <=? kClassSizesMax);
  arr ← fill_class_array (c_size st) (sc st) (class_array_ sm0);
  let sm := mkSizeMap arr (num_objects_to_move_ sm0) (c_size st) (c_pages st) msp (sc st) in
  _ ← double_check sm;
  _ ← check_natural_alignment sm;
  nom ← fill_num_objects flag sm;
  Ret (mkSizeMap arr nom (c_size st) (c_pages st) msp (sc st)).

(** Static storage before [Init]. *)
Definition zero : SizeMap := mkSizeMap ∅ ∅ ∅ ∅ 0 0.

(** ** [LgFloor] is the integer logarithm *)

Lemma LgFloor_step_log n log i :
  0 <= i -> 0 < n < 2 ^ (2 * 2 ^ i) ->
  let '(n', log') := LgFloor_step (n, log) i in
  0 < n' < 2 ^ (2 ^ i) /\ log' + Z.log2 n' = log + Z.log2 n.
Proof.
  intros Hi [Hn Hlt]. unfold LgFloor_step.
  rewrite shiftl_mul, Z.mul_1_l by lia.
  pose proof (Z.pow_pos_nonneg 2 i ltac:(lia) Hi) as Hp.
  pose proof (Z.pow_pos_nonneg 2 (2 ^ i) ltac:(lia) ltac:(lia)) as Hpp.
  replace (2 * 2 ^ i) with (2 ^ i + 2 ^ i) in Hlt by lia.
  rewrite Z.pow_add_r in Hlt by lia.
  destruct (Z.eqb_spec (Z.shiftr n (2 ^ i)) 0) as [E|E]; simpl.
  - rewrite shiftr_div in E by lia. apply Z.div_small_iff in E; [|lia].
    split; [|done]. lia.
  - assert (0 <= Z.shiftr n (2 ^ i)) as Hnn by (apply Z.shiftr_nonneg; lia).
    assert (0 < Z.shiftr n (2 ^ i)) by (clear Hlt; lia).
    split; [split; [done|]|].
    + rewrite shiftr_div by lia. apply Z.div_lt_upper_bound; lia.
    + rewrite Z.log2_shiftr by lia.
      assert (2 ^ i <= Z.log2 n); [|lia].
      apply (proj1 (Z.log2_le_pow2 n (2 ^ i) Hn)).
      destruct (Z.lt_ge_cases n (2 ^ 2 ^ i)) as [Hl|]; [|lia].
      rewrite shiftr_div, Z.div_small in E by lia. done.
Qed.

Lemma LgFloor_log2 n : 0 < n < 2 ^ 32 -> LgFloor n = Z.log2 n.
Proof.
  intros Hn. unfold LgFloor. cbn [foldl].
  pose proof (LgFloor_step_log n 0 4 ltac:(lia) Hn) as H4.
  destruct (LgFloor_step (n, 0) 4) as [n4 l4].
  pose proof (LgFloor_step_log n4 l4 3 ltac:(lia) (proj1 H4)) as H3.
  destruct (LgFloor_step (n4, l4) 3) as [n3 l3].
  pose proof (LgFloor_step_log n3 l3 2 ltac:(lia) (proj1 H3)) as H2.
  destruct (LgFloor_step (n3, l3) 2) as [n2 l2].
  pose proof (LgFloor_step_log n2 l2 1 ltac:(lia) (proj1 H2)) as H1.
  destruct (LgFloor_step (n2, l2) 1) as [n1 l1].
  pose proof (LgFloor_step_log n1 l1 0 ltac:(lia) (proj1 H1)) as H0.
  destruct (LgFloor_step (n1, l1) 0) as [n0 l0]. cbn [snd].
  assert (n0 = 1) as -> by (change (2 ^ 2 ^ 0) with 2 in *; lia).
  change (Z.log2 1) with 0 in *. lia.
Qed.

(** ** Spans of a class *)

Lemma pad_loop_spec ms size p0 :
  8192 <= ms <= 2 ^ 32 -> 8 <= size <= 2 ^ 18 -> 0 < p0 <= 2 ^ 34 -> p0 mod ms = 0 ->
  exists p, loop psize_fuel (pad_body ms size) p0 = Ret p /\
    p mod ms = 0 /\ p0 <= p <= Z.max p0 (8 * size + ms) /\ p mod size <= p / 8.
Proof.
  intros Hms Hsize Hp0 Hmod.
  apply (loop_spec _
    (fun p => p mod ms = 0 /\ p0 <= p <= Z.max p0 (8 * size + ms))
    (fun p => if p <? 8 * size then (8 * size - p) / ms + 1 else 0)).
  - intros p [Hm Hp]. eexists. split; [done|].
    rewrite shiftr_div by lia. change (2 ^ 3) with 8.
    destruct (Z.gtb_spec (p mod size) (p / 8)) as [Hgt|Hle]; [|by auto].
    pose proof (Z.mod_pos_bound p size ltac:(lia)).
    assert (p < 8 * size) by (Z.div_mod_to_equations; lia).
    rewrite u64_small by lia.
    split; [split; [|lia]|].
    + rewrite <- Z.add_mod_idemp_l, Hm, Z.add_0_l by lia. apply Z_mod_same_full.
    + rewrite (proj2 (Z.ltb_lt p _)) by lia.
      destruct (Z.ltb_spec (p + ms) (8 * size)).
      * replace (8 * size - p) with (8 * size - (p + ms) + 1 * ms) by lia.
        rewrite Z.div_add by lia. split; [|lia].
        pose proof (Z.div_pos (8 * size - (p + ms)) ms). lia.
      * pose proof (Z.div_pos (8 * size - p) ms). lia.
  - split; [done|lia].
  - destruct (Z.ltb_spec p0 (8 * size)); [|unfold psize_fuel; lia].
    pose proof (Z.div_pos (8 * size - p0) ms).
    assert ((8 * size - p0) / ms <= 256).
    { apply Z.div_le_upper_bound; [lia|]. nia. }
    unfold psize_fuel. lia.
Qed.

Lemma span_bytes_spec ms size blocks :
  8192 <= ms <= 2 ^ 32 -> 8 <= size <= 2 ^ 18 -> 0 <= blocks ->
  blocks * size <= 65536 ->
  exists p, span_bytes ms size blocks = Ret p /\
    0 < p < 2 ^ 34 /\ p mod ms = 0 /\ p mod size <= p / 8 /\ blocks <= p / size /\
    p <= Z.max 65536 (8 * size) + ms.
Proof.
  intros Hms Hsize Hb Hbs.
  apply (loop_spec _
    (fun p => p mod ms = 0 /\ 0 <= p < 65536)
    (fun p => (65536 - p) / 8192)).
  - intros p [Hm Hp]. unfold psize_body.
    assert ((p + ms) mod ms = 0) as Hm'
      by (rewrite <- Z.add_mod_idemp_l, Hm, Z.add_0_l by lia; apply Z_mod_same_full).
    rewrite (u64_small (p + ms)) by lia.
    destruct (pad_loop_spec ms size (p + ms)) as (p' & -> & Hm2 & Hp' & Hw); [lia..|].
    simpl. eexists. split; [done|]. rewrite (u64_small blocks) by nia.
    destruct (Z.ltb_spec (p' / size) blocks) as [Hlt|Hge].
    + assert (p' < blocks * size).
      { pose proof (Z.div_mod p' size ltac:(lia)).
        pose proof (Z.mod_pos_bound p' size ltac:(lia)). nia. }
      split; [split; [done|lia]|]. zdiv.
    + split_and!; lia.
  - rewrite Z.mod_0_l by lia. lia.
  - unfold psize_fuel. change ((65536 - 0) / 8192) with 8. lia.
Qed.

(** ** The grid of candidate sizes

    The sizes the class-building loop visits do not depend on the
    configuration: they are the 106 values below, the last one past
    [kMaxSize]. *)
Fixpoint grid_from (fuel : nat) (size : Z) : list Z :=
  match fuel with
  | O => []
  | S fuel => size :: match AlignmentForSize size with
                      | Ret a => grid_from fuel (size + a)
                      | Fault _ => []
                      end
  end.
Definition size_grid : list Z := grid_from 106 kAlignment.

(** Sizes up to 1024 are multiples of 8 and larger ones of 128, so that a
    class boundary is a boundary of the flattened index. *)
Definition boundary (x : Z) : bool :=
  ((x <=? kMaxSmallSize) && (x mod 8 =? 0)) || ((kMaxSmallSize <=? x) && (x mod 128 =? 0)).

Definition grid_pair_ok (x y : Z) : bool :=
  bool_decide (AlignmentForSize x = Ret (y - x)) && (x mod (y - x) =? 0) && (x <? y) &&
  (y <=? 2 ^ 20) && boundary x && (kAlignment <=? x) &&
  bool_decide (d_trunc (d_div (d_of_Z (64 * 1024)) (d_of_Z x)) = Some (65536 / x)).
Definition grid_ok_at (i : nat) : bool :=
  match size_grid !! i with
  | Some x => if x <=? kMaxSize then
                match size_grid !! S i with Some y => grid_pair_ok x y | None => false end
              else x =? 270336
  | None => false
  end.

Lemma grid_ok : forallb grid_ok_at (seq 0 106) = true.
Proof. vm_compute. reflexivity. Qed.

Lemma grid_length : length size_grid = 106%nat.
Proof. vm_compute. reflexivity. Qed.

Lemma grid_step i x :
  size_grid !! i = Some x -> x <= kMaxSize ->
  exists y, size_grid !! S i = Some y /\ AlignmentForSize x = Ret (y - x) /\
    x mod (y - x) = 0 /\ x < y <= 2 ^ 20 /\ boundary x = true /\ 8 <= x /\
    d_trunc (d_div (d_of_Z (64 * 1024)) (d_of_Z x)) = Some (65536 / x).
Proof.
  intros Hx Hle. pose proof (lookup_lt_Some _ _ _ Hx) as Hi. rewrite grid_length in Hi.
  pose proof grid_ok as H. rewrite forallb_forall in H.
  specialize (H i ltac:(apply in_seq; lia)). unfold grid_ok_at in H. rewrite Hx in H.
  rewrite (proj2 (Z.leb_le _ _) Hle) in H.
  destruct (size_grid !! S i) as [y|]; [|done]. exists y. unfold grid_pair_ok in H.
  rewrite !andb_true_iff, !bool_decide_eq_true, Z.eqb_eq, Z.ltb_lt, !Z.leb_le in H.
  change kAlignment with 8 in H. destruct_and!. split_and!; auto; lia.
Qed.

Lemma grid_last i x : size_grid !! i = Some x -> kMaxSize < x -> i = 105%nat.
Proof.
  intros Hx Hgt. pose proof (lookup_lt_Some _ _ _ Hx) as Hi. rewrite grid_length in Hi.
  destruct (decide (i = 105%nat)) as [|Hne]; [done|].
  assert (forallb (fun j => match size_grid !! j with
                            | Some x => x <=? kMaxSize | None => false end) (seq 0 105) = true)
    as H by (vm_compute; reflexivity).
  rewrite forallb_forall in H. specialize (H i ltac:(apply in_seq; lia)). rewrite Hx in H.
  apply Z.leb_le in H. lia.
Qed.

#[local] Opaque size_grid.

(** On the grid the [double] quotient truncates to the integer one. *)
Lemma NumMoveSize_grid flag i x :
  size_grid !! i = Some x -> x <= kMaxSize ->
  NumMoveSize flag x = Ret (Z.min flag (Z.max 2 (65536 / x))).
Proof.
  intros Hx Hle. destruct (grid_step _ _ Hx Hle) as (y & _ & _ & _ & _ & _ & H8 & Hd).
  unfold NumMoveSize. rewrite (proj2 (Z.eqb_neq x 0)) by lia. rewrite Hd. cbn.
  f_equal. rewrite Z.gtb_ltb. destruct (Z.ltb_spec (65536 / x) 2); case_match; lia.
Qed.

(** ** The class tables *)

Definition ent (m : gmap Z Z) (c : Z) : Z := default 0 (m !! c).

(** A class of objects of [size] bytes in spans of [pg] pages: the span is
    a whole number of minimal spans, its tail waste is at most an eighth,
    a quarter of a transfer batch fits in it, and it is not much longer than
    that takes. *)
Definition span_ok (ms flag size pg : Z) : Prop :=
  0 < pg < 2 ^ 21 /\ (pg * kPageSize) mod ms = 0 /\
  (pg * kPageSize) mod size <= pg * kPageSize / 8 /\
  Z.min flag (Z.max 2 (65536 / size)) / 4 <= pg * kPageSize / size /\
  pg * kPageSize <= Z.max 65536 (8 * size) + ms.

Definition on_grid (size : Z) : Prop :=
  size <= kMaxSize /\ exists i, size_grid !! i = Some size.

Record classes_inv (ms flag : Z) (i : nat) (st : Classes) : Prop := {
  ci_sc : 1 <= sc st <= Z.of_nat i + 1;
  ci_last : match i with
            | O => sc st = 1
            | S j => 1 < sc st /\ size_grid !! j = Some (ent (c_size st) (sc st - 1))
            end;
  ci_grid : forall c, 1 <= c < sc st -> on_grid (ent (c_size st) c);
  ci_mono : forall c c', 1 <= c -> c < c' -> c' < sc st ->
    ent (c_size st) c < ent (c_size st) c';
  ci_span : forall c, 1 <= c < sc st ->
    span_ok ms flag (ent (c_size st) c) (ent (c_pages st) c) }.

Lemma ent_insert_eq m c v : ent (<[c := v]> m) c = v.
Proof. unfold ent. by rewrite lookup_insert_eq. Qed.
Lemma ent_insert_ne m c c' v : c <> c' -> ent (<[c := v]> m) c' = ent m c'.
Proof. intros. unfold ent. by rewrite lookup_insert_ne. Qed.

Lemma add_class_ok ms flag i x pg st :
  size_grid !! i = Some x -> x <= kMaxSize -> classes_inv ms flag i st ->
  span_ok ms flag x pg ->
  exists st', add_class x pg st = Ret st' /\ classes_inv ms flag (S i) st'.
Proof.
  intros Hx Hle [Hsc Hlast Hgrid Hmono Hsp] Hspan.
  destruct (grid_step _ _ Hx Hle) as (y & Hy & _).
  pose proof (lookup_lt_Some _ _ _ Hy) as Hi. rewrite grid_length in Hi.
  assert (forall c, 1 <= c < sc st -> ent (c_size st) c < x) as Hlt.
  { intros c Hc. destruct i as [|j]; [lia|]. destruct Hlast as [_ Hj].
    pose proof (Hgrid (sc st - 1) ltac:(lia)) as [Hl _].
    destruct (grid_step _ _ Hj Hl) as (x' & Hx' & _ & _ & Hlx & _).
    rewrite Hx in Hx'. injection Hx' as <-.
    destruct (decide (c = sc st - 1)) as [->|]; [lia|].
    specialize (Hmono c (sc st - 1)). lia. }
  assert (on_grid x) as Hgx by (split; eauto).
  unfold add_class. rewrite Z.gtb_ltb.
  assert (exists pp ps,
    (if 1 <? sc st then aget kClassSizesMax (c_pages st) (sc st - 1) else Ret 0) = Ret pp /\
    (if 1 <? sc st then aget kClassSizesMax (c_size st) (sc st - 1) else Ret 0) = Ret ps /\
    (1 < sc st -> pp = ent (c_pages st) (sc st - 1))) as (pp & ps & -> & -> & Hpp).
  { destruct (Z.ltb_spec 1 (sc st)).
    - rewrite !aget_in by clia. eauto.
    - do 2 eexists. split_and!; [done..|lia]. }
  obind. destruct (Z.ltb_spec 1 (sc st)) as [Hgt|]; cbn [andb].
  1: destruct (Z.eqb_spec pg pp) as [->|]; cbn [andb].
  1: destruct (Z.eqb_spec (Z.shiftl pp kPageShift / x) (Z.shiftl pp kPageShift / ps)).
  1: { rewrite aset_in by clia. eexists; split; [done|].
    specialize (Hpp Hgt). subst pp.
    split; simpl; [lia| |intros c Hc|intros c c' ???|intros c Hc].
    - rewrite ent_insert_eq. auto.
    - destruct (decide (c = sc st - 1)) as [->|]; [by rewrite ent_insert_eq|].
      rewrite ent_insert_ne by lia. auto.
    - rewrite (ent_insert_ne _ _ c) by lia.
      destruct (decide (c' = sc st - 1)) as [->|]; [rewrite ent_insert_eq; apply Hlt; lia|].
      rewrite ent_insert_ne by lia. auto.
    - destruct (decide (c = sc st - 1)) as [->|]; [by rewrite ent_insert_eq|].
      rewrite ent_insert_ne by lia. auto. }
  all: rewrite !aset_in by clia; eexists; (split; [done|]).
  all: split; simpl; [lia| |intros c Hc|intros c c' ???|intros c Hc].
  all: try (replace (sc st + 1 - 1) with (sc st) by lia; rewrite ent_insert_eq;
            split; [lia|done]).
  all: try (rewrite (ent_insert_ne _ _ c) by lia;
      destruct (decide (c' = sc st)) as [->|]; [rewrite ent_insert_eq; apply Hlt; lia|];
      rewrite ent_insert_ne by lia; apply Hmono; lia).
  all: destruct (decide (c = sc st)) as [->|]; [by rewrite ?ent_insert_eq|];
      rewrite ?ent_insert_ne by lia; (apply Hgrid || apply Hsp); lia.
Qed.

Lemma class_step_ok ms flag i x st :
  8192 <= ms <= 2 ^ 32 -> ms mod kPageSize = 0 -> 1 <= flag < 2 ^ 31 ->
  size_grid !! i = Some x -> x <= kMaxSize -> classes_inv ms flag i st ->
  exists y st', class_step ms flag x st = Ret (st', y - x) /\
    size_grid !! S i = Some y /\ x < y <= 2 ^ 20 /\ classes_inv ms flag (S i) st'.
Proof.
  intros Hms Hpg Hflag Hx Hle Hinv.
  destruct (grid_step _ _ Hx Hle) as (y & Hy & Hal & Hmod & Hxy & Hb & H8 & _).
  unfold class_step. rewrite Hal. obind.
  rewrite (check_true _ (proj2 (Z.eqb_eq _ _) Hmod)). obind.
  rewrite (NumMoveSize_grid _ _ _ Hx Hle). obind.
  set (num := Z.min flag (Z.max 2 (65536 / x))).
  assert (0 <= num) by (unfold num; lia). rewrite Z.quot_div_nonneg by lia.
  assert (num / 4 * x <= 65536) as Hbx.
  { assert (x * (65536 / x) <= 65536) by (apply Z.mul_div_le; lia).
    assert (num <= 3 -> num / 4 = 0) by (intros; apply Z.div_small; lia).
    assert (3 < num -> num <= 65536 / x) by (unfold num; lia).
    assert (4 * (num / 4) <= num) by (apply Z.mul_div_le; lia). nia. }
  destruct (span_bytes_spec ms x (num / 4)) as (p & -> & Hp & Hpm & Hpw & Hpb & Hpu);
    [lia|clia|apply Z.div_pos; lia|done|]. obind.
  assert (p mod 8192 = 0) as Hp8.
  { apply Z.mod_divide; [lia|]. apply Z.divide_trans with ms; apply Z.mod_divide;
      [lia|done|lia|done]. }
  set (pg := Z.shiftr p kPageShift).
  assert (pg * 8192 = p) as Hpgp.
  { unfold pg. rewrite shiftr_div by clia. consts. change (2 ^ 13) with 8192. zdiv. }
  assert (span_ok ms flag x pg) as Hspan.
  { unfold span_ok. change kPageSize with 8192. rewrite Hpgp. fold num. split; [lia|]. split_and!; done. }
  destruct (add_class_ok ms flag i x pg st) as (st' & -> & Hinv'); [done..|].
  obind. eauto 10.
Qed.

Lemma compute_classes_ok ms flag cp cs :
  8192 <= ms <= 2 ^ 32 -> ms mod kPageSize = 0 -> 1 <= flag < 2 ^ 31 ->
  exists st, compute_classes ms flag (mkClasses 1 cp cs) = Ret st /\
    classes_inv ms flag 105 st.
Proof.
  intros Hms Hpg Hflag. unfold compute_classes.
  apply (loop_count _
    (fun n '(size, st) => exists i, (i + n = 105)%nat /\
       size_grid !! i = Some size /\ classes_inv ms flag i st)) with (n := 105%nat).
  - intros n [size st] (i & Hn & Hi & Hinv). unfold class_body.
    destruct (Z.leb_spec size kMaxSize) as [Hle|Hgt].
    + destruct (class_step_ok ms flag i size st) as (y & st' & -> & Hy & Hxy & Hinv');
        [done..|]. obind. eexists; split; [done|].
      destruct (grid_step _ _ Hi Hle) as (_ & _ & _ & _ & _ & _ & H8 & _).
      replace (size + (y - size)) with y by lia. rewrite u64_small by lia.
      pose proof (lookup_lt_Some _ _ _ Hy) as Hlen. rewrite grid_length in Hlen.
      exists (n - 1)%nat. split; [lia|]. exists (S i). split; [lia|done].
    + eexists; split; [done|]. by rewrite <- (grid_last _ _ Hi Hgt).
  - exists 0%nat. split; [done|]. split; [vm_compute; done|].
    split; simpl; [lia|done|lia..].
  - unfold class_fuel. lia.
Qed.

(** ** The flattened index *)

Lemma ClassIndex_small s : 0 <= s <= 1024 -> ClassIndex s = (s + 7) / 8.
Proof.
  intros. unfold ClassIndex, SmallSizeClass, kMaxSmallSize.
  rewrite (proj2 (Z.leb_le s 1024)), !u32_small, shiftr_div by (rewrite ?u32_small; lia). done.
Qed.
Lemma ClassIndex_large s : 1024 < s <= kMaxSize -> ClassIndex s = (s + 127) / 128 + 120.
Proof.
  intros. unfold ClassIndex, LargeSizeClass, kMaxSmallSize. consts.
  change (Z.shiftl 120 7) with 15360.
  rewrite (proj2 (Z.leb_gt s 1024)), !u32_small, shiftr_div by (rewrite ?u32_small; lia).
  change (2 ^ 7) with 128. zdiv.
Qed.

Lemma ClassIndex_cases s : 0 <= s <= kMaxSize ->
  (s <= 1024 /\ ClassIndex s = (s + 7) / 8) \/
  (1024 < s /\ ClassIndex s = (s + 127) / 128 + 120).
Proof.
  intros. destruct (Z.le_gt_cases s 1024).
  - left. split; [done|]. apply ClassIndex_small; lia.
  - right. split; [done|]. apply ClassIndex_large; lia.
Qed.

Lemma ClassIndex_range s : 0 <= s <= kMaxSize -> 0 <= ClassIndex s < kClassArraySize.
Proof.
  intros Hs. change kClassArraySize with 2169. change kMaxSize with 262144 in *.
  destruct (ClassIndex_cases s Hs) as [[? ->]|[? ->]]; zdiv.
Qed.

Lemma ClassIndex_mono s t : 0 <= s <= t -> t <= kMaxSize -> ClassIndex s <= ClassIndex t.
Proof.
  intros Hs Ht.
  destruct (ClassIndex_cases s ltac:(lia)) as [[? ->]|[? ->]],
    (ClassIndex_cases t ltac:(lia)) as [[? ->]|[? ->]]; zdiv.
Qed.

Lemma ClassIndex_boundary b s :
  boundary b = true -> 0 <= b < s -> s <= kMaxSize -> ClassIndex b < ClassIndex s.
Proof.
  intros Hb Hs Ht. unfold boundary, kMaxSmallSize in Hb.
  rewrite orb_true_iff, !andb_true_iff, !Z.leb_le, !Z.eqb_eq in Hb.
  destruct (ClassIndex_cases b ltac:(lia)) as [[? ->]|[? ->]],
    (ClassIndex_cases s ltac:(lia)) as [[? ->]|[? ->]]; zdiv.
Qed.

Lemma ClassIndex_round8 s : 0 <= s <= kMaxSize -> ClassIndex (8 * ((s + 7) / 8)) = ClassIndex s.
Proof.
  intros Hs. change kMaxSize with 262144 in Hs.
  destruct (ClassIndex_cases s Hs) as [[? ->]|[? ->]],
    (ClassIndex_cases (8 * ((s + 7) / 8)) ltac:(consts; zdiv)) as [[? ->]|[? ->]]; zdiv.
Qed.

Lemma ClassIndexMaybe_ClassIndex s : 0 <= s ->
  ClassIndexMaybe s = if s <=? kMaxSize then Some (ClassIndex s) else None.
Proof.
  intros. unfold ClassIndexMaybe, ClassIndex, SmallSizeClass, LargeSizeClass.
  change kMaxSmallSize with 1024. change kMaxSize with 262144.
  destruct (Z.leb_spec s 1024); [|done].
  by rewrite (proj2 (Z.leb_le s 262144)) by lia.
Qed.

Lemma on_grid_facts x : on_grid x -> 8 <= x <= kMaxSize /\ boundary x = true.
Proof.
  intros [Hle [i Hi]]. destruct (grid_step _ _ Hi Hle) as (y & _ & _ & _ & _ & ? & ? & _). auto.
Qed.
Lemma boundary_mod8 x : boundary x = true -> x mod 8 = 0.
Proof.
  unfold boundary. rewrite orb_true_iff, !andb_true_iff, !Z.eqb_eq. intros [[_ ?]|[_ ?]]; zdiv.
Qed.

(** ** Filling the array *)

Lemma fill_range_ok c l arr :
  (forall s, s ∈ l -> 0 <= s <= kMaxSize) ->
  exists arr', foldM (fill_class c) l arr = Ret arr' /\
    (forall s, s ∈ l -> arr' !! ClassIndex s = Some c) /\
    (forall j, (forall s, s ∈ l -> ClassIndex s <> j) -> arr' !! j = arr !! j).
Proof.
  revert arr. induction l as [|x l IH]; intros arr Hl; simpl.
  - exists arr. split; [done|]. split; [intros s Hs; by apply not_elem_of_nil in Hs|done].
  - change (fill_class c arr x) with (aset kClassArraySize arr (ClassIndex x) c).
    rewrite aset_in by (apply ClassIndex_range, Hl; left). obind.
    destruct (IH (<[ClassIndex x:=c]> arr)) as (arr' & -> & Hin & Hout);
      [intros s Hs; apply Hl; by right|].
    exists arr'. split; [done|]. split.
    + intros s Hs. destruct (decide (Exists (fun t => ClassIndex t = ClassIndex s) l)) as [He|He].
      * apply Exists_exists in He as (t & Ht & <-). auto.
      * apply elem_of_cons in Hs as [->|Hs]; [|auto].
        rewrite Hout, lookup_insert_eq; [done|].
        intros t Ht E. apply He, Exists_exists. eauto.
    + intros j Hj. rewrite Hout, lookup_insert_ne;
        [done|apply Hj; left|intros s Hs; apply Hj; by right].
Qed.

(** [c] is the class of [s] among the classes up to [n]. *)
Definition class_for (cs : gmap Z Z) (n s c : Z) : Prop :=
  1 <= c <= n /\ s <= ent cs c /\ (1 < c -> ent cs (c - 1) < s).

Lemma seqZ_split m n pre x post :
  seqZ m n = pre ++ x :: post -> x = m + Z.of_nat (length pre) /\ Z.of_nat (length pre) < n.
Proof.
  intros E. assert (seqZ m n !! length pre = Some x) as H
    by (rewrite E, lookup_app_r, Nat.sub_diag by lia; done).
  apply lookup_seqZ in H. lia.
Qed.

(** What has been filled once the classes up to [k] are done. *)
Definition fill_inv (cs : gmap Z Z) (k : Z) (a : gmap Z Z * Z) : Prop :=
  snd a = (if k =? 0 then 0 else ent cs k + 8) /\
  forall s, 0 <= s < snd a -> s <= kMaxSize -> (0 < k -> s <= ent cs k) ->
    exists c, fst a !! ClassIndex s = Some c /\ class_for cs k s c.

Section Fill.
Context (cs : gmap Z Z) (n : Z).
Hypothesis Hn : 1 < n <= kClassSizesMax.
Hypothesis Hlast : ent cs (n - 1) = kMaxSize.
Hypothesis Hgrid : forall c, 1 <= c < n -> on_grid (ent cs c).
Hypothesis Hmono : forall c c', 1 <= c -> c < c' -> c' < n -> ent cs c < ent cs c'.

(** Where the sizes of class [1 + k] start. *)
Lemma fill_start k : 0 <= k -> 1 + k < n ->
  let next := if k =? 0 then 0 else ent cs k + 8 in
  0 <= next <= ent cs (1 + k) /\ next mod 8 = 0 /\ ent cs (1 + k) mod 8 = 0 /\
  ent cs (1 + k) <= kMaxSize.
Proof using Hgrid Hmono.
  intros Hk Hkn. destruct (on_grid_facts _ (Hgrid (1 + k) ltac:(lia))) as [Hr Hb].
  apply boundary_mod8 in Hb. destruct (Z.eqb_spec k 0); simpl; [split_and!; done || lia|].
  pose proof (Hmono k (1 + k) ltac:(lia) ltac:(lia) ltac:(lia)).
  destruct (on_grid_facts _ (Hgrid k ltac:(lia))) as [? Hbk]. apply boundary_mod8 in Hbk.
  split_and!; zdiv.
Qed.

Lemma fill_step_ok k a next : 0 <= k -> 1 + k < n -> fill_inv cs k (a, next) ->
  exists a', fill_step cs (a, next) (1 + k) = Ret a' /\ fill_inv cs (1 + k) a'.
Proof using Hn Hgrid Hmono.
  intros Hk Hkn [Hnext Ha]. simpl in *.
  destruct (fill_start k Hk Hkn) as (Hnr & Hn8 & Hm8 & Hmax). rewrite <- Hnext in *.
  unfold fill_step. rewrite aget_in by clia. obind. fold (ent cs (1 + k)).
  assert (forall s, s ∈ for_range next (ent cs (1 + k)) kAlignment <->
            next <= s <= ent cs (1 + k) /\ s mod 8 = 0) as Hin.
  { intros s. rewrite elem_of_for_range by clia. consts. split; intros [??]; (split; [lia|zdiv]). }
  destruct (fill_range_ok (1 + k) (for_range next (ent cs (1 + k)) kAlignment) a)
    as (a' & -> & Hset & Hkeep); [intros s Hs; apply Hin in Hs; lia|]. obind.
  eexists; split; [done|]. split; cbn [fst snd];
    [by rewrite (proj2 (Z.eqb_neq (1 + k) 0)) by lia|].
  change kAlignment with 8. intros s Hs Hsmax Hsk. specialize (Hsk ltac:(lia)).
  destruct (Z.lt_ge_cases s next) as [Hlt|Hge]; [destruct (Z.lt_ge_cases (ent cs k) s)|].
  - exists (1 + k). destruct (Z.eqb_spec k 0); [lia|]. split.
    + rewrite <- ClassIndex_round8 by lia. apply Hset, Hin.
      split; [zdiv|]. rewrite Z.mul_comm. apply Z_mod_mult.
    + split; [lia|]. split; [done|]. intros _. by replace (1 + k - 1) with k by lia.
  - destruct (Z.eqb_spec k 0); [lia|].
    destruct (on_grid_facts _ (Hgrid k ltac:(lia))) as [? Hbk].
    destruct (Ha s) as (c & Hc & Hc1 & Hc2 & Hc3); [lia..|].
    exists c. split; [|split; [lia|auto]]. rewrite Hkeep; [done|].
    intros t Ht E. apply Hin in Ht.
    pose proof (ClassIndex_boundary (ent cs k) t Hbk ltac:(lia) ltac:(lia)).
    pose proof (ClassIndex_mono s (ent cs k) ltac:(lia)). lia.
  - exists (1 + k). split.
    + rewrite <- ClassIndex_round8 by lia. apply Hset, Hin.
      split; [zdiv|]. rewrite Z.mul_comm. apply Z_mod_mult.
    + split; [lia|]. split; [done|]. intros ?. replace (1 + k - 1) with k by lia.
      destruct (Z.eqb_spec k 0); lia.
Qed.

Lemma fill_class_array_ok arr :
  exists arr', fill_class_array cs n arr = Ret arr' /\
    forall s, 0 <= s <= kMaxSize ->
      exists c, arr' !! ClassIndex s = Some c /\ class_for cs (n - 1) s c.
Proof using Hn Hlast Hgrid Hmono.
  unfold fill_class_array.
  destruct (foldM_spec (fill_step cs) (fun pre => fill_inv cs (Z.of_nat (length pre)))
    (seqZ 1 (n - 1)) (arr, 0)) as ([arr' next] & -> & Hnext & Harr').
  - intros pre x post [a next] E Ha. apply seqZ_split in E as [-> Hk].
    rewrite length_app, Nat2Z.inj_add, Z.add_comm. simpl length. change (Z.of_nat 1) with 1.
    rewrite (Z.add_comm _ 1). apply fill_step_ok; [lia..|done].
  - split; [done|]. simpl. intros; lia.
  - obind. exists arr'. split; [done|]. intros s Hs. simpl in *.
    rewrite length_seqZ, Z2Nat.id in Hnext, Harr' by lia.
    rewrite (proj2 (Z.eqb_neq (n - 1) 0)) in Hnext by lia.
    apply Harr'; [lia..|]. intros _. lia.
Qed.
End Fill.

(** ** The finished map *)

Record SizeMap_wf (ms flag : Z) (sm : SizeMap) : Prop := {
  wf_num : 1 < num_size_classes sm <= 106;
  wf_last : ent (class_to_size_ sm) (num_size_classes sm - 1) = kMaxSize;
  wf_grid : forall c, 1 <= c < num_size_classes sm -> on_grid (ent (class_to_size_ sm) c);
  wf_mono : forall c c', 1 <= c -> c < c' -> c' < num_size_classes sm ->
    ent (class_to_size_ sm) c < ent (class_to_size_ sm) c';
  wf_span : forall c, 1 <= c < num_size_classes sm ->
    span_ok ms flag (ent (class_to_size_ sm) c) (ent (class_to_pages_ sm) c);
  wf_class : forall s, 0 <= s <= kMaxSize -> exists c, SizeClass sm s = Ret c /\
    class_for (class_to_size_ sm) (num_size_classes sm - 1) s c }.

(** The batch moved between a thread cache and the central list. *)
Definition batch (flag size : Z) : Z := Z.min flag (Z.max 2 (65536 / size)).

Definition moves_ok (flag : Z) (sm : SizeMap) : Prop :=
  forall c, 1 <= c < num_size_classes sm ->
    num_objects_to_move sm c = Ret (batch flag (ent (class_to_size_ sm) c)).

Lemma double_check_ok ms flag sm : SizeMap_wf ms flag sm -> double_check sm = Ret tt.
Proof.
  intros Hwf. unfold double_check.
  destruct (loop_spec (double_check_body sm) (fun s => 0 <= s <= kMaxSize + 128)
    (fun s => if s <=? kMaxSmallSize then 2200 + (kMaxSmallSize - s) / 8
              else if s <=? kMaxSize then 1 + (kMaxSize - s) / 128 else 0) (fun _ => True))
    with (fuel := 4096%nat) (a := 0) as ([] & H & _); [|clia|done|done].
  intros s Hs. unfold double_check_body.
  change kMaxSmallSize with 1024. change kMaxSize with 262144 in *.
  destruct (Z.leb_spec s 262144) as [Hle|]; [|by eexists (inr tt)].
  destruct (wf_class _ _ _ Hwf s ltac:(clia)) as (c & -> & Hc1 & Hc2 & Hc3).
  destruct (wf_num _ _ _ Hwf) as [??].
  assert (0 < ent (class_to_size_ sm) c).
  { destruct (on_grid_facts _ (wf_grid _ _ _ Hwf c ltac:(lia))). lia. }
  obind. rewrite check_true by lia. obind. unfold class_to_size.
  rewrite (aget_in _ _ c) by clia. fold (ent (class_to_size_ sm) c).
  assert (exists prev, (if c >? 1 then aget kClassSizesMax (class_to_size_ sm) (c - 1)
      else Ret (-1)) = Ret prev /\ (1 < c -> prev < s)) as (prev & -> & Hprev).
  { rewrite Z.gtb_ltb. destruct (Z.ltb_spec 1 c); [rewrite aget_in by clia|]; eexists;
      (split; [done|]); [auto|lia]. }
  obind. rewrite check_true by lia. obind. rewrite check_true by lia. obind.
  eexists; split; [done|].
  destruct (Z.leb_spec s 1024); (split; [lia|]); repeat case_match; zdiv.
Qed.

Lemma fill_num_objects_ok ms flag sm : SizeMap_wf ms flag sm ->
  exists nom, fill_num_objects flag sm = Ret nom /\
    forall c, 1 <= c < num_size_classes sm ->
      aget kClassSizesMax nom c = Ret (batch flag (ent (class_to_size_ sm) c)).
Proof.
  intros Hwf. destruct (wf_num _ _ _ Hwf) as [??]. unfold fill_num_objects.
  destruct (foldM_spec (fun m cl => s ← ByteSizeForClass sm cl; n ← NumMoveSize flag s;
                     aset kClassSizesMax m cl n)
    (fun pre nom => forall c, 1 <= c <= Z.of_nat (length pre) ->
       aget kClassSizesMax nom c = Ret (batch flag (ent (class_to_size_ sm) c)))
    (seqZ 1 (num_size_classes sm - 1)) (num_objects_to_move_ sm)) as (nom & -> & Hnom).
  - intros pre x post m E Hm. apply seqZ_split in E as [-> Hk].
    set (k := Z.of_nat (length pre)) in *.
    unfold ByteSizeForClass. rewrite aget_in by clia. obind.
    fold (ent (class_to_size_ sm) (1 + k)).
    destruct (wf_grid _ _ _ Hwf (1 + k) ltac:(lia)) as [Hle [i Hi]].
    rewrite (NumMoveSize_grid _ _ _ Hi Hle). obind. rewrite aset_in by clia.
    eexists; split; [done|]. rewrite length_app, Nat2Z.inj_add. simpl length.
    fold k. change (Z.of_nat 1) with 1. intros c Hc. rewrite aget_in by clia.
    destruct (decide (c = 1 + k)) as [->|].
    + by rewrite lookup_insert_eq.
    + rewrite lookup_insert_ne by lia. specialize (Hm c ltac:(lia)).
      rewrite aget_in in Hm by clia. done.
  - simpl. lia.
  - exists nom. split; [done|]. intros c Hc. apply Hnom. rewrite length_seqZ. lia.
Qed.

Lemma min_span_bytes_ok native :
  0 <= native <= 2 ^ 32 ->
  8192 <= min_span_bytes native <= 2 ^ 32 /\ min_span_bytes native mod kPageSize = 0.
Proof.
  intros H. unfold min_span_bytes. change kPageSize with 8192.
  destruct (Z.gtb_spec (Z.max native 8192) 8192); simpl.
  - destruct (Z.eqb_spec (Z.max native 8192 mod 8192) 0); simpl; [lia|done].
  - replace (Z.max native 8192) with 8192 by lia. done.
Qed.

(** The run of [Init] up to the natural-alignment pass. *)
Lemma Init_builds native flag sm0 :
  0 <= native <= 2 ^ 32 -> 1 <= flag < 2 ^ 31 ->
  exists sm, SizeMap_wf (min_span_bytes native) flag sm /\ moves_ok flag sm /\
    (exists st, compute_classes (min_span_bytes native) flag
        (mkClasses 1 (class_to_pages_ sm0) (class_to_size_ sm0)) = Ret st /\
      class_to_size_ sm = c_size st /\ num_size_classes sm = sc st /\
      min_span_size_in_pages_ sm = min_span_bytes native / kPageSize) /\
    Init native flag sm0 = (_ ← check_natural_alignment sm; Ret sm).
Proof.
  intros Hnat Hflag. destruct (min_span_bytes_ok native Hnat) as [Hms Hmod].
  destruct (compute_classes_ok (min_span_bytes native) flag (class_to_pages_ sm0)
    (class_to_size_ sm0) Hms Hmod Hflag) as (st & Hst & [Hsc [Hsc1 Hlast] Hg Hmono Hsp]).
  assert (ent (c_size st) (sc st - 1) = kMaxSize) as HM.
  { change (size_grid !! 104%nat) with (Some kMaxSize) in Hlast. congruence. }
  destruct (fill_class_array_ok (c_size st) (sc st) ltac:(clia) HM Hg Hmono (class_array_ sm0))
    as (arr & Harr & Hcls).
  set (sm nom := mkSizeMap arr nom (c_size st) (c_pages st)
                   (min_span_bytes native / kPageSize) (sc st)).
  assert (forall nom, SizeMap_wf (min_span_bytes native) flag (sm nom)) as Hwf.
  { intros nom. split; simpl; [lia|done..|].
    intros s Hs. destruct (Hcls s Hs) as (c & Hc & ?). exists c. split; [|done].
    unfold SizeClass. rewrite aget_in by (by apply ClassIndex_range). simpl. by rewrite Hc. }
  destruct (fill_num_objects_ok _ _ _ (Hwf (num_objects_to_move_ sm0))) as (nom & Hnom & Hmv).
  exists (sm nom). split; [done|]. split; [exact Hmv|]. split; [exists st; split; [exact Hst|]; split; [exact eq_refl|]; split; exact eq_refl|].
  unfold Init. rewrite (check_true (ClassIndex 0 =? 0)) by done. obind.
  rewrite (check_true (ClassIndex kMaxSize <? kClassArraySize)) by done. obind.
  rewrite Hst. obind. rewrite check_true by clia. obind. rewrite Harr. obind.
  pose proof (double_check_ok _ _ _ (Hwf (num_objects_to_move_ sm0))) as Hdc.
  unfold sm in Hdc. rewrite Hdc. obind.
  change (check_natural_alignment (mkSizeMap arr (num_objects_to_move_ sm0) (c_size st)
    (c_pages st) (min_span_bytes native / kPageSize) (sc st)))
    with (check_natural_alignment (sm nom)).
  destruct (check_natural_alignment (sm nom)); obind; [|done].
  unfold sm in Hnom. rewrite Hnom. done.
Qed.

(** ** The natural-alignment pass on a concrete table

    The pass only looks at the class sizes; on a well-formed map it is the
    search below in the increasing list of class sizes. *)
Definition class_sizes (cs : gmap Z Z) (n : Z) : list Z := ent cs <$> seqZ 1 (n - 1).
Definition rounded (sizes : list Z) (s : Z) : Z :=
  default 0 (head (filter (fun x => s <= x) sizes)).
Definition aligned_sizes (sizes : list Z) : bool :=
  forallb (fun align =>
    forallb (fun s => rounded sizes s mod align =? 0) (for_range align (kPageSize - 1) align))
    ((fun k => Z.shiftl kMinAlign k) <$> seqZ 0 10).

Lemma head_filter_class cs n s c :
  (forall c c', 1 <= c -> c < c' -> c' < n -> ent cs c < ent cs c') ->
  class_for cs (n - 1) s c -> rounded (class_sizes cs n) s = ent cs c.
Proof.
  intros Hmono (Hc & Hle & Hprev). unfold rounded, class_sizes.
  replace (n - 1) with ((c - 1) + (n - c)) by lia.
  rewrite seqZ_app, fmap_app, filter_app by lia.
  rewrite (filter_none (fun x => s <= x) (ent cs <$> seqZ 1 (c - 1))).
  - rewrite seqZ_cons by lia. replace (1 + (c - 1)) with c by lia. simpl.
    by rewrite filter_cons_True.
  - intros x (k & -> & Hk)%list_elem_of_fmap. rewrite elem_of_seqZ in Hk.
    destruct (decide (k = c - 1)) as [->|]; [lia|].
    specialize (Hmono k (c - 1)). lia.
Qed.

Lemma foldM_check {X} (f : unit -> X -> outcome unit) (g : X -> bool) l :
  (forall x, x ∈ l -> f tt x = check (g x)) -> foldM f l tt = check (forallb g l).
Proof.
  induction l as [|x l IH]; intros H; simpl; [done|].
  rewrite H by left. destruct (g x); obind; [|done]. apply IH. intros; apply H; by right.
Qed.

Lemma check_natural_alignment_sizes ms flag sm : SizeMap_wf ms flag sm ->
  check_natural_alignment sm =
  check (aligned_sizes (class_sizes (class_to_size_ sm) (num_size_classes sm))).
Proof.
  intros Hwf. destruct (wf_num _ _ _ Hwf). unfold check_natural_alignment, aligned_sizes.
  apply foldM_check. intros align (k & -> & Hk)%list_elem_of_fmap. rewrite elem_of_seqZ in Hk.
  apply foldM_check. intros s Hs.
  assert (0 < Z.shiftl kMinAlign k) by (rewrite shiftl_mul by lia; consts; lia).
  apply elem_of_for_range in Hs; [|lia|rewrite shiftl_mul by lia; consts; lia].
  unfold check_aligned. destruct (wf_class _ _ _ Hwf s ltac:(clia)) as (c & -> & Hc).
  obind. unfold class_to_size. destruct (Hc) as [Hc1 _]. rewrite aget_in by clia. obind.
  fold (ent (class_to_size_ sm) c). erewrite head_filter_class; [done| |done].
  apply (wf_mono _ _ _ Hwf).
Qed.

Definition classes_of (ms flag : Z) : list Z :=
  match compute_classes ms flag (mkClasses 1 ∅ ∅) with
  | Ret st => class_sizes (c_size st) (sc st)
  | Fault _ => []
  end.

Lemma default_aligned :
  forallb (fun ms => aligned_sizes (classes_of ms kDefaultTransferNumObjecs))
    [8192; 16384; 65536] = true.
Proof. vm_compute. reflexivity. Qed.

Lemma class_sizes_lookup cs n c : 1 <= c < n -> class_sizes cs n !! Z.to_nat (c - 1) = Some (ent cs c).
Proof.
  intros Hc. unfold class_sizes. rewrite list_lookup_fmap.
  rewrite (proj2 (lookup_seqZ _ _ (Z.to_nat (c - 1)) c)) by lia. done.
Qed.

(** ** Properties *)

(** The shift-and-test loop [LgFloor] computes the floor of the binary
    logarithm of every non-zero 32-bit value. *)
Theorem LgFloor_spec (n : Z) (Hn : 0 < n < 2 ^ 32) : LgFloor n = Z.log2 n.
Proof. by apply LgFloor_log2. Qed.

Lemma LgFloor_spec_witness : LgFloor 100000 = Z.log2 100000.
Proof. apply (LgFloor_spec 100000). lia. Defined.

(** C26: for every native page size up to 4 GiB and every positive transfer
    batch, [SizeMap::Init] runs its loops to the end, writes inside its
    arrays, passes its own double-check, and produces a well-formed map: at
    most 105 strictly increasing classes ending at [kMaxSize], every request
    mapped to the smallest class that fits, every class span a multiple of
    the minimal span whose tail waste is at most one eighth, and the batch
    size [min(flag, max(2, 64K/size))] for every class. Only the final
    natural-alignment check can still stop it. *)
Theorem Init_correct (native flag : Z) (sm0 : SizeMap)
    (Hnative : 0 <= native <= 2 ^ 32) (Hflag : 1 <= flag < 2 ^ 31) :
  exists sm, SizeMap_wf (min_span_bytes native) flag sm /\ moves_ok flag sm /\
    Init native flag sm0 = (_ ← check_natural_alignment sm; Ret sm).
Proof.
  destruct (Init_builds native flag sm0 Hnative Hflag) as (sm & Hwf & Hmv & _ & HI). eauto.
Qed.

Lemma Init_correct_witness :
  exists sm, SizeMap_wf (min_span_bytes 4096) 48 sm /\ moves_ok 48 sm /\
    Init 4096 48 zero = (_ ← check_natural_alignment sm; Ret sm).
Proof. apply (Init_correct 4096 48 zero); lia. Defined.

Lemma Init_default_ok (native : Z) (Hnative : native ∈ [4096; 8192; 16384; 65536]) :
  exists sm, Init native (InitTCMallocTransferNumObjects 0 None) zero = Ret sm /\
    SizeMap_wf (min_span_bytes native) kDefaultTransferNumObjecs sm /\
    moves_ok kDefaultTransferNumObjecs sm.
Proof.
  change (InitTCMallocTransferNumObjects 0 None) with kDefaultTransferNumObjecs.
  assert (0 <= native <= 2 ^ 32 /\ min_span_bytes native ∈ [8192; 16384; 65536]) as [Hr Hms].
  { rewrite !elem_of_cons, elem_of_nil in Hnative.
    destruct Hnative as [->|[->|[->|[->|[]]]]]; (split; [lia|vm_compute; set_solver]). }
  destruct (Init_builds native kDefaultTransferNumObjecs zero) as
    (sm & Hwf & Hmv & (st & Hst & Hcs & Hn & _) & HI); [done|by vm_compute|].
  exists sm. split; [|done]. rewrite HI, (check_natural_alignment_sizes _ _ _ Hwf), check_true;
    [done|].
  pose proof default_aligned as Ha. rewrite forallb_forall in Ha.
  specialize (Ha (min_span_bytes native) ltac:(by apply list_elem_of_In)).
  unfold classes_of in Ha. simpl in Hst. rewrite Hst in Ha. by rewrite Hcs, Hn.
Qed.

(** With the transfer batch unset in the environment, [Init] succeeds
    for 4, 8, 16 and 64 KiB system pages: also the natural-alignment check
    passes, so the aligned fast paths may rely on it. *)
Theorem Init_default (native : Z) (Hnative : native ∈ [4096; 8192; 16384; 65536]) :
  exists sm, Init native (InitTCMallocTransferNumObjects 0 None) zero = Ret sm /\
    SizeMap_wf (min_span_bytes native) kDefaultTransferNumObjecs sm /\
    moves_ok kDefaultTransferNumObjecs sm.
Proof. by apply Init_default_ok. Qed.

Lemma Init_default_witness :
  exists sm, Init 4096 (InitTCMallocTransferNumObjects 0 None) zero = Ret sm /\
    SizeMap_wf (min_span_bytes 4096) kDefaultTransferNumObjecs sm /\
    moves_ok kDefaultTransferNumObjecs sm.
Proof. apply (Init_default 4096). left. Defined.

(** [GetSizeClass] on a well-formed map: a request of at most [kMaxSize]
    bytes gets the class with the smallest object size that holds it, a
    larger one gets none. *)
Theorem GetSizeClass_smallest (ms flag : Z) (sm : SizeMap) (s : Z)
    (Hwf : SizeMap_wf ms flag sm) (Hs : 0 <= s) :
  if s <=? kMaxSize then
    exists c sz, GetSizeClass sm s = Ret (Some c) /\ ByteSizeForClass sm c = Ret sz /\
      1 <= c < num_size_classes sm /\ s <= sz /\
      forall c' sz', 1 <= c' < num_size_classes sm -> ByteSizeForClass sm c' = Ret sz' ->
        s <= sz' -> sz <= sz'
  else GetSizeClass sm s = Ret None.
Proof.
  unfold GetSizeClass. rewrite ClassIndexMaybe_ClassIndex by done.
  destruct (Z.leb_spec s kMaxSize) as [Hle|]; [|done].
  destruct (wf_class _ _ _ Hwf s ltac:(lia)) as (c & Hc & Hc1 & Hc2 & Hc3).
  destruct (wf_num _ _ _ Hwf). unfold SizeClass in Hc. rewrite Hc. obind.
  exists c, (ent (class_to_size_ sm) c). unfold ByteSizeForClass.
  split; [done|]. split; [by rewrite aget_in by clia|]. split; [lia|]. split; [done|].
  intros c' sz' Hc'. rewrite aget_in by clia. intros [= <-] Hle'. fold (ent (class_to_size_ sm) c') in *.
  destruct (Z.lt_trichotomy c c') as [Hlt|[->|Hgt]]; [|done|].
  - pose proof (wf_mono _ _ _ Hwf c c'). lia.
  - specialize (Hc3 ltac:(lia)). destruct (decide (c' = c - 1)) as [->|]; [lia|].
    pose proof (wf_mono _ _ _ Hwf c' (c - 1)). lia.
Qed.

Lemma GetSizeClass_smallest_witness :
  exists sm, SizeMap_wf 8192 32 sm /\ exists c sz, GetSizeClass sm 1000 = Ret (Some c) /\
    ByteSizeForClass sm c = Ret sz /\ 1000 <= sz.
Proof.
  destruct (Init_builds 4096 32 zero ltac:(lia) ltac:(lia)) as (sm & Hwf & _).
  exists sm. split; [exact Hwf|].
  destruct (GetSizeClass_smallest _ _ sm 1000 Hwf ltac:(lia)) as (c & sz & ? & ? & _ & ? & _).
  eauto.
Defined.

Lemma pad_loop_cases ms size f p : 0 <= p < 2 ^ 64 ->
  loop f (pad_body ms size) p = Fault OutOfFuel \/
  exists p', loop f (pad_body ms size) p = Ret p' /\ 0 <= p' < 2 ^ 64.
Proof.
  revert p. induction f as [|f IH]; intros p Hp; [by left|]. cbn [loop].
  change (pad_body ms size p) with (Ret (if p mod size >? Z.shiftr p 3
    then inl (u64 (p + ms)) else inr (A := Z) p)).
  destruct (p mod size >? Z.shiftr p 3); obind; [apply IH, u64_range|eauto].
Qed.

(** A negative transfer batch (TCMALLOC_TRANSFER_NUM_OBJ=-4 or below)
    makes the span-size loop of [Init] run for ever: [blocks_to_move] is
    negative and the comparison converts it to a huge [size_t]; whatever
    the fuel, the loop does not reach its exit. *)
Theorem negative_transfer_diverges (fuel : nat) (ms size flag p0 : Z)
    (Hflag : - 2 ^ 31 <= flag <= -4) (Hsize : 8 <= size <= kMaxSize) :
  loop fuel (psize_body ms size (Z.quot flag 4)) p0 = Fault OutOfFuel.
Proof.
  assert (u64 (Z.quot flag 4) = 2 ^ 64 + Z.quot flag 4 /\ - 2 ^ 29 <= Z.quot flag 4 < 0) as [Hb Hq].
  { assert (- 2 ^ 29 <= Z.quot flag 4 < 0) by (Z.quot_rem_to_equations; lia).
    split; [|done]. unfold u64. rewrite <- (Z.mod_add _ 1), Z.mod_small by lia. lia. }
  revert p0. induction fuel as [|fuel IH]; intros p0; [done|]. cbn [loop].
  assert (psize_body ms size (Z.quot flag 4) p0 =
    (p ← loop psize_fuel (pad_body ms size) (u64 (p0 + ms));
     Ret (if p / size <? u64 (Z.quot flag 4) then inl p else inr p))) as -> by done.
  destruct (pad_loop_cases ms size psize_fuel (u64 (p0 + ms)) (u64_range _))
    as [->|(p' & -> & Hp')]; [done|]. obind. rewrite Hb.
  assert (p' / size < 2 ^ 64 + Z.quot flag 4).
  { apply Z.div_lt_upper_bound; [lia|]. nia. }
  rewrite (proj2 (Z.ltb_lt _ _)) by done. apply IH.
Qed.

Lemma negative_transfer_diverges_witness :
  loop 1000 (psize_body 8192 64 (Z.quot (-100) 4)) 0 = Fault OutOfFuel.
Proof. apply (negative_transfer_diverges 1000 8192 64 (-100) 0); clia. Defined.

End SizeMap.
