(* ===== verification/PageMap.v ===== *)
(** * Page maps

    Models src/src/src/pagemap.h: the flat array and the two- and
    three-level radix trees that map a page number to a pointer, for an
    arbitrary number of key bits. A pointer is a [Z] with 0 for null; a
    missing child of the tree is a null child. The metadata allocator the
    trees call is a parameter. The interface [PageMap] with its laws
    [PageMapLaws] is what the page heap relies on. *)
From S2P Require Import Prelude Common.

(** ** Interface *)

Class PageMap (PM : Type) := {
  pm_bits : Z;
  pm_init : PM;
  pm_get : PM -> Z -> Z;
  pm_set : PM -> Z -> Z -> outcome PM;
  pm_ensure : forall {A}, (Z -> M A Z) -> PM -> Z -> Z -> M A (bool * PM);
  pm_prealloc : forall {A}, (Z -> M A Z) -> PM -> M A PM;
  pm_next : PM -> Z -> outcome Z;
  (** Pages that may be set. *)
  pm_ensured : PM -> Z -> Prop }.

(** [pm'] has the contents of [pm] and can hold at least as many pages. *)
Definition pm_extends `{PageMap PM} (pm pm' : PM) : Prop :=
  (forall k, pm_get pm' k = pm_get pm k) /\ (forall k, pm_ensured pm k -> pm_ensured pm' k).

(** [v] is the first non-null value of [g] at a key in [k, bound), or 0. *)
Definition first_from (g : Z -> Z) (k bound v : Z) : Prop :=
  (v = 0 /\ forall j, k <= j < bound -> g j = 0) \/
  (v <> 0 /\ exists j, k <= j < bound /\ g j = v /\ forall i, k <= i < j -> g i = 0).

Class PageMapLaws (PM : Type) `{PageMap PM} := {
  pm_init_get : forall k, pm_get pm_init k = 0;
  pm_ensured_range : forall pm k, pm_ensured pm k -> 0 <= k < 2 ^ pm_bits;
  pm_set_ok : forall pm k v, pm_ensured pm k -> exists pm', pm_set pm k v = Ret pm' /\
    (forall j, pm_get pm' j = if decide (j = k) then v else pm_get pm j) /\
    (forall j, pm_ensured pm' j <-> pm_ensured pm j);
  pm_ensure_ok : forall A (alloc : Z -> M A Z) (P : A -> Prop) pm start n a,
    (forall sz a, P a -> wp (alloc sz) (fun _ a' => P a') a) ->
    P a -> 0 <= start -> 1 <= n -> start + n <= 2 ^ 60 ->
    wp (pm_ensure alloc pm start n) (fun '(ok, pm') a' =>
      P a' /\ pm_extends pm pm' /\
      (ok = true -> forall k, start <= k < start + n -> pm_ensured pm' k)) a;
  pm_prealloc_ok : forall A (alloc : Z -> M A Z) (P : A -> Prop) pm a,
    (forall sz a, P a -> wp (alloc sz) (fun _ a' => P a') a) -> P a ->
    wp (pm_prealloc alloc pm) (fun pm' a' => P a' /\ pm_extends pm pm') a;
  (** The calls touch the allocator's state only through the allocator. *)
  pm_ensure_moves : forall A (alloc : Z -> M A Z) R pm start n, PreOrder R ->
    (forall sz, moves R (alloc sz)) -> moves R (pm_ensure alloc pm start n);
  pm_prealloc_moves : forall A (alloc : Z -> M A Z) R pm, PreOrder R ->
    (forall sz, moves R (alloc sz)) -> moves R (pm_prealloc alloc pm);
  pm_next_ok : forall pm k, 0 <= k -> exists v, pm_next pm k = Ret v /\
    first_from (pm_get pm) k (2 ^ pm_bits) v }.

(** The forward scan of a leaf's values. *)
Definition scan_leaf (leaf : gmap Z Z) (from len : Z) : option Z :=
  List.find (fun v => negb (v =? 0))
    ((fun i => default 0 (leaf !! i)) <$> for_range from (len - 1) 1).

Lemma find_first {X} (p : X -> bool) (l : list X) :
  match List.find p l with
  | Some v => exists i, l !! i = Some v /\ p v = true /\
      forall j x, (j < i)%nat -> l !! j = Some x -> p x = false
  | None => forall i x, l !! i = Some x -> p x = false
  end.
Proof.
  induction l as [|y l IH]; simpl; [done|]. destruct (p y) eqn:E.
  - exists 0%nat. split; [done|]. split; [done|]. intros; lia.
  - destruct (List.find p l) as [v|].
    + destruct IH as (i & Hi & Hv & Hlt). exists (S i). split; [done|]. split; [done|].
      intros [|j] x Hj; simpl; [congruence|]. apply Hlt; lia.
    + intros [|i] x; simpl; [congruence|apply IH].
Qed.

Lemma lookup_for_range1 a b (i : nat) x :
  for_range a b 1 !! i = Some x <-> x = a + Z.of_nat i /\ x <= b.
Proof.
  unfold for_range. rewrite list_lookup_fmap, fmap_Some, Z.div_1_r.
  setoid_rewrite lookup_seqZ. split.
  - intros (k & [-> ?] & ->). lia.
  - intros [-> ?]. exists (Z.of_nat i). lia.
Qed.

Lemma scan_leaf_spec leaf from len : 0 <= from ->
  first_from (fun i => default 0 (leaf !! i)) from len (default 0 (scan_leaf leaf from len)) /\
  (forall v, scan_leaf leaf from len = Some v -> v <> 0).
Proof.
  intros Hf. unfold scan_leaf.
  pose proof (find_first (fun v => negb (v =? 0))
    ((fun i => default 0 (leaf !! i)) <$> for_range from (len - 1) 1)) as H.
  destruct (List.find _ _) as [v|]; simpl.
  - destruct H as (i & Hi & Hv & Hlt). apply negb_true_iff, Z.eqb_neq in Hv.
    split; [|congruence]. rewrite list_lookup_fmap, fmap_Some in Hi.
    destruct Hi as (x & [-> ?]%lookup_for_range1 & Hx). right. split; [done|].
    exists (from + Z.of_nat i). split; [lia|]. split; [done|]. intros j Hj.
    specialize (Hlt (Z.to_nat (j - from)) (default 0 (leaf !! j)) ltac:(lia)).
    rewrite list_lookup_fmap, (proj2 (lookup_for_range1 from (len - 1) (Z.to_nat (j - from)) j))
      in Hlt by lia. simpl in Hlt. specialize (Hlt eq_refl).
    by apply negb_false_iff, Z.eqb_eq in Hlt.
  - split; [|done]. left. split; [done|]. intros j Hj.
    specialize (H (Z.to_nat (j - from)) (default 0 (leaf !! j))).
    rewrite list_lookup_fmap, (proj2 (lookup_for_range1 from (len - 1) (Z.to_nat (j - from)) j))
      in H by lia. simpl in H. specialize (H eq_refl).
    by apply negb_false_iff, Z.eqb_eq in H.
Qed.

(** Chaining: nothing before [k'], then the first from [k'] on. *)
Lemma first_from_skip g k k' bound v :
  k <= k' -> (forall j, k <= j < k' -> j < bound -> g j = 0) ->
  first_from g k' bound v -> first_from g k bound v.
Proof.
  intros Hk Hz [[-> H]|[Hv (j & Hj & Hg & Hlt)]].
  - left. split; [done|]. intros j Hj. destruct (Z.lt_ge_cases j k'); [apply Hz|apply H]; lia.
  - right. split; [done|]. exists j. split; [lia|]. split; [done|].
    intros i Hi. destruct (Z.lt_ge_cases i k'); [apply Hz|apply Hlt]; lia.
Qed.

(** A loop that skips empty stretches of [g] until it finds a value. *)
Lemma scan_loop (g : Z -> Z) (bound : Z) (body : Z -> outcome (Z + Z)) (mu : Z -> Z) :
  (forall k, bound <= k -> g k = 0 /\ body k = Ret (inr 0)) ->
  (forall k, 0 <= k < bound -> exists r, body k = Ret r /\
     match r with
     | inl k2 => k < k2 /\ (k2 < bound -> mu k2 < mu k) /\ forall j, k <= j < k2 -> g j = 0
     | inr v => v <> 0 /\ exists k2, first_from g k k2 v
     end) ->
  (forall k, 0 <= k < bound -> 0 < mu k) ->
  forall fuel k, 0 <= k -> (k < bound -> mu k < Z.of_nat fuel) -> (0 < fuel)%nat ->
  exists v, loop fuel body k = Ret v /\ first_from g k bound v.
Proof.
  intros Hout Hin Hpos fuel k Hk Hmu Hf.
  apply (loop_spec body
    (fun k' => k <= k' /\ forall j, k <= j < k' -> g j = 0)
    (fun k' => if k' <? bound then mu k' else 0)).
  - intros k' [Hkk Hz]. destruct (Z.lt_ge_cases k' bound) as [Hlt|Hge].
    + destruct (Hin k' ltac:(lia)) as ([k2|v] & -> & Hr); (eexists; split; [done|]).
      * destruct Hr as (Hk2 & Hdec & Hz2). split; [split; [lia|]|].
        { intros j Hj. destruct (Z.lt_ge_cases j k'); [apply Hz|apply Hz2]; lia. }
        rewrite (proj2 (Z.ltb_lt k' bound)) by lia. pose proof (Hpos k' ltac:(lia)).
        destruct (Z.ltb_spec k2 bound); [|lia]. pose proof (Hpos k2). lia.
      * destruct Hr as [Hv [k2 Hr]]. eapply first_from_skip; [done|intros; apply Hz; lia|].
        destruct Hr as [[-> _]|[_ (j & Hj & Hg & Hl)]]; [done|]. right. split; [done|].
        exists j. split; [|done]. split; [lia|]. destruct (Z.lt_ge_cases j bound); [done|].
        destruct (Hout j); [lia|]. congruence.
    + destruct (Hout k' Hge) as [_ ->]. eexists; split; [done|].
      left. split; [done|]. intros; apply Hz; lia.
  - split; [lia|]. intros; lia.
  - destruct (Z.ltb_spec k bound); [|lia]. specialize (Hpos k). lia.
Qed.

(** ** Walking a key range leaf by leaf

    Both trees advance a key to the first key of the next leaf; the lemmas
    below are shared by their [Ensure] and [Next] loops. *)
Section Stride.
Context (LB : Z).
Hypothesis HLB : 0 <= LB <= 61.

Lemma pow_LB : 0 < 2 ^ LB <= 2 ^ 61.
Proof using HLB.
  split; [apply Z.pow_pos_nonneg; lia|apply Z.pow_le_mono_r; lia].
Qed.

(** [((k >> LB) + 1) << LB] is the end of the leaf that holds [k]. *)
Lemma next_key k : 0 <= k < 2 ^ 62 ->
  let k' := u64 (Z.shiftl (Z.shiftr k LB + 1) LB) in
  k' = (k / 2 ^ LB + 1) * 2 ^ LB /\ k < k' /\ k' <= k + 2 ^ LB.
Proof using HLB.
  intros Hk. pose proof pow_LB. rewrite shiftl_mul, shiftr_div by lia.
  pose proof (Z.div_mod k (2 ^ LB) ltac:(lia)). pose proof (Z.mod_pos_bound k (2 ^ LB)).
  rewrite u64_small by nia. split; [done|]. nia.
Qed.

Lemma same_leaf j k : k <= j < (k / 2 ^ LB + 1) * 2 ^ LB -> j / 2 ^ LB = k / 2 ^ LB.
Proof using HLB.
  intros Hj. pose proof pow_LB. pose proof (Z.div_le_mono k j (2 ^ LB) ltac:(lia) ltac:(lia)).
  pose proof (Z.div_lt_upper_bound j (2 ^ LB) (k / 2 ^ LB + 1)). lia.
Qed.

(** Leaves still to visit when the key has reached [key]. *)
Definition leaves_left (last key : Z) : Z :=
  if key <=? last then last / 2 ^ LB - key / 2 ^ LB + 1 else 0.

Lemma leaves_left_next last key : 0 <= key <= last ->
  leaves_left last ((key / 2 ^ LB + 1) * 2 ^ LB) = leaves_left last key - 1 /\
  0 < leaves_left last key.
Proof using HLB.
  intros H. pose proof pow_LB as Hp. unfold leaves_left.
  rewrite (proj2 (Z.leb_le key last)), Z.div_mul by lia.
  pose proof (Z.div_mod last (2 ^ LB) ltac:(lia)).
  pose proof (Z.mod_pos_bound last (2 ^ LB)).
  assert (key / 2 ^ LB <= last / 2 ^ LB) by (apply Z.div_le_mono; lia).
  destruct (Z.leb_spec ((key / 2 ^ LB + 1) * 2 ^ LB) last); [lia|]. nia.
Qed.

Lemma leaves_left_fuel start n : 0 <= start -> 1 <= n ->
  0 <= leaves_left (start + n - 1) start <= Z.shiftr n LB + 2.
Proof using HLB.
  intros. pose proof pow_LB as Hp. unfold leaves_left.
  rewrite (proj2 (Z.leb_le start _)), shiftr_div by lia.
  assert ((start + n - 1) / 2 ^ LB <= start / 2 ^ LB + n / 2 ^ LB + 1).
  { pose proof (Z.div_mod start (2 ^ LB) ltac:(lia)).
    pose proof (Z.div_mod n (2 ^ LB) ltac:(lia)).
    pose proof (Z.mod_pos_bound start (2 ^ LB)). pose proof (Z.mod_pos_bound n (2 ^ LB)).
    apply Z.lt_succ_r, Z.div_lt_upper_bound; nia. }
  pose proof (Z.div_le_mono start (start + n - 1) (2 ^ LB)). lia.
Qed.

(** The [Ensure] loop of a tree [T], from what one iteration does. *)
Section Ensure.
Context {A T : Type} (get : T -> Z -> Z) (ensured : T -> Z -> Prop) (P : A -> Prop).
Context (body : Z * T -> M A (Z * T + bool * T)) (start n : Z).
Hypothesis Hrange : 0 <= start /\ 1 <= n /\ start + n <= 2 ^ 60.

Definition extends (pm pm' : T) : Prop :=
  (forall k, get pm' k = get pm k) /\ (forall k, ensured pm k -> ensured pm' k).

Hypothesis Hbody : forall key pm a, P a -> 0 <= key < 2 ^ 62 ->
  wp (body (key, pm)) (fun r a' => P a' /\
    if key <=? start + n - 1 then
      match r with
      | inl (k2, pm') => k2 = (key / 2 ^ LB + 1) * 2 ^ LB /\ extends pm pm' /\
          forall k, key <= k < k2 -> ensured pm' k
      | inr (ok, pm') => ok = false /\ extends pm pm'
      end
    else r = inr (true, pm)) a.

Lemma extends_trans pm1 pm2 pm3 : extends pm1 pm2 -> extends pm2 pm3 -> extends pm1 pm3.
Proof using.
  intros [Hg He] [Hg' He']. split; intros k; [by rewrite Hg', Hg|auto].
Qed.

Lemma ensure_loop pm a : P a ->
  wp (loopM (Z.to_nat (Z.shiftr n LB + 3)) body (start, pm)) (fun '(ok, pm') a' =>
    P a' /\ extends pm pm' /\
    (ok = true -> forall k, start <= k < start + n -> ensured pm' k)) a.
Proof using HLB Hrange Hbody.
  intros HP. pose proof pow_LB.
  pose proof (leaves_left_fuel start n ltac:(lia) ltac:(lia)) as Hfuel.
  apply (loopM_count _ (fun m '(key, pm') a => P a /\ extends pm pm' /\
      start <= key <= start + n + 2 ^ LB /\
      (forall k, start <= k < key -> k < start + n -> ensured pm' k) /\
      Z.of_nat m = leaves_left (start + n - 1) key))
    with (n := Z.to_nat (leaves_left (start + n - 1) start)).
  - intros m [key pm'] a1 (HP1 & Hext & Hkey & Hdone & Hm).
    eapply wp_mono; [by apply Hbody; [|lia]|]. intros r a2 [HP2 Hr].
    destruct (Z.leb_spec key (start + n - 1)) as [Hle|Hgt].
    + destruct (leaves_left_next (start + n - 1) key ltac:(lia)) as [Hl Hpos].
      destruct (next_key key ltac:(lia)) as (Hk' & Hlt & Hle'). rewrite Hk' in *.
      destruct r as [[k2 pm2]|[ok pm2]].
      * destruct Hr as (-> & Hext2 & Hens). exists (m - 1)%nat. split; [lia|]. split; [done|].
        split; [by eapply extends_trans|]. split; [lia|]. split; [|lia].
        intros k Hk Hkn. destruct (Z.lt_ge_cases k key); [apply Hext2, Hdone|apply Hens]; lia.
      * destruct Hr as [-> Hext2]. split; [done|]. split; [by eapply extends_trans|done].
    + subst r. split; [done|]. split; [done|]. intros _ k Hk. apply Hdone; lia.
  - split; [done|]. split; [done|]. split; [lia|]. split; [intros; lia|]. lia.
  - lia.
Qed.
End Ensure.
End Stride.

(** ** Single-level array *)
Module PageMap1.
Section PageMap1.
Context (BITS : Z).
Definition LENGTH : Z := Z.shiftl 1 BITS.
Abbreviation t := (gmap Z Z).

Definition Ensure (pm : t) (x n : Z) : bool := n <=? u64 (LENGTH - x).
Definition get (pm : t) (k : Z) : outcome Z :=
  if Z.shiftr k BITS >? 0 then Ret 0 else aget LENGTH pm k.
Definition set (pm : t) (k v : Z) : outcome t := aset LENGTH pm k v.
Definition next_body (pm : t) (k : Z) : outcome (Z + Z) :=
  if k <? LENGTH then
    v ← aget LENGTH pm k;
    Ret (if negb (v =? 0) then inr v else inl (u64 (k + 1)))
  else Ret (inr 0).
Definition Next (pm : t) (k : Z) : outcome Z :=
  loop (Z.to_nat (LENGTH + 1)) (next_body pm) k.
End PageMap1.
End PageMap1.

(** ** Two-level radix tree *)
Module PageMap2.
Section PageMap2.
Context (BITS : Z).

Definition LEAF_BITS : Z := (BITS + 1) / 2.
Definition LEAF_LENGTH : Z := Z.shiftl 1 LEAF_BITS.
Definition ROOT_BITS : Z := BITS - LEAF_BITS.
Definition ROOT_LENGTH : Z := Z.shiftl 1 ROOT_BITS.

(** [root_]: the children present; a leaf holds its non-null values. *)
Abbreviation t := (gmap Z (gmap Z Z)).
Definition init : t := ∅.

Definition get (pm : t) (k : Z) : Z :=
  let i1 := Z.shiftr k LEAF_BITS in
  let i2 := Z.land k (LEAF_LENGTH - 1) in
  if Z.shiftr k BITS >? 0 then 0 else
  match pm !! i1 with
  | None => 0
  | Some leaf => default 0 (leaf !! i2)
  end.

Definition set (pm : t) (k v : Z) : outcome t :=
  let i1 := Z.shiftr k LEAF_BITS in
  let i2 := Z.land k (LEAF_LENGTH - 1) in
  leaf ← deref (if i1 <? ROOT_LENGTH then pm !! i1 else None);
  Ret (<[i1 := <[i2 := v]> leaf]> pm).

Definition ensure_body {A} (alloc : Z -> M A Z) (last : Z) (st : Z * t)
    : M A (Z * t + bool * t) :=
  let '(key, pm) := st in
  if key <=? last then
    let i1 := Z.shiftr key LEAF_BITS in
    if i1 >=? ROOT_LENGTH then mret (inr (false, pm)) else
    let next := u64 (Z.shiftl (Z.shiftr key LEAF_BITS + 1) LEAF_BITS) in
    match pm !! i1 with
    | Some _ => mret (inl (next, pm))
    | None =>
        leaf ← alloc (8 * LEAF_LENGTH);
        if leaf =? 0 then mret (inr (false, pm))
        else mret (inl (next, <[i1 := ∅]> pm))
    end
  else mret (inr (true, pm)).

Definition Ensure {A} (alloc : Z -> M A Z) (pm : t) (start n : Z) : M A (bool * t) :=
  loopM (Z.to_nat (Z.shiftr n LEAF_BITS + 3)) (ensure_body alloc (u64 (start + n - 1)))
    (start, pm).

Definition PreallocateMoreMemory {A} (alloc : Z -> M A Z) (pm : t) : M A t :=
  if BITS <? 20 then
    '(_, pm) ← Ensure alloc pm 0 (Z.shiftl 1 BITS); mret pm
  else mret pm.

Definition next_body (pm : t) (k : Z) : outcome (Z + Z) :=
  if k <? Z.shiftl 1 BITS then
    let i1 := Z.shiftr k LEAF_BITS in
    let found :=
      match pm !! i1 with
      | Some leaf => scan_leaf leaf (Z.land k (LEAF_LENGTH - 1)) LEAF_LENGTH
      | None => None
      end in
    Ret (match found with
         | Some v => inr v
         | None => inl (u64 (Z.shiftl (i1 + 1) LEAF_BITS))
         end)
  else Ret (inr 0).
Definition Next (pm : t) (k : Z) : outcome Z :=
  loop (Z.to_nat (ROOT_LENGTH + 1)) (next_body pm) k.

Definition ensured (pm : t) (k : Z) : Prop :=
  0 <= k < 2 ^ BITS /\ is_Some (pm !! Z.shiftr k LEAF_BITS).

(** *** Correctness *)

Hypothesis HBITS : 2 <= BITS <= 62.

Lemma LEAF_BITS_range : 1 <= LEAF_BITS < BITS.
Proof using HBITS. unfold LEAF_BITS. zdiv. Qed.

Lemma leaf_pow : LEAF_LENGTH = 2 ^ LEAF_BITS /\ 0 < 2 ^ LEAF_BITS /\
  ROOT_LENGTH = 2 ^ ROOT_BITS /\ 2 ^ BITS = 2 ^ ROOT_BITS * 2 ^ LEAF_BITS.
Proof using HBITS.
  pose proof LEAF_BITS_range. unfold LEAF_LENGTH, ROOT_LENGTH, ROOT_BITS.
  rewrite !shiftl_mul, !Z.mul_1_l, <- Z.pow_add_r by lia.
  split_and!; [done|apply Z.pow_pos_nonneg; lia|done|f_equal; lia].
Qed.

Lemma key_split k :
  Z.shiftr k LEAF_BITS = k / 2 ^ LEAF_BITS /\ Z.land k (LEAF_LENGTH - 1) = k mod 2 ^ LEAF_BITS.
Proof using HBITS.
  pose proof LEAF_BITS_range. destruct leaf_pow as (-> & _).
  rewrite shiftr_div, land_ones_mod by lia. done.
Qed.

Lemma key_eq L j k : 0 < L -> j / L = k / L -> j mod L = k mod L -> j = k.
Proof using. intros. rewrite (Z.div_mod j L), (Z.div_mod k L) by lia. congruence. Qed.

Lemma in_range k : 0 <= k -> (Z.shiftr k BITS >? 0) = negb (k <? 2 ^ BITS).
Proof using HBITS.
  intros. rewrite shiftr_div by lia. pose proof (Z.pow_pos_nonneg 2 BITS ltac:(lia) ltac:(lia)).
  rewrite Z.gtb_ltb. destruct (Z.ltb_spec k (2 ^ BITS)); simpl.
  - rewrite Z.div_small by lia. done.
  - apply Z.ltb_lt, Z.div_str_pos. lia.
Qed.

Lemma root_index k : 0 <= k -> Z.shiftr k LEAF_BITS < ROOT_LENGTH <-> k < 2 ^ BITS.
Proof using HBITS.
  intros. destruct (key_split k) as [-> _]. destruct leaf_pow as (_ & Hp & -> & ->).
  split; intros.
  - pose proof (Z.mul_div_le k (2 ^ LEAF_BITS) Hp).
    pose proof (Z.mod_pos_bound k _ Hp). pose proof (Z.div_mod k (2 ^ LEAF_BITS)). nia.
  - apply Z.div_lt_upper_bound; lia.
Qed.

Lemma get_in2 pm k : 0 <= k < 2 ^ BITS ->
  get pm k = match pm !! (k / 2 ^ LEAF_BITS) with
             | Some leaf => default 0 (leaf !! (k mod 2 ^ LEAF_BITS))
             | None => 0
             end.
Proof using HBITS.
  intros Hk. unfold get. rewrite in_range, (proj2 (Z.ltb_lt k _)) by lia. simpl.
  destruct (key_split k) as [-> ->]. done.
Qed.
Lemma get_out2 pm k : 2 ^ BITS <= k -> get pm k = 0.
Proof using HBITS.
  intros Hk. pose proof (Z.pow_pos_nonneg 2 BITS ltac:(lia) ltac:(lia)).
  unfold get. rewrite in_range, (proj2 (Z.ltb_ge k _)) by lia. done.
Qed.

Lemma set_ok2 pm k v : ensured pm k -> exists pm', set pm k v = Ret pm' /\
  (forall j, get pm' j = if decide (j = k) then v else get pm j) /\
  (forall j, ensured pm' j <-> ensured pm j).
Proof using HBITS.
  intros [Hk [leaf Hleaf]]. unfold set.
  rewrite (proj2 (Z.ltb_lt _ _) (proj2 (root_index k ltac:(lia)) ltac:(lia))), Hleaf. obind.
  eexists; split; [done|]. destruct (key_split k) as [Hk1 Hk2]. rewrite Hk1, Hk2 in *.
  destruct leaf_pow as (_ & Hp & _). split.
  - intros j. unfold get. destruct (key_split j) as [-> ->].
    destruct (decide (j = k)) as [->|Hne].
    + rewrite in_range, (proj2 (Z.ltb_lt k _)) by lia. simpl.
      by rewrite !lookup_insert_eq.
    + destruct (Z.shiftr j BITS >? 0); [done|].
      destruct (decide (j / 2 ^ LEAF_BITS = k / 2 ^ LEAF_BITS)) as [E|];
        [|by rewrite lookup_insert_ne by congruence].
      rewrite E, lookup_insert_eq, Hleaf, lookup_insert_ne; [done|].
      intros E2. by apply Hne, (key_eq (2 ^ LEAF_BITS)).
  - intros j. unfold ensured. destruct (key_split j) as [-> _].
    destruct (decide (k / 2 ^ LEAF_BITS = j / 2 ^ LEAF_BITS)) as [E|];
      [rewrite <- E, lookup_insert_eq, Hleaf|by rewrite lookup_insert_ne by done].
    split; intros [? _]; eauto.
Qed.

Lemma new_leaf_extends2 pm i : pm !! i = None ->
  (forall k, get (<[i := ∅]> pm) k = get pm k) /\
  (forall k, ensured pm k -> ensured (<[i := ∅]> pm) k).
Proof using.
  intros Hi. split; intros k.
  - unfold get. destruct (_ >? 0); [done|].
    destruct (decide (Z.shiftr k LEAF_BITS = i)) as [->|];
      [by rewrite lookup_insert_eq, Hi, lookup_empty|by rewrite lookup_insert_ne].
  - intros [Hk [l Hl]]. split; [done|].
    destruct (decide (Z.shiftr k LEAF_BITS = i)) as [->|];
      [rewrite lookup_insert_eq|rewrite lookup_insert_ne by done]; eauto.
Qed.

Lemma LB_ok2 : 0 <= LEAF_BITS <= 61.
Proof using HBITS. pose proof LEAF_BITS_range. lia. Qed.

Lemma Ensure_ok2 {A} (alloc : Z -> M A Z) (P : A -> Prop) pm start n a :
  (forall sz a, P a -> wp (alloc sz) (fun _ a' => P a') a) ->
  0 <= start /\ 1 <= n /\ start + n <= 2 ^ 60 -> P a ->
  wp (Ensure alloc pm start n) (fun '(ok, pm') a' =>
    P a' /\ extends get ensured pm pm' /\
    (ok = true -> forall k, start <= k < start + n -> ensured pm' k)) a.
Proof using HBITS.
  intros Halloc Hrange HP. unfold Ensure. rewrite u64_small by lia.
  apply (ensure_loop _ LB_ok2 get ensured P _ start n Hrange); [|done]. clear a HP pm.
  intros key pm a HP Hkey. unfold ensure_body.
  destruct (Z.leb_spec key (start + n - 1)) as [Hle|Hgt]; [|by apply wp_ret].
  rewrite Z.geb_leb. destruct (Z.leb_spec ROOT_LENGTH (Z.shiftr key LEAF_BITS)) as [|Hlt];
    [by apply wp_ret|].
  destruct (next_key _ LB_ok2 key ltac:(lia)) as (-> & Hk1 & Hk2).
  assert (forall pm', is_Some (pm' !! Z.shiftr key LEAF_BITS) ->
    forall k, key <= k < (key / 2 ^ LEAF_BITS + 1) * 2 ^ LEAF_BITS -> ensured pm' k) as Hens.
  { intros pm' Hs k Hk. pose proof (same_leaf _ LB_ok2 k key Hk) as E.
    assert (Z.shiftr k LEAF_BITS = Z.shiftr key LEAF_BITS) as Es
      by (destruct (key_split k) as [-> _], (key_split key) as [-> _]; done).
    split; [|by rewrite Es]. split; [lia|]. apply root_index; [lia|]. by rewrite Es. }
  destruct (pm !! Z.shiftr key LEAF_BITS) eqn:E.
  { apply wp_ret. split; [done|]. split; [done|]. split; [done|]. apply Hens. eauto. }
  apply wp_bind. eapply wp_mono; [by apply Halloc|]. intros leaf a2 HP2. cbn beta.
  destruct (leaf =? 0); apply wp_ret; (split; [done|]); [done|].
  split; [done|]. split; [by apply new_leaf_extends2|]. apply Hens.
  rewrite lookup_insert_eq. eauto.
Qed.

(** The part of the map one leaf covers, from a key inside it. *)
Lemma leaf_scan_first2 pm leaf k bound :
  0 <= k < 2 ^ BITS -> pm !! (k / 2 ^ LEAF_BITS) = Some leaf ->
  bound = (k / 2 ^ LEAF_BITS + 1) * 2 ^ LEAF_BITS ->
  first_from (get pm) k bound (default 0 (scan_leaf leaf (k mod 2 ^ LEAF_BITS) (2 ^ LEAF_BITS))).
Proof using HBITS.
  intros Hk Hleaf ->. destruct leaf_pow as (_ & Hp & _ & HB).
  pose proof (Z.mod_pos_bound k _ Hp). pose proof (Z.div_mod k (2 ^ LEAF_BITS) ltac:(lia)) as Hdm.
  set (q := k / 2 ^ LEAF_BITS) in *. set (L := 2 ^ LEAF_BITS) in *.
  assert (forall i, 0 <= i < L -> get pm (q * L + i) = default 0 (leaf !! i)) as Hget.
  { intros i Hi. assert ((q * L + i) / L = q) by (rewrite Z.div_add_l, Z.div_small by lia; lia).
    assert ((q * L + i) mod L = i) by (rewrite Z.add_comm, Z.mod_add, Z.mod_small; lia).
    assert (q < 2 ^ ROOT_BITS) by (apply Z.div_lt_upper_bound; nia).
    assert (0 <= q) by (apply Z.div_pos; lia).
    rewrite get_in2 by nia. fold L. rewrite H0, Hleaf, H1. done. }
  destruct (scan_leaf_spec leaf (k mod L) L ltac:(lia)) as [[[Hv Hz]|[Hv (j & Hj & Hg & Hlt)]] _].
  - left. split; [done|]. intros j Hj. replace j with (q * L + (j - q * L)) by lia.
    rewrite Hget by nia. apply Hz. nia.
  - right. split; [done|]. exists (q * L + j). split; [nia|]. split; [by rewrite Hget by lia|].
    intros i Hi. replace i with (q * L + (i - q * L)) by lia.
    rewrite Hget by nia. apply Hlt. nia.
Qed.

(** A missing leaf is a stretch of null values. *)
Lemma no_leaf_zero pm k j :
  0 <= k -> pm !! (k / 2 ^ LEAF_BITS) = None ->
  k <= j < (k / 2 ^ LEAF_BITS + 1) * 2 ^ LEAF_BITS -> get pm j = 0.
Proof using HBITS.
  intros Hk Hnone Hj.
  destruct (Z.lt_ge_cases j (2 ^ BITS)); [|by apply get_out2].
  by rewrite get_in2, (same_leaf _ LB_ok2 j k Hj), Hnone by lia.
Qed.

Lemma Next_ok2 pm k : 0 <= k -> exists v, Next pm k = Ret v /\ first_from (get pm) k (2 ^ BITS) v.
Proof using HBITS.
  intros Hk0. pose proof LEAF_BITS_range. destruct leaf_pow as (HL & Hp & HR & HB).
  pose proof (Z.pow_pos_nonneg 2 ROOT_BITS ltac:(lia) ltac:(unfold ROOT_BITS; lia)).
  apply (scan_loop _ _ _ (fun k => ROOT_LENGTH - k / 2 ^ LEAF_BITS)); [| | |done| |lia].
  - intros j Hj. split; [by apply get_out2|]. unfold next_body.
    rewrite shiftl_mul, Z.mul_1_l by lia. by rewrite (proj2 (Z.ltb_ge j _)).
  - intros j Hj. unfold next_body. rewrite shiftl_mul, Z.mul_1_l by lia.
    rewrite (proj2 (Z.ltb_lt j _)) by lia.
    pose proof (Z.pow_le_mono_r 2 BITS 62 ltac:(lia) ltac:(lia)).
    destruct (next_key _ LB_ok2 j ltac:(lia)) as (-> & Hk1 & Hk2).
    destruct (key_split j) as [-> ->]. rewrite HL. eexists; split; [done|].
    assert (forall x, (x + 1) * 2 ^ LEAF_BITS / 2 ^ LEAF_BITS = x + 1) as Hd
      by (intros; apply Z.div_mul; lia).
    destruct (pm !! _) as [leaf|] eqn:Hleaf.
    + pose proof (leaf_scan_first2 pm leaf j _ ltac:(lia) Hleaf eq_refl) as Hs.
      destruct (scan_leaf leaf _ _) as [v|] eqn:Hv; simpl in Hs.
      * split; [|eauto]. eapply scan_leaf_spec; [|done]. apply Z.mod_pos_bound; lia.
      * split; [lia|]. split; [rewrite Hd; lia|]. destruct Hs as [[_ Hs]|[? _]]; done.
    + split; [lia|]. split; [rewrite Hd; lia|]. intros i Hi.
      by apply (no_leaf_zero pm j); [lia|done|lia].
  - intros j Hj. assert (j / 2 ^ LEAF_BITS < ROOT_LENGTH); [|lia].
    rewrite HR. apply Z.div_lt_upper_bound; lia.
  - intros _. pose proof (Z.div_pos k (2 ^ LEAF_BITS)). lia.
Qed.

Lemma Ensure_moves2 {A} (alloc : Z -> M A Z) R pm start n : PreOrder R ->
  (forall sz, moves R (alloc sz)) -> moves R (Ensure alloc pm start n).
Proof using.
  intros HR Halloc. unfold Ensure. apply moves_loopM; [done|]. intros [key pm']. unfold ensure_body. moves.
Qed.
End PageMap2.
End PageMap2.

(** ** Three-level radix tree *)
Module PageMap3.
Section PageMap3.
Context (BITS : Z).

Definition INTERIOR_BITS : Z := (BITS + 2) / 3.
Definition INTERIOR_LENGTH : Z := Z.shiftl 1 INTERIOR_BITS.
Definition LEAF_BITS : Z := BITS - 2 * INTERIOR_BITS.
Definition LEAF_LENGTH : Z := Z.shiftl 1 LEAF_BITS.

Abbreviation t := (gmap Z (gmap Z (gmap Z Z))).
Definition init : t := ∅.

Definition idx1 (k : Z) : Z := Z.shiftr k (LEAF_BITS + INTERIOR_BITS).
Definition idx2 (k : Z) : Z := Z.land (Z.shiftr k LEAF_BITS) (INTERIOR_LENGTH - 1).
Definition idx3 (k : Z) : Z := Z.land k (LEAF_LENGTH - 1).

Definition get (pm : t) (k : Z) : Z :=
  if Z.shiftr k BITS >? 0 then 0 else
  match pm !! idx1 k with
  | None => 0
  | Some node =>
      match node !! idx2 k with
      | None => 0
      | Some leaf => default 0 (leaf !! idx3 k)
      end
  end.

Definition set (pm : t) (k v : Z) : outcome t :=
  node ← deref (if idx1 k <? INTERIOR_LENGTH then pm !! idx1 k else None);
  leaf ← deref (node !! idx2 k);
  Ret (<[idx1 k := <[idx2 k := <[idx3 k := v]> leaf]> node]> pm).

Definition ensure_body {A} (alloc : Z -> M A Z) (last : Z) (st : Z * t)
    : M A (Z * t + bool * t) :=
  let '(key, pm) := st in
  if key <=? last then
    let i1 := idx1 key in
    let i2 := idx2 key in
    if (i1 >=? INTERIOR_LENGTH) || (i2 >=? INTERIOR_LENGTH) then mret (inr (false, pm)) else
    onode ← (match pm !! i1 with
             | Some node => mret (Some node)
             | None => n ← alloc (8 * INTERIOR_LENGTH);
                       mret (if n =? 0 then None else Some ∅)
             end);
    match onode with
    | None => mret (inr (false, pm))
    | Some node =>
        let pm := <[i1 := node]> pm in
        let next := u64 (Z.shiftl (Z.shiftr key LEAF_BITS + 1) LEAF_BITS) in
        match node !! i2 with
        | Some _ => mret (inl (next, pm))
        | None =>
            leaf ← alloc (8 * LEAF_LENGTH);
            if leaf =? 0 then mret (inr (false, pm))
            else mret (inl (next, <[i1 := <[i2 := ∅]> node]> pm))
        end
    end
  else mret (inr (true, pm)).

Definition Ensure {A} (alloc : Z -> M A Z) (pm : t) (start n : Z) : M A (bool * t) :=
  loopM (Z.to_nat (Z.shiftr n LEAF_BITS + 3)) (ensure_body alloc (u64 (start + n - 1)))
    (start, pm).

Definition PreallocateMoreMemory {A} (alloc : Z -> M A Z) (pm : t) : M A t := mret pm.

Definition next_body (pm : t) (k : Z) : outcome (Z + Z) :=
  if k <? Z.shiftl 1 BITS then
    match pm !! idx1 k with
    | None => Ret (inl (u64 (Z.shiftl (idx1 k + 1) (LEAF_BITS + INTERIOR_BITS))))
    | Some node =>
        let found :=
          match node !! idx2 k with
          | Some leaf => scan_leaf leaf (idx3 k) LEAF_LENGTH
          | None => None
          end in
        Ret (match found with
             | Some v => inr v
             | None => inl (u64 (Z.shiftl (Z.shiftr k LEAF_BITS + 1) LEAF_BITS))
             end)
    end
  else Ret (inr 0).
Definition Next (pm : t) (k : Z) : outcome Z :=
  loop (Z.to_nat (INTERIOR_LENGTH * INTERIOR_LENGTH + 1)) (next_body pm) k.

(** The leaf that holds a key. *)
Definition leaf_at (pm : t) (k : Z) : option (gmap Z Z) :=
  pm !! idx1 k ≫= fun node => node !! idx2 k.
Definition ensured (pm : t) (k : Z) : Prop := 0 <= k < 2 ^ BITS /\ is_Some (leaf_at pm k).

(** *** Correctness *)
Hypothesis HBITS : 2 <= BITS <= 62.

Lemma bits_range : 1 <= INTERIOR_BITS /\ 0 <= LEAF_BITS /\
  BITS = INTERIOR_BITS + (LEAF_BITS + INTERIOR_BITS) /\ LEAF_BITS + INTERIOR_BITS <= 61.
Proof using HBITS. unfold LEAF_BITS, INTERIOR_BITS. zdiv. Qed.

Lemma pows : LEAF_LENGTH = 2 ^ LEAF_BITS /\ INTERIOR_LENGTH = 2 ^ INTERIOR_BITS /\
  0 < 2 ^ LEAF_BITS /\ 0 < 2 ^ INTERIOR_BITS /\
  2 ^ BITS = 2 ^ INTERIOR_BITS * 2 ^ INTERIOR_BITS * 2 ^ LEAF_BITS.
Proof using HBITS.
  destruct bits_range as (? & ? & HB & ?). unfold LEAF_LENGTH, INTERIOR_LENGTH.
  rewrite !shiftl_mul, !Z.mul_1_l, <- !Z.pow_add_r by lia.
  split_and!; [done..|apply Z.pow_pos_nonneg; lia|apply Z.pow_pos_nonneg; lia|f_equal; lia].
Qed.

(** The indices in terms of the leaf number [k / 2^LEAF_BITS]. *)
Lemma idx_spec k :
  idx1 k = k / 2 ^ LEAF_BITS / 2 ^ INTERIOR_BITS /\
  idx2 k = (k / 2 ^ LEAF_BITS) mod 2 ^ INTERIOR_BITS /\ idx3 k = k mod 2 ^ LEAF_BITS.
Proof using HBITS.
  destruct bits_range as (? & ? & _). destruct pows as (HL & HI & ? & ? & _).
  unfold idx1, idx2, idx3. rewrite HL, HI, !land_ones_mod, !shiftr_div by lia.
  rewrite Z.pow_add_r, Z.div_div by lia. done.
Qed.

Lemma idx1_range k : 0 <= k -> idx1 k < INTERIOR_LENGTH <-> k < 2 ^ BITS.
Proof using HBITS.
  intros. destruct (idx_spec k) as (-> & _). destruct pows as (_ & -> & ? & ? & ->).
  rewrite Z.div_div by lia. split; intros.
  - pose proof (Z.div_mod k (2 ^ LEAF_BITS * 2 ^ INTERIOR_BITS) ltac:(nia)).
    pose proof (Z.mod_pos_bound k (2 ^ LEAF_BITS * 2 ^ INTERIOR_BITS) ltac:(nia)). nia.
  - apply Z.div_lt_upper_bound; nia.
Qed.

Lemma leaf_at_same pm j k : j / 2 ^ LEAF_BITS = k / 2 ^ LEAF_BITS -> leaf_at pm j = leaf_at pm k.
Proof using HBITS.
  intros E. unfold leaf_at. destruct (idx_spec j) as (-> & -> & _), (idx_spec k) as (-> & -> & _).
  by rewrite E.
Qed.

Lemma get_leaf_at pm k : get pm k =
  if Z.shiftr k BITS >? 0 then 0 else
  match leaf_at pm k with Some leaf => default 0 (leaf !! idx3 k) | None => 0 end.
Proof using. unfold get, leaf_at. destruct (pm !! idx1 k); done. Qed.

Lemma get_in3 pm k : 0 <= k < 2 ^ BITS -> get pm k =
  match leaf_at pm k with Some leaf => default 0 (leaf !! (k mod 2 ^ LEAF_BITS)) | None => 0 end.
Proof using HBITS.
  intros Hk. rewrite get_leaf_at, PageMap2.in_range, (proj2 (Z.ltb_lt k _)) by lia. simpl.
  by destruct (idx_spec k) as (_ & _ & ->).
Qed.
Lemma get_out3 pm k : 2 ^ BITS <= k -> get pm k = 0.
Proof using HBITS.
  intros Hk. pose proof (Z.pow_pos_nonneg 2 BITS ltac:(lia) ltac:(lia)).
  rewrite get_leaf_at, PageMap2.in_range, (proj2 (Z.ltb_ge k _)) by lia. done.
Qed.

(** Writing a leaf under a present node. *)
Lemma leaf_at_insert pm node k j leaf' :
  pm !! idx1 k = Some node ->
  leaf_at (<[idx1 k := <[idx2 k := leaf']> node]> pm) j =
  if decide (j / 2 ^ LEAF_BITS = k / 2 ^ LEAF_BITS) then Some leaf' else leaf_at pm j.
Proof using HBITS.
  intros Hn. destruct pows as (_ & _ & _ & Hp & _). case_decide as E.
  - rewrite (leaf_at_same _ j k E). unfold leaf_at. rewrite lookup_insert_eq. simpl.
    by rewrite lookup_insert_eq.
  - unfold leaf_at. destruct (decide (idx1 j = idx1 k)) as [E1|];
      [|by rewrite lookup_insert_ne by congruence].
    rewrite E1, lookup_insert_eq, Hn. simpl. rewrite lookup_insert_ne; [done|].
    destruct (idx_spec j) as (Hj1 & -> & _), (idx_spec k) as (Hk1 & -> & _).
    intros E2. apply E, (PageMap2.key_eq (2 ^ INTERIOR_BITS)); [done|congruence|done].
Qed.

Lemma set_ok3 pm k v : ensured pm k -> exists pm', set pm k v = Ret pm' /\
  (forall j, get pm' j = if decide (j = k) then v else get pm j) /\
  (forall j, ensured pm' j <-> ensured pm j).
Proof using HBITS.
  intros [Hk [leaf Hleaf]]. unfold set. rewrite (proj2 (Z.ltb_lt _ _)) by (apply idx1_range; lia).
  pose proof Hleaf as Hl. unfold leaf_at in Hl.
  destruct (pm !! idx1 k) as [node|] eqn:Hn; [|done]. simpl in Hl. obind. rewrite Hl. obind.
  eexists; split; [done|]. destruct pows as (_ & _ & Hp & _). split.
  - intros j. rewrite !get_leaf_at, (leaf_at_insert _ _ _ _ _ Hn).
    destruct (decide (j = k)) as [->|Hne].
    + rewrite PageMap2.in_range, (proj2 (Z.ltb_lt k _)) by lia. simpl.
      by rewrite decide_True, lookup_insert_eq by done.
    + destruct (_ >? 0); [done|]. case_decide as E; [|done].
      rewrite (leaf_at_same pm j k E), Hleaf, lookup_insert_ne; [done|].
      destruct (idx_spec j) as (_ & _ & ->), (idx_spec k) as (_ & _ & ->).
      intros E3. by apply Hne, (PageMap2.key_eq (2 ^ LEAF_BITS)).
  - intros j. unfold ensured. rewrite (leaf_at_insert _ _ _ _ _ Hn). case_decide as E; [|done].
    rewrite (leaf_at_same pm j k E), Hleaf. split; intros [? _]; eauto.
Qed.

Lemma LB_ok3 : 0 <= LEAF_BITS <= 61.
Proof using HBITS. pose proof bits_range. lia. Qed.

(** A new empty node, and a new empty leaf under a present node. *)
Lemma new_node_extends pm i node :
  pm !! i = Some node \/ (pm !! i = None /\ node = ∅) ->
  extends get ensured pm (<[i := node]> pm).
Proof using.
  intros Hi.
  assert (forall k, leaf_at (<[i := node]> pm) k = leaf_at pm k) as Hl.
  { intros k. unfold leaf_at. destruct (decide (i = idx1 k)) as [<-|];
      [rewrite lookup_insert_eq|by rewrite lookup_insert_ne].
    destruct Hi as [->|[-> ->]]; simpl; [done|apply lookup_empty]. }
  split; intros k; [by rewrite !get_leaf_at, Hl|unfold ensured; by rewrite Hl].
Qed.

Lemma new_leaf_extends3 pm node k :
  pm !! idx1 k = Some node -> node !! idx2 k = None ->
  extends get ensured pm (<[idx1 k := <[idx2 k := ∅]> node]> pm).
Proof using HBITS.
  intros Hn Hl. assert (leaf_at pm k = None) as Hk by (unfold leaf_at; by rewrite Hn).
  split; intros j; [rewrite !get_leaf_at|intros [? Hs]; split; [done|]; revert Hs];
    rewrite (leaf_at_insert _ _ _ _ _ Hn); case_decide as E; try done.
  by rewrite (leaf_at_same pm j k E), Hk, lookup_empty.
Qed.

Lemma ensured_leaf pm key k :
  idx1 key < INTERIOR_LENGTH -> 0 <= key -> is_Some (leaf_at pm key) ->
  key <= k < (key / 2 ^ LEAF_BITS + 1) * 2 ^ LEAF_BITS -> ensured pm k.
Proof using HBITS.
  intros Hi Hkey Hs Hk. pose proof (same_leaf _ LB_ok3 k key Hk) as E.
  split; [|by rewrite (leaf_at_same pm k key E)]. split; [lia|]. apply idx1_range; [lia|].
  destruct (idx_spec k) as (-> & _). rewrite E. by destruct (idx_spec key) as (<- & _).
Qed.

Lemma Ensure_ok3 {A} (alloc : Z -> M A Z) (P : A -> Prop) pm start n a :
  (forall sz a, P a -> wp (alloc sz) (fun _ a' => P a') a) ->
  0 <= start /\ 1 <= n /\ start + n <= 2 ^ 60 -> P a ->
  wp (Ensure alloc pm start n) (fun '(ok, pm') a' =>
    P a' /\ extends get ensured pm pm' /\
    (ok = true -> forall k, start <= k < start + n -> ensured pm' k)) a.
Proof using HBITS.
  intros Halloc Hrange HP. unfold Ensure. rewrite u64_small by lia.
  apply (ensure_loop _ LB_ok3 get ensured P _ start n Hrange); [|done]. clear a HP pm.
  intros key pm a HP Hkey. unfold ensure_body.
  destruct (Z.leb_spec key (start + n - 1)) as [Hle|Hgt]; [|by apply wp_ret].
  destruct (next_key _ LB_ok3 key ltac:(lia)) as (-> & Hk1 & Hk2).
  rewrite !Z.geb_leb. destruct (Z.leb_spec INTERIOR_LENGTH (idx1 key)) as [|Hlt]; simpl;
    [by apply wp_ret|].
  destruct (INTERIOR_LENGTH <=? idx2 key); [by apply wp_ret|]. apply wp_bind.
  apply wp_mono with (P := fun onode a' => P a' /\
    match onode with Some node => pm !! idx1 key = Some node \/ (pm !! idx1 key = None /\ node = ∅)
    | None => True end).
  { destruct (pm !! idx1 key); [apply wp_ret; auto|]. apply wp_bind.
    eapply wp_mono; [by apply Halloc|]. intros nd a2 HP2. apply wp_ret.
    destruct (nd =? 0); auto. }
  intros [node|] a2 [HP2 Hnode]; [|by apply wp_ret].
  pose proof (new_node_extends pm (idx1 key) node Hnode) as Hext.
  set (pm1 := <[idx1 key := node]> pm) in *.
  assert (pm1 !! idx1 key = Some node) as Hn1 by apply lookup_insert_eq.
  destruct (node !! idx2 key) as [leaf|] eqn:Hleaf.
  { apply wp_ret. split; [done|]. split; [done|]. split; [done|].
    intros k. apply ensured_leaf; [done|lia|]. unfold leaf_at. rewrite Hn1. simpl. eauto. }
  apply wp_bind. eapply wp_mono; [by apply Halloc|]. intros l a3 HP3. cbn beta.
  destruct (l =? 0); apply wp_ret; (split; [done|]); [done|]. split; [done|]. split.
  - eapply extends_trans; [exact Hext|]. by apply new_leaf_extends3.
  - intros k. apply ensured_leaf; [done|lia|].
    rewrite (leaf_at_insert _ _ _ _ _ Hn1), decide_True by done. eauto.
Qed.

(** The stretch of one leaf, and of one missing node. *)
Lemma leaf_scan_first3 pm k :
  0 <= k < 2 ^ BITS ->
  first_from (get pm) k ((k / 2 ^ LEAF_BITS + 1) * 2 ^ LEAF_BITS)
    (match leaf_at pm k with
     | Some leaf => default 0 (scan_leaf leaf (k mod 2 ^ LEAF_BITS) (2 ^ LEAF_BITS))
     | None => 0 end).
Proof using HBITS.
  intros Hk. destruct pows as (_ & _ & Hp & _). set (L := 2 ^ LEAF_BITS) in *.
  pose proof (Z.mod_pos_bound k _ Hp). pose proof (Z.div_mod k L ltac:(lia)) as Hdm.
  assert (0 <= k / L * L) by (apply Z.mul_nonneg_nonneg; [apply Z.div_pos|]; lia).
  assert (forall j, k / L * L <= j < (k / L + 1) * L -> j < 2 ^ BITS -> get pm j =
    match leaf_at pm k with Some leaf => default 0 (leaf !! (j mod L)) | None => 0 end) as Hget.
  { intros j Hj Hj'. rewrite get_in3 by lia. rewrite (leaf_at_same pm j k); [done|]. fold L.
    symmetry. apply Z.div_unique with (r := j - k / L * L); lia. }
  assert (forall j, k / L * L <= j < (k / L + 1) * L -> j mod L = j - k / L * L) as Hmod.
  { intros j Hj. symmetry. apply Z.mod_unique with (q := k / L); lia. }
  destruct (leaf_at pm k) as [leaf|].
  2: { left. split; [done|]. intros j Hj.
    destruct (Z.lt_ge_cases j (2 ^ BITS)); [apply Hget; lia|by apply get_out3]. }
  destruct (scan_leaf_spec leaf (k mod L) L ltac:(lia)) as [[[Hv Hz]|[Hv (j & Hj & Hg & Hlt)]] _].
  - left. split; [done|]. intros j Hj. destruct (Z.lt_ge_cases j (2 ^ BITS)); [|by apply get_out3].
    rewrite Hget, Hmod by lia. apply Hz. lia.
  - right. split; [done|].
    assert (k / L * L + j < 2 ^ BITS) as Hin.
    { destruct pows as (_ & _ & _ & _ & HB). fold L in HB.
      assert (k / L < 2 ^ INTERIOR_BITS * 2 ^ INTERIOR_BITS)
        by (apply Z.div_lt_upper_bound; [done|]; rewrite Z.mul_comm, <- HB; lia). nia. }
    exists (k / L * L + j). split; [lia|]. split.
    + rewrite Hget, Hmod by lia. rewrite <- Hg. do 2 f_equal. lia.
    + intros i Hi. rewrite Hget, Hmod by lia. apply Hlt. lia.
Qed.

Lemma no_node_zero pm k j :
  0 <= k -> pm !! idx1 k = None ->
  k <= j < (idx1 k + 1) * 2 ^ (LEAF_BITS + INTERIOR_BITS) -> get pm j = 0.
Proof using HBITS.
  intros Hk Hnone Hj. pose proof bits_range as (? & ? & _ & ?).
  assert (idx1 j = idx1 k) as E.
  { unfold idx1 in *. rewrite !shiftr_div in * by lia. apply same_leaf; [lia|done]. }
  rewrite get_leaf_at. destruct (_ >? 0); [done|]. unfold leaf_at. by rewrite E, Hnone.
Qed.

Lemma Next_ok3 pm k : 0 <= k -> exists v, Next pm k = Ret v /\ first_from (get pm) k (2 ^ BITS) v.
Proof using HBITS.
  intros Hk0. pose proof bits_range as (? & ? & HB & HN).
  destruct pows as (HL & HI & Hp & Hpi & Hpow).
  pose proof (Z.pow_le_mono_r 2 BITS 62 ltac:(lia) ltac:(lia)).
  apply (scan_loop _ _ _ (fun k => INTERIOR_LENGTH * INTERIOR_LENGTH - k / 2 ^ LEAF_BITS));
    [| | |done| |lia].
  - intros j Hj. split; [by apply get_out3|]. unfold next_body.
    rewrite shiftl_mul, Z.mul_1_l by lia. by rewrite (proj2 (Z.ltb_ge j _)).
  - intros j Hj. unfold next_body. rewrite (shiftl_mul 1), Z.mul_1_l by lia.
    rewrite (proj2 (Z.ltb_lt j _)), HL by lia.
    pose proof (leaf_scan_first3 pm j ltac:(lia)) as Hs. unfold leaf_at in Hs.
    destruct (idx_spec j) as (_ & _ & H3). rewrite <- H3 in Hs.
    destruct (pm !! idx1 j) as [node|] eqn:Hnode; simpl in Hs.
    + destruct (next_key _ LB_ok3 j ltac:(lia)) as (-> & Hk1 & Hk2).
      eexists; split; [done|].
      assert ((j / 2 ^ LEAF_BITS + 1) * 2 ^ LEAF_BITS / 2 ^ LEAF_BITS = j / 2 ^ LEAF_BITS + 1)
        as Hd by (apply Z.div_mul; lia).
      destruct (node !! idx2 j) as [leaf|]; simpl in Hs;
        [destruct (scan_leaf leaf _ _) as [v|] eqn:Hv; simpl in Hs|].
      1: { split; [|eauto]. eapply scan_leaf_spec; [|done]. rewrite H3. apply Z.mod_pos_bound; lia. }
      all: split; [lia|]; split; [rewrite Hd; lia|]; destruct Hs as [[_ Hs]|[? _]]; done.
    + destruct (next_key (LEAF_BITS + INTERIOR_BITS) ltac:(lia) j ltac:(lia)) as (Hk2 & Hk1 & _).
      unfold idx1 at 1. rewrite Hk2 in *. eexists; split; [done|]. split; [done|]. split.
      * intros _. pose proof (Z.div_mod j (2 ^ LEAF_BITS) ltac:(lia)).
        set (k2 := (j / 2 ^ (LEAF_BITS + INTERIOR_BITS) + 1) * 2 ^ (LEAF_BITS + INTERIOR_BITS)) in *.
        assert (k2 / 2 ^ LEAF_BITS * 2 ^ LEAF_BITS = k2).
        { unfold k2. rewrite Z.pow_add_r, (Z.mul_comm (2 ^ LEAF_BITS)), Z.mul_assoc, Z.div_mul by lia.
          done. }
        pose proof (Z.mod_pos_bound j _ Hp). nia.
      * intros i Hi. apply (no_node_zero pm j); [lia|done|]. unfold idx1 at 1.
        by rewrite shiftr_div by lia.
  - intros j Hj. assert (j / 2 ^ LEAF_BITS < INTERIOR_LENGTH * INTERIOR_LENGTH); [|lia].
    rewrite HI. apply Z.div_lt_upper_bound; lia.
  - intros _. pose proof (Z.div_pos k (2 ^ LEAF_BITS)). nia.
Qed.

Lemma Ensure_moves3 {A} (alloc : Z -> M A Z) R pm start n : PreOrder R ->
  (forall sz, moves R (alloc sz)) -> moves R (Ensure alloc pm start n).
Proof using.
  intros HR Halloc. unfold Ensure. apply moves_loopM; [done|]. intros [key pm']. unfold ensure_body. moves.
Qed.
End PageMap3.
End PageMap3.

(** ** The trees implement the interface *)

Definition pagemap2 (BITS : Z) : PageMap (gmap Z (gmap Z Z)) := {|
  pm_bits := BITS;
  pm_init := PageMap2.init;
  pm_get := PageMap2.get BITS;
  pm_set := PageMap2.set BITS;
  pm_ensure := fun _ => PageMap2.Ensure BITS;
  pm_prealloc := fun _ => PageMap2.PreallocateMoreMemory BITS;
  pm_next := PageMap2.Next BITS;
  pm_ensured := PageMap2.ensured BITS |}.

Definition pagemap3 (BITS : Z) : PageMap (gmap Z (gmap Z (gmap Z Z))) := {|
  pm_bits := BITS;
  pm_init := PageMap3.init;
  pm_get := PageMap3.get BITS;
  pm_set := PageMap3.set BITS;
  pm_ensure := fun _ => PageMap3.Ensure BITS;
  pm_prealloc := fun _ => PageMap3.PreallocateMoreMemory;
  pm_next := PageMap3.Next BITS;
  pm_ensured := PageMap3.ensured BITS |}.

Lemma pagemap2_laws BITS : 2 <= BITS <= 60 -> @PageMapLaws _ (pagemap2 BITS).
Proof.
  intros HB. split.
  - intros k. cbn. unfold PageMap2.get, PageMap2.init. rewrite lookup_empty. by case_match.
  - by intros pm k [? _].
  - intros pm k v. apply PageMap2.set_ok2. lia.
  - intros A alloc P pm start n a Halloc HP ???.
    apply (PageMap2.Ensure_ok2 BITS ltac:(lia) alloc P); [done|lia|done].
  - intros A alloc P pm a Halloc HP. cbn. unfold PageMap2.PreallocateMoreMemory.
    destruct (BITS <? 20); [|by apply wp_ret]. apply wp_bind.
    rewrite shiftl_mul, Z.mul_1_l by lia.
    pose proof (Z.pow_pos_nonneg 2 BITS ltac:(lia) ltac:(lia)).
    pose proof (Z.pow_le_mono_r 2 BITS 60 ltac:(lia) ltac:(lia)).
    eapply wp_mono; [apply (PageMap2.Ensure_ok2 BITS ltac:(lia) alloc P); [done|lia|done]|].
    intros [ok pm'] a' (? & ? & _). by apply wp_ret.
  - intros A alloc R pm start n HR Halloc. by apply PageMap2.Ensure_moves2.
  - intros A alloc R pm HR Halloc. cbn. unfold PageMap2.PreallocateMoreMemory. pose proof PageMap2.Ensure_moves2. moves.
  - intros pm k Hk. by apply (PageMap2.Next_ok2 BITS ltac:(lia)).
Qed.

Lemma pagemap3_laws BITS : 2 <= BITS <= 60 -> @PageMapLaws _ (pagemap3 BITS).
Proof.
  intros HB. split.
  - intros k. cbn. unfold PageMap3.get, PageMap3.init. rewrite lookup_empty. by case_match.
  - by intros pm k [? _].
  - intros pm k v. apply PageMap3.set_ok3. lia.
  - intros A alloc P pm start n a Halloc HP ???.
    apply (PageMap3.Ensure_ok3 BITS ltac:(lia) alloc P); [done|lia|done].
  - intros A alloc P pm a Halloc HP. by apply wp_ret.
  - intros A alloc R pm start n HR Halloc. by apply PageMap3.Ensure_moves3.
  - intros A alloc R pm HR Halloc. cbn. unfold PageMap3.PreallocateMoreMemory. pose proof PageMap3.Ensure_moves3. moves.
  - intros pm k Hk. by apply (PageMap3.Next_ok3 BITS ltac:(lia)).
Qed.

(** [MapSelector<48>::Type]: the map of the 48-bit build. *)
#[export] Instance MapSelector48 : PageMap (gmap Z (gmap Z Z)) :=
  pagemap2 (kAddressBits - kPageShift).
#[export] Instance MapSelector48_laws : PageMapLaws (gmap Z (gmap Z Z)).
Proof. apply pagemap2_laws. clia. Qed.

(** ** Properties *)

(** C30: the two-level radix tree implements the page-map interface for
    every key width from 2 to 60 bits: a fresh map is empty, [set] on an
    ensured page changes exactly that page, [Ensure] terminates, keeps the
    contents and on success makes the whole range settable, and [Next]
    terminates and finds the first non-null value at or after its key. *)
Theorem PageMap2_implements (BITS : Z) (HB : 2 <= BITS <= 60) : @PageMapLaws _ (pagemap2 BITS).
Proof. by apply pagemap2_laws. Qed.

Lemma PageMap2_implements_witness : @PageMapLaws _ (pagemap2 35).
Proof. apply (PageMap2_implements 35). lia. Defined.

(** The three-level radix tree implements the same interface. *)
Theorem PageMap3_implements (BITS : Z) (HB : 2 <= BITS <= 60) : @PageMapLaws _ (pagemap3 BITS).
Proof. by apply pagemap3_laws. Qed.

Lemma PageMap3_implements_witness : @PageMapLaws _ (pagemap3 51).
Proof. apply (PageMap3_implements 51). lia. Defined.

(** The flat map's [Ensure] decides [x + n <= LENGTH] when the start is
    inside the array, but for a start past its end the unsigned difference
    wraps and the call succeeds for a range that is not in the array. *)
Theorem PageMap1_Ensure_wraps (BITS x n : Z)
    (HB : 1 <= BITS <= 30) (Hx : 0 <= x < 2 ^ 64) (Hn : 0 <= n) :
  PageMap1.Ensure BITS ∅ x n =
    if x <=? 2 ^ BITS then x + n <=? 2 ^ BITS else x + n <=? 2 ^ BITS + 2 ^ 64.
Proof.
  unfold PageMap1.Ensure, PageMap1.LENGTH. rewrite shiftl_mul, Z.mul_1_l by lia.
  pose proof (Z.pow_pos_nonneg 2 BITS ltac:(lia) ltac:(lia)).
  pose proof (Z.pow_le_mono_r 2 BITS 30 ltac:(lia) ltac:(lia)).
  destruct (Z.leb_spec x (2 ^ BITS)).
  - rewrite u64_small by lia. apply Bool.eq_iff_eq_true. rewrite !Z.leb_le. lia.
  - replace (u64 (2 ^ BITS - x)) with (2 ^ BITS - x + 2 ^ 64).
    + apply Bool.eq_iff_eq_true. rewrite !Z.leb_le. lia.
    + unfold u64. rewrite <- (Z.mod_add _ 1), Z.mod_small; lia.
Qed.

Lemma PageMap1_Ensure_wraps_witness :
  PageMap1.Ensure 10 ∅ 2000 5 = true /\ (2000 + 5 <=? 2 ^ 10) = false.
Proof.
  split; [|reflexivity].
  rewrite (PageMap1_Ensure_wraps 10 2000 5); [reflexivity|lia..].
Defined.
