(* ===== verification/PackedCache.v ===== *)
(** * The packed page-to-size-class cache

    Models src/src/src/packed-cache-inl.h: a direct-mapped cache of
    2^16 machine words; an entry packs the upper bits of a key with a 7-bit
    value, an invalid bit above the value marks an absent one. *)
From S2P Require Import Prelude Common.

Module PackedCache.
Section PackedCache.
Context (kKeybits : Z).

Definition kHashbits : Z := 16.
Definition kValuebits : Z := 7.
Definition kInvalidMask : Z := 0x80.

(** [N_ONES_(T, N)]. *)
Definition N_ONES_ (N : Z) : Z :=
  if N =? 0 then 0 else u64 (Z.shiftl 1 (N - 1) - 1 + Z.shiftl 1 (N - 1)).

(** The array; a missing index still holds the word [Clear] writes, 0x80
    in each byte. *)
Definition t : Type := gmap Z Z.
Definition cleared_word : Z := 0x8080808080808080.
Definition read (c : t) (h : Z) : Z := default cleared_word (c !! h).

Definition Hash (key : Z) : Z := Z.land key (N_ONES_ kHashbits).
Definition KeyToUpper (k : Z) : Z := Z.lxor k (Hash k).

Definition Clear (c : t) : t := ∅.
Definition Put (c : t) (key value : Z) : t :=
  <[Hash key := Z.lor (KeyToUpper key) value]> (c : gmap Z Z).
Definition Invalidate (c : t) (key : Z) : t :=
  <[Hash key := Z.lor (KeyToUpper key) kInvalidMask]> (c : gmap Z Z).

Definition TryGet (c : t) (key : Z) : option Z :=
  let hash := Hash key in
  let expected_entry := Z.land key (2 ^ 64 - 1 - N_ONES_ kHashbits) in
  let entry := Z.lxor (read c hash) expected_entry in
  if entry >=? Z.shiftl 1 kValuebits then None else Some entry.

(** [PageHeap::GetSizeClassOrZero]. *)
Definition GetSizeClassOrZero (c : t) (key : Z) : Z := default 0 (TryGet c key).

(** ** Entries as numbers *)

Hypothesis Hkey : 16 <= kKeybits <= 56.
Definition key_ok (k : Z) : Prop := 0 <= k < 2 ^ kKeybits.

Definition upper (k : Z) : Z := k / 2 ^ 16 * 2 ^ 16.

Lemma Hash_mod k : Hash k = k mod 2 ^ 16.
Proof using. unfold Hash. change (N_ONES_ kHashbits) with (2 ^ 16 - 1). by apply land_ones_mod. Qed.

Lemma shift_upper k : Z.shiftl (Z.shiftr k 16) 16 = upper k.
Proof using. unfold upper. by rewrite shiftl_mul, shiftr_div by lia. Qed.

Lemma KeyToUpper_upper k : KeyToUpper k = upper k.
Proof using.
  rewrite <- shift_upper. unfold KeyToUpper, Hash.
  change (N_ONES_ kHashbits) with (Z.ones 16). apply Z.bits_inj'. intros i Hi.
  rewrite Z.lxor_spec, Z.land_spec, Z.shiftl_spec by done.
  destruct (Z.lt_ge_cases i 16).
  - rewrite Z.ones_spec_low, andb_true_r, xorb_nilpotent, Z.testbit_neg_r by lia. done.
  - rewrite Z.ones_spec_high, andb_false_r, xorb_false_r, Z.shiftr_spec by lia. f_equal. lia.
Qed.

Lemma expected_upper k : 0 <= k < 2 ^ 64 -> Z.land k (2 ^ 64 - 1 - N_ONES_ kHashbits) = upper k.
Proof using.
  intros Hk. rewrite <- shift_upper.
  change (2 ^ 64 - 1 - N_ONES_ kHashbits) with (Z.shiftl (Z.ones 48) 16).
  apply Z.bits_inj'. intros i Hi. rewrite Z.land_spec, !Z.shiftl_spec by done.
  destruct (Z.lt_ge_cases i 16); [by rewrite !(Z.testbit_neg_r _ (i - 16)), andb_false_r by lia|].
  rewrite Z.shiftr_spec by lia. replace (i - 16 + 16) with i by lia.
  destruct (Z.lt_ge_cases i 64).
  - by rewrite Z.ones_spec_low, andb_true_r by lia.
  - rewrite Z.ones_spec_high, andb_false_r by lia. symmetry.
    rewrite <- (Z.mod_small k (2 ^ 64)) by lia. apply Z.mod_pow2_bits_high. lia.
Qed.

Lemma lor_upper k v : 0 <= v < 2 ^ 16 -> Z.lor (upper k) v = upper k + v.
Proof using.
  intros Hv. rewrite <- shift_upper, <- Z.lxor_lor.
  - symmetry. apply Z.add_nocarry_lxor. apply Z.bits_inj'. intros i Hi.
    rewrite Z.land_spec, Z.bits_0, Z.shiftl_spec by done. destruct (Z.lt_ge_cases i 16).
    + by rewrite Z.testbit_neg_r by lia.
    + rewrite <- (Z.mod_small v (2 ^ 16)), Z.mod_pow2_bits_high, andb_false_r by lia. done.
  - apply Z.bits_inj'. intros i Hi. rewrite Z.land_spec, Z.bits_0, Z.shiftl_spec by done.
    destruct (Z.lt_ge_cases i 16).
    + by rewrite Z.testbit_neg_r by lia.
    + rewrite <- (Z.mod_small v (2 ^ 16)), Z.mod_pow2_bits_high, andb_false_r by lia. done.
Qed.

(** Comparing an entry with the expected one isolates the value, or leaves
    a number with a bit above the value bits. *)
Lemma entry_match k v : 0 <= v < 2 ^ 16 -> Z.lxor (Z.lor (upper k) v) (upper k) = v.
Proof using.
  intros Hv. rewrite lor_upper by done.
  rewrite <- (lor_upper k v Hv), <- shift_upper.
  apply Z.bits_inj'. intros i Hi. rewrite Z.lxor_spec, Z.lor_spec, Z.shiftl_spec by done.
  destruct (Z.lt_ge_cases i 16).
  - by rewrite Z.testbit_neg_r, orb_false_l, xorb_false_r by lia.
  - rewrite <- (Z.mod_small v (2 ^ 16)), Z.mod_pow2_bits_high by lia.
    by rewrite orb_false_r, xorb_nilpotent.
Qed.

Lemma lxor_high a b n : 0 <= n -> 0 <= a -> 0 <= b -> a / 2 ^ n <> b / 2 ^ n -> 2 ^ n <= Z.lxor a b.
Proof using.
  intros Hn Ha Hb Hne. rewrite <- !shiftr_div in Hne by done.
  assert (0 <= Z.lxor a b) by (apply Z.lxor_nonneg; lia).
  destruct (Z.lt_ge_cases (Z.lxor a b) (2 ^ n)) as [Hlt|]; [|done]. exfalso. apply Hne.
  apply Z.lxor_eq. rewrite <- Z.shiftr_lxor, shiftr_div, Z.div_small by lia. done.
Qed.

Lemma entry_mismatch k k' v :
  0 <= k -> 0 <= k' -> 0 <= v < 2 ^ 16 -> upper k <> upper k' ->
  2 ^ 16 <= Z.lxor (Z.lor (upper k') v) (upper k).
Proof using.
  intros Hk Hk' Hv Hne. rewrite lor_upper by done. unfold upper in *.
  pose proof (Z.div_pos k (2 ^ 16)). pose proof (Z.div_pos k' (2 ^ 16)).
  apply lxor_high; [lia..|]. rewrite Z.div_add_l, Z.div_mul, (Z.div_small v) by lia. lia.
Qed.

(** A write to the slot of a key is seen by that key alone; a key that
    shares the slot loses its entry. *)
Lemma TryGet_write (c : t) k w k' : 0 <= k' -> 0 <= k < 2 ^ 64 -> 0 <= w < 2 ^ 8 ->
  TryGet (<[Hash k' := Z.lor (KeyToUpper k') w]> (c : gmap Z Z)) k =
    if decide (k = k') then (if w <? 128 then Some w else None)
    else if decide (Hash k' = Hash k) then None else TryGet c k.
Proof using.
  intros Hk' Hk Hw. unfold TryGet. change (Z.shiftl 1 kValuebits) with 128. rewrite expected_upper, KeyToUpper_upper by done.
  unfold read, t in *. rewrite lookup_insert. destruct (decide (k = k')) as [->|Hne].
  - rewrite decide_True by done. change (default cleared_word (Some ?x)) with x. rewrite entry_match, Z.geb_leb by lia.
    destruct (Z.leb_spec 128 w), (Z.ltb_spec w 128); done || lia.
  - case_decide as Hh; [|done]. change (default cleared_word (Some ?x)) with x. rewrite Z.geb_leb.
    assert (upper k <> upper k') as Hu.
    { rewrite !Hash_mod in Hh. intros E. apply Hne. unfold upper in E. apply Z.mul_cancel_r in E; [|lia].
      rewrite (Z.div_mod k' (2 ^ 16)), (Z.div_mod k (2 ^ 16)) by lia. congruence. }
    pose proof (entry_mismatch k k' w).
    destruct (Z.leb_spec 128 (Z.lxor (Z.lor (upper k') w) (upper k))); [done|lia].
Qed.

Lemma TryGet_Put c k v k' : 0 <= k' -> 0 <= k < 2 ^ 64 -> 0 <= v < 2 ^ 7 ->
  TryGet (Put c k' v) k = if decide (k = k') then Some v else if decide (Hash k' = Hash k) then None else TryGet c k.
Proof using. intros. unfold Put. rewrite TryGet_write by lia. by rewrite (proj2 (Z.ltb_lt v 128)) by lia. Qed.
Lemma TryGet_Invalidate c k k' : 0 <= k' -> 0 <= k < 2 ^ 64 ->
  TryGet (Invalidate c k') k = if decide (k = k') then None else if decide (Hash k' = Hash k) then None else TryGet c k.
Proof using. intros. unfold Invalidate. by rewrite TryGet_write. Qed.

(** ** Abstract cache: what was last stored in each slot *)

Inductive op := OPut (k v : Z) | OInvalidate (k : Z) | OClear.
Definition op_ok (o : op) : Prop :=
  match o with
  | OPut k v => key_ok k /\ 0 <= v < 2 ^ kValuebits
  | OInvalidate k => key_ok k
  | OClear => True
  end.
Definition run (c : t) (o : op) : t :=
  match o with OPut k v => Put c k v | OInvalidate k => Invalidate c k | OClear => Clear c end.
Definition spec_run (m : gmap Z (Z * option Z)) (o : op) : gmap Z (Z * option Z) :=
  match o with
  | OPut k v => <[k mod 2 ^ 16 := (k, Some v)]> m
  | OInvalidate k => <[k mod 2 ^ 16 := (k, None)]> m
  | OClear => ∅
  end.
Definition spec_get (m : gmap Z (Z * option Z)) (k : Z) : option Z :=
  match m !! (k mod 2 ^ 16) with
  | Some (k', v) => if k' =? k then v else None
  | None => None
  end.

Definition refines (c : t) (m : gmap Z (Z * option Z)) : Prop :=
  forall h, match m !! h with
  | Some (k, ov) => key_ok k /\ k mod 2 ^ 16 = h /\
      read c h = Z.lor (upper k) (default kInvalidMask ov) /\
      (forall v, ov = Some v -> 0 <= v < 2 ^ kValuebits)
  | None => read c h = cleared_word
  end.

Lemma read_insert (c : t) h h' w :
  read (<[h := w]> (c : gmap Z Z)) h' = if decide (h = h') then w else read c h'.
Proof using. unfold read, t in *. rewrite lookup_insert. by case_decide. Qed.

Lemma run_refines c m o : op_ok o -> refines c m -> refines (run c o) (spec_run m o).
Proof using Hkey.
  intros Ho Hr h. specialize (Hr h). destruct o as [k v|k|]; simpl in *; [| |done].
  - unfold Put. rewrite read_insert, Hash_mod, KeyToUpper_upper, lookup_insert.
    case_decide; [|done]. destruct Ho. split_and!; [done..|]. by intros ? [= <-].
  - unfold Invalidate. rewrite read_insert, Hash_mod, KeyToUpper_upper, lookup_insert.
    case_decide; [|done]. split_and!; done.
Qed.

Lemma TryGet_refines c m k : key_ok k -> refines c m -> TryGet c k = spec_get m k.
Proof using Hkey.
  intros Hk Hr. unfold TryGet, spec_get. rewrite Hash_mod. specialize (Hr (k mod 2 ^ 16)).
  assert (2 ^ kKeybits <= 2 ^ 56) by (apply Z.pow_le_mono_r; lia). unfold key_ok in *.
  rewrite expected_upper by lia. change (Z.shiftl 1 kValuebits) with 128.
  destruct (m !! (k mod 2 ^ 16)) as [[k' ov]|].
  - destruct Hr as (Hk' & Hm & -> & Hv).
    assert (0 <= default kInvalidMask ov < 2 ^ 16).
    { destruct ov as [v|]; simpl; [specialize (Hv v eq_refl); unfold kValuebits in Hv; lia|
        unfold kInvalidMask; lia]. }
    destruct (Z.eqb_spec k' k) as [->|Hne].
    + rewrite entry_match by done. destruct ov as [v|]; simpl; [|done].
      specialize (Hv v eq_refl). unfold kValuebits in Hv. rewrite Z.geb_leb.
      destruct (Z.leb_spec 128 v); [lia|done].
    + assert (upper k <> upper k').
      { intros E. apply Hne. unfold upper in E. apply Z.mul_cancel_r in E; [|lia].
        rewrite (Z.div_mod k' (2 ^ 16)), (Z.div_mod k (2 ^ 16)) by lia. congruence. }
      pose proof (entry_mismatch k k' (default kInvalidMask ov)) as Hge.
      rewrite Z.geb_leb. destruct (Z.leb_spec 128 (Z.lxor (Z.lor (upper k') (default kInvalidMask ov)) (upper k))); [done|lia].
  - rewrite Hr. assert (2 ^ 63 <= Z.lxor cleared_word (upper k)) as Hge.
    { assert (0 <= upper k <= k) by (unfold upper; zdiv). apply lxor_high; [done..|lia|].
      rewrite (Z.div_small (upper k)) by lia. done. }
    rewrite Z.geb_leb. destruct (Z.leb_spec 128 (Z.lxor cleared_word (upper k))); [done|lia].
Qed.

Lemma run_ops_refines ops : Forall op_ok ops ->
  refines (foldl run ∅ ops) (foldl spec_run ∅ ops).
Proof using Hkey.
  assert (forall c m, refines c m -> Forall op_ok ops ->
    refines (foldl run c ops) (foldl spec_run m ops)) as H.
  { induction ops as [|o ops IH]; intros c m Hr Hops; [done|].
    apply Forall_cons in Hops as [Ho Hops]. simpl. apply IH; [by apply run_refines|done]. }
  apply H. intros h. by rewrite lookup_empty.
Qed.

(** After any sequence of [Put], [Invalidate] and [Clear] calls on keys
    of at most 56 bits, [TryGet] answers exactly what an unpacked
    direct-mapped cache of (key, value) pairs answers: the value last put
    for this very key, if its slot has not been overwritten, invalidated or
    cleared since. Packing never confuses two keys or two values. *)
Theorem TryGet_correct (ops : list op) (k : Z)
    (Hops : Forall op_ok ops) (Hk : key_ok k) :
  TryGet (foldl run ∅ ops) k = spec_get (foldl spec_run ∅ ops) k.
Proof using Hkey. apply TryGet_refines; [done|by apply run_ops_refines]. Qed.
End PackedCache.

Lemma TryGet_correct_witness :
  TryGet (foldl run ∅ [OPut 70000 7; OPut 135536 9; OInvalidate 3]) 135536 = Some 9 /\
  TryGet (foldl run ∅ [OPut 70000 7; OPut 135536 9; OInvalidate 3]) 70000 = None.
Proof.
  assert (Forall (op_ok 35) [OPut 70000 7; OPut 135536 9; OInvalidate 3]) as Hops.
  { unfold op_ok, key_ok, kValuebits. repeat constructor; lia. }
  split;
  (rewrite (TryGet_correct 35 ltac:(lia) _ _ Hops); [reflexivity|unfold key_ok; lia]).
Defined.
End PackedCache.
