(* ===== verification/Sampler.v ===== *)
(** * Allocation sampler

    Models src/src/src/sampler.h and sampler.cc. The step drawn from the
    exponential distribution goes through [log2] and [log] of the C math
    library; it is the parameter [draw], a function of the 26 random bits
    and the sampling flag, with the range the clamp in the code is meant to
    give it as a hypothesis where a property needs it. *)
From S2P Require Import Prelude Common.

Module Sampler.

Record Sampler := mkSampler {
  bytes_until_sample_ : Z;   (* ssize_t *)
  rnd_ : Z;                  (* uint64_t *)
  initialized_ : bool }.

Definition prng_mult : Z := 0x5DEECE66D.
Definition prng_add : Z := 0xB.
Definition prng_mod_power : Z := 48.
(** [~((~0) << 48)] at 64 bits. *)
Definition prng_mod_mask : Z := 2 ^ 64 - 1 - u64 (Z.shiftl (2 ^ 64 - 1) prng_mod_power).

Definition NextRandom (rnd : Z) : Z :=
  Z.land (u64 (u64 (prng_mult * rnd) + prng_add)) prng_mod_mask.

Section Sampler.
(** [FLAGS_tcmalloc_sample_parameter], and the clamped step. *)
Context (flag : Z) (draw : Z -> Z -> Z).

Definition GetSamplePeriod : Z := s32 flag.

Definition PickNextSamplingPoint (s : Sampler) : Z * Sampler :=
  if flag <=? 0 then (Z.shiftl 16 20, s)
  else
    let r := NextRandom (rnd_ s) in
    (draw (u32 (Z.shiftr r (prng_mod_power - 26))) flag,
     mkSampler (bytes_until_sample_ s) r (initialized_ s)).

Definition Init (seed : Z) (s : Sampler) : Sampler :=
  let r := Nat.iter 20 NextRandom seed in
  let '(b, s) := PickNextSamplingPoint (mkSampler (bytes_until_sample_ s) r (initialized_ s)) in
  mkSampler b (rnd_ s) (initialized_ s).

(** [self] is the address of the object, the seed of a late [Init]. *)
Definition RecordAllocationSlow (self k : Z) (s : Sampler) : bool * Sampler :=
  let resample s :=
    let '(b, s) := PickNextSamplingPoint s in
    (flag <=? 0, mkSampler b (rnd_ s) (initialized_ s)) in
  if negb (initialized_ s) then
    let s := Init self (mkSampler (bytes_until_sample_ s) (rnd_ s) true) in
    if u64 (bytes_until_sample_ s) >=? k then
      (true, mkSampler (s64 (u64 (bytes_until_sample_ s) - k)) (rnd_ s) (initialized_ s))
    else resample s
  else resample s.

Definition RecordAllocation (self k : Z) (s : Sampler) : bool * Sampler :=
  if u64 (bytes_until_sample_ s) <? k then RecordAllocationSlow self k s
  else (true, mkSampler (s64 (u64 (bytes_until_sample_ s) - k)) (rnd_ s) (initialized_ s)).

(** The fast path subtracts first and undoes the subtraction on failure. *)
Definition TryRecordAllocationFast (k : Z) (s : Sampler) : bool * Sampler :=
  let b := s64 (bytes_until_sample_ s - s64 k) in
  if b <? 0 then
    (false, mkSampler (s64 (b + k)) (rnd_ s) (initialized_ s))
  else (true, mkSampler b (rnd_ s) (initialized_ s)).

(** A caller that tries the fast path and escalates when it fails. *)
Definition record_fast_then_slow (self k : Z) (s : Sampler) : bool * Sampler :=
  let '(ok, s') := TryRecordAllocationFast k s in
  if ok then (true, s') else RecordAllocation self k s'.

(** ** Properties *)

Definition wf (s : Sampler) : Prop :=
  0 <= bytes_until_sample_ s < 2 ^ 63 /\ 0 <= rnd_ s < 2 ^ 64.

Lemma NextRandom_mod rnd : 0 <= rnd ->
  NextRandom rnd = (prng_mult * rnd + prng_add) mod 2 ^ 48.
Proof.
  intros. unfold NextRandom. change prng_mod_mask with (2 ^ 48 - 1).
  rewrite land_ones_mod by lia. unfold u64. rewrite Zplus_mod_idemp_l.
  change (2 ^ 64) with (2 ^ 48 * 2 ^ 16). rewrite Z.rem_mul_r by lia.
  rewrite Z.add_mod, (Z.mul_comm (2 ^ 48)), Z.mod_mul, Z.add_0_r, !Z.mod_mod by lia. done.
Qed.

Lemma NextRandom_range rnd : 0 <= rnd -> 0 <= NextRandom rnd < 2 ^ 48.
Proof. intros. rewrite NextRandom_mod by done. apply Z.mod_pos_bound. lia. Qed.

Lemma fast_spec k s : wf s -> 0 <= k < 2 ^ 63 ->
  TryRecordAllocationFast k s =
    if k <=? bytes_until_sample_ s
    then (true, mkSampler (bytes_until_sample_ s - k) (rnd_ s) (initialized_ s))
    else (false, s).
Proof.
  intros [Hb _] Hk. unfold TryRecordAllocationFast. rewrite (s64_small k) by lia.
  rewrite (s64_small (_ - k)) by lia.
  destruct (Z.ltb_spec (bytes_until_sample_ s - k) 0), (Z.leb_spec k (bytes_until_sample_ s));
    try lia; [|done].
  replace (bytes_until_sample_ s - k + k) with (bytes_until_sample_ s) by lia.
  rewrite s64_small by lia. by destruct s.
Qed.

Hypothesis Hdraw : forall r p, 0 < p -> 0 <= draw r p < 2 ^ 63.

Lemma Pick_wf s : 0 <= rnd_ s ->
  0 <= fst (PickNextSamplingPoint s) < 2 ^ 63 /\
  (0 <= rnd_ s < 2 ^ 64 -> 0 <= rnd_ (snd (PickNextSamplingPoint s)) < 2 ^ 64) /\
  initialized_ (snd (PickNextSamplingPoint s)) = initialized_ s.
Proof using Hdraw.
  intros Hr. unfold PickNextSamplingPoint. destruct (Z.leb_spec flag 0); simpl; [done|].
  split; [by apply Hdraw|]. split; [|done]. intros _.
  pose proof (NextRandom_range (rnd_ s) Hr). lia.
Qed.

Lemma Init_wf seed s : 0 <= seed < 2 ^ 64 -> wf (Init seed s) /\ initialized_ (Init seed s) = initialized_ s.
Proof using Hdraw.
  intros Hs. unfold Init.
  assert (0 <= Nat.iter 20 NextRandom seed < 2 ^ 64) as Hr.
  { assert (forall n, 0 <= Nat.iter n NextRandom seed < 2 ^ 64) as H; [|apply H].
    induction n as [|n IH]; [done|]. rewrite Nat.iter_succ.
    pose proof (NextRandom_range _ (proj1 IH)). lia. }
  revert Hr. generalize (Nat.iter 20 NextRandom seed). intros r Hr.
  set (s0 := mkSampler _ _ _).
  destruct (Pick_wf s0) as (Hb & Hrnd & Hi); [simpl; lia|].
  destruct (PickNextSamplingPoint s0) as [b s1]. simpl in *. unfold wf. simpl. auto.
Qed.

Lemma Slow_wf self k s : 0 <= self < 2 ^ 64 -> 0 <= k -> wf s ->
  wf (snd (RecordAllocationSlow self k s)) /\
  (fst (RecordAllocationSlow self k s) = false -> 0 < flag).
Proof using Hdraw.
  intros Hself Hk [Hb Hr]. unfold RecordAllocationSlow.
  assert (forall s, wf s -> wf (snd (let '(b, s0) := PickNextSamplingPoint s in
      (flag <=? 0, mkSampler b (rnd_ s0) (initialized_ s0)))) /\
      (fst (let '(b, s0) := PickNextSamplingPoint s in
      (flag <=? 0, mkSampler b (rnd_ s0) (initialized_ s0))) = false -> 0 < flag)) as Hre.
  { intros s1 [? Hr1]. destruct (Pick_wf s1) as (H1 & H2 & _); [lia|].
    destruct (PickNextSamplingPoint s1). simpl in *. unfold wf. simpl.
    split; [auto|]. intros E%Z.leb_gt. done. }
  destruct (initialized_ s) eqn:Ei; simpl; [apply Hre; split; done|].
  set (s0 := mkSampler _ _ _). destruct (Init_wf self s0 Hself) as [[Hb0 Hr0] _].
  rewrite (u64_small (bytes_until_sample_ (Init self s0))) by lia. rewrite Z.geb_leb.
  destruct (Z.leb_spec k (bytes_until_sample_ (Init self s0))); [|by apply Hre].
  simpl. unfold wf. simpl. rewrite s64_small by lia. split; [lia|done].
Qed.

(** The generator is the 48-bit linear congruential generator its
    comment names: no bit is lost to the 64-bit intermediate product. *)
Theorem NextRandom_lcg (rnd : Z) (Hrnd : 0 <= rnd < 2 ^ 64) :
  NextRandom rnd = (0x5DEECE66D * rnd + 0xB) mod 2 ^ 48.
Proof. apply NextRandom_mod. lia. Qed.

(** For sizes below 2^63 the malloc fast path, which decrements, tests
    the sign, undoes and escalates, has exactly the effect and the answer of
    recording the allocation directly. *)
Theorem fast_path_equiv (self k : Z) (s : Sampler)
    (Hs : wf s) (Hk : 0 <= k < 2 ^ 63) :
  record_fast_then_slow self k s = RecordAllocation self k s.
Proof.
  unfold record_fast_then_slow. rewrite fast_spec by done.
  destruct (Z.leb_spec k (bytes_until_sample_ s)) as [Hle|]; [|done].
  unfold RecordAllocation. destruct Hs as [Hb _]. rewrite u64_small by lia.
  destruct (Z.ltb_spec (bytes_until_sample_ s) k); [lia|]. rewrite s64_small by lia. done.
Qed.

(** Recording an allocation of any size keeps the counter a
    non-negative [ssize_t], never samples while sampling is off, and
    answers "not sampled" on the fast branch exactly when the allocation
    fits in the bytes left. *)
Theorem RecordAllocation_inv (self k : Z) (s : Sampler)
    (Hself : 0 <= self < 2 ^ 64) (Hs : wf s) (Hk : 0 <= k < 2 ^ 64) :
  let '(no_sample, s') := RecordAllocation self k s in
  wf s' /\ (no_sample = false -> 0 < flag) /\
  (k <= bytes_until_sample_ s ->
     no_sample = true /\ bytes_until_sample_ s' = bytes_until_sample_ s - k).
Proof using Hdraw.
  unfold RecordAllocation. pose proof Hs as [Hb Hr]. rewrite (u64_small (bytes_until_sample_ s)) by lia.
  destruct (Z.ltb_spec (bytes_until_sample_ s) k).
  - destruct (Slow_wf self k s Hself ltac:(lia) Hs) as [Hw Hf].
    destruct (RecordAllocationSlow self k s). simpl in *. split; [done|]. split; [done|]. lia.
  - unfold wf. simpl. rewrite s64_small by lia. split; [lia|]. split; [done|]. auto.
Qed.
End Sampler.

Lemma NextRandom_lcg_witness : NextRandom 12345 = (0x5DEECE66D * 12345 + 0xB) mod 2 ^ 48.
Proof. apply (NextRandom_lcg 12345). lia. Defined.

Lemma fast_path_equiv_witness :
  record_fast_then_slow 524288 (fun _ _ => 4096) 64 100 (mkSampler 50 1 true) =
  RecordAllocation 524288 (fun _ _ => 4096) 64 100 (mkSampler 50 1 true).
Proof. apply (fast_path_equiv 524288 (fun _ _ => 4096) 64 100); [unfold wf; simpl; lia|lia]. Defined.

Lemma RecordAllocation_inv_witness :
  let '(no_sample, s') := RecordAllocation 524288 (fun _ _ => 4096) 64 100 (mkSampler 50 1 true) in
  wf s' /\ (no_sample = false -> 0 < 524288) /\
  (100 <= 50 -> no_sample = true /\ bytes_until_sample_ s' = 50 - 100).
Proof.
  apply (RecordAllocation_inv 524288 (fun _ _ => 4096) ltac:(intros; lia) 64 100
    (mkSampler 50 1 true)); [lia|unfold wf; simpl; lia|lia].
Defined.
End Sampler.
