(* ===== verification/LinkedList.v ===== *)
(** * Singly linked lists threaded through free objects

    Models src/src/src/linked_list.h. The first word of a free object holds
    the address of the next one: memory is a finite map from addresses to
    words, address 0 is null. The theorems relate each operation to the
    operation on the list of addresses the chain stands for; the central
    and thread caches are modelled on those lists. *)
From S2P Require Import Prelude Common.

Module SLL.

Abbreviation mem := (gmap Z Z).

Definition SLL_Next (m : mem) (t : Z) : outcome Z := deref (m !! t).
Definition SLL_SetNext (m : mem) (t n : Z) : outcome mem :=
  if t =? 0 then Fault Undefined else Ret (<[t := n]> m).

(** The operations take the value of the list head and return the new one. *)
Definition SLL_Push (m : mem) (list element : Z) : outcome (Z * mem) :=
  m ← SLL_SetNext m element list; Ret (element, m).
Definition SLL_Pop (m : mem) (list : Z) : outcome (Z * Z) :=
  n ← SLL_Next m list; Ret (list, n).
Definition SLL_TryPop (m : mem) (list : Z) : outcome (option (Z * Z)) :=
  if list =? 0 then Ret None else n ← SLL_Next m list; Ret (Some (list, n)).

Definition walk (m : mem) (n : Z) (tmp : Z) : outcome Z :=
  foldM (fun tmp _ => SLL_Next m tmp) (for_range 1 (n - 1) 1) tmp.
(** Result: start, end, new head. *)
Definition SLL_PopRange (m : mem) (head n : Z) : outcome (Z * Z * Z * mem) :=
  if n =? 0 then Ret (0, 0, head, m) else
  tmp ← walk m n head;
  head' ← SLL_Next m tmp;
  m ← SLL_SetNext m tmp 0;
  Ret (head, tmp, head', m).
Definition SLL_PushRange (m : mem) (head start fin : Z) : outcome (Z * mem) :=
  if start =? 0 then Ret (head, m) else
  m ← SLL_SetNext m fin head; Ret (start, m).
Definition SLL_Size (fuel : nat) (m : mem) (head : Z) : outcome Z :=
  loop fuel (fun '(head, count) =>
    if negb (head =? 0) then n ← SLL_Next m head; Ret (inl (n, s32 (count + 1)))
    else Ret (inr count)) (head, 0).

(** ** Representation *)

Fixpoint lseg (m : mem) (head : Z) (l : list Z) (e : Z) : Prop :=
  match l with
  | [] => head = e
  | x :: l => head = x /\ x <> 0 /\ exists n, m !! x = Some n /\ lseg m n l e
  end.
(** The null-terminated chain of distinct objects [l]. *)
Definition chain (m : mem) (head : Z) (l : list Z) : Prop := lseg m head l 0 /\ NoDup l.

Lemma lseg_frame m m' h l e :
  (forall x, x ∈ l -> m' !! x = m !! x) -> lseg m h l e -> lseg m' h l e.
Proof.
  revert h. induction l as [|x l IH]; intros h Hf; simpl; [done|].
  intros (-> & Hx & n & Hn & Hl). split; [done|]. split; [done|]. exists n.
  split; [by rewrite Hf by left|]. apply IH; [|done]. intros y Hy. apply Hf. by right.
Qed.

Lemma lseg_app m h l1 l2 e :
  lseg m h (l1 ++ l2) e <-> exists x, lseg m h l1 x /\ lseg m x l2 e.
Proof.
  revert h. induction l1 as [|y l1 IH]; intros h; simpl.
  - split; [eauto|]. by intros (x & -> & ?).
  - split.
    + intros (-> & Hy & n & Hn & (x & ? & ?)%IH). exists x. split; [|done]. eauto.
    + intros (x & (-> & Hy & n & Hn & ?) & ?). split; [done|]. split; [done|]. exists n.
      split; [done|]. apply IH. eauto.
Qed.

Lemma chain_nil m : chain m 0 [].
Proof. split; [done|constructor]. Qed.

Lemma chain_frame m m' h l :
  (forall x, x ∈ l -> m' !! x = m !! x) -> chain m h l -> chain m' h l.
Proof. intros Hf [Hl Hn]. split; [by eapply lseg_frame|done]. Qed.

Lemma chain_null m l : chain m 0 l -> l = [].
Proof. destruct l; [done|]. intros [(<- & ? & _) _]. done. Qed.

(** Writing the last link redirects a segment. *)
Lemma lseg_relink m h l x e e' :
  NoDup (l ++ [x]) -> lseg m h (l ++ [x]) e -> lseg (<[x := e']> m) h (l ++ [x]) e'.
Proof.
  intros Hnd (y & H1 & (-> & Hx & n & Hn & _))%lseg_app. apply lseg_app. exists x. split.
  - eapply lseg_frame; [|done]. intros z Hz. rewrite lookup_insert_ne; [done|].
    intros ->. apply NoDup_app in Hnd as (_ & Hd & _). apply (Hd z Hz). by left.
  - simpl. split; [done|]. split; [done|]. exists e'. by rewrite lookup_insert_eq.
Qed.

Lemma walk_ok m h l1 x l2 :
  chain m h (l1 ++ x :: l2) -> walk m (Z.of_nat (length l1) + 1) h = Ret x.
Proof.
  intros [Hl _]. unfold walk.
  assert (forall k : list Z, length k = length l1 -> lseg m h (l1 ++ x :: l2) 0 ->
    foldM (fun tmp _ => SLL_Next m tmp) k h = Ret x) as H.
  { clear Hl. revert h. induction l1 as [|y l1 IH]; intros h [|z k] Hk; try done.
    - simpl. by intros (-> & _).
    - simpl. intros (-> & _ & n & Hn & Hl). assert (SLL_Next m y = Ret n) as -> by (unfold SLL_Next; by rewrite Hn). obind.
      apply IH; [by injection Hk|done]. }
  apply H; [|done]. unfold for_range. rewrite length_fmap, length_seqZ, Z.div_1_r. lia.
Qed.

Lemma nil_or_snoc {A} (l : list A) : l = [] \/ exists l' x, l = l' ++ [x].
Proof. destruct l as [|x l] using rev_ind; eauto. Qed.

(** ** Properties *)

Lemma Size_chain m h l fuel : chain m h l ->
  Z.of_nat (length l) < 2 ^ 31 -> (length l < fuel)%nat ->
  SLL_Size fuel m h = Ret (Z.of_nat (length l)).
Proof.
  intros [Hl _] Hb Hf. unfold SLL_Size. set (body := fun _ : Z * Z => _).
  destruct (loop_count body (fun n '(hd, count) => exists l1 l2, l = l1 ++ l2 /\
    lseg m hd l2 0 /\ n = length l2 /\ count = Z.of_nat (length l1))
    (fun b => b = Z.of_nat (length l)) ) with (n := length l) (fuel := fuel) (a := (h, 0))
    as (b & -> & ->); [|exists [], l; done|done|done].
  intros n [hd count] (l1 & l2 & -> & H2 & -> & ->). unfold body.
  destruct l2 as [|x l2]; simpl in H2.
  - subst hd. eexists. split; [reflexivity|]. by rewrite app_nil_r.
  - destruct H2 as (-> & Hx & n & Hn & H2). rewrite (proj2 (Z.eqb_neq x 0) Hx). simpl negb.
    unfold SLL_Next. rewrite Hn. obind. eexists. split; [reflexivity|]. simpl.
    eexists. split; [done|]. exists (l1 ++ [x]), l2. rewrite <- app_assoc. split_and!; try done.
    rewrite !length_app in *. simpl in *. rewrite s32_small; lia.
Qed.

Lemma Push_chain m h l x : x <> 0 -> x ∉ l -> chain m h l ->
  exists m', SLL_Push m h x = Ret (x, m') /\ chain m' x (x :: l) /\
    forall a, a <> x -> m' !! a = m !! a.
Proof.
  intros Hx Hnin [Hl Hnd]. unfold SLL_Push, SLL_SetNext.
  rewrite (proj2 (Z.eqb_neq x 0) Hx). obind. eexists. split; [done|].
  split; [|intros; by rewrite lookup_insert_ne]. split; [|by constructor].
  simpl. split; [done|]. split; [done|]. exists h. rewrite lookup_insert_eq. split; [done|].
  eapply lseg_frame; [|done]. intros y Hy. rewrite lookup_insert_ne; [done|]. congruence.
Qed.

Lemma TryPop_chain m h l : chain m h l ->
  match l with
  | [] => SLL_TryPop m h = Ret None
  | x :: l' => exists h', SLL_TryPop m h = Ret (Some (x, h')) /\ chain m h' l'
  end.
Proof.
  intros [Hl Hnd]. unfold SLL_TryPop. destruct l as [|x l]; [by simpl in Hl; subst|].
  destruct Hl as (-> & Hx & n & Hn & Hl). rewrite (proj2 (Z.eqb_neq x 0) Hx).
  unfold SLL_Next. rewrite Hn. obind. exists n. split; [done|].
  apply NoDup_cons in Hnd as [_ ?]. done.
Qed.

Lemma PopRange_chain m h l1 l2 : chain m h (l1 ++ l2) ->
  exists s e h' m', SLL_PopRange m h (Z.of_nat (length l1)) = Ret (s, e, h', m') /\
    chain m' s l1 /\ chain m' h' l2 /\ e = default 0 (last l1) /\
    forall a, a ∉ l1 -> m' !! a = m !! a.
Proof.
  intros Hc. unfold SLL_PopRange.
  destruct (nil_or_snoc l1) as [->|(l & x & ->)].
  { exists 0, 0, h, m. split; [done|]. split; [apply chain_nil|]. done. }
  rewrite length_app. simpl length. rewrite Nat2Z.inj_add. change (Z.of_nat 1) with 1.
  rewrite (proj2 (Z.eqb_neq _ 0)) by lia. rewrite <- app_assoc in Hc. simpl in Hc.
  rewrite (walk_ok _ _ _ _ _ Hc). obind. destruct Hc as [Hl Hnd].
  pose proof Hl as (y & H1 & (-> & Hx & n & Hn & H2))%lseg_app.
  unfold SLL_Next, SLL_SetNext. rewrite Hn. obind. rewrite (proj2 (Z.eqb_neq x 0) Hx). obind.
  exists h, x, n, (<[x := 0]> m). split; [done|].
  assert (NoDup (l ++ [x])) as Hnd1.
  { rewrite cons_middle, app_assoc in Hnd. by apply NoDup_app in Hnd as [? _]. }
  assert ((x ∉ l2) /\ NoDup l2) as [Hx2 Hnd2].
  { apply NoDup_app in Hnd as (_ & _ & [??]%NoDup_cons). done. }
  split_and!.
  - split; [|done]. eapply lseg_relink; [done|]. apply lseg_app. exists x. split; [done|].
    simpl. eauto.
  - split; [|done]. eapply lseg_frame; [|done]. intros z Hz. rewrite lookup_insert_ne; [done|].
    congruence.
  - by rewrite last_snoc.
  - intros a Ha. rewrite lookup_insert_ne; [done|]. set_solver.
Qed.

Lemma PushRange_chain m h l s l1 : chain m h l -> chain m s l1 -> NoDup (l1 ++ l) ->
  exists h' m', SLL_PushRange m h s (default 0 (last l1)) = Ret (h', m') /\
    chain m' h' (l1 ++ l) /\ forall a, a ∉ l1 -> m' !! a = m !! a.
Proof.
  intros [Hl Hnd] [Hs Hnds] Hd. unfold SLL_PushRange.
  destruct (nil_or_snoc l1) as [->|(l0 & x & ->)].
  { simpl in Hs. subst s. exists h, m. split; [done|]. split; [by split|done]. }
  assert (s <> 0 /\ x <> 0) as [Hs0 Hx0].
  { split; [|apply lseg_app in Hs as (? & _ & (_ & ? & _)); done].
    destruct l0; simpl in Hs; destruct Hs as (-> & ? & _); done. }
  rewrite (proj2 (Z.eqb_neq s 0) Hs0), last_snoc. simpl. unfold SLL_SetNext.
  rewrite (proj2 (Z.eqb_neq x 0) Hx0). obind. eexists _, _. split; [done|]. split.
  - split; [|done]. apply lseg_app. exists h. split; [by eapply lseg_relink|].
    eapply lseg_frame; [|done]. intros z Hz. rewrite lookup_insert_ne; [done|].
    intros ->. apply NoDup_app in Hd as (_ & Hd & _). apply (Hd z); [|done].
    apply elem_of_app. right. by left.
  - intros a Ha. rewrite lookup_insert_ne; [done|]. set_solver.
Qed.

(** The chain operations implement list operations. On a chain that
    stands for [l]: pushing a new object stands for [x :: l]; [TryPop]
    returns the first object and leaves the tail, or reports an empty
    chain; popping a range of [n] objects splits the list into its first
    [n] (as a null-terminated chain with the right end pointer) and the
    rest; pushing that range back restores the list. Objects outside the
    range are not written. [Size] counts the objects, up to the range of
    its [int] counter. *)
Theorem SLL_refines_list (m : mem) (h : Z) (l1 l2 : list Z) (x : Z)
    (Hc : chain m h (l1 ++ l2)) (Hx : x <> 0) (Hnew : x ∉ l1 ++ l2) :
  (exists m', SLL_Push m h x = Ret (x, m') /\ chain m' x (x :: l1 ++ l2)) /\
  match l1 ++ l2 with
  | [] => SLL_TryPop m h = Ret None
  | y :: l' => exists h', SLL_TryPop m h = Ret (Some (y, h')) /\ chain m h' l'
  end /\
  exists s e h' m', SLL_PopRange m h (Z.of_nat (length l1)) = Ret (s, e, h', m') /\
    chain m' s l1 /\ chain m' h' l2 /\ (forall a, a ∉ l1 -> m' !! a = m !! a) /\
    (exists h'' m'', SLL_PushRange m' h' s e = Ret (h'', m'') /\ chain m'' h'' (l1 ++ l2)) /\
    (Z.of_nat (length l1) < 2 ^ 31 -> forall fuel, (length l1 < fuel)%nat ->
       SLL_Size fuel m' s = Ret (Z.of_nat (length l1))).
Proof.
  split; [|split].
  - destruct (Push_chain m h (l1 ++ l2) x) as (m' & ? & ? & _); eauto.
  - by apply TryPop_chain.
  - destruct (PopRange_chain m h l1 l2 Hc) as (s & e & h' & m' & Hp & Hs & Hh & -> & Hf).
    exists s, (default 0 (last l1)), h', m'. do 4 (split; [done|]).
    destruct (PushRange_chain m' h' l2 s l1 Hh Hs) as (h'' & m'' & Hq & Hch & _);
      [apply Hc|]. split; [eauto|]. intros. by apply Size_chain.
Qed.

Lemma SLL_refines_list_witness :
  exists m' , SLL_Push (<[16 := 32]> (<[32 := 0]> ∅)) 16 48 = Ret (48, m') /\
    chain m' 48 [48; 16; 32].
Proof.
  destruct (SLL_refines_list (<[16 := 32]> (<[32 := 0]> ∅)) 16 [16] [32] 48) as [H _].
  - split; [|by apply (bool_decide_unpack _); vm_compute].
    simpl. split; [done|]. split; [done|]. exists 32. split; [reflexivity|].
    split; [done|]. split; [done|]. exists 0. split; [reflexivity|done].
  - done.
  - by apply (bool_decide_unpack _); vm_compute.
  - exact H.
Defined.
End SLL.
