(* ===== verification/Span.v ===== *)
(** * Spans and the doubly linked lists of spans

    Models src/src/src/span.h and span.cc. A span descriptor is a record;
    its [next] and [prev] fields are kept apart, as a map from descriptor
    addresses to links, because the list operations touch nothing else. The
    theorems show that the circular lists with a sentinel are lists of
    descriptors; the page heap and the central free lists are modelled on
    those lists. The iterator a span of a large-span set stores is that
    span's position in the set; the [has_span_iter] flag is kept. *)
From S2P Require Import Prelude Common.

(** [Span::location]. *)
Inductive location_t := IN_USE | ON_NORMAL_FREELIST | ON_RETURNED_FREELIST.

#[export] Instance location_eq_dec : EqDecision location_t.
Proof. solve_decision. Defined.

Record Span := mkSpan {
  start : Z;
  length_ : Z;
  objects : list Z;
  refcount : Z;
  sizeclass : Z;
  location : location_t;
  sample : bool;
  has_span_iter : bool }.

(** [NewSpan]'s initialisation of the descriptor. *)
Definition new_span (p len : Z) : Span := mkSpan p len [] 0 0 IN_USE false false.

Definition set_start (v : Z) (s : Span) : Span :=
  mkSpan v (length_ s) (objects s) (refcount s) (sizeclass s) (location s) (sample s) (has_span_iter s).
Definition set_length (v : Z) (s : Span) : Span :=
  mkSpan (start s) v (objects s) (refcount s) (sizeclass s) (location s) (sample s) (has_span_iter s).
Definition set_objects (v : list Z) (s : Span) : Span :=
  mkSpan (start s) (length_ s) v (refcount s) (sizeclass s) (location s) (sample s) (has_span_iter s).
Definition set_refcount (v : Z) (s : Span) : Span :=
  mkSpan (start s) (length_ s) (objects s) (u16 v) (sizeclass s) (location s) (sample s) (has_span_iter s).
Definition set_sizeclass (v : Z) (s : Span) : Span :=
  mkSpan (start s) (length_ s) (objects s) (refcount s) (u8 v) (location s) (sample s) (has_span_iter s).
Definition set_location (v : location_t) (s : Span) : Span :=
  mkSpan (start s) (length_ s) (objects s) (refcount s) (sizeclass s) v (sample s) (has_span_iter s).
Definition set_sample (v : bool) (s : Span) : Span :=
  mkSpan (start s) (length_ s) (objects s) (refcount s) (sizeclass s) (location s) v (has_span_iter s).
Definition set_span_iter (v : bool) (s : Span) : Span :=
  mkSpan (start s) (length_ s) (objects s) (refcount s) (sizeclass s) (location s) (sample s) v.

(** The pages of a span. *)
Definition in_span (s : Span) (pg : Z) : Prop := start s <= pg < start s + length_ s.

#[export] Instance in_span_dec s pg : Decision (in_span s pg).
Proof. unfold in_span. apply _. Defined.

(** [SpanPtrWithLength] and [SpanBestFitLess]. The comparator reads the
    start through the pointer; the entry carries it here. *)
Record SpanPtrWithLength := mkEntry { e_span : Z; e_length : Z; e_start : Z }.
Definition SpanBestFitLess (a b : SpanPtrWithLength) : bool :=
  if e_length a <? e_length b then true
  else if e_length a >? e_length b then false
  else e_start a <? e_start b.

Module DLL.

(** [next] and [prev] of each descriptor. *)
Abbreviation links := (gmap Z (Z * Z)).

Definition get_next (m : links) (s : Z) : outcome Z := nl ← deref (m !! s); Ret (fst nl).
Definition get_prev (m : links) (s : Z) : outcome Z := nl ← deref (m !! s); Ret (snd nl).
Definition set_next (m : links) (s v : Z) : outcome links :=
  nl ← deref (m !! s); Ret (<[s := (v, snd nl)]> m).
Definition set_prev (m : links) (s v : Z) : outcome links :=
  nl ← deref (m !! s); Ret (<[s := (fst nl, v)]> m).

Definition DLL_Init (m : links) (list : Z) : outcome links :=
  m ← set_next m list list;
  set_prev m list list.

Definition DLL_IsEmpty (m : links) (list : Z) : outcome bool :=
  n ← get_next m list; Ret (n =? list).

Definition DLL_Remove (m : links) (span : Z) : outcome links :=
  p ← get_prev m span; n ← get_next m span;
  m ← set_next m p n;
  n ← get_next m span; p ← get_prev m span;
  m ← set_prev m n p;
  m ← set_prev m span 0;
  set_next m span 0.

Definition DLL_Prepend (m : links) (list span : Z) : outcome links :=
  n ← get_next m list;
  m ← set_next m span n;
  m ← set_prev m span list;
  n ← get_next m list;
  m ← set_prev m n span;
  set_next m list span.

Definition DLL_Length (fuel : nat) (m : links) (list : Z) : outcome Z :=
  s ← get_next m list;
  loop fuel (fun '(s, result) =>
    if s =? list then Ret (inr result)
    else n ← get_next m s; Ret (inl (n, s32 (result + 1)))) (s, 0).

(** ** Representation *)

Definition nx (m : links) (a : Z) : option Z := fst <$> m !! a.
Definition pv (m : links) (a : Z) : option Z := snd <$> m !! a.
Definition link (m : links) (a b : Z) : Prop := nx m a = Some b /\ pv m b = Some a.

(** Consecutive descriptors of a list are linked both ways. *)
Fixpoint adj (m : links) (l : list Z) : Prop :=
  match l with
  | a :: (b :: _) as l => link m a b /\ adj m l
  | _ => True
  end.

(** The circular list with sentinel [h] holds the descriptors [l]. *)
Definition dll (m : links) (h : Z) (l : list Z) : Prop := adj m (h :: l ++ [h]) /\ NoDup (h :: l).

Lemma set_next_ok m a v : is_Some (m !! a) -> exists m', set_next m a v = Ret m' /\
  (forall b, nx m' b = if decide (b = a) then Some v else nx m b) /\
  (forall b, pv m' b = pv m b) /\ (forall b, is_Some (m !! b) -> is_Some (m' !! b)).
Proof.
  intros [[n p] Ha]. unfold set_next. rewrite Ha. obind. eexists. split; [done|].
  unfold nx, pv. split_and!; intros b; destruct (decide (b = a)) as [->|];
    rewrite ?lookup_insert_eq, ?lookup_insert_ne, ?Ha by done; done.
Qed.

Lemma set_prev_ok m a v : is_Some (m !! a) -> exists m', set_prev m a v = Ret m' /\
  (forall b, pv m' b = if decide (b = a) then Some v else pv m b) /\
  (forall b, nx m' b = nx m b) /\ (forall b, is_Some (m !! b) -> is_Some (m' !! b)).
Proof.
  intros [[n p] Ha]. unfold set_prev. rewrite Ha. obind. eexists. split; [done|].
  unfold nx, pv. split_and!; intros b; destruct (decide (b = a)) as [->|];
    rewrite ?lookup_insert_eq, ?lookup_insert_ne, ?Ha by done; done.
Qed.

Lemma get_next_ok m a b : nx m a = Some b -> get_next m a = Ret b.
Proof. unfold nx, get_next. destruct (m !! a) as [[??]|]; simpl; congruence. Qed.
Lemma get_prev_ok m a b : pv m a = Some b -> get_prev m a = Ret b.
Proof. unfold pv, get_prev. destruct (m !! a) as [[??]|]; simpl; congruence. Qed.
Lemma nx_is_Some m a b : nx m a = Some b -> is_Some (m !! a).
Proof. unfold nx. destruct (m !! a); [done|discriminate]. Qed.
Lemma pv_is_Some m a b : pv m a = Some b -> is_Some (m !! a).
Proof. unfold pv. destruct (m !! a); [done|discriminate]. Qed.

Lemma adj_app m A x B : adj m (A ++ x :: B) <-> adj m (A ++ [x]) /\ adj m (x :: B).
Proof.
  induction A as [|a A IH]; simpl; [by split; [|intros [_ ?]]|].
  destruct A as [|a' A]; simpl in *; [tauto|]. rewrite IH. tauto.
Qed.

(** What [adj] of a list reads: [next] of all but the last descriptor and
    [prev] of all but the first. *)
Lemma adj_frame m m' a T R z : a :: T = R ++ [z] ->
  (forall y, y ∈ R -> nx m' y = nx m y) -> (forall y, y ∈ T -> pv m' y = pv m y) ->
  adj m (a :: T) -> adj m' (a :: T).
Proof.
  revert a R. induction T as [|b T IH]; intros a R HR Hn Hp; [done|].
  destruct R as [|r R]; simplify_eq/=.
  intros [[H1 H2] H]. split.
  - split; [by rewrite Hn by left|by rewrite Hp by left].
  - apply (IH b R); [done| | |done]; intros y Hy; [apply Hn|apply Hp]; by right.
Qed.

Lemma adj_links m A x y B : adj m (A ++ x :: y :: B) -> link m x y.
Proof. intros [_ [? _]]%adj_app. done. Qed.

(** A nonempty list by its last element, and a list closed by the sentinel
    by its first. *)
Lemma cons_snoc {X} (h : X) l : exists A p, h :: l = A ++ [p] /\ (p = h \/ p ∈ l).
Proof.
  destruct l as [|p A _] using rev_ind; [exists [], h; auto|].
  exists (h :: A), p. split; [done|]. right. apply elem_of_app. right. by left.
Qed.
Lemma snoc_cons {X} (h : X) l : exists n B, l ++ [h] = n :: B /\ (n = h \/ n ∈ l) /\ (forall y, y ∈ B -> y = h \/ y ∈ l).
Proof.
  destruct l as [|n l]; [exists h, []; set_solver|].
  exists n, (l ++ [h]). set_solver.
Qed.

Lemma links_ext (m m' : links) b : nx m' b = nx m b -> pv m' b = pv m b -> m' !! b = m !! b.
Proof.
  unfold nx, pv. destruct (m !! b) as [[??]|], (m' !! b) as [[??]|]; simpl; congruence.
Qed.

(** The four writes of [DLL_Remove]. *)
Lemma Remove_writes m x p n : p <> x -> n <> x -> pv m x = Some p -> nx m x = Some n ->
  is_Some (m !! p) -> is_Some (m !! n) -> exists m', DLL_Remove m x = Ret m' /\
  (forall b, nx m' b = if decide (b = x) then Some 0 else if decide (b = p) then Some n else nx m b) /\
  (forall b, pv m' b = if decide (b = x) then Some 0 else if decide (b = n) then Some p else pv m b).
Proof.
  intros Hpx Hnx Hp Hn Hsp Hsn. unfold DLL_Remove.
  rewrite (get_prev_ok _ _ _ Hp), (get_next_ok _ _ _ Hn). obind.
  destruct (set_next_ok m p n Hsp) as (m1 & -> & Hn1 & Hp1 & Hs1). obind.
  rewrite (get_next_ok m1 x n), (get_prev_ok m1 x p) by (rewrite ?Hn1, ?Hp1, ?decide_False; done).
  obind. destruct (set_prev_ok m1 n p (Hs1 _ Hsn)) as (m2 & -> & Hp2 & Hn2 & Hs2). obind.
  assert (is_Some (m2 !! x)) as Hsx by (apply Hs2, Hs1; by eapply nx_is_Some).
  destruct (set_prev_ok m2 x 0 Hsx) as (m3 & -> & Hp3 & Hn3 & Hs3). obind.
  destruct (set_next_ok m3 x 0 (Hs3 _ Hsx)) as (m4 & -> & Hn4 & Hp4 & _).
  exists m4. split; [done|]. split; intros b.
  - by rewrite Hn4, Hn3, Hn2, Hn1.
  - by rewrite Hp4, Hp3, Hp2, Hp1.
Qed.

Lemma Remove_dll m h l1 x l2 : dll m h (l1 ++ x :: l2) ->
  exists m', DLL_Remove m x = Ret m' /\ dll m' h (l1 ++ l2) /\ m' !! x = Some (0, 0) /\
    (forall b, b ∉ h :: l1 ++ x :: l2 -> m' !! b = m !! b).
Proof.
  intros [Hadj Hnd].
  destruct (cons_snoc h l1) as (A & p & HA & Hp), (snoc_cons h l2) as (n & B & HB & Hn & HBin).
  assert (h :: (l1 ++ x :: l2) ++ [h] = A ++ p :: x :: n :: B) as Hcyc.
  { rewrite <- app_assoc. simpl. rewrite HB. rewrite app_comm_cons, HA, <- app_assoc. done. }
  rewrite Hcyc in Hadj. pose proof (adj_links _ _ _ _ _ Hadj) as [Hnp Hpx].
  rewrite cons_middle, app_assoc in Hadj.
  pose proof (adj_links _ _ _ _ _ Hadj) as [Hnx Hpn].
  rewrite <- app_assoc in Hadj. simpl in Hadj.
  apply adj_app in Hadj as [HadjA (_ & _ & HadjB)].
  assert (x <> h /\ x ∉ l1 /\ x ∉ l2 /\ h ∉ l1 /\ h ∉ l2 /\ NoDup l1 /\ NoDup l2 /\
    (forall y, y ∈ l1 -> y ∈ l2 -> False)) as (Hxh & Hx1 & Hx2 & Hh1 & Hh2 & Hnd1 & Hnd2 & Hd).
  { rewrite NoDup_cons, NoDup_app, NoDup_cons in Hnd. set_solver. }
  assert (p <> x /\ n <> x) as [Hpx' Hnx'] by set_solver.
  destruct (Remove_writes m x p n Hpx' Hnx' Hpx Hnx) as (m' & HR & Hn' & Hp');
    [by eapply nx_is_Some|by eapply pv_is_Some|].
  assert (NoDup (A ++ [p]) /\ NoDup (n :: B)) as [(_ & HdA & _)%NoDup_app [HdB _]%NoDup_cons].
  { rewrite <- HA, <- HB. split; [by constructor|]. apply NoDup_app. split; [done|].
    split; [|by apply NoDup_singleton]. set_solver. }
  assert (forall y, y ∈ A -> y ∈ h :: l1) as HAin by (rewrite HA; set_solver).
  assert (forall y, y ∈ B -> y <> x) as HBx by (intros y [->|?]%HBin; set_solver).
  exists m'. split; [done|]. split; [split|split].
  - rewrite <- app_assoc, HB, app_comm_cons, HA, <- app_assoc. simpl.
    apply adj_app. split; [|split].
    + rewrite <- HA in *. eapply (adj_frame m); [exact HA| | |done]; intros y Hy.
      * rewrite Hn', !decide_False; [done|set_solver|set_solver].
      * rewrite Hp', !decide_False; [done|set_solver|set_solver].
    + split.
      * by rewrite Hn', decide_False, decide_True by done.
      * by rewrite Hp', decide_False, decide_True by done.
    + eapply (adj_frame m); [symmetry; exact HB| | |done]; intros y Hy.
      * rewrite Hn', !decide_False; [done|set_solver|set_solver].
      * rewrite Hp', !decide_False; [done|set_solver|set_solver].
  - rewrite NoDup_cons, NoDup_app. set_solver.
  - pose proof (Hn' x) as H1. pose proof (Hp' x) as H2. rewrite decide_True in H1, H2 by done.
    unfold nx, pv in H1, H2. destruct (m' !! x) as [[??]|]; simpl in *; congruence.
  - intros b Hb. apply links_ext; [rewrite Hn'|rewrite Hp']; rewrite !decide_False; set_solver.
Qed.

Lemma Prepend_dll m h l x : dll m h l -> x ∉ h :: l -> is_Some (m !! x) ->
  exists m', DLL_Prepend m h x = Ret m' /\ dll m' h (x :: l) /\
    (forall b, b ∉ h :: x :: l -> m' !! b = m !! b).
Proof.
  intros [Hadj Hnd] Hx Hsx. destruct (snoc_cons h l) as (n & B & HB & Hn & HBin).
  simpl in Hadj. rewrite HB in Hadj. destruct Hadj as [[Hnh Hph] Hadj].
  assert (n <> x /\ h <> x) as [Hnx Hhx] by set_solver.
  unfold DLL_Prepend. rewrite (get_next_ok _ _ _ Hnh). obind.
  destruct (set_next_ok m x n Hsx) as (m1 & -> & Hn1 & Hp1 & Hs1). obind.
  destruct (set_prev_ok m1 x h (Hs1 _ Hsx)) as (m2 & -> & Hp2 & Hn2 & Hs2). obind.
  rewrite (get_next_ok m2 h n) by (by rewrite Hn2, Hn1, decide_False). obind.
  destruct (set_prev_ok m2 n x) as (m3 & -> & Hp3 & Hn3 & Hs3);
    [by apply Hs2, Hs1, (pv_is_Some _ _ h)|]. obind.
  destruct (set_next_ok m3 h x) as (m4 & -> & Hn4 & Hp4 & _);
    [by apply Hs3, Hs2, Hs1, (nx_is_Some _ _ n)|]. exists m4. split; [done|].
  assert (forall b, nx m4 b = if decide (b = h) then Some x
    else if decide (b = x) then Some n else nx m b) as Hn' by (intros b; by rewrite Hn4, Hn3, Hn2, Hn1).
  assert (forall b, pv m4 b = if decide (b = n) then Some x
    else if decide (b = x) then Some h else pv m b) as Hp' by (intros b; by rewrite Hp4, Hp3, Hp2, Hp1).
  apply NoDup_cons in Hnd as [Hhl Hnd].
  assert (NoDup (n :: B)) as [HdB _]%NoDup_cons.
  { rewrite <- HB. apply NoDup_app. split; [done|].
    split; [set_solver|by apply NoDup_singleton]. }
  split; [split|].
  - simpl. rewrite HB. split; [|split].
    + split; [by rewrite Hn', decide_True by done|].
      by rewrite Hp', decide_False, decide_True by done.
    + split; [by rewrite Hn', decide_False, decide_True by done|].
      by rewrite Hp', decide_True by done.
    + eapply (adj_frame m); [symmetry; exact HB| | |done]; intros y Hy.
      * rewrite Hn', !decide_False; [done|set_solver|set_solver].
      * rewrite Hp', !decide_False; [done|set_solver|set_solver].
  - rewrite !NoDup_cons. set_solver.
  - intros b Hb. apply links_ext; [rewrite Hn'|rewrite Hp']; rewrite !decide_False; set_solver.
Qed.

Lemma Init_dll m h : is_Some (m !! h) ->
  exists m', DLL_Init m h = Ret m' /\ dll m' h [] /\ (forall b, b <> h -> m' !! b = m !! b).
Proof.
  intros Hs. unfold DLL_Init.
  destruct (set_next_ok m h h Hs) as (m1 & -> & Hn1 & Hp1 & Hs1). obind.
  destruct (set_prev_ok m1 h h (Hs1 _ Hs)) as (m2 & -> & Hp2 & Hn2 & _).
  exists m2. split; [done|]. split; [split|].
  - simpl. split; [|done]. split; [by rewrite Hn2, Hn1, decide_True|by rewrite Hp2, decide_True].
  - by apply NoDup_singleton.
  - intros b Hb. apply links_ext; [rewrite Hn2, Hn1|rewrite Hp2, Hp1]; by rewrite decide_False.
Qed.

(** The sentinel's [next] is the first descriptor, its [prev] the last. *)
Lemma ends_dll m h l : dll m h l ->
  get_next m h = Ret (default h (head l)) /\ get_prev m h = Ret (default h (last l)).
Proof.
  intros [Hadj _]. split.
  - apply get_next_ok. destruct l; simpl in *; apply Hadj.
  - apply get_prev_ok. destruct l as [|x l _] using rev_ind; [apply Hadj|].
    assert (h :: (l ++ [x]) ++ [h] = (h :: l) ++ x :: [h]) as E by (by rewrite <- app_assoc).
    rewrite E in Hadj. rewrite last_snoc. apply (adj_links _ _ _ _ _ Hadj).
Qed.

Lemma IsEmpty_dll m h l : dll m h l -> DLL_IsEmpty m h = Ret (bool_decide (l = [])).
Proof.
  intros Hd. unfold DLL_IsEmpty. rewrite (proj1 (ends_dll _ _ _ Hd)). obind. f_equal.
  destruct l as [|x l]; simpl; [by rewrite Z.eqb_refl|]. apply Z.eqb_neq.
  destruct Hd as [_ [Hd _]%NoDup_cons]. set_solver.
Qed.

Lemma Length_dll m h l fuel : dll m h l -> Z.of_nat (length l) < 2 ^ 31 ->
  (length l < fuel)%nat -> DLL_Length fuel m h = Ret (Z.of_nat (length l)).
Proof.
  intros Hd Hb Hf. unfold DLL_Length. rewrite (proj1 (ends_dll _ _ _ Hd)). obind.
  set (body := fun _ : Z * Z => _).
  destruct (loop_count body (fun n '(s, r) => exists l1 l2, l = l1 ++ l2 /\
    s = default h (head l2) /\ n = length l2 /\ r = Z.of_nat (length l1))
    (fun b => b = Z.of_nat (length l))) with (n := length l) (fuel := fuel)
    (a := (default h (head l), 0)) as (b & -> & ->); [|exists [], l; done|done|done].
  intros n [s r] (l1 & l2 & Hl & -> & -> & ->). unfold body.
  destruct l2 as [|x l2]; simpl.
  - rewrite Z.eqb_refl. eexists. split; [reflexivity|]. by rewrite Hl, app_nil_r.
  - destruct Hd as [Hadj [Hh _]%NoDup_cons]. subst l.
    rewrite (proj2 (Z.eqb_neq x h)) by set_solver.
    rewrite (get_next_ok m x (default h (head l2))).
    2: { assert (exists B, h :: (l1 ++ x :: l2) ++ [h] = (h :: l1) ++ x :: default h (head l2) :: B)
           as [B E] by (rewrite <- app_assoc; destruct l2; simpl; eauto).
         rewrite E in Hadj. apply (adj_links _ _ _ _ _ Hadj). }
    obind. eexists. split; [reflexivity|]. eexists. split; [done|].
    exists (l1 ++ [x]), l2. rewrite <- app_assoc. split_and!; try done.
    rewrite !length_app in *. simpl in *. rewrite s32_small; lia.
Qed.

(** A circular list with a sentinel is the list of its descriptors.
    [DLL_Init] makes the empty list; on a list that holds [l1 ++ x :: l2],
    [DLL_IsEmpty] and [DLL_Length] answer as on the list, the sentinel's
    [next] and [prev] are its first and last descriptor, [DLL_Remove] of
    [x] leaves [l1 ++ l2] and clears the links of [x], and [DLL_Prepend]
    puts [x] back in front. Descriptors outside the list are not written. *)
Theorem DLL_refines_list (m : links) (h x : Z) (l1 l2 : list Z) (fuel : nat)
    (Hd : dll m h (l1 ++ x :: l2))
    (Hlen : Z.of_nat (length (l1 ++ x :: l2)) < 2 ^ 31)
    (Hfuel : (length (l1 ++ x :: l2) < fuel)%nat) :
  DLL_IsEmpty m h = Ret false /\
  DLL_Length fuel m h = Ret (Z.of_nat (length (l1 ++ x :: l2))) /\
  get_next m h = Ret (default h (head (l1 ++ x :: l2))) /\
  get_prev m h = Ret (default h (last (l1 ++ x :: l2))) /\
  (exists m0, DLL_Init m h = Ret m0 /\ dll m0 h [] /\ DLL_IsEmpty m0 h = Ret true) /\
  exists m1, DLL_Remove m x = Ret m1 /\ dll m1 h (l1 ++ l2) /\ m1 !! x = Some (0, 0) /\
    (forall b, b ∉ h :: l1 ++ x :: l2 -> m1 !! b = m !! b) /\
    exists m2, DLL_Prepend m1 h x = Ret m2 /\ dll m2 h (x :: l1 ++ l2) /\
      (forall b, b ∉ h :: l1 ++ x :: l2 -> m2 !! b = m !! b).
Proof.
  destruct (ends_dll _ _ _ Hd) as [Hn Hp]. split_and!; try done.
  - rewrite (IsEmpty_dll _ _ _ Hd), bool_decide_false; [done|]. by destruct l1.
  - by apply Length_dll.
  - destruct (Init_dll m h) as (m0 & HI & Hd0 & _).
    { destruct Hd as [Hd _]. destruct l1; simpl in Hd; destruct Hd as [[H _] _];
        by eapply nx_is_Some. }
    exists m0. split; [done|]. split; [done|]. by rewrite (IsEmpty_dll _ _ _ Hd0).
  - destruct (Remove_dll m h l1 x l2 Hd) as (m1 & HR & Hd1 & Hx & Hf1).
    exists m1. split_and!; try done.
    destruct (Prepend_dll m1 h (l1 ++ l2) x Hd1) as (m2 & HP & Hd2 & Hf2).
    { destruct Hd as [_ Hnd]. rewrite NoDup_cons, NoDup_app, NoDup_cons in Hnd. set_solver. }
    { by rewrite Hx. }
    exists m2. split_and!; try done. intros b Hb. rewrite Hf2, Hf1; [done|done|set_solver].
Qed.

Lemma DLL_refines_list_witness :
  DLL_Length 4 (<[1 := (2, 3)]> (<[2 := (3, 1)]> (<[3 := (1, 2)]> ∅))) 1 = Ret 2.
Proof.
  apply (DLL_refines_list _ 1 2 [] [3] 4); [|simpl; lia|simpl; lia].
  split; [vm_compute; intuition reflexivity|]. by apply (bool_decide_unpack _); vm_compute.
Defined.
End DLL.
