(* ===== verification/SysEnv.v ===== *)
(** * What the page heap asks of the lower layers

    The page heap and the layers above it call four services: the
    allocators of descriptors, stack traces and thread caches
    ([Static::span_allocator()] and its like, page_heap_allocator.h), the
    metadata allocator ([MetaDataAlloc], common.cc) and the
    system layer ([TCMalloc_SystemAlloc], [TCMalloc_SystemRelease],
    [TCMalloc_SystemCommit] and the counter [TCMalloc_SystemTaken],
    system-alloc.cc). The interface names their operations over a state
    type and states what the heap relies on. *)
From S2P Require Import Prelude Common.

Class SysEnv (E : Type) := {
  span_allocator_New : M E Z;
  span_allocator_Delete : Z -> M E unit;
  stacktrace_allocator_New : M E Z;
  stacktrace_allocator_Delete : Z -> M E unit;
  threadcache_New : M E Z;
  threadcache_Delete : Z -> M E unit;
  MetaDataAlloc : Z -> M E Z;
  (** Result: the address (0 for null) and the actual size. *)
  TCMalloc_SystemAlloc : Z -> Z -> M E (Z * Z);
  TCMalloc_SystemRelease : Z -> Z -> M E bool;
  TCMalloc_SystemCommit : Z -> Z -> M E unit;
  TCMalloc_SystemTaken : E -> Z;
  (** Live objects of the three allocators, pages obtained so far, and the
      state's invariant. *)
  live_spans : E -> gset Z;
  live_stacks : E -> gset Z;
  live_caches : E -> gset Z;
  taken_pages : E -> gset Z;
  env_wf : E -> Prop }.

(** What every call keeps: the state's invariant, the pages obtained. *)
Definition env_grows `{SysEnv E} (e e' : E) : Prop :=
  env_wf e' /\ taken_pages e ⊆ taken_pages e'.
Definition env_keeps `{SysEnv E} (e e' : E) : Prop :=
  env_grows e e' /\ live_spans e' = live_spans e.
(** Stack traces and thread caches that are live stay so. *)
Definition objects_stay `{SysEnv E} (e e' : E) : Prop :=
  live_stacks e ⊆ live_stacks e' /\ live_caches e ⊆ live_caches e'.
#[export] Instance objects_stay_preorder `{SysEnv E} : PreOrder objects_stay.
Proof. split; [by intros e|]. intros e1 e2 e3 [] []. split; set_solver. Qed.

(** Pages number fewer than 2^31 (16 TiB), so that a span's length fits
    the [int] the page heap keeps it in; memory given out is page aligned,
    inside the 48-bit address space, and never given out twice. *)
Class SysEnvLaws (E : Type) `{SysEnv E} := {
  taken_size : forall e, env_wf e -> Z.of_nat (size (taken_pages e)) < 2 ^ 31;
  span_New_ok : forall e, env_wf e -> wp span_allocator_New (fun p e' =>
    p <> 0 /\ p ∉ live_spans e /\ live_spans e' = {[p]} ∪ live_spans e /\ env_grows e e') e;
  span_Delete_ok : forall p e, env_wf e -> p ∈ live_spans e ->
    wp (span_allocator_Delete p) (fun _ e' =>
      live_spans e' = live_spans e ∖ {[p]} /\ env_grows e e') e;
  stacktrace_New_ok : forall e, env_wf e -> wp stacktrace_allocator_New (fun p e' =>
    p <> 0 /\ p ∉ live_stacks e /\ live_stacks e' = {[p]} ∪ live_stacks e /\ env_keeps e e') e;
  stacktrace_Delete_ok : forall p e, env_wf e -> p ∈ live_stacks e ->
    wp (stacktrace_allocator_Delete p) (fun _ e' =>
      live_stacks e' = live_stacks e ∖ {[p]} /\ live_caches e' = live_caches e /\ env_keeps e e') e;
  threadcache_New_ok : forall e, env_wf e -> wp threadcache_New (fun p e' =>
    p <> 0 /\ p ∉ live_caches e /\ live_caches e' = {[p]} ∪ live_caches e /\ env_keeps e e') e;
  threadcache_Delete_ok : forall p e, env_wf e -> p ∈ live_caches e ->
    wp (threadcache_Delete p) (fun _ e' =>
      live_caches e' = live_caches e ∖ {[p]} /\ live_stacks e' = live_stacks e /\ env_keeps e e') e;
  MetaDataAlloc_ok : forall n e, env_wf e -> wp (MetaDataAlloc n) (fun _ e' => env_keeps e e') e;
  SystemAlloc_ok : forall n e, env_wf e -> 0 < n < 2 ^ 64 ->
    wp (TCMalloc_SystemAlloc n kPageSize) (fun '(ptr, actual) e' => env_keeps e e' /\
      (ptr <> 0 -> ptr mod kPageSize = 0 /\ 0 < ptr /\ n <= actual /\ ptr + actual <= 2 ^ 48 /\
         forall pg, ptr / kPageSize <= pg < ptr / kPageSize + actual / kPageSize ->
           pg ∉ taken_pages e /\ pg ∈ taken_pages e')) e;
  SystemRelease_ok : forall a n e, env_wf e ->
    wp (TCMalloc_SystemRelease a n) (fun _ e' => env_keeps e e') e;
  SystemCommit_ok : forall a n e, env_wf e ->
    wp (TCMalloc_SystemCommit a n) (fun _ e' => env_keeps e e') e;
  span_New_stay : moves objects_stay span_allocator_New;
  span_Delete_stay : forall p, moves objects_stay (span_allocator_Delete p);
  stacktrace_New_stay : moves objects_stay stacktrace_allocator_New;
  threadcache_New_stay : moves objects_stay threadcache_New;
  MetaDataAlloc_stay : forall n, moves objects_stay (MetaDataAlloc n);
  SystemAlloc_stay : forall n al, moves objects_stay (TCMalloc_SystemAlloc n al);
  SystemRelease_stay : forall a n, moves objects_stay (TCMalloc_SystemRelease a n);
  SystemCommit_stay : forall a n, moves objects_stay (TCMalloc_SystemCommit a n) }.
#[export] Hint Resolve span_New_stay span_Delete_stay stacktrace_New_stay threadcache_New_stay MetaDataAlloc_stay
  SystemAlloc_stay SystemRelease_stay SystemCommit_stay : moves.
