(* ===== verification/Double.v ===== *)
(** * Facts about double-precision arithmetic

    What the callers need of [double]: conversions of positive integers
    are positive and finite, quotients and products of positive numbers
    are not NaN. *)
From S2P Require Import Prelude.

(** Positive, possibly rounded to zero or overflowed; not NaN. *)
Definition d_pos (x : double) : Prop :=
  match x with
  | S754_zero false | S754_infinity false | S754_finite false _ _ => True
  | _ => False
  end.

Lemma digits2_log2 m : Zpos (digits2_pos m) = Z.log2 (Zpos m) + 1.
Proof.
  induction m as [m IH|m IH|]; simpl digits2_pos; [| |done].
  - rewrite Pos2Z.inj_succ, IH, (Pos2Z.inj_xI m), Z.log2_succ_double by lia. lia.
  - rewrite Pos2Z.inj_succ, IH, (Pos2Z.inj_xO m), Z.log2_double by lia. lia.
Qed.

Lemma shr_1_div x : 0 <= shr_m x -> shr_m (shr_1 x) = shr_m x / 2.
Proof.
  destruct x as [m r s]. destruct m as [|[p|p|]|p]; simpl; intros Hm; try done.
  - rewrite Pos2Z.inj_xI. zdiv.
  - rewrite Pos2Z.inj_xO. zdiv.
Qed.

Lemma iter_shr_div k x : 0 <= shr_m x -> shr_m (iter_pos shr_1 k x) = shr_m x / 2 ^ Zpos k.
Proof.
  revert x. induction k as [k IH|k IH|]; intros x Hx; simpl iter_pos.
  - assert (0 <= shr_m (shr_1 x)) by (rewrite shr_1_div by done; zdiv).
    assert (0 <= shr_m (iter_pos shr_1 k (shr_1 x))) by (rewrite IH by done; apply Z.div_pos; lia).
    rewrite !IH, shr_1_div, !Z.div_div by (done || lia). f_equal.
    replace (Zpos k~1) with (1 + Zpos k + Zpos k) by lia.
    rewrite !Z.pow_add_r by lia. ring.
  - assert (0 <= shr_m (iter_pos shr_1 k x)) by (rewrite IH by done; apply Z.div_pos; lia).
    rewrite !IH, !Z.div_div by (done || lia). f_equal.
    replace (Zpos k~0) with (Zpos k + Zpos k) by lia. rewrite Z.pow_add_r by lia. ring.
  - by rewrite shr_1_div.
Qed.

Lemma shr_record_m m l : shr_m (shr_record_of_loc m l) = m.
Proof. by destruct l as [|[]]. Qed.

Lemma shr_fexp_nonneg m e l : 0 <= m -> 0 <= shr_m (fst (shr_fexp 53 1024 m e l)).
Proof.
  intros Hm. unfold shr_fexp, shr. destruct (fexp _ _ _ - e) as [|k|k]; simpl; rewrite ?shr_record_m; try done.
  rewrite iter_shr_div, shr_record_m by (by rewrite shr_record_m). apply Z.div_pos; lia.
Qed.

Lemma round_ge m l : m <= round_nearest_even m l.
Proof. destruct l as [|[]]; simpl; try destruct (Z.even m); lia. Qed.

Lemma round_aux_pos m e l : 0 <= m -> d_pos (binary_round_aux 53 1024 false m e l).
Proof.
  intros Hm. unfold binary_round_aux. destruct (shr_fexp 53 1024 m e l) as [x1 e1] eqn:E1.
  destruct (shr_fexp 53 1024 (round_nearest_even _ _) e1 loc_Exact) as [x2 e2] eqn:E2.
  pose proof (shr_fexp_nonneg m e l Hm) as H1. rewrite E1 in H1. simpl in H1.
  pose proof (round_ge (shr_m x1) (loc_of_shr_record x1)) as H2.
  pose proof (shr_fexp_nonneg (round_nearest_even (shr_m x1) (loc_of_shr_record x1)) e1 loc_Exact) as H3.
  rewrite E2 in H3. simpl in H3. specialize (H3 ltac:(lia)).
  destruct (shr_m x2) as [|p|p]; [done| |lia]. by case_match.
Qed.

(** A positive mantissa away from the subnormal range stays positive, and
    the exponent grows by at most the bits dropped. *)
Lemma shr_fexp_pos m e l : 0 < m -> -1074 <= Z.log2 m + 1 + e - 53 ->
  0 < shr_m (fst (shr_fexp 53 1024 m e l)) /\
  snd (shr_fexp 53 1024 m e l) = Z.max e (Z.log2 m + 1 + e - 53).
Proof.
  intros Hm He. unfold shr_fexp, shr.
  assert (fexp 53 1024 (Zdigits2 m + e) - e = Z.log2 m + 1 - 53 \/
    fexp 53 1024 (Zdigits2 m + e) - e = Z.log2 m - 52) as Hf.
  { destruct m as [|p|p]; try lia. unfold Zdigits2. rewrite digits2_log2.
    unfold fexp. change (emin 53 1024) with (-1074). lia. }
  destruct (fexp _ _ _ - e) as [|k|k] eqn:Ek; cbn [fst snd]; rewrite ?shr_record_m.
  - lia.
  - split; [|lia]. rewrite iter_shr_div, shr_record_m by (rewrite shr_record_m; lia).
    apply Z.div_str_pos. split; [lia|].
    transitivity (2 ^ Z.log2 m); [apply Z.pow_le_mono_r; lia|apply Z.log2_spec; lia].
  - lia.
Qed.

Lemma round_le m l : round_nearest_even m l <= m + 1.
Proof. destruct l as [|[]]; simpl; try destruct (Z.even m); lia. Qed.

Lemma shr_fexp_le m e l : 0 <= m -> shr_m (fst (shr_fexp 53 1024 m e l)) <= m.
Proof.
  intros Hm. unfold shr_fexp, shr. destruct (fexp _ _ _ - e) as [|k|k]; simpl; rewrite ?shr_record_m; try done.
  rewrite iter_shr_div, shr_record_m by (by rewrite shr_record_m). apply Z.div_le_upper_bound; [lia|].
  pose proof (Z.pow_pos_nonneg 2 (Zpos k)). nia.
Qed.

Lemma round_aux_finite m e l : 0 < m < 2 ^ 100 -> -900 <= e <= 700 ->
  exists m' e', binary_round_aux 53 1024 false m e l = S754_finite false m' e'.
Proof.
  intros Hm He. unfold binary_round_aux. pose proof (Z.log2_nonneg m).
  assert (Z.log2 m < 100) by (apply Z.log2_lt_pow2; lia).
  destruct (shr_fexp_pos m e l) as [O1 O2]; [lia..|].
  pose proof (shr_fexp_le m e l ltac:(lia)) as O3.
  destruct (shr_fexp 53 1024 m e l) as [x1 e1] eqn:E1. simpl in O1, O2, O3.
  set (m1 := round_nearest_even (shr_m x1) (loc_of_shr_record x1)).
  pose proof (round_ge (shr_m x1) (loc_of_shr_record x1)) as Hr. fold m1 in Hr.
  pose proof (round_le (shr_m x1) (loc_of_shr_record x1)) as Hr'. fold m1 in Hr'.
  pose proof (Z.log2_nonneg m1). assert (Z.log2 m1 < 101) by (apply Z.log2_lt_pow2; lia).
  destruct (shr_fexp_pos m1 e1 loc_Exact) as [P1 P2]; [lia..|].
  destruct (shr_fexp 53 1024 m1 e1 loc_Exact) as [x2 e2] eqn:E2. simpl in P1, P2.
  destruct (shr_m x2) as [|p|p]; [lia| |lia].
  rewrite (proj2 (Z.leb_le e2 _)) by lia. eauto.
Qed.

(** A positive [uint64_t] converts to a positive finite double. *)
Lemma d_of_Z_finite n : 0 < n < 2 ^ 64 -> exists m e, d_of_Z n = S754_finite false m e.
Proof.
  intros Hn. destruct n as [|p|p]; try lia. unfold d_of_Z, binary_normalize, binary_round.
  rewrite digits2_log2. pose proof (Z.log2_nonneg (Zpos p)).
  assert (Z.log2 (Zpos p) < 64) by (apply Z.log2_lt_pow2; lia).
  unfold fexp, shl_align. change (emin 53 1024) with (-1074).
  destruct (Z.max _ _ - 0) as [|k|k] eqn:Ek; [apply round_aux_finite; lia..|].
  apply round_aux_finite; [|lia]. split; [lia|].
  assert (Zpos (Pos.iter xO p k) = Zpos p * 2 ^ Zpos k) as ->.
  { rewrite <- Z.shiftl_mul_pow2 by lia. by apply (Pos.iter_swap_gen _ _ Zpos xO (Z.mul 2)). }
  assert (Zpos p < 2 ^ (Z.log2 (Zpos p) + 1)) by (apply Z.log2_spec; lia).
  apply (Z.lt_le_trans _ (2 ^ (Z.log2 (Zpos p) + 1) * 2 ^ Zpos k)).
  { apply Z.mul_lt_mono_pos_r; lia. }
  rewrite <- Z.pow_add_r by lia. apply Z.pow_le_mono_r; lia.
Qed.

Lemma d_div_pos x y : d_pos x -> d_pos y -> y <> S754_zero false ->
  (x <> S754_infinity false) -> d_pos (d_div x y).
Proof.
  intros Hx Hy Hy0 Hxi. unfold d_div, SFdiv.
  destruct x as [[]|[]| |[] mx ex], y as [[]|[]| |[] my ey]; try done.
  destruct (SFdiv_core_binary _ _ _ _ _ _) as [[q e] l] eqn:Eq. apply round_aux_pos.
  unfold SFdiv_core_binary in Eq. destruct (Z.div_eucl _ _) as [q' r] eqn:Ed.
  injection Eq as <- _ _.
  match type of Ed with Z.div_eucl ?a ?b = _ => set (m' := a) in Ed; set (d := b) in Ed end.
  assert (q' = m' / d) as -> by (unfold Z.div; by rewrite Ed).
  apply Z.div_pos; [|lia]. unfold m'. destruct (_ - Z.min _ _); [lia|apply Z.shiftl_nonneg; lia|lia].
Qed.

Lemma d_mul_pos x m e : d_pos x -> d_pos (d_mul x (S754_finite false m e)).
Proof.
  intros Hx. unfold d_mul, SFmul. destruct x as [[]|[]| |[] mx ex]; try done.
  by apply round_aux_pos.
Qed.

(** Clamping a positive number from above makes it convertible. *)
Lemma d_trunc_clamp x m e : d_pos x ->
  is_Some (d_trunc (if d_ltb (S754_finite false m e) x then S754_finite false m e else x)).
Proof. destruct x as [[]|[]| |[] mx ex]; try done; intros _. by destruct (d_ltb _ _). Qed.
