(* ===== verification/PageHeap.v ===== *)
(** * The page heap: state and operations

    Models src/src/src/page_heap.h and page_heap.cc, one definition per
    member function. The object is a record; a descriptor is an address
    into the map [spans]; the circular span lists are lists of descriptors
    (Span.v) and the ordered sets of large spans are lists kept in the
    comparator's order. The page map and the lower layers are the
    interfaces of PageMap.v and SysEnv.v. The heap's lock is held by every
    operation from entry to exit, so an operation is one step; its
    [LockingContext] is the field [grown_by]. [ASSERT]s are compiled out. *)
From S2P Require Import Prelude Common PageMap PackedCache Span SysEnv.

Record Stats := mkStats {
  system_bytes : Z; free_bytes : Z; unmapped_bytes : Z; committed_bytes : Z;
  scavenge_count : Z; commit_count : Z; total_commit_bytes : Z;
  decommit_count : Z; total_decommit_bytes : Z;
  reserve_count : Z; total_reserve_bytes : Z }.
Definition stats0 : Stats := mkStats 0 0 0 0 0 0 0 0 0 0 0.

Definition add_free (d : Z) (s : Stats) : Stats :=
  mkStats (system_bytes s) (u64 (free_bytes s + d)) (unmapped_bytes s) (committed_bytes s)
    (scavenge_count s) (commit_count s) (total_commit_bytes s)
    (decommit_count s) (total_decommit_bytes s) (reserve_count s) (total_reserve_bytes s).
Definition add_unmapped (d : Z) (s : Stats) : Stats :=
  mkStats (system_bytes s) (free_bytes s) (u64 (unmapped_bytes s + d)) (committed_bytes s)
    (scavenge_count s) (commit_count s) (total_commit_bytes s)
    (decommit_count s) (total_decommit_bytes s) (reserve_count s) (total_reserve_bytes s).
Definition count_scavenge (s : Stats) : Stats :=
  mkStats (system_bytes s) (free_bytes s) (unmapped_bytes s) (committed_bytes s)
    (u64 (scavenge_count s + 1)) (commit_count s) (total_commit_bytes s)
    (decommit_count s) (total_decommit_bytes s) (reserve_count s) (total_reserve_bytes s).
(** The counters of [CommitSpan], [DecommitSpan] and [GrowHeap]. *)
Definition count_commit (d : Z) (s : Stats) : Stats :=
  mkStats (system_bytes s) (free_bytes s) (unmapped_bytes s) (u64 (committed_bytes s + d))
    (scavenge_count s) (u64 (commit_count s + 1)) (u64 (total_commit_bytes s + d))
    (decommit_count s) (total_decommit_bytes s) (reserve_count s) (total_reserve_bytes s).
Definition count_decommit_call (s : Stats) : Stats :=
  mkStats (system_bytes s) (free_bytes s) (unmapped_bytes s) (committed_bytes s)
    (scavenge_count s) (commit_count s) (total_commit_bytes s)
    (u64 (decommit_count s + 1)) (total_decommit_bytes s) (reserve_count s) (total_reserve_bytes s).
Definition count_decommit (d : Z) (s : Stats) : Stats :=
  mkStats (system_bytes s) (free_bytes s) (unmapped_bytes s) (u64 (committed_bytes s - d))
    (scavenge_count s) (commit_count s) (total_commit_bytes s)
    (decommit_count s) (u64 (total_decommit_bytes s + d)) (reserve_count s) (total_reserve_bytes s).
Definition count_grow (d : Z) (s : Stats) : Stats :=
  mkStats (u64 (system_bytes s + d)) (free_bytes s) (unmapped_bytes s) (u64 (committed_bytes s + d))
    (scavenge_count s) (u64 (commit_count s + 1)) (u64 (total_commit_bytes s + d))
    (decommit_count s) (total_decommit_bytes s)
    (u64 (reserve_count s + 1)) (u64 (total_reserve_bytes s + d)).

(** [std::set] with the best-fit comparator. *)
Fixpoint set_insert (e : SpanPtrWithLength) (l : list SpanPtrWithLength) : list SpanPtrWithLength :=
  match l with
  | [] => [e]
  | x :: l' =>
      if SpanBestFitLess e x then e :: l
      else if SpanBestFitLess x e then x :: set_insert e l'
      else l
  end.
Definition upper_bound (e : SpanPtrWithLength) (l : list SpanPtrWithLength) : option SpanPtrWithLength :=
  List.find (SpanBestFitLess e) l.
(** Erasing the position a span keeps. *)
Fixpoint set_erase (p : Z) (l : list SpanPtrWithLength) : option (list SpanPtrWithLength) :=
  match l with
  | [] => None
  | x :: l => if e_span x =? p then Some l else cons x <$> set_erase p l
  end.

(** [DLL_Remove] on the list that holds [p]. *)
Fixpoint list_remove_ (p : Z) (l : list Z) : option (list Z) :=
  match l with
  | [] => None
  | x :: l => if x =? p then Some l else cons x <$> list_remove_ p l
  end.

Record SpanList := mkSpanList { normal : list Z; returned : list Z }.

Record PageHeap (PM E : Type) := mkPageHeap {
  pagemap_ : PM;
  pagemap_cache_ : PackedCache.t;
  spans : gmap Z Span;
  free_ : gmap Z SpanList;
  large_normal_ : list SpanPtrWithLength;
  large_returned_ : list SpanPtrWithLength;
  stats_ : Stats;
  scavenge_counter_ : Z;
  release_index_ : Z;
  aggressive_decommit_ : bool;
  grown_by : Z;
  growth_stacks : list Z;
  env : E }.
Arguments mkPageHeap {PM E}.
Arguments pagemap_ {PM E}. Arguments pagemap_cache_ {PM E}. Arguments spans {PM E}.
Arguments free_ {PM E}. Arguments large_normal_ {PM E}. Arguments large_returned_ {PM E}.
Arguments stats_ {PM E}. Arguments scavenge_counter_ {PM E}. Arguments release_index_ {PM E}.
Arguments aggressive_decommit_ {PM E}. Arguments grown_by {PM E}. Arguments growth_stacks {PM E}.
Arguments env {PM E}.

Module PH.
Section PageHeap.
Context {PM E : Type} `{!PageMap PM} `{!SysEnv E}.
(** Flags and the constructor's argument. *)
Context (release_rate : double) (heap_limit_mb : Z) (smallest_span_size_ : Z).

Abbreviation heap := (PageHeap PM E).
Implicit Types h : heap.

Definition with_pagemap (v : PM) h : heap :=
  mkPageHeap v (pagemap_cache_ h) (spans h) (free_ h) (large_normal_ h) (large_returned_ h) (stats_ h)
    (scavenge_counter_ h) (release_index_ h) (aggressive_decommit_ h) (grown_by h) (growth_stacks h) (env h).
Definition with_cache (v : PackedCache.t) h : heap :=
  mkPageHeap (pagemap_ h) v (spans h) (free_ h) (large_normal_ h) (large_returned_ h) (stats_ h)
    (scavenge_counter_ h) (release_index_ h) (aggressive_decommit_ h) (grown_by h) (growth_stacks h) (env h).
Definition with_spans (v : gmap Z Span) h : heap :=
  mkPageHeap (pagemap_ h) (pagemap_cache_ h) v (free_ h) (large_normal_ h) (large_returned_ h) (stats_ h)
    (scavenge_counter_ h) (release_index_ h) (aggressive_decommit_ h) (grown_by h) (growth_stacks h) (env h).
Definition with_lists (f : gmap Z SpanList) (ln lr : list SpanPtrWithLength) h : heap :=
  mkPageHeap (pagemap_ h) (pagemap_cache_ h) (spans h) f ln lr (stats_ h)
    (scavenge_counter_ h) (release_index_ h) (aggressive_decommit_ h) (grown_by h) (growth_stacks h) (env h).
Definition with_stats (v : Stats) h : heap :=
  mkPageHeap (pagemap_ h) (pagemap_cache_ h) (spans h) (free_ h) (large_normal_ h) (large_returned_ h) v
    (scavenge_counter_ h) (release_index_ h) (aggressive_decommit_ h) (grown_by h) (growth_stacks h) (env h).
Definition with_scavenge (v : Z) h : heap :=
  mkPageHeap (pagemap_ h) (pagemap_cache_ h) (spans h) (free_ h) (large_normal_ h) (large_returned_ h) (stats_ h)
    v (release_index_ h) (aggressive_decommit_ h) (grown_by h) (growth_stacks h) (env h).
Definition with_release_index (v : Z) h : heap :=
  mkPageHeap (pagemap_ h) (pagemap_cache_ h) (spans h) (free_ h) (large_normal_ h) (large_returned_ h) (stats_ h)
    (scavenge_counter_ h) v (aggressive_decommit_ h) (grown_by h) (growth_stacks h) (env h).
Definition with_aggressive (v : bool) h : heap :=
  mkPageHeap (pagemap_ h) (pagemap_cache_ h) (spans h) (free_ h) (large_normal_ h) (large_returned_ h) (stats_ h)
    (scavenge_counter_ h) (release_index_ h) v (grown_by h) (growth_stacks h) (env h).
Definition with_growth (g : Z) (st : list Z) h : heap :=
  mkPageHeap (pagemap_ h) (pagemap_cache_ h) (spans h) (free_ h) (large_normal_ h) (large_returned_ h) (stats_ h)
    (scavenge_counter_ h) (release_index_ h) (aggressive_decommit_ h) g st (env h).
Definition with_env (v : E) h : heap :=
  mkPageHeap (pagemap_ h) (pagemap_cache_ h) (spans h) (free_ h) (large_normal_ h) (large_returned_ h) (stats_ h)
    (scavenge_counter_ h) (release_index_ h) (aggressive_decommit_ h) (grown_by h) (growth_stacks h) v.

(** ** Access *)

(** A call into the lower layers. *)
Definition in_env {A} (m : M E A) : M heap A := fun h =>
  match m (env h) with Ret (a, e) => Ret (a, with_env e h) | Fault f => Fault f end.

Definition read {A} (f : heap -> A) : M heap A := h ← getS; mret (f h).
Definition get_span (p : Z) : M heap Span := h ← getS; liftM (deref (spans h !! p)).
Definition put_span (p : Z) (s : Span) : M heap unit := modS (fun h => with_spans (<[p := s]> (spans h)) h).
Definition upd_span (p : Z) (f : Span -> Span) : M heap unit := s ← get_span p; put_span p (f s).
Definition upd_stats (f : Stats -> Stats) : M heap unit := modS (fun h => with_stats (f (stats_ h)) h).
Definition pagemap_set (k v : Z) : M heap unit :=
  h ← getS; pm ← liftM (pm_set (pagemap_ h) k v); modS (with_pagemap pm).

(** The list and the set for a location. *)
Definition span_list h (i : Z) : SpanList := default (mkSpanList [] []) (free_ h !! i).
Definition flist h (loc : location_t) (i : Z) : list Z :=
  match loc with
  | ON_NORMAL_FREELIST => normal (span_list h i)
  | ON_RETURNED_FREELIST => returned (span_list h i)
  | IN_USE => []
  end.
Definition large h (loc : location_t) : list SpanPtrWithLength :=
  match loc with
  | ON_NORMAL_FREELIST => large_normal_ h
  | ON_RETURNED_FREELIST => large_returned_ h
  | IN_USE => []
  end.
Definition put_flist (loc : location_t) (i : Z) (l : list Z) h : heap :=
  let sl := span_list h i in
  let sl := match loc with
            | ON_NORMAL_FREELIST => mkSpanList l (returned sl)
            | _ => mkSpanList (normal sl) l
            end in
  with_lists (<[i := sl]> (free_ h)) (large_normal_ h) (large_returned_ h) h.
Definition put_large (loc : location_t) (l : list SpanPtrWithLength) h : heap :=
  match loc with
  | ON_NORMAL_FREELIST => with_lists (free_ h) l (large_returned_ h) h
  | _ => with_lists (free_ h) (large_normal_ h) l h
  end.

Definition bytes_of (len : Z) : Z := u64 (Z.shiftl len kPageShift).

Definition GetDescriptor (p : Z) h : Z := pm_get (pagemap_ h) p.

(** ** Descriptors *)

Definition NewSpan (p len : Z) : M heap Z :=
  result ← in_env span_allocator_New;
  _ ← put_span result (new_span p len);
  mret result.
Definition DeleteSpan (span : Z) : M heap unit :=
  _ ← in_env (span_allocator_Delete span);
  modS (fun h => with_spans (delete span (spans h)) h).

Definition RecordSpan (span : Z) : M heap unit :=
  s ← get_span span;
  _ ← pagemap_set (start s) span;
  if length_ s >? 1 then pagemap_set (u64 (start s + length_ s - 1)) span else mret tt.

(** ** Free lists *)

(** The index of [free_] for a span of [len] pages. *)
Definition free_index (len : Z) : outcome Z :=
  if (1 <=? len) && (len <=? kMaxPages) then Ret (len - 1) else Fault Undefined.

Definition PrependToFreeList (span : Z) : M heap unit :=
  s ← get_span span;
  _ ← (if decide (location s = ON_NORMAL_FREELIST)
       then upd_stats (add_free (bytes_of (length_ s)))
       else upd_stats (add_unmapped (bytes_of (length_ s))));
  let set := if decide (location s = ON_RETURNED_FREELIST)
             then ON_RETURNED_FREELIST else ON_NORMAL_FREELIST in
  let lst := if decide (location s = ON_NORMAL_FREELIST)
             then ON_NORMAL_FREELIST else ON_RETURNED_FREELIST in
  if length_ s >? kMaxPages then
    _ ← modS (fun h => put_large set (set_insert (mkEntry span (length_ s) (start s)) (large h set)) h);
    upd_span span (set_span_iter true)
  else
    i ← liftM (free_index (length_ s));
    modS (fun h => put_flist lst i (span :: flist h lst i) h).

Definition RemoveFromFreeList (span : Z) : M heap unit :=
  s ← get_span span;
  _ ← (if decide (location s = ON_NORMAL_FREELIST)
       then upd_stats (add_free (- bytes_of (length_ s)))
       else upd_stats (add_unmapped (- bytes_of (length_ s))));
  let set := if decide (location s = ON_RETURNED_FREELIST)
             then ON_RETURNED_FREELIST else ON_NORMAL_FREELIST in
  if length_ s >? kMaxPages then
    _ ← upd_span span (set_span_iter false);
    h ← getS;
    l ← liftM (deref (set_erase span (large h set)));
    modS (put_large set l)
  else
    h ← getS;
    l ← liftM (deref (list_remove_ span (flist h (location s) (length_ s - 1))));
    modS (put_flist (location s) (length_ s - 1) l).

(** ** Commit and decommit *)

Definition CommitSpan (span : Z) : M heap unit :=
  s ← get_span span;
  _ ← in_env (TCMalloc_SystemCommit (u64 (Z.shiftl (start s) kPageShift)) (bytes_of (length_ s)));
  upd_stats (count_commit (bytes_of (length_ s))).

Definition DecommitSpan (span : Z) : M heap bool :=
  _ ← upd_stats count_decommit_call;
  s ← get_span span;
  rv ← in_env (TCMalloc_SystemRelease (u64 (Z.shiftl (start s) kPageShift)) (bytes_of (length_ s)));
  _ ← (if rv : bool then upd_stats (count_decommit (bytes_of (length_ s))) else mret tt);
  mret rv.

(** ** Splitting *)

(** Create the descriptor of the [extra] pages after the first [n]. *)
Definition Split (span n : Z) : M heap Z :=
  s ← get_span span;
  let extra := s32 (u64 (length_ s - n)) in
  leftover ← NewSpan (u64 (start s + n)) (u64 extra);
  _ ← RecordSpan leftover;
  _ ← pagemap_set (u64 (start s + n - 1)) span;
  _ ← upd_span span (set_length n);
  mret leftover.

(** The part of [Carve] that gives the pages after the first [n] back. *)
Definition carve_leftover (span n extra : Z) (old_location : location_t) : M heap unit :=
  s ← get_span span;
  leftover ← NewSpan (u64 (start s + n)) (u64 extra);
  _ ← upd_span leftover (set_location old_location);
  _ ← RecordSpan leftover;
  _ ← PrependToFreeList leftover;
  _ ← upd_span span (set_length n);
  s ← get_span span;
  pagemap_set (u64 (start s + n - 1)) span.

Definition Carve (span n : Z) : M heap Z :=
  s ← get_span span;
  let old_location := location s in
  _ ← RemoveFromFreeList span;
  _ ← upd_span span (set_location IN_USE);
  s ← get_span span;
  let extra := s32 (u64 (length_ s - n)) in
  _ ← (if extra >? 0 then carve_leftover span n extra old_location else mret tt);
  _ ← (if decide (old_location = ON_RETURNED_FREELIST) then CommitSpan span else mret tt);
  mret span.

(** ** Coalescing *)

(** Result 0 is null. *)
Definition CheckAndHandlePreMerge (span other : Z) : M heap Z :=
  if other =? 0 then mret 0 else
  o ← get_span other;
  s ← get_span span;
  aggressive ← read aggressive_decommit_;
  merge ← (if aggressive && bool_decide (location o = ON_NORMAL_FREELIST)
              && bool_decide (location s = ON_RETURNED_FREELIST)
           then DecommitSpan other
           else mret (bool_decide (location o = location s)));
  if merge : bool then
    _ ← RemoveFromFreeList other; mret other
  else mret 0.

(** Merge the preceding span into this span. *)
Definition merge_prev (span prev : Z) : M heap unit :=
  o ← get_span prev;
  let len := length_ o in
  _ ← DeleteSpan prev;
  _ ← upd_span span (fun s => set_start (u64 (start s - len)) s);
  _ ← upd_span span (fun s => set_length (u64 (length_ s + len)) s);
  s ← get_span span;
  pagemap_set (start s) span.

(** Merge the next span into this span. *)
Definition merge_next (span next : Z) : M heap unit :=
  o ← get_span next;
  let len := length_ o in
  _ ← DeleteSpan next;
  _ ← upd_span span (fun s => set_length (u64 (length_ s + len)) s);
  s ← get_span span;
  pagemap_set (u64 (start s + length_ s - 1)) span.

Definition MergeIntoFreeList (span : Z) : M heap unit :=
  s ← get_span span;
  let p := start s in
  let n := length_ s in
  aggressive ← read aggressive_decommit_;
  _ ← (if aggressive && bool_decide (location s = ON_NORMAL_FREELIST) then
         ok ← DecommitSpan span;
         if ok : bool then upd_span span (set_location ON_RETURNED_FREELIST) else mret tt
       else mret tt);
  other ← read (GetDescriptor (u64 (p - 1)));
  prev ← CheckAndHandlePreMerge span other;
  _ ← (if prev =? 0 then mret tt else merge_prev span prev);
  other ← read (GetDescriptor (u64 (p + n)));
  next ← CheckAndHandlePreMerge span other;
  _ ← (if next =? 0 then mret tt else merge_next span next);
  PrependToFreeList span.

(** ** Releasing *)

Definition ReleaseSpan (s : Z) : M heap Z :=
  ok ← DecommitSpan s;
  if ok : bool then
    _ ← RemoveFromFreeList s;
    d ← get_span s;
    let n := length_ d in
    _ ← upd_span s (set_location ON_RETURNED_FREELIST);
    _ ← MergeIntoFreeList s;
    mret n
  else mret 0.

(** The span the release loop takes from the list at [release_index_]. *)
Definition release_candidate h : option Z :=
  if release_index_ h =? kMaxPages then e_span <$> head (large_normal_ h)
  else last (normal (span_list h (release_index_ h))).

(** One iteration of the inner loop. The state of the loop is [i] and
    [released_pages]; [inr (inl r)] leaves the loop, [inr (inr r)] returns
    from the function. *)
Definition release_iter (num_pages : Z) (a : Z * Z) : M heap ((Z * Z) + (Z + Z)) :=
  let '(i, released_pages) := a in
  if negb ((i <? kMaxPages + 1) && (released_pages <? num_pages))
  then mret (inr (inl released_pages)) else
  _ ← modS (fun h => if release_index_ h >? kMaxPages then with_release_index 0 h else h);
  c ← read release_candidate;
  match c with
  | None =>
      _ ← modS (fun h => with_release_index (release_index_ h + 1) h);
      mret (inl (i + 1, released_pages))
  | Some s =>
      released_len ← ReleaseSpan s;
      if released_len =? 0 then mret (inr (inr released_pages)) else
      _ ← modS (fun h => with_release_index (release_index_ h + 1) h);
      mret (inl (i + 1, u64 (released_pages + released_len)))
  end.

Definition release_fuel : nat := 130.
Definition release_round (num_pages released_pages : Z) : M heap (Z + Z) :=
  h ← getS;
  if negb ((released_pages <? num_pages) && (free_bytes (stats_ h) >? 0))
  then mret (inr released_pages) else
  r ← loopM release_fuel (release_iter num_pages) (0, released_pages);
  mret r.

(** The outer loop runs at most once more than there are descriptors. *)
Definition ReleaseAtLeastNPages (num_pages : Z) : M heap Z :=
  h ← getS;
  loopM (S (size (spans h))) (release_round num_pages) 0.

Definition kMaxReleaseDelay : Z := Z.shiftl 1 20.
Definition kDefaultReleaseDelay : Z := Z.shiftl 1 18.

(** The pause after releasing [released_pages]. *)
Definition release_wait (released_pages : Z) : outcome Z :=
  let mult := d_div (d_of_Z 1000) release_rate in
  let wait := d_mul mult (d_of_Z released_pages) in
  let wait := if d_ltb (d_of_Z kMaxReleaseDelay) wait then d_of_Z kMaxReleaseDelay else wait in
  deref (d_trunc wait).

(** The double constant 1e-6. *)
Definition d_1em6 : double := S754_finite false 4722366482869645 (-72).

Definition IncrementalScavenge (n : Z) : M heap unit :=
  _ ← modS (fun h => with_scavenge (s64 (scavenge_counter_ h - n)) h);
  c ← read scavenge_counter_;
  if c >=? 0 then mret tt else
  if d_leb release_rate d_1em6 then modS (with_scavenge kDefaultReleaseDelay) else
  _ ← upd_stats count_scavenge;
  released_pages ← ReleaseAtLeastNPages 1;
  if released_pages =? 0 then modS (with_scavenge kDefaultReleaseDelay)
  else w ← liftM (release_wait released_pages); modS (with_scavenge w).

Definition DeleteLocked (span : Z) : M heap unit :=
  s ← get_span span;
  let n := length_ s in
  _ ← upd_span span (set_sizeclass 0);
  _ ← upd_span span (set_sample false);
  _ ← upd_span span (set_location ON_NORMAL_FREELIST);
  _ ← MergeIntoFreeList span;
  IncrementalScavenge n.

Definition EnsureLimit (n : Z) (withRelease : bool) : M heap bool :=
  let limit := u64 (Z.shiftr (s64 (heap_limit_mb * 1024 * 1024)) kPageShift) in
  if limit =? 0 then mret true else
  h ← getS;
  let takenPages := Z.shiftr (TCMalloc_SystemTaken (env h)) kPageShift in
  let takenPages := u64 (takenPages - Z.shiftr (unmapped_bytes (stats_ h)) kPageShift) in
  takenPages ← (if (u64 (takenPages + n) >? limit) && withRelease then
                  r ← ReleaseAtLeastNPages (u64 (u64 (takenPages + n) - limit));
                  mret (u64 (takenPages - r))
                else mret takenPages);
  mret (u64 (takenPages + n) <=? limit).

(** ** Allocation *)

(** The best fit: the first span of each set above the bound, the returned
    one only when it is strictly shorter. Result: best and best_normal. *)
Definition best_fit (n : Z) h : option SpanPtrWithLength * option SpanPtrWithLength :=
  let bound := mkEntry 0 n 0 in
  let best_normal := upper_bound bound (large_normal_ h) in
  let best :=
    match upper_bound bound (large_returned_ h) with
    | None => best_normal
    | Some c => match best_normal with
                | None => Some c
                | Some b => if e_length c <? e_length b then Some c else Some b
                end
    end in
  (best, best_normal).

Definition same_span (a b : option SpanPtrWithLength) : bool :=
  bool_decide (e_span <$> a = e_span <$> b).

(** Result 0 is null. *)
Definition AllocLarge_body (n : Z) (_ : unit) : M heap (unit + Z) :=
  b ← read (best_fit n);
  let '(best, best_normal) := b in
  if same_span best best_normal then
    match best with
    | None => mret (inr 0)
    | Some e => r ← Carve (e_span e) n; mret (inr r)
    end
  else
    match best with
    | None => liftM (Fault Undefined)
    | Some e =>
        ok ← EnsureLimit n false;
        if ok : bool then r ← Carve (e_span e) n; mret (inr r) else
        ok ← EnsureLimit n true;
        if ok : bool then mret (inl tt) else mret (inr 0)
    end.

(** Each retry follows a release, which takes a span off the normal lists. *)
Definition AllocLarge (n : Z) : M heap Z :=
  h ← getS;
  loopM (S (size (spans h))) (AllocLarge_body n) tt.

(** One length of the search; [Some] is the span found. *)
Definition search_step (n s : Z) : M heap (option Z) :=
  i ← liftM (free_index s);
  ll ← read (fun h => normal (span_list h i));
  match ll with
  | x :: _ => r ← Carve x n; mret (Some r)
  | [] =>
      ll ← read (fun h => returned (span_list h i));
      match ll with
      | [] => mret None
      | _ =>
          ok ← EnsureLimit n true;
          if ok : bool then
            ll ← read (fun h => returned (span_list h i));
            match ll with
            | x :: _ => r ← Carve x n; mret (Some r)
            | [] => mret None
            end
          else mret None
      end
  end.

Fixpoint search_lists (n : Z) (lens : list Z) : M heap (option Z) :=
  match lens with
  | [] => mret None
  | s :: lens =>
      r ← search_step n s;
      match r with Some x => mret (Some x) | None => search_lists n lens end
  end.

Definition SearchFreeAndLargeLists (n : Z) : M heap Z :=
  r ← search_lists n (if n <=? kMaxPages then for_range n kMaxPages 1 else []);
  match r with Some x => mret x | None => AllocLarge n end.

Definition kForcedCoalesceInterval : Z := 128 * 1024 * 1024.

Definition RoundUpSize (n : Z) : Z :=
  let mask := u64 (- 1 - u64 (smallest_span_size_ - 1)) in
  let rounded_n := Z.land (u64 (n + smallest_span_size_ - 1)) mask in
  if rounded_n <? n then Z.land (2 ^ 64 - 1) mask else rounded_n.

Definition kPageMapBigAllocationThreshold : Z := Z.shiftl 128 20.
Definition kMinSystemAlloc : Z := kMaxPages.

(** The system's pages for [n], asking for more first. *)
Definition grow_alloc (n : Z) : M heap (Z * Z) :=
  let ask := if n >? kMinSystemAlloc then n else kMinSystemAlloc in
  ok ← EnsureLimit ask true;
  r ← (if ok : bool then in_env (TCMalloc_SystemAlloc (bytes_of ask) kPageSize) else mret (0, 0));
  if negb (fst r =? 0) then mret r else
  if n <? ask then
    ok ← EnsureLimit n true;
    if ok : bool then in_env (TCMalloc_SystemAlloc (bytes_of n) kPageSize) else mret (0, 0)
  else mret (0, 0).

Definition pagemap_Ensure (start n : Z) : M heap bool := fun h =>
  match pm_ensure MetaDataAlloc (pagemap_ h) start n (env h) with
  | Ret (ok, pm, e) => Ret (ok, with_env e (with_pagemap pm h))
  | Fault f => Fault f
  end.
Definition pagemap_PreallocateMoreMemory : M heap unit := fun h =>
  match pm_prealloc MetaDataAlloc (pagemap_ h) (env h) with
  | Ret (pm, e) => Ret (tt, with_env e (with_pagemap pm h))
  | Fault f => Fault f
  end.

Definition GrowHeap (n : Z) : M heap bool :=
  if n >? kMaxValidPages then mret false else
  r ← grow_alloc n;
  let '(ptr, actual_size) := r in
  if ptr =? 0 then mret false else
  let ask := Z.shiftr actual_size kPageShift in
  _ ← modS (fun h => with_growth (u64 (grown_by h + bytes_of ask)) (growth_stacks h) h);
  old_system_bytes ← read (fun h => system_bytes (stats_ h));
  _ ← upd_stats (count_grow (bytes_of ask));
  let p := Z.shiftr ptr kPageShift in
  new_system_bytes ← read (fun h => system_bytes (stats_ h));
  _ ← (if (old_system_bytes <? kPageMapBigAllocationThreshold)
          && (new_system_bytes >=? kPageMapBigAllocationThreshold)
       then pagemap_PreallocateMoreMemory else mret tt);
  ok ← pagemap_Ensure (u64 (p - 1)) (u64 (ask + 2));
  if ok : bool then
    span ← NewSpan p ask;
    _ ← RecordSpan span;
    _ ← DeleteLocked span;
    mret true
  else mret false.

(** Whether to unmap all free pages before growing. *)
Definition should_coalesce (n : Z) h : bool :=
  let st := stats_ h in
  negb (free_bytes st =? 0) && negb (unmapped_bytes st =? 0)
  && (u64 (free_bytes st + unmapped_bytes st) >=? system_bytes st / 4)
  && negb (system_bytes st / kForcedCoalesceInterval
           =? u64 (system_bytes st + bytes_of n) / kForcedCoalesceInterval).

Definition NewLocked (n : Z) : M heap Z :=
  let n := RoundUpSize n in
  result ← SearchFreeAndLargeLists n;
  if negb (result =? 0) then mret result else
  c ← read (should_coalesce n);
  result ← (if c : bool then
              _ ← ReleaseAtLeastNPages 0x7fffffff;
              SearchFreeAndLargeLists n
            else mret 0);
  if negb (result =? 0) then mret result else
  ok ← GrowHeap n;
  if negb ok then mret 0 else SearchFreeAndLargeLists n.

(** ** The public operations *)

Definition InvalidateCachedSizeClass (p : Z) : M heap unit :=
  modS (fun h => with_cache (PackedCache.Invalidate (pagemap_cache_ h) p) h).
Definition SetCachedSizeClass (p cl : Z) : M heap unit :=
  modS (fun h => with_cache (PackedCache.Put (pagemap_cache_ h) p cl) h).

(** The context's constructor and destructor. *)
Definition LockingContext_begin : M heap unit := modS (fun h => with_growth 0 (growth_stacks h) h).
Definition HandleUnlock : M heap unit :=
  g ← read grown_by;
  if g =? 0 then mret tt else
  _ ← in_env stacktrace_allocator_New;
  modS (fun h => with_growth g (g :: growth_stacks h) h).

Definition RegisterSizeClass (span sc : Z) : M heap unit :=
  _ ← upd_span span (set_sizeclass sc);
  s ← get_span span;
  forM_ (for_range 1 (u64 (length_ s - 1) - 1) 1) (fun i => pagemap_set (u64 (start s + i)) span).

Definition NewWithSizeClass (n sizeclass : Z) : M heap Z :=
  _ ← LockingContext_begin;
  span ← NewLocked n;
  _ ← (if span =? 0 then mret tt else
       s ← get_span span;
       _ ← InvalidateCachedSizeClass (start s);
       if sizeclass =? 0 then mret tt else RegisterSizeClass span sizeclass);
  _ ← HandleUnlock;
  mret span.

Definition New (n : Z) : M heap Z := NewWithSizeClass n 0.
Definition Delete (span : Z) : M heap unit := DeleteLocked span.
Definition PrepareAndDelete (span : Z) (body : M heap unit) : M heap unit :=
  _ ← body; DeleteLocked span.

(** Pages to skip so that [first + skip] is aligned. *)
Definition aligned_at (align_bytes first skip : Z) : bool :=
  Z.land (u64 (Z.shiftl (u64 (first + skip)) kPageShift)) (u64 (align_bytes - 1)) =? 0.
Definition align_skip (fuel : nat) (align_pages first : Z) : outcome Z :=
  loop fuel (fun skip => if aligned_at (u64 (Z.shiftl align_pages kPageShift)) first skip
                         then Ret (inr skip) else Ret (inl (skip + 1))) 0.

(** Give the first [skip] pages back, and the pages after the first [n]. *)
Definition skip_prefix (span skip : Z) : M heap Z :=
  if skip >? 0 then
    rest ← Split span skip;
    _ ← DeleteLocked span;
    mret rest
  else mret span.
Definition trim_tail (span n : Z) : M heap unit :=
  s ← get_span span;
  if length_ s >? n then trailer ← Split span n; DeleteLocked trailer else mret tt.

Definition NewAligned (n align_pages : Z) : M heap Z :=
  let n := RoundUpSize n in
  let alloc := u64 (n + align_pages) in
  if (alloc <? n) || (alloc <? align_pages) then
    span ← New (2 ^ 64 - 1);
    _ ← liftM (check (span =? 0));
    mret 0
  else
  _ ← LockingContext_begin;
  span ← NewLocked alloc;
  r ← (if span =? 0 then mret 0 else
       s ← get_span span;
       skip ← liftM (align_skip (S (Z.to_nat align_pages)) align_pages (start s));
       span ← skip_prefix span skip;
       _ ← trim_tail span n;
       s ← get_span span;
       _ ← InvalidateCachedSizeClass (start s);
       mret span);
  _ ← HandleUnlock;
  mret r.

Definition SetAggressiveDecommit (b : bool) : M heap unit := modS (with_aggressive b).

(** ** Statistics and checks *)

Definition GetSmallSpanStatsLocked h : list (Z * Z) :=
  (fun i => (Z.of_nat (length (normal (span_list h i))), Z.of_nat (length (returned (span_list h i)))))
  <$> seqZ 0 kMaxPages.
Definition sum_entries (l : list SpanPtrWithLength) : Z := foldl (fun a e => s64 (a + e_length e)) 0 l.
(** Result: spans, normal pages, returned pages. *)
Definition GetLargeSpanStatsLocked h : Z * Z * Z :=
  (Z.of_nat (length (large_normal_ h)) + Z.of_nat (length (large_returned_ h)),
   sum_entries (large_normal_ h), sum_entries (large_returned_ h)).

Definition check_span (p : Z) (freelist : location_t) (min_pages max_pages : Z) h : outcome unit :=
  s ← deref (spans h !! p);
  _ ← check (bool_decide (location s = freelist));
  _ ← check (length_ s >=? min_pages);
  _ ← check (length_ s <=? max_pages);
  _ ← check (GetDescriptor (start s) h =? p);
  check (GetDescriptor (u64 (start s + length_ s - 1)) h =? p).
Definition CheckList (l : list Z) (min_pages max_pages : Z) (freelist : location_t) h : outcome unit :=
  foldM (fun _ p => check_span p freelist min_pages max_pages h) l tt.
Definition CheckSet (l : list SpanPtrWithLength) (min_pages : Z) (freelist : location_t) h : outcome unit :=
  foldM (fun _ e =>
    s ← deref (spans h !! e_span e);
    _ ← check (length_ s =? e_length e);
    _ ← check (bool_decide (location s = freelist));
    _ ← check (length_ s >=? min_pages);
    _ ← check (GetDescriptor (start s) h =? e_span e);
    check (GetDescriptor (u64 (start s + length_ s - 1)) h =? e_span e)) l tt.
Definition CheckExpensive h : outcome unit :=
  _ ← CheckSet (large_normal_ h) (kMaxPages + 1) ON_NORMAL_FREELIST h;
  _ ← CheckSet (large_returned_ h) (kMaxPages + 1) ON_RETURNED_FREELIST h;
  foldM (fun _ s =>
    _ ← CheckList (normal (span_list h (s - 1))) s s ON_NORMAL_FREELIST h;
    CheckList (returned (span_list h (s - 1))) s s ON_RETURNED_FREELIST h)
    (for_range 1 kMaxPages 1) tt.

(** The constructor. *)
Definition init (e : E) : outcome heap :=
  _ ← check (Z.land smallest_span_size_ (u64 (smallest_span_size_ - 1)) =? 0);
  Ret (mkPageHeap pm_init ∅ ∅ ∅ [] [] stats0 0 kMaxPages false 0 [] e).
End PageHeap.
End PH.
