(* ===== verification/PageHeapInv.v ===== *)
(** * The page heap's invariant

    The invariant has four independent parts: the geometry of the spans
    and the page map, the free lists, the statistics, and the state of the
    lower layers. [X] is the set of descriptors that are off their list in
    the middle of an operation and [d] the bytes that are neither counted
    as unmapped nor as committed there; both are empty between operations. *)
From Stdlib Require Import Sorting.Sorted.
From S2P Require Import Prelude Common PageMap Span SysEnv PageHeap.
Import PH.

(** ** Sums over descriptors *)

Definition msum (w : Z -> Span -> Z) (S : gmap Z Span) : Z :=
  map_fold (fun p s acc => acc + w p s) 0 S.

Lemma msum_insert w S p s : S !! p = None -> msum w (<[p := s]> S) = msum w S + w p s.
Proof.
  intros Hp. unfold msum. rewrite map_fold_insert_L; [done| |done]. intros. lia.
Qed.
Lemma msum_delete w S p s : S !! p = Some s -> msum w (delete p S) = msum w S - w p s.
Proof.
  intros Hp. rewrite <- (insert_delete_id S p s Hp) at 2.
  rewrite msum_insert by apply lookup_delete_eq. lia.
Qed.
Lemma msum_update w S p s s' : S !! p = Some s ->
  msum w (<[p := s']> S) = msum w S - w p s + w p s'.
Proof.
  intros Hp. rewrite <- insert_delete_eq, msum_insert by apply lookup_delete_eq.
  by rewrite (msum_delete w S p s).
Qed.
Lemma msum_ext w w' S : (forall p s, S !! p = Some s -> w p s = w' p s) -> msum w S = msum w' S.
Proof.
  induction S as [|p s S Hp IH] using map_ind; intros Hw; [done|].
  rewrite !msum_insert by done. rewrite (Hw p s) by apply lookup_insert_eq.
  rewrite IH; [done|]. intros q t Hq. apply Hw. rewrite lookup_insert_ne; [done|congruence].
Qed.
Lemma msum_nonneg w S : (forall p s, S !! p = Some s -> 0 <= w p s) -> 0 <= msum w S.
Proof.
  induction S as [|p s S Hp IH] using map_ind; intros Hw; [done|].
  rewrite msum_insert by done. pose proof (Hw p s (lookup_insert_eq _ _ _)).
  enough (0 <= msum w S) by lia. apply IH. intros q t Hq. apply (Hw q t).
  rewrite lookup_insert_ne; [done|congruence].
Qed.
Lemma msum_exists w S : msum w S <> 0 -> exists p s, S !! p = Some s /\ w p s <> 0.
Proof.
  induction S as [|p s S Hp IH] using map_ind; intros Hw; [done|].
  rewrite msum_insert in Hw by done. destruct (decide (w p s = 0)) as [Hz|Hz].
  - destruct IH as (q & t & Hq & ?); [lia|]. exists q, t. split; [|done].
    rewrite lookup_insert_ne; [done|congruence].
  - exists p, s. by rewrite lookup_insert_eq.
Qed.
Lemma msum_size S : msum (fun _ _ => 1) S = Z.of_nat (size S).
Proof.
  induction S as [|p s S Hp IH] using map_ind; [done|].
  rewrite msum_insert, map_size_insert_None by done. lia.
Qed.
Lemma msum_le w w' S : (forall p s, S !! p = Some s -> w p s <= w' p s) -> msum w S <= msum w' S.
Proof.
  induction S as [|p s S Hp IH] using map_ind; intros Hw; [done|].
  rewrite !msum_insert by done. pose proof (Hw p s (lookup_insert_eq _ _ _)).
  enough (msum w S <= msum w' S) by lia. apply IH. intros q t Hq. apply Hw.
  rewrite lookup_insert_ne; [done|congruence].
Qed.

(** ** Geometry

    [g] is the page map, [ens] the pages it can hold, [T] the pages
    obtained from the system. *)
Record geo (S : gmap Z Span) (g : Z -> Z) (ens : Z -> Prop) (T : gset Z) : Prop := {
  geo_wf : forall p s, S !! p = Some s ->
    p <> 0 /\ 1 <= start s /\ 1 <= length_ s /\ start s + length_ s < 2 ^ 36;
  geo_taken : forall p s pg, S !! p = Some s -> in_span s pg -> pg ∈ T;
  geo_disj : forall p q s t pg, S !! p = Some s -> S !! q = Some t ->
    in_span s pg -> in_span t pg -> p = q;
  geo_first : forall p s, S !! p = Some s -> g (start s) = p;
  geo_last : forall p s, S !! p = Some s -> g (start s + length_ s - 1) = p;
  geo_ens : forall p s pg, S !! p = Some s -> start s - 1 <= pg <= start s + length_ s -> ens pg;
  geo_cover : forall pg, g pg <> 0 -> exists p s, S !! p = Some s /\ in_span s pg }.

Lemma geo_mono S g g' (ens ens' : Z -> Prop) T T' :
  geo S g ens T -> (forall k, g' k = g k) -> (forall k, ens k -> ens' k) -> T ⊆ T' ->
  geo S g' ens' T'.
Proof.
  intros [] Hg He HT. constructor; try done; intros; rewrite ?Hg; eauto.
  apply geo_cover0. by rewrite <- Hg.
Qed.

Lemma elem_seqZ_taken (T : gset Z) a n :
  (forall pg, a <= pg < a + n -> pg ∈ T) -> n <= Z.of_nat (size T).
Proof.
  intros H. destruct (Z.le_gt_cases n 0); [lia|].
  assert (list_to_set (seqZ a n) ⊆ T) as Hs.
  { intros x Hx%elem_of_list_to_set. apply H. rewrite elem_of_seqZ in Hx. lia. }
  apply subseteq_size in Hs. rewrite size_list_to_set, length_seqZ in Hs by apply NoDup_seqZ. lia.
Qed.

Lemma geo_small S g ens T p s : geo S g ens T -> Z.of_nat (size T) < 2 ^ 31 ->
  S !! p = Some s -> length_ s < 2 ^ 31.
Proof.
  intros HG HT Hp. enough (length_ s <= Z.of_nat (size T)) by lia.
  apply (elem_seqZ_taken T (start s)). intros pg Hpg. by apply (geo_taken _ _ _ _ HG p s).
Qed.

(** Distinct spans have distinct starts. *)
Lemma geo_starts S g ens T p q s t : geo S g ens T ->
  S !! p = Some s -> S !! q = Some t -> q <> p -> start t <> start s.
Proof.
  intros HG Hp Hq Hne E. apply Hne. symmetry.
  destruct (geo_wf _ _ _ _ HG p s Hp), (geo_wf _ _ _ _ HG q t Hq).
  eapply (geo_disj _ _ _ _ HG p q s t (start s)); [done|done| |]; unfold in_span; lia.
Qed.

(** The page map finds the neighbours of a span. *)
Lemma geo_prev S g ens T p s q : geo S g ens T -> S !! p = Some s ->
  g (start s - 1) = q -> q <> 0 ->
  exists o, S !! q = Some o /\ q <> p /\ start o + length_ o = start s.
Proof.
  intros HG Hp Hq Hq0. destruct (geo_cover _ _ _ _ HG (start s - 1)) as (r & o & Hr & Ho); [congruence|].
  unfold in_span in Ho. destruct (geo_wf _ _ _ _ HG p s Hp) as (_ & _ & ? & _).
  assert (r <> p) as Hrp by (intros ->; simplify_eq; lia).
  assert (start o + length_ o = start s) as Hadj.
  { destruct (Z.eq_dec (start o + length_ o) (start s)); [done|]. exfalso. apply Hrp.
    apply (geo_disj _ _ _ _ HG r p o s (start s)); [done|done| |]; unfold in_span; lia. }
  pose proof (geo_last _ _ _ _ HG r o Hr) as Hl.
  replace (start o + length_ o - 1) with (start s - 1) in Hl by lia.
  assert (q = r) as -> by congruence. eauto.
Qed.
Lemma geo_next S g ens T p s q : geo S g ens T -> S !! p = Some s ->
  g (start s + length_ s) = q -> q <> 0 ->
  exists o, S !! q = Some o /\ q <> p /\ start o = start s + length_ s.
Proof.
  intros HG Hp Hq Hq0.
  destruct (geo_cover _ _ _ _ HG (start s + length_ s)) as (r & o & Hr & Ho); [congruence|].
  unfold in_span in Ho. destruct (geo_wf _ _ _ _ HG p s Hp) as (_ & _ & ? & _).
  assert (r <> p) as Hrp by (intros ->; simplify_eq; lia).
  assert (start o = start s + length_ s) as Hadj.
  { destruct (Z.eq_dec (start o) (start s + length_ s)); [done|]. exfalso. apply Hrp.
    apply (geo_disj _ _ _ _ HG r p o s (start s + length_ s - 1)); [done|done| |]; unfold in_span; lia. }
  pose proof (geo_first _ _ _ _ HG r o Hr) as Hl. rewrite Hadj in Hl.
  assert (q = r) as -> by congruence. eauto.
Qed.

(** Replacing the descriptors of [A] by others over the same pages, or
    over pages the heap did not have. *)
Section Update.
Context (S S' : gmap Z Span) (g g' : Z -> Z) (ens ens' : Z -> Prop) (T T' : gset Z) (A : gset Z).
Hypothesis HG : geo S g ens T.
Hypothesis HT : T ⊆ T'.
Hypothesis Hens : forall k, ens k -> ens' k.
Hypothesis Hout : forall q, q ∉ A -> S' !! q = S !! q.
Hypothesis Hwf : forall q t, q ∈ A -> S' !! q = Some t ->
  (q <> 0 /\ 1 <= start t /\ 1 <= length_ t /\ start t + length_ t < 2 ^ 36) /\
  (forall pg, in_span t pg -> pg ∈ T') /\
  g' (start t) = q /\ g' (start t + length_ t - 1) = q /\
  (forall pg, start t - 1 <= pg <= start t + length_ t -> ens' pg).
Hypothesis Hdisj : forall q r t u pg, q ∈ A -> r ∈ A -> S' !! q = Some t -> S' !! r = Some u ->
  in_span t pg -> in_span u pg -> q = r.
Hypothesis Hold : forall q t pg, q ∈ A -> S' !! q = Some t -> in_span t pg ->
  pg ∉ T \/ exists r u, r ∈ A /\ S !! r = Some u /\ in_span u pg.
Hypothesis Hnew : forall r u pg, r ∈ A -> S !! r = Some u -> in_span u pg ->
  exists q t, q ∈ A /\ S' !! q = Some t /\ in_span t pg.
Hypothesis Hg : forall k, g' k = g k \/ exists q t, q ∈ A /\ S' !! q = Some t /\ in_span t k.

Lemma update_apart q r t u pg : q ∉ A -> r ∈ A -> S !! q = Some t -> S' !! r = Some u ->
  in_span t pg -> in_span u pg -> False.
Proof using All.
  intros Hq Hr Hst Hsu Ht Hu. destruct (Hold r u pg Hr Hsu Hu) as [Hn|(r' & u' & Hr' & Hsr & Hu')].
  - by apply Hn, (geo_taken _ _ _ _ HG q t).
  - apply Hq. by rewrite (geo_disj _ _ _ _ HG q r' t u' pg).
Qed.

Lemma update_g q t pg : q ∉ A -> S !! q = Some t -> in_span t pg -> g' pg = g pg.
Proof using All.
  intros Hq Hst Ht. destruct (Hg pg) as [|(r & u & Hr & Hu & Hin)]; [done|].
  destruct (update_apart q r t u pg); done.
Qed.

Lemma geo_update : geo S' g' ens' T'.
Proof using All.
  assert (forall q t, S' !! q = Some t -> q ∉ A -> S !! q = Some t) as Hback
    by (intros q t Hq Hn; by rewrite <- Hout).
  constructor.
  - intros p s Hp. destruct (decide (p ∈ A)); [by apply Hwf|].
    apply (geo_wf _ _ _ _ HG). auto.
  - intros p s pg Hp Hpg. destruct (decide (p ∈ A)); [by eapply Hwf|].
    apply HT. eapply (geo_taken _ _ _ _ HG p s); auto.
  - intros p q s t pg Hp Hq Hs Ht.
    destruct (decide (p ∈ A)), (decide (q ∈ A)).
    + by eapply (Hdisj p q s t pg).
    + exfalso. by eapply (update_apart q p t s pg); auto.
    + exfalso. by eapply (update_apart p q s t pg); auto.
    + eapply (geo_disj _ _ _ _ HG p q s t pg); auto.
  - intros p s Hp. destruct (decide (p ∈ A)); [by apply Hwf|].
    destruct (geo_wf _ _ _ _ HG p s); [auto|].
    rewrite (update_g p s) by (auto; unfold in_span; lia). apply (geo_first _ _ _ _ HG); auto.
  - intros p s Hp. destruct (decide (p ∈ A)); [by apply Hwf|].
    destruct (geo_wf _ _ _ _ HG p s); [auto|].
    rewrite (update_g p s) by (auto; unfold in_span; lia). apply (geo_last _ _ _ _ HG); auto.
  - intros p s pg Hp Hpg. destruct (decide (p ∈ A)); [by eapply Hwf|].
    apply Hens, (geo_ens _ _ _ _ HG p s); auto.
  - intros pg Hpg. destruct (Hg pg) as [E|(q & t & _ & Hq & Ht)]; [|eauto].
    destruct (geo_cover _ _ _ _ HG pg) as (p & s & Hp & Hs); [congruence|].
    destruct (decide (p ∈ A)) as [HA|HA].
    + destruct (Hnew p s pg HA Hp Hs) as (q & t & _ & ? & ?). eauto.
    + exists p, s. by rewrite Hout.
Qed.
End Update.

(** Changes that keep start and length. *)
Lemma geo_similar S g ens T p s s' : geo S g ens T -> S !! p = Some s ->
  start s' = start s -> length_ s' = length_ s -> geo (<[p := s']> S) g ens T.
Proof.
  intros HG Hp Hst Hlen.
  pose proof (geo_wf _ _ _ _ HG p s Hp) as Hw.
  assert (forall q t, q ∈ ({[p]} : gset Z) -> <[p := s']> S !! q = Some t -> q = p /\ t = s') as H1.
  { intros q t ->%elem_of_singleton. rewrite lookup_insert_eq. naive_solver. }
  apply (geo_update S _ g g ens ens T T {[p]}); try done.
  - intros q Hq. rewrite lookup_insert_ne; [done|set_solver].
  - intros q t Hq Ht. destruct (H1 q t Hq Ht) as [-> ->]. rewrite Hst, Hlen. split; [done|].
    split_and!.
    + intros pg. unfold in_span. rewrite Hst, Hlen. apply (geo_taken _ _ _ _ HG p s pg Hp).
    + by apply (geo_first _ _ _ _ HG).
    + by apply (geo_last _ _ _ _ HG).
    + intros pg. by apply (geo_ens _ _ _ _ HG p s).
  - set_solver.
  - intros q t pg Hq Ht. destruct (H1 q t Hq Ht) as [-> ->]. right. exists p, s.
    unfold in_span in *. rewrite <- Hst, <- Hlen. set_solver.
  - intros r u pg Hr Hu. apply elem_of_singleton in Hr as ->. simplify_eq. intros.
    exists p, s'. rewrite lookup_insert_eq. unfold in_span in *. rewrite Hst, Hlen. set_solver.
  - auto.
Qed.

(** [p] keeps the first [n] pages, the new descriptor [r] gets the rest. *)
Lemma geo_split S g g' ens T p r s s' t n : geo S g ens T -> S !! p = Some s ->
  0 < n < length_ s -> S !! r = None -> r <> 0 ->
  start s' = start s -> length_ s' = n -> start t = start s + n -> length_ t = length_ s - n ->
  g' (start s + n - 1) = p -> g' (start s + n) = r -> g' (start s + length_ s - 1) = r ->
  (forall k, k <> start s + n - 1 -> k <> start s + n -> k <> start s + length_ s - 1 -> g' k = g k) ->
  geo (<[r := t]> (<[p := s']> S)) g' ens T.
Proof.
  intros HG Hp Hn Hr Hr0 Hs1 Hs2 Ht1 Ht2 Hg1 Hg2 Hg3 Hg4.
  pose proof (geo_wf _ _ _ _ HG p s Hp) as Hw.
  assert (p <> r) as Hpr by congruence.
  assert (forall q u, q ∈ ({[p; r]} : gset Z) -> <[r := t]> (<[p := s']> S) !! q = Some u ->
    (q = p /\ u = s') \/ (q = r /\ u = t)) as H1.
  { intros q u [->%elem_of_singleton| ->%elem_of_singleton]%elem_of_union.
    - rewrite lookup_insert_ne, lookup_insert_eq by done. naive_solver.
    - rewrite lookup_insert_eq. naive_solver. }
  assert (forall pg, in_span s' pg \/ in_span t pg <-> in_span s pg) as Hpg
    by (unfold in_span; rewrite Hs1, Hs2, Ht1, Ht2; lia).
  apply (geo_update S _ g g' ens ens T T {[p; r]}); try done.
  - intros q Hq. rewrite !lookup_insert_ne; set_solver.
  - intros q u Hq Hu. split; [|split_and!].
    + destruct (H1 q u Hq Hu) as [[-> ->]|[-> ->]]; rewrite ?Hs1, ?Hs2, ?Ht1, ?Ht2; lia.
    + intros pg Hin. apply (geo_taken _ _ _ _ HG p s pg Hp), Hpg.
      destruct (H1 q u Hq Hu) as [[-> ->]|[-> ->]]; auto.
    + destruct (H1 q u Hq Hu) as [[-> ->]|[-> ->]]; [|by rewrite Ht1]. rewrite Hs1.
      destruct (Z.eq_dec (start s) (start s + n - 1)) as [E|E]; [by rewrite E|].
      rewrite Hg4 by lia. by apply (geo_first _ _ _ _ HG).
    + destruct (H1 q u Hq Hu) as [[-> ->]|[-> ->]]; [by rewrite Hs1, Hs2|].
      rewrite Ht1, Ht2, <- Hg3. f_equal. lia.
    + intros pg Hin. apply (geo_ens _ _ _ _ HG p s pg Hp).
      destruct (H1 q u Hq Hu) as [[-> ->]|[-> ->]]; lia.
  - intros q1 q2 u1 u2 pg Hq1 Hq2 Hu1 Hu2. unfold in_span.
    destruct (H1 q1 u1 Hq1 Hu1) as [[-> ->]|[-> ->]], (H1 q2 u2 Hq2 Hu2) as [[-> ->]|[-> ->]];
      try done; lia.
  - intros q u pg Hq Hu Hin. right. exists p, s. split; [set_solver|]. split; [done|]. apply Hpg.
    destruct (H1 q u Hq Hu) as [[-> ->]|[-> ->]]; auto.
  - intros q u pg Hq Hu Hin. assert (u = s) as ->.
    { apply elem_of_union in Hq as [E|E]; apply elem_of_singleton in E; congruence. }
    apply Hpg in Hin as [Hin|Hin]; [exists p, s'|exists r, t]; (split; [set_solver|]);
      (split; [|done]); [by rewrite lookup_insert_ne, lookup_insert_eq|by rewrite lookup_insert_eq].
  - intros k.
    destruct (decide (k = start s + n - 1 \/ k = start s + n \/ k = start s + length_ s - 1));
      [right|left; apply Hg4; lia].
    assert (in_span s k) as [?|?]%Hpg by (unfold in_span; lia); [exists p, s'|exists r, t];
      (split; [set_solver|]); (split; [|done]);
      [by rewrite lookup_insert_ne, lookup_insert_eq|by rewrite lookup_insert_eq].
Qed.

(** [p] takes over the pages of its neighbour [q]. *)
Lemma geo_merge S g g' ens T p q s o s' : geo S g ens T -> S !! p = Some s -> S !! q = Some o ->
  q <> p -> start s' = Z.min (start s) (start o) -> length_ s' = length_ s + length_ o ->
  start o + length_ o = start s \/ start s + length_ s = start o ->
  g' (start s') = p -> g' (start s' + length_ s' - 1) = p ->
  (forall k, k <> start s' -> k <> start s' + length_ s' - 1 -> g' k = g k) ->
  geo (<[p := s']> (delete q S)) g' ens T.
Proof.
  intros HG Hp Hq Hne Hs1 Hs2 Hadj Hg1 Hg2 Hg3.
  pose proof (geo_wf _ _ _ _ HG p s Hp) as Hw. pose proof (geo_wf _ _ _ _ HG q o Hq) as Hwo.
  assert (forall r u, r ∈ ({[p; q]} : gset Z) -> <[p := s']> (delete q S) !! r = Some u ->
    r = p /\ u = s') as H1.
  { intros r u [->%elem_of_singleton| ->%elem_of_singleton]%elem_of_union.
    - rewrite lookup_insert_eq. naive_solver.
    - rewrite lookup_insert_ne, lookup_delete_eq by done. done. }
  assert (forall pg, in_span s' pg <-> in_span s pg \/ in_span o pg) as Hpg
    by (unfold in_span; rewrite Hs1, Hs2; lia).
  apply (geo_update S _ g g' ens ens T T {[p; q]}); try done.
  - intros r Hr. rewrite lookup_insert_ne, lookup_delete_ne; set_solver.
  - intros r u Hr Hu. destruct (H1 r u Hr Hu) as [-> ->]. split; [lia|]. split_and!; try done.
    + intros pg [Hin|Hin]%Hpg; [by apply (geo_taken _ _ _ _ HG p s)|by apply (geo_taken _ _ _ _ HG q o)].
    + intros pg Hin. destruct (decide (start s - 1 <= pg <= start s + length_ s)).
      * by apply (geo_ens _ _ _ _ HG p s).
      * apply (geo_ens _ _ _ _ HG q o); [done|lia].
  - intros r1 r2 u1 u2 pg Hr1 Hr2 Hu1 Hu2 _ _.
    destruct (H1 _ _ Hr1 Hu1) as [-> _], (H1 _ _ Hr2 Hu2) as [-> _]. done.
  - intros r u pg Hr Hu Hin. destruct (H1 r u Hr Hu) as [-> ->]. right.
    apply Hpg in Hin as [?|?]; [exists p, s|exists q, o]; set_solver.
  - intros r u pg Hr Hu Hin. exists p, s'. split; [set_solver|]. rewrite lookup_insert_eq.
    split; [done|]. apply Hpg.
    apply elem_of_union in Hr as [->%elem_of_singleton| ->%elem_of_singleton]; simplify_eq; auto.
  - intros k. destruct (decide (k = start s' \/ k = start s' + length_ s' - 1)) as [Hk|Hk];
      [right|left; apply Hg3; lia].
    exists p, s'. rewrite lookup_insert_eq. split; [set_solver|]. split; [done|].
    unfold in_span. lia.
Qed.

(** A new span over pages just obtained. *)
Lemma geo_insert S g g' (ens ens' : Z -> Prop) T T' p s : geo S g ens T -> S !! p = None -> p <> 0 ->
  T ⊆ T' -> (forall k, ens k -> ens' k) ->
  1 <= start s -> 1 <= length_ s -> start s + length_ s < 2 ^ 36 ->
  (forall pg, in_span s pg -> pg ∉ T /\ pg ∈ T') ->
  (forall pg, start s - 1 <= pg <= start s + length_ s -> ens' pg) ->
  g' (start s) = p -> g' (start s + length_ s - 1) = p ->
  (forall k, k <> start s -> k <> start s + length_ s - 1 -> g' k = g k) ->
  geo (<[p := s]> S) g' ens' T'.
Proof.
  intros HG Hp Hp0 HT He H1 H2 H3 Hpg Hens Hg1 Hg2 Hg3.
  assert (forall q t, q ∈ ({[p]} : gset Z) -> <[p := s]> S !! q = Some t -> q = p /\ t = s) as Hq.
  { intros q t ->%elem_of_singleton. rewrite lookup_insert_eq. naive_solver. }
  apply (geo_update S _ g g' ens ens' T T' {[p]}); try done.
  - intros q Hq'. rewrite lookup_insert_ne; [done|set_solver].
  - intros q t Hin Ht. destruct (Hq q t Hin Ht) as [-> ->]. split_and!; try done.
    intros pg Hpg'. by apply Hpg.
  - intros q r t u pg Hi1 Hi2 Ht Hu _ _. destruct (Hq q t Hi1 Ht), (Hq r u Hi2 Hu). congruence.
  - intros q t pg Hin Ht Hs. destruct (Hq q t Hin Ht) as [-> ->]. left. by apply Hpg.
  - intros q t pg ->%elem_of_singleton. congruence.
  - intros k. destruct (decide (k = start s \/ k = start s + length_ s - 1)) as [Hk|Hk];
      [right|left; apply Hg3; lia].
    exists p, s. rewrite lookup_insert_eq. split; [set_solver|]. split; [done|].
    unfold in_span. lia.
Qed.

(** ** The ordered sets and the lists *)

Definition less (a b : SpanPtrWithLength) : Prop := SpanBestFitLess a b = true.

Lemma less_spec a b : less a b <->
  e_length a < e_length b \/ (e_length a = e_length b /\ e_start a < e_start b).
Proof.
  unfold less, SpanBestFitLess. destruct (Z.ltb_spec (e_length a) (e_length b)); [split; [lia|done]|].
  rewrite Z.gtb_ltb. destruct (Z.ltb_spec (e_length b) (e_length a)); [split; [done|lia]|].
  rewrite Z.ltb_lt. lia.
Qed.
Lemma less_false a b : SpanBestFitLess a b = false <-> ~ less a b.
Proof. unfold less. destruct (SpanBestFitLess a b); split; congruence. Qed.

Lemma set_insert_elem e l x : (forall y, y ∈ l -> less e y \/ less y e) ->
  x ∈ set_insert e l <-> x = e \/ x ∈ l.
Proof.
  induction l as [|y l IH]; intros Hd; simpl; [set_solver|].
  destruct (SpanBestFitLess e y) eqn:E1; [set_solver|].
  destruct (SpanBestFitLess y e) eqn:E2.
  - rewrite elem_of_cons, IH; set_solver.
  - apply less_false in E1, E2. destruct (Hd y); [set_solver|done|done].
Qed.

Lemma set_insert_sorted e l : StronglySorted less l -> StronglySorted less (set_insert e l).
Proof.
  induction 1 as [|y l Hs IH Hy]; simpl; [by repeat constructor|].
  destruct (SpanBestFitLess e y) eqn:E1; [|destruct (SpanBestFitLess y e) eqn:E2].
  - constructor; [by constructor|]. constructor; [done|].
    rewrite Forall_forall in *. intros z Hz. specialize (Hy z Hz).
    rewrite less_spec in *. apply less_spec in E1. lia.
  - constructor; [done|]. rewrite Forall_forall in *. intros z Hz.
    assert (z = e \/ z ∈ l) as [->|?]; [|done|by apply Hy].
    clear -Hz. induction l as [|w l IH]; simpl in *; [set_solver|].
    destruct (SpanBestFitLess e w), (SpanBestFitLess w e); set_solver.
  - by constructor.
Qed.

Lemma less_sorted_nodup l : StronglySorted less l -> NoDup l.
Proof.
  induction 1 as [|y l Hs IH Hy]; constructor; [|done]. intros Hin.
  rewrite Forall_forall in Hy. specialize (Hy y Hin). rewrite less_spec in Hy. lia.
Qed.

Lemma set_erase_ok p l e : StronglySorted less l -> e ∈ l -> e_span e = p ->
  (forall x, x ∈ l -> e_span x = p -> x = e) ->
  exists l', set_erase p l = Some l' /\ StronglySorted less l' /\
    forall x, x ∈ l' <-> x ∈ l /\ e_span x <> p.
Proof.
  intros Hs He Hp Hu. pose proof (less_sorted_nodup _ Hs) as Hnd.
  induction l as [|y l IH]; [set_solver|]. simpl.
  apply NoDup_cons in Hnd as [Hy Hnd]. inversion Hs as [|?? Hsl Hyl]; subst.
  destruct (Z.eqb_spec (e_span y) (e_span e)) as [E|E].
  - assert (y = e) as -> by (apply Hu; [left|done]). exists l. split; [done|]. split; [done|].
    intros x. split; [|set_solver]. intros Hx. split; [set_solver|]. intros Hxe.
    rewrite (Hu x) in Hx; [done|by right|done].
  - destruct IH as (l' & -> & Hs' & Hm); [done|set_solver|set_solver|done|].
    exists (y :: l'). split; [done|]. split.
    + constructor; [done|]. rewrite Forall_forall in *. intros x [Hx _]%Hm. auto.
    + intros x. rewrite !elem_of_cons, Hm. naive_solver.
Qed.

Lemma list_remove_ok p l : NoDup l -> p ∈ l ->
  exists l', list_remove_ p l = Some l' /\ NoDup l' /\ forall x, x ∈ l' <-> x ∈ l /\ x <> p.
Proof.
  induction l as [|y l IH]; [set_solver|]. intros [Hy Hnd]%NoDup_cons Hp. simpl.
  destruct (Z.eqb_spec y p) as [->|E].
  - exists l. split; [done|]. split; [done|]. set_solver.
  - destruct IH as (l' & -> & Hnd' & Hm); [done|set_solver|].
    exists (y :: l'). split; [done|]. split; [constructor; [rewrite Hm; set_solver|done]|].
    intros x. rewrite !elem_of_cons, Hm. naive_solver.
Qed.

(** The free spans that are on their list. *)
Definition listed (X : gset Z) (S : gmap Z Span) : gmap Z Span :=
  filter (fun x => x.1 ∉ X /\ location x.2 <> IN_USE) S.

Lemma listed_Some X S p s :
  listed X S !! p = Some s <-> S !! p = Some s /\ p ∉ X /\ location s <> IN_USE.
Proof. apply map_lookup_filter_Some. Qed.

(** Only what is listed matters. *)
Lemma listed_eq X X' S S' :
  (forall p s, S !! p = Some s /\ p ∉ X /\ location s <> IN_USE <->
     S' !! p = Some s /\ p ∉ X' /\ location s <> IN_USE) -> listed X S = listed X' S'.
Proof.
  intros H. apply map_eq. intros p. apply option_eq. intros s. by rewrite !listed_Some.
Qed.

(** [F] and [L] hold the spans of [V]. *)
Record lists (V : gmap Z Span) (F : location_t -> Z -> list Z)
    (L : location_t -> list SpanPtrWithLength) : Prop := {
  ls_nodup : forall loc i, NoDup (F loc i);
  ls_mem : forall loc i p, loc <> IN_USE -> p ∈ F loc i <->
    exists s, V !! p = Some s /\ location s = loc /\ length_ s = i + 1 /\ length_ s <= kMaxPages;
  ls_sorted : forall loc, StronglySorted less (L loc);
  ls_large : forall loc e, loc <> IN_USE -> e ∈ L loc <->
    exists s, V !! e_span e = Some s /\ location s = loc /\
      e = mkEntry (e_span e) (length_ s) (start s) /\ kMaxPages < length_ s }.

(** [F'] is [F] with one list replaced; the same for the sets. *)
Definition set_F (F : location_t -> Z -> list Z) loc i l : location_t -> Z -> list Z :=
  fun loc' j => if decide (loc' = loc /\ j = i) then l else F loc' j.
Definition set_L (L : location_t -> list SpanPtrWithLength) loc l : location_t -> list SpanPtrWithLength :=
  fun loc' => if decide (loc' = loc) then l else L loc'.

Lemma lists_prepend_small V F L p s : lists V F L -> V !! p = None -> location s <> IN_USE ->
  length_ s <= kMaxPages ->
  lists (<[p := s]> V) (set_F F (location s) (length_ s - 1) (p :: F (location s) (length_ s - 1))) L.
Proof.
  intros [] Hp Hloc Hlen. constructor; try done.
  - intros loc i. unfold set_F. destruct (decide _) as [_|]; [|done].
    constructor; [|done]. rewrite ls_mem0 by done. intros (t & ? & _). congruence.
  - intros loc i q Hl. unfold set_F. destruct (decide _) as [[-> ->]|Hn].
    + rewrite elem_of_cons, ls_mem0 by done. split.
      * intros [->|(t & Ht & Hr)]; [exists s; rewrite lookup_insert_eq; split_and!; [done|done|lia|done]|].
        exists t. rewrite lookup_insert_ne by congruence. done.
      * destruct (decide (q = p)) as [->|]; [by left|]. rewrite lookup_insert_ne by done. by right.
    + rewrite ls_mem0 by done. destruct (decide (q = p)) as [->|]; [|by rewrite lookup_insert_ne].
      rewrite Hp, lookup_insert_eq. split; [by intros (? & ? & _)|].
      intros (t & [= <-] & ? & ? & _). destruct Hn. split; [done|lia].
  - intros loc e Hl. rewrite ls_large0 by done. destruct (decide (e_span e = p)) as [->|];
      [|by rewrite lookup_insert_ne]. rewrite Hp, lookup_insert_eq.
    split; [by intros (? & ? & _)|]. intros (t & [= <-] & ? & ? & ?); lia.
Qed.

Lemma lists_prepend_large V F L p s : lists V F L -> V !! p = None -> location s <> IN_USE ->
  kMaxPages < length_ s -> (forall q t, V !! q = Some t -> start t <> start s) ->
  lists (<[p := s]> V) F
    (set_L L (location s) (set_insert (mkEntry p (length_ s) (start s)) (L (location s)))).
Proof.
  intros [] Hp Hloc Hlen Hst.
  assert (forall y, y ∈ L (location s) -> less (mkEntry p (length_ s) (start s)) y \/
    less y (mkEntry p (length_ s) (start s))) as Hd.
  { intros y (t & Ht & _ & -> & _)%ls_large0; [|done]. rewrite !less_spec. simpl.
    pose proof (Hst _ _ Ht). lia. }
  constructor; try done.
  - intros loc i q Hl. rewrite ls_mem0 by done.
    destruct (decide (q = p)) as [->|]; [|by rewrite lookup_insert_ne].
    rewrite Hp, lookup_insert_eq. split; [by intros (? & ? & _)|]. intros (t & [= <-] & ? & ? & ?); lia.
  - intros loc. unfold set_L. destruct (decide _); [by apply set_insert_sorted|done].
  - intros loc e Hl. unfold set_L. destruct (decide _) as [->|Hn].
    + rewrite set_insert_elem, ls_large0 by done. split.
      * intros [->|(t & Ht & Hr)]; simpl; [exists s; by rewrite lookup_insert_eq|].
        exists t. rewrite lookup_insert_ne by congruence. done.
      * destruct (decide (e_span e = p)) as [E|]; [|rewrite lookup_insert_ne by done; by right].
        rewrite E, lookup_insert_eq. intros (t & [= <-] & _ & -> & _). by left.
    + rewrite ls_large0 by done. destruct (decide (e_span e = p)) as [->|];
        [|by rewrite lookup_insert_ne]. rewrite Hp, lookup_insert_eq.
      split; [by intros (? & ? & _)|]. intros (t & [= <-] & ? & _). congruence.
Qed.

Lemma lists_remove_small V F L p s l : lists V F L -> V !! p = Some s -> location s <> IN_USE ->
  length_ s <= kMaxPages -> list_remove_ p (F (location s) (length_ s - 1)) = Some l ->
  NoDup l -> (forall x, x ∈ l <-> x ∈ F (location s) (length_ s - 1) /\ x <> p) ->
  lists (delete p V) (set_F F (location s) (length_ s - 1) l) L.
Proof.
  intros [] Hp Hloc Hlen _ Hnd Hm. constructor; try done.
  - intros loc i. unfold set_F. by destruct (decide _).
  - intros loc i q Hl. unfold set_F. destruct (decide _) as [[-> ->]|Hn].
    + rewrite Hm, ls_mem0 by done. destruct (decide (q = p)) as [->|].
      * rewrite lookup_delete_eq. split; [by intros [_ ?]|by intros (? & ? & _)].
      * rewrite lookup_delete_ne by done. naive_solver.
    + rewrite ls_mem0 by done. destruct (decide (q = p)) as [->|]; [|by rewrite lookup_delete_ne].
      rewrite lookup_delete_eq. split; [|by intros (? & ? & _)].
      intros (t & ? & ? & ? & _). simplify_eq. destruct Hn. split; [done|lia].
  - intros loc e Hl. rewrite ls_large0 by done. destruct (decide (e_span e = p)) as [->|];
      [|by rewrite lookup_delete_ne]. rewrite lookup_delete_eq.
    split; [|by intros (? & ? & _)]. intros (t & ? & _ & _ & ?). simplify_eq. lia.
Qed.

Lemma lists_remove_large V F L p s l : lists V F L -> V !! p = Some s -> location s <> IN_USE ->
  kMaxPages < length_ s -> StronglySorted less l ->
  (forall x, x ∈ l <-> x ∈ L (location s) /\ e_span x <> p) ->
  lists (delete p V) F (set_L L (location s) l).
Proof.
  intros [] Hp Hloc Hlen Hs Hm. constructor; try done.
  - intros loc i q Hl. rewrite ls_mem0 by done.
    destruct (decide (q = p)) as [->|]; [|by rewrite lookup_delete_ne].
    rewrite lookup_delete_eq. split; [|by intros (? & ? & _)].
    intros (t & ? & _ & _ & ?). simplify_eq. lia.
  - intros loc. unfold set_L. by destruct (decide _).
  - intros loc e Hl. unfold set_L. destruct (decide _) as [->|Hn].
    + rewrite Hm, ls_large0 by done. destruct (decide (e_span e = p)) as [->|].
      * rewrite lookup_delete_eq. split; [by intros [_ ?]|by intros (? & ? & _)].
      * rewrite lookup_delete_ne by done. naive_solver.
    + rewrite ls_large0 by done. destruct (decide (e_span e = p)) as [->|];
        [|by rewrite lookup_delete_ne]. rewrite lookup_delete_eq.
      split; [|by intros (? & ? & _)]. intros (t & ? & ? & _). simplify_eq.
Qed.

(** The lists find every listed span. *)
Lemma lists_find_small V F L p s : lists V F L -> V !! p = Some s -> location s <> IN_USE ->
  length_ s <= kMaxPages ->
  exists l, list_remove_ p (F (location s) (length_ s - 1)) = Some l /\
    lists (delete p V) (set_F F (location s) (length_ s - 1) l) L.
Proof.
  intros HL Hp Hloc Hlen.
  destruct (list_remove_ok p (F (location s) (length_ s - 1))) as (l & Hl & Hnd & Hm).
  { by apply (ls_nodup _ _ _ HL). }
  { apply (ls_mem _ _ _ HL); [done|]. exists s. split_and!; try done. lia. }
  exists l. split; [done|]. by eapply lists_remove_small.
Qed.
Lemma lists_find_large V F L p s : lists V F L -> V !! p = Some s -> location s <> IN_USE ->
  kMaxPages < length_ s ->
  exists l, set_erase p (L (location s)) = Some l /\
    lists (delete p V) F (set_L L (location s) l).
Proof.
  intros HL Hp Hloc Hlen.
  destruct (set_erase_ok p (L (location s)) (mkEntry p (length_ s) (start s))) as (l & Hl & Hs & Hm).
  { by apply (ls_sorted _ _ _ HL). }
  { apply (ls_large _ _ _ HL); [done|]. by exists s. }
  { done. }
  { intros x (t & Ht & _ & -> & _)%(ls_large _ _ _ HL) Hx; [|done]. simpl in *. by simplify_eq. }
  exists l. split; [done|]. by eapply lists_remove_large.
Qed.

(** ** Statistics *)

Definition pages_on (loc : location_t) (V : gmap Z Span) : Z :=
  msum (fun _ s => if decide (location s = loc) then length_ s else 0) V.

Record books (V : gmap Z Span) (d : Z) (st : Stats) : Prop := {
  bk_free : free_bytes st = u64 (kPageSize * pages_on ON_NORMAL_FREELIST V);
  bk_unmapped : unmapped_bytes st = u64 (kPageSize * pages_on ON_RETURNED_FREELIST V);
  bk_system : system_bytes st = u64 (unmapped_bytes st + committed_bytes st + d) }.

Lemma bytes_of_eq n : bytes_of n = u64 (kPageSize * n).
Proof. unfold bytes_of. rewrite shiftl_mul by clia. f_equal. consts. lia. Qed.

Lemma books_insert V d st p s : books V d st -> V !! p = None -> location s <> IN_USE ->
  books (<[p := s]> V)
    (if decide (location s = ON_RETURNED_FREELIST) then d - kPageSize * length_ s else d)
    (if decide (location s = ON_NORMAL_FREELIST) then add_free (bytes_of (length_ s)) st
     else add_unmapped (bytes_of (length_ s)) st).
Proof.
  intros [Hf Hu Hs] Hp Hloc. rewrite bytes_of_eq.
  destruct (u64_ex (kPageSize * length_ s)) as [k Hk]. rewrite Hk.
  destruct (location s) eqn:El; [done| |]; simpl;
    (constructor; simpl; unfold pages_on in *; rewrite ?msum_insert, ?El by done; simpl).
  - rewrite Hf, u64_add_l. apply u64_eq. exists k. lia.
  - rewrite Hu. f_equal. lia.
  - done.
  - rewrite Hf. f_equal. lia.
  - rewrite Hu, u64_add_l. apply u64_eq. exists k. lia.
  - rewrite Hs. destruct (u64_ex (unmapped_bytes st + (kPageSize * length_ s + 2 ^ 64 * k))) as [j Hj].
    rewrite Hj. apply u64_eq. exists (- j - k). lia.
Qed.

Lemma books_delete V d st p s : books V d st -> V !! p = Some s -> location s <> IN_USE ->
  books (delete p V)
    (if decide (location s = ON_RETURNED_FREELIST) then d + kPageSize * length_ s else d)
    (if decide (location s = ON_NORMAL_FREELIST) then add_free (- bytes_of (length_ s)) st
     else add_unmapped (- bytes_of (length_ s)) st).
Proof.
  intros [Hf Hu Hs] Hp Hloc. rewrite bytes_of_eq.
  destruct (u64_ex (kPageSize * length_ s)) as [k Hk]. rewrite Hk.
  destruct (location s) eqn:El; [done| |]; simpl;
    (constructor; simpl; unfold pages_on in *; rewrite ?(msum_delete _ _ _ _ Hp), ?El by done; simpl).
  - rewrite Hf, u64_add_l. apply u64_eq. exists (-k). lia.
  - rewrite Hu. f_equal. lia.
  - done.
  - rewrite Hf. f_equal. lia.
  - rewrite Hu, u64_add_l. apply u64_eq. exists (-k). lia.
  - rewrite Hs. destruct (u64_ex (unmapped_bytes st + - (kPageSize * length_ s + 2 ^ 64 * k))) as [j Hj].
    rewrite Hj. apply u64_eq. exists (k - j). lia.
Qed.

Lemma books_commit V d st n : books V d st ->
  books V (d - kPageSize * n) (count_commit (bytes_of n) st).
Proof.
  intros [Hf Hu Hs]. constructor; simpl; try done. rewrite Hs, bytes_of_eq.
  destruct (u64_ex (kPageSize * n)) as [k ->].
  destruct (u64_ex (committed_bytes st + (kPageSize * n + 2 ^ 64 * k))) as [j ->].
  apply u64_eq. exists (- j - k). lia.
Qed.
Lemma books_decommit V d st n : books V d st ->
  books V (d + kPageSize * n) (count_decommit (bytes_of n) (count_decommit_call st)).
Proof.
  intros [Hf Hu Hs]. constructor; simpl; try done. rewrite Hs, bytes_of_eq.
  destruct (u64_ex (kPageSize * n)) as [k ->].
  destruct (u64_ex (committed_bytes st - (kPageSize * n + 2 ^ 64 * k))) as [j ->].
  apply u64_eq. exists (k - j). lia.
Qed.
Lemma books_grow V d st n : books V d st -> books V d (count_grow (bytes_of n) st).
Proof.
  intros [Hf Hu Hs]. constructor; simpl; try done. rewrite Hs, u64_add_l.
  destruct (u64_ex (committed_bytes st + bytes_of n)) as [j ->]. apply u64_eq. exists (-j). lia.
Qed.

(** ** Pages obtained from the system *)

Definition total_pages (S : gmap Z Span) : Z := msum (fun _ s => length_ s) S.

(** Every byte counted as obtained from the system lies in a span, or in
    pages that were lost because the page map had no room for them; at least
    [n] pages are in no span. *)
Definition spare (n : Z) (S : gmap Z Span) (sys : Z) (T : gset Z) : Prop :=
  exists lost, n <= lost /\ sys = kPageSize * (total_pages S + lost) /\ total_pages S + lost <= Z.of_nat (size T).
Abbreviation accounted := (spare 0).

Lemma spare_mono n n' S sys T T' : spare n S sys T -> n' <= n -> T ⊆ T' -> spare n' S sys T'.
Proof. intros (lost & ? & ? & ?) Hn HT%subseteq_size. exists lost. repeat split; [lia|done|lia]. Qed.

Lemma accounted_same S S' sys T T' : accounted S sys T -> total_pages S' = total_pages S -> T ⊆ T' -> accounted S' sys T'.
Proof. intros (lost & ? & ? & ?) E HT%subseteq_size. exists lost. rewrite E. repeat split; [done|done|lia]. Qed.
Lemma accounted_update S sys T T' p s s' : accounted S sys T -> S !! p = Some s -> length_ s' = length_ s -> T ⊆ T' ->
  accounted (<[p := s']> S) sys T'.
Proof. intros HA Hp E HT. eapply accounted_same; [done| |done]. unfold total_pages. rewrite (msum_update _ _ _ s) by done. lia. Qed.
Lemma accounted_split S sys T T' p r s s' t : accounted S sys T -> S !! p = Some s -> S !! r = None ->
  length_ s' + length_ t = length_ s -> T ⊆ T' -> accounted (<[r := t]> (<[p := s']> S)) sys T'.
Proof.
  intros HA Hp Hr E HT. eapply accounted_same; [done| |done]. unfold total_pages.
  rewrite msum_insert by (rewrite lookup_insert_ne; [done|congruence]). rewrite (msum_update _ _ _ s) by done. lia.
Qed.
Lemma accounted_merge S sys T T' p q s o s' : accounted S sys T -> S !! p = Some s -> S !! q = Some o -> q <> p ->
  length_ s' = length_ s + length_ o -> T ⊆ T' -> accounted (<[p := s']> (delete q S)) sys T'.
Proof.
  intros HA Hp Hq Hn E HT. eapply accounted_same; [done| |done]. unfold total_pages.
  rewrite (msum_update _ _ _ s) by (by rewrite lookup_delete_ne). rewrite (msum_delete _ _ _ _ Hq). lia.
Qed.
(** New pages from the system, and their span once it is recorded. *)
Lemma accounted_grow S sys T T' a n : accounted S sys T -> T ⊆ T' -> 0 <= n ->
  (forall pg, a <= pg < a + n -> pg ∉ T /\ pg ∈ T') ->
  spare n S (sys + kPageSize * n) T'.
Proof.
  intros (lost & ? & -> & Hle) HT Hn Hnew. exists (lost + n). split; [lia|]. split; [lia|].
  assert (T ∪ list_to_set (seqZ a n) ⊆ T') as Hs%subseteq_size.
  { apply union_subseteq. split; [done|]. intros x [Hx]%elem_of_list_to_set%elem_of_seqZ. apply Hnew. lia. }
  rewrite size_union in Hs by (intros x Hx [??]%elem_of_list_to_set%elem_of_seqZ; by destruct (Hnew x)).
  rewrite size_list_to_set, length_seqZ in Hs by apply NoDup_seqZ. lia.
Qed.

Lemma spare_take n S sys T T' p s : spare n S sys T -> S !! p = None -> length_ s = n -> T ⊆ T' -> accounted (<[p := s]> S) sys T'.
Proof.
  intros (lost & ? & ? & ?) Hp <- HT%subseteq_size. exists (lost - length_ s). unfold total_pages in *. rewrite msum_insert by done. lia.
Qed.

(** ** The invariant of the heap *)

Section Inv.
Context {PM E : Type} `{!PageMap PM} `{!SysEnv E}.
Abbreviation heap := (PageHeap PM E).
Implicit Types h : heap.

Record Inv (X : gset Z) (d : Z) h : Prop := {
  inv_geo : geo (spans h) (pm_get (pagemap_ h)) (pm_ensured (pagemap_ h)) (taken_pages (env h));
  inv_lists : lists (listed X (spans h)) (flist h) (large h);
  inv_books : books (listed X (spans h)) d (stats_ h);
  inv_env : env_wf (env h);
  inv_live : forall p, is_Some (spans h !! p) -> p ∈ live_spans (env h);
  inv_clean : forall p s, spans h !! p = Some s -> location s <> IN_USE ->
    sizeclass s = 0 /\ sample s = false;
  inv_index : 0 <= release_index_ h;
  inv_total : accounted (spans h) (system_bytes (stats_ h)) (taken_pages (env h)) }.

(** The spans in use, and what an operation does to those outside [X]:
    nothing, and their page-map entries stay. *)
Definition inuse h (q : Z) (s : Span) : Prop := spans h !! q = Some s /\ location s = IN_USE.

Record same_inuse (X : gset Z) h h' : Prop := {
  si_span : forall q s, q ∉ X -> inuse h q s <-> inuse h' q s;
  si_map : forall q s pg, q ∉ X -> inuse h q s -> in_span s pg ->
    pm_get (pagemap_ h') pg = pm_get (pagemap_ h) pg }.

Lemma same_inuse_refl X h : same_inuse X h h.
Proof. constructor; done. Qed.
Lemma same_inuse_trans X h1 h2 h3 : same_inuse X h1 h2 -> same_inuse X h2 h3 -> same_inuse X h1 h3.
Proof.
  intros [H1 M1] [H2 M2]. constructor.
  - intros q s Hq. by rewrite H1, H2.
  - intros q s pg Hq Hs Hpg. rewrite (M2 q s), (M1 q s); try done. by apply H1.
Qed.
Lemma same_inuse_mono X Y h h' : X ⊆ Y -> same_inuse X h h' -> same_inuse Y h h'.
Proof. intros HXY []. constructor; eauto. Qed.

(** Spans on the normal lists: the measure of the release loop. *)
Definition count_normal h : Z :=
  msum (fun _ s => if decide (location s = ON_NORMAL_FREELIST) then 1 else 0) (spans h).

Lemma count_normal_bounds h : 0 <= count_normal h <= Z.of_nat (size (spans h)).
Proof.
  split; [apply msum_nonneg; intros; by case_decide|].
  rewrite <- msum_size. apply msum_le. intros. case_decide; lia.
Qed.

(** What the list operations leave alone. *)
Record same_rest h h' : Prop := {
  sr_map : pagemap_ h' = pagemap_ h;
  sr_env : env h' = env h;
  sr_index : release_index_ h' = release_index_ h;
  sr_system : system_bytes (stats_ h') = system_bytes (stats_ h) }.

Lemma lists_ext V F F' L L' : (forall loc i, F' loc i = F loc i) -> (forall loc, L' loc = L loc) ->
  lists V F L -> lists V F' L'.
Proof. intros HF HL []. constructor; intros; rewrite ?HF, ?HL; auto. Qed.

Lemma flist_put loc i l h loc' j : loc <> IN_USE ->
  flist (put_flist loc i l h) loc' j = set_F (flist h) loc i l loc' j.
Proof.
  intros Hl. unfold set_F, flist, put_flist, span_list. cbn -[lookup insert decide].
  destruct (decide (i = j)) as [->|Hn]; [rewrite lookup_insert_eq|rewrite lookup_insert_ne by done].
  - destruct loc, loc'; try done; simpl; case_decide; naive_solver.
  - destruct loc, loc'; try done; simpl; case_decide; naive_solver.
Qed.
Lemma large_put_flist loc i l h loc' : large (put_flist loc i l h) loc' = large h loc'.
Proof. done. Qed.
Lemma large_put loc l h loc' : loc <> IN_USE ->
  large (put_large loc l h) loc' = set_L (large h) loc l loc'.
Proof. intros Hl. unfold set_L. destruct loc, loc'; done. Qed.
Lemma flist_put_large loc l h loc' j : flist (put_large loc l h) loc' j = flist h loc' j.
Proof. by destruct loc. Qed.
Lemma spans_put_large loc l h : spans (put_large loc l h) = spans h.
Proof. by destruct loc. Qed.
Lemma stats_put_large loc l h : stats_ (put_large loc l h) = stats_ h.
Proof. by destruct loc. Qed.
End Inv.
