(* ===== verification/PageHeapOps.v ===== *)
(** * The page heap's operations preserve its invariant

    Each operation of PageHeap.v is executed symbolically against the
    interfaces' laws. Its lemma states the invariant after it and what it
    does to the spans in use. *)
From Stdlib Require Import Sorting.Sorted.
From S2P Require Import Prelude Common PageMap PackedCache Span SysEnv PageHeap PageHeapInv.
Import PH.

Section Ops.
Context {PM E : Type} `{!PageMap PM} `{!PageMapLaws PM} `{!SysEnv E} `{!SysEnvLaws E}.
Abbreviation heap := (PageHeap PM E).
Implicit Types h : heap.

(** ** Primitive steps *)

Lemma wp_get_span p s (Q : Span -> heap -> Prop) h : spans h !! p = Some s -> Q s h -> wp (get_span p) Q h.
Proof. intros Hp HQ. unfold get_span. wp_steps. apply (wp_lift _ s); [by rewrite Hp|done]. Qed.
Lemma wp_upd_span p s f (Q : unit -> heap -> Prop) h : spans h !! p = Some s ->
  Q tt (with_spans (<[p := f s]> (spans h)) h) -> wp (upd_span p f) Q h.
Proof.
  intros Hp HQ. unfold upd_span. apply wp_bind. eapply wp_get_span; [done|]. by apply wp_mod.
Qed.
Lemma wp_read {A} (f : heap -> A) (Q : A -> heap -> Prop) h : Q (f h) h -> wp (read f) Q h.
Proof. done. Qed.
Lemma wp_upd_stats f (Q : unit -> heap -> Prop) h :
  Q tt (with_stats (f (stats_ h)) h) -> wp (upd_stats f) Q h.
Proof. done. Qed.
Lemma wp_in_env {A} (m : M E A) (Q : A -> heap -> Prop) h :
  wp m (fun a e => Q a (with_env e h)) (env h) -> wp (in_env m) Q h.
Proof. unfold wp, in_env. by destruct (m (env h)) as [[a e]|[]]. Qed.
Lemma wp_pagemap_set k v (Q : unit -> heap -> Prop) h : pm_ensured (pagemap_ h) k ->
  (forall pm', (forall j, pm_get pm' j = if decide (j = k) then v else pm_get (pagemap_ h) j) ->
     (forall j, pm_ensured pm' j <-> pm_ensured (pagemap_ h) j) -> Q tt (with_pagemap pm' h)) ->
  wp (pagemap_set k v) Q h.
Proof.
  intros Hk HQ. unfold pagemap_set. wp_steps.
  destruct (pm_set_ok (pagemap_ h) k v Hk) as (pm' & Hset & Hg & He).
  apply (wp_lift _ pm'); [done|]. apply wp_mod. by apply HQ.
Qed.

(** ** List operations *)

Lemma wp_RemoveFromFreeList X d p s (Q : unit -> heap -> Prop) h :
  spans h !! p = Some s -> listed X (spans h) !! p = Some s ->
  lists (listed X (spans h)) (flist h) (large h) -> books (listed X (spans h)) d (stats_ h) ->
  (forall h' b, same_rest h h' -> spans h' = <[p := set_span_iter b s]> (spans h) ->
     lists (listed ({[p]} ∪ X) (spans h')) (flist h') (large h') ->
     books (listed ({[p]} ∪ X) (spans h'))
       (if decide (location s = ON_RETURNED_FREELIST) then d + kPageSize * length_ s else d) (stats_ h') ->
     Q tt h') ->
  wp (RemoveFromFreeList p) Q h.
Proof.
  intros Hp HV HL HB HQ. pose proof HV as (_ & HpX & Hloc)%listed_Some.
  assert (forall b, listed ({[p]} ∪ X) (<[p := set_span_iter b s]> (spans h)) = delete p (listed X (spans h))) as HVd.
  { intros b. apply map_eq. intros q. apply option_eq. intros t.
    rewrite lookup_delete_Some, !listed_Some. destruct (decide (q = p)) as [->|].
    - set_solver.
    - rewrite lookup_insert_ne by done. set_solver. }
  pose proof (books_delete _ _ _ _ _ HB HV Hloc) as HB'.
  unfold RemoveFromFreeList. apply wp_bind. eapply wp_get_span; [done|]. apply wp_bind.
  assert (forall Q' : unit -> heap -> Prop, Q' tt (with_stats (if decide (location s = ON_NORMAL_FREELIST)
    then add_free (- bytes_of (length_ s)) (stats_ h) else add_unmapped (- bytes_of (length_ s)) (stats_ h)) h) ->
    wp (if decide (location s = ON_NORMAL_FREELIST) then upd_stats (add_free (- bytes_of (length_ s)))
        else upd_stats (add_unmapped (- bytes_of (length_ s)))) Q' h) as Hst
    by (intros Q' HQ'; case_decide; by apply wp_upd_stats).
  apply Hst. clear Hst.
  assert ((if decide (location s = ON_RETURNED_FREELIST) then ON_RETURNED_FREELIST
           else ON_NORMAL_FREELIST) = location s) as -> by (by destruct (location s)).
  rewrite Z.gtb_ltb. destruct (Z.ltb_spec kMaxPages (length_ s)) as [Hlen|Hlen].
  - destruct (lists_find_large _ _ _ _ _ HL HV Hloc Hlen) as (l & Hl & HL').
    apply wp_bind. eapply wp_upd_span; [done|]. wp_steps.
    apply (wp_lift _ l); [exact (f_equal deref Hl)|].
    apply wp_mod. apply (HQ _ false).
    + by destruct (location s).
    + by rewrite spans_put_large.
    + rewrite spans_put_large. cbn [spans with_spans with_stats]. rewrite HVd.
      eapply lists_ext; [| |exact HL']; intros; [by rewrite flist_put_large|by rewrite large_put].
    + rewrite spans_put_large, stats_put_large. cbn [spans with_spans with_stats stats_].
      rewrite HVd. done.
  - destruct (lists_find_small _ _ _ _ _ HL HV Hloc Hlen) as (l & Hl & HL').
    assert (set_span_iter (has_span_iter s) s = s) as Hid by (by destruct s).
    wp_steps. apply (wp_lift _ l); [exact (f_equal deref Hl)|].
    apply wp_mod. specialize (HVd (has_span_iter s)). rewrite Hid, insert_id in HVd by done.
    apply (HQ _ (has_span_iter s)).
    + by destruct (location s).
    + cbn. by rewrite Hid, insert_id.
    + change (spans _) with (spans h). rewrite HVd. eapply lists_ext; [| |exact HL']; intros; [by rewrite flist_put|done].
    + change (spans _) with (spans h). rewrite HVd. done.
Qed.

Lemma wp_PrependToFreeList X d p s (Q : unit -> heap -> Prop) h :
  spans h !! p = Some s -> p ∈ X -> location s <> IN_USE -> 1 <= length_ s ->
  (forall q t, listed X (spans h) !! q = Some t -> start t <> start s) ->
  lists (listed X (spans h)) (flist h) (large h) -> books (listed X (spans h)) d (stats_ h) ->
  (forall h' b, same_rest h h' -> spans h' = <[p := set_span_iter b s]> (spans h) ->
     lists (listed (X ∖ {[p]}) (spans h')) (flist h') (large h') ->
     books (listed (X ∖ {[p]}) (spans h'))
       (if decide (location s = ON_RETURNED_FREELIST) then d - kPageSize * length_ s else d) (stats_ h') ->
     Q tt h') ->
  wp (PrependToFreeList p) Q h.
Proof.
  intros Hp HpX Hloc Hlen1 Hst HL HB HQ.
  assert (listed X (spans h) !! p = None) as HV.
  { apply eq_None_not_Some. intros [t (_ & ? & _)%listed_Some]. done. }
  assert (forall b, listed (X ∖ {[p]}) (<[p := set_span_iter b s]> (spans h)) =
    <[p := set_span_iter b s]> (listed X (spans h))) as HVi.
  { intros b. apply map_eq. intros q. apply option_eq. intros t.
    rewrite lookup_insert_Some, !listed_Some, lookup_insert_Some.
    destruct (decide (q = p)) as [->|Hq]; [|set_solver]. split; [set_solver|].
    intros [[_ <-]|[? _]]; [|done]. split; [by left|]. split; [set_solver|done]. }
  pose proof (fun b => books_insert _ _ _ p (set_span_iter b s) HB HV Hloc) as HB'.
  unfold PrependToFreeList. apply wp_bind. eapply wp_get_span; [done|]. apply wp_bind.
  assert (forall Q' : unit -> heap -> Prop, Q' tt (with_stats (if decide (location s = ON_NORMAL_FREELIST)
    then add_free (bytes_of (length_ s)) (stats_ h) else add_unmapped (bytes_of (length_ s)) (stats_ h)) h) ->
    wp (if decide (location s = ON_NORMAL_FREELIST) then upd_stats (add_free (bytes_of (length_ s)))
        else upd_stats (add_unmapped (bytes_of (length_ s)))) Q' h) as Hupd
    by (intros Q' HQ'; case_decide; by apply wp_upd_stats).
  apply Hupd. clear Hupd.
  assert ((if decide (location s = ON_RETURNED_FREELIST) then ON_RETURNED_FREELIST
           else ON_NORMAL_FREELIST) = location s) as -> by (by destruct (location s)).
  assert ((if decide (location s = ON_NORMAL_FREELIST) then ON_NORMAL_FREELIST
           else ON_RETURNED_FREELIST) = location s) as -> by (by destruct (location s)).
  rewrite Z.gtb_ltb. destruct (Z.ltb_spec kMaxPages (length_ s)) as [Hlen|Hlen].
  - apply wp_bind, wp_mod. eapply wp_upd_span; [by rewrite spans_put_large|]. apply (HQ _ true).
    + by destruct (location s).
    + cbn [spans with_spans]. by rewrite spans_put_large.
    + change (spans (with_spans ?S _)) with S. rewrite spans_put_large. cbn [spans with_stats].
      rewrite HVi.
      eapply lists_ext; [| |apply (lists_prepend_large _ _ _ p (set_span_iter true s) HL HV Hloc Hlen Hst)];
        intros; [by destruct (location s)|].
      change (large (with_spans ?S ?hh) loc) with (large hh loc). by rewrite large_put.
    + change (spans (with_spans ?S _)) with S. rewrite spans_put_large.
      change (stats_ (with_spans ?S ?hh)) with (stats_ hh). rewrite stats_put_large.
      cbn [spans with_stats]. rewrite HVi. apply HB'.
  - assert (set_span_iter (has_span_iter s) s = s) as Hid by (by destruct s).
    apply wp_bind. apply (wp_lift _ (length_ s - 1)).
    { unfold free_index. rewrite (proj2 (Z.leb_le 1 _)), (proj2 (Z.leb_le _ kMaxPages)) by done. done. }
    apply wp_mod. specialize (HVi (has_span_iter s)). specialize (HB' (has_span_iter s)).
    rewrite Hid in *. rewrite insert_id in HVi by done. apply (HQ _ (has_span_iter s)).
    + by destruct (location s).
    + cbn. by rewrite Hid, insert_id.
    + change (spans _) with (spans h). rewrite HVi.
      eapply lists_ext; [| |apply (lists_prepend_small _ _ _ p s HL HV Hloc Hlen)]; intros; [|done].
      by rewrite flist_put.
    + change (spans _) with (spans h). rewrite HVi. apply HB'.
Qed.

(** ** Commit and decommit *)

(** Steps that touch only the statistics and the lower layers. *)
Lemma Inv_env X d d' h e st : Inv X d h -> env_keeps (env h) e -> books (listed X (spans h)) d' st ->
  system_bytes st = system_bytes (stats_ h) ->
  Inv X d' (with_env e (with_stats st h)).
Proof.
  intros [HG HL HB HE Hlv Hc Hi Ha] [[He HT] Hl] HB' Es. constructor; try done.
  - eapply geo_mono; [exact HG|done|done|done].
  - intros q Hq. cbn. rewrite Hl. by apply Hlv.
  - cbn. rewrite Es. by eapply accounted_same.
Qed.

Lemma wp_DecommitSpan X d p s (Q : bool -> heap -> Prop) h :
  Inv X d h -> spans h !! p = Some s ->
  (forall (rv : bool) h', Inv X (if rv then d + kPageSize * length_ s else d) h' ->
     spans h' = spans h -> pagemap_ h' = pagemap_ h -> Q rv h') ->
  wp (DecommitSpan p) Q h.
Proof.
  intros HI Hp HQ. unfold DecommitSpan. apply wp_bind, wp_upd_stats.
  apply wp_bind. eapply wp_get_span; [done|]. apply wp_bind, wp_in_env.
  eapply wp_mono; [apply SystemRelease_ok, (inv_env _ _ _ HI)|].
  intros [] e He; cbn beta in *; apply wp_bind.
  - apply wp_upd_stats, wp_ret, HQ; [|done|done].
    apply (Inv_env X d _ h e _ HI He); [|done]. apply books_decommit, (inv_books _ _ _ HI).
  - apply wp_ret, wp_ret, HQ; [|done|done].
    apply (Inv_env X d _ h e _ HI He); [|done]. by destruct (inv_books _ _ _ HI); constructor.
Qed.

Lemma wp_CommitSpan X d p s (Q : unit -> heap -> Prop) h :
  Inv X d h -> spans h !! p = Some s ->
  (forall h', Inv X (d - kPageSize * length_ s) h' ->
     spans h' = spans h -> pagemap_ h' = pagemap_ h -> Q tt h') ->
  wp (CommitSpan p) Q h.
Proof.
  intros HI Hp HQ. unfold CommitSpan.
  apply wp_bind. eapply wp_get_span; [done|]. apply wp_bind, wp_in_env.
  eapply wp_mono; [apply SystemCommit_ok, (inv_env _ _ _ HI)|].
  intros [] e He; cbn beta in *. apply wp_upd_stats, HQ; [|done|done].
  apply (Inv_env X d _ h e _ HI He); [|done]. apply books_commit, (inv_books _ _ _ HI).
Qed.

(** ** Descriptors *)

Lemma wp_NewSpan a len (Q : Z -> heap -> Prop) h :
  env_wf (env h) -> (forall p, is_Some (spans h !! p) -> p ∈ live_spans (env h)) ->
  (forall p e, p <> 0 -> spans h !! p = None -> env_grows (env h) e ->
     live_spans e = {[p]} ∪ live_spans (env h) ->
     Q p (with_spans (<[p := new_span a len]> (spans h)) (with_env e h))) ->
  wp (NewSpan a len) Q h.
Proof.
  intros He Hl HQ. unfold NewSpan. apply wp_bind, wp_in_env.
  eapply wp_mono; [by apply span_New_ok|]. intros p e (Hp0 & Hp & Hlive & Hg).
  apply wp_bind, wp_mod, wp_ret. apply HQ; try done.
  apply eq_None_not_Some. intros Hs. by apply Hp, Hl.
Qed.

Lemma wp_RecordSpan p s (Q : unit -> heap -> Prop) h :
  spans h !! p = Some s -> 1 <= start s -> 1 <= length_ s -> start s + length_ s < 2 ^ 36 ->
  pm_ensured (pagemap_ h) (start s) -> pm_ensured (pagemap_ h) (start s + length_ s - 1) ->
  (forall pm', (forall j, pm_get pm' j = if decide (j = start s \/ j = start s + length_ s - 1)
                                         then p else pm_get (pagemap_ h) j) ->
     (forall j, pm_ensured pm' j <-> pm_ensured (pagemap_ h) j) -> Q tt (with_pagemap pm' h)) ->
  wp (RecordSpan p) Q h.
Proof.
  intros Hp H1 H2 H3 He1 He2 HQ. unfold RecordSpan. apply wp_bind. eapply wp_get_span; [done|].
  apply wp_bind. apply wp_pagemap_set; [done|]. intros pm1 Hg1 Hens1.
  rewrite Z.gtb_ltb. destruct (Z.ltb_spec 1 (length_ s)).
  - rewrite u64_small by lia. apply wp_pagemap_set; [by apply Hens1|]. intros pm2 Hg2 Hens2. cbn in Hg2, Hens2.
    apply (HQ pm2).
    + intros j. rewrite Hg2, Hg1. repeat case_decide; naive_solver.
    + intros j. by rewrite Hens2, Hens1.
  - apply wp_ret, (HQ pm1); [|done]. intros j. rewrite Hg1. repeat case_decide; naive_solver lia.
Qed.

Lemma int_length X d h p s n : Inv X d h -> spans h !! p = Some s -> 0 <= n <= length_ s ->
  s32 (u64 (length_ s - n)) = length_ s - n /\ u64 (length_ s - n) = length_ s - n /\
  u64 (start s + n) = start s + n /\ (0 < n -> u64 (start s + n - 1) = start s + n - 1).
Proof.
  intros HI Hp Hn. pose proof (geo_wf _ _ _ _ (inv_geo _ _ _ HI) p s Hp) as Hw.
  pose proof (geo_small _ _ _ _ _ _ (inv_geo _ _ _ HI) (taken_size _ (inv_env _ _ _ HI)) Hp).
  assert (u64 (length_ s - n) = length_ s - n) as Eq by (apply u64_small; lia). rewrite Eq.
  split; [by apply s32_small; lia|]. split; [done|]. split; [|intros]; apply u64_small; lia.
Qed.

(** ** Splitting *)

Lemma listed_inuse X (S : gmap Z Span) p s s' : S !! p = Some s -> location s = IN_USE ->
  location s' = IN_USE -> listed X (<[p := s']> S) = listed X S.
Proof.
  intros Hp Hs Hs'. apply listed_eq. intros q t. destruct (decide (q = p)) as [->|];
    [rewrite lookup_insert_eq|by rewrite lookup_insert_ne]. naive_solver.
Qed.
Lemma listed_fresh X (S : gmap Z Span) p s' : S !! p = None ->
  location s' = IN_USE \/ p ∈ X -> listed X (<[p := s']> S) = listed X S.
Proof.
  intros Hp Hs'. apply listed_eq. intros q t. destruct (decide (q = p)) as [->|];
    [rewrite lookup_insert_eq, Hp|by rewrite lookup_insert_ne]. naive_solver.
Qed.

Lemma wp_Split X d p s n (Q : Z -> heap -> Prop) h :
  Inv X d h -> spans h !! p = Some s -> location s = IN_USE -> 0 < n < length_ s ->
  (forall r h', Inv X d h' -> spans h !! r = None -> r <> 0 ->
     spans h' = <[r := new_span (start s + n) (length_ s - n)]> (<[p := set_length n s]> (spans h)) ->
     (forall pg, ~ in_span s pg -> pm_get (pagemap_ h') pg = pm_get (pagemap_ h) pg) -> Q r h') ->
  wp (Split p n) Q h.
Proof.
  intros HI Hp Hloc Hn HQ. destruct (int_length X d h p s n HI Hp) as (E1 & E2 & E3 & E4); [lia|].
  pose proof (geo_wf _ _ _ _ (inv_geo _ _ _ HI) p s Hp) as Hw.
  pose proof (fun pg => geo_ens _ _ _ _ (inv_geo _ _ _ HI) p s pg Hp) as Hens.
  unfold Split. apply wp_bind. eapply wp_get_span; [done|]. rewrite E1, E2, E3, E4 by lia.
  apply wp_bind. apply wp_NewSpan; [apply HI|apply HI|]. intros r e Hr0 Hr [He HT] Hlive.
  assert (p <> r) as Hpr by congruence. set (t := new_span (start s + n) (length_ s - n)).
  apply wp_bind. eapply wp_RecordSpan; [apply lookup_insert_eq|simpl; lia..|apply Hens; simpl; lia
    |apply Hens; simpl; lia|]. intros pm1 Hg1 He1. simpl in Hg1, He1.
  apply wp_bind. apply wp_pagemap_set; [apply He1, Hens; lia|]. intros pm2 Hg2 He2. simpl in Hg2, He2.
  apply wp_bind. eapply wp_upd_span; [by simpl; rewrite lookup_insert_ne|]. apply wp_ret.
  assert (<[p := set_length n s]> (<[r := t]> (spans h)) = <[r := t]> (<[p := set_length n s]> (spans h))) as Ecomm
    by (by apply insert_insert_ne).
  assert (listed X (<[r := t]> (<[p := set_length n s]> (spans h))) = listed X (spans h)) as EV.
  { rewrite listed_fresh; [|by rewrite lookup_insert_ne|by left]. by eapply listed_inuse. }
  apply (HQ r); [|done|done|by simpl|].
  2: { intros pg Hpg. simpl. rewrite Hg2, Hg1. unfold in_span in Hpg. by rewrite !decide_False by lia. }
  destruct HI as [HG HL HB HE Hlv Hc Hi Ha]. constructor; cbn -[listed]; try rewrite Ecomm; try rewrite EV; try done.
  - eapply (geo_split _ (pm_get (pagemap_ h)) _ _ _ p r s _ _ n); try done.
    + by eapply (geo_mono _ _ _ _ _ _ _ HG); [| |exact HT]; intros; [|apply He2, He1].
    + by rewrite Hg2, decide_True.
    + rewrite Hg2, decide_False, Hg1, decide_True by lia. done.
    + rewrite Hg2, decide_False, Hg1, decide_True by lia. done.
    + intros k Hk1 Hk2 Hk3. rewrite Hg2, decide_False, Hg1, decide_False by lia. done.
  - intros q [u Hq]. rewrite Hlive. destruct (decide (q = r)) as [->|Hqr]; [set_solver|].
    rewrite lookup_insert_ne in Hq by done. apply elem_of_union_r, Hlv.
    destruct (decide (q = p)) as [->|]; [by rewrite Hp|]. rewrite lookup_insert_ne in Hq; done.
  - intros q u Hq Hu. destruct (decide (q = r)) as [->|Hqr]; [rewrite lookup_insert_eq in Hq; by simplify_eq|].
    rewrite lookup_insert_ne in Hq by done.
    destruct (decide (q = p)) as [->|]; [rewrite lookup_insert_eq in Hq; by simplify_eq|].
    rewrite lookup_insert_ne in Hq by done. eauto.
  - eapply accounted_split; [done|done|done|cbn; lia|done].
Qed.

(** The debt of a span that left the returned lists. *)
Definition debt (loc : location_t) (n : Z) : Z :=
  if decide (loc = ON_RETURNED_FREELIST) then kPageSize * n else 0.

Lemma wp_carve_leftover p s n loc (Q : unit -> heap -> Prop) h :
  Inv ∅ (debt loc (length_ s)) h -> spans h !! p = Some s -> location s = IN_USE ->
  loc <> IN_USE -> 0 < n < length_ s ->
  (forall h', Inv ∅ (debt loc n) h' -> spans h' !! p = Some (set_length n s) ->
     same_inuse {[p]} h h' -> Q tt h') ->
  wp (carve_leftover p n (length_ s - n) loc) Q h.
Proof.
  intros HI Hp Hloc Hl Hn HQ. destruct (int_length _ _ h p s n HI Hp) as (_ & E2 & E3 & E4); [lia|].
  pose proof (geo_wf _ _ _ _ (inv_geo _ _ _ HI) p s Hp) as Hw.
  pose proof (fun pg => geo_ens _ _ _ _ (inv_geo _ _ _ HI) p s pg Hp) as Hens.
  unfold carve_leftover. apply wp_bind. eapply wp_get_span; [done|]. rewrite E2, E3 by lia.
  apply wp_bind. apply wp_NewSpan; [apply HI|apply HI|]. intros r e Hr0 Hr [He HT] Hlive.
  assert (p <> r) as Hpr by congruence. set (t := set_location loc (new_span (start s + n) (length_ s - n))).
  apply wp_bind. eapply wp_upd_span; [apply lookup_insert_eq|]. fold t.
  apply wp_bind. eapply wp_RecordSpan; [apply lookup_insert_eq|simpl; lia..|apply Hens; simpl; lia
    |apply Hens; simpl; lia|]. intros pm1 Hg1 He1. simpl in Hg1, He1.
  assert (listed {[r]} (<[r := t]> (spans h)) = listed ∅ (spans h)) as EV.
  { rewrite listed_fresh by (set_solver || done). apply listed_eq. intros q u. set_solver. }
  apply wp_bind. eapply (wp_PrependToFreeList {[r]} (debt loc (length_ s)) r t);
    [apply lookup_insert_eq|set_solver|done|simpl; lia| | | |].
  { cbn [spans with_pagemap with_spans with_env]. rewrite insert_insert_eq, EV.
    intros q u (Hq & _ & Hu)%listed_Some Eu. simpl in Eu.
    assert (q = p) as ->; [|congruence].
    apply (geo_disj _ _ _ _ (inv_geo _ _ _ HI) q p u s (start u)); try done; unfold in_span;
      destruct (geo_wf _ _ _ _ (inv_geo _ _ _ HI) q u Hq); lia. }
  { cbn [spans with_pagemap with_spans with_env]. rewrite insert_insert_eq, EV. apply HI. }
  { cbn [spans with_pagemap with_spans with_env stats_]. rewrite insert_insert_eq, EV. apply HI. }
  intros h5 b [Hm5 He5 Hi5 Hs5] HS5 HL5 HB5. cbn in Hm5, He5, Hi5, Hs5.
  cbn [spans with_pagemap with_spans with_env] in HS5. rewrite !insert_insert_eq in HS5.
  set (t' := set_span_iter b t) in *.
  assert (spans h5 !! p = Some s) as Hp5 by (by rewrite HS5, lookup_insert_ne).
  apply wp_bind. eapply wp_upd_span; [done|]. apply wp_bind.
  eapply wp_get_span; [apply lookup_insert_eq|]. simpl start. rewrite E4 by lia.
  apply wp_pagemap_set; [simpl; rewrite Hm5; apply He1, Hens; lia|].
  intros pm2 Hg2 He2. simpl in Hg2, He2. rewrite Hm5 in Hg2, He2.
  assert (<[p := set_length n s]> (spans h5) = <[r := t']> (<[p := set_length n s]> (spans h))) as Ecomm
    by (rewrite HS5; by apply insert_insert_ne).
  rewrite difference_diag_L in HL5, HB5.
  assert (listed ∅ (<[p := set_length n s]> (spans h5)) = listed ∅ (spans h5)) as EV5
    by (by eapply listed_inuse).
  apply HQ.
  - destruct HI as [HG HL HB HE Hlv Hc Hi Ha].
    constructor; cbn -[listed]; rewrite ?EV5, ?Hi5, ?He5; try done.
    + rewrite Ecomm. eapply (geo_split _ (pm_get (pagemap_ h)) _ _ _ p r s _ _ n); try done.
      * by eapply (geo_mono _ _ _ _ _ _ _ HG); [| |exact HT]; intros; [|apply He2, He1].
      * by rewrite Hg2, decide_True.
      * rewrite Hg2, decide_False, Hg1, decide_True by lia. done.
      * rewrite Hg2, decide_False, Hg1, decide_True by lia. done.
      * intros k Hk1 Hk2 Hk3. rewrite Hg2, decide_False, Hg1, decide_False by lia. done.
    + replace (debt loc n) with (if decide (loc = ON_RETURNED_FREELIST)
        then debt loc (length_ s) - kPageSize * (length_ s - n) else debt loc (length_ s)); [exact HB5|].
      unfold debt. destruct (decide _); lia.
    + rewrite Ecomm. intros q [u Hq]. rewrite Hlive.
      destruct (decide (q = r)) as [->|Hqr]; [set_solver|].
      rewrite lookup_insert_ne in Hq by done. apply elem_of_union_r, Hlv.
      destruct (decide (q = p)) as [->|]; [by rewrite Hp|]. rewrite lookup_insert_ne in Hq; done.
    + rewrite Ecomm. intros q u Hq Hu.
      destruct (decide (q = r)) as [->|Hqr]; [rewrite lookup_insert_eq in Hq; by simplify_eq|].
      rewrite lookup_insert_ne in Hq by done.
      destruct (decide (q = p)) as [->|]; [rewrite lookup_insert_eq in Hq; by simplify_eq|].
      rewrite lookup_insert_ne in Hq by done. eauto.
    + rewrite Ecomm, Hs5. eapply accounted_split; [done|done|done|cbn; lia|done].
  - cbn. by rewrite lookup_insert_eq.
  - constructor; unfold inuse; cbn -[lookup insert]; rewrite ?Ecomm.
    + intros q u Hq. rewrite elem_of_singleton in Hq. destruct (decide (q = r)) as [->|].
      * rewrite lookup_insert_eq, Hr. split; [by intros []|intros [[= <-] ?]]. done.
      * by rewrite !lookup_insert_ne.
    + intros q u pg Hq [Hu Huloc] Hpg. rewrite elem_of_singleton in Hq.
      assert (~ in_span s pg) as Hnin.
      { intros Hs. apply Hq. by apply (geo_disj _ _ _ _ (inv_geo _ _ _ HI) q p u s pg). }
      unfold in_span in Hnin. by rewrite Hg2, decide_False, Hg1, decide_False by lia.
Qed.

(** A span just handed out. *)
Definition fresh_span h (p n : Z) : Prop :=
  exists s, inuse h p s /\ length_ s = n /\ sizeclass s = 0 /\ sample s = false.

Lemma remove_inuse d p s b h h' : Inv ∅ 0 h -> spans h !! p = Some s -> location s <> IN_USE ->
  same_rest h h' -> spans h' = <[p := set_span_iter b s]> (spans h) ->
  lists (listed ({[p]} ∪ ∅) (spans h')) (flist h') (large h') ->
  books (listed ({[p]} ∪ ∅) (spans h')) d (stats_ h') ->
  Inv ∅ d (with_spans (<[p := set_location IN_USE (set_span_iter b s)]> (spans h')) h').
Proof.
  intros [HG HL HB HE Hlv Hc Hi Ha] Hp Hloc [Hm1 He1 Hi1 Hs1] HS HL1 HB1.
  assert (listed ∅ (<[p := set_location IN_USE (set_span_iter b s)]> (spans h')) =
    listed ({[p]} ∪ ∅) (spans h')) as EV.
  { apply listed_eq. intros q u. rewrite HS. destruct (decide (q = p)) as [->|].
    - rewrite !lookup_insert_eq. set_solver.
    - rewrite !lookup_insert_ne by done. set_solver. }
  constructor; cbn -[listed]; rewrite ?EV, ?Hm1, ?He1, ?Hi1; try done; rewrite HS, insert_insert_eq.
  - by eapply geo_similar.
  - intros q [u Hq]. apply Hlv. destruct (decide (q = p)) as [->|]; [by rewrite Hp|].
    by rewrite lookup_insert_ne in Hq.
  - intros q u Hq Hu. destruct (decide (q = p)) as [->|]; [rewrite lookup_insert_eq in Hq; by simplify_eq|].
    rewrite lookup_insert_ne in Hq by done. eauto.
  - rewrite Hs1. by eapply accounted_update.
Qed.

Lemma wp_Carve p s n (Q : Z -> heap -> Prop) h :
  Inv ∅ 0 h -> spans h !! p = Some s -> location s <> IN_USE -> 0 < n <= length_ s ->
  (forall h', Inv ∅ 0 h' -> fresh_span h' p n -> same_inuse {[p]} h h' -> Q p h') ->
  wp (Carve p n) Q h.
Proof.
  intros HI Hp Hloc Hn HQ. unfold Carve. apply wp_bind. eapply wp_get_span; [done|].
  apply wp_bind. eapply (wp_RemoveFromFreeList ∅ 0);
    [done|by apply listed_Some|apply HI|apply HI|].
  intros h1 b Hr1 HS1 HL1 HB1. apply wp_bind. eapply wp_upd_span; [by rewrite HS1, lookup_insert_eq|].
  set (s2 := set_location IN_USE (set_span_iter b s)).
  assert (Inv ∅ (debt (location s) (length_ s))
    (with_spans (<[p := s2]> (spans h1)) h1)) as HI2 by (by eapply (remove_inuse _ p s b h h1)).
  set (h2 := with_spans _ h1) in *.
  assert (spans h2 !! p = Some s2) as Hp2 by apply lookup_insert_eq.
  assert (same_inuse {[p]} h h2) as Hsi2.
  { constructor; unfold inuse, h2; cbn -[lookup insert]; rewrite ?HS1, ?(sr_map _ _ Hr1), ?insert_insert_eq; [|done].
    intros q u Hq. rewrite lookup_insert_ne by set_solver. done. }
  destruct (inv_clean _ _ _ HI p s Hp Hloc) as [Hsc Hsm].
  apply wp_bind. eapply wp_get_span; [done|]. cbn zeta.
  destruct (int_length _ _ h2 p s2 n HI2 Hp2) as (E1 & _); [simpl; lia|]. rewrite E1. clear E1.
  assert (forall h3, Inv ∅ (debt (location s) n) h3 -> spans h3 !! p = Some (set_length n s2) ->
    same_inuse {[p]} h2 h3 ->
    wp (_ ← (if decide (location s = ON_RETURNED_FREELIST) then CommitSpan p else mret tt); mret p) Q h3) as Hfin.
  { intros h3 HI3 Hp3 Hsi3.
    assert (forall h4, Inv ∅ 0 h4 -> spans h4 = spans h3 -> pagemap_ h4 = pagemap_ h3 -> Q p h4) as HQ4.
    { intros h4 HI4 HS4 Hm4. apply HQ; [done| |].
      - exists (set_length n s2). unfold inuse. by rewrite HS4.
      - eapply same_inuse_trans; [done|]. eapply same_inuse_trans; [exact Hsi3|].
        constructor; unfold inuse; by rewrite ?HS4, ?Hm4. }
    apply wp_bind. unfold debt in HI3. case_decide.
    - eapply wp_CommitSpan; [done|done|]. intros h4 HI4 HS4 Hm4. apply wp_ret, HQ4; [|done|done].
      replace 0 with (kPageSize * n - kPageSize * length_ (set_length n s2)) by (simpl; lia). done.
    - apply wp_ret, wp_ret. by apply HQ4. }
  apply wp_bind. rewrite Z.gtb_ltb. destruct (Z.ltb_spec 0 (length_ s2 - n)).
  - apply wp_carve_leftover; [done|done|done|done|simpl in *; lia|]. intros. by apply Hfin.
  - assert (n = length_ s) as -> by (simpl in *; lia). apply wp_ret, Hfin; [done| |apply same_inuse_refl].
    rewrite Hp2. done.
Qed.

(** ** Coalescing *)

(** Rewriting a descriptor without touching start, length and location. *)
Lemma live_update (S : gmap Z Span) p s (L : gset Z) : is_Some (S !! p) ->
  (forall q, is_Some (S !! q) -> q ∈ L) -> forall q, is_Some (<[p := s]> S !! q) -> q ∈ L.
Proof.
  intros Hp HL q Hq. apply HL. destruct (decide (q = p)) as [->|]; [done|].
  by rewrite lookup_insert_ne in Hq.
Qed.
Lemma clean_update (S : gmap Z Span) p s :
  (location s <> IN_USE -> sizeclass s = 0 /\ sample s = false) ->
  (forall q t, S !! q = Some t -> location t <> IN_USE -> sizeclass t = 0 /\ sample t = false) ->
  forall q t, <[p := s]> S !! q = Some t -> location t <> IN_USE -> sizeclass t = 0 /\ sample t = false.
Proof.
  intros Hs HS q t. destruct (decide (q = p)) as [->|];
    [rewrite lookup_insert_eq; intros [= <-]; done|rewrite lookup_insert_ne by done; apply HS].
Qed.

Lemma wp_Remove_Inv X d p s (Q : unit -> heap -> Prop) h :
  Inv X d h -> spans h !! p = Some s -> p ∉ X -> location s <> IN_USE ->
  (forall h' b, Inv ({[p]} ∪ X) (d + debt (location s) (length_ s)) h' ->
     spans h' = <[p := set_span_iter b s]> (spans h) -> pagemap_ h' = pagemap_ h -> Q tt h') ->
  wp (RemoveFromFreeList p) Q h.
Proof.
  intros HI Hp HX Hloc HQ. pose proof HI as [HG HL HB HE Hlv Hc Hi Ha].
  eapply (wp_RemoveFromFreeList X d); [done|by apply listed_Some|done|done|].
  intros h' b [Hm1 He1 Hi1 Hs1] HS HL1 HB1. apply (HQ h' b); [|done|done].
  constructor; rewrite ?Hm1, ?He1, ?Hi1; try done.
  - rewrite HS. by eapply geo_similar.
  - unfold debt. case_decide; [done|by rewrite Z.add_0_r].
  - rewrite HS. apply live_update; [by rewrite Hp|done].
  - rewrite HS. apply clean_update; [|done]. intros _. exact (Hc p s Hp Hloc).
  - rewrite HS, Hs1. by eapply accounted_update.
Qed.

Lemma wp_CheckAndHandlePreMerge p q s (Q : Z -> heap -> Prop) h :
  Inv {[p]} (debt (location s) (length_ s)) h -> spans h !! p = Some s -> location s <> IN_USE ->
  (q <> 0 -> exists o, spans h !! q = Some o /\ q <> p) ->
  (forall h', Inv {[p]} (debt (location s) (length_ s)) h' -> spans h' = spans h ->
     pagemap_ h' = pagemap_ h -> Q 0 h') ->
  (forall o h' b, q <> 0 -> spans h !! q = Some o -> location o <> IN_USE ->
     location o = location s \/ location s = ON_RETURNED_FREELIST ->
     Inv ({[q]} ∪ {[p]}) (debt (location s) (length_ s + length_ o)) h' ->
     spans h' = <[q := set_span_iter b o]> (spans h) -> pagemap_ h' = pagemap_ h -> Q q h') ->
  wp (CheckAndHandlePreMerge p q) Q h.
Proof.
  intros HI Hp Hloc Hq HQ0 HQ1. unfold CheckAndHandlePreMerge.
  destruct (Z.eqb_spec q 0) as [->|Hq0]; [by apply wp_ret, HQ0|].
  destruct (Hq Hq0) as (o & Ho & Hqp). apply wp_bind. eapply wp_get_span; [done|].
  apply wp_bind. eapply wp_get_span; [done|]. apply wp_bind, wp_read. apply wp_bind.
  destruct (_ && _ && _) eqn:Eagg.
  - apply andb_true_iff in Eagg as [[_ Eo%bool_decide_eq_true]%andb_true_iff Es%bool_decide_eq_true].
    eapply wp_DecommitSpan; [done|done|]. intros [] h1 HI1 HS1 Hm1; [|by apply wp_ret, HQ0].
    apply wp_bind. eapply wp_Remove_Inv; [done|by rewrite HS1|set_solver|congruence|].
    intros h2 b HI2 HS2 Hm2. apply wp_ret. apply (HQ1 o h2 b); try congruence; [by right|].
    rewrite Eo, Es in *. unfold debt in *. simpl in *.
    replace (kPageSize * (length_ s + length_ o)) with
      (kPageSize * length_ s + kPageSize * length_ o + 0) by lia. done.
  - apply wp_ret. destruct (bool_decide_reflect (location o = location s)) as [Eo|Eo]; [|by apply wp_ret, HQ0].
    apply wp_bind. eapply wp_Remove_Inv; [done|done|set_solver|congruence|].
    intros h2 b HI2 HS2 Hm2. apply wp_ret. apply (HQ1 o h2 b); try congruence; [by left|].
    rewrite Eo in *. replace (debt (location s) (length_ s + length_ o)) with
      (debt (location s) (length_ s) + debt (location s) (length_ o)); [done|].
    unfold debt. destruct (decide _); lia.
Qed.

(** The state after [p] took over [q]: the descriptor is deleted and one
    end of the page map is set. *)
Lemma Inv_merged p q s o s' D k h h' :
  Inv ({[q]} ∪ {[p]}) D h -> spans h !! p = Some s -> spans h !! q = Some o -> q <> p ->
  location s <> IN_USE -> location s' = location s -> sizeclass s' = sizeclass s -> sample s' = sample s ->
  start s' = Z.min (start s) (start o) -> length_ s' = length_ s + length_ o ->
  start o + length_ o = start s /\ k = start s' \/
    start s + length_ s = start o /\ k = start s' + length_ s' - 1 ->
  env_grows (env h) (env h') -> live_spans (env h') = live_spans (env h) ∖ {[q]} ->
  spans h' = <[p := s']> (delete q (spans h)) ->
  (forall j, pm_get (pagemap_ h') j = if decide (j = k) then p else pm_get (pagemap_ h) j) ->
  (forall j, pm_ensured (pagemap_ h') j <-> pm_ensured (pagemap_ h) j) ->
  flist h' = flist h -> large h' = large h -> stats_ h' = stats_ h -> release_index_ h' = release_index_ h ->
  Inv {[p]} D h'.
Proof.
  intros [HG HL HB HE Hlv Hc Hi Ha] Hp Hq Hqp Hloc Hl' Hsc' Hsm' Hs1 Hs2 Hadj [He HT] Hlive HS Hg Hens HF HLg Hst Hri.
  assert (listed {[p]} (<[p := s']> (delete q (spans h))) = listed ({[q]} ∪ {[p]}) (spans h)) as EV.
  { apply listed_eq. intros r u. destruct (decide (r = p)) as [->|]; [set_solver|].
    rewrite lookup_insert_ne by done. destruct (decide (r = q)) as [->|];
      [rewrite lookup_delete_eq|rewrite lookup_delete_ne by done]; set_solver. }
  pose proof (geo_first _ _ _ _ HG p s Hp) as Gf. pose proof (geo_last _ _ _ _ HG p s Hp) as Gl.
  pose proof (geo_wf _ _ _ _ HG p s Hp). pose proof (geo_wf _ _ _ _ HG q o Hq).
  constructor; rewrite ?HF, ?HLg, ?Hst, ?Hri, ?HS, ?EV; try done.
  - assert (geo (spans h) (pm_get (pagemap_ h)) (pm_ensured (pagemap_ h')) (taken_pages (env h'))) as HG'
      by (by eapply geo_mono; [exact HG| |intros; apply Hens|]).
    eapply (geo_merge _ _ _ _ _ p q s o s' HG'); try done.
    + destruct Hadj as [[? _]|[? _]]; auto.
    + rewrite Hg. case_decide as Ed; [done|]. destruct Hadj as [[? ?]|[? ?]]; [lia|].
      rewrite <- Gf. f_equal. lia.
    + rewrite Hg. case_decide as Ed; [done|]. destruct Hadj as [[? ?]|[? ?]]; [|lia].
      rewrite <- Gl. f_equal. lia.
    + intros j Hj1 Hj2. rewrite Hg, decide_False; [done|]. lia.
  - intros r [u Hr]. rewrite Hlive. destruct (decide (r = p)) as [->|].
    + apply elem_of_difference. split; [apply Hlv; by rewrite Hp|set_solver].
    + rewrite lookup_insert_ne, lookup_delete_Some in Hr by done. destruct Hr as [? Hr].
      apply elem_of_difference. split; [apply Hlv; by rewrite Hr|set_solver].
  - apply clean_update.
    + intros _. rewrite Hsc', Hsm'. by apply (Hc p s).
    + intros r u [_ Hr]%lookup_delete_Some. eauto.
  - by eapply accounted_merge.
Qed.

Definition merged (s o : Span) : Span :=
  set_length (length_ s + length_ o) (set_start (Z.min (start s) (start o)) s).

Lemma wp_merge_prev p q s o D (Q : unit -> heap -> Prop) h :
  Inv ({[q]} ∪ {[p]}) D h -> spans h !! p = Some s -> spans h !! q = Some o -> q <> p ->
  location s <> IN_USE -> start o + length_ o = start s ->
  (forall h', Inv {[p]} D h' -> spans h' = <[p := merged s o]> (delete q (spans h)) ->
     (forall pg, ~ in_span s pg -> ~ in_span o pg -> pm_get (pagemap_ h') pg = pm_get (pagemap_ h) pg) ->
     Q tt h') ->
  wp (merge_prev p q) Q h.
Proof.
  intros HI Hp Hq Hqp Hloc Hadj HQ. pose proof HI as [HG HL HB HE Hlv Hc Hi Ha].
  pose proof (geo_wf _ _ _ _ HG p s Hp). pose proof (geo_wf _ _ _ _ HG q o Hq).
  unfold merge_prev. apply wp_bind. eapply wp_get_span; [done|].
  apply wp_bind. unfold DeleteSpan. apply wp_bind, wp_in_env.
  eapply wp_mono; [apply span_Delete_ok; [done|]; apply Hlv; by rewrite Hq|].
  intros _ e [Hlive Hgrow]. apply wp_mod. cbn beta.
  apply wp_bind. eapply wp_upd_span; [by cbn; rewrite lookup_delete_ne|].
  apply wp_bind. eapply wp_upd_span; [apply lookup_insert_eq|].
  apply wp_bind. eapply wp_get_span; [apply lookup_insert_eq|].
  cbn [start length_ set_start set_length].
  rewrite !u64_small by lia. apply wp_pagemap_set.
  { apply (geo_ens _ _ _ _ HG q o); [done|lia]. }
  intros pm' Hg Hens. cbn in Hg, Hens.
  assert (forall S : gmap Z Span, <[p := set_length (length_ s + length_ o) (set_start (start s - length_ o) s)]>
    (<[p := set_start (start s - length_ o) s]> S) = <[p := merged s o]> S) as ES.
  { intros S. rewrite insert_insert_eq. unfold merged.
    replace (Z.min (start s) (start o)) with (start s - length_ o) by lia. done. }
  assert (forall pg, ~ in_span s pg -> ~ in_span o pg -> pm_get pm' pg = pm_get (pagemap_ h) pg) as Hpg.
  { intros pg ? Hpo. unfold in_span in Hpo. rewrite Hg, decide_False; [done|lia]. }
  apply HQ; [|cbn -[insert delete]; by rewrite ES|done].
  eapply (Inv_merged p q s o (merged s o) D (start s - length_ o) h); try done.
  - left. simpl. lia.
  - cbn -[insert delete]. by rewrite ES.
Qed.

Lemma wp_merge_next p q s o D (Q : unit -> heap -> Prop) h :
  Inv ({[q]} ∪ {[p]}) D h -> spans h !! p = Some s -> spans h !! q = Some o -> q <> p ->
  location s <> IN_USE -> start o = start s + length_ s ->
  (forall h', Inv {[p]} D h' -> spans h' = <[p := merged s o]> (delete q (spans h)) ->
     (forall pg, ~ in_span s pg -> ~ in_span o pg -> pm_get (pagemap_ h') pg = pm_get (pagemap_ h) pg) ->
     Q tt h') ->
  wp (merge_next p q) Q h.
Proof.
  intros HI Hp Hq Hqp Hloc Hadj HQ. pose proof HI as [HG HL HB HE Hlv Hc Hi Ha].
  pose proof (geo_wf _ _ _ _ HG p s Hp). pose proof (geo_wf _ _ _ _ HG q o Hq).
  unfold merge_next. apply wp_bind. eapply wp_get_span; [done|].
  apply wp_bind. unfold DeleteSpan. apply wp_bind, wp_in_env.
  eapply wp_mono; [apply span_Delete_ok; [done|]; apply Hlv; by rewrite Hq|].
  intros _ e [Hlive Hgrow]. apply wp_mod. cbn beta.
  apply wp_bind. eapply wp_upd_span; [by cbn; rewrite lookup_delete_ne|].
  apply wp_bind. eapply wp_get_span; [apply lookup_insert_eq|].
  cbn [start length_ set_start set_length].
  rewrite !u64_small by (rewrite ?u64_small; lia). apply wp_pagemap_set.
  { apply (geo_ens _ _ _ _ HG q o); [done|lia]. }
  intros pm' Hg Hens. cbn in Hg, Hens.
  assert (set_length (length_ s + length_ o) s = merged s o) as ES.
  { unfold merged. replace (Z.min (start s) (start o)) with (start s) by lia. by destruct s. }
  rewrite ES. assert (forall pg, ~ in_span s pg -> ~ in_span o pg -> pm_get pm' pg = pm_get (pagemap_ h) pg) as Hpg.
  { intros pg ? Hpo. unfold in_span in Hpo. rewrite Hg, decide_False; [done|lia]. }
  apply HQ; [|done|done].
  eapply (Inv_merged p q s o (merged s o) D (start s + (length_ s + length_ o) - 1) h); try done.
  right. simpl. lia.
Qed.

(** The pages whose memory the system has back. *)
Definition returned_pages h : Z := pages_on ON_RETURNED_FREELIST (spans h).

(** What coalescing keeps: the spans in use; it adds no normal span and
    takes no page back from the system. *)
Record kept h h' : Prop := {
  kept_inuse : same_inuse ∅ h h';
  kept_count : count_normal h' <= count_normal h;
  kept_returned : returned_pages h <= returned_pages h' }.
Lemma kept_refl h : kept h h.
Proof. split; [apply same_inuse_refl|lia|lia]. Qed.
Lemma kept_trans h1 h2 h3 : kept h1 h2 -> kept h2 h3 -> kept h1 h3.
Proof. intros [???] [???]. split; [by eapply same_inuse_trans|lia|lia]. Qed.
Lemma kept_same h h' : spans h' = spans h -> pagemap_ h' = pagemap_ h -> kept h h'.
Proof.
  intros HS Hm. split; [constructor; unfold inuse; by rewrite ?HS, ?Hm| |];
    unfold count_normal, returned_pages; rewrite HS; lia.
Qed.

(** [p] off the lists, with its current descriptor [s]. *)
Definition merging p s h : Prop :=
  Inv {[p]} (debt (location s) (length_ s)) h /\ spans h !! p = Some s /\ location s <> IN_USE.

Lemma count_merged (S : gmap Z Span) p q s o s' (w := fun (_ : Z) s => if decide (location s = ON_NORMAL_FREELIST) then 1 else 0) :
  S !! p = Some s -> S !! q = Some o -> q <> p -> location s' = location s ->
  msum w (<[p := s']> (delete q S)) <= msum w S.
Proof.
  intros Hp Hq Hqp Hl. rewrite (msum_update _ _ _ s) by (by rewrite lookup_delete_ne).
  rewrite (msum_delete _ _ _ _ Hq). unfold w. rewrite Hl. repeat case_decide; lia.
Qed.
Lemma returned_merged (S : gmap Z Span) p q s o s' :
  S !! p = Some s -> S !! q = Some o -> q <> p -> location s' = location s -> length_ s' = length_ s + length_ o -> 0 <= length_ o ->
  location o = location s \/ location s = ON_RETURNED_FREELIST ->
  pages_on ON_RETURNED_FREELIST S <= pages_on ON_RETURNED_FREELIST (<[p := s']> (delete q S)).
Proof.
  intros Hp Hq Hqp Hl Hn Ho Hc. unfold pages_on. rewrite (msum_update _ (delete q S) p s) by (by rewrite lookup_delete_ne).
  rewrite (msum_delete _ _ _ _ Hq), Hl. repeat case_decide; try lia. destruct Hc; congruence.
Qed.

Lemma kept_merged p q s o s' h h' : geo (spans h) (pm_get (pagemap_ h)) (pm_ensured (pagemap_ h)) (taken_pages (env h)) ->
  spans h !! p = Some s -> spans h !! q = Some o -> q <> p ->
  location s <> IN_USE -> location o <> IN_USE -> location s' = location s ->
  length_ s' = length_ s + length_ o -> location o = location s \/ location s = ON_RETURNED_FREELIST ->
  spans h' = <[p := s']> (delete q (spans h)) ->
  (forall pg, ~ in_span s pg -> ~ in_span o pg -> pm_get (pagemap_ h') pg = pm_get (pagemap_ h) pg) ->
  kept h h'.
Proof.
  intros HG Hp Hq Hqp Hls Hlo Hl Hn Hc HS Hg. split.
  - constructor; unfold inuse.
    + intros r u _. rewrite HS. destruct (decide (r = p)) as [->|].
      { rewrite lookup_insert_eq, Hp. split; intros [[= <-] ?]; congruence. }
      rewrite lookup_insert_ne by done. destruct (decide (r = q)) as [->|].
      { rewrite lookup_delete_eq, Hq. split; [intros [[= <-] ?]; congruence|by intros []]. }
      by rewrite lookup_delete_ne.
    + intros r u pg _ [Hr Hru] Hpg. apply Hg; intros Hin.
      * assert (r = p) by (by eapply (geo_disj _ _ _ _ HG r p u s pg)). congruence.
      * assert (r = q) by (by eapply (geo_disj _ _ _ _ HG r q u o pg)). congruence.
  - unfold count_normal. rewrite HS. by eapply count_merged.
  - unfold returned_pages. rewrite HS. eapply returned_merged; try done. destruct (geo_wf _ _ _ _ HG q o Hq) as (_ & _ & ? & _). lia.
Qed.

(** One attempt to coalesce, with the code that follows it. *)
Lemma wp_try_merge p q s (merge : Z -> Z -> M heap unit) (K : unit -> heap -> Prop) h :
  merging p s h ->
  (q <> 0 -> exists o, spans h !! q = Some o /\ q <> p) ->
  (forall o h' D (Q : unit -> heap -> Prop), spans h !! q = Some o -> Inv ({[q]} ∪ {[p]}) D h' ->
     spans h' !! p = Some s -> (exists b, spans h' !! q = Some (set_span_iter b o)) ->
     (forall h'', Inv {[p]} D h'' -> spans h'' = <[p := merged s o]> (delete q (spans h')) ->
        (forall pg, ~ in_span s pg -> ~ in_span o pg -> pm_get (pagemap_ h'') pg = pm_get (pagemap_ h') pg) ->
        Q tt h'') -> wp (merge p q) Q h') ->
  (forall h' s', merging p s' h' -> kept h h' -> s' = s \/
     (exists o, spans h !! q = Some o /\ q <> 0 /\ s' = merged s o) -> K tt h') ->
  wp (CheckAndHandlePreMerge p q) (fun r h' => wp (if r =? 0 then mret tt else merge p r) K h') h.
Proof.
  intros (HI & Hp & Hloc) Hq Hm HK.
  apply (wp_CheckAndHandlePreMerge p q s); [done|done|done|done| |].
  { intros h' HI' HS Hmap. apply wp_ret, (HK h' s); [|by apply kept_same|by left].
    split; [done|]. by rewrite HS. }
  intros o h' b Hq0 Ho Hlo Hlc HI' HS Hmap. rewrite (proj2 (Z.eqb_neq q 0)) by done.
  destruct (Hq Hq0) as (_ & _ & Hqp).
  eapply Hm; [done|done|by rewrite HS, lookup_insert_ne|exists b; by rewrite HS, lookup_insert_eq|].
  intros h'' HI'' HS'' Hg. rewrite HS, delete_insert_eq in HS''.
  apply (HK h'' (merged s o)); [| |right; eauto].
  - split; [done|]. rewrite HS'', lookup_insert_eq. done.
  - apply (kept_merged p q s o (merged s o)); try done; [apply HI|].
    intros pg ??. rewrite Hg, Hmap by done. done.
Qed.

(** A descriptor off the lists may change its location. *)
Lemma Inv_update_exempt p s s' D h : spans h !! p = Some s -> location s <> IN_USE \/ sizeclass s = 0 /\ sample s = false ->
  start s' = start s -> length_ s' = length_ s -> sizeclass s' = sizeclass s -> sample s' = sample s ->
  Inv {[p]} D h -> Inv {[p]} D (with_spans (<[p := s']> (spans h)) h).
Proof.
  intros Hp Hloc H1 H2 H4 H5 [HG HL HB HE Hlv Hc Hi Ha].
  assert (listed {[p]} (<[p := s']> (spans h)) = listed {[p]} (spans h)) as EV.
  { apply listed_eq. intros q u. destruct (decide (q = p)) as [->|]; [set_solver|].
    by rewrite lookup_insert_ne. }
  constructor; cbn -[listed]; rewrite ?EV; try done.
  - by eapply geo_similar.
  - apply live_update; [by rewrite Hp|done].
  - apply clean_update; [|done]. intros _. rewrite H4, H5. destruct Hloc; [by apply (Hc p s)|done].
  - by eapply accounted_update.
Qed.

(** The optional decommit at the start of the merge. *)
Lemma wp_merge_decommit p s (c : bool) (K : unit -> heap -> Prop) h :
  merging p s h -> (c = true -> location s = ON_NORMAL_FREELIST) ->
  (forall h' s', merging p s' h' -> kept h h' -> start s' = start s -> length_ s' = length_ s -> K tt h') ->
  wp (if c then ok ← DecommitSpan p;
        if ok : bool then upd_span p (set_location ON_RETURNED_FREELIST) else mret tt
      else mret tt) K h.
Proof.
  intros HM Hc HK. destruct c; [|apply wp_ret, (HK h s); try done; apply kept_refl].
  pose proof HM as (HI & Hp & Hloc). specialize (Hc eq_refl).
  apply wp_bind. eapply wp_DecommitSpan; [done|done|]. intros ok h1 HI1 HS1 Hm1.
  assert (merging p s h -> spans h1 !! p = Some s) as Hp1 by (intros; by rewrite HS1).
  specialize (Hp1 HM). destruct ok.
  - eapply wp_upd_span; [done|].
    apply (HK _ (set_location ON_RETURNED_FREELIST s)); try done.
    + split; [|split; [apply lookup_insert_eq|done]].
      rewrite Hc in HI1. unfold debt in *. simpl in *.
      apply (Inv_update_exempt p s); [done|by left|done..|].
      replace (kPageSize * length_ s) with (0 + kPageSize * length_ s) by lia. done.
    + eapply kept_trans; [by apply kept_same|]. split.
      * constructor; unfold inuse; cbn -[insert lookup]; [|done]. intros q u _.
        destruct (decide (q = p)) as [->|]; [|by rewrite lookup_insert_ne].
        rewrite lookup_insert_eq, Hp1. split; intros [[= <-] ?]; [congruence|done].
      * unfold count_normal. cbn -[decide]. rewrite (msum_update _ _ _ s) by done. simpl.
        rewrite Hc. simpl. lia.
      * unfold returned_pages, pages_on. cbn -[decide]. rewrite (msum_update _ _ _ s) by done. rewrite Hc. simpl.
        destruct (geo_wf _ _ _ _ (inv_geo _ _ _ HI) p s Hp) as (_ & _ & ? & _). lia.
  - apply wp_ret, (HK h1 s); [|by apply kept_same|done|done]. split; [done|]. by rewrite HS1.
Qed.

Lemma wp_MergeIntoFreeList p s (Q : unit -> heap -> Prop) h :
  merging p s h ->
  (forall h' s', Inv ∅ 0 h' -> kept h h' -> spans h' !! p = Some s' -> location s' <> IN_USE ->
     (forall pg, in_span s pg -> in_span s' pg) -> Q tt h') ->
  wp (MergeIntoFreeList p) Q h.
Proof.
  intros HM HQ. unfold MergeIntoFreeList. apply wp_bind. eapply wp_get_span; [apply HM|].
  apply wp_bind, wp_read. cbn zeta. apply wp_bind. eapply wp_merge_decommit; [done| |].
  { intros [_ ?%bool_decide_eq_true]%andb_true_iff. done. }
  intros h1 s1 HM1 Hk1 E1 E2. pose proof HM1 as (HI1 & Hp1 & Hl1).
  pose proof (geo_wf _ _ _ _ (inv_geo _ _ _ HI1) p s1 Hp1) as Hw1.
  rewrite <- E1, <- E2, !u64_small by lia. apply wp_bind, wp_read.
  change (GetDescriptor (start s1 - 1) h1) with (pm_get (pagemap_ h1) (start s1 - 1)).
  apply wp_bind. apply (wp_mono _ (fun r h' => wp (if r =? 0 then mret tt else merge_prev p r)
    (fun _ h'' => wp (other ← read (GetDescriptor (start s1 + length_ s1));
       next ← CheckAndHandlePreMerge p other;
       _ ← (if next =? 0 then mret tt else merge_next p next);
       PrependToFreeList p) Q h'') h')); [|intros r h' Hr; by apply wp_bind].
  eapply (wp_try_merge p _ s1 merge_prev); [done| | |].
  { intros Hq0. destruct (geo_prev _ _ _ _ p s1 _ (inv_geo _ _ _ HI1) Hp1 eq_refl Hq0) as (o & ? & ? & _). eauto. }
  { intros o h' D Q' Ho HI' Hp' [b Hq'] HQ'.
    assert (pm_get (pagemap_ h1) (start s1 - 1) <> 0) as Hq0.
    { intros Ez. rewrite Ez in Ho. by destruct (geo_wf _ _ _ _ (inv_geo _ _ _ HI1) 0 o Ho). }
    destruct (geo_prev _ _ _ _ p s1 _ (inv_geo _ _ _ HI1) Hp1 eq_refl Hq0) as (o' & Ho' & Hne & Hadj).
    simplify_eq. eapply (wp_merge_prev p _ s1 (set_span_iter b o)); try done. }
  intros h2 s2 HM2 Hk2 Hs2. pose proof HM2 as (HI2 & Hp2 & Hl2).
  assert (start s2 + length_ s2 = start s1 + length_ s1 /\ start s2 <= start s1) as [Eend Est].
  { destruct Hs2 as [->|(o & Ho & Hq0 & ->)]; [lia|].
    destruct (geo_prev _ _ _ _ p s1 _ (inv_geo _ _ _ HI1) Hp1 eq_refl Hq0) as (o' & ? & _ & ?).
    simplify_eq. destruct (geo_wf _ _ _ _ (inv_geo _ _ _ HI1) _ o Ho). simpl. lia. }
  apply wp_bind, wp_read. rewrite <- Eend.
  change (GetDescriptor (start s2 + length_ s2) h2) with (pm_get (pagemap_ h2) (start s2 + length_ s2)).
  apply wp_bind. apply (wp_mono _ (fun r h' => wp (if r =? 0 then mret tt else merge_next p r)
    (fun _ h'' => wp (PrependToFreeList p) Q h'') h')); [|intros r h' Hr; by apply wp_bind].
  eapply (wp_try_merge p _ s2 merge_next); [done| | |].
  { intros Hq0. destruct (geo_next _ _ _ _ p s2 _ (inv_geo _ _ _ HI2) Hp2 eq_refl Hq0) as (o & ? & ? & _). eauto. }
  { intros o h' D Q' Ho HI' Hp' [b Hq'] HQ'.
    assert (pm_get (pagemap_ h2) (start s2 + length_ s2) <> 0) as Hq0.
    { intros Ez. rewrite Ez in Ho. by destruct (geo_wf _ _ _ _ (inv_geo _ _ _ HI2) 0 o Ho). }
    destruct (geo_next _ _ _ _ p s2 _ (inv_geo _ _ _ HI2) Hp2 eq_refl Hq0) as (o' & Ho' & Hne & Hadj).
    simplify_eq. eapply (wp_merge_next p _ s2 (set_span_iter b o)); try done. }
  intros h3 s3 (HI3 & Hp3 & Hl3) Hk3 Hs3.
  assert (start s3 = start s2 /\ length_ s2 <= length_ s3) as [Est3 Elen3].
  { destruct Hs3 as [->|(o & Ho & Hq0 & ->)]; [lia|].
    destruct (geo_next _ _ _ _ p s2 _ (inv_geo _ _ _ HI2) Hp2 eq_refl Hq0) as (o' & ? & _ & ?).
    simplify_eq. destruct (geo_wf _ _ _ _ (inv_geo _ _ _ HI2) _ o Ho).
    destruct (geo_wf _ _ _ _ (inv_geo _ _ _ HI2) p s2 Hp2). simpl. lia. }
  pose proof (geo_wf _ _ _ _ (inv_geo _ _ _ HI3) p s3 Hp3) as Hw3.
  eapply (wp_PrependToFreeList {[p]}); [done|set_solver|done|lia| |apply HI3|apply HI3|].
  { intros q t (Hq & Hqp & _)%listed_Some. eapply (geo_starts _ _ _ _ p q); [apply HI3|done|done|set_solver]. }
  intros h4 b [Hm4 He4 Hi4 Hs4] HS4 HL4 HB4. rewrite difference_diag_L in HL4, HB4.
  assert (kept h3 h4) as Hk4.
  { split.
    - constructor; unfold inuse; rewrite ?Hm4; [|done]. intros q u _. rewrite HS4.
      destruct (decide (q = p)) as [->|]; [|by rewrite lookup_insert_ne].
      rewrite lookup_insert_eq, Hp3. split; intros [[= <-] ?]; done.
    - unfold count_normal. rewrite HS4, (msum_update _ _ _ s3) by done. simpl. lia.
    - unfold returned_pages, pages_on. rewrite HS4, (msum_update _ _ _ s3) by done. simpl. lia. }
  apply (HQ h4 (set_span_iter b s3)); try done.
  - destruct HI3 as [HG HL HB HE Hlv Hc Hi Ha]. constructor; rewrite ?Hm4, ?He4, ?Hi4; try done.
    + rewrite HS4. by eapply geo_similar.
    + replace 0 with (if decide (location s3 = ON_RETURNED_FREELIST)
        then debt (location s3) (length_ s3) - kPageSize * length_ s3 else debt (location s3) (length_ s3)); [done|].
      unfold debt. destruct (decide _); lia.
    + rewrite HS4. apply live_update; [by rewrite Hp3|done].
    + rewrite HS4. apply clean_update; [|done]. intros _. by apply (Hc p s3).
    + rewrite HS4, Hs4. by eapply accounted_update.
  - eapply kept_trans; [done|]. eapply kept_trans; [done|]. by eapply kept_trans.
  - by rewrite HS4, lookup_insert_eq.
  - intros pg. unfold in_span. simpl. lia.
Qed.
End Ops.
