(* ===== verification/PageHeapRelease.v ===== *)
(** * Releasing memory and deleting spans

    The release loop ends and makes progress, the scavenger and [Delete]
    preserve the invariant. *)
From S2P Require Import Prelude Common PageMap PackedCache Span SysEnv PageHeap PageHeapInv PageHeapOps Double.
Import PH.

Section Release.
Context {PM E : Type} `{!PageMap PM} `{!PageMapLaws PM} `{!SysEnv E} `{!SysEnvLaws E}.
Abbreviation heap := (PageHeap PM E).
Implicit Types h : heap.

(** Between operations. *)
Abbreviation HInv := (Inv (PM := PM) (E := E) ∅ 0).

(** The system never refuses to take pages back. *)
Definition willing : Prop := forall a n (e : E), env_wf e -> 1 <= a -> 1 <= n -> a + n < 2 ^ 36 ->
  wp (TCMalloc_SystemRelease (kPageSize * a) (kPageSize * n)) (fun ok _ => ok = true) e.
Lemma wp_willing p s h : willing -> HInv h -> spans h !! p = Some s -> wp (DecommitSpan p) (fun rv _ => rv = true) h.
Proof.
  intros Hw HI Hp. destruct (geo_wf _ _ _ _ (inv_geo _ _ _ HI) p s Hp) as (_ & ? & ? & ?).
  unfold DecommitSpan. apply wp_bind, wp_upd_stats. apply wp_bind. eapply wp_get_span; [done|].
  change (u64 (Z.shiftl (start s) kPageShift)) with (bytes_of (start s)). rewrite !bytes_of_eq, !u64_small by clia.
  apply wp_bind, wp_in_env. eapply wp_mono; [apply Hw; [apply HI|lia..]|]. intros rv e ->. cbn beta iota. by apply wp_bind, wp_upd_stats, wp_ret.
Qed.
Lemma wp_given {S A} (P : Prop) (m : M S A) (Q R : A -> S -> Prop) s : wp m Q s -> (P -> wp m R s) -> wp m (fun a s' => Q a s' /\ (P -> R a s')) s.
Proof. unfold wp. destruct (m s) as [[a s']|[]]; auto. Qed.

Lemma pages_on_total loc (S : gmap Z Span) : (forall p s, S !! p = Some s -> 0 <= length_ s) -> pages_on loc S <= total_pages S.
Proof. intros HS. apply msum_le. intros p s Hp. pose proof (HS p s Hp). case_decide; lia. Qed.
Lemma returned_small h : HInv h -> 0 <= returned_pages h < 2 ^ 31.
Proof.
  intros HI. assert (forall p s, spans h !! p = Some s -> 1 <= length_ s) as Hl by (intros p s Hp; apply (geo_wf _ _ _ _ (inv_geo _ _ _ HI) p s Hp)).
  split; [apply msum_nonneg; intros p s Hp; pose proof (Hl p s Hp); case_decide; lia|].
  destruct (inv_total _ _ _ HI) as (lost & ? & _ & ?). pose proof (taken_size _ (inv_env _ _ _ HI)).
  pose proof (pages_on_total ON_RETURNED_FREELIST (spans h) ltac:(intros p s Hp; pose proof (Hl p s Hp); lia)). unfold returned_pages. lia.
Qed.

Lemma wp_ReleaseSpan p s (Q : Z -> heap -> Prop) h :
  HInv h -> spans h !! p = Some s -> location s = ON_NORMAL_FREELIST ->
  (~ willing -> forall h', HInv h' -> kept h h' -> Q 0 h') ->
  (forall h', HInv h' -> kept h h' -> count_normal h' < count_normal h -> returned_pages h + length_ s <= returned_pages h' -> Q (length_ s) h') ->
  wp (ReleaseSpan p) Q h.
Proof.
  intros HI Hp Hloc HQ0 HQ1. unfold ReleaseSpan. apply wp_bind.
  eapply wp_mono; [apply (wp_given willing); [|by intros; eapply wp_willing]|].
  { eapply (wp_DecommitSpan _ _ _ _ (fun rv h1 => Inv ∅ (if rv then 0 + kPageSize * length_ s else 0) h1 /\ spans h1 = spans h /\ pagemap_ h1 = pagemap_ h)); done. }
  cbn beta. intros [] h1 [(HI1 & HS1 & Hm1) Hwill].
  2: { apply wp_ret, HQ0; [by intros ?%Hwill|done|by apply kept_same]. }
  apply wp_bind. eapply wp_Remove_Inv; [done|by rewrite HS1|set_solver|congruence|].
  intros h2 b HI2 HS2 Hm2. rewrite union_empty_r_L in HI2.
  set (s2 := set_span_iter b s) in *.
  assert (spans h2 !! p = Some s2) as Hp2 by (by rewrite HS2, lookup_insert_eq).
  apply wp_bind. eapply wp_get_span; [done|]. apply wp_bind. eapply wp_upd_span; [done|].
  set (s3 := set_location ON_RETURNED_FREELIST s2).
  set (h3 := with_spans _ h2).
  assert (merging p s3 h3) as HM.
  { split; [|split; [apply lookup_insert_eq|done]]. unfold h3.
    apply (Inv_update_exempt p s2); [done|left; simpl; congruence|done..|].
    rewrite Hloc in HI2. unfold debt in *. simpl in *.
    replace (kPageSize * length_ s) with (0 + kPageSize * length_ s + 0) by lia. done. }
  assert (spans h3 = <[p := s3]> (spans h)) as HS3
    by (unfold h3; cbn -[insert]; by rewrite HS2, HS1, insert_insert_eq).
  assert (same_inuse ∅ h h3 /\ count_normal h3 < count_normal h /\ returned_pages h3 = returned_pages h + length_ s) as (Hsi & Hcnt & Hret).
  { split; [|split].
    - constructor; unfold inuse.
      + intros q u _. rewrite HS3. destruct (decide (q = p)) as [->|]; [|by rewrite lookup_insert_ne].
        rewrite lookup_insert_eq, Hp. split; intros [[= <-] ?]; [congruence|done].
      + intros. unfold h3. cbn. by rewrite Hm2, Hm1.
    - unfold count_normal. rewrite HS3, (msum_update _ _ _ s) by done. rewrite Hloc. simpl. lia.
    - unfold returned_pages, pages_on. rewrite HS3, (msum_update _ _ _ s) by done. rewrite Hloc. simpl. lia. }
  pose proof (geo_wf _ _ _ _ (inv_geo _ _ _ HI) p s Hp) as Hw.
  apply wp_bind. eapply wp_MergeIntoFreeList; [done|]. intros h4 s4 HI4 [Hs4 Hc4 Hr4] _ _ _.
  apply wp_ret. apply HQ1; [done| |lia|lia].
  split; [by eapply same_inuse_trans|lia|lia].
Qed.

(** ** The release loop *)

(** The span the loop takes at index [k]. *)
Definition candidate h (k : Z) : option Z :=
  if k =? kMaxPages then e_span <$> head (large_normal_ h) else last (normal (span_list h k)).

Lemma candidate_normal h k p : HInv h -> 0 <= k <= kMaxPages -> candidate h k = Some p ->
  exists s, spans h !! p = Some s /\ location s = ON_NORMAL_FREELIST.
Proof.
  intros HI Hk. unfold candidate. destruct (Z.eqb_spec k kMaxPages) as [->|Hne].
  - destruct (large_normal_ h) as [|e l] eqn:El; [done|]. simpl. intros [= <-].
    assert (e ∈ large h ON_NORMAL_FREELIST) as He by (simpl; rewrite El; left).
    apply (ls_large _ _ _ (inv_lists _ _ _ HI)) in He as (s & (Hs & _ & _)%listed_Some & ? & _); [|done].
    eauto.
  - intros Hp%last_Some_elem_of. assert (p ∈ flist h ON_NORMAL_FREELIST k) as He by done.
    apply (ls_mem _ _ _ (inv_lists _ _ _ HI)) in He as (s & (Hs & _ & _)%listed_Some & ? & _); [|done].
    eauto.
Qed.

(** If no index has a candidate, no free byte is counted. *)
Lemma no_candidate h : HInv h -> (forall k, 0 <= k <= kMaxPages -> candidate h k = None) ->
  free_bytes (stats_ h) = 0.
Proof.
  intros HI Hn. rewrite (bk_free _ _ _ (inv_books _ _ _ HI)).
  enough (pages_on ON_NORMAL_FREELIST (listed ∅ (spans h)) = 0) as -> by done.
  destruct (decide (pages_on ON_NORMAL_FREELIST (listed ∅ (spans h)) = 0)) as [|Hne]; [done|].
  apply msum_exists in Hne as (p & s & Hp & Hw). case_decide as El; [|done].
  pose proof Hp as (Hs & _ & _)%listed_Some.
  pose proof (geo_wf _ _ _ _ (inv_geo _ _ _ HI) p s Hs) as (_ & _ & Hlen & _).
  exfalso. destruct (Z.le_gt_cases (length_ s) kMaxPages) as [Hle|Hgt].
  - assert (p ∈ flist h ON_NORMAL_FREELIST (length_ s - 1)) as Hin.
    { apply (ls_mem _ _ _ (inv_lists _ _ _ HI)); [done|]. exists s. split_and!; try done. lia. }
    specialize (Hn (length_ s - 1) ltac:(lia)). unfold candidate in Hn.
    rewrite (proj2 (Z.eqb_neq _ _)) in Hn by lia. apply last_None in Hn.
    cbn [flist] in Hin. rewrite Hn in Hin. set_solver.
  - assert (mkEntry p (length_ s) (start s) ∈ large h ON_NORMAL_FREELIST) as Hin.
    { apply (ls_large _ _ _ (inv_lists _ _ _ HI)); [done|]. by exists s. }
    specialize (Hn kMaxPages ltac:(clia)). unfold candidate in Hn. rewrite Z.eqb_refl in Hn.
    cbn [large] in Hin. destruct (large_normal_ h); [set_solver|done].
Qed.

Lemma HInv_index v h : HInv h -> 0 <= v -> HInv (with_release_index v h).
Proof. intros [] Hv. by constructor. Qed.
Lemma kept_index v h : kept h (with_release_index v h).
Proof. by apply kept_same. Qed.

(** The first index the loop visits, and the index after [i] steps from [r]. *)
Definition first_index h : Z := if release_index_ h >? kMaxPages then 0 else release_index_ h.
Definition index_at (r i : Z) : Z := (r + i) mod (kMaxPages + 1).

Lemma index_at_cover r k : 0 <= k <= kMaxPages ->
  exists j, 0 <= j <= kMaxPages /\ index_at r j = k.
Proof.
  intros Hk. exists ((k - r) mod (kMaxPages + 1)). unfold index_at. consts. simpl (128 + 1) in *.
  split; [zdiv|]. rewrite Zplus_mod_idemp_r. replace (r + (k - r)) with k by lia. zdiv.
Qed.

(** Invariant of the inner loop started in [h0] with [rel0] pages released,
    the system having had [b] pages before the outer one: a span was released, or nothing changed and the lists visited so far
    are empty. *)
Definition inner_inv (b : Z) h0 (rel0 : Z) (n : nat) (a : Z * Z) h : Prop :=
  let '(i, released) := a in
  HInv h /\ kept h0 h /\ 0 <= i <= kMaxPages + 1 /\ Z.of_nat n = kMaxPages + 1 - i /\
  0 <= released < 2 ^ 64 /\ b + released <= returned_pages h /\
  (count_normal h < count_normal h0 \/
   released = rel0 /\ exists v, h = with_release_index v h0 /\
     (v <= kMaxPages /\ v = index_at (first_index h0) i \/
      kMaxPages < v /\ index_at (first_index h0) i = 0) /\
     forall j, 0 <= j < i -> candidate h0 (index_at (first_index h0) j) = None).

Lemma inner_step b h0 rel0 num n a h : HInv h0 -> 0 <= b -> 0 <= rel0 -> rel0 < num -> free_bytes (stats_ h0) > 0 ->
  inner_inv b h0 rel0 n a h ->
  wp (release_iter num a) (fun r h' =>
    match r with
    | inl a' => exists n', n = S n' /\ inner_inv b h0 rel0 n' a' h'
    | inr (inl released) => HInv h' /\ kept h0 h' /\ count_normal h' < count_normal h0 /\ 0 <= released < 2 ^ 64 /\ b + released <= returned_pages h'
    | inr (inr released) => HInv h' /\ kept h0 h' /\ 0 <= released < 2 ^ 64 /\ b + released <= returned_pages h' /\ ~ willing /\
        (released <> rel0 -> count_normal h' < count_normal h0)
    end) h.
Proof.
  intros HI0 Hb Hr0 Hr1 Hfree. destruct a as [i released]. intros (HI & Hk & Hi & Hn & Hrel & Hret & Hcase).
  unfold release_iter. destruct (negb _) eqn:Eg.
  { apply wp_ret. split; [done|]. split; [done|]. split; [|done].
    clear Hret. destruct Hcase as [?|(-> & v & -> & _ & Hnone)]; [done|]. exfalso.
    apply negb_true_iff, andb_false_iff in Eg as [Eg%Z.ltb_ge|Eg%Z.ltb_ge]; [|lia].
    assert (free_bytes (stats_ h0) = 0); [|lia]. apply no_candidate; [done|].
    intros k Hk'. destruct (index_at_cover (first_index h0) k Hk') as (j & Hj & <-).
    apply Hnone. lia. }
  apply negb_false_iff, andb_true_iff in Eg as [Ei%Z.ltb_lt Er%Z.ltb_lt].
  apply wp_bind, wp_mod. cbn beta.
  set (h1 := if release_index_ h >? kMaxPages then with_release_index 0 h else h).
  assert (HInv h1 /\ kept h h1 /\ 0 <= release_index_ h1 <= kMaxPages) as (HI1 & Hk1 & Hx1).
  { unfold h1. pose proof (inv_index _ _ _ HI). rewrite Z.gtb_ltb.
    destruct (Z.ltb_spec kMaxPages (release_index_ h)); [|split; [done|]; split; [apply kept_refl|lia]].
    split; [apply HInv_index; [done|clia]|]. split; [apply kept_index|]. cbn. clia. }
  assert (count_normal h1 < count_normal h0 \/ released = rel0 /\
    h1 = with_release_index (index_at (first_index h0) i) h0 /\
    forall j, 0 <= j < i -> candidate h0 (index_at (first_index h0) j) = None) as Hcase1.
  { destruct Hcase as [Hlt|(-> & v & -> & Hv & Hnone)]; [left; destruct Hk1; lia|]. right.
    split; [done|]. split; [|done]. unfold h1. rewrite Z.gtb_ltb. cbn [release_index_ with_release_index].
    destruct Hv as [[? ->]|[? Ez]].
    - rewrite (proj2 (Z.ltb_ge _ _)) by done. done.
    - rewrite (proj2 (Z.ltb_lt _ _)) by lia. by rewrite Ez. }
  apply wp_bind, wp_read. change (release_candidate h1) with (candidate h1 (release_index_ h1)).
  assert (kept h0 h1) as Hk01 by (by eapply kept_trans).
  destruct (candidate h1 (release_index_ h1)) as [p|] eqn:Ec.
  - destruct (candidate_normal h1 _ p HI1 Hx1 Ec) as (s & Hs & Hloc).
    pose proof (geo_wf _ _ _ _ (inv_geo _ _ _ HI1) p s Hs) as Hw.
    apply wp_bind. eapply wp_ReleaseSpan; [done|done|done|intros Hnw|]; intros h2 HI2 Hk2.
    + rewrite Z.eqb_refl. apply wp_ret. split; [done|]. split; [by eapply kept_trans|].
      split; [done|]. split; [destruct Hk1, Hk2; lia|]. split; [done|]. intros Hne. destruct Hcase1 as [?|[? _]]; [destruct Hk2; lia|done].
    + intros Hcnt Hlen. rewrite (proj2 (Z.eqb_neq _ 0)) by lia. apply wp_bind, wp_mod, wp_ret.
      pose proof (returned_small h2 HI2). assert (u64 (released + length_ s) = released + length_ s) as -> by (apply u64_small; destruct Hk1; lia).
      pose proof (inv_index _ _ _ HI2) as Hx2.
      exists (Nat.pred n). split; [lia|]. unfold inner_inv.
      split; [by apply HInv_index; [|lia]|].
      split; [eapply kept_trans; [|apply kept_index]; by eapply kept_trans|].
      do 2 (split; [lia|]). split; [destruct Hk1; lia|]. change (returned_pages (with_release_index _ h2)) with (returned_pages h2).
      split; [destruct Hk1; lia|]. left.
      change (count_normal (with_release_index _ h2)) with (count_normal h2).
      destruct Hk01. lia.
  - apply wp_bind, wp_mod, wp_ret. exists (Nat.pred n). split; [lia|]. unfold inner_inv.
    split; [by apply HInv_index; [|lia]|].
    split; [eapply kept_trans; [|apply kept_index]; done|].
    do 2 (split; [lia|]). split; [done|]. change (returned_pages (with_release_index _ h1)) with (returned_pages h1).
    split; [destruct Hk1; lia|]. destruct Hcase1 as [?|(-> & Hh1 & Hnone)]; [by left|right].
    split; [done|]. rewrite Hh1 in Ec |- *. cbn [release_index_ with_release_index] in *.
    exists (index_at (first_index h0) i + 1). split; [done|]. split.
    + unfold index_at. consts. simpl (128 + 1). zdiv.
    + intros j Hj. destruct (decide (j = i)) as [->|]; [exact Ec|apply Hnone; lia].
Qed.

Lemma inner_start b h rel n : HInv h -> 0 <= rel < 2 ^ 64 -> b + rel <= returned_pages h -> Z.of_nat n = kMaxPages + 1 ->
  inner_inv b h rel n (0, rel) h.
Proof.
  intros HI Hrel Hb Hn. split; [done|]. split; [apply kept_refl|]. split; [clia|]. split; [lia|].
  split; [done|]. split; [done|]. right. split; [done|]. exists (release_index_ h). split; [by destruct h|].
  split; [|intros; lia]. pose proof (inv_index _ _ _ HI). unfold first_index, index_at.
  rewrite Z.gtb_ltb, Z.add_0_r. destruct (Z.ltb_spec kMaxPages (release_index_ h)); [by right|left].
  rewrite Z.mod_small by lia. done.
Qed.

(** Invariant of the outer loop. *)
Definition outer_inv h0 (n : nat) (released : Z) h : Prop :=
  HInv h /\ kept h0 h /\ 0 <= released < 2 ^ 64 /\ returned_pages h0 + released <= returned_pages h /\ Z.of_nat n = count_normal h /\
  (released <> 0 -> count_normal h < count_normal h0).

Lemma outer_step h0 num n released h : HInv h0 -> outer_inv h0 n released h ->
  wp (release_round num released) (fun r h' =>
    match r with
    | inl released' => exists n', n = S n' /\ (exists m, (m <= n')%nat /\ outer_inv h0 m released' h')
    | inr r => HInv h' /\ kept h0 h' /\ 0 <= r < 2 ^ 64 /\ (r <> 0 -> count_normal h' < count_normal h0) /\
        returned_pages h0 + r <= returned_pages h' /\ (willing -> num <= r \/ free_bytes (stats_ h') <= 0)
    end) h.
Proof.
  intros HI0 (HI & Hk & Hrel & Hret & Hn & Hpos). unfold release_round. apply wp_bind, wp_get. pose proof (returned_small h0 HI0) as Hb.
  destruct (negb _) eqn:Eg.
  { apply wp_ret. do 5 (split; [done|]). intros _. apply negb_true_iff, andb_false_iff in Eg as [?%Z.ltb_ge|?]; [by left|right]. rewrite Z.gtb_ltb in *. by apply Z.ltb_ge. }
  apply negb_false_iff, andb_true_iff in Eg as [Er%Z.ltb_lt Ef]. apply Z.gtb_gt in Ef.
  apply wp_bind. eapply wp_mono.
  - eapply (loopM_count _ (inner_inv (returned_pages h0) h released)
      (fun r h' => match r with
       | inl rel => HInv h' /\ kept h h' /\ count_normal h' < count_normal h /\ 0 <= rel < 2 ^ 64 /\ returned_pages h0 + rel <= returned_pages h'
       | inr rel => HInv h' /\ kept h h' /\ 0 <= rel < 2 ^ 64 /\ returned_pages h0 + rel <= returned_pages h' /\ ~ willing /\
           (rel <> released -> count_normal h' < count_normal h)
       end)) with (n := 129%nat); [|by apply inner_start|unfold release_fuel; lia].
    intros n' a s Ha. eapply wp_mono; [apply (inner_step (returned_pages h0) h released num); [done|lia|lia|done|lia|done]|].
    intros [a'|[rel|rel]] h'; done.
  - intros [rel|rel] h'; cbn beta iota; intros HH; apply wp_ret.
    + destruct HH as (HI' & Hk' & Hlt & Hrel' & Hret'). pose proof (count_normal_bounds h').
      exists (Nat.pred n). split; [lia|]. exists (Z.to_nat (count_normal h')). split; [lia|].
      split; [done|]. split; [by eapply kept_trans|]. split; [done|]. split; [done|]. split; [lia|].
      intros _. destruct Hk. lia.
    + destruct HH as (HI' & Hk' & Hrel' & Hret' & Hnw & Hlt). split; [done|]. split; [by eapply kept_trans|].
      split; [done|]. split; [|by split]. intros Hne. destruct (decide (rel = released)) as [->|Hd].
      * specialize (Hpos Hne). destruct Hk'. lia.
      * specialize (Hlt Hd). destruct Hk. lia.
Qed.

Lemma wp_ReleaseAtLeastNPages num (Q : Z -> heap -> Prop) h : HInv h ->
  (forall r h', HInv h' -> kept h h' -> 0 <= r < 2 ^ 64 ->
     (r <> 0 -> count_normal h' < count_normal h) -> returned_pages h + r <= returned_pages h' ->
     (willing -> num <= r \/ free_bytes (stats_ h') <= 0) -> Q r h') ->
  wp (ReleaseAtLeastNPages num) Q h.
Proof.
  intros HI HQ. unfold ReleaseAtLeastNPages. apply wp_bind, wp_get.
  pose proof (count_normal_bounds h).
  eapply wp_mono; [|intros r h' Hr; exact Hr].
  eapply (loopM_count _ (fun n a h' => exists m, (m <= n)%nat /\ outer_inv h m a h'))
    with (n := Z.to_nat (count_normal h)).
  - intros n a h' (m & Hm & Ho). eapply wp_mono; [by apply (outer_step h num m a h' HI)|]. intros [r|r] h''; cbn beta iota.
    + intros (m' & -> & k & Hk & Hok). exists (Nat.pred n). split; [lia|]. exists k. split; [lia|done].
    + intros (? & ? & ? & ? & ? & ?). by apply HQ.
  - eexists. split; [done|]. split; [done|]. split; [apply kept_refl|]. split; [lia|]. split; [lia|]. split; [lia|done].
  - lia.
Qed.

(** ** Scavenging and deleting *)

Lemma release_wait_ok rate r : rate <> S754_nan -> d_leb rate d_1em6 = false -> 0 < r < 2 ^ 64 ->
  exists w, release_wait rate r = Ret w.
Proof.
  intros Hn Hle Hr. unfold release_wait.
  destruct (d_of_Z_finite 1000) as (m1 & e1 & ->); [lia|].
  destruct (d_of_Z_finite r) as (m2 & e2 & ->); [lia|].
  destruct (d_of_Z_finite kMaxReleaseDelay) as (m3 & e3 & ->); [done|].
  assert (d_pos rate /\ rate <> S754_zero false) as [Hp H0].
  { destruct rate as [[]|[]| |[] m e]; try done. }
  edestruct (d_trunc_clamp (d_mul (d_div (S754_finite false m1 e1) rate) (S754_finite false m2 e2)) m3 e3)
    as [w Hw]; [by apply d_mul_pos, d_div_pos|]. rewrite Hw. by exists w.
Qed.

Section Flags.
Context (release_rate : double) (heap_limit_mb : Z).
Hypothesis Hrate : release_rate <> S754_nan.

Lemma HInv_scavenge v h : HInv h -> HInv (with_scavenge v h).
Proof. intros []. by constructor. Qed.
Lemma HInv_count_scavenge h : HInv h -> HInv (with_stats (count_scavenge (stats_ h)) h).
Proof. intros [??[]????]. constructor; try done. Qed.

Lemma wp_IncrementalScavenge n (Q : unit -> heap -> Prop) h : HInv h ->
  (forall h', HInv h' -> kept h h' -> Q tt h') -> wp (IncrementalScavenge release_rate n) Q h.
Proof.
  intros HI HQ. unfold IncrementalScavenge. apply wp_bind, wp_mod, wp_bind, wp_read.
  destruct (_ >=? 0); [apply wp_ret, HQ; [by apply HInv_scavenge|by apply kept_same]|].
  destruct (d_leb release_rate d_1em6) eqn:Ele;
    [apply wp_mod, HQ; [by apply HInv_scavenge, HInv_scavenge|by apply kept_same]|].
  apply wp_bind, wp_upd_stats, wp_bind.
  eapply wp_ReleaseAtLeastNPages; [by apply HInv_count_scavenge, HInv_scavenge|].
  intros r h' HI' Hk' Hr _ _ _.
  assert (forall v, kept h (with_scavenge v h')) as Hk
    by (intros v; eapply kept_trans; [|eapply kept_trans; [exact Hk'|]]; by apply kept_same).
  destruct (Z.eqb_spec r 0); [apply wp_mod, HQ; [by apply HInv_scavenge|done]|].
  destruct (release_wait_ok release_rate r) as [w Hw]; [done|done|lia|].
  apply wp_bind. apply (wp_lift _ w); [done|]. apply wp_mod, HQ; [by apply HInv_scavenge|done].
Qed.

(** Deleting a span in use: its pages are free afterwards. *)
Lemma wp_DeleteLocked p s (Q : unit -> heap -> Prop) h :
  HInv h -> spans h !! p = Some s -> location s = IN_USE ->
  (forall h', HInv h' -> same_inuse {[p]} h h' -> (forall t, ~ inuse h' p t) -> Q tt h') ->
  wp (DeleteLocked release_rate p) Q h.
Proof.
  intros HI Hp Hloc HQ. unfold DeleteLocked. apply wp_bind. eapply wp_get_span; [done|].
  apply wp_bind. eapply wp_upd_span; [done|]. apply wp_bind. eapply wp_upd_span; [apply lookup_insert_eq|].
  apply wp_bind. eapply wp_upd_span; [apply lookup_insert_eq|]. cbn [spans with_spans].
  set (s' := set_location _ _). set (h1 := with_spans _ _).
  assert (spans h1 = <[p := s']> (spans h)) as HS by (unfold h1; cbn -[insert]; by rewrite !insert_insert_eq).
  assert (merging p s' h1) as HM.
  { split; [|split; [by rewrite HS, lookup_insert_eq|done]].
    destruct HI as [HG HL HB HE Hlv Hc Hi Ha].
    assert (listed {[p]} (<[p := s']> (spans h)) = listed ∅ (spans h)) as EV.
    { apply listed_eq. intros q u. destruct (decide (q = p)) as [->|].
      - rewrite lookup_insert_eq, Hp. split; [set_solver|]. intros ([= <-] & _ & ?). done.
      - rewrite lookup_insert_ne by done. set_solver. }
    constructor; rewrite ?HS, ?EV; try done.
    - by eapply geo_similar.
    - apply live_update; [by rewrite Hp|done].
    - by apply clean_update.
    - by eapply accounted_update. }
  apply wp_bind. eapply wp_MergeIntoFreeList; [done|]. intros h2 s2 HI2 [Hk2 _] Hp2 Hl2 _.
  apply wp_IncrementalScavenge; [done|]. intros h3 HI3 [Hk3 _]. apply HQ; [done| |].
  - apply (same_inuse_trans _ h h1 h3);
      [|eapply same_inuse_mono; [|by eapply (same_inuse_trans _ h1 h2)]; set_solver].
    constructor; unfold inuse; [|by intros]. intros q u Hq. rewrite HS, lookup_insert_ne by set_solver. done.
  - intros t Ht. apply (si_span _ _ _ Hk3) in Ht as [Ht ?]; [|set_solver]. congruence.
Qed.

Definition limit_ok (n : Z) h : bool :=
  let limit := u64 (Z.shiftr (s64 (heap_limit_mb * 1024 * 1024)) kPageShift) in
  (limit =? 0) ||
  (u64 (u64 (Z.shiftr (TCMalloc_SystemTaken (env h)) kPageShift -
             Z.shiftr (unmapped_bytes (stats_ h)) kPageShift) + n) <=? limit).

Lemma wp_EnsureLimit_false n (Q : bool -> heap -> Prop) h :
  Q (limit_ok n h) h -> wp (EnsureLimit heap_limit_mb n false) Q h.
Proof.
  intros HQ. unfold EnsureLimit, limit_ok in *. destruct (_ =? 0) eqn:E0; [by apply wp_ret|].
  apply wp_bind, wp_get, wp_bind. rewrite andb_false_r. by apply wp_ret, wp_ret.
Qed.

Lemma wp_EnsureLimit n (Q : bool -> heap -> Prop) h : HInv h ->
  (forall ok h', HInv h' -> kept h h' ->
     (ok = true -> limit_ok n h = false -> count_normal h' < count_normal h) -> Q ok h') ->
  wp (EnsureLimit heap_limit_mb n true) Q h.
Proof.
  intros HI HQ. unfold EnsureLimit. destruct (_ =? 0) eqn:E0.
  { apply wp_ret, HQ; [done|apply kept_refl|]. unfold limit_ok. by rewrite E0. }
  apply wp_bind, wp_get, wp_bind. rewrite andb_true_r, Z.gtb_ltb. unfold limit_ok in HQ. rewrite E0 in HQ.
  set (limit := u64 (Z.shiftr _ _)) in *. set (t := u64 (Z.shiftr _ _ - _)) in *. cbn [orb] in HQ.
  destruct (Z.ltb_spec limit (u64 (t + n))) as [Hlt|Hge].
  - apply wp_bind. apply wp_ReleaseAtLeastNPages; [done|]. intros r h' HI' Hk Hr Hc _ _.
    apply wp_ret, wp_ret, HQ; [done|done|]. intros Hle%Z.leb_le _.
    destruct (decide (r = 0)) as [->|Hr0]; [|by apply Hc].
    rewrite Z.sub_0_r, u64_add_l in Hle. lia.
  - apply wp_ret, wp_ret, HQ; [done|apply kept_refl|]. intros _ Hf%Z.leb_gt. lia.
Qed.
End Flags.
End Release.
