(* ===== verification/PageHeapAlloc.v ===== *)
(** * Allocating spans

    The searches, the growth of the heap and the public operations, with
    the properties of the page heap at the end. *)
From Stdlib Require Import Sorting.Sorted.
From S2P Require Import Prelude Common PageMap PackedCache Span SysEnv PageHeap PageHeapInv PageHeapOps PageHeapRelease.
Import PH.

Section Alloc.
Context {PM E : Type} `{!PageMap PM} `{!PageMapLaws PM} `{!SysEnv E} `{!SysEnvLaws E}.
Context (release_rate : double) (heap_limit_mb smallest_span_size_ : Z).
Hypothesis Hrate : release_rate <> S754_nan.
Abbreviation heap := (PageHeap PM E).
Abbreviation HInv := (Inv (PM := PM) (E := E) ∅ 0).
Implicit Types h : heap.

(** What an allocation of [n] pages from [h] leaves: nothing happened to
    the spans in use, and either null was returned or a span that was not
    in use before. *)
Definition alloc_post (n : Z) h (r : Z) h' : Prop :=
  HInv h' /\
  (r = 0 /\ same_inuse ∅ h h' \/
   r <> 0 /\ fresh_span h' r n /\ same_inuse {[r]} h h' /\ (forall t, ~ inuse h r t)).

Lemma alloc_post_trans n h0 h r h' : same_inuse ∅ h0 h -> alloc_post n h r h' -> alloc_post n h0 r h'.
Proof.
  intros Hs [HI [[-> Hr]|(Hr & Hf & Hs' & Hn)]]; split; try done.
  - left. split; [done|]. by eapply same_inuse_trans.
  - right. split; [done|]. split; [done|]. split.
    + eapply same_inuse_trans; [eapply same_inuse_mono; [|done]; set_solver|done].
    + intros t Ht. apply (Hn t). apply (si_span _ _ _ Hs); [set_solver|done].
Qed.

Lemma wp_Carve_alloc p s n h : HInv h -> spans h !! p = Some s -> location s <> IN_USE ->
  0 < n <= length_ s -> wp (Carve p n) (alloc_post n h) h.
Proof.
  intros HI Hp Hloc Hn. eapply wp_Carve; [done|done|done|done|]. intros h' HI' Hf Hs.
  split; [done|]. right. split; [|split; [done|split; [done|]]].
  - by apply (geo_wf _ _ _ _ (inv_geo _ _ _ HI) p s Hp).
  - intros t [Ht ?]. congruence.
Qed.

(** ** Large spans *)

Lemma upper_bound_spec e l x : upper_bound e l = Some x -> x ∈ l /\ less e x.
Proof. intros H. apply List.find_some in H as [Hin Hl]. split; [by apply list_elem_of_In|done]. Qed.

Lemma large_fit loc n h e : HInv h -> loc <> IN_USE -> 0 < n ->
  upper_bound (mkEntry 0 n 0) (large h loc) = Some e ->
  exists s, spans h !! e_span e = Some s /\ location s <> IN_USE /\ n <= length_ s.
Proof.
  intros HI Hl Hn (He & Hless)%upper_bound_spec.
  apply (ls_large _ _ _ (inv_lists _ _ _ HI)) in He as (s & (Hs & _ & ?)%listed_Some & _ & Ee & _); [|done].
  exists s. split; [done|]. split; [done|]. apply less_spec in Hless. rewrite Ee in Hless. simpl in Hless. lia.
Qed.

Lemma best_fit_ok n h e bn : HInv h -> 0 < n -> best_fit n h = (Some e, bn) ->
  exists s, spans h !! e_span e = Some s /\ location s <> IN_USE /\ n <= length_ s.
Proof.
  intros HI Hn. unfold best_fit. destruct (upper_bound _ (large_returned_ h)) as [c|] eqn:Ec.
  - destruct (upper_bound _ (large_normal_ h)) as [b|] eqn:Eb; [destruct (_ <? _)|]; intros [= <- _];
      first [by eapply (large_fit ON_RETURNED_FREELIST)|by eapply (large_fit ON_NORMAL_FREELIST)].
  - intros [= Hb _]. by eapply (large_fit ON_NORMAL_FREELIST).
Qed.

Lemma best_fit_none n h bn : best_fit n h = (None, bn) -> bn = None.
Proof.
  unfold best_fit. destruct (upper_bound _ (large_returned_ h)); [|congruence].
  destruct (upper_bound _ (large_normal_ h)); [destruct (_ <? _)|]; congruence.
Qed.

Lemma wp_AllocLarge n h : HInv h -> 0 < n -> wp (AllocLarge heap_limit_mb n) (alloc_post n h) h.
Proof.
  intros HI Hn. unfold AllocLarge. apply wp_bind, wp_get. pose proof (count_normal_bounds h).
  eapply (loopM_count _ (fun k _ h' => HInv h' /\ same_inuse ∅ h h' /\ count_normal h' <= Z.of_nat k))
    with (n := Z.to_nat (count_normal h)); [|split; [done|]; split; [apply same_inuse_refl|lia]|lia].
  intros k [] h1 (HI1 & Hs1 & Hc1). unfold AllocLarge_body. apply wp_bind, wp_read.
  destruct (best_fit n h1) as [best bn] eqn:Eb.
  assert (forall e, best = Some e -> wp (r ← Carve (e_span e) n; mret (@inr unit Z r))
    (fun r h' => match r with inl _ => False | inr b => alloc_post n h b h' end) h1) as Hcarve.
  { intros e ->. destruct (best_fit_ok n h1 e bn HI1 Hn Eb) as (s & Hs & Hl & Hlen).
    apply wp_bind. eapply wp_mono; [by eapply wp_Carve_alloc|]. intros r h' Hr. apply wp_ret.
    by eapply alloc_post_trans. }
  destruct (same_span best bn) eqn:Esame.
  - destruct best as [e|]; [|apply wp_ret; split; [done|by left]].
    eapply wp_mono; [by apply Hcarve|]. by intros [].
  - destruct best as [e|].
    2: { rewrite (best_fit_none _ _ _ Eb) in Esame. done. }
    apply wp_bind, wp_EnsureLimit_false. destruct (limit_ok heap_limit_mb n h1) eqn:Elim.
    { eapply wp_mono; [by apply Hcarve|]. by intros []. }
    apply wp_bind. eapply wp_EnsureLimit; [done|]. intros [] h2 HI2 [Hk2 _] Hdec; apply wp_ret.
    + pose proof (Hdec eq_refl Elim). pose proof (count_normal_bounds h2).
      exists (Nat.pred k). split; [lia|]. split; [done|]. split; [by eapply same_inuse_trans|lia].
    + split; [done|]. left. split; [done|]. by eapply same_inuse_trans.
Qed.

(** ** The search *)

Lemma list_head_ok loc i n h x l : HInv h -> loc <> IN_USE -> flist h loc i = x :: l -> n <= i + 1 ->
  exists s, spans h !! x = Some s /\ location s <> IN_USE /\ n <= length_ s.
Proof.
  intros HI Hl Hf Hn. assert (x ∈ flist h loc i) as Hx by (rewrite Hf; left).
  apply (ls_mem _ _ _ (inv_lists _ _ _ HI)) in Hx as (s & (Hs & _ & ?)%listed_Some & _ & ? & _); [|done].
  exists s. split; [done|]. split; [done|lia].
Qed.

Definition found_post n h (r : option Z) h' : Prop :=
  match r with
  | Some x => x <> 0 /\ alloc_post n h x h'
  | None => HInv h' /\ same_inuse ∅ h h'
  end.

Lemma wp_search_step n s h : HInv h -> 0 < n <= s -> s <= kMaxPages ->
  wp (search_step heap_limit_mb n s) (found_post n h) h.
Proof.
  intros HI Hn Hs. unfold search_step. apply wp_bind. apply (wp_lift _ (s - 1)).
  { unfold free_index. rewrite (proj2 (Z.leb_le 1 _)), (proj2 (Z.leb_le _ kMaxPages)) by lia. done. }
  assert (forall h1 x, HInv h1 -> same_inuse ∅ h h1 ->
    (exists t, spans h1 !! x = Some t /\ location t <> IN_USE /\ n <= length_ t) ->
    wp (r ← Carve x n; mret (Some r)) (found_post n h) h1) as Hcarve.
  { intros h1 x HI1 Hs1 (t & Ht & Hl & Hlen). apply wp_bind.
    eapply wp_Carve; [done|done|done|lia|]. intros h' HI' Hf Hsi. apply wp_ret.
    assert (x <> 0) by (by apply (geo_wf _ _ _ _ (inv_geo _ _ _ HI1) x t Ht)). split; [done|].
    eapply alloc_post_trans; [done|]. split; [done|]. right. split_and!; try done.
    intros u [Hu ?]. congruence. }
  apply wp_bind, wp_read. destruct (normal (span_list h (s - 1))) as [|x l] eqn:En.
  2: { apply Hcarve; [done|apply same_inuse_refl|].
       eapply (list_head_ok ON_NORMAL_FREELIST (s - 1)); [done|done|exact En|lia]. }
  apply wp_bind, wp_read. destruct (returned (span_list h (s - 1))) as [|x l] eqn:Er.
  { apply wp_ret. split; [done|apply same_inuse_refl]. }
  apply wp_bind. eapply wp_EnsureLimit; [done|]. intros [] h1 HI1 [Hk1 _] _; [|by apply wp_ret].
  apply wp_bind, wp_read. destruct (returned (span_list h1 (s - 1))) as [|y l'] eqn:Er1; [by apply wp_ret|].
  apply Hcarve; [done|done|].
  eapply (list_head_ok ON_RETURNED_FREELIST (s - 1)); [done|done|exact Er1|lia].
Qed.

Lemma wp_search_lists n lens h : HInv h -> Forall (fun s => 0 < n <= s /\ s <= kMaxPages) lens ->
  wp (search_lists heap_limit_mb n lens) (found_post n h) h.
Proof.
  intros HI Hl. revert h HI. induction Hl as [|s lens [Hs1 Hs2] Hl IH]; intros h HI; cbn [search_lists].
  { apply wp_ret. split; [done|apply same_inuse_refl]. }
  apply wp_bind. eapply wp_mono; [by apply wp_search_step|]. intros [x|] h' Hr; [by apply wp_ret|].
  destruct Hr as [HI' Hs']. eapply wp_mono; [by apply IH|]. intros [x|] h''.
  - intros [? ?]. split; [done|]. by eapply alloc_post_trans.
  - intros [? ?]. split; [done|]. by eapply same_inuse_trans.
Qed.

Lemma wp_SearchFreeAndLargeLists n h : HInv h -> 0 < n ->
  wp (SearchFreeAndLargeLists heap_limit_mb n) (alloc_post n h) h.
Proof.
  intros HI Hn. unfold SearchFreeAndLargeLists. apply wp_bind. eapply wp_mono.
  - apply wp_search_lists; [done|]. apply Forall_forall. intros s Hs.
    destruct (Z.leb_spec n kMaxPages); [|set_solver].
    apply elem_of_for_range1 in Hs. lia.
  - intros [x|] h' Hr; [apply wp_ret; by destruct Hr|]. destruct Hr as [HI' Hs'].
    eapply wp_mono; [by apply wp_AllocLarge|]. intros r h'' ?. by eapply alloc_post_trans.
Qed.

(** ** Growing the heap *)

Lemma env_keeps_trans (e1 e2 e3 : E) : env_keeps e1 e2 -> env_keeps e2 e3 -> env_keeps e1 e3.
Proof.
  intros [[? HT1] Hl1] [[? HT2] Hl2]. split; [split; [done|]|by rewrite Hl2].
  by etrans.
Qed.

(** A region just obtained: its pages are not in any span. *)
Definition new_region h (ptr actual n : Z) : Prop :=
  ptr mod kPageSize = 0 /\ 0 < ptr /\ kPageSize * n <= actual /\ ptr + actual <= 2 ^ 48 /\
  exists T, geo (spans h) (pm_get (pagemap_ h)) (pm_ensured (pagemap_ h)) T /\
    T ⊆ taken_pages (env h) /\
    forall pg, ptr / kPageSize <= pg < ptr / kPageSize + actual / kPageSize ->
      pg ∉ T /\ pg ∈ taken_pages (env h).

(** Its pages are not counted yet. *)
Definition bought h (ask : Z) : Prop :=
  spare ask (spans h) (system_bytes (stats_ h) + kPageSize * ask) (taken_pages (env h)).

Lemma HInv_env h e : HInv h -> env_keeps (env h) e -> HInv (with_env e h).
Proof.
  intros HI He. apply (Inv_env ∅ 0 0 h e (stats_ h) HI He); [|done]. by destruct HI.
Qed.

Lemma wp_SystemAlloc ask n (Q : Z * Z -> heap -> Prop) h : HInv h -> 0 < n <= ask -> ask <= kMaxValidPages ->
  (forall ptr actual h', HInv h' -> spans h' = spans h -> pagemap_ h' = pagemap_ h ->
     (ptr <> 0 -> new_region h' ptr actual n /\ bought h' (actual / kPageSize)) -> Q (ptr, actual) h') ->
  wp (in_env (TCMalloc_SystemAlloc (bytes_of ask) kPageSize)) Q h.
Proof.
  intros HI Hn Hask HQ. apply wp_in_env.
  assert (bytes_of ask = kPageSize * ask) as -> by (rewrite bytes_of_eq, u64_small; clia).
  eapply wp_mono; [apply SystemAlloc_ok; [apply HI|clia]|].
  intros [ptr actual] e [He Hr]. apply HQ; [by apply HInv_env|done|done|].
  intros Hp. destruct (Hr Hp) as (H1 & H2 & H3 & H4 & H5). split.
  - do 2 (split; [done|]). split; [clia|]. split; [done|]. exists (taken_pages (env h)). split; [apply HI|]. split; [apply He|done].
  - eapply accounted_grow; [apply HI|apply He| |exact H5]. apply Z.div_pos; clia.
Qed.

Lemma wp_grow_alloc n (Q : Z * Z -> heap -> Prop) h : HInv h -> 0 < n <= kMaxValidPages ->
  (forall ptr actual h', HInv h' -> same_inuse ∅ h h' ->
     (ptr <> 0 -> new_region h' ptr actual n /\ bought h' (actual / kPageSize)) -> Q (ptr, actual) h') ->
  wp (grow_alloc heap_limit_mb n) Q h.
Proof.
  intros HI Hn HQ. unfold grow_alloc. rewrite Z.gtb_ltb.
  set (ask := if _ <? n then n else kMinSystemAlloc).
  assert (n <= ask <= kMaxValidPages) as Hask.
  { unfold ask, kMinSystemAlloc in *. destruct (Z.ltb_spec kMaxPages n); clia. }
  apply wp_bind. eapply wp_EnsureLimit; [done|]. intros ok h1 HI1 [Hk1 _] _.
  assert (forall h2, HInv h2 -> spans h2 = spans h1 -> pagemap_ h2 = pagemap_ h1 ->
    wp (if n <? ask then
          ok ← EnsureLimit heap_limit_mb n true;
          if ok : bool then in_env (TCMalloc_SystemAlloc (bytes_of n) kPageSize) else mret (0, 0)
        else mret (0, 0)) Q h2) as Hretry.
  { intros h2 HI2 HS2 Hm2.
    assert (same_inuse ∅ h h2) as Hs2 by (eapply same_inuse_trans; [done|]; by apply kept_same).
    destruct (n <? ask); [|by apply wp_ret, HQ]. apply wp_bind.
    eapply wp_EnsureLimit; [done|]. intros [] h3 HI3 [Hk3 _] _.
    - apply (wp_SystemAlloc n n); [done|lia|lia|]. intros ptr actual h4 HI4 HS4 Hm4 Hr.
      apply HQ; [done| |done]. eapply same_inuse_trans; [done|]. eapply same_inuse_trans; [done|].
      by apply kept_same.
    - apply wp_ret, HQ; [done| |done]. by eapply same_inuse_trans. }
  apply wp_bind. destruct ok.
  - apply (wp_SystemAlloc ask n); [done|lia|lia|]. intros ptr actual h2 HI2 HS2 Hm2 Hr. cbn [fst].
    destruct (Z.eqb_spec ptr 0); cbn [negb]; [by apply Hretry|].
    apply wp_ret, HQ; [done| |done]. eapply same_inuse_trans; [done|]. by apply kept_same.
  - apply wp_ret. cbn [fst negb Z.eqb]. by apply Hretry.
Qed.

Lemma meta_keeps (e0 : E) sz e : env_keeps e0 e -> wp (MetaDataAlloc sz) (fun _ e' => env_keeps e0 e') e.
Proof.
  intros He. eapply wp_mono; [apply MetaDataAlloc_ok, He|]. intros x e' He'. by eapply env_keeps_trans.
Qed.
Lemma env_keeps_refl (e : E) : env_wf e -> env_keeps e e.
Proof. intros He. split; [split; [done|]|]; done. Qed.

Lemma wp_pagemap_Ensure st n (Q : bool -> heap -> Prop) h : env_wf (env h) ->
  0 <= st -> 1 <= n -> st + n <= 2 ^ 60 ->
  (forall ok pm e, env_keeps (env h) e -> pm_extends (pagemap_ h) pm ->
     (ok = true -> forall k, st <= k < st + n -> pm_ensured pm k) ->
     Q ok (with_env e (with_pagemap pm h))) ->
  wp (pagemap_Ensure st n) Q h.
Proof.
  intros He H1 H2 H3 HQ. pose proof (pm_ensure_ok E MetaDataAlloc (env_keeps (env h)) (pagemap_ h) st n (env h)
    (fun sz e => meta_keeps (env h) sz e) (env_keeps_refl _ He) H1 H2 H3) as Hw.
  unfold wp, pagemap_Ensure in *. destruct (pm_ensure _ _ _ _ _) as [[[ok pm] e]|[]]; try done.
  destruct Hw as (? & ? & ?). by apply HQ.
Qed.
Lemma wp_pagemap_Prealloc (Q : unit -> heap -> Prop) h : env_wf (env h) ->
  (forall pm e, env_keeps (env h) e -> pm_extends (pagemap_ h) pm -> Q tt (with_env e (with_pagemap pm h))) ->
  wp pagemap_PreallocateMoreMemory Q h.
Proof.
  intros He HQ. pose proof (pm_prealloc_ok E MetaDataAlloc (env_keeps (env h)) (pagemap_ h) (env h)
    (fun sz e => meta_keeps (env h) sz e) (env_keeps_refl _ He)) as Hw.
  unfold wp, pagemap_PreallocateMoreMemory in *. destruct (pm_prealloc _ _ _) as [[pm e]|[]]; try done.
  destruct Hw as (? & ?). by apply HQ.
Qed.

(** The page map and the lower layers may grow. *)
Lemma HInv_extend h pm e : HInv h -> env_keeps (env h) e -> pm_extends (pagemap_ h) pm ->
  HInv (with_env e (with_pagemap pm h)).
Proof.
  intros [HG HL HB HE Hlv Hc Hi Ha] [[He HT] Hl] [Hg Hens]. constructor; try done.
  - by eapply geo_mono.
  - intros q Hq. cbn. rewrite Hl. by apply Hlv.
  - by eapply spare_mono.
Qed.
Lemma same_inuse_extend h pm e : pm_extends (pagemap_ h) pm ->
  same_inuse ∅ h (with_env e (with_pagemap pm h)).
Proof. intros [Hg _]. constructor; [done|]. intros. apply Hg. Qed.
Lemma new_region_extend h pm e ptr actual n : new_region h ptr actual n ->
  env_keeps (env h) e -> pm_extends (pagemap_ h) pm ->
  new_region (with_env e (with_pagemap pm h)) ptr actual n.
Proof.
  intros (H1 & H2 & H3 & H4 & T & HG & HT & Hpg) [[He HT'] _] [Hg Hens].
  do 4 (split; [done|]). exists T. split; [|split].
  - by eapply geo_mono.
  - cbn. by etrans.
  - intros pg Hin. destruct (Hpg pg Hin). cbn. split; [done|]. by apply HT'.
Qed.

(** Registering the region as a span in use. *)
Lemma wp_register_region p ask n ptr actual (Q : bool -> heap -> Prop) h :
  HInv h -> new_region h ptr actual n -> spare ask (spans h) (system_bytes (stats_ h)) (taken_pages (env h)) -> 0 < n -> p = ptr / kPageSize -> ask = actual / kPageSize ->
  (forall k, p - 1 <= k <= p + ask -> pm_ensured (pagemap_ h) k) ->
  (forall h', HInv h' -> same_inuse ∅ h h' -> Q true h') ->
  wp (span ← NewSpan p ask; _ ← RecordSpan span; _ ← DeleteLocked release_rate span; mret true) Q h.
Proof.
  intros HI (H1 & H2 & H3 & H4 & T & HG & HT & Hpg) Hsp Hn -> -> Hens HQ.
  assert (1 <= ptr / kPageSize /\ 1 <= actual / kPageSize /\ ptr / kPageSize + actual / kPageSize < 2 ^ 36)
    as (Hp1 & Ha1 & Hpa) by (consts; zdiv).
  pose proof HI as [_ HL HB HE Hlv Hc Hi].
  apply wp_bind. apply wp_NewSpan; [done|done|]. intros r e Hr0 Hr [He HT'] Hlive.
  set (s := new_span (ptr / kPageSize) (actual / kPageSize)).
  apply wp_bind. eapply wp_RecordSpan; [apply lookup_insert_eq|simpl; lia..|apply Hens; simpl; lia
    |apply Hens; simpl; lia|]. intros pm Hg He'. simpl in Hg, He'.
  set (h1 := with_pagemap _ _).
  assert (listed ∅ (<[r := s]> (spans h)) = listed ∅ (spans h)) as EV by (apply listed_fresh; auto).
  assert (HInv h1) as HI1.
  { constructor; unfold h1; cbn -[listed insert]; rewrite ?EV; try done.
    - eapply (geo_insert _ (pm_get (pagemap_ h)) _ (pm_ensured (pagemap_ h)) _ T); try done.
      + by etrans.
      + intros k Hk. by apply He'.
      + intros pg Hin. destruct (Hpg pg Hin). split; [done|]. by apply HT'.
      + intros pg Hin. apply He', Hens. simpl in Hin. lia.
      + rewrite Hg, decide_True by auto. done.
      + rewrite Hg, decide_True by auto. done.
      + intros k ? ?. rewrite Hg, decide_False; [done|]. simpl in *. lia.
    - intros q [u Hq]. rewrite Hlive. destruct (decide (q = r)) as [->|]; [set_solver|].
      rewrite lookup_insert_ne in Hq by done. apply elem_of_union_r, Hlv. by rewrite Hq.
    - by apply clean_update.
    - by eapply spare_take; [exact Hsp| | |]. }
  apply wp_bind. eapply (wp_DeleteLocked _ Hrate r s); [done|apply lookup_insert_eq|done|].
  intros h2 HI2 Hs2 Hn2. apply wp_ret, HQ; [done|].
  assert (same_inuse {[r]} h h1) as Hs1.
  { constructor; unfold inuse, h1; cbn -[insert].
    - intros q u Hq. rewrite lookup_insert_ne by set_solver. done.
    - intros q u pg Hq [Hu _] Hin. rewrite Hg, decide_False; [done|].
      pose proof (geo_taken _ _ _ _ HG q u pg Hu Hin).
      intros Hcase. destruct (Hpg pg); [simpl in *; lia|done]. }
  destruct (same_inuse_trans _ _ _ _ Hs1 Hs2) as [Ha Hb]. constructor.
  - intros q u _. destruct (decide (q = r)) as [->|]; [|exact (Ha q u ltac:(set_solver))].
    split; [intros [? _]; congruence|intros Hu; by destruct (Hn2 u)].
  - intros q u pg _ Hu. destruct (decide (q = r)) as [->|]; [destruct Hu; congruence|].
    exact (Hb q u pg ltac:(set_solver) Hu).
Qed.

(** Counting the pages bought. *)
Lemma count_bought h ask v : HInv h -> 0 <= ask -> bought h ask ->
  spare ask (spans h) (system_bytes (stats_ (with_stats (count_grow (bytes_of ask) (stats_ h)) (with_growth v (growth_stacks h) h)))) (taken_pages (env h)).
Proof.
  intros HI Ha (lost & Hl & Es & Hle). exists lost. split; [done|]. split; [|done]. rewrite <- Es. cbn. rewrite bytes_of_eq.
  pose proof (taken_size _ (inv_env _ _ _ HI)). destruct (inv_total _ _ _ HI) as (l0 & ? & E0 & _).
  assert (0 <= total_pages (spans h)).
  { apply msum_nonneg. intros p s Hp. destruct (geo_wf _ _ _ _ (inv_geo _ _ _ HI) p s Hp). lia. }
  rewrite (u64_small (kPageSize * ask)), u64_small by clia. done.
Qed.

Lemma wp_GrowHeap n (Q : bool -> heap -> Prop) h : HInv h -> 0 < n ->
  (forall ok h', HInv h' -> same_inuse ∅ h h' -> (ok = true -> n <= kMaxValidPages) -> Q ok h') ->
  wp (GrowHeap release_rate heap_limit_mb n) Q h.
Proof.
  intros HI Hn HQ. unfold GrowHeap. rewrite Z.gtb_ltb. destruct (Z.ltb_spec kMaxValidPages n).
  { apply wp_ret, HQ; [done|apply same_inuse_refl|done]. }
  apply wp_bind. apply wp_grow_alloc; [done|done|]. intros ptr actual h1 HI1 Hs1 Hreg.
  destruct (Z.eqb_spec ptr 0) as [->|Hp]; [by apply wp_ret, HQ|]. destruct (Hreg Hp) as [Hreg1 Hb1]. clear Hreg.
  apply wp_bind, wp_mod, wp_bind, wp_read, wp_bind, wp_upd_stats, wp_bind, wp_read, wp_bind.
  cbn beta. rewrite !shiftr_div by clia. change (2 ^ kPageShift) with kPageSize.
  set (h2 := with_stats _ _).
  assert (spare (actual / kPageSize) (spans h2) (system_bytes (stats_ h2)) (taken_pages (env h2))) as Hsp2.
  { unfold h2. apply (count_bought h1); [done| |done]. destruct Hreg1 as (? & ? & ? & ? & _). consts. zdiv. }
  assert (HInv h2 /\ same_inuse ∅ h1 h2 /\ new_region h2 ptr actual n) as (HI2 & Hs2 & Hreg2).
  { split; [|by split]. destruct HI1 as [HG HL HB HE Hlv Hc Hi Ha]. constructor; try done; [by apply books_grow|].
    eapply spare_mono; [exact Hsp2| |done]. destruct Hreg1 as (? & ? & ? & ? & _). consts. zdiv. }
  assert (forall h3, HInv h3 -> same_inuse ∅ h2 h3 -> new_region h3 ptr actual n ->
    spare (actual / kPageSize) (spans h3) (system_bytes (stats_ h3)) (taken_pages (env h3)) ->
    wp (ok ← pagemap_Ensure (u64 (ptr / kPageSize - 1)) (u64 (actual / kPageSize + 2));
        if ok : bool then
          span ← NewSpan (ptr / kPageSize) (actual / kPageSize);
          _ ← RecordSpan span; _ ← DeleteLocked release_rate span; mret true
        else mret false) Q h3) as Hrest.
  { intros h3 HI3 Hs3 Hreg3 Hsp3. assert (same_inuse ∅ h h3) as Hs03
      by (eapply same_inuse_trans; [done|]; by eapply same_inuse_trans).
    assert (1 <= ptr / kPageSize /\ 1 <= actual / kPageSize /\ ptr / kPageSize + actual / kPageSize < 2 ^ 36)
      as (Hp1 & Ha1 & Hpa) by (destruct Hreg3 as (? & ? & ? & ? & _); consts; zdiv).
    rewrite !u64_small by lia. apply wp_bind. apply wp_pagemap_Ensure; [apply HI3|lia..|].
    intros ok pm e He Hext Hens.
    assert (same_inuse ∅ h (with_env e (with_pagemap pm h3))) as Hs4
      by (eapply same_inuse_trans; [exact Hs03|by apply same_inuse_extend]).
    destruct ok; [|apply wp_ret, HQ; [by apply HInv_extend|done|done]].
    eapply (wp_register_region _ _ n ptr actual);
      [by apply HInv_extend|by apply new_region_extend|eapply spare_mono; [exact Hsp3|done|apply He]|done|done|done|intros; apply Hens; [done|lia]|].
    intros h5 HI5 Hs5. apply HQ; [done|by eapply same_inuse_trans|done]. }
  destruct (_ && _); [|by apply wp_ret, Hrest].
  apply wp_pagemap_Prealloc; [apply HI2|]. intros pm e He Hext.
  apply Hrest; [by apply HInv_extend|by apply same_inuse_extend|by apply new_region_extend|eapply spare_mono; [exact Hsp2|done|apply He]].
Qed.

(** ** Rounding *)

Lemma land_high x k : 0 <= k <= 64 -> 0 <= x < 2 ^ 64 -> Z.land x (2 ^ 64 - 2 ^ k) = x / 2 ^ k * 2 ^ k.
Proof.
  intros Hk Hx. rewrite <- Z.shiftl_mul_pow2, <- Z.shiftr_div_pow2 by lia.
  assert (2 ^ 64 - 2 ^ k = Z.shiftl (Z.ones (64 - k)) k) as ->.
  { rewrite Z.shiftl_mul_pow2, Z.ones_equiv, Z.mul_pred_l, <- Z.pow_add_r by lia.
    f_equal. f_equal. lia. }
  apply Z.bits_inj'. intros i Hi. rewrite Z.land_spec.
  destruct (Z.lt_ge_cases i k); [rewrite !Z.shiftl_spec_low by lia; apply andb_false_r|].
  rewrite !Z.shiftl_spec, Z.shiftr_spec by lia. replace (i - k + k) with i by lia.
  destruct (Z.lt_ge_cases i 64).
  - rewrite Z.ones_spec_low by lia. apply andb_true_r.
  - rewrite Z.ones_spec_high by lia. rewrite andb_false_r. symmetry.
    apply Z.bits_above_log2; [lia|]. destruct (decide (x = 0)) as [->|]; [simpl; lia|].
    apply Z.log2_lt_pow2; [lia|]. apply (Z.lt_le_trans _ (2 ^ 64)); [lia|]. apply Z.pow_le_mono_r; lia.
Qed.

Definition span_size_ok : Prop := exists k, 0 <= k <= 63 /\ smallest_span_size_ = 2 ^ k.

Lemma RoundUpSize_eq n : span_size_ok -> 0 < n < 2 ^ 64 ->
  RoundUpSize smallest_span_size_ n =
    if n + smallest_span_size_ - 1 <? 2 ^ 64
    then (n + smallest_span_size_ - 1) / smallest_span_size_ * smallest_span_size_
    else 2 ^ 64 - smallest_span_size_.
Proof.
  intros (k & Hk & ->) Hn. unfold RoundUpSize.
  assert (1 <= 2 ^ k <= 2 ^ 63) as Hss.
  { split; [pose proof (Z.pow_pos_nonneg 2 k); lia|apply Z.pow_le_mono_r; lia]. }
  assert (u64 (-1 - u64 (2 ^ k - 1)) = 2 ^ 64 - 2 ^ k) as ->.
  { rewrite (u64_small (2 ^ k - 1)) by lia. rewrite (u64_eq _ (2 ^ 64 - 2 ^ k)) by (exists (-1); lia).
    apply u64_small. lia. }
  rewrite !land_high by (try apply u64_range; lia).
  pose proof (Z.div_mod (n + 2 ^ k - 1) (2 ^ k) ltac:(lia)) as Hd.
  pose proof (Z.mod_pos_bound (n + 2 ^ k - 1) (2 ^ k) ltac:(lia)) as Hm.
  destruct (Z.ltb_spec (n + 2 ^ k - 1) (2 ^ 64)).
  - rewrite u64_small by lia. rewrite (proj2 (Z.ltb_ge _ _)) by lia. done.
  - assert (u64 (n + 2 ^ k - 1) < 2 ^ k) as Hlt.
    { rewrite (u64_eq _ (n + 2 ^ k - 1 - 2 ^ 64)) by (exists 1; lia). rewrite u64_small; lia. }
    pose proof (u64_range (n + 2 ^ k - 1)). rewrite (Z.div_small (u64 _)) by lia.
    rewrite (proj2 (Z.ltb_lt _ _)) by lia.
    assert (2 ^ 64 - 1 = (2 ^ (64 - k) - 1) * 2 ^ k + (2 ^ k - 1)) as ->.
    { rewrite Z.mul_sub_distr_r, <- Z.pow_add_r by lia. replace (64 - k + k) with 64 by lia. lia. }
    rewrite Z.div_add_l, (Z.div_small (2 ^ k - 1)) by lia.
    rewrite Z.add_0_r, Z.mul_sub_distr_r, <- Z.pow_add_r by lia. replace (64 - k + k) with 64 by lia. lia.
Qed.

Lemma RoundUpSize_pos n : span_size_ok -> 0 < n < 2 ^ 64 ->
  0 < RoundUpSize smallest_span_size_ n < 2 ^ 64 /\
  (n + smallest_span_size_ - 1 < 2 ^ 64 -> n <= RoundUpSize smallest_span_size_ n).
Proof.
  intros Hss Hn. rewrite RoundUpSize_eq by done. destruct Hss as (k & Hk & E0).
  assert (1 <= smallest_span_size_ <= 2 ^ 63) as Hs.
  { rewrite E0. split; [pose proof (Z.pow_pos_nonneg 2 k); lia|apply Z.pow_le_mono_r; lia]. }
  pose proof (Z.div_mod (n + smallest_span_size_ - 1) smallest_span_size_ ltac:(lia)) as Hd.
  pose proof (Z.mod_pos_bound (n + smallest_span_size_ - 1) smallest_span_size_ ltac:(lia)) as Hm.
  destruct (Z.ltb_spec (n + smallest_span_size_ - 1) (2 ^ 64)); lia.
Qed.

(** ** Allocation with the lock held *)

Hypothesis Hss : span_size_ok.

Lemma wp_NewLocked n h : HInv h -> 0 < n < 2 ^ 64 ->
  wp (NewLocked release_rate heap_limit_mb smallest_span_size_ n)
    (alloc_post (RoundUpSize smallest_span_size_ n) h) h.
Proof.
  intros HI Hn. unfold NewLocked. destruct (RoundUpSize_pos n Hss Hn) as [Hrn _].
  set (rn := RoundUpSize smallest_span_size_ n) in *.
  apply wp_bind. eapply wp_mono; [apply wp_SearchFreeAndLargeLists; [done|lia]|].
  intros r h1 H1. destruct (Z.eqb_spec r 0) as [->|Hr]; cbn [negb]; [|by apply wp_ret].
  destruct H1 as [HI1 [[_ Hs1]|[? _]]]; [|done].
  apply wp_bind, wp_read, wp_bind.
  apply (wp_mono _ (alloc_post rn h)).
  - destruct (should_coalesce rn h1); [|apply wp_ret; split; [done|by left]].
    apply wp_bind. eapply wp_ReleaseAtLeastNPages; [done|]. intros rel h2 HI2 [Hk2 _ _] _ _ _ _.
    eapply wp_mono; [apply wp_SearchFreeAndLargeLists; [done|lia]|]. intros r h3 H3.
    eapply alloc_post_trans; [|done]. by eapply same_inuse_trans.
  - intros r h2 H2. destruct (Z.eqb_spec r 0) as [->|Hr]; cbn [negb]; [|by apply wp_ret].
    destruct H2 as [HI2 [[_ Hs2]|[? _]]]; [|done].
    apply wp_bind. apply wp_GrowHeap; [done|lia|]. intros [] h3 HI3 Hs3 _; cbn [negb].
    + eapply wp_mono; [apply wp_SearchFreeAndLargeLists; [done|lia]|]. intros r h4 H4.
      eapply alloc_post_trans; [|done]. by eapply same_inuse_trans.
    + apply wp_ret. split; [done|]. left. split; [done|]. by eapply same_inuse_trans.
Qed.

(** Steps outside the invariant: the growth record and the class cache. *)
Lemma wp_HandleUnlock (Q : unit -> heap -> Prop) h : HInv h ->
  (forall h', HInv h' -> spans h' = spans h -> pagemap_ h' = pagemap_ h -> Q tt h') ->
  wp HandleUnlock Q h.
Proof.
  intros HI HQ. unfold HandleUnlock. apply wp_bind, wp_read.
  destruct (_ =? 0); [by apply wp_ret, HQ|]. apply wp_bind, wp_in_env.
  eapply wp_mono; [apply stacktrace_New_ok, HI|]. intros t e (_ & _ & _ & He). apply wp_mod, HQ; [|done|done].
  pose proof (HInv_env h e HI He) as []. by constructor.
Qed.

(** Interior pages of a span in use may be mapped to it. *)
Lemma geo_setmap S g g' ens T p s : geo S g ens T -> S !! p = Some s ->
  (forall k, g' k = g k \/ (in_span s k /\ g' k = p)) -> geo S g' ens T.
Proof.
  intros HG Hp Hg. pose proof (geo_wf _ _ _ _ HG p s Hp) as Hw.
  apply (geo_update S S g g' ens ens T T {[p]}); try done.
  - intros q t ->%elem_of_singleton Ht. assert (t = s) as -> by congruence. split; [done|]. split_and!.
    + intros pg. by apply (geo_taken _ _ _ _ HG p s).
    + destruct (Hg (start s)) as [->|[_ ->]]; [by apply (geo_first _ _ _ _ HG)|done].
    + destruct (Hg (start s + length_ s - 1)) as [->|[_ ->]]; [by apply (geo_last _ _ _ _ HG)|done].
    + intros pg. by apply (geo_ens _ _ _ _ HG p s).
  - intros q r t u pg ->%elem_of_singleton ->%elem_of_singleton. done.
  - intros q t pg Hq Ht Hin. right. eauto.
  - intros q t pg Hq Ht Hin. eauto.
  - intros k. destruct (Hg k) as [?|[? _]]; [by left|right]. exists p, s. set_solver.
Qed.

Lemma wp_register_pages p s l (Q : unit -> heap -> Prop) h : HInv h -> inuse h p s ->
  Forall (fun i => 0 <= i < length_ s) l ->
  (forall h', HInv h' -> spans h' = spans h ->
     (forall pg, pm_get (pagemap_ h') pg =
        if decide (pg - start s ∈ l) then p else pm_get (pagemap_ h) pg) -> Q tt h') ->
  wp (forM_ l (fun i => pagemap_set (u64 (start s + i)) p)) Q h.
Proof.
  intros HI [Hp Hloc] Hl. revert h HI Hp Q. induction Hl as [|i l Hi Hl IH]; intros h HI Hp Q HQ; cbn [forM_].
  { apply wp_ret, HQ; [done|done|]. intros pg. rewrite decide_False; set_solver. }
  pose proof (geo_wf _ _ _ _ (inv_geo _ _ _ HI) p s Hp) as Hw. rewrite u64_small by lia.
  apply wp_bind. apply wp_pagemap_set.
  { apply (geo_ens _ _ _ _ (inv_geo _ _ _ HI) p s); [done|lia]. }
  intros pm Hg Hens. apply IH; [|done|].
  - destruct HI as [HG HL HB HE Hlv Hc Hi']. constructor; try done. cbn.
    eapply geo_setmap; [|done|].
    + eapply (geo_mono _ _ _ _ (pm_ensured pm)); [exact HG|done| |done]. intros. by apply Hens.
    + intros k. rewrite Hg. case_decide as Ek; [right|by left]. subst k. unfold in_span. split; [lia|done].
  - intros h' HI' HS Hg'. apply HQ; [done|done|]. intros pg. rewrite Hg'. cbn. rewrite Hg.
    destruct (decide (pg - start s ∈ l)); [rewrite decide_True by set_solver; done|].
    destruct (decide (pg = start s + i)) as [->|Hne].
    + rewrite decide_True; [done|]. apply elem_of_cons. left. lia.
    + rewrite decide_False; [done|]. rewrite elem_of_cons. intros [?|?]; [lia|done].
Qed.

(** Registering a size class: the descriptor and every page of the span. *)
Lemma wp_RegisterSizeClass p s sc (Q : unit -> heap -> Prop) h : HInv h -> inuse h p s ->
  (forall h', HInv h' -> inuse h' p (set_sizeclass sc s) -> same_inuse {[p]} h h' ->
     (forall pg, in_span s pg -> pm_get (pagemap_ h') pg = p) -> Q tt h') ->
  wp (RegisterSizeClass p sc) Q h.
Proof.
  intros HI [Hp Hloc] HQ. unfold RegisterSizeClass. apply wp_bind. eapply wp_upd_span; [done|].
  set (h1 := with_spans _ h).
  assert (HInv h1) as HI1.
  { destruct HI as [HG HL HB HE Hlv Hc Hi]. unfold h1.
    assert (listed ∅ (<[p := set_sizeclass sc s]> (spans h)) = listed ∅ (spans h)) as EV
      by (by eapply listed_inuse).
    constructor; cbn -[listed insert]; rewrite ?EV; try done.
    - by eapply geo_similar.
    - apply live_update; [by rewrite Hp|done].
    - by apply clean_update.
    - by eapply accounted_update. }
  pose proof (geo_wf _ _ _ _ (inv_geo _ _ _ HI) p s Hp) as Hw.
  assert (inuse h1 p (set_sizeclass sc s)) as Hu1 by (split; [apply lookup_insert_eq|done]).
  apply wp_bind. eapply wp_get_span; [apply Hu1|].
  apply (wp_register_pages p (set_sizeclass sc s)); [done|done| |].
  { apply Forall_forall. intros i Hi. cbn [length_ set_sizeclass] in *. rewrite u64_small in Hi by lia.
    apply elem_of_for_range1 in Hi. lia. }
  cbn [start length_ set_sizeclass]. rewrite (u64_small (length_ s - 1)) by lia.
  intros h2 HI2 HS2 Hg2. apply HQ; [done|unfold inuse; by rewrite HS2| |].
  - constructor; unfold inuse; rewrite ?HS2.
    + intros q u Hq. unfold h1. cbn -[insert]. rewrite lookup_insert_ne by set_solver. done.
    + intros q u pg Hq [Hu _] Hin. rewrite Hg2, decide_False; [done|].
      intros Hi%elem_of_for_range1.
      assert (q = p); [|set_solver]. apply (geo_disj _ _ _ _ (inv_geo _ _ _ HI) q p u s pg); try done.
      unfold in_span. lia.
  - intros pg Hin. unfold in_span in Hin. rewrite Hg2. case_decide as Hd; [done|].
    rewrite elem_of_for_range1 in Hd.
    destruct (decide (pg = start s)) as [->|]; [by apply (geo_first _ _ _ _ (inv_geo _ _ _ HI))|].
    replace pg with (start s + length_ s - 1).
    + by apply (geo_last _ _ _ _ (inv_geo _ _ _ HI)).
    + destruct (decide (pg = start s + length_ s - 1)); [done|]. destruct Hd. lia.
Qed.

(** ** The public operations *)

(** The result of an allocation with a size class. *)
Definition new_post (n sc : Z) h (r : Z) h' : Prop :=
  HInv h' /\
  (r = 0 /\ same_inuse ∅ h h' \/
   r <> 0 /\ same_inuse {[r]} h h' /\ (forall t, ~ inuse h r t) /\
   exists s, inuse h' r s /\ length_ s = n /\ sizeclass s = u8 sc /\ sample s = false /\
     (sc <> 0 -> forall pg, in_span s pg -> GetDescriptor pg h' = r)).

Lemma same_inuse_same X h h' : spans h' = spans h -> pagemap_ h' = pagemap_ h -> same_inuse X h h'.
Proof. intros HS Hm. constructor; unfold inuse; by rewrite ?HS, ?Hm. Qed.

Lemma HInv_begin h : HInv h -> HInv (with_growth 0 (growth_stacks h) h).
Proof. intros []. by constructor. Qed.
Lemma HInv_cache c h : HInv h -> HInv (with_cache c h).
Proof. intros []. by constructor. Qed.

Lemma new_post_end n sc h r h1 h2 : new_post n sc h r h1 -> HInv h2 -> spans h2 = spans h1 ->
  pagemap_ h2 = pagemap_ h1 -> new_post n sc h r h2.
Proof.
  intros [HI1 Hr] HI2 HS Hm. pose proof (fun X => same_inuse_same X h1 h2 HS Hm) as Hs.
  split; [done|]. destruct Hr as [[-> Hr]|(Hr & Hs1 & Hn & s & Hu & Hl & Hsc & Hsm & Hpg)].
  - left. split; [done|]. by eapply same_inuse_trans.
  - right. split; [done|]. split; [by eapply same_inuse_trans|]. split; [done|]. exists s.
    unfold inuse, GetDescriptor in *. by rewrite HS, Hm.
Qed.

Lemma wp_NewWithSizeClass n sc h : HInv h -> 0 < n < 2 ^ 64 ->
  wp (NewWithSizeClass release_rate heap_limit_mb smallest_span_size_ n sc)
    (new_post (RoundUpSize smallest_span_size_ n) sc h) h.
Proof.
  intros HI Hn. unfold NewWithSizeClass. apply wp_bind, wp_mod, wp_bind.
  eapply wp_mono; [apply wp_NewLocked; [by apply HInv_begin|done]|]. intros r h1 Hr0.
  apply (alloc_post_trans _ h) in Hr0 as [HI1 Hr]; [|by apply same_inuse_same].
  set (rn := RoundUpSize _ _) in *.
  assert (forall h2, new_post rn sc h r h2 ->
    wp (_ ← HandleUnlock; mret r) (new_post rn sc h) h2) as Hend.
  { intros h2 Hp. apply wp_bind. apply wp_HandleUnlock; [apply Hp|]. intros h3 HI3 HS3 Hm3.
    apply wp_ret. by eapply new_post_end. }
  apply wp_bind. destruct Hr as [[-> Hs]|(Hr & (s & Hu & Hlen & Hsc & Hsm) & Hs & Hnot)].
  { apply wp_ret, Hend. split; [done|]. by left. }
  rewrite (proj2 (Z.eqb_neq r 0)) by done. apply wp_bind. eapply wp_get_span; [apply Hu|].
  apply wp_bind, wp_mod. set (h2 := with_cache _ h1).
  assert (HInv h2) as HI2 by (by apply HInv_cache).
  destruct (Z.eqb_spec sc 0) as [->|Hsc0].
  - apply wp_ret, Hend. split; [done|]. right. split; [done|].
    split; [eapply same_inuse_trans; [done|by apply same_inuse_same]|]. split; [done|].
    exists s. split_and!; try done.
  - eapply (wp_RegisterSizeClass r s); [done|done|]. intros h3 HI3 Hu3 Hs3 Hpg. apply Hend.
    split; [done|]. right. split; [done|].
    split; [apply (same_inuse_trans _ h h1); [done|]; apply (same_inuse_trans _ h1 h2);
      [by apply same_inuse_same|done]|].
    split; [done|].
    exists (set_sizeclass sc s). split_and!; try done.
Qed.

(** ** Aligned allocation *)

Lemma same_inuse_drop p A h h' : same_inuse ({[p]} ∪ A) h h' ->
  (forall t, ~ inuse h p t) -> (forall t, ~ inuse h' p t) -> same_inuse A h h'.
Proof.
  intros [H1 H2] Hn Hn'. constructor.
  - intros q t Hq. destruct (decide (q = p)) as [->|]; [|exact (H1 q t ltac:(set_solver))].
    split; intros Ht; [by destruct (Hn t)|by destruct (Hn' t)].
  - intros q t pg Hq Ht. destruct (decide (q = p)) as [->|]; [by destruct (Hn t)|].
    exact (H2 q t pg ltac:(set_solver) Ht).
Qed.

(** Splitting a span in use. *)
Lemma wp_Split_inuse p s n (Q : Z -> heap -> Prop) h : HInv h -> inuse h p s -> 0 < n < length_ s ->
  (forall r h', HInv h' -> r <> p -> r <> 0 -> (forall t, ~ inuse h r t) ->
     inuse h' p (set_length n s) -> inuse h' r (new_span (start s + n) (length_ s - n)) ->
     same_inuse {[r; p]} h h' -> Q r h') ->
  wp (Split p n) Q h.
Proof.
  intros HI [Hp Hloc] Hn HQ. eapply wp_Split; [done|done|done|done|].
  intros r h' HI' Hr Hr0 HS Hg. assert (r <> p) by congruence.
  apply HQ; try done.
  - intros t [Ht _]. congruence.
  - split; [|done]. by rewrite HS, lookup_insert_ne, lookup_insert_eq.
  - split; [|done]. by rewrite HS, lookup_insert_eq.
  - constructor; unfold inuse.
    + intros q t Hq. rewrite HS, !lookup_insert_ne by set_solver. done.
    + intros q t pg Hq [Ht _] Hin. apply Hg. intros Hs. assert (q = p); [|set_solver].
      by apply (geo_disj _ _ _ _ (inv_geo _ _ _ HI) q p t s pg).
Qed.

Lemma align_skip_ok j first : 0 <= j -> 2 ^ j < 2 ^ 31 -> 0 <= first < 2 ^ 36 ->
  exists skip, align_skip (S (Z.to_nat (2 ^ j))) (2 ^ j) first = Ret skip /\
    0 <= skip < 2 ^ j /\ (first + skip) mod 2 ^ j = 0.
Proof.
  intros Hj Hsz Hf. unfold align_skip. pose proof (Z.pow_pos_nonneg 2 j ltac:(lia) Hj) as Hp.
  set (k0 := (- first) mod 2 ^ j).
  assert (0 <= k0 < 2 ^ j) as Hk0 by (apply Z.mod_pos_bound; lia).
  assert (forall skip, 0 <= skip <= k0 -> aligned_at (u64 (Z.shiftl (2 ^ j) kPageShift)) first skip
    = ((first + skip) mod 2 ^ j =? 0)) as Hal.
  { intros skip Hs. unfold aligned_at. rewrite !shiftl_mul by clia. change (2 ^ kPageShift) with (2 ^ 13).
    rewrite !u64_small by (rewrite ?u64_small; lia). rewrite <- Z.pow_add_r by lia.
    rewrite land_ones_mod by lia. rewrite (Z.add_comm j 13), Z.pow_add_r by lia.
    rewrite (Z.mul_comm (first + skip)), Zmult_mod_distr_l.
    destruct (Z.eqb_spec ((first + skip) mod 2 ^ j) 0) as [->|]; [done|]. apply Z.eqb_neq. lia. }
  destruct (loop_spec (fun skip => if aligned_at (u64 (Z.shiftl (2 ^ j) kPageShift)) first skip
      then Ret (inr skip) else Ret (inl (skip + 1)))
    (fun skip => 0 <= skip <= k0) (fun skip => k0 - skip)
    (fun skip => 0 <= skip < 2 ^ j /\ (first + skip) mod 2 ^ j = 0)) with (fuel := S (Z.to_nat (2 ^ j)))
    (a := 0) as (skip & Hret & ?); [|lia|lia|by exists skip].
  intros skip Hs. rewrite Hal by done. destruct (Z.eqb_spec ((first + skip) mod 2 ^ j) 0) as [E0|E0].
  - eexists. split; [done|]. split; [lia|done].
  - eexists. split; [done|]. cbn. enough (skip <> k0) by lia. intros ->. apply E0. unfold k0.
    rewrite Zplus_mod_idemp_r. replace (first + - first) with 0 by lia. done.
Qed.

(** [p] is the one span in use that [h0] did not have. *)
Definition extra_span h0 h (p : Z) (s : Span) : Prop :=
  HInv h /\ inuse h p s /\ same_inuse {[p]} h0 h /\ forall t, ~ inuse h0 p t.

Lemma wp_skip_prefix h0 p s skip (Q : Z -> heap -> Prop) h : extra_span h0 h p s ->
  0 <= skip < length_ s -> sizeclass s = 0 /\ sample s = false ->
  (forall r t h', extra_span h0 h' r t -> r <> 0 -> start t = start s + skip ->
     length_ t = length_ s - skip -> sizeclass t = 0 /\ sample t = false -> Q r h') ->
  wp (skip_prefix release_rate p skip) Q h.
Proof.
  intros (HI & Hu & Hs & Hn) Hskip Hsc HQ. unfold skip_prefix. rewrite Z.gtb_ltb.
  assert (p <> 0) by (by apply (geo_wf _ _ _ _ (inv_geo _ _ _ HI) p s), Hu).
  destruct (Z.ltb_spec 0 skip).
  2: { apply wp_ret. apply (HQ p s); [done|done|lia|lia|done]. }
  apply wp_bind. eapply (wp_Split_inuse p s); [done|done|lia|].
  intros r h1 HI1 Hrp Hr0 Hnr Hu1 Hur Hs1. apply wp_bind.
  eapply (wp_DeleteLocked _ Hrate); [done|apply Hu1|apply Hu1|]. intros h2 HI2 Hs2 Hn2. apply wp_ret.
  apply (HQ r (new_span (start s + skip) (length_ s - skip))); try done.
  assert (forall t, ~ inuse h0 r t) as Hn0.
  { intros t Ht. apply (Hnr t). apply (si_span _ _ _ Hs); [set_solver|done]. }
  split; [done|]. split; [apply (si_span _ _ _ Hs2); [set_solver|done]|]. split; [|done].
  apply (same_inuse_drop p); [|done|done].
  apply (same_inuse_trans _ h0 h); [eapply same_inuse_mono; [|done]; set_solver|].
  apply (same_inuse_trans _ h h1); [eapply same_inuse_mono; [|done]; set_solver|].
  eapply same_inuse_mono; [|done]; set_solver.
Qed.

Lemma wp_trim_tail h0 p s n (Q : unit -> heap -> Prop) h : extra_span h0 h p s ->
  0 < n <= length_ s -> sizeclass s = 0 /\ sample s = false ->
  (forall t h', extra_span h0 h' p t -> start t = start s -> length_ t = n -> sizeclass t = 0 /\ sample t = false -> Q tt h') ->
  wp (trim_tail release_rate p n) Q h.
Proof.
  intros (HI & Hu & Hs & Hn) Hlen Hsc HQ. unfold trim_tail. apply wp_bind.
  eapply wp_get_span; [apply Hu|]. rewrite Z.gtb_ltb. destruct (Z.ltb_spec n (length_ s)).
  2: { apply wp_ret. apply (HQ s); [done|done|lia|done]. }
  apply wp_bind. eapply (wp_Split_inuse p s); [done|done|lia|].
  intros r h1 HI1 Hrp Hr0 Hnr Hu1 Hur Hs1.
  eapply (wp_DeleteLocked _ Hrate); [done|apply Hur|apply Hur|]. intros h2 HI2 Hs2 Hn2.
  apply (HQ (set_length n s)); try done.
  assert (forall t, ~ inuse h0 r t) as Hn0.
  { intros t Ht. apply (Hnr t). apply (si_span _ _ _ Hs); [set_solver|done]. }
  split; [done|]. split; [apply (si_span _ _ _ Hs2); [set_solver|done]|]. split; [|done].
  apply (same_inuse_drop r); [|done|done].
  apply (same_inuse_trans _ h0 h); [eapply same_inuse_mono; [|done]; set_solver|].
  apply (same_inuse_trans _ h h1); [eapply same_inuse_mono; [|done]; set_solver|].
  eapply same_inuse_mono; [|done]; set_solver.
Qed.

Definition aligned_post (n align : Z) h (r : Z) h' : Prop :=
  HInv h' /\
  (r = 0 /\ same_inuse ∅ h h' \/
   r <> 0 /\ exists s, extra_span h h' r s /\ length_ s = n /\ start s mod align = 0 /\ sizeclass s = 0 /\ sample s = false).

Lemma inuse_small h p s : HInv h -> inuse h p s -> length_ s < 2 ^ 31.
Proof.
  intros HI [Hp _]. by apply (geo_small _ _ _ _ p s (inv_geo _ _ _ HI) (taken_size _ (inv_env _ _ _ HI))).
Qed.

Lemma aligned_post_end n al h r h1 h2 : aligned_post n al h r h1 -> HInv h2 -> spans h2 = spans h1 ->
  pagemap_ h2 = pagemap_ h1 -> aligned_post n al h r h2.
Proof.
  intros [_ Hr] HI2 HS Hm. pose proof (fun X => same_inuse_same X h1 h2 HS Hm) as Hs. split; [done|].
  destruct Hr as [[-> Hr]|(Hr & s & (_ & Hu & Hsi & Hn) & Hrest)].
  - left. split; [done|]. by eapply same_inuse_trans.
  - right. split; [done|]. exists s. split; [|done]. split; [done|].
    split; [unfold inuse in *; by rewrite HS|]. split; [by eapply same_inuse_trans|done].
Qed.

Lemma wp_NewAligned n j h : HInv h -> 0 < n < 2 ^ 64 -> 0 <= j <= 63 ->
  wp (NewAligned release_rate heap_limit_mb smallest_span_size_ n (2 ^ j))
    (aligned_post (RoundUpSize smallest_span_size_ n) (2 ^ j) h) h.
Proof.
  intros HI Hn Hj. unfold NewAligned. destruct (RoundUpSize_pos n Hss Hn) as [Hrn _].
  set (rn := RoundUpSize smallest_span_size_ n) in *.
  assert (0 < 2 ^ j <= 2 ^ 63) as Hal by (split; [lia|apply Z.pow_le_mono_r; lia]).
  destruct (_ || _) eqn:Eov.
  { apply wp_bind. eapply wp_mono; [apply wp_NewWithSizeClass; [done|lia]|].
    intros r h1 [HI1 [[-> Hr]|(_ & _ & _ & s & Hu & Hlen & _)]].
    - apply wp_bind. apply (wp_lift _ tt); [done|]. apply wp_ret. split; [done|by left].
    - pose proof (inuse_small _ _ _ HI1 Hu). rewrite Hlen, RoundUpSize_eq in H by (done || lia).
      destruct Hss as (k & Hk & E0). assert (1 <= smallest_span_size_ <= 2 ^ 63) as Hb.
      { rewrite E0. split; [pose proof (Z.pow_pos_nonneg 2 k); lia|apply Z.pow_le_mono_r; lia]. }
      destruct (Z.ltb_spec (2 ^ 64 - 1 + smallest_span_size_ - 1) (2 ^ 64)); [|lia].
      assert (smallest_span_size_ = 1) as E1 by lia. rewrite E1, Z.div_1_r in H. lia. }
  apply orb_false_iff in Eov as [Eov%Z.ltb_ge _].
  assert (u64 (rn + 2 ^ j) = rn + 2 ^ j) as Eal.
  { destruct (Z.lt_ge_cases (rn + 2 ^ j) (2 ^ 64)); [by apply u64_small; lia|].
    rewrite (u64_eq _ (rn + 2 ^ j - 2 ^ 64)) in Eov by (exists 1; lia). rewrite u64_small in Eov; lia. }
  rewrite Eal. pose proof (u64_range (rn + 2 ^ j)). rewrite Eal in H.
  apply wp_bind, wp_mod, wp_bind.
  eapply wp_mono; [apply wp_NewLocked; [by apply HInv_begin|lia]|]. intros p h1 Hr0.
  apply (alloc_post_trans _ h) in Hr0 as [HI1 Hr]; [|by apply same_inuse_same].
  assert (forall r h2, aligned_post rn (2 ^ j) h r h2 ->
    wp (_ ← HandleUnlock; mret r) (aligned_post rn (2 ^ j) h) h2) as Hend.
  { intros r h2 Hp. apply wp_bind. apply wp_HandleUnlock; [apply Hp|]. intros h3 HI3 HS3 Hm3.
    apply wp_ret. by eapply aligned_post_end. }
  apply wp_bind. destruct Hr as [[-> Hs]|(Hr & (s & Hu & Hlen & Hsc & Hsm) & Hs & Hnot)].
  { apply wp_ret, Hend. split; [done|]. by left. }
  rewrite (proj2 (Z.eqb_neq p 0)) by done.
  pose proof (inuse_small _ _ _ HI1 Hu) as Hsmall.
  pose proof (geo_wf _ _ _ _ (inv_geo _ _ _ HI1) p s (proj1 Hu)) as Hw.
  assert (rn + 2 ^ j <= length_ s) as Hge.
  { rewrite Hlen in Hsmall |- *. destruct (RoundUpSize_pos (rn + 2 ^ j) Hss) as [_ Hle]; [lia|].
    rewrite RoundUpSize_eq in * by (done || lia). destruct Hss as (k & Hk & E0).
    assert (1 <= smallest_span_size_ <= 2 ^ 63) as Hb.
    { rewrite E0. split; [pose proof (Z.pow_pos_nonneg 2 k); lia|apply Z.pow_le_mono_r; lia]. }
    destruct (Z.ltb_spec (rn + 2 ^ j + smallest_span_size_ - 1) (2 ^ 64)); [by apply Hle|lia]. }
  apply wp_bind. eapply wp_get_span; [apply Hu|].
  destruct (align_skip_ok j (start s)) as (skip & Eskip & Hskip & Hmod); [lia|lia|lia|].
  apply wp_bind. apply (wp_lift _ skip); [done|]. apply wp_bind.
  eapply (wp_skip_prefix h p s skip); [done|lia|done|].
  intros r t h2 Hx2 Hr2 Hst Hlt Hsct. apply wp_bind.
  eapply (wp_trim_tail h r t rn); [done|lia|done|]. intros u h3 Hx3 Hsu Hlu Hscu.
  apply wp_bind. eapply wp_get_span; [exact (proj1 (proj1 (proj2 Hx3)))|]. apply wp_bind, wp_mod, wp_ret, Hend.
  apply (aligned_post_end _ _ _ _ h3); [|apply HInv_cache, Hx3|done|done].
  split; [apply Hx3|]. right. split; [done|]. exists u. split; [done|]. split; [done|].
  split; [|done]. rewrite Hsu, Hst. done.
Qed.
End Alloc.
