(* ===== verification/SystemAlloc.v ===== *)
(** * System memory, metadata and descriptor allocators

    Models src/src/src/system-alloc.cc (the sbrk, mmap and default system
    allocators, [TCMalloc_SystemAlloc], [TCMalloc_SystemRelease],
    [TCMalloc_SystemCommit]), [MetaDataAlloc] of common.cc and
    [PageHeapAllocator] of page_heap_allocator.h, for the Linux build
    without FREE_MMAP_PROT_NONE. The system calls are the parameter class
    [OS]; its laws state what the calls document. The last part shows that
    the three layers together provide what SysEnv.v asks for. *)
From S2P Require Import Prelude Common SysEnv.

(** ** System calls *)

Class OS (K : Type) := {
  (** Hint and length; [MAP_FAILED] on failure. *)
  mmap : Z -> Z -> M K Z;
  munmap : Z -> Z -> M K unit;
  (** The old break, or -1. *)
  sbrk : Z -> M K Z;
  (** Whether the call succeeded, and whether errno is EAGAIN. *)
  madvise : Z -> Z -> M K (bool * bool);
  getpagesize : Z;
  (** Bytes that belong to the process through these calls; a bound on the
      EAGAIN failures to come; the state's invariant. *)
  owned : K -> Z -> Prop;
  eagain : K -> nat;
  os_wf : K -> Prop }.

(** Both MAP_FAILED and the error result of sbrk. *)
Definition MAP_FAILED : Z := 2 ^ 64 - 1.

Definition os_keeps `{OS K} (o o' : K) : Prop :=
  os_wf o' /\ forall a, owned o' a <-> owned o a.
(** The call gave [p, p+n) to the process. *)
Definition os_gives `{OS K} (o o' : K) (p n : Z) : Prop :=
  os_wf o' /\ 0 < p /\ p + n <= 2 ^ 47 /\
  (forall a, p <= a < p + n -> ~ owned o a) /\
  (forall a, owned o' a <-> owned o a \/ p <= a < p + n).

Class OSLaws (K : Type) `{OS K} := {
  pagesize_ok : getpagesize ∈ [4096; 8192; 16384; 65536];
  (** Fewer than 2^31 pages of 8 KiB: 16 TiB. *)
  owned_limit : forall o (T : gset Z), os_wf o ->
    (forall pg a, pg ∈ T -> pg * kPageSize <= a < (pg + 1) * kPageSize -> owned o a) ->
    Z.of_nat (size T) < 2 ^ 31;
  owned_range : forall o a, os_wf o -> owned o a -> 0 < a < 2 ^ 47;
  mmap_ok : forall hint n o, os_wf o -> 0 < n < 2 ^ 64 -> wp (mmap hint n) (fun p o' =>
    p = MAP_FAILED /\ os_keeps o o' \/ p mod getpagesize = 0 /\ os_gives o o' p n) o;
  munmap_ok : forall p n o, os_wf o -> wp (munmap p n) (fun _ o' => os_wf o' /\
    forall a, ~ (p <= a < p + n) -> (owned o' a <-> owned o a)) o;
  sbrk_ok : forall n o, os_wf o -> 0 <= n < 2 ^ 63 -> wp (sbrk n) (fun p o' =>
    p = MAP_FAILED /\ os_keeps o o' \/ os_gives o o' p n) o;
  madvise_ok : forall p n o, os_wf o -> wp (madvise p n) (fun '(ok, again) o' => os_keeps o o' /\
    (ok = false -> again = true -> (eagain o' < eagain o)%nat)) o }.

(** ** State *)

(** [PageHeapAllocator<T>]; [carved] records the objects cut from the free
    area so far, no code reads it. *)
Record PageHeapAllocator := mkPHA {
  free_area_ : Z; free_avail_ : Z; free_list_ : list Z; inuse_ : Z; carved : list Z }.

(** The static variables of the three files. [granted] records the regions
    [TCMalloc_SystemAlloc] returned and [meta_blocks] the blocks
    [MetaDataAlloc] returned; no code reads them. *)
Record Sys (K : Type) := mkSys {
  os : K;
  SystemTaken : Z;
  hint_ : Z;
  failed_ : bool * bool;
  metadata_chunk_alloc_ : Z;
  metadata_chunk_avail_ : Z;
  metadata_system_bytes_ : Z;
  span_allocator : PageHeapAllocator;
  stacktrace_allocator : PageHeapAllocator;
  threadcache_allocator : PageHeapAllocator;
  granted : list (Z * Z);
  meta_blocks : list (Z * Z) }.
Arguments mkSys {K}.
Arguments os {K}. Arguments SystemTaken {K}. Arguments hint_ {K}. Arguments failed_ {K}.
Arguments metadata_chunk_alloc_ {K}. Arguments metadata_chunk_avail_ {K}.
Arguments metadata_system_bytes_ {K}. Arguments span_allocator {K}.
Arguments stacktrace_allocator {K}. Arguments threadcache_allocator {K}. Arguments granted {K}. Arguments meta_blocks {K}.

Module SA.
Section SystemAlloc.
Context {K : Type} `{!OS K}.
(** FLAGS_malloc_skip_sbrk, _skip_mmap and _disable_memory_release. *)
Context (skip_sbrk skip_mmap disable_memory_release : bool).
Abbreviation sys := (Sys K).
Implicit Types e : sys.

Definition with_os (v : K) e : sys :=
  mkSys v (SystemTaken e) (hint_ e) (failed_ e) (metadata_chunk_alloc_ e) (metadata_chunk_avail_ e)
    (metadata_system_bytes_ e) (span_allocator e) (stacktrace_allocator e) (threadcache_allocator e) (granted e) (meta_blocks e).
Definition with_hint (v : Z) e : sys :=
  mkSys (os e) (SystemTaken e) v (failed_ e) (metadata_chunk_alloc_ e) (metadata_chunk_avail_ e)
    (metadata_system_bytes_ e) (span_allocator e) (stacktrace_allocator e) (threadcache_allocator e) (granted e) (meta_blocks e).
Definition with_failed (v : bool * bool) e : sys :=
  mkSys (os e) (SystemTaken e) (hint_ e) v (metadata_chunk_alloc_ e) (metadata_chunk_avail_ e)
    (metadata_system_bytes_ e) (span_allocator e) (stacktrace_allocator e) (threadcache_allocator e) (granted e) (meta_blocks e).
Definition with_granted (t : Z) (r : Z * Z) e : sys :=
  mkSys (os e) t (hint_ e) (failed_ e) (metadata_chunk_alloc_ e) (metadata_chunk_avail_ e)
    (metadata_system_bytes_ e) (span_allocator e) (stacktrace_allocator e) (threadcache_allocator e) (r :: granted e) (meta_blocks e).
Definition with_chunk (a n : Z) e : sys :=
  mkSys (os e) (SystemTaken e) (hint_ e) (failed_ e) a n
    (metadata_system_bytes_ e) (span_allocator e) (stacktrace_allocator e) (threadcache_allocator e) (granted e) (meta_blocks e).
Definition with_meta (bytes : Z) (b : Z * Z) e : sys :=
  mkSys (os e) (SystemTaken e) (hint_ e) (failed_ e) (metadata_chunk_alloc_ e) (metadata_chunk_avail_ e)
    (u64 (metadata_system_bytes_ e + bytes)) (span_allocator e) (stacktrace_allocator e) (threadcache_allocator e) (granted e) (b :: meta_blocks e).
Definition with_spans_alloc (v : PageHeapAllocator) e : sys :=
  mkSys (os e) (SystemTaken e) (hint_ e) (failed_ e) (metadata_chunk_alloc_ e) (metadata_chunk_avail_ e)
    (metadata_system_bytes_ e) v (stacktrace_allocator e) (threadcache_allocator e) (granted e) (meta_blocks e).
Definition with_stacks_alloc (v : PageHeapAllocator) e : sys :=
  mkSys (os e) (SystemTaken e) (hint_ e) (failed_ e) (metadata_chunk_alloc_ e) (metadata_chunk_avail_ e)
    (metadata_system_bytes_ e) (span_allocator e) v (threadcache_allocator e) (granted e) (meta_blocks e).
Definition with_caches_alloc (v : PageHeapAllocator) e : sys :=
  mkSys (os e) (SystemTaken e) (hint_ e) (failed_ e) (metadata_chunk_alloc_ e) (metadata_chunk_avail_ e)
    (metadata_system_bytes_ e) (span_allocator e) (stacktrace_allocator e) v (granted e) (meta_blocks e).

Definition in_os {A} (m : M K A) : M sys A := fun e =>
  match m (os e) with Ret (a, o) => Ret (a, with_os o e) | Fault f => Fault f end.

(** [sizeof(MemoryAligner)]. *)
Definition kMetadataAllignment : Z := 64.

Definition CheckAddressBits (ptr : Z) : bool :=
  let always_ok := kAddressBits =? 8 * 8 in
  let shift_bits := if always_ok then 0 else kAddressBits in
  always_ok || (Z.shiftr ptr shift_bits =? 0).

(** ** The system allocators

    Result: the address, 0 for null, and the actual size. *)

Definition SbrkSysAllocator_Alloc (size alignment : Z) : M sys (Z * Z) :=
  if skip_sbrk then mret (0, 0) else
  if s64 (u64 (size + alignment)) <? 0 then mret (0, 0) else
  let size := u64 (u64 (size + alignment - 1) / alignment * alignment) in
  b ← in_os (sbrk 0);
  if u64 (b + size) <? size then mret (0, size) else
  result ← in_os (sbrk size);
  if result =? MAP_FAILED then mret (0, size) else
  let ptr := result in
  if Z.land ptr (alignment - 1) =? 0 then mret (ptr, size) else
  let extra := alignment - Z.land ptr (alignment - 1) in
  r2 ← in_os (sbrk extra);
  if r2 =? u64 (ptr + size) then mret (u64 (ptr + extra), size) else
  result ← in_os (sbrk (u64 (size + alignment - 1)));
  if result =? MAP_FAILED then mret (0, size) else
  let ptr := result in
  if negb (Z.land ptr (alignment - 1) =? 0)
  then mret (u64 (ptr + (alignment - Z.land ptr (alignment - 1))), size)
  else mret (ptr, size).

(** The part that does not use the hint. *)
Definition mmap_full (size alignment : Z) : M sys (Z * Z) :=
  let extra := if alignment >? getpagesize then alignment - getpagesize else 0 in
  result ← in_os (mmap 0 (u64 (size + extra)));
  if result =? MAP_FAILED then mret (0, size) else
  let ptr := result in
  let adjust := if negb (Z.land ptr (alignment - 1) =? 0)
                then alignment - Z.land ptr (alignment - 1) else 0 in
  _ ← (if adjust >? 0 then in_os (munmap ptr adjust) else mret tt);
  _ ← (if adjust <? extra then in_os (munmap (u64 (ptr + adjust + size)) (extra - adjust)) else mret tt);
  let ptr := u64 (ptr + adjust) in
  _ ← modS (with_hint (u64 (ptr + size)));
  mret (ptr, size).

Definition MmapSysAllocator_Alloc (size alignment : Z) : M sys (Z * Z) :=
  if skip_mmap then mret (0, 0) else
  let alignment := if alignment <? getpagesize then getpagesize else alignment in
  let aligned_size := u64 (u64 (size + alignment - 1) / alignment * alignment) in
  if aligned_size <? size then mret (0, 0) else
  let size := aligned_size in
  e ← getS;
  let hint := hint_ e in
  if negb (hint =? 0) && (u64 (hint + size) >? size) && (Z.land hint (alignment - 1) =? 0) then
    result ← in_os (mmap hint size);
    if Z.land result (alignment - 1) =? 0 then
      _ ← modS (with_hint (u64 (result + size)));
      mret (result, size)
    else
      _ ← in_os (munmap result size);
      mmap_full size alignment
  else mmap_full size alignment.

(** The two children in the order of a build with NDEBUG. *)
Definition DefaultSysAllocator_Alloc (size alignment : Z) : M sys (Z * Z) :=
  e ← getS;
  r ← (if negb (fst (failed_ e)) then SbrkSysAllocator_Alloc size alignment else mret (0, 0));
  if negb (fst r =? 0) then mret r else
  _ ← modS (fun e => with_failed (true, snd (failed_ e)) e);
  e ← getS;
  r ← (if negb (snd (failed_ e)) then MmapSysAllocator_Alloc size alignment else mret (0, 0));
  if negb (fst r =? 0) then mret r else
  _ ← modS (with_failed (false, false));
  mret (0, 0).

Definition SystemAlloc (size alignment : Z) : M sys (Z * Z) :=
  if u64 (size + alignment) <? size then mret (0, 0) else
  let alignment := if alignment <? kMetadataAllignment then kMetadataAllignment else alignment in
  r ← DefaultSysAllocator_Alloc size alignment;
  let '(result, actual_size) := r in
  if result =? 0 then mret r else
  _ ← liftM (check (CheckAddressBits (u64 (result + actual_size - 1))));
  _ ← modS (fun e => with_granted (u64 (SystemTaken e + actual_size)) (result, actual_size) e);
  mret r.

Definition SystemRelease (start length : Z) : M sys bool :=
  if disable_memory_release then mret false else
  let pagemask := getpagesize - 1 in
  let fin := u64 (start + length) in
  let new_start := Z.land (u64 (start + getpagesize - 1)) (2 ^ 64 - 1 - pagemask) in
  let new_end := Z.land fin (2 ^ 64 - 1 - pagemask) in
  if new_end >? new_start then
    e ← getS;
    loopM (S (eagain (os e))) (fun _ : unit =>
      r ← in_os (madvise new_start (new_end - new_start));
      let '(result, retry) := r in
      if negb result && retry then mret (inl tt) else mret (inr result)) tt
  else mret false.

(** Nothing to do with madvise: released pages are usable as they are. *)
Definition SystemCommit (start length : Z) : M sys unit := mret tt.

(** ** Metadata *)

Definition kMetadataAllocChunkSize : Z := 8 * 1024 * 1024.

(** Cut [bytes] after [alignment] from the current chunk. *)
Definition metadata_cut (bytes alignment : Z) : M sys Z :=
  e ← getS;
  let rv := u64 (metadata_chunk_alloc_ e + alignment) in
  let total := u64 (bytes + alignment) in
  _ ← modS (with_chunk (u64 (metadata_chunk_alloc_ e + total)) (u64 (metadata_chunk_avail_ e - total)));
  _ ← modS (with_meta total (rv, bytes));
  mret rv.

Definition MetaDataAlloc_ (n : Z) : M sys Z :=
  let bytes := u64 n in
  if bytes >=? kMetadataAllocChunkSize then
    r ← SystemAlloc bytes kMetadataAllignment;
    let rv := fst r in
    _ ← (if rv =? 0 then mret tt else modS (with_meta bytes (rv, bytes)));
    mret rv
  else
  e ← getS;
  let alignment := Z.land (u64 (- metadata_chunk_alloc_ e)) (kMetadataAllignment - 1) in
  a ← (if metadata_chunk_avail_ e <? u64 (bytes + alignment) then
         r ← SystemAlloc kMetadataAllocChunkSize kMetadataAllignment;
         let '(ptr, real_size) := r in
         if ptr =? 0 then mret None else
         _ ← modS (with_chunk ptr real_size);
         mret (Some 0)
       else mret (Some alignment));
  match a with
  | None => mret 0
  | Some alignment => metadata_cut bytes alignment
  end.

(** ** PageHeapAllocator *)

Definition kAllocIncrement : Z := Z.shiftl 128 10.

(** The allocator objects of the program. *)
Inductive kind := KSpan | KStack | KCache.
#[export] Instance kind_eq_dec : EqDecision kind.
Proof using. solve_decision. Defined.
Definition allocator (k : kind) e : PageHeapAllocator :=
  match k with KSpan => span_allocator e | KStack => stacktrace_allocator e | KCache => threadcache_allocator e end.
Definition with_allocator (k : kind) (v : PageHeapAllocator) e : sys :=
  match k with KSpan => with_spans_alloc v e | KStack => with_stacks_alloc v e | KCache => with_caches_alloc v e end.
(** [sizeof(T)] in the 64-bit build. *)
Definition sizeof (k : kind) : Z :=
  match k with KSpan => 48 | KStack => 264 | KCache => 4160 end.

Definition PHA_New (k : kind) : M sys Z :=
  e ← getS;
  let p := allocator k e in
  match free_list_ p with
  | result :: l =>
      _ ← modS (with_allocator k (mkPHA (free_area_ p) (free_avail_ p) l (s32 (inuse_ p + 1)) (carved p)));
      mret result
  | [] =>
      area ← (if free_avail_ p <? sizeof k then
                a ← MetaDataAlloc_ kAllocIncrement;
                if a =? 0 then liftM (Fault OOM) else mret (a, kAllocIncrement)
              else mret (free_area_ p, free_avail_ p));
      let '(a, avail) := area in
      _ ← modS (with_allocator k (mkPHA (u64 (a + sizeof k)) (u64 (avail - sizeof k)) []
                  (s32 (inuse_ p + 1)) (a :: carved p)));
      mret a
  end.
Definition PHA_Delete (k : kind) (x : Z) : M sys unit :=
  e ← getS;
  let p := allocator k e in
  modS (with_allocator k (mkPHA (free_area_ p) (free_avail_ p) (x :: free_list_ p) (s32 (inuse_ p - 1)) (carved p))).

Definition PHA_zero : PageHeapAllocator := mkPHA 0 0 [] 0 [].
(** The static storage before the first call. *)
Definition sys_init (o : K) : sys := mkSys o 0 0 (false, false) 0 0 0 PHA_zero PHA_zero PHA_zero [] [].
End SystemAlloc.
End SA.
