(* ===== verification/SystemAllocSpec.v ===== *)
(** * The system layer provides the page heap's environment

    Memory from [TCMalloc_SystemAlloc] is aligned, large enough and never
    given out twice; blocks from [MetaDataAlloc] and objects from
    [PageHeapAllocator] are distinct. Together: an instance of the laws of
    SysEnv.v. *)
From S2P Require Import Prelude Common SysEnv SystemAlloc.
Import SA.

Section Spec.
Context {K : Type} `{!OS K} `{!OSLaws K}.
Context (skip_sbrk skip_mmap disable_memory_release : bool).
Abbreviation sys := (Sys K).
Implicit Types e : sys.

(** What the calls below [MetaDataAlloc] may change: they keep what the
    process owns, and the variables of the upper layers. *)
Record sys_step e e' : Prop := {
  ss_wf : os_wf (os e');
  ss_owned : forall a, owned (os e) a -> owned (os e') a;
  ss_chunk : metadata_chunk_alloc_ e' = metadata_chunk_alloc_ e /\
    metadata_chunk_avail_ e' = metadata_chunk_avail_ e;
  ss_alloc : forall k, allocator k e' = allocator k e;
  ss_granted : granted e' = granted e;
  ss_meta : meta_blocks e' = meta_blocks e }.

Lemma sys_step_refl e : os_wf (os e) -> sys_step e e.
Proof. by constructor. Qed.
Lemma sys_step_trans e1 e2 e3 : sys_step e1 e2 -> sys_step e2 e3 -> sys_step e1 e3.
Proof.
  intros [? ? [? ?] ? ? ?] [? ? [? ?] ? ? ?]. constructor; [done|auto|split; congruence|intros k; congruence|congruence..].
Qed.

(** [p, p+n) is new and aligned. *)
Definition gives e e' (al n p actual : Z) : Prop :=
  p mod al = 0 /\ 0 < p /\ n <= actual /\ p + actual <= 2 ^ 47 /\
  forall a, p <= a < p + actual -> ~ owned (os e) a /\ owned (os e') a.

Definition alloc_ok e (al n : Z) (r : Z * Z) e' : Prop :=
  sys_step e e' /\ (fst r <> 0 -> gives e e' al n (fst r) (snd r)).

Lemma alloc_ok_trans e e1 al n r e' : sys_step e e1 -> alloc_ok e1 al n r e' -> alloc_ok e al n r e'.
Proof.
  intros Hs [Hs' Hg]. split; [by eapply sys_step_trans|]. intros Hr.
  destruct (Hg Hr) as (? & ? & ? & ? & Ha). do 4 (split; [done|]). intros a Hin.
  destruct (Ha a Hin) as [Hn ?]. split; [|done]. intros Ho. by apply Hn, (ss_owned _ _ Hs).
Qed.
Lemma alloc_ok_null e al n sz e' : sys_step e e' -> alloc_ok e al n (0, sz) e'.
Proof. intros Hs. split; done. Qed.

Lemma wp_in_os {A} (m : M K A) (Q : A -> sys -> Prop) e :
  wp m (fun a o => Q a (with_os o e)) (os e) -> wp (in_os m) Q e.
Proof. unfold wp, in_os. by destruct (m (os e)) as [[a o]|[]]. Qed.

(** [p, p+n) was obtained between [e] and [e']. *)
Definition fresh_block e e' (p n : Z) : Prop :=
  0 < p /\ p + n <= 2 ^ 47 /\ forall a, p <= a < p + n -> ~ owned (os e) a /\ owned (os e') a.

Lemma os_gives_fresh e o p n : os_gives (os e) o p n ->
  sys_step e (with_os o e) /\ fresh_block e (with_os o e) p n.
Proof.
  intros (? & ? & ? & Hf & Ho). split; [constructor; try done; intros a ?; apply Ho; by left|].
  do 2 (split; [done|]). intros a Ha. split; [auto|]. apply Ho. by right.
Qed.
Lemma os_keeps_step e o : os_keeps (os e) o -> sys_step e (with_os o e).
Proof. intros [? Ho]. constructor; try done. intros a. apply Ho. Qed.

Lemma wp_sbrk n (Q : Z -> sys -> Prop) e : os_wf (os e) -> 0 <= n < 2 ^ 63 ->
  (forall p e', sys_step e e' -> (p <> MAP_FAILED -> fresh_block e e' p n) -> Q p e') ->
  wp (in_os (sbrk n)) Q e.
Proof.
  intros Hwf Hn HQ. apply wp_in_os. eapply wp_mono; [by apply sbrk_ok|].
  intros p o [[-> Ho]|Ho].
  - apply HQ; [by apply os_keeps_step|done].
  - apply os_gives_fresh in Ho as [??]. by apply HQ.
Qed.
Lemma wp_mmap hint n (Q : Z -> sys -> Prop) e : os_wf (os e) -> 0 < n < 2 ^ 64 ->
  (forall p e', sys_step e e' -> (p <> MAP_FAILED -> p mod getpagesize = 0 /\ fresh_block e e' p n) -> Q p e') ->
  wp (in_os (mmap hint n)) Q e.
Proof.
  intros Hwf Hn HQ. apply wp_in_os. eapply wp_mono; [by apply mmap_ok|].
  intros p o [[-> Ho]|[Hp Ho]].
  - apply HQ; [by apply os_keeps_step|done].
  - apply os_gives_fresh in Ho as [??]. by apply HQ.
Qed.

(** ** Rounding *)

Lemma round_up x al : 0 < al -> 0 <= x -> x <= (x + al - 1) / al * al < x + al /\ (x + al - 1) / al * al mod al = 0.
Proof.
  intros Ha Hx. split; [|apply Z_mod_mult].
  pose proof (Z.div_mod (x + al - 1) al ltac:(lia)). pose proof (Z.mod_pos_bound (x + al - 1) al ltac:(lia)). lia.
Qed.
Lemma align_up p al : 0 < al -> p mod al <> 0 ->
  (p + (al - p mod al)) mod al = 0 /\ 0 < al - p mod al < al.
Proof.
  intros Ha Hp. pose proof (Z.mod_pos_bound p al ltac:(lia)). split; [|lia].
  pose proof (Z.div_mod p al ltac:(lia)).
  replace (p + (al - p mod al)) with ((p / al + 1) * al) by lia. apply Z_mod_mult.
Qed.

(** ** sbrk *)

(** The last attempt: more than enough, aligned inside. *)
Lemma fresh_gives e e' al sz n p : 0 < al -> fresh_block e e' p (sz + al - 1) -> n <= sz -> 0 <= sz ->
  gives e e' al n (p + (if p mod al =? 0 then 0 else al - p mod al)) sz.
Proof.
  intros Ha (H0 & H1 & Hf) Hn Hsz. destruct (Z.eqb_spec (p mod al) 0) as [Hm|Hm].
  - rewrite Z.add_0_r. split; [done|]. do 3 (split; [lia|]). intros. apply Hf. lia.
  - destruct (align_up p al Ha Hm). split; [done|]. do 3 (split; [lia|]). intros. apply Hf. lia.
Qed.

Lemma s64_nonneg_small x : 0 <= x < 2 ^ 64 -> 0 <= s64 x -> x < 2 ^ 63.
Proof.
  intros Hx Hs. destruct (Z.lt_ge_cases x (2 ^ 63)); [done|]. exfalso. unfold s64 in Hs.
  rewrite (Zmod_eq_full _ (2 ^ 64)) in Hs by lia.
  assert ((x + 2 ^ 63) / 2 ^ 64 = 1) by (symmetry; apply Z.div_unique with (x - 2 ^ 63); lia). lia.
Qed.

Lemma wp_Sbrk k n e : os_wf (os e) -> 0 <= k <= 16 -> 0 < n -> n + 2 ^ k < 2 ^ 64 ->
  wp (SbrkSysAllocator_Alloc skip_sbrk n (2 ^ k)) (alloc_ok e (2 ^ k) n) e.
Proof.
  intros Hwf Hk Hn Hov. unfold SbrkSysAllocator_Alloc. set (al := 2 ^ k) in *.
  assert (1 <= al <= 65536) as Hal
    by (unfold al; split; [pose proof (Z.pow_pos_nonneg 2 k); lia|apply (Z.pow_le_mono_r 2 k 16); lia]).
  assert (forall x, Z.land x (al - 1) = x mod al) as Hland by (intros x; apply land_ones_mod; lia).
  destruct skip_sbrk; [apply wp_ret, alloc_ok_null, sys_step_refl, Hwf|].
  rewrite (u64_small (n + al)), (u64_small (n + al - 1)) by lia.
  destruct (Z.ltb_spec (s64 (n + al)) 0) as [|Hs]; [apply wp_ret, alloc_ok_null, sys_step_refl, Hwf|].
  apply s64_nonneg_small in Hs; [|lia].
  destruct (round_up n al) as [Hr Hrm]; [lia|lia|]. set (sz := (n + al - 1) / al * al) in *.
  rewrite (u64_small sz) by lia. apply wp_bind, wp_sbrk; [done|lia|]. intros b e0 S0 _.
  destruct (_ <? sz); [apply wp_ret, alloc_ok_null, S0|].
  apply wp_bind, wp_sbrk; [apply S0|lia|]. intros p e1 S1 F1.
  assert (sys_step e e1) as S01 by (by eapply sys_step_trans).
  destruct (Z.eqb_spec p MAP_FAILED) as [|Hp1]; [apply wp_ret, alloc_ok_null, S01|].
  specialize (F1 Hp1). pose proof F1 as (Hp0 & Hpe & Hf1).
  rewrite !Hland. eapply wp_mono; [|intros r e' Hr'; eapply alloc_ok_trans; [exact S0|exact Hr']].
  destruct (Z.eqb_spec (p mod al) 0) as [Hpm|Hpm].
  { apply wp_ret. split; [done|]. intros _. split; [done|]. do 3 (split; [cbn; lia|]). exact Hf1. }
  destruct (align_up p al) as [Hpa Hex]; [lia|done|].
  apply wp_bind, wp_sbrk; [apply S1|lia|]. intros r2 e2 S2 F2.
  assert (sys_step e0 e2) as S02 by (by eapply sys_step_trans).
  rewrite (u64_small (p + sz)), (u64_small (p + _)) by lia.
  destruct (Z.eqb_spec r2 (p + sz)) as [->|Hne].
  { apply wp_ret. split; [done|]. intros _. destruct F2 as (_ & Hpe2 & Hf2); [unfold MAP_FAILED; lia|].
    split; [done|]. cbn. do 3 (split; [lia|]). intros a Ha.
    destruct (Z.lt_ge_cases a (p + sz)).
    - destruct (Hf1 a); [lia|]. split; [done|]. by apply (ss_owned _ _ S2).
    - destruct (Hf2 a) as [Hn2 ?]; [lia|]. split; [|done]. intros Ho. by apply Hn2, (ss_owned _ _ S1). }
  rewrite (u64_small (sz + al - 1)) by lia. apply wp_bind, wp_sbrk; [apply S2|lia|]. intros q e3 S3 F3.
  destruct (Z.eqb_spec q MAP_FAILED) as [|Hq1]; [apply wp_ret, alloc_ok_null; by eapply sys_step_trans|].
  eapply wp_mono; [|intros r e' Hr'; eapply alloc_ok_trans; [exact S02|exact Hr']].
  specialize (F3 Hq1). pose proof (fresh_gives e2 e3 al sz n q ltac:(lia) F3 ltac:(lia) ltac:(lia)) as G.
  destruct F3 as (? & ? & _). pose proof (Z.mod_pos_bound q al ltac:(lia)).
  rewrite Hland. destruct (Z.eqb_spec (q mod al) 0); cbn [negb]; apply wp_ret; (split; [done|]); intros _; cbn.
  - by rewrite Z.add_0_r in G.
  - by rewrite u64_small by lia.
Qed.

(** ** mmap *)

(** [e'] is [e] except that some bytes of [p, p+n) may be unmapped. *)
Record trimmed e e' (p n : Z) : Prop := {
  tr_wf : os_wf (os e');
  tr_owned : forall a, ~ (p <= a < p + n) -> (owned (os e') a <-> owned (os e) a);
  tr_vars : e' = with_os (os e') e }.

Lemma wp_munmap p n (Q : unit -> sys -> Prop) e : os_wf (os e) ->
  (forall e', trimmed e e' p n -> Q tt e') -> wp (in_os (munmap p n)) Q e.
Proof.
  intros Hwf HQ. apply wp_in_os. eapply wp_mono; [by apply munmap_ok|].
  intros [] o [Ho Ha]. by apply HQ.
Qed.

(** Trimming bytes that were fresh keeps everything older. *)
Lemma trim_step e e1 e2 p n q m : sys_step e e1 -> fresh_block e e1 p n -> trimmed e1 e2 q m ->
  (forall a, q <= a < q + m -> p <= a < p + n) -> sys_step e e2.
Proof.
  intros S1 (_ & _ & Hf) [Hwf Ho He] Hin. eapply (sys_step_trans _ e2); [|by apply sys_step_refl].
  destruct S1 as [_ So [??] ???]. rewrite He. constructor; try done; cbn. intros a Ha.
  apply Ho; [|auto]. intros Hq. by destruct (Hf a (Hin a Hq)).
Qed.

Lemma pagesize_pow : exists j, 12 <= j <= 16 /\ getpagesize (K := K) = 2 ^ j.
Proof.
  pose proof pagesize_ok as Hp. rewrite !elem_of_cons, elem_of_nil in Hp.
  destruct Hp as [->|[->|[->|[->|[]]]]]; [exists 12|exists 13|exists 14|exists 16]; done.
Qed.

(** The alignment gap of a page-aligned address fits the extra memory. *)
Lemma adjust_le p j k : 0 <= j <= k -> p mod 2 ^ j = 0 -> p mod 2 ^ k <> 0 ->
  0 < 2 ^ k - p mod 2 ^ k <= 2 ^ k - 2 ^ j.
Proof.
  intros Hj Hp Hk. pose proof (Z.pow_pos_nonneg 2 j). pose proof (Z.pow_pos_nonneg 2 k).
  pose proof (Z.mod_pos_bound p (2 ^ k) ltac:(lia)). split; [lia|].
  assert (exists c, p mod 2 ^ k = c * 2 ^ j) as [c Hc].
  { exists (p / 2 ^ j - 2 ^ (k - j) * (p / 2 ^ k)).
    pose proof (Z.div_mod p (2 ^ j) ltac:(lia)). rewrite (Z.mod_eq p (2 ^ k)) by lia.
    rewrite Z.mul_sub_distr_r. rewrite (Z.mul_comm (2 ^ (k - j))), <- Z.mul_assoc, <- Z.pow_add_r by lia.
    replace (k - j + j) with k by lia. lia. }
  assert (0 < c) by (apply (Z.mul_pos_cancel_r c (2 ^ j)); lia).
  assert (1 * 2 ^ j <= c * 2 ^ j) by (apply Z.mul_le_mono_nonneg_r; lia). lia.
Qed.

Lemma wp_mmap_full j k sz n e : os_wf (os e) -> getpagesize (K := K) = 2 ^ j -> 0 <= j <= k -> k <= 16 ->
  0 < n <= sz -> sz + 2 ^ k <= 2 ^ 64 ->
  wp (mmap_full sz (2 ^ k)) (alloc_ok e (2 ^ k) n) e.
Proof.
  intros Hwf Hpg Hj Hk Hn Hsz. unfold mmap_full. rewrite Hpg, Z.gtb_ltb.
  pose proof (Z.pow_pos_nonneg 2 j). pose proof (Z.pow_le_mono_r 2 j k ltac:(lia) ltac:(lia)).
  pose proof (Z.pow_le_mono_r 2 k 16 ltac:(lia) ltac:(lia)).
  assert ((if 2 ^ j <? 2 ^ k then 2 ^ k - 2 ^ j else 0) = 2 ^ k - 2 ^ j) as ->
    by (destruct (Z.ltb_spec (2 ^ j) (2 ^ k)); lia).
  rewrite (u64_small (sz + _)) by lia. apply wp_bind, wp_mmap; [done|lia|]. intros p e1 S1 F1.
  destruct (Z.eqb_spec p MAP_FAILED) as [|Hp]; [apply wp_ret, alloc_ok_null, S1|].
  destruct (F1 Hp) as [Hpm F]. rewrite Hpg in Hpm. pose proof F as (Hp0 & Hpe & Hf). clear F1.
  rewrite !land_ones_mod by lia.
  set (adjust := if negb (p mod 2 ^ k =? 0) then 2 ^ k - p mod 2 ^ k else 0).
  assert (0 <= adjust <= 2 ^ k - 2 ^ j /\ (p + adjust) mod 2 ^ k = 0) as [Had Ham].
  { unfold adjust. destruct (Z.eqb_spec (p mod 2 ^ k) 0) as [E0|E0]; cbn [negb].
    - rewrite Z.add_0_r. split; [lia|done].
    - split; [pose proof (adjust_le p j k Hj Hpm E0); lia|]. by apply align_up; [lia|]. }
  assert (forall e2, sys_step e e2 ->
    (forall a, p + adjust <= a < p + adjust + sz -> owned (os e2) a) ->
    wp (_ ← modS (with_hint (u64 (u64 (p + adjust) + sz))); mret (u64 (p + adjust), sz)) (alloc_ok e (2 ^ k) n) e2) as Hend.
  { intros e2 S2 Ho. apply wp_bind, wp_mod, wp_ret. rewrite (u64_small (p + adjust)) by lia.
    split; [by destruct S2|]. intros _. cbn. split; [done|]. do 3 (split; [lia|]). intros a Ha.
    split; [by apply Hf; lia|by apply Ho]. }
  assert (forall e2, os_wf (os e2) -> sys_step e e2 ->
    (forall a, p + adjust <= a < p + (sz + (2 ^ k - 2 ^ j)) -> owned (os e2) a) ->
    wp (_ ← (if adjust <? 2 ^ k - 2 ^ j
             then in_os (munmap (u64 (p + adjust + sz)) (2 ^ k - 2 ^ j - adjust)) else mret tt);
        _ ← modS (with_hint (u64 (u64 (p + adjust) + sz))); mret (u64 (p + adjust), sz))
      (alloc_ok e (2 ^ k) n) e2) as Htail.
  { intros e2 W2 S2 Ho. apply wp_bind. destruct (_ <? _).
    2: { apply wp_ret, Hend; [done|]. intros. apply Ho. lia. }
    rewrite u64_small by lia. apply wp_munmap; [done|]. intros e3 [W3 Ho3 Hv3]. apply Hend.
    - rewrite Hv3. destruct S2 as [_ So [??] ???]. constructor; try done; cbn. intros a Ha.
      apply Ho3; [|auto]. intros Hq. destruct (Hf a); [lia|done].
    - intros a Ha. apply Ho3; [lia|]. apply Ho. lia. }
  apply wp_bind. destruct (Z.gtb_spec adjust 0).
  - apply wp_munmap; [apply S1|]. intros e2 T2. apply Htail; [apply T2| |].
    + eapply (trim_step e e1 e2 p (sz + (2 ^ k - 2 ^ j))); [done|done|exact T2|]. intros. lia.
    + intros a Ha. apply (tr_owned _ _ _ _ T2); [lia|]. apply Hf. lia.
  - apply wp_ret, Htail; [apply S1|done|]. intros. apply Hf. lia.
Qed.

(** The size the mmap allocator computes, when it does not give up. *)
Lemma mmap_size m n : 0 <= m <= 16 -> 0 < n < 2 ^ 64 ->
  n <= u64 (u64 (n + 2 ^ m - 1) / 2 ^ m * 2 ^ m) ->
  u64 (u64 (n + 2 ^ m - 1) / 2 ^ m * 2 ^ m) = (n + 2 ^ m - 1) / 2 ^ m * 2 ^ m /\
  n <= (n + 2 ^ m - 1) / 2 ^ m * 2 ^ m < n + 2 ^ m /\ (n + 2 ^ m - 1) / 2 ^ m * 2 ^ m + 2 ^ m <= 2 ^ 64.
Proof.
  intros Hm Hn Hge. pose proof (Z.pow_pos_nonneg 2 m ltac:(lia) ltac:(lia)).
  pose proof (Z.pow_le_mono_r 2 m 16 ltac:(lia) ltac:(lia)).
  destruct (Z.lt_ge_cases (n + 2 ^ m - 1) (2 ^ 64)) as [Hlt|Hov].
  - rewrite (u64_small (n + 2 ^ m - 1)) in * by lia. destruct (round_up n (2 ^ m)) as [Hr _]; [lia|lia|].
    assert ((n + 2 ^ m - 1) / 2 ^ m <= 2 ^ (64 - m) - 1) as Hd.
    { apply Z.lt_le_pred. apply Z.div_lt_upper_bound; [lia|]. rewrite <- Z.pow_add_r by lia.
      replace (m + (64 - m)) with 64 by lia. lia. }
    assert ((n + 2 ^ m - 1) / 2 ^ m * 2 ^ m <= (2 ^ (64 - m) - 1) * 2 ^ m) as Hd'
      by (apply Z.mul_le_mono_nonneg_r; lia).
    rewrite Z.mul_sub_distr_r, <- Z.pow_add_r in Hd' by lia. replace (64 - m + m) with 64 in Hd' by lia.
    split; [apply u64_small; lia|]. lia.
  - exfalso. rewrite (u64_eq (n + 2 ^ m - 1) (n + 2 ^ m - 1 - 2 ^ 64)) in Hge by (exists 1; lia).
    rewrite (u64_small (n + 2 ^ m - 1 - 2 ^ 64)), Z.div_small in Hge by lia. change (u64 (0 * 2 ^ m)) with 0 in Hge. lia.
Qed.

Lemma wp_Mmap k n e : os_wf (os e) -> 0 <= k <= 16 -> 0 < n < 2 ^ 64 ->
  wp (MmapSysAllocator_Alloc skip_mmap n (2 ^ k)) (alloc_ok e (2 ^ k) n) e.
Proof.
  intros Hwf Hk Hn. unfold MmapSysAllocator_Alloc.
  destruct skip_mmap; [apply wp_ret, alloc_ok_null, sys_step_refl, Hwf|].
  destruct pagesize_pow as (j & Hj & Hpg). rewrite Hpg.
  assert ((if 2 ^ k <? 2 ^ j then 2 ^ j else 2 ^ k) = 2 ^ Z.max j k) as ->.
  { destruct (Z.ltb_spec (2 ^ k) (2 ^ j)) as [Hlt|Hge].
    - apply Z.pow_lt_mono_r_iff in Hlt; [|lia|lia]. f_equal. lia.
    - apply Z.pow_le_mono_r_iff in Hge; [|lia|lia]. f_equal. lia. }
  assert (exists m, m = Z.max j k /\ j <= m <= 16 /\ k <= m) as (m & <- & Hm & Hkm) by (eexists; split; [done|lia]).
  assert (4096 <= 2 ^ m <= 65536) as Hal.
  { split; [apply (Z.pow_le_mono_r 2 12 m); lia|apply (Z.pow_le_mono_r 2 m 16); lia]. }
  destruct (Z.ltb_spec (u64 (u64 (n + 2 ^ m - 1) / 2 ^ m * 2 ^ m)) n) as [|Hge];
    [apply wp_ret, alloc_ok_null, sys_step_refl, Hwf|].
  destruct (mmap_size m n) as (Esz & Hr & Htop); [lia|lia|done|]. rewrite Esz in *. clear Hge.
  set (sz := (n + 2 ^ m - 1) / 2 ^ m * 2 ^ m) in *. apply (wp_mono _ (alloc_ok e (2 ^ m) n)).
  2: { intros r e' [S G]. split; [done|]. intros Hr0. destruct (G Hr0) as (Hmod & G'). split; [|done].
       apply Z.mod_divide in Hmod as [c Hc]; [|lia]. rewrite Hc.
       replace (2 ^ m) with (2 ^ (m - k) * 2 ^ k) by (rewrite <- Z.pow_add_r; [f_equal|..]; lia).
       rewrite Z.mul_assoc. apply Z_mod_mult. }
  assert (forall e1, sys_step e e1 -> wp (mmap_full sz (2 ^ m)) (alloc_ok e (2 ^ m) n) e1) as Hfull.
  { intros e1 S1. eapply wp_mono; [apply (wp_mmap_full j m sz n); [apply S1|done|lia|lia|lia|lia]|].
    intros r e' Hr'. by eapply alloc_ok_trans. }
  apply wp_bind, wp_get. destruct (_ && _) eqn:Ec; [|apply Hfull, sys_step_refl, Hwf].
  apply wp_bind, wp_mmap; [done|lia|]. intros p e1 S1 F1. rewrite land_ones_mod by lia.
  destruct (Z.eqb_spec (p mod 2 ^ m) 0) as [Hpm|Hpm].
  - destruct (F1) as [_ (Hp0 & Hpe & Hf)].
    { intros ->. unfold MAP_FAILED in Hpm. replace (2 ^ 64 - 1) with ((2 ^ (64 - m) - 1) * 2 ^ m + (2 ^ m - 1)) in Hpm.
      - rewrite Z.add_comm, Z_mod_plus_full, Z.mod_small in Hpm; lia.
      - rewrite Z.mul_sub_distr_r, <- Z.pow_add_r by lia. replace (64 - m + m) with 64 by lia. lia. }
    apply wp_bind, wp_mod, wp_ret. split; [by destruct S1|]. intros _. split; [done|]. cbn.
    do 3 (split; [lia|]). done.
  - apply wp_bind, wp_munmap; [apply S1|]. intros e2 T2. apply Hfull.
    destruct (decide (p = MAP_FAILED)) as [->|Hp].
    + destruct T2 as [W2 Ho2 Hv2]. rewrite Hv2. destruct S1 as [W1 So [??] ???]. constructor; try done; cbn.
      intros a Ha. apply Ho2; [|auto]. pose proof (owned_range _ _ W1 (So a Ha)). unfold MAP_FAILED. lia.
    + eapply (trim_step e e1 e2 p sz); [done|by apply F1|done|done].
Qed.

(** ** TCMalloc_SystemAlloc *)

Lemma wp_DefaultAlloc k n e : os_wf (os e) -> 0 <= k <= 16 -> 0 < n -> n + 2 ^ k < 2 ^ 64 ->
  wp (DefaultSysAllocator_Alloc skip_sbrk skip_mmap n (2 ^ k)) (alloc_ok e (2 ^ k) n) e.
Proof.
  intros Hwf Hk Hn Hov. pose proof (Z.pow_pos_nonneg 2 k ltac:(lia) ltac:(lia)).
  unfold DefaultSysAllocator_Alloc. apply wp_bind, wp_get, wp_bind.
  apply (wp_mono _ (alloc_ok e (2 ^ k) n)).
  { destruct (negb _); [by apply wp_Sbrk|]. apply wp_ret, alloc_ok_null, sys_step_refl, Hwf. }
  intros r e1 H1. destruct (Z.eqb_spec (fst r) 0); cbn [negb]; [|by apply wp_ret].
  apply wp_bind, wp_mod, wp_bind, wp_get, wp_bind.
  set (e2 := with_failed _ e1). assert (sys_step e e2) as S2 by (by destruct H1 as [[] _]).
  apply (wp_mono _ (alloc_ok e (2 ^ k) n)).
  { destruct (negb _); [|by apply wp_ret, alloc_ok_null].
    eapply wp_mono; [apply wp_Mmap; [apply S2|done|lia]|]. intros r' e' Hr'. by eapply alloc_ok_trans. }
  intros r' e3 H3. destruct (Z.eqb_spec (fst r') 0); cbn [negb]; [|by apply wp_ret].
  apply wp_bind, wp_mod, wp_ret, alloc_ok_null. by destruct H3 as [[] _].
Qed.

(** The call succeeded, or nothing was granted. *)
Definition sysalloc_ok e (al n : Z) (r : Z * Z) e' : Prop :=
  exists e1, alloc_ok e al n r e1 /\
    (fst r = 0 /\ e' = e1 \/ fst r <> 0 /\ exists t, e' = with_granted t r e1).

Lemma wp_sys_alloc k n e : os_wf (os e) -> 6 <= k <= 16 -> 0 < n < 2 ^ 64 ->
  wp (SystemAlloc skip_sbrk skip_mmap n (2 ^ k)) (sysalloc_ok e (2 ^ k) n) e.
Proof.
  intros Hwf Hk Hn. unfold SystemAlloc. pose proof (Z.pow_le_mono_r 2 6 k ltac:(lia) ltac:(lia)).
  pose proof (Z.pow_le_mono_r 2 k 16 ltac:(lia) ltac:(lia)).
  destruct (Z.ltb_spec (u64 (n + 2 ^ k)) n) as [|Hov].
  { apply wp_ret. exists e. split; [apply alloc_ok_null, sys_step_refl, Hwf|by left]. }
  assert (n + 2 ^ k < 2 ^ 64).
  { destruct (Z.lt_ge_cases (n + 2 ^ k) (2 ^ 64)); [done|].
    rewrite (u64_eq _ (n + 2 ^ k - 2 ^ 64)) in Hov by (exists 1; lia). rewrite u64_small in Hov; lia. }
  rewrite (proj2 (Z.ltb_ge _ _)) by (unfold kMetadataAllignment; lia).
  apply wp_bind. eapply wp_mono; [apply wp_DefaultAlloc; [done|lia|lia|done]|].
  intros [ptr act] e1 HA. destruct (Z.eqb_spec ptr 0) as [->|Hp].
  { apply wp_ret. exists e1. split; [done|by left]. }
  destruct (proj2 HA Hp) as (? & ? & ? & ? & _). cbn [fst snd] in *. apply wp_bind. apply (wp_lift _ tt).
  { apply check_true. unfold CheckAddressBits. change (kAddressBits =? 8 * 8) with false. cbn [orb].
    apply Z.eqb_eq. rewrite u64_small by lia. rewrite shiftr_div by clia. apply Z.div_small. clia. }
  apply wp_bind, wp_mod, wp_ret. exists e1. split; [done|]. right. split; [done|]. by eexists.
Qed.

Lemma wp_SystemRelease a n (Q : bool -> sys -> Prop) e : os_wf (os e) ->
  (forall ok e', sys_step e e' -> Q ok e') -> wp (SystemRelease disable_memory_release a n) Q e.
Proof.
  intros Hwf HQ. unfold SystemRelease.
  destruct disable_memory_release; [apply wp_ret, HQ, sys_step_refl, Hwf|].
  destruct (_ >? _); [|apply wp_ret, HQ, sys_step_refl, Hwf]. apply wp_bind, wp_get.
  eapply (loopM_count _ (fun n _ e' => sys_step e e' /\ (eagain (os e') <= n)%nat))
    with (n := eagain (os e)); [|by split; [apply sys_step_refl|]|lia].
  intros k [] e' [S1 Hle]. apply wp_bind, wp_in_os. eapply wp_mono; [apply madvise_ok, S1|].
  intros [ok again] o [Ho Hag]. assert (sys_step e (with_os o e')) as S2
    by (eapply sys_step_trans; [done|by apply os_keeps_step]).
  destruct ok, again; cbn [negb andb]; apply wp_ret; [by apply HQ..| |by apply HQ].
  specialize (Hag eq_refl eq_refl). exists (Nat.pred k). split; [lia|]. split; [done|]. cbn. lia.
Qed.

(** ** Metadata *)

Definition used e (a : Z) : Prop := exists b, b ∈ meta_blocks e /\ b.1 <= a < b.1 + b.2.

(** The objects of an allocator: carved from used memory, each once. *)
Record PHA_ok (U : Z -> Prop) (p : PageHeapAllocator) : Prop := {
  pa_area : 0 <= free_avail_ p /\ 0 <= free_area_ p /\ free_area_ p + free_avail_ p <= 2 ^ 47 /\
    (0 < free_avail_ p -> 0 < free_area_ p);
  pa_used : forall a, free_area_ p <= a < free_area_ p + free_avail_ p -> U a;
  pa_nodup : NoDup (carved p);
  pa_carved : forall c, c ∈ carved p -> 0 < c /\ U c /\ ~ (free_area_ p <= c < free_area_ p + free_avail_ p);
  pa_free : NoDup (free_list_ p) /\ forall c, c ∈ free_list_ p -> c ∈ carved p }.

Record sys_wf e : Prop := {
  wf_os : os_wf (os e);
  wf_granted : forall r a, r ∈ granted e -> r.1 <= a < r.1 + r.2 -> owned (os e) a;
  wf_chunk : 0 <= metadata_chunk_avail_ e /\ 0 <= metadata_chunk_alloc_ e /\
    metadata_chunk_alloc_ e + metadata_chunk_avail_ e <= 2 ^ 47 /\
    (0 < metadata_chunk_avail_ e -> 0 < metadata_chunk_alloc_ e);
  wf_chunk_own : forall a, metadata_chunk_alloc_ e <= a < metadata_chunk_alloc_ e + metadata_chunk_avail_ e ->
    owned (os e) a /\ ~ used e a;
  wf_used : forall a, used e a -> owned (os e) a;
  wf_pha : forall k, PHA_ok (used e) (allocator k e) }.

Lemma PHA_ok_mono (U U' : Z -> Prop) p : (forall a, U a -> U' a) -> PHA_ok U p -> PHA_ok U' p.
Proof.
  intros HU []. constructor; auto. intros c Hc. destruct (pa_carved0 c Hc) as (? & ? & ?). auto.
Qed.

Lemma sys_step_wf e e' : sys_wf e -> sys_step e e' -> sys_wf e'.
Proof.
  intros [] [So1 So2 [Ec1 Ec2] Es Eg Em]. assert (forall a, used e' a <-> used e a) as Hu
    by (intros a; unfold used; by rewrite Em).
  constructor; rewrite ?Ec1, ?Ec2, ?Eg; try done.
  - eauto.
  - intros a Ha. rewrite Hu. destruct (wf_chunk_own0 a Ha). auto.
  - intros a. rewrite Hu. auto.
  - intros k. rewrite Es. eapply PHA_ok_mono; [|done]. intros a. by rewrite Hu.
Qed.

Lemma sysalloc_wf e al n r e' : sys_wf e -> sysalloc_ok e al n r e' -> sys_wf e'.
Proof.
  intros Hwf (e1 & [S1 G] & [[_ ->]|(Hr & t & ->)]); [by eapply sys_step_wf|].
  pose proof (sys_step_wf _ _ Hwf S1) as []. destruct (G Hr) as (? & ? & ? & ? & Hf).
  constructor; try done. cbn. intros q a [->|Hq]%elem_of_cons Ha; [by apply Hf|eauto].
Qed.

(** What the upper layers see of a call. *)
Record meta_step e e' : Prop := {
  ms_wf : sys_wf e';
  ms_used : forall a, used e a -> used e' a;
  ms_alloc : forall k, allocator k e' = allocator k e;
  ms_granted : forall r, r ∈ granted e -> r ∈ granted e' }.

(** A block of [n] bytes was handed out. *)
Definition meta_block e e' (r n : Z) : Prop :=
  0 < r /\ r + n <= 2 ^ 47 /\ forall a, r <= a < r + n -> ~ used e a /\ used e' a.

Lemma sysalloc_facts e al n r e' : sys_wf e -> sysalloc_ok e al n r e' ->
  sys_wf e' /\ meta_blocks e' = meta_blocks e /\ (forall k, allocator k e' = allocator k e) /\
  (forall q, q ∈ granted e -> q ∈ granted e') /\
  metadata_chunk_alloc_ e' = metadata_chunk_alloc_ e /\ metadata_chunk_avail_ e' = metadata_chunk_avail_ e /\
  (fst r <> 0 -> gives e e' al n (fst r) (snd r) /\ r ∈ granted e').
Proof.
  intros Hwf H. pose proof (sysalloc_wf _ _ _ _ _ Hwf H) as Hwf'. split; [done|].
  destruct H as (e1 & [[S1 S2 [S3 S4] S5 S6 S7] G] & [[E0 ->]|(Hr & t & ->)]); cbn.
  - rewrite S6. do 5 (split; [done|]). done.
  - rewrite S6. do 2 (split; [done|]). split; [intros; by right|]. do 2 (split; [done|]).
    intros _. split; [exact (G Hr)|by left].
Qed.

(** Recording a block that lies in fresh or chunk memory. *)
Lemma with_meta_wf e bytes r n : sys_wf e -> 0 <= n ->
  (forall a, r <= a < r + n -> owned (os e) a) ->
  (forall a, r <= a < r + n ->
     ~ (metadata_chunk_alloc_ e <= a < metadata_chunk_alloc_ e + metadata_chunk_avail_ e)) ->
  sys_wf (with_meta bytes (r, n) e).
Proof.
  intros [] Hn Ho Hc. assert (forall a, used (with_meta bytes (r, n) e) a <-> used e a \/ r <= a < r + n) as Hu.
  { intros a. unfold used. cbn. split.
    - intros (b & [->|Hb]%elem_of_cons & Ha); [by right|left; eauto].
    - intros [(b & Hb & Ha)|Ha]; [exists b; split; [by right|done]|exists (r, n); split; [by left|done]]. }
  constructor; try done.
  - intros a Ha. rewrite Hu. destruct (wf_chunk_own0 a Ha). split; [done|]. intros [?|?]; [done|]. by apply (Hc a).
  - intros a [?|?]%Hu; auto.
  - intros k. assert (allocator k (with_meta bytes (r, n) e) = allocator k e) as -> by (by destruct k).
    eapply PHA_ok_mono; [|done]. intros a ?. apply Hu. by left.
Qed.

Lemma with_chunk_wf e a n : sys_wf e -> 0 <= n -> 0 <= a -> a + n <= 2 ^ 47 -> (0 < n -> 0 < a) ->
  (forall x, a <= x < a + n -> owned (os e) x /\ ~ used e x) -> sys_wf (with_chunk a n e).
Proof. intros [] ? ? ? ? Hx. by constructor. Qed.

(** From a chunk with room for the block. *)
Lemma wp_metadata_cut bytes al e0 e : sys_wf e -> meta_blocks e = meta_blocks e0 ->
  (forall k, allocator k e = allocator k e0) -> (forall q, q ∈ granted e0 -> q ∈ granted e) ->
  0 <= bytes < 2 ^ 32 -> 0 <= al < 64 -> bytes + al <= metadata_chunk_avail_ e ->
  wp (metadata_cut bytes al) (fun r e' => meta_step e0 e' /\ (r <> 0 -> meta_block e0 e' r bytes)) e.
Proof.
  intros W1 Em Es Eg Hb Hal Hroom. destruct (wf_chunk _ W1) as (H1 & H2 & H3 & H4).
  unfold metadata_cut. apply wp_bind, wp_get. cbn zeta. rewrite !u64_small by (rewrite ?u64_small; lia).
  apply wp_bind, wp_mod, wp_bind, wp_mod, wp_ret.
  set (ca := metadata_chunk_alloc_ e) in *. set (av := metadata_chunk_avail_ e) in *.
  assert (forall a, ca + al <= a < ca + al + bytes -> owned (os e) a /\ ~ used e a) as Hblk
    by (intros a Ha; apply (wf_chunk_own _ W1); fold ca av; lia).
  assert (forall a, used e a <-> used e0 a) as Hu by (intros a; unfold used; by rewrite Em).
  assert (sys_wf (with_chunk (ca + (bytes + al)) (av - (bytes + al)) e)) as W2.
  { apply with_chunk_wf; [done|lia|lia|lia|lia|]. intros x Hx. apply (wf_chunk_own _ W1). fold ca av. lia. }
  split; [constructor; try done|].
  - apply with_meta_wf; [done|lia| |]; intros a Ha; [by apply Hblk|cbn; lia].
  - intros a (b & Hb' & Ha). exists b. cbn. rewrite Em. split; [by right|done].
  - intros Hr0. split; [lia|]. split; [lia|]. intros a Ha. rewrite <- Hu. split; [by apply Hblk|].
    exists (ca + al, bytes). split; [by left|done].
Qed.

Lemma wp_MetaDataAlloc n e : sys_wf e ->
  wp (MetaDataAlloc_ skip_sbrk skip_mmap n) (fun r e' =>
    meta_step e e' /\ (r <> 0 -> meta_block e e' r (u64 n))) e.
Proof.
  intros Hwf. unfold MetaDataAlloc_. pose proof (u64_range n) as Hn. set (bytes := u64 n) in *.
  change kMetadataAllignment with (2 ^ 6). rewrite Z.geb_leb.
  destruct (Z.leb_spec kMetadataAllocChunkSize bytes) as [Hbig|Hsmall].
  { apply wp_bind. eapply wp_mono; [apply wp_sys_alloc; [apply Hwf|lia|unfold kMetadataAllocChunkSize in *; lia]|].
    intros [rv act] e1 H1. apply (sysalloc_facts _ _ _ _ _ Hwf) in H1 as (W1 & Em & Es & Eg & Ec1 & Ec2 & G).
    cbn [fst snd] in *. apply wp_bind. destruct (Z.eqb_spec rv 0) as [->|Hrv].
    - apply wp_ret, wp_ret. split; [|done]. constructor; try done. intros a. unfold used. by rewrite Em.
    - destruct (G Hrv) as [(_ & Hr0 & Hact & Hre & Hf) Hgr]. apply wp_mod, wp_ret.
      assert (sys_wf (with_meta bytes (rv, bytes) e1)) as W2.
      { apply with_meta_wf; [done|lia| |]; intros a Ha; destruct (Hf a) as [Hno ?]; try lia; [done|].
        rewrite Ec1, Ec2. intros Hc. by apply Hno, (wf_chunk_own _ Hwf). }
      split; [constructor; try done|].
      + intros a (b & Hb & Ha). exists b. cbn. rewrite Em. split; [by right|done].
      + intros _. split; [done|]. split; [lia|]. intros a Ha. split.
        * intros Hu. destruct (Hf a) as [Hno _]; [lia|]. by apply Hno, (wf_used _ Hwf).
        * exists (rv, bytes). split; [by left|done]. }
  apply wp_bind, wp_get, wp_bind.
  set (al := Z.land (u64 (- metadata_chunk_alloc_ e)) (2 ^ 6 - 1)).
  assert (0 <= al < 64) as Hal by (unfold al; rewrite land_ones_mod by lia; apply Z.mod_pos_bound; lia).
  unfold kMetadataAllocChunkSize in *.
  assert (forall e1 al', sys_wf e1 -> meta_blocks e1 = meta_blocks e -> (forall k, allocator k e1 = allocator k e) ->
    (forall q, q ∈ granted e -> q ∈ granted e1) -> 0 <= al' < 64 -> bytes + al' <= metadata_chunk_avail_ e1 ->
    wp (metadata_cut bytes al') (fun r e' => meta_step e e' /\ (r <> 0 -> meta_block e e' r bytes)) e1)
    as Hcut by (intros; apply wp_metadata_cut; try done; lia).
  rewrite (u64_small (bytes + al)) by lia.
  destruct (Z.ltb_spec (metadata_chunk_avail_ e) (bytes + al)); [|by apply wp_ret, Hcut].
  apply wp_bind. eapply wp_mono; [apply wp_sys_alloc; [apply Hwf|lia|lia]|].
  intros [ptr act] e1 H1. apply (sysalloc_facts _ _ _ _ _ Hwf) in H1 as (W1 & Em & Es & Eg & Ec1 & Ec2 & G).
  cbn [fst snd] in *. destruct (Z.eqb_spec ptr 0) as [->|Hp].
  - apply wp_ret, wp_ret. split; [|done]. constructor; try done. intros a. unfold used. by rewrite Em.
  - destruct (G Hp) as [(_ & Hr0 & Hact & Hre & Hf) Hgr]. apply wp_bind, wp_mod, wp_ret.
    apply Hcut; [|done|done|done|lia|cbn; lia].
    apply with_chunk_wf; [done|lia|lia|lia|lia|]. intros x Hx. destruct (Hf x Hx) as [Hno ?]. split; [done|].
    intros (b & Hb & Ha). rewrite Em in Hb. apply Hno, (wf_used _ Hwf). exists b. done.
Qed.

(** ** Descriptors *)

Definition live k e : gset Z :=
  list_to_set (carved (allocator k e)) ∖ list_to_set (free_list_ (allocator k e)).

Lemma allocator_with k k' p e : allocator k' (with_allocator k p e) = if decide (k' = k) then p else allocator k' e.
Proof. by destruct k, k'. Qed.
Lemma live_with k k' p e : k' <> k -> live k' (with_allocator k p e) = live k' e.
Proof. intros Hk. unfold live. by rewrite allocator_with, decide_False. Qed.
Lemma with_allocator_wf k e p : sys_wf e -> PHA_ok (used e) p -> sys_wf (with_allocator k p e).
Proof.
  intros [W1 W2 W3 W4 W5 W6] Hp. destruct k; (constructor; try done; intros []; try done; first [exact Hp|apply (W6 KSpan)|apply (W6 KStack)|apply (W6 KCache)]).
Qed.
Lemma sizeof_bounds k : 0 < sizeof k <= kAllocIncrement.
Proof. by destruct k. Qed.

(** Carving an object from the front of the area. *)
Lemma carve_ok (U : Z -> Prop) sz p a av : 0 < a -> 0 < sz <= av -> a + av <= 2 ^ 47 ->
  (forall x, a <= x < a + av -> U x) -> PHA_ok U p -> a ∉ carved p ->
  (forall c, c ∈ carved p -> ~ (a <= c < a + av)) -> free_list_ p = [] ->
  PHA_ok U (mkPHA (a + sz) (av - sz) [] (s32 (inuse_ p + 1)) (a :: carved p)).
Proof.
  intros Ha Hav Hb HU [] Hn Hc Hf. constructor; cbn.
  - lia.
  - intros x Hx. apply HU. lia.
  - by constructor.
  - intros c [->|Hin]%elem_of_cons; [split; [done|]; split; [apply HU; lia|lia]|].
    destruct (pa_carved0 c Hin) as (? & ? & _). split; [done|]. split; [done|]. specialize (Hc c Hin). lia.
  - split; [constructor|]. intros c Hc'. by apply elem_of_nil in Hc'.
Qed.

(** What the upper layers see of [New] and [Delete]. *)
Record alloc_step (k : kind) (L : gset Z) e e' : Prop := {
  as_live : live k e' = L;
  as_other : forall k', k' <> k -> live k' e' = live k' e;
  as_wf : sys_wf e';
  as_granted : forall r, r ∈ granted e -> r ∈ granted e' }.

Lemma alloc_step_put k L e e1 p : meta_step e e1 -> PHA_ok (used e1) p ->
  list_to_set (carved p) ∖ list_to_set (free_list_ p) = L -> alloc_step k L e (with_allocator k p e1).
Proof.
  intros [W U S G] Hp HL. constructor.
  - unfold live. by rewrite allocator_with, decide_True.
  - intros k' Hk. rewrite live_with by done. unfold live. by rewrite S.
  - by apply with_allocator_wf.
  - intros r Hr. specialize (G r Hr). by destruct k.
Qed.
Lemma meta_step_refl e : sys_wf e -> meta_step e e.
Proof. by constructor. Qed.

Lemma wp_PHA_New k e : sys_wf e -> wp (PHA_New skip_sbrk skip_mmap k) (fun p e' =>
  p <> 0 /\ p ∉ live k e /\ alloc_step k ({[p]} ∪ live k e) e e') e.
Proof.
  intros Hwf. unfold PHA_New. apply wp_bind, wp_get. cbn zeta. pose proof (wf_pha _ Hwf k) as HP.
  pose proof HP as [Ha Hu Hnd Hc [Hfn Hfc]]. unfold live. pose proof (sizeof_bounds k) as Hsz.
  set (A := allocator k e) in *.
  destruct (free_list_ A) as [|r l] eqn:Ef.
  2: { apply wp_bind, wp_mod, wp_ret. apply NoDup_cons in Hfn as [Hrl Hnl].
       assert (r ∈ carved A) as Hr by (apply Hfc; left).
       destruct (Hc r Hr) as (? & _). split; [lia|]. split; [set_solver|].
       apply alloc_step_put; [by apply meta_step_refl| |].
       - constructor; cbn; try done. split; [done|]. intros c Hcl. apply Hfc. by right.
       - cbn [carved free_list_]. apply set_eq. intros x.
         rewrite elem_of_union, !elem_of_difference, !elem_of_list_to_set, elem_of_cons, elem_of_singleton.
         destruct (decide (x = r)) as [->|]; naive_solver. }
  assert (forall e1 a av, meta_step e e1 -> 0 < a -> sizeof k <= av -> a + av <= 2 ^ 47 ->
    (forall x, a <= x < a + av -> used e1 x) -> (forall c, c ∈ carved A -> ~ (a <= c < a + av)) ->
    wp (_ ← modS (with_allocator k (mkPHA (u64 (a + sizeof k)) (u64 (av - sizeof k)) [] (s32 (inuse_ A + 1)) (a :: carved A))); mret a)
      (fun p e' => p <> 0 /\ (p ∉ list_to_set (C := gset Z) (carved A) ∖ list_to_set []) /\
         alloc_step k ({[p]} ∪ list_to_set (carved A) ∖ list_to_set []) e e') e1) as Hcarve.
  { intros e1 a av M1 Ha0 Hav Hb HU Hdis. rewrite !u64_small by lia.
    assert (a ∉ carved A) as Han by (intros Hin; apply (Hdis a Hin); lia).
    apply wp_bind, wp_mod, wp_ret. split; [lia|]. split; [set_solver|]. apply alloc_step_put; [done| |cbn; set_solver].
    apply (carve_ok (used e1)); try done; [lia|]. eapply PHA_ok_mono; [exact (ms_used _ _ M1)|done]. }
  apply wp_bind. destruct (Z.ltb_spec (free_avail_ A) (sizeof k)) as [Hlt|Hge].
  - apply wp_bind. eapply wp_mono; [by apply wp_MetaDataAlloc|]. intros a e1 [M1 B1].
    destruct (Z.eqb_spec a 0) as [|Ha0]; [done|]. destruct (B1 Ha0) as (? & Hb & Hblk).
    rewrite (u64_small kAllocIncrement) in Hb, Hblk by done. apply wp_ret.
    apply Hcarve; [done|done|lia|done|intros; by apply Hblk|].
    intros c Hin Hr. destruct (Hc c Hin) as (_ & Huc & _). by destruct (Hblk c Hr).
  - apply wp_ret. apply Hcarve; [by apply meta_step_refl|lia|lia|lia|done|].
    intros c Hin. by apply Hc.
Qed.

Lemma wp_PHA_Delete k p e : sys_wf e -> p ∈ live k e ->
  wp (PHA_Delete k p) (fun _ e' => alloc_step k (live k e ∖ {[p]}) e e') e.
Proof.
  intros Hwf Hp. unfold PHA_Delete. apply wp_bind, wp_get, wp_mod. unfold live in *.
  apply elem_of_difference in Hp as [Hpc Hpf]. rewrite elem_of_list_to_set in Hpc, Hpf.
  pose proof (wf_pha _ Hwf k) as [Ha Hu Hnd Hc [Hfn Hfc]].
  apply alloc_step_put; [by apply meta_step_refl| |cbn; set_solver]. constructor; cbn; try done.
  split; [by constructor|]. intros c [->|?]%elem_of_cons; auto.
Qed.

(** *** Unconditional frames *)

(** Everything below the allocators leaves them alone. *)
Definition allocs e := (span_allocator e, stacktrace_allocator e, threadcache_allocator e).

Lemma keeps_in_os {A} (m : M K A) : keeps allocs (in_os m).
Proof. intros e a e'. unfold in_os. destruct (m (os e)) as [[b o]|]; [|done]. by intros [= _ <-]. Qed.
#[local] Hint Resolve keeps_in_os : moves.
#[local] Hint Extern 1 (same allocs _ _) => reflexivity : moves.

Lemma SystemAlloc_allocs n al : keeps allocs (SystemAlloc skip_sbrk skip_mmap n al).
Proof.
  unfold SystemAlloc, DefaultSysAllocator_Alloc, SbrkSysAllocator_Alloc, MmapSysAllocator_Alloc, mmap_full. moves.
Qed.
#[local] Hint Resolve SystemAlloc_allocs : moves.
Lemma MetaDataAlloc_allocs n : keeps allocs (MetaDataAlloc_ skip_sbrk skip_mmap n).
Proof. unfold MetaDataAlloc_, metadata_cut. moves. Qed.
Lemma SystemRelease_allocs a n : keeps allocs (SystemRelease disable_memory_release a n).
Proof. unfold SystemRelease. moves. Qed.

(** Objects of the other kinds stay, and [New] removes none. *)
Definition stays e e' : Prop := live KStack e ⊆ live KStack e' /\ live KCache e ⊆ live KCache e'.
#[export] Instance stays_preorder : PreOrder stays.
Proof. split; [by intros e|]. intros e1 e2 e3 [] []. split; set_solver. Qed.
Lemma keeps_stays {A} (m : M sys A) : keeps allocs m -> moves stays m.
Proof.
  intros Hm e a e' H. specialize (Hm e a e' H). unfold same, allocs in Hm. injection Hm as E1 E2 E3.
  unfold stays, live. cbn. by rewrite E2, E3.
Qed.
Lemma with_allocator_stays k p e e1 : same allocs e e1 ->
  (list_to_set (carved (allocator k e)) ∖ list_to_set (free_list_ (allocator k e)) : gset Z) ⊆
    list_to_set (carved p) ∖ list_to_set (free_list_ p) -> stays e (with_allocator k p e1).
Proof.
  unfold same, allocs. intros [= E1 E2 E3] Hp. unfold stays, live. rewrite !allocator_with.
  split; case_decide as Hk; try (subst; exact Hp); cbn; by rewrite ?E2, ?E3.
Qed.
Lemma PHA_New_stays k : moves stays (PHA_New skip_sbrk skip_mmap k).
Proof.
  intros e a e' He. unfold PHA_New in He. apply bind_Ret in He as (e0 & e1 & [= <- <-] & He). cbn zeta in He.
  destruct (free_list_ (allocator k e)) as [|r l] eqn:Ef.
  - apply bind_Ret in He as ([b av] & e1 & H1 & He). apply bind_Ret in He as ([] & e2 & [= <-] & [= <- <-]).
    apply with_allocator_stays; [|rewrite Ef; cbn; set_solver].
    destruct (_ <? _); [|injection H1 as _ _ <-; done].
    apply bind_Ret in H1 as (c & e3 & H3%MetaDataAlloc_allocs & H1). destruct (c =? 0); [done|]. by injection H1 as _ _ <-.
  - apply bind_Ret in He as ([] & e2 & [= <-] & [= <- <-]). apply with_allocator_stays; [done|]. rewrite Ef. cbn. set_solver.
Qed.

(** ** The interface of the page heap *)

(** The 8 KiB pages that lie inside a region. *)
Definition region_pages (r : Z * Z) : gset Z :=
  list_to_set (seqZ ((r.1 + kPageSize - 1) / kPageSize)
                    ((r.1 + r.2) / kPageSize - (r.1 + kPageSize - 1) / kPageSize)).
Definition taken e : gset Z := ⋃ (region_pages <$> granted e).

Lemma elem_taken e pg : pg ∈ taken e <->
  exists r, r ∈ granted e /\ r.1 <= pg * kPageSize /\ (pg + 1) * kPageSize <= r.1 + r.2.
Proof.
  unfold taken. rewrite elem_of_union_list. split.
  - intros (X & (r & -> & Hr)%list_elem_of_fmap & Hpg). exists r. split; [done|].
    unfold region_pages in Hpg. rewrite elem_of_list_to_set, elem_of_seqZ in Hpg. consts. zdiv.
  - intros (r & Hr & H1 & H2). exists (region_pages r). split; [by apply list_elem_of_fmap_2|].
    unfold region_pages. rewrite elem_of_list_to_set, elem_of_seqZ. consts. zdiv.
Qed.

Lemma taken_mono e e' : (forall r, r ∈ granted e -> r ∈ granted e') -> taken e ⊆ taken e'.
Proof. intros Hg pg. rewrite !elem_taken. intros (r & Hr & ?). eauto. Qed.

Lemma taken_owned e pg a : sys_wf e -> pg ∈ taken e ->
  pg * kPageSize <= a < (pg + 1) * kPageSize -> owned (os e) a.
Proof. intros Hwf (r & Hr & H1 & H2)%elem_taken Ha. apply (wf_granted _ Hwf r); [done|lia]. Qed.

Definition system_layer : SysEnv sys := {|
  span_allocator_New := PHA_New skip_sbrk skip_mmap KSpan;
  span_allocator_Delete := PHA_Delete KSpan;
  stacktrace_allocator_New := PHA_New skip_sbrk skip_mmap KStack;
  stacktrace_allocator_Delete := PHA_Delete KStack;
  threadcache_New := PHA_New skip_sbrk skip_mmap KCache;
  threadcache_Delete := PHA_Delete KCache;
  MetaDataAlloc := MetaDataAlloc_ skip_sbrk skip_mmap;
  TCMalloc_SystemAlloc := SystemAlloc skip_sbrk skip_mmap;
  TCMalloc_SystemRelease := SystemRelease disable_memory_release;
  TCMalloc_SystemCommit := SystemCommit;
  TCMalloc_SystemTaken := SystemTaken;
  live_spans := live KSpan;
  live_stacks := live KStack;
  live_caches := live KCache;
  taken_pages := taken;
  env_wf := sys_wf |}.

Lemma meta_keeps_env e e' : meta_step e e' -> @env_keeps _ system_layer e e'.
Proof.
  intros [W U S G]. split; [split; [done|by apply taken_mono]|]. cbn. unfold live. by rewrite S.
Qed.
Lemma step_keeps_env e e' : sys_wf e -> sys_step e e' -> @env_keeps _ system_layer e e'.
Proof.
  intros W S. pose proof (sys_step_wf _ _ W S). destruct S as [_ _ _ Es Eg _].
  split; [split; [done|apply taken_mono; by rewrite Eg]|]. cbn. unfold live. by rewrite Es.
Qed.
Lemma alloc_keeps_env k L e e' : k <> KSpan -> alloc_step k L e e' -> @env_keeps _ system_layer e e'.
Proof. intros Hk [HL HO W G]. split; [split; [done|by apply taken_mono]|]. by apply HO. Qed.

Lemma system_SystemAlloc n e : sys_wf e -> 0 < n < 2 ^ 64 ->
  wp (SystemAlloc skip_sbrk skip_mmap n kPageSize) (fun '(ptr, actual) e' =>
    @env_keeps _ system_layer e e' /\
    (ptr <> 0 -> ptr mod kPageSize = 0 /\ 0 < ptr /\ n <= actual /\ ptr + actual <= 2 ^ 48 /\
       forall pg, ptr / kPageSize <= pg < ptr / kPageSize + actual / kPageSize ->
         (pg ∉ taken e) /\ pg ∈ taken e')) e.
Proof.
  intros Hwf Hn. change kPageSize with (2 ^ 13) at 1.
  eapply wp_mono; [apply wp_sys_alloc; [apply Hwf|lia|done]|].
  intros [ptr act] e' H. apply (sysalloc_facts _ _ _ _ _ Hwf) in H as (W & Em & Es & Eg & _ & _ & G).
  cbn [fst snd] in G. split.
  { split; [split; [done|by apply taken_mono]|]. cbn. unfold live. by rewrite Es. }
  intros Hp. destruct (G Hp) as [(Hmod & H0 & Hact & Hend & Hf) Hgr].
  change (2 ^ 13) with kPageSize in Hmod. split; [done|]. do 3 (split; [lia|]). intros pg Hpg.
  assert (ptr <= pg * kPageSize /\ (pg + 1) * kPageSize <= ptr + act) as [Hlo Hhi] by (consts; zdiv).
  split.
  - intros Ht. destruct (Hf (pg * kPageSize)) as [Hno _]; [clia|]. apply Hno.
    apply (taken_owned e pg); [done|done|clia].
  - apply elem_taken. exists (ptr, act). done.
Qed.

Lemma system_layer_laws : @SysEnvLaws _ system_layer.
Proof.
  split; cbn -[env_keeps env_grows].
  - intros e Hwf. apply (owned_limit (os e)); [apply Hwf|]. intros pg a Hpg. by apply taken_owned.
  - intros e Hwf. eapply wp_mono; [by apply wp_PHA_New|]. intros p e' (H1 & H2 & [H3 _ H4 H5]).
    do 3 (split; [done|]). split; [done|by apply taken_mono].
  - intros p e Hwf Hp. eapply wp_mono; [by apply wp_PHA_Delete|]. intros u e' [H1 _ H2 H3].
    split; [done|]. split; [done|by apply taken_mono].
  - intros e Hwf. eapply wp_mono; [by apply wp_PHA_New|]. intros p e' (H1 & H2 & H3).
    do 2 (split; [done|]). split; [apply H3|by eapply (alloc_keeps_env KStack)].
  - intros p e Hwf Hp. eapply wp_mono; [by apply wp_PHA_Delete|]. intros u e' H.
    split; [apply H|]. split; [by apply (as_other _ _ _ _ H)|exact (alloc_keeps_env KStack _ _ _ ltac:(done) H)].
  - intros e Hwf. eapply wp_mono; [by apply wp_PHA_New|]. intros p e' (H1 & H2 & H3).
    do 2 (split; [done|]). split; [apply H3|by eapply (alloc_keeps_env KCache)].
  - intros p e Hwf Hp. eapply wp_mono; [by apply wp_PHA_Delete|]. intros u e' H.
    split; [apply H|]. split; [by apply (as_other _ _ _ _ H)|exact (alloc_keeps_env KCache _ _ _ ltac:(done) H)].
  - intros n e Hwf. eapply wp_mono; [by apply wp_MetaDataAlloc|]. intros r e' [H _]. by apply meta_keeps_env.
  - intros n e Hwf Hn. by apply system_SystemAlloc.
  - intros a n e Hwf. apply wp_SystemRelease; [apply Hwf|]. intros ok e' S. by apply step_keeps_env.
  - intros a n e Hwf. apply wp_ret, step_keeps_env; [done|]. apply sys_step_refl, Hwf.
  - apply PHA_New_stays.
  - intros p e u e' (e0 & e1 & [= <- <-] & [= _ <-])%bind_Ret. split; done.
  - apply PHA_New_stays.
  - apply PHA_New_stays.
  - intros n. apply keeps_stays, MetaDataAlloc_allocs.
  - intros n al. apply keeps_stays, SystemAlloc_allocs.
  - intros a n. apply keeps_stays, SystemRelease_allocs.
  - intros a n. apply keeps_stays. unfold SystemCommit. moves.
Qed.

Lemma sys_init_wf o : os_wf o -> sys_wf (sys_init o).
Proof.
  intros Ho. assert (forall A (x : A), ~ x ∈ []) as Hnil by (intros A x Hx; by apply elem_of_nil in Hx).
  split; cbn; [done|intros r a Hr; by apply Hnil in Hr|lia|intros; lia|intros a (b & Hb & _); by apply Hnil in Hb|].
  intros k. assert (allocator k (sys_init o) = PHA_zero) as -> by (by destruct k).
  split; cbn; [lia|intros; lia|constructor|intros c Hc; by apply Hnil in Hc|].
  split; [constructor|intros c Hc; by apply Hnil in Hc].
Qed.

(** ** Properties *)

(** [TCMalloc_SystemAlloc] for a power-of-two alignment of at least the
    metadata alignment. It returns null, or a block that is aligned, at
    least as long as asked for, inside the user address space, and no byte
    of which the process had; the block is recorded as granted, and no
    allocation of an upper layer is disturbed. The address check behind it
    never fails. *)
Theorem SystemAlloc_correct k n e (Hwf : sys_wf e) (Hk : 6 <= k <= 16) (Hn : 0 < n < 2 ^ 64) :
  wp (SystemAlloc skip_sbrk skip_mmap n (2 ^ k)) (fun '(ptr, actual) e' =>
    sys_wf e' /\ meta_blocks e' = meta_blocks e /\ (forall r, r ∈ granted e -> r ∈ granted e') /\
    (ptr <> 0 -> ptr mod 2 ^ k = 0 /\ 0 < ptr /\ n <= actual /\ ptr + actual <= 2 ^ 47 /\
       (ptr, actual) ∈ granted e' /\
       forall a, ptr <= a < ptr + actual -> ~ owned (os e) a /\ owned (os e') a)) e.
Proof.
  eapply wp_mono; [apply wp_sys_alloc; [apply Hwf|done|done]|]. intros [ptr act] e' H.
  apply (sysalloc_facts _ _ _ _ _ Hwf) in H as (W & Em & _ & Eg & _ & _ & G).
  do 3 (split; [done|]). intros Hp. destruct (G Hp) as [(? & ? & ? & ? & ?) ?]. done.
Qed.

(** [MetaDataAlloc] never hands out a byte twice. Every request, cut
    from the current chunk, from a new chunk or given memory of its own,
    yields null or a block disjoint from all blocks handed out before, and
    the earlier blocks stay handed out. *)
Theorem MetaDataAlloc_correct n e (Hwf : sys_wf e) :
  wp (MetaDataAlloc_ skip_sbrk skip_mmap n) (fun r e' =>
    sys_wf e' /\ (forall a, used e a -> used e' a) /\
    (r <> 0 -> 0 < r /\ r + u64 n <= 2 ^ 47 /\
       forall a, r <= a < r + u64 n -> ~ used e a /\ used e' a)) e.
Proof.
  eapply wp_mono; [by apply wp_MetaDataAlloc|]. intros r e' [[W U _ _] HB]. done.
Qed.

(** C28: the system layer implements the interface of the page heap: over
    any kernel that behaves as documented, the sbrk and mmap allocators,
    the metadata allocator and the descriptor allocator meet the laws the
    page heap relies on. *)
Theorem system_layer_implements : @SysEnvLaws _ system_layer.
Proof. apply system_layer_laws. Qed.
End Spec.

(** ** A concrete kernel

    A break that moves up to a limit; mmap always fails. *)
Module ToyOS.
Definition base : Z := 2 ^ 24.
Definition limit : Z := 2 ^ 40.

Definition toy_sbrk (n : Z) : M Z Z := fun brk =>
  if (0 <=? n) && (brk + n <=? limit) then Ret (brk, brk + n) else Ret (MAP_FAILED, brk).

#[export] Instance toy : OS Z := {|
  mmap _ _ := mret MAP_FAILED;
  munmap _ _ := mret tt;
  sbrk := toy_sbrk;
  madvise _ _ := mret (true, false);
  getpagesize := 4096;
  owned brk a := base <= a < brk;
  eagain _ := 0%nat;
  os_wf brk := base <= brk <= limit |}.

#[export] Instance toy_laws : OSLaws Z.
Proof.
  split; cbn.
  - by left.
  - intros brk T Hb HT. apply (Z.le_lt_trans _ (limit / kPageSize)); [|done].
    assert (T ⊆ list_to_set (seqZ 0 (limit / kPageSize))) as Hs.
    { intros pg Hpg. apply elem_of_list_to_set, elem_of_seqZ.
      pose proof (HT pg (pg * kPageSize) Hpg ltac:(consts; lia)). unfold limit, base in *. consts. zdiv. }
    apply subseteq_size in Hs. rewrite size_list_to_set, length_seqZ in Hs by apply NoDup_seqZ.
    change (limit / kPageSize) with 134217728 in *. lia.
  - intros brk a Hb Ha. unfold base, limit in *. lia.
  - intros hint n brk Hb Hn. apply wp_ret. left. done.
  - intros p n brk Hb. apply wp_ret. done.
  - intros n brk Hb Hn. unfold wp, toy_sbrk. destruct (Z.leb_spec 0 n); [|lia].
    destruct (Z.leb_spec (brk + n) limit); cbn; [right|by left].
    unfold os_gives, base, limit in *. cbn. unfold base, limit in *. split_and!; try lia; intros; lia.
  - intros p n brk Hb. apply wp_ret. done.
Qed.
End ToyOS.
#[export] Existing Instance ToyOS.toy.

Lemma SystemAlloc_correct_witness :
  wp (SystemAlloc false false 5000 (2 ^ 13)) (fun '(ptr, actual) _ => ptr mod 2 ^ 13 = 0) (sys_init ToyOS.base).
Proof.
  eapply wp_mono; [apply (SystemAlloc_correct (OSLaws0 := ToyOS.toy_laws) false false 13 5000 (sys_init ToyOS.base));
    [by apply sys_init_wf|lia|lia]|].
  intros [ptr act] e' (_ & _ & _ & H). destruct (decide (ptr = 0)) as [->|Hp]; [done|]. by apply H.
Defined.

Lemma MetaDataAlloc_correct_witness :
  wp (MetaDataAlloc_ false false 100) (fun _ e' => sys_wf e') (sys_init ToyOS.base).
Proof.
  eapply wp_mono; [apply (MetaDataAlloc_correct (OSLaws0 := ToyOS.toy_laws) false false 100 (sys_init ToyOS.base));
    by apply sys_init_wf|]. by intros r e' [? _].
Defined.

Lemma system_layer_implements_witness : @SysEnvLaws _ (system_layer (OS0 := ToyOS.toy) false false false).
Proof. apply (system_layer_implements (OSLaws0 := ToyOS.toy_laws) false false false). Defined.
