(* ===== verification/PageHeapSpec.v ===== *)
(** * Properties of the page heap

    The state machine of the page heap under its public operations, its
    safety, and the contracts of the single operations. *)
From Stdlib Require Import Sorting.Sorted.
From S2P Require Import Prelude Common PageMap PackedCache Span SysEnv PageHeap PageHeapInv PageHeapOps PageHeapRelease PageHeapAlloc SystemAlloc SystemAllocSpec.
Import PH.

Section Spec.
Context {PM E : Type} `{!PageMap PM} `{!PageMapLaws PM} `{!SysEnv E} `{!SysEnvLaws E}.
Context (release_rate : double) (heap_limit_mb smallest_span_size_ : Z).
Abbreviation heap := (PageHeap PM E).
Abbreviation HInv := (Inv (PM := PM) (E := E) ∅ 0).
Implicit Types h : heap.

(** The flags and the constructor argument the operations are run with. *)
Record config_ok : Prop := {
  rate_ok : release_rate <> S754_nan;
  size_ok : span_size_ok smallest_span_size_ }.

(** ** The initial state *)

Lemma init_HInv e h : env_wf e -> init smallest_span_size_ e = Ret h -> HInv h.
Proof.
  intros He Hi. unfold init in Hi. destruct (check _) as [[]|]; [|discriminate].
  injection Hi as <-. constructor; cbn -[listed]; try done.
  - constructor; try (intros *; rewrite lookup_empty; discriminate).
    intros pg Hpg. by rewrite pm_init_get in Hpg.
  - constructor.
    + intros [] i; constructor.
    + intros [] i p Hl; try done; (split; [intros Hp; unfold flist, span_list in Hp; cbn -[lookup] in Hp;
        rewrite lookup_empty in Hp; by apply elem_of_nil in Hp|]);
        intros (s & (Hs & _)%listed_Some & _); by rewrite lookup_empty in Hs.
    + intros []; constructor.
    + intros [] x Hl; try done; (split; [intros Hp; by apply elem_of_nil in Hp|]);
        intros (s & (Hs & _)%listed_Some & _); by rewrite lookup_empty in Hs.
  - intros p [s Hs]. by rewrite lookup_empty in Hs.
  - exists 0. split; [done|]. split; [done|]. apply Nat2Z.is_nonneg.
Qed.

(** ** The state machine *)

(** The public operations. A client deletes and registers only spans in
    use; descriptors come from earlier allocations. *)
Inductive op :=
  | OpNew (n sc : Z)
  | OpNewAligned (n j : Z)
  | OpDelete (p : Z)
  | OpRegister (p sc : Z)
  | OpRelease (num : Z)
  | OpSetAggressive (b : bool)
  | OpCachePut (pg cl : Z).

Definition op_pre (o : op) h : Prop :=
  match o with
  | OpNew n _ => 0 < n < 2 ^ 64
  | OpNewAligned n j => 0 < n < 2 ^ 64 /\ 0 <= j <= 63
  | OpDelete p | OpRegister p _ => exists s, inuse h p s
  | _ => True
  end.

Definition run (o : op) : M heap Z :=
  match o with
  | OpNew n sc => NewWithSizeClass release_rate heap_limit_mb smallest_span_size_ n sc
  | OpNewAligned n j => NewAligned release_rate heap_limit_mb smallest_span_size_ n (2 ^ j)
  | OpDelete p => _ ← Delete release_rate p; mret 0
  | OpRegister p sc => _ ← RegisterSizeClass p sc; mret 0
  | OpRelease num => ReleaseAtLeastNPages num
  | OpSetAggressive b => _ ← SetAggressiveDecommit b; mret 0
  | OpCachePut pg cl => _ ← SetCachedSizeClass pg cl; mret 0
  end.

Inductive reachable : heap -> Prop :=
  | reach_init e h : env_wf e -> init smallest_span_size_ e = Ret h -> reachable h
  | reach_step o h r h' : reachable h -> op_pre o h -> run o h = Ret (r, h') -> reachable h'.

Lemma run_HInv o h : config_ok -> HInv h -> op_pre o h -> wp (run o) (fun _ h' => HInv h') h.
Proof.
  intros [Hrate Hss] HI Hpre. destruct o; simpl in Hpre |- *.
  - eapply wp_mono; [by apply wp_NewWithSizeClass|]. by intros r h' [? _].
  - destruct Hpre. eapply wp_mono; [by apply wp_NewAligned|]. by intros r h' [? _].
  - destruct Hpre as (s & Hp & Hl). apply wp_bind. by eapply wp_DeleteLocked.
  - destruct Hpre as (s & Hu). apply wp_bind. by eapply wp_RegisterSizeClass.
  - by eapply wp_ReleaseAtLeastNPages.
  - apply wp_bind, wp_mod, wp_ret. destruct HI. by constructor.
  - apply wp_bind, wp_mod, wp_ret. by apply HInv_cache.
Qed.

Lemma reachable_HInv h : config_ok -> reachable h -> HInv h.
Proof.
  intros Hc. induction 1 as [e h He Hi|o h r h' Hr IH Hpre Hrun]; [by eapply init_HInv|].
  pose proof (run_HInv o h Hc IH Hpre) as Hw. unfold wp in Hw. by rewrite Hrun in Hw.
Qed.

(** ** The built-in checker *)

Lemma check_span_ok h p s loc lo hi : HInv h -> spans h !! p = Some s -> location s = loc ->
  lo <= length_ s <= hi -> check_span p loc lo hi h = Ret tt.
Proof.
  intros HI Hp Hl Hlen. pose proof (geo_wf _ _ _ _ (inv_geo _ _ _ HI) p s Hp) as Hw.
  unfold check_span, GetDescriptor. rewrite Hp. obind.
  rewrite Hl, bool_decide_true by done. simpl.
  rewrite Z.geb_leb, !(proj2 (Z.leb_le _ _)) by lia. simpl. rewrite u64_small by lia.
  rewrite (geo_first _ _ _ _ (inv_geo _ _ _ HI) p s Hp), (geo_last _ _ _ _ (inv_geo _ _ _ HI) p s Hp).
  by rewrite Z.eqb_refl.
Qed.

Lemma foldM_unit {X} (f : unit -> X -> outcome unit) l : (forall x, x ∈ l -> f tt x = Ret tt) ->
  foldM f l tt = Ret tt.
Proof.
  induction l as [|x l IH]; intros Hf; [done|]. simpl. rewrite Hf by left. simpl. apply IH.
  intros y Hy. apply Hf. by right.
Qed.

Lemma CheckList_ok h i loc : HInv h -> loc <> IN_USE ->
  CheckList (flist h loc (i - 1)) i i loc h = Ret tt.
Proof.
  intros HI Hl. apply foldM_unit. intros p Hp.
  apply (ls_mem _ _ _ (inv_lists _ _ _ HI)) in Hp as (s & (Hs & _)%listed_Some & ? & ? & _); [|done].
  apply (check_span_ok h p s); [done|done|done|lia].
Qed.

Lemma CheckSet_ok h loc : HInv h -> loc <> IN_USE ->
  CheckSet (large h loc) (kMaxPages + 1) loc h = Ret tt.
Proof.
  intros HI Hl. apply foldM_unit. intros e He.
  apply (ls_large _ _ _ (inv_lists _ _ _ HI)) in He as (s & (Hs & _)%listed_Some & Hloc & Ee & Hlen); [|done].
  pose proof (geo_wf _ _ _ _ (inv_geo _ _ _ HI) _ s Hs) as Hw.
  rewrite Hs. obind. assert (e_length e = length_ s) as -> by (by rewrite Ee).
  rewrite Z.eqb_refl, Hloc, bool_decide_true by done. simpl.
  rewrite Z.geb_leb, (proj2 (Z.leb_le _ _)) by lia. simpl. unfold GetDescriptor. rewrite u64_small by lia.
  rewrite (geo_first _ _ _ _ (inv_geo _ _ _ HI) _ s Hs), (geo_last _ _ _ _ (inv_geo _ _ _ HI) _ s Hs).
  by rewrite Z.eqb_refl.
Qed.

Lemma CheckExpensive_ok h : HInv h -> CheckExpensive h = Ret tt.
Proof.
  intros HI. unfold CheckExpensive.
  pose proof (CheckSet_ok h ON_NORMAL_FREELIST HI) as Hn.
  pose proof (CheckSet_ok h ON_RETURNED_FREELIST HI) as Hr. cbn [large] in Hn, Hr.
  rewrite Hn, Hr by done. obind. apply foldM_unit. intros i _.
  pose proof (CheckList_ok h i ON_NORMAL_FREELIST HI) as Ln.
  pose proof (CheckList_ok h i ON_RETURNED_FREELIST HI) as Lr. cbn [flist] in Ln, Lr.
  rewrite Ln by done. obind. by rewrite Lr.
Qed.

(** ** Exact statistics *)

Lemma msum_pages S (T : gset Z) :
  (forall p s pg, S !! p = Some s -> in_span s pg -> pg ∈ T) ->
  (forall p q s t pg, S !! p = Some s -> S !! q = Some t -> in_span s pg -> in_span t pg -> p = q) ->
  (forall p s, S !! p = Some s -> 0 <= length_ s) ->
  msum (fun _ s => length_ s) S <= Z.of_nat (size T).
Proof.
  revert T. induction S as [|p s S Hp IH] using map_ind; intros T HT Hd Hlen; [unfold msum; rewrite map_fold_empty; lia|].
  rewrite msum_insert by done.
  assert (<[p := s]> S !! p = Some s) as Hps by apply lookup_insert_eq.
  assert (forall q t, S !! q = Some t -> <[p := s]> S !! q = Some t) as Hq
    by (intros q t Hq; rewrite lookup_insert_ne; [done|congruence]).
  set (A := list_to_set (seqZ (start s) (length_ s)) : gset Z).
  assert (forall pg, pg ∈ A <-> in_span s pg) as HA
    by (intros pg; unfold A, in_span; rewrite elem_of_list_to_set, elem_of_seqZ; done).
  assert (Z.of_nat (size A) = length_ s) as Hsz.
  { unfold A. rewrite size_list_to_set, length_seqZ by apply NoDup_seqZ.
    pose proof (Hlen p s Hps). lia. }
  assert (A ⊆ T) as HAT by (intros pg Hpg; apply (HT p s pg Hps), HA, Hpg).
  pose proof (IH (T ∖ A)) as Hrec. rewrite size_difference in Hrec by done.
  pose proof (subseteq_size _ _ HAT). enough (msum (fun _ s0 => length_ s0) S <= Z.of_nat (size T - size A)) by lia.
  apply Hrec.
  - intros q t pg Hqt Hin. apply elem_of_difference. split; [exact (HT q t pg (Hq q t Hqt) Hin)|].
    rewrite HA. intros Hs. assert (q = p) by (exact (Hd q p t s pg (Hq q t Hqt) Hps Hin Hs)). congruence.
  - intros q r t u pg H1 H2. eapply (Hd q r t u pg); auto.
  - intros q t Hqt. eapply Hlen; eauto.
Qed.

Lemma pages_on_bound loc h : HInv h -> 0 <= pages_on loc (listed ∅ (spans h)) < 2 ^ 31.
Proof.
  intros HI. assert (forall p s, listed ∅ (spans h) !! p = Some s -> spans h !! p = Some s /\ 1 <= length_ s) as HL.
  { intros p s (Hs & _)%listed_Some. split; [done|]. by apply (geo_wf _ _ _ _ (inv_geo _ _ _ HI) p s). }
  split; [apply msum_nonneg; intros p s [_ ?]%HL; case_decide; lia|].
  apply (Z.le_lt_trans _ (msum (fun _ s => length_ s) (listed ∅ (spans h)))).
  { apply msum_le. intros p s [_ ?]%HL. case_decide; lia. }
  apply (Z.le_lt_trans _ (Z.of_nat (size (taken_pages (env h)))));
    [|apply taken_size, (inv_env _ _ _ HI)].
  apply msum_pages.
  - intros p s pg [Hs _]%HL. by apply (geo_taken _ _ _ _ (inv_geo _ _ _ HI) p s).
  - intros p q s t pg [Hs _]%HL [Ht _]%HL. by apply (geo_disj _ _ _ _ (inv_geo _ _ _ HI) p q s t pg).
  - intros p s [_ ?]%HL. lia.
Qed.

(** ** Best fit *)

Lemma upper_bound_first e l x : StronglySorted less l -> upper_bound e l = Some x ->
  forall y, y ∈ l -> less e y -> y = x \/ less x y.
Proof.
  induction 1 as [|z l Hs IH Hz]; [done|]. unfold upper_bound. cbn [List.find].
  destruct (SpanBestFitLess e z) eqn:Ez.
  - intros [= <-] y [->|Hy]%elem_of_cons _; [by left|]. right.
    rewrite Forall_forall in Hz. by apply Hz.
  - intros Hf y [->|Hy]%elem_of_cons Hless; [congruence|]. by apply IH.
Qed.
Lemma upper_bound_none e l : upper_bound e l = None -> forall y, y ∈ l -> ~ less e y.
Proof. intros H y Hy. apply list_elem_of_In in Hy. by apply less_false, (List.find_none _ _ H). Qed.

(** The best entry of one set. *)
Lemma upper_bound_best loc n h x : HInv h -> loc <> IN_USE ->
  upper_bound (mkEntry 0 n 0) (large h loc) = Some x ->
  forall p s, spans h !! p = Some s -> location s = loc -> kMaxPages < length_ s -> n <= length_ s ->
  e_length x <= length_ s.
Proof.
  intros HI Hl Hx p s Hp Hloc Hbig Hn. pose proof (geo_wf _ _ _ _ (inv_geo _ _ _ HI) p s Hp) as Hw.
  assert (mkEntry p (length_ s) (start s) ∈ large h loc) as Hin.
  { apply (ls_large _ _ _ (inv_lists _ _ _ HI)); [done|]. exists s. rewrite listed_Some. cbn. split; [|done].
    split; [done|]. split; [set_solver|congruence]. }
  edestruct (upper_bound_first _ _ _ (ls_sorted _ _ _ (inv_lists _ _ _ HI) loc) Hx _ Hin) as [<-|Hle];
    [apply less_spec; cbn; lia|cbn; lia|]. apply less_spec in Hle. cbn in Hle. lia.
Qed.
Lemma upper_bound_empty loc n h : HInv h -> loc <> IN_USE ->
  upper_bound (mkEntry 0 n 0) (large h loc) = None ->
  forall p s, spans h !! p = Some s -> location s = loc -> kMaxPages < length_ s -> length_ s < n.
Proof.
  intros HI Hl Hx p s Hp Hloc Hbig. pose proof (geo_wf _ _ _ _ (inv_geo _ _ _ HI) p s Hp) as Hw.
  assert (mkEntry p (length_ s) (start s) ∈ large h loc) as Hin.
  { apply (ls_large _ _ _ (inv_lists _ _ _ HI)); [done|]. exists s. rewrite listed_Some. cbn. split; [|done].
    split; [done|]. split; [set_solver|congruence]. }
  pose proof (upper_bound_none _ _ Hx _ Hin) as Hnl. rewrite less_spec in Hnl. cbn in Hnl. lia.
Qed.

(** ** Properties *)

(** C10: safety of the page heap. In every reachable state, two distinct
    spans in use share no page, every span in use has at least one page and
    its first and last page map to it, and every page of every span came
    from the system. *)
Theorem page_heap_safe h (Hc : config_ok) (Hr : reachable h) :
  (forall p q s t pg, inuse h p s -> inuse h q t -> in_span s pg -> in_span t pg -> p = q) /\
  (forall p s, inuse h p s -> 1 <= length_ s /\ GetDescriptor (start s) h = p /\
     GetDescriptor (start s + length_ s - 1) h = p /\
     forall pg, in_span s pg -> pg ∈ taken_pages (env h)).
Proof.
  pose proof (reachable_HInv h Hc Hr) as HI. pose proof (inv_geo _ _ _ HI) as HG. split.
  - intros p q s t pg [Hp _] [Hq _]. by apply (geo_disj _ _ _ _ HG).
  - intros p s [Hp _]. split; [by apply (geo_wf _ _ _ _ HG p s)|].
    split; [by apply (geo_first _ _ _ _ HG)|]. split; [by apply (geo_last _ _ _ _ HG)|].
    intros pg. by apply (geo_taken _ _ _ _ HG p s).
Qed.

(** C11: no operation goes wrong. In a reachable state, a call that meets
    its precondition returns and the state it leaves is reachable; the only
    other outcome is the logged crash of an exhausted metadata allocator.
    No descriptor is dereferenced that does not exist, no page-map leaf is
    missing, no internal check fails and every loop ends. *)
Theorem page_heap_progress o h (Hc : config_ok) (Hr : reachable h) (Hpre : op_pre o h) :
  (exists r h', run o h = Ret (r, h') /\ reachable h') \/ run o h = Fault OOM.
Proof.
  pose proof (run_HInv o h Hc (reachable_HInv h Hc Hr) Hpre) as Hw. unfold wp in Hw.
  destruct (run o h) as [[r h']|[]] eqn:E0; try done; [left|by right].
  exists r, h'. split; [done|]. by eapply reach_step.
Qed.

(** The heap passes its own consistency check. In every reachable state
    [CheckExpensive] returns: each span of a free list has that list's
    location and length, the cached lengths of the large sets are right,
    and the page map points back from both ends. *)
Theorem page_heap_check h (Hc : config_ok) (Hr : reachable h) : CheckExpensive h = Ret tt.
Proof. by apply CheckExpensive_ok, reachable_HInv. Qed.

(** The statistics are exact. In every reachable state the free and
    unmapped counters are the bytes on the normal and on the returned free
    lists, without wrap-around, and unmapped plus committed bytes are the
    bytes obtained from the system (modulo the counters' width). *)
Theorem page_heap_stats h (Hc : config_ok) (Hr : reachable h) :
  free_bytes (stats_ h) = kPageSize * pages_on ON_NORMAL_FREELIST (listed ∅ (spans h)) /\
  unmapped_bytes (stats_ h) = kPageSize * pages_on ON_RETURNED_FREELIST (listed ∅ (spans h)) /\
  system_bytes (stats_ h) = u64 (unmapped_bytes (stats_ h) + committed_bytes (stats_ h)).
Proof.
  pose proof (reachable_HInv h Hc Hr) as HI. destruct (inv_books _ _ _ HI) as [Hf Hu Hs].
  pose proof (pages_on_bound ON_NORMAL_FREELIST h HI). pose proof (pages_on_bound ON_RETURNED_FREELIST h HI).
  rewrite Hf, Hu, Hs, Z.add_0_r, <- Hu. split; [apply u64_small; clia|]. split; [|done].
  rewrite Hu. apply u64_small. clia.
Qed.

(** [NewWithSizeClass]. From a reachable state it returns null and
    leaves the spans in use as they were, or a descriptor that was not in
    use and now is, of the requested length rounded up to the smallest span
    size, with the requested size class and not sampled; for a nonzero
    class every page of it maps to it. All other spans in use, and their
    page-map entries, are untouched. *)
Theorem NewWithSizeClass_correct n sc h (Hc : config_ok) (Hr : reachable h) (Hn : 0 < n < 2 ^ 64) :
  wp (NewWithSizeClass release_rate heap_limit_mb smallest_span_size_ n sc) (fun r h' =>
    (r = 0 /\ same_inuse ∅ h h') \/
    (r <> 0 /\ same_inuse {[r]} h h' /\ (forall t, ~ inuse h r t) /\
     exists s, inuse h' r s /\ length_ s = RoundUpSize smallest_span_size_ n /\ sizeclass s = u8 sc /\
       sample s = false /\ (sc <> 0 -> forall pg, in_span s pg -> GetDescriptor pg h' = r))) h.
Proof.
  pose proof (reachable_HInv h Hc Hr) as HI. destruct Hc as [Hrate Hss].
  eapply wp_mono; [by apply wp_NewWithSizeClass|]. by intros r h' [_ H].
Qed.

(** [NewAligned] for a power-of-two alignment. The span returned is new,
    has exactly the rounded length, starts at a multiple of the alignment,
    and every other span in use is untouched: the pages skipped before it
    and cut after it are free again. *)
Theorem NewAligned_correct n j h (Hc : config_ok) (Hr : reachable h) (Hn : 0 < n < 2 ^ 64)
    (Hj : 0 <= j <= 63) :
  wp (NewAligned release_rate heap_limit_mb smallest_span_size_ n (2 ^ j)) (fun r h' =>
    (r = 0 /\ same_inuse ∅ h h') \/
    (r <> 0 /\ same_inuse {[r]} h h' /\ (forall t, ~ inuse h r t) /\
     exists s, inuse h' r s /\ length_ s = RoundUpSize smallest_span_size_ n /\
       start s mod 2 ^ j = 0 /\ sizeclass s = 0 /\ sample s = false)) h.
Proof.
  pose proof (reachable_HInv h Hc Hr) as HI. destruct Hc as [Hrate Hss].
  eapply wp_mono; [by apply wp_NewAligned|]. intros r h' [_ [H|(H0 & s & (_ & Hu & Hs & Hn') & Hrest)]]; [by left|].
  right. split; [done|]. split; [done|]. split; [done|]. by exists s.
Qed.

(** [Delete] of a span in use, in any state that meets the invariant
    (every reachable one does). It keeps the invariant, the span is no
    longer in use and every other span in use, with its page-map entries,
    is untouched, whether or not the freed pages are coalesced, decommitted
    or scavenged. *)
Theorem Delete_correct p s h (Hrate : release_rate <> S754_nan) (HI : HInv h) (Hp : inuse h p s) :
  wp (Delete release_rate p) (fun _ h' => HInv h' /\ same_inuse {[p]} h h' /\ forall t, ~ inuse h' p t) h.
Proof. destruct Hp as [Hp Hl]. by eapply wp_DeleteLocked. Qed.

(** C29: [ReleaseAtLeastNPages] ends and releases what it reports. Spans in
    use are untouched, no page is taken back from the system, which has got
    at least as many pages as reported, and there are fewer normal spans
    when any are. On a system that accepts every release the pages are as
    many as asked for, or no free byte is left. *)
Theorem Release_correct num h (Hc : config_ok) (Hr : reachable h) :
  wp (ReleaseAtLeastNPages num) (fun r h' => same_inuse ∅ h h' /\
    count_normal h' <= count_normal h /\ (r <> 0 -> count_normal h' < count_normal h) /\
    0 <= r /\ returned_pages h + r <= returned_pages h' /\
    (willing (E := E) -> num <= r \/ free_bytes (stats_ h') = 0)) h.
Proof.
  pose proof (reachable_HInv h Hc Hr) as HI. eapply wp_ReleaseAtLeastNPages; [done|].
  intros r h' HI' [Hs Hk _] Hr' Hlt Hret Hw. split_and!; try done; [lia|].
  intros [?|Hf]%Hw; [by left|right]. rewrite (bk_free _ _ _ (inv_books _ _ _ HI')) in *.
  match type of Hf with u64 ?x <= 0 => pose proof (u64_range x); lia end.
Qed.

(** Large allocations are best fit. The entry [AllocLarge] carves is
    that of a free span long enough, no longer than any other free span
    above 128 pages that is long enough, and on the normal set unless a
    returned span is strictly shorter; when it finds none, none is long
    enough. *)
Theorem AllocLarge_best_fit n h (Hc : config_ok) (Hr : reachable h) (Hn : 0 < n) :
  match best_fit n h with
  | (Some e, bn) =>
      (exists s, spans h !! e_span e = Some s /\ location s <> IN_USE /\ n <= length_ s /\ length_ s = e_length e) /\
      (forall p s, spans h !! p = Some s -> location s <> IN_USE -> kMaxPages < length_ s -> n <= length_ s ->
         e_length e <= length_ s) /\
      (forall b, bn = Some b -> e = b \/ e_length e < e_length b)
  | (None, _) => forall p s, spans h !! p = Some s -> location s <> IN_USE -> kMaxPages < length_ s -> length_ s < n
  end.
Proof.
  pose proof (reachable_HInv h Hc Hr) as HI. destruct (best_fit n h) as [[e|] bn] eqn:Eb.
  - assert (exists s, spans h !! e_span e = Some s /\ location s <> IN_USE /\ n <= length_ s /\ length_ s = e_length e) as Hex.
    { unfold best_fit in Eb.
      assert (forall loc, loc <> IN_USE -> upper_bound (mkEntry 0 n 0) (large h loc) = Some e ->
        exists s, spans h !! e_span e = Some s /\ location s <> IN_USE /\ n <= length_ s /\ length_ s = e_length e) as Hl.
      { intros loc Hloc (He & Hless)%upper_bound_spec.
        apply (ls_large _ _ _ (inv_lists _ _ _ HI)) in He as (s & (Hs & _ & ?)%listed_Some & _ & Ee & _); [|done].
        assert (e_length e = length_ s) as El by (by rewrite Ee).
        exists s. split; [done|]. split; [done|]. apply less_spec in Hless. cbn in Hless. lia. }
      pose proof (Hl ON_NORMAL_FREELIST ltac:(done)) as Hl1. pose proof (Hl ON_RETURNED_FREELIST ltac:(done)) as Hl2.
      cbn [large] in Hl1, Hl2. destruct (upper_bound _ (large_returned_ h)); [|by simplify_eq; auto].
      destruct (upper_bound _ (large_normal_ h)); [destruct (_ <? _)|]; simplify_eq; auto. }
    split; [done|].
    pose proof (fun x => upper_bound_best ON_NORMAL_FREELIST n h x HI ltac:(done)) as B1.
    pose proof (fun x => upper_bound_best ON_RETURNED_FREELIST n h x HI ltac:(done)) as B2.
    pose proof (upper_bound_empty ON_NORMAL_FREELIST n h HI ltac:(done)) as N1.
    pose proof (upper_bound_empty ON_RETURNED_FREELIST n h HI ltac:(done)) as N2.
    cbn [large] in *. unfold best_fit in Eb.
    destruct (upper_bound _ (large_returned_ h)) as [c|], (upper_bound _ (large_normal_ h)) as [b|];
      try (destruct (Z.ltb_spec (e_length c) (e_length b))); simplify_eq;
      (split; [|intros b' [= <-]; auto]); intros p s Hp Hl Hbig Hlen; destruct (location s) eqn:El; try done;
      try (specialize (B1 _ eq_refl p s Hp El Hbig Hlen)); try (specialize (B2 _ eq_refl p s Hp El Hbig Hlen));
      try (specialize (N1 eq_refl p s Hp El Hbig)); try (specialize (N2 eq_refl p s Hp El Hbig)); lia.
  - unfold best_fit in Eb. intros p s Hp Hl Hbig.
    pose proof (upper_bound_empty (location s) n h HI Hl) as Hn'.
    destruct (upper_bound _ (large_returned_ h)) eqn:E2; [destruct (upper_bound _ (large_normal_ h));
      [destruct (_ <? _)|]; discriminate|]. injection Eb as E1 _.
    destruct (location s) eqn:El; [done| |]; by apply (Hn' ltac:(done) p s).
Qed.

(** [RoundUpSize] rounds up to the smallest span size: the result is the
    least multiple not below [n] when it is representable, and otherwise
    the largest multiple there is, which no allocation can satisfy. *)
Theorem RoundUpSize_spec n k (Hk : 0 <= k <= 63) (Hs : smallest_span_size_ = 2 ^ k) (Hn : 0 < n < 2 ^ 64) :
  RoundUpSize smallest_span_size_ n mod smallest_span_size_ = 0 /\
  (n + smallest_span_size_ <= 2 ^ 64 ->
     n <= RoundUpSize smallest_span_size_ n < n + smallest_span_size_) /\
  (2 ^ 64 < n + smallest_span_size_ -> RoundUpSize smallest_span_size_ n = 2 ^ 64 - smallest_span_size_).
Proof.
  rewrite RoundUpSize_eq by (try exists k; done). subst smallest_span_size_.
  pose proof (Z.pow_pos_nonneg 2 k ltac:(lia) ltac:(lia)).
  pose proof (Z.div_mod (n + 2 ^ k - 1) (2 ^ k) ltac:(lia)).
  pose proof (Z.mod_pos_bound (n + 2 ^ k - 1) (2 ^ k) ltac:(lia)).
  destruct (Z.ltb_spec (n + 2 ^ k - 1) (2 ^ 64)).
  - split; [apply Z_mod_mult|]. lia.
  - split; [|lia]. replace (2 ^ 64 - 2 ^ k) with ((2 ^ (64 - k) - 1) * 2 ^ k); [apply Z_mod_mult|].
    rewrite Z.mul_sub_distr_r, <- Z.pow_add_r by lia. replace (64 - k + k) with 64 by lia. lia.
Qed.
End Spec.

(** Concrete parameters for the witnesses: the two-level page map, the
    system layer over a kernel with a growing break, the default flags. *)
Definition PM48 : Type := gmap Z (gmap Z Z).
#[export] Instance toy_env : SysEnv (Sys Z) := system_layer (OS0 := ToyOS.toy) false false false.
#[export] Instance toy_env_laws : SysEnvLaws (Sys Z) := system_layer_laws (OSLaws0 := ToyOS.toy_laws) false false false.
Definition default_rate : double := S754_finite false 4503599627370496 (-52).
Definition toy_heap : PageHeap PM48 (Sys Z) :=
  mkPageHeap pm_init ∅ ∅ ∅ [] [] stats0 0 kMaxPages false 0 [] (SA.sys_init ToyOS.base).

Lemma toy_config : config_ok default_rate 1.
Proof. split; [done|]. exists 0. done. Qed.
Lemma toy_env_wf : env_wf (SA.sys_init (K := Z) ToyOS.base).
Proof. apply (sys_init_wf (OS0 := ToyOS.toy)). done. Qed.
Lemma toy_reachable : reachable default_rate 0 1 toy_heap.
Proof. by eapply (reach_init _ _ _ _ _ toy_env_wf). Qed.

(** Two spans are taken, and one of them is given back. *)
Definition heap_after (r : outcome (Z * PageHeap PM48 (Sys Z))) : PageHeap PM48 (Sys Z) :=
  match r with Ret (_, h) => h | Fault _ => toy_heap end.
Definition toy_one : PageHeap PM48 (Sys Z) := heap_after (run default_rate 0 1 (OpNew 3 5) toy_heap).
Definition toy_two : PageHeap PM48 (Sys Z) := heap_after (run default_rate 0 1 (OpNew 200 0) toy_one).
Definition toy_freed : PageHeap PM48 (Sys Z) := heap_after (run default_rate 0 1 (OpDelete 19923040) toy_two).
Definition span_3 : Span := mkSpan 2048 3 [] 0 5 IN_USE false false.
Definition span_200 : Span := mkSpan 3200 200 [] 0 0 IN_USE false false.

Lemma toy_run o h : reachable default_rate 0 1 h -> op_pre o h ->
  match run default_rate 0 1 o h with Ret _ => true | Fault _ => false end = true -> reachable default_rate 0 1 (heap_after (run default_rate 0 1 o h)).
Proof. intros Hr Hp H. destruct (run default_rate 0 1 o h) as [[r h']|] eqn:E; [|discriminate H]. by eapply reach_step. Qed.

Lemma toy_two_reachable : reachable default_rate 0 1 toy_two.
Proof.
  apply toy_run; [apply toy_run; [exact toy_reachable|split; reflexivity|vm_compute; reflexivity]|split; reflexivity|vm_compute; reflexivity].
Qed.

Lemma toy_two_spans : inuse toy_two 19922944 span_3 /\ inuse toy_two 19923040 span_200.
Proof. split; (split; [vm_compute; reflexivity|reflexivity]). Qed.

Lemma toy_freed_reachable : reachable default_rate 0 1 toy_freed.
Proof. apply toy_run; [exact toy_two_reachable|exists span_200; exact (proj2 toy_two_spans)|vm_compute; reflexivity]. Qed.

Lemma page_heap_safe_witness : reachable default_rate 0 1 toy_two /\ inuse toy_two 19922944 span_3 /\
  GetDescriptor (3200 + 200 - 1) toy_two = 19923040 /\ forall pg, in_span span_200 pg -> pg ∈ taken_pages (env toy_two).
Proof.
  split; [exact toy_two_reachable|]. split; [exact (proj1 toy_two_spans)|].
  exact (proj2 (proj2 (proj2 (page_heap_safe default_rate 0 1 toy_two toy_config toy_two_reachable) _ _ (proj2 toy_two_spans)))).
Defined.

Lemma page_heap_progress_witness :
  (exists r h', run default_rate 0 1 (OpNew 3 5) toy_heap = Ret (r, h') /\ reachable default_rate 0 1 h') \/
  run default_rate 0 1 (OpNew 3 5) toy_heap = Fault OOM.
Proof.
  apply (page_heap_progress default_rate 0 1 (OpNew 3 5) toy_heap toy_config toy_reachable).
  split; reflexivity.
Defined.

Lemma page_heap_check_witness : CheckExpensive toy_heap = Ret tt.
Proof. apply (page_heap_check default_rate 0 1 toy_heap toy_config toy_reachable). Defined.

Lemma page_heap_stats_witness : free_bytes (stats_ toy_heap) =
  kPageSize * pages_on ON_NORMAL_FREELIST (listed ∅ (spans toy_heap)).
Proof. apply (page_heap_stats default_rate 0 1 toy_heap toy_config toy_reachable). Defined.

Lemma NewWithSizeClass_correct_witness :
  wp (NewWithSizeClass default_rate 0 1 3 5) (fun r h' => r = 0 \/ ~ inuse toy_heap r (new_span 0 0)) toy_heap.
Proof.
  eapply wp_mono; [apply (NewWithSizeClass_correct default_rate 0 1 3 5 toy_heap toy_config toy_reachable); split; reflexivity|].
  intros r h' [[? _]|(_ & _ & Hn & _)]; [by left|right; apply Hn].
Defined.

Lemma NewAligned_correct_witness :
  wp (NewAligned default_rate 0 1 3 (2 ^ 4)) (fun r h' => r = 0 \/ exists s, inuse h' r s /\ start s mod 2 ^ 4 = 0) toy_heap.
Proof.
  eapply wp_mono; [apply (NewAligned_correct default_rate 0 1 3 4 toy_heap toy_config toy_reachable); [split; reflexivity|lia]|].
  intros r h' [[? _]|(_ & _ & _ & s & Hu & _ & Hm & _)]; [by left|right; by exists s].
Defined.

(** A heap with one page in use, over lower layers that give nothing out. *)
#[export] Instance spent_env : SysEnv (gset Z) := {|
  span_allocator_New := liftM (Fault OOM);
  span_allocator_Delete p := modS (fun e => e ∖ {[p]});
  stacktrace_allocator_New := liftM (Fault OOM);
  stacktrace_allocator_Delete _ := mret tt;
  threadcache_New := liftM (Fault OOM);
  threadcache_Delete _ := mret tt;
  MetaDataAlloc _ := mret 0;
  TCMalloc_SystemAlloc _ _ := mret (0, 0);
  TCMalloc_SystemRelease _ _ := mret false;
  TCMalloc_SystemCommit _ _ := mret tt;
  TCMalloc_SystemTaken _ := 311296;
  live_spans e := e;
  live_stacks _ := ∅;
  live_caches _ := ∅;
  taken_pages _ := list_to_set (seqZ 5 38);
  env_wf _ := True |}.
#[export] Instance spent_env_laws : SysEnvLaws (gset Z).
Proof.
  by constructor.
Qed.
(** Spans of 37 pages and of one, side by side, both in use. *)
Definition two_spans_map : gmap Z (gmap Z Z) := {[0 := <[5 := 100]> (<[41 := 100]> {[42 := 200]})]}.
Definition two_spans : gmap Z Span := <[100 := new_span 5 37]> {[200 := new_span 42 1]}.
Definition two_spans_heap : PageHeap PM48 (gset Z) :=
  mkPageHeap two_spans_map ∅ two_spans ∅ [] []
    (mkStats 311296 0 0 311296 0 1 311296 0 0 1 311296) 0 kMaxPages false 0 [] {[100; 200]}.

Lemma two_spans_get k : pm_get (pagemap_ two_spans_heap) k <> 0 -> k = 5 \/ k = 41 \/ k = 42.
Proof.
  change (PageMap2.get 35 two_spans_map k <> 0 -> k = 5 \/ k = 41 \/ k = 42).
  unfold PageMap2.get, two_spans_map. destruct (_ >? 0); [done|].
  change (PageMap2.LEAF_BITS 35) with 18. change (PageMap2.LEAF_LENGTH 35 - 1) with (2 ^ 18 - 1).
  destruct (decide (Z.shiftr k 18 = 0)) as [E|E]; [|by rewrite lookup_singleton_ne by congruence].
  rewrite E, lookup_singleton_eq, land_ones_mod by lia. rewrite shiftr_div in E by lia.
  destruct (decide (k mod 2 ^ 18 = 5)); [intros _; left; zdiv|]. rewrite lookup_insert_ne by done.
  destruct (decide (k mod 2 ^ 18 = 41)); [intros _; right; left; zdiv|]. rewrite lookup_insert_ne by done.
  destruct (decide (k mod 2 ^ 18 = 42)); [intros _; right; right; zdiv|by rewrite lookup_singleton_ne].
Qed.
Lemma two_spans_cases p s : spans two_spans_heap !! p = Some s -> p = 100 /\ s = new_span 5 37 \/ p = 200 /\ s = new_span 42 1.
Proof.
  change (two_spans !! p = Some s -> p = 100 /\ s = new_span 5 37 \/ p = 200 /\ s = new_span 42 1). unfold two_spans.
  intros [[<- <-]|[_ [<- <-]%lookup_singleton_Some]]%lookup_insert_Some; auto.
Qed.
Lemma two_spans_inv : Inv ∅ 0 two_spans_heap.
Proof.
  assert (listed ∅ (spans two_spans_heap) = ∅) as HV.
  { apply map_empty. intros p. apply eq_None_not_Some. intros [s (Hp & _ & Hl)%listed_Some].
    by apply two_spans_cases in Hp as [[-> ->]|[-> ->]]. }
  constructor; try done; rewrite ?HV.
  - constructor.
    + by intros p s [[-> ->]|[-> ->]]%two_spans_cases.
    + intros p s pg Hs Hpg. change (pg ∈ (list_to_set (seqZ 5 38) : gset Z)). apply elem_of_list_to_set, elem_of_seqZ.
      apply two_spans_cases in Hs as [[-> ->]|[-> ->]]; unfold in_span in Hpg; cbn in Hpg; lia.
    + intros p q s t pg [[-> ->]|[-> ->]]%two_spans_cases [[-> ->]|[-> ->]]%two_spans_cases; unfold in_span; cbn; lia.
    + by intros p s [[-> ->]|[-> ->]]%two_spans_cases.
    + by intros p s [[-> ->]|[-> ->]]%two_spans_cases.
    + intros p s pg Hs Hpg. assert (0 <= pg < 64) as Hr by (apply two_spans_cases in Hs as [[-> ->]|[-> ->]]; cbn in Hpg; lia).
      change (PageMap2.ensured 35 two_spans_map pg). split; [lia|].
      change (PageMap2.LEAF_BITS 35) with 18. rewrite shiftr_div by lia.
      unfold two_spans_map. replace (pg / 2 ^ 18) with 0 by zdiv. by rewrite lookup_singleton_eq.
    + intros pg [E|[E|E]]%two_spans_get; [exists 100, (new_span 5 37)|exists 100, (new_span 5 37)|exists 200, (new_span 42 1)];
        (split; [done|]); unfold in_span; cbn; lia.
  - constructor.
    + intros [] i; constructor.
    + intros [] i p Hl; try done; (split; [intros Hp; by apply elem_of_nil in Hp|]);
        intros (s & Hs' & _); by rewrite lookup_empty in Hs'.
    + intros []; constructor.
    + intros [] x Hl; try done; (split; [intros Hp; by apply elem_of_nil in Hp|]);
        intros (s & Hs' & _); by rewrite lookup_empty in Hs'.
  - by intros p [s [[-> _]|[-> _]]%two_spans_cases].
  - by intros p s [[-> ->]|[-> ->]]%two_spans_cases.
  - exists 0. split; [done|]. split; [done|]. by apply Z.leb_le.
Qed.

Lemma Delete_correct_witness : wp (Delete default_rate 100) (fun _ h' => forall t, ~ inuse h' 100 t) two_spans_heap.
Proof.
  eapply wp_mono; [apply (Delete_correct default_rate 100 (new_span 5 37) two_spans_heap); [done|apply two_spans_inv|done]|].
  by intros [] h' (_ & _ & ?).
Defined.

Lemma toy_willing : willing (E := Sys Z).
Proof.
  intros a n e _ Ha Hn Hs. cbn [TCMalloc_SystemRelease toy_env system_layer]. unfold SA.SystemRelease.
  change (2 ^ 64 - 1 - (getpagesize - 1)) with (2 ^ 64 - 2 ^ 12). change (getpagesize (K := Z)) with 4096.
  rewrite !u64_small, !land_high by clia. rewrite (proj2 (Z.gtb_gt _ _)); [|by consts; zdiv].
  apply wp_bind, wp_get. reflexivity.
Qed.
Lemma Release_correct_witness : free_bytes (stats_ toy_freed) = 200 * 8192 /\
  wp (ReleaseAtLeastNPages 7) (fun r h' => same_inuse ∅ toy_freed h' /\ returned_pages toy_freed + r <= returned_pages h' /\
    (7 <= r \/ free_bytes (stats_ h') = 0)) toy_freed.
Proof.
  split; [vm_compute; reflexivity|].
  eapply wp_mono; [apply (Release_correct default_rate 0 1 7 toy_freed toy_config toy_freed_reachable)|].
  intros r h' (? & _ & _ & _ & ? & Hw). split; [assumption|]. split; [assumption|]. exact (Hw toy_willing).
Defined.

Lemma AllocLarge_best_fit_witness : (best_fit 200 toy_heap).1 = None /\
  forall p s, spans toy_heap !! p = Some s -> location s <> IN_USE -> kMaxPages < length_ s -> length_ s < 200.
Proof. split; [done|]. apply (AllocLarge_best_fit default_rate 0 1 200 toy_heap toy_config toy_reachable). lia. Defined.

Lemma RoundUpSize_spec_witness : RoundUpSize 4 6 mod 4 = 0.
Proof. apply (RoundUpSize_spec 4 6 2); [lia|reflexivity|lia]. Defined.
