(* ===== verification/CentralFreeList.v ===== *)
(** * Central free lists: state and operations

    Models src/src/src/central_freelist.h and central_freelist.cc for the
    build without TCMALLOC_SMALL_BUT_SLOW. A chain of objects is the list
    of their addresses (LinkedList.v), the two lists of spans are lists of
    descriptors (Span.v); a transfer-cache entry is its chain, of which
    [head] and [tail] are the first and the last object.

    An operation holds its list's lock except where the code releases it;
    there the parameter [others] runs: what other threads do in between.
    The page heap is the interface [SpanHeap]. *)
From S2P Require Import Prelude Common Span PageHeap.
Import SizeMap.

(** ** What the central lists ask of the page heap *)

Class SpanHeap (H : Type) := {
  ph_NewWithSizeClass : Z -> Z -> M H Z;
  ph_Delete : Z -> M H unit;
  ph_GetDescriptor : H -> Z -> Z;
  ph_SetCachedSizeClass : Z -> Z -> M H unit;
  ph_TryGetSizeClass : H -> Z -> option Z;
  (** Reading and writing the fields of a descriptor. *)
  ph_read : H -> Z -> option Span;
  ph_write : Z -> Span -> M H unit;
  (** The smallest span size, in pages, and the heap's invariant. *)
  ph_unit : Z;
  ph_wf : H -> Prop }.

Definition ph_inuse `{SpanHeap H} (h : H) (p : Z) (s : Span) : Prop :=
  ph_read h p = Some s /\ location s = IN_USE.

(** Spans in use outside [X] are untouched, their pages still map to them;
    the cached class of such a page is what it was or forgotten. *)
Record ph_frame `{SpanHeap H} (X : gset Z) (h h' : H) : Prop := {
  fr_span : forall q s, q ∉ X -> ph_inuse h q s <-> ph_inuse h' q s;
  fr_map : forall q s pg, q ∉ X -> ph_inuse h q s -> in_span s pg ->
    ph_GetDescriptor h' pg = ph_GetDescriptor h pg;
  fr_cache : forall q s pg, q ∉ X -> ph_inuse h q s -> in_span s pg ->
    ph_TryGetSizeClass h' pg = ph_TryGetSizeClass h pg \/ ph_TryGetSizeClass h' pg = None }.

Class SpanHeapLaws (H : Type) `{SpanHeap H} := {
  ph_disjoint : forall h p q s t pg, ph_wf h -> ph_inuse h p s -> ph_inuse h q t ->
    in_span s pg -> in_span t pg -> p = q;
  ph_bounds : forall h p s, ph_wf h -> ph_inuse h p s ->
    p <> 0 /\ 1 <= start s /\ start s + length_ s < 2 ^ 36;
  ph_New_ok : forall n sc h, ph_wf h -> 0 < n < 2 ^ 21 -> n mod ph_unit = 0 -> 1 <= sc < kClassSizesMax ->
    wp (ph_NewWithSizeClass n sc) (fun r h' => ph_wf h' /\
      (r = 0 /\ ph_frame ∅ h h' \/
       r <> 0 /\ ph_frame {[r]} h h' /\ (forall t, ~ ph_inuse h r t) /\
       exists s, ph_inuse h' r s /\ length_ s = n /\ sizeclass s = sc /\ ph_TryGetSizeClass h' (start s) = None /\
         forall pg, in_span s pg -> ph_GetDescriptor h' pg = r)) h;
  ph_Delete_ok : forall p s h, ph_wf h -> ph_inuse h p s ->
    wp (ph_Delete p) (fun _ h' => ph_wf h' /\ ph_frame {[p]} h h' /\ forall t, ~ ph_inuse h' p t) h;
  ph_SetCached_ok : forall p s pg cl h, ph_wf h -> ph_inuse h p s -> in_span s pg -> 1 <= cl < kClassSizesMax ->
    wp (ph_SetCachedSizeClass pg cl) (fun _ h' => ph_wf h' /\ ph_frame {[p]} h h' /\
      (forall q t, ph_inuse h q t <-> ph_inuse h' q t) /\
      (forall k, ph_GetDescriptor h' k = ph_GetDescriptor h k) /\
      (ph_TryGetSizeClass h' pg = Some cl \/ ph_TryGetSizeClass h' pg = None) /\
      forall k, in_span s k -> k <> pg ->
        ph_TryGetSizeClass h' k = ph_TryGetSizeClass h k \/ ph_TryGetSizeClass h' k = None) h;
  ph_write_ok : forall p s s' h, ph_wf h -> ph_inuse h p s ->
    start s' = start s -> length_ s' = length_ s -> location s' = IN_USE ->
    wp (ph_write p s') (fun _ h' => ph_wf h' /\ ph_frame {[p]} h h' /\ ph_inuse h' p s' /\
      (forall pg, ph_GetDescriptor h' pg = ph_GetDescriptor h pg) /\
      forall pg, ph_TryGetSizeClass h' pg = ph_TryGetSizeClass h pg) h }.

(** ** State *)

Definition kMaxNumTransferEntries : Z := 64.

Record CentralFreeList := mkCFL {
  size_class_ : Z;
  empty_ : list Z;
  nonempty_ : list Z;
  num_spans_ : Z;
  counter_ : Z;
  tc_slots_ : gmap Z (list Z);
  used_slots_ : Z;
  cache_size_ : Z;
  max_cache_size_ : Z }.

(** [Static::central_cache()], the static counter of
    [EvictRandomSizeClass] and [Static::pageheap()]. *)
Record Central (H : Type) := mkCentral {
  central_cache : gmap Z CentralFreeList;
  race_counter : Z;
  pageheap : H }.
Arguments mkCentral {H}. Arguments central_cache {H}. Arguments race_counter {H}. Arguments pageheap {H}.

Module CFL.
Section CFL.
Context {H : Type} `{!SpanHeap H}.
(** [Static::sizemap()], and what other threads do while no lock is held. *)
Context (sizemap : SizeMap) (others : M (Central H) unit).
Abbreviation central := (Central H).

Definition with_lists (e n : list Z) (c : CentralFreeList) : CentralFreeList :=
  mkCFL (size_class_ c) e n (num_spans_ c) (counter_ c) (tc_slots_ c) (used_slots_ c) (cache_size_ c) (max_cache_size_ c).
Definition with_counts (ns cnt : Z) (c : CentralFreeList) : CentralFreeList :=
  mkCFL (size_class_ c) (empty_ c) (nonempty_ c) (u64 ns) (u64 cnt) (tc_slots_ c) (used_slots_ c) (cache_size_ c) (max_cache_size_ c).
Definition with_slots (tc : gmap Z (list Z)) (used cache : Z) (c : CentralFreeList) : CentralFreeList :=
  mkCFL (size_class_ c) (empty_ c) (nonempty_ c) (num_spans_ c) (counter_ c) tc (s32 used) (s32 cache) (max_cache_size_ c).

(** Accesses to the array and to the page heap. *)
Definition get_list (cl : Z) : M central CentralFreeList :=
  st ← getS; liftM (deref (central_cache st !! cl)).
Definition put_list (cl : Z) (c : CentralFreeList) : M central unit :=
  modS (fun st => mkCentral (<[cl := c]> (central_cache st)) (race_counter st) (pageheap st)).
Definition upd_list (cl : Z) (f : CentralFreeList -> CentralFreeList) : M central unit :=
  c ← get_list cl; put_list cl (f c).
Definition in_heap {A} (m : M H A) : M central A := fun st =>
  match m (pageheap st) with
  | Ret (a, h) => Ret (a, mkCentral (central_cache st) (race_counter st) h)
  | Fault f => Fault f
  end.
Definition get_span (p : Z) : M central Span :=
  st ← getS; liftM (deref (ph_read (pageheap st) p)).

(** [DLL_Remove] of a span on one of the two lists. *)
Definition unlink (p : Z) (c : CentralFreeList) : outcome CentralFreeList :=
  match list_remove_ p (empty_ c) with
  | Some e => Ret (with_lists e (nonempty_ c) c)
  | None => n ← deref (list_remove_ p (nonempty_ c)); Ret (with_lists (empty_ c) n c)
  end.

Definition Init (cl : Z) : outcome CentralFreeList :=
  limits ← (if cl >? 0 then
      bytes ← ByteSizeForClass sizemap cl;
      objs_to_move ← num_objects_to_move sizemap cl;
      let prod := s32 bytes * s32 objs_to_move in
      if prod =? 0 then Fault Undefined else
      let mx := Z.min kMaxNumTransferEntries (Z.max 1 (Z.quot (1024 * 1024) prod)) in
      Ret (mx, Z.min 16 mx)
    else Ret (kMaxNumTransferEntries, 16));
  Ret (mkCFL cl [] [] 0 0 ∅ 0 (snd limits) (fst limits)).

Definition ReleaseToSpans (cl : Z) (object : Z) : M central unit :=
  st ← getS;
  let p := Z.shiftr object kPageShift in
  let span := ph_GetDescriptor (pageheap st) p in
  s ← get_span span;
  _ ← (match objects s with
       | [] =>
           c ← get_list cl;
           c ← liftM (unlink span c);
           put_list cl (with_lists (empty_ c) (span :: nonempty_ c) c)
       | _ => mret tt
       end);
  _ ← upd_list cl (fun c => with_counts (num_spans_ c) (counter_ c + 1) c);
  _ ← in_heap (ph_write span (set_refcount (refcount s - 1) s));
  if u16 (refcount s - 1) =? 0 then
    size ← liftM (ByteSizeForClass sizemap (sizeclass s));
    _ ← (if size =? 0 then liftM (Fault Undefined) else mret tt);
    c ← get_list cl;
    c ← liftM (unlink span c);
    _ ← put_list cl (with_counts (num_spans_ c - 1)
          (counter_ c - u64 (Z.shiftl (length_ s) kPageShift) / size) c);
    _ ← others;
    _ ← in_heap (ph_Delete span);
    others
  else
    in_heap (ph_write span (set_objects (object :: objects s) (set_refcount (refcount s - 1) s))).

(** Called with the chain that starts at [start]. *)
Definition ReleaseListToSpans (cl : Z) (start : list Z) : M central unit :=
  forM_ start (ReleaseToSpans cl).

Definition ShrinkCache (t : Z) (force : bool) : M central bool :=
  c ← get_list t;
  if cache_size_ c =? 0 then mret false else
  if negb force && (used_slots_ c =? cache_size_ c) then mret false else
  _ ← others;
  c ← get_list t;
  r ← (if cache_size_ c =? 0 then mret false else
       if used_slots_ c =? cache_size_ c then
         if negb force then mret false else
         _ ← put_list t (with_slots (tc_slots_ c) (used_slots_ c - 1) (cache_size_ c - 1) c);
         chain ← liftM (deref (tc_slots_ c !! (used_slots_ c - 1)));
         _ ← ReleaseListToSpans t chain;
         mret true
       else
         _ ← put_list t (with_slots (tc_slots_ c) (used_slots_ c) (cache_size_ c - 1) c);
         mret true);
  _ ← others;
  mret r.

Definition EvictRandomSizeClass (locked_size_class : Z) (force : bool) : M central bool :=
  st ← getS;
  let t := race_counter st in
  _ ← modS (fun st => mkCentral (central_cache st) (s32 (t + 1)) (pageheap st));
  let n := num_size_classes sizemap in
  t ← (if t >=? n then
         t ← liftM (loop (Z.to_nat (t / n + 1)) (fun t =>
               Ret (if t >=? n then inl (t - n) else inr t)) t);
         _ ← modS (fun st => mkCentral (central_cache st) t (pageheap st));
         mret t
       else mret t);
  if t =? locked_size_class then mret false else
  ShrinkCache t force.

Definition MakeCacheSpace (cl : Z) : M central bool :=
  c ← get_list cl;
  if used_slots_ c <? cache_size_ c then mret true else
  if cache_size_ c =? max_cache_size_ c then mret false else
  r ← EvictRandomSizeClass (size_class_ c) false;
  r ← (if (r : bool) then mret true else EvictRandomSizeClass (size_class_ c) true);
  if (r : bool) then
    c ← get_list cl;
    if cache_size_ c <? max_cache_size_ c then
      _ ← put_list cl (with_slots (tc_slots_ c) (used_slots_ c) (cache_size_ c + 1) c);
      mret true
    else mret false
  else mret false.

Definition InsertRange (cl : Z) (start : list Z) (N : Z) : M central unit :=
  c ← get_list cl;
  k ← liftM (num_objects_to_move sizemap (size_class_ c));
  room ← (if N =? k then MakeCacheSpace cl else mret false);
  if (room : bool) then
    c ← get_list cl;
    let slot := used_slots_ c in
    _ ← (if (0 <=? slot) && (slot <? kMaxNumTransferEntries) then mret tt else liftM (Fault Undefined));
    put_list cl (with_slots (<[slot := start]> (tc_slots_ c)) (slot + 1) (cache_size_ c) c)
  else ReleaseListToSpans cl start.

(** The [do ... while] walk: the objects taken and the rest. *)
Fixpoint fetch_walk (N result : Z) (curr : list Z) : list Z * list Z :=
  match curr with
  | [] => ([], [])
  | x :: next =>
      match next with
      | _ :: _ =>
          if result + 1 <? N then
            let '(taken, rest) := fetch_walk N (result + 1) next in (x :: taken, rest)
          else ([x], next)
      | [] => ([x], [])
      end
  end.

Definition FetchFromOneSpans (cl N : Z) : M central (list Z) :=
  c ← get_list cl;
  match nonempty_ c with
  | [] => mret []
  | span :: _ =>
      s ← get_span span;
      _ ← (match objects s with [] => liftM (Fault Undefined) | _ => mret tt end);
      let '(taken, rest) := fetch_walk N 0 (objects s) in
      _ ← (match rest with
           | [] =>
               c ← liftM (unlink span c);
               put_list cl (with_lists (span :: empty_ c) (nonempty_ c) c)
           | _ => mret tt
           end);
      let result := Z.of_nat (length taken) in
      _ ← in_heap (ph_write span (set_refcount (refcount s + result) (set_objects rest s)));
      _ ← upd_list cl (fun c => with_counts (num_spans_ c) (counter_ c - result) c);
      mret taken
  end.

(** The objects carved from [ptr, limit), last first. *)
Definition carve_body (size limit : Z) (a : Z * list Z) : outcome (Z * list Z + list Z) :=
  let '(ptr, acc) := a in
  Ret (if (u64 (ptr + size) <? ptr) || (u64 (ptr + size) >? limit) then inr acc
       else inl (u64 (ptr + size), ptr :: acc)).
Definition carve_objects (ptr limit size : Z) : outcome (list Z) :=
  loop (Z.to_nat ((limit - ptr) / size + 2)) (carve_body size limit) (ptr, []).

Definition Populate (cl : Z) : M central unit :=
  c ← get_list cl;
  _ ← others;
  npages ← liftM (class_to_pages sizemap (size_class_ c));
  span ← in_heap (ph_NewWithSizeClass npages (size_class_ c));
  if span =? 0 then others else
  _ ← others;
  s ← get_span span;
  _ ← forM_ (for_range 0 (npages - 1) 1) (fun i =>
        in_heap (ph_SetCachedSizeClass (u64 (start s + i)) (size_class_ c)));
  let ptr := u64 (Z.shiftl (start s) kPageShift) in
  let limit := u64 (ptr + u64 (Z.shiftl npages kPageShift)) in
  size ← liftM (ByteSizeForClass sizemap (size_class_ c));
  acc ← liftM (carve_objects ptr limit size);
  s ← get_span span;
  _ ← in_heap (ph_write span (set_refcount 0 (set_objects (reverse acc) s)));
  _ ← others;
  upd_list cl (fun c => with_counts (num_spans_ c + 1) (counter_ c + Z.of_nat (length acc))
    (with_lists (empty_ c) (span :: nonempty_ c) c)).

Definition FetchFromOneSpansSafe (cl N : Z) : M central (list Z) :=
  result ← FetchFromOneSpans cl N;
  match result with
  | [] => _ ← Populate cl; FetchFromOneSpans cl N
  | _ => mret result
  end.

(** The objects returned, in the order of the chain; their number is the
    code's result. *)
Definition RemoveRange (cl N : Z) : M central (list Z) :=
  c ← get_list cl;
  k ← liftM (num_objects_to_move sizemap (size_class_ c));
  if (N =? k) && (used_slots_ c >? 0) then
    let slot := used_slots_ c - 1 in
    _ ← put_list cl (with_slots (tc_slots_ c) slot (cache_size_ c) c);
    liftM (deref (tc_slots_ c !! slot))
  else
    start ← FetchFromOneSpansSafe cl N;
    match start with
    | [] => mret []
    | _ =>
        loopM (Z.to_nat N) (fun start =>
          let result := Z.of_nat (length start) in
          if result <? N then
            head ← FetchFromOneSpans cl (N - result);
            match head with
            | [] => mret (inr start)
            | _ => mret (inl (head ++ start))
            end
          else mret (inr start)) start
    end.

Definition length_of (cl : Z) : M central Z := c ← get_list cl; mret (s32 (counter_ c)).
Definition tc_length (cl : Z) : M central Z :=
  c ← get_list cl;
  k ← liftM (num_objects_to_move sizemap (size_class_ c));
  mret (s32 (used_slots_ c * k)).
Definition OverheadBytes (cl : Z) : M central Z :=
  c ← get_list cl;
  if size_class_ c =? 0 then mret 0 else
  pages_per_span ← liftM (class_to_pages sizemap (size_class_ c));
  object_size ← liftM (class_to_size sizemap (size_class_ c));
  if object_size =? 0 then liftM (Fault Undefined) else
  mret (u64 (num_spans_ c * (u64 (pages_per_span * kPageSize) mod object_size))).

(** The part of [Static::InitStaticVars] that initialises the lists. *)
Definition init_lists : outcome (gmap Z CentralFreeList) :=
  foldM (fun m i => c ← Init i; Ret (<[i := c]> m)) (for_range 0 (num_size_classes sizemap - 1) 1) ∅.
End CFL.
End CFL.
