(* ===== verification/CentralFreeListInv.v ===== *)
(** * The invariant of the central free lists

    Every object of a span on a list is in exactly one place: free in its
    span, in the transfer cache of its class, or out. [out] maps the
    objects that are out (in thread caches or in use) to their class. *)
From S2P Require Import Prelude Common Span PageHeap CentralFreeList.
Import SizeMap CFL.

(** Removing an element of a duplicate-free list. *)
Lemma list_remove_perm p l : p ∈ l -> exists l', list_remove_ p l = Some l' /\ l ≡ₚ p :: l'.
Proof.
  induction l as [|x l IH]; [by intros ?%elem_of_nil|]. intros Hp. simpl.
  destruct (Z.eqb_spec x p) as [->|Hn]; [eauto|].
  apply elem_of_cons in Hp as [->|Hp]; [done|]. destruct (IH Hp) as (l' & -> & HP).
  exists (x :: l'). split; [done|]. rewrite HP. constructor.
Qed.
Lemma list_remove_none p l : p ∉ l -> list_remove_ p l = None.
Proof.
  induction l as [|x l IH]; [done|]. intros Hp. simpl. destruct (Z.eqb_spec x p) as [->|Hn]; [set_solver|].
  by rewrite IH by set_solver.
Qed.

(** What a thread knows of the objects and spans in the hands of others. The
    theorems hold for every such predicate that the others keep; with
    [nothing] everything that is out is the thread's own. *)
Class Rest := theirs : gmap Z Z -> gset Z -> Prop.
Definition nothing : Rest := fun objs spans => objs = ∅ /\ spans = ∅.
Lemma nothing_empty : nothing ∅ ∅.
Proof. done. Qed.

Section Inv.
Context {H : Type} `{!SpanHeap H} `{!SpanHeapLaws H}.
Context (sizemap : SizeMap).
Abbreviation central := (Central H).
Implicit Types (h : H) (c : CentralFreeList) (st : central).

Definition csize (cl : Z) : Z := ent (class_to_size_ sizemap) cl.
Definition cpages (cl : Z) : Z := ent (class_to_pages_ sizemap) cl.
Definition cmove (cl : Z) : Z := ent (num_objects_to_move_ sizemap) cl.
Abbreviation ncl := (num_size_classes sizemap).
(** Objects per span. *)
Definition nobj (cl : Z) : Z := cpages cl * kPageSize / csize cl.

(** What the lists need of the size map: a span holds at least one object
    and fewer than a 16-bit reference count can tell apart. *)
Record sizemap_ok : Prop := {
  so_num : 1 < ncl <= kClassSizesMax;
  so_class : forall cl, 1 <= cl < ncl ->
    0 < csize cl < 2 ^ 31 /\ 0 < cpages cl < 2 ^ 21 /\ cpages cl mod ph_unit = 0 /\
    1 <= nobj cl < 2 ^ 16 /\ 1 <= cmove cl < 2 ^ 31 }.

(** The objects of a span. *)
Definition slot (s : Span) (cl x : Z) : Prop :=
  exists i, 0 <= i < nobj cl /\ x = start s * kPageSize + i * csize cl.

Record good h (cl p : Z) (s : Span) : Prop := {
  gd_use : ph_inuse h p s;
  gd_class : sizeclass s = cl;
  gd_range : 1 <= cl < ncl;
  gd_len : length_ s = cpages cl;
  gd_map : forall pg, in_span s pg -> ph_GetDescriptor h pg = p;
  gd_cache : forall pg, in_span s pg -> ph_TryGetSizeClass h pg = Some cl \/ ph_TryGetSizeClass h pg = None;
  gd_nodup : NoDup (objects s);
  gd_slots : forall x, x ∈ objects s -> slot s cl x;
  gd_ref : refcount s = nobj cl - Z.of_nat (length (objects s)) }.

Definition listed c : list Z := empty_ c ++ nonempty_ c.
(** The objects in the transfer cache. *)
Definition tc_objs c : list Z :=
  mjoin ((fun i => default [] (tc_slots_ c !! i)) <$> seqZ 0 (used_slots_ c)).
Definition nfree h (p : Z) : Z :=
  match ph_read h p with Some s => Z.of_nat (length (objects s)) | None => 0 end.
(** [x] is an object of a span of the class that is not free in it. *)
Definition busy h (cl : Z) c (x : Z) : Prop :=
  exists p s, p ∈ listed c /\ ph_read h p = Some s /\ slot s cl x /\ x ∉ objects s.

Record class_inv h (cl : Z) c (O : Z -> Prop) : Prop := {
  k_class : size_class_ c = cl;
  k_slots : 0 <= used_slots_ c <= cache_size_ c /\ cache_size_ c <= max_cache_size_ c <= kMaxNumTransferEntries;
  k_tc : forall i, 0 <= i < used_slots_ c ->
    exists ch, tc_slots_ c !! i = Some ch /\ Z.of_nat (length ch) = cmove cl;
  k_nodup : NoDup (listed c);
  k_good : forall p, p ∈ listed c -> exists s, good h cl p s;
  k_empty : forall p s, ph_read h p = Some s -> p ∈ empty_ c -> objects s = [];
  k_nonempty : forall p s, ph_read h p = Some s -> p ∈ nonempty_ c -> objects s <> [];
  k_spans : num_spans_ c = u64 (Z.of_nat (length (listed c)));
  k_counter : counter_ c = u64 (sumZ (nfree h) (listed c));
  k_busy : forall x, O x \/ x ∈ tc_objs c <-> busy h cl c x;
  k_tc_nodup : NoDup (tc_objs c);
  k_tc_out : forall x, x ∈ tc_objs c -> ~ O x }.

Record CInv (out : gmap Z Z) st : Prop := {
  ci_wf : ph_wf (pageheap st);
  ci_race : 0 <= race_counter st <= ncl;
  ci_class : forall cl, 0 <= cl < ncl -> exists c, central_cache st !! cl = Some c /\
    class_inv (pageheap st) cl c (fun x => out !! x = Some cl);
  ci_dom : forall cl c, central_cache st !! cl = Some c -> 0 <= cl < ncl;
  ci_range : forall x cl, out !! x = Some cl -> 0 <= cl < ncl }.

(** A span in use that is on no list, with the pages known to map to it and
    the pages the size-class cache knows nothing false about. *)
Record Owned := mkOwned { ow_span : Span; ow_mapped : Z -> Prop; ow_cached : Z -> Prop }.
Record private st (p : Z) (o : Owned) : Prop := {
  pv_use : ph_inuse (pageheap st) p (ow_span o);
  pv_map : forall pg, ow_mapped o pg -> in_span (ow_span o) pg -> ph_GetDescriptor (pageheap st) pg = p;
  pv_cache : forall pg, ow_cached o pg -> in_span (ow_span o) pg ->
    ph_TryGetSizeClass (pageheap st) pg = Some (sizeclass (ow_span o)) /\ sizeclass (ow_span o) <> 0 \/
    ph_TryGetSizeClass (pageheap st) pg = None;
  pv_off : forall cl c, central_cache st !! cl = Some c -> p ∉ listed c }.
Definition nowhere (_ : Z) : Prop := False.

(** The spans in use that are on no list and not among [priv]. *)
Definition outside (priv : gmap Z Owned) st (p : Z) : Prop :=
  (exists s, ph_inuse (pageheap st) p s) /\ priv !! p = None /\ forall cl c, central_cache st !! cl = Some c -> p ∉ listed c.

(** What a thread knows when [out] is out: the lists are consistent, its
    objects [mine] are among [out], its spans [priv] are nobody else's; no
    span on a list is entirely free, except the [fresh] ones; and what is
    neither its own nor free satisfies [theirs]. *)
Record held {RS : Rest} (fresh : Z -> Prop) (out mine : gmap Z Z) (priv : gmap Z Owned) st : Prop := {
  hl_mine : mine ⊆ out;
  hl_inv : CInv out st;
  hl_priv : map_Forall (private st) priv;
  hl_used : forall cl c p s, central_cache st !! cl = Some c -> p ∈ listed c -> ph_read (pageheap st) p = Some s ->
    refcount s = 0 -> fresh p;
  hl_rest : exists S, (forall p, p ∈ S <-> outside priv st p) /\ theirs (out ∖ mine) S }.
Definition Holding {RS : Rest} (fresh : Z -> Prop) (mine : gmap Z Z) (priv : gmap Z Owned) st : Prop :=
  exists out, held fresh out mine priv st.
Definition Holds {RS : Rest} : gmap Z Z -> gmap Z Owned -> central -> Prop := Holding nowhere.

(** ** Geometry of objects *)

Hypothesis Hsm : sizemap_ok.

Lemma nobj_fits cl i : 1 <= cl < ncl -> 0 <= i < nobj cl ->
  0 <= i * csize cl /\ (i + 1) * csize cl <= cpages cl * kPageSize.
Proof using Hsm.
  intros Hcl Hi. destruct (so_class Hsm cl Hcl) as (? & ? & _). unfold nobj in *.
  pose proof (Z.mul_div_le (cpages cl * kPageSize) (csize cl) ltac:(lia)). nia.
Qed.

Lemma slot_page h cl p s x : good h cl p s -> slot s cl x -> in_span s (Z.shiftr x kPageShift).
Proof using Hsm.
  intros Hg (i & Hi & ->). destruct (nobj_fits cl i (gd_range _ _ _ _ Hg) Hi).
  destruct (so_class Hsm cl (gd_range _ _ _ _ Hg)) as (? & ? & _).
  rewrite shiftr_div by clia. change (2 ^ kPageShift) with kPageSize. unfold in_span. rewrite (gd_len _ _ _ _ Hg).
  split; [apply Z.div_le_lower_bound; clia|apply Z.div_lt_upper_bound; clia].
Qed.

Lemma good_desc h cl p s x : good h cl p s -> slot s cl x -> ph_GetDescriptor h (Z.shiftr x kPageShift) = p.
Proof using Hsm. intros Hg Hx. eapply (gd_map _ _ _ _ Hg), slot_page; done. Qed.

Lemma good_unique h cl cl' p s s' : good h cl p s -> good h cl' p s' -> cl = cl' /\ s = s'.
Proof using.
  intros Hg Hg'. destruct (gd_use _ _ _ _ Hg) as [H1 _], (gd_use _ _ _ _ Hg') as [H2 _].
  assert (s = s') as -> by congruence. split; [|done].
  by rewrite <- (gd_class _ _ _ _ Hg), (gd_class _ _ _ _ Hg').
Qed.

Lemma good_frame X h h' cl p s : ph_frame X h h' -> p ∉ X -> good h cl p s -> good h' cl p s.
Proof using.
  intros [F1 F2 F3] Hp []. constructor; try done; [by apply F1| |].
  - intros pg Hpg. rewrite (F2 p s); auto.
  - intros pg Hpg. destruct (F3 p s pg) as [-> | ->]; auto.
Qed.

Lemma listed_good h cl c O p s : class_inv h cl c O -> p ∈ listed c -> ph_read h p = Some s -> good h cl p s.
Proof using.
  intros HK Hp Hs. destruct (k_good _ _ _ _ HK p Hp) as (t & Ht).
  destruct (gd_use _ _ _ _ Ht) as [Hr _]. by assert (s = t) as -> by congruence.
Qed.

(** Where the span of a busy object is. *)
Lemma busy_span h cl c O x : class_inv h cl c O -> busy h cl c x ->
  exists s, ph_GetDescriptor h (Z.shiftr x kPageShift) ∈ listed c /\
    good h cl (ph_GetDescriptor h (Z.shiftr x kPageShift)) s /\ slot s cl x /\ x ∉ objects s.
Proof using Hsm.
  intros HK (p & s & Hp & Hr & Hx & Hn). pose proof (listed_good _ _ _ _ _ _ HK Hp Hr) as Hg.
  rewrite (good_desc _ _ _ _ _ Hg Hx). eauto.
Qed.

(** An object is a slot of one span of one class only. *)
Lemma slot_unique h cl cl' p q s t x : ph_wf h -> good h cl p s -> good h cl' q t ->
  slot s cl x -> slot t cl' x -> p = q /\ cl = cl' /\ s = t.
Proof using All.
  intros Hwf Hs Ht Hxs Hxt. assert (p = q) as -> by (rewrite <- (good_desc _ _ _ _ _ Hs Hxs); by eapply good_desc).
  destruct (good_unique _ _ _ _ _ _ Hs Ht). done.
Qed.

(** ** Changes that leave the spans alone *)

Lemma class_inv_ext h cl c (O O' : Z -> Prop) : (forall x, O x <-> O' x) ->
  class_inv h cl c O -> class_inv h cl c O'.
Proof using.
  intros HO []. constructor; try done.
  - intros x. rewrite <- HO. apply k_busy0.
  - intros x Hx. rewrite <- HO. by apply k_tc_out0.
Qed.

Lemma frame_read X h h' p s : ph_frame X h h' -> p ∉ X -> ph_inuse h p s -> ph_read h' p = Some s.
Proof using. intros [F1 _ _] Hp Hu. by apply (F1 p s Hp) in Hu as [? _]. Qed.

Lemma class_inv_frame X h h' cl c O : ph_frame X h h' -> (forall p, p ∈ X -> p ∉ listed c) ->
  class_inv h cl c O -> class_inv h' cl c O.
Proof using.
  intros HF HX HK. pose proof HK as [].
  assert (forall p, p ∈ listed c -> p ∉ X) as HX' by (intros p ? ?; by apply (HX p)).
  assert (forall p, p ∈ listed c -> ph_read h' p = ph_read h p) as Hrd.
  { intros p Hp. destruct (k_good0 p Hp) as (s & Hg). pose proof (gd_use _ _ _ _ Hg) as Hu.
    rewrite (frame_read X h h' p s) by auto. by destruct Hu. }
  constructor; try done.
  - intros p Hp. destruct (k_good0 p Hp) as (s & Hg). exists s. eapply good_frame; eauto.
  - intros p s Hr Hp. apply (k_empty0 p s); [|done]. rewrite <- Hrd; [done|]. apply elem_of_app. by left.
  - intros p s Hr Hp. apply (k_nonempty0 p s); [|done]. rewrite <- Hrd; [done|]. apply elem_of_app. by right.
  - rewrite k_counter0. f_equal. apply sumZ_ext. intros p Hp. unfold nfree. by rewrite Hrd.
  - intros x. rewrite k_busy0. unfold busy. split; intros (p & s & Hp & Hr & ?); exists p, s;
      (split; [done|]); [rewrite Hrd|rewrite <- Hrd]; done.
Qed.

(** ** Changes to one span *)

Lemma in_listed_empty c q : q ∈ empty_ c -> q ∈ listed c.
Proof using. intros. apply elem_of_app. by left. Qed.
Lemma in_listed_nonempty c q : q ∈ nonempty_ c -> q ∈ listed c.
Proof using. intros. apply elem_of_app. by right. Qed.

(** The reads of the other spans of the list. *)
Lemma frame_others h h' cl c O p : class_inv h cl c O -> ph_frame {[p]} h h' ->
  forall q, q ∈ listed c -> q <> p -> ph_read h' q = ph_read h q.
Proof using.
  intros HK HF q Hq Hne. destruct (k_good _ _ _ _ HK q Hq) as (t & Hg).
  pose proof (gd_use _ _ _ _ Hg) as Hu. rewrite (frame_read {[p]} h h' q t) by (done || by apply not_elem_of_singleton_2).
  by destruct Hu.
Qed.

(** Objects of the other spans are not objects of [p]. *)
Lemma busy_split h cl c O p s x : ph_wf h -> class_inv h cl c O -> p ∈ listed c -> good h cl p s ->
  busy h cl c x <-> (slot s cl x /\ x ∉ objects s) \/
    (~ slot s cl x /\ exists q t, q ∈ listed c /\ q <> p /\ ph_read h q = Some t /\ slot t cl x /\ x ∉ objects t).
Proof using All.
  intros Hwf HK Hp Hg. destruct (gd_use _ _ _ _ Hg) as [Hr _]. split.
  - intros (q & t & Hq & Ht & Hx & Hn). destruct (decide (q = p)) as [->|Hne].
    + left. by assert (t = s) as -> by congruence.
    + right. split; [|by eauto 10]. intros Hs.
      pose proof (listed_good _ _ _ _ _ _ HK Hq Ht) as Hg'.
      destruct (slot_unique _ _ _ _ _ _ _ _ Hwf Hg Hg' Hs Hx). congruence.
  - intros [[Hx Hn]|[_ (q & t & Hq & _ & ?)]]; [by exists p, s|by exists q, t].
Qed.

Lemma class_inv_span h h' cl c e n cnt (O O' : Z -> Prop) p s s' :
  ph_wf h -> class_inv h cl c O -> p ∈ listed c -> good h cl p s ->
  ph_frame {[p]} h h' -> good h' cl p s' -> start s' = start s ->
  e ++ n ≡ₚ listed c ->
  (forall q, q ∈ e -> q <> p -> q ∈ empty_ c) -> (forall q, q ∈ n -> q <> p -> q ∈ nonempty_ c) ->
  (p ∈ e -> objects s' = []) -> (p ∈ n -> objects s' <> []) ->
  u64 cnt = u64 (counter_ c + Z.of_nat (length (objects s')) - Z.of_nat (length (objects s))) ->
  (forall x, O' x \/ x ∈ tc_objs c <->
     (~ slot s cl x /\ (O x \/ x ∈ tc_objs c)) \/ (slot s cl x /\ x ∉ objects s')) ->
  (forall x, x ∈ tc_objs c -> ~ O' x) ->
  class_inv h' cl (with_counts (num_spans_ c) cnt (with_lists e n c)) O'.
Proof using All.
  intros Hwf HK Hp Hg HF Hg' Hst HP He Hn He' Hn' Hcnt HO Ht.
  pose proof (frame_others _ _ _ _ _ _ HK HF) as Hrd.
  destruct (gd_use _ _ _ _ Hg) as [Hr _], (gd_use _ _ _ _ Hg') as [Hr' _].
  assert (forall q, q ∈ e ++ n -> q ∈ listed c) as Hin by (intros q; by rewrite HP).
  assert (forall x, slot s' cl x <-> slot s cl x) as Hslot by (intros x; unfold slot; by rewrite Hst).
  set (c' := with_counts (num_spans_ c) cnt (with_lists e n c)).
  assert (listed c' = e ++ n) as El by done. assert (tc_objs c' = tc_objs c) as Et by done.
  pose proof HK as []. constructor; try done; rewrite ?El, ?Et; try done.
  - by rewrite HP.
  - intros q Hq%Hin. destruct (decide (q = p)) as [->|Hne]; [eauto|].
    destruct (k_good0 q Hq) as (t & Hgt). exists t. eapply good_frame; [done|set_solver|done].
  - intros q t Hq Hqe. destruct (decide (q = p)) as [->|Hne]; [assert (t = s') as -> by congruence; auto|].
    apply (k_empty0 q t); [|by apply He]. rewrite <- Hrd; [done| |done]. by apply in_listed_empty, He.
  - intros q t Hq Hqe. destruct (decide (q = p)) as [->|Hne]; [assert (t = s') as -> by congruence; auto|].
    apply (k_nonempty0 q t); [|by apply Hn]. rewrite <- Hrd; [done| |done]. by apply in_listed_nonempty, Hn.
  - cbn -[listed]. rewrite HP, k_spans0. apply u64_small, u64_range.
  - cbn -[listed]. rewrite Hcnt, k_counter0. rewrite (sumZ_perm _ _ _ HP).
    assert (sumZ (nfree h') (listed c) =
      sumZ (nfree h) (listed c) + Z.of_nat (length (objects s')) - Z.of_nat (length (objects s))) as ->.
    { destruct (list_remove_perm p (listed c) Hp) as (l' & _ & HP').
      rewrite !(sumZ_perm _ _ _ HP'). cbn [sumZ foldr]. fold (sumZ (nfree h') l') (sumZ (nfree h) l').
      rewrite HP' in k_nodup0. apply NoDup_cons in k_nodup0 as [Hpl _].
      rewrite (sumZ_ext (nfree h') (nfree h) l').
      - assert (nfree h p = Z.of_nat (length (objects s))) as -> by (unfold nfree; by rewrite Hr).
        assert (nfree h' p = Z.of_nat (length (objects s'))) as -> by (unfold nfree; by rewrite Hr'). lia.
      - intros q Hq. unfold nfree. rewrite Hrd; [done| |congruence]. rewrite HP'. by right. }
    destruct (u64_ex (sumZ (nfree h) (listed c))) as [k ->]. apply u64_eq. exists k. lia.
  - intros x. rewrite HO, k_busy0, (busy_split h cl c O p s x) by done. unfold busy. rewrite El. split.
    + intros [(Hns & [[? _]|(_ & q & t & Hq & Hne & Hqt & Hx)])|[Hs Hx]]; [done| |].
      * exists q, t. rewrite Hrd by done. by rewrite HP.
      * exists p, s'. rewrite Hslot. by rewrite HP.
    + intros (q & t & Hq & Hqt & Hx & Hnx). rewrite HP in Hq.
      destruct (decide (q = p)) as [->|Hne].
      * assert (t = s') as -> by congruence. right. by rewrite <- Hslot.
      * rewrite Hrd in Hqt by done. left. pose proof (listed_good _ _ _ _ _ _ HK Hq Hqt) as Hgt.
        assert (~ slot s cl x) as Hns.
        { intros Hs. destruct (slot_unique _ _ _ _ _ _ _ _ Hwf Hg Hgt Hs Hx). congruence. }
        split; [done|]. right. split; [done|]. by exists q, t.
Qed.

Lemma class_inv_drop h h' cl c e n cnt (O O' : Z -> Prop) p s :
  ph_wf h -> class_inv h cl c O -> good h cl p s -> ph_frame {[p]} h h' ->
  listed c ≡ₚ p :: e ++ n -> (forall q, q ∈ e -> q ∈ empty_ c) -> (forall q, q ∈ n -> q ∈ nonempty_ c) ->
  u64 cnt = u64 (counter_ c - Z.of_nat (length (objects s))) ->
  (forall x, O' x \/ x ∈ tc_objs c <-> ~ slot s cl x /\ (O x \/ x ∈ tc_objs c)) ->
  (forall x, x ∈ tc_objs c -> ~ O' x) ->
  class_inv h' cl (with_counts (num_spans_ c - 1) cnt (with_lists e n c)) O'.
Proof using All.
  intros Hwf HK Hg HF HP He Hn Hcnt HO Ht.
  assert (p ∈ listed c) as Hp by (rewrite HP; left).
  pose proof (frame_others _ _ _ _ _ _ HK HF) as Hrd. destruct (gd_use _ _ _ _ Hg) as [Hr _].
  pose proof HK as []. pose proof k_nodup0 as Hnd. rewrite HP in Hnd. apply NoDup_cons in Hnd as [Hpl Hnd].
  assert (forall q, q ∈ e ++ n -> q ∈ listed c /\ q <> p) as Hin.
  { intros q Hq. split; [rewrite HP; by right|congruence]. }
  set (c' := with_counts (num_spans_ c - 1) cnt (with_lists e n c)).
  assert (listed c' = e ++ n) as El by done. assert (tc_objs c' = tc_objs c) as Et by done.
  constructor; try done; rewrite ?El, ?Et; try done.
  - intros q Hq. destruct (Hin q Hq) as [Hq' Hne]. destruct (k_good0 q Hq') as (t & Hgt). exists t.
    eapply good_frame; [done|set_solver|done].
  - intros q t Hq Hqe. destruct (Hin q) as [Hq' Hne]; [apply elem_of_app; by left|].
    apply (k_empty0 q t); [by rewrite <- Hrd|by apply He].
  - intros q t Hq Hqe. destruct (Hin q) as [Hq' Hne]; [apply elem_of_app; by right|].
    apply (k_nonempty0 q t); [by rewrite <- Hrd|by apply Hn].
  - cbn -[listed Z.of_nat length]. rewrite k_spans0, HP, u64_sub_l. f_equal. cbn [length]. lia.
  - cbn -[listed]. rewrite Hcnt, k_counter0, (sumZ_perm _ _ _ HP), u64_sub_l. cbn [sumZ foldr].
    fold (sumZ (nfree h) (e ++ n)). rewrite (sumZ_ext (nfree h') (nfree h) (e ++ n)).
    + f_equal. assert (nfree h p = Z.of_nat (length (objects s))) as -> by (unfold nfree; by rewrite Hr). lia.
    + intros q Hq. destruct (Hin q Hq). unfold nfree. by rewrite Hrd.
  - intros x. rewrite HO, k_busy0, (busy_split h cl c O p s x) by done. unfold busy. rewrite El. split.
    + intros (Hns & [[? _]|(_ & q & t & Hq & Hne & Hqt & Hx)]); [done|].
      exists q, t. rewrite Hrd by done. split; [|done].
      rewrite HP in Hq. by apply elem_of_cons in Hq as [->|?].
    + intros (q & t & Hq & Hqt & Hx & Hnx). destruct (Hin q Hq) as [Hq' Hne]. rewrite Hrd in Hqt by done.
      pose proof (listed_good _ _ _ _ _ _ HK Hq' Hqt) as Hgt.
      assert (~ slot s cl x) as Hns.
      { intros Hs. destruct (slot_unique _ _ _ _ _ _ _ _ Hwf Hg Hgt Hs Hx). congruence. }
      split; [done|]. right. split; [done|]. by exists q, t.
Qed.

Lemma class_inv_add h cl c (O : Z -> Prop) p s : ph_wf h -> class_inv h cl c O -> p ∉ listed c ->
  good h cl p s -> objects s <> [] -> (forall x, slot s cl x -> x ∈ objects s) ->
  class_inv h cl (with_counts (num_spans_ c + 1) (counter_ c + Z.of_nat (length (objects s)))
    (with_lists (empty_ c) (p :: nonempty_ c) c)) O.
Proof using All.
  intros Hwf HK Hp Hg Hne Hall. destruct (gd_use _ _ _ _ Hg) as [Hr _].
  assert (empty_ c ++ p :: nonempty_ c ≡ₚ p :: listed c) as HP by (unfold listed; by rewrite Permutation_middle).
  match goal with |- class_inv _ _ ?c _ => set (c' := c) end.
  assert (listed c' = empty_ c ++ p :: nonempty_ c) as El by done. assert (tc_objs c' = tc_objs c) as Et by done.
  pose proof HK as []. constructor; try done; rewrite ?El, ?Et; try done.
  - rewrite HP. by constructor.
  - intros q. rewrite HP. intros [->|Hq]%elem_of_cons; [by exists s|auto].
  - intros q t Hq [->|Hqn]%elem_of_cons; [by assert (t = s) as -> by congruence|eauto].
  - cbn -[listed Z.of_nat length]. rewrite k_spans0, u64_add_l, HP. f_equal. cbn [length]. lia.
  - cbn -[listed]. rewrite k_counter0, u64_add_l, (sumZ_perm _ _ _ HP). cbn [sumZ foldr].
    fold (sumZ (nfree h) (listed c)). f_equal.
    assert (nfree h p = Z.of_nat (length (objects s))) as -> by (unfold nfree; by rewrite Hr). lia.
  - intros x. rewrite k_busy0. unfold busy. rewrite El.
    split; intros (q & t & Hq & Hqt & Hx & Hnx).
    + exists q, t. rewrite HP. split; [by right|done].
    + rewrite HP in Hq. apply elem_of_cons in Hq as [->|Hq]; [|by exists q, t].
      assert (t = s) as -> by congruence. destruct Hnx. auto.
Qed.

(** ** Changes to the transfer cache *)

Lemma tc_objs_snoc c u cache tc : 0 <= u < 2 ^ 31 - 1 ->
  tc_objs (with_slots tc (u + 1) cache c) = tc_objs (with_slots tc u cache c) ++ default [] (tc !! u).
Proof using.
  intros Hu. unfold tc_objs, with_slots. cbn. rewrite !s32_small by lia.
  rewrite (seqZ_app 0 u 1) by lia. rewrite fmap_app, join_app. f_equal. cbn. apply app_nil_r.
Qed.
Lemma tc_objs_ext c c' : used_slots_ c' = used_slots_ c ->
  (forall i, 0 <= i < used_slots_ c -> tc_slots_ c' !! i = tc_slots_ c !! i) -> tc_objs c' = tc_objs c.
Proof using.
  intros Hu Hi. unfold tc_objs. rewrite Hu. f_equal. apply list_fmap_ext.
  intros k i Hk%lookup_seqZ. by rewrite Hi by lia.
Qed.

(** The slots are what they were. *)
Lemma class_inv_cache h cl c O k : class_inv h cl c O ->
  used_slots_ c <= k <= max_cache_size_ c ->
  class_inv h cl (with_slots (tc_slots_ c) (used_slots_ c) k c) O.
Proof using.
  intros [] Hk. unfold kMaxNumTransferEntries in *.
  assert (tc_objs (with_slots (tc_slots_ c) (used_slots_ c) k c) = tc_objs c) as E.
  { apply tc_objs_ext; [|done]. cbn. apply s32_small. lia. }
  constructor; cbn; rewrite ?E; try done; rewrite ?s32_small by lia; try done. unfold kMaxNumTransferEntries. lia.
Qed.

Lemma class_inv_push h cl c (O : Z -> Prop) ch : class_inv h cl c O -> used_slots_ c < cache_size_ c ->
  NoDup ch -> Z.of_nat (length ch) = cmove cl -> (forall x, x ∈ ch -> O x) ->
  class_inv h cl (with_slots (<[used_slots_ c := ch]> (tc_slots_ c)) (used_slots_ c + 1) (cache_size_ c) c)
    (fun x => O x /\ x ∉ ch).
Proof using.
  intros HK Hu Hnd Hlen HO. pose proof HK as []. unfold kMaxNumTransferEntries in *.
  assert (tc_objs (with_slots (<[used_slots_ c := ch]> (tc_slots_ c)) (used_slots_ c + 1) (cache_size_ c) c) =
    tc_objs c ++ ch) as E.
  { rewrite tc_objs_snoc by lia. rewrite lookup_insert_eq. cbn [default]. f_equal. apply tc_objs_ext; cbn.
    - apply s32_small. lia.
    - intros i Hi. rewrite lookup_insert_ne; [done|lia]. }
  constructor; cbn; rewrite ?E; try done; rewrite ?s32_small by lia.
  - unfold kMaxNumTransferEntries. lia.
  - intros i Hi. destruct (decide (i = used_slots_ c)) as [->|Hne]; [exists ch; by rewrite lookup_insert_eq|].
    rewrite lookup_insert_ne by done. apply k_tc0. lia.
  - intros x. change (busy h cl (with_slots _ _ _ _) x) with (busy h cl c x). rewrite <- k_busy0, elem_of_app.
    destruct (decide (x ∈ ch)) as [Hin|]; [|naive_solver]. pose proof (HO x Hin). naive_solver.
  - apply NoDup_app. split; [done|]. split; [|done]. intros x Hx Hc. apply (k_tc_out0 x Hx), HO, Hc.
  - intros x [Hx|Hx]%elem_of_app [HOx Hn]; [by apply (k_tc_out0 x Hx)|done].
Qed.

Lemma class_inv_pop h cl c (O : Z -> Prop) k : class_inv h cl c O -> 0 < used_slots_ c ->
  used_slots_ c - 1 <= k <= max_cache_size_ c ->
  exists ch, tc_slots_ c !! (used_slots_ c - 1) = Some ch /\ NoDup ch /\ Z.of_nat (length ch) = cmove cl /\
    (forall x, x ∈ ch -> x ∈ tc_objs c) /\
    class_inv h cl (with_slots (tc_slots_ c) (used_slots_ c - 1) k c) (fun x => O x \/ x ∈ ch).
Proof using.
  intros HK Hu Hk. pose proof HK as []. unfold kMaxNumTransferEntries in *.
  destruct (k_tc0 (used_slots_ c - 1)) as (ch & Hch & Hlen); [lia|]. exists ch. split; [done|].
  assert (tc_objs c = tc_objs (with_slots (tc_slots_ c) (used_slots_ c - 1) k c) ++ ch) as E.
  { pose proof (tc_objs_snoc c (used_slots_ c - 1) k (tc_slots_ c) ltac:(lia)) as E. rewrite Hch in E.
    change (default [] (Some ch)) with ch in E. rewrite <- E. symmetry. apply tc_objs_ext; [|done]. cbn. rewrite s32_small by lia. lia. }
  rewrite E in k_busy0, k_tc_nodup0, k_tc_out0. apply NoDup_app in k_tc_nodup0 as (Hn1 & Hn2 & Hn3).
  split; [done|]. split; [done|]. split; [intros x Hx; rewrite E; apply elem_of_app; by right|].
  constructor; cbn; try done; rewrite ?s32_small by lia.
  - unfold kMaxNumTransferEntries. lia.
  - intros i Hi. apply k_tc0. lia.
  - intros x. change (busy h cl (with_slots _ _ _ _) x) with (busy h cl c x). rewrite <- k_busy0, elem_of_app. tauto.
  - intros x Hx [HO|Hc]; [|by apply (Hn2 x)]. apply (k_tc_out0 x); [|done]. apply elem_of_app. by left.
Qed.

(** ** The whole *)

Lemma class_list_good out st cl c p : CInv out st -> central_cache st !! cl = Some c -> p ∈ listed c -> exists s, good (pageheap st) cl p s.
Proof using.
  intros HI Hc Hp. destruct (ci_class _ _ HI cl (ci_dom _ _ HI _ _ Hc)) as (d & Hd & HK). assert (d = c) as -> by congruence.
  by apply (k_good _ _ _ _ HK p Hp).
Qed.
Lemma listed_class out st cl cl' c c' p : CInv out st -> central_cache st !! cl = Some c ->
  central_cache st !! cl' = Some c' -> p ∈ listed c -> p ∈ listed c' -> cl = cl'.
Proof using.
  intros HI Hc Hc' Hp Hp'.
  destruct (ci_class _ _ HI cl (ci_dom _ _ HI _ _ Hc)) as (d & Hd & HK).
  destruct (ci_class _ _ HI cl' (ci_dom _ _ HI _ _ Hc')) as (d' & Hd' & HK').
  assert (d = c) as -> by congruence. assert (d' = c') as -> by congruence.
  destruct (k_good _ _ _ _ HK p Hp) as (s & Hs), (k_good _ _ _ _ HK' p Hp') as (s' & Hs').
  by destruct (good_unique _ _ _ _ _ _ Hs Hs').
Qed.

Lemma CInv_update out out' st cl c' h' X : CInv out st -> 0 <= cl < ncl -> ph_wf h' ->
  ph_frame X (pageheap st) h' ->
  (forall cl' c p, cl' <> cl -> central_cache st !! cl' = Some c -> p ∈ X -> p ∉ listed c) ->
  class_inv h' cl c' (fun x => out' !! x = Some cl) ->
  (forall x cl', cl' <> cl -> out' !! x = Some cl' <-> out !! x = Some cl') ->
  CInv out' (mkCentral (<[cl := c']> (central_cache st)) (race_counter st) h').
Proof using.
  intros HI Hcl Hwf HF HX HK HO. constructor; cbn; [done|apply HI| | |].
  - intros cl' Hcl'. destruct (decide (cl' = cl)) as [->|Hne].
    + exists c'. by rewrite lookup_insert_eq.
    + destruct (ci_class _ _ HI cl' Hcl') as (c & Hc & HK'). exists c. rewrite lookup_insert_ne by done.
      split; [done|]. eapply class_inv_ext; [intros x; symmetry; by apply HO|].
      eapply class_inv_frame; [done| |done]. eauto.
  - intros cl' c Hc. destruct (decide (cl' = cl)) as [->|Hne]; [done|].
    rewrite lookup_insert_ne in Hc by done. by eapply (ci_dom _ _ HI).
  - intros x cl' Hx. destruct (decide (cl' = cl)) as [->|Hne]; [done|].
    apply HO in Hx; [|done]. by eapply (ci_range _ _ HI).
Qed.

(** An object in class [cl] is in no other class. *)
Lemma out_class out st cl c x cl' : CInv out st -> central_cache st !! cl = Some c ->
  (exists p s, p ∈ listed c /\ ph_read (pageheap st) p = Some s /\ slot s cl x) ->
  out !! x = Some cl' -> cl' = cl.
Proof using All.
  intros HI Hc (p & s & Hp & Hr & Hx) Ho. pose proof (ci_dom _ _ HI _ _ Hc) as Hcl.
  destruct (ci_class _ _ HI cl Hcl) as (d & Hd & HK). assert (d = c) as -> by congruence.
  destruct (ci_class _ _ HI cl' (ci_range _ _ HI _ _ Ho)) as (c' & Hc' & HK').
  destruct (proj1 (k_busy _ _ _ _ HK' x) (or_introl Ho)) as (q & t & Hq & Ht & Hx' & _).
  pose proof (listed_good _ _ _ _ _ _ HK Hp Hr) as Hg. pose proof (listed_good _ _ _ _ _ _ HK' Hq Ht) as Hg'.
  destruct (slot_unique _ _ _ _ _ _ _ _ (ci_wf _ _ HI) Hg Hg' Hx Hx') as (_ & -> & _). done.
Qed.
End Inv.
