(* ===== verification/CentralFreeListSpec.v ===== *)
(** * Properties of the central free lists

    The operations keep the invariant of CentralFreeListInv.v, whatever
    other threads do while a lock is released, provided they keep it too. *)
From S2P Require Import Prelude Common Span PageHeap CentralFreeList CentralFreeListInv.
Import SizeMap CFL.

Section Spec.
Context {H : Type} `{!SpanHeap H} `{!SpanHeapLaws H} {RS : Rest}.
Context (sizemap : SizeMap) (others : M (Central H) unit).
Abbreviation central := (Central H).
Abbreviation ncl := (num_size_classes sizemap).
Abbreviation CInv := (CInv sizemap).
Abbreviation Holds := (Holds sizemap).
Abbreviation Holding := (Holding sizemap).
Abbreviation held := (held sizemap).
Abbreviation class_inv := (class_inv sizemap).
Abbreviation good := (good sizemap).
Abbreviation slot := (slot sizemap).
Abbreviation nobj := (nobj sizemap).
Implicit Types (h : H) (c : CentralFreeList) (st : central).

Hypothesis Hsm : sizemap_ok (H := H) sizemap.
(** The rely: a thread's objects and private spans survive the steps of
    other threads, and the lists stay consistent. *)
Hypothesis others_ok : forall mine priv st, Holds mine priv st ->
  wp others (fun _ st' => Holds mine priv st') st.

(** ** Symbolic execution *)

Lemma wp_get_list cl c (Q : CentralFreeList -> central -> Prop) st :
  central_cache st !! cl = Some c -> Q c st -> wp (get_list cl) Q st.
Proof. intros Hc HQ. unfold get_list. apply wp_bind, wp_get. eapply wp_lift; [by rewrite Hc|done]. Qed.
Lemma wp_put_list cl c (Q : unit -> central -> Prop) st :
  Q tt (mkCentral (<[cl := c]> (central_cache st)) (race_counter st) (pageheap st)) -> wp (put_list cl c) Q st.
Proof. intros HQ. by apply wp_mod. Qed.
Lemma wp_upd_list cl f c (Q : unit -> central -> Prop) st : central_cache st !! cl = Some c ->
  Q tt (mkCentral (<[cl := f c]> (central_cache st)) (race_counter st) (pageheap st)) -> wp (upd_list cl f) Q st.
Proof. intros Hc HQ. unfold upd_list. apply wp_bind. eapply wp_get_list; [done|]. by apply wp_put_list. Qed.
Lemma wp_in_heap {A} (m : M H A) (Q : A -> central -> Prop) st :
  wp m (fun a h => Q a (mkCentral (central_cache st) (race_counter st) h)) (pageheap st) -> wp (in_heap m) Q st.
Proof. unfold wp, in_heap. by destruct (m (pageheap st)) as [[a h]|[]]. Qed.
Lemma wp_central_span p s (Q : Span -> central -> Prop) st :
  ph_read (pageheap st) p = Some s -> Q s st -> wp (get_span p) Q st.
Proof. intros Hs HQ. unfold get_span. apply wp_bind, wp_get. eapply wp_lift; [by rewrite Hs|done]. Qed.

(** The maps from pages to descriptors and classes did not change. *)
Definition same_maps (h h' : H) : Prop :=
  (forall pg, ph_GetDescriptor h' pg = ph_GetDescriptor h pg) /\
  (forall pg, ph_TryGetSizeClass h' pg = ph_TryGetSizeClass h pg).

Lemma wp_write p s objs ref (Q : unit -> H -> Prop) h : ph_wf h -> ph_inuse h p s ->
  (forall h', ph_wf h' -> ph_frame {[p]} h h' -> ph_inuse h' p (set_refcount ref (set_objects objs s)) ->
     same_maps h h' -> Q tt h') ->
  wp (ph_write p (set_refcount ref (set_objects objs s))) Q h.
Proof.
  intros Hwf Hu HQ. eapply wp_mono; [eapply ph_write_ok; [done|exact Hu|done|done|apply Hu]|]. intros [] h' (? & ? & ? & ?). by apply HQ.
Qed.

Lemma aget_class (m : gmap Z Z) cl : 0 <= cl < ncl -> aget kClassSizesMax m cl = Ret (ent m cl).
Proof. intros Hcl. apply aget_in. pose proof (so_num _ Hsm). lia. Qed.

(** ** Frames *)

Lemma ph_frame_trans X h1 h2 h3 : ph_frame X h1 h2 -> ph_frame X h2 h3 -> ph_frame X h1 h3.
Proof.
  intros [A1 A2 A3] [B1 B2 B3]. constructor.
  - intros q s Hq. by rewrite A1, B1.
  - intros q s pg Hq Hu Hpg. rewrite (B2 q s), (A2 q s); try done. by apply A1.
  - intros q s pg Hq Hu Hpg. destruct (B3 q s pg Hq (proj1 (A1 q s Hq) Hu) Hpg) as [-> | ->]; [by apply (A3 q s)|by right].
Qed.

Lemma private_frame X st q s cc h' : private st q s -> ph_frame X (pageheap st) h' -> q ∉ X ->
  (forall cl c, cc !! cl = Some c -> q ∉ listed c) ->
  private (mkCentral cc (race_counter st) h') q s.
Proof.
  intros [Hu Hm Hk Ho] HF Hq Hoff. constructor; cbn; [|intros pg Hpg Hin|intros pg Hpg Hin|done].
  - by apply (fr_span _ _ _ HF).
  - rewrite (fr_map _ _ _ HF q (ow_span s)); auto.
  - destruct (fr_cache _ _ _ HF q (ow_span s) pg) as [-> | ->]; auto.
Qed.

(** The heap changed, no span on a list did; the changed spans are the
    thread's own or free, before and after. *)
Lemma Holds_heap F X mine priv priv' st h' (st' := mkCentral (central_cache st) (race_counter st) h') :
  Holding F mine priv st -> ph_wf h' -> ph_frame X (pageheap st) h' ->
  (forall p cl c, p ∈ X -> central_cache st !! cl = Some c -> p ∉ listed c) ->
  (forall p, p ∈ X -> is_Some (priv !! p) \/ forall t, ~ ph_inuse (pageheap st) p t) ->
  (forall p, p ∉ X -> priv' !! p = priv !! p) ->
  (forall p, p ∈ X -> match priv' !! p with Some o => private st' p o | None => forall t, ~ ph_inuse h' p t end) ->
  Holding F mine priv' st'.
Proof using.
  intros (out & [Hm HI Hp Hus (S & HS & Hre)]) Hwf HF HX Hb Hpr Ha. exists out. constructor; [done| | | |].
  - pose proof HI as [_ ? Hcls ? ?]. constructor; cbn; try done. intros cl Hcl. destruct (Hcls cl Hcl) as (c & Hc & HK).
    exists c. split; [done|]. eapply class_inv_frame; [done| |done]. intros p Hin. by eapply HX.
  - intros q s Hq. destruct (decide (q ∈ X)) as [Hin|Hn]; [specialize (Ha q Hin); by rewrite Hq in Ha|].
    rewrite Hpr in Hq by done. pose proof (Hp q s Hq) as Hpv. eapply private_frame; [done|done|done|apply Hpv].
  - cbn. intros cl c p s Hc Hin Hs. destruct (class_list_good _ _ _ _ _ _ HI Hc Hin) as (t & Ht).
    assert (p ∉ X) as Hn by (intros ?; by apply (HX p cl c)).
    pose proof (frame_read _ _ _ _ _ HF Hn (gd_use _ _ _ _ _ Ht)) as Er. assert (t = s) as -> by congruence.
    apply (Hus cl c p s Hc Hin), Ht.
  - exists S. split; [|done]. intros p. rewrite HS. unfold outside. cbn. destruct (decide (p ∈ X)) as [Hin|Hn].
    + specialize (Ha p Hin). specialize (Hb p Hin). split; intros ((s & Hs) & E & _); exfalso.
      * rewrite E in Hb. destruct Hb as [[? ?]|Hf]; [done|by apply (Hf s)].
      * rewrite E in Ha. by apply (Ha s).
    + rewrite Hpr by done. by setoid_rewrite (fr_span _ _ _ HF p _ Hn).
Qed.
Lemma Holds_frame mine priv st h' : Holds mine priv st -> ph_wf h' -> ph_frame ∅ (pageheap st) h' ->
  Holds mine priv (mkCentral (central_cache st) (race_counter st) h').
Proof using. intros HH Hwf HF. apply (Holds_heap _ ∅ mine priv priv); [done..| | |done|]; [intros p cl c|intros p..]; by intros []%not_elem_of_empty. Qed.

(** What the others hold when objects come and go. *)
Lemma rest_delete (out mine : gmap Z Z) x (v : Z) : delete x out ∖ mine = out ∖ <[x := v]> mine.
Proof using.
  apply map_eq. intros y. rewrite !lookup_difference. destruct (decide (y = x)) as [->|].
  - rewrite lookup_insert_eq, lookup_delete_eq. by destruct (mine !! x).
  - by rewrite lookup_insert_ne, lookup_delete_ne by done.
Qed.
Lemma rest_give (out mine : gmap Z Z) cl t : (forall x v, x ∈ t -> out !! x <> Some v) -> give cl t out ∖ give cl t mine = out ∖ mine.
Proof using.
  intros Ht. apply map_eq. intros y. rewrite !lookup_difference, !lookup_give. destruct (decide (y ∈ t)) as [Hy|]; [|done].
  assert (out !! y = None) as -> by (destruct (out !! y) as [v|] eqn:E; [by destruct (Ht y v)|done]). by destruct (mine !! y).
Qed.
Lemma rest_take (out mine : gmap Z Z) cl l : filter (fun '(x, _) => x ∉ l) out ∖ mine = out ∖ give cl l mine.
Proof using.
  apply map_eq. intros y. rewrite !lookup_difference, lookup_give, map_lookup_filter. destruct (decide (y ∈ l)) as [Hy|Hy].
  - destruct (out !! y); cbn; [rewrite option_guard_False by (intros ?; done)|]; by destruct (mine !! y).
  - destruct (mine !! y); [done|]. destruct (out !! y) eqn:E; cbn; [|done]. by rewrite option_guard_True.
Qed.

(** One list and its spans changed: a span that leaves the list becomes the
    thread's own, one that joins it was. *)
Lemma held_update F F' out out' mine mine' priv priv' st cl c c' h' X (st' := mkCentral (<[cl := c']> (central_cache st)) (race_counter st) h') :
  held F out mine priv st -> central_cache st !! cl = Some c ->
  ph_wf h' -> ph_frame X (pageheap st) h' -> (forall p, p ∈ X -> p ∈ listed c) ->
  class_inv h' cl c' (fun x => out' !! x = Some cl) ->
  (forall x cl', cl' <> cl -> out' !! x = Some cl' <-> out !! x = Some cl') ->
  mine' ⊆ out' -> out' ∖ mine' = out ∖ mine ->
  (forall q, (q ∈ listed c <-> q ∈ listed c') -> priv' !! q = priv !! q) ->
  (forall q, q ∈ listed c -> q ∉ listed c' -> exists o, priv' !! q = Some o /\ private st' q o) ->
  (forall q, q ∉ listed c -> q ∈ listed c' -> is_Some (priv !! q) /\ priv' !! q = None) ->
  (forall q, F q -> F' q \/ q ∈ X) ->
  (forall q s, q ∈ listed c' -> q ∈ X \/ q ∉ listed c -> ph_read h' q = Some s -> refcount s = 0 -> F' q) ->
  held F' out' mine' priv' st'.
Proof using.
  intros [Hm HI Hp Hus (S & HS & Hre)] Hc Hwf HF HX HK HO Hm' Ed Hsame Hleave Hjoin HFF HF'.
  assert (forall cl' d q, cl' <> cl -> central_cache st !! cl' = Some d -> q ∈ listed d -> q ∉ listed c) as Hoth.
  { intros cl' d q Hne Hd Hin Hpd. apply Hne. by eapply listed_class. }
  constructor; [done| | | |].
  - eapply CInv_update; try done; [by eapply ci_dom|]. intros cl' d p Hne Hd Hin Hpd. by apply (Hoth cl' d p Hne Hd Hpd), HX.
  - intros q s Hq. destruct (decide (q ∈ listed c)) as [Hin|Hn], (decide (q ∈ listed c')) as [Hin'|Hn'].
    + rewrite Hsame in Hq by done. by destruct (pv_off _ _ _ (Hp q s Hq) _ _ Hc).
    + destruct (Hleave q Hin Hn') as (o & Ho & Hpo). congruence.
    + destruct (Hjoin q Hn Hin') as [_ ?]. congruence.
    + rewrite Hsame in Hq by done. pose proof (Hp q s Hq) as Hpv. eapply private_frame; [done|done|intros Hin; by apply Hn, HX|].
      intros cl' d Hd. destruct (decide (cl' = cl)) as [->|Hne]; [rewrite lookup_insert_eq in Hd; by injection Hd as <-|].
      rewrite lookup_insert_ne in Hd by done. by apply (pv_off _ _ _ Hpv _ _ Hd).
  - cbn. intros cl' d q s Hd Hin Hs E0.
    assert (q ∈ X \/ q ∉ X) as [Hx|Hx] by (destruct (decide (q ∈ X)); auto).
    + assert (cl' = cl) as ->; [|rewrite lookup_insert_eq in Hd; injection Hd as <-; eapply HF'; [done|by left|done|done]].
      destruct (decide (cl' = cl)) as [|Hne]; [done|]. rewrite lookup_insert_ne in Hd by done. by destruct (Hoth _ _ _ Hne Hd Hin); apply HX.
    + assert (forall cl'' d'', central_cache st !! cl'' = Some d'' -> q ∈ listed d'' -> F' q) as Hold.
      { intros cl'' d'' Hd'' Hin''. destruct (class_list_good _ _ _ _ _ _ HI Hd'' Hin'') as (t & Ht).
        pose proof (frame_read _ _ _ _ _ HF Hx (gd_use _ _ _ _ _ Ht)) as Er. assert (t = s) as -> by congruence.
        destruct (HFF q); [|done|done]. by apply (Hus cl'' d'' q s Hd'' Hin''); [apply Ht|]. }
      destruct (decide (cl' = cl)) as [->|Hne]; [|rewrite lookup_insert_ne in Hd by done; by eapply Hold].
      rewrite lookup_insert_eq in Hd. injection Hd as <-. destruct (decide (q ∈ listed c)); [by eapply Hold|].
      eapply HF'; [done|by right|done|done].
  - rewrite Ed. exists S. split; [|done]. intros q. rewrite HS. unfold outside. cbn. split.
    + intros ((s & Hs) & E & Hoff). pose proof (Hoff cl c Hc) as Hqc.
      assert (q ∉ listed c') as Hqc' by (intros Hin; destruct (Hjoin q Hqc Hin) as [[? ?] _]; congruence).
      split; [exists s; apply (fr_span _ _ _ HF); [by intros ?%HX|done]|]. split; [by rewrite Hsame|].
      intros cl' d Hd. destruct (decide (cl' = cl)) as [->|Hne]; [rewrite lookup_insert_eq in Hd; by injection Hd as <-|].
      rewrite lookup_insert_ne in Hd by done. by eapply Hoff.
    + intros ((s & Hs) & E & Hoff). pose proof (Hoff cl c' (lookup_insert_eq _ _ _)) as Hqc'.
      assert (q ∉ listed c) as Hqc by (intros Hin; destruct (Hleave q Hin Hqc') as (o & ? & _); congruence).
      split; [exists s; apply (fr_span _ _ _ HF); [by intros ?%HX|done]|]. rewrite Hsame in E by done. split; [done|].
      intros cl' d Hd. destruct (decide (cl' = cl)) as [->|Hne]; [congruence|]. apply (Hoff cl'). by rewrite lookup_insert_ne.
Qed.
(** The same spans stay on the list. *)
Lemma Holds_update F F' out out' mine mine' priv st cl c c' h' X : held F out mine priv st -> central_cache st !! cl = Some c ->
  ph_wf h' -> ph_frame X (pageheap st) h' -> (forall p, p ∈ X -> p ∈ listed c) -> listed c' ≡ₚ listed c ->
  class_inv h' cl c' (fun x => out' !! x = Some cl) ->
  (forall x cl', cl' <> cl -> out' !! x = Some cl' <-> out !! x = Some cl') ->
  mine' ⊆ out' -> out' ∖ mine' = out ∖ mine -> (forall q, F q -> F' q \/ q ∈ X) ->
  (forall q s, q ∈ X -> ph_read h' q = Some s -> refcount s = 0 -> F' q) ->
  Holding F' mine' priv (mkCentral (<[cl := c']> (central_cache st)) (race_counter st) h').
Proof using.
  intros HH Hc Hwf HF HX HP HK HO Hm Ed HFF HF'. exists out'. eapply held_update; try done; try (intros q; rewrite HP; tauto).
  intros q s. rewrite HP. intros Hq [?|?]; [by eapply HF'|done].
Qed.

(** ** Removing a span from its list *)

Lemma unlink_ok p c : NoDup (listed c) -> p ∈ listed c ->
  exists e n, unlink p c = Ret (with_lists e n c) /\ listed c ≡ₚ p :: e ++ n /\
    (forall q, q ∈ e -> q ∈ empty_ c) /\ (forall q, q ∈ n -> q ∈ nonempty_ c) /\
    (p ∈ empty_ c -> n = nonempty_ c) /\ (p ∉ empty_ c -> e = empty_ c).
Proof.
  intros Hnd Hp. unfold unlink, listed in *. destruct (decide (p ∈ empty_ c)) as [Hin|Hn].
  - destruct (list_remove_perm p (empty_ c) Hin) as (e & -> & HP). exists e, (nonempty_ c).
    split; [done|]. split; [by rewrite HP|]. split; [|done]. intros q Hq. rewrite HP. by right.
  - rewrite (list_remove_none p (empty_ c) Hn). apply elem_of_app in Hp as [?|Hp]; [done|].
    destruct (list_remove_perm p (nonempty_ c) Hp) as (n & -> & HP). exists (empty_ c), n. obind.
    split; [done|]. split; [rewrite HP; symmetry; apply Permutation_middle|]. split; [done|].
    split; [intros q Hq; rewrite HP; by right|done].
Qed.

Lemma with_lists_id c : with_lists (empty_ c) (nonempty_ c) c = c.
Proof. by destruct c. Qed.

(** ** Counting objects *)

Definition all_slots (s : Span) (cl : Z) : list Z :=
  (fun i => start s * kPageSize + i * csize sizemap cl) <$> seqZ 0 (nobj cl).

Lemma elem_all_slots s cl x : x ∈ all_slots s cl <-> slot s cl x.
Proof.
  unfold all_slots. rewrite list_elem_of_fmap. setoid_rewrite elem_of_seqZ.
  split; intros (i & ? & ?); exists i; (split; [lia|done]) || split; try done; lia.
Qed.
Lemma length_all_slots s cl : Z.of_nat (length (all_slots s cl)) = Z.max 0 (nobj cl).
Proof. unfold all_slots. rewrite length_fmap, length_seqZ. lia. Qed.
Lemma NoDup_all_slots s cl : 1 <= cl < ncl -> NoDup (all_slots s cl).
Proof.
  intros Hcl. destruct (so_class _ Hsm cl Hcl) as (? & _). apply NoDup_fmap_2; [|apply NoDup_seqZ].
  intros i j. nia.
Qed.

Lemma free_count h cl p s x : good h cl p s -> slot s cl x -> x ∉ objects s ->
  Z.of_nat (length (objects s)) < nobj cl /\
  (Z.of_nat (length (objects s)) = nobj cl - 1 -> forall y, slot s cl y -> y ∈ objects s \/ y = x).
Proof.
  intros Hg Hx Hn. assert (x :: objects s ⊆+ all_slots s cl) as Hsub.
  { apply NoDup_submseteq; [constructor; [done|apply Hg]|].
    intros y [->|Hy]%elem_of_cons; apply elem_all_slots; [done|by apply (gd_slots _ _ _ _ _ Hg)]. }
  pose proof (submseteq_length _ _ Hsub) as Hlen. cbn [length] in Hlen.
  destruct (so_class _ Hsm cl (gd_range _ _ _ _ _ Hg)) as (_ & _ & _ & Hno & _).
  pose proof (length_all_slots s cl). split; [lia|]. intros E y Hy.
  assert (x :: objects s ≡ₚ all_slots s cl) as HP.
  { apply submseteq_length_Permutation; [done|]. cbn [length]. lia. }
  apply elem_all_slots in Hy. rewrite <- HP in Hy. apply elem_of_cons in Hy as [->|?]; auto.
Qed.

(** ** Releasing objects *)

(** After the first step of [ReleaseToSpans] the span is on the non-empty
    list. *)
Record moved c (p : Z) (e n : list Z) : Prop := {
  mv_perm : e ++ n ≡ₚ listed c;
  mv_in : p ∈ n;
  mv_out : p ∉ e;
  mv_e : forall q, q ∈ e -> q ∈ empty_ c;
  mv_n : forall q, q ∈ n -> q <> p -> q ∈ nonempty_ c }.

Lemma release_move h cl c O p s (Q : unit -> central -> Prop) st : class_inv h cl c O ->
  central_cache st !! cl = Some c -> pageheap st = h -> p ∈ listed c -> good h cl p s ->
  (forall e n, moved c p e n ->
     Q tt (mkCentral (<[cl := with_lists e n c]> (central_cache st)) (race_counter st) (pageheap st))) ->
  wp (match objects s with
      | [] => c ← get_list cl; c ← liftM (unlink p c); put_list cl (with_lists (empty_ c) (p :: nonempty_ c) c)
      | _ => mret tt
      end) Q st.
Proof.
  intros HK Hc Hh Hp Hg HQ. destruct (gd_use _ _ _ _ _ Hg) as [Hr _]. pose proof (k_nodup _ _ _ _ _ HK) as Hnd.
  destruct (objects s) as [|y l] eqn:Eo.
  - assert (p ∈ empty_ c) as Hpe.
    { apply elem_of_app in Hp as [?|Hp]; [done|]. by destruct (k_nonempty _ _ _ _ _ HK p s). }
    apply wp_bind. eapply wp_get_list; [done|]. apply wp_bind.
    destruct (unlink_ok p c Hnd Hp) as (e & n & Hu & HP & He & Hn & Hn' & _). rewrite (Hn' Hpe) in *.
    eapply wp_lift; [done|]. apply wp_put_list. cbn. apply HQ.
    rewrite HP in Hnd. apply NoDup_cons in Hnd as [Hpn Hnd].
    constructor; [rewrite HP; symmetry; apply Permutation_middle|by left| |done|]; [intros Hq; apply Hpn, elem_of_app; by left|].
    intros q [->|?]%elem_of_cons ?; done.
  - assert (p ∈ nonempty_ c) as Hpn.
    { apply elem_of_app in Hp as [Hp|?]; [|done]. pose proof (k_empty _ _ _ _ _ HK p s Hr Hp). congruence. }
    apply wp_ret. specialize (HQ (empty_ c) (nonempty_ c)). rewrite with_lists_id, insert_id in HQ by done.
    destruct st. apply HQ. constructor; try done. unfold listed in Hnd. apply NoDup_app in Hnd as (_ & Hd & _).
    intros Hpe. by apply (Hd p).
Qed.

(** What is left in its span when an object comes back. *)
Lemma delete_out (out : gmap Z Z) x cl : forall y cl', cl' <> cl ->
  out !! x = Some cl -> delete x out !! y = Some cl' <-> out !! y = Some cl'.
Proof.
  intros y cl' Hne Hx. destruct (decide (y = x)) as [->|].
  - rewrite lookup_delete_eq. split; congruence.
  - by rewrite lookup_delete_ne.
Qed.

Section Release.
Context (out mine : gmap Z Z) (priv : gmap Z Owned) (st : central) (cl x p : Z) (c : CentralFreeList) (s : Span).
Hypothesis HH : held nowhere out (<[x := cl]> mine) priv st.
Let HI : CInv out st := hl_inv _ _ _ _ _ _ HH.
Let Hpv : map_Forall (private st) priv := hl_priv _ _ _ _ _ _ HH.
Hypothesis Hx : out !! x = Some cl.
Hypothesis Hm : mine ⊆ out.
Hypothesis Hmx : mine !! x = None.
Hypothesis Hcl : 1 <= cl < ncl.
Hypothesis Hc : central_cache st !! cl = Some c.
Hypothesis HK : class_inv (pageheap st) cl c (fun x => out !! x = Some cl).
Hypothesis Hp : p ∈ listed c.
Hypothesis Hg : good (pageheap st) cl p s.
Hypothesis Hsl : slot s cl x.
Hypothesis Hn : x ∉ objects s.

Lemma release_mine : mine ⊆ delete x out.
Proof using Hm Hmx.
  clear HI Hpv. apply map_subseteq_spec. intros y v Hy. rewrite lookup_delete_ne by congruence. by eapply lookup_weaken.
Qed.

Lemma release_tc y : y ∈ tc_objs c -> y <> x.
Proof using HK Hx. clear HI Hpv. intros Hy ->. by apply (k_tc_out _ _ _ _ _ HK x Hy). Qed.

Lemma out_not_free y : slot s cl y -> out !! y = Some cl \/ y ∈ tc_objs c <-> y ∉ objects s.
Proof.
  intros Hy. rewrite (k_busy _ _ _ _ _ HK y).
  rewrite (busy_split sizemap Hsm (pageheap st) cl c _ p s y (ci_wf _ _ _ HI) HK Hp Hg). tauto.
Qed.

(** The last object: the span leaves the list. *)
Lemma release_last h1 e n s1 cnt : ph_wf h1 -> ph_frame {[p]} (pageheap st) h1 -> ph_inuse h1 p s1 ->
  same_maps (pageheap st) h1 ->
  start s1 = start s -> length_ s1 = length_ s ->
  listed c ≡ₚ p :: e ++ n -> (forall q, q ∈ e -> q ∈ empty_ c) -> (forall q, q ∈ n -> q ∈ nonempty_ c) ->
  Z.of_nat (length (objects s)) = nobj cl - 1 ->
  u64 cnt = u64 (counter_ c - Z.of_nat (length (objects s))) ->
  Holds mine (<[p := mkOwned s1 (in_span s1) nowhere]> priv)
    (mkCentral (<[cl := with_counts (num_spans_ c - 1) cnt (with_lists e n c)]> (central_cache st)) (race_counter st) h1).
Proof.
  intros Hwf HF Hu Hgd Es El HP He Hne Hlen Hcnt.
  destruct (free_count _ _ _ _ _ Hg Hsl Hn) as [_ Hall]. specialize (Hall Hlen).
  pose proof (k_nodup _ _ _ _ _ HK) as Hnd. rewrite HP in Hnd. apply NoDup_cons in Hnd as [Hpn Hnd].
  assert (forall q, q ∈ listed (with_counts (num_spans_ c - 1) cnt (with_lists e n c)) <-> q ∈ listed c /\ q <> p) as Hlq.
  { intros q. change (q ∈ e ++ n <-> q ∈ listed c /\ q <> p). rewrite HP, elem_of_cons. split; [|tauto].
    intros Hq. split; [by right|]. intros ->. done. }
  exists (delete x out). apply (held_update nowhere nowhere out _ (<[x := cl]> mine) mine priv _ st cl c _ h1 {[p]}); try done.
  - by intros q ->%elem_of_singleton.
  - apply (class_inv_drop sizemap Hsm (pageheap st) h1 cl c e n cnt (fun x => out !! x = Some cl) _ p s); try done.
    + by apply HI.
    + intros y. pose proof (out_not_free y) as Hy. pose proof (release_tc y) as Ht.
      destruct (decide (y = x)) as [->|Hyx]; [rewrite lookup_delete_eq|rewrite lookup_delete_ne by done].
      * split; [|by intros [? _]]. intros [?|?]; [done|]. by destruct Ht.
      * split; [|tauto]. intros Hor. split; [|done]. intros Hs. destruct (Hall y Hs); [|done]. by apply Hy.
    + intros y Hy Hd. rewrite lookup_delete_ne in Hd by (intros <-; by apply (release_tc x)).
      by apply (k_tc_out _ _ _ _ _ HK y).
  - intros y cl' Hne'. by apply (delete_out out x cl).
  - apply release_mine.
  - apply rest_delete.
  - intros q Hq. rewrite Hlq in Hq. rewrite lookup_insert_ne; [done|]. intros <-. tauto.
  - intros q Hin Hq. rewrite Hlq in Hq. destruct (decide (q = p)) as [->|]; [|tauto]. eexists. split; [apply lookup_insert_eq|].
    constructor; cbn; [done| |done|].
    + intros pg Hpg _. rewrite (proj1 Hgd). apply (gd_map _ _ _ _ _ Hg). unfold in_span in *. by rewrite <- Es, <- El.
    + intros cl' d Hd. destruct (decide (cl' = cl)) as [->|Hne'].
      * rewrite lookup_insert_eq in Hd. injection Hd as <-. by intros [_ ?]%Hlq.
      * rewrite lookup_insert_ne in Hd by done. intros Hpd. apply Hne'.
        by eapply (listed_class sizemap out st cl' cl d c p).
  - intros q Hn' [? _]%Hlq. done.
  - intros q t [Hq Hqp]%Hlq [->%elem_of_singleton|?]; done.
Qed.

(** The object goes to the front of the span's free list. *)
Lemma release_keep h1 e n cnt : ph_wf h1 -> ph_frame {[p]} (pageheap st) h1 ->
  ph_inuse h1 p (set_refcount (refcount s - 1) (set_objects (x :: objects s) s)) ->
  same_maps (pageheap st) h1 ->
  moved c p e n -> u64 cnt = u64 (counter_ c + 1) -> refcount s <> 1 ->
  Holds mine priv
    (mkCentral (<[cl := with_counts (num_spans_ c) cnt (with_lists e n c)]> (central_cache st)) (race_counter st) h1).
Proof.
  intros Hwf HF Hu Hgd [HP Hin Hout He Hnn] Hcnt Hr1.
  destruct (free_count _ _ _ _ _ Hg Hsl Hn) as [Hlt _].
  destruct (so_class _ Hsm cl Hcl) as (_ & _ & _ & Hno & _). pose proof (gd_ref _ _ _ _ _ Hg) as Href.
  apply (Holds_update nowhere nowhere out (delete x out) (<[x := cl]> mine) mine priv st cl c _ h1 {[p]}); try done.
  - by intros q ->%elem_of_singleton.
  - eapply (class_inv_span sizemap Hsm (pageheap st) h1 cl c e n cnt (fun x => out !! x = Some cl) _ p s
      (set_refcount (refcount s - 1) (set_objects (x :: objects s) s))); try done; cbn [objects set_refcount set_objects].
    + by apply HI.
    + pose proof Hg as [_ ? ? ? Hgm Hgc ? Hgs _]. constructor; try done; cbn -[Z.of_nat length].
      * intros pg Hpg. rewrite (proj1 Hgd). by apply Hgm.
      * intros pg Hpg. rewrite (proj2 Hgd). by apply Hgc.
      * by constructor.
      * intros y [->|Hy]%elem_of_cons; [done|]. by apply Hgs.
      * cbn [length]. unfold u16. rewrite Z.mod_small by lia. lia.
    + intros q Hq _. by apply He.
    + rewrite Hcnt. f_equal. cbn [length]. lia.
    + intros y. pose proof (out_not_free y) as Hy. pose proof (release_tc y) as Ht. rewrite elem_of_cons.
      destruct (decide (y = x)) as [->|Hyx]; [rewrite lookup_delete_eq|rewrite lookup_delete_ne by done].
      * split; [intros [?|?]; [done|by destruct Ht]|]. intros [[? _]|[_ ?]]; [done|tauto].
      * assert (slot s cl y \/ ~ slot s cl y) as [Hs|Hs]
          by (rewrite <- elem_all_slots; destruct (decide (y ∈ all_slots s cl)); auto); tauto.
    + intros y Hy Hd. rewrite lookup_delete_ne in Hd by (intros <-; by apply (release_tc x)).
      by apply (k_tc_out _ _ _ _ _ HK y).
  - intros y cl' Hne'. by apply (delete_out out x cl).
  - apply release_mine.
  - apply rest_delete.
  - intros q t ->%elem_of_singleton Hr E0. destruct Hu as [Hr' _]. assert (t = set_refcount (refcount s - 1) (set_objects (x :: objects s) s)) as -> by congruence.
    cbn in E0. unfold u16 in E0. rewrite Z.mod_small in E0 by lia. lia.
Qed.
End Release.

Lemma set_ref_eq r s : set_refcount r s = set_refcount r (set_objects (objects s) s).
Proof. by destruct s. Qed.
Lemma set_obj_ref_eq r l s : set_objects l (set_refcount r s) = set_refcount r (set_objects l s).
Proof. by destruct s. Qed.
Lemma set_ref_twice r r' l s : set_refcount r (set_objects l (set_refcount r' s)) = set_refcount r (set_objects l s).
Proof. by destruct s. Qed.
Lemma wp_write_ref p s ref (Q : unit -> H -> Prop) h : ph_wf h -> ph_inuse h p s ->
  (forall h', ph_wf h' -> ph_frame {[p]} h h' -> ph_inuse h' p (set_refcount ref s) ->
     same_maps h h' -> Q tt h') ->
  wp (ph_write p (set_refcount ref s)) Q h.
Proof. rewrite set_ref_eq. apply wp_write. Qed.

Lemma Holds_private p o mine priv st : Holds mine (<[p := o]> priv) st -> private st p o.
Proof using. intros (out & HH). by eapply map_Forall_insert_1_1, HH. Qed.
Lemma Holds_wf mine priv st : Holds mine priv st -> ph_wf (pageheap st).
Proof using. intros (out & HH). by apply HH. Qed.

(** A private span given back to the page heap. *)
Lemma wp_Delete_private p s mine priv (Q : unit -> central -> Prop) st : priv !! p = None ->
  Holds mine (<[p := s]> priv) st -> (forall st', Holds mine priv st' -> Q tt st') ->
  wp (in_heap (ph_Delete p)) Q st.
Proof.
  intros Hp HH HQ. pose proof (Holds_private _ _ _ _ _ HH) as Hps. pose proof (Holds_wf _ _ _ HH) as Hwf0.
  apply wp_in_heap. eapply wp_mono; [apply (ph_Delete_ok p (ow_span s)); [done|apply Hps]|].
  intros [] h' (Hwf & HF & Hfree). apply HQ. eapply (Holds_heap _ {[p]} mine (<[p := s]> priv)); [done..| | | |].
  - intros q cl c ->%elem_of_singleton. apply Hps.
  - intros q ->%elem_of_singleton. left. rewrite lookup_insert_eq. by eexists.
  - intros q Hq%not_elem_of_singleton. by rewrite lookup_insert_ne by congruence.
  - intros q ->%elem_of_singleton. by rewrite Hp.
Qed.

Lemma wp_ReleaseToSpans cl x mine priv st : 1 <= cl < ncl -> mine !! x = None ->
  Holds (<[x := cl]> mine) priv st ->
  wp (ReleaseToSpans sizemap others cl x) (fun _ st' => Holds mine priv st') st.
Proof.
  intros Hcl Hmx (out & HH). pose proof HH as [Hsub HI Hpv _ _].
  assert (out !! x = Some cl) as Hx by (eapply lookup_weaken; [apply lookup_insert_eq|done]).
  assert (mine ⊆ out) as Hm by (etrans; [by apply insert_subseteq|done]).
  destruct (ci_class _ _ _ HI cl ltac:(lia)) as (c & Hc & HK).
  pose proof (proj1 (k_busy _ _ _ _ _ HK x) (or_introl Hx)) as Hb.
  destruct (busy_span sizemap Hsm _ _ _ _ _ HK Hb) as (s & Hp & Hg & Hsl & Hn).
  unfold ReleaseToSpans. apply wp_bind, wp_get. cbn beta zeta.
  set (p := ph_GetDescriptor (pageheap st) (Z.shiftr x kPageShift)) in *.
  destruct (gd_use _ _ _ _ _ Hg) as [Hr Hloc]. apply wp_bind. eapply wp_central_span; [done|].
  apply wp_bind. eapply release_move; [done|done|done|done|done|]. intros e n Hmv.
  apply wp_bind. eapply wp_upd_list; [apply lookup_insert_eq|]. cbn [central_cache race_counter pageheap].
  rewrite insert_insert_eq. apply wp_bind, wp_in_heap. cbn [pageheap].
  apply wp_write_ref; [by apply HI|done|]. intros h1 Hwf1 HF1 Hu1 Hd1.
  cbn [central_cache race_counter].
  destruct (free_count _ _ _ _ _ Hg Hsl Hn) as [Hlt _]. pose proof (gd_ref _ _ _ _ _ Hg) as Href.
  destruct (so_class _ Hsm cl Hcl) as (Hsz & Hpg & _ & Hno & _).
  assert (u16 (refcount s - 1) = refcount s - 1) as -> by (unfold u16; rewrite Z.mod_small; lia).
  destruct (Z.eqb_spec (refcount s - 1) 0) as [Ez|Enz].
  - apply wp_bind. eapply wp_lift; [rewrite (gd_class _ _ _ _ _ Hg); apply aget_class; lia|].
    fold (csize sizemap cl). destruct (Z.eqb_spec (csize sizemap cl) 0); [lia|]. apply wp_bind, wp_ret.
    apply wp_bind. eapply wp_get_list; [apply lookup_insert_eq|].
    destruct (unlink_ok p (with_counts (num_spans_ c) (counter_ c + 1) (with_lists e n c)))
      as (e' & n' & Hul & HP & He & Hnn & _ & Hne); [| |].
    { unfold listed. cbn. rewrite (mv_perm _ _ _ _ Hmv). apply HK. }
    { apply elem_of_app. right. apply Hmv. }
    cbn [empty_ nonempty_ with_lists with_counts] in *. rewrite (Hne (mv_out _ _ _ _ Hmv)) in *.
    apply wp_bind. eapply wp_lift; [done|]. apply wp_bind, wp_put_list. cbn [central_cache race_counter pageheap].
    rewrite insert_insert_eq.
    assert (listed c ≡ₚ p :: e ++ n') as HPc by (rewrite <- (mv_perm _ _ _ _ Hmv); exact HP).
    assert (u64 (Z.shiftl (length_ s) kPageShift) / csize sizemap cl = nobj cl) as Enobj.
    { rewrite (gd_len _ _ _ _ _ Hg), shiftl_mul by clia. rewrite u64_small by clia. done. }
    rewrite Enobj. apply wp_bind.
    assert (priv !! p = None) as Hpp.
    { destruct (priv !! p) as [t|] eqn:Et; [|done]. by destruct (pv_off _ _ _ (Hpv p t Et) _ _ Hc). }
    eapply wp_mono; [apply (others_ok mine (<[p := mkOwned (set_refcount (refcount s - 1) s) (in_span (set_refcount (refcount s - 1) s)) nowhere]> priv))|].
    { match goal with |- Holds _ _ (mkCentral (<[_ := ?d]> _) _ _) => replace d with
        (with_counts (num_spans_ c - 1) (u64 (counter_ c + 1) - nobj cl) (with_lists e n' c)) end.
      - eapply (release_last out mine priv st cl x p c s); try done.
        + intros q Hq. by apply (mv_e _ _ _ _ Hmv).
        + intros q Hq. apply (mv_n _ _ _ _ Hmv); [by apply Hnn|]. intros ->.
          pose proof (k_nodup _ _ _ _ _ HK) as Hnd. rewrite HPc in Hnd. apply NoDup_cons in Hnd as [Hpn _].
          apply Hpn, elem_of_app. by right.
        + lia.
        + rewrite u64_sub_l. f_equal. lia.
      - unfold with_counts, with_lists. cbn. f_equal. by rewrite u64_sub_l. }
    intros [] st1 HH1. apply wp_bind. eapply wp_Delete_private; [done|done|].
    intros st2 HH2. by apply others_ok.
  - rewrite set_obj_ref_eq. apply wp_in_heap. cbn [pageheap central_cache race_counter].
    rewrite <- (set_ref_twice _ (refcount s - 1)).
    apply wp_write; [done|done|]. intros h2 Hwf2 HF2 Hu2 Hd2. rewrite set_ref_twice in Hu2.
    replace (num_spans_ (with_lists e n c)) with (num_spans_ c) by done.
    eapply (release_keep out mine priv st cl x p c s); try done.
    + by eapply ph_frame_trans.
    + split; intros pg; [rewrite (proj1 Hd2); apply Hd1|rewrite (proj2 Hd2); apply Hd1].
    + lia.
Qed.

Lemma wp_ReleaseListToSpans cl l mine priv st : 1 <= cl < ncl -> NoDup l ->
  (forall x, x ∈ l -> mine !! x = None) -> Holds (give cl l mine) priv st ->
  wp (ReleaseListToSpans sizemap others cl l) (fun _ st' => Holds mine priv st') st.
Proof.
  intros Hcl. unfold ReleaseListToSpans. revert st. induction l as [|x l IH]; intros st Hnd Hl HH; [by apply wp_ret|].
  apply NoDup_cons in Hnd as [Hx Hnd]. cbn [forM_]. apply wp_bind. eapply wp_mono; [apply (wp_ReleaseToSpans cl x (give cl l mine)); [done| |done]|].
  - rewrite lookup_give, decide_False by done. apply Hl. by left.
  - intros [] st' HH'. apply IH; [done| |done]. intros y Hy. apply Hl. by right.
Qed.

(** ** The transfer cache *)

Lemma Holds_list mine priv st cl : Holds mine priv st -> 0 <= cl < ncl ->
  exists c, central_cache st !! cl = Some c /\ size_class_ c = cl /\
    0 <= used_slots_ c <= cache_size_ c /\ cache_size_ c <= max_cache_size_ c <= kMaxNumTransferEntries.
Proof.
  intros (out & [_ HI _ _ _]) Hcl. destruct (ci_class _ _ _ HI cl Hcl) as (c & Hc & HK). exists c.
  split; [done|]. split; [apply HK|]. apply (k_slots _ _ _ _ _ HK).
Qed.

Lemma Holds_race r mine priv st : Holds mine priv st -> 0 <= r <= ncl ->
  Holds mine priv (mkCentral (central_cache st) r (pageheap st)).
Proof.
  intros (out & [Hm HI Hpv Hus Hre]) Hr. exists out. constructor; [done|by destruct HI; constructor| |done|done].
  intros q s Hq. destruct (Hpv q s Hq). by constructor.
Qed.

Lemma ph_frame_refl h : ph_frame ∅ h h.
Proof. constructor; auto. Qed.
Lemma ph_frame_mono X Y h h' : X ⊆ Y -> ph_frame X h h' -> ph_frame Y h h'.
Proof. intros HX [F1 F2 F3]. constructor; intros q s; [|intros pg..]; intros Hq; [apply F1|apply F2|apply F3]; set_solver. Qed.

Lemma class_of_list out st cl c : CInv out st -> central_cache st !! cl = Some c ->
  0 <= cl < ncl /\ class_inv (pageheap st) cl c (fun x => out !! x = Some cl).
Proof.
  intros HI Hc. pose proof (ci_dom _ _ _ HI _ _ Hc) as Hcl. split; [done|].
  destruct (ci_class _ _ _ HI cl Hcl) as (d & Hd & HK). by assert (d = c) as -> by congruence.
Qed.

(** A list with new slot fields, the same spans. *)
Lemma Holds_slots out out' mine mine' priv st cl c tc u k : held nowhere out mine priv st ->
  central_cache st !! cl = Some c ->
  class_inv (pageheap st) cl (with_slots tc u k c) (fun x => out' !! x = Some cl) ->
  (forall x cl', cl' <> cl -> out' !! x = Some cl' <-> out !! x = Some cl') -> mine' ⊆ out' -> out' ∖ mine' = out ∖ mine ->
  Holds mine' priv (mkCentral (<[cl := with_slots tc u k c]> (central_cache st)) (race_counter st) (pageheap st)).
Proof.
  intros HH Hc HK HO Hm Ed. eapply (Holds_update nowhere nowhere out out' mine mine' priv st cl c _ _ ∅); try done; [apply HH|apply ph_frame_refl].
Qed.

Lemma Holds_cache mine priv st cl c k : Holds mine priv st -> central_cache st !! cl = Some c ->
  used_slots_ c <= k <= max_cache_size_ c ->
  Holds mine priv (mkCentral (<[cl := with_slots (tc_slots_ c) (used_slots_ c) k c]> (central_cache st))
    (race_counter st) (pageheap st)).
Proof.
  intros (out & HH) Hc Hk. pose proof HH as [Hm HI _ _ _]. destruct (class_of_list _ _ _ _ HI Hc) as [Hcl HK].
  eapply (Holds_slots out out); try done. by apply class_inv_cache.
Qed.

Lemma Holds_pop mine priv st cl c k : Holds mine priv st -> central_cache st !! cl = Some c ->
  0 < used_slots_ c -> used_slots_ c - 1 <= k <= max_cache_size_ c ->
  exists ch, tc_slots_ c !! (used_slots_ c - 1) = Some ch /\ NoDup ch /\
    Z.of_nat (length ch) = cmove sizemap cl /\ (forall x, x ∈ ch -> mine !! x = None /\ 1 <= cl < ncl) /\
    Holds (give cl ch mine) priv (mkCentral (<[cl := with_slots (tc_slots_ c) (used_slots_ c - 1) k c]> (central_cache st))
      (race_counter st) (pageheap st)).
Proof.
  intros (out & HH) Hc Hu Hk. pose proof HH as [Hm HI Hpv _ _]. destruct (class_of_list _ _ _ _ HI Hc) as [Hcl HK].
  destruct (class_inv_pop _ _ _ _ _ k HK Hu Hk) as (ch & Hch & Hnd & Hlen & Htc & HK').
  assert (forall x, x ∈ ch -> 1 <= cl < ncl /\ forall v, out !! x <> Some v) as Hfree.
  { intros x Hx. pose proof (proj1 (k_busy _ _ _ _ _ HK x) (or_intror (Htc x Hx))) as Hb.
    destruct (busy_span sizemap Hsm _ _ _ _ _ HK Hb) as (s & Hp & Hg & Hsl & _). split; [apply Hg|].
    intros v Hv. assert (v = cl) as ->.
    { eapply (out_class sizemap Hsm); [done|done| |done]. destruct (gd_use _ _ _ _ _ Hg). eauto. }
    by apply (k_tc_out _ _ _ _ _ HK x (Htc x Hx)). }
  exists ch. do 3 (split; [done|]). split.
  { intros x Hx. destruct (Hfree x Hx) as [? Hf]. split; [|done]. destruct (mine !! x) as [v|] eqn:Ev; [|done].
    by destruct (Hf v); eapply lookup_weaken. }
  eapply (Holds_slots out (give cl ch out) mine); try done.
  - eapply class_inv_ext; [|done]. intros x. rewrite lookup_give. cbn beta. destruct (decide (x ∈ ch)); tauto.
  - intros x cl' Hne. rewrite lookup_give. destruct (decide (x ∈ ch)) as [Hx|]; [|done].
    split; [congruence|]. intros Hv. by destruct (proj2 (Hfree x Hx) _ Hv).
  - by apply give_mono.
  - apply rest_give. intros x v Hx. by apply Hfree.
Qed.

Lemma Holds_push mine priv st cl c l : Holds (give cl l mine) priv st -> central_cache st !! cl = Some c ->
  used_slots_ c < cache_size_ c -> NoDup l -> Z.of_nat (length l) = cmove sizemap cl ->
  (forall x, x ∈ l -> mine !! x = None) ->
  Holds mine priv (mkCentral (<[cl := with_slots (<[used_slots_ c := l]> (tc_slots_ c)) (used_slots_ c + 1) (cache_size_ c) c]>
    (central_cache st)) (race_counter st) (pageheap st)).
Proof.
  intros (out & HH) Hc Hu Hnd Hlen Hl. pose proof HH as [Hm HI Hpv _ _]. destruct (class_of_list _ _ _ _ HI Hc) as [Hcl HK].
  assert (forall x, x ∈ l -> out !! x = Some cl) as Hout.
  { intros x Hx. eapply lookup_weaken; [|done]. by rewrite lookup_give, decide_True. }
  eapply (Holds_slots out (filter (fun '(x, _) => x ∉ l) out) (give cl l mine)); try done.
  - eapply class_inv_ext; [|by apply class_inv_push]. intros x. cbn beta. by rewrite map_lookup_filter_Some.
  - intros x cl' Hne. rewrite map_lookup_filter_Some. split; [by intros [? _]|]. intros Hx. split; [done|].
    intros Hin. rewrite (Hout x Hin) in Hx. congruence.
  - apply map_subseteq_spec. intros x v Hx. apply map_lookup_filter_Some.
    assert (x ∉ l) as Hn by (intros Hin; rewrite (Hl x Hin) in Hx; done). split; [|done].
    eapply lookup_weaken; [|done]. by rewrite lookup_give, decide_False.
  - apply rest_take.
Qed.

Lemma wp_others mine priv (Q : unit -> central -> Prop) st : Holds mine priv st ->
  (forall st', Holds mine priv st' -> Q tt st') -> wp others Q st.
Proof. intros HH HQ. eapply wp_mono; [by apply others_ok|]. intros [] st'. apply HQ. Qed.

Lemma wp_ShrinkCache t force mine priv st : 0 <= t < ncl -> Holds mine priv st ->
  wp (ShrinkCache sizemap others t force) (fun _ st' => Holds mine priv st') st.
Proof.
  intros Ht HH. destruct (Holds_list _ _ _ _ HH Ht) as (c0 & Hc0 & _). unfold ShrinkCache.
  apply wp_bind. eapply wp_get_list; [done|]. destruct (cache_size_ c0 =? 0); [by apply wp_ret|].
  destruct (negb force && _); [by apply wp_ret|]. apply wp_bind. eapply wp_others; [done|]. intros st1 HH1.
  destruct (Holds_list _ _ _ _ HH1 Ht) as (c & Hc & _ & Hsl). apply wp_bind. eapply wp_get_list; [done|].
  apply wp_bind.
  assert (forall r st', Holds mine priv st' -> wp (_ ← others; mret (A := bool) r) (fun _ st' => Holds mine priv st') st') as Hend.
  { intros r st' HH'. apply wp_bind. eapply wp_others; [done|]. intros. by apply wp_ret. }
  destruct (Z.eqb_spec (cache_size_ c) 0); [apply wp_ret, Hend, HH1|].
  destruct (Z.eqb_spec (used_slots_ c) (cache_size_ c)) as [E|E].
  - destruct (negb force); [apply wp_ret, Hend, HH1|]. apply wp_bind, wp_put_list.
    destruct (Holds_pop mine priv st1 t c (cache_size_ c - 1)) as (ch & Hch & Hnd & _ & Hfr & HH2); [done|done|lia|lia|].
    apply wp_bind. eapply wp_lift; [by rewrite Hch|]. apply wp_bind. destruct ch as [|x ch].
    { apply wp_ret, wp_ret, Hend, HH2. }
    eapply wp_mono; [apply (wp_ReleaseListToSpans t (x :: ch) mine priv); [by apply (Hfr x); left|done| |done]|].
    + intros y Hy. by apply Hfr.
    + intros [] st' HH'. by apply wp_ret, Hend.
  - apply wp_bind, wp_put_list, wp_ret, Hend. apply Holds_cache; [done|done|lia].
Qed.

Lemma wp_EvictRandomSizeClass k force mine priv st : Holds mine priv st ->
  wp (EvictRandomSizeClass sizemap others k force) (fun _ st' => Holds mine priv st') st.
Proof.
  intros HH. pose proof HH as (out & [_ HI _ _ _]). pose proof (ci_race _ _ _ HI) as Hr. pose proof (so_num _ Hsm) as Hn.
  change kClassSizesMax with 128 in Hn. unfold EvictRandomSizeClass. apply wp_bind, wp_get. apply wp_bind, wp_mod.
  assert (forall t st', 0 <= t < ncl -> Holds mine priv st' ->
    wp (if t =? k then mret false else ShrinkCache sizemap others t force) (fun _ st' => Holds mine priv st') st') as Hend.
  { intros t st' Ht HH'. destruct (t =? k); [by apply wp_ret|]. by apply wp_ShrinkCache. }
  apply wp_bind. rewrite Z.geb_leb. destruct (Z.leb_spec ncl (race_counter st)).
  - assert (race_counter st = ncl) as -> by lia. apply wp_bind. eapply (wp_lift _ 0).
    { rewrite Z_div_same by lia. change (Z.to_nat (1 + 1)) with 2%nat. cbn [loop]. obind.
      rewrite Z.geb_leb, (proj2 (Z.leb_le ncl ncl)) by lia. rewrite Z.sub_diag. cbn [loop]. obind.
      rewrite Z.geb_leb, (proj2 (Z.leb_gt ncl 0)) by lia. done. }
    apply wp_bind, wp_mod, wp_ret. apply Hend; [lia|]. cbn. apply Holds_race; [done|lia].
  - apply wp_ret, Hend; [lia|]. rewrite s32_small by lia. apply Holds_race; [done|lia].
Qed.

Lemma wp_MakeCacheSpace cl mine priv st : 0 <= cl < ncl -> Holds mine priv st ->
  wp (MakeCacheSpace sizemap others cl) (fun r st' => Holds mine priv st' /\
    (r = true -> exists c, central_cache st' !! cl = Some c /\ used_slots_ c < cache_size_ c)) st.
Proof.
  intros Hcl HH. destruct (Holds_list _ _ _ _ HH Hcl) as (c & Hc & _ & Hsl). unfold MakeCacheSpace.
  apply wp_bind. eapply wp_get_list; [done|].
  destruct (Z.ltb_spec (used_slots_ c) (cache_size_ c)); [apply wp_ret; split; [done|eauto]|].
  destruct (_ =? _); [by apply wp_ret|]. apply wp_bind. eapply wp_mono; [by apply wp_EvictRandomSizeClass|].
  intros r st1 HH1. apply wp_bind. eapply (wp_mono _ (fun _ st' => Holds mine priv st')).
  { destruct r; [by apply wp_ret|by apply wp_EvictRandomSizeClass]. }
  clear r st1 HH1. intros r st1 HH1. destruct r; [|by apply wp_ret].
  destruct (Holds_list _ _ _ _ HH1 Hcl) as (d & Hd & _ & Hsd). apply wp_bind. eapply wp_get_list; [done|].
  destruct (Z.ltb_spec (cache_size_ d) (max_cache_size_ d)); [|by apply wp_ret].
  apply wp_bind, wp_put_list, wp_ret. split; [apply Holds_cache; [done|done|lia]|]. intros _.
  eexists. split; [apply lookup_insert_eq|]. cbn. unfold kMaxNumTransferEntries in *. rewrite !s32_small by lia. lia.
Qed.

Lemma wp_InsertRange cl l mine priv st : 1 <= cl < ncl -> NoDup l -> (forall x, x ∈ l -> mine !! x = None) ->
  Holds (give cl l mine) priv st ->
  wp (InsertRange sizemap others cl l (Z.of_nat (length l))) (fun _ st' => Holds mine priv st') st.
Proof.
  intros Hcl Hnd Hl HH. destruct (Holds_list _ _ _ cl HH ltac:(lia)) as (c & Hc & Ecl & Hsl). unfold InsertRange.
  apply wp_bind. eapply wp_get_list; [done|]. rewrite Ecl. apply wp_bind. eapply wp_lift; [apply aget_class; lia|].
  fold (cmove sizemap cl). apply wp_bind.
  eapply (wp_mono _ (fun r st' => Holds (give cl l mine) priv st' /\ (r = true -> Z.of_nat (length l) = cmove sizemap cl /\
    exists c, central_cache st' !! cl = Some c /\ used_slots_ c < cache_size_ c))).
  { destruct (Z.eqb_spec (Z.of_nat (length l)) (cmove sizemap cl)); [|by apply wp_ret].
    eapply wp_mono; [apply wp_MakeCacheSpace; [lia|done]|]. intros r st' [? Hr]. split; [done|]. intros Er. auto. }
  intros r st1 [HH1 Hr]. destruct r; [|by apply wp_ReleaseListToSpans].
  destruct (Hr eq_refl) as (Hlen & d & Hd & Hlt).
  destruct (Holds_list _ _ _ cl HH1 ltac:(lia)) as (d' & Hd' & _ & Hsd). assert (d' = d) as -> by congruence.
  apply wp_bind. eapply wp_get_list; [done|]. cbn beta zeta. apply wp_bind.
  rewrite (proj2 (Z.leb_le _ _)), (proj2 (Z.ltb_lt _ _)) by lia. apply wp_ret. apply wp_put_list.
  by apply Holds_push.
Qed.

(** ** Taking objects from a span *)

Lemma fetch_walk_ok N r l : l <> [] -> exists t rest, fetch_walk N r l = (t, rest) /\ l = t ++ rest /\ t <> [] /\
  Z.of_nat (length t) <= Z.max 1 (N - r).
Proof.
  revert r. induction l as [|x l IH]; intros r Hl; [done|]. cbn [fetch_walk]. destruct l as [|y l].
  - exists [x], []. split_and!; try done. cbn. lia.
  - destruct (Z.ltb_spec (r + 1) N) as [Hlt|Hge].
    + destruct (IH (r + 1) ltac:(done)) as (t & rest & -> & -> & Ht & Hlen). exists (x :: t), rest.
      split_and!; try done. cbn [length]. lia.
    + exists [x], (y :: l). split_and!; try done. cbn. lia.
Qed.

Lemma give_out out st cl c p s t : CInv out st -> central_cache st !! cl = Some c ->
  p ∈ listed c -> ph_read (pageheap st) p = Some s -> (forall x, x ∈ t -> x ∈ objects s) ->
  (forall x v, x ∈ t -> out !! x <> Some v) /\
  (forall x, x ∈ t -> x ∉ tc_objs c) /\
  (forall x cl', cl' <> cl -> give cl t out !! x = Some cl' <-> out !! x = Some cl').
Proof.
  intros HI Hc Hp Hr Ht. destruct (class_of_list _ _ _ _ HI Hc) as [Hcl HK].
  pose proof (listed_good _ _ _ _ _ _ _ HK Hp Hr) as Hg.
  assert (forall x, x ∈ t -> ~ busy sizemap (pageheap st) cl c x) as Hnb.
  { intros x Hx Hb. pose proof (gd_slots _ _ _ _ _ Hg x (Ht x Hx)) as Hsl.
    apply (busy_split sizemap Hsm _ _ _ _ p s x (ci_wf _ _ _ HI) HK Hp Hg) in Hb as [[_ Hn]|[Hn _]]; auto. }
  assert (forall x v, x ∈ t -> out !! x <> Some v) as H1.
  { intros x v Hx Hv. assert (v = cl) as ->.
    { eapply (out_class sizemap Hsm out st cl c x); [done|done| |done]. exists p, s.
      split; [done|]. split; [done|]. by apply (gd_slots _ _ _ _ _ Hg), Ht. }
    apply (Hnb x Hx). apply (k_busy _ _ _ _ _ HK). by left. }
  split; [done|]. split.
  - intros x Hx Htc. apply (Hnb x Hx), (k_busy _ _ _ _ _ HK). by right.
  - intros x cl' Hne. rewrite lookup_give. destruct (decide (x ∈ t)) as [Hx|]; [|done].
    split; [congruence|]. intros Hv. by destruct (H1 x cl' Hx).
Qed.

Lemma fetch_state F mine priv out st cl c p s t rest e n h1 cnt : held F out mine priv st ->
  (forall q, F q -> q = p) -> t <> [] -> central_cache st !! cl = Some c -> p ∈ listed c -> good (pageheap st) cl p s ->
  objects s = t ++ rest -> ph_wf h1 -> ph_frame {[p]} (pageheap st) h1 ->
  ph_inuse h1 p (set_refcount (refcount s + Z.of_nat (length t)) (set_objects rest s)) ->
  same_maps (pageheap st) h1 ->
  e ++ n ≡ₚ listed c -> (forall q, q ∈ e -> q <> p -> q ∈ empty_ c) -> (forall q, q ∈ n -> q <> p -> q ∈ nonempty_ c) ->
  (p ∈ e -> rest = []) -> (p ∈ n -> rest <> []) ->
  u64 cnt = u64 (counter_ c - Z.of_nat (length t)) ->
  Holds (give cl t mine) priv
    (mkCentral (<[cl := with_counts (num_spans_ c) cnt (with_lists e n c)]> (central_cache st)) (race_counter st) h1).
Proof.
  intros HH HFp Htn Hc Hp Hg Eo Hwf HF Hu Hgd HP He Hn Hpe Hpn Hcnt. pose proof HH as [Hm HI Hpv _ _].
  destruct (class_of_list _ _ _ _ HI Hc) as [Hcl HK]. destruct (gd_use _ _ _ _ _ Hg) as [Hr _].
  pose proof Hg as [_ ? Hrg ? Hgm Hgc Hnd Hgs Href]. rewrite Eo in Hnd, Hgs, Href.
  assert (forall x, x ∈ t -> x ∈ objects s) as Ht by (intros x Hx; rewrite Eo; apply elem_of_app; by left).
  destruct (give_out _ _ _ _ _ _ _ HI Hc Hp Hr Ht) as (Hfree & Htc & Hoth).
  apply NoDup_app in Hnd as (Hndt & Hdis & Hndr).
  destruct (so_class _ Hsm cl Hrg) as (_ & _ & _ & Hno & _).
  assert (Z.of_nat (length (objects s)) <= nobj cl) as Hlen.
  { assert (objects s ⊆+ all_slots s cl) as Hsub.
    { apply NoDup_submseteq; [apply Hg|]. intros y Hy. apply elem_all_slots. by apply (gd_slots _ _ _ _ _ Hg). }
    apply submseteq_length in Hsub. pose proof (length_all_slots s cl). lia. }
  rewrite Eo, length_app in Hlen. rewrite length_app in Href.
  apply (Holds_update F nowhere out (give cl t out) mine _ priv st cl c _ h1 {[p]}); try done.
  - by intros q ->%elem_of_singleton.
  - eapply (class_inv_span sizemap Hsm (pageheap st) h1 cl c e n cnt (fun x => out !! x = Some cl) _ p s
      (set_refcount (refcount s + Z.of_nat (length t)) (set_objects rest s))); try done; cbn [objects set_refcount set_objects].
    + by apply (ci_wf _ _ _ HI).
    + constructor; try done; cbn -[Z.of_nat length].
      * intros pg Hpg. rewrite (proj1 Hgd). by apply Hgm.
      * intros pg Hpg. rewrite (proj2 Hgd). by apply Hgc.
      * intros y Hy. apply Hgs, elem_of_app. by right.
      * unfold u16. rewrite Z.mod_small by lia. lia.
    + rewrite Hcnt, Eo, length_app. f_equal. lia.
    + intros y. rewrite lookup_give.
      assert (slot s cl y -> (out !! y = Some cl \/ y ∈ tc_objs c) <-> y ∉ objects s) as Hy.
      { intros Hsy. rewrite (k_busy _ _ _ _ _ HK y).
        rewrite (busy_split sizemap Hsm _ _ _ _ p s y (ci_wf _ _ _ HI) HK Hp Hg). tauto. }
      rewrite Eo, elem_of_app in Hy. pose proof (Hfree y cl) as Hfy. pose proof (Hdis y) as Hdy.
      assert (y ∈ t -> slot s cl y) as Hst by (intros Hyt; apply Hgs, elem_of_app; by left).
      destruct (decide (y ∈ t)).
      * split; [|by left]. intros _. right. split; [auto|]. auto.
      * assert (slot s cl y \/ ~ slot s cl y) as [Hs|Hs]
          by (rewrite <- elem_all_slots; destruct (decide (y ∈ all_slots s cl)); auto); tauto.
    + intros y Hy. rewrite lookup_give. destruct (decide (y ∈ t)) as [Hyt|]; [by apply Htc in Hyt|].
      by apply (k_tc_out _ _ _ _ _ HK y).
  - by apply give_mono.
  - by apply rest_give.
  - intros q ->%HFp. right. by apply elem_of_singleton.
  - intros q z ->%elem_of_singleton Hz E0. destruct Hu as [Hz' _]. assert (z = set_refcount (refcount s + Z.of_nat (length t)) (set_objects rest s)) as -> by congruence.
    cbn in E0. unfold u16 in E0. destruct t; [done|]. cbn [length] in *. rewrite Z.mod_small in E0 by lia. lia.
Qed.

Definition fetched (cl N : Z) mine priv (t : list Z) st' : Prop :=
  NoDup t /\ Z.of_nat (length t) <= N /\ (forall x, x ∈ t -> mine !! x = None) /\ Holds (give cl t mine) priv st'.

(** Before fetching, the first span with free objects may be entirely free. *)
Lemma wp_Fetch_first F cl N mine priv st : 1 <= cl < ncl -> 1 <= N -> Holding F mine priv st ->
  (forall c q, central_cache st !! cl = Some c -> F q -> head (nonempty_ c) = Some q) ->
  wp (FetchFromOneSpans cl N) (fetched cl N mine priv) st.
Proof.
  intros Hcl HN (out & HH) HFq. pose proof HH as [Hm HI Hpv Hus Hre]. destruct (ci_class _ _ _ HI cl ltac:(lia)) as (c & Hc & HK).
  unfold FetchFromOneSpans. apply wp_bind. eapply wp_get_list; [done|]. destruct (nonempty_ c) as [|p l] eqn:En.
  { apply wp_ret. split; [constructor|]. split; [cbn; lia|]. split; [by intros x ?%elem_of_nil|]. exists out. constructor; try done.
    intros cl' d q z Hd Hq Hz E0. pose proof (HFq c q Hc (Hus cl' d q z Hd Hq Hz E0)) as Ef. by rewrite En in Ef. }
  assert (p ∈ nonempty_ c) as Hpn by (rewrite En; left). pose proof (in_listed_nonempty c p Hpn) as Hp.
  destruct (k_good _ _ _ _ _ HK p Hp) as (s & Hg). destruct (gd_use _ _ _ _ _ Hg) as [Hr _].
  pose proof (k_nonempty _ _ _ _ _ HK p s Hr Hpn) as Hne. apply wp_bind. eapply wp_central_span; [done|].
  apply wp_bind. destruct (objects s) as [|y l'] eqn:Eo; [done|]. apply wp_ret. rewrite <- Eo.
  rewrite <- Eo in Hne. destruct (fetch_walk_ok N 0 (objects s) Hne) as (t & rest & -> & Et & Ht & Hlen).
  pose proof (k_nodup _ _ _ _ _ HK) as Hnd.
  assert (forall x, x ∈ t -> x ∈ objects s) as Hto by (intros x Hx; rewrite Et; apply elem_of_app; by left).
  destruct (give_out _ _ _ _ _ _ _ HI Hc Hp Hr Hto) as (Hfree & _ & _).
  apply wp_bind.
  eapply (wp_mono _ (fun _ st' => exists e n, st' = mkCentral (<[cl := with_lists e n c]> (central_cache st)) (race_counter st) (pageheap st) /\
    e ++ n ≡ₚ listed c /\ (forall q, q ∈ e -> q <> p -> q ∈ empty_ c) /\ (forall q, q ∈ n -> q <> p -> q ∈ nonempty_ c) /\
    (p ∈ e -> rest = []) /\ (p ∈ n -> rest <> []))).
  { assert (p ∉ empty_ c) as Hpe.
    { intros Hin. apply NoDup_app in Hnd as (_ & Hd & _). by apply (Hd p). }
    destruct rest as [|z rest].
    - apply wp_bind. destruct (unlink_ok p c Hnd Hp) as (e & n & Hul & HP & He & Hn & _ & Hee).
      rewrite (Hee Hpe) in *. eapply wp_lift; [done|]. apply wp_put_list. eexists _, _. split; [done|].
      cbn [empty_ nonempty_ with_lists]. split; [by rewrite HP|].
      rewrite HP in Hnd. apply NoDup_cons in Hnd as [Hpp _].
      split; [intros q [->|?]%elem_of_cons ?; done|]. split; [auto|]. split; [done|].
      intros Hin. destruct Hpp. apply elem_of_app. by right.
    - apply wp_ret. exists (empty_ c), (nonempty_ c). rewrite with_lists_id, insert_id by done. destruct st. done. }
  intros [] st1 (e & n & -> & HP & He & Hn & Hpe & Hpn'). cbn zeta. apply wp_bind, wp_in_heap.
  apply wp_write; [apply (ci_wf _ _ _ HI)|apply Hg|]. intros h1 Hwf1 HF1 Hu1 Hd1. cbn [central_cache race_counter pageheap].
  apply wp_bind. eapply wp_upd_list; [apply lookup_insert_eq|]. cbn [central_cache race_counter pageheap].
  rewrite insert_insert_eq. apply wp_ret. split.
  { pose proof (gd_nodup _ _ _ _ _ Hg) as Hno. rewrite Et in Hno. by apply NoDup_app in Hno as (? & _). }
  split; [lia|]. split.
  { intros x Hx. destruct (mine !! x) as [v|] eqn:Ev; [|done]. destruct (Hfree x v Hx). by eapply lookup_weaken. }
  eapply (fetch_state F mine priv out st cl c p s t rest e n h1); try done.
  intros q Hq. pose proof (HFq c q Hc Hq) as Ef. rewrite En in Ef. by injection Ef.
Qed.
Lemma wp_FetchFromOneSpans cl N mine priv st : 1 <= cl < ncl -> 1 <= N -> Holds mine priv st ->
  wp (FetchFromOneSpans cl N) (fetched cl N mine priv) st.
Proof. intros Hcl HN HH. by eapply wp_Fetch_first. Qed.

(** ** New spans *)

Lemma carve_objects_ok s cl : 1 <= cl < ncl -> 1 <= start s -> start s + cpages sizemap cl < 2 ^ 36 ->
  carve_objects (start s * kPageSize) (start s * kPageSize + cpages sizemap cl * kPageSize) (csize sizemap cl) =
    Ret (reverse (all_slots s cl)).
Proof.
  intros Hcl Hs He. destruct (so_class _ Hsm cl Hcl) as (Hsz & Hpg & _ & Hno & _).
  set (b := start s * kPageSize). set (sz := csize sizemap cl) in *.
  set (f := fun i => b + i * sz). unfold carve_objects.
  replace (b + cpages sizemap cl * kPageSize - b) with (cpages sizemap cl * kPageSize) by lia.
  change (cpages sizemap cl * kPageSize / sz) with (nobj cl).
  destruct (loop_count (carve_body sz (b + cpages sizemap cl * kPageSize))
    (fun k a => exists i, 0 <= i <= nobj cl /\ nobj cl - i = Z.of_nat k /\ a = (f i, reverse (f <$> seqZ 0 i)))
    (fun l => l = reverse (all_slots s cl))) with (n := Z.to_nat (nobj cl)) (fuel := Z.to_nat (nobj cl + 2)) (a := (b, @nil Z))
    as (l & -> & ->); [| | |done].
  - intros k a (i & Hi & Hk & ->). unfold carve_body.
    assert (0 <= i * sz /\ i * sz <= cpages sizemap cl * kPageSize) as [Hlo Hhi].
    { split; [nia|]. unfold CentralFreeListInv.nobj in Hi. fold sz in Hi.
      pose proof (Z.mul_div_le (cpages sizemap cl * kPageSize) sz ltac:(lia)). nia. }
    assert (u64 (f i + sz) = f (i + 1)) as Eu by (unfold f, b in *; rewrite u64_small; clia).
    rewrite Eu, (proj2 (Z.ltb_ge _ _)) by (unfold f; lia). cbn [orb]. rewrite Z.gtb_ltb.
    destruct (Z.ltb_spec (b + cpages sizemap cl * kPageSize) (f (i + 1))) as [Hgt|Hle]; eexists; (split; [done|]).
    + assert (i = nobj cl) as ->; [|done]. unfold f in Hgt. destruct (Z.eq_dec i (nobj cl)); [done|]. exfalso.
      pose proof (nobj_fits sizemap Hsm cl i Hcl ltac:(lia)). fold sz in H0. lia.
    + destruct k as [|k].
      { exfalso. assert (i = nobj cl) as -> by lia. unfold f in Hle.
        assert (nobj cl + 1 <= cpages sizemap cl * kPageSize / sz) as Hc by (apply Z.div_le_lower_bound; lia).
        change (cpages sizemap cl * kPageSize / sz) with (nobj cl) in Hc. lia. }
      exists k. split; [done|]. exists (i + 1). split; [lia|]. split; [lia|]. f_equal.
      rewrite (seqZ_app 0 i 1), fmap_app, reverse_app by lia. done.
  - exists 0. split; [lia|]. split; [lia|]. unfold f. f_equal. lia.
  - lia.
Qed.

(** A private span changed. *)
Lemma Holds_own p o o' mine priv st h' : priv !! p = None -> Holds mine (<[p := o]> priv) st -> ph_wf h' -> ph_frame {[p]} (pageheap st) h' ->
  private (mkCentral (central_cache st) (race_counter st) h') p o' ->
  Holds mine (<[p := o']> priv) (mkCentral (central_cache st) (race_counter st) h').
Proof using.
  intros Hp HH Hwf HF Ho. eapply (Holds_heap _ {[p]} mine (<[p := o]> priv)); [done..| | | |].
  - intros q cl c ->%elem_of_singleton. apply (Holds_private _ _ _ _ _ HH).
  - intros q ->%elem_of_singleton. left. rewrite lookup_insert_eq. by eexists.
  - intros q Hq%not_elem_of_singleton. by rewrite !lookup_insert_ne by congruence.
  - intros q ->%elem_of_singleton. by rewrite lookup_insert_eq.
Qed.
(** Changing the fields of a private span. *)
Lemma wp_write_private p s mp ca objs ref mine priv (Q : unit -> central -> Prop) st : priv !! p = None ->
  Holds mine (<[p := mkOwned s mp ca]> priv) st ->
  (forall st', Holds mine (<[p := mkOwned (set_refcount ref (set_objects objs s)) mp ca]> priv) st' -> Q tt st') ->
  wp (in_heap (ph_write p (set_refcount ref (set_objects objs s)))) Q st.
Proof.
  intros Hp HH HQ. pose proof (Holds_private _ _ _ _ _ HH) as Hps.
  apply wp_in_heap, wp_write; [by eapply Holds_wf|apply Hps|]. intros h' Hwf HF Hu Hd. apply HQ. eapply Holds_own; [done|done|done|done|].
  constructor; cbn; [done| | |apply Hps]; intros pg Hpg Hin.
  - rewrite (proj1 Hd). by apply (pv_map _ _ _ Hps).
  - rewrite (proj2 Hd). by apply (pv_cache _ _ _ Hps).
Qed.

(** Caching the class of one page of a private span. *)
Lemma wp_SetCached_private p s mp ca pg mine priv (Q : unit -> central -> Prop) st : priv !! p = None ->
  Holds mine (<[p := mkOwned s mp ca]> priv) st -> in_span s pg -> 1 <= sizeclass s < kClassSizesMax ->
  (forall st', Holds mine (<[p := mkOwned s mp (fun k => ca k \/ k = pg)]> priv) st' -> Q tt st') ->
  wp (in_heap (ph_SetCachedSizeClass pg (sizeclass s))) Q st.
Proof.
  intros Hp HH Hpg Hcl HQ. pose proof (Holds_private _ _ _ _ _ HH) as Hps. pose proof (pv_use _ _ _ Hps) as Hu.
  apply wp_in_heap. eapply wp_mono; [by apply (ph_SetCached_ok p s); [by eapply Holds_wf|..]|].
  intros [] h' (Hwf & HF & Huse & Hgd & Hnew & Hold). apply HQ. eapply Holds_own; [done|done|done|done|].
  constructor; cbn; [by apply Huse| | |apply Hps].
  - intros k Hk Hin. rewrite Hgd. by apply (pv_map _ _ _ Hps).
  - intros k Hk Hin. destruct (decide (k = pg)) as [->|Hne].
    + destruct Hnew as [-> | ->]; [left; split; [done|lia]|by right].
    + destruct Hk as [Hk|?]; [|done]. destruct (Hold k Hin Hne) as [-> | ->]; [|by right].
      by apply (pv_cache _ _ _ Hps).
Qed.

(** The loop over the pages of a new span. *)
Lemma wp_SetCached p s mp n cl (Q : unit -> central -> Prop) mine priv st : priv !! p = None -> sizeclass s = cl ->
  0 <= n -> length_ s = n -> 0 <= start s -> start s + n < 2 ^ 36 -> 1 <= cl < kClassSizesMax ->
  Holds mine (<[p := mkOwned s mp nowhere]> priv) st ->
  (forall st', Holds mine (<[p := mkOwned s mp (in_span s)]> priv) st' -> Q tt st') ->
  wp (forM_ (for_range 0 (n - 1) 1) (fun i : Z => in_heap (ph_SetCachedSizeClass (u64 (start s + i)) cl))) Q st.
Proof.
  intros Hp <- Hn Hlen Hs0 Hs1 Hcl HH HQ.
  assert (forall l ca st, (forall i, i ∈ l -> 0 <= i < n) -> (forall k, in_span s k -> ca k \/ k - start s ∈ l) ->
    Holds mine (<[p := mkOwned s mp ca]> priv) st ->
    wp (forM_ l (fun i : Z => in_heap (ph_SetCachedSizeClass (u64 (start s + i)) (sizeclass s)))) Q st) as Hgo.
  { induction l as [|i l IH]; intros ca st1 Hl Hca HH1.
    - apply wp_ret, HQ. pose proof (Holds_private _ _ _ _ _ HH1) as [? ? Hk ?]. destruct st1.
      eapply (Holds_own p _ _ mine priv _ _ Hp HH1); [apply (Holds_wf _ _ _ HH1)|eapply ph_frame_mono, ph_frame_refl; set_solver|]. constructor; try done. cbn in *.
      intros pg Hpg _. apply Hk; [|done]. destruct (Hca pg Hpg) as [|Hin]; [done|by apply elem_of_nil in Hin].
    - cbn [forM_]. apply wp_bind. assert (0 <= i < n) as Hi by (apply Hl; by left).
      rewrite u64_small by lia. eapply wp_SetCached_private; [done|done|unfold in_span; lia|done|].
      intros st2 HH2. eapply IH; [|intros k Hk|done].
      + intros j Hj. apply Hl. by right.
      + destruct (Hca k Hk) as [?|[Hk'|?]%elem_of_cons]; [by left; left| |by right].
        left. right. unfold in_span in Hk. lia. }
  apply (Hgo _ nowhere); [| |done].
  - intros i Hi%elem_of_for_range1. lia.
  - intros k Hk. right. apply elem_of_for_range1. unfold in_span in Hk. lia.
Qed.

(** A full private span goes on the non-empty list. *)
Lemma Holds_add cl p s mine priv st c : 1 <= cl < ncl -> priv !! p = None -> central_cache st !! cl = Some c ->
  Holds mine (<[p := mkOwned s (in_span s) (in_span s)]> priv) st -> sizeclass s = cl -> length_ s = cpages sizemap cl ->
  objects s = all_slots s cl -> refcount s = 0 ->
  Holding (eq p) mine priv (mkCentral (<[cl := with_counts (num_spans_ c + 1) (counter_ c + Z.of_nat (length (objects s)))
    (with_lists (empty_ c) (p :: nonempty_ c) c)]> (central_cache st)) (race_counter st) (pageheap st)).
Proof.
  intros Hcl Hp Hc HH Hsc Hlen Ho Href. pose proof (Holds_private _ _ _ _ _ HH) as Hps.
  destruct HH as (out & HH). pose proof HH as [Hm HI Hpv _ _].
  destruct (class_of_list _ _ _ _ HI Hc) as [_ HK]. destruct (so_class _ Hsm cl Hcl) as (_ & _ & _ & Hno & _).
  pose proof (length_all_slots s cl) as Hal.
  assert (forall q, q ∈ listed (with_counts (num_spans_ c + 1) (counter_ c + Z.of_nat (length (objects s)))
    (with_lists (empty_ c) (p :: nonempty_ c) c)) <-> q = p \/ q ∈ listed c) as Hlq.
  { intros q. unfold listed. cbn. by rewrite <- Permutation_middle, elem_of_cons. }
  pose proof (pv_off _ _ _ Hps _ _ Hc) as Hpc.
  exists out. apply (held_update nowhere (eq p) out out mine mine _ priv st cl c _ (pageheap st) ∅ HH); try done.
  - apply (ci_wf _ _ _ HI).
  - apply ph_frame_refl.
  - apply (class_inv_add sizemap); [done|apply (ci_wf _ _ _ HI)|done|by apply (pv_off _ _ _ Hps cl)| | |].
    + destruct Hps as [? Hmp Hca ?]. constructor; rewrite ?Ho; try done; [auto| |by apply NoDup_all_slots| |lia].
      * intros pg Hpg. destruct (Hca pg Hpg Hpg) as [[-> _]| ->]; [left; by f_equal|by right].
      * intros x. by rewrite elem_all_slots.
    + rewrite Ho. intros E. rewrite E in Hal. cbn in Hal. lia.
    + intros x. by rewrite Ho, elem_all_slots.
  - intros q Hq. rewrite Hlq in Hq. rewrite lookup_insert_ne; [done|]. intros <-. tauto.
  - intros q Hq Hn. rewrite Hlq in Hn. tauto.
  - intros q Hq [->|?]%Hlq; [|done]. rewrite lookup_insert_eq. by split; [eexists|].
  - intros q t [->|?]%Hlq [?%not_elem_of_empty|?]; done.
Qed.

Lemma wp_Populate cl mine priv st : 1 <= cl < ncl -> Holds mine priv st ->
  wp (Populate sizemap others cl) (fun _ st' => exists F, Holding F mine priv st' /\
    forall c q, central_cache st' !! cl = Some c -> F q -> head (nonempty_ c) = Some q) st.
Proof.
  intros Hcl HH. destruct (so_class _ Hsm cl Hcl) as (Hsz & Hpg & Hun & Hno & _).
  destruct (Holds_list _ _ _ cl HH ltac:(lia)) as (c & Hc & Ecl & _). unfold Populate.
  apply wp_bind. eapply wp_get_list; [done|]. rewrite Ecl. apply wp_bind. eapply wp_others; [done|].
  clear st HH c Hc Ecl. intros st HH. apply wp_bind. eapply wp_lift; [apply aget_class; lia|].
  fold (cpages sizemap cl). apply wp_bind, wp_in_heap. pose proof HH as (out & [Hm HI Hpv _ _]).
  eapply wp_mono; [apply (ph_New_ok (cpages sizemap cl) cl); [apply (ci_wf _ _ _ HI)|done|done|pose proof (so_num _ Hsm); lia]|].
  intros r h1 [Hwf1 [[-> HF1]|(Hr0 & HF1 & Hfr & s & Hu & Hlen & Hsc & _ & Hmap)]].
  { rewrite Z.eqb_refl. eapply wp_others; [by apply Holds_frame|]. intros st' HH'. by exists nowhere. }
  destruct (Z.eqb_spec r 0); [done|].
  assert (forall cl' d, central_cache st !! cl' = Some d -> r ∉ listed d) as Hoff.
  { intros cl' d Hd Hin. destruct (class_of_list _ _ _ _ HI Hd) as [_ HK].
    destruct (k_good _ _ _ _ _ HK r Hin) as (t & Ht). apply (Hfr t), Ht. }
  assert (priv !! r = None) as Hpr.
  { destruct (priv !! r) as [t|] eqn:Et; [|done]. destruct (Hfr (ow_span t)). apply (Hpv r t Et). }
  assert (Holds mine (<[r := mkOwned s (in_span s) nowhere]> priv) (mkCentral (central_cache st) (race_counter st) h1)) as HH1.
  { eapply (Holds_heap _ {[r]} mine priv); [done..| | | |].
    - intros q cl' d ->%elem_of_singleton. apply Hoff.
    - intros q ->%elem_of_singleton. by right.
    - intros q Hq%not_elem_of_singleton. by rewrite lookup_insert_ne by congruence.
    - intros q ->%elem_of_singleton. rewrite lookup_insert_eq. constructor; cbn; [done|intros pg _; apply Hmap|done|done]. }
  apply wp_bind. eapply wp_others; [done|]. intros st2 HH2. pose proof (Holds_private _ _ _ _ _ HH2) as Hps2.
  pose proof (ph_bounds _ _ _ (Holds_wf _ _ _ HH2) (pv_use _ _ _ Hps2)) as (_ & Hs1 & Hs2).
  cbn [ow_span] in Hs1, Hs2. rewrite Hlen in Hs2.
  apply wp_bind. eapply wp_central_span; [apply (pv_use _ _ _ Hps2)|]. apply wp_bind. pose proof (so_num _ Hsm) as Hnum. cbn [ow_span].
  apply (wp_SetCached r s (in_span s) (cpages sizemap cl) cl _ mine priv); [done|done|lia|done|lia|lia|clia|done|].
  intros st3 HH3. cbn beta zeta. rewrite !shiftl_mul by clia. change (2 ^ kPageShift) with kPageSize.
  rewrite (u64_small (start s * kPageSize)), (u64_small (cpages sizemap cl * kPageSize)),
    (u64_small (start s * kPageSize + cpages sizemap cl * kPageSize)) by clia.
  apply wp_bind. eapply wp_lift; [apply aget_class; lia|]. fold (csize sizemap cl).
  apply wp_bind. eapply wp_lift; [by apply carve_objects_ok|].
  apply wp_bind. eapply wp_central_span; [apply (pv_use _ _ _ (Holds_private _ _ _ _ _ HH3))|]. rewrite reverse_involutive.
  apply wp_bind. eapply wp_write_private; [done|done|]. intros st4 HH4. apply wp_bind. eapply wp_others; [done|].
  intros st5 HH5. destruct (Holds_list _ _ _ cl HH5 ltac:(lia)) as (d & Hd & _). eapply wp_upd_list; [done|].
  rewrite length_reverse. exists (eq r). split; [by eapply (Holds_add cl r (set_refcount 0 (set_objects (all_slots s cl) s)))|].
  cbn. intros c q. rewrite lookup_insert_eq. by intros [= <-] <-.
Qed.

Lemma wp_FetchFromOneSpansSafe cl N mine priv st : 1 <= cl < ncl -> 1 <= N -> Holds mine priv st ->
  wp (FetchFromOneSpansSafe sizemap others cl N) (fetched cl N mine priv) st.
Proof.
  intros Hcl HN HH. unfold FetchFromOneSpansSafe. apply wp_bind. eapply wp_mono; [by apply wp_FetchFromOneSpans|].
  intros [|x t] st1 Hf; [|by apply wp_ret]. destruct Hf as (_ & _ & _ & HH1). apply wp_bind.
  eapply wp_mono; [by apply wp_Populate|]. intros [] st2 (F & HH2 & HF). by eapply wp_Fetch_first.
Qed.

(** The loop that collects from several spans. *)
Lemma remove_loop cl N mine priv t st : 1 <= cl < ncl -> 1 <= N -> t <> [] -> fetched cl N mine priv t st ->
  wp (loopM (Z.to_nat N) (fun start =>
        let result := Z.of_nat (length start) in
        if result <? N then
          head ← FetchFromOneSpans cl (N - result);
          match head with
          | [] => mret (inr start)
          | _ => mret (inl (head ++ start))
          end
        else mret (inr start)) t) (fetched cl N mine priv) st.
Proof.
  intros Hcl HN Ht Hf. eapply (loopM_count _ (fun k l st => fetched cl N mine priv l st /\ N - Z.of_nat (length l) <= Z.of_nat k))
    with (n := Z.to_nat (N - 1)); [| |lia].
  - clear t Ht st Hf. intros k l st [Hf Hk]. cbn zeta. destruct (Z.ltb_spec (Z.of_nat (length l)) N) as [Hlt|]; [|by apply wp_ret].
    destruct Hf as (Hnd & Hlen & Hfr & HH). apply wp_bind.
    eapply wp_mono; [apply (wp_FetchFromOneSpans cl (N - Z.of_nat (length l))); [done|lia|done]|].
    intros [|y h] st' (Hnd' & Hlen' & Hfr' & HH'); apply wp_ret; [done|].
    exists (Nat.pred k). split; [lia|]. split; [|rewrite length_app; cbn [length]; lia].
    assert (forall z, z ∈ y :: h -> mine !! z = None /\ z ∉ l) as Hd.
    { intros z Hz. specialize (Hfr' z Hz). rewrite lookup_give in Hfr'. destruct (decide (z ∈ l)); done. }
    split; [|split; [rewrite length_app; lia|split; [|by rewrite give_app]]].
    + apply NoDup_app. split; [done|]. split; [|done]. intros z Hz. by apply Hd.
    + intros z [Hz|Hz]%elem_of_app; [by apply Hd|by apply Hfr].
  - split; [done|]. destruct t; [done|]. cbn [length]. lia.
Qed.

Lemma wp_RemoveRange cl N mine priv st : 1 <= cl < ncl -> 1 <= N -> Holds mine priv st ->
  wp (RemoveRange sizemap others cl N) (fetched cl N mine priv) st.
Proof.
  intros Hcl HN HH. destruct (Holds_list _ _ _ cl HH ltac:(lia)) as (c & Hc & Ecl & Hsl). unfold RemoveRange.
  apply wp_bind. eapply wp_get_list; [done|]. rewrite Ecl. apply wp_bind. eapply wp_lift; [apply aget_class; lia|].
  fold (cmove sizemap cl). rewrite Z.gtb_ltb. destruct ((N =? cmove sizemap cl) && (0 <? used_slots_ c)) eqn:E.
  - apply andb_true_iff in E as [E%Z.eqb_eq E'%Z.ltb_lt]. apply wp_bind, wp_put_list.
    destruct (Holds_pop mine priv st cl c (cache_size_ c)) as (ch & Hch & Hnd & Hlen & Hfr & HH2); [done|done|done|lia|].
    eapply wp_lift; [by rewrite Hch|]. split; [done|]. split; [lia|]. split; [|done]. intros x Hx. by apply Hfr.
  - clear E. apply wp_bind. eapply wp_mono; [by apply wp_FetchFromOneSpansSafe|]. intros [|x t] st1 Hf; [by apply wp_ret|].
    by apply remove_loop.
Qed.

(** ** The initial state *)

Lemma fresh_class_inv h cl cache mx : 0 <= cache -> cache <= mx <= kMaxNumTransferEntries ->
  class_inv h cl (mkCFL cl [] [] 0 0 ∅ 0 cache mx) (fun _ => False).
Proof.
  intros H1 H2. assert (forall x : Z, ~ x ∈ []) as Hnil by (intros x Hx; by apply elem_of_nil in Hx).
  constructor; cbn [empty_ nonempty_ used_slots_ cache_size_ max_cache_size_]; try done.
  - intros i Hi. exfalso. lia.
  - constructor.
  - intros p Hp. by apply Hnil in Hp.
  - intros p s _ Hp. by apply Hnil in Hp.
  - intros p s _ Hp. by apply Hnil in Hp.
  - intros x. split; [intros [[]|Hx]; by apply Hnil in Hx|]. intros (p & s & Hp & _). by apply Hnil in Hp.
  - constructor.
  - intros x Hx. by apply Hnil in Hx.
Qed.

Lemma Init_ok cl : 0 <= cl < ncl -> exists cache mx, Init sizemap cl = Ret (mkCFL cl [] [] 0 0 ∅ 0 cache mx) /\
  0 <= cache /\ cache <= mx <= kMaxNumTransferEntries.
Proof.
  intros Hcl. unfold Init. rewrite Z.gtb_ltb. destruct (Z.ltb_spec 0 cl).
  - destruct (so_class _ Hsm cl ltac:(lia)) as (Hsz & _ & _ & _ & Hmv).
    unfold ByteSizeForClass, num_objects_to_move. rewrite !aget_class by lia. obind.
    fold (csize sizemap cl) (cmove sizemap cl). rewrite !s32_small by lia.
    destruct (Z.eqb_spec (csize sizemap cl * cmove sizemap cl) 0); [nia|]. obind. eexists _, _. split; [done|].
    cbn [fst snd]. unfold kMaxNumTransferEntries. lia.
  - obind. eexists _, _. split; [done|]. cbn. unfold kMaxNumTransferEntries. lia.
Qed.

Lemma init_lists_ok h : ph_wf h ->
  exists m, init_lists sizemap = Ret m /\ CInv ∅ (mkCentral m 0 h) /\ forall cl c, m !! cl = Some c -> listed c = [].
Proof.
  intros Hwf.
  pose proof (so_num _ Hsm) as Hn. unfold init_lists.
  destruct (foldM_spec (fun m i => c ← Init sizemap i; Ret (<[i := c]> m))
    (fun pre (m : gmap Z CentralFreeList) => forall cl, match m !! cl with
       | Some c => cl ∈ pre /\ class_inv h cl c (fun _ => False) /\ listed c = []
       | None => cl ∉ pre end) (for_range 0 (ncl - 1) 1) ∅) as (m & -> & Hm).
  - intros pre x post m E Hpre. destruct (Init_ok x) as (cache & mx & -> & Hc1 & Hc2).
    { assert (x ∈ for_range 0 (ncl - 1) 1) as Hx by (rewrite E; apply elem_of_app; right; left).
      apply elem_of_for_range1 in Hx. lia. }
    obind. eexists. split; [done|]. intros cl. destruct (decide (cl = x)) as [->|Hne].
    + rewrite lookup_insert_eq. split; [apply elem_of_app; right; left|]. split; [by apply fresh_class_inv|done].
    + rewrite lookup_insert_ne by done. specialize (Hpre cl). destruct (m !! cl).
      * destruct Hpre. split; [apply elem_of_app; by left|done].
      * intros [?|?%list_elem_of_singleton]%elem_of_app; done.
  - intros cl. rewrite lookup_empty. by intros ?%elem_of_nil.
  - exists m. split; [done|]. split; [|intros cl c Hc; specialize (Hm cl); rewrite Hc in Hm; apply Hm].
    constructor; cbn; [done|lia| | |].
    + intros cl Hcl. specialize (Hm cl). destruct (m !! cl) as [c|].
      * exists c. split; [done|]. destruct Hm as (_ & HK & _). eapply class_inv_ext; [|done]. intros x. cbn beta.
        rewrite lookup_empty. split; [done|congruence].
      * destruct Hm. apply elem_of_for_range1. lia.
    + intros cl c Hc. specialize (Hm cl). rewrite Hc in Hm. destruct Hm as [Hin _]. apply elem_of_for_range1 in Hin. lia.
    + intros x cl Hx. by rewrite lookup_empty in Hx.
Qed.

(** ** Properties *)

(** The lists start consistent. After the size map is built,
    initialising the central lists succeeds (no division by zero, all
    indices in range) and with a well-formed page heap gives a state that
    meets the invariant with no object out. *)
Theorem central_init h (Hwf : ph_wf h) :
  exists m, init_lists sizemap = Ret m /\ CInv ∅ (mkCentral m 0 h).
Proof. destruct (init_lists_ok h Hwf) as (m & ? & ? & _). by exists m. Qed.

(** Objects never overlap. When the lists are consistent, two objects
    that are out occupy disjoint bytes, and each lies inside the pages of a
    span in use that carries the object's size class. *)
Theorem central_objects_disjoint out st x y cx cy (HI : CInv out st)
    (Hx : out !! x = Some cx) (Hy : out !! y = Some cy) (Hne : x <> y) :
  (x + csize sizemap cx <= y \/ y + csize sizemap cy <= x) /\
  exists s, ph_inuse (pageheap st) (ph_GetDescriptor (pageheap st) (Z.shiftr x kPageShift)) s /\ sizeclass s = cx /\
    start s * kPageSize <= x /\ x + csize sizemap cx <= (start s + length_ s) * kPageSize.
Proof.
  assert (forall z cz, out !! z = Some cz -> exists s, slot s cz z /\
    good (pageheap st) cz (ph_GetDescriptor (pageheap st) (Z.shiftr z kPageShift)) s /\
    start s * kPageSize <= z /\ z + csize sizemap cz <= (start s + length_ s) * kPageSize) as Hloc.
  { intros z cz Hz. destruct (ci_class _ _ _ HI cz (ci_range _ _ _ HI _ _ Hz)) as (c & Hc & HK).
    destruct (busy_span sizemap Hsm _ _ _ _ z HK) as (s & _ & Hg & Hsl & _); [apply (k_busy _ _ _ _ _ HK); by left|].
    exists s. split; [done|]. split; [done|]. destruct Hsl as (i & Hi & ->).
    destruct (nobj_fits sizemap Hsm cz i (gd_range _ _ _ _ _ Hg) Hi). rewrite (gd_len _ _ _ _ _ Hg). lia. }
  destruct (Hloc x cx Hx) as (s & Hsx & Hgx & Hlx & Hux), (Hloc y cy Hy) as (t & Hty & Hgy & Hly & Huy).
  split; [|by exists s; destruct Hgx].
  set (p := ph_GetDescriptor (pageheap st) (Z.shiftr x kPageShift)) in *.
  set (q := ph_GetDescriptor (pageheap st) (Z.shiftr y kPageShift)) in *.
  destruct (decide (p = q)) as [E|Hpq].
  - rewrite <- E in Hgy. destruct (good_unique _ _ _ _ _ _ _ Hgx Hgy) as [<- <-].
    destruct (so_class _ Hsm cx (gd_range _ _ _ _ _ Hgx)) as (Hsz & _).
    destruct Hsx as (i & Hi & ->), Hty as (j & Hj & ->). assert (i <> j) by congruence.
    destruct (Z.lt_total i j) as [?|[?|?]]; [left; nia|lia|right; nia].
  - destruct (so_class _ Hsm cx (gd_range _ _ _ _ _ Hgx)) as (Hsz & Hpg & _).
    destruct (so_class _ Hsm cy (gd_range _ _ _ _ _ Hgy)) as (Hsz' & Hpg' & _).
    pose proof (gd_len _ _ _ _ _ Hgx) as Lx. pose proof (gd_len _ _ _ _ _ Hgy) as Ly.
    assert (start s + length_ s <= start t \/ start t + length_ t <= start s) as Hd.
    { destruct (Z.le_gt_cases (start s + length_ s) (start t)) as [|H1]; [by left|].
      destruct (Z.le_gt_cases (start t + length_ t) (start s)) as [|H2]; [by right|]. exfalso. apply Hpq.
      apply (ph_disjoint (pageheap st) p q s t (Z.max (start s) (start t))); [apply (ci_wf _ _ _ HI)|apply Hgx|apply Hgy| |];
        unfold in_span; lia. }
    change kPageSize with 8192 in *. destruct Hd; [left|right]; lia.
Qed.

(** C12: [RemoveRange]. Under interference by threads that keep the
    invariant, it returns at most [N] distinct objects, none of which the
    caller already had; afterwards they are the caller's, and all the
    caller had before still is. Every loop ends and no descriptor or slot
    access is out of range. *)
Theorem RemoveRange_correct cl N mine priv st (Hcl : 1 <= cl < ncl) (HN : 1 <= N) (HH : Holds mine priv st) :
  wp (RemoveRange sizemap others cl N) (fun l st' => NoDup l /\ Z.of_nat (length l) <= N /\
    (forall x, x ∈ l -> mine !! x = None) /\ Holds (give cl l mine) priv st') st.
Proof. by apply wp_RemoveRange. Qed.

(** Everything that is not free is accounted for: the objects [mine] and
    those in transfer caches are all that are out, and a span in use is one
    of [priv] or on a list with an object that is out. *)
Definition settled mine (priv : gmap Z Owned) st : Prop := CInv mine st /\
  (forall p s, ph_inuse (pageheap st) p s -> is_Some (priv !! p) \/
     exists cl c, central_cache st !! cl = Some c /\ p ∈ listed c /\ sizeclass s = cl /\ refcount s <> 0).
(** So it is when nothing is in the hands of others. *)
Lemma Holds_nothing mine priv st : CentralFreeListInv.Holds (RS := nothing) sizemap mine priv st -> settled mine priv st.
Proof using.
  intros (out & [Hm HI Hpv Hus (S & HS & Ho & ->)]). assert (mine = out) as ->.
  { apply map_eq. intros x. destruct (mine !! x) as [v|] eqn:E; [by rewrite (lookup_weaken _ _ _ _ E Hm)|].
    assert ((out ∖ mine) !! x = None) as Ex by (by rewrite Ho). rewrite lookup_difference, E in Ex. done. }
  split; [done|]. intros p s Hp. destruct (priv !! p) as [o|] eqn:Eo; [by left; eexists|right].
  assert (~ outside priv st p) as Hn by (rewrite <- HS; apply not_elem_of_empty).
  destruct (decide (map_Forall (fun _ c => p ∉ listed c) (central_cache st))) as [Hx|(cl & c & Hc & Hin)%map_not_Forall]; [| |intros ? ?; apply _].
  - destruct Hn. split; [by exists s|]. split; [done|exact Hx].
  - apply dec_stable in Hin. exists cl, c. do 2 (split; [done|]). destruct (class_list_good _ _ _ _ _ _ HI Hc Hin) as (t & Ht).
    destruct Hp as [Hr _], (gd_use _ _ _ _ _ Ht) as [Hr' _]. assert (t = s) as -> by congruence.
    split; [apply Ht|]. intros E0. by apply (Hus cl c p s Hc Hin).
Qed.

(** C13: [InsertRange] takes a chain of the caller's objects of the class.
    Afterwards they are nobody's: what the caller does not hold among the
    objects that are out, and among the spans in use on no list, is what the
    others made of what they held, for every predicate [theirs] on it that
    they keep. With nobody else holding anything, each object of the chain
    is then free in its span or in a transfer cache, a span none of whose
    objects is out has left its list and gone back to the page heap, and
    every span in use is on a list or the caller's. Whatever the caller keeps
    stays the caller's and the lists stay consistent; the slot written is
    always inside the array. *)
Theorem InsertRange_correct cl l mine priv st (Hcl : 1 <= cl < ncl) (Hnd : NoDup l)
    (Hl : forall x, x ∈ l -> mine !! x = None) (HH : Holds (give cl l mine) priv st) :
  wp (InsertRange sizemap others cl l (Z.of_nat (length l)))
    (fun _ st' => Holds mine priv st' /\ (RS = nothing -> settled mine priv st')) st.
Proof.
  eapply wp_mono; [by apply wp_InsertRange|]. cbn beta. intros [] st' HH'. split; [done|]. intros E. apply Holds_nothing. by rewrite <- E.
Qed.


Lemma tc_objs_length h cl c O : class_inv h cl c O -> Z.of_nat (length (tc_objs c)) = used_slots_ c * cmove sizemap cl.
Proof.
  intros HK. unfold tc_objs. pose proof (k_slots _ _ _ _ _ HK) as [Hu _]. pose proof (k_tc _ _ _ _ _ HK) as Htc.
  assert (forall l, (forall i, i ∈ l -> 0 <= i < used_slots_ c) ->
    Z.of_nat (length (mjoin ((fun i => default [] (tc_slots_ c !! i)) <$> l))) = Z.of_nat (length l) * cmove sizemap cl) as Hj.
  { induction l as [|i l IH]; intros Hl; [done|]. destruct (Htc i) as (ch & Hch & Hlen); [apply Hl; by left|].
    rewrite fmap_cons, Hch. change (mjoin (default [] (Some ch) :: ?k)) with (ch ++ mjoin k).
    rewrite length_app, Nat2Z.inj_add, IH by (intros; apply Hl; by right). cbn [length]. lia. }
  rewrite Hj by (intros i ?%elem_of_seqZ; lia). by rewrite length_seqZ, Z2Nat.id by lia.
Qed.
(** The reported lengths are right. In a consistent state [length()] is
    the number of objects free in the spans of the class, and [tc_length()]
    the number of objects in its transfer cache, as [int]s. *)
Theorem central_lengths out st cl c (Hcl : 1 <= cl < ncl) (HI : CInv out st) (Hc : central_cache st !! cl = Some c) :
  length_of cl st = Ret (s32 (sumZ (nfree (pageheap st)) (listed c)), st) /\
  tc_length sizemap cl st = Ret (s32 (Z.of_nat (length (tc_objs c))), st).
Proof.
  destruct (class_of_list _ _ _ _ HI Hc) as [_ HK]. split.
  - unfold length_of, get_list, mbind, M_bind, getS, liftM. cbn. rewrite Hc. cbn.
    rewrite (k_counter _ _ _ _ _ HK). unfold mret, M_ret. do 2 f_equal. unfold s32, u64.
    destruct (u64_ex (sumZ (nfree (pageheap st)) (listed c))) as [k Hk]. unfold u64 in Hk. rewrite Hk. f_equal.
    replace (sumZ (nfree (pageheap st)) (listed c) + 2 ^ 64 * k + 2 ^ 31)
      with (sumZ (nfree (pageheap st)) (listed c) + 2 ^ 31 + (2 ^ 32 * k) * 2 ^ 32) by lia.
    apply Z_mod_plus_full.
  - unfold tc_length, num_objects_to_move, get_list, mbind, M_bind, getS, liftM. cbn. rewrite Hc. cbn.
    rewrite (k_class _ _ _ _ _ HK), aget_class by lia. fold (cmove sizemap cl). unfold mret, M_ret. do 3 f_equal.
    symmetry. by apply (tc_objs_length (pageheap st) cl c (fun x => out !! x = Some cl)).
Qed.
End Spec.

(** ** Concrete parameters for the witnesses

    A heap of one-page spans, the descriptor of a page being its number; a
    size map with one class of two objects per page; one span with one
    object out; no other threads. *)
Module ToySpans.
#[export] Instance heap : SpanHeap (gmap Z Span) := {|
  ph_NewWithSizeClass _ _ := mret 0;
  ph_Delete p := modS (delete p);
  ph_GetDescriptor h pg := if decide (is_Some (h !! pg)) then pg else 0;
  ph_SetCachedSizeClass _ _ := mret tt;
  ph_TryGetSizeClass _ _ := None;
  ph_read h p := h !! p;
  ph_write p s := modS (<[p := s]>);
  ph_unit := 1;
  ph_wf h := forall p s, h !! p = Some s -> start s = p /\ length_ s = 1 /\ 1 <= p < 2 ^ 35 |}.

Lemma frame_self X (h : gmap Z Span) : ph_frame X h h.
Proof. constructor; auto. Qed.

#[export] Instance laws : SpanHeapLaws (gmap Z Span).
Proof.
  constructor.
  - intros h p q s t pg Hwf [Hp _] [Hq _]. destruct (Hwf _ _ Hp) as (? & ? & _), (Hwf _ _ Hq) as (? & ? & _).
    unfold in_span. lia.
  - intros h p s Hwf [Hp _]. destruct (Hwf _ _ Hp) as (? & ? & ?). lia.
  - intros n sc h Hwf _ _ _. apply wp_ret. split; [done|]. left. split; [done|apply frame_self].
  - intros p s h Hwf [Hp Hl]. apply wp_mod. split; [|split].
    + intros q t (_ & Hq)%lookup_delete_Some. by apply Hwf.
    + constructor; unfold ph_inuse; cbn -[lookup delete].
      * intros q t Hq%not_elem_of_singleton. by rewrite lookup_delete_ne by congruence.
      * intros q t pg Hq%not_elem_of_singleton [Ht _] Hin. destruct (Hwf q t Ht) as (? & ? & _). unfold in_span in *.
        by rewrite lookup_delete_ne by lia.
      * by left.
    + intros t [Ht _]. cbn in Ht. by rewrite lookup_delete_eq in Ht.
  - intros p s pg cl h Hwf _ _ _. apply wp_ret. split; [done|]. split; [apply frame_self|]. split; [done|].
    split; [done|]. split; by right.
  - intros p s s' h Hwf [Hp Hl] Es El El'. apply wp_mod. destruct (Hwf _ _ Hp) as (? & ? & ?). split; [|split; [|split]].
    + intros q t. destruct (decide (q = p)) as [->|]; [rewrite lookup_insert_eq|rewrite lookup_insert_ne by done; apply Hwf].
      intros [= <-]. by rewrite Es, El.
    + constructor; unfold ph_inuse; cbn -[lookup insert].
      * intros q t Hq%not_elem_of_singleton. by rewrite lookup_insert_ne by congruence.
      * intros q t pg _ _ _. destruct (decide (pg = p)) as [->|]; [|by rewrite lookup_insert_ne].
        by rewrite lookup_insert_eq, !decide_True.
      * by left.
    + split; [apply lookup_insert_eq|done].
    + split; [|done]. intros pg. cbn -[lookup insert]. destruct (decide (pg = p)) as [->|]; [|by rewrite lookup_insert_ne].
      by rewrite lookup_insert_eq, !decide_True.
Qed.

Definition sm : SizeMap := mkSizeMap ∅ {[1 := 2]} {[1 := 2048]} {[1 := 1]} 1 2.
Definition no_others : M (Central (gmap Z Span)) unit := mret tt.
Definition span5 : Span := mkSpan 5 1 [45056; 47104] 2 1 IN_USE false false.
Definition state : Central (gmap Z Span) :=
  mkCentral (<[0 := mkCFL 0 [] [] 0 0 ∅ 0 16 64]> {[1 := mkCFL 1 [] [5] 1 2 ∅ 0 16 64]}) 0 {[5 := span5]}.

Lemma toy_map_ok : sizemap_ok (H := gmap Z Span) sm.
Proof.
  constructor; [done|]. cbn. intros cl Hcl. assert (cl = 1) as -> by lia.
  split_and!; done.
Qed.
Lemma slot5 x : slot sm span5 1 x <-> x = 40960 \/ x = 43008 \/ x = 45056 \/ x = 47104.
Proof.
  unfold slot. change (nobj sm 1) with 4. change (csize sm 1) with 2048. cbn [start span5]. change kPageSize with 8192. split.
  - intros (i & Hi & ->). lia.
  - intros [->|[->|[->| ->]]]; [exists 0|exists 1|exists 2|exists 3]; lia.
Qed.
Lemma read5 p s : ({[5 := span5]} : gmap Z Span) !! p = Some s <-> p = 5 /\ s = span5.
Proof. rewrite lookup_singleton_Some. naive_solver. Qed.
Lemma good5 : good sm {[5 := span5]} 1 5 span5.
Proof.
  constructor; try done.
  - intros pg Hpg. unfold in_span in Hpg. cbn in Hpg. assert (pg = 5) as -> by lia. done.
  - intros pg _. by right.
  - by apply (bool_decide_unpack _).
  - intros x. cbn [objects span5]. rewrite !elem_of_cons, elem_of_nil, slot5. tauto.
Qed.
Definition out : gmap Z Z := <[40960 := 1]> {[43008 := 1]}.
Lemma out_some x cl : out !! x = Some cl <-> (x = 40960 \/ x = 43008) /\ cl = 1.
Proof.
  unfold out. rewrite lookup_insert_Some, lookup_singleton_Some. split; [naive_solver|].
  intros [[->| ->] ->]; [by left|right; done].
Qed.
Lemma state_inv : CInv sm out state.
Proof.
  assert (forall x : Z, ~ x ∈ []) as Hnil by (intros x Hx; by apply elem_of_nil in Hx).
  constructor; cbn [central_cache race_counter pageheap state].
  - intros p s [-> ->]%read5. done.
  - done.
  - cbn. intros cl Hcl. assert (cl = 0 \/ cl = 1) as [->| ->] by lia.
    + eexists. split; [done|]. eapply class_inv_ext; [|apply fresh_class_inv; done]. intros x. cbn beta.
      rewrite out_some. split; [done|lia].
    + eexists. split; [done|]. constructor; try done; cbn [empty_ nonempty_ used_slots_ tc_slots_].
      * intros i Hi. exfalso. lia.
      * apply NoDup_singleton.
      * intros p Hp. apply list_elem_of_singleton in Hp as ->. exists span5. apply good5.
      * intros p s _ Hp. by apply Hnil in Hp.
      * intros p s [-> ->]%read5 _. done.
      * intros x. rewrite out_some. split.
        -- intros [[Hx _]|Hx]; [|by apply Hnil in Hx]. exists 5, span5. split; [by left|]. split; [done|].
           rewrite slot5. cbn [objects span5]. rewrite !elem_of_cons, elem_of_nil. lia.
        -- intros (p & s & _ & [-> ->]%read5 & Hs & Hn). left. apply slot5 in Hs. cbn [objects span5] in Hn.
           rewrite !elem_of_cons in Hn. split; [tauto|done].
      * constructor.
      * intros x Hx. by apply Hnil in Hx.
  - intros cl c. cbn. intros [[<- _]|[_ [<- _]%lookup_singleton_Some]]%lookup_insert_Some; lia.
  - intros x cl [_ ->]%out_some. cbn. lia.
Qed.
Lemma no_others_ok {RS : Rest} : forall mine priv st, Holds sm mine priv st -> wp no_others (fun _ st' => Holds sm mine priv st') st.
Proof. done. Qed.
(** The two objects are all that is out. *)
Lemma state_holds : Holds (RS := nothing) sm out ∅ state.
Proof.
  exists out. constructor; [done|apply state_inv|apply map_Forall_empty| |].
  - intros cl c p s _ _ Hs E0. cbn in Hs. apply read5 in Hs as [-> ->]. done.
  - exists ∅. split; [|split; [|done]].
    + intros p. split; [by intros ?%not_elem_of_empty|]. intros ((s & Hs & _) & _ & Hoff). cbn in Hs. apply read5 in Hs as [-> ->].
      destruct (Hoff 1 (mkCFL 1 [] [5] 1 2 ∅ 0 16 64)); [done|by left].
    + apply map_eq. intros x. rewrite lookup_difference. by destruct (out !! x).
Qed.
End ToySpans.
#[export] Existing Instance ToySpans.heap.
#[export] Existing Instance ToySpans.laws.

Lemma central_init_witness : exists m, init_lists ToySpans.sm = Ret m /\ CInv ToySpans.sm ∅ (mkCentral m 0 (∅ : gmap Z Span)).
Proof. apply (central_init ToySpans.sm ToySpans.toy_map_ok). done. Defined.

#[local] Existing Instance nothing.
Lemma RemoveRange_correct_witness : wp (RemoveRange ToySpans.sm ToySpans.no_others 1 2)
  (fun l _ => Z.of_nat (length l) <= 2 /\ 40960 ∉ l) ToySpans.state.
Proof.
  eapply wp_mono; [apply (RemoveRange_correct (SpanHeapLaws0 := ToySpans.laws) ToySpans.sm ToySpans.no_others ToySpans.toy_map_ok
    ToySpans.no_others_ok 1 2 ToySpans.out ∅); [done|done|apply ToySpans.state_holds]|].
  intros l st (_ & Hlen & Hf & _). split; [done|]. intros Hin. specialize (Hf 40960 Hin). done.
Defined.

(** The object that goes back is no longer out. *)
Lemma InsertRange_correct_witness : wp (InsertRange ToySpans.sm ToySpans.no_others 1 [40960] 1)
  (fun _ st' => Holds ToySpans.sm {[43008 := 1]} ∅ st' /\ settled ToySpans.sm {[43008 := 1]} ∅ st') ToySpans.state.
Proof.
  eapply wp_mono; [apply (InsertRange_correct (SpanHeapLaws0 := ToySpans.laws) ToySpans.sm ToySpans.no_others ToySpans.toy_map_ok
    ToySpans.no_others_ok 1 [40960] {[43008 := 1]} ∅); [done|apply NoDup_singleton|by intros x ->%list_elem_of_singleton|apply ToySpans.state_holds]|].
  intros [] st' [HH Hs]. split; [done|]. by apply Hs.
Defined.

Lemma central_objects_disjoint_witness : 40960 + 2048 <= 43008 \/ 43008 + 2048 <= 40960.
Proof.
  apply (central_objects_disjoint (SpanHeapLaws0 := ToySpans.laws) ToySpans.sm ToySpans.toy_map_ok ToySpans.out ToySpans.state 40960 43008 1 1 ToySpans.state_inv); done.
Defined.

Lemma central_lengths_witness : length_of 1 ToySpans.state = Ret (2, ToySpans.state).
Proof.
  refine (proj1 (central_lengths ToySpans.sm ToySpans.toy_map_ok ToySpans.out ToySpans.state 1 (mkCFL 1 [] [5] 1 2 ∅ 0 16 64) _ ToySpans.state_inv _)); done.
Defined.
