(* ===== verification/ThreadCache.v ===== *)
(** * Thread caches: state and operations

    Models src/src/src/thread_cache.h and thread_cache.cc for the 64-bit
    build with sampling. A cache is a record, its address a key of the map
    [heaps]; the caches are linked through [next_] and [prev_] as in the
    code. A free list keeps the list of its objects (LinkedList.v). The
    central lists and the allocator of cache objects are the interface
    [CentralCache]. Every operation is one step: a cache is used by its own
    thread, and what it shares is changed under the page-heap lock. *)
From S2P Require Import Prelude Common Sampler.
Import SizeMap.

(** ** What the caches ask of the layers below *)

Class CentralCache (C : Type) := {
  cc_RemoveRange : Z -> Z -> M C (list Z);
  cc_InsertRange : Z -> list Z -> Z -> M C unit;
  threadcache_allocator_New : M C Z;
  threadcache_allocator_Delete : Z -> M C unit;
  (** The cache objects in use. *)
  cc_live : C -> gset Z }.

(** ** Free lists of a cache *)

Record FreeList := mkFL {
  list_ : list Z;
  length_ : Z;
  lowater_ : Z;
  max_length_ : Z;
  length_overages_ : Z;
  object_size : Z }.

Module FL.
Definition Init (size : Z) : FreeList := mkFL [] 0 0 1 0 (s32 size).
Definition set_max_length (v : Z) (f : FreeList) : FreeList :=
  mkFL (list_ f) (length_ f) (lowater_ f) (u32 v) (length_overages_ f) (object_size f).
Definition set_length_overages (v : Z) (f : FreeList) : FreeList :=
  mkFL (list_ f) (length_ f) (lowater_ f) (max_length_ f) (u32 v) (object_size f).
Definition clear_lowwatermark (f : FreeList) : FreeList :=
  mkFL (list_ f) (length_ f) (length_ f) (max_length_ f) (length_overages_ f) (object_size f).
(** [length_ = n], then lower the low-water mark when the list got shorter. *)
Definition shrink (l : list Z) (n : Z) (f : FreeList) : FreeList :=
  mkFL l n (if n <? lowater_ f then n else lowater_ f) (max_length_ f) (length_overages_ f) (object_size f).

Definition Push (ptr : Z) (f : FreeList) : Z * FreeList :=
  let length := u32 (length_ f + 1) in
  (length, mkFL (ptr :: list_ f) length (lowater_ f) (max_length_ f) (length_overages_ f) (object_size f)).
Definition TryPop (f : FreeList) : option (Z * FreeList) :=
  match list_ f with
  | [] => None
  | rv :: l => Some (rv, shrink l (u32 (length_ f - 1)) f)
  end.
Definition PushRange (N : Z) (chain : list Z) (f : FreeList) : FreeList :=
  mkFL (chain ++ list_ f) (u32 (length_ f + N)) (lowater_ f) (max_length_ f) (length_overages_ f) (object_size f).
(** The walk needs [N] objects. *)
Definition PopRange (N : Z) (f : FreeList) : outcome (list Z * FreeList) :=
  if N =? 0 then Ret ([], shrink (list_ f) (u32 (length_ f - N)) f)
  else
    let k := Z.to_nat (Z.max 1 N) in
    if Z.of_nat (length (list_ f)) <? Z.of_nat k then Fault Undefined
    else Ret (take k (list_ f), shrink (drop k (list_ f)) (u32 (length_ f - N)) f).
End FL.

(** ** State *)

Record ThreadCache := mkTC {
  lists : gmap Z FreeList;
  size_ : Z;
  max_size_ : Z;
  sampler_ : Sampler.Sampler;
  next_ : Z;
  prev_ : Z }.

(** The static members and the objects. *)
Record Caches (C : Type) := mkCaches {
  heaps : gmap Z ThreadCache;
  thread_heaps_ : Z;
  thread_heap_count_ : Z;
  next_memory_steal_ : Z;
  min_per_thread_cache_size_ : Z;
  overall_thread_cache_size_ : Z;
  per_thread_cache_size_ : Z;
  unclaimed_cache_space_ : Z;
  central : C }.
Arguments mkCaches {C}. Arguments heaps {C}. Arguments thread_heaps_ {C}. Arguments thread_heap_count_ {C}.
Arguments next_memory_steal_ {C}. Arguments min_per_thread_cache_size_ {C}.
Arguments overall_thread_cache_size_ {C}. Arguments per_thread_cache_size_ {C}.
Arguments unclaimed_cache_space_ {C}. Arguments central {C}.

Module TC.
Section TC.
Context {C : Type} `{!CentralCache C}.
(** [Static::sizemap()], the sampling flag and step, the handler the
    caller passes for an exhausted heap. *)
Context (sizemap : SizeMap) (flag : Z) (draw : Z -> Z -> Z) (oom_handler : Z -> M (Caches C) Z).
Abbreviation caches := (Caches C).

Definition with_list (cl : Z) (f : FreeList) (t : ThreadCache) : ThreadCache :=
  mkTC (<[cl := f]> (lists t)) (size_ t) (max_size_ t) (sampler_ t) (next_ t) (prev_ t).
Definition add_size (d : Z) (t : ThreadCache) : ThreadCache :=
  mkTC (lists t) (s32 (size_ t + d)) (max_size_ t) (sampler_ t) (next_ t) (prev_ t).
Definition SetMaxSize (v : Z) (t : ThreadCache) : ThreadCache :=
  mkTC (lists t) (size_ t) (s32 v) (sampler_ t) (next_ t) (prev_ t).
Definition with_sampler (v : Sampler.Sampler) (t : ThreadCache) : ThreadCache :=
  mkTC (lists t) (size_ t) (max_size_ t) v (next_ t) (prev_ t).
Definition with_next (v : Z) (t : ThreadCache) : ThreadCache :=
  mkTC (lists t) (size_ t) (max_size_ t) (sampler_ t) v (prev_ t).
Definition with_prev (v : Z) (t : ThreadCache) : ThreadCache :=
  mkTC (lists t) (size_ t) (max_size_ t) (sampler_ t) (next_ t) v.

Definition with_heaps (v : gmap Z ThreadCache) (st : caches) : caches :=
  mkCaches v (thread_heaps_ st) (thread_heap_count_ st) (next_memory_steal_ st) (min_per_thread_cache_size_ st)
    (overall_thread_cache_size_ st) (per_thread_cache_size_ st) (unclaimed_cache_space_ st) (central st).
Definition with_central (v : C) (st : caches) : caches :=
  mkCaches (heaps st) (thread_heaps_ st) (thread_heap_count_ st) (next_memory_steal_ st) (min_per_thread_cache_size_ st)
    (overall_thread_cache_size_ st) (per_thread_cache_size_ st) (unclaimed_cache_space_ st) v.
Definition with_steal (v : Z) (st : caches) : caches :=
  mkCaches (heaps st) (thread_heaps_ st) (thread_heap_count_ st) v (min_per_thread_cache_size_ st)
    (overall_thread_cache_size_ st) (per_thread_cache_size_ st) (unclaimed_cache_space_ st) (central st).
Definition with_unclaimed (v : Z) (st : caches) : caches :=
  mkCaches (heaps st) (thread_heaps_ st) (thread_heap_count_ st) (next_memory_steal_ st) (min_per_thread_cache_size_ st)
    (overall_thread_cache_size_ st) (per_thread_cache_size_ st) (s64 v) (central st).
Definition with_threads (head count : Z) (st : caches) : caches :=
  mkCaches (heaps st) head (s32 count) (next_memory_steal_ st) (min_per_thread_cache_size_ st)
    (overall_thread_cache_size_ st) (per_thread_cache_size_ st) (unclaimed_cache_space_ st) (central st).
Definition with_sizes (mn overall per : Z) (st : caches) : caches :=
  mkCaches (heaps st) (thread_heaps_ st) (thread_heap_count_ st) (next_memory_steal_ st) mn
    overall per (unclaimed_cache_space_ st) (central st).

Definition get_tc (t : Z) : M caches ThreadCache := st ← getS; liftM (deref (heaps st !! t)).
Definition put_tc (t : Z) (v : ThreadCache) : M caches unit := modS (fun st => with_heaps (<[t := v]> (heaps st)) st).
Definition upd_tc (t : Z) (f : ThreadCache -> ThreadCache) : M caches unit := v ← get_tc t; put_tc t (f v).
Definition get_fl (t cl : Z) : M caches FreeList := v ← get_tc t; liftM (deref (lists v !! cl)).
Definition put_fl (t cl : Z) (f : FreeList) : M caches unit := upd_tc t (with_list cl f).
Definition in_central {A} (m : M C A) : M caches A := fun st =>
  match m (central st) with Ret (a, c) => Ret (a, with_central c st) | Fault f => Fault f end.

(** ** Limits *)

(** One turn of the search for a cache to steal from; [inr] ends it. *)
Definition steal_step (this : Z) (_ : unit) : M caches (unit + unit) :=
  st ← getS;
  _ ← (if next_memory_steal_ st =? 0 then modS (with_steal (thread_heaps_ st)) else mret tt);
  st ← getS;
  let victim := next_memory_steal_ st in
  v ← get_tc victim;
  if (victim =? this) || (u64 (max_size_ v) <=? min_per_thread_cache_size_ st) then
    _ ← modS (with_steal (next_ v)); mret (inl tt)
  else
    _ ← put_tc victim (SetMaxSize (max_size_ v - kStealAmount) v);
    _ ← upd_tc this (fun t => SetMaxSize (max_size_ t + kStealAmount) t);
    _ ← modS (with_steal (next_ v));
    mret (inr tt).

Fixpoint steal_loop (this : Z) (i : nat) : M caches unit :=
  match i with
  | O => mret tt
  | S i => r ← steal_step this tt; match r with inl _ => steal_loop this i | inr _ => mret tt end
  end.

Definition IncreaseCacheLimitLocked (this : Z) : M caches unit :=
  st ← getS;
  if unclaimed_cache_space_ st >? 0 then
    _ ← modS (with_unclaimed (unclaimed_cache_space_ st - kStealAmount));
    upd_tc this (fun t => SetMaxSize (max_size_ t + kStealAmount) t)
  else steal_loop this 10.
Definition IncreaseCacheLimit (this : Z) : M caches unit := IncreaseCacheLimitLocked this.

(** ** Moving objects *)

Definition release_body (t cl batch_size : Z) (N : Z) : M caches (Z + Z) :=
  if N >? batch_size then
    f ← get_fl t cl;
    r ← liftM (FL.PopRange batch_size f);
    _ ← put_fl t cl (snd r);
    _ ← in_central (cc_InsertRange cl (fst r) batch_size);
    mret (inl (N - batch_size))
  else mret (inr N).

Definition ReleaseToCentralCache (t cl N : Z) : M caches unit :=
  f ← get_fl t cl;
  let N := if N >? length_ f then length_ f else N in
  bytes ← liftM (ByteSizeForClass sizemap cl);
  let delta_bytes := u64 (N * bytes) in
  batch_size ← liftM (num_objects_to_move sizemap cl);
  N ← loopM (Z.to_nat N + 1) (release_body t cl batch_size) N;
  f ← get_fl t cl;
  r ← liftM (FL.PopRange N f);
  _ ← put_fl t cl (snd r);
  _ ← in_central (cc_InsertRange cl (fst r) N);
  upd_tc t (add_size (- delta_bytes)).

Definition scavenge_class (t cl : Z) : M caches unit :=
  f ← get_fl t cl;
  let lowmark := s32 (lowater_ f) in
  _ ← (if lowmark >? 0 then
         let drop := if lowmark >? 1 then lowmark / 2 else 1 in
         _ ← ReleaseToCentralCache t cl drop;
         batch_size ← liftM (num_objects_to_move sizemap cl);
         f ← get_fl t cl;
         if max_length_ f >? batch_size
         then put_fl t cl (FL.set_max_length (Z.max (max_length_ f - batch_size) batch_size) f)
         else mret tt
       else mret tt);
  f ← get_fl t cl;
  put_fl t cl (FL.clear_lowwatermark f).

Definition Scavenge (t : Z) : M caches unit :=
  _ ← forM_ (for_range 0 (num_size_classes sizemap - 1) 1) (scavenge_class t);
  IncreaseCacheLimit t.

Definition FetchFromCentralCache (t cl byte_size : Z) : M caches Z :=
  f ← get_fl t cl;
  batch_size ← liftM (num_objects_to_move sizemap cl);
  let num_to_move := Z.min (s32 (max_length_ f)) batch_size in
  chain ← in_central (cc_RemoveRange cl num_to_move);
  match chain with
  | [] => oom_handler (u64 byte_size)
  | start :: rest =>
      let fetch_count := Z.of_nat (length rest) in
      _ ← upd_tc t (add_size (s32 byte_size * fetch_count));
      f ← get_fl t cl;
      let f := FL.PushRange fetch_count rest f in
      _ ← put_fl t cl
        (if max_length_ f <? batch_size then FL.set_max_length (max_length_ f + 1) f
         else
           let new_length := Z.min (s32 (max_length_ f + batch_size)) kMaxDynamicFreeListLength in
           FL.set_max_length (new_length - Z.rem new_length batch_size) f);
      mret start
  end.

Definition ListTooLong (t cl : Z) : M caches unit :=
  f ← get_fl t cl;
  _ ← upd_tc t (add_size (object_size f));
  batch_size ← liftM (num_objects_to_move sizemap cl);
  _ ← ReleaseToCentralCache t cl batch_size;
  f ← get_fl t cl;
  _ ← (if max_length_ f <? batch_size then put_fl t cl (FL.set_max_length (max_length_ f + 1) f)
       else if max_length_ f >? batch_size then
         let f := FL.set_length_overages (length_overages_ f + 1) f in
         put_fl t cl (if length_overages_ f >? kMaxOverages
                      then FL.set_length_overages 0 (FL.set_max_length (max_length_ f - batch_size) f)
                      else f)
       else mret tt);
  v ← get_tc t;
  if size_ v >? max_size_ v then Scavenge t else mret tt.

Definition Allocate (t size cl : Z) : M caches Z :=
  f ← get_fl t cl;
  match FL.TryPop f with
  | None => FetchFromCentralCache t cl size
  | Some (rv, f) =>
      _ ← put_fl t cl f;
      _ ← upd_tc t (add_size (- size));
      mret rv
  end.

Definition Deallocate (t ptr cl : Z) : M caches unit :=
  f ← get_fl t cl;
  let '(length, f) := FL.Push ptr f in
  _ ← put_fl t cl f;
  if length >? max_length_ f then ListTooLong t cl
  else
    _ ← upd_tc t (add_size (object_size f));
    v ← get_tc t;
    if size_ v >? max_size_ v then Scavenge t else mret tt.

(** ** Sampling *)

Definition SampleAllocation (t k : Z) : M caches bool :=
  v ← get_tc t;
  let '(ok, s) := Sampler.RecordAllocation flag draw t k (sampler_ v) in
  _ ← put_tc t (with_sampler s v);
  mret (negb ok).
Definition TryRecordAllocationFast (t k : Z) : M caches bool :=
  v ← get_tc t;
  let '(ok, s) := Sampler.TryRecordAllocationFast k (sampler_ v) in
  _ ← put_tc t (with_sampler s v);
  mret ok.

(** ** Caches come and go *)

(** The constructor at address [this]; [seed] is the address of its local. *)
Definition construct (this seed : Z) : M caches unit :=
  _ ← put_tc this (mkTC ∅ 0 0 (Sampler.mkSampler 0 0 false) 0 0);
  _ ← IncreaseCacheLimitLocked this;
  v ← get_tc this;
  _ ← (if max_size_ v =? 0 then
         st ← getS;
         let min_size := min_per_thread_cache_size_ st in
         _ ← put_tc this (SetMaxSize min_size v);
         modS (with_unclaimed (unclaimed_cache_space_ st - min_size))
       else mret tt);
  _ ← forM_ (for_range 0 (num_size_classes sizemap - 1) 1) (fun cl =>
        size ← liftM (class_to_size sizemap cl);
        put_fl this cl (FL.Init size));
  upd_tc this (fun v => with_sampler (Sampler.Init flag draw seed (sampler_ v)) (with_prev 0 (with_next 0 v))).

Definition NewHeap (seed : Z) : M caches Z :=
  heap ← in_central threadcache_allocator_New;
  _ ← construct heap seed;
  st ← getS;
  _ ← upd_tc heap (fun v => with_prev 0 (with_next (thread_heaps_ st) v));
  _ ← (if negb (thread_heaps_ st =? 0) then upd_tc (thread_heaps_ st) (with_prev heap)
       else modS (with_steal heap));
  _ ← modS (with_threads heap (thread_heap_count_ st + 1));
  mret heap.

Definition destruct_ (t : Z) : M caches unit :=
  forM_ (for_range 0 (num_size_classes sizemap - 1) 1) (fun cl =>
    f ← get_fl t cl;
    if length_ f >? 0 then ReleaseToCentralCache t cl (s32 (length_ f)) else mret tt).

Definition DeleteCache (heap : Z) : M caches unit :=
  _ ← destruct_ heap;
  v ← get_tc heap;
  _ ← (if negb (next_ v =? 0) then upd_tc (next_ v) (with_prev (prev_ v)) else mret tt);
  _ ← (if negb (prev_ v =? 0) then upd_tc (prev_ v) (with_next (next_ v)) else mret tt);
  st ← getS;
  _ ← modS (with_threads (if thread_heaps_ st =? heap then next_ v else thread_heaps_ st) (thread_heap_count_ st - 1));
  st ← getS;
  let steal := if next_memory_steal_ st =? heap then next_ v else next_memory_steal_ st in
  _ ← modS (with_steal (if steal =? 0 then thread_heaps_ st else steal));
  _ ← modS (with_unclaimed (unclaimed_cache_space_ st + max_size_ v));
  _ ← in_central (threadcache_allocator_Delete heap);
  modS (fun st => with_heaps (delete heap (heaps st)) st).

(** ** Configuration *)

Definition d_one : double := d_of_Z 1.

(** The loop over the linked list: the claimed bytes. *)
Definition recompute_body (ratio : double) (a : Z * Z) : M caches (Z * Z + Z) :=
  let '(h, claimed) := a in
  if h =? 0 then mret (inr claimed) else
  v ← get_tc h;
  m ← (if d_ltb ratio d_one
       then liftM (deref (d_trunc (d_mul (d_of_Z (max_size_ v)) ratio)))
       else mret (max_size_ v));
  let v := if d_ltb ratio d_one then SetMaxSize m v else v in
  _ ← put_tc h v;
  mret (inl (next_ v, u64 (claimed + max_size_ v))).

Definition RecomputePerThreadCacheSize : M caches unit :=
  st ← getS;
  let n := if thread_heap_count_ st >? 0 then thread_heap_count_ st else 1 in
  let space := overall_thread_cache_size_ st / n in
  let min_size := min_per_thread_cache_size_ st in
  let space := if space <? min_size then min_size else space in
  let space := if space >? kMaxThreadCacheSize then kMaxThreadCacheSize else space in
  let per := d_of_Z (per_thread_cache_size_ st) in
  let ratio := d_div (d_of_Z space) (if d_ltb d_one per then per else d_one) in
  claimed ← loopM (S (size (heaps st))) (recompute_body ratio) (thread_heaps_ st, 0);
  st ← getS;
  _ ← modS (with_unclaimed (overall_thread_cache_size_ st - claimed));
  modS (with_sizes (min_per_thread_cache_size_ st) (overall_thread_cache_size_ st) space).

Definition set_overall_thread_cache_size (new_size : Z) : M caches unit :=
  st ← getS;
  let min_size := min_per_thread_cache_size_ st in
  let new_size := if new_size <? min_size then min_size else new_size in
  let new_size := if new_size >? Z.shiftl 1 30 then Z.shiftl 1 30 else new_size in
  _ ← modS (with_sizes min_size new_size (per_thread_cache_size_ st));
  RecomputePerThreadCacheSize.

Definition set_min_per_thread_cache_size (new_size : Z) : M caches unit :=
  modS (fun st => with_sizes new_size (overall_thread_cache_size_ st) (per_thread_cache_size_ st) st).

(** Adds to the total bytes, and to [class_count] where it is not null; the
    walk over the linked list. *)
Definition freelist_length (v : ThreadCache) (cl : Z) : outcome Z := f ← deref (lists v !! cl); Ret (s32 (length_ f)).
Definition count_lists (v : ThreadCache) (class_count : list Z) : outcome (list Z) :=
  foldM (fun counts cl => n ← freelist_length v cl; c ← deref (counts !! Z.to_nat cl); Ret (<[Z.to_nat cl := u64 (c + n)]> counts))
    (for_range 0 (num_size_classes sizemap - 1) 1) class_count.
Definition thread_stats_step (a : Z * Z * option (list Z)) : M caches ((Z * Z * option (list Z)) + (Z * option (list Z))) :=
  let '(h, total, counts) := a in
  if h =? 0 then mret (inr (total, counts)) else
  v ← get_tc h;
  counts ← match counts with
           | Some l => l ← liftM (count_lists v l); mret (Some l)
           | None => mret None
           end;
  mret (inl (next_ v, u64 (total + u64 (size_ v)), counts)).
Definition GetThreadStats (total_bytes : Z) (class_count : option (list Z)) : M caches (Z * option (list Z)) :=
  st ← getS;
  loopM (S (size (heaps st))) thread_stats_step (thread_heaps_ st, total_bytes, class_count).

(** The static members before any call. *)
Definition init (c : C) : caches :=
  mkCaches ∅ 0 0 0 kMinThreadCacheSize kDefaultOverallThreadCacheSize kMaxThreadCacheSize
    kDefaultOverallThreadCacheSize c.
End TC.
End TC.
