(* ===== verification/ThreadCacheSpec.v ===== *)
(** * Properties of the thread caches

    Every object is in one place: with a user, in one list of one cache, or
    below in the central lists. The caches' lists, lengths and byte counts
    agree, and the linked list of caches is intact. *)
From S2P Require Import Prelude Common Sampler ThreadCache.
Import SizeMap TC.

Section Spec.
Context {C : Type} `{!CentralCache C}.
Context (sizemap : SizeMap).
(** The state below is consistent, and the objects of the map, each with its
    class, are out and belong to the caches and their users. *)
Context (cc_holds : gmap Z Z -> C -> Prop).
Abbreviation caches := (Caches C).
Abbreviation ncl := (num_size_classes sizemap).
Implicit Types (st : caches) (u : gmap Z Z) (v : ThreadCache) (f : FreeList).

Definition bytes_of_class (cl : Z) : Z := ent (class_to_size_ sizemap) cl.
Definition move_of_class (cl : Z) : Z := ent (num_objects_to_move_ sizemap) cl.

(** What the caches need of the size map. *)
Record tc_sizemap_ok : Prop := {
  ts_num : 1 < ncl <= kClassSizesMax;
  ts_zero : bytes_of_class 0 = 0;
  ts_class : forall cl, 1 <= cl < ncl ->
    0 < bytes_of_class cl <= kMaxSize /\ 1 <= move_of_class cl <= kMaxDynamicFreeListLength }.

(** What the central lists promise. *)
Class CentralCacheLaws := {
  cc_Remove_ok : forall m cl N c, cc_holds m c -> 1 <= cl < ncl -> 1 <= N ->
    wp (cc_RemoveRange cl N) (fun l c' => NoDup l /\ Z.of_nat (length l) <= N /\
      (forall x, x ∈ l -> m !! x = None) /\ cc_holds (give cl l m) c' /\ cc_live c ⊆ cc_live c') c;
  cc_Insert_ok : forall m cl l c, 1 <= cl < ncl -> NoDup l -> (forall x, x ∈ l -> m !! x = None) ->
    cc_holds (give cl l m) c ->
    wp (cc_InsertRange cl l (Z.of_nat (length l))) (fun _ c' => cc_holds m c' /\ cc_live c ⊆ cc_live c') c;
  tc_New_ok : forall m c, cc_holds m c -> wp threadcache_allocator_New (fun r c' =>
    r <> 0 /\ r ∉ cc_live c /\ cc_live c' = {[r]} ∪ cc_live c /\ cc_holds m c') c;
  tc_Delete_ok : forall m r c, cc_holds m c -> r ∈ cc_live c -> wp (threadcache_allocator_Delete r) (fun _ c' =>
    cc_live c' = cc_live c ∖ {[r]} /\ cc_holds m c') c }.
Context `{!CentralCacheLaws}.

(** ** Invariant *)

(** [slack] is 1 for the list a freed object was just pushed on. *)
Record fl_ok (slack cl : Z) f : Prop := {
  fl_len : Z.of_nat (length (list_ f)) = length_ f;
  fl_bound : length_ f <= kMaxDynamicFreeListLength + slack;
  fl_low : 0 <= lowater_ f <= length_ f;
  fl_max : 1 <= max_length_ f <= kMaxDynamicFreeListLength;
  fl_over : 0 <= length_overages_ f <= kMaxOverages;
  fl_size : object_size f = bytes_of_class cl;
  fl_nodup : NoDup (list_ f);
  fl_zero : cl = 0 -> list_ f = [] }.

(** Bytes in the lists of a cache. *)
Definition list_bytes v (cl : Z) : Z :=
  match lists v !! cl with Some f => length_ f * bytes_of_class cl | None => 0 end.
Definition tc_bytes v : Z := sumZ (list_bytes v) (seqZ 0 ncl).

Definition slack (hot cl : Z) : Z := if decide (cl = hot) then 1 else 0.

(** [hot] is the class of that list, -1 for none. *)
Record tc_ok (hot : Z) v : Prop := {
  to_lists : forall cl, 0 <= cl < ncl -> exists f, lists v !! cl = Some f /\ fl_ok (slack hot cl) cl f;
  to_dom : forall cl f, lists v !! cl = Some f -> 0 <= cl < ncl }.

(** The linked list from [head]; [prev] comes before it. *)
Fixpoint tchain (hs : gmap Z ThreadCache) (head prev : Z) (l : list Z) : Prop :=
  match l with
  | [] => head = 0
  | t :: l => head = t /\ exists v, hs !! t = Some v /\ prev_ v = prev /\ tchain hs (next_ v) t l
  end.
Record links_ok st (l : list Z) : Prop := {
  lk_chain : tchain (heaps st) (thread_heaps_ st) 0 l;
  lk_nodup : NoDup l;
  lk_dom : forall t, t ∈ l <-> is_Some (heaps st !! t);
  lk_zero : 0 ∉ l;
  lk_steal : next_memory_steal_ st = 0 \/ next_memory_steal_ st ∈ l;
  lk_live : forall t, t ∈ l -> t ∈ cc_live (central st) }.

Definition cached st (t cl x : Z) : Prop :=
  exists v f, heaps st !! t = Some v /\ lists v !! cl = Some f /\ x ∈ list_ f.

(** Where each object is: with a user ([None]) or in a cache, and its
    class. *)
Abbreviation place := (gmap Z (option Z * Z)).
Definition users (loc : place) : gmap Z Z :=
  omap (fun p => match p with (None, cl) => Some cl | _ => None end) loc.

(** [d] are the bytes by which the count of cache [t] is ahead of its lists
    in the middle of an operation, [hot] the class of its longer list. *)
Record TInv (loc : place) (t d hot : Z) (l : list Z) st : Prop := {
  ti_holds : cc_holds (snd <$> loc) (central st);
  ti_cached : forall t cl x, cached st t cl x <-> loc !! x = Some (Some t, cl);
  ti_tc : forall t' v, heaps st !! t' = Some v -> tc_ok (if decide (t' = t) then hot else -1) v;
  ti_size : forall t' v, heaps st !! t' = Some v ->
    size_ v = s32 (tc_bytes v + if decide (t' = t) then d else 0);
  ti_links : links_ok st l }.

(** The users hold exactly [u]. *)
Definition TU u (t d hot : Z) (l : list Z) st : Prop := exists loc, users loc = u /\ TInv loc t d hot l st.

Lemma lookup_users loc x cl : users loc !! x = Some cl <-> loc !! x = Some (None, cl).
Proof.
  unfold users. rewrite lookup_omap. destruct (loc !! x) as [[[t|] c]|]; cbn; naive_solver.
Qed.

Lemma TU_debt u t d d' hot l st : TU u t d hot l st -> d = d' -> TU u t d' hot l st.
Proof. by intros HU ->. Qed.

(** ** Symbolic execution *)

Lemma wp_get_tc t v (Q : ThreadCache -> caches -> Prop) st : heaps st !! t = Some v -> Q v st -> wp (get_tc t) Q st.
Proof. intros Hv HQ. unfold get_tc. apply wp_bind, wp_get. eapply wp_lift; [by rewrite Hv|done]. Qed.
Lemma wp_put_tc t v (Q : unit -> caches -> Prop) st :
  Q tt (with_heaps (<[t := v]> (heaps st)) st) -> wp (put_tc t v) Q st.
Proof. intros. by apply wp_mod. Qed.
Lemma wp_upd_tc t g v (Q : unit -> caches -> Prop) st : heaps st !! t = Some v ->
  Q tt (with_heaps (<[t := g v]> (heaps st)) st) -> wp (upd_tc t g) Q st.
Proof. intros Hv HQ. unfold upd_tc. apply wp_bind. eapply wp_get_tc; [done|]. by apply wp_put_tc. Qed.
Lemma wp_get_fl t cl v f (Q : FreeList -> caches -> Prop) st : heaps st !! t = Some v -> lists v !! cl = Some f ->
  Q f st -> wp (get_fl t cl) Q st.
Proof. intros Hv Hf HQ. unfold get_fl. apply wp_bind. eapply wp_get_tc; [done|]. eapply wp_lift; [by rewrite Hf|done]. Qed.
Lemma wp_in_central {A} (m : M C A) (Q : A -> caches -> Prop) st :
  wp m (fun a c => Q a (with_central c st)) (central st) -> wp (in_central m) Q st.
Proof. unfold wp, in_central. by destruct (m (central st)) as [[a c]|[]]. Qed.

Hypothesis Hsm : tc_sizemap_ok.

Lemma aget_cls (m : gmap Z Z) cl : 0 <= cl < ncl -> aget kClassSizesMax m cl = Ret (ent m cl).
Proof. intros Hcl. apply aget_in. pose proof (ts_num Hsm). lia. Qed.

(** ** Updating one cache *)

Lemma tchain_ext hs hs' head prev l :
  (forall t v, t ∈ l -> hs !! t = Some v -> exists v', hs' !! t = Some v' /\ next_ v' = next_ v /\ prev_ v' = prev_ v) ->
  tchain hs head prev l -> tchain hs' head prev l.
Proof.
  revert head prev. induction l as [|t l IH]; intros head prev Hx; [done|]. cbn.
  intros (-> & v & Hv & Hp & Hc). split; [done|]. destruct (Hx t v) as (v' & Hv' & En & Ep); [by left|done|].
  exists v'. split; [done|]. split; [congruence|]. rewrite En. apply IH; [|done]. intros t' w Ht. apply Hx. by right.
Qed.

Lemma links_upd st l t v v' : links_ok st l -> heaps st !! t = Some v ->
  next_ v' = next_ v -> prev_ v' = prev_ v -> links_ok (with_heaps (<[t := v']> (heaps st)) st) l.
Proof.
  intros [Hch Hnd Hdom Hz Hst Hlv] Hv En Ep. constructor; cbn -[lookup insert]; try done.
  - eapply tchain_ext; [|done]. intros t' w _ Hw. destruct (decide (t' = t)) as [->|Hne].
    + exists v'. rewrite lookup_insert_eq. by assert (w = v) as -> by congruence.
    + exists w. by rewrite lookup_insert_ne.
  - intros t'. rewrite Hdom. destruct (decide (t' = t)) as [->|Hne]; [|by rewrite lookup_insert_ne].
    rewrite lookup_insert_eq, Hv. split; intros; by eexists.
Qed.

(** The list of class [cl] of cache [t] becomes [f'], its byte count grows
    by [k], and the objects move as [loc'] says. *)
Definition hot_ok (hot cl : Z) : Prop := hot = -1 \/ hot = cl.

Lemma TInv_list loc loc' t d hot hot' k l st v cl f f' : TInv loc t d hot l st -> hot_ok hot cl -> hot_ok hot' cl -> heaps st !! t = Some v ->
  lists v !! cl = Some f -> fl_ok (slack hot' cl) cl f' -> snd <$> loc' = snd <$> loc ->
  (forall x, x ∈ list_ f' <-> loc' !! x = Some (Some t, cl)) ->
  (forall x t' cl', (t', cl') <> (t, cl) -> loc' !! x = Some (Some t', cl') <-> loc !! x = Some (Some t', cl')) ->
  TInv loc' t (d + k + (length_ f - length_ f') * bytes_of_class cl) hot' l
    (with_heaps (<[t := add_size k (with_list cl f' v)]> (heaps st)) st).
Proof.
  intros [Hh Hc Htc Hsz Hl] Hhot Hhot' Hv Hf Hok Hsnd Hin Hoth. pose proof (Htc t v Hv) as [Hls Hdm].
  rewrite decide_True in Hls by done.
  constructor; cbn -[lookup insert add_size with_list decide].
  - by rewrite Hsnd.
  - intros t' cl' x. unfold cached. cbn -[lookup insert add_size with_list].
    destruct (decide (t' = t)) as [->|Hne].
    + rewrite lookup_insert_eq. destruct (decide (cl' = cl)) as [->|Hnc].
      * rewrite <- Hin. split.
        -- intros (w & g & [= <-] & Hg & Hx). cbn in Hg. rewrite lookup_insert_eq in Hg. by injection Hg as <-.
        -- intros Hx. eexists _, f'. split; [done|]. split; [apply lookup_insert_eq|done].
      * rewrite Hoth, <- Hc by congruence. unfold cached. rewrite Hv. split.
        -- intros (w & g & [= <-] & Hg & Hx). cbn in Hg. rewrite lookup_insert_ne in Hg by done. eauto.
        -- intros (w & g & [= <-] & Hg & Hx). eexists _, g. split; [done|]. cbn. by rewrite lookup_insert_ne.
    + rewrite lookup_insert_ne by done. rewrite Hoth by congruence. apply Hc.
  - intros t' w. destruct (decide (t' = t)) as [->|Hne].
    2: { rewrite lookup_insert_ne by done. intros Hw. specialize (Htc t' w Hw). by rewrite decide_False in Htc. }
    rewrite lookup_insert_eq. intros [= <-]. constructor; cbn -[slack].
    + intros cl' Hcl'. destruct (decide (cl' = cl)) as [->|Hnc]; [exists f'; by rewrite lookup_insert_eq|].
      rewrite lookup_insert_ne by done. destruct (Hls cl' Hcl') as (g & Hg & Hgok). exists g. split; [done|].
      assert (slack hot cl' = 0) as E1 by (unfold slack; rewrite decide_False; [done|destruct Hhot; lia]).
      assert (slack hot' cl' = 0) as -> by (unfold slack; rewrite decide_False; [done|destruct Hhot'; lia]).
      by rewrite E1 in Hgok.
    + intros cl' g. destruct (decide (cl' = cl)) as [->|Hnc]; [intros _; by eapply Hdm|].
      rewrite lookup_insert_ne by done. apply Hdm.
  - intros t' w. destruct (decide (t' = t)) as [->|Hne].
    2: { rewrite lookup_insert_ne by done. intros Hw. rewrite (Hsz t' w Hw). by rewrite decide_False. }
    rewrite lookup_insert_eq. intros [= <-]. cbn -[seqZ]. rewrite (Hsz t v Hv), decide_True by done.
    assert (tc_bytes (add_size k (with_list cl f' v)) = tc_bytes v + (length_ f' - length_ f) * bytes_of_class cl) as ->.
    { unfold tc_bytes. pose proof (Hdm cl f Hf) as Hcl.
      assert (cl ∈ seqZ 0 ncl) as Hcs by (apply elem_of_seqZ; lia).
      apply elem_of_Permutation in Hcs as (cs & HP). pose proof (NoDup_seqZ 0 ncl) as Hnd. rewrite HP in Hnd.
      apply NoDup_cons in Hnd as [Hn _]. rewrite !(sumZ_perm _ _ _ HP). cbn [sumZ foldr].
      fold (sumZ (list_bytes (add_size k (with_list cl f' v))) cs) (sumZ (list_bytes v) cs).
      rewrite (sumZ_ext (list_bytes (add_size k (with_list cl f' v))) (list_bytes v) cs).
      - unfold list_bytes at 1 3. cbn. rewrite lookup_insert_eq, Hf. lia.
      - intros y Hy. unfold list_bytes. cbn. rewrite lookup_insert_ne; [done|congruence]. }
    rewrite s32_add_l. f_equal. lia.
  - by apply (links_upd _ _ _ v).
Qed.

(** ** Moving objects between a list, the hand and the central lists *)

Lemma users_give cl xs loc : users (give (None, cl) xs loc) = give cl xs (users loc).
Proof.
  apply map_eq. intros x. rewrite lookup_give. unfold users. rewrite !lookup_omap, lookup_give.
  by destruct (decide (x ∈ xs)).
Qed.
Lemma snd_give (p : option Z * Z) xs (loc : place) : snd <$> give p xs loc = give p.2 xs (snd <$> loc).
Proof.
  apply map_eq. intros x. rewrite lookup_fmap, !lookup_give, lookup_fmap. by destruct (decide (x ∈ xs)).
Qed.
Lemma give_same {A} (a : A) xs (m : gmap Z A) : (forall x, x ∈ xs -> m !! x = Some a) -> give a xs m = m.
Proof.
  intros Hx. apply map_eq. intros x. rewrite lookup_give. destruct (decide (x ∈ xs)); [|done]. by rewrite Hx.
Qed.

Lemma list_place loc t d hot l st v cl f x : TInv loc t d hot l st -> heaps st !! t = Some v -> lists v !! cl = Some f ->
  x ∈ list_ f <-> loc !! x = Some (Some t, cl).
Proof.
  intros HI Hv Hf. rewrite <- (ti_cached _ _ _ _ _ _ HI t cl x). unfold cached. split; [by eauto|].
  intros (w & g & Hw & Hg & Hx). assert (w = v) as -> by congruence. by assert (g = f) as -> by congruence.
Qed.

(** The first objects of a list are taken. *)
Lemma TU_take u t d hot hot' k l st v cl f f' xs : TU u t d hot l st -> hot_ok hot cl -> hot_ok hot' cl ->
  heaps st !! t = Some v -> lists v !! cl = Some f -> fl_ok (slack hot cl) cl f -> fl_ok (slack hot' cl) cl f' -> list_ f = xs ++ list_ f' ->
  NoDup xs /\ (forall x, x ∈ xs -> u !! x = None) /\
  TU (give cl xs u) t (d + k + Z.of_nat (length xs) * bytes_of_class cl) hot' l
    (with_heaps (<[t := add_size k (with_list cl f' v)]> (heaps st)) st).
Proof.
  intros (loc & <- & HI) Hh Hh' Hv Hf Hok Hok' El. pose proof (fl_nodup _ _ _ Hok) as Hnd. rewrite El in Hnd.
  apply NoDup_app in Hnd as (Hn1 & Hn2 & Hn3).
  pose proof (fun x => list_place _ _ _ _ _ _ _ _ _ x HI Hv Hf) as Hpl. rewrite El in Hpl.
  assert (forall x, x ∈ xs -> loc !! x = Some (Some t, cl)) as Hx.
  { intros x Hx. apply Hpl, elem_of_app. by left. }
  split; [done|]. split.
  { intros x Hin. destruct (users loc !! x) as [c|] eqn:Eu; [|done]. apply lookup_users in Eu.
    rewrite (Hx x Hin) in Eu. discriminate. }
  exists (give (None, cl) xs loc). split; [apply users_give|].
  replace (Z.of_nat (length xs)) with (length_ f - length_ f')
    by (rewrite <- (fl_len _ _ _ Hok), <- (fl_len _ _ _ Hok'), El, length_app; lia).
  apply (TInv_list loc _ t d hot hot'); try done.
  - rewrite snd_give. cbn. apply give_same. intros x Hin. by rewrite lookup_fmap, (Hx x Hin).
  - intros x. rewrite lookup_give. destruct (decide (x ∈ xs)) as [Hin|Hin].
    + split; [|discriminate]. intros Hx'. by destruct (Hn2 x Hin).
    + rewrite <- Hpl, elem_of_app. tauto.
  - intros x t' cl' Hne. rewrite lookup_give. destruct (decide (x ∈ xs)) as [Hin|Hin]; [|done].
    rewrite (Hx x Hin). split; intros; simplify_eq; congruence.
Qed.

(** Objects in hand go to the front of a list. *)
Lemma TU_push u t d hot hot' k l st v cl f f' xs : TU (give cl xs u) t d hot l st -> hot_ok hot cl -> hot_ok hot' cl ->
  heaps st !! t = Some v -> lists v !! cl = Some f -> fl_ok (slack hot cl) cl f -> fl_ok (slack hot' cl) cl f' -> list_ f' = xs ++ list_ f -> (forall x, x ∈ xs -> u !! x = None) ->
  TU u t (d + k - Z.of_nat (length xs) * bytes_of_class cl) hot' l
    (with_heaps (<[t := add_size k (with_list cl f' v)]> (heaps st)) st).
Proof.
  intros (loc & Eu & HI) Hh Hh' Hv Hf Hok Hok' El Hu.
  pose proof (fun x => list_place _ _ _ _ _ _ _ _ _ x HI Hv Hf) as Hpl.
  assert (forall x, x ∈ xs -> loc !! x = Some (None, cl)) as Hx.
  { intros x Hx. apply lookup_users. by rewrite Eu, lookup_give, decide_True. }
  exists (give (Some t, cl) xs loc). split.
  { apply map_eq. intros x. unfold users. rewrite lookup_omap, lookup_give.
    destruct (decide (x ∈ xs)) as [Hin|Hin]; cbn; [by rewrite Hu|].
    change (users loc !! x = u !! x) || rewrite <- lookup_omap. fold (users loc). by rewrite Eu, lookup_give, decide_False. }
  replace (d + k - Z.of_nat (length xs) * bytes_of_class cl) with (d + k + (length_ f - length_ f') * bytes_of_class cl)
    by (rewrite <- (fl_len _ _ _ Hok), <- (fl_len _ _ _ Hok'), El, length_app; lia).
  apply (TInv_list loc _ t d hot hot'); try done.
  - rewrite snd_give. cbn. apply give_same. intros x Hin. by rewrite lookup_fmap, (Hx x Hin).
  - intros x. rewrite El, elem_of_app, lookup_give, Hpl. destruct (decide (x ∈ xs)); [tauto|]. tauto.
  - intros x t' cl' Hne. rewrite lookup_give. destruct (decide (x ∈ xs)) as [Hin|Hin]; [|done].
    rewrite (Hx x Hin). split; intros; simplify_eq; congruence.
Qed.

(** Only the bookkeeping of a list changes. *)
Lemma TU_field u t d hot hot' l st v cl f f' : TU u t d hot l st -> hot_ok hot cl -> hot_ok hot' cl ->
  heaps st !! t = Some v -> lists v !! cl = Some f ->
  fl_ok (slack hot cl) cl f -> fl_ok (slack hot' cl) cl f' -> list_ f' = list_ f ->
  TU u t d hot' l (with_heaps (<[t := with_list cl f' v]> (heaps st)) st).
Proof.
  intros HU Hh Hh' Hv Hf Hok Hok' El. destruct (TU_take u t d hot hot' 0 l st v cl f f' []) as (_ & _ & HU'); try done.
  replace (add_size 0 (with_list cl f' v)) with (with_list cl f' v) in HU'.
  - by replace (d + 0 + Z.of_nat (length (@nil Z)) * bytes_of_class cl) with d in HU' by (cbn; lia).
  - destruct HU as (loc & _ & HI). pose proof (ti_size _ _ _ _ _ _ HI t v Hv) as Hs. unfold with_list, add_size. cbn.
    f_equal. rewrite Hs, s32_add_l, Z.add_0_r. done.
Qed.

Lemma wp_central_insert u t d hot l cl xs (Q : unit -> caches -> Prop) st : 1 <= cl < ncl -> NoDup xs ->
  (forall x, x ∈ xs -> u !! x = None) -> TU (give cl xs u) t d hot l st ->
  (forall c, TU u t d hot l (with_central c st) -> Q tt (with_central c st)) ->
  wp (in_central (cc_InsertRange cl xs (Z.of_nat (length xs)))) Q st.
Proof.
  intros Hcl Hnd Hu HU HQ. pose proof HU as (loc & Eu & HI). apply wp_in_central.
  assert (forall loc, users loc = give cl xs u -> forall x, x ∈ xs -> loc !! x = Some (None, cl)) as Hx.
  { intros loc0 E0 x Hx. apply lookup_users. by rewrite E0, lookup_give, decide_True. }
  set (cut := fun loc : place => filter (fun '(x, _) => x ∉ xs) loc).
  assert (forall loc x, cut loc !! x = if decide (x ∈ xs) then None else loc !! x) as Hcut.
  { intros loc0 x. unfold cut. destruct (decide (x ∈ xs)).
    - apply map_lookup_filter_None. right. intros ? _. by intros [].
    - destruct (loc0 !! x) as [p|] eqn:Ep; [by apply map_lookup_filter_Some|apply map_lookup_filter_None; by left]. }
  assert (snd <$> loc = give cl xs (snd <$> cut loc)) as Es.
  { apply map_eq. intros x. rewrite lookup_give, !lookup_fmap, Hcut.
    destruct (decide (x ∈ xs)) as [Hin|]; [by rewrite (Hx loc Eu x Hin)|done]. }
  pose proof (ti_holds _ _ _ _ _ _ HI) as Hh. rewrite Es in Hh.
  eapply wp_mono; [apply (cc_Insert_ok (snd <$> cut loc)); [done|done| |done]|].
  { intros x Hin. by rewrite lookup_fmap, Hcut, decide_True. }
  intros [] c [Hh' Hlv]. apply HQ. exists (cut loc). split.
  { apply map_eq. intros x. unfold users. rewrite lookup_omap, Hcut. destruct (decide (x ∈ xs)) as [Hin|Hin].
    - by rewrite (Hu x Hin).
    - pose proof (f_equal (fun m => m !! x) Eu) as Ex. cbn beta in Ex. rewrite lookup_give, decide_False in Ex by done.
      unfold users in Ex. rewrite lookup_omap in Ex. done. }
  pose proof HI as [_ Hc Htc Hsz [L1 L2 L3 L4 L5 L6]]. constructor; try done.
  - intros t' cl' x. rewrite Hcut. etrans; [apply Hc|]. destruct (decide (x ∈ xs)) as [Hin|]; [|done].
    rewrite (Hx loc Eu x Hin). split; discriminate.
  - constructor; try done. cbn. intros t' Ht'. by apply Hlv, L6.
Qed.

Lemma wp_central_remove u t d hot l cl N (Q : list Z -> caches -> Prop) st : 1 <= cl < ncl -> 1 <= N -> TU u t d hot l st ->
  (forall xs c, NoDup xs -> Z.of_nat (length xs) <= N -> (forall x, x ∈ xs -> u !! x = None) ->
     TU (give cl xs u) t d hot l (with_central c st) -> Q xs (with_central c st)) ->
  wp (in_central (cc_RemoveRange cl N)) Q st.
Proof.
  intros Hcl HN (loc & Eu & HI) HQ. apply wp_in_central.
  eapply wp_mono; [apply (cc_Remove_ok (snd <$> loc)); [apply HI|done|done]|].
  intros xs c (Hnd & Hlen & Hf & Hh & Hlv).
  assert (forall x, x ∈ xs -> loc !! x = None) as Hx.
  { intros x Hin. specialize (Hf x Hin). rewrite lookup_fmap in Hf. by destruct (loc !! x). }
  apply HQ; [done|done| |].
  - intros x Hin. rewrite <- Eu. unfold users. by rewrite lookup_omap, (Hx x Hin).
  - exists (give (None, cl) xs loc). split; [by rewrite users_give, Eu|].
    pose proof HI as [_ Hc Htc Hsz [L1 L2 L3 L4 L5 L6]]. constructor; try done.
    + by rewrite snd_give.
    + intros t' cl' x. etrans; [apply Hc|]. rewrite lookup_give. destruct (decide (x ∈ xs)) as [Hin|]; [|done].
      rewrite (Hx x Hin). split; discriminate.
    + constructor; try done. cbn. intros t' Ht'. by apply Hlv, L6.
Qed.

(** ** Free-list operations *)

Lemma TU_get u t d hot l st cl : TU u t d hot l st -> t ∈ l -> 0 <= cl < ncl ->
  exists v f, heaps st !! t = Some v /\ lists v !! cl = Some f /\ fl_ok (slack hot cl) cl f.
Proof.
  intros (loc & _ & HI) Ht Hcl. apply (lk_dom _ _ (ti_links _ _ _ _ _ _ HI)) in Ht as [v Hv].
  pose proof (ti_tc _ _ _ _ _ _ HI t v Hv) as Htc. rewrite decide_True in Htc by done.
  destruct (to_lists _ _ Htc cl Hcl) as (f & Hf & Hok). eauto.
Qed.

Lemma fl_range s cl f : fl_ok s cl f -> s <= 1 -> 0 <= length_ f <= 8193.
Proof. intros Hf Hs. pose proof (fl_len _ _ _ Hf). pose proof (fl_bound _ _ _ Hf). clia. Qed.
Lemma slack_range hot cl : 0 <= slack hot cl <= 1.
Proof. unfold slack. destruct (decide _); lia. Qed.
Lemma slack_none cl : 0 <= cl -> slack (-1) cl = 0.
Proof. intros. unfold slack. rewrite decide_False; [done|lia]. Qed.

Lemma shrink_ok s s' cl f l' n : fl_ok s cl f -> NoDup l' -> Z.of_nat (length l') = n -> n <= length_ f ->
  n <= kMaxDynamicFreeListLength + s' -> (cl = 0 -> l' = []) -> fl_ok s' cl (FL.shrink l' n f).
Proof.
  intros [? ? ? ? ? ? ? ?] Hnd Hlen Hn Hb Hz. constructor; cbn; try done.
  destruct (Z.ltb_spec n (lowater_ f)); lia.
Qed.

Lemma PopRange_ok s s' cl f N : fl_ok s cl f -> s <= 1 -> 0 <= N <= length_ f -> s - N <= s' ->
  exists xs f', FL.PopRange N f = Ret (xs, f') /\ list_ f = xs ++ list_ f' /\ Z.of_nat (length xs) = N /\
    fl_ok s' cl f' /\ max_length_ f' = max_length_ f /\ length_ f' = length_ f - N.
Proof.
  intros Hf Hs HN Hs'. pose proof (fl_range _ _ _ Hf Hs) as Hr. pose proof (fl_len _ _ _ Hf) as Hlen.
  pose proof (fl_bound _ _ _ Hf) as Hb. unfold FL.PopRange. rewrite (u32_small (length_ f - N)) by lia.
  destruct (Z.eqb_spec N 0) as [->|Hn0].
  - eexists [], _. split; [done|]. split; [done|]. split; [done|]. split; [|done].
    apply (shrink_ok s); try done; [apply Hf|lia|lia|lia|apply Hf].
  - rewrite Z.max_r by lia. destruct (Z.ltb_spec (Z.of_nat (length (list_ f))) (Z.of_nat (Z.to_nat N))); [lia|].
    pose proof (fl_nodup _ _ _ Hf) as Hnd. rewrite <- (take_drop (Z.to_nat N) (list_ f)) in Hnd.
    apply NoDup_app in Hnd as (_ & _ & Hnd).
    eexists _, _. split; [done|]. cbn [list_ FL.shrink]. split; [by rewrite take_drop|].
    split; [rewrite length_take; lia|]. split; [|done].
    apply (shrink_ok s); try done; [rewrite length_drop; lia|lia|lia|].
    intros Hz. by rewrite (fl_zero _ _ _ Hf Hz), drop_nil.
Qed.

Lemma TryPop_ok cl f : fl_ok 0 cl f -> match FL.TryPop f with
  | None => list_ f = []
  | Some (x, f') => list_ f = x :: list_ f' /\ fl_ok 0 cl f'
  end.
Proof.
  intros Hf. pose proof (fl_range _ _ _ Hf) as Hr. unfold FL.TryPop. pose proof (fl_len _ _ _ Hf) as Hlen.
  pose proof (fl_nodup _ _ _ Hf) as Hnd. pose proof (fl_zero _ _ _ Hf) as Hz. pose proof (fl_bound _ _ _ Hf).
  destruct (list_ f) as [|x l'] eqn:El; [done|]. cbn [length] in Hlen. split; [done|].
  apply NoDup_cons in Hnd as [_ Hnd]. rewrite u32_small by lia. apply (shrink_ok 0); try done; [lia|lia|lia|].
  intros E. specialize (Hz E). discriminate.
Qed.

Lemma Push_ok cl f x : fl_ok 0 cl f -> 1 <= cl -> x ∉ list_ f ->
  exists f', FL.Push x f = (length_ f + 1, f') /\ list_ f' = x :: list_ f /\ fl_ok 1 cl f' /\
    length_ f' = length_ f + 1 /\ max_length_ f' = max_length_ f /\ (length_ f' <= max_length_ f' -> fl_ok 0 cl f').
Proof.
  intros Hf Hcl Hx. pose proof (fl_range _ _ _ Hf ltac:(lia)) as Hr. unfold FL.Push. rewrite u32_small by lia.
  eexists. split; [done|]. split; [done|]. destruct Hf as [Hlen ? ? Hmax ? ? ? ?].
  assert (forall s, length_ f + 1 <= kMaxDynamicFreeListLength + s ->
    fl_ok s cl (mkFL (x :: list_ f) (length_ f + 1) (lowater_ f) (max_length_ f) (length_overages_ f) (object_size f))) as Hok.
  { intros s Hs. constructor; cbn -[Z.of_nat length]; try done; [cbn [length]; lia|lia|by constructor|lia]. }
  split; [apply Hok; lia|]. split; [done|]. split; [done|]. cbn. intros ?. apply Hok. lia.
Qed.

Lemma PushRange_ok cl f xs : fl_ok 0 cl f -> 1 <= cl -> list_ f = [] -> NoDup xs ->
  Z.of_nat (length xs) <= kMaxDynamicFreeListLength ->
  fl_ok 0 cl (FL.PushRange (Z.of_nat (length xs)) xs f).
Proof.
  intros [Hlen ? ? ? ? ? ? ?] Hcl El Hnd Hn. change kMaxDynamicFreeListLength with 8192 in Hn. rewrite El in Hlen. cbn in Hlen.
  assert (u32 (length_ f + Z.of_nat (length xs)) = Z.of_nat (length xs)) as E by (rewrite <- Hlen; apply u32_small; lia).
  constructor; cbn; rewrite ?El, ?app_nil_r, ?E; try done; clia.
Qed.

Lemma set_max_ok s cl f m : fl_ok s cl f -> 1 <= m <= kMaxDynamicFreeListLength -> fl_ok s cl (FL.set_max_length m f).
Proof. intros [] Hm. constructor; cbn; try done. rewrite u32_small; clia. Qed.
Lemma set_overages_ok s cl f m : fl_ok s cl f -> 0 <= m <= kMaxOverages -> fl_ok s cl (FL.set_length_overages m f).
Proof. intros [] Hm. constructor; cbn; try done. rewrite u32_small; clia. Qed.
Lemma clear_low_ok s cl f : fl_ok s cl f -> fl_ok s cl (FL.clear_lowwatermark f).
Proof. intros []. constructor; cbn; try done. lia. Qed.

(** ** Releasing to the central lists *)

Lemma wp_put_fl t cl f v (Q : unit -> caches -> Prop) st : heaps st !! t = Some v ->
  Q tt (with_heaps (<[t := with_list cl f v]> (heaps st)) st) -> wp (put_fl t cl f) Q st.
Proof. intros Hv HQ. by eapply wp_upd_tc. Qed.

Lemma add_size_0 u t d hot l st v : TU u t d hot l st -> heaps st !! t = Some v -> forall cl f,
  add_size 0 (with_list cl f v) = with_list cl f v.
Proof.
  intros (loc & _ & HI) Hv cl f. pose proof (ti_size _ _ _ _ _ _ HI t v Hv) as Hs. unfold with_list, add_size. cbn.
  f_equal. rewrite Hs, s32_add_l, Z.add_0_r. done.
Qed.

(** The byte count of the cache moves. *)
Lemma TU_size u t d hot k l st v : TU u t d hot l st -> heaps st !! t = Some v ->
  TU u t (d + k) hot l (with_heaps (<[t := add_size k v]> (heaps st)) st).
Proof.
  intros (loc & Eu & [Hh Hc Htc Hsz Hl]) Hv. exists loc. split; [done|].
  constructor; cbn -[lookup insert add_size decide]; [done| | | |by apply (links_upd _ _ _ v)].
  - intros t' cl x. rewrite <- Hc. unfold cached. cbn -[lookup insert add_size].
    destruct (decide (t' = t)) as [->|]; [|by rewrite lookup_insert_ne]. rewrite lookup_insert_eq, Hv.
    split; intros (w & f & [= <-] & ?); eauto.
  - intros t' w. destruct (decide (t' = t)) as [->|Hne].
    + rewrite lookup_insert_eq. intros [= <-]. specialize (Htc t v Hv). rewrite decide_True in Htc by done. by destruct Htc.
    + rewrite lookup_insert_ne by done. intros Hw. specialize (Htc t' w Hw). by rewrite decide_False in Htc.
  - intros t' w. destruct (decide (t' = t)) as [->|Hne].
    + rewrite lookup_insert_eq. intros [= <-]. change (tc_bytes (add_size k v)) with (tc_bytes v). cbn.
      rewrite (Hsz t v Hv), decide_True, s32_add_l by done. f_equal. lia.
    + rewrite lookup_insert_ne by done. intros Hw. rewrite (Hsz t' w Hw). by rewrite decide_False.
Qed.

(** One pop of [n] objects and their way down. *)
Lemma release_pop {A} (rest : M caches A) u t d hot hot' l cl n (Q : A -> caches -> Prop) st v f : 1 <= cl < ncl ->
  TU u t d hot l st -> hot_ok hot cl -> hot_ok hot' cl -> heaps st !! t = Some v -> lists v !! cl = Some f ->
  fl_ok (slack hot cl) cl f -> 0 <= n <= length_ f -> slack hot cl - n <= slack hot' cl ->
  (forall st' v' f', TU u t (d + n * bytes_of_class cl) hot' l st' -> heaps st' !! t = Some v' ->
     lists v' !! cl = Some f' -> length_ f' = length_ f - n -> max_length_ f' = max_length_ f -> wp rest Q st') ->
  wp (r ← liftM (FL.PopRange n f); _ ← put_fl t cl (snd r); _ ← in_central (cc_InsertRange cl (fst r) n); rest) Q st.
Proof.
  intros Hcl HU Hh Hh' Hv Hf Hok Hn Hs HQ.
  destruct (PopRange_ok _ (slack hot' cl) cl f n Hok) as (xs & f' & Hp & El & Hlen & Hok' & Hm & Hl'); [apply slack_range|done|done|].
  apply wp_bind. eapply wp_lift; [done|]. cbn [fst snd]. apply wp_bind. eapply wp_put_fl; [done|].
  destruct (TU_take u t d hot hot' 0 l st v cl f f' xs) as (Hnd & Hu & HU'); try done.
  rewrite (add_size_0 _ _ _ _ _ _ _ HU Hv), Hlen in HU'. rewrite <- Hlen.
  apply wp_bind. eapply wp_central_insert; [done|done|done|done|]. intros c HU2.
  replace (d + 0 + n * bytes_of_class cl) with (d + n * bytes_of_class cl) in HU2 by lia.
  eapply (HQ _ (with_list cl f' v) f'); [done|apply lookup_insert_eq|apply lookup_insert_eq|done|done].
Qed.

Lemma wp_Release_exact u t d hot l cl N st v f : 1 <= cl < ncl -> TU u t d hot l st -> t ∈ l -> hot_ok hot cl ->
  heaps st !! t = Some v -> lists v !! cl = Some f -> 0 <= N -> (hot = cl -> 1 <= N /\ 1 <= length_ f) ->
  wp (ReleaseToCentralCache sizemap t cl N) (fun _ st' => TU u t d (-1) l st' /\
    exists v' f', heaps st' !! t = Some v' /\ lists v' !! cl = Some f' /\ length_ f' = length_ f - Z.min N (length_ f)) st.
Proof.
  intros Hcl HU Ht Hh Hv Hf HN Hhot. destruct (ts_class Hsm cl Hcl) as [Hsz Hmv].
  destruct (TU_get _ _ _ _ _ _ cl HU Ht ltac:(lia)) as (v' & f' & Hv' & Hf' & Hok).
  assert (v' = v) as -> by congruence. assert (f' = f) as -> by congruence.
  pose proof (fl_range _ _ _ Hok ltac:(apply slack_range)) as Hr.
  unfold ReleaseToCentralCache. apply wp_bind. eapply wp_get_fl; [done|done|]. cbn beta zeta.
  set (N0 := if N >? length_ f then length_ f else N).
  assert (0 <= N0 <= length_ f /\ (hot = cl -> 1 <= N0) /\ N0 = Z.min N (length_ f)) as (HN0 & HN1 & EN0).
  { unfold N0. rewrite Z.gtb_ltb. destruct (Z.ltb_spec (length_ f) N); (split; [lia|]); (split; [|lia]); intros E; destruct (Hhot E); lia. }
  rewrite <- EN0. set (len := length_ f) in *.
  apply wp_bind. eapply wp_lift; [apply aget_cls; lia|]. fold (bytes_of_class cl).
  rewrite (u64_small (N0 * bytes_of_class cl)) by (change kMaxSize with 262144 in Hsz; nia).
  apply wp_bind. eapply wp_lift; [apply aget_cls; lia|]. fold (move_of_class cl). apply wp_bind.
  eapply (loopM_count _ (fun k N' st' => exists hot' v f, TU u t (d + (N0 - N') * bytes_of_class cl) hot' l st' /\
    hot_ok hot' cl /\ heaps st' !! t = Some v /\ lists v !! cl = Some f /\ fl_ok (slack hot' cl) cl f /\
    0 <= N' <= length_ f /\ (hot' = cl -> 1 <= N') /\ N' <= Z.of_nat k /\ length_ f - N' = len - N0)) with (n := Z.to_nat N0); [| |lia].
  - clearbody len N0. clear v f Hv Hf Hok Hr Hhot HN1 EN0 HN0 Hv' Hf' st HU.
    intros k N' st' (hot' & v & f & HU & Hh' & Hv & Hf & Hok & HN' & Hhot' & Hk & Hdiff). unfold release_body.
    rewrite Z.gtb_ltb. destruct (Z.ltb_spec (move_of_class cl) N') as [Hlt|Hge].
    + apply wp_bind. eapply wp_get_fl; [done|done|].
      eapply (release_pop _ _ _ _ hot' (-1)); [done|done|done|by left|done|done|done|lia| |].
      { rewrite (slack_none cl) by lia. pose proof (slack_range hot' cl). lia. }
      intros st2 v2 f2 HU2 Hv2 Hf2 Hl2 _. apply wp_ret. exists (Nat.pred k). split; [lia|].
      exists (-1), v2, f2. destruct (TU_get _ _ _ _ _ _ cl HU2 Ht ltac:(lia)) as (v3 & f3 & Hv3 & Hf3 & Hok3).
      assert (v3 = v2) as -> by congruence. assert (f3 = f2) as -> by congruence.
      split; [|split; [by left|]; do 3 (split; [done|]); lia].
      eapply TU_debt; [exact HU2|lia].
    + apply wp_ret. cbn beta.
      apply wp_bind. eapply wp_get_fl; [done|done|].
      eapply (release_pop _ _ _ _ hot' (-1)); [done|done|done|by left|done|done|done|lia| |].
      { rewrite (slack_none cl) by lia. pose proof (slack_range hot' cl). unfold slack in *. destruct (decide (cl = hot')); [|lia].
        specialize (Hhot' ltac:(done)). lia. }
      intros st2 v2 f2 HU2 Hv2 Hf2 Hl2 _. eapply wp_upd_tc; [done|].
      split; [eapply TU_debt; [apply TU_size; [exact HU2|done]|lia]|].
      exists (add_size (- (N0 * bytes_of_class cl)) v2), f2. split; [apply lookup_insert_eq|]. split; [done|lia].
  - exists hot, v, f. split; [|done || (do 6 (split; [done|]); lia)].
    replace (d + (N0 - N0) * bytes_of_class cl) with d by lia. done.
Qed.

Lemma wp_ReleaseToCentralCache u t d hot l cl N st v f : 1 <= cl < ncl -> TU u t d hot l st -> t ∈ l -> hot_ok hot cl ->
  heaps st !! t = Some v -> lists v !! cl = Some f -> 0 <= N -> (hot = cl -> 1 <= N /\ 1 <= length_ f) ->
  wp (ReleaseToCentralCache sizemap t cl N) (fun _ st' => TU u t d (-1) l st') st.
Proof. intros. eapply wp_mono; [by eapply wp_Release_exact|]. by intros [] st' [? _]. Qed.

(** ** Limits *)

(** Fields that no other part depends on. *)
Lemma TU_upd u t d hot l st t' v v' : TU u t d hot l st -> heaps st !! t' = Some v ->
  lists v' = lists v -> size_ v' = size_ v -> next_ v' = next_ v -> prev_ v' = prev_ v ->
  TU u t d hot l (with_heaps (<[t' := v']> (heaps st)) st).
Proof.
  intros (loc & Eu & [Hh Hc Htc Hsz Hl]) Hv E1 E2 E3 E4. exists loc. split; [done|].
  assert (forall r w, <[t' := v']> (heaps st) !! r = Some w ->
    exists w', heaps st !! r = Some w' /\ lists w = lists w' /\ size_ w = size_ w') as Hback.
  { intros r w. destruct (decide (r = t')) as [->|]; [rewrite lookup_insert_eq|rewrite lookup_insert_ne by done; eauto].
    intros [= <-]. eauto. }
  constructor; cbn -[lookup insert decide]; [done| | | |by apply (links_upd _ _ _ v)].
  - intros r cl x. rewrite <- Hc. unfold cached. cbn -[lookup insert]. split.
    + intros (w & f & (w' & Hw & El & _)%Hback & Hf & Hx). rewrite El in Hf. eauto.
    + intros (w & f & Hw & Hf & Hx). destruct (decide (r = t')) as [->|].
      * exists v', f. rewrite lookup_insert_eq, E1. by assert (w = v) as -> by congruence.
      * exists w, f. by rewrite lookup_insert_ne.
  - intros r w (w' & Hw & El & _)%Hback. destruct (Htc r w' Hw) as [H1 H2]. by constructor; rewrite El.
  - intros r w (w' & Hw & El & Es)%Hback. rewrite Es, (Hsz r w' Hw). unfold tc_bytes, list_bytes. by rewrite El.
Qed.

Lemma TU_static u t d hot l st st' : TU u t d hot l st -> heaps st' = heaps st -> thread_heaps_ st' = thread_heaps_ st ->
  central st' = central st -> (next_memory_steal_ st' = 0 \/ next_memory_steal_ st' ∈ l) -> TU u t d hot l st'.
Proof.
  intros (loc & Eu & [Hh Hc Htc Hsz [L1 L2 L3 L4 L5 L6]]) E1 E2 E3 Hs. exists loc. split; [done|].
  constructor; rewrite ?E1, ?E3; try done.
  - intros r cl x. rewrite <- Hc. unfold cached. by rewrite E1.
  - constructor; rewrite ?E1, ?E2, ?E3; done.
Qed.

Lemma TU_links u t d hot l st : TU u t d hot l st -> links_ok st l.
Proof. intros (loc & _ & HI). apply HI. Qed.

Lemma tchain_next hs head prev l x v : tchain hs head prev l -> x ∈ l -> hs !! x = Some v -> next_ v = 0 \/ next_ v ∈ l.
Proof.
  revert head prev. induction l as [|y l IH]; intros head prev; [by intros _ ?%elem_of_nil|]. cbn.
  intros (-> & w & Hw & _ & Hc) [->|Hx]%elem_of_cons Hv.
  - assert (w = v) as -> by congruence. destruct l as [|z l]; cbn in Hc; [by left|]. destruct Hc as [-> _].
    right. right. by left.
  - destruct (IH _ _ Hc Hx Hv) as [?|?]; [by left|right; by right].
Qed.

Lemma wp_steal_step u t d hot l st : TU u t d hot l st -> t ∈ l ->
  wp (steal_step t tt) (fun _ st' => TU u t d hot l st') st.
Proof.
  intros HU Ht. unfold steal_step. apply wp_bind, wp_get. apply wp_bind.
  eapply (wp_mono _ (fun _ st' => TU u t d hot l st' /\ next_memory_steal_ st' ∈ l)).
  { pose proof (TU_links _ _ _ _ _ _ HU) as HL. destruct (Z.eqb_spec (next_memory_steal_ st) 0) as [E|E].
    - apply wp_mod. assert (thread_heaps_ st ∈ l) as Hin.
      { pose proof (lk_chain _ _ HL) as Hc. destruct l as [|y l]; [by apply elem_of_nil in Ht|]. cbn in Hc.
        destruct Hc as [-> _]. by left. }
      split; [|done]. eapply TU_static; [done|done|done|done|by right].
    - apply wp_ret. split; [done|]. by destruct (lk_steal _ _ HL). }
  clear st HU. intros [] st [HU Hs]. pose proof (TU_links _ _ _ _ _ _ HU) as HL. apply wp_bind, wp_get. cbn zeta.
  pose proof Hs as [v Hv]%(lk_dom _ _ HL). apply wp_bind. eapply wp_get_tc; [done|].
  pose proof (tchain_next _ _ _ _ _ _ (lk_chain _ _ HL) Hs Hv) as Hn. destruct (_ || _).
  - apply wp_bind, wp_mod, wp_ret. eapply TU_static; [done|done|done|done|exact Hn].
  - apply wp_bind, wp_put_tc. pose proof (TU_upd u t d hot l st (next_memory_steal_ st) v
      (SetMaxSize (max_size_ v - kStealAmount) v) HU Hv eq_refl eq_refl eq_refl eq_refl) as HU2.
    pose proof Ht as [w Hw]%(lk_dom _ _ (TU_links _ _ _ _ _ _ HU2)). apply wp_bind. eapply wp_upd_tc; [done|].
    apply wp_bind, wp_mod, wp_ret. 
    eapply TU_static; [apply (TU_upd _ _ _ _ _ _ t w (SetMaxSize (max_size_ w + kStealAmount) w) HU2 Hw); done
      |done|done|done|exact Hn].
Qed.

Lemma wp_IncreaseCacheLimitLocked u t d hot l st : TU u t d hot l st -> t ∈ l ->
  wp (IncreaseCacheLimitLocked t) (fun _ st' => TU u t d hot l st') st.
Proof.
  intros HU Ht. unfold IncreaseCacheLimitLocked. apply wp_bind, wp_get. destruct (_ >? 0).
  - pose proof (TU_links _ _ _ _ _ _ HU) as HL. apply wp_bind, wp_mod. pose proof Ht as [w Hw]%(lk_dom _ _ HL).
    eapply wp_upd_tc; [exact Hw|]. eapply TU_upd; [|exact Hw|done..]. eapply TU_static; [done|done|done|done|apply HL].
  - generalize 10%nat. intros n. revert st HU. induction n as [|n IH]; intros st HU; [by apply wp_ret|]. cbn [steal_loop].
    apply wp_bind. eapply wp_mono; [by apply wp_steal_step|]. intros [[]|[]] st' HU'; [by apply IH|by apply wp_ret].
Qed.

(** ** Scavenging *)

Lemma wp_scavenge_class u t l st cl : TU u t 0 (-1) l st -> t ∈ l -> 0 <= cl < ncl ->
  wp (scavenge_class sizemap t cl) (fun _ st' => TU u t 0 (-1) l st') st.
Proof.
  intros HU Ht Hcl. destruct (TU_get _ _ _ _ _ _ cl HU Ht Hcl) as (v & f & Hv & Hf & Hok).
  rewrite (slack_none cl) in Hok by lia. pose proof (fl_range _ _ _ Hok ltac:(lia)) as Hr.
  pose proof (fl_low _ _ _ Hok) as Hlow. unfold scavenge_class. apply wp_bind. eapply wp_get_fl; [done|done|].
  cbn zeta. rewrite (s32_small (lowater_ f)) by lia. apply wp_bind.
  eapply (wp_mono _ (fun _ st' => TU u t 0 (-1) l st')).
  { rewrite Z.gtb_ltb. destruct (Z.ltb_spec 0 (lowater_ f)); [|by apply wp_ret].
    assert (1 <= cl < ncl) as Hcl1.
    { destruct (Z.eq_dec cl 0) as [E|]; [|lia]. pose proof (fl_len _ _ _ Hok) as Hlen.
      rewrite (fl_zero _ _ _ Hok E) in Hlen. cbn in Hlen. lia. }
    destruct (ts_class Hsm cl Hcl1) as [_ Hmv]. apply wp_bind.
    eapply wp_mono; [eapply (wp_ReleaseToCentralCache u t 0 (-1) l cl); [done|done|done|by left|done|done| |lia]|].
    { rewrite Z.gtb_ltb. destruct (Z.ltb_spec 1 (lowater_ f)); [|lia]. apply Z.div_pos; lia. }
    intros [] st1 HU1. apply wp_bind. eapply wp_lift; [apply aget_cls; lia|]. fold (move_of_class cl).
    destruct (TU_get _ _ _ _ _ _ cl HU1 Ht Hcl) as (v1 & f1 & Hv1 & Hf1 & Hok1).
    apply wp_bind. eapply wp_get_fl; [done|done|]. destruct (_ >? _); [|by apply wp_ret].
    eapply wp_put_fl; [done|]. eapply TU_field; [done|by left|by left|done|done|done| |done].
    apply set_max_ok; [done|]. pose proof (fl_max _ _ _ Hok1). lia. }
  intros [] st1 HU1. destruct (TU_get _ _ _ _ _ _ cl HU1 Ht Hcl) as (v1 & f1 & Hv1 & Hf1 & Hok1).
  apply wp_bind. eapply wp_get_fl; [done|done|]. eapply wp_put_fl; [done|].
  eapply TU_field; [done|by left|by left|done|done|done|by apply clear_low_ok|done].
Qed.

Lemma wp_for_classes u t l st (g : Z -> M caches unit) :
  (forall cl st, 0 <= cl < ncl -> TU u t 0 (-1) l st -> wp (g cl) (fun _ st' => TU u t 0 (-1) l st') st) ->
  TU u t 0 (-1) l st -> wp (forM_ (for_range 0 (ncl - 1) 1) g) (fun _ st' => TU u t 0 (-1) l st') st.
Proof.
  intros Hg. assert (forall cs, (forall c, c ∈ cs -> 0 <= c < ncl) -> forall st, TU u t 0 (-1) l st ->
    wp (forM_ cs g) (fun _ st' => TU u t 0 (-1) l st') st) as H'.
  { induction cs as [|c cs IH]; intros Hcs st' HU; [by apply wp_ret|]. cbn [forM_]. apply wp_bind.
    eapply wp_mono; [apply Hg; [apply Hcs; by left|done]|]. intros [] st2 HU2. apply IH; [|done].
    intros c' Hc'. apply Hcs. by right. }
  apply H'. intros c Hc%elem_of_for_range1. lia.
Qed.

Lemma wp_Scavenge u t l st : TU u t 0 (-1) l st -> t ∈ l ->
  wp (Scavenge sizemap t) (fun _ st' => TU u t 0 (-1) l st') st.
Proof.
  intros HU Ht. unfold Scavenge. apply wp_bind. eapply wp_mono; [apply wp_for_classes; [|done]|].
  - intros cl st' Hcl HU'. by apply wp_scavenge_class.
  - intros [] st1 HU1. by apply wp_IncreaseCacheLimitLocked.
Qed.

Lemma wp_maybe_scavenge u t l st : TU u t 0 (-1) l st -> t ∈ l ->
  wp (v ← get_tc t; if size_ v >? max_size_ v then Scavenge sizemap t else mret tt) (fun _ st' => TU u t 0 (-1) l st') st.
Proof.
  intros HU Ht. pose proof Ht as [w Hw]%(lk_dom _ _ (TU_links _ _ _ _ _ _ HU)). apply wp_bind. eapply wp_get_tc; [done|].
  destruct (_ >? _); [by apply wp_Scavenge|by apply wp_ret].
Qed.

(** ** Allocation and deallocation *)

Lemma give_cons_in (cl x : Z) xs (u : gmap Z Z) : x ∉ xs -> give cl (x :: xs) u = give cl xs (<[x := cl]> u).
Proof.
  intros Hx. apply map_eq. intros y. rewrite !lookup_give. destruct (decide (y = x)) as [->|Hne].
  - rewrite decide_True by set_solver. destruct (decide (x ∈ xs)); [done|]. by rewrite lookup_insert_eq.
  - destruct (decide (y ∈ xs)), (decide (y ∈ x :: xs)); try set_solver. by rewrite lookup_insert_ne.
Qed.

(** The new maximum after a fetch. *)
Lemma fetch_max_ok cl f : 1 <= cl < ncl -> fl_ok 0 cl f ->
  fl_ok 0 cl (if max_length_ f <? move_of_class cl then FL.set_max_length (max_length_ f + 1) f
    else let new_length := Z.min (s32 (max_length_ f + move_of_class cl)) kMaxDynamicFreeListLength in
         FL.set_max_length (new_length - Z.rem new_length (move_of_class cl)) f).
Proof.
  intros Hcl Hok. destruct (ts_class Hsm cl Hcl) as [_ Hmv]. pose proof (fl_max _ _ _ Hok) as Hmax.
  change kMaxDynamicFreeListLength with 8192 in *.
  destruct (Z.ltb_spec (max_length_ f) (move_of_class cl)); apply set_max_ok; try done; [clia|].
  rewrite s32_small by lia. set (n := Z.min _ _). assert (move_of_class cl <= n <= 8192) as Hn by lia.
  rewrite Z.rem_mod_nonneg by lia. pose proof (Z.div_mod n (move_of_class cl) ltac:(lia)).
  pose proof (Z.mod_pos_bound n (move_of_class cl) ltac:(lia)).
  assert (1 <= n / move_of_class cl) by (apply Z.div_le_lower_bound; lia). clia || (consts; nia).
Qed.

Lemma wp_FetchFromCentralCache oom u t l cl v f (Q : Z -> caches -> Prop) st : 1 <= cl < ncl ->
  TU u t 0 (-1) l st -> t ∈ l -> heaps st !! t = Some v -> lists v !! cl = Some f -> list_ f = [] ->
  (forall st', TU u t 0 (-1) l st' -> wp (oom (u64 (bytes_of_class cl))) Q st') ->
  (forall x st', u !! x = None -> TU (<[x := cl]> u) t 0 (-1) l st' -> Q x st') ->
  wp (FetchFromCentralCache sizemap oom t cl (bytes_of_class cl)) Q st.
Proof.
  intros Hcl HU Ht Hv Hf El Hoom HQ. destruct (ts_class Hsm cl Hcl) as [Hsz Hmv].
  change kMaxDynamicFreeListLength with 8192 in Hmv. change kMaxSize with 262144 in Hsz.
  destruct (TU_get _ _ _ _ _ _ cl HU Ht ltac:(lia)) as (v' & f' & Hv' & Hf' & Hok).
  assert (v' = v) as -> by congruence. assert (f' = f) as -> by congruence. rewrite (slack_none cl) in Hok by lia.
  pose proof (fl_max _ _ _ Hok) as Hmax. change kMaxDynamicFreeListLength with 8192 in Hmax.
  unfold FetchFromCentralCache. apply wp_bind. eapply wp_get_fl; [done|done|]. apply wp_bind.
  eapply wp_lift; [apply aget_cls; lia|]. fold (move_of_class cl). cbn zeta. rewrite (s32_small (max_length_ f)) by lia.
  apply wp_bind. eapply wp_central_remove; [done| |done|]; [lia|]. intros xs c Hnd Hlen Hu HU1.
  destruct xs as [|x xs]; [by apply Hoom|]. apply NoDup_cons in Hnd as [Hx Hnd]. cbn [length] in Hlen.
  rewrite give_cons_in in HU1 by done. apply wp_bind. eapply wp_upd_tc; [exact Hv|].
  rewrite (s32_small (bytes_of_class cl)) by lia.
  pose proof (TU_size _ _ _ _ (bytes_of_class cl * Z.of_nat (length xs)) _ _ v HU1 Hv) as HU2.
  apply wp_bind. eapply wp_get_fl; [apply lookup_insert_eq|exact Hf|].
  assert (fl_ok 0 cl (FL.PushRange (Z.of_nat (length xs)) xs f)) as Hok2.
  { apply PushRange_ok; [done|lia|done|done|]. clia. }
  apply wp_bind. eapply wp_put_fl; [apply lookup_insert_eq|]. apply wp_ret. apply HQ; [apply Hu; by left|].
  set (f2 := if _ <? _ then _ else _).
  assert (fl_ok 0 cl f2) as Hok3 by (by apply fetch_max_ok).
  assert (list_ f2 = xs ++ list_ f) as El2 by (unfold f2; by destruct (_ <? _)).
  eapply TU_debt; [rewrite <- (add_size_0 _ _ _ _ _ _ _ HU2 (lookup_insert_eq _ _ _)); eapply (TU_push _ _ _ (-1) (-1));
    [exact HU2|by left|by left|apply lookup_insert_eq|exact Hf| | |exact El2|]|lia].
  - by rewrite (slack_none cl) by lia.
  - by rewrite (slack_none cl) by lia.
  - intros y Hy. rewrite lookup_insert_ne by congruence. apply Hu. by right.
Qed.

Lemma wp_Allocate oom u t l cl (Q : Z -> caches -> Prop) st : 1 <= cl < ncl -> TU u t 0 (-1) l st -> t ∈ l ->
  (forall st', TU u t 0 (-1) l st' -> wp (oom (u64 (bytes_of_class cl))) Q st') ->
  (forall x st', u !! x = None -> TU (<[x := cl]> u) t 0 (-1) l st' -> Q x st') ->
  wp (Allocate sizemap oom t (bytes_of_class cl) cl) Q st.
Proof.
  intros Hcl HU Ht Hoom HQ. destruct (TU_get _ _ _ _ _ _ cl HU Ht ltac:(lia)) as (v & f & Hv & Hf & Hok).
  rewrite (slack_none cl) in Hok by lia. unfold Allocate. apply wp_bind. eapply wp_get_fl; [done|done|].
  pose proof (TryPop_ok cl f Hok) as Hp. destruct (FL.TryPop f) as [[x f']|]; [|by eapply wp_FetchFromCentralCache].
  destruct Hp as [El Hok']. destruct (TU_take u t 0 (-1) (-1) 0 l st v cl f f' [x]) as (_ & Hu & HU1);
    [done|by left|by left|done|done|by rewrite (slack_none cl) by lia|by rewrite (slack_none cl) by lia|done|].
  rewrite (add_size_0 _ _ _ _ _ _ _ HU Hv) in HU1. apply wp_bind. eapply wp_put_fl; [done|].
  apply wp_bind. eapply wp_upd_tc; [apply lookup_insert_eq|]. apply wp_ret. apply HQ; [apply Hu; by left|].
  eapply TU_debt; [eapply TU_size; [exact HU1|apply lookup_insert_eq]|]. cbn [length]. lia.
Qed.

Lemma wp_ListTooLong u t l cl st v f : 1 <= cl < ncl -> TU u t (- bytes_of_class cl) cl l st -> t ∈ l ->
  heaps st !! t = Some v -> lists v !! cl = Some f -> 1 <= length_ f ->
  wp (ListTooLong sizemap t cl) (fun _ st' => TU u t 0 (-1) l st') st.
Proof.
  intros Hcl HU Ht Hv Hf Hlen. destruct (ts_class Hsm cl Hcl) as [Hsz Hmv].
  destruct (TU_get _ _ _ _ _ _ cl HU Ht ltac:(lia)) as (v' & f' & Hv' & Hf' & Hok).
  assert (v' = v) as -> by congruence. assert (f' = f) as -> by congruence.
  unfold ListTooLong. apply wp_bind. eapply wp_get_fl; [done|done|]. apply wp_bind. eapply wp_upd_tc; [done|].
  rewrite (fl_size _ _ _ Hok). pose proof (TU_size _ _ _ _ (bytes_of_class cl) _ _ v HU Hv) as HU1.
  rewrite Z.add_opp_diag_l in HU1. apply wp_bind. eapply wp_lift; [apply aget_cls; lia|]. fold (move_of_class cl).
  apply wp_bind. eapply wp_mono; [eapply (wp_ReleaseToCentralCache u t 0 cl l cl);
    [done|exact HU1|done|by right|apply lookup_insert_eq|exact Hf|lia|lia]|].
  intros [] st2 HU2. destruct (TU_get _ _ _ _ _ _ cl HU2 Ht ltac:(lia)) as (v2 & f2 & Hv2 & Hf2 & Hok2).
  apply wp_bind. eapply wp_get_fl; [done|done|]. apply wp_bind.
  eapply (wp_mono _ (fun _ st' => TU u t 0 (-1) l st')); [|intros [] st3 HU3; by apply wp_maybe_scavenge].
  pose proof (fl_max _ _ _ Hok2) as Hmax. pose proof (fl_over _ _ _ Hok2) as Hov. rewrite Z.gtb_ltb.
  destruct (Z.ltb_spec (max_length_ f2) (move_of_class cl)).
  { eapply wp_put_fl; [done|]. eapply TU_field; [done|by left|by left|done|done|done| |done]. apply set_max_ok; [done|lia]. }
  destruct (Z.ltb_spec (move_of_class cl) (max_length_ f2)); [|by apply wp_ret].
  eapply wp_put_fl; [done|]. eapply TU_field; [done|by left|by left|done|done|done| |].
  - cbn [length_overages_ FL.set_length_overages]. rewrite u32_small by clia. rewrite Z.gtb_ltb.
    destruct (Z.ltb_spec kMaxOverages (length_overages_ f2 + 1)) as [Hgt|Hle].
    + pose proof Hok2 as [? ? ? ? ? ? ? ?]. constructor; cbn; try done. rewrite u32_small; clia.
    + apply set_overages_ok; [done|lia].
  - cbn [length_overages_ FL.set_length_overages]. by destruct (_ >? _).
Qed.

Lemma wp_Deallocate u t l cl x st : 1 <= cl < ncl -> TU (<[x := cl]> u) t 0 (-1) l st -> u !! x = None -> t ∈ l ->
  wp (Deallocate sizemap t x cl) (fun _ st' => TU u t 0 (-1) l st') st.
Proof.
  intros Hcl HU Hux Ht. destruct (TU_get _ _ _ _ _ _ cl HU Ht ltac:(lia)) as (v & f & Hv & Hf & Hok).
  rewrite (slack_none cl) in Hok by lia. unfold Deallocate. apply wp_bind. eapply wp_get_fl; [done|done|].
  assert (x ∉ list_ f) as Hx.
  { destruct HU as (loc & Eu & HI). intros Hin. apply (list_place _ _ _ _ _ _ _ _ _ x HI Hv Hf) in Hin.
    assert (loc !! x = Some (None, cl)) as E by (apply lookup_users; rewrite Eu; apply lookup_insert_eq). congruence. }
  destruct (Push_ok cl f x Hok ltac:(lia) Hx) as (f' & -> & El & Hok1 & Hl' & Hm' & Hok0).
  apply wp_bind. eapply wp_put_fl; [done|].
  assert (forall hot', hot_ok hot' cl -> fl_ok (slack hot' cl) cl f' ->
    TU u t (- bytes_of_class cl) hot' l (with_heaps (<[t := with_list cl f' v]> (heaps st)) st)) as Hpush.
  { intros hot' Hh' Hok'. eapply TU_debt; [rewrite <- (add_size_0 _ _ _ _ _ _ _ HU Hv);
      eapply (TU_push u t 0 (-1) hot' 0 l st v cl f f' [x]);
      [exact HU|by left|done|done|done|by rewrite (slack_none cl) by lia|done|done|by intros y ->%list_elem_of_singleton]
      |cbn [length]; lia]. }
  rewrite Z.gtb_ltb, <- Hl'. destruct (Z.ltb_spec (max_length_ f') (length_ f')) as [Hgt|Hle].
  - pose proof (fl_range _ _ _ Hok ltac:(lia)).
    eapply (wp_ListTooLong u t l cl _ (with_list cl f' v) f'); [done| |done|apply lookup_insert_eq|apply lookup_insert_eq|lia].
    apply Hpush; [by right|]. unfold slack. by rewrite decide_True.
  - apply wp_bind. eapply wp_upd_tc; [apply lookup_insert_eq|]. apply wp_maybe_scavenge; [|done].
    eapply TU_debt; [eapply TU_size; [apply (Hpush (-1)); [by left|]|apply lookup_insert_eq]|].
    + rewrite (slack_none cl) by lia. by apply Hok0.
    + rewrite (fl_size _ _ _ Hok1). lia.
Qed.

(** ** Conservation of the limits *)

Definition limit_of st (t : Z) : Z := match heaps st !! t with Some v => max_size_ v | None => 0 end.
Definition limits st (l : list Z) : Z := unclaimed_cache_space_ st + sumZ (limit_of st) l.

Lemma limits_upd st l t v m : NoDup l -> t ∈ l -> heaps st !! t = Some v -> - 2 ^ 31 <= m < 2 ^ 31 ->
  limits (with_heaps (<[t := SetMaxSize m v]> (heaps st)) st) l = limits st l + m - max_size_ v.
Proof.
  intros Hnd Ht Hv Hm. apply elem_of_Permutation in Ht as (k & HP). rewrite HP in Hnd. apply NoDup_cons in Hnd as [Hn _].
  unfold limits. rewrite !(sumZ_perm _ _ _ HP). cbn [sumZ foldr unclaimed_cache_space_ with_heaps].
  set (st' := with_heaps _ _). fold (sumZ (limit_of st') k) (sumZ (limit_of st) k).
  rewrite (sumZ_ext (limit_of st') (limit_of st) k).
  - unfold limit_of at 1 3. unfold st'. cbn. rewrite lookup_insert_eq, Hv. cbn. rewrite s32_small by lia. lia.
  - intros y Hy. unfold limit_of, st'. cbn. rewrite lookup_insert_ne; [done|congruence].
Qed.

(** No cache is within one step of the ends of [int32_t]. *)
Definition limits_small st : Prop := forall t v, heaps st !! t = Some v ->
  - 2 ^ 31 + kStealAmount <= max_size_ v < 2 ^ 31 - kStealAmount.

Lemma steal_step_limits u t d hot l st : TU u t d hot l st -> t ∈ l -> limits_small st ->
  wp (steal_step t tt) (fun r st' => limits st' l = limits st l /\ (r = inl tt -> heaps st' = heaps st /\ TU u t d hot l st')) st.
Proof.
  intros HU Ht Hsmall. pose proof (wp_steal_step _ _ _ _ _ _ HU Ht) as Hw.
  pose proof (lk_nodup _ _ (TU_links _ _ _ _ _ _ HU)) as Hnd.
  enough (wp (steal_step t tt) (fun r st' => limits st' l = limits st l /\ (r = inl tt -> heaps st' = heaps st)) st) as He.
  { eapply wp_mono; [apply (wp_conj _ _ _ _ Hw He)|]. intros r st' (HU' & HE & HI). auto. }
  clear Hw. unfold steal_step. apply wp_bind, wp_get. apply wp_bind.
  eapply (wp_mono _ (fun _ st' => TU u t d hot l st' /\ next_memory_steal_ st' ∈ l /\ heaps st' = heaps st /\
    unclaimed_cache_space_ st' = unclaimed_cache_space_ st)).
  { pose proof (TU_links _ _ _ _ _ _ HU) as HL. destruct (Z.eqb_spec (next_memory_steal_ st) 0) as [E|E].
    - apply wp_mod. assert (thread_heaps_ st ∈ l) as Hin.
      { pose proof (lk_chain _ _ HL) as Hc. destruct l as [|y l']; [by apply elem_of_nil in Ht|]. cbn in Hc.
        destruct Hc as [-> _]. by left. }
      split; [|done]. eapply TU_static; [done|done|done|done|by right].
    - apply wp_ret. split; [done|]. split; [|done]. by destruct (lk_steal _ _ HL). }
  intros [] st1 (HU1 & Hs & Eh & Eun). pose proof (TU_links _ _ _ _ _ _ HU1) as HL. apply wp_bind, wp_get. cbn zeta.
  assert (limits st1 l = limits st l) as El.
  { unfold limits. rewrite Eun. f_equal. apply sumZ_ext. intros y _. unfold limit_of. by rewrite Eh. }
  assert (limits_small st1) as Hsmall1 by (unfold limits_small; by rewrite Eh).
  rewrite <- Eh, <- El. clear Eh Eun El HU Hsmall st. rename Hsmall1 into Hsmall.
  pose proof Hs as [v Hv]%(lk_dom _ _ HL). apply wp_bind. eapply wp_get_tc; [done|].
  destruct (Z.eqb_spec (next_memory_steal_ st1) t) as [Eq|Hne]; cbn [orb]; [by apply wp_bind, wp_mod, wp_ret|].
  destruct (_ <=? _); [by apply wp_bind, wp_mod, wp_ret|].
  pose proof (Hsmall _ _ Hv) as Hmv. apply wp_bind, wp_put_tc. set (st2 := with_heaps _ st1).
  pose proof Ht as [w Hw]%(lk_dom _ _ HL). pose proof (Hsmall _ _ Hw) as Hmw.
  assert (heaps st2 !! t = Some w) as Hw2 by (unfold st2; cbn; by rewrite lookup_insert_ne).
  apply wp_bind. eapply wp_upd_tc; [exact Hw2|]. apply wp_bind, wp_mod, wp_ret. split; [|discriminate].
  change (limits (with_heaps (<[t := SetMaxSize (max_size_ w + kStealAmount) w]> (heaps st2)) st2) l = limits st1 l).
  change kStealAmount with 65536 in *.
  rewrite (limits_upd st2 l t w) by (done || lia). unfold st2. rewrite (limits_upd st1 l _ v) by (done || lia). lia.
Qed.

Lemma steal_loop_limits n u t d hot l st : TU u t d hot l st -> t ∈ l -> limits_small st ->
  wp (steal_loop t n) (fun _ st' => limits st' l = limits st l) st.
Proof.
  intros HU Ht Hs. revert st HU Hs. induction n as [|n IH]; intros st HU Hs; [by apply wp_ret|]. cbn [steal_loop].
  apply wp_bind. eapply wp_mono; [by eapply steal_step_limits|]. intros [[]|[]] st' [El Hk]; [|by apply wp_ret].
  destruct (Hk eq_refl) as [Eh HU']. rewrite <- El. apply IH; [done|]. unfold limits_small. by rewrite Eh.
Qed.

(** ** Properties *)

(** C8: an allocation from a thread cache never yields an object that is in
    use. With [u] the objects users hold, [Allocate] for a class either
    returns an object outside [u] and leaves a consistent state in which
    users hold [u] and that object, or finds the central list empty and
    answers with the handler, the state still consistent with [u]. The
    lengths, low-water marks and byte counts of the lists stay exact. *)
Theorem Allocate_correct oom u t l cl (Q : Z -> caches -> Prop) st (Hcl : 1 <= cl < ncl) (HU : TU u t 0 (-1) l st)
    (Ht : t ∈ l) (Hoom : forall st', TU u t 0 (-1) l st' -> wp (oom (u64 (bytes_of_class cl))) Q st') :
  wp (Allocate sizemap oom t (bytes_of_class cl) cl) (fun r st' =>
    u !! r = None /\ TU (<[r := cl]> u) t 0 (-1) l st' \/ Q r st') st.
Proof.
  apply (wp_Allocate oom u t l cl); try done; [|by left]. intros st' HU'. eapply wp_mono; [by apply Hoom|]. by right.
Qed.

(** C9: a deallocation takes the object back from its user and nothing
    else: whether it stays in the list, the list is cut back or the whole
    cache is scavenged, users hold exactly the other objects afterwards,
    every list is at most 8192 long, and all counts agree. Every loop ends. *)
Theorem Deallocate_correct u t l cl x st (Hcl : 1 <= cl < ncl) (HU : TU (<[x := cl]> u) t 0 (-1) l st)
    (Hx : u !! x = None) (Ht : t ∈ l) :
  wp (Deallocate sizemap t x cl) (fun _ st' => TU u t 0 (-1) l st') st.
Proof. by apply wp_Deallocate. Qed.

(** The limits are conserved. [IncreaseCacheLimit] moves space to the
    calling cache from the unclaimed pool or from one other cache: the
    unclaimed space plus the limits of all caches stay what they were, so
    [unclaimed_cache_space_] keeps the meaning its comment gives it. *)
Theorem IncreaseCacheLimit_conserves u t d hot l st (HU : TU u t d hot l st) (Ht : t ∈ l) (Hs : limits_small st)
    (Hun : - 2 ^ 62 <= unclaimed_cache_space_ st < 2 ^ 62) :
  wp (IncreaseCacheLimit t) (fun _ st' => limits st' l = limits st l) st.
Proof.
  unfold IncreaseCacheLimit, IncreaseCacheLimitLocked. apply wp_bind, wp_get. rewrite Z.gtb_ltb.
  destruct (Z.ltb_spec 0 (unclaimed_cache_space_ st)); [|by eapply steal_loop_limits].
  pose proof (TU_links _ _ _ _ _ _ HU) as HL. pose proof Ht as [w Hw]%(lk_dom _ _ HL).
  pose proof (Hs _ _ Hw) as Hmw. change kStealAmount with 65536 in *. apply wp_bind, wp_mod.
  set (st1 := with_unclaimed _ st). eapply wp_upd_tc; [exact Hw|].
  rewrite (limits_upd st1 l t w); [|apply HL|done|done|lia].
  assert (limits st1 l = limits st l - 65536) as ->; [|lia]. unfold limits, st1. cbn [unclaimed_cache_space_ with_unclaimed].
  rewrite s64_small by lia. change (sumZ (limit_of (with_unclaimed _ st)) l) with (sumZ (limit_of st) l). lia.
Qed.

(** A minimum below the steal amount breaks the limits. A cache whose
    limit is above the minimum but below 64 KiB is stolen from down to a
    negative limit; and since the comparison with the minimum is unsigned,
    a cache with a negative limit is stolen from again. *)
Theorem steal_below_zero this st v (Hne : next_memory_steal_ st <> this) (H0 : next_memory_steal_ st <> 0)
    (Hv : heaps st !! next_memory_steal_ st = Some v) (Hthis : is_Some (heaps st !! this))
    (Hmin : 0 <= min_per_thread_cache_size_ st < 2 ^ 63)
    (Hm : min_per_thread_cache_size_ st < max_size_ v < kStealAmount \/ - 2 ^ 31 + kStealAmount <= max_size_ v < 0) :
  exists st', steal_step this tt st = Ret (inr tt, st') /\
    limit_of st' (next_memory_steal_ st) = max_size_ v - kStealAmount /\ max_size_ v - kStealAmount < 0.
Proof.
  destruct Hthis as [w Hw]. change kStealAmount with 65536 in *. unfold steal_step, mbind, M_bind, getS, mret, M_ret.
  rewrite (proj2 (Z.eqb_neq _ _) H0). unfold get_tc, mbind, M_bind, getS, liftM. rewrite Hv. cbn [deref].
  rewrite (proj2 (Z.eqb_neq _ _) Hne). cbn [orb].
  rewrite (proj2 (Z.leb_gt _ _)).
  2: { destruct Hm as [Hm|Hm]; [rewrite u64_small; lia|]. rewrite (u64_eq _ (max_size_ v + 2 ^ 64)) by (exists (-1); lia).
       rewrite u64_small; lia. }
  unfold put_tc, upd_tc, modS, get_tc, mbind, M_bind, getS, liftM. cbn [heaps with_heaps].
  rewrite lookup_insert_ne by done. rewrite Hw. cbn [deref]. eexists. split; [done|]. split; [|lia].
  unfold limit_of. cbn [heaps with_heaps with_steal]. rewrite lookup_insert_ne by congruence.
  rewrite lookup_insert_eq. cbn [max_size_ SetMaxSize]. apply s32_small. lia.
Qed.
End Spec.

(** ** Concrete parameters for the witnesses

    One cache at address 100, one class, the object 4096 in its list; below
    it a central list that has nothing to give but the memory of one more
    cache. *)
Module ToyCaches.
#[export] Instance central : CentralCache (gmap Z Z * gset Z) := {|
  cc_RemoveRange _ _ := mret [];
  cc_InsertRange _ l _ := modS (fun c => (filter (fun '(x, _) => x ∉ l) c.1, c.2));
  threadcache_allocator_New := c ← getS; if decide (200 ∈ c.2) then liftM (Fault OOM) else
    _ ← modS (fun c => (c.1, {[200]} ∪ c.2)); mret 200;
  threadcache_allocator_Delete r := modS (fun c => (c.1, c.2 ∖ {[r]}));
  cc_live c := c.2 |}.

Definition sm : SizeMap := mkSizeMap ∅ {[1 := 2]} {[1 := 2048]} {[1 := 1]} 1 2.
Definition holds (m : gmap Z Z) (c : gmap Z Z * gset Z) : Prop := c.1 = m.

Lemma toy_sizes_ok : tc_sizemap_ok sm.
Proof. constructor; [done|done|]. cbn. intros cl Hcl. assert (cl = 1) as -> by lia. done. Qed.

#[export] Instance laws : CentralCacheLaws sm holds.
Proof.
  constructor.
  - intros m cl N c Hh _ HN. apply wp_ret. split; [constructor|]. split; [cbn; lia|].
    split; [by intros x ?%elem_of_nil|]. done.
  - intros m cl l c _ Hnd Hl Hh. apply wp_mod. split; [|done]. unfold holds in *. cbn in *. rewrite Hh. apply map_eq. intros x. apply option_eq.
    intros v. rewrite map_lookup_filter_Some, lookup_give. destruct (decide (x ∈ l)) as [Hin|Hin].
    + rewrite (Hl x Hin). naive_solver.
    + naive_solver.
  - intros m c Hh. cbn. apply wp_bind, wp_get. case_decide as Hd; [done|]. by apply wp_bind, wp_mod, wp_ret.
  - intros m r c Hh Hr. apply wp_mod. done.
Qed.

Definition list0 : FreeList := FL.Init 0.
Definition list1 : FreeList := mkFL [4096] 1 0 1 0 2048.
Definition tc : ThreadCache := mkTC (<[0 := list0]> {[1 := list1]}) 2048 65536 (Sampler.mkSampler 0 0 false) 0 0.
Definition state (held : gmap Z Z) : Caches (gmap Z Z * gset Z) :=
  mkCaches {[100 := tc]} 100 1 0 524288 33554432 4194304 33488896 (held, {[100]}).

Lemma heap100 t v : ({[100 := tc]} : gmap Z ThreadCache) !! t = Some v <-> t = 100 /\ v = tc.
Proof. rewrite lookup_singleton_Some. naive_solver. Qed.
Lemma list_cases cl f : lists tc !! cl = Some f -> cl = 0 /\ f = list0 \/ cl = 1 /\ f = list1.
Proof. cbn -[lookup insert]. rewrite lookup_insert_Some, lookup_singleton_Some. naive_solver. Qed.

Definition loc (x : option Z) : gmap Z (option Z * Z) :=
  match x with None => {[4096 := (Some 100, 1)]} | Some y => <[y := (None, 1)]> {[4096 := (Some 100, 1)]} end.

Lemma links held : links_ok (state held) [100].
Proof.
  constructor; cbn -[lookup].
  - split; [done|]. exists tc. done.
  - apply NoDup_singleton.
  - intros t. rewrite list_elem_of_singleton. split.
    + intros ->. by exists tc.
    + by intros [v [-> _]%heap100].
  - by intros ?%list_elem_of_singleton.
  - by left.
  - intros t ->%list_elem_of_singleton. by apply elem_of_singleton.
Qed.

Lemma inv lc held : snd <$> lc = held -> (forall x t cl, lc !! x = Some (Some t, cl) <-> x = 4096 /\ t = 100 /\ cl = 1) ->
  TInv sm holds lc 100 0 (-1) [100] (state held).
Proof.
  intros Hh Hl. constructor.
  - by symmetry.
  - intros t cl x. rewrite Hl. unfold cached. cbn -[lookup lists]. split.
    + intros (v & f & [-> ->]%heap100 & [[-> ->]|[-> ->]]%list_cases & Hx); [by apply elem_of_nil in Hx|].
      apply list_elem_of_singleton in Hx. done.
    + intros (-> & -> & ->). exists tc, list1. split; [done|]. split; [done|]. by left.
  - cbn -[lookup]. intros t v [-> ->]%heap100. rewrite decide_True by done. constructor.
    + cbn. intros cl Hcl. assert (cl = 0 \/ cl = 1) as [->| ->] by lia; eexists; (split; [done|]); rewrite slack_none by lia;
        constructor; try done; [constructor|apply NoDup_singleton].
    + intros cl f [[-> _]|[-> _]]%list_cases; cbn; lia.
  - cbn -[lookup]. by intros t v [-> ->]%heap100.
  - apply links.
Qed.

Lemma state_idle : TU sm holds ∅ 100 0 (-1) [100] (state {[4096 := 1]}).
Proof.
  exists (loc None). split; [by apply map_eq|]. apply inv; [unfold loc; by rewrite map_fmap_singleton|].
  intros x t cl. cbn -[lookup]. rewrite lookup_singleton_Some. naive_solver.
Qed.
Lemma state_used : TU sm holds {[8192 := 1]} 100 0 (-1) [100] (state (<[8192 := 1]> {[4096 := 1]})).
Proof.
  exists (loc (Some 8192)). split.
  - apply map_eq. intros x. apply option_eq. intros c. rewrite lookup_users. cbn -[lookup insert].
    rewrite lookup_insert_Some, !lookup_singleton_Some. naive_solver.
  - apply inv; [unfold loc; by rewrite fmap_insert, map_fmap_singleton|].
    intros x t cl. cbn -[lookup insert]. rewrite lookup_insert_Some, lookup_singleton_Some. naive_solver.
Qed.
End ToyCaches.
#[export] Existing Instance ToyCaches.central.
#[export] Existing Instance ToyCaches.laws.

Lemma Allocate_correct_witness : wp (Allocate ToyCaches.sm (fun _ => mret 0) 100 2048 1)
  (fun r st' => TU ToyCaches.sm ToyCaches.holds {[r := 1]} 100 0 (-1) [100] st' \/ r = 0) (ToyCaches.state {[4096 := 1]}).
Proof.
  eapply wp_mono; [apply (Allocate_correct ToyCaches.sm ToyCaches.holds ToyCaches.toy_sizes_ok (fun _ => mret 0) ∅ 100 [100] 1 (fun r _ => r = 0));
    [done|apply ToyCaches.state_idle|by left|done]|].
  intros r st' [[_ HU]|E]; [by left|by right].
Defined.

Lemma Deallocate_correct_witness : wp (Deallocate ToyCaches.sm 100 8192 1)
  (fun _ st' => TU ToyCaches.sm ToyCaches.holds ∅ 100 0 (-1) [100] st') (ToyCaches.state (<[8192 := 1]> {[4096 := 1]})).
Proof.
  apply (Deallocate_correct ToyCaches.sm ToyCaches.holds ToyCaches.toy_sizes_ok ∅ 100 [100] 1 8192); [done|apply ToyCaches.state_used|done|by left].
Defined.

Lemma IncreaseCacheLimit_conserves_witness :
  wp (IncreaseCacheLimit 100) (fun _ st' => limits st' [100] = 33554432) (ToyCaches.state {[4096 := 1]}).
Proof.
  eapply wp_mono; [apply (IncreaseCacheLimit_conserves ToyCaches.sm ToyCaches.holds ∅ 100 0 (-1) [100]);
    [apply ToyCaches.state_idle|by left|by intros t v [-> ->]%ToyCaches.heap100|done]|].
  by intros [] st' ->.
Defined.

Definition two_caches : Caches (gmap Z Z * gset Z) :=
  mkCaches (<[200 := SetMaxSize 10 ToyCaches.tc]> {[100 := ToyCaches.tc]}) 100 2 200 0 0 0 0 (∅, {[100; 200]}).

Lemma steal_below_zero_witness : exists st', steal_step 100 tt two_caches = Ret (inr tt, st') /\
  limit_of st' 200 = 10 - kStealAmount /\ 10 - kStealAmount < 0.
Proof.
  apply (steal_below_zero 100 two_caches (SetMaxSize 10 ToyCaches.tc)); try done.
  by left.
Defined.
