(* ===== verification/ThreadCacheLife.v ===== *)
(** * Thread caches come and go

    [NewHeap] adds an empty cache at the front of the list of caches;
    [DeleteCache] gives everything a cache holds back to the central lists
    and takes it off the list. Users keep what they hold throughout. *)
From S2P Require Import Prelude Common Sampler ThreadCache ThreadCacheSpec.
Import SizeMap TC.

Section Life.
Context {C : Type} `{!CentralCache C}.
Context (sizemap : SizeMap) (cc_holds : gmap Z Z -> C -> Prop) `{!CentralCacheLaws sizemap cc_holds}.
Context (flag : Z) (draw : Z -> Z -> Z).
Abbreviation caches := (Caches C).
Abbreviation ncl := (num_size_classes sizemap).
Abbreviation TU := (TU sizemap cc_holds).
Abbreviation bytes_of_class := (bytes_of_class sizemap).
Implicit Types (st : caches) (u : gmap Z Z) (v : ThreadCache) (f : FreeList).
Hypothesis Hsm : tc_sizemap_ok sizemap.

(** Between operations no cache is special. *)
Lemma TU_any u t t' l st : TU u t 0 (-1) l st -> TU u t' 0 (-1) l st.
Proof using.
  intros (loc & Eu & [Hh Hc Htc Hsz Hl]). exists loc. split; [done|]. constructor; try done.
  - intros r v Hv. specialize (Htc r v Hv). by destruct (decide (r = t)), (decide (r = t')).
  - intros r v Hv. rewrite (Hsz r v Hv). by destruct (decide (r = t)), (decide (r = t')).
Qed.

(** ** A cache under construction

    It has an address but is not on the list yet. *)
Definition hide (r : Z) st : caches := with_heaps (delete r (heaps st)) st.
Definition Hid u t l (r : Z) v st : Prop := heaps st !! r = Some v /\ TU u t 0 (-1) l (hide r st).

Lemma Hid_own u t l r v v' st : Hid u t l r v st -> Hid u t l r v' (with_heaps (<[r := v']> (heaps st)) st).
Proof using.
  intros [Hv HU]. split; [apply lookup_insert_eq|]. unfold hide, with_heaps in *. cbn in *. by rewrite delete_insert_eq.
Qed.
Lemma Hid_other u t l r v st t' w w' : Hid u t l r v st -> t' <> r -> heaps st !! t' = Some w ->
  lists w' = lists w -> size_ w' = size_ w -> next_ w' = next_ w -> prev_ w' = prev_ w ->
  Hid u t l r v (with_heaps (<[t' := w']> (heaps st)) st).
Proof using.
  intros [Hv HU] Hne Hw E1 E2 E3 E4. split; [cbn; by rewrite lookup_insert_ne|].
  replace (hide r (with_heaps (<[t' := w']> (heaps st)) st))
    with (with_heaps (<[t' := w']> (heaps (hide r st))) (hide r st)).
  - apply (TU_upd _ _ _ _ _ _ _ _ _ w); try done. cbn. by rewrite lookup_delete_ne.
  - unfold hide, with_heaps. cbn. by rewrite delete_insert_ne.
Qed.
Lemma Hid_static u t l r v st st' : Hid u t l r v st -> heaps st' = heaps st -> thread_heaps_ st' = thread_heaps_ st ->
  central st' = central st -> (next_memory_steal_ st' = 0 \/ next_memory_steal_ st' ∈ l) -> Hid u t l r v st'.
Proof using.
  intros [Hv HU] E1 E2 E3 Hs. split; [by rewrite E1|]. eapply TU_static; [exact HU| | | |done]; cbn; by rewrite ?E1.
Qed.

(** Fields a limit change leaves alone. *)
Definition same_lists v v' : Prop := lists v' = lists v /\ size_ v' = size_ v.

Lemma Hid_links u t l r v st : Hid u t l r v st -> links_ok (hide r st) l.
Proof using. intros [_ HU]. by eapply TU_links. Qed.

Lemma wp_steal_new u t l r v st : Hid u t l r v st -> l <> [] -> r ∉ l ->
  wp (steal_step r tt) (fun _ st' => exists v', Hid u t l r v' st' /\ same_lists v v') st.
Proof using.
  intros HH Hl Hr. unfold steal_step. apply wp_bind, wp_get. apply wp_bind.
  eapply (wp_mono _ (fun _ st' => Hid u t l r v st' /\ next_memory_steal_ st' ∈ l)).
  { pose proof (Hid_links _ _ _ _ _ _ HH) as HL. destruct (Z.eqb_spec (next_memory_steal_ st) 0) as [E|E].
    - apply wp_mod. assert (thread_heaps_ st ∈ l) as Hin.
      { pose proof (lk_chain _ _ HL) as Hc. destruct l as [|y l]; [done|]. cbn in Hc. destruct Hc as [-> _]. by left. }
      split; [|done]. eapply Hid_static; [done|done|done|done|by right].
    - apply wp_ret. split; [done|]. by destruct (lk_steal _ _ HL). }
  clear st HH. intros [] st [HH Hs]. pose proof (Hid_links _ _ _ _ _ _ HH) as HL. apply wp_bind, wp_get. cbn zeta.
  pose proof Hs as [w Hw]%(lk_dom _ _ HL). cbn in Hw. apply lookup_delete_Some in Hw as [Hne Hw].
  assert (next_ w = 0 \/ next_ w ∈ l) as Hn.
  { eapply tchain_next; [apply (lk_chain _ _ HL)|exact Hs|cbn; by rewrite lookup_delete_ne]. }
  apply wp_bind. eapply wp_get_tc; [done|].
  destruct (Z.eqb_spec (next_memory_steal_ st) r) as [E|_]; [by rewrite E in Hs|]. cbn [orb]. destruct (_ <=? _).
  - apply wp_bind, wp_mod, wp_ret. exists v. split; [|done]. eapply Hid_static; [done|done|done|done|exact Hn].
  - apply wp_bind, wp_put_tc. set (w' := SetMaxSize _ w).
    pose proof (Hid_other _ _ _ _ _ _ _ w w' HH (not_eq_sym Hne) Hw ltac:(done) ltac:(done) ltac:(done) ltac:(done)) as H2.
    apply wp_bind. eapply wp_upd_tc; [apply H2|]. apply wp_bind, wp_mod, wp_ret. eexists. split.
    + eapply Hid_static; [apply (Hid_own _ _ _ _ v), H2|done|done|done|exact Hn].
    + done.
Qed.

Lemma wp_Increase_new u t l r v st : Hid u t l r v st -> 0 < unclaimed_cache_space_ st \/ l <> [] -> r ∉ l ->
  wp (IncreaseCacheLimitLocked r) (fun _ st' => exists v', Hid u t l r v' st' /\ same_lists v v') st.
Proof using.
  intros HH Hl Hr. unfold IncreaseCacheLimitLocked. apply wp_bind, wp_get. rewrite Z.gtb_ltb.
  destruct (Z.ltb_spec 0 (unclaimed_cache_space_ st)).
  - apply wp_bind, wp_mod. eapply wp_upd_tc; [apply HH|]. exists (SetMaxSize (max_size_ v + kStealAmount) v). split; [|done].
    apply (Hid_own _ _ _ _ v). eapply Hid_static; [exact HH|done|done|done|]. apply (lk_steal _ _ (Hid_links _ _ _ _ _ _ HH)).
  - destruct Hl as [?|Hl]; [lia|]. clear H. generalize 10%nat. intros n.
    assert (forall v0, same_lists v v0 -> forall st, Hid u t l r v0 st ->
      wp (steal_loop r n) (fun _ st' => exists v', Hid u t l r v' st' /\ same_lists v v') st) as Hg.
    { induction n as [|n IH]; intros v0 H0 st' HH'; [apply wp_ret; eauto|]. cbn [steal_loop].
      apply wp_bind. eapply wp_mono; [by apply wp_steal_new|]. intros [[]|[]] st2 (v' & HH2 & Hs).
      - eapply (IH v'); [|done]. destruct H0, Hs. split; congruence.
      - apply wp_ret. exists v'. split; [done|]. destruct H0, Hs. split; congruence. }
    by eapply (Hg v).
Qed.

(** ** A new cache *)

Lemma cache_Init_ok cl : 0 <= cl < ncl -> fl_ok sizemap 0 cl (FL.Init (bytes_of_class cl)).
Proof using Hsm.
  intros Hcl. assert (0 <= bytes_of_class cl <= kMaxSize) as Hb.
  { destruct (Z.eq_dec cl 0) as [->|]; [rewrite (ts_zero _ Hsm); clia|].
    destruct (ts_class _ Hsm cl ltac:(lia)) as [? _]. clia. }
  constructor; cbn; try done; [rewrite s32_small; clia|constructor].
Qed.

Definition fresh_lists v : Prop :=
  size_ v = 0 /\ forall cl, lists v !! cl = if decide (0 <= cl < ncl) then Some (FL.Init (bytes_of_class cl)) else None.

Lemma fresh_bytes v : fresh_lists v -> tc_bytes sizemap v = 0.
Proof using.
  intros [_ Hf]. unfold tc_bytes. assert (forall cs, sumZ (list_bytes sizemap v) cs = 0) as H; [|apply H].
  induction cs as [|c cs IH]; [done|]. cbn [sumZ foldr]. fold (sumZ (list_bytes sizemap v) cs). rewrite IH.
  unfold list_bytes. rewrite Hf. by case_decide.
Qed.
Lemma fresh_ok v : fresh_lists v -> tc_ok sizemap (-1) v.
Proof using Hsm.
  intros [_ Hf]. constructor.
  - intros cl Hcl. eexists. rewrite Hf, decide_True by done. split; [done|]. rewrite slack_none by lia. by apply cache_Init_ok.
  - intros cl f. rewrite Hf. by case_decide.
Qed.

Lemma wp_construct u t l r seed st : TU u t 0 (-1) l st -> r ∉ l -> 0 < unclaimed_cache_space_ st \/ l <> [] ->
  wp (construct sizemap flag draw r seed) (fun _ st' => exists v, Hid u t l r v st' /\ fresh_lists v) st.
Proof using Hsm CentralCacheLaws0.
  intros HU Hr Hl. unfold construct. apply wp_bind, wp_put_tc. set (v0 := mkTC _ _ _ _ _ _).
  assert (heaps st !! r = None) as Hn.
  { apply eq_None_not_Some. by rewrite <- (lk_dom _ _ (TU_links _ _ _ _ _ _ _ _ HU)). }
  apply wp_bind. eapply wp_mono; [apply (wp_Increase_new u t l r v0); [|done|done]|].
  { split; [apply lookup_insert_eq|]. unfold hide, with_heaps. cbn. rewrite delete_insert_id by done. by destruct st. }
  intros [] st1 (v1 & H1 & [El Es]). apply wp_bind. eapply wp_get_tc; [apply H1|]. apply wp_bind.
  eapply (wp_mono _ (fun _ st' => exists v, Hid u t l r v st' /\ same_lists v0 v)).
  { destruct (_ =? 0); [|apply wp_ret; by exists v1]. apply wp_bind, wp_get, wp_bind, wp_put_tc, wp_mod.
    exists (SetMaxSize (min_per_thread_cache_size_ st1) v1). split; [|done].
    eapply Hid_static; [by apply (Hid_own _ _ _ _ v1)|done|done|done|].
    apply (lk_steal _ _ (Hid_links _ _ _ _ _ _ H1)). }
  clear st1 v1 H1 El Es. intros [] st1 (v1 & H1 & [El Es]). apply wp_bind.
  eapply (wp_mono _ (fun _ st' => exists v, Hid u t l r v st' /\ fresh_lists v)).
  { eapply wp_mono; [apply (wp_forM_ _ (fun pre st' => exists v, Hid u t l r v st' /\ size_ v = 0 /\
      forall cl, lists v !! cl = if decide (cl ∈ pre) then Some (FL.Init (bytes_of_class cl)) else None))|].
    - intros pre cl post st' E (v & HH & Hs & Hls). assert (0 <= cl < ncl) as Hcl.
      { assert (cl ∈ for_range 0 (ncl - 1) 1) as Hin%elem_of_for_range1 by (rewrite E; set_solver). lia. }
      apply wp_bind. eapply wp_lift; [eapply aget_cls; [exact Hsm|done]|]. eapply wp_put_fl; [apply HH|].
      eexists. split; [by apply (Hid_own _ _ _ _ v)|]. split; [done|]. intros cl'. cbn.
      destruct (decide (cl' = cl)) as [->|Hne].
      + rewrite lookup_insert_eq, decide_True by set_solver. done.
      + rewrite lookup_insert_ne, Hls by done. destruct (decide (cl' ∈ pre)), (decide (cl' ∈ pre ++ [cl])); set_solver.
    - exists v1. split; [done|]. split; [by rewrite Es|]. intros cl. rewrite El, decide_False by (by intros ?%elem_of_nil). done.
    - intros [] st' (v & HH & Hs & Hls). exists v. split; [done|]. split; [done|]. intros cl. rewrite Hls.
      destruct (decide (cl ∈ _)) as [Hin|Hin], (decide (0 <= cl < ncl)); try done; rewrite elem_of_for_range1 in Hin; lia. }
  intros [] st2 (v2 & H2 & Hf). eapply wp_upd_tc; [apply H2|]. eexists. split; [by apply (Hid_own _ _ _ _ v2)|done].
Qed.

(** Construction does not go below. *)
#[local] Hint Extern 1 (same central _ _) => reflexivity : moves.
Lemma construct_central r seed : keeps central (construct (C := C) sizemap flag draw r seed).
Proof using.
  assert (forall i : nat, keeps central (steal_loop (C := C) r i)) as Hs.
  { induction i as [|i IH]; cbn [steal_loop]; [moves|]. unfold steal_step, upd_tc, get_tc, put_tc.
    apply moves_bind; [apply _|moves|intros []]; [done|moves]. }
  unfold construct, IncreaseCacheLimitLocked, put_fl, upd_tc, get_tc, put_tc. moves.
Qed.

(** The front of the chain gets a new predecessor. *)
Lemma tchain_head hs hs' head p r l : tchain hs head p l -> NoDup l ->
  (forall t v, t ∈ l -> hs !! t = Some v -> exists v', hs' !! t = Some v' /\ next_ v' = next_ v /\
     prev_ v' = if decide (t = head) then r else prev_ v) -> tchain hs' head r l.
Proof using.
  destruct l as [|t l]; [done|]. cbn. intros (-> & v & Hv & _ & Hc) [Ht _]%NoDup_cons Hx. split; [done|].
  destruct (Hx t v) as (v' & Hv' & En & Ep); [by left|done|]. rewrite decide_True in Ep by done.
  exists v'. split; [done|]. split; [done|]. rewrite En. eapply tchain_ext; [|done].
  intros t' w Ht' Hw. destruct (Hx t' w) as (w' & Hw' & En' & Ep'); [by right|done|]. exists w'. split; [done|]. split; [done|].
  rewrite decide_False in Ep'; [done|]. congruence.
Qed.

(** The new cache and the old front are linked. *)
Lemma TU_link u t l r v st st' : Hid u t l r v st -> fresh_lists v -> r ∉ l -> r <> 0 -> r ∈ cc_live (central st') ->
  central st' = central st -> thread_heaps_ st' = r -> (next_memory_steal_ st' = r \/ next_memory_steal_ st' = next_memory_steal_ st) ->
  (exists v', heaps st' !! r = Some v' /\ fresh_lists v' /\ next_ v' = thread_heaps_ st /\ prev_ v' = 0) ->
  (forall t' w, t' <> r -> heaps st !! t' = Some w -> exists w', heaps st' !! t' = Some w' /\ lists w' = lists w /\
     size_ w' = size_ w /\ next_ w' = next_ w /\ prev_ w' = if decide (t' = thread_heaps_ st) then r else prev_ w) ->
  (forall t' w', t' <> r -> heaps st' !! t' = Some w' -> is_Some (heaps st !! t')) ->
  TU u r 0 (-1) (r :: l) st'.
Proof using Hsm.
  intros [Hv (loc & Eu & [Hh Hc Htc Hsz HL])] Hf Hr Hr0 Hlv Ec Eh Hst (v' & Hv' & Hf' & En & Ep) Hfw Hbw. cbn in Hh, Hc, Htc, Hsz.
  assert (forall t' w', t' <> r -> heaps st' !! t' = Some w' -> exists w, delete r (heaps st) !! t' = Some w /\
    lists w' = lists w /\ size_ w' = size_ w) as Hback.
  { intros t' w' Hne Hw'. destruct (Hbw t' w' Hne Hw') as [w Hw]. destruct (Hfw t' w Hne Hw) as (w2 & Hw2 & ? & ? & _).
    assert (w2 = w') as -> by congruence. exists w. by rewrite lookup_delete_ne. }
  exists loc. split; [done|]. constructor.
  - by rewrite Ec.
  - intros t' cl x. rewrite <- Hc. unfold cached. cbn. split.
    + intros (w' & f & Hw' & Hfl & Hx). destruct (decide (t' = r)) as [->|Hne].
      * assert (w' = v') as -> by congruence. rewrite (proj2 Hf') in Hfl. case_decide; [|done]. injection Hfl as <-.
        by apply elem_of_nil in Hx.
      * destruct (Hback t' w' Hne Hw') as (w & Hw & El & _). exists w, f. by rewrite <- El.
    + intros (w & f & [Hne Hw]%lookup_delete_Some & Hfl & Hx).
      destruct (Hfw t' w (not_eq_sym Hne) Hw) as (w' & Hw' & El & _). exists w', f. by rewrite El.
  - intros t' w' Hw'. destruct (decide (t' = r)) as [->|Hne].
    + assert (w' = v') as -> by congruence. by apply fresh_ok.
    + destruct (Hback t' w' Hne Hw') as (w & Hw & El & _). specialize (Htc t' w Hw).
      assert (tc_ok sizemap (-1) w) as [T1 T2] by (by destruct (decide (t' = t))). by constructor; rewrite El.
  - intros t' w' Hw'. rewrite (Z.add_comm _ (if decide _ then _ else _)).
    assert ((if decide (t' = r) then 0 else 0) = 0) as -> by (by case_decide).
    destruct (decide (t' = r)) as [->|Hne].
    + assert (w' = v') as -> by congruence. rewrite fresh_bytes by done. by rewrite (proj1 Hf').
    + destruct (Hback t' w' Hne Hw') as (w & Hw & El & Es). rewrite Es, (Hsz t' w Hw).
      f_equal. unfold tc_bytes, list_bytes. rewrite El. destruct (decide (t' = t)); lia.
  - destruct HL as [L1 L2 L3 L4 L5 L6]. cbn in L1, L3, L5, L6. constructor.
    + cbn. split; [done|]. exists v'. split; [done|]. split; [done|]. rewrite En. eapply tchain_head; [exact L1|done|].
      intros t' w _ [Hne Hw]%lookup_delete_Some. destruct (Hfw t' w (not_eq_sym Hne) Hw) as (w' & ? & _ & _ & ? & ?). eauto.
    + by constructor.
    + intros t'. rewrite elem_of_cons. destruct (decide (t' = r)) as [->|Hne].
      * split; [intros _; by eexists|by left].
      * rewrite L3, lookup_delete_ne by congruence. split.
        -- intros [?|[w Hw]]; [done|]. destruct (Hfw t' w Hne Hw) as (w' & ? & _). by eexists.
        -- intros [w' Hw']. right. by eapply Hbw.
    + intros [E|?]%elem_of_cons; [congruence|done].
    + destruct Hst as [->| ->]; [right; by left|]. destruct L5; [by left|right; by right].
    + intros t' [->|Ht']%elem_of_cons; [done|]. rewrite Ec. by apply L6.
Qed.

Lemma wp_NewHeap u t l seed st : TU u t 0 (-1) l st -> 0 < unclaimed_cache_space_ st \/ l <> [] ->
  wp (NewHeap sizemap flag draw seed) (fun r st' => r <> 0 /\ r ∉ l /\ TU u r 0 (-1) (r :: l) st') st.
Proof using Hsm CentralCacheLaws0.
  intros HU Hroom.
  unfold NewHeap. apply wp_bind, wp_in_central. pose proof HU as (loc & Eu & HI).
  eapply wp_mono; [apply (tc_New_ok sizemap cc_holds (snd <$> loc)), HI|]. intros r c (Hr0 & Hrn & Hlv & Hh).
  pose proof (ti_links _ _ _ _ _ _ _ _ HI) as [L1 L2 L3 L4 L5 L6].
  assert (r ∉ l) as Hr by (intros Hin; by apply Hrn, L6).
  assert (TU u t 0 (-1) l (with_central c st)) as HU1.
  { destruct HI as [_ Hc Htc Hsz _]. exists loc. split; [done|]. constructor; try done. constructor; try done.
    cbn. intros t' Ht'. rewrite Hlv. apply elem_of_union_r. by apply L6. }
  apply wp_bind. eapply wp_mono; [eapply (wp_moves (same central)); [apply construct_central|by eapply wp_construct]|].
  cbn beta. intros [] st2 ((v & HH & Hf) & Ec). apply wp_bind, wp_get. apply wp_bind. eapply wp_upd_tc; [apply HH|].
  set (v' := with_prev 0 _). pose proof (Hid_links _ _ _ _ _ _ HH) as HL.
  assert (r ∈ cc_live (central st2)) as Hin by (rewrite Ec; cbn; rewrite Hlv; set_solver).
  apply wp_bind. destruct (Z.eqb_spec (thread_heaps_ st2) 0) as [E0|Hhd]; cbn [negb].
  - apply wp_mod, wp_bind, wp_mod, wp_ret. split; [done|]. split; [done|].
    eapply (TU_link u t l r v st2); try done; [by left|exists v'; split; [apply lookup_insert_eq|done]| |].
    + intros t' w Hne Hw. exists w. cbn. rewrite lookup_insert_ne by done. do 4 (split; [done|]).
      rewrite decide_False; [done|]. intros ->. rewrite E0 in Hw. apply (lk_zero _ _ HL), (lk_dom _ _ HL). cbn.
      rewrite lookup_delete_ne by done. by eexists.
    + intros t' w' Hne Hw'. cbn in Hw'. rewrite lookup_insert_ne in Hw' by done. by eexists.
  - assert (thread_heaps_ st2 ∈ l) as Hhl.
    { pose proof (lk_chain _ _ HL) as Hc. destruct l as [|y l']; [done|]. cbn in Hc. destruct Hc as [-> _]. by left. }
    pose proof Hhl as [w0 Hw0]%(lk_dom _ _ HL). cbn in Hw0. apply lookup_delete_Some in Hw0 as [Hne0 Hw0].
    eapply wp_upd_tc; [cbn; by rewrite lookup_insert_ne|]. apply wp_bind, wp_mod, wp_ret. split; [done|]. split; [done|].
    eapply (TU_link u t l r v st2); try done; [by right|exists v'; split; [|done]| |]; cbn.
    + rewrite lookup_insert_ne by congruence. apply lookup_insert_eq.
    + intros t' w Hne Hw. destruct (decide (t' = thread_heaps_ st2)) as [->|Hn].
      * rewrite lookup_insert_eq. assert (w = w0) as -> by congruence. by eexists.
      * rewrite !lookup_insert_ne by congruence. by eexists.
    + intros t' w' Hne. destruct (decide (t' = thread_heaps_ st2)) as [->|Hn]; [by eexists|].
      rewrite !lookup_insert_ne by congruence. by eexists.
Qed.

(** A new thread's cache. [NewHeap] takes fresh memory for it, links it
    at the front of the list and gives it a share of the cache space; it
    starts empty, no list of another cache changes, and users hold exactly
    what they held. There must be unclaimed space or another cache to take
    from. *)
Theorem NewHeap_correct u t l seed st (HU : TU u t 0 (-1) l st) (Hroom : 0 < unclaimed_cache_space_ st \/ l <> []) :
  wp (NewHeap sizemap flag draw seed) (fun r st' => r <> 0 /\ r ∉ l /\ TU u r 0 (-1) (r :: l) st') st.
Proof using Hsm CentralCacheLaws0. by eapply wp_NewHeap. Qed.

End Life.

(** ** Unlinking *)

Lemma tchain_prev hs t v l1 : forall head p l2, tchain hs head p (l1 ++ t :: l2) -> hs !! t = Some v ->
  prev_ v = default p (last l1) /\ next_ v = default 0 (list.head l2).
Proof.
  induction l1 as [|q l1 IH]; intros head p l2; cbn [app tchain].
  - intros (-> & w & Hw & Hp & Hc) Hv. assert (w = v) as -> by congruence. split; [done|].
    destruct l2; cbn in *; [done|]. by destruct Hc as [-> _].
  - intros (-> & w & Hw & Hp & Hc) Hv. destruct (IH _ _ _ Hc Hv) as [-> ->]. split; [|done]. rewrite last_cons. by destruct (last l1).
Qed.

Lemma tchain_unlink hs hs' t v l2 l1 : forall head p, tchain hs head p (l1 ++ t :: l2) -> NoDup (l1 ++ t :: l2) ->
  p ∉ l1 ++ t :: l2 -> 0 ∉ l1 ++ t :: l2 -> hs !! t = Some v ->
  (forall t' w, t' ∈ l1 ++ l2 -> hs !! t' = Some w -> exists w', hs' !! t' = Some w' /\
     next_ w' = (if decide (t' = prev_ v) then next_ v else next_ w) /\
     prev_ w' = (if decide (t' = next_ v) then prev_ v else prev_ w)) ->
  tchain hs' (if decide (head = t) then next_ v else head) p (l1 ++ l2).
Proof.
  induction l1 as [|q l1 IH]; intros head p Hch Hnd Hp H0 Hv Hx; pose proof (tchain_prev _ _ _ _ _ _ _ Hch Hv) as [Epv Env].
  - cbn in *. destruct Hch as (-> & w & Hw & Ep & Hc). assert (w = v) as -> by congruence. rewrite decide_True by done.
    apply NoDup_cons in Hnd as [Ht Hnd]. eapply tchain_head; [done|done|]. intros t' w Hin Hw'.
    destruct (Hx t' w Hin Hw') as (w' & ? & En & Ep'). exists w'. split; [done|]. split.
    + rewrite En, decide_False; [done|]. intros ->. apply Hp. rewrite <- Ep. by right.
    + rewrite Ep'. by rewrite Ep.
  - cbn [app] in *. cbn [tchain] in Hch. destruct Hch as (-> & w & Hw & Ep & Hc). apply NoDup_cons in Hnd as [Hq Hnd].
    assert (q <> t) as Hqt by (intros ->; apply Hq; set_solver). rewrite decide_False by done.
    destruct (Hx q w) as (w' & Hw' & En & Ep'); [by left|done|]. split; [done|]. exists w'. split; [done|].
    assert (q <> next_ v) as Hqn.
    { rewrite Env. destruct l2 as [|z l2]; cbn; [|set_solver]. intros ->. apply H0. by left. }
    split; [rewrite Ep', decide_False by done; done|].
    assert (next_ w' = if decide (next_ w = t) then next_ v else next_ w) as ->.
    { rewrite En. destruct l1 as [|q2 l1].
      - cbn in Hc, Epv. destruct Hc as [-> _]. by rewrite !decide_True by done.
      - cbn in Hc. destruct Hc as [-> _]. rewrite !decide_False; [done| |].
        + intros ->. apply NoDup_app in Hnd as (_ & Hd & _). apply (Hd t); by left.
        + rewrite last_cons in Epv. destruct (last (q2 :: l1)) as [z|] eqn:Ez; [|by apply last_None in Ez].
          cbn in Epv. rewrite Epv. intros Eq. apply Hq, elem_of_app. left. rewrite Eq. by apply last_Some_elem_of. }
    apply IH; try done.
    + set_solver.
    + intros t' w2 Hin. apply Hx. by right.
Qed.
(** ** The end of a cache *)

Section Finish.
Context {C : Type} `{!CentralCache C}.
Context (sizemap : SizeMap) (cc_holds : gmap Z Z -> C -> Prop) `{!CentralCacheLaws sizemap cc_holds}.
Abbreviation caches := (Caches C).
Abbreviation ncl := (num_size_classes sizemap).
Abbreviation TU := (TU sizemap cc_holds).
Implicit Types (st : caches) (u : gmap Z Z) (v : ThreadCache) (f : FreeList).
Hypothesis Hsm : tc_sizemap_ok sizemap.

(** The lists of the other classes. *)
Definition other_lists (t cl : Z) st st' : Prop := forall cl' v f, cl' <> cl -> heaps st !! t = Some v ->
  lists v !! cl' = Some f -> exists v', heaps st' !! t = Some v' /\ lists v' !! cl' = Some f.
#[export] Instance other_lists_preorder t cl : PreOrder (other_lists t cl).
Proof using.
  split; [intros st cl' v f; eauto|]. intros s1 s2 s3 H1 H2 cl' v f Hne Hv Hf.
  destruct (H1 cl' v f Hne Hv Hf) as (v2 & ? & ?). by eapply H2.
Qed.
Lemma other_put_fl t cl f : moves (other_lists t cl) (put_fl t cl f).
Proof using.
  intros st [] st'. unfold put_fl, upd_tc, get_tc, put_tc, mbind, M_bind, getS, liftM, modS. cbn.
  destruct (heaps st !! t) as [w|] eqn:Ew; [|done]. cbn. intros [= <-] cl' v g Hne Hv Hg.
  eexists. split; [apply lookup_insert_eq|]. cbn. rewrite lookup_insert_ne by done. congruence.
Qed.
Lemma other_add_size t cl d : moves (other_lists t cl) (upd_tc t (add_size d)).
Proof using.
  intros st [] st'. unfold upd_tc, get_tc, put_tc, mbind, M_bind, getS, liftM, modS. cbn.
  destruct (heaps st !! t) as [w|] eqn:Ew; [|done]. cbn. intros [= <-] cl' v g Hne Hv Hg.
  eexists. split; [apply lookup_insert_eq|]. cbn. congruence.
Qed.
Lemma other_in_central {A} t cl (m : M C A) : moves (other_lists t cl) (in_central m).
Proof using.
  intros st a st'. unfold in_central. destruct (m (central st)) as [[b c]|]; [|done]. intros [= _ <-] cl' v f _ Hv Hf. eauto.
Qed.
#[local] Hint Resolve other_put_fl other_add_size other_in_central : moves.
Lemma other_Release t cl N : moves (other_lists t cl) (ReleaseToCentralCache sizemap t cl N).
Proof using. unfold ReleaseToCentralCache, release_body, get_fl, get_tc. moves. Qed.

Definition emptied st (t cl : Z) : Prop := exists v f, heaps st !! t = Some v /\ lists v !! cl = Some f /\ list_ f = [].

Lemma wp_destruct u t l st : TU u t 0 (-1) l st -> t ∈ l ->
  wp (destruct_ sizemap t) (fun _ st' => TU u t 0 (-1) l st' /\ forall cl, 0 <= cl < ncl -> emptied st' t cl) st.
Proof using Hsm CentralCacheLaws0.
  intros HU Ht. unfold destruct_.
  eapply wp_mono; [apply (wp_forM_ _ (fun pre st' => TU u t 0 (-1) l st' /\ forall cl, cl ∈ pre -> emptied st' t cl))|].
  - intros pre cl post st1 E [HU1 Hpre]. assert (0 <= cl < ncl) as Hcl.
    { assert (cl ∈ for_range 0 (ncl - 1) 1) as Hin%elem_of_for_range1 by (rewrite E; set_solver). lia. }
    assert (cl ∉ pre) as Hnp.
    { assert (NoDup (for_range 0 (ncl - 1) 1)) as Hnd.
      { unfold for_range. apply NoDup_fmap_2; [intros a b; lia|apply NoDup_seqZ]. }
      rewrite E in Hnd. apply NoDup_app in Hnd as (_ & Hd & _). intros Hin. apply (Hd cl Hin). by left. }
    destruct (TU_get _ _ _ _ _ _ _ _ cl HU1 Ht Hcl) as (v & f & Hv & Hf & Hok). rewrite slack_none in Hok by lia.
    pose proof (fl_range _ _ _ _ Hok ltac:(lia)) as Hr. pose proof (fl_len _ _ _ _ Hok) as Hlen.
    apply wp_bind. eapply wp_get_fl; [done|done|]. rewrite Z.gtb_ltb. destruct (Z.ltb_spec 0 (length_ f)) as [Hpos|Hz].
    + assert (1 <= cl < ncl) as Hcl1.
      { destruct (Z.eq_dec cl 0) as [E0|]; [|lia]. rewrite (fl_zero _ _ _ _ Hok E0) in Hlen. cbn in Hlen. lia. }
      rewrite s32_small by lia.
      eapply wp_mono; [eapply (wp_moves (other_lists t cl)); [apply other_Release|];
        eapply (wp_Release_exact sizemap cc_holds Hsm u t 0 (-1) l cl); [done|done|done|by left|done|done|lia|lia]|].
      cbn beta. intros [] st2 ((HU2 & v2 & f2 & Hv2 & Hf2 & Hl2) & Ho). split; [done|].
      intros cl' [Hin|Hin]%elem_of_app; [|apply list_elem_of_singleton in Hin as ->].
      * destruct (Hpre cl' Hin) as (w & g & Hw & Hg & Eg). destruct (Ho cl' w g) as (w' & ? & ?); [congruence|done|done|].
        by exists w', g.
      * destruct (TU_get _ _ _ _ _ _ _ _ cl HU2 Ht Hcl) as (v3 & f3 & Hv3 & Hf3 & Hok3).
        assert (v3 = v2) as -> by congruence. assert (f3 = f2) as -> by congruence.
        exists v2, f2. split; [done|]. split; [done|]. pose proof (fl_len _ _ _ _ Hok3).
        destruct (list_ f2); [done|]. cbn [length] in *. lia.
    + apply wp_ret. split; [done|]. intros cl' [Hin|Hin]%elem_of_app; [|apply list_elem_of_singleton in Hin as ->]; [by apply Hpre|].
      exists v, f. split; [done|]. split; [done|]. destruct (list_ f); [done|]. cbn [length] in Hlen. lia.
  - split; [done|]. by intros cl ?%elem_of_nil.
  - intros [] st1 [HU1 Hall]. split; [done|]. intros cl Hcl. apply Hall, elem_of_for_range1. lia.
Qed.


(** The caches after the neighbours of [v] were joined. *)
Record joined (hs : gmap Z ThreadCache) v (hs' : gmap Z ThreadCache) : Prop := {
  jo_fwd : forall t w, hs !! t = Some w -> exists w', hs' !! t = Some w' /\ lists w' = lists w /\ size_ w' = size_ w /\
    next_ w' = (if decide (t = prev_ v /\ t <> 0) then next_ v else next_ w) /\
    prev_ w' = (if decide (t = next_ v /\ t <> 0) then prev_ v else prev_ w);
  jo_bwd : forall t, is_Some (hs' !! t) -> is_Some (hs !! t) }.

Lemma wp_join {A} v (rest : M caches A) (Q : A -> caches -> Prop) st :
  (next_ v <> 0 -> is_Some (heaps st !! next_ v)) -> (prev_ v <> 0 -> is_Some (heaps st !! prev_ v)) ->
  (forall hs, joined (heaps st) v hs -> wp rest Q (with_heaps hs st)) ->
  wp (_ ← (if negb (next_ v =? 0) then upd_tc (next_ v) (with_prev (prev_ v)) else mret tt);
      _ ← (if negb (prev_ v =? 0) then upd_tc (prev_ v) (with_next (next_ v)) else mret tt); rest) Q st.
Proof using.
  intros Hn Hp HQ. apply wp_bind.
  eapply (wp_mono _ (fun _ st' => exists hs, st' = with_heaps hs st /\ (forall t, is_Some (hs !! t) <-> is_Some (heaps st !! t)) /\
    forall t w, heaps st !! t = Some w -> exists w', hs !! t = Some w' /\ lists w' = lists w /\ size_ w' = size_ w /\
      next_ w' = next_ w /\ prev_ w' = (if decide (t = next_ v /\ t <> 0) then prev_ v else prev_ w))).
  { destruct (Z.eqb_spec (next_ v) 0) as [E|E]; cbn [negb].
    - apply wp_ret. exists (heaps st). split; [by destruct st|]. split; [done|]. intros t w Hw. exists w. do 4 (split; [done|]).
      rewrite decide_False; [done|]. intros [-> ?]. done.
    - destruct (Hn E) as [w0 Hw0]. eapply wp_upd_tc; [done|]. eexists. split; [done|]. split.
      + intros t. destruct (decide (t = next_ v)) as [->|]; [rewrite lookup_insert_eq; split; by eexists|by rewrite lookup_insert_ne].
      + intros t w Hw. destruct (decide (t = next_ v)) as [->|Hne].
        * rewrite lookup_insert_eq. assert (w = w0) as -> by congruence. eexists. do 4 (split; [done|]). by rewrite decide_True.
        * rewrite lookup_insert_ne by done. exists w. do 4 (split; [done|]). rewrite decide_False; [done|tauto]. }
  intros [] st1 (hs & -> & Hdom & Hfw). apply wp_bind. destruct (Z.eqb_spec (prev_ v) 0) as [E|E]; cbn [negb].
  - apply wp_ret, HQ. constructor; [|intros t; apply Hdom]. intros t w Hw. destruct (Hfw t w Hw) as (w' & ? & ? & ? & En & Ep).
    exists w'. do 3 (split; [done|]). split; [|done]. rewrite decide_False; [done|]. intros [-> ?]. done.
  - destruct (proj2 (Hdom (prev_ v)) (Hp E)) as [w0 Hw0]. eapply wp_upd_tc; [exact Hw0|]. apply HQ. cbn. constructor.
    + intros t w Hw. destruct (Hfw t w Hw) as (w' & Hw' & ? & ? & En & Ep). destruct (decide (t = prev_ v)) as [->|Hne].
      * rewrite lookup_insert_eq. assert (w' = w0) as -> by congruence. eexists. do 3 (split; [done|]). cbn.
        rewrite decide_True by done. done.
      * rewrite lookup_insert_ne by done. exists w'. do 3 (split; [done|]). rewrite decide_False by tauto. done.
    + intros t Ht. apply Hdom. destruct (decide (t = prev_ v)) as [->|]; [by eexists|]. by rewrite lookup_insert_ne in Ht.
Qed.

Lemma filter_split (t : Z) l1 l2 : NoDup (l1 ++ t :: l2) -> filter (fun x : Z => x <> t) (l1 ++ t :: l2) = l1 ++ l2.
Proof using.
  assert (forall l : list Z, t ∉ l -> filter (fun x : Z => x <> t) l = l) as Hid.
  { induction l as [|x l IH]; intros Hx; [done|]. apply not_elem_of_cons in Hx as [??].
    rewrite filter_cons_True by congruence. by rewrite IH. }
  intros (Hn1 & Hd & [Ht Hn2]%NoDup_cons)%NoDup_app. rewrite filter_app, filter_cons_False, !Hid by tauto || done || (intros Hin; by apply (Hd t Hin); left).
  done.
Qed.

(** A cache whose lists are empty leaves. *)
Lemma TInv_unlink loc t v l1 l2 st st' hs : TInv sizemap cc_holds loc t 0 (-1) (l1 ++ t :: l2) st -> heaps st !! t = Some v ->
  (forall cl, 0 <= cl < ncl -> emptied st t cl) -> cc_holds (snd <$> loc) (central st') ->
  joined (heaps st) v hs -> heaps st' = delete t hs -> cc_live (central st) ∖ {[t]} ⊆ cc_live (central st') ->
  thread_heaps_ st' = (if decide (thread_heaps_ st = t) then next_ v else thread_heaps_ st) ->
  (next_memory_steal_ st' = 0 \/ next_memory_steal_ st' ∈ l1 ++ l2) ->
  TInv sizemap cc_holds loc t 0 (-1) (l1 ++ l2) st'.
Proof using.
  intros [Hh Hc Htc Hsz [L1 L2 L3 L4 L5 L6]] Hv Hemp Hh' [Hfw Hbw] Ehs Hlv Eh Hs.
  assert (t ∉ l1 ++ l2) as Htl.
  { apply NoDup_app in L2 as (_ & Hd & [Ht _]%NoDup_cons). intros [Hin|?]%elem_of_app; [|done]. apply (Hd t Hin). by left. }
  assert (forall r, r ∈ l1 ++ l2 <-> r <> t /\ r ∈ l1 ++ t :: l2) as Hmem.
  { intros r. rewrite !elem_of_app, elem_of_cons. split; [|tauto]. intros Hr. split; [|tauto].
    intros ->. apply Htl. by apply elem_of_app. }
  assert (forall r w', heaps st' !! r = Some w' -> r <> t /\ exists w, heaps st !! r = Some w /\ lists w' = lists w /\ size_ w' = size_ w) as Hback.
  { intros r w'. rewrite Ehs. intros [Hne Hw']%lookup_delete_Some. split; [congruence|].
    destruct (Hbw r) as [w Hw]; [by eexists|]. destruct (Hfw r w Hw) as (w2 & Hw2 & ? & ? & _).
    assert (w2 = w') as -> by congruence. eauto. }
  constructor; [done| | | |].
  - intros r cl x. rewrite <- Hc. unfold cached. split.
    + intros (w' & f & [Hne (w & Hw & El & _)]%Hback & Hf & Hx). exists w, f. by rewrite <- El.
    + intros (w & f & Hw & Hf & Hx). destruct (decide (r = t)) as [->|Hne].
      * destruct (Hemp cl) as (w2 & f2 & Hw2 & Hf2 & E2); [by eapply to_dom; [eapply (Htc t)|]|].
        assert (w2 = w) as -> by congruence. assert (f2 = f) as -> by congruence. rewrite E2 in Hx. by apply elem_of_nil in Hx.
      * destruct (Hfw r w Hw) as (w' & Hw' & El & _). exists w', f. rewrite Ehs, lookup_delete_ne, El by congruence. done.
  - intros r w' [Hne (w & Hw & El & _)]%Hback. destruct (Htc r w Hw) as [T1 T2]. by constructor; rewrite El.
  - intros r w' [Hne (w & Hw & El & Es)]%Hback. rewrite Es, (Hsz r w Hw). unfold tc_bytes, list_bytes. by rewrite El.
  - constructor.
    + rewrite Eh. eapply tchain_unlink; [exact L1|done|done|done|exact Hv|]. intros r w Hr Hw.
      destruct (Hfw r w Hw) as (w' & Hw' & _ & _ & En & Ep). exists w'. assert (r <> 0) as Hr0.
      { intros ->. apply L4. by apply Hmem in Hr as [_ ?]. }
      rewrite Ehs, lookup_delete_ne by (intros ->; done). split; [done|].
      rewrite En, Ep. split; repeat case_decide; tauto.
    + apply NoDup_app in L2 as (H1 & Hd & [_ H2]%NoDup_cons). apply NoDup_app. split; [done|]. split; [|done].
      intros x Hx Hx2. apply (Hd x Hx). by right.
    + intros r. rewrite Hmem, L3. split.
      * intros [Hne [w Hw]]. destruct (Hfw r w Hw) as (w' & ? & _). exists w'. by rewrite Ehs, lookup_delete_ne by congruence.
      * intros [w' [Hne (w & Hw & _)]%Hback]. split; [done|by eexists].
    + intros [_ ?]%Hmem. done.
    + done.
    + intros r [Hne Hr]%Hmem. apply Hlv. apply elem_of_difference. split; [by apply L6|]. by rewrite elem_of_singleton.
Qed.

(** A thread ends. [DeleteCache] returns every cached object to the
    central lists, takes the cache off the doubly linked list, keeps the
    stealing cursor on a live cache and gives its memory back; users, and
    all other caches, keep what they had. *)
Theorem DeleteCache_correct u t l st (HU : TU u t 0 (-1) l st) (Ht : t ∈ l) :
  wp (DeleteCache sizemap t) (fun _ st' => heaps st' !! t = None /\
    TU u t 0 (-1) (filter (fun x : Z => x <> t) l) st') st.
Proof using Hsm CentralCacheLaws0.
  unfold DeleteCache. apply wp_bind. eapply wp_mono; [by apply wp_destruct|]. clear st HU. intros [] st [(loc & Eu & HI) Hemp].
  pose proof (ti_links _ _ _ _ _ _ _ _ HI) as [L1 L2 L3 L4 L5 L6]. pose proof Ht as [v Hv]%L3.
  apply list_elem_of_split in Ht as (l1 & l2 & ->). rewrite filter_split by done.
  destruct (tchain_prev _ _ _ _ _ _ _ L1 Hv) as [Ep En].
  assert (prev_ v = 0 \/ prev_ v ∈ l1 ++ t :: l2) as Hp.
  { rewrite Ep. destruct (last l1) as [z|] eqn:El; [|by left]. right. apply elem_of_app. left. by apply last_Some_elem_of. }
  assert (next_ v = 0 \/ next_ v ∈ l2) as Hn.
  { rewrite En. destruct l2 as [|z l2]; [by left|]. right. by left. }
  apply wp_bind. eapply wp_get_tc; [done|]. apply wp_join.
  { intros Hne. destruct Hn as [?|Hn]; [done|]. apply L3, elem_of_app. right. by right. }
  { intros Hne. destruct Hp as [?|Hp]; [done|]. by apply L3. }
  intros hs Hj. apply wp_bind, wp_get, wp_bind, wp_mod, wp_bind, wp_get. cbn zeta. apply wp_bind, wp_mod, wp_bind, wp_mod.
  set (st1 := with_unclaimed _ _). apply wp_bind, wp_in_central.
  eapply wp_mono; [apply (tc_Delete_ok sizemap cc_holds (snd <$> loc)); [apply HI|apply L6, elem_of_app; right; by left]|].
  intros [] c [Hlv Hh]. apply wp_mod. split; [apply lookup_delete_eq|]. exists loc. split; [done|].
  eapply (TInv_unlink loc t v l1 l2 st _ hs); try done.
  - cbn. by rewrite Hlv.
  - cbn. destruct (Z.eqb_spec (thread_heaps_ st) t), (decide (thread_heaps_ st = t)); done.
  - assert (forall x, x = 0 \/ x ∈ l2 -> x = 0 \/ x ∈ l1 ++ l2) as Hin2.
    { intros x [?|?]; [by left|right; apply elem_of_app; by right]. }
    assert (forall x, x = 0 \/ x ∈ l1 ++ t :: l2 -> x <> t -> x = 0 \/ x ∈ l1 ++ l2) as Hin.
    { intros x [?|[?|[?|?]%elem_of_cons]%elem_of_app] Hx; [by left|right|done|right]; apply elem_of_app; tauto. }
    assert (thread_heaps_ st = 0 \/ thread_heaps_ st ∈ l1 ++ t :: l2) as Hhd.
    { destruct (l1 ++ t :: l2) as [|z k] eqn:E; cbn in L1; [by left|]. destruct L1 as [-> _]. right. by left. }
    cbn. destruct (Z.eqb_spec (next_memory_steal_ st) t) as [|Hs]; [destruct (Z.eqb_spec (next_ v) 0)|
      destruct (Z.eqb_spec (next_memory_steal_ st) 0)]; try (by apply Hin2); try (by apply Hin);
      (destruct (Z.eqb_spec (thread_heaps_ st) t); [by apply Hin2|by apply Hin]).
Qed.
End Finish.

(** ** Witnesses *)

Lemma NewHeap_correct_witness :
  wp (NewHeap ToyCaches.sm 0 (fun _ _ => 0) 7)
    (fun r st' => r <> 0 /\ r <> 100) (ToyCaches.state {[4096 := 1]}).
Proof.
  eapply wp_mono; [apply (NewHeap_correct ToyCaches.sm ToyCaches.holds
    0 (fun _ _ => 0) ToyCaches.toy_sizes_ok ∅ 100 [100] 7); [apply ToyCaches.state_idle|by left]|].
  intros r st' (? & Hr & _). split; [done|]. intros ->. apply Hr. by left.
Defined.

Lemma DeleteCache_correct_witness :
  wp (DeleteCache ToyCaches.sm 100) (fun _ st' => heaps st' !! 100 = None) (ToyCaches.state {[4096 := 1]}).
Proof.
  eapply wp_mono; [apply (DeleteCache_correct ToyCaches.sm ToyCaches.holds ToyCaches.toy_sizes_ok ∅ 100 [100]);
    [apply ToyCaches.state_idle|by left]|]. by intros [] st' [? _].
Defined.
