(* ===== verification/CentralCaches.v ===== *)
(** * The central lists serve the thread caches

    The interface the upper layers need of the page heap besides spans for
    the central lists: large and aligned spans, stack traces and the memory
    of thread caches. Over it, the central free lists of CentralFreeList.v
    meet the laws of ThreadCacheSpec.v, while the users keep their large
    spans [priv]. *)
From S2P Require Import Prelude Common PageMap PackedCache Span SysEnv PageHeap CentralFreeList CentralFreeListInv CentralFreeListSpec Sampler ThreadCache ThreadCacheSpec.
Import SizeMap CFL.

(** ** The interface *)

Class ObjectHeap (H : Type) := {
  ph_NewAligned : Z -> Z -> M H Z;
  ph_RoundUpSize : Z -> Z;
  ph_stacktrace_New : M H Z;
  ph_stacktrace_Delete : Z -> M H unit;
  ph_threadcache_New : M H Z;
  ph_threadcache_Delete : Z -> M H unit;
  (** The stack traces and the thread caches that are live. *)
  ph_stacks : H -> gset Z;
  ph_caches : H -> gset Z }.

Definition ph_stay `{ObjectHeap H} (h h' : H) : Prop :=
  ph_stacks h ⊆ ph_stacks h' /\ ph_caches h ⊆ ph_caches h'.
#[export] Instance ph_stay_preorder `{ObjectHeap H} : PreOrder ph_stay.
Proof. split; [by intros h|]. intros h1 h2 h3 [] []. split; set_solver. Qed.

(** The call changed no span and no page. *)
Definition ph_same `{SpanHeap H} (h h' : H) : Prop :=
  ph_wf h' /\ ph_frame ∅ h h' /\ forall pg, ph_GetDescriptor h' pg = ph_GetDescriptor h pg.

(** A large span was handed out: fresh, long enough, its first page known
    to the page map and unknown to the size-class cache. *)
Definition ph_large `{SpanHeap H, ObjectHeap H} (n : Z) (P : Z -> Prop) (h : H) (r : Z) (h' : H) : Prop :=
  ph_wf h' /\ ph_stay h h' /\
  (r = 0 /\ ph_frame ∅ h h' \/
   r <> 0 /\ ph_frame {[r]} h h' /\ (forall t, ~ ph_inuse h r t) /\
   exists s, ph_inuse h' r s /\ Span.length_ s = ph_RoundUpSize n /\ n <= Span.length_ s /\ sizeclass s = 0 /\ sample s = false /\
     P (start s) /\ ph_GetDescriptor h' (start s) = r /\ ph_TryGetSizeClass h' (start s) = None).

Class ObjectHeapLaws (H : Type) `{SpanHeap H} `{ObjectHeap H} := {
  ph_null : forall h, ph_wf h -> ph_GetDescriptor h 0 = 0 /\ ph_TryGetSizeClass h 0 = None;
  NewSC_stay : forall n sc, moves ph_stay (ph_NewWithSizeClass n sc);
  Delete_stay : forall p, moves ph_stay (ph_Delete p);
  SetCached_stay : forall pg cl, moves ph_stay (ph_SetCachedSizeClass pg cl);
  write_stay : forall p s, moves ph_stay (ph_write p s);
  New_large_ok : forall n h, ph_wf h -> 0 < n < 2 ^ 64 ->
    wp (ph_NewWithSizeClass n 0) (ph_large n (fun _ => True) h) h;
  NewAligned_ok : forall n j h, ph_wf h -> 0 < n < 2 ^ 64 -> 0 <= j <= 63 ->
    wp (ph_NewAligned n (2 ^ j)) (ph_large n (fun a => a mod 2 ^ j = 0) h) h;
  stack_New_ok : forall h, ph_wf h -> wp ph_stacktrace_New (fun r h' => ph_same h h' /\ ph_stay h h' /\
    r <> 0 /\ r ∉ ph_stacks h /\ r ∈ ph_stacks h') h;
  stack_Delete_ok : forall r h, ph_wf h -> r ∈ ph_stacks h -> wp (ph_stacktrace_Delete r) (fun _ h' => ph_same h h' /\
    ph_stacks h ∖ {[r]} ⊆ ph_stacks h' /\ ph_caches h ⊆ ph_caches h') h;
  cache_New_ok : forall h, ph_wf h -> wp ph_threadcache_New (fun r h' => ph_same h h' /\ ph_stay h h' /\
    r <> 0 /\ r ∉ ph_caches h /\ ph_caches h' = {[r]} ∪ ph_caches h) h;
  cache_Delete_ok : forall r h, ph_wf h -> r ∈ ph_caches h -> wp (ph_threadcache_Delete r) (fun _ h' => ph_same h h' /\
    ph_caches h' = ph_caches h ∖ {[r]} /\ ph_stacks h ⊆ ph_stacks h') h }.

Section Caches.
Context {H : Type} `{!SpanHeap H} `{!SpanHeapLaws H} `{!ObjectHeap H} `{!ObjectHeapLaws H} {RS : Rest}.
Context (sizemap : SizeMap) (others : M (Central H) unit).
Abbreviation central := (Central H).
Implicit Types st : central.

#[export] Instance central_lists : CentralCache central := {|
  cc_RemoveRange := RemoveRange sizemap others;
  cc_InsertRange := InsertRange sizemap others;
  threadcache_allocator_New := in_heap ph_threadcache_New;
  threadcache_allocator_Delete r := in_heap (ph_threadcache_Delete r);
  cc_live st := ph_caches (pageheap st) |}.

(** ** What the lists leave alone *)

Definition stay st st' : Prop := ph_stay (pageheap st) (pageheap st').
#[export] Instance stay_preorder : PreOrder stay.
Proof. split; [by intros st|]. intros s1 s2 s3 H1 H2. unfold stay in *. by transitivity (pageheap s2). Qed.

(** Other threads run the same operations. *)
Hypothesis others_stay : moves stay others.
Hypothesis Hsm : sizemap_ok (H := H) sizemap.
Hypothesis others_ok : forall mine priv st, Holds sizemap mine priv st -> wp others (fun _ st' => Holds sizemap mine priv st') st.

Lemma stay_in_heap {A} (m : M H A) : moves ph_stay m -> moves stay (in_heap m).
Proof using.
  intros Hm st a st'. unfold in_heap. destruct (m (pageheap st)) as [[b h]|] eqn:E; [|done]. intros [= _ <-].
  by apply (Hm _ b).
Qed.
#[local] Hint Resolve stay_in_heap NewSC_stay Delete_stay SetCached_stay write_stay others_stay : moves.
#[local] Hint Extern 1 (stay _ _) => unfold stay; reflexivity : moves.
Lemma stay_get_list cl : moves stay (get_list cl).
Proof using. unfold get_list. moves. Qed.
Lemma stay_put_list cl c : moves stay (put_list cl c).
Proof using. unfold put_list. moves. Qed.
Lemma stay_get_span p : moves stay (get_span p).
Proof using. unfold get_span. moves. Qed.
#[local] Hint Resolve stay_get_list stay_put_list stay_get_span : moves.
Lemma stay_upd_list cl f : moves stay (upd_list cl f).
Proof using. unfold upd_list. moves. Qed.
#[local] Hint Resolve stay_upd_list : moves.
Lemma stay_ReleaseToSpans cl x : moves stay (ReleaseToSpans sizemap others cl x).
Proof using ObjectHeapLaws0 others_stay. unfold ReleaseToSpans. moves. Qed.
#[local] Hint Resolve stay_ReleaseToSpans : moves.
Lemma stay_ShrinkCache t force : moves stay (ShrinkCache sizemap others t force).
Proof using ObjectHeapLaws0 others_stay. unfold ShrinkCache, ReleaseListToSpans. moves. Qed.
#[local] Hint Resolve stay_ShrinkCache : moves.
Lemma stay_Evict t force : moves stay (EvictRandomSizeClass sizemap others t force).
Proof using ObjectHeapLaws0 others_stay. unfold EvictRandomSizeClass. moves. Qed.
#[local] Hint Resolve stay_Evict : moves.
Lemma stay_MakeCacheSpace cl : moves stay (MakeCacheSpace sizemap others cl).
Proof using ObjectHeapLaws0 others_stay. unfold MakeCacheSpace. moves. Qed.
#[local] Hint Resolve stay_MakeCacheSpace : moves.
Lemma stay_InsertRange cl l N : moves stay (InsertRange sizemap others cl l N).
Proof using ObjectHeapLaws0 others_stay. unfold InsertRange, ReleaseListToSpans. moves. Qed.
Lemma stay_Fetch cl N : moves stay (FetchFromOneSpans cl N).
Proof using ObjectHeapLaws0. unfold FetchFromOneSpans. moves. Qed.
#[local] Hint Resolve stay_Fetch : moves.
Lemma stay_Populate cl : moves stay (Populate sizemap others cl).
Proof using ObjectHeapLaws0 others_stay. unfold Populate. moves. Qed.
#[local] Hint Resolve stay_Populate : moves.
Lemma stay_FetchSafe cl N : moves stay (FetchFromOneSpansSafe sizemap others cl N).
Proof using ObjectHeapLaws0 others_stay. unfold FetchFromOneSpansSafe. moves. Qed.
#[local] Hint Resolve stay_FetchSafe : moves.
Lemma stay_RemoveRange cl N : moves stay (RemoveRange sizemap others cl N).
Proof using ObjectHeapLaws0 others_stay. unfold RemoveRange. moves. Qed.

(** ** The laws *)

Lemma Holds_same mine priv st h' : Holds sizemap mine priv st -> ph_same (pageheap st) h' ->
  Holds sizemap mine priv (mkCentral (central_cache st) (race_counter st) h').
Proof using.
  intros HH (Hwf & HF & _). by apply Holds_frame.
Qed.

(** What the front end keeps besides: large spans [priv] and stack traces
    [K]. *)
Definition Keeps (priv : gmap Z Owned) (K : gset Z) (m : gmap Z Z) st : Prop :=
  Holds sizemap m priv st /\ K ⊆ ph_stacks (pageheap st).

Lemma Keeps_stay priv K m st st' : K ⊆ ph_stacks (pageheap st) -> stay st st' -> Holds sizemap m priv st' -> Keeps priv K m st'.
Proof using. intros HK [Hs _] HH. split; [done|]. by etrans. Qed.

Lemma central_cache_laws priv K : CentralCacheLaws sizemap (Keeps priv K).
Proof using SpanHeapLaws0 ObjectHeapLaws0 others_stay Hsm others_ok.
  constructor.
  - intros m cl N c [HH HK] Hcl HN. eapply wp_mono; [eapply (wp_moves stay); [apply stay_RemoveRange|by apply wp_RemoveRange]|].
    intros l c' [(? & ? & ? & ?) Hst]. do 3 (split; [done|]). split; [by eapply Keeps_stay|apply Hst].
  - intros m cl l c Hcl Hnd Hl [HH HK]. eapply wp_mono; [eapply (wp_moves stay); [apply stay_InsertRange|by apply wp_InsertRange]|].
    intros [] c' [? Hst]. split; [by eapply Keeps_stay|apply Hst].
  - intros m c [HH HK]. apply wp_in_heap. pose proof (Holds_wf _ _ _ _ HH) as Hwf.
    eapply wp_mono; [by apply cache_New_ok|]. intros r h' (Hs & Hst & ? & ? & ?).
    do 3 (split; [done|]). eapply (Keeps_stay _ _ _ c); [done|done|by apply Holds_same].
  - intros m r c [HH HK] Hr. apply wp_in_heap. pose proof (Holds_wf _ _ _ _ HH) as Hwf.
    eapply wp_mono; [by apply cache_Delete_ok|]. intros [] h' (Hs & ? & Hk).
    split; [done|]. split; [by apply Holds_same|]. by etrans.
Qed.

(** The central lists are what the thread caches rely on, whatever
    large spans and stack traces the users hold meanwhile: the ranges they
    hand out are fresh, what goes back is taken, memory for a new cache is
    fresh, and no thread cache, large span or stack trace is lost on the
    way. Together with the page heap below, a thread cache's guarantees hold
    for the whole stack. *)
Theorem central_serves_caches priv K : CentralCacheLaws sizemap (Keeps priv K).
Proof using SpanHeapLaws0 ObjectHeapLaws0 others_stay Hsm others_ok. apply central_cache_laws. Qed.
End Caches.
