(* ===== verification/PageHeapFrame.v ===== *)
(** * What the page heap leaves alone

    Which operations touch [pagemap_cache_]: only the two that hand out a
    span, which invalidate the entry of its first page, and
    [SetCachedSizeClass]. Everything below them, searching, growing,
    releasing, splitting and coalescing, leaves the cache alone; and nothing
    the page heap does frees a stack trace or a thread cache. *)
From S2P Require Import Prelude Common PageMap PackedCache Span SysEnv PageHeap.
Import PH.

Section Frame.
Context {PM E : Type} `{!PageMap PM} `{!PageMapLaws PM} `{!SysEnv E} `{!SysEnvLaws E}.
Context (release_rate : double) (heap_limit_mb smallest_span_size_ : Z).
Abbreviation heap := (PageHeap PM E).
Abbreviation cache := (@pagemap_cache_ PM E).
Implicit Types h : heap.

Definition inner h h' : Prop := cache h' = cache h /\ objects_stay (env h) (env h').
#[export] Instance inner_preorder : PreOrder inner.
Proof.
  split; [by intros h|]. intros h1 h2 h3 [E1 O1] [E2 O2]. split; [congruence|]. by transitivity (env h2).
Qed.

Lemma inner_modS (g : heap -> heap) : (forall h, cache (g h) = cache h /\ env (g h) = env h) -> moves inner (modS g).
Proof. intros Hg. apply moves_mod. intros h. destruct (Hg h) as [E1 E2]. split; [done|]. by rewrite E2. Qed.
Lemma moves_in_env {A} (m : M E A) : moves objects_stay m -> moves inner (in_env m).
Proof.
  intros Hm h a h'. unfold in_env. destruct (m (env h)) as [[b e]|] eqn:Ee; [|done]. intros [= _ <-].
  split; [done|]. by apply (Hm _ b).
Qed.
#[local] Hint Resolve moves_in_env span_New_stay span_Delete_stay stacktrace_New_stay SystemAlloc_stay SystemRelease_stay
  SystemCommit_stay : moves.
#[local] Hint Extern 1 (inner _ _) => first [reflexivity|by split|case_match; by split] : moves.

Lemma moves_read {A} R `{!PreOrder R} (g : heap -> A) : moves R (read g).
Proof. unfold read. moves. Qed.
Lemma moves_get_span R `{!PreOrder R} p : moves R (@get_span PM E p).
Proof. unfold get_span. moves. Qed.
#[local] Hint Resolve moves_read moves_get_span : moves.
Lemma inner_upd_span p g : moves inner (upd_span p g).
Proof. unfold upd_span, put_span. moves. Qed.
Lemma inner_put_span p s : moves inner (put_span p s).
Proof. unfold put_span. moves. Qed.
Lemma inner_upd_stats g : moves inner (upd_stats g).
Proof. unfold upd_stats. moves. Qed.
Lemma inner_pagemap_set k v : moves inner (pagemap_set k v).
Proof. unfold pagemap_set. moves. Qed.
Lemma inner_put_large loc l h : inner h (put_large loc l h).
Proof. by destruct loc. Qed.
Lemma inner_Ensure s n : moves inner (pagemap_Ensure s n).
Proof.
  intros h a h'. unfold pagemap_Ensure. destruct (pm_ensure _ _ _ _ _) as [[[ok pm] e]|] eqn:Ee; [|done].
  intros [= _ <-]. split; [done|].
  eapply (pm_ensure_moves _ MetaDataAlloc objects_stay); [apply _|apply MetaDataAlloc_stay|exact Ee].
Qed.
Lemma inner_Prealloc : moves inner pagemap_PreallocateMoreMemory.
Proof.
  intros h a h'. unfold pagemap_PreallocateMoreMemory. destruct (pm_prealloc _ _ _) as [[pm e]|] eqn:Ee; [|done].
  intros [= _ <-]. split; [done|].
  eapply (pm_prealloc_moves _ MetaDataAlloc objects_stay); [apply _|apply MetaDataAlloc_stay|exact Ee].
Qed.
#[local] Hint Resolve inner_upd_span inner_put_span inner_upd_stats inner_pagemap_set inner_put_large inner_Ensure inner_Prealloc : moves.

Lemma inner_NewSpan p n : moves inner (NewSpan p n).
Proof. unfold NewSpan. moves. Qed.
Lemma inner_DeleteSpan p : moves inner (DeleteSpan p).
Proof. unfold DeleteSpan. moves. Qed.
#[local] Hint Resolve inner_NewSpan inner_DeleteSpan : moves.
Lemma inner_RecordSpan p : moves inner (RecordSpan p).
Proof. unfold RecordSpan. moves. Qed.
Lemma inner_Prepend p : moves inner (PrependToFreeList p).
Proof. unfold PrependToFreeList. moves. Qed.
Lemma inner_Remove p : moves inner (RemoveFromFreeList p).
Proof. unfold RemoveFromFreeList. moves. Qed.
Lemma inner_Commit p : moves inner (CommitSpan p).
Proof. unfold CommitSpan. moves. Qed.
Lemma inner_Decommit p : moves inner (DecommitSpan p).
Proof. unfold DecommitSpan. moves. Qed.
#[local] Hint Resolve inner_RecordSpan inner_Prepend inner_Remove inner_Commit inner_Decommit : moves.
Lemma inner_Split p n : moves inner (Split p n).
Proof. unfold Split. moves. Qed.
Lemma inner_carve_leftover p n ex l : moves inner (carve_leftover p n ex l).
Proof. unfold carve_leftover. moves. Qed.
#[local] Hint Resolve inner_Split inner_carve_leftover : moves.
Lemma inner_Carve p n : moves inner (Carve p n).
Proof. unfold Carve. moves. Qed.
Lemma inner_PreMerge p q : moves inner (CheckAndHandlePreMerge p q).
Proof. unfold CheckAndHandlePreMerge. moves. Qed.
Lemma inner_merge_prev p q : moves inner (merge_prev p q).
Proof. unfold merge_prev. moves. Qed.
Lemma inner_merge_next p q : moves inner (merge_next p q).
Proof. unfold merge_next. moves. Qed.
#[local] Hint Resolve inner_Carve inner_PreMerge inner_merge_prev inner_merge_next : moves.
Lemma inner_Merge p : moves inner (MergeIntoFreeList p).
Proof. unfold MergeIntoFreeList. moves. Qed.
#[local] Hint Resolve inner_Merge : moves.
Lemma inner_ReleaseSpan p : moves inner (ReleaseSpan p).
Proof. unfold ReleaseSpan. moves. Qed.
#[local] Hint Resolve inner_ReleaseSpan : moves.
Lemma inner_release_iter n a : moves inner (release_iter n a).
Proof. destruct a as [i r]. unfold release_iter. moves. Qed.
#[local] Hint Resolve inner_release_iter : moves.
Lemma inner_release_round n r : moves inner (release_round n r).
Proof. unfold release_round. moves. Qed.
#[local] Hint Resolve inner_release_round : moves.
Lemma inner_Release n : moves inner (ReleaseAtLeastNPages n).
Proof. unfold ReleaseAtLeastNPages. moves. Qed.
#[local] Hint Resolve inner_Release : moves.
Lemma inner_Scavenge n : moves inner (IncrementalScavenge release_rate n).
Proof. unfold IncrementalScavenge. moves. Qed.
#[local] Hint Resolve inner_Scavenge : moves.
Lemma inner_DeleteLocked p : moves inner (DeleteLocked release_rate p).
Proof. unfold DeleteLocked. moves. Qed.
Lemma inner_EnsureLimit n b : moves inner (EnsureLimit heap_limit_mb n b).
Proof. unfold EnsureLimit. moves. Qed.
#[local] Hint Resolve inner_DeleteLocked inner_EnsureLimit : moves.
Lemma inner_AllocLarge_body n u : moves inner (AllocLarge_body heap_limit_mb n u).
Proof. unfold AllocLarge_body. moves. Qed.
Lemma inner_search_step n s : moves inner (search_step heap_limit_mb n s).
Proof. unfold search_step. moves. Qed.
#[local] Hint Resolve inner_AllocLarge_body inner_search_step : moves.
Lemma inner_AllocLarge n : moves inner (AllocLarge heap_limit_mb n).
Proof. unfold AllocLarge. moves. Qed.
Lemma inner_search_lists n l : moves inner (search_lists heap_limit_mb n l).
Proof. induction l as [|s l IH]; cbn [search_lists]; moves. Qed.
#[local] Hint Resolve inner_AllocLarge inner_search_lists : moves.
Lemma inner_Search n : moves inner (SearchFreeAndLargeLists heap_limit_mb n).
Proof. unfold SearchFreeAndLargeLists. moves. Qed.
Lemma inner_grow_alloc n : moves inner (grow_alloc heap_limit_mb n).
Proof. unfold grow_alloc. moves. Qed.
#[local] Hint Resolve inner_Search inner_grow_alloc : moves.
Lemma inner_GrowHeap n : moves inner (GrowHeap release_rate heap_limit_mb n).
Proof. unfold GrowHeap. moves. Qed.
#[local] Hint Resolve inner_GrowHeap : moves.
Lemma inner_NewLocked n : moves inner (NewLocked release_rate heap_limit_mb smallest_span_size_ n).
Proof. unfold NewLocked. moves. Qed.
Lemma inner_skip_prefix p n : moves inner (skip_prefix release_rate p n).
Proof. unfold skip_prefix. moves. Qed.
Lemma inner_trim_tail p n : moves inner (trim_tail release_rate p n).
Proof. unfold trim_tail. moves. Qed.

(** ** The operations that hand out spans *)

(** After handing out span [r], the entry of its first page is invalid and
    no other entry has changed; a failed call changes nothing. *)
Definition invalidates h (r : Z) h' : Prop :=
  r = 0 /\ cache h' = cache h \/
  exists s, spans h' !! r = Some s /\ cache h' = PackedCache.Invalidate (cache h) (start s).

(** The cache and where a span starts. *)
Definition view (r : Z) h : PackedCache.t * option Z := (cache h, start <$> spans h !! r).
Definition outer (r : Z) h h' : Prop := view r h' = view r h /\ objects_stay (env h) (env h').
#[export] Instance outer_preorder r : PreOrder (outer r).
Proof.
  split; [by intros h|]. intros h1 h2 h3 [E1 O1] [E2 O2]. split; [congruence|]. by transitivity (env h2).
Qed.

Lemma outer_upd_span r p g : (forall s, start (g s) = start s) -> moves (outer r) (upd_span p g).
Proof.
  intros Hg h a h'. unfold upd_span, get_span, put_span, mbind, M_bind, getS, liftM, modS. cbn.
  destruct (spans h !! p) as [s|] eqn:Es; [|done]. cbn. intros [= _ <-]. split; [|done].
  unfold view. cbn [pagemap_cache_ with_spans spans].
  f_equal. destruct (decide (p = r)) as [->|]; [|by rewrite lookup_insert_ne].
  rewrite lookup_insert_eq, Es. cbn. by rewrite Hg.
Qed.
Lemma outer_Register r p sc : moves (outer r) (RegisterSizeClass p sc).
Proof.
  unfold RegisterSizeClass, pagemap_set. apply moves_bind; [apply _|by apply outer_upd_span|]. moves. done.
Qed.
Lemma outer_HandleUnlock r : moves (outer r) HandleUnlock.
Proof.
  unfold HandleUnlock. moves; [|done]. intros h x h'. unfold in_env.
  destruct (stacktrace_allocator_New (env h)) as [[y e]|] eqn:Ee; [|done]. intros [= _ <-].
  split; [done|]. by apply (stacktrace_New_stay _ y).
Qed.
Lemma invalidates_view h r h1 h2 : invalidates h r h1 -> view r h2 = view r h1 -> invalidates h r h2.
Proof.
  unfold view. intros Hi [= Ec Es]. unfold invalidates. rewrite Ec. destruct Hi as [?|(s & Hs & ->)]; [by left|right].
  rewrite Hs in Es. cbn in Es. destruct (spans h2 !! r) as [t|] eqn:Et; [|done]. cbn in Es. injection Es as Es.
  exists t. by rewrite Es.
Qed.

Lemma get_span_Ret p h s h' : get_span p h = Ret (s, h') -> spans h !! p = Some s /\ h' = h.
Proof. unfold get_span, mbind, M_bind, getS, liftM. cbn. destruct (spans h !! p); [|done]. cbn. by intros [= -> <-]. Qed.

(** What a client sees of an allocation. *)
Definition hands_out h (r : Z) h' : Prop := invalidates h r h' /\ objects_stay (env h) (env h').

Lemma NewWithSizeClass_hands_out n sc h r h' :
  NewWithSizeClass release_rate heap_limit_mb smallest_span_size_ n sc h = Ret (r, h') -> hands_out h r h'.
Proof.
  intros ([] & h1 & [= <-] & Hr)%bind_Ret. apply bind_Ret in Hr as (p & h2 & [HN ON]%inner_NewLocked & Hr).
  apply bind_Ret in Hr as ([] & h3 & H3 & Hr). apply bind_Ret in Hr as ([] & h4 & [H4 O4]%(outer_HandleUnlock p) & [= -> ->]).
  cbn in ON. destruct (Z.eqb_spec r 0) as [->|_].
  { injection H3 as <-. split; [|by transitivity (env h2)]. eapply invalidates_view; [|done]. left. by rewrite HN. }
  apply bind_Ret in H3 as (s & h5 & [Hs ->]%get_span_Ret & H3).
  apply bind_Ret in H3 as ([] & h6 & [= <-] & H3).
  assert (outer r (with_cache (PackedCache.Invalidate (cache h2) (start s)) h2) h3) as [H6 O6].
  { destruct (sc =? 0); [by injection H3 as <-|]. by eapply outer_Register. }
  split; [|transitivity (env h3); [by transitivity (env h2)|done]].
  eapply invalidates_view; [|done]. eapply (invalidates_view _ _ (with_cache _ h2)); [|done].
  right. exists s. split; [done|]. cbn. by rewrite HN.
Qed.

Lemma NewAligned_hands_out n al h r h' :
  NewAligned release_rate heap_limit_mb smallest_span_size_ n al h = Ret (r, h') -> hands_out h r h'.
Proof.
  unfold NewAligned. destruct (_ || _).
  - intros (p & h1 & H1%NewWithSizeClass_hands_out & Hr)%bind_Ret. apply bind_Ret in Hr as ([] & h2 & H2 & [= <- <-]).
    unfold liftM, check in H2. destruct (Z.eqb_spec p 0) as [->|]; [|done]. by injection H2 as <-.
  - intros ([] & h1 & [= <-] & Hr)%bind_Ret. apply bind_Ret in Hr as (p & h2 & [HN ON]%inner_NewLocked & Hr).
    apply bind_Ret in Hr as (q & h3 & H3 & Hr). apply bind_Ret in Hr as ([] & h4 & [H4 O4]%(outer_HandleUnlock q) & [= -> ->]).
    cbn in ON. destruct (Z.eqb_spec p 0) as [_|_].
    { injection H3 as <- <-. split; [|by transitivity (env h2)]. eapply invalidates_view; [|done]. left. by rewrite HN. }
    apply bind_Ret in H3 as (s & h5 & [_ ->]%get_span_Ret & H3).
    apply bind_Ret in H3 as (k & h6 & H6%(moves_lift inner) & H3).
    apply bind_Ret in H3 as (u & h7 & H7%inner_skip_prefix & H3). apply bind_Ret in H3 as ([] & h8 & H8%inner_trim_tail & H3).
    apply bind_Ret in H3 as (t & h9 & [Ht ->]%get_span_Ret & H3). apply bind_Ret in H3 as ([] & h10 & [= <-] & [= -> <-]).
    assert (inner h2 h8) as [E8 O8] by (by do 2 (etrans; [done|])).
    split; [|transitivity (env h8); [by transitivity (env h2)|done]]. eapply invalidates_view; [|done].
    right. exists t. split; [done|]. cbn. by rewrite E8, HN.
Qed.
End Frame.
