(* ===== verification/CentralPageHeap.v ===== *)
(** * The page heap and the size map serve the central free lists

    Discharges the interface of CentralFreeList.v with the page heap of
    PageHeap.v, and the requirements on the size map with what
    [SizeMap::Init] establishes (Common.v). *)
From S2P Require Import Prelude Common Sampler ThreadCache ThreadCacheSpec PageMap PackedCache Span SysEnv PageHeap PageHeapInv PageHeapOps PageHeapRelease PageHeapAlloc SystemAlloc SystemAllocSpec PageHeapSpec PageHeapFrame CentralFreeList CentralFreeListInv CentralFreeListSpec CentralCaches.
Import PH.

Section Provides.
Context {PM E : Type} `{!PageMap PM} `{!PageMapLaws PM} `{!SysEnv E} `{!SysEnvLaws E}.
Context (release_rate : double) (heap_limit_mb smallest_span_size_ : Z).
Abbreviation heap := (PageHeap PM E).
Implicit Types h : heap.
Hypothesis Hcfg : config_ok release_rate smallest_span_size_.

(** The heap's invariant, and that the cache of size classes has nothing
    about the null page. *)
Definition heap_wf h : Prop := Inv ∅ 0 h /\ PackedCache.TryGet (pagemap_cache_ h) 0 = None.

(** The central lists see the page heap through these members; the fields
    of a descriptor are read and written in place. *)
Definition page_heap_spans : SpanHeap heap := {|
  ph_NewWithSizeClass := NewWithSizeClass release_rate heap_limit_mb smallest_span_size_;
  ph_Delete := Delete release_rate;
  ph_GetDescriptor h pg := GetDescriptor pg h;
  ph_SetCachedSizeClass := SetCachedSizeClass;
  ph_TryGetSizeClass h pg := PackedCache.TryGet (pagemap_cache_ h) pg;
  ph_read h p := spans h !! p;
  ph_write := put_span;
  ph_unit := smallest_span_size_;
  ph_wf := heap_wf |}.

(** Entries of the cache survive or are lost, for pages of the heap. *)
Definition loses (c c' : PackedCache.t) : Prop := forall k, 0 <= k < 2 ^ 64 ->
  PackedCache.TryGet c' k = PackedCache.TryGet c k \/ PackedCache.TryGet c' k = None.

Lemma span_pages h p s pg : Inv ∅ 0 h -> spans h !! p = Some s -> in_span s pg -> 1 <= pg < 2 ^ 36.
Proof.
  intros HI Hp Hin. destruct (geo_wf _ _ _ _ (inv_geo _ _ _ HI) p s Hp) as (? & ? & ? & ?). unfold in_span in Hin. lia.
Qed.
Lemma span_first h p s : Inv ∅ 0 h -> spans h !! p = Some s -> 1 <= start s < 2 ^ 36.
Proof.
  intros HI Hp. destruct (geo_wf _ _ _ _ (inv_geo _ _ _ HI) p s Hp) as (? & ? & ? & ?). lia.
Qed.

Lemma same_inuse_frame X h h' : Inv ∅ 0 h -> same_inuse X h h' -> loses (pagemap_cache_ h) (pagemap_cache_ h') ->
  @ph_frame _ page_heap_spans X h h'.
Proof.
  intros HI [H1 H2] Hc. constructor; [done|done|]. intros q s pg _ [Hq _] Hin. apply Hc.
  pose proof (span_pages _ _ _ _ HI Hq Hin). lia.
Qed.
Lemma loses_same c c' : c' = c -> loses c c'.
Proof. intros -> k _. by left. Qed.
Lemma loses_invalidate c k : 0 <= k -> loses c (PackedCache.Invalidate c k).
Proof. intros Hk k' Hk'. rewrite PackedCache.TryGet_Invalidate by lia. repeat case_decide; auto. Qed.
Lemma invalidates_loses h r h' : Inv ∅ 0 h' -> invalidates h r h' -> loses (pagemap_cache_ h) (pagemap_cache_ h').
Proof.
  intros HI [[_ Hc]|(s & Hs & ->)]; [by apply loses_same|]. pose proof (span_first _ _ _ HI Hs).
  apply loses_invalidate. lia.
Qed.
Lemma invalidates_first h r h' s : Inv ∅ 0 h' -> r <> 0 -> invalidates h r h' -> spans h' !! r = Some s ->
  PackedCache.TryGet (pagemap_cache_ h') (start s) = None.
Proof.
  intros HI Hr [[? _]|(t & Ht & ->)] Hs; [done|]. rewrite Hs in Ht. injection Ht as <-.
  pose proof (span_first _ _ _ HI Hs). rewrite PackedCache.TryGet_Invalidate, decide_True by (done || lia). done.
Qed.

Lemma wf_loses h h' : heap_wf h -> Inv ∅ 0 h' -> loses (pagemap_cache_ h) (pagemap_cache_ h') -> heap_wf h'.
Proof. intros [_ H0] HI Hl. split; [done|]. by destruct (Hl 0 ltac:(lia)) as [-> | ->]. Qed.

Lemma RoundUpSize_multiple n : 0 < n < 2 ^ 21 -> n mod smallest_span_size_ = 0 ->
  RoundUpSize smallest_span_size_ n = n.
Proof.
  intros Hn Hm. destruct Hcfg as [_ Hs]. rewrite RoundUpSize_eq by (done || lia). destruct Hs as (k & Hk & ->).
  pose proof (Z.pow_pos_nonneg 2 k ltac:(lia) ltac:(lia)) as Hp.
  assert (2 ^ k <= n) as Hle.
  { destruct (Z.le_gt_cases (2 ^ k) n); [done|]. rewrite Z.mod_small in Hm by lia. lia. }
  rewrite (proj2 (Z.ltb_lt _ _)) by lia. pose proof (Z.div_mod n (2 ^ k) ltac:(lia)) as Hd. rewrite Hm in Hd.
  replace (n + 2 ^ k - 1) with (2 ^ k - 1 + n / 2 ^ k * 2 ^ k) by lia.
  rewrite Z.div_add, Z.div_small by lia. lia.
Qed.

(** The objects and the count of a span in use are not the heap's concern. *)
Lemma HInv_fields h p s s' : Inv ∅ 0 h -> spans h !! p = Some s -> location s = IN_USE ->
  start s' = start s -> length_ s' = length_ s -> location s' = IN_USE ->
  Inv ∅ 0 (with_spans (<[p := s']> (spans h)) h).
Proof.
  intros HI Hp Hl Es El El'. pose proof HI as [HG HL HB ? Hlive Hclean ? Hacc].
  assert (PageHeapInv.listed ∅ (<[p := s']> (spans h)) = PageHeapInv.listed ∅ (spans h)) as EV.
  { apply listed_eq. intros q t. destruct (decide (q = p)) as [->|Hne]; [|by rewrite lookup_insert_ne].
    rewrite lookup_insert_eq. split; intros (E1 & _ & ?); exfalso; congruence. }
  constructor; cbn [spans pagemap_ env stats_ release_index_ with_spans]; rewrite ?EV; try done.
  - by apply (geo_similar _ _ _ _ p s s').
  - intros q [t Hq]. apply Hlive. destruct (decide (q = p)) as [->|Hne]; [by eexists|].
    rewrite lookup_insert_ne in Hq by done. by eexists.
  - intros q t Hq. destruct (decide (q = p)) as [->|Hne].
    + rewrite lookup_insert_eq in Hq. injection Hq as <-. done.
    + rewrite lookup_insert_ne in Hq by done. exact (Hclean q t Hq).
  - by eapply accounted_update.
Qed.

Lemma same_inuse_write h p s' : same_inuse {[p]} h (with_spans (<[p := s']> (spans h)) h).
Proof.
  constructor; [|done]. intros q t Hq%not_elem_of_singleton. unfold inuse. cbn [spans with_spans].
  by rewrite lookup_insert_ne by congruence.
Qed.

Lemma page_heap_laws : @SpanHeapLaws _ page_heap_spans.
Proof.
  pose proof Hcfg as [Hrate Hss]. constructor.
  - intros h p q s t pg [HI _] [Hp _] [Hq _]. by apply (geo_disj _ _ _ _ (inv_geo _ _ _ HI)).
  - intros h p s [HI _] [Hp _]. destruct (geo_wf _ _ _ _ (inv_geo _ _ _ HI) p s Hp) as (? & ? & ? & ?). done.
  - intros n sc h Hwf Hn Hm Hsc. pose proof Hwf as [HI _]. eapply wp_mono; [eapply wp_result; [intros *; apply NewWithSizeClass_hands_out|];
      apply (wp_NewWithSizeClass release_rate heap_limit_mb); [done|done|done|lia]|].
    intros r h' [[HI' Hr] [Hi _]]. rewrite RoundUpSize_multiple in Hr by done.     pose proof (invalidates_loses _ _ _ HI' Hi) as Hlose. split; [by eapply wf_loses|].
    destruct Hr as [[-> HS]|(Hr & HS & Hnot & s & Hu & Hlen & Hs & _ & Hmap)];
      [left; split; [done|by apply same_inuse_frame]|right].
    split; [done|]. split; [by apply same_inuse_frame|]. split; [done|]. exists s. split; [done|]. split; [done|].
    split; [rewrite Hs; change kClassSizesMax with 128 in Hsc; unfold u8; apply Z.mod_small; lia|].
    split; [|apply Hmap; lia]. by eapply invalidates_first; [..|apply Hu].
  - intros p s h Hwf [Hp Hl]. pose proof Hwf as [HI _]. eapply wp_mono; [eapply (wp_moves inner); [apply (inner_DeleteLocked release_rate p)|];
      eapply wp_DeleteLocked with (Q := fun _ h' => Inv ∅ 0 h' /\ same_inuse {[p]} h h' /\ forall t, ~ inuse h' p t); by eauto|].
    cbn beta. intros _ h' ((HI' & HS & Hn) & Hc & _). split; [by eapply wf_loses; [|..|apply loses_same]|]. split; [|done].
    apply same_inuse_frame; [done|done|by apply loses_same].
  - intros p s pg cl h [HI H0] [Hp Hl] Hin Hcl. pose proof (span_pages _ _ _ _ HI Hp Hin). change kClassSizesMax with 128 in Hcl.
    apply wp_mod. cbn [ph_TryGetSizeClass page_heap_spans pagemap_cache_ with_cache].
    split; [split; [by apply HInv_cache|]; cbn; rewrite PackedCache.TryGet_Put, decide_False by lia; by case_decide|].
    split; [|split; [done|split; [done|split]]].
    + constructor; [done|done|]. intros q t k Hq%not_elem_of_singleton [Ht _] Hk. pose proof (span_pages _ _ _ _ HI Ht Hk).
      cbn. rewrite PackedCache.TryGet_Put, decide_False; [|intros ->|lia..]; [case_decide; auto|].
      apply Hq. by apply (geo_disj _ _ _ _ (inv_geo _ _ _ HI) q p t s pg).
    + left. by rewrite PackedCache.TryGet_Put, decide_True by (done || lia).
    + intros k Hk Hne. pose proof (span_pages _ _ _ _ HI Hp Hk). rewrite PackedCache.TryGet_Put, decide_False by (done || lia).
      case_decide; auto.
  - intros p s s' h [HI H0] [Hp Hl] Es El El'. apply wp_mod. split; [split; [by eapply HInv_fields|done]|].
    split; [apply same_inuse_frame; [done|apply same_inuse_write|by apply loses_same]|].
    split; [|done]. split; [apply lookup_insert_eq|done].
Qed.

(** ** Large spans, stack traces and thread caches *)

Definition page_heap_objects : ObjectHeap heap := {|
  ph_NewAligned := NewAligned release_rate heap_limit_mb smallest_span_size_;
  ph_RoundUpSize := RoundUpSize smallest_span_size_;
  ph_stacktrace_New := in_env stacktrace_allocator_New;
  ph_stacktrace_Delete p := in_env (stacktrace_allocator_Delete p);
  ph_threadcache_New := in_env threadcache_New;
  ph_threadcache_Delete p := in_env (threadcache_Delete p);
  ph_stacks h := live_stacks (env h);
  ph_caches h := live_caches (env h) |}.

Lemma RoundUp_fits n : 0 < n < 2 ^ 64 -> RoundUpSize smallest_span_size_ n < 2 ^ 31 -> n <= RoundUpSize smallest_span_size_ n.
Proof.
  intros Hn. destruct (RoundUpSize_pos smallest_span_size_ n (size_ok _ _ Hcfg) Hn) as [_ Hle].
  rewrite RoundUpSize_eq in * by (done || apply Hcfg). destruct (size_ok _ _ Hcfg) as (k & Hk & E0).
  assert (1 <= smallest_span_size_ <= 2 ^ 63) as Hb.
  { rewrite E0. split; [pose proof (Z.pow_pos_nonneg 2 k); lia|apply Z.pow_le_mono_r; lia]. }
  destruct (Z.ltb_spec (n + smallest_span_size_ - 1) (2 ^ 64)) as [Hlt|]; [intros _; by apply Hle|lia].
Qed.

(** A span handed out, as the clients see it. *)
Lemma hands_out_large n (P : Z -> Prop) h r h' s : heap_wf h -> Inv ∅ 0 h' -> 0 < n < 2 ^ 64 -> r <> 0 -> hands_out h r h' ->
  same_inuse {[r]} h h' -> (forall t, ~ inuse h r t) -> inuse h' r s -> length_ s = RoundUpSize smallest_span_size_ n ->
  sizeclass s = 0 -> sample s = false -> P (start s) ->
  @ph_large _ page_heap_spans page_heap_objects n P h r h'.
Proof.
  intros Hwf HI' Hn Hr [Hi Ho] HS Hnot Hu Hlen Hsc Hsm HP. pose proof Hu as [Hp _]. pose proof Hwf as [HI _].
  split; [by eapply wf_loses; [done|done|eapply invalidates_loses]|]. split; [done|]. right. split; [done|].
  split; [apply same_inuse_frame; [done|done|by eapply invalidates_loses]|]. split; [done|].
  exists s. split; [done|]. split; [done|]. split; [rewrite Hlen; apply RoundUp_fits; [done|]; rewrite <- Hlen; eapply (inuse_small _ _ _ HI'), Hu|].
  do 3 (split; [done|]). split; [by apply (geo_first _ _ _ _ (inv_geo _ _ _ HI'))|]. by eapply invalidates_first.
Qed.
Lemma hands_out_none n (P : Z -> Prop) h h' : heap_wf h -> Inv ∅ 0 h' -> hands_out h 0 h' -> same_inuse ∅ h h' ->
  @ph_large _ page_heap_spans page_heap_objects n P h 0 h'.
Proof.
  intros Hwf HI' [Hi Ho] HS. pose proof Hwf as [HI _]. split; [by eapply wf_loses; [done|done|eapply invalidates_loses]|]. split; [done|]. left. split; [done|].
  apply same_inuse_frame; [done|done|by eapply invalidates_loses].
Qed.

Lemma env_same h e : heap_wf h -> env_keeps (env h) e -> @ph_same _ page_heap_spans h (with_env e h).
Proof.
  intros [HI H0] He. split; [split; [by apply (HInv_env h e)|done]|]. split; [|done].
  apply same_inuse_frame; [done|by apply same_inuse_same|by apply loses_same].
Qed.

Lemma page_heap_object_laws : @ObjectHeapLaws _ page_heap_spans page_heap_objects.
Proof.
  pose proof Hcfg as [Hrate Hss]. constructor.
  - intros h [HI H0]. split; [|done]. cbn. unfold GetDescriptor. destruct (Z.eq_dec (pm_get (pagemap_ h) 0) 0) as [?|Hne]; [done|].
    destruct (geo_cover _ _ _ _ (inv_geo _ _ _ HI) 0 Hne) as (p & s & Hp & Hin). pose proof (span_pages _ _ _ _ HI Hp Hin). lia.
  - intros n sc h r h' H. apply (NewWithSizeClass_hands_out release_rate heap_limit_mb smallest_span_size_ n sc h r h' H).
  - intros p h r h' H. apply (inner_DeleteLocked release_rate p h r h' H).
  - by intros pg cl h [] h' [= <-].
  - by intros p s h [] h' [= <-].
  - intros n h Hwf Hn. pose proof Hwf as [HI _]. eapply wp_mono; [eapply wp_result; [intros *; apply NewWithSizeClass_hands_out|];
      by apply (wp_NewWithSizeClass release_rate heap_limit_mb)|].
    intros r h' [[HI' Hr] Ho]. destruct Hr as [[-> HS]|(Hr & HS & Hnot & s & Hu & Hlen & Hsc & Hsm & _)].
    + by apply hands_out_none.
    + by eapply hands_out_large.
  - intros n j h Hwf Hn Hj. pose proof Hwf as [HI _]. eapply wp_mono; [eapply wp_result; [intros *; apply NewAligned_hands_out|];
      by apply (wp_NewAligned release_rate heap_limit_mb)|].
    intros r h' [[HI' Hr] Ho]. destruct Hr as [[-> HS]|(Hr & s & (_ & Hu & HS & Hnot) & Hlen & Hal & Hsc & Hsm)].
    + by apply hands_out_none.
    + by eapply hands_out_large.
  - intros h Hwf. pose proof Hwf as [HI _]. apply wp_in_env. eapply wp_mono; [eapply (wp_moves objects_stay); [apply stacktrace_New_stay|]; apply stacktrace_New_ok, HI|].
    cbn beta. intros r e ((Hr & Hn & Hl & He) & Ho). split; [by apply env_same|]. split; [done|]. split; [done|].
    split; [done|]. cbn. set_solver.
  - intros r h Hwf Hr. pose proof Hwf as [HI _]. apply wp_in_env. eapply wp_mono; [apply stacktrace_Delete_ok; [apply HI|done]|].
    intros [] e (Hl & Hc & He). split; [by apply env_same|]. cbn. by rewrite Hl, Hc.
  - intros h Hwf. pose proof Hwf as [HI _]. apply wp_in_env. eapply wp_mono; [eapply (wp_moves objects_stay); [apply threadcache_New_stay|]; apply threadcache_New_ok, HI|].
    cbn beta. intros r e ((Hr & Hn & Hl & He) & Ho). split; [by apply env_same|]. done.
  - intros r h Hwf Hr. pose proof Hwf as [HI _]. apply wp_in_env. eapply wp_mono; [apply threadcache_Delete_ok; [apply HI|done]|].
    intros [] e (Hl & Hc & He). split; [by apply env_same|]. cbn. by rewrite Hl, Hc.
Qed.

(** C27: the page heap implements what the layers above rely on: fresh
    spans of exactly the requested length with every page mapped to them,
    large and aligned spans whose first page the page map knows and the
    size-class cache does not, deletion that touches no other span,
    descriptors whose fields may be written while the span is in use, a
    size-class cache that may forget but never answers for another page, and
    stack traces and thread caches that are fresh and stay live. *)
Theorem page_heap_provides :
  @SpanHeapLaws _ page_heap_spans /\ @ObjectHeapLaws _ page_heap_spans page_heap_objects.
Proof. split; [apply page_heap_laws|apply page_heap_object_laws]. Qed.

Lemma size_map_ok flag sm : SizeMap.SizeMap_wf (smallest_span_size_ * kPageSize) flag sm ->
  SizeMap.moves_ok flag sm -> 1 <= flag < 2 ^ 31 -> smallest_span_size_ <= 32 ->
  @sizemap_ok _ page_heap_spans sm.
Proof.
  intros Hwf Hmv Hflag Hms.
  pose proof (SizeMap.wf_num _ _ _ Hwf) as Hn. constructor; [clia|]. intros cl Hcl.
  destruct (SizeMap.on_grid_facts _ (SizeMap.wf_grid _ _ _ Hwf cl Hcl)) as [Hsz _].
  destruct (SizeMap.wf_span _ _ _ Hwf cl Hcl) as (Hpg & Hmul & Hwaste & _ & Hup). fold (csize sm cl) in *.
  fold (cpages sm cl) in *.
  assert (nobj sm cl < 2 ^ 16) as Hfit.
  { unfold nobj. apply Z.div_lt_upper_bound; [lia|]. change kPageSize with 8192 in *. lia. }
  assert (1 <= nobj sm cl) as Hno.
  { unfold nobj. destruct (Z.le_gt_cases (csize sm cl) (cpages sm cl * kPageSize)).
    - apply Z.div_le_lower_bound; lia.
    - rewrite Z.mod_small in Hwaste by clia. assert (cpages sm cl * kPageSize / 8 < cpages sm cl * kPageSize); [|lia].
      apply Z.div_lt_upper_bound; clia. }
  destruct (size_ok _ _ Hcfg) as (k & Hk & Es).
  assert (0 < smallest_span_size_) by (rewrite Es; apply Z.pow_pos_nonneg; lia).
  split; [clia|]. split; [done|]. split.
  { rewrite Z.mul_mod_distr_r in Hmul by clia. cbn. clia. }
  split; [done|]. unfold cmove. specialize (Hmv cl Hcl). unfold SizeMap.num_objects_to_move in Hmv.
  rewrite aget_in in Hmv by clia. injection Hmv as Hmv. unfold SizeMap.ent. rewrite Hmv. unfold SizeMap.batch.
  fold (csize sm cl). pose proof (Z.div_le_upper_bound 65536 (csize sm cl) 65536 ltac:(lia) ltac:(lia)). lia.
Qed.

(** The size map built by [SizeMap::Init] is one the central lists can
    work with: every class has a positive size, a span that is a multiple
    of the page heap's smallest span, holds at least one object and fewer
    than the 16-bit reference count can tell apart, and a positive transfer
    batch; for smallest spans of up to 256 KiB. *)
Theorem size_map_serves flag sm (Hwf : SizeMap.SizeMap_wf (smallest_span_size_ * kPageSize) flag sm)
    (Hmv : SizeMap.moves_ok flag sm) (Hflag : 1 <= flag < 2 ^ 31) (Hms : smallest_span_size_ <= 32) :
  @sizemap_ok _ page_heap_spans sm.
Proof. by apply (size_map_ok flag). Qed.
End Provides.

Lemma page_heap_provides_witness : @SpanHeapLaws _ (page_heap_spans (PM := PM48) (E := Sys Z) default_rate 0 1).
Proof. apply (page_heap_provides default_rate 0 1 toy_config). Defined.

Lemma size_map_serves_witness : exists sm,
  SizeMap.Init 4096 (SizeMap.InitTCMallocTransferNumObjects 0 None) SizeMap.zero = Ret sm /\
  @sizemap_ok _ (page_heap_spans (PM := PM48) (E := Sys Z) default_rate 0 1) sm.
Proof.
  destruct (SizeMap.Init_default_ok 4096 ltac:(by left)) as (sm & HI & Hwf & Hmv). exists sm. split; [exact HI|].
  apply (size_map_serves default_rate 0 1 toy_config SizeMap.kDefaultTransferNumObjecs sm);
    [exact Hwf|exact Hmv|unfold SizeMap.kDefaultTransferNumObjecs; lia|lia].
Defined.
