(* ===== verification/Malloc.v ===== *)
(** * The allocation entry points

    Models the front end of src/src/src/tcmalloc.cc: the [tc_*] functions,
    the fast and the slow path below them, sampling, out-of-memory handling,
    [free], [realloc], [calloc], the aligned variants and the size queries,
    for the 64-bit build with sampling and without emergency malloc, after
    initialisation. The calling thread's cache pointer ([tls], of
    thread_cache_ptr.h) and the bytes of user memory are part of the state.
    Hooks and reports of large allocations are recorded as events. The
    assertions of the debug build are kept as checks. An exception that
    reaches a routine declared [noexcept] ends the program; here it is the
    routine's result. *)
From S2P Require Import Prelude Common Sampler ThreadCache PageMap PackedCache Span SysEnv PageHeap CentralFreeList CentralCaches.
Import SizeMap.

Definition ENOMEM : Z := 12.
Definition EINVAL : Z := 22.

(** What a call of the hooks, or a report, showed. *)
Inductive event :=
  | NewHook (p s : Z)
  | DeleteHook (p : Z)
  | LargeReport (num_pages result : Z).

(** What [operator new] ends with. [Throw true] is [std::bad_alloc],
    [Throw false] what a handler threw itself. *)
Inductive result := Ptr (p : Z) | Throw (bad_alloc : bool).
(** How a new-handler ended. *)
Inductive handled := HReturn | HBadAlloc | HOther.

Record Malloc (H U : Type) := mkMalloc {
  threads : Caches (Central H);
  tls : Z;
  sampled_objects : list Z;
  stack_size : gmap Z Z;
  mem : gmap Z Z;
  errno : Z;
  tc_new_mode : Z;
  large_alloc_threshold : Z;
  new_hooks : bool;
  delete_hooks : bool;
  trace : list event;
  pagesize : Z;
  user : U }.
Arguments mkMalloc {H U}. Arguments threads {H U}. Arguments tls {H U}. Arguments sampled_objects {H U}.
Arguments stack_size {H U}. Arguments mem {H U}. Arguments errno {H U}. Arguments tc_new_mode {H U}.
Arguments large_alloc_threshold {H U}. Arguments new_hooks {H U}. Arguments delete_hooks {H U}.
Arguments trace {H U}. Arguments pagesize {H U}. Arguments user {H U}.

(** ** Bytes *)

Definition memset (p v n : Z) (m : gmap Z Z) : gmap Z Z :=
  foldr (fun i m => <[p + i := v]> m) m (seqZ 0 n).
(** The source is read before anything is written; regions do not overlap. *)
Definition memcpy (d s n : Z) (m : gmap Z Z) : gmap Z Z :=
  foldr (fun i m' => partial_alter (fun _ => m !! (s + i)) (d + i) m') m (seqZ 0 n).

Module MA.
Section Malloc.
Context {H U : Type} `{!SpanHeap H} `{!ObjectHeap H}.
(** [Static::sizemap()], what other threads do while no central lock is
    held, the sampling rate and step, the address that seeds a sampler. *)
Context (sizemap : SizeMap) (others : M (Central H) unit) (flag : Z) (draw : Z -> Z -> Z) (seed : Z).
(** Whether large allocations are reported, the environment's threshold,
    the system's page size. *)
Context (report_enabled : bool) (report_env : Z) (getpagesize : Z).
Abbreviation malloc := (Malloc H U).
(** [std::get_new_handler()] and how often it may return. *)
Context (get_new_handler : U -> option (M malloc handled)) (patience : U -> nat).
#[local] Instance lists : CentralCache (Central H) := central_lists sizemap others.

Definition with_threads (v : Caches (Central H)) (st : malloc) : malloc :=
  mkMalloc v (tls st) (sampled_objects st) (stack_size st) (mem st) (errno st) (tc_new_mode st)
    (large_alloc_threshold st) (new_hooks st) (delete_hooks st) (trace st) (pagesize st) (user st).
Definition with_tls (v : Z) (st : malloc) : malloc :=
  mkMalloc (threads st) v (sampled_objects st) (stack_size st) (mem st) (errno st) (tc_new_mode st)
    (large_alloc_threshold st) (new_hooks st) (delete_hooks st) (trace st) (pagesize st) (user st).
Definition with_samples (l : list Z) (s : gmap Z Z) (st : malloc) : malloc :=
  mkMalloc (threads st) (tls st) l s (mem st) (errno st) (tc_new_mode st)
    (large_alloc_threshold st) (new_hooks st) (delete_hooks st) (trace st) (pagesize st) (user st).
Definition with_mem (v : gmap Z Z) (st : malloc) : malloc :=
  mkMalloc (threads st) (tls st) (sampled_objects st) (stack_size st) v (errno st) (tc_new_mode st)
    (large_alloc_threshold st) (new_hooks st) (delete_hooks st) (trace st) (pagesize st) (user st).
Definition with_errno (v : Z) (st : malloc) : malloc :=
  mkMalloc (threads st) (tls st) (sampled_objects st) (stack_size st) (mem st) v (tc_new_mode st)
    (large_alloc_threshold st) (new_hooks st) (delete_hooks st) (trace st) (pagesize st) (user st).
Definition with_new_mode (v : Z) (st : malloc) : malloc :=
  mkMalloc (threads st) (tls st) (sampled_objects st) (stack_size st) (mem st) (errno st) v
    (large_alloc_threshold st) (new_hooks st) (delete_hooks st) (trace st) (pagesize st) (user st).
Definition with_threshold (v : Z) (st : malloc) : malloc :=
  mkMalloc (threads st) (tls st) (sampled_objects st) (stack_size st) (mem st) (errno st) (tc_new_mode st)
    v (new_hooks st) (delete_hooks st) (trace st) (pagesize st) (user st).
Definition with_event (v : event) (st : malloc) : malloc :=
  mkMalloc (threads st) (tls st) (sampled_objects st) (stack_size st) (mem st) (errno st) (tc_new_mode st)
    (large_alloc_threshold st) (new_hooks st) (delete_hooks st) (v :: trace st) (pagesize st) (user st).
Definition with_pagesize (v : Z) (st : malloc) : malloc :=
  mkMalloc (threads st) (tls st) (sampled_objects st) (stack_size st) (mem st) (errno st) (tc_new_mode st)
    (large_alloc_threshold st) (new_hooks st) (delete_hooks st) (trace st) v (user st).

(** ** Access to the layers below *)

Definition in_threads {A} (m : M (Caches (Central H)) A) : M malloc A := fun st =>
  match m (threads st) with Ret (a, t) => Ret (a, with_threads t st) | Fault f => Fault f end.
Definition in_pageheap {A} (m : M H A) : M malloc A := in_threads (TC.in_central (CFL.in_heap m)).
Definition pageheap_of (st : malloc) : H := pageheap (central (threads st)).
Definition get_span (p : Z) : M malloc Span := st ← getS; liftM (deref (ph_read (pageheap_of st) p)).

(** [ThreadCachePtr::GetIfPresent] and [Grab]. *)
Definition GetIfPresent : M malloc Z := st ← getS; mret (tls st).
Definition Grab : M malloc Z :=
  cache ← GetIfPresent;
  if negb (cache =? 0) then mret cache else
  cache ← in_threads (TC.NewHeap sizemap flag draw seed);
  _ ← modS (with_tls cache);
  mret cache.

Definition InvokeNewHook (p s : Z) : M malloc unit :=
  st ← getS; if new_hooks st then modS (with_event (NewHook p s)) else mret tt.
Definition InvokeDeleteHook (p : Z) : M malloc unit :=
  st ← getS; if delete_hooks st then modS (with_event (DeleteHook p)) else mret tt.

(** ** Sizes *)

Definition align_size_up (size align : Z) : Z :=
  let new_size := Z.land (u64 (size + align - 1)) (u64 (Z.lnot (u64 (align - 1)))) in
  if new_size =? 0 then (if size =? 0 then align else size) else new_size.

Definition size_class_with_alignment (size align : Z) : outcome (option Z) :=
  if align >? kPageSize then Ret None else
  let size := align_size_up size align in
  r ← GetSizeClass sizemap size;
  match r with
  | None => Ret None
  | Some cl =>
      sz ← class_to_size sizemap cl;
      _ ← check (Z.land sz (u64 (align - 1)) =? 0);
      Ret (Some cl)
  end.

Definition nallocx_slow (size flags : Z) : outcome Z :=
  let align := u64 (Z.shiftl 1 (Z.land flags 0x3f)) in
  cl ← size_class_with_alignment size align;
  match cl with
  | Some cl => ByteSizeForClass sizemap cl
  | None => Ret (u64 (Z.shiftl (ph_RoundUpSize (pages size)) kPageShift))
  end.

Definition tc_nallocx (size flags : Z) : outcome Z :=
  if negb (flags =? 0) then nallocx_slow size flags else
  cl ← GetSizeClass sizemap size;
  match cl with
  | Some cl => if negb (cl =? 0) then ByteSizeForClass sizemap cl else nallocx_slow size 0
  | None => nallocx_slow size 0
  end.

(** ** Results *)

Definition CheckCachedSizeClass (ptr : Z) : M malloc bool :=
  st ← getS;
  let p := Z.shiftr ptr kPageShift in
  match ph_TryGetSizeClass (pageheap_of st) p with
  | None => mret true
  | Some cached_value => s ← get_span (ph_GetDescriptor (pageheap_of st) p); mret (cached_value =? sizeclass s)
  end.
(** With the assertion of the debug build. *)
Definition CheckedMallocResult (result : Z) : M malloc Z :=
  if result =? 0 then mret result else
  ok ← CheckCachedSizeClass result;
  _ ← liftM (check ok);
  mret result.
Definition SpanToMallocResult (span : Z) : M malloc Z :=
  s ← get_span span;
  CheckedMallocResult (u64 (Z.shiftl (start s) kPageShift)).

Definition DoSampledAllocation (size : Z) : M malloc Z :=
  let pages := pages (if size =? 0 then 1 else size) in
  span ← in_pageheap (ph_NewWithSizeClass pages 0);
  if span =? 0 then mret 0 else
  stack ← in_pageheap ph_stacktrace_New;
  _ ← (if negb (stack =? 0) then
         _ ← modS (fun st => with_samples (sampled_objects st) (<[stack := size]> (stack_size st)) st);
         s ← get_span span;
         _ ← in_pageheap (ph_write span (set_objects [stack] (set_sample true s)));
         modS (fun st => with_samples (span :: sampled_objects st) (stack_size st) st)
       else mret tt);
  SpanToMallocResult span.

(** ** Reports of large allocations *)

Definition initial_threshold : Z :=
  let value := report_env in
  let value := if value <? 0 then s64 (2 ^ 64 - 1) else value in
  let value := Z.max kPageSize value in
  u64 (s64 value).
Definition should_report_large (num_pages : Z) : M malloc bool :=
  if negb report_enabled then mret false else
  st ← getS;
  let threshold := large_alloc_threshold st in
  threshold ← (if threshold =? 0 then
                 let threshold := initial_threshold in
                 _ ← modS (with_threshold threshold); mret threshold
               else mret threshold);
  if num_pages <? Z.shiftr threshold kPageShift then mret false else
  let new_threshold := u64 (threshold + threshold / 8) in
  let new_threshold := if new_threshold <? threshold then 2 ^ 64 - 1 else new_threshold in
  let new_threshold := Z.max new_threshold (u64 (Z.shiftl num_pages kPageShift)) in
  _ ← modS (with_threshold new_threshold);
  mret true.
Definition ReportLargeAlloc (num_pages result : Z) : M malloc unit :=
  modS (with_event (LargeReport num_pages result)).

(** ** Allocation *)

Definition do_malloc_pages (heap size : Z) : M malloc Z :=
  let num_pages := pages size in
  sampled ← in_threads (TC.SampleAllocation flag draw heap size);
  result ← (if (sampled : bool) then DoSampledAllocation size
            else
              span ← in_pageheap (ph_NewWithSizeClass num_pages 0);
              if span =? 0 then mret 0 else SpanToMallocResult span);
  report ← should_report_large num_pages;
  _ ← (if (report : bool) then ReportLargeAlloc num_pages result else mret tt);
  mret result.

(** [nop_oom_handler]. *)
Definition nop_oom_handler (size : Z) : M (Caches (Central H)) Z := mret 0.

Definition do_malloc (size : Z) : M malloc Z :=
  cache_ptr ← Grab;
  cl ← liftM (GetSizeClass sizemap size);
  match cl with
  | None => do_malloc_pages cache_ptr size
  | Some cl =>
      allocated_size ← liftM (class_to_size sizemap cl);
      sampled ← in_threads (TC.SampleAllocation flag draw cache_ptr allocated_size);
      if (sampled : bool) then DoSampledAllocation size
      else
        r ← in_threads (TC.Allocate sizemap nop_oom_handler cache_ptr allocated_size cl);
        CheckedMallocResult r
  end.

(** The handler is asked as often as it returns without success. *)
Definition oom_body (retry_fn : M malloc Z) (nothrow : bool) (_ : unit) : M malloc (unit + result) :=
  st ← getS;
  let failed := if nothrow then Ptr 0 else Throw true in
  match get_new_handler (user st) with
  | None => mret (inr failed)
  | Some nh =>
      r ← nh;
      match r with
      | HBadAlloc => mret (inr failed)
      | HOther => mret (inr (Throw false))
      | HReturn =>
          rv ← retry_fn;
          if negb (rv =? 0) then mret (inr (Ptr rv)) else mret (inl tt)
      end
  end.
Definition handle_oom (retry_fn : M malloc Z) (from_operator nothrow : bool) : M malloc result :=
  _ ← modS (with_errno ENOMEM);
  st ← getS;
  if negb from_operator && (tc_new_mode st =? 0) then mret (Ptr 0) else
  loopM (S (patience (user st))) (oom_body retry_fn nothrow) tt.

Definition do_malloc_or_cpp_alloc (size : Z) : M malloc result :=
  rv ← do_malloc size;
  if negb (rv =? 0) then mret (Ptr rv) else handle_oom (do_malloc size) false true.

(** Run the rest on a pointer; an exception goes on. *)
Definition on_ptr (r : result) (k : Z -> M malloc result) : M malloc result :=
  match r with Ptr p => k p | Throw b => mret (Throw b) end.

Definition do_calloc (n elem_size : Z) : M malloc result :=
  let size := u64 (n * elem_size) in
  if negb (elem_size =? 0) && negb (size / elem_size =? n) then mret (Ptr 0) else
  r ← do_malloc_or_cpp_alloc size;
  on_ptr r (fun result =>
    _ ← (if negb (result =? 0) then
           total_size ← liftM (tc_nallocx size 0);
           modS (fun st => with_mem (memset result 0 total_size (mem st)) st)
         else mret tt);
    mret (Ptr result)).

(** ** Deallocation *)

(** [InvalidFree] and [InvalidGetAllocatedSize] log and crash. *)
Definition InvalidFree (ptr : Z) : M malloc unit := liftM (Fault CheckFailed).
Definition InvalidGetAllocatedSize (ptr : Z) : M malloc Z := liftM (Fault CheckFailed).
Definition free_null_or_invalid (ptr : Z) (invalid_free_fn : Z -> M malloc unit) : M malloc unit :=
  if negb (ptr =? 0) then invalid_free_fn ptr else mret tt.

Definition do_free_pages (span ptr : Z) : M malloc unit :=
  s ← get_span span;
  _ ← liftM (check (bool_decide (location s = IN_USE)));
  _ ← liftM (check (u64 (Z.shiftl (start s) kPageShift) =? ptr));
  _ ← (if sample s then
         st ← getS;
         l ← liftM (deref (list_remove_ span (sampled_objects st)));
         _ ← modS (fun st => with_samples l (stack_size st) st);
         stack ← liftM (deref (head (objects s)));
         _ ← in_pageheap (ph_stacktrace_Delete stack);
         in_pageheap (ph_write span (set_objects [] s))
       else mret tt);
  in_pageheap (ph_Delete span).

(** Hand an object of a known class to the cache or, without one, to the
    central list. *)
Definition free_small (ptr cl : Z) : M malloc unit :=
  heap ← GetIfPresent;
  if negb (heap =? 0) then in_threads (TC.Deallocate sizemap heap ptr cl)
  else in_threads (TC.in_central (CFL.InsertRange sizemap others cl [ptr] 1)).

(** The part that does not have the class from a size hint. *)
Definition free_lookup (ptr : Z) (invalid_free_fn : Z -> M malloc unit) (use_hint : bool) : M malloc unit :=
  st ← getS;
  let p := Z.shiftr ptr kPageShift in
  match (if use_hint then None else ph_TryGetSizeClass (pageheap_of st) p) with
  | Some cl => free_small ptr cl
  | None =>
      let span := ph_GetDescriptor (pageheap_of st) p in
      if span =? 0 then free_null_or_invalid ptr invalid_free_fn else
      s ← get_span span;
      let cl := sizeclass s in
      if cl =? 0 then
        _ ← liftM (check (ptr mod kPageSize =? 0));
        _ ← liftM (check (start s =? p));
        do_free_pages span ptr
      else
      _ ← (if negb use_hint then in_pageheap (ph_SetCachedSizeClass p cl) else mret tt);
      free_small ptr cl
  end.
Definition ValidateSizeHint (ptr size_hint : Z) : M malloc bool :=
  st ← getS;
  let p := Z.shiftr ptr kPageShift in
  s ← get_span (ph_GetDescriptor (pageheap_of st) p);
  cl ← liftM (GetSizeClass sizemap size_hint);
  mret (sizeclass s =? default 0 cl).
Definition do_free_with_callback (ptr : Z) (invalid_free_fn : Z -> M malloc unit) (use_hint : bool) (size_hint : Z)
    : M malloc unit :=
  if use_hint then
    valid ← ValidateSizeHint ptr size_hint;
    _ ← liftM (check valid);
    cl ← liftM (GetSizeClass sizemap size_hint);
    match cl with
    | Some cl => free_small ptr cl
    | None => free_lookup ptr invalid_free_fn true
    end
  else free_lookup ptr invalid_free_fn false.
Definition do_free (ptr : Z) : M malloc unit := do_free_with_callback ptr InvalidFree false 0.

Definition GetSizeWithCallback (ptr : Z) (invalid_getsize_fn : Z -> M malloc Z) : M malloc Z :=
  if ptr =? 0 then mret 0 else
  st ← getS;
  let p := Z.shiftr ptr kPageShift in
  match ph_TryGetSizeClass (pageheap_of st) p with
  | Some cl => liftM (ByteSizeForClass sizemap cl)
  | None =>
      let span := ph_GetDescriptor (pageheap_of st) p in
      if span =? 0 then invalid_getsize_fn ptr else
      s ← get_span span;
      if negb (sizeclass s =? 0) then liftM (ByteSizeForClass sizemap (sizeclass s)) else
      if sample s then
        stack ← liftM (deref (head (objects s)));
        orig_size ← liftM (deref (stack_size st !! stack));
        liftM (tc_nallocx orig_size 0)
      else mret (u64 (Z.shiftl (length_ s) kPageShift))
  end.
Definition GetAllocatedSize (ptr : Z) : M malloc Z :=
  if ptr =? 0 then mret 0 else GetSizeWithCallback ptr InvalidGetAllocatedSize.

(** ** Reallocation *)

Definition do_realloc_with_callback (old_ptr new_size : Z) (invalid_free_fn : Z -> M malloc unit)
    (invalid_get_size_fn : Z -> M malloc Z) : M malloc result :=
  old_size ← GetSizeWithCallback old_ptr invalid_get_size_fn;
  let min_growth := Z.min (old_size / 4) (2 ^ 64 - 1 - old_size) in
  let lower_bound_to_grow := u64 (old_size + min_growth) in
  let upper_bound_to_shrink := old_size / 2 in
  if (new_size >? old_size) || (new_size <? upper_bound_to_shrink) then
    r ← (if (new_size >? old_size) && (new_size <? lower_bound_to_grow)
         then do_malloc_or_cpp_alloc lower_bound_to_grow else mret (Ptr 0));
    on_ptr r (fun new_ptr =>
      r ← (if new_ptr =? 0 then do_malloc_or_cpp_alloc new_size else mret (Ptr new_ptr));
      on_ptr r (fun new_ptr =>
        if new_ptr =? 0 then mret (Ptr 0) else
        _ ← InvokeNewHook new_ptr new_size;
        _ ← modS (fun st => with_mem (memcpy new_ptr old_ptr (if old_size <? new_size then old_size else new_size) (mem st)) st);
        _ ← InvokeDeleteHook old_ptr;
        _ ← do_free_with_callback old_ptr invalid_free_fn false 0;
        mret (Ptr new_ptr)))
  else
    _ ← InvokeDeleteHook old_ptr;
    _ ← InvokeNewHook old_ptr new_size;
    mret (Ptr old_ptr).

(** ** Aligned allocation *)

Definition do_memalign_pages (align size : Z) : M malloc Z :=
  _ ← liftM (check (Z.land align (u64 (align - 1)) =? 0));
  _ ← liftM (check (align >? kPageSize));
  if u64 (size + align) <? size then mret 0 else
  let size := if size =? 0 then 1 else size in
  span ← in_pageheap (ph_NewAligned (pages size) (pages align));
  if span =? 0 then mret 0 else SpanToMallocResult span.

Definition do_mallopt (cmd value : Z) : Z := 1.
Definition MarkThreadBusy : M malloc unit := p ← do_malloc 0; do_free p.

(** ** Paths to an allocation *)

(** [cpp_throw_oom], [cpp_nothrow_oom], [malloc_oom]. *)
Inductive oom := cpp_throw_oom | cpp_nothrow_oom | malloc_oom.
Definition from_operator (k : oom) : bool := match k with malloc_oom => false | _ => true end.
Definition nothrow (k : oom) : bool := match k with cpp_throw_oom => false | _ => true end.
Definition OOMHandler (k : oom) (size : Z) : M malloc result :=
  handle_oom (do_malloc size) (from_operator k) (nothrow k).

Definition do_allocate_full (k : oom) (size : Z) : M malloc result :=
  p ← do_malloc size;
  r ← (if p =? 0 then OOMHandler k size else mret (Ptr p));
  on_ptr r (fun p =>
    _ ← InvokeNewHook p size;
    p ← CheckedMallocResult p;
    mret (Ptr p)).

Definition memalign_pages (align size : Z) (from_operator nothrow : bool) : M malloc result :=
  rv ← do_memalign_pages align size;
  r ← (if rv =? 0 then handle_oom (do_memalign_pages align size) from_operator nothrow else mret (Ptr rv));
  on_ptr r (fun rv =>
    _ ← InvokeNewHook rv size;
    rv ← CheckedMallocResult rv;
    mret (Ptr rv)).

(** The handler passed to [Allocate] is its last call: it runs when the
    cache and the central list had nothing. *)
Definition malloc_fast_path (k : oom) (size : Z) : M malloc result :=
  st ← getS;
  if new_hooks st then do_allocate_full k size else
  cache ← GetIfPresent;
  if cache =? 0 then do_allocate_full k size else
  cl ← liftM (GetSizeClass sizemap size);
  match cl with
  | None => do_allocate_full k size
  | Some cl =>
      allocated_size ← liftM (ByteSizeForClass sizemap cl);
      ok ← in_threads (TC.TryRecordAllocationFast cache allocated_size);
      if negb ok then do_allocate_full k size else
      p ← in_threads (TC.Allocate sizemap nop_oom_handler cache allocated_size cl);
      r ← (if p =? 0 then OOMHandler k (u64 allocated_size) else mret (Ptr p));
      on_ptr r (fun p => p ← CheckedMallocResult p; mret (Ptr p))
  end.

Definition memalign_fast_path (k : oom) (align size : Z) : M malloc result :=
  if align >? kPageSize then memalign_pages align size (from_operator k) (nothrow k)
  else malloc_fast_path k (align_size_up size align).

(** ** Exported routines *)

Definition tc_set_new_mode (flag : Z) : M malloc Z :=
  st ← getS; _ ← modS (with_new_mode flag); mret (tc_new_mode st).
Definition tc_malloc (size : Z) : M malloc result := malloc_fast_path malloc_oom size.
Definition invoke_hooks_and_free (ptr : Z) : M malloc unit := _ ← InvokeDeleteHook ptr; do_free ptr.
Definition free_fast_path (ptr : Z) : M malloc unit :=
  st ← getS; if delete_hooks st then invoke_hooks_and_free ptr else do_free ptr.
Definition tc_free (ptr : Z) : M malloc unit := free_fast_path ptr.
Definition tc_free_sized (ptr size : Z) : M malloc unit :=
  st ← getS;
  if delete_hooks st then invoke_hooks_and_free ptr else
  if Z.land ptr (kPageSize - 1) =? 0 then tc_free ptr else
  do_free_with_callback ptr InvalidFree true size.
Definition tc_delete_nothrow (p : Z) : M malloc unit :=
  st ← getS; if delete_hooks st then invoke_hooks_and_free p else do_free p.
Definition tc_calloc (n elem_size : Z) : M malloc result :=
  r ← do_calloc n elem_size;
  on_ptr r (fun result => _ ← InvokeNewHook result (u64 (n * elem_size)); mret (Ptr result)).

Definition invalid_get_size (old_ptr : Z) : M malloc Z := liftM (Fault CheckFailed).
Definition tc_realloc (old_ptr new_size : Z) : M malloc result :=
  if old_ptr =? 0 then
    r ← do_malloc_or_cpp_alloc new_size;
    on_ptr r (fun result => _ ← InvokeNewHook result new_size; mret (Ptr result))
  else if new_size =? 0 then
    _ ← InvokeDeleteHook old_ptr;
    _ ← do_free old_ptr;
    mret (Ptr 0)
  else do_realloc_with_callback old_ptr new_size InvalidFree invalid_get_size.

Definition tc_new (size : Z) : M malloc result := malloc_fast_path cpp_throw_oom size.
Definition tc_new_nothrow (size : Z) : M malloc result := malloc_fast_path cpp_nothrow_oom size.
Definition tc_memalign (align size : Z) : M malloc result := memalign_fast_path malloc_oom align size.
Definition tc_new_aligned (size align : Z) : M malloc result := memalign_fast_path cpp_throw_oom align size.
Definition tc_new_aligned_nothrow (size align : Z) : M malloc result := memalign_fast_path cpp_nothrow_oom align size.
(** The error code, and the pointer stored on success. *)
Definition tc_posix_memalign (align size : Z) : M malloc (Z * option Z + bool) :=
  if negb (align mod 8 =? 0) || negb (Z.land align (u64 (align - 1)) =? 0) || (align =? 0)
  then mret (inl (EINVAL, None)) else
  r ← tc_memalign align size;
  match r with
  | Ptr result => mret (inl (if result =? 0 then (ENOMEM, None) else (0, Some result)))
  | Throw b => mret (inr b)
  end.

Definition system_pagesize : M malloc Z :=
  st ← getS;
  if pagesize st =? 0 then _ ← modS (with_pagesize getpagesize); mret getpagesize else mret (pagesize st).
Definition tc_valloc (size : Z) : M malloc result :=
  pagesize ← system_pagesize; tc_memalign pagesize size.
Definition tc_pvalloc (size : Z) : M malloc result :=
  pagesize ← system_pagesize;
  let size := if size =? 0 then pagesize else size in
  let size := Z.land (u64 (size + pagesize - 1)) (u64 (Z.lnot (u64 (pagesize - 1)))) in
  tc_memalign pagesize size.
Definition tc_malloc_size (ptr : Z) : M malloc Z := GetAllocatedSize ptr.
Definition tc_malloc_skip_new_handler (size : Z) : M malloc Z :=
  result ← do_malloc size; _ ← InvokeNewHook result size; mret result.
End Malloc.
End MA.
