(* ===== verification/MallocInv.v ===== *)
(** * The state of the whole allocator

    The program's blocks are a map from addresses to usable sizes. A small
    block is an object a user holds of the thread caches, a large one a
    span of the page heap; sampled blocks are spans with a stack trace.
    [Rep B st] says that the allocator's state represents exactly the
    blocks [B]. *)
From S2P Require Import Prelude Common Sampler ThreadCache ThreadCacheSpec ThreadCacheLife PageMap PackedCache Span SysEnv PageHeap CentralFreeList CentralFreeListInv CentralFreeListSpec CentralCaches Malloc.
Import SizeMap MA.

Lemma pages_spec b : 0 <= b < 2 ^ 64 -> b <= pages b * kPageSize < b + kPageSize /\ 0 <= pages b <= 2 ^ 51.
Proof.
  intros Hb. unfold pages. rewrite shiftr_div by clia. change (kPageSize - 1) with (2 ^ 13 - 1). rewrite land_ones_mod by lia.
  change (2 ^ kPageShift) with 8192. change (2 ^ 13) with 8192. change kPageSize with 8192.
  pose proof (Z.div_mod b 8192). pose proof (Z.mod_pos_bound b 8192). rewrite Z.gtb_ltb.
  rewrite u64_small by (destruct (0 <? _); lia). destruct (Z.ltb_spec 0 (b mod 8192)); lia.
Qed.
Lemma page_aligned a k : 0 <= k <= kPageShift -> (a * kPageSize) mod 2 ^ k = 0.
Proof.
  intros Hk. change kPageSize with (2 ^ 13). replace 13 with ((13 - k) + k) by lia.
  rewrite Z.pow_add_r, Z.mul_assoc by clia. apply Z.mod_mul. apply Z.pow_nonzero; lia.
Qed.
Lemma pages_pos b : 0 < b < 2 ^ 64 -> 0 < pages b < 2 ^ 64.
Proof. intros Hb. destruct (pages_spec b ltac:(lia)). clia. Qed.

Section Front.
Context {H : Type} `{!ObjectHeap H}.
Context (sizemap : SizeMap).
Abbreviation ncl := (num_size_classes sizemap).
Abbreviation csize := (csize sizemap).

(** The alignments [2^k] a block of [size] bytes must have: that of the
    basic types, and every power of two up to a page that divides its size. *)
Definition wants (size k : Z) : Prop :=
  0 <= k <= kPageShift /\ (k <= 3 \/ k = 4 /\ 16 <= size \/ 0 < size /\ size mod 2 ^ k = 0).

(** What the front end needs of the size map. *)
Record front_ok : Prop := {
  fo_small : forall s, 0 <= s <= kMaxSize -> exists cl, GetSizeClass sizemap s = Ret (Some cl) /\
    1 <= cl < ncl /\ s <= csize cl;
  fo_large : forall s, kMaxSize < s < 2 ^ 64 -> GetSizeClass sizemap s = Ret None;
  fo_fix : forall cl, 1 <= cl < ncl -> GetSizeClass sizemap (csize cl) = Ret (Some cl);
  fo_sampled : forall s cl, 0 <= s <= kMaxSize -> GetSizeClass sizemap s = Ret (Some cl) ->
    csize cl <= ph_RoundUpSize (pages (if s =? 0 then 1 else s)) * kPageSize;
  fo_align : forall s cl k, GetSizeClass sizemap s = Ret (Some cl) -> 0 <= s -> wants s k -> csize cl mod 2 ^ k = 0 }.
End Front.

Section Inv.
Context {H U : Type} `{!SpanHeap H} `{!SpanHeapLaws H} `{!ObjectHeap H} `{!ObjectHeapLaws H} {RS : Rest}.
Context (sizemap : SizeMap) (others : M (Central H) unit).
Abbreviation malloc := (Malloc H U).
Abbreviation ncl := (num_size_classes sizemap).
Abbreviation csize := (csize sizemap).
Implicit Types (st : malloc) (u : gmap Z Z) (L : gmap Z Span) (K : gset Z).
#[local] Instance clists : CentralCache (Central H) := central_lists sizemap others.

(** ** The invariant *)

Definition large (s : Span) : Owned := mkOwned s (eq (start s)) (eq (start s)).
Abbreviation Cent L K := (Keeps sizemap (large <$> L) K).
(** The layers below: users hold the objects [u] and the spans [L]; the
    stack traces [K] are live and [l] are the thread caches. *)
Definition Layers u L K (l : list Z) (ts : Caches (Central H)) : Prop := TU sizemap (Cent L K) u 0 0 (-1) l ts.

Record MInv u L K (l : list Z) st : Prop := {
  mi_layers : Layers u L K l (threads st);
  mi_room : 0 < unclaimed_cache_space_ (threads st) \/ l <> [];
  mi_tls : tls st = 0 \/ tls st ∈ l;
  mi_span : forall p s, L !! p = Some s -> sizeclass s = 0 /\ 1 <= Span.length_ s;
  mi_stack : forall p s, L !! p = Some s -> sample s = true -> exists k sz n, objects s = [k] /\ k ∈ K /\
    stack_size st !! k = Some sz /\ tc_nallocx sizemap sz 0 = Ret n /\ 0 <= n <= Span.length_ s * kPageSize;
  mi_inj : forall p q s t, L !! p = Some s -> L !! q = Some t -> sample s = true -> sample t = true ->
    objects s = objects t -> p = q;
  mi_nodup : NoDup (sampled_objects st);
  mi_sampled : forall p, p ∈ sampled_objects st <-> exists s, L !! p = Some s /\ sample s = true }.

(** The usable size of a large block. *)
Definition usable (ss : gmap Z Z) (s : Span) (n : Z) : Prop :=
  if sample s then exists k sz, objects s = [k] /\ ss !! k = Some sz /\ tc_nallocx sizemap sz 0 = Ret n
  else n = Span.length_ s * kPageSize.
Definition block u L (ss : gmap Z Z) (a n : Z) : Prop :=
  (exists cl, u !! a = Some cl /\ n = csize cl) \/
  (exists p s, L !! p = Some s /\ a = start s * kPageSize /\ usable ss s n).
Definition Rep (B : gmap Z Z) st : Prop :=
  exists u L K l, MInv u L K l st /\ forall a n, B !! a = Some n <-> block u L (stack_size st) a n.

(** ** Where blocks are *)

Hypothesis Hsm : sizemap_ok (H := H) sizemap.

Lemma Layers_holds u L K l ts : Layers u L K l ts -> exists m, u ⊆ m /\ Cent L K m (central ts).
Proof using.
  intros (loc & <- & HI). exists (snd <$> loc). split; [|apply HI]. apply map_subseteq_spec.
  intros x cl Hx%lookup_users. by rewrite lookup_fmap, Hx.
Qed.

Record small_at (h : H) L (a cl p : Z) (s : Span) : Prop := {
  sa_desc : ph_GetDescriptor h (Z.shiftr a kPageShift) = p;
  sa_use : ph_inuse h p s;
  sa_class : sizeclass s = cl;
  sa_range : 1 <= cl < ncl;
  sa_page : in_span s (Z.shiftr a kPageShift);
  sa_cache : ph_TryGetSizeClass h (Z.shiftr a kPageShift) = Some cl \/ ph_TryGetSizeClass h (Z.shiftr a kPageShift) = None;
  sa_off : L !! p = None;
  sa_slot : slot sizemap s cl a;
  sa_in : start s * kPageSize <= a /\ a + csize cl <= (start s + Span.length_ s) * kPageSize }.

Lemma small_block u L K l ts a cl : Layers u L K l ts -> u !! a = Some cl ->
  exists p s, small_at (pageheap (central ts)) L a cl p s.
Proof using Hsm.
  intros HL Ha. destruct (Layers_holds _ _ _ _ _ HL) as (m & Hum & (out & [Hmo HI Hpv _ _]) & _).
  assert (out !! a = Some cl) as Ho by (eapply lookup_weaken; [|done]; by eapply lookup_weaken).
  destruct (ci_class _ _ _ HI cl (ci_range _ _ _ HI _ _ Ho)) as (c & Hc & HK).
  destruct (busy_span sizemap Hsm _ _ _ _ a HK) as (s & Hp & Hg & Hsl & _); [apply (k_busy _ _ _ _ _ HK); by left|].
  eexists _, s. constructor; [done|apply Hg|apply Hg|apply Hg|by eapply slot_page|eapply (gd_cache _ _ _ _ _ Hg), slot_page; eauto| |done|].
  - match goal with |- L !! ?p = None => destruct (L !! p) as [t|] eqn:Et end; [|done].
    pose proof (map_Forall_lookup_1 _ _ _ (large t) Hpv ltac:(by rewrite lookup_fmap, Et)) as Hoff.
    by destruct (pv_off _ _ _ Hoff _ _ Hc Hp).
  - destruct Hsl as (i & Hi & ->). destruct (nobj_fits sizemap Hsm cl i (gd_range _ _ _ _ _ Hg) Hi).
    rewrite (gd_len _ _ _ _ _ Hg). lia.
Qed.

Record large_at (h : H) (p : Z) (s : Span) : Prop := {
  la_use : ph_inuse h p s;
  la_bounds : p <> 0 /\ 1 <= start s /\ start s + Span.length_ s < 2 ^ 36;
  la_desc : ph_GetDescriptor h (start s) = p;
  la_cache : ph_TryGetSizeClass h (start s) = None }.

Lemma large_block u L K l ts p s : Layers u L K l ts -> L !! p = Some s -> sizeclass s = 0 -> 1 <= Span.length_ s ->
  large_at (pageheap (central ts)) p s.
Proof using SpanHeapLaws0.
  intros HL Hp Hsc Hlen. destruct (Layers_holds _ _ _ _ _ HL) as (m & _ & (out & [_ HI Hpv _ _]) & _).
  destruct (Hpv p (large s)) as [Hu Hm Hk _]; [by rewrite lookup_fmap, Hp|]. cbn in *.
  assert (in_span s (start s)) as Hin by (unfold in_span; lia).
  constructor; [done|eapply ph_bounds; [apply (ci_wf _ _ _ HI)|done]|by apply Hm|].
  by destruct (Hk _ eq_refl Hin) as [[_ ?]|?].
Qed.

Lemma MInv_large u L K l st p s : MInv u L K l st -> L !! p = Some s -> large_at (pageheap_of st) p s.
Proof using SpanHeapLaws0. intros HM Hp. destruct (mi_span _ _ _ _ _ HM p s Hp). by eapply large_block; [apply HM|..]. Qed.

Lemma usable_fits u L K l st p s n : MInv u L K l st -> L !! p = Some s -> usable (stack_size st) s n -> 0 <= n <= Span.length_ s * kPageSize.
Proof using.
  intros HM Hp. unfold usable. destruct (mi_span _ _ _ _ _ HM p s Hp) as [_ ?]. destruct (sample s) eqn:E; [|clia]. intros (k & sz & Ho & Hk & Hn).
  destruct (mi_stack _ _ _ _ _ HM p s Hp E) as (k' & sz' & n' & Ho' & _ & Hk' & Hn' & Hle).
  assert (k' = k) as -> by congruence. assert (sz' = sz) as -> by congruence. by assert (n' = n) as -> by congruence.
Qed.

(** Blocks do not overlap: each lies in the pages of its span, and objects
    of one span are slots of it. *)
Lemma block_excl u L K l st a cl p s : MInv u L K l st -> u !! a = Some cl -> L !! p = Some s -> a = start s * kPageSize -> False.
Proof using Hsm SpanHeapLaws0.
  intros HM Ha Hp ->. destruct (small_block _ _ _ _ _ _ _ (mi_layers _ _ _ _ _ HM) Ha) as (q & t & Hq).
  pose proof (MInv_large _ _ _ _ _ _ _ HM Hp) as Hs. pose proof (sa_desc _ _ _ _ _ _ Hq) as Hd.
  rewrite shiftr_div in Hd by clia. change (2 ^ kPageShift) with kPageSize in Hd. rewrite Z.div_mul in Hd by done.
  assert (q = p) as -> by (rewrite <- Hd; apply Hs). by rewrite (sa_off _ _ _ _ _ _ Hq) in Hp.
Qed.
Lemma block_unique u L K l st a n n' : MInv u L K l st -> block u L (stack_size st) a n -> block u L (stack_size st) a n' -> n = n'.
Proof using Hsm SpanHeapLaws0.
  intros HM. pose proof (fun cl p s => block_excl u L K l st a cl p s HM) as Hex.
  intros [(cl & Ha & ->)|(p & s & Hp & Ea & Hn)] [(cl' & Ha' & ->)|(q & t & Hq & Ea' & Hn')];
    [congruence|by exfalso; eauto|by exfalso; eauto|].
  assert (start s = start t) as E by (change kPageSize with 8192 in *; lia).
  assert (p = q) as -> by (rewrite <- (la_desc _ _ _ (MInv_large _ _ _ _ _ _ _ HM Hp)), E; apply (MInv_large _ _ _ _ _ _ _ HM Hq)).
  assert (s = t) as -> by congruence. unfold usable in *. destruct (sample t); [|congruence].
  destruct Hn as (? & ? & ? & ? & ?), Hn' as (? & ? & ? & ? & ?). congruence.
Qed.

Lemma spans_apart (h : H) p q s t : ph_wf h -> ph_inuse h p s -> ph_inuse h q t -> p <> q ->
  1 <= Span.length_ s -> 1 <= Span.length_ t ->
  start s + Span.length_ s <= start t \/ start t + Span.length_ t <= start s.
Proof using SpanHeapLaws0.
  intros Hwf Hp Hq Hne Hs Ht. destruct (Z.le_gt_cases (start s + Span.length_ s) (start t)); [by left|].
  destruct (Z.le_gt_cases (start t + Span.length_ t) (start s)); [by right|]. destruct Hne.
  apply (ph_disjoint h p q s t (Z.max (start s) (start t))); try done; unfold in_span; lia.
Qed.

(** The span a block lies in. *)
Definition home u L st (a n p : Z) (s : Span) : Prop :=
  ph_inuse (pageheap_of st) p s /\ 1 <= Span.length_ s /\
  start s * kPageSize <= a /\ a + n <= (start s + Span.length_ s) * kPageSize /\
  (L !! p = Some s /\ a = start s * kPageSize \/
   L !! p = None /\ exists cl, n = csize cl /\ 1 <= cl < ncl /\ sizeclass s = cl /\ slot sizemap s cl a).

Lemma block_home u L K l st a n : MInv u L K l st -> block u L (stack_size st) a n -> exists p s, home u L st a n p s.
Proof using Hsm SpanHeapLaws0.
  intros HM. unfold home. intros [(cl & Ha & ->)|(p & s & Hp & -> & Hn)].
  - destruct (small_block _ _ _ _ _ _ _ (mi_layers _ _ _ _ _ HM) Ha) as (p & s & []). exists p, s.
    destruct (so_class _ Hsm cl) as (? & _); [done|]. change kPageSize with 8192 in *. destruct sa_in0.
    split; [done|]. split; [lia|]. do 2 (split; [lia|]). right. split; [done|]. by exists cl.
  - pose proof (usable_fits _ _ _ _ _ _ _ _ HM Hp Hn) as Hf. destruct (mi_span _ _ _ _ _ HM p s Hp).
    pose proof (MInv_large _ _ _ _ _ _ _ HM Hp) as []. exists p, s. split; [done|]. split; [done|]. change kPageSize with 8192 in *.
    do 2 (split; [lia|]). by left.
Qed.

Lemma block_size u L K l st a n : MInv u L K l st -> block u L (stack_size st) a n -> 0 <= n.
Proof using Hsm.
  intros HM [(cl & Ha & ->)|(p & s & Hp & -> & Hn)].
  - destruct (small_block _ _ _ _ _ _ _ (mi_layers _ _ _ _ _ HM) Ha) as (p & s & Hs).
    destruct (so_class _ Hsm cl (sa_range _ _ _ _ _ _ Hs)) as (? & _). lia.
  - pose proof (usable_fits _ _ _ _ _ _ _ _ HM Hp Hn). lia.
Qed.

Definition apart (a n b m : Z) : Prop := a + n <= b \/ b + m <= a.

Lemma block_apart u L K l st a n b m : MInv u L K l st -> block u L (stack_size st) a n -> block u L (stack_size st) b m -> a <> b -> apart a n b m.
Proof using Hsm SpanHeapLaws0.
  intros HM Ha Hb Hne. destruct (block_home _ _ _ _ _ _ _ HM Ha) as (p & s & Hu & Hl & H1 & H2 & Hc).
  destruct (block_home _ _ _ _ _ _ _ HM Hb) as (q & t & Hu' & Hl' & H1' & H2' & Hc').
  destruct (Layers_holds _ _ _ _ _ (mi_layers _ _ _ _ _ HM)) as (? & _ & (out & [_ HI _ _ _]) & _).
  destruct (decide (p = q)) as [->|Hpq].
  - assert (s = t) as -> by (destruct Hu, Hu'; congruence).
    destruct Hc as [[? ?]|[? (cl & -> & Hcl & <- & i & Hi & ->)]], Hc' as [[? ?]|[? (cl' & -> & _ & <- & j & Hj & ->)]]; try congruence.
    destruct (so_class _ Hsm _ Hcl) as (Hsz & _). assert (i <> j) by congruence. unfold apart.
    destruct (Z.lt_total i j) as [?|[?|?]]; [left; nia|lia|right; nia].
  - destruct (spans_apart (pageheap_of st) p q s t (ci_wf _ _ _ HI)); try done; change kPageSize with 8192 in *; unfold apart; lia.
Qed.

(** ** Steps of the layers below *)

Definition with_heap (h : H) st : malloc :=
  with_threads (TC.with_central (mkCentral (central_cache (central (threads st))) (race_counter (central (threads st))) h) (threads st)) st.

Lemma wp_in_threads {A} (m : M (Caches (Central H)) A) (Q : A -> malloc -> Prop) st :
  wp m (fun a t => Q a (with_threads t st)) (threads st) -> wp (in_threads m) Q st.
Proof using. unfold wp, in_threads. by destruct (m (threads st)) as [[a t]|[]]. Qed.
Lemma wp_in_pageheap {A} (m : M H A) (Q : A -> malloc -> Prop) st :
  wp m (fun a h => Q a (with_heap h st)) (pageheap_of st) -> wp (in_pageheap m) Q st.
Proof using.
  intros Hm. apply wp_in_threads, wp_in_central, wp_in_heap. eapply wp_mono; [exact Hm|]. done.
Qed.
Lemma wp_span p s (Q : Span -> malloc -> Prop) st : ph_read (pageheap_of st) p = Some s -> Q s st -> wp (get_span p) Q st.
Proof using. intros Hs HQ. unfold get_span. apply wp_bind, wp_get. eapply wp_lift; [by rewrite Hs|done]. Qed.

(** What the page heap did keeps the layers when the central lists keep
    what they hold. *)
Lemma Layers_heap u L L' K K' l st h : Layers u L K l (threads st) -> ph_caches (pageheap_of st) ⊆ ph_caches h ->
  (forall m, Cent L K m (central (threads st)) ->
     Cent L' K' m (mkCentral (central_cache (central (threads st))) (race_counter (central (threads st))) h)) ->
  Layers u L' K' l (threads (with_heap h st)).
Proof using.
  intros (loc & Eu & [Hh Hc Htc Hsz [L1 L2 L3 L4 L5 L6]]) Hcs HC. exists loc. split; [done|]. constructor; try done; [by apply HC|].
  constructor; try done. cbn. intros t Ht. by apply Hcs, L6.
Qed.

(** A page-heap call keeps what the central lists hold when it leaves the
    users' spans alone. *)
Lemma Cent_same L K K' m c h : Cent L K m c -> ph_same (pageheap c) h -> K' ⊆ ph_stacks h ->
  Cent L K' m (mkCentral (central_cache c) (race_counter c) h).
Proof using. intros [HH _] Hs HK. split; [by apply Holds_same|done]. Qed.

Lemma private_use L m c p s : Holds sizemap m (large <$> L) c -> L !! p = Some s -> private c p (large s).
Proof using.
  intros (out & [_ _ Hpv _ _]) Hp. apply (map_Forall_lookup_1 _ _ _ _ Hpv). by rewrite lookup_fmap, Hp.
Qed.

(** A span is added to the users' spans. *)
Lemma Cent_add L K K' m c h p s : Cent L K m c -> ph_wf h -> ph_frame {[p]} (pageheap c) h ->
  (forall t, ~ ph_inuse (pageheap c) p t) -> ph_inuse h p s -> ph_GetDescriptor h (start s) = p ->
  ph_TryGetSizeClass h (start s) = None -> K' ⊆ ph_stacks h ->
  L !! p = None /\ Cent (<[p := s]> L) K' m (mkCentral (central_cache c) (race_counter c) h).
Proof using.
  intros [HH _] Hwf HF Hnot Hu Hd Hk HK. pose proof HH as (out & [Hm HI Hpv _ _]).
  assert (L !! p = None) as Hp.
  { destruct (L !! p) as [t|] eqn:Et; [|done]. by destruct (Hnot t), (private_use _ _ _ _ _ HH Et). }
  assert (forall cl cc, central_cache c !! cl = Some cc -> p ∉ listed cc) as Hoff.
  { intros cl cc Hc Hin. destruct (ci_class _ _ _ HI cl (ci_dom _ _ _ HI _ _ Hc)) as (d & Hdc & HKc).
    assert (d = cc) as -> by congruence. destruct (k_good _ _ _ _ _ HKc p Hin) as (t & Ht). by apply (Hnot t), Ht. }
  split; [done|]. split; [|done]. rewrite fmap_insert.
  eapply (Holds_heap sizemap _ {[p]} m (large <$> L)); [exact HH|done|done| | | |].
  - intros q cl cc ->%elem_of_singleton. apply Hoff.
  - intros q ->%elem_of_singleton. by right.
  - intros q Hq%not_elem_of_singleton. by rewrite lookup_insert_ne by congruence.
  - intros q ->%elem_of_singleton. rewrite lookup_insert_eq. constructor; cbn; [done|by intros ? <- _|intros ? <- _; by right|done].
Qed.

Lemma wp_large n P u L K l (m : M H Z) (Q : Z -> malloc -> Prop) st : Layers u L K l (threads st) ->
  (forall h, ph_wf h -> wp m (ph_large n P h) h) ->
  (forall h, Layers u L K l (threads (with_heap h st)) -> Q 0 (with_heap h st)) ->
  (forall h p s, p <> 0 -> L !! p = None -> Layers u (<[p := s]> L) K l (threads (with_heap h st)) ->
     Span.length_ s = ph_RoundUpSize n -> n <= Span.length_ s -> sizeclass s = 0 -> sample s = false -> P (start s) ->
     Q p (with_heap h st)) ->
  wp (in_pageheap m) Q st.
Proof using.
  intros HL Hm HQ0 HQ. destruct (Layers_holds _ _ _ _ _ HL) as (m0 & _ & [HH HK]). pose proof HH as (out & [_ HI _ _ _]).
  apply wp_in_pageheap. eapply wp_mono; [apply Hm, (ci_wf _ _ _ HI)|].
  intros r h (Hwf & [Hst Hcs] & [[-> HF]|(Hr & HF & Hnot & s & Hu & Hlen & Hle & Hsc & Hsmp & HP & Hd & Hk)]).
  - apply HQ0. eapply Layers_heap; [done|done|]. intros m1 [HH1 HK1]. split; [|by etrans].
    by apply Holds_frame.
  - assert (forall m1, Cent L K m1 (central (threads st)) -> L !! r = None /\ Cent (<[r := s]> L) K m1
      (mkCentral (central_cache (central (threads st))) (race_counter (central (threads st))) h)) as Hadd.
    { intros m1 HC. eapply Cent_add; try done. etrans; [apply HC|done]. }
    destruct (Hadd m0) as [Hn _]; [done|]. eapply HQ; try done.
    eapply Layers_heap; [done|done|]. intros m1 HC. by apply Hadd.
Qed.

(** A user's span gets new fields. *)
Lemma wp_write_large u L K l p s s' (Q : unit -> malloc -> Prop) st : Layers u L K l (threads st) -> L !! p = Some s ->
  start s' = start s -> Span.length_ s' = Span.length_ s -> location s' = location s -> sizeclass s' = sizeclass s ->
  (forall h, Layers u (<[p := s']> L) K l (threads (with_heap h st)) -> Q tt (with_heap h st)) ->
  wp (in_pageheap (ph_write p s')) Q st.
Proof using SpanHeapLaws0 ObjectHeapLaws0.
  intros HL Hp Es El Eloc Ecl HQ. destruct (Layers_holds _ _ _ _ _ HL) as (m0 & _ & [HH HK]). pose proof HH as (out & [_ HI _ _ _]).
  pose proof (private_use _ _ _ _ _ HH Hp) as Hpv. pose proof (pv_use _ _ _ Hpv) as Hu. cbn in Hu.
  apply wp_in_pageheap. eapply wp_mono; [eapply (wp_moves ph_stay); [apply write_stay|];
    apply (ph_write_ok p s s'); [apply (ci_wf _ _ _ HI)|done|done|done|destruct Hu; congruence]|].
  cbn beta. intros [] h [(Hwf & HF & Hu' & Hgd & Htc) [Hst Hcs]]. apply HQ.
  eapply Layers_heap; [done|done|]. intros m1 [HH1 HK1]. split; [|by etrans].
  pose proof (private_use _ _ _ _ _ HH1 Hp) as [_ Hm1 Hk1 Hoff]. cbn in *.
  assert (large <$> L = <[p := large s]> (large <$> delete p L)) as EL.
  { rewrite <- fmap_insert. by rewrite insert_delete_id by done. }
  rewrite <- insert_delete_eq, fmap_insert. rewrite EL in HH1.
  eapply (Holds_own sizemap p (large s)); [by rewrite lookup_fmap, lookup_delete_eq|exact HH1|done|done|].
  constructor; cbn; [done| | |done].
  - intros pg <- Hin. rewrite Hgd, Es. apply Hm1; [done|]. unfold in_span in *. lia.
  - intros pg <- Hin. rewrite Htc, Es, Ecl. apply Hk1; [done|]. unfold in_span in *. lia.
Qed.

(** A user's span goes back to the page heap. *)
Lemma wp_Delete_large u L K l p s (Q : unit -> malloc -> Prop) st : Layers u L K l (threads st) -> L !! p = Some s ->
  (forall h, Layers u (delete p L) K l (threads (with_heap h st)) -> Q tt (with_heap h st)) ->
  wp (in_pageheap (ph_Delete p)) Q st.
Proof using SpanHeapLaws0 ObjectHeapLaws0.
  intros HL Hp HQ. destruct (Layers_holds _ _ _ _ _ HL) as (m0 & _ & [HH HK]). pose proof HH as (out & [_ HI _ _ _]).
  pose proof (pv_use _ _ _ (private_use _ _ _ _ _ HH Hp)) as Hu. cbn in Hu.
  apply wp_in_pageheap. eapply wp_mono; [eapply (wp_moves ph_stay); [apply Delete_stay|];
    apply (ph_Delete_ok p s); [apply (ci_wf _ _ _ HI)|done]|].
  cbn beta. intros [] h [(Hwf & HF & Hfree) [Hst Hcs]]. apply HQ. eapply Layers_heap; [done|done|].
  intros m1 [HH1 HK1]. split; [|by etrans]. apply (Holds_heap sizemap _ {[p]} m1 (large <$> L)); [done|done|done| | | |].
  - intros q cl c ->%elem_of_singleton. apply (private_use _ _ _ _ _ HH1 Hp).
  - intros q ->%elem_of_singleton. left. rewrite lookup_fmap, Hp. by eexists.
  - intros q Hq%not_elem_of_singleton. by rewrite !lookup_fmap, lookup_delete_ne by congruence.
  - intros q ->%elem_of_singleton. by rewrite lookup_fmap, lookup_delete_eq.
Qed.

Lemma wp_stack_New u L K l (Q : Z -> malloc -> Prop) st : Layers u L K l (threads st) ->
  (forall h k, k <> 0 -> k ∉ K -> Layers u L ({[k]} ∪ K) l (threads (with_heap h st)) -> Q k (with_heap h st)) ->
  wp (in_pageheap ph_stacktrace_New) Q st.
Proof using ObjectHeapLaws0.
  intros HL HQ. destruct (Layers_holds _ _ _ _ _ HL) as (m0 & _ & [HH HK]). pose proof HH as (out & [_ HI _ _ _]).
  apply wp_in_pageheap. eapply wp_mono; [apply stack_New_ok, (ci_wf _ _ _ HI)|].
  intros k h (Hs & [Hst Hcs] & Hk & Hn & Hin). apply HQ; [done|by intros Hk'%HK|].
  eapply Layers_heap; [done|done|]. intros m1 HC. eapply Cent_same; [done|done|].
  destruct HC as [_ HK1]. intros x [->%elem_of_singleton|Hx]%elem_of_union; [done|]. by apply Hst, HK1.
Qed.

Lemma wp_stack_Delete u L K l k (Q : unit -> malloc -> Prop) st : Layers u L K l (threads st) -> k ∈ K ->
  (forall h, Layers u L (K ∖ {[k]}) l (threads (with_heap h st)) -> Q tt (with_heap h st)) ->
  wp (in_pageheap (ph_stacktrace_Delete k)) Q st.
Proof using ObjectHeapLaws0.
  intros HL Hk HQ. destruct (Layers_holds _ _ _ _ _ HL) as (m0 & _ & [HH HK]). pose proof HH as (out & [_ HI _ _ _]).
  apply wp_in_pageheap. eapply wp_mono; [apply stack_Delete_ok; [apply (ci_wf _ _ _ HI)|by apply HK]|].
  intros [] h (Hs & Hst & Hcs). apply HQ. eapply Layers_heap; [done|done|]. intros m1 HC. eapply Cent_same; [done|done|].
  destruct HC as [_ HK1]. intros x [Hx Hne]%elem_of_difference. apply Hst, elem_of_difference. split; [by apply HK1|done].
Qed.

(** The cache of size classes learns the class of a listed span's page. *)
Lemma class_inv_cached h h' cl c O :
  (forall q t, ph_inuse h q t <-> ph_inuse h' q t) -> (forall pg, ph_GetDescriptor h' pg = ph_GetDescriptor h pg) ->
  (forall q t pg, q ∈ listed c -> ph_inuse h q t -> in_span t pg ->
     ph_TryGetSizeClass h' pg = ph_TryGetSizeClass h pg \/ ph_TryGetSizeClass h' pg = Some cl \/ ph_TryGetSizeClass h' pg = None) ->
  class_inv sizemap h cl c O -> class_inv sizemap h' cl c O.
Proof using.
  intros Hu Hd Hk HK. pose proof HK as [Hcl Hsl Htc Hnd Hgood Hemp Hnon Hsp Hcnt Hbusy Htn Hto].
  assert (forall q, q ∈ listed c -> ph_read h' q = ph_read h q) as Hrd.
  { intros q Hq. destruct (Hgood q Hq) as (t & Hg). pose proof (gd_use _ _ _ _ _ Hg) as Ht.
    destruct (proj1 (Hu q t) Ht) as [-> _]. by destruct Ht as [-> _]. }
  constructor; try done.
  - intros q Hq. destruct (Hgood q Hq) as (t & Hg). exists t. pose proof Hg as []. constructor; try done; [by apply Hu| |].
    + intros pg Hpg. rewrite Hd. auto.
    + intros pg Hpg. destruct (Hk q t pg Hq) as [-> |[? | ?]]; auto.
  - intros q t Hr Hq. apply (Hemp q t); [|done]. rewrite <- Hrd; [done|]. by apply in_listed_empty.
  - intros q t Hr Hq. apply (Hnon q t); [|done]. rewrite <- Hrd; [done|]. by apply in_listed_nonempty.
  - rewrite Hcnt. f_equal. apply sumZ_ext. intros q Hq. unfold nfree. by rewrite Hrd.
  - intros x. rewrite Hbusy. unfold busy. split; intros (q & t & Hq & Hr & ?); exists q, t;
      (split; [done|]); [rewrite Hrd|rewrite <- Hrd]; done.
Qed.

Lemma wp_SetCached_small u L K l a cl (Q : unit -> malloc -> Prop) st : Layers u L K l (threads st) -> u !! a = Some cl ->
  (forall h, Layers u L K l (threads (with_heap h st)) -> Q tt (with_heap h st)) ->
  wp (in_pageheap (ph_SetCachedSizeClass (Z.shiftr a kPageShift) cl)) Q st.
Proof using SpanHeapLaws0 ObjectHeapLaws0 Hsm.
  intros HL Ha HQ. destruct (Layers_holds _ _ _ _ _ HL) as (m0 & _ & [HH HK]). pose proof HH as (out & [_ HI _ _ _]).
  destruct (small_block _ _ _ _ _ _ _ HL Ha) as (p & s & Hs). pose proof (so_num _ Hsm).
  pose proof (sa_range _ _ _ _ _ _ Hs) as Hcl. apply wp_in_pageheap.
  eapply wp_mono; [eapply (wp_moves ph_stay); [apply SetCached_stay|];
    apply (ph_SetCached_ok p s); [apply (ci_wf _ _ _ HI)|apply Hs|apply Hs|lia]|].
  cbn beta. intros [] h [(Hwf & HF & Hu & Hd & Hpg & Hoth) [Hst Hcs]]. apply HQ. eapply Layers_heap; [done|done|].
  intros m1 [(o & [Hmo HI1 Hpv Hus (S & HS & Hre)]) HK1]. split; [|by etrans]. exists o. constructor; [done| | | |].
  - pose proof HI1 as [? ? Hcls ? ?]. constructor; cbn; try done. intros cl' Hcl'. destruct (Hcls cl' Hcl') as (c & Hc & HKc).
    exists c. split; [done|]. eapply class_inv_cached; [done|done| |done]. intros q t pg Hq Ht Hin.
    destruct (decide (q = p)) as [->|Hne].
    + pose proof (sa_use _ _ _ _ _ _ Hs) as Hsu. assert (t = s) as -> by (apply (inj Some); rewrite <- (proj1 Ht); apply Hsu).
      destruct (k_good _ _ _ _ _ HKc p Hq) as (t & Hg).
      assert (t = s) as -> by (apply (inj Some); rewrite <- (proj1 (gd_use _ _ _ _ _ Hg)); apply Hsu).
      rewrite <- (gd_class _ _ _ _ _ Hg), (sa_class _ _ _ _ _ _ Hs).
      destruct (decide (pg = Z.shiftr a kPageShift)) as [->|Hnp]; [by right|]. destruct (Hoth pg Hin Hnp); auto.
    + destruct (fr_cache _ _ _ HF q t pg) as [-> | ->]; [by apply not_elem_of_singleton|done|done|by left|by right; right].
  - intros q ow Hq. assert (q <> p) as Hne.
    { intros ->. rewrite lookup_fmap, (sa_off _ _ _ _ _ _ Hs) in Hq. discriminate. }
    eapply private_frame; [by apply Hpv|done|by apply not_elem_of_singleton|]. apply (Hpv q ow Hq).
  - cbn. intros cl' c q t Hc Hq Ht. destruct (class_list_good _ _ _ _ _ _ HI1 Hc Hq) as (t' & Hg).
    destruct (proj1 (Hu q t') (gd_use _ _ _ _ _ Hg)) as [Hr' _]. assert (t' = t) as -> by congruence. apply (Hus cl' c q t Hc Hq), Hg.
  - exists S. split; [|done]. intros q. rewrite HS. unfold outside. cbn. by setoid_rewrite Hu.
Qed.
End Inv.
