(* ===== verification/MallocAlloc.v ===== *)
(** * Allocation

    Every path of [do_malloc] returns null or a block that is fresh, large
    enough, aligned and of exactly the size [nallocx] promises. *)
From S2P Require Import Prelude Common Sampler ThreadCache ThreadCacheSpec ThreadCacheLife PageMap PackedCache Span SysEnv PageHeap CentralFreeList CentralFreeListInv CentralFreeListSpec CentralCaches Malloc MallocInv.
Import SizeMap MA.

(** The bytes of a new block overlap no other. *)
Definition fresh (B : gmap Z Z) (r n : Z) : Prop :=
  B !! r = None /\ forall a m, B !! a = Some m -> apart a m r n.

Section Alloc.
Context {H U : Type} `{!SpanHeap H} `{!SpanHeapLaws H} `{!ObjectHeap H} `{!ObjectHeapLaws H} {RS : Rest}.
Context (sizemap : SizeMap) (others : M (Central H) unit) (flag : Z) (draw : Z -> Z -> Z) (seed : Z).
Context (report_enabled : bool) (report_env : Z).
Abbreviation malloc := (Malloc H U).
Abbreviation ncl := (num_size_classes sizemap).
Abbreviation csize := (csize sizemap).
Abbreviation nallocx size := (tc_nallocx (H := H) sizemap size 0).
Abbreviation MInv := (MInv (H := H) (U := U) sizemap others).
Abbreviation Rep := (Rep (H := H) (U := U) sizemap others).
Abbreviation Layers := (Layers (H := H) sizemap others).
Abbreviation block := (block (H := H) sizemap).
Abbreviation usable := (usable (H := H) sizemap).
Abbreviation do_malloc := (do_malloc (U := U) sizemap others flag draw seed report_enabled report_env).
Implicit Types (st : malloc) (u : gmap Z Z) (L : gmap Z Span) (K : gset Z) (B : gmap Z Z).
#[local] Instance lists_below : CentralCache (Central H) := central_lists sizemap others.

Hypothesis others_stay : moves stay others.
Hypothesis Hsm : sizemap_ok (H := H) sizemap.
Hypothesis others_ok : forall mine priv c, Holds sizemap mine priv c -> wp others (fun _ c' => Holds sizemap mine priv c') c.
Hypothesis Hts : tc_sizemap_ok sizemap.
Hypothesis Hfo : front_ok (H := H) sizemap.

#[local] Instance laws_below L K : CentralCacheLaws sizemap (Keeps sizemap (large <$> L) K) :=
  central_cache_laws sizemap others others_stay Hsm others_ok _ _.

(** ** Sizes *)

Lemma class_bytes cl : 1 <= cl < ncl -> aget kClassSizesMax (class_to_size_ sizemap) cl = Ret (csize cl).
Proof using Hts. intros Hcl. by apply (aget_cls sizemap Hts); lia. Qed.

Lemma nallocx_small s cl : GetSizeClass sizemap s = Ret (Some cl) -> 1 <= cl < ncl -> nallocx s = Ret (csize cl).
Proof using Hts.
  intros Hs Hcl. unfold tc_nallocx. cbn [negb Z.eqb]. rewrite Hs. obind. destruct (Z.eqb_spec cl 0); [lia|].
  by apply class_bytes.
Qed.
Lemma land_all s : 0 <= s < 2 ^ 64 -> Z.land s (2 ^ 64 - 1) = s.
Proof. intros Hs. rewrite land_ones_mod by lia. by apply Z.mod_small. Qed.
Lemma nallocx_large s : kMaxSize < s < 2 ^ 64 -> nallocx s = Ret (u64 (Z.shiftl (ph_RoundUpSize (pages s)) kPageShift)).
Proof using Hfo.
  intros Hs. unfold tc_nallocx. cbn [negb Z.eqb]. rewrite (fo_large _ Hfo s Hs). obind.
  unfold nallocx_slow, size_class_with_alignment. change (u64 (Z.shiftl 1 (Z.land 0 63))) with 1.
  change (1 >? kPageSize) with false. cbn iota zeta.
  assert (align_size_up s 1 = s) as ->.
  { unfold align_size_up. rewrite u64_small by clia. change (u64 (Z.lnot (u64 (1 - 1)))) with (2 ^ 64 - 1).
    replace (s + 1 - 1) with s by lia. rewrite land_all by clia. by destruct (Z.eqb_spec s 0); [clia|]. }
  by rewrite (fo_large _ Hfo s Hs).
Qed.

(** ** A block joins *)

Abbreviation exact B u L ss := (forall a n, B !! a = Some n <-> block u L ss a n).

Lemma Rep_extend B u L ss u' L' K' l' st' r n : exact B u L ss -> MInv u' L' K' l' st' ->
  (forall a m, block u' L' (stack_size st') a m <-> block u L ss a m \/ a = r /\ m = n) ->
  (forall m, ~ block u L ss r m) -> fresh B r n /\ Rep (<[r := n]> B) st'.
Proof using Hsm SpanHeapLaws0.
  intros HB HM Hbl Hr. assert (B !! r = None) as Hn.
  { destruct (B !! r) as [m|] eqn:E; [|done]. apply HB in E. by destruct (Hr m). }
  split; [split; [done|]|].
  - intros a m Ha. assert (a <> r) as Hne by congruence. apply HB in Ha.
    eapply (block_apart sizemap others Hsm u' L'); [done|apply Hbl; by left|apply Hbl; by right|done].
  - exists u', L', K', l'. split; [done|]. intros a m. rewrite Hbl, <- HB. destruct (decide (a = r)) as [->|Hne].
    + rewrite lookup_insert_eq, Hn. split; [intros [= ->]; by right|by intros [?|[_ ->]]].
    + rewrite lookup_insert_ne by done. split; [by left|by intros [?|[? _]]].
Qed.

Lemma Rep_new_small B u L K l st' x cl : exact B u L (stack_size st') -> MInv (<[x := cl]> u) L K l st' -> u !! x = None ->
  fresh B x (csize cl) /\ Rep (<[x := csize cl]> B) st'.
Proof using Hsm SpanHeapLaws0.
  intros HB HM Hx. eapply Rep_extend; [done|done| |].
  - intros a m. unfold MallocInv.block. destruct (decide (a = x)) as [->|Hne].
    + rewrite lookup_insert_eq, Hx. split.
      * intros [(c & [= <-] & ->)|?]; [by right|left; by right].
      * intros [[(c & ? & _)|?]|[_ ->]]; [done|by right|left; by exists cl].
    + rewrite lookup_insert_ne by done. split; [by left|by intros [?|[? _]]].
  - intros m [(c & ? & _)|(p & s & Hp & Ea & _)]; [congruence|].
    eapply (block_excl sizemap others Hsm); [exact HM|apply lookup_insert_eq|done|done].
Qed.

Lemma Rep_new_large B u L K ss l st' p s n : exact B u L ss -> MInv u (<[p := s]> L) K l st' -> L !! p = None ->
  (forall q t m, L !! q = Some t -> usable (stack_size st') t m <-> usable ss t m) -> usable (stack_size st') s n ->
  fresh B (start s * kPageSize) n /\ Rep (<[start s * kPageSize := n]> B) st'.
Proof using Hsm SpanHeapLaws0.
  intros HB HM Hp Huse Hn.
  assert (forall q t, L !! q = Some t -> start t * kPageSize <> start s * kPageSize) as Hst.
  { intros q t Hq E. assert (start t = start s) as Es by clia. assert (q <> p) as Hne by congruence. apply Hne.
    rewrite <- (la_desc _ _ _ (MInv_large _ _ _ _ _ _ _ q t HM ltac:(by rewrite lookup_insert_ne))), Es.
    apply (MInv_large _ _ _ _ _ _ _ p s HM). apply lookup_insert_eq. }
  eapply Rep_extend; [done|done| |].
  - intros a m. unfold MallocInv.block. split.
    + intros [?|(q & t & Hq & Ea & Hm)]; [by left; left|]. destruct (decide (q = p)) as [->|Hne].
      * rewrite lookup_insert_eq in Hq. injection Hq as <-. right. split; [done|]. subst a.
        by eapply (block_unique sizemap others Hsm u (<[p := s]> L)); [exact HM|right; exists p, s; rewrite lookup_insert_eq..].
      * rewrite lookup_insert_ne in Hq by done. left. right. exists q, t. split; [done|]. split; [done|]. by eapply Huse.
    + intros [[?|(q & t & Hq & Ea & Hm)]|[-> ->]]; [by left| |right; exists p, s; by rewrite lookup_insert_eq].
      right. exists q, t. rewrite lookup_insert_ne by congruence. split; [done|]. split; [done|]. by eapply Huse.
  - intros m [(cl & Ha & _)|(q & t & Hq & Ea & _)]; [|by eapply Hst].
    eapply (block_excl sizemap others Hsm); [exact HM|exact Ha|apply lookup_insert_eq|done].
Qed.

(** ** The pieces of an allocation *)

Lemma MInv_threads u u' L K l st ts : MInv u L K l st -> Layers u' L K l ts -> l <> [] -> MInv u' L K l (with_threads ts st).
Proof using. intros [] HL Hl. constructor; try done. by right. Qed.
Lemma MInv_heap u L K l st h : MInv u L K l st -> Layers u L K l (threads (with_heap h st)) -> MInv u L K l (with_heap h st).
Proof using. intros [] HL. by constructor. Qed.

(** A new large block, not sampled yet. *)
Lemma MInv_new u L K l st h p s : MInv u L K l st -> Layers u (<[p := s]> L) K l (threads (with_heap h st)) ->
  L !! p = None -> sizeclass s = 0 -> 1 <= Span.length_ s -> sample s = false -> MInv u (<[p := s]> L) K l (with_heap h st).
Proof using.
  intros [? ? ? Hsp Hstk Hinj Hnd Hsam] HL Hp Hsc Hlen Hns.
  assert (forall q t, <[p := s]> L !! q = Some t -> (q = p /\ t = s) \/ L !! q = Some t) as Hq.
  { intros q t. destruct (decide (q = p)) as [->|Hne]; [rewrite lookup_insert_eq; intros [= <-]; by left|].
    rewrite lookup_insert_ne by done. by right. }
  constructor; try done.
  - intros q t [[-> ->]|?]%Hq; [done|by eapply Hsp].
  - intros q t [[-> ->]|?]%Hq Ht; [congruence|by eapply Hstk].
  - intros q r t t' [[-> ->]|?]%Hq [[-> ->]|?]%Hq ? ? ?; [done|congruence|congruence|by eapply Hinj].
  - intros q. cbn. rewrite Hsam. split.
    + intros (t & Ht & ?). exists t. rewrite lookup_insert_ne; [done|congruence].
    + intros (t & [[-> ->]|?]%Hq & ?); [congruence|eauto].
Qed.

(** It gets its stack trace. *)
Lemma MInv_sample u L K l st st' p s k sz n : MInv u L K l st -> L !! p = Some s -> sample s = false -> k ∉ K ->
  Layers u (<[p := set_objects [k] (set_sample true s)]> L) ({[k]} ∪ K) l (threads st') ->
  unclaimed_cache_space_ (threads st') = unclaimed_cache_space_ (threads st) -> tls st' = tls st ->
  stack_size st' = <[k := sz]> (stack_size st) -> sampled_objects st' = p :: sampled_objects st ->
  nallocx sz = Ret n -> 0 <= n <= Span.length_ s * kPageSize ->
  MInv u (<[p := set_objects [k] (set_sample true s)]> L) ({[k]} ∪ K) l st'.
Proof using.
  intros [? ? ? Hsp Hstk Hinj Hnd Hsam] Hp Hns Hk HL Eu Et Es Eo Hn Hle.
  assert (forall q t, <[p := set_objects [k] (set_sample true s)]> L !! q = Some t ->
    (q = p /\ t = set_objects [k] (set_sample true s)) \/ (q <> p /\ L !! q = Some t)) as Hq.
  { intros q t. destruct (decide (q = p)) as [->|Hne]; [rewrite lookup_insert_eq; intros [= <-]; by left|].
    rewrite lookup_insert_ne by done. by right. }
  assert (forall q t, L !! q = Some t -> sample t = true -> objects t <> [k]) as Hnk.
  { intros q t Hqt Ht Ho. destruct (Hstk q t Hqt Ht) as (k' & ? & ? & Ho' & Hin & _). congruence. }
  constructor; rewrite ?Eu, ?Et, ?Es, ?Eo; try done.
  - intros q t [[-> ->]|[_ ?]]%Hq; [by apply (Hsp p s)|by eapply Hsp].
  - intros q t [[-> ->]|[_ Ht]]%Hq Hst.
    + exists k, sz, n. split; [done|]. split; [apply elem_of_union; left; by apply elem_of_singleton|].
      split; [apply lookup_insert_eq|done].
    + destruct (Hstk q t Ht Hst) as (k' & sz' & n' & Ho & Hin & Hsz & ?). exists k', sz', n'. split; [done|].
      split; [by apply elem_of_union_r|]. rewrite lookup_insert_ne; [done|congruence].
  - intros q r t t' [[-> ->]|[? Ht]]%Hq [[-> ->]|[? Ht']]%Hq E1 E2 E3; [done| | |by eapply Hinj].
    + exfalso. by eapply Hnk; [exact Ht'|exact E2|].
    + exfalso. by eapply Hnk; [exact Ht|exact E1|].
  - apply NoDup_cons. split; [|done]. rewrite Hsam. intros (t & ? & ?). congruence.
  - intros q. rewrite elem_of_cons, Hsam. split.
    + intros [->|(t & Ht & ?)]; [eexists; by rewrite lookup_insert_eq|]. exists t. rewrite lookup_insert_ne; [done|congruence].
    + intros (t & [[-> ->]|[_ ?]]%Hq & ?); [by left|right; eauto].
Qed.

(** The assertion on every result of [malloc] holds. *)
Lemma wp_Checked u L K l st p n (Q : Z -> malloc -> Prop) : MInv u L K l st -> p = 0 \/ block u L (stack_size st) p n -> Q p st ->
  wp (CheckedMallocResult p) Q st.
Proof using Hsm SpanHeapLaws0.
  intros HM Hb HQ. unfold CheckedMallocResult. destruct (Z.eqb_spec p 0) as [->|Hp0]; [by apply wp_ret|].
  destruct Hb as [?|Hb]; [done|].
  assert (wp (CheckCachedSizeClass p) (fun ok st' => ok = true /\ st' = st) st) as Hc.
  { unfold CheckCachedSizeClass. apply wp_bind, wp_get. cbn zeta. destruct Hb as [(cl & Ha & _)|(q & s & Hq & -> & _)].
    - destruct (small_block sizemap others Hsm _ _ _ _ _ _ _ (mi_layers _ _ _ _ _ _ _ HM) Ha) as (q & s & []).
      unfold pageheap_of. destruct sa_cache as [-> | ->]; [|by apply wp_ret]. rewrite sa_desc.
      apply wp_bind. eapply wp_span; [apply sa_use|]. apply wp_ret. split; [by apply Z.eqb_eq|done].
    - pose proof (MInv_large _ _ _ _ _ _ _ _ _ HM Hq) as []. rewrite shiftr_div by clia. change (2 ^ kPageShift) with kPageSize.
      rewrite Z.div_mul by done. rewrite la_cache. by apply wp_ret. }
  apply wp_bind. eapply wp_mono; [exact Hc|]. cbn beta. intros ok st' [-> ->]. apply wp_bind.
  eapply wp_lift; [by apply check_true|]. by apply wp_ret.
Qed.

Lemma wp_SpanToMallocResult u L K l st p s n (Q : Z -> malloc -> Prop) : MInv u L K l st -> L !! p = Some s ->
  usable (stack_size st) s n -> Q (start s * kPageSize) st -> wp (SpanToMallocResult p) Q st.
Proof using Hsm SpanHeapLaws0.
  intros HM Hp Hn HQ. pose proof (MInv_large _ _ _ _ _ _ _ _ _ HM Hp) as Hl. destruct (la_bounds _ _ _ Hl) as (_ & ? & ?).
  destruct (mi_span _ _ _ _ _ _ _ HM p s Hp) as [_ ?].
  unfold SpanToMallocResult. apply wp_bind. eapply wp_span; [apply Hl|]. rewrite shiftl_mul by clia.
  change (2 ^ kPageShift) with kPageSize. rewrite u64_small by clia.
  eapply (wp_Checked u L K l st _ n); [done|right; right; eauto|done].
Qed.

(** What an allocation of [size] bytes may end with. *)
Definition alloc_post B (size r : Z) st' : Prop :=
  r = 0 /\ Rep B st' \/
  r <> 0 /\ exists n, nallocx size = Ret n /\ size <= n /\ fresh B r n /\
    (forall k, wants size k -> r mod 2 ^ k = 0) /\ Rep (<[r := n]> B) st'.

(** A large block is handed out. *)
Lemma post_large B u L K ss l st' p s n size : exact B u L ss -> MInv u (<[p := s]> L) K l st' -> L !! p = None ->
  (forall q t m, L !! q = Some t -> usable (stack_size st') t m <-> usable ss t m) -> usable (stack_size st') s n ->
  nallocx size = Ret n -> size <= n -> wp (SpanToMallocResult p) (alloc_post B size) st'.
Proof using Hsm SpanHeapLaws0.
  intros HB HM Hp Huse Hn Hnx Hle. eapply wp_SpanToMallocResult; [exact HM|apply lookup_insert_eq|done|].
  pose proof (MInv_large _ _ _ _ _ _ _ p s HM (lookup_insert_eq _ _ _)) as [_ (_ & ? & _) _ _].
  right. split; [clia|]. exists n. split; [done|]. split; [done|].
  destruct (Rep_new_large B u L K ss l st' p s n) as [Hf HR]; try done. split; [done|]. split; [|done].
  intros k [Hk _]. by apply page_aligned.
Qed.

Lemma Rep_intro B u L K l st : exact B u L (stack_size st) -> MInv u L K l st -> Rep B st.
Proof using. intros HB HM. by exists u, L, K, l. Qed.

Definition at_least_1 (size : Z) : Z := if size =? 0 then 1 else size.
Lemma sampled_fits size : 0 <= size < 2 ^ 64 -> exists n, nallocx size = Ret n /\
  forall len, len = ph_RoundUpSize (pages (at_least_1 size)) -> pages (at_least_1 size) <= len < 2 ^ 36 ->
    size <= n <= len * kPageSize.
Proof using Hfo Hts.
  intros Hs. unfold at_least_1. destruct (Z.le_gt_cases size kMaxSize) as [Hle|Hgt].
  - destruct (fo_small _ Hfo size ltac:(lia)) as (cl & Hcl & Hr & Hsz). exists (csize cl).
    split; [by apply nallocx_small|]. intros len -> _. split; [done|]. apply (fo_sampled _ Hfo); [lia|done].
  - eexists. split; [by apply nallocx_large; lia|]. destruct (Z.eqb_spec size 0); [clia|]. intros len <- Hlen.
    destruct (pages_spec size ltac:(lia)). rewrite shiftl_mul by clia. change (2 ^ kPageShift) with kPageSize.
    rewrite u64_small by clia. clia.
Qed.

Lemma wp_DoSampledAllocation B u L K l size st : exact B u L (stack_size st) -> MInv u L K l st -> 0 <= size < 2 ^ 64 ->
  wp (DoSampledAllocation size) (alloc_post B size) st.
Proof using SpanHeapLaws0 ObjectHeapLaws0 Hsm Hts Hfo.
  intros HB HM Hs. destruct (sampled_fits size Hs) as (n & Hnx & Hfit). unfold DoSampledAllocation. fold (at_least_1 size).
  assert (0 < at_least_1 size < 2 ^ 64) as Hs1 by (unfold at_least_1; destruct (Z.eqb_spec size 0); lia).
  apply wp_bind. eapply wp_large; [apply HM|intros h Hwf; apply New_large_ok; [done|by apply pages_pos]| |].
  { intros h HL. cbn [Z.eqb]. apply wp_ret. left. split; [done|]. eapply Rep_intro; [exact HB|]. by apply MInv_heap. }
  intros h p s Hp0 HpL HL Hlen Hle Hsc Hns _. destruct (Z.eqb_spec p 0); [done|].
  pose proof (pages_pos _ Hs1).
  pose proof (MInv_new _ _ _ _ _ _ _ _ HM HL HpL Hsc ltac:(lia) Hns) as HM1.
  assert (Span.length_ s < 2 ^ 36) as Hb.
  { pose proof (MInv_large _ _ _ _ _ _ _ p s HM1 ltac:(apply lookup_insert_eq)) as [_ (_ & ? & ?) _ _]. lia. }
  destruct (Hfit _ Hlen ltac:(lia)) as [Hsn Hnl].
  apply wp_bind. eapply wp_stack_New; [apply HM1|]. intros h2 k Hk0 HkK HL2. destruct (Z.eqb_spec k 0); [done|]. cbn [negb].
  apply wp_bind, wp_bind, wp_mod, wp_bind. cbn beta.
  set (st2 := with_samples _ _ _).
  assert (ph_inuse (pageheap_of st2) p s) as Hu.
  { eapply large_block; [exact HL2|apply lookup_insert_eq|done|lia]. }
  eapply wp_span; [apply Hu|]. apply wp_bind. eapply (wp_write_large sizemap others); [exact HL2|apply lookup_insert_eq|done|done|done|done|].
  intros h3 HL3. rewrite insert_insert_eq in HL3. apply wp_mod. cbn beta.
  set (st3 := with_samples _ _ _). set (s' := set_objects [k] (set_sample true s)) in *.
  assert (MInv u (<[p := s']> L) ({[k]} ∪ K) l st3) as HM3.
  { replace (<[p := s']> L) with (<[p := s']> (<[p := s]> L)) by apply insert_insert_eq.
    eapply (MInv_sample _ _ _ _ _ st3 p s k size n HM1); [apply lookup_insert_eq|done|done| |done|done|done|done|done|lia].
    by rewrite insert_insert_eq. }
  eapply (post_large B u L _ (stack_size st)); [exact HB|exact HM3|done| | |done|done].
  - intros q t m Hq. unfold MallocInv.usable. destruct (sample t) eqn:Et; [|done].
    destruct (mi_stack _ _ _ _ _ _ _ HM q t Hq Et) as (k' & sz' & n' & Ho & Hk' & Hsz & _).
    assert (k' <> k) by congruence. cbn. split; intros (k0 & sz & Ho0 & Hsz0 & ?); exists k0, sz; split; try done; split; try done.
    + rewrite lookup_insert_ne in Hsz0; [done|congruence].
    + rewrite lookup_insert_ne; [done|congruence].
  - unfold MallocInv.usable. cbn. exists k, size. by rewrite lookup_insert_eq.
Qed.

(** ** Allocation *)

(** The part of the state the invariant is about, and the rest. *)
Definition core st := (threads st, tls st, sampled_objects st, stack_size st).
Definition front st := (mem st, errno st, tc_new_mode st, new_hooks st, delete_hooks st, pagesize st, user st).

Lemma Rep_core B st st' : same core st st' -> Rep B st -> Rep B st'.
Proof using.
  unfold same, core. intros [= E1 E2 E3 E4] (u & L & K & l & [] & HB). exists u, L, K, l. rewrite E4. split; [|done].
  constructor; by rewrite ?E1, ?E2, ?E3, ?E4.
Qed.
Lemma alloc_post_core B size r st st' : same core st st' -> alloc_post B size r st -> alloc_post B size r st'.
Proof using.
  intros HE [[-> HR]|(Hr & n & ? & ? & ? & ? & HR)]; [left; split; [done|]; by eapply Rep_core|].
  right. split; [done|]. exists n. do 4 (split; [done|]). by eapply Rep_core.
Qed.

Lemma wp_should_report n st :
  wp (should_report_large report_enabled report_env n) (fun _ st' => same core st st') st.
Proof using.
  unfold should_report_large. destruct report_enabled; cbn [negb]; [|by apply wp_ret]. apply wp_bind, wp_get, wp_bind.
  eapply (wp_mono _ (fun _ st' => same core st st')).
  { destruct (_ =? 0); [apply wp_bind, wp_mod, wp_ret|apply wp_ret]; done. }
  intros th st1 E. destruct (_ <? _); [by apply wp_ret|]. apply wp_bind, wp_mod, wp_ret. exact E.
Qed.

Lemma wp_Sample u L K l t k (Q : bool -> Caches (Central H) -> Prop) ts : Layers u L K l ts -> t ∈ l ->
  (forall b ts', Layers u L K l ts' -> Q b ts') -> wp (TC.SampleAllocation flag draw t k) Q ts.
Proof using.
  intros HL Ht HQ. pose proof Ht as [v Hv]%(lk_dom _ _ (TU_links _ _ _ _ _ _ _ _ HL)). unfold TC.SampleAllocation.
  apply wp_bind. eapply wp_get_tc; [done|]. destruct (Sampler.RecordAllocation _ _ _ _ _) as [ok s].
  apply wp_bind, wp_put_tc, wp_ret, HQ. by eapply TU_upd.
Qed.
Lemma wp_TryRecord u L K l t k (Q : bool -> Caches (Central H) -> Prop) ts : Layers u L K l ts -> t ∈ l ->
  (forall b ts', Layers u L K l ts' -> Q b ts') -> wp (TC.TryRecordAllocationFast t k) Q ts.
Proof using.
  intros HL Ht HQ. pose proof Ht as [v Hv]%(lk_dom _ _ (TU_links _ _ _ _ _ _ _ _ HL)). unfold TC.TryRecordAllocationFast.
  apply wp_bind. eapply wp_get_tc; [done|]. destruct (Sampler.TryRecordAllocationFast _ _) as [ok s].
  apply wp_bind, wp_put_tc, wp_ret, HQ. by eapply TU_upd.
Qed.

Lemma wp_Grab u L K l (Q : Z -> malloc -> Prop) st : MInv u L K l st ->
  (forall c l' st', c <> 0 -> c ∈ l' -> stack_size st' = stack_size st -> MInv u L K l' st' -> Q c st') ->
  wp (Grab sizemap others flag draw seed) Q st.
Proof using SpanHeapLaws0 ObjectHeapLaws0 others_stay Hsm others_ok Hts.
  intros HM HQ. unfold Grab, GetIfPresent. apply wp_bind, wp_bind, wp_get, wp_ret.
  destruct (Z.eqb_spec (tls st) 0) as [E|E]; cbn [negb].
  - apply wp_bind, wp_in_threads. eapply wp_mono; [eapply (wp_NewHeap sizemap (Keeps sizemap (large <$> L) K)); [done|apply HM|apply HM]|].
    intros r ts (Hr & Hrl & HL). apply wp_bind, wp_mod, wp_ret. apply (HQ r (r :: l)); [done|by left|done|].
    pose proof HM as []. constructor; try done; [by eapply TU_any|by right|right; by left].
  - apply wp_ret. apply (HQ (tls st) l); [done|by destruct (mi_tls _ _ _ _ _ _ _ HM)|done|done].
Qed.

Lemma elem_ne_nil {A} (x : A) l : x ∈ l -> l <> [].
Proof. by destruct l; [intros ?%elem_of_nil|]. Qed.

Lemma wp_do_malloc_pages B u L K l t size st : exact B u L (stack_size st) -> MInv u L K l st -> t ∈ l ->
  kMaxSize < size < 2 ^ 64 -> wp (do_malloc_pages flag draw report_enabled report_env t size) (alloc_post B size) st.
Proof using SpanHeapLaws0 ObjectHeapLaws0 Hsm Hts Hfo.
  intros HB HM Ht Hs. unfold do_malloc_pages. apply wp_bind, wp_in_threads. eapply wp_Sample; [apply HM|done|].
  intros sampled ts HL. pose proof (MInv_threads _ _ _ _ _ _ _ HM HL (elem_ne_nil _ _ Ht)) as HM1.
  apply wp_bind. eapply (wp_mono _ (alloc_post B size)).
  - destruct sampled; [eapply wp_DoSampledAllocation; [exact HB|exact HM1|clia]|].
    apply wp_bind. eapply wp_large; [exact HL|intros h Hwf; apply New_large_ok; [done|apply pages_pos; clia]| |].
    { intros h HL2. cbn [Z.eqb]. apply wp_ret. left. split; [done|]. eapply Rep_intro; [exact HB|]. by apply MInv_heap. }
    intros h p s Hp0 HpL HL2 Hlen Hle Hsc Hns _. destruct (Z.eqb_spec p 0); [done|].
    destruct (pages_spec size ltac:(clia)) as [Hpg _].
    pose proof (MInv_new _ _ _ _ _ _ _ _ HM1 HL2 HpL Hsc ltac:(clia) Hns) as HM2.
    pose proof (MInv_large _ _ _ _ _ _ _ p s HM2 (lookup_insert_eq _ _ _)) as [_ (_ & ? & ?) _ _].
    eapply (post_large B u L _ (stack_size st)); [exact HB|exact HM2|done|done| | |].
    + unfold MallocInv.usable. by rewrite Hns.
    + rewrite nallocx_large, <- Hlen, shiftl_mul by clia. change (2 ^ kPageShift) with kPageSize. by rewrite u64_small by clia.
    + clia.
  - intros r st1 Hpost. apply wp_bind. eapply wp_mono; [apply wp_should_report|].
    intros rep st2 E2. apply wp_bind. eapply (wp_mono _ (fun _ st' => same core st2 st')).
    { destruct rep; [apply wp_mod|apply wp_ret]; done. }
    intros [] st3 E3. apply wp_ret. eapply alloc_post_core; [|exact Hpost]. by transitivity st2.
Qed.

(** A small block is handed out. *)
Lemma post_small B size u L K l st' x cl : GetSizeClass sizemap size = Ret (Some cl) -> 1 <= cl < ncl -> 0 <= size <= csize cl ->
  exact B u L (stack_size st') -> MInv (<[x := cl]> u) L K l st' -> u !! x = None -> x <> 0 /\ alloc_post B size x st'.
Proof using SpanHeapLaws0 Hsm Hts Hfo.
  intros Hcl Hr Hs HB HM Hx. pose proof (mi_layers _ _ _ _ _ _ _ HM) as HL.
  destruct (small_block sizemap others Hsm _ _ _ _ _ x cl HL (lookup_insert_eq _ _ _)) as (p & s & Hsa).
  destruct (Layers_holds _ _ _ _ _ _ _ HL) as (m0 & _ & (out & [_ HI _ _ _]) & _).
  destruct (ph_bounds _ _ _ (ci_wf _ _ _ HI) (sa_use _ _ _ _ _ _ _ Hsa)) as (_ & ? & _).
  pose proof (sa_in _ _ _ _ _ _ _ Hsa). assert (x <> 0) as Hx0 by clia. split; [done|]. right. split; [done|]. exists (csize cl).
  split; [by apply nallocx_small|]. split; [lia|].
  destruct (Rep_new_small B u L K l st' x cl HB HM Hx) as [Hf HR].
  split; [done|]. split; [|done]. intros k Hk. pose proof (fo_align _ Hfo size cl k Hcl ltac:(lia) Hk) as Ha.
  destruct (sa_slot _ _ _ _ _ _ _ Hsa) as (i & _ & ->). destruct Hk as [Hk _].
  assert (0 < 2 ^ k) by (apply Z.pow_pos_nonneg; lia).
  rewrite Z.add_mod, page_aligned, Z.mul_mod, Ha, Z.mul_0_r, Zmod_0_l by (done || lia). done.
Qed.

Lemma wp_do_malloc B size st : Rep B st -> 0 <= size < 2 ^ 64 -> wp (do_malloc size) (alloc_post B size) st.
Proof using SpanHeapLaws0 ObjectHeapLaws0 others_stay Hsm others_ok Hts Hfo.
  intros (u & L & K & l & HM & HB) Hs. unfold Malloc.MA.do_malloc. apply wp_bind. eapply wp_Grab; [exact HM|].
  clear HM. intros c l' st1 Hc0 Hc E HM. rewrite <- E in HB. clear E. pose proof (elem_ne_nil _ _ Hc) as Hne.
  destruct (Z.le_gt_cases size kMaxSize) as [Hle|Hgt].
  - destruct (fo_small _ Hfo size ltac:(lia)) as (cl & Hcl & Hr & Hsz). apply wp_bind. eapply wp_lift; [exact Hcl|].
    apply wp_bind. eapply wp_lift; [by apply class_bytes|]. apply wp_bind, wp_in_threads.
    eapply wp_Sample; [apply HM|done|]. intros sampled ts HL. pose proof (MInv_threads _ _ _ _ _ _ _ HM HL Hne) as HM1.
    destruct sampled; [by eapply wp_DoSampledAllocation|].
    apply wp_bind, wp_in_threads. eapply (wp_Allocate sizemap (Keeps sizemap (large <$> L) K) Hts); [done|by eapply TU_any|done| |].
    + intros ts2 HL2. apply wp_ret. apply (TU_any _ _ _ c 0) in HL2.
      eapply (wp_Checked _ _ _ _ _ _ 0); [eapply MInv_threads; [exact HM1|exact HL2|done]|by left|].
      left. split; [done|]. eapply Rep_intro; [exact HB|]. by eapply MInv_threads.
    + intros x ts2 Hx HL2. apply (TU_any _ _ _ c 0) in HL2.
      pose proof (MInv_threads _ _ _ _ _ _ ts2 HM1 HL2 Hne) as HM2.
      eapply (wp_Checked _ _ _ _ _ x); [exact HM2|right; left; exists cl; rewrite lookup_insert_eq; done|].
      by eapply post_small; [exact Hcl|done|lia|exact HB|exact HM2|].
  - apply wp_bind. eapply wp_lift; [apply (fo_large _ Hfo); lia|]. by apply wp_do_malloc_pages with u L K l'; try lia.
Qed.
End Alloc.
