(* ===== verification/MallocFree.v ===== *)
(** * Sizes and deallocation

    A block's recorded size is found again from its address, and freeing a
    block takes exactly that block out of the heap. *)
From S2P Require Import Prelude Common Sampler ThreadCache ThreadCacheSpec ThreadCacheLife PageMap PackedCache Span SysEnv PageHeap CentralFreeList CentralFreeListInv CentralFreeListSpec CentralCaches Malloc MallocInv MallocAlloc.
Import SizeMap MA.

Section Free.
Context {H U : Type} `{!SpanHeap H} `{!SpanHeapLaws H} `{!ObjectHeap H} `{!ObjectHeapLaws H} {RS : Rest}.
Context (sizemap : SizeMap) (others : M (Central H) unit).
Abbreviation malloc := (Malloc H U).
Abbreviation ncl := (num_size_classes sizemap).
Abbreviation csize := (csize sizemap).
Abbreviation nallocx size := (tc_nallocx (H := H) sizemap size 0).
Abbreviation MInv := (MInv (H := H) (U := U) sizemap others).
Abbreviation Rep := (Rep (H := H) (U := U) sizemap others).
Abbreviation Layers := (Layers (H := H) sizemap others).
Abbreviation block := (block (H := H) sizemap).
Abbreviation usable := (usable (H := H) sizemap).
Abbreviation exact B u L ss := (forall a n, B !! a = Some n <-> block u L ss a n).
Implicit Types (st : malloc) (u : gmap Z Z) (L : gmap Z Span) (K : gset Z) (B : gmap Z Z).
#[local] Instance lists_below : CentralCache (Central H) := central_lists sizemap others.

Hypothesis others_stay : moves stay others.
Hypothesis Hsm : sizemap_ok (H := H) sizemap.
Hypothesis others_ok : forall mine priv c, Holds sizemap mine priv c -> wp others (fun _ c' => Holds sizemap mine priv c') c.
Hypothesis Hts : tc_sizemap_ok sizemap.

#[local] Instance laws_below L K : CentralCacheLaws sizemap (Keeps sizemap (large <$> L) K) :=
  central_cache_laws sizemap others others_stay Hsm others_ok _ _.

(** ** Looking a block up *)

Lemma desc_nonzero u L K l st p s : MInv u L K l st -> ph_inuse (pageheap_of st) p s -> p <> 0 /\ 1 <= start s.
Proof using SpanHeapLaws0.
  intros HM Hu. destruct (Layers_holds _ _ _ _ _ _ _ (mi_layers _ _ _ _ _ _ _ HM)) as (m0 & _ & (out & [_ HI _ _ _]) & _).
  destruct (ph_bounds _ _ _ (ci_wf _ _ _ HI) Hu) as (? & ? & _). done.
Qed.
Lemma first_page s : Z.shiftr (start s * kPageSize) kPageShift = start s.
Proof. rewrite shiftr_div by clia. change (2 ^ kPageShift) with kPageSize. by apply Z.div_mul. Qed.

Lemma block_nonzero u L K l st a n : MInv u L K l st -> block u L (stack_size st) a n -> a <> 0.
Proof using Hsm SpanHeapLaws0.
  intros HM [(cl & Ha & _)|(p & s & Hp & -> & _)].
  - destruct (small_block sizemap others Hsm _ _ _ _ _ _ _ (mi_layers _ _ _ _ _ _ _ HM) Ha) as (p & s & Hs).
    destruct (desc_nonzero _ _ _ _ _ _ _ HM (sa_use _ _ _ _ _ _ _ Hs)). pose proof (sa_in _ _ _ _ _ _ _ Hs). clia.
  - pose proof (MInv_large _ _ _ _ _ _ _ _ _ HM Hp) as [_ (_ & ? & _) _ _]. clia.
Qed.

Lemma wp_GetSize u L K l st a n (bad : Z -> M malloc Z) (Q : Z -> malloc -> Prop) : MInv u L K l st ->
  block u L (stack_size st) a n -> Q n st -> wp (GetSizeWithCallback sizemap a bad) Q st.
Proof using Hsm SpanHeapLaws0 Hts.
  intros HM Hb HQ. unfold GetSizeWithCallback. destruct (Z.eqb_spec a 0) as [E|_]; [by destruct (block_nonzero _ _ _ _ _ _ _ HM Hb)|].
  apply wp_bind, wp_get. cbn zeta. destruct Hb as [(cl & Ha & ->)|(p & s & Hp & -> & Hn)].
  - destruct (small_block sizemap others Hsm _ _ _ _ _ _ _ (mi_layers _ _ _ _ _ _ _ HM) Ha) as (p & s & Hs).
    pose proof (sa_range _ _ _ _ _ _ _ Hs) as Hcl. unfold pageheap_of.
    destruct (sa_cache _ _ _ _ _ _ _ Hs) as [-> | ->]; [eapply wp_lift; [by apply class_bytes|done]|].
    rewrite (sa_desc _ _ _ _ _ _ _ Hs). destruct (desc_nonzero _ _ _ _ _ _ _ HM (sa_use _ _ _ _ _ _ _ Hs)) as [Hp _].
    destruct (Z.eqb_spec p 0); [done|]. apply wp_bind. eapply wp_span; [apply Hs|].
    rewrite (sa_class _ _ _ _ _ _ _ Hs). destruct (Z.eqb_spec cl 0); [lia|]. cbn [negb].
    eapply wp_lift; [by apply class_bytes|done].
  - pose proof (MInv_large _ _ _ _ _ _ _ _ _ HM Hp) as [Hu (Hp0 & H1 & H2) Hd Hc]. destruct (mi_span _ _ _ _ _ _ _ HM p s Hp) as [Hsc Hlen].
    rewrite first_page, Hc, Hd. destruct (Z.eqb_spec p 0); [done|]. apply wp_bind. eapply wp_span; [apply Hu|].
    rewrite Hsc. cbn [negb Z.eqb]. unfold MallocInv.usable in Hn. destruct (sample s).
    + destruct Hn as (k & sz & Ho & Hk & Hn). rewrite Ho. apply wp_bind. eapply wp_lift; [done|]. apply wp_bind.
      eapply wp_lift; [by rewrite Hk|]. by eapply wp_lift.
    + rewrite shiftl_mul by clia. change (2 ^ kPageShift) with kPageSize. rewrite u64_small by clia. subst n. by apply wp_ret.
Qed.

(** ** A block leaves *)

Lemma Rep_shrink B u L ss u' L' K' l' st' r : exact B u L ss -> MInv u' L' K' l' st' ->
  (forall a m, block u' L' (stack_size st') a m <-> block u L ss a m /\ a <> r) -> Rep (delete r B) st'.
Proof using.
  intros HB HM Hbl. exists u', L', K', l'. split; [done|]. intros a m. rewrite Hbl, <- HB.
  destruct (decide (a = r)) as [->|Hne]; [rewrite lookup_delete_eq; split; [done|by intros []]|].
  rewrite lookup_delete_ne by done. split; [done|by intros []].
Qed.

Lemma Rep_free_small B u L K l st st' a cl : exact B u L (stack_size st) -> MInv u L K l st -> u !! a = Some cl ->
  MInv (delete a u) L K l st' -> stack_size st' = stack_size st -> Rep (delete a B) st'.
Proof using Hsm SpanHeapLaws0.
  intros HB HM Ha HM' E. eapply Rep_shrink; [exact HB|exact HM'|]. rewrite E. intros b m. unfold MallocInv.block.
  destruct (decide (b = a)) as [->|Hne].
  - rewrite lookup_delete_eq. split; [|by intros []]. intros [(c & ? & _)|(p & s & Hp & Eb & _)]; [done|].
    exfalso. by eapply (block_excl sizemap others Hsm u L K l st).
  - rewrite lookup_delete_ne by done. split; [done|by intros []].
Qed.

Lemma wp_free_small B u L K l st st1 a cl : exact B u L (stack_size st) -> MInv u L K l st -> u !! a = Some cl ->
  MInv u L K l st1 -> stack_size st1 = stack_size st ->
  wp (free_small sizemap others a cl) (fun _ st' => Rep (delete a B) st') st1.
Proof using SpanHeapLaws0 ObjectHeapLaws0 others_stay Hsm others_ok Hts.
  intros HB HM Ha HM1 E.
  destruct (small_block sizemap others Hsm _ _ _ _ _ _ _ (mi_layers _ _ _ _ _ _ _ HM) Ha) as (p & s & Hs).
  pose proof (sa_range _ _ _ _ _ _ _ Hs) as Hcl.
  assert (forall ts, Layers (delete a u) L K l ts -> (0 < unclaimed_cache_space_ ts \/ l <> []) ->
    Rep (delete a B) (with_threads ts st1)) as Hdone.
  { intros ts HL Hroom. eapply Rep_free_small; [exact HB|exact HM|exact Ha| |exact E]. pose proof HM1 as []. by constructor. }
  unfold free_small, GetIfPresent. apply wp_bind, wp_bind, wp_get, wp_ret.
  destruct (Z.eqb_spec (tls st1) 0) as [Et|Et]; cbn [negb]; apply wp_in_threads.
  - change (CFL.InsertRange sizemap others cl [a] 1) with (cc_InsertRange cl [a] (Z.of_nat (length [a]))).
    eapply (wp_central_insert sizemap (Keeps sizemap (large <$> L) K) (delete a u) 0 0 (-1) l cl [a]);
      [done|apply NoDup_singleton|by intros x ->%list_elem_of_singleton; apply lookup_delete_eq| |].
    + cbn [give foldr]. rewrite insert_delete_id by done. apply HM1.
    + intros c HL. apply Hdone; [exact HL|]. apply (mi_room _ _ _ _ _ _ _ HM1).
  - destruct (mi_tls _ _ _ _ _ _ _ HM1) as [?|Htl]; [done|].
    eapply wp_mono; [eapply (wp_Deallocate sizemap (Keeps sizemap (large <$> L) K) Hts (delete a u) (tls st1) l cl a);
      [done| |apply lookup_delete_eq|done]|].
    + rewrite insert_delete_id by done. eapply TU_any, HM1.
    + intros [] ts HL. apply Hdone; [by eapply TU_any|]. right. by eapply elem_ne_nil.
Qed.

(** ** Freeing a large block *)

(** The invariant without one of the large blocks; [st'] is the state after
    its stack trace, if it had one, went back. *)
Lemma MInv_drop u L K K' l st st' p s : MInv u L K l st -> L !! p = Some s -> Layers u (delete p L) K' l (threads st') ->
  unclaimed_cache_space_ (threads st') = unclaimed_cache_space_ (threads st) -> tls st' = tls st -> stack_size st' = stack_size st ->
  (forall q t k, q <> p -> L !! q = Some t -> sample t = true -> objects t = [k] -> k ∈ K -> k ∈ K') ->
  NoDup (sampled_objects st') -> (forall q, q ∈ sampled_objects st' <-> q <> p /\ q ∈ sampled_objects st) ->
  MInv u (delete p L) K' l st'.
Proof using.
  intros [? ? ? Hsp Hstk Hinj Hnd Hsam] Hp HL Eu Et Es HK Hnd' Hsam'.
  assert (forall q t, delete p L !! q = Some t <-> q <> p /\ L !! q = Some t) as Hq.
  { intros q t. rewrite lookup_delete_Some. split; intros []; by auto. }
  constructor; rewrite ?Eu, ?Et, ?Es; try done.
  - intros q t [_ ?]%Hq. by eapply Hsp.
  - intros q t [Hne Ht]%Hq Hst. destruct (Hstk q t Ht Hst) as (k & sz & n & Ho & Hk & ?). exists k, sz, n.
    split; [done|]. split; [by eapply HK|done].
  - intros q r t t' [_ ?]%Hq [_ ?]%Hq. by eapply Hinj.
  - intros q. rewrite Hsam', Hsam. split.
    + intros (Hne & t & Ht & ?). exists t. by rewrite Hq.
    + intros (t & [Hne Ht]%Hq & ?). eauto.
Qed.

Lemma Rep_free_large B u L K K' l st st' p s : exact B u L (stack_size st) -> MInv u L K l st -> L !! p = Some s ->
  MInv u (delete p L) K' l st' -> stack_size st' = stack_size st -> Rep (delete (start s * kPageSize) B) st'.
Proof using Hsm SpanHeapLaws0.
  intros HB HM Hp HM' E. eapply Rep_shrink; [exact HB|exact HM'|]. rewrite E. intros b m. unfold MallocInv.block. split.
  - intros [(c & Hb & ->)|(q & t & [Hne Hq]%lookup_delete_Some & -> & Hm)].
    + split; [left; eauto|]. intros ->. by eapply (block_excl sizemap others Hsm u L K l st).
    + split; [right; eauto 6|]. intros Es. assert (start t = start s) as E' by clia. apply Hne.
      rewrite <- (la_desc _ _ _ (MInv_large _ _ _ _ _ _ _ _ _ HM Hp)), <- E'.
      apply (MInv_large _ _ _ _ _ _ _ _ _ HM Hq).
  - intros [[?|(q & t & Hq & -> & Hm)] Hne]; [by left|]. right. exists q, t. split; [|done].
    apply lookup_delete_Some. split; [|done]. intros ->. by assert (t = s) as -> by congruence.
Qed.

Lemma wp_do_free_pages B u L K l st p s : exact B u L (stack_size st) -> MInv u L K l st -> L !! p = Some s ->
  wp (do_free_pages p (start s * kPageSize)) (fun _ st' => Rep (delete (start s * kPageSize) B) st') st.
Proof using SpanHeapLaws0 ObjectHeapLaws0 Hsm.
  intros HB HM Hp. pose proof (MInv_large _ _ _ _ _ _ _ _ _ HM Hp) as [Hu (Hp0 & H1 & H2) Hd Hc].
  destruct (mi_span _ _ _ _ _ _ _ HM p s Hp) as [Hsc Hlen].
  unfold do_free_pages. apply wp_bind. eapply wp_span; [apply Hu|]. apply wp_bind.
  eapply wp_lift; [apply check_true, bool_decide_eq_true, Hu|]. apply wp_bind.
  eapply wp_lift; [apply check_true; rewrite shiftl_mul by clia; change (2 ^ kPageShift) with kPageSize;
    rewrite u64_small by clia; apply Z.eqb_refl|]. apply wp_bind.
  destruct (sample s) eqn:Es.
  - apply wp_bind, wp_get, wp_bind. assert (p ∈ sampled_objects st) as Hin by (apply (mi_sampled _ _ _ _ _ _ _ HM); eauto).
    destruct (list_remove_perm p _ Hin) as (l' & Hl' & HP). eapply wp_lift; [by rewrite Hl'|].
    pose proof (mi_nodup _ _ _ _ _ _ _ HM) as Hnd. rewrite HP in Hnd. apply NoDup_cons in Hnd as [Hpl Hnd'].
    apply wp_bind, wp_mod. destruct (mi_stack _ _ _ _ _ _ _ HM p s Hp Es) as (k & sz & n & Ho & Hk & _).
    rewrite Ho. apply wp_bind. eapply wp_lift; [done|]. cbn beta.
    apply wp_bind. eapply (wp_stack_Delete sizemap others u L K l); [apply HM|done|]. intros h HL.
    eapply (wp_write_large sizemap others); [exact HL|exact Hp|done|done|done|done|]. intros h2 HL2.
    eapply (wp_Delete_large sizemap others); [exact HL2|apply lookup_insert_eq|]. intros h3 HL3. rewrite delete_insert_eq in HL3.
    eapply Rep_free_large; [exact HB|exact HM|exact Hp| |done].
    eapply (MInv_drop _ _ _ _ _ _ _ p s HM); [done|exact HL3|done|done|done| |done|].
    + intros q t k' Hne Hq Ht Hot Hk'. apply elem_of_difference. split; [done|]. intros ->%elem_of_singleton. apply Hne.
      apply (mi_inj _ _ _ _ _ _ _ HM q p t s); try done. congruence.
    + intros q. cbn. rewrite HP, elem_of_cons. split; [intros Hq; split; [congruence|by right]|by intros [? [?|?]]].
  - apply wp_ret. eapply (wp_Delete_large sizemap others); [apply HM|exact Hp|]. intros h HL.
    eapply Rep_free_large; [exact HB|exact HM|exact Hp| |done].
    eapply (MInv_drop _ _ _ _ _ _ _ p s HM); [done|exact HL|done|done|done|done|apply HM|].
    intros q. split; [|by intros []]. intros Hq. split; [|done]. intros ->.
    apply (mi_sampled _ _ _ _ _ _ _ HM) in Hq as (t & ? & ?). congruence.
Qed.

Lemma wp_free_lookup B st a n bad use_hint : Rep B st -> B !! a = Some n ->
  wp (free_lookup sizemap others a bad use_hint) (fun _ st' => Rep (delete a B) st') st.
Proof using SpanHeapLaws0 ObjectHeapLaws0 others_stay Hsm others_ok Hts.
  intros (u & L & K & l & HM & HB) Ha. apply HB in Ha as [(cl & Ha & _)|(p & s & Hp & -> & _)];
    unfold free_lookup; apply wp_bind, wp_get; cbn zeta.
  - destruct (small_block sizemap others Hsm _ _ _ _ _ _ _ (mi_layers _ _ _ _ _ _ _ HM) Ha) as (p & s & Hs).
    pose proof (sa_range _ _ _ _ _ _ _ Hs) as Hcl. unfold pageheap_of.
    assert (wp (let span := ph_GetDescriptor (pageheap_of st) (Z.shiftr a kPageShift) in
      if span =? 0 then free_null_or_invalid a bad else
      s ← get_span span;
      let cl := sizeclass s in
      if cl =? 0 then
        _ ← liftM (check (a mod kPageSize =? 0));
        _ ← liftM (check (start s =? Z.shiftr a kPageShift));
        do_free_pages span a
      else
      _ ← (if negb use_hint then in_pageheap (ph_SetCachedSizeClass (Z.shiftr a kPageShift) cl) else mret tt);
      free_small sizemap others a cl) (fun _ st' => Rep (delete a B) st') st) as Hslow.
    { cbn zeta. unfold pageheap_of. rewrite (sa_desc _ _ _ _ _ _ _ Hs).
      destruct (desc_nonzero _ _ _ _ _ _ _ HM (sa_use _ _ _ _ _ _ _ Hs)) as [Hp _].
      destruct (Z.eqb_spec p 0); [done|]. apply wp_bind. eapply wp_span; [apply Hs|]. rewrite (sa_class _ _ _ _ _ _ _ Hs).
      destruct (Z.eqb_spec cl 0); [lia|]. apply wp_bind. destruct use_hint; cbn [negb].
      - apply wp_ret. by eapply wp_free_small.
      - eapply wp_SetCached_small; [done|apply HM|done|]. intros h HL.
        eapply (wp_free_small B u L K l st); [done|done|done|by apply MInv_heap|done]. }
    destruct use_hint; [exact Hslow|].
    destruct (sa_cache _ _ _ _ _ _ _ Hs) as [E | E]; rewrite E; [by eapply wp_free_small|exact Hslow].
  - pose proof (MInv_large _ _ _ _ _ _ _ _ _ HM Hp) as [Hu (Hp0 & H1 & H2) Hd Hc]. destruct (mi_span _ _ _ _ _ _ _ HM p s Hp) as [Hsc Hlen].
    rewrite first_page, Hc, Hd. assert ((if use_hint then None else @None Z) = None) as -> by by destruct use_hint.
    destruct (Z.eqb_spec p 0); [done|]. apply wp_bind. eapply wp_span; [apply Hu|]. rewrite Hsc. cbn [Z.eqb].
    apply wp_bind. eapply wp_lift; [apply check_true; rewrite Z.mod_mul by done; done|]. apply wp_bind.
    eapply wp_lift; [apply check_true, Z.eqb_refl|]. by eapply wp_do_free_pages.
Qed.

(** Freeing null does nothing. *)
Lemma wp_free_null st bad (Q : unit -> malloc -> Prop) u L K l : MInv u L K l st -> Q tt st ->
  wp (free_lookup sizemap others 0 bad false) Q st.
Proof using ObjectHeapLaws0.
  intros HM HQ. destruct (Layers_holds _ _ _ _ _ _ _ (mi_layers _ _ _ _ _ _ _ HM)) as (m0 & _ & (out & [_ HI _ _ _]) & _).
  destruct (ph_null _ (ci_wf _ _ _ HI)) as [Hd Hc]. unfold free_lookup. apply wp_bind, wp_get.
  change (Z.shiftr 0 kPageShift) with 0. cbn zeta. unfold pageheap_of. rewrite Hd, Hc. cbn [Z.eqb].
  unfold free_null_or_invalid. by apply wp_ret.
Qed.
End Free.
