(* ===== verification/MallocPaths.v ===== *)
(** * The paths to an allocation

    Out-of-memory handling, the slow and the fast path, aligned allocation:
    what each may end with, in terms of the blocks of MallocInv.v. *)
From S2P Require Import Prelude Common Sampler ThreadCache ThreadCacheSpec ThreadCacheLife PageMap PackedCache Span SysEnv PageHeap CentralFreeList CentralFreeListInv CentralFreeListSpec CentralCaches Malloc MallocInv MallocAlloc MallocFree.
Import SizeMap MA.

(** Rounding up to a power of two. *)
Lemma land_align x j : 0 <= x < 2 ^ 64 -> 0 <= j < 64 -> Z.land x (u64 (Z.lnot (u64 (2 ^ j - 1)))) = x / 2 ^ j * 2 ^ j.
Proof.
  intros Hx Hj. assert (0 < 2 ^ j) by (apply Z.pow_pos_nonneg; lia). assert (2 ^ j < 2 ^ 64) by (apply Z.pow_lt_mono_r; lia).
  rewrite (u64_small (2 ^ j - 1)) by lia. replace (2 ^ j - 1) with (Z.ones j) by (rewrite Z.ones_equiv; lia).
  apply Z.bits_inj'. intros i Hi. rewrite Z.land_spec. unfold u64. rewrite <- Z.land_ones, Z.land_spec, Z.lnot_spec, !Z.testbit_ones_nonneg by lia.
  destruct (Z.ltb_spec i j).
  - rewrite Z.mul_pow2_bits_low by lia. by rewrite andb_false_l, andb_false_r.
  - rewrite Z.mul_pow2_bits, Z.div_pow2_bits by lia. replace (i - j + j) with i by lia. cbn [negb andb].
    destruct (Z.ltb_spec i 64); [by rewrite andb_true_r|]. rewrite andb_false_r. symmetry.
    rewrite <- (Z.mod_small x (2 ^ 64)) by lia. apply Z.mod_pow2_bits_high. lia.
Qed.
Lemma align_size_up_spec size j : 0 <= size < 2 ^ 64 -> 0 <= j <= kPageShift ->
  let s' := align_size_up size (2 ^ j) in
  0 <= s' < 2 ^ 64 /\ (size <= s' /\ 0 < s' /\ s' mod 2 ^ j = 0 \/ s' = size /\ 2 ^ 63 < size).
Proof.
  intros Hs Hj. cbn zeta. unfold align_size_up. change kPageShift with 13 in Hj.
  assert (0 < 2 ^ j) as Hp by (apply Z.pow_pos_nonneg; lia). assert (2 ^ j <= 2 ^ 13) by (apply Z.pow_le_mono_r; lia).
  rewrite land_align by (lia || apply u64_range). remember (size + 2 ^ j - 1) as x eqn:Ex.
  destruct (Z.lt_ge_cases x (2 ^ 64)) as [Hlt|Hge].
  - rewrite u64_small by lia. pose proof (Z.div_mod x (2 ^ j) ltac:(lia)). pose proof (Z.mod_pos_bound x (2 ^ j) Hp).
    destruct (Z.eqb_spec (x / 2 ^ j * 2 ^ j) 0) as [E|E]; [destruct (Z.eqb_spec size 0); [|lia]|].
    + split; [lia|]. left. split; [lia|]. split; [lia|]. apply Z.mod_same. lia.
    + split; [lia|]. left. split; [lia|]. split; [lia|]. apply Z.mod_mul. lia.
  - rewrite (u64_eq x (x - 2 ^ 64)) by (exists 1; lia). rewrite u64_small, Z.div_small by lia.
    rewrite Z.mul_0_l, Z.eqb_refl. destruct (Z.eqb_spec size 0); [lia|]. split; [lia|]. right. split; [done|lia].
Qed.

Section Spec.
Context {H U : Type} `{!SpanHeap H} `{!SpanHeapLaws H} `{!ObjectHeap H} `{!ObjectHeapLaws H} {RS : Rest}.
Context (sizemap : SizeMap) (others : M (Central H) unit) (flag : Z) (draw : Z -> Z -> Z) (seed : Z).
Context (report_enabled : bool) (report_env : Z) (getpagesize : Z).
Abbreviation malloc := (Malloc H U).
Context (get_new_handler : U -> option (M malloc handled)) (patience : U -> nat).
Abbreviation ncl := (num_size_classes sizemap).
Abbreviation csize := (csize sizemap).
Abbreviation nallocx size := (tc_nallocx (H := H) sizemap size 0).
Abbreviation Rep := (Rep (H := H) (U := U) sizemap others).
Abbreviation alloc_post := (alloc_post (U := U) sizemap others).
Abbreviation do_malloc := (do_malloc (U := U) sizemap others flag draw seed report_enabled report_env).
Abbreviation handle_oom := (handle_oom get_new_handler patience).
Abbreviation malloc_fast_path :=
  (malloc_fast_path sizemap others flag draw seed report_enabled report_env get_new_handler patience).
Abbreviation tc_malloc := (tc_malloc sizemap others flag draw seed report_enabled report_env get_new_handler patience).
Implicit Types (st : malloc) (B : gmap Z Z).

Hypothesis others_stay : moves stay others.
Hypothesis Hsm : sizemap_ok (H := H) sizemap.
Hypothesis others_ok : forall mine priv c, Holds sizemap mine priv c -> wp others (fun _ c' => Holds sizemap mine priv c') c.
Hypothesis Hts : tc_sizemap_ok sizemap.
Hypothesis Hfo : front_ok (H := H) sizemap.

#[local] Instance lists_below : CentralCache (Central H) := central_lists sizemap others.
#[local] Instance laws_below L K : CentralCacheLaws sizemap (Keeps sizemap (large <$> L) K) :=
  central_cache_laws sizemap others others_stay Hsm others_ok _ _.

(** ** What the paths leave alone *)

Lemma front_threads {A} (m : M (Caches (Central H)) A) : moves (same front) (in_threads (U := U) m).
Proof using. intros st a st'. unfold in_threads. destruct (m (threads st)) as [[b t]|]; [|done]. by intros [= _ <-]. Qed.
Lemma front_pageheap {A} (m : M H A) : moves (same front) (in_pageheap (U := U) m).
Proof using. apply front_threads. Qed.
#[local] Hint Resolve front_threads front_pageheap : moves.
#[local] Hint Extern 1 (same front _ _) => reflexivity : moves.
Lemma front_Checked p : moves (same front) (CheckedMallocResult (H := H) (U := U) p).
Proof using. unfold CheckedMallocResult, CheckCachedSizeClass, get_span. moves. Qed.
#[local] Hint Resolve front_Checked : moves.
Lemma front_DoSampled size : moves (same front) (DoSampledAllocation (H := H) (U := U) size).
Proof using. unfold DoSampledAllocation, SpanToMallocResult, get_span. moves. Qed.
#[local] Hint Resolve front_DoSampled : moves.
Lemma front_do_malloc size : moves (same front) (do_malloc size).
Proof using.
  unfold Malloc.MA.do_malloc, do_malloc_pages, Grab, GetIfPresent, should_report_large, ReportLargeAlloc, SpanToMallocResult, get_span.
  moves.
Qed.
Lemma front_memalign_pages align size : moves (same front) (do_memalign_pages (H := H) (U := U) align size).
Proof using. unfold do_memalign_pages, SpanToMallocResult, get_span. moves. Qed.
Lemma front_do_free p bad use_hint hint : (forall q, moves (same front) (bad q)) ->
  moves (same front) (do_free_with_callback (U := U) sizemap others p bad use_hint hint).
Proof using.
  intros Hbad. unfold do_free_with_callback, free_lookup, ValidateSizeHint, free_small, free_null_or_invalid, GetIfPresent, do_free_pages, get_span.
  moves.
Qed.

Lemma wp_do_malloc_front B size st : Rep B st -> 0 <= size < 2 ^ 64 ->
  wp (do_malloc size) (fun r st' => alloc_post B size r st' /\ same front st st') st.
Proof using SpanHeapLaws0 ObjectHeapLaws0 others_stay Hsm others_ok Hts Hfo.
  intros HR Hs. apply wp_moves; [apply front_do_malloc|]. by apply wp_do_malloc.
Qed.

(** ** Out of memory *)

(** Handlers are the program's own code. They may allocate and free through
    the exported routines; [kept] says which blocks they leave alone. They
    end, and a handler that returns is asked again only finitely often. *)
Context (kept : gmap Z Z -> gmap Z Z -> Prop) `{!PreOrder kept}.
Definition handlers_ok : Prop := forall nh B st, get_new_handler (user st) = Some nh -> Rep B st ->
  wp nh (fun h st' => exists B', kept B B' /\ Rep B' st' /\
    (h = HReturn -> (patience (user st') < patience (user st))%nat)) st.

(** Without a handler to ask: the C routines, unless a mode was set. *)
Definition quiet (from_operator : bool) st : bool := negb from_operator && (tc_new_mode st =? 0).
(** What the caller sees of a call that asked no handler. *)
Definition rest st := (mem st, tc_new_mode st, new_hooks st, delete_hooks st, pagesize st, user st).

(** The handler that the program has installed in [s] runs and ends. *)
Definition asked s (h : handled) st' : Prop := exists nh, get_new_handler (user s) = Some nh /\ nh s = Ret (h, st').
(** From [st] to [st'] the handler was asked and returned any number of
    times; between these calls the program's own state stays. *)
Inductive rounds st : malloc -> Prop :=
  | rounds_none st' : same user st st' -> rounds st st'
  | rounds_more s s1 st' : rounds st s -> asked s HReturn s1 -> same user s1 st' -> rounds st st'.
(** No handler is left to ask, or the last one threw [bad_alloc]. *)
Definition gave_up st st' : Prop :=
  rounds st st' /\ get_new_handler (user st') = None \/ exists s s1, rounds st s /\ asked s HBadAlloc s1 /\ same user s1 st'.
(** How a call that may ask handlers ends: with a block, after the rounds it
    took; with null or [bad_alloc] when it gave up; or with what a handler
    threw. *)
Definition ended (nothrow : bool) st (r : result) st' : Prop :=
  match r with
  | Ptr p => if p =? 0 then nothrow = true /\ gave_up st st' else rounds st st'
  | Throw true => nothrow = false /\ gave_up st st'
  | Throw false => exists s s1, rounds st s /\ asked s HOther s1 /\ same user s1 st'
  end.

Lemma rounds_start st0 st s : same user st0 st -> rounds st s -> rounds st0 s.
Proof using. intros E. induction 1 as [|? ? ? ? IH]; [left; by transitivity st|by eright]. Qed.
Lemma rounds_end st s s' : rounds st s -> same user s s' -> rounds st s'.
Proof using. intros [] E; [left; by etransitivity|eright; [done|done|by etransitivity]]. Qed.
Lemma gave_up_end st s s' : gave_up st s -> same user s s' -> gave_up st s'.
Proof using.
  intros [[Hr Hn]|(a & b & ? & ? & ?)] E; [left|right].
  - split; [by eapply rounds_end|]. unfold same in E. by rewrite E.
  - exists a, b. do 2 (split; [done|]). by transitivity s.
Qed.
Lemma ended_start nt st0 st r s : same user st0 st -> ended nt st r s -> ended nt st0 r s.
Proof using.
  intros E. assert (gave_up st s -> gave_up st0 s) as Hg.
  { intros [[? ?]|(a & b & ? & ?)]; [left|right; exists a, b]; split; try done; by eapply rounds_start. }
  destruct r as [p|[]]; cbn.
  - destruct (p =? 0); [|by apply rounds_start]. intros [? ?]. auto.
  - intros [? ?]. auto.
  - intros (a & b & ? & ?). exists a, b. split; [by eapply rounds_start|done].
Qed.
Lemma ended_end nt st p s s' : ended nt st (Ptr p) s -> same user s s' -> ended nt st (Ptr p) s'.
Proof using.
  cbn. intros Hp E. destruct (p =? 0); [|by eapply rounds_end]. destruct Hp. split; [done|by eapply gave_up_end].
Qed.
(** What a call did, next to what is known of its result. *)
Lemma wp_runs {S A} (m : M S A) (Q : A -> S -> Prop) s : wp m Q s -> wp m (fun a s' => Q a s' /\ m s = Ret (a, s')) s.
Proof using. unfold wp. by destruct (m s) as [[a s']|]. Qed.

Definition result_post (post : gmap Z Z -> Z -> malloc -> Prop) (q nothrow : bool) B st (r : result) st' : Prop :=
  if q then exists p, r = Ptr p /\ post B p st' /\ same rest st st' /\ (p = 0 -> errno st' = ENOMEM)
  else exists B', kept B B' /\
    match r with Ptr p => post B' p st' | Throw _ => Rep B' st' end /\ ended nothrow st r st'.

Lemma rest_user st st' : same rest st st' -> same user st st'.
Proof using. unfold same, rest. congruence. Qed.
Lemma result_start post q nt B st0 st r st' : same rest st0 st -> result_post post q nt B st r st' -> result_post post q nt B st0 r st'.
Proof using.
  intros E. destruct q; [|intros (B' & HK & Hr & He); exists B'; do 2 (split; [done|]); eapply ended_start, He; by apply rest_user].
  intros (p & -> & ? & ? & ?). exists p. split; [done|]. split; [done|]. split; [by transitivity st|done].
Qed.
Lemma front_rest st st' : same front st st' -> same rest st st'.
Proof using. unfold same, front, rest. congruence. Qed.
Lemma front_errno st st' : same front st st' -> errno st' = errno st.
Proof using. unfold same, front. congruence. Qed.
(** The call returned a block. *)
Lemma result_block post q nt B st p st' : p <> 0 -> same rest st st' -> post B p st' -> result_post post q nt B st (Ptr p) st'.
Proof using PreOrder0.
  intros Hp E HP. destruct q; [by exists p|]. exists B. split; [done|]. split; [done|]. cbn. rewrite (proj2 (Z.eqb_neq p 0)) by done.
  left. by apply rest_user.
Qed.
(** The pointer of a result goes through steps that change neither the
    blocks nor what the caller sees. *)
Lemma wp_on_ptr post q nt B st0 r st (k : Z -> M malloc result) : result_post post q nt B st0 r st ->
  (forall B p, post B p st -> wp (k p) (fun r' st' => r' = Ptr p /\ post B p st' /\ same front st st') st) ->
  wp (on_ptr r k) (result_post post q nt B st0) st.
Proof using.
  intros Hr Hk. destruct q.
  - destruct Hr as (p & -> & HP & E & He). cbn [on_ptr]. eapply wp_mono; [by eapply Hk|]. intros r st' (-> & HP' & E').
    exists p. split; [done|]. split; [done|]. split; [transitivity st; [done|by apply front_rest]|].
    intros ->. rewrite (front_errno _ _ E'). auto.
  - destruct Hr as (B' & HK & Hr & He). destruct r as [p|b]; cbn [on_ptr]; [|apply wp_ret; by exists B'].
    eapply wp_mono; [eapply Hk, Hr|]. intros r st' (-> & HP' & E). exists B'. do 2 (split; [done|]).
    eapply ended_end; [done|]. by apply rest_user, front_rest.
Qed.

Lemma wp_oom_body (retry : M malloc Z) post B0 nt n st0 B st : Rep B st -> kept B0 B -> rounds st0 st -> (patience (user st) <= n)%nat -> handlers_ok ->
  (forall B st, Rep B st -> wp retry (post B) st) -> moves (same user) retry -> (forall B st, post B 0 st <-> Rep B st) ->
  wp (oom_body get_new_handler retry nt tt) (fun r s' => match r with
    | inl _ => exists n', n = S n' /\ (exists B', kept B0 B' /\ Rep B' s') /\ rounds st0 s' /\ (patience (user s') <= n')%nat
    | inr b => result_post post false nt B0 st0 b s' end) st.
Proof using PreOrder0.
  intros HR HK1 Hro Hn Hok Hretry Huser Hpost. unfold oom_body. apply wp_bind, wp_get. cbn zeta.
  destruct (get_new_handler (user st)) as [nh|] eqn:Enh.
  2: { apply wp_ret. exists B. split; [done|]. destruct nt; (split; [done || by apply Hpost|]); split; auto; by left. }
  apply wp_bind. eapply wp_mono; [by eapply wp_runs, Hok|]. cbn beta. intros h st3 [(B2 & HK2 & HR2 & Hp) Eh].
  assert (kept B0 B2) as HK by by transitivity B. assert (asked st h st3) as Ha by (by exists nh). destruct h.
  - apply wp_bind. eapply wp_mono; [eapply (wp_moves (same user)); [exact Huser|by eapply Hretry]|].
    cbn beta. intros rv st4 [Hpo Eu]. assert (rounds st0 st4) as Hro4 by by eright.
    destruct (Z.eqb_spec rv 0) as [->|Hne]; cbn [negb]; apply wp_ret.
    + assert (exists n', n = S n' /\ (patience (user st4) <= n')%nat) as (n' & -> & ?).
      { specialize (Hp eq_refl). unfold same in Eu. rewrite Eu. destruct n as [|n']; [lia|]. exists n'. split; [done|lia]. }
      exists n'. split; [done|]. split; [|done]. exists B2. split; [done|]. by apply Hpost.
    + exists B2. do 2 (split; [done|]). cbn. by rewrite (proj2 (Z.eqb_neq rv 0)).
  - apply wp_ret. exists B2. split; [done|]. destruct nt; (split; [done || by apply Hpost|]); (split; [done|]); right; by exists st, st3.
  - apply wp_ret. exists B2. do 2 (split; [done|]). by exists st, st3.
Qed.

Lemma wp_handle_oom (retry : M malloc Z) post B fo nt st : Rep B st -> fo = true \/ nt = true -> (quiet fo st = false -> handlers_ok) ->
  (forall B st, Rep B st -> wp retry (post B) st) -> moves (same user) retry ->
  (forall B st, post B 0 st <-> Rep B st) ->
  wp (handle_oom retry fo nt) (result_post post (quiet fo st) nt B st) st.
Proof using PreOrder0.
  intros HR Hfn Hok Hretry Huser Hpost. unfold Malloc.MA.handle_oom. apply wp_bind, wp_mod. set (st1 := with_errno _ st).
  assert (Rep B st1) as HR1 by (apply (Rep_core sizemap others B st); done). apply wp_bind, wp_get.
  change (negb fo && (tc_new_mode st1 =? 0)) with (quiet fo st). destruct (quiet fo st) eqn:E.
  { apply wp_ret. exists 0. split; [done|]. split; [by apply Hpost|]. done. }
  specialize (Hok eq_refl).
  eapply (loopM_count _ (fun n _ s => (exists B', kept B B' /\ Rep B' s) /\ rounds st s /\ (patience (user s) <= n)%nat));
    [|split; [by exists B|split; [by left|done]]|lia].
  intros n [] st2 ((B1 & HK1 & HR2) & Hro & Hn). by eapply wp_oom_body.
Qed.

Lemma front_user st st' : same front st st' -> same user st st'.
Proof using. unfold same, front. congruence. Qed.
Lemma moves_user {A} (m : M malloc A) : moves (same front) m -> moves (same user) m.
Proof using. intros Hm st a st' E. by eapply front_user, Hm. Qed.
Lemma quiet_rest fo st st' : same rest st st' -> quiet fo st' = quiet fo st.
Proof using. unfold same, rest, quiet. congruence. Qed.

Lemma post_null B size st : alloc_post B size 0 st <-> Rep B st.
Proof using. split; [intros [[_ ?]|[? _]]; done|]. by left. Qed.

(** A first attempt, and the handler when it fails. *)
Lemma wp_attempt (retry : M malloc Z) post B fo nt st : Rep B st -> fo = true \/ nt = true -> (quiet fo st = false -> handlers_ok) ->
  (forall B st, Rep B st -> wp retry (post B) st) -> moves (same front) retry -> (forall B st, post B 0 st <-> Rep B st) ->
  wp retry (fun p st1 => wp (if p =? 0 then handle_oom retry fo nt else mret (Ptr p)) (result_post post (quiet fo st) nt B st) st1) st.
Proof using PreOrder0.
  intros HR Hfn Hok Hretry Hfr Hpost. eapply wp_mono; [eapply (wp_moves (same front)); [exact Hfr|by eapply Hretry]|].
  cbn beta. intros p st1 [Hp E%front_rest]. destruct (Z.eqb_spec p 0) as [->|Hne]; [|apply wp_ret; by apply result_block].
  rewrite <- (quiet_rest fo st st1 E) in Hok |- *. eapply wp_mono; [apply (wp_handle_oom retry post); try done; [by apply Hpost|by apply moves_user]|].
  intros r st2. by apply result_start.
Qed.

(** ** The slow and the fast path *)

Lemma wp_Checked_post B size p st (Q : Z -> malloc -> Prop) : alloc_post B size p st -> Q p st ->
  wp (CheckedMallocResult p) Q st.
Proof using Hsm SpanHeapLaws0.
  intros [[-> (u & L & K & l & HM & _)]|(Hp & n & _ & _ & _ & _ & (u & L & K & l & HM & HB))] HQ.
  - eapply (wp_Checked _ _ Hsm _ _ _ _ _ _ 0); [exact HM|by left|done].
  - eapply (wp_Checked _ _ Hsm _ _ _ _ _ _ n); [exact HM|right; apply HB, lookup_insert_eq|done].
Qed.

Lemma core_NewHook p s st : wp (InvokeNewHook p s) (fun _ st' => same core st st' /\ same front st st') st.
Proof using. unfold InvokeNewHook. apply wp_bind, wp_get. destruct (new_hooks st); [by apply wp_mod|by apply wp_ret]. Qed.
Lemma core_DeleteHook p st : wp (InvokeDeleteHook p) (fun _ st' => same core st st' /\ same front st st') st.
Proof using. unfold InvokeDeleteHook. apply wp_bind, wp_get. destruct (delete_hooks st); [by apply wp_mod|by apply wp_ret]. Qed.

Lemma oom_kinds k : from_operator k = true \/ nothrow k = true.
Proof. destruct k; auto. Qed.

Lemma wp_do_allocate_full k B size st : Rep B st -> 0 <= size < 2 ^ 64 -> (quiet (from_operator k) st = false -> handlers_ok) ->
  wp (do_allocate_full sizemap others flag draw seed report_enabled report_env get_new_handler patience k size)
    (result_post (fun B => alloc_post B size) (quiet (from_operator k) st) (nothrow k) B st) st.
Proof using SpanHeapLaws0 ObjectHeapLaws0 others_stay Hsm others_ok Hts Hfo PreOrder0.
  intros HR Hs Hok. unfold do_allocate_full.
  apply wp_bind. eapply wp_mono; [apply (wp_attempt (do_malloc size) (fun B => alloc_post B size) B (from_operator k) (nothrow k));
    [done|apply oom_kinds|done|intros; by apply wp_do_malloc|apply front_do_malloc|intros; apply post_null]|].
  cbn beta. intros p st1 Hp. apply wp_bind. eapply wp_mono; [exact Hp|]. intros r st2 Hr. apply wp_on_ptr; [done|]. clear B st HR Hok p st1 Hp Hr. intros B p Hp.
  apply wp_bind. eapply wp_mono; [apply core_NewHook|]. cbn beta. intros [] st' [E Ef].
  apply (alloc_post_core _ _ _ _ _ _ _ E) in Hp. apply wp_bind. eapply wp_Checked_post; [exact Hp|]. by apply wp_ret.
Qed.

(** A block of a class is a block for every size of the class. *)
Lemma post_class B size cl p st : GetSizeClass sizemap size = Ret (Some cl) -> 1 <= cl < ncl -> 0 <= size <= csize cl ->
  alloc_post B (csize cl) p st -> alloc_post B size p st.
Proof using Hts Hfo.
  intros Hc Hcl Hle [?|(Hp & n & Hn & Hsn & Hf & Ha & HR)]; [by left|]. right. split; [done|]. exists n.
  rewrite (nallocx_small sizemap Hts (csize cl) cl) in Hn by (done || by apply (fo_fix _ Hfo)).
  rewrite (nallocx_small sizemap Hts size cl) by done. split; [done|]. split; [lia|]. split; [done|]. split; [|done].
  intros k Hk. apply Ha. pose proof (fo_align _ Hfo size cl k Hc ltac:(lia) Hk) as Hal. destruct Hk as [Hk _].
  split; [done|]. right. right. split; [|done]. destruct (ts_class _ Hts cl Hcl) as [[? _] _]. done.
Qed.
Lemma result_mono (post post' : gmap Z Z -> Z -> malloc -> Prop) q nt B st r st' : (forall B p, post B p st' -> post' B p st') ->
  result_post post q nt B st r st' -> result_post post' q nt B st r st'.
Proof using.
  intros Hp. destruct q; [intros (p & -> & ? & ?); exists p; eauto|]. intros (B' & HK & Hr & He). exists B'. split; [done|].
  split; [|done]. destruct r; [|done]. eauto.
Qed.

Lemma wp_malloc_fast_path k B size st : Rep B st -> 0 <= size < 2 ^ 64 -> (quiet (from_operator k) st = false -> handlers_ok) ->
  wp (malloc_fast_path k size) (result_post (fun B => alloc_post B size) (quiet (from_operator k) st) (nothrow k) B st) st.
Proof using SpanHeapLaws0 ObjectHeapLaws0 others_stay Hsm others_ok Hts Hfo PreOrder0.
  intros HR Hs Hok. pose proof (wp_do_allocate_full k B size st HR Hs Hok) as Hslow.
  unfold Malloc.MA.malloc_fast_path. apply wp_bind, wp_get. destruct (new_hooks st) eqn:Enh; [done|].
  unfold GetIfPresent. apply wp_bind, wp_bind, wp_get, wp_ret. destruct (Z.eqb_spec (tls st) 0) as [?|Ht]; [done|].
  destruct (Z.le_gt_cases size kMaxSize) as [Hle|Hgt]; [|apply wp_bind; eapply wp_lift; [apply (fo_large _ Hfo); lia|done]].
  destruct (fo_small _ Hfo size ltac:(lia)) as (cl & Hcl & Hr & Hsz). apply wp_bind. eapply wp_lift; [exact Hcl|].
  apply wp_bind. eapply wp_lift; [by apply class_bytes|]. clear Hslow.
  destruct HR as (u & L & K & l & HM & HB). destruct (mi_tls _ _ _ _ _ _ _ HM) as [?|Htl]; [done|].
  pose proof (elem_ne_nil _ _ Htl) as Hne. apply wp_bind, wp_in_threads. eapply wp_TryRecord; [apply HM|done|].
  intros ok ts HL. pose proof (MInv_threads _ _ _ _ _ _ _ _ _ HM HL Hne) as HM1. destruct ok; cbn [negb].
  2: { eapply wp_mono; [apply wp_do_allocate_full; [by eapply Rep_intro|done|exact Hok]|]. intros r st'. by apply result_start. }
  apply wp_bind, wp_in_threads. eapply (wp_Allocate sizemap (Keeps sizemap (large <$> L) K) Hts); [done|by eapply TU_any|done| |].
  - intros ts2 HL2. apply wp_ret. apply (TU_any _ _ _ _ 0) in HL2. cbn [Z.eqb].
    assert (Rep B (with_threads ts2 (with_threads ts st))) as HR2 by (eapply Rep_intro; [exact HB|]; by eapply MInv_threads).
    assert (0 < csize cl <= kMaxSize) as Hcs by apply (ts_class _ Hts cl Hr).
    change (bytes_of_class sizemap cl) with (csize cl). rewrite u64_small by clia.
    apply wp_bind. eapply wp_mono; [apply (wp_handle_oom _ (fun B => alloc_post B (csize cl))); [exact HR2|apply oom_kinds|exact Hok|intros; apply wp_do_malloc; try done; clia|
      apply moves_user, front_do_malloc|intros; apply post_null]|].
    intros r st3 Hr3. apply (result_start _ _ _ _ st) in Hr3; [|done].
    apply wp_on_ptr.
    + eapply result_mono; [|exact Hr3]. intros B' p. eapply post_class; [exact Hcl|done|lia].
    + intros B' p Hp. apply wp_bind. eapply wp_Checked_post; [exact Hp|]. by apply wp_ret.
  - intros x ts2 Hx HL2. apply (TU_any _ _ _ _ 0) in HL2. pose proof (MInv_threads _ _ _ _ _ _ _ _ ts2 HM1 HL2 Hne) as HM2.
    destruct (post_small sizemap others Hsm Hts Hfo B size u L K l (with_threads ts2 (with_threads ts st)) x cl Hcl Hr ltac:(lia) HB HM2 Hx) as [Hx0 Hpost].
    destruct (Z.eqb_spec x 0); [done|]. apply wp_bind, wp_ret. cbn [on_ptr]. apply wp_bind.
    eapply wp_Checked_post; [exact Hpost|]. apply wp_ret. by apply result_block.
Qed.

(** ** Aligned allocation *)

Definition aligned_post (align size : Z) B (r : Z) st' : Prop :=
  r = 0 /\ Rep B st' \/
  r <> 0 /\ exists n, size <= n /\ fresh B r n /\ r mod align = 0 /\ Rep (<[r := n]> B) st'.

Lemma aligned_null align size B st : aligned_post align size B 0 st <-> Rep B st.
Proof using. split; [intros [[_ ?]|[? _]]; done|]. by left. Qed.

Lemma pow2_pages j : kPageShift < j <= 63 -> pages (2 ^ j) = 2 ^ (j - 13) /\ 0 <= j - 13 <= 63.
Proof.
  intros Hj. change kPageShift with 13 in Hj. split; [|lia].
  assert (2 ^ j = 2 ^ (j - 13) * 2 ^ 13) as E by (rewrite <- Z.pow_add_r by lia; f_equal; lia).
  assert (0 < 2 ^ (j - 13)) by (apply Z.pow_pos_nonneg; lia).
  assert (2 ^ j < 2 ^ 64) by (apply Z.pow_lt_mono_r; lia).
  unfold pages. rewrite shiftr_div by clia. change (kPageSize - 1) with (2 ^ 13 - 1). rewrite land_ones_mod by lia.
  rewrite E, Z.mod_mul by done. change (2 ^ kPageShift) with (2 ^ 13). rewrite Z.div_mul by done. cbn.
  rewrite Z.add_0_r. apply u64_small. lia.
Qed.
Lemma pow2_check j : 0 <= j <= 63 -> Z.land (2 ^ j) (u64 (2 ^ j - 1)) = 0.
Proof.
  intros Hj. assert (0 < 2 ^ j) by (apply Z.pow_pos_nonneg; lia). assert (2 ^ j < 2 ^ 64) by (apply Z.pow_lt_mono_r; lia).
  rewrite u64_small by lia. rewrite land_ones_mod by lia. apply Z.mod_same. lia.
Qed.

Lemma wp_do_memalign_pages j B size st : Rep B st -> kPageShift < j <= 63 -> 0 <= size < 2 ^ 64 ->
  wp (do_memalign_pages (2 ^ j) size) (aligned_post (2 ^ j) size B) st.
Proof using SpanHeapLaws0 ObjectHeapLaws0 Hsm.
  intros (u & L & K & l & HM & HB) Hj Hs. unfold do_memalign_pages.
  assert (kPageSize < 2 ^ j) as Hbig by (change kPageSize with (2 ^ 13); apply Z.pow_lt_mono_r; clia).
  apply wp_bind. eapply wp_lift; [apply check_true; rewrite pow2_check by clia; done|].
  apply wp_bind. eapply wp_lift; [apply check_true; rewrite Z.gtb_ltb; by apply Z.ltb_lt|].
  destruct (_ <? size); [apply wp_ret; left; split; [done|by eapply Rep_intro]|]. fold (at_least_1 size).
  assert (0 < at_least_1 size < 2 ^ 64 /\ size <= at_least_1 size) as [Hs1 Hs2] by (unfold at_least_1; destruct (Z.eqb_spec size 0); lia).
  destruct (pow2_pages j Hj) as [-> Hj2]. destruct (pages_spec (at_least_1 size) ltac:(lia)) as [Hpg _].
  pose proof (pages_pos _ Hs1). apply wp_bind.
  eapply wp_large; [apply HM|intros h Hwf; by apply NewAligned_ok| |].
  { intros h HL. cbn [Z.eqb]. apply wp_ret. left. split; [done|]. eapply Rep_intro; [exact HB|]. by apply MInv_heap. }
  intros h p s Hp0 HpL HL Hlen Hle Hsc Hns Hal. destruct (Z.eqb_spec p 0); [done|].
  pose proof (MInv_new _ _ _ _ _ _ _ _ _ _ HM HL HpL Hsc ltac:(lia) Hns) as HM1.
  pose proof (MInv_large _ _ _ _ _ _ _ p s HM1 (lookup_insert_eq _ _ _)) as [_ (_ & ? & ?) _ _].
  assert (usable (H := H) sizemap (stack_size (with_heap h st)) s (Span.length_ s * kPageSize)) as Hus by (unfold usable; by rewrite Hns).
  eapply (wp_SpanToMallocResult sizemap others Hsm); [exact HM1|apply lookup_insert_eq|exact Hus|].
  right. split; [clia|]. exists (Span.length_ s * kPageSize). split; [clia|].
  destruct (Rep_new_large sizemap others Hsm B u L K (stack_size st) l (with_heap h st) p s (Span.length_ s * kPageSize)) as [Hf HR]; try done.
  split; [done|]. split; [|done].
  replace (2 ^ j) with (2 ^ (j - 13) * kPageSize) by (change kPageSize with (2 ^ 13); rewrite <- Z.pow_add_r by lia; f_equal; lia).
  rewrite Z.mul_mod_distr_r by (try apply Z.pow_nonzero; lia || done). by rewrite Hal.
Qed.

Lemma wp_memalign_pages j B size fo nt st : Rep B st -> kPageShift < j <= 63 -> 0 <= size < 2 ^ 64 -> fo = true \/ nt = true ->
  (quiet fo st = false -> handlers_ok) ->
  wp (memalign_pages get_new_handler patience (2 ^ j) size fo nt) (result_post (aligned_post (2 ^ j) size) (quiet fo st) nt B st) st.
Proof using SpanHeapLaws0 ObjectHeapLaws0 Hsm PreOrder0.
  intros HR Hj Hs Hfn Hok. unfold memalign_pages.
  apply wp_bind. eapply wp_mono; [apply (wp_attempt (do_memalign_pages (2 ^ j) size) (aligned_post (2 ^ j) size) B fo nt);
    [done|done|done|intros; by apply wp_do_memalign_pages|apply front_memalign_pages|intros; apply aligned_null]|].
  cbn beta. intros p st1 Hp. apply wp_bind. eapply wp_mono; [exact Hp|]. intros r st2 Hr. apply wp_on_ptr; [done|].
  clear B st HR Hok p st1 Hp Hr. intros B p Hp.
  apply wp_bind. eapply wp_mono; [apply core_NewHook|]. cbn beta. intros [] st' [E Ef]. apply wp_bind.
  assert (aligned_post (2 ^ j) size B p st') as Hp'.
  { destruct Hp as [[? HR]|(? & n & ? & ? & ? & HR)]; [left|right; split; [done|]; exists n]; split_and?; try done; by eapply Rep_core. }
  destruct Hp' as [[-> (u & L & K & l & HM & ?)]|(Hp0 & n & ? & ? & ? & HR)].
  - eapply (wp_Checked _ _ Hsm _ _ _ _ _ _ 0); [exact HM|by left|]. apply wp_ret. split; [done|]. split; [|done].
    left. split; [done|]. by eapply Rep_intro.
  - pose proof HR as (u & L & K & l & HM & HB).
    eapply (wp_Checked _ _ Hsm _ _ _ _ _ _ n); [exact HM|right; apply HB, lookup_insert_eq|]. apply wp_ret.
    split; [done|]. split; [|done]. right. split; [done|]. exists n. done.
Qed.

(** Blocks lie in the address space. *)
Lemma block_bound B a n st : Rep B st -> B !! a = Some n -> 0 < a /\ a + n < 2 ^ 49.
Proof using Hsm SpanHeapLaws0.
  intros (u & L & K & l & HM & HB) Ha. apply HB in Ha.
  destruct (block_home sizemap others Hsm _ _ _ _ _ _ _ HM Ha) as (p & s & Hu & ? & ? & ? & _).
  destruct (Layers_holds _ _ _ _ _ _ _ (mi_layers _ _ _ _ _ _ _ HM)) as (m0 & _ & (out & [_ HI _ _ _]) & _).
  destruct (ph_bounds _ _ _ (ci_wf _ _ _ HI) Hu) as (_ & ? & ?). clia.
Qed.

Lemma wp_memalign_fast_path k j B size st : Rep B st -> 0 <= size < 2 ^ 64 -> 0 <= j <= 63 ->
  (quiet (from_operator k) st = false -> handlers_ok) ->
  wp (memalign_fast_path sizemap others flag draw seed report_enabled report_env get_new_handler patience k (2 ^ j) size)
    (result_post (aligned_post (2 ^ j) size) (quiet (from_operator k) st) (nothrow k) B st) st.
Proof using SpanHeapLaws0 ObjectHeapLaws0 others_stay Hsm others_ok Hts Hfo PreOrder0.
  intros HR Hs Hj Hok. unfold memalign_fast_path. rewrite Z.gtb_ltb. destruct (Z.ltb_spec kPageSize (2 ^ j)) as [Hlt|Hge].
  - apply wp_memalign_pages; [done| |done|apply oom_kinds|done]. split; [|lia].
    change kPageSize with (2 ^ 13) in Hlt. by apply Z.pow_lt_mono_r_iff in Hlt; [|lia..].
  - assert (j <= kPageShift) as Hj2 by (change kPageSize with (2 ^ 13) in Hge; by apply Z.pow_le_mono_r_iff in Hge; [|lia..]).
    destruct (align_size_up_spec size j Hs ltac:(lia)) as [Hr Hc]. cbn zeta in *. set (s' := align_size_up size (2 ^ j)) in *.
    eapply wp_mono; [by apply wp_malloc_fast_path|]. intros r st'. apply result_mono. clear B st HR Hok r.
    intros B p [[-> HR]|(Hp & n & Hn & Hle & Hf & Ha & HR)]; [by left|]. right. split; [done|]. exists n.
    destruct Hc as [(Hle2 & Hpos & Hm)|[-> Hbig]].
    + split; [lia|]. split; [done|]. split; [|done]. apply Ha. split; [lia|]. by right; right.
    + destruct (block_bound _ _ _ _ HR (lookup_insert_eq _ _ _)). lia.
Qed.
End Spec.
