(* ===== verification/MallocSpec.v ===== *)
(** * The allocation entry points are correct

    What each exported routine returns and what it does to the blocks, the
    bytes and [errno], against the abstract heap of MallocInv.v. *)
From S2P Require Import Prelude Common Sampler ThreadCache ThreadCacheSpec ThreadCacheLife PageMap PackedCache Span SysEnv PageHeap CentralFreeList CentralFreeListInv CentralFreeListSpec CentralCaches Malloc MallocInv MallocAlloc MallocFree MallocPaths.
Import SizeMap MA.

(** ** Bytes *)

Lemma lookup_memset p v n m a : memset p v n m !! a = if decide (p <= a < p + n) then Some v else m !! a.
Proof.
  unfold memset. assert (forall l, foldr (fun i m => <[p + i := v]> m) m l !! a = if decide (a - p ∈ l) then Some v else m !! a) as Hl.
  { induction l as [|i l IH]; [done|]. cbn [foldr]. destruct (decide (a = p + i)) as [->|Hne].
    - rewrite lookup_insert_eq, decide_True; [done|]. replace (p + i - p) with i by lia. by left.
    - rewrite lookup_insert_ne, IH by done. destruct (decide (a - p ∈ l)) as [Hin|Hn].
      + rewrite decide_True; [done|by right].
      + rewrite decide_False; [done|]. intros [E|?]%elem_of_cons; [lia|done]. }
  rewrite Hl. destruct (decide (a - p ∈ seqZ 0 n)) as [Hin|Hn]; rewrite elem_of_seqZ in *.
  - by rewrite decide_True by lia.
  - by rewrite decide_False by lia.
Qed.
Lemma lookup_memcpy d s n m a : memcpy d s n m !! a = if decide (d <= a < d + n) then m !! (s + (a - d)) else m !! a.
Proof.
  unfold memcpy. assert (forall l, foldr (fun i m' => partial_alter (fun _ => m !! (s + i)) (d + i) m') m l !! a =
    if decide (a - d ∈ l) then m !! (s + (a - d)) else m !! a) as Hl.
  { induction l as [|i l IH]; [done|]. cbn [foldr]. destruct (decide (a = d + i)) as [->|Hne].
    - rewrite lookup_partial_alter_eq, decide_True; replace (d + i - d) with i by lia; [done|]. by left.
    - rewrite lookup_partial_alter_ne, IH by done. destruct (decide (a - d ∈ l)) as [Hin|Hn].
      + rewrite decide_True; [done|by right].
      + rewrite decide_False; [done|]. intros [E|?]%elem_of_cons; [lia|done]. }
  rewrite Hl. destruct (decide (a - d ∈ seqZ 0 n)) as [Hin|Hn]; rewrite elem_of_seqZ in *.
  - by rewrite decide_True by lia.
  - by rewrite decide_False by lia.
Qed.

Section Spec.
Context {H U : Type} `{!SpanHeap H} `{!SpanHeapLaws H} `{!ObjectHeap H} `{!ObjectHeapLaws H} {RS : Rest}.
Context (sizemap : SizeMap) (others : M (Central H) unit) (flag : Z) (draw : Z -> Z -> Z) (seed : Z).
Context (report_enabled : bool) (report_env : Z) (getpagesize : Z).
Abbreviation malloc := (Malloc H U).
Context (get_new_handler : U -> option (M malloc handled)) (patience : U -> nat).
Abbreviation nallocx size := (tc_nallocx (H := H) sizemap size 0).
Abbreviation Rep := (Rep (H := H) (U := U) sizemap others).
Abbreviation alloc_post := (alloc_post (U := U) sizemap others).
Abbreviation do_malloc := (do_malloc (U := U) sizemap others flag draw seed report_enabled report_env).
Abbreviation do_malloc_or_cpp_alloc :=
  (do_malloc_or_cpp_alloc sizemap others flag draw seed report_enabled report_env get_new_handler patience).
Abbreviation malloc_fast_path :=
  (malloc_fast_path sizemap others flag draw seed report_enabled report_env get_new_handler patience).
Abbreviation tc_malloc := (tc_malloc sizemap others flag draw seed report_enabled report_env get_new_handler patience).
Abbreviation tc_calloc := (tc_calloc sizemap others flag draw seed report_enabled report_env get_new_handler patience).
Abbreviation tc_realloc := (tc_realloc sizemap others flag draw seed report_enabled report_env get_new_handler patience).
Abbreviation tc_memalign := (tc_memalign sizemap others flag draw seed report_enabled report_env get_new_handler patience).
Abbreviation tc_posix_memalign := (tc_posix_memalign sizemap others flag draw seed report_enabled report_env get_new_handler patience).
Abbreviation tc_free := (tc_free (U := U) sizemap others).
Abbreviation tc_free_sized := (tc_free_sized (U := U) sizemap others).
Implicit Types (st : malloc) (B : gmap Z Z).

Hypothesis others_stay : moves stay others.
Hypothesis Hsm : sizemap_ok (H := H) sizemap.
Hypothesis others_ok : forall mine priv c, Holds sizemap mine priv c -> wp others (fun _ c' => Holds sizemap mine priv c') c.
Hypothesis Hts : tc_sizemap_ok sizemap.
Hypothesis Hfo : front_ok (H := H) sizemap.

(** The C view of an allocation: null with [ENOMEM], or a block; nothing
    the caller sees changes besides. *)
Definition c_post (post : gmap Z Z -> Z -> malloc -> Prop) B st (r : result) st' : Prop :=
  exists p, r = Ptr p /\ post B p st' /\ same rest st st' /\ (p = 0 -> errno st' = ENOMEM).

Lemma c_quiet st : tc_new_mode st = 0 -> quiet false st = true.
Proof using. unfold quiet. by intros ->. Qed.
Lemma loud_none st (P : Prop) : tc_new_mode st = 0 -> quiet false st = false -> P.
Proof using. intros E. by rewrite c_quiet. Qed.

Lemma wp_cpp_alloc B size st : Rep B st -> 0 <= size < 2 ^ 64 -> tc_new_mode st = 0 ->
  wp (do_malloc_or_cpp_alloc size) (c_post (fun B => alloc_post B size) B st) st.
Proof using SpanHeapLaws0 ObjectHeapLaws0 others_stay Hsm others_ok Hts Hfo.
  intros HR Hs Hm. unfold Malloc.MA.do_malloc_or_cpp_alloc. apply wp_bind.
  eapply wp_mono; [apply (wp_attempt sizemap others get_new_handler patience eq (do_malloc size) (fun B => alloc_post B size) B false true);
    [done|by right|by apply loud_none|intros; by apply wp_do_malloc|apply front_do_malloc|intros; apply post_null]|].
  cbn beta. rewrite (c_quiet _ Hm). intros p st1. by destruct (p =? 0).
Qed.
Lemma wp_tc_malloc B size st : Rep B st -> 0 <= size < 2 ^ 64 -> tc_new_mode st = 0 ->
  wp (tc_malloc size) (c_post (fun B => alloc_post B size) B st) st.
Proof using SpanHeapLaws0 ObjectHeapLaws0 others_stay Hsm others_ok Hts Hfo.
  intros HR Hs Hm. eapply wp_mono; [apply (wp_malloc_fast_path sizemap others flag draw seed report_enabled report_env get_new_handler patience
    others_stay Hsm others_ok Hts Hfo eq malloc_oom); [done|done|by apply loud_none]|].
  cbn [from_operator]. by rewrite (c_quiet _ Hm).
Qed.

(** What may be freed: null or a block. *)
Definition freeable B (p : Z) : Prop := p = 0 \/ is_Some (B !! p).

Lemma no_null_block B st : Rep B st -> B !! 0 = None.
Proof using Hsm SpanHeapLaws0.
  intros HR. destruct (B !! 0) as [n|] eqn:E; [|done]. destruct (block_bound sizemap others Hsm _ _ _ _ HR E). lia.
Qed.
Lemma wp_do_free B p st : Rep B st -> freeable B p ->
  wp (do_free sizemap others p) (fun _ st' => Rep (delete p B) st' /\ same front st st') st.
Proof using SpanHeapLaws0 ObjectHeapLaws0 others_stay Hsm others_ok Hts.
  intros HR Hp. apply wp_moves; [apply front_do_free; intros q; apply moves_lift; apply _|].
  destruct Hp as [->|[n Hp]]; [|by eapply wp_free_lookup].
  rewrite delete_id by by eapply no_null_block. pose proof HR as (u & L & K & l & HM & _). by eapply wp_free_null.
Qed.
Lemma wp_hooked_free B p st : Rep B st -> freeable B p ->
  wp (invoke_hooks_and_free sizemap others p) (fun _ st' => Rep (delete p B) st' /\ same front st st') st.
Proof using SpanHeapLaws0 ObjectHeapLaws0 others_stay Hsm others_ok Hts.
  intros HR Hp. unfold invoke_hooks_and_free. apply wp_bind. eapply wp_mono; [apply core_DeleteHook|]. cbn beta. intros [] st1 [E Ef].
  eapply wp_mono; [eapply wp_do_free; [by eapply Rep_core|done]|]. cbn beta. intros [] st2 [? ?]. split; [done|by transitivity st1].
Qed.
Lemma wp_tc_free B p st : Rep B st -> freeable B p ->
  wp (tc_free p) (fun _ st' => Rep (delete p B) st' /\ same front st st') st.
Proof using SpanHeapLaws0 ObjectHeapLaws0 others_stay Hsm others_ok Hts.
  intros HR Hp. unfold Malloc.MA.tc_free, free_fast_path. apply wp_bind, wp_get.
  destruct (delete_hooks st); [by eapply wp_hooked_free|by eapply wp_do_free].
Qed.

(** ** No leaks *)

(** Every object that is not free in its span is in a transfer cache, in a
    thread cache or a block of [B]; every span in use is a large block of
    [B] or on a central list with an object that is not free. *)
Definition accounted B st : Prop :=
  (forall cl c x, central_cache (central (threads st)) !! cl = Some c -> busy sizemap (pageheap_of st) cl c x ->
     x ∈ tc_objs c \/ (exists t, cached (threads st) t cl x) \/ B !! x = Some (csize sizemap cl)) /\
  (forall p s, ph_inuse (pageheap_of st) p s -> sizeclass s = 0 /\ is_Some (B !! (start s * kPageSize)) \/
     exists cl c, central_cache (central (threads st)) !! cl = Some c /\ p ∈ CentralFreeListInv.listed c /\ sizeclass s = cl /\ refcount s <> 0).

Lemma Rep_accounted B st : RS = nothing -> Rep B st -> accounted B st.
Proof using.
  clear others_ok. intros -> (u & L & K & l & HM & HB). pose proof (mi_layers _ _ _ _ _ _ _ HM) as (loc & Eu & HI).
  destruct (ti_holds _ _ _ _ _ _ _ _ HI) as [HH _]. apply Holds_nothing in HH as [HC Hsp]. split.
  - intros cl c x Hc Hb. destruct (ci_class _ _ _ HC cl (ci_dom _ _ _ HC cl c Hc)) as (c' & Hc' & HK). assert (c' = c) as -> by congruence.
    apply (k_busy _ _ _ _ _ HK) in Hb as [Hx|?]; [right|by left]. rewrite lookup_fmap in Hx.
    destruct (loc !! x) as [[[t|] k]|] eqn:El; cbn in Hx; [| |done]; injection Hx as ->.
    + left. exists t. by apply (ti_cached _ _ _ _ _ _ _ _ HI).
    + right. apply HB. left. exists cl. rewrite <- Eu. split; [by apply lookup_users|done].
  - intros p s Hp. destruct (Hsp p s Hp) as [[o Ho]|?]; [left|by right]. rewrite lookup_fmap in Ho.
    destruct (L !! p) as [t|] eqn:El; [|done]. destruct (mi_span _ _ _ _ _ _ _ HM p t El) as [Hc _].
    destruct (Layers_holds _ _ _ _ _ _ _ (mi_layers _ _ _ _ _ _ _ HM)) as (m & _ & HH & _).
    pose proof (pv_use _ _ _ (private_use _ _ _ _ _ _ HH El)) as [Hr _]. cbn in Hr. destruct Hp as [Hr' _]. unfold pageheap_of in Hr'. assert (t = s) as -> by congruence.
    split; [done|]. unfold is_Some. setoid_rewrite HB.
    destruct (sample s) eqn:Es.
    + destruct (mi_stack _ _ _ _ _ _ _ HM p s El Es) as (k & sz & n & ? & _ & ? & ? & _). exists n. right. exists p, s.
      split; [done|]. split; [done|]. unfold usable. rewrite Es. by exists k, sz.
    + eexists. right. exists p, s. split; [done|]. split; [done|]. unfold usable. by rewrite Es.
Qed.

(** ** Sized deallocation *)

(** The size of a block determines its class. *)
Lemma hint_class size n cl : 0 <= size < 2 ^ 64 -> nallocx size = Ret n -> 1 <= cl < num_size_classes sizemap ->
  n = csize sizemap cl -> size <= n -> GetSizeClass sizemap size = Ret (Some cl).
Proof using Hts Hfo.
  intros Hs Hn Hcl -> Hle. destruct (ts_class _ Hts cl Hcl) as [Hc _].
  destruct (fo_small _ Hfo size ltac:(change (bytes_of_class sizemap cl) with (csize sizemap cl) in Hc; lia)) as (c & Hc1 & Hr & _).
  rewrite (nallocx_small sizemap Hts size c Hc1 Hr) in Hn. injection Hn as Hn.
  pose proof (fo_fix _ Hfo c Hr) as F1. pose proof (fo_fix _ Hfo cl Hcl) as F2. rewrite Hn in F1. congruence.
Qed.

Lemma wp_tc_free_sized B p n size st : Rep B st -> B !! p = Some n -> 0 <= size < 2 ^ 64 -> nallocx size = Ret n -> size <= n ->
  wp (tc_free_sized p size) (fun _ st' => Rep (delete p B) st' /\ same front st st') st.
Proof using SpanHeapLaws0 ObjectHeapLaws0 others_stay Hsm others_ok Hts Hfo.
  intros HR Hp Hs Hn Hle. unfold Malloc.MA.tc_free_sized. apply wp_bind, wp_get.
  destruct (delete_hooks st) eqn:Eh; [apply wp_hooked_free; [done|right; by eexists]|].
  change (kPageSize - 1) with (2 ^ 13 - 1). rewrite land_ones_mod by lia. destruct (Z.eqb_spec (p mod 2 ^ 13) 0) as [?|Hna]; [apply wp_tc_free; [done|right; by eexists]|].
  apply wp_moves; [apply front_do_free; intros q; apply moves_lift; apply _|].
  pose proof HR as (u & L & K & l & HM & HB). pose proof Hp as [(cl & Ha & En)|(q & s & _ & -> & _)]%HB.
  2: { destruct Hna. change kPageSize with (2 ^ 13). by apply Z.mod_mul. }
  destruct (small_block sizemap others Hsm _ _ _ _ _ _ _ (mi_layers _ _ _ _ _ _ _ HM) Ha) as (q & s & Hsa).
  pose proof (hint_class size n cl Hs Hn (sa_range _ _ _ _ _ _ _ Hsa) En Hle) as Hcl.
  unfold do_free_with_callback. apply wp_bind. unfold ValidateSizeHint. apply wp_bind, wp_get. cbn zeta. unfold pageheap_of.
  rewrite (sa_desc _ _ _ _ _ _ _ Hsa). apply wp_bind. eapply wp_span; [apply Hsa|]. apply wp_bind. eapply wp_lift; [exact Hcl|]. apply wp_ret.
  apply wp_bind. eapply wp_lift; [apply check_true; cbn; apply Z.eqb_eq, Hsa|]. apply wp_bind. eapply wp_lift; [exact Hcl|].
  by eapply (wp_free_small sizemap others others_stay Hsm others_ok Hts B u L K l st).
Qed.

(** ** Clearing and moving blocks *)

Lemma Rep_mem B st v : Rep B st -> Rep B (with_mem v st).
Proof using. by apply Rep_core. Qed.

(** Bytes of the blocks of [B]. *)
Definition bytes_kept B st st' : Prop := forall a k i, B !! a = Some k -> 0 <= i < k -> mem st' !! (a + i) = mem st !! (a + i).

Lemma rest_mem st st' : same rest st st' -> mem st' = mem st.
Proof using. unfold same, rest. congruence. Qed.
Lemma rest_mode st st' : same rest st st' -> tc_new_mode st' = tc_new_mode st.
Proof using. unfold same, rest. congruence. Qed.
Lemma front_mem st st' : same front st st' -> mem st' = mem st.
Proof using. unfold same, front. congruence. Qed.

Lemma front_mode st st' : same front st st' -> tc_new_mode st' = tc_new_mode st.
Proof using. unfold same, front. congruence. Qed.

Lemma mul_exact n e : 0 <= n < 2 ^ 64 -> 0 <= e < 2 ^ 64 ->
  negb (e =? 0) && negb (u64 (n * e) / e =? n) = true <-> 2 ^ 64 <= n * e.
Proof using.
  intros Hn He. destruct (Z.eqb_spec e 0) as [->|Hne]; cbn [negb andb]; [split; [done|lia]|].
  split.
  - intros E%negb_true_iff%Z.eqb_neq. destruct (Z.lt_ge_cases (n * e) (2 ^ 64)); [|done].
    rewrite u64_small, Z.div_mul in E by nia. done.
  - intros Hge. apply negb_true_iff, Z.eqb_neq. intros E. pose proof (u64_range (n * e)).
    pose proof (Z.mul_div_le (u64 (n * e)) e ltac:(lia)). nia.
Qed.

Lemma wp_tc_calloc B n e st : Rep B st -> 0 <= n < 2 ^ 64 -> 0 <= e < 2 ^ 64 -> tc_new_mode st = 0 ->
  wp (tc_calloc n e) (fun r st' => exists p, r = Ptr p /\ tc_new_mode st' = tc_new_mode st /\
    (p = 0 /\ Rep B st' /\ mem st' = mem st \/
     n * e < 2 ^ 64 /\ alloc_post B (n * e) p st' /\ bytes_kept B st st' /\
       forall i, 0 <= i < n * e -> mem st' !! (p + i) = Some 0)) st.
Proof using SpanHeapLaws0 ObjectHeapLaws0 others_stay Hsm others_ok Hts Hfo.
  intros HR Hn He Hm. unfold Malloc.MA.tc_calloc, do_calloc. cbn zeta. apply wp_bind.
  eapply (wp_mono _ (fun r st' => exists p, r = Ptr p /\ tc_new_mode st' = tc_new_mode st /\
    (p = 0 /\ Rep B st' /\ mem st' = mem st \/ n * e < 2 ^ 64 /\ alloc_post B (n * e) p st' /\ bytes_kept B st st' /\
       forall i, 0 <= i < n * e -> mem st' !! (p + i) = Some 0))).
  - destruct (negb (e =? 0) && negb (u64 (n * e) / e =? n)) eqn:E; [apply wp_ret; exists 0; eauto 6|].
    assert (n * e < 2 ^ 64) as Hlt.
    { destruct (Z.lt_ge_cases (n * e) (2 ^ 64)) as [?|Hge]; [done|]. apply (mul_exact n e Hn He) in Hge. congruence. }
    rewrite u64_small by nia. apply wp_bind. eapply wp_mono; [apply wp_cpp_alloc; [done|nia|done]|].
    intros r st1 (p & -> & Hp & Hrest & _). cbn [on_ptr]. pose proof (rest_mem _ _ Hrest) as Emem.
    destruct (Z.eqb_spec p 0) as [->|Hp0]; cbn [negb]; apply wp_bind.
    + apply wp_ret, wp_ret. exists 0. split; [done|]. split; [by apply rest_mode|]. left. split; [done|]. split; [by eapply post_null|done].
    + destruct Hp as [[? _]|(_ & m & Hm1 & Hm2 & [Hf1 Hf2] & Ha & HR1)]; [done|]. apply wp_bind. eapply wp_lift; [exact Hm1|].
      apply wp_mod, wp_ret. exists p. split; [done|]. split; [by apply (rest_mode st st1)|]. right. split; [done|]. split; [|split].
      * right. split; [done|]. exists m. do 4 (split; [done|]). by apply Rep_mem.
      * intros a k i Hk Hi. cbn. rewrite lookup_memset. destruct (Hf2 a k Hk); rewrite decide_False by lia; by rewrite Emem.
      * intros i Hi. cbn. by rewrite lookup_memset, decide_True by lia.
  - intros r st1 (p & -> & Hmode & Hp). cbn [on_ptr]. apply wp_bind. eapply wp_mono; [apply core_NewHook|]. cbn beta.
    intros [] st2 [Ec Ef]. apply wp_ret. exists p. split; [done|].
    rewrite (front_mode _ _ Ef). split; [done|]. unfold bytes_kept in *. rewrite (front_mem _ _ Ef).
    destruct Hp as [(? & ? & ?)|(? & Hp & ? & ?)]; [left|right].
    + split; [done|]. split; [by eapply Rep_core|done].
    + split; [done|]. split; [by eapply alloc_post_core|done].
Qed.

(** The alignment of the basic types of a size. *)
Definition basic (size k : Z) : Prop := 0 <= k <= 3 \/ k = 4 /\ 16 <= size.
Lemma basic_wants size s k : size <= s -> basic size k -> wants s k.
Proof using. unfold basic, wants. change kPageShift with 13. lia. Qed.

Definition realloc_post (p n new_size : Z) B st (r : result) st' : Prop :=
  exists q, r = Ptr q /\ tc_new_mode st' = tc_new_mode st /\
   (q = 0 /\ Rep B st' /\ mem st' = mem st /\ errno st' = ENOMEM \/
    q = p /\ n / 2 <= new_size <= n /\ Rep B st' /\ mem st' = mem st \/
    q <> 0 /\ exists m, new_size <= m /\ fresh B q m /\ (forall k, basic new_size k -> q mod 2 ^ k = 0) /\
      Rep (<[q := m]> (delete p B)) st' /\
      (forall i, 0 <= i < Z.min n new_size -> mem st' !! (q + i) = mem st !! (p + i)) /\ bytes_kept B st st').

(** The copy into the new block, and the release of the old one. *)
Lemma wp_move_block B p n q m new_size st0 st : Rep (<[q := m]> B) st -> B !! p = Some n -> fresh B q m -> q <> 0 -> new_size <= m ->
  0 < new_size -> (forall k, basic new_size k -> q mod 2 ^ k = 0) -> mem st = mem st0 -> tc_new_mode st = tc_new_mode st0 ->
  wp (_ ← InvokeNewHook q new_size;
      _ ← modS (fun st => with_mem (memcpy q p (if n <? new_size then n else new_size) (mem st)) st);
      _ ← InvokeDeleteHook p;
      _ ← do_free_with_callback sizemap others p InvalidFree false 0;
      mret (Ptr q)) (realloc_post p n new_size B st0) st.
Proof using SpanHeapLaws0 ObjectHeapLaws0 others_stay Hsm others_ok Hts.
  intros HR Hp [Hf1 Hf2] Hq Hle Hs Hal Emem Emode. assert (q <> p) as Hne by congruence.
  apply wp_bind. eapply wp_mono; [apply core_NewHook|]. cbn beta. intros [] st1 [Ec1 Ef1]. apply wp_bind, wp_mod. cbn beta.
  set (st2 := with_mem _ st1). assert (Rep (<[q := m]> B) st2) as HR2 by (apply Rep_mem; by eapply Rep_core).
  apply wp_bind. eapply wp_mono; [apply core_DeleteHook|]. cbn beta. intros [] st3 [Ec3 Ef3].
  apply wp_bind. eapply wp_mono; [eapply (wp_do_free (<[q := m]> B) p); [by eapply Rep_core|right; exists n; by rewrite lookup_insert_ne]|].
  cbn beta. intros [] st4 [HR4 Ef4]. rewrite delete_insert_ne in HR4 by done. apply wp_ret. exists q. split; [done|].
  split; [rewrite (front_mode _ _ Ef4), (front_mode _ _ Ef3); unfold st2; cbn; by rewrite (front_mode _ _ Ef1)|]. right; right.
  split; [done|]. exists m. do 4 (split; [done|]).
  assert (mem st4 = memcpy q p (Z.min n new_size) (mem st0)) as E4.
  { rewrite (front_mem _ _ Ef4), (front_mem _ _ Ef3). unfold st2. cbn. rewrite (front_mem _ _ Ef1), Emem. f_equal.
    destruct (Z.ltb_spec n new_size); lia. }
  rewrite E4. split.
  - intros i Hi. rewrite lookup_memcpy, decide_True by lia. f_equal. lia.
  - intros a k i Ha Hi. rewrite E4, lookup_memcpy. destruct (Hf2 a k Ha); by rewrite decide_False by lia.
Qed.

Lemma wp_realloc_grow B p n new_size st0 st : Rep B st -> B !! p = Some n -> 0 < new_size < 2 ^ 64 -> tc_new_mode st = 0 -> mem st = mem st0 -> tc_new_mode st = tc_new_mode st0 ->
  wp (r ← do_malloc_or_cpp_alloc new_size;
      on_ptr r (fun new_ptr =>
        if new_ptr =? 0 then mret (Ptr 0) else
        _ ← InvokeNewHook new_ptr new_size;
        _ ← modS (fun st => with_mem (memcpy new_ptr p (if n <? new_size then n else new_size) (mem st)) st);
        _ ← InvokeDeleteHook p;
        _ ← do_free_with_callback sizemap others p InvalidFree false 0;
        mret (Ptr new_ptr))) (realloc_post p n new_size B st0) st.
Proof using SpanHeapLaws0 ObjectHeapLaws0 others_stay Hsm others_ok Hts Hfo.
  intros HR Hp Hs Hm Emem Emode. apply wp_bind. eapply wp_mono; [apply wp_cpp_alloc; [done|lia|done]|].
  intros r st1 (q & -> & Hq & Hrest & He). cbn [on_ptr]. pose proof (rest_mem _ _ Hrest) as E1.
  destruct (Z.eqb_spec q 0) as [->|Hq0].
  - apply wp_ret. exists 0. split; [done|]. split; [rewrite (rest_mode _ _ Hrest); done|].
    left. split; [done|]. split; [by eapply post_null|]. split; [congruence|by apply He].
  - destruct Hq as [[? _]|(_ & m & _ & Hle & Hf & Ha & HR1)]; [done|].
    eapply wp_move_block; try done; [lia|intros k Hk; by apply Ha, (basic_wants new_size)|congruence|rewrite (rest_mode _ _ Hrest); done].
Qed.

Lemma wp_tc_realloc B p n new_size st : Rep B st -> B !! p = Some n -> 0 < new_size < 2 ^ 64 -> tc_new_mode st = 0 ->
  wp (tc_realloc p new_size) (realloc_post p n new_size B st) st.
Proof using SpanHeapLaws0 ObjectHeapLaws0 others_stay Hsm others_ok Hts Hfo.
  intros HR Hp Hs Hm. destruct (block_bound sizemap others Hsm _ _ _ _ HR Hp) as [Hp0 Hpn].
  unfold Malloc.MA.tc_realloc. destruct (Z.eqb_spec p 0); [lia|]. destruct (Z.eqb_spec new_size 0); [lia|].
  unfold do_realloc_with_callback. apply wp_bind.
  pose proof HR as (u & L & K & l & HM & HB). eapply wp_GetSize; [done|done|exact HM|by apply HB|]. cbn zeta.
  destruct (Z.lt_ge_cases n 0) as [Hneg|Hn0].
  { exfalso. apply HB in Hp. pose proof (block_size sizemap others Hsm _ _ _ _ _ _ _ HM Hp). lia. }
  assert (n / 4 <= n) by (apply Z.div_le_upper_bound; lia). assert (0 <= n / 4) by (apply Z.div_pos; lia).
  rewrite Z.min_l by lia. rewrite u64_small by lia. rewrite !Z.gtb_ltb.
  destruct ((n <? new_size) || (new_size <? n / 2)) eqn:E.
  - pose proof (wp_realloc_grow B p n new_size st) as Hgrow. apply wp_bind.
    destruct ((n <? new_size) && (new_size <? n + n / 4)) eqn:E2.
    + apply andb_true_iff in E2 as [E2%Z.ltb_lt E3%Z.ltb_lt].
      eapply wp_mono; [apply wp_cpp_alloc; [done|lia|done]|]. intros r st1 (q & -> & Hq & Hrest & He). cbn [on_ptr].
      destruct (Z.eqb_spec q 0) as [->|Hq0].
      * apply Hgrow; [by eapply post_null|done|done|by rewrite (rest_mode _ _ Hrest)|by apply rest_mem|by apply rest_mode].
      * apply wp_bind, wp_ret. cbn [on_ptr]. destruct (Z.eqb_spec q 0); [done|].
        destruct Hq as [[? _]|(_ & m & _ & Hle & Hf & Ha & HR1)]; [done|].
        eapply wp_move_block; try done; [lia|lia|intros k Hk; apply Ha; eapply (basic_wants new_size); [lia|done]|by apply rest_mem|by apply rest_mode].
    + apply wp_ret. cbn [on_ptr Z.eqb]. by apply Hgrow.
  - apply orb_false_iff in E as [E1%Z.ltb_ge E2%Z.ltb_ge].
    apply wp_bind. eapply wp_mono; [apply core_DeleteHook|]. cbn beta. intros [] st1 [Ec1 Ef1].
    apply wp_bind. eapply wp_mono; [apply core_NewHook|]. cbn beta. intros [] st2 [Ec2 Ef2]. apply wp_ret.
    exists p. split; [done|]. split; [rewrite (front_mode _ _ Ef2); by apply front_mode|].
    right. left. split; [done|]. split; [lia|]. split.
    + eapply Rep_core; [|exact HR]. by transitivity st1.
    + rewrite (front_mem _ _ Ef2). by apply front_mem.
Qed.

(** [realloc] of null and to nothing. *)
Lemma wp_realloc_null B size st : Rep B st -> 0 <= size < 2 ^ 64 -> tc_new_mode st = 0 ->
  wp (tc_realloc 0 size) (c_post (fun B => alloc_post B size) B st) st.
Proof using SpanHeapLaws0 ObjectHeapLaws0 others_stay Hsm others_ok Hts Hfo.
  intros HR Hs Hm. unfold Malloc.MA.tc_realloc. cbn [Z.eqb]. apply wp_bind. eapply wp_mono; [by apply wp_cpp_alloc|].
  intros r st1 (p & -> & Hp & Hrest & He). cbn [on_ptr]. apply wp_bind. eapply wp_mono; [apply core_NewHook|]. cbn beta.
  intros [] st2 [Ec Ef]. apply wp_ret. exists p. split; [done|]. split; [by eapply alloc_post_core|].
  split; [transitivity st1; [done|by apply front_rest]|]. intros E. rewrite (front_errno _ _ Ef). auto.
Qed.
Lemma wp_realloc_zero B p st : Rep B st -> freeable B p -> p <> 0 ->
  wp (tc_realloc p 0) (fun r st' => r = Ptr 0 /\ Rep (delete p B) st' /\ same front st st') st.
Proof using SpanHeapLaws0 ObjectHeapLaws0 others_stay Hsm others_ok Hts.
  intros HR Hp Hp0. unfold Malloc.MA.tc_realloc. destruct (Z.eqb_spec p 0); [done|]. cbn [Z.eqb].
  apply wp_bind. eapply wp_mono; [apply core_DeleteHook|]. cbn beta. intros [] st1 [E Ef]. apply wp_bind.
  eapply wp_mono; [eapply wp_do_free; [by eapply Rep_core|done]|]. cbn beta. intros [] st2 [? ?]. apply wp_ret.
  split; [done|]. split; [done|by transitivity st1].
Qed.

(** ** Alignment requests *)

Lemma pow2_of_check a : 0 < a < 2 ^ 64 -> Z.land a (u64 (a - 1)) = 0 -> exists j, a = 2 ^ j /\ 0 <= j <= 63.
Proof using.
  intros Ha E. rewrite u64_small in E by lia. pose proof (Z.log2_spec a ltac:(lia)) as Hl. pose proof (Z.log2_nonneg a).
  exists (Z.log2 a). split.
  - destruct (Z.eq_dec a (2 ^ Z.log2 a)) as [?|Hne]; [done|]. exfalso.
    assert (Z.log2 (a - 1) = Z.log2 a) as E1 by (apply Z.log2_unique; lia).
    assert (Z.testbit (Z.land a (a - 1)) (Z.log2 a) = true) as Hb.
    { rewrite Z.land_spec, Z.bit_log2 by lia. rewrite <- E1 at 1. by rewrite Z.bit_log2 by lia. }
    rewrite E, Z.testbit_0_l in Hb. done.
  - split; [done|]. assert (Z.log2 a < 64); [|lia]. apply Z.log2_lt_pow2; lia.
Qed.

Lemma wp_tc_memalign j B size st : Rep B st -> 0 <= size < 2 ^ 64 -> 0 <= j <= 63 -> tc_new_mode st = 0 ->
  wp (tc_memalign (2 ^ j) size) (c_post (aligned_post (U := U) sizemap others (2 ^ j) size) B st) st.
Proof using SpanHeapLaws0 ObjectHeapLaws0 others_stay Hsm others_ok Hts Hfo.
  intros HR Hs Hj Hm. eapply wp_mono; [apply (wp_memalign_fast_path sizemap others flag draw seed report_enabled report_env get_new_handler patience
    others_stay Hsm others_ok Hts Hfo eq malloc_oom j); [done|done|done|by apply loud_none]|].
  cbn [from_operator]. by rewrite (c_quiet _ Hm).
Qed.

(** ** The allocator refines an abstract heap

    A client makes calls, choosing each by what the earlier ones returned.
    The abstract heap is a map from addresses to sizes and says which
    results are allowed. *)
Inductive call :=
  | CMalloc (size : Z)
  | CCalloc (n elem_size : Z)
  | CRealloc (p size : Z)
  | CMemalign (j size : Z)
  | CFree (p : Z)
  | CFreeSized (p size : Z).

Definition run (c : call) : M malloc result :=
  match c with
  | CMalloc size => tc_malloc size
  | CCalloc n e => tc_calloc n e
  | CRealloc p size => tc_realloc p size
  | CMemalign j size => tc_memalign (2 ^ j) size
  | CFree p => _ ← tc_free p; mret (Ptr 0)
  | CFreeSized p size => _ ← tc_free_sized p size; mret (Ptr 0)
  end.

(** The calls a correct client may make. *)
Definition legal B (c : call) : Prop :=
  match c with
  | CMalloc size => 0 <= size < 2 ^ 64
  | CCalloc n e => 0 <= n < 2 ^ 64 /\ 0 <= e < 2 ^ 64
  | CRealloc p size => freeable B p /\ 0 <= size < 2 ^ 64
  | CMemalign j size => 0 <= j <= 63 /\ 0 <= size < 2 ^ 64
  | CFree p => freeable B p
  | CFreeSized p size => 0 <= size < 2 ^ 64 /\ exists n, B !! p = Some n /\ nallocx size = Ret n /\ size <= n
  end.

Inductive heap_step B : call -> result -> gmap Z Z -> Prop :=
  | hs_null c : match c with CFree _ | CFreeSized _ _ => False | CRealloc p size => p = 0 \/ 0 < size | _ => True end ->
      heap_step B c (Ptr 0) B
  | hs_malloc size p n : p <> 0 -> nallocx size = Ret n -> size <= n -> fresh B p n ->
      (forall k, wants size k -> p mod 2 ^ k = 0) -> heap_step B (CMalloc size) (Ptr p) (<[p := n]> B)
  | hs_calloc m e p n : p <> 0 -> m * e < 2 ^ 64 -> nallocx (m * e) = Ret n -> m * e <= n -> fresh B p n ->
      (forall k, wants (m * e) k -> p mod 2 ^ k = 0) -> heap_step B (CCalloc m e) (Ptr p) (<[p := n]> B)
  | hs_new size p n : p <> 0 -> nallocx size = Ret n -> size <= n -> fresh B p n ->
      (forall k, wants size k -> p mod 2 ^ k = 0) -> heap_step B (CRealloc 0 size) (Ptr p) (<[p := n]> B)
  | hs_drop p : p <> 0 -> heap_step B (CRealloc p 0) (Ptr 0) (delete p B)
  | hs_stay p n size : B !! p = Some n -> n / 2 <= size <= n -> heap_step B (CRealloc p size) (Ptr p) B
  | hs_move p q n size : q <> 0 -> size <= n -> fresh B q n -> (forall k, basic size k -> q mod 2 ^ k = 0) ->
      heap_step B (CRealloc p size) (Ptr q) (<[q := n]> (delete p B))
  | hs_memalign j size p n : p <> 0 -> size <= n -> fresh B p n -> p mod 2 ^ j = 0 ->
      heap_step B (CMemalign j size) (Ptr p) (<[p := n]> B)
  | hs_free p : heap_step B (CFree p) (Ptr 0) (delete p B)
  | hs_free_sized p size : heap_step B (CFreeSized p size) (Ptr 0) (delete p B).

Fixpoint drive (n : nat) (client : list result -> call) (hist : list result) : M malloc (list result) :=
  match n with
  | O => mret hist
  | S n => r ← run (client hist); drive n client (hist ++ [r])
  end.

Inductive reach (client : list result -> call) : list result -> gmap Z Z -> Prop :=
  | reach_nil : reach client [] ∅
  | reach_step hist B r B' : reach client hist B -> heap_step B (client hist) r B' -> reach client (hist ++ [r]) B'.

Lemma wp_run B c st : Rep B st -> tc_new_mode st = 0 -> legal B c ->
  wp (run c) (fun r st' => tc_new_mode st' = 0 /\ exists B', heap_step B c r B' /\ Rep B' st') st.
Proof using SpanHeapLaws0 ObjectHeapLaws0 others_stay Hsm others_ok Hts Hfo.
  intros HR Hm Hl. destruct c as [size|n e|p size|j size|p|p size]; cbn [run legal] in *.
  - eapply wp_mono; [by apply wp_tc_malloc|]. intros r st' (p & -> & [[-> HR']|(? & n & ? & ? & ? & ? & HR')] & Hr & _);
    (split; [by rewrite (rest_mode _ _ Hr)|]).
    + exists B. split; [by constructor|done].
    + eexists. split; [by econstructor|done].
  - destruct Hl. eapply wp_mono; [by apply wp_tc_calloc|].
    intros r st' (p & -> & Hmd & [(-> & HR' & _)|(? & [[-> HR']|(? & m & ? & ? & ? & ? & HR')] & _ & _)]); (split; [by rewrite Hmd|]).
    + exists B. split; [by constructor|done].
    + exists B. split; [by constructor|done].
    + eexists. split; [by econstructor|done].
  - destruct Hl as [Hfp Hs]. destruct (Z.eq_dec p 0) as [->|Hp0].
    { eapply wp_mono; [by apply wp_realloc_null|]. intros r st' (p & -> & [[-> HR']|(? & n & ? & ? & ? & ? & HR')] & Hr & _);
        (split; [by rewrite (rest_mode _ _ Hr)|]).
      - exists B. split; [constructor; by left|done].
      - eexists. split; [by constructor|done]. }
    destruct (Z.eq_dec size 0) as [->|Hs0].
    { eapply wp_mono; [by apply wp_realloc_zero|]. cbn beta. intros r st' (-> & HR' & Hf). split; [by rewrite (front_mode _ _ Hf)|].
      eexists. split; [by apply hs_drop|done]. }
    destruct Hfp as [?|[n Hp]]; [done|]. eapply wp_mono; [eapply wp_tc_realloc; [done|done|lia|done]|].
    intros r st' (q & -> & Hmd & [(-> & HR' & _)|[(-> & ? & HR' & _)|(? & m & ? & ? & ? & HR' & _)]]); (split; [by rewrite Hmd|]).
    + exists B. split; [constructor; right; lia|done].
    + exists B. split; [by econstructor|done].
    + eexists. split; [by econstructor|done].
  - destruct Hl. eapply wp_mono; [by apply wp_tc_memalign|]. intros r st' (p & -> & [[-> HR']|(? & n & ? & ? & ? & HR')] & Hr & _);
    (split; [by rewrite (rest_mode _ _ Hr)|]).
    + exists B. split; [by constructor|done].
    + eexists. split; [by econstructor|done].
  - apply wp_bind. eapply wp_mono; [by eapply wp_tc_free|]. cbn beta. intros [] st' [HR' Hf]. apply wp_ret.
    split; [by rewrite (front_mode _ _ Hf)|]. eexists. split; [by constructor|done].
  - destruct Hl as (? & n & ? & ? & ?). apply wp_bind. eapply wp_mono; [by eapply wp_tc_free_sized|]. cbn beta. intros [] st' [HR' Hf].
    apply wp_ret. split; [by rewrite (front_mode _ _ Hf)|]. eexists. split; [by constructor|done].
Qed.

Lemma wp_drive n client : forall hist B st, reach client hist B -> Rep B st -> tc_new_mode st = 0 ->
  (forall hist B, reach client hist B -> legal B (client hist)) ->
  wp (drive n client hist) (fun hist' st' => length hist' = (length hist + n)%nat /\ exists B', reach client hist' B' /\ Rep B' st') st.
Proof using SpanHeapLaws0 ObjectHeapLaws0 others_stay Hsm others_ok Hts Hfo.
  induction n as [|n IH]; intros hist B st Hre HR Hm Hok; cbn [drive].
  - apply wp_ret. split; [lia|]. by exists B.
  - apply wp_bind. eapply wp_mono; [eapply wp_run; [done|done|by apply Hok]|]. intros r st1 (Hm1 & B1 & Hst & HR1).
    eapply wp_mono; [eapply (IH _ B1); [by econstructor|done|done|done]|]. cbn beta. rewrite length_app. cbn [length].
    intros hist' st' [E ?]. split; [lia|done].
Qed.

(** ** Theorems *)

(** C2: [malloc]. The result is null, with [ENOMEM], the blocks as they
    were; or a block that overlaps no other, aligned for every type of that
    size, whose usable size is exactly what [nallocx] says and at least the
    request. Whatever path served it (thread cache, central list, page heap,
    sampled allocation), bytes and settings are untouched. *)
Theorem tc_malloc_correct B size st (HR : Rep B st) (Hs : 0 <= size < 2 ^ 64) (Hmode : tc_new_mode st = 0) :
  wp (tc_malloc size) (fun r st' => exists p, r = Ptr p /\ same rest st st' /\
    (p = 0 /\ Rep B st' /\ errno st' = ENOMEM \/
     p <> 0 /\ exists n, nallocx size = Ret n /\ size <= n /\ fresh B p n /\
       (forall k, wants size k -> p mod 2 ^ k = 0) /\ Rep (<[p := n]> B) st')) st.
Proof using SpanHeapLaws0 ObjectHeapLaws0 others_stay Hsm others_ok Hts Hfo.
  eapply wp_mono; [by apply wp_tc_malloc|]. intros r st' (p & -> & [[-> HR']|Hp] & ? & He); exists p || exists 0;
    (split; [done|]); (split; [done|]); [left|by right]. split; [done|]. split; [done|by apply He].
Qed.

(** C3: [free] of null does nothing, and [free] of a block the program
    holds takes exactly that block back: the size class comes from the cache
    or from the span, small objects go to the thread cache or the central
    list, large ones and sampled ones with their stack trace to the page
    heap. Nothing is lost on the way: what is then out is what was out
    without the block, and what other threads know of their own objects and
    spans holds of the remainder; when they have none, every object that is
    not free is in a cache or one of the remaining blocks, and every span in
    use is one of these or serves a central list. The consistency checks on
    the way hold, and all other blocks and their bytes stay. *)
Theorem tc_free_correct B p st (HR : Rep B st) (Hp : freeable B p) :
  wp (tc_free p) (fun _ st' => Rep (delete p B) st' /\ mem st' = mem st /\ (RS = nothing -> accounted (delete p B) st')) st.
Proof using SpanHeapLaws0 ObjectHeapLaws0 others_stay Hsm others_ok Hts.
  eapply wp_mono; [by eapply wp_tc_free|]. cbn beta. intros [] st' [? ?%front_mem]. do 2 (split; [done|]). intros. by apply Rep_accounted.
Qed.

(** C24: sized [free] with a size hint that [nallocx] rounds to the usable
    size of the block, such as the size the block was allocated with, takes
    the block back like [free], with nothing lost: the class computed from
    the hint is the class of the block's span (the debug build's
    [ValidateSizeHint] holds), also for sampled and large blocks, for which
    the hint is not trusted. *)
Theorem tc_free_sized_correct B p n size st (HR : Rep B st) (Hp : B !! p = Some n) (Hs : 0 <= size < 2 ^ 64)
    (Hn : nallocx size = Ret n) (Hle : size <= n) :
  wp (tc_free_sized p size) (fun _ st' => Rep (delete p B) st' /\ mem st' = mem st /\ (RS = nothing -> accounted (delete p B) st')) st.
Proof using SpanHeapLaws0 ObjectHeapLaws0 others_stay Hsm others_ok Hts Hfo.
  eapply wp_mono; [by eapply wp_tc_free_sized|]. cbn beta. intros [] st' [? ?%front_mem]. do 2 (split; [done|]). intros. by apply Rep_accounted.
Qed.

(** [malloc_size] finds a block's usable size again from its address
    alone, for small, large and sampled blocks, and changes nothing. *)
Theorem tc_malloc_size_correct B p n st (HR : Rep B st) (Hp : B !! p = Some n) :
  wp (tc_malloc_size sizemap p) (fun r st' => r = n /\ st' = st) st.
Proof using SpanHeapLaws0 Hsm Hts.
  destruct HR as (u & L & K & l & HM & HB). apply HB in Hp.
  unfold tc_malloc_size, GetAllocatedSize. destruct (Z.eqb_spec p 0) as [->|_].
  - by destruct (block_nonzero sizemap others Hsm _ _ _ _ _ _ _ HM Hp).
  - by eapply (wp_GetSize sizemap others Hsm Hts).
Qed.

(** C4: [realloc] of a block. Either null with [ENOMEM], the old block and
    all bytes intact; or the same block, when the request fits and is at
    least half of it; or a new block, fresh, large enough and aligned for the
    basic types, whose first bytes, up to the smaller of the old size and the request, are the old
    block's, which is freed; all bytes of other blocks stay. *)
Theorem tc_realloc_correct B p n new_size st (HR : Rep B st) (Hp : B !! p = Some n) (Hs : 0 < new_size < 2 ^ 64)
    (Hmode : tc_new_mode st = 0) : wp (tc_realloc p new_size) (realloc_post p n new_size B st) st.
Proof using SpanHeapLaws0 ObjectHeapLaws0 others_stay Hsm others_ok Hts Hfo. by apply wp_tc_realloc. Qed.

(** C5: [calloc]. When the product does not fit in 64 bits the result is
    null and nothing changes; otherwise null, or a fresh block whose
    requested bytes are all zero, the bytes of all other blocks kept. *)
Theorem tc_calloc_correct B n e st (HR : Rep B st) (Hn : 0 <= n < 2 ^ 64) (He : 0 <= e < 2 ^ 64) (Hmode : tc_new_mode st = 0) :
  wp (tc_calloc n e) (fun r st' => exists p, r = Ptr p /\
    (p = 0 /\ Rep B st' /\ mem st' = mem st \/
     n * e < 2 ^ 64 /\ alloc_post B (n * e) p st' /\ bytes_kept B st st' /\
       forall i, 0 <= i < n * e -> mem st' !! (p + i) = Some 0)) st.
Proof using SpanHeapLaws0 ObjectHeapLaws0 others_stay Hsm others_ok Hts Hfo.
  eapply wp_mono; [by apply wp_tc_calloc|]. intros r st' (p & ? & _ & ?). by exists p.
Qed.

(** C6: [posix_memalign]. An alignment that is not a power of two and a
    multiple of the pointer size is [EINVAL] and changes nothing. Otherwise
    the call returns [ENOMEM] and changes no block, or stores a fresh block
    with the alignment, from 8 bytes to 2^63. *)
Theorem tc_posix_memalign_correct B align size st (HR : Rep B st) (Ha : 0 <= align < 2 ^ 64) (Hs : 0 <= size < 2 ^ 64)
    (Hmode : tc_new_mode st = 0) :
  wp (tc_posix_memalign align size) (fun r st' =>
    r = inl (EINVAL, None) /\ st' = st /\ ~ (exists j, 3 <= j <= 63 /\ align = 2 ^ j) \/
    (exists j, 3 <= j <= 63 /\ align = 2 ^ j) /\
      (r = inl (ENOMEM, None) /\ Rep B st' /\ errno st' = ENOMEM \/
       exists p n, r = inl (0, Some p) /\ p <> 0 /\ size <= n /\ fresh B p n /\ p mod align = 0 /\ Rep (<[p := n]> B) st')) st.
Proof using SpanHeapLaws0 ObjectHeapLaws0 others_stay Hsm others_ok Hts Hfo.
  unfold Malloc.MA.tc_posix_memalign. destruct (negb (align mod 8 =? 0) || negb (Z.land align (u64 (align - 1)) =? 0) || (align =? 0)) eqn:E.
  - apply wp_ret. left. split; [done|]. split; [done|]. intros (j & Hj & ->). rewrite pow2_check in E by lia.
    change 8 with (2 ^ 3) in E. replace (2 ^ j) with (2 ^ (j - 3) * 2 ^ 3) in E by (rewrite <- Z.pow_add_r by lia; f_equal; lia).
    rewrite Z.mod_mul in E by done. cbn in E. apply Z.eqb_eq in E. pose proof (Z.pow_pos_nonneg 2 (j - 3)). lia.
  - rewrite !orb_false_iff, !negb_false_iff, !Z.eqb_eq, Z.eqb_neq in E. destruct E as [[E1 E2] E3].
    destruct (pow2_of_check align ltac:(lia) E2) as (j & -> & Hj).
    assert (3 <= j) as Hj3.
    { destruct (Z.le_gt_cases 3 j) as [?|Hlt]; [done|]. assert (2 ^ j < 2 ^ 3) by (apply Z.pow_lt_mono_r; lia).
      assert (0 < 2 ^ j) by (apply Z.pow_pos_nonneg; lia). rewrite Z.mod_small in E1 by lia. lia. }
    apply wp_bind. eapply wp_mono; [by apply wp_tc_memalign|]. intros r st' (p & -> & Hp & _ & He). apply wp_ret. right.
    split; [exists j; split; [lia|done]|]. destruct Hp as [[-> HR']|(Hp0 & n & ? & ? & ? & ?)]; [left; auto|].
    right. destruct (Z.eqb_spec p 0); [done|]. by exists p, n.
Qed.

(** The blocks of a represented heap never overlap, lie in the
    non-null part of the 49-bit address space, and have a size that is not
    negative. *)
Theorem blocks_disjoint B a b n m st (HR : Rep B st) (Ha : B !! a = Some n) (Hb : B !! b = Some m) (Hne : a <> b) :
  apart a n b m /\ 0 < a /\ 0 <= n /\ a + n < 2 ^ 49.
Proof using SpanHeapLaws0 Hsm.
  destruct (block_bound sizemap others Hsm _ _ _ _ HR Ha). pose proof HR as (u & L & K & l & HM & HB). apply HB in Ha, Hb.
  split; [by eapply (block_apart sizemap others Hsm u L)|]. pose proof (block_size sizemap others Hsm _ _ _ _ _ _ _ HM Ha). done.
Qed.

(** ** Page-granular requests *)

Abbreviation tc_pvalloc := (tc_pvalloc sizemap others flag draw seed report_enabled report_env getpagesize get_new_handler patience).

(** What [pvalloc] asks for. *)
Lemma wp_pagesize j B st (Q : Z -> malloc -> Prop) : getpagesize = 2 ^ j -> (pagesize st = 0 \/ pagesize st = getpagesize) -> 0 < 2 ^ j ->
  Rep B st -> (forall st', Rep B st' -> mem st' = mem st -> tc_new_mode st' = tc_new_mode st -> Q (2 ^ j) st') ->
  wp (system_pagesize getpagesize) Q st.
Proof using.
  intros Ej Hp Hpos HR HQ. unfold system_pagesize. apply wp_bind, wp_get. rewrite Ej in *.
  destruct Hp as [-> | ->]; [|rewrite (proj2 (Z.eqb_neq _ _)) by lia; apply wp_ret; by apply HQ].
  cbn [Z.eqb]. apply wp_bind, wp_mod, wp_ret. apply HQ; [|done|done]. eapply Rep_core; [|exact HR]. done.
Qed.

(** [pvalloc] below the last page of the address space. It asks for
    whole system pages, one for a request of 0, and returns null with
    [ENOMEM], or a fresh block that starts at a system page and has room for
    the request rounded up. *)
Theorem tc_pvalloc_correct j B size st (HR : Rep B st) (Hj : 0 <= j <= 63) (Hpage : getpagesize = 2 ^ j)
    (Hcached : pagesize st = 0 \/ pagesize st = getpagesize) (Hs : 0 <= size <= 2 ^ 64 - 2 ^ j) (Hmode : tc_new_mode st = 0) :
  wp (tc_pvalloc size) (fun r st' => exists p, r = Ptr p /\ mem st' = mem st /\
    (p = 0 /\ Rep B st' /\ errno st' = ENOMEM \/
     p <> 0 /\ p mod 2 ^ j = 0 /\ exists n k, k * 2 ^ j <= n /\ size <= k * 2 ^ j < Z.max 1 size + 2 ^ j /\ 1 <= k /\
       fresh B p n /\ Rep (<[p := n]> B) st')) st.
Proof using SpanHeapLaws0 ObjectHeapLaws0 others_stay Hsm others_ok Hts Hfo.
  assert (0 < 2 ^ j) as Hpos by (apply Z.pow_pos_nonneg; lia). assert (2 ^ j <= 2 ^ 63) by (apply Z.pow_le_mono_r; lia).
  unfold Malloc.MA.tc_pvalloc. apply wp_bind. eapply wp_pagesize; [done|done|done|exact HR|]. intros st1 HR1 Emem Emode. cbn zeta.
  set (s1 := if size =? 0 then 2 ^ j else size).
  assert (0 < s1 /\ size <= s1 /\ s1 + 2 ^ j - 1 < 2 ^ 64 /\ (size = 0 /\ s1 = 2 ^ j \/ 0 < size /\ s1 = size)) as (Hs1 & Hs2 & Hs3 & Hs4)
    by (unfold s1; destruct (Z.eqb_spec size 0); lia).
  rewrite land_align, (u64_small (s1 + 2 ^ j - 1)) by (apply u64_range || lia). set (k := (s1 + 2 ^ j - 1) / 2 ^ j).
  pose proof (Z.div_mod (s1 + 2 ^ j - 1) (2 ^ j) ltac:(lia)) as Hdm. pose proof (Z.mod_pos_bound (s1 + 2 ^ j - 1) (2 ^ j) Hpos). fold k in Hdm.
  assert (1 <= k) as Hk by (apply Z.div_le_lower_bound; lia).
  eapply wp_mono; [apply wp_tc_memalign; [done|nia|done|congruence]|]. intros r st' (p & -> & Hp & Hrest & He). exists p. split; [done|].
  split; [rewrite (rest_mem _ _ Hrest); done|]. destruct Hp as [[-> HR']|(Hp0 & n & Hle & Hf & Hm & HR')]; [left; auto|].
  right. split; [done|]. split; [done|]. exists n, k. split; [lia|]. split; [|done].
  clearbody k s1. set (m := 2 ^ j) in *. clearbody m. set (r := (s1 + m - 1) mod m) in *. clearbody r.
  destruct Hs4 as [[-> ->]|[? ->]]; [|lia]. assert (k < 2) by nia. assert (k = 1) as -> by lia. lia.
Qed.

(** [pvalloc] of a size within a page of the end of the address space
    does not fail: the rounding wraps to 0 and the call is [memalign] of no
    bytes, which hands out a block far smaller than the request. *)
Theorem pvalloc_wraps j size st (Hj : 0 <= j <= 63) (Hpage : pagesize st = 2 ^ j) (Hs : 2 ^ 64 - 2 ^ j < size < 2 ^ 64) :
  tc_pvalloc size st = tc_memalign (2 ^ j) 0 st.
Proof using.
  assert (0 < 2 ^ j) by (apply Z.pow_pos_nonneg; lia). assert (2 ^ j <= 2 ^ 63) by (apply Z.pow_le_mono_r; lia).
  unfold Malloc.MA.tc_pvalloc, system_pagesize. unfold mbind, M_bind, getS. rewrite Hpage, (proj2 (Z.eqb_neq (2 ^ j) 0)) by lia.
  unfold mret, M_ret. rewrite (proj2 (Z.eqb_neq size 0)) by lia. rewrite land_align by (apply u64_range || lia).
  rewrite (u64_eq (size + 2 ^ j - 1) (size + 2 ^ j - 1 - 2 ^ 64)) by (exists 1; lia). rewrite u64_small, Z.div_small by lia. done.
Qed.

(** A negative report threshold, which is meant to switch reports of
    large allocations off, makes the very first allocation of a page or more
    reported: the value passes through a signed maximum and becomes one
    page. *)
Theorem negative_threshold_reports n st (Hon : report_enabled = true) (Hneg : report_env < 0)
    (Hfirst : large_alloc_threshold st = 0) (Hn : 1 <= n) :
  exists st', should_report_large report_enabled report_env n st = Ret (true, st').
Proof using.
  unfold should_report_large. rewrite Hon. cbn [negb]. unfold mbind, M_bind, getS. rewrite Hfirst. cbn [Z.eqb].
  assert (initial_threshold report_env = 8192) as ->.
  { unfold initial_threshold. rewrite (proj2 (Z.ltb_lt _ _)) by done. reflexivity. }
  unfold modS, mret, M_ret. change (Z.shiftr 8192 kPageShift) with 1. rewrite (proj2 (Z.ltb_ge n 1)) by lia. by eexists.
Qed.
End Spec.

(** ** Operator new *)

Section New.
Context {H U : Type} `{!SpanHeap H} `{!SpanHeapLaws H} `{!ObjectHeap H} `{!ObjectHeapLaws H} {RS : Rest}.
Context (sizemap : SizeMap) (others : M (Central H) unit) (flag : Z) (draw : Z -> Z -> Z) (seed : Z).
Context (report_enabled : bool) (report_env : Z).
Abbreviation malloc := (Malloc H U).
Context (get_new_handler : U -> option (M malloc handled)) (patience : U -> nat).
Abbreviation Rep := (Rep (H := H) (U := U) sizemap others).
Hypothesis others_stay : moves stay others.
Hypothesis Hsm : sizemap_ok (H := H) sizemap.
Hypothesis others_ok : forall mine priv c, Holds sizemap mine priv c -> wp others (fun _ c' => Holds sizemap mine priv c') c.
Hypothesis Hts : tc_sizemap_ok sizemap.
Hypothesis Hfo : front_ok (H := H) sizemap.
Context (kept : gmap Z Z -> gmap Z Z -> Prop) `{!PreOrder kept}.

(** C25: [operator new], [new(nothrow)] and [malloc] with a new-handler. As
    long as the handler keeps the allocator's blocks to what [kept] says
    and returns only finitely often, the call returns. A C routine without
    new-mode asks no handler and returns a block or null. Otherwise the call
    ends with a fresh block on top of the blocks the handlers left, from the
    first attempt or after a number of rounds in each of which the installed
    handler was called and returned; with null (the nothrow forms only) or
    [bad_alloc] (the throwing form only), and then because after such rounds
    no handler is installed or the installed one, called, threw [bad_alloc];
    or with what an installed handler threw itself when it was called. *)
Theorem operator_new_correct k B size st (HR : Rep B st) (Hs : 0 <= size < 2 ^ 64)
    (Hok : handlers_ok sizemap others get_new_handler patience kept) :
  wp (malloc_fast_path sizemap others flag draw seed report_enabled report_env get_new_handler patience k size)
    (fun r st' => exists B', match r with Ptr p => alloc_post sizemap others B' size p st' | Throw _ => Rep B' st' end /\
       (if quiet (from_operator k) st then B' = B /\ (exists p, r = Ptr p) /\ same user st st'
        else kept B B' /\ ended get_new_handler (nothrow k) st r st')) st.
Proof using SpanHeapLaws0 ObjectHeapLaws0 others_stay Hsm others_ok Hts Hfo PreOrder0.
  eapply wp_mono; [by apply wp_malloc_fast_path|]. intros r st'. unfold result_post. destruct (quiet (from_operator k) st) eqn:E.
  - intros (p & -> & Hp & Hr & _). exists B. split; [done|]. split; [done|]. split; [by exists p|by apply rest_user].
  - intros (B' & HK & Hr & He). by exists B'.
Qed.
End New.
