(* ===== verification/Startup.v ===== *)
(** * Startup

    Models [ThreadCache::InitModule] (thread_cache.cc) and
    [Static::InitStaticVars] (static_vars.cc), which put the layers
    together, and shows that the state they build is the empty heap of
    MallocInv.v: what the layers assume of the size map and of each other
    holds from the start. *)
From S2P Require Import Prelude Common Sampler ThreadCache ThreadCacheSpec ThreadCacheLife PageMap PackedCache Span SysEnv PageHeap PageHeapInv PageHeapOps PageHeapRelease PageHeapAlloc SystemAlloc SystemAllocSpec PageHeapSpec PageHeapFrame CentralFreeList CentralFreeListInv CentralFreeListSpec CentralCaches CentralPageHeap Malloc MallocInv MallocAlloc MallocFree MallocPaths MallocSpec.
Import SizeMap MA.

(** ** The code *)

Section Code.
Context {PM E : Type} `{!PageMap PM} `{!SysEnv E}.
Abbreviation heap := (PageHeap PM E).

(** [PageHeapAllocator::Init] on zeroed storage: carve a first object. *)
Definition reserve (New : M E Z) (Delete : Z -> M E unit) : M E unit := p ← New; Delete p.
(** The two descriptors allocated to spread cache lines are never used. *)
Definition init_descriptors : M E unit :=
  _ ← reserve span_allocator_New span_allocator_Delete;
  _ ← span_allocator_New;
  _ ← span_allocator_New;
  reserve stacktrace_allocator_New stacktrace_allocator_Delete.

(** [Static::InitStaticVars]; [aggressive] is the decommit setting. *)
Definition InitStaticVars (native_page_size transfer_flag : Z) (aggressive : bool) (e : E) : outcome (SizeMap * Central heap) :=
  sizemap ← Init native_page_size transfer_flag zero;
  '(_, e) ← init_descriptors e;
  lists ← CFL.init_lists sizemap;
  h ← PH.init (min_span_size_in_pages_ sizemap) e;
  '(_, h) ← PH.SetAggressiveDecommit aggressive h;
  Ret (sizemap, mkCentral lists 0 h).

(** The statics of thread_cache.cc. *)
Definition static_caches : Caches unit :=
  mkCaches ∅ 0 0 0 kMinThreadCacheSize kDefaultOverallThreadCacheSize kMaxThreadCacheSize kDefaultOverallThreadCacheSize tt.
Definition over {C} (c : C) (ts : Caches unit) : Caches C :=
  mkCaches (heaps ts) (thread_heaps_ ts) (thread_heap_count_ ts) (next_memory_steal_ ts) (min_per_thread_cache_size_ ts)
    (overall_thread_cache_size_ ts) (per_thread_cache_size_ ts) (unclaimed_cache_space_ ts) c.

(** [ThreadCache::InitModule]; [tcb] is
    TCMALLOC_MAX_TOTAL_THREAD_CACHE_BYTES as a number, when set. *)
Definition InitModule (tcb : option Z) (native_page_size transfer_flag : Z) (aggressive : bool) (e : E)
    : outcome (SizeMap * Caches (Central heap)) :=
  '(_, ts) ← match tcb with
             | Some v => TC.set_overall_thread_cache_size (u64 v) static_caches
             | None => Ret (tt, static_caches)
             end;
  '(sizemap, c) ← InitStaticVars native_page_size transfer_flag aggressive e;
  '(_, c) ← CFL.in_heap (PH.in_env (reserve threadcache_New threadcache_Delete)) c;
  Ret (sizemap, over c ts).

(** The program's state after it, for a thread that has no cache yet. *)
Definition started {U} (ts : Caches (Central heap)) (user : U) : Malloc heap U :=
  mkMalloc ts 0 [] ∅ ∅ 0 0 0 false false [] 0 user.
End Code.

(** ** The size map of the default configuration *)

(** [f] holds of every class size and the one before it. *)
Fixpoint pairs (f : Z -> Z -> bool) (prev : Z) (l : list Z) : bool :=
  match l with
  | [] => true
  | c :: l => f prev c && pairs f c l
  end.
Definition aligned_class (prev c : Z) : bool :=
  forallb (fun k => (c / 2 ^ k * 2 ^ k <=? prev) || (c mod 2 ^ k =? 0)) (seqZ 0 14) &&
  (c mod 8 =? 0) && ((c <? 16) || (c mod 16 =? 0)).
(** A span for any size of the class, in whole minimal spans, holds the
    class's objects. *)
Definition spanned_class (ms prev c : Z) : bool := c <=? (prev + ms) / ms * ms.
Definition table_ok (ms : Z) : bool :=
  match compute_classes ms kDefaultTransferNumObjecs (mkClasses 1 ∅ ∅) with
  | Ret st => let l := class_sizes (c_size st) (sc st) in
      (ent (c_size st) 0 =? 0) && pairs aligned_class 0 l && pairs (spanned_class ms) 0 l
  | Fault _ => false
  end.
Lemma default_tables : forallb table_ok [8192; 16384; 65536] = true.
Proof. vm_compute. reflexivity. Qed.

Lemma pairs_at f l : forall prev i c, pairs f prev l = true -> l !! i = Some c ->
  f (match i with O => prev | S j => default 0 (l !! j) end) c = true.
Proof.
  induction l as [|x l IH]; intros prev i c; [done|]. cbn [pairs]. intros [H1 H2]%andb_true_iff Hi.
  destruct i as [|i]; [by injection Hi as <-|]. specialize (IH x i c H2 Hi). by destruct i.
Qed.

(** The class before [c], 0 for the first. *)
Lemma pairs_class f cs n c : pairs f 0 (class_sizes cs n) = true -> 1 <= c < n ->
  f (if c =? 1 then 0 else ent cs (c - 1)) (ent cs c) = true.
Proof.
  intros Hp Hc. pose proof (pairs_at _ _ _ _ _ Hp (class_sizes_lookup cs n c Hc)) as Hf.
  destruct (Z.eqb_spec c 1) as [->|Hne]; [exact Hf|]. destruct (Z.to_nat (c - 1)) as [|j] eqn:Ej; [lia|].
  replace j with (Z.to_nat (c - 1 - 1)) in Hf by lia. by rewrite class_sizes_lookup in Hf by lia.
Qed.

Section Table.
Context (native : Z) (Hnative : native ∈ [4096; 8192; 16384; 65536]).
Abbreviation ms := (min_span_bytes native).
Abbreviation msp := (min_span_bytes native / kPageSize).

Lemma native_cases : ms ∈ [8192; 16384; 65536] /\ ms = msp * kPageSize /\ msp <= 8 /\ span_size_ok msp /\ 0 <= native <= 2 ^ 32.
Proof using Hnative.
  rewrite !elem_of_cons, elem_of_nil in Hnative.
  destruct Hnative as [-> | [-> | [-> | [-> | []]]]].
  - split; [by left|]. do 2 (split; [vm_compute; done|]). split; [by exists 0|lia].
  - split; [by left|]. do 2 (split; [vm_compute; done|]). split; [by exists 0|lia].
  - split; [by right; left|]. do 2 (split; [vm_compute; done|]). split; [by exists 1|lia].
  - split; [by right; right; left|]. do 2 (split; [vm_compute; done|]). split; [by exists 3|lia].
Qed.

(** What [Init] gives. *)
Record table (sm : SizeMap) : Prop := {
  tb_wf : SizeMap_wf ms kDefaultTransferNumObjecs sm;
  tb_moves : moves_ok kDefaultTransferNumObjecs sm;
  tb_zero : ent (class_to_size_ sm) 0 = 0;
  tb_align : pairs aligned_class 0 (class_sizes (class_to_size_ sm) (num_size_classes sm)) = true;
  tb_span : pairs (spanned_class ms) 0 (class_sizes (class_to_size_ sm) (num_size_classes sm)) = true;
  tb_unit : min_span_size_in_pages_ sm = msp }.

Lemma Init_table : exists sm, Init native (InitTCMallocTransferNumObjects 0 None) zero = Ret sm /\ table sm.
Proof using Hnative.
  destruct native_cases as (Hms & _ & _ & _ & Hr).
  change (InitTCMallocTransferNumObjects 0 None) with kDefaultTransferNumObjecs.
  destruct (Init_builds native kDefaultTransferNumObjecs zero) as
    (sm & Hwf & Hmv & (st & Hst & Hcs & Hn & Hu) & HI); [done|by vm_compute|].
  destruct (Init_default_ok native Hnative) as (sm' & HI' & _ & _). change (InitTCMallocTransferNumObjects 0 None) with kDefaultTransferNumObjecs in HI'.
  assert (sm' = sm) as -> by (rewrite HI in HI'; destruct (check_natural_alignment sm); [by injection HI' as ->|discriminate]).
  exists sm. split; [done|]. pose proof default_tables as Ht. rewrite forallb_forall in Ht.
  specialize (Ht ms ltac:(by apply list_elem_of_In)). unfold table_ok in Ht. cbn [class_to_pages_ class_to_size_ zero] in Hst. rewrite Hst in Ht.
  rewrite <- Hcs, <- Hn in Ht. apply andb_true_iff in Ht as [[H0%Z.eqb_eq H1]%andb_true_iff H2].
  by constructor.
Qed.
End Table.

Section Facts.
Context {PM E : Type} `{!PageMap PM} `{!PageMapLaws PM} `{!SysEnv E} `{!SysEnvLaws E}.
Context (release_rate : double) (heap_limit_mb : Z) (Hrate : release_rate <> S754_nan).
Context (native : Z) (Hnative : native ∈ [4096; 8192; 16384; 65536]).
Abbreviation heap := (PageHeap PM E).
Abbreviation ms := (min_span_bytes native).
Abbreviation msp := (min_span_bytes native / kPageSize).
(** The page heap the program runs with. *)
#[export] Instance spans_of : SpanHeap heap := page_heap_spans release_rate heap_limit_mb msp.
#[export] Instance objects_of : ObjectHeap heap := page_heap_objects release_rate heap_limit_mb msp.

Lemma config : config_ok release_rate msp.
Proof using Hrate Hnative. destruct (native_cases native Hnative) as (_ & _ & _ & ? & _). by split. Qed.
#[export] Instance spans_laws : SpanHeapLaws heap := page_heap_laws release_rate heap_limit_mb msp config.
#[export] Instance objects_laws : ObjectHeapLaws heap := page_heap_object_laws release_rate heap_limit_mb msp config.

Context (sm : SizeMap) (Htb : table native sm).

Lemma sizemap_central : sizemap_ok (H := heap) sm.
Proof using Hrate Hnative Htb.
  destruct (native_cases native Hnative) as (_ & Ems & Hle & _ & _).
  apply (size_map_ok release_rate heap_limit_mb msp config kDefaultTransferNumObjecs); [rewrite <- Ems; apply Htb|apply Htb|by vm_compute|lia].
Qed.

Lemma sizemap_caches : tc_sizemap_ok sm.
Proof using Htb.
  pose proof (tb_wf _ _ Htb) as Hwf. pose proof (wf_num _ _ _ Hwf). constructor; [clia|apply Htb|].
  intros cl Hcl. destruct (on_grid_facts _ (wf_grid _ _ _ Hwf cl Hcl)) as [Hsz _]. unfold bytes_of_class, move_of_class.
  split; [lia|]. pose proof (tb_moves _ _ Htb cl Hcl) as Hmv. unfold num_objects_to_move in Hmv. rewrite aget_in in Hmv by clia.
  injection Hmv as Hmv. unfold ent. rewrite Hmv. unfold batch. change kDefaultTransferNumObjecs with 32. change kMaxDynamicFreeListLength with 8192. lia.
Qed.

Lemma get_class s : 0 <= s <= kMaxSize -> exists c, GetSizeClass sm s = Ret (Some c) /\ class_for (class_to_size_ sm) (num_size_classes sm - 1) s c.
Proof using Htb.
  intros Hs. destruct (wf_class _ _ _ (tb_wf _ _ Htb) s Hs) as (c & Hc & Hf). exists c. split; [|done].
  unfold GetSizeClass. rewrite ClassIndexMaybe_ClassIndex by lia. rewrite (proj2 (Z.leb_le _ _)) by lia.
  unfold SizeClass in Hc. by rewrite Hc.
Qed.
Lemma get_class_inv s c : 0 <= s -> GetSizeClass sm s = Ret (Some c) -> s <= kMaxSize /\ class_for (class_to_size_ sm) (num_size_classes sm - 1) s c.
Proof using Htb.
  intros Hs Hc. destruct (Z.le_gt_cases s kMaxSize) as [Hle|Hgt].
  - split; [done|]. destruct (get_class s ltac:(lia)) as (c' & Hc' & Hf). by assert (c' = c) as -> by congruence.
  - unfold GetSizeClass in Hc. rewrite ClassIndexMaybe_ClassIndex, (proj2 (Z.leb_gt _ _)) in Hc by lia. discriminate.
Qed.

(** The sizes of a class start above the class before it. *)
Lemma class_prev s c : 0 <= s -> class_for (class_to_size_ sm) (num_size_classes sm - 1) s c ->
  1 <= c < num_size_classes sm /\ (s = 0 /\ c = 1 \/ (if c =? 1 then 0 else ent (class_to_size_ sm) (c - 1)) < s) /\ s <= ent (class_to_size_ sm) c.
Proof using Htb.
  intros Hs (Hc & Hle & Hp). pose proof (wf_num _ _ _ (tb_wf _ _ Htb)). split; [lia|]. split; [|done].
  destruct (Z.eqb_spec c 1); [destruct (Z.eq_dec s 0); [by left|right; lia]|]. right. apply Hp. lia.
Qed.

Lemma sizemap_align s c k : GetSizeClass sm s = Ret (Some c) -> 0 <= s -> wants s k -> csize sm c mod 2 ^ k = 0.
Proof using Htb.
  intros Hc Hs [Hk Hw]. destruct (get_class_inv s c Hs Hc) as [_ Hf]. destruct (class_prev s c Hs Hf) as (Hr & Hp & Hle).
  pose proof (pairs_class _ _ _ c (tb_align _ _ Htb) Hr) as Ha. unfold aligned_class in Ha.
  apply andb_true_iff in Ha as [[Ha H8%Z.eqb_eq]%andb_true_iff H16]. rewrite forallb_forall in Ha. unfold csize.
  set (x := ent (class_to_size_ sm) c) in *. set (prev := if c =? 1 then 0 else _) in *.
  specialize (Ha k ltac:(apply list_elem_of_In, elem_of_seqZ; clia)). apply orb_true_iff in Ha.
  assert (0 < 2 ^ k) as Hpk by (apply Z.pow_pos_nonneg; lia).
  destruct Hw as [Hk3|[[-> Hs16]|[Hs0 Hm]]].
  - apply Z.mod_divide; [lia|]. apply (Z.divide_trans _ 8); [|by apply Z.mod_divide].
    exists (2 ^ (3 - k)). rewrite <- Z.pow_add_r by lia. by replace (3 - k + k) with 3 by lia.
  - apply orb_true_iff in H16 as [?%Z.ltb_lt|H16%Z.eqb_eq]; [lia|done].
  - destruct Ha as [Ha%Z.leb_le|Ha%Z.eqb_eq]; [|done]. exfalso. destruct Hp as [[? _]|Hp]; [lia|].
    pose proof (Z.div_mod s (2 ^ k) ltac:(lia)). rewrite Hm in H.
    assert (s / 2 ^ k <= x / 2 ^ k) by (apply Z.div_le_mono; lia). nia.
Qed.

Lemma RoundUp_bytes n : 0 < n < 2 ^ 51 -> PH.RoundUpSize msp n * kPageSize = (n * kPageSize + ms - 1) / ms * ms.
Proof using Hnative.
  intros Hn. destruct (native_cases native Hnative) as (_ & Ems & Hle & Hok & _). rewrite RoundUpSize_eq by (done || lia).
  destruct Hok as (k & Hk & Ek). assert (0 < msp) by (rewrite Ek; apply Z.pow_pos_nonneg; lia).
  rewrite (proj2 (Z.ltb_lt _ _)) by lia.
  assert (forall m, 0 < m -> (n + m - 1) / m * m * kPageSize = (n * kPageSize + m * kPageSize - 1) / (m * kPageSize) * (m * kPageSize)) as Hg.
  { intros m Hm. replace (n * kPageSize + m * kPageSize - 1) with ((n + m - 1) * kPageSize + (kPageSize - 1)) by clia.
    rewrite (Z.mul_comm m kPageSize), <- Z.div_div, Z.div_add_l, (Z.div_small (kPageSize - 1)) by clia.
    rewrite Z.add_0_r. ring. }
  rewrite Hg, <- Ems by done. done.
Qed.

Lemma sizemap_sampled s c : 0 <= s <= kMaxSize -> GetSizeClass sm s = Ret (Some c) ->
  csize sm c <= PH.RoundUpSize msp (pages (if s =? 0 then 1 else s)) * kPageSize.
Proof using Hnative Htb.
  intros Hs Hc. destruct (get_class_inv s c ltac:(lia) Hc) as [_ Hf]. destruct (class_prev s c ltac:(lia) Hf) as (Hr & Hp & Hle).
  pose proof (pairs_class _ _ _ c (tb_span _ _ Htb) Hr) as Ha. apply Z.leb_le in Ha. unfold csize.
  set (x := ent (class_to_size_ sm) c) in *. set (prev := if c =? 1 then 0 else _) in *.
  destruct (native_cases native Hnative) as (_ & Ems & _ & Hok & _). assert (0 < ms) as Hms.
  { destruct Hok as (k & Hk & Ek). rewrite Ems, Ek. pose proof (Z.pow_pos_nonneg 2 k). clia. }
  fold (at_least_1 s). assert (0 < at_least_1 s <= kMaxSize /\ prev < at_least_1 s) as [Hs1 Hps].
  { unfold at_least_1. destruct (Z.eqb_spec s 0) as [->|]; [|split; [lia|]; destruct Hp as [[? _]|?]; lia].
    split; [clia|]. destruct Hp as [[_ ->]|?]; [unfold prev; cbn; lia|lia]. }
  destruct (pages_spec (at_least_1 s) ltac:(clia)) as [Hpg Hpg2]. pose proof (pages_pos (at_least_1 s) ltac:(clia)).
  rewrite RoundUp_bytes by clia. etransitivity; [exact Ha|]. apply Z.mul_le_mono_nonneg_r; [lia|].
  apply Z.div_le_mono; [lia|]. clia.
Qed.

Lemma sizemap_front : front_ok (H := heap) sm.
Proof using Hnative Htb.
  pose proof (tb_wf _ _ Htb) as Hwf. constructor.
  - intros s Hs. destruct (get_class s Hs) as (c & Hc & Hf). exists c. split; [done|]. destruct (class_prev s c ltac:(lia) Hf) as (? & _ & ?). done.
  - intros s Hs. unfold GetSizeClass. by rewrite ClassIndexMaybe_ClassIndex, (proj2 (Z.leb_gt _ _)) by clia.
  - intros c Hc. destruct (on_grid_facts _ (wf_grid _ _ _ Hwf c Hc)) as [Hsz _].
    destruct (get_class (csize sm c)) as (c' & Hc' & Hf); [unfold csize; lia|]. rewrite Hc'. do 2 f_equal.
    destruct (class_prev (csize sm c) c' ltac:(unfold csize; lia) Hf) as (Hr & Hp & Hle). destruct Hf as (_ & _ & Hlt). unfold csize in *.
    destruct (Z.lt_total c c') as [Hl|[?|Hl]]; [|done|].
    + destruct (Z.eq_dec c (c' - 1)) as [->|]; [lia|]. pose proof (wf_mono _ _ _ Hwf c (c' - 1)). lia.
    + pose proof (wf_mono _ _ _ Hwf c' c). lia.
  - intros s c. apply sizemap_sampled.
  - intros s c k. apply sizemap_align.
Qed.
End Facts.

(** ** The empty heap *)

Section Reserve.
Context {E : Type} `{!SysEnv E} `{!SysEnvLaws E}.
Implicit Types e : E.
(** The first objects of the three allocators. *)
Lemma span_reserve_ok e : env_wf e -> wp (reserve span_allocator_New span_allocator_Delete) (fun _ e' => env_wf e') e.
Proof using SysEnvLaws0.
  intros He. apply wp_bind. eapply wp_mono; [by apply span_New_ok|]. cbn beta. intros p e1 (_ & _ & Hl & [He1 _]).
  eapply wp_mono; [apply span_Delete_ok; [done|set_solver]|]. by intros [] e2 (_ & He2 & _).
Qed.
Lemma stack_reserve_ok e : env_wf e -> wp (reserve stacktrace_allocator_New stacktrace_allocator_Delete) (fun _ e' => env_wf e') e.
Proof using SysEnvLaws0.
  intros He. apply wp_bind. eapply wp_mono; [by apply stacktrace_New_ok|]. cbn beta. intros p e1 (_ & _ & Hl & [[He1 _] _]).
  eapply wp_mono; [apply stacktrace_Delete_ok; [done|set_solver]|]. by intros [] e2 (_ & _ & [He2 _] & _).
Qed.
Lemma cache_reserve_ok e : env_wf e -> wp (reserve threadcache_New threadcache_Delete) (fun _ e' => env_keeps e e') e.
Proof using SysEnvLaws0.
  intros He. apply wp_bind. eapply wp_mono; [by apply threadcache_New_ok|]. cbn beta. intros p e1 (_ & _ & Hl & [[He1 Ht1] Hs1]).
  eapply wp_mono; [apply threadcache_Delete_ok; [done|set_solver]|]. intros [] e2 (_ & _ & [He2 Ht2] & Hs2).
  split; [split; [done|by etrans]|congruence].
Qed.
Lemma init_descriptors_ok e : env_wf e -> wp init_descriptors (fun _ e' => env_wf e') e.
Proof using SysEnvLaws0.
  intros He. unfold init_descriptors. apply wp_bind. eapply wp_mono; [by apply span_reserve_ok|]. cbn beta. intros [] e1 He1.
  apply wp_bind. eapply wp_mono; [by apply span_New_ok|]. cbn beta. intros _ e2 (_ & _ & _ & [He2 _]).
  apply wp_bind. eapply wp_mono; [by apply span_New_ok|]. cbn beta. intros _ e3 (_ & _ & _ & [He3 _]). by apply stack_reserve_ok.
Qed.
End Reserve.

Section Ready.
Context {PM E : Type} `{!PageMap PM} `{!PageMapLaws PM} `{!SysEnv E} `{!SysEnvLaws E}.
Context (release_rate : double) (heap_limit_mb : Z) (Hrate : release_rate <> S754_nan).
Context (native : Z) (Hnative : native ∈ [4096; 8192; 16384; 65536]).
Abbreviation heap := (PageHeap PM E).
Abbreviation msp := (min_span_bytes native / kPageSize).
#[local] Instance ready_spans : SpanHeap heap := spans_of release_rate heap_limit_mb native.
#[local] Instance ready_objects : ObjectHeap heap := objects_of release_rate heap_limit_mb native.

Lemma overall_ok tcb : exists ts, match tcb with
    | Some v => TC.set_overall_thread_cache_size (u64 v) static_caches
    | None => Ret (tt, static_caches)
    end = Ret (tt, ts) /\ heaps ts = ∅ /\ thread_heaps_ ts = 0 /\ next_memory_steal_ ts = 0 /\ 0 < unclaimed_cache_space_ ts.
Proof.
  destruct tcb as [v|]; [|by exists static_caches].
  unfold TC.set_overall_thread_cache_size, TC.RecomputePerThreadCacheSize, mbind, M_bind, getS, modS, static_caches.
  cbn -[d_of_Z d_div d_ltb u64 Z.shiftl Z.gtb Z.ltb s64 kMinThreadCacheSize].
  eexists. split; [done|]. cbn -[u64 Z.shiftl Z.gtb Z.ltb s64 kMinThreadCacheSize]. do 3 (split; [done|]).
  change kMinThreadCacheSize with 524288. change (Z.shiftl 1 30) with 1073741824. rewrite !Z.gtb_ltb, Z.sub_0_r.
  destruct (Z.ltb_spec (u64 v) 524288); cbn zeta; [done|]. destruct (Z.ltb_spec 1073741824 (u64 v)); [done|]. rewrite s64_small by lia. lia.
Qed.

(** A thread without a cache, with the large spans [L], when nobody else
    holds anything. *)
Lemma started_Rep {RS : Rest} {U} sm others (c : Central heap) ts (user : U) (L : gmap Z Span) B : theirs ∅ ∅ -> CInv sm ∅ c ->
  (forall cl d, central_cache c !! cl = Some d -> CentralFreeListInv.listed d = []) ->
  (forall p s, ph_inuse (pageheap c) p s -> is_Some (L !! p)) ->
  map_Forall (private c) (large <$> L) -> (forall p s, L !! p = Some s -> sizeclass s = 0 /\ sample s = false /\ 1 <= Span.length_ s) ->
  (forall a n, B !! a = Some n <-> block sm ∅ L ∅ a n) -> heaps ts = ∅ -> thread_heaps_ ts = 0 ->
  next_memory_steal_ ts = 0 -> 0 < unclaimed_cache_space_ ts -> Rep sm others B (started (over c ts) user).
Proof.
  intros Hr HC He Hu HL HLs HB Eh Et En Hun. exists ∅, L, ∅, []. split; [|done].
  constructor; cbn; [|by left|by left|intros p s Hp; by destruct (HLs p s Hp) as (? & _ & ?)| | |constructor|].
  - exists ∅. split; [done|]. constructor; cbn.
    + split; [|apply empty_subseteq]. exists ∅. rewrite !fmap_empty. constructor; [done|done|exact HL| |].
      * intros cl d p s Hd Hp. rewrite (He cl d Hd) in Hp. by apply elem_of_nil in Hp.
      * exists ∅. split; [|done]. intros p. split; [by intros ?%elem_of_empty|]. intros ((s & Hs) & Hp & _).
        destruct (Hu p s Hs) as [t Ht]. by rewrite lookup_fmap, Ht in Hp.
    + intros t cl x. split; [|by rewrite lookup_empty]. intros (v & f & Hv & _). cbn in Hv. rewrite Eh in Hv. by rewrite lookup_empty in Hv.
    + intros t v. rewrite Eh, lookup_empty. discriminate.
    + intros t v. rewrite Eh, lookup_empty. discriminate.
    + constructor; cbn; rewrite ?Eh; [done|constructor| |by intros ?%elem_of_nil|by left|by intros t ?%elem_of_nil].
      intros t. rewrite elem_of_nil, lookup_empty. split; [done|by intros []].
  - intros p s Hp Hsmp. destruct (HLs p s Hp) as (_ & Hf & _). congruence.
  - intros p q s t Hp _ Hsmp. destruct (HLs p s Hp) as (_ & Hf & _). congruence.
  - intros p. split; [by intros ?%elem_of_nil|]. intros (s & Hp & Hsmp). destruct (HLs p s Hp) as (_ & Hf & _). congruence.
Qed.
Lemma started_empty {RS : Rest} {U} sm others (c : Central heap) ts (user : U) : theirs ∅ ∅ -> CInv sm ∅ c ->
  (forall cl d, central_cache c !! cl = Some d -> CentralFreeListInv.listed d = []) -> spans (pageheap c) = ∅ -> heaps ts = ∅ -> thread_heaps_ ts = 0 ->
  next_memory_steal_ ts = 0 -> 0 < unclaimed_cache_space_ ts -> Rep sm others ∅ (started (over c ts) user).
Proof.
  intros Hr HC He Hs Eh Et En Hun. apply (started_Rep sm others c ts user ∅); [done|done|done| | | | |done|done|done|done].
  - intros p s [Hp _]. cbn in Hp. by rewrite Hs, lookup_empty in Hp.
  - rewrite fmap_empty. apply map_Forall_empty.
  - intros p s. by rewrite lookup_empty.
  - intros a n. rewrite lookup_empty. split; [done|]. intros [(cl & Ha & _)|(p & s & Hp & _)]; [by rewrite lookup_empty in Ha|by rewrite lookup_empty in Hp].
Qed.

Lemma init_wf (e : E) h b : env_wf e -> PH.init (PM := PM) msp e = Ret h ->
  heap_wf (PH.with_aggressive b h) /\ spans (PH.with_aggressive b h) = ∅.
Proof using PageMapLaws0 SysEnvLaws0 Hrate Hnative.
  intros He Hi. split; [split|].
  - pose proof (init_HInv msp e h He Hi) as []. by constructor.
  - unfold PH.init in Hi. destruct (check _); [|discriminate]. by injection Hi as <-.
  - unfold PH.init in Hi. destruct (check _); [|discriminate]. by injection Hi as <-.
Qed.
Lemma init_ret (e : E) : exists h, PH.init (PM := PM) msp e = Ret h.
Proof using Hnative.
  unfold PH.init. destruct (native_cases native Hnative) as (_ & _ & Hle & (k & Hk & ->) & _). rewrite pow2_check by lia. by eexists.
Qed.

(** The central lists over the first page heap, before and after the
    memory for thread caches. *)
Lemma reserved_wf (h : heap) : heap_wf h ->
  wp (PH.in_env (reserve threadcache_New threadcache_Delete)) (fun _ h' => heap_wf h' /\ spans h' = spans h) h.
Proof using SysEnvLaws0 release_rate heap_limit_mb native.
  intros Hwf. pose proof Hwf as [HI _]. apply wp_in_env. eapply wp_mono; [apply cache_reserve_ok, HI|]. cbn beta. intros [] e He.
  split; [|done]. apply (env_same release_rate heap_limit_mb msp h e Hwf He).
Qed.

Lemma startup_ok {U} tcb aggressive (e : E) (user : U) (He : env_wf e) :
  match InitModule (PM := PM) tcb native (InitTCMallocTransferNumObjects 0 None) aggressive e with
  | Ret (sm, ts) => sizemap_ok (H := heap) sm /\ tc_sizemap_ok sm /\ front_ok (H := heap) sm /\
      min_span_size_in_pages_ sm = msp /\ forall {RS : Rest} others, theirs ∅ ∅ -> Rep sm others ∅ (started ts user)
  | Fault f => f = OOM
  end.
Proof using PageMapLaws0 SysEnvLaws0 Hrate Hnative.
  destruct (overall_ok tcb) as (ts & Ets & ? & ? & ? & ?). unfold InitModule. rewrite Ets. obind.
  destruct (Init_table native Hnative) as (sm & HI & Htb). unfold InitStaticVars. rewrite HI. obind.
  pose proof (init_descriptors_ok e He) as He1. unfold wp in He1. destruct (init_descriptors e) as [[[] e1]|f]; [|by destruct f]. obind.
  rewrite (tb_unit _ _ Htb). destruct (init_ret e1) as (h & Hh). pose proof (init_wf _ _ aggressive He1 Hh) as [Hwf Hsp].
  pose proof (sizemap_central release_rate heap_limit_mb Hrate native Hnative sm Htb) as Hsm.
  pose proof (spans_laws release_rate heap_limit_mb Hrate native Hnative) as Hlaws.
  pose proof (reserved_wf _ Hwf) as Hres. set (h1 := PH.with_aggressive aggressive h) in *.
  pose proof (init_lists_ok sm Hsm) as Hall. destruct (Hall h1 Hwf) as (m & Hm & _). rewrite Hm. obind. rewrite Hh. obind. unfold PH.SetAggressiveDecommit, modS. obind. fold h1.
  unfold CFL.in_heap. cbn [pageheap]. unfold wp in Hres. destruct (PH.in_env (reserve threadcache_New threadcache_Delete) h1) as [[[] h2]|f]; [|by destruct f]. obind.
  destruct Hres as [Hwf2 Hsp2]. destruct (Hall h2 Hwf2) as (m' & Hm' & HC & He'). assert (m' = m) as -> by congruence.
  split; [done|]. split; [by apply (sizemap_caches native)|]. split; [by apply sizemap_front|]. split; [apply Htb|].
  intros RS others Hr. apply started_empty; [done|done|exact He'|cbn; congruence|done..].
Qed.

(** With memory for the first descriptors and the first cache, it returns. *)
Lemma InitModule_returns tcb aggressive (e e1 e2 : E) : env_wf e ->
  init_descriptors e = Ret (tt, e1) -> reserve threadcache_New threadcache_Delete e1 = Ret (tt, e2) ->
  exists sm ts, InitModule (PM := PM) tcb native (InitTCMallocTransferNumObjects 0 None) aggressive e = Ret (sm, ts).
Proof using PageMapLaws0 SysEnvLaws0 Hrate Hnative release_rate heap_limit_mb.
  intros He E1 E2. destruct (overall_ok tcb) as (ts & Ets & _). unfold InitModule. rewrite Ets. obind.
  destruct (Init_table native Hnative) as (sm & HI & Htb). unfold InitStaticVars. rewrite HI. obind. rewrite E1. obind.
  rewrite (tb_unit _ _ Htb). destruct (init_ret e1) as (h & Hh).
  pose proof (init_descriptors_ok e He) as He1. unfold wp in He1. rewrite E1 in He1. pose proof (init_wf _ _ aggressive He1 Hh) as [Hwf Hsp].
  pose proof (sizemap_central release_rate heap_limit_mb Hrate native Hnative sm Htb) as Hsm.
  pose proof (spans_laws release_rate heap_limit_mb Hrate native Hnative) as Hlaws.
  destruct (init_lists_ok sm Hsm (PH.with_aggressive aggressive h) Hwf) as (m & Hm & _).
  rewrite Hm. obind. rewrite Hh. obind. unfold PH.SetAggressiveDecommit, modS. obind. unfold CFL.in_heap, PH.in_env. cbn [pageheap].
  assert (env (PH.with_aggressive aggressive h) = e1) as ->.
  { unfold PH.init in Hh. destruct (check _); [|discriminate]. by injection Hh as <-. }
  rewrite E2. obind. by do 2 eexists.
Qed.

(** C7: startup. For 4, 8, 16 and 64 KiB system pages and every setting of
    the thread-cache limit, [InitModule] runs to the end (or stops because
    the system has no memory for the first descriptors): the size map
    passes its checks and meets what the central lists, the thread caches
    and the front end require, and the state represents the empty heap, so
    that the theorems about the entry points apply to the program. *)
Theorem startup_correct {U} tcb aggressive (e : E) (user : U) (He : env_wf e) :
  match InitModule (PM := PM) tcb native (InitTCMallocTransferNumObjects 0 None) aggressive e with
  | Ret (sm, ts) => sizemap_ok (H := heap) sm /\ tc_sizemap_ok sm /\ front_ok (H := heap) sm /\
      min_span_size_in_pages_ sm = msp /\ forall {RS : Rest} others, theirs ∅ ∅ -> Rep sm others ∅ (started ts user)
  | Fault f => f = OOM
  end.
Proof using PageMapLaws0 SysEnvLaws0 Hrate Hnative. by apply startup_ok. Qed.

(** C1: the whole allocator, from [InitModule] on, refines an abstract heap.
    A client that makes any number of [malloc], [calloc], [realloc],
    [memalign], [free] and sized-[free] calls, each chosen from the results
    so far, frees or resizes only null or blocks it holds, and gives a sized
    [free] only a size that [nallocx] rounds to the block's usable size, gets
    exactly the behaviour of a map from addresses to sizes: every call
    returns, no check or assertion inside fails, every new block is disjoint
    from all others and large enough, and only the freed block disappears.
    New blocks are aligned to every power of two up to a page that divides
    the requested size, and for the basic types ([memalign]: to the requested
    power, blocks that [realloc] moved: for the basic types). At the points
    inside a call where a central list gives up its lock, other threads may
    run, and there do to the central lists and the page heap whatever keeps
    them consistent and this thread's objects its own. Nothing leaks: when no
    other thread holds anything, every object that is not free is in a cache
    or a block of the map, and every span in use is one of these or serves a
    central list. The run can only end early because the system has no
    memory left for the allocator's own descriptors. *)
Theorem program_refines_heap {U} tcb aggressive (e : E) (user : U) flag draw seed report_enabled report_env
    (get_new_handler : U -> option (M (Malloc heap U) handled)) patience (He : env_wf e) :
  match InitModule (PM := PM) tcb native (InitTCMallocTransferNumObjects 0 None) aggressive e with
  | Ret (sm, ts) => forall {RS : Rest} others client, theirs ∅ ∅ -> moves stay others ->
      (forall mine priv c, Holds sm mine priv c -> wp others (fun _ c' => Holds sm mine priv c') c) ->
      (forall hist B, reach (H := heap) sm client hist B -> legal (H := heap) sm B (client hist)) ->
      forall n, wp (drive sm others flag draw seed report_enabled report_env get_new_handler patience n client [])
        (fun hist st' => length hist = n /\ exists B, reach (H := heap) sm client hist B /\ Rep sm others B st' /\
           (RS = nothing -> accounted sm B st')) (started ts user)
  | Fault f => f = OOM
  end.
Proof using PageMapLaws0 SysEnvLaws0 Hrate Hnative.
  pose proof (startup_ok tcb aggressive e user He) as Hst. destruct (InitModule _ _ _ _ _) as [[sm ts]|f]; [|done].
  destruct Hst as (Hsm & Hts & Hfo & _ & HR). intros RS others client Hr Hstay Hoth Hcl n.
  pose proof (spans_laws release_rate heap_limit_mb Hrate native Hnative) as Hl1.
  pose proof (objects_laws release_rate heap_limit_mb Hrate native Hnative) as Hl2.
  eapply wp_mono; [eapply (wp_drive sm others flag draw seed report_enabled report_env get_new_handler patience);
    [done|done|done|done|done|constructor|by apply HR|done|done]|].
  cbn. intros hist st' (? & B & ? & ?). split; [done|]. exists B. do 2 (split; [done|]). intros. by eapply Rep_accounted.
Qed.
End Ready.
