(* ===== verification/Concrete.v ===== *)
(** * Concrete runs

    States at which the theorems about the entry points apply: the program
    started on the toy operating system of SystemAllocSpec.v with a small
    client, and a heap that holds two large blocks on a system that has no
    memory left. *)
From S2P Require Import Prelude Common Sampler ThreadCache ThreadCacheSpec ThreadCacheLife PageMap PackedCache Span SysEnv PageHeap PageHeapInv PageHeapOps PageHeapRelease PageHeapAlloc SystemAlloc SystemAllocSpec PageHeapSpec PageHeapFrame CentralFreeList CentralFreeListInv CentralFreeListSpec CentralCaches CentralPageHeap Malloc MallocInv MallocAlloc MallocFree MallocPaths MallocSpec Startup.
Import SizeMap MA.

Lemma native_4k : 4096 ∈ [4096; 8192; 16384; 65536].
Proof. by left. Qed.
Lemma rate_ok : default_rate <> S754_nan.
Proof. done. Qed.

(** Nobody else runs; nobody handles a failed allocation. *)
Definition alone {H} : M (Central H) unit := mret tt.
Lemma alone_stay {H} `{!ObjectHeap H} : moves stay (alone (H := H)).
Proof. apply moves_ret, _. Qed.
#[local] Existing Instance nothing.
Lemma alone_ok {H} `{!SpanHeap H} {RS : Rest} sm mine priv (c : Central H) : Holds sm mine priv c -> wp alone (fun _ c' => Holds sm mine priv c') c.
Proof. intros. by apply wp_ret. Qed.
Definition no_handler {H} (_ : unit) : option (M (Malloc H unit) handled) := None.
Definition no_patience (_ : unit) : nat := 0.

(** ** The program from its start *)

Abbreviation toy_start := (InitModule (PM := PM48) (E := Sys Z) None 4096 (InitTCMallocTransferNumObjects 0 None) false (SA.sys_init ToyOS.base)).
Definition toy_spans : SpanHeap (PageHeap PM48 (Sys Z)) := spans_of default_rate 0 4096.
Definition toy_objects : ObjectHeap (PageHeap PM48 (Sys Z)) := objects_of default_rate 0 4096.

Definition toy_env1 : Sys Z := match init_descriptors (SA.sys_init ToyOS.base) with Ret (_, e) => e | Fault _ => SA.sys_init ToyOS.base end.
Lemma toy_New : exists e, init_descriptors (SA.sys_init ToyOS.base) = Ret (tt, toy_env1) /\
  reserve threadcache_New threadcache_Delete toy_env1 = Ret (tt, e).
Proof. eexists. split; vm_compute; reflexivity. Qed.

Lemma toy_starts : exists sm ts, toy_start = Ret (sm, ts).
Proof.
  destruct toy_New as (e & E1 & E2).
  apply (InitModule_returns (PM := PM48) default_rate 0 rate_ok 4096 native_4k None false _ toy_env1 e toy_env_wf E1 E2).
Qed.

Lemma startup_correct_witness : exists sm ts, toy_start = Ret (sm, ts) /\ tc_sizemap_ok sm /\
  @Rep _ unit toy_spans toy_objects nothing sm alone ∅ (started ts tt).
Proof.
  destruct toy_starts as (sm & ts & E). exists sm, ts. split; [done|].
  pose proof (startup_correct (PM := PM48) default_rate 0 rate_ok 4096 native_4k None false (SA.sys_init ToyOS.base) tt toy_env_wf) as Hst.
  rewrite E in Hst. destruct Hst as (_ & ? & _ & _ & HR). split; [assumption|exact (HR nothing alone nothing_empty)].
Defined.

(** Allocate, free what came back, then allocate zeroed memory. *)
Definition toy_client (hist : list result) : call :=
  match hist with
  | [] => CMalloc 100
  | [Ptr p] => CFree p
  | _ => CCalloc 10 20
  end.
Lemma toy_legal sm hist B : @reach _ toy_objects sm toy_client hist B -> @legal _ toy_objects sm B (toy_client hist).
Proof.
  intros Hre. destruct hist as [|r [|r' l]]; cbn; [lia| |by destruct r; cbn; lia]. destruct r as [p|b]; cbn; [|lia].
  inversion Hre as [|hist' B0 r' B' Hre0 Hst E]. subst.
  destruct hist' as [|x hist']; [|by destruct hist']. injection E as ->. cbn in Hst.
  inversion Hst; subst; [by left|]. right. rewrite lookup_insert_eq. eauto.
Qed.

Lemma program_refines_heap_witness : exists sm ts, toy_start = Ret (sm, ts) /\
  wp (drive (SpanHeap0 := toy_spans) (ObjectHeap0 := toy_objects) sm alone 0 (fun _ r => r) 0 false 0 no_handler no_patience 3 toy_client [])
    (fun hist st' => length hist = 3%nat /\ exists B, @reach _ toy_objects sm toy_client hist B /\ @accounted _ _ toy_spans sm B st') (started ts tt).
Proof.
  destruct toy_starts as (sm & ts & E). exists sm, ts. split; [done|].
  pose proof (program_refines_heap (PM := PM48) default_rate 0 rate_ok 4096 native_4k None false (SA.sys_init ToyOS.base) tt
    0 (fun _ r => r) 0 false 0 no_handler no_patience toy_env_wf) as Hp.
  rewrite E in Hp. eapply wp_mono; [apply (Hp nothing alone toy_client)|].
  - exact nothing_empty.
  - apply alone_stay.
  - intros mine priv c. apply alone_ok.
  - apply toy_legal.
  - intros hist st' (? & B & ? & _ & ?). split; [done|]. exists B. auto.
Defined.

(** ** A heap that holds two large blocks *)

#[local] Instance spent_spans : SpanHeap (PageHeap PM48 (gset Z)) := spans_of default_rate 0 4096.
#[local] Instance spent_objects : ObjectHeap (PageHeap PM48 (gset Z)) := objects_of default_rate 0 4096.
#[local] Instance spent_spans_laws : SpanHeapLaws (PageHeap PM48 (gset Z)) := spans_laws default_rate 0 rate_ok 4096 native_4k.
#[local] Instance spent_objects_laws : ObjectHeapLaws (PageHeap PM48 (gset Z)) := objects_laws default_rate 0 rate_ok 4096 native_4k.

Definition two_blocks : gmap Z Z := <[40960 := 303104]> {[344064 := 8192]}.

(** The state [st] of a program with the size map [sm] that holds them. *)
Record two_held {U} (sm : SizeMap) (st : Malloc (PageHeap PM48 (gset Z)) U) : Prop := {
  hd_central : sizemap_ok (H := PageHeap PM48 (gset Z)) sm;
  hd_caches : tc_sizemap_ok sm;
  hd_front : front_ok (H := PageHeap PM48 (gset Z)) sm;
  hd_rep : Rep sm alone two_blocks st;
  hd_mode : tc_new_mode st = 0;
  hd_none : heaps (threads st) = ∅;
  hd_empty : forall cl c, central_cache (central (threads st)) !! cl = Some c -> CentralFreeListInv.listed c = [] }.

Lemma two_blocks_spans sm a n : two_blocks !! a = Some n <-> block sm ∅ two_spans ∅ a n.
Proof.
  unfold two_blocks. split.
  - intros [[<- <-]|[_ [<- <-]%lookup_singleton_Some]]%lookup_insert_Some; right;
      [exists 100, (new_span 5 37)|exists 200, (new_span 42 1)]; done.
  - intros [(cl & Ha & _)|(p & s & Hp & -> & Hn)]; [by rewrite lookup_empty in Ha|].
    by apply two_spans_cases in Hp as [[-> ->]|[-> ->]]; cbn in Hn; subst n.
Qed.

Lemma held_state_of {U} (user0 : U) : exists sm st, two_held sm st /\ user st = user0.
Proof.
  destruct (Init_table 4096 native_4k) as (sm & _ & Htb).
  pose proof (sizemap_central (PM := PM48) (E := gset Z) default_rate 0 rate_ok 4096 native_4k sm Htb) as Hsm.
  assert (ph_wf two_spans_heap) as Hwf by (split; [apply two_spans_inv|reflexivity]).
  destruct (init_lists_ok sm Hsm two_spans_heap Hwf) as (m & Hm & HC & Hnil).
  exists sm, (started (over (mkCentral m 0 two_spans_heap) static_caches) user0). split; [|done].
  constructor; [done|by apply (sizemap_caches 4096)| | |done|done|exact Hnil].
  - by apply (sizemap_front default_rate 0 4096 native_4k).
  - apply (started_Rep default_rate 0 4096 sm alone _ static_caches user0 two_spans); try done.
    + intros p s [Hp _]. by exists s.
    + intros p o Ho. rewrite lookup_fmap in Ho. destruct (two_spans !! p) as [s|] eqn:Hp; [|done]. injection Ho as <-.
      constructor; cbn.
      * split; [exact Hp|]. by apply two_spans_cases in Hp as [[-> ->]|[-> ->]].
      * intros pg <- _. by apply two_spans_cases in Hp as [[-> ->]|[-> ->]].
      * intros pg <- _. right. by apply two_spans_cases in Hp as [[-> ->]|[-> ->]].
      * intros cl c Hc. rewrite (Hnil cl c Hc). by apply not_elem_of_nil.
    + by intros p s [[-> ->]|[-> ->]]%two_spans_cases.
    + apply two_blocks_spans.
Qed.

Lemma held_state : exists sm (st : Malloc (PageHeap PM48 (gset Z)) unit), two_held sm st.
Proof. destruct (held_state_of tt) as (sm & st & ? & _). by exists sm, st. Qed.

(** The routines with nobody else running and no handler. *)
Abbreviation on f sm := (f sm alone 0 (fun _ r => r) 0 false 0 no_handler no_patience).

Lemma tc_malloc_correct_witness : exists sm (st : Malloc (PageHeap PM48 (gset Z)) unit), Rep sm alone two_blocks st /\
  wp (on tc_malloc sm 100) (fun r st' => exists p, r = Ptr p /\ mem st' = mem st) st.
Proof.
  destruct held_state as (sm & st & []). exists sm, st. split; [done|].
  eapply wp_mono; [apply (on tc_malloc_correct sm alone_stay hd_central0 (alone_ok sm) hd_caches0 hd_front0 two_blocks 100 st hd_rep0); [lia|done]|].
  intros r st' (p & -> & Hr & _). exists p. split; [done|by apply rest_mem].
Defined.

Lemma tc_calloc_correct_witness : exists sm (st : Malloc (PageHeap PM48 (gset Z)) unit), Rep sm alone two_blocks st /\
  wp (on tc_calloc sm (2 ^ 33) (2 ^ 31)) (fun r st' => r = Ptr 0 /\ Rep sm alone two_blocks st') st.
Proof.
  destruct held_state as (sm & st & []). exists sm, st. split; [done|].
  eapply wp_mono; [apply (on tc_calloc_correct sm alone_stay hd_central0 (alone_ok sm) hd_caches0 hd_front0 two_blocks (2 ^ 33) (2 ^ 31) st hd_rep0); [lia|lia|done]|].
  intros r st' (p & -> & [(-> & ? & _)|(? & _)]); [done|lia].
Defined.

Lemma tc_realloc_correct_witness : exists sm (st : Malloc (PageHeap PM48 (gset Z)) unit), Rep sm alone two_blocks st /\
  wp (on tc_realloc sm 40960 200000) (fun r st' => r = Ptr 40960 \/ r = Ptr 0 \/
    exists q, r = Ptr q /\ forall i, 0 <= i < 200000 -> mem st' !! (q + i) = mem st !! (40960 + i)) st.
Proof.
  destruct held_state as (sm & st & []). exists sm, st. split; [done|].
  eapply wp_mono; [apply (on tc_realloc_correct sm alone_stay hd_central0 (alone_ok sm) hd_caches0 hd_front0 two_blocks 40960 303104 200000 st hd_rep0); [done|lia|done]|].
  intros r st' (q & -> & _ & [(-> & _)|[(-> & _)|(_ & m & _ & _ & _ & _ & Hm & _)]]); [by right; left|by left|].
  right; right. exists q. split; [done|]. intros i Hi. apply Hm. lia.
Defined.

Lemma tc_posix_memalign_correct_witness : exists sm (st : Malloc (PageHeap PM48 (gset Z)) unit), Rep sm alone two_blocks st /\
  wp (on tc_posix_memalign sm 48 100) (fun r st' => r = inl (EINVAL, None) /\ st' = st) st.
Proof.
  destruct held_state as (sm & st & []). exists sm, st. split; [done|].
  eapply wp_mono; [apply (on tc_posix_memalign_correct sm alone_stay hd_central0 (alone_ok sm) hd_caches0 hd_front0 two_blocks 48 100 st hd_rep0); [lia|lia|done]|].
  intros r st' [(-> & -> & _)|[(j & Hj & E) _]]; [done|]. exfalso.
  assert (j <= 5 \/ 6 <= j) as [Hj5|Hj6] by lia.
  - assert (2 ^ j <= 2 ^ 5) by (apply Z.pow_le_mono_r; lia). lia.
  - assert (2 ^ 6 <= 2 ^ j) by (apply Z.pow_le_mono_r; lia). lia.
Defined.

Lemma tc_free_correct_witness : exists sm (st : Malloc (PageHeap PM48 (gset Z)) unit), Rep sm alone two_blocks st /\
  wp (tc_free sm alone 40960) (fun _ st' => Rep sm alone {[344064 := 8192]} st' /\ accounted sm {[344064 := 8192]} st') st.
Proof.
  destruct held_state as (sm & st & []). exists sm, st. split; [done|].
  eapply wp_mono; [apply (tc_free_correct sm alone alone_stay hd_central0 (alone_ok sm) hd_caches0 two_blocks 40960 st hd_rep0); right; by eexists|].
  cbn beta. intros [] st' (HR' & _ & Ha). specialize (Ha eq_refl). unfold two_blocks in *. by rewrite delete_insert_id in HR', Ha.
Defined.

Lemma tc_free_sized_correct_witness : exists sm (st : Malloc (PageHeap PM48 (gset Z)) unit), Rep sm alone two_blocks st /\
  wp (tc_free_sized sm alone 40960 300000) (fun _ st' => Rep sm alone {[344064 := 8192]} st' /\ accounted sm {[344064 := 8192]} st') st.
Proof.
  destruct held_state as (sm & st & []). exists sm, st. split; [done|].
  eapply wp_mono; [apply (tc_free_sized_correct sm alone alone_stay hd_central0 (alone_ok sm) hd_caches0 hd_front0 two_blocks 40960 303104 300000 st hd_rep0)|].
  - done.
  - lia.
  - by rewrite (nallocx_large sm hd_front0 300000).
  - lia.
  - cbn beta. intros [] st' (HR' & _ & Ha). specialize (Ha eq_refl). unfold two_blocks in *. by rewrite delete_insert_id in HR', Ha.
Defined.

Lemma tc_malloc_size_correct_witness : exists sm (st : Malloc (PageHeap PM48 (gset Z)) unit), Rep sm alone two_blocks st /\
  wp (tc_malloc_size sm 344064) (fun r st' => r = 8192 /\ st' = st) st.
Proof.
  destruct held_state as (sm & st & []). exists sm, st. split; [done|].
  by apply (tc_malloc_size_correct sm alone hd_central0 hd_caches0 two_blocks 344064 8192 st hd_rep0).
Defined.

Lemma blocks_disjoint_witness : exists sm (st : Malloc (PageHeap PM48 (gset Z)) unit), Rep sm alone two_blocks st /\ apart 40960 303104 344064 8192.
Proof.
  destruct held_state as (sm & st & []). exists sm, st. split; [done|].
  by apply (blocks_disjoint sm alone hd_central0 two_blocks 40960 344064 303104 8192 st hd_rep0).
Defined.

Definition with_user {H U} (v : U) (st : Malloc H U) : Malloc H U :=
  mkMalloc (threads st) (tls st) (sampled_objects st) (stack_size st) (mem st) (errno st) (tc_new_mode st)
    (large_alloc_threshold st) (new_hooks st) (delete_hooks st) (trace st) (pagesize st) v.
(** A handler that can help once: it takes itself out and returns. The
    program's state says whether it is installed. *)
Definition once_handler {H} (installed : bool) : option (M (Malloc H bool) handled) :=
  if installed then Some (fun st => Ret (HReturn, with_user false st)) else None.
Definition once_patience (installed : bool) : nat := if installed then 1 else 0.
Lemma once_ok sm : handlers_ok (H := PageHeap PM48 (gset Z)) sm alone once_handler once_patience eq.
Proof.
  intros nh B st E HR. unfold once_handler in E. destruct (user st) eqn:Eu; [|done]. injection E as <-.
  unfold wp. exists B. split; [done|]. split; [by apply (Rep_core sm alone B st)|]. intros _. cbn. lia.
Qed.

(** Asked for more than there can be, [operator new] calls the handler,
    tries again and throws when no handler is left. *)
Lemma operator_new_correct_witness : exists sm (st : Malloc (PageHeap PM48 (gset Z)) bool), Rep sm alone two_blocks st /\ user st = true /\
  wp (malloc_fast_path sm alone 0 (fun _ r => r) 0 false 0 once_handler once_patience cpp_throw_oom (2 ^ 60))
    (fun r st' => r = Throw true /\ user st' = false /\ Rep sm alone two_blocks st') st.
Proof.
  destruct (held_state_of true) as (sm & st & [] & Eu). exists sm, st. split; [done|]. split; [done|].
  eapply wp_mono; [apply (operator_new_correct sm alone 0 (fun _ r => r) 0 false 0 once_handler once_patience alone_stay hd_central0 (alone_ok sm)
    hd_caches0 hd_front0 eq cpp_throw_oom two_blocks (2 ^ 60) st hd_rep0 ltac:(lia) (once_ok sm))|].
  assert (forall (s : Malloc (PageHeap PM48 (gset Z)) bool) h s1, asked once_handler s h s1 -> h = HReturn) as Hh.
  { intros s h s1 (nh & E & En). unfold once_handler in E. destruct (user s); [|done]. injection E as <-. by injection En as <- _. }
  intros r st' (B' & Hr & <- & He). destruct r as [p|[]].
  - exfalso. cbn in He. destruct Hr as [[-> _]|(Hp & n & _ & Hle & _ & _ & HR)]; [by destruct He|].
    destruct (block_bound sm alone hd_central0 _ _ _ _ HR (lookup_insert_eq _ _ _)). lia.
  - destruct He as [_ [[_ Hn]|(s & s1 & _ & Ha & _)]]; [|by apply Hh in Ha]. split; [done|]. split; [|done].
    unfold once_handler in Hn. by destruct (user st').
  - destruct He as (s & s1 & _ & Ha & _). by apply Hh in Ha.
Defined.

Abbreviation paged f sm := (f sm alone 0 (fun _ r => r) 0 false 0 4096 no_handler no_patience).

Lemma tc_pvalloc_correct_witness : exists sm (st : Malloc (PageHeap PM48 (gset Z)) unit), Rep sm alone two_blocks st /\
  wp (paged tc_pvalloc sm 0) (fun r st' => exists p, r = Ptr p /\ p mod 4096 = 0) st.
Proof.
  destruct held_state as (sm & st & []). exists sm, (with_pagesize 0 st).
  assert (Rep sm alone two_blocks (with_pagesize 0 st)) as HR by (by apply (Rep_core sm alone two_blocks st)). split; [done|].
  eapply wp_mono; [apply (paged tc_pvalloc_correct sm alone_stay hd_central0 (alone_ok sm) hd_caches0 hd_front0 12 two_blocks 0 _ HR);
    [lia|done|by left|lia|done]|].
  intros r st' (p & -> & _ & [(-> & _)|(_ & Hp & _)]); [by exists 0|by exists p].
Defined.

Lemma pvalloc_wraps_witness : exists sm (st : Malloc (PageHeap PM48 (gset Z)) unit),
  paged tc_pvalloc sm (2 ^ 64 - 1) st = on tc_memalign sm 4096 0 st.
Proof.
  destruct held_state as (sm & st & _). exists sm, (with_pagesize 4096 st).
  apply (paged pvalloc_wraps sm 12 (2 ^ 64 - 1)); [lia|done|lia].
Defined.

Lemma negative_threshold_reports_witness : exists st st' : Malloc (PageHeap PM48 (gset Z)) unit,
  should_report_large true (-1) 40 st = Ret (true, st').
Proof.
  destruct held_state as (sm & st & _). exists (with_threshold 0 st).
  apply (negative_threshold_reports true (-1) 40 (with_threshold 0 st)); [done|lia|done|lia].
Defined.

Lemma central_serves_caches_witness : exists sm,
  CentralCacheLaws (C := Central (PageHeap PM48 (gset Z))) (CentralCache0 := central_lists sm alone) sm (Keeps sm ∅ ∅).
Proof.
  destruct held_state as (sm & st & []). exists sm.
  apply (central_serves_caches sm alone alone_stay hd_central0 (alone_ok sm)).
Defined.
