(* ===== verification/MallocExtension.v ===== *)
(** * The extension interface

    Models the class [TCMallocImplementation] of tcmalloc.cc with
    [ExtractStats] and [IterateOverRanges], and [PageHeap::GetNextRange] of
    page_heap.cc: the numeric properties, read and written, the sizes of the
    free lists, the walk over the heap, ownership of addresses, and the
    release of memory and of a thread's cache. The flags that the properties
    change are part of the state. *)
From Stdlib Require Import String.
From S2P Require Import Prelude Common Sampler ThreadCache PageMap PackedCache Span SysEnv PageHeap CentralFreeList CentralCaches CentralPageHeap Malloc.
Import SizeMap.
#[local] Open Scope Z_scope.

(** ** Data *)

Record TCMallocStats := mkTCMallocStats {
  thread_bytes : Z; central_bytes : Z; transfer_bytes : Z; metadata_bytes : Z; pageheap_stats : Stats }.

Inductive range_type := INUSE | FREE | UNMAPPED | UNKNOWN.
Record MallocRange := mkRange { address : Z; range_length : Z; type_ : range_type; fraction : double }.

Record FreeListInfo := mkFreeList { min_object_size : Z; max_object_size : Z; total_bytes_free : Z; list_type : string }.
Definition kCentralCacheType : string := "tcmalloc.central".
Definition kTransferCacheType : string := "tcmalloc.transfer".
Definition kThreadCacheType : string := "tcmalloc.thread".
Definition kPageHeapType : string := "tcmalloc.page".
Definition kPageHeapUnmappedType : string := "tcmalloc.page_unmapped".
Definition kLargeSpanType : string := "tcmalloc.large".
Definition kLargeUnmappedSpanType : string := "tcmalloc.large_unmapped".

Inductive Ownership := kUnknownOwnership | kOwned | kNotOwned.

(** [TestingPortal::kMagic]. *)
Definition kMagic : string := "tcmalloc.impl.testing-portal".

(** The allocator, the member of the extension object, and the flags and
    the system allocator that its methods read and write. *)
Record Extension (PM E U : Type) := mkExtension {
  impl : Malloc (PageHeap PM E) U;
  extra_bytes_released_ : Z;
  FLAGS_tcmalloc_sample_parameter : Z;
  FLAGS_tcmalloc_heap_limit_mb : Z;
  FLAGS_tcmalloc_release_rate : double;
  tcmalloc_sys_alloc : Z }.
Arguments mkExtension {PM E U}. Arguments impl {PM E U}. Arguments extra_bytes_released_ {PM E U}.
Arguments FLAGS_tcmalloc_sample_parameter {PM E U}. Arguments FLAGS_tcmalloc_heap_limit_mb {PM E U}.
Arguments FLAGS_tcmalloc_release_rate {PM E U}. Arguments tcmalloc_sys_alloc {PM E U}.

Module EX.
Section Extension.
Context {PM E U : Type} `{!PageMap PM} `{!SysEnv E}.
Abbreviation heap := (PageHeap PM E).
Abbreviation malloc := (Malloc heap U).
Abbreviation ext := (Extension PM E U).
(** [Static::sizemap()], what other threads do while no central lock is
    held, the smallest span, the counter of metadata, the range of the
    emergency allocator. *)
Context (sizemap : SizeMap) (others : M (Central heap) unit) (smallest_span_size_ : Z).
Context (metadata_system_bytes : E -> Z) (IsEmergencyPtr : Z -> bool).

Definition in_central {A} (m : M (Central heap) A) : M malloc A := MA.in_threads (TC.in_central m).
Definition read_heap {A} (f : heap -> A) : M malloc A := st ← getS; mret (f (MA.pageheap_of st)).

(** ** Statistics *)

(** One class of the loop of [ExtractStats]. [int] arithmetic on the two
    lengths must not overflow. *)
Definition class_stats (counting : bool) (cl : Z) (acc : Z * Z * list Z) : M malloc (Z * Z * list Z) :=
  let '(central_bytes, transfer_bytes, class_count) := acc in
  length ← in_central (CFL.length_of cl);
  tc_length ← in_central (CFL.tc_length sizemap cl);
  cache_overhead ← in_central (CFL.OverheadBytes sizemap cl);
  size ← liftM (ByteSizeForClass sizemap cl);
  let size := u64 size in
  let central_bytes := u64 (central_bytes + u64 (u64 (size * u64 length) + cache_overhead)) in
  let transfer_bytes := u64 (transfer_bytes + u64 (size * u64 tc_length)) in
  if counting then
    if (length + tc_length <? 2 ^ 31) && (- 2 ^ 31 <=? length + tc_length)
    then mret (central_bytes, transfer_bytes, class_count ++ [u64 (length + tc_length)])
    else liftM (Fault Undefined)
  else mret (central_bytes, transfer_bytes, class_count).
Fixpoint all_class_stats (counting : bool) (l : list Z) (acc : Z * Z * list Z) : M malloc (Z * Z * list Z) :=
  match l with
  | [] => mret acc
  | cl :: l => acc ← class_stats counting cl acc; all_class_stats counting l acc
  end.

(** The statistics, and the counts of objects, of small and of large spans
    where they are asked for. *)
Definition ExtractStats (class_count small_spans large_spans : bool)
    : M malloc (TCMallocStats * option (list Z) * option (list (Z * Z)) * option (Z * Z * Z)) :=
  '(central_bytes, transfer_bytes, counts) ← all_class_stats class_count (for_range 0 (num_size_classes sizemap - 1) 1) (0, 0, []);
  '(thread_bytes, counts) ← MA.in_threads (TC.GetThreadStats sizemap 0 (if class_count then Some counts else None));
  metadata_bytes ← read_heap (fun h => metadata_system_bytes (PageHeap.env h));
  stats ← read_heap stats_;
  small ← read_heap PH.GetSmallSpanStatsLocked;
  large ← read_heap PH.GetLargeSpanStatsLocked;
  mret (mkTCMallocStats thread_bytes central_bytes transfer_bytes metadata_bytes stats, counts,
        if small_spans then Some small else None, if large_spans then Some large else None).
Definition stats_only : M malloc TCMallocStats := '(r, _, _, _) ← ExtractStats false false false; mret r.

Definition GetThreadCacheSize : M malloc Z :=
  tc ← MA.GetIfPresent;
  if tc =? 0 then mret 0 else v ← MA.in_threads (TC.get_tc tc); mret (u64 (size_ v)).

(** ** Properties *)

Definition in_impl {A} (m : M malloc A) : M ext A := fun x =>
  match m (impl x) with
  | Ret (a, st) => Ret (a, mkExtension st (extra_bytes_released_ x) (FLAGS_tcmalloc_sample_parameter x)
      (FLAGS_tcmalloc_heap_limit_mb x) (FLAGS_tcmalloc_release_rate x) (tcmalloc_sys_alloc x))
  | Fault f => Fault f
  end.
Definition with_extra (v : Z) (x : ext) : ext := mkExtension (impl x) v (FLAGS_tcmalloc_sample_parameter x)
  (FLAGS_tcmalloc_heap_limit_mb x) (FLAGS_tcmalloc_release_rate x) (tcmalloc_sys_alloc x).
Definition with_sample_parameter (v : Z) (x : ext) : ext := mkExtension (impl x) (extra_bytes_released_ x) v
  (FLAGS_tcmalloc_heap_limit_mb x) (FLAGS_tcmalloc_release_rate x) (tcmalloc_sys_alloc x).
Definition with_heap_limit (v : Z) (x : ext) : ext := mkExtension (impl x) (extra_bytes_released_ x)
  (FLAGS_tcmalloc_sample_parameter x) v (FLAGS_tcmalloc_release_rate x) (tcmalloc_sys_alloc x).
Definition with_release_rate (v : double) (x : ext) : ext := mkExtension (impl x) (extra_bytes_released_ x)
  (FLAGS_tcmalloc_sample_parameter x) (FLAGS_tcmalloc_heap_limit_mb x) v (tcmalloc_sys_alloc x).
Definition with_sys_alloc (v : Z) (x : ext) : ext := mkExtension (impl x) (extra_bytes_released_ x)
  (FLAGS_tcmalloc_sample_parameter x) (FLAGS_tcmalloc_heap_limit_mb x) (FLAGS_tcmalloc_release_rate x) v.

Definition current_allocated_bytes (s : TCMallocStats) : Z :=
  u64 (system_bytes (pageheap_stats s) - thread_bytes s - central_bytes s - transfer_bytes s
       - free_bytes (pageheap_stats s) - unmapped_bytes (pageheap_stats s)).
Definition total_physical_bytes (s : TCMallocStats) : Z :=
  u64 (system_bytes (pageheap_stats s) + metadata_bytes s - unmapped_bytes (pageheap_stats s)).

(** Result: the value, and whether the portal was stored before it; [None]
    for an unknown name. *)
Definition from_stats (f : TCMallocStats -> Z) : M ext (option (Z * bool)) := s ← in_impl stats_only; mret (Some (f s, false)).
Definition from_pageheap (f : Stats -> Z) : M ext (option (Z * bool)) := s ← in_impl (read_heap stats_); mret (Some (f s, false)).
Definition from_caches (f : Caches (Central heap) -> Z) : M ext (option (Z * bool)) := x ← getS; mret (Some (f (threads (impl x)), false)).
Definition GetNumericProperty (name : string) : M ext (option (Z * bool)) :=
  if String.eqb name "generic.current_allocated_bytes" then from_stats current_allocated_bytes
  else if String.eqb name "generic.heap_size" then from_stats (fun s => system_bytes (pageheap_stats s))
  else if String.eqb name "generic.total_physical_bytes" then from_stats total_physical_bytes
  else if String.eqb name "tcmalloc.slack_bytes" then from_pageheap (fun s => u64 (free_bytes s + unmapped_bytes s))
  else if String.eqb name "tcmalloc.central_cache_free_bytes" then from_stats central_bytes
  else if String.eqb name "tcmalloc.transfer_cache_free_bytes" then from_stats transfer_bytes
  else if String.eqb name "tcmalloc.thread_cache_free_bytes" then from_stats thread_bytes
  else if String.eqb name "tcmalloc.pageheap_free_bytes" then from_pageheap free_bytes
  else if String.eqb name "tcmalloc.pageheap_unmapped_bytes" then from_pageheap unmapped_bytes
  else if String.eqb name "tcmalloc.pageheap_committed_bytes" then from_pageheap committed_bytes
  else if String.eqb name "tcmalloc.pageheap_scavenge_count" then from_pageheap scavenge_count
  else if String.eqb name "tcmalloc.pageheap_commit_count" then from_pageheap commit_count
  else if String.eqb name "tcmalloc.pageheap_total_commit_bytes" then from_pageheap total_commit_bytes
  else if String.eqb name "tcmalloc.pageheap_decommit_count" then from_pageheap decommit_count
  else if String.eqb name "tcmalloc.pageheap_total_decommit_bytes" then from_pageheap total_decommit_bytes
  else if String.eqb name "tcmalloc.pageheap_reserve_count" then from_pageheap reserve_count
  else if String.eqb name "tcmalloc.pageheap_total_reserve_bytes" then from_pageheap total_reserve_bytes
  else if String.eqb name "tcmalloc.max_total_thread_cache_bytes" then from_caches overall_thread_cache_size_
  else if String.eqb name "tcmalloc.min_per_thread_cache_bytes" then from_caches min_per_thread_cache_size_
  else if String.eqb name "tcmalloc.current_total_thread_cache_bytes" then from_stats thread_bytes
  else if String.eqb name "tcmalloc.aggressive_memory_decommit" then
    b ← in_impl (read_heap aggressive_decommit_); mret (Some (if b : bool then 1 else 0, false))
  else if String.eqb name "tcmalloc.heap_limit_mb" then x ← getS; mret (Some (u64 (FLAGS_tcmalloc_heap_limit_mb x), false))
  else if String.eqb name "tcmalloc.impl.thread_cache_count" then from_caches (fun ts => u64 (thread_heap_count_ ts))
  else if String.eqb name "tcmalloc.sample_parameter" then x ← getS; mret (Some (u64 (FLAGS_tcmalloc_sample_parameter x), false))
  else if String.eqb name kMagic then mret (Some (1, true))
  else mret None.

(** ** Giving memory back *)

(** [ThreadCachePtr::ReleaseAndClear], then [ThreadCache::DeleteCache]
    where there was a cache. Deleting spans reads the flags. *)
Definition ReleaseAndClear : M malloc Z :=
  cache ← MA.GetIfPresent;
  _ ← (if cache =? 0 then mret tt else modS (MA.with_tls 0));
  mret cache.
Definition MarkThreadIdle : M ext unit :=
  x ← getS;
  cache ← in_impl ReleaseAndClear;
  if cache =? 0 then mret tt else
  in_impl (MA.in_threads (TC.DeleteCache (C := Central heap)
    (CentralCache0 := @central_lists heap (page_heap_spans (FLAGS_tcmalloc_release_rate x) (FLAGS_tcmalloc_heap_limit_mb x) smallest_span_size_)
       (page_heap_objects (FLAGS_tcmalloc_release_rate x) (FLAGS_tcmalloc_heap_limit_mb x) smallest_span_size_) sizemap others)
    sizemap cache)).
Definition MarkThreadTemporarilyIdle : M ext unit := MarkThreadIdle.

Definition SetNumericProperty (name : string) (value : Z) : M ext bool :=
  if String.eqb name "tcmalloc.max_total_thread_cache_bytes" then
    _ ← in_impl (MA.in_threads (TC.set_overall_thread_cache_size value)); mret true
  else if String.eqb name "tcmalloc.min_per_thread_cache_bytes" then
    _ ← in_impl (MA.in_threads (TC.set_min_per_thread_cache_size value)); mret true
  else if String.eqb name "tcmalloc.aggressive_memory_decommit" then
    _ ← in_impl (MA.in_pageheap (PH.SetAggressiveDecommit (negb (value =? 0)))); mret true
  else if String.eqb name "tcmalloc.heap_limit_mb" then
    _ ← modS (with_heap_limit (s64 value)); mret true
  else if String.eqb name "tcmalloc.sample_parameter" then
    _ ← modS (with_sample_parameter (s64 value)); _ ← MarkThreadIdle; mret true
  else mret false.

Definition ReleaseToSystem (num_bytes : Z) : M ext unit :=
  x ← getS;
  if num_bytes <=? extra_bytes_released_ x then modS (with_extra (extra_bytes_released_ x - num_bytes))
  else
    let num_bytes := num_bytes - extra_bytes_released_ x in
    let num_pages := Z.max (Z.shiftr num_bytes kPageShift) 1 in
    released ← in_impl (MA.in_pageheap (PH.ReleaseAtLeastNPages num_pages));
    let bytes_released := u64 (Z.shiftl released kPageShift) in
    if bytes_released >? num_bytes then modS (with_extra (bytes_released - num_bytes)) else modS (with_extra 0).

Definition SetMemoryReleaseRate (rate : double) : M ext unit := modS (with_release_rate rate).
Definition GetMemoryReleaseRate : M ext double := x ← getS; mret (FLAGS_tcmalloc_release_rate x).
Definition GetSystemAllocator : M ext Z := x ← getS; mret (tcmalloc_sys_alloc x).
Definition SetSystemAllocator (alloc : Z) : M ext unit := modS (with_sys_alloc alloc).

(** ** Addresses *)

Definition GetOwnership (ptr : Z) : M malloc Ownership :=
  h ← read_heap (fun h => h);
  let p := Z.shiftr ptr kPageShift in
  if Z.shiftr p (kAddressBits - kPageShift) >? 0 then mret kNotOwned
  else match PackedCache.TryGet (pagemap_cache_ h) p with
       | Some _ => mret kOwned
       | None => if negb (PH.GetDescriptor p h =? 0) then mret kOwned
                 else mret (if IsEmergencyPtr ptr then kOwned else kNotOwned)
       end.

(** [PageHeap::GetNextRange]: the span of the first page at or behind
    [start] that the page map knows. *)
Definition range_of (s : Span) : outcome MallocRange :=
  let address := u64 (Z.shiftl (start s) kPageShift) in
  let length := u64 (Z.shiftl (Span.length_ s) kPageShift) in
  match location s with
  | IN_USE =>
      if sizeclass s >? 0 then
        osize ← class_to_size sizemap (sizeclass s);
        Ret (mkRange address length INUSE (d_div (d_mul (d_mul (d_of_Z 1) (d_of_Z osize)) (d_of_Z (refcount s))) (d_of_Z length)))
      else Ret (mkRange address length INUSE (d_of_Z 1))
  | ON_NORMAL_FREELIST => Ret (mkRange address length FREE (d_of_Z 0))
  | ON_RETURNED_FREELIST => Ret (mkRange address length UNMAPPED (d_of_Z 0))
  end.
Definition GetNextRange (start : Z) (h : heap) : outcome (option MallocRange) :=
  span ← pm_next (pagemap_ h) start;
  if span =? 0 then Ret None else s ← deref (spans h !! span); r ← range_of s; Ret (Some r).

(** [IterateOverRanges] takes the ranges sixteen at a time under the lock
    and passes them to [func] without it. The state of the inner loop is
    the page and the ranges taken. *)
Definition kNumRanges : nat := 16.
Definition fill_ranges (h : heap) (page : Z) : outcome (bool * Z * list MallocRange) :=
  loop (S kNumRanges) (fun '(page, ranges) =>
    if (length ranges <? kNumRanges)%nat then
      r ← GetNextRange page h;
      match r with
      | None => Ret (inr (true, page, ranges))
      | Some r =>
          let limit := u64 (address r + range_length r) in
          Ret (inl (Z.shiftr (u64 (limit + kPageSize - 1)) kPageShift, ranges ++ [r]))
      end
    else Ret (inr (false, page, ranges))) (page, []).
Fixpoint call_each (func : MallocRange -> M malloc unit) (ranges : list MallocRange) : M malloc unit :=
  match ranges with
  | [] => mret tt
  | r :: ranges => _ ← func r; call_each func ranges
  end.
Definition IterateOverRanges (fuel : nat) (func : MallocRange -> M malloc unit) : M malloc unit :=
  loopM fuel (fun page =>
    h ← read_heap (fun h => h);
    '(done, page, ranges) ← liftM (fill_ranges h page);
    _ ← call_each func ranges;
    mret (if done : bool then inr tt else inl page)) 1.

(** ** Sizes of the free lists *)

(** The classes with the transfer caches, then the thread caches. *)
Fixpoint central_infos (l : list Z) (prev_class_size : Z) : M malloc (list FreeListInfo) :=
  match l with
  | [] => mret []
  | cl :: l =>
      class_size ← liftM (ByteSizeForClass sizemap cl);
      let class_size := u64 class_size in
      length ← in_central (CFL.length_of cl);
      tc_length ← in_central (CFL.tc_length sizemap cl);
      rest ← central_infos l (s64 class_size);
      mret (mkFreeList (u64 (prev_class_size + 1)) class_size (u64 (u64 length * class_size)) kCentralCacheType ::
            mkFreeList (u64 (prev_class_size + 1)) class_size (u64 (u64 tc_length * class_size)) kTransferCacheType :: rest)
  end.
Fixpoint thread_infos (class_count : list Z) (l : list Z) (prev_class_size : Z) : outcome (list FreeListInfo) :=
  match l with
  | [] => Ret []
  | cl :: l =>
      class_size ← ByteSizeForClass sizemap cl;
      let class_size := u64 class_size in
      n ← deref (class_count !! Z.to_nat cl);
      rest ← thread_infos class_count l (s64 class_size);
      Ret (mkFreeList (u64 (prev_class_size + 1)) class_size (u64 (n * class_size)) kThreadCacheType :: rest)
  end.
Definition small_infos (i : Z) (lengths : Z * Z) : list FreeListInfo :=
  let s := i + 1 in
  let bytes := Z.shiftl s kPageShift in
  [mkFreeList (Z.shiftl (s - 1) kPageShift) bytes (u64 (bytes * u64 (lengths.1))) kPageHeapType;
   mkFreeList (Z.shiftl (s - 1) kPageShift) bytes (u64 (bytes * u64 (lengths.2))) kPageHeapUnmappedType].
Definition GetFreeListSizes : M malloc (list FreeListInfo) :=
  let classes := for_range 1 (num_size_classes sizemap - 1) 1 in
  central ← central_infos classes 0;
  '(_, counts) ← MA.in_threads (TC.GetThreadStats sizemap 0 (Some (replicate (Z.to_nat kClassSizesMax) 0)));
  threads ← liftM (c ← deref counts; thread_infos c classes 0);
  small ← read_heap PH.GetSmallSpanStatsLocked;
  large ← read_heap PH.GetLargeSpanStatsLocked;
  let '(_, normal_pages, returned_pages) := large in
  mret (central ++ threads ++
        mkFreeList (Z.shiftl kMaxPages kPageShift) (2 ^ 64 - 1) (u64 (Z.shiftl normal_pages kPageShift)) kLargeSpanType ::
        mkFreeList (Z.shiftl kMaxPages kPageShift) (2 ^ 64 - 1) (u64 (Z.shiftl returned_pages kPageShift)) kLargeUnmappedSpanType ::
        concat (imap (fun i l => small_infos (Z.of_nat i) l) small)).
End Extension.
End EX.
