(* ===== verification/MemoryAccounts.v ===== *)
(** * Where the memory is

    Every byte obtained from the system is on a free list of the page heap,
    in an object that is free in its span, in a transfer cache or in a
    thread's cache, in the tail of a span, or in somebody's hands. The sums
    that the statistics report (MallocExtension.v) are compared with the
    places of the objects in the invariants of the layers. *)
From S2P Require Import Prelude Common Sampler ThreadCache ThreadCacheSpec PageMap PackedCache Span SysEnv PageHeap PageHeapInv PageHeapOps PageHeapRelease PageHeapAlloc SystemAlloc SystemAllocSpec PageHeapSpec PageHeapFrame CentralFreeList CentralFreeListInv CentralFreeListSpec CentralCaches CentralPageHeap Malloc MallocInv.
Import SizeMap.

(** ** Sums *)

Lemma sumZ_append f l l' : sumZ f (l ++ l') = sumZ f l + sumZ f l'.
Proof. unfold sumZ in *. induction l as [|x l IH]; cbn; lia. Qed.
Lemma sumZ_add f g l : sumZ (fun x => f x + g x) l = sumZ f l + sumZ g l.
Proof. unfold sumZ in *. induction l as [|x l IH]; cbn; lia. Qed.
Lemma sumZ_scale k f l : sumZ (fun x => k * f x) l = k * sumZ f l.
Proof. unfold sumZ in *. induction l as [|x l IH]; cbn; lia. Qed.
Lemma sumZ_const f k l : (forall x, x ∈ l -> f x = k) -> sumZ f l = k * Z.of_nat (length l).
Proof.
  induction l as [|x l IH]; intros Hf; cbn [sumZ foldr length]; [lia|]. fold (sumZ f l).
  rewrite Hf, IH by (set_solver || (intros; apply Hf; set_solver)). lia.
Qed.
Lemma sumZ_le f g l : (forall x, x ∈ l -> f x <= g x) -> sumZ f l <= sumZ g l.
Proof.
  induction l as [|x l IH]; intros Hf; cbn; [lia|]. fold (sumZ f l) (sumZ g l).
  specialize (Hf x ltac:(set_solver)) as Hx. enough (sumZ f l <= sumZ g l) by lia. apply IH. intros. apply Hf. set_solver.
Qed.
Lemma sumZ_pos f l : (forall x, x ∈ l -> 0 <= f x) -> 0 <= sumZ f l.
Proof. intros Hf. etrans; [|by apply (sumZ_le (fun _ => 0))]. rewrite (sumZ_const _ 0) by done. lia. Qed.
Lemma sumZ_fmap f (g : Z -> Z) l : sumZ f (g <$> l) = sumZ (fun x => f (g x)) l.
Proof. unfold sumZ. induction l as [|x l IH]; cbn; [done|]. by rewrite <- IH. Qed.
Lemma sumZ_bind f (g : Z -> list Z) l : sumZ f (l ≫= g) = sumZ (fun x => sumZ f (g x)) l.
Proof. induction l as [|x l IH]; [done|]. rewrite bind_cons, sumZ_append, IH. done. Qed.
Lemma length_bind_sum (g : Z -> list Z) l : Z.of_nat (length (l ≫= g)) = sumZ (fun x => Z.of_nat (length (g x))) l.
Proof. induction l as [|x l IH]; [done|]. rewrite bind_cons, length_app, Nat2Z.inj_add, IH. done. Qed.
Lemma sumZ_in f l x : (forall y, 0 <= f y) -> x ∈ l -> f x <= sumZ f l.
Proof.
  intros Hf. induction l as [|y l IH]; intros Hx; [by apply elem_of_nil in Hx|]. cbn. fold (sumZ f l). pose proof (sumZ_nonneg f l Hf).
  apply elem_of_cons in Hx as [->|Hx]; [lia|]. specialize (Hf y). specialize (IH Hx). lia.
Qed.

(** The bytes of the objects [m], each with its class. *)
Definition bytes_in (sz : Z -> Z) (m : gmap Z Z) : Z := sumZ (fun x => sz (default 0 (m !! x))) (elements (dom m)).

Lemma bytes_list sz m l : NoDup l -> (forall x, x ∈ l <-> is_Some (m !! x)) -> bytes_in sz m = sumZ (fun x => sz (default 0 (m !! x))) l.
Proof.
  intros Hl Hm. apply sumZ_perm, NoDup_Permutation; [apply NoDup_elements|done|]. intros x.
  by rewrite elem_of_elements, elem_of_dom, Hm.
Qed.
Lemma bytes_nonneg sz m : (forall c, 0 <= sz c) -> 0 <= bytes_in sz m.
Proof. intros Hs. by apply sumZ_nonneg. Qed.
Lemma bytes_split sz m m' : m' ⊆ m -> bytes_in sz m = bytes_in sz m' + bytes_in sz (m ∖ m').
Proof.
  intros Hs. rewrite (bytes_list sz m (elements (dom m') ++ elements (dom (m ∖ m')))).
  - rewrite sumZ_append. unfold bytes_in. f_equal; apply sumZ_ext; intros x Hx; f_equal; f_equal.
    + apply elem_of_elements, elem_of_dom in Hx as [c Hc]. rewrite Hc. by eapply lookup_weaken.
    + apply elem_of_elements, elem_of_dom in Hx as [c Hc]. rewrite Hc. by apply lookup_difference_Some in Hc as [? _].
  - apply NoDup_app. split; [apply NoDup_elements|]. split; [|apply NoDup_elements].
    intros x Hx Hx'. rewrite elem_of_elements, elem_of_dom in Hx. rewrite elem_of_elements, elem_of_dom in Hx'.
    destruct Hx as [c Hc], Hx' as [c' Hc']. apply lookup_difference_Some in Hc' as [_ ?]. congruence.
  - intros x. rewrite elem_of_app, !elem_of_elements, !elem_of_dom. split.
    + intros [[c Hc]|[c Hc]]; [exists c; by eapply lookup_weaken|]. apply lookup_difference_Some in Hc as [? _]. by exists c.
    + intros [c Hc]. destruct (m' !! x) eqn:E; [left; by eexists|]. right. exists c. by apply lookup_difference_Some.
Qed.

Lemma msum_add w w' S : msum (fun p s => w p s + w' p s) S = msum w S + msum w' S.
Proof. induction S as [|p s S Hp IH] using map_ind; [done|]. rewrite !msum_insert by done. lia. Qed.
(** A sum over descriptors with those of a list taken out. *)
Lemma msum_take_one w S p s : S !! p = Some s -> msum w S = w p s + msum (fun q t => if decide (q = p) then 0 else w q t) S.
Proof.
  intros Hp. rewrite <- (insert_delete_id S p s Hp), !msum_insert by apply lookup_delete_eq. rewrite decide_True by done.
  rewrite (msum_ext (fun q t => if decide (q = p) then 0 else w q t) w); [lia|].
  intros q t Hq. rewrite decide_False; [done|]. intros ->. by rewrite lookup_delete_eq in Hq.
Qed.
Lemma msum_take w S l : NoDup l -> (forall p, p ∈ l -> is_Some (S !! p)) ->
  msum w S = sumZ (fun p => match S !! p with Some s => w p s | None => 0 end) l + msum (fun p s => if decide (p ∈ l) then 0 else w p s) S.
Proof.
  induction l as [|p l IH]; intros Hn HS.
  { rewrite (msum_ext (fun p s => if decide (p ∈ []) then 0 else w p s) w); [done|]. intros p s _. by rewrite decide_False by apply not_elem_of_nil. }
  apply NoDup_cons in Hn as [Hp Hn]. rewrite IH by (try done; intros; apply HS; set_solver).
  destruct (HS p) as [s Hs]; [set_solver|]. cbn [sumZ foldr]. rewrite Hs, (msum_take_one _ _ _ _ Hs), decide_False by done.
  rewrite (msum_ext (fun q t => if decide (q ∈ p :: l) then 0 else w q t) (fun q t => if decide (q = p) then 0 else if decide (q ∈ l) then 0 else w q t)).
  - fold (sumZ (fun p => match S !! p with Some s => w p s | None => 0 end) l). lia.
  - intros q t _. repeat case_decide; set_solver.
Qed.

(** ** The page heap *)

Definition inuse_pages (S : gmap Z Span) : Z := pages_on IN_USE S.

Lemma pages_on_listed loc S : loc <> IN_USE -> pages_on loc (PageHeapInv.listed ∅ S) = pages_on loc S.
Proof.
  intros Hl. unfold pages_on. induction S as [|p s S Hp IH] using map_ind; [done|].
  rewrite (msum_insert _ S) by done. destruct (decide (location s = IN_USE)) as [E|E].
  - unfold PageHeapInv.listed. rewrite map_filter_insert_False by naive_solver. rewrite delete_id by done. fold (PageHeapInv.listed ∅ S).
    rewrite IH, (decide_False (P := location s = loc)) by congruence. lia.
  - unfold PageHeapInv.listed. rewrite map_filter_insert_True by set_solver. fold (PageHeapInv.listed ∅ S).
    rewrite msum_insert by (apply map_lookup_filter_None; by left). by rewrite IH.
Qed.
Lemma pages_split S : total_pages S = pages_on ON_NORMAL_FREELIST S + pages_on ON_RETURNED_FREELIST S + pages_on IN_USE S.
Proof.
  unfold total_pages, pages_on. rewrite <- !msum_add. apply msum_ext. intros p s _. destruct (location s); repeat case_decide; try congruence; lia.
Qed.

Section Heap.
Context {PM E : Type} `{!PageMap PM} `{!PageMapLaws PM} `{!SysEnv E} `{!SysEnvLaws E}.
Implicit Types h : PageHeap PM E.

(** What the page heap has handed out, in pages, and what it lost. *)
Lemma heap_balance h : Inv ∅ 0 h -> exists lost, 0 <= lost /\ total_pages (spans h) + lost <= Z.of_nat (size (taken_pages (env h))) /\
  system_bytes (stats_ h) - free_bytes (stats_ h) - unmapped_bytes (stats_ h) = kPageSize * (inuse_pages (spans h) + lost) /\
  0 <= free_bytes (stats_ h) /\ 0 <= unmapped_bytes (stats_ h) /\ system_bytes (stats_ h) < 2 ^ 44.
Proof.
  intros HI. destruct (inv_total _ _ _ HI) as (lost & Hl & Es & Hle). exists lost. split; [done|]. split; [done|]. pose proof (taken_size _ (inv_env _ _ _ HI)).
  destruct (inv_books _ _ _ HI) as [Hf Hu _]. rewrite pages_on_listed in Hf, Hu by done. rewrite pages_split in Es, Hle.
  assert (forall loc, 0 <= pages_on loc (spans h)) as Hp.
  { intros loc. apply msum_nonneg. intros p s Hp. destruct (geo_wf _ _ _ _ (inv_geo _ _ _ HI) p s Hp). case_decide; lia. }
  pose proof (Hp ON_NORMAL_FREELIST). pose proof (Hp ON_RETURNED_FREELIST). pose proof (Hp IN_USE).
  rewrite u64_small in Hf, Hu by clia. unfold inuse_pages. clia.
Qed.
End Heap.

(** ** The objects of a class *)

Section Objects.
Context {H : Type} `{!SpanHeap H} `{!SpanHeapLaws H}.
Context (sizemap : SizeMap) (Hsm : sizemap_ok (H := H) sizemap).
Abbreviation ncl := (num_size_classes sizemap).
Abbreviation csize := (csize sizemap).
Abbreviation cpages := (cpages sizemap).
Abbreviation nobj := (nobj sizemap).
Implicit Types (h : H) (c : CentralFreeList) (st : Central H).

(** The slots and the free objects of a span. *)
Definition slots_at h (cl p : Z) : list Z := match ph_read h p with Some s => all_slots sizemap s cl | None => [] end.
Definition free_at h (p : Z) : list Z := match ph_read h p with Some s => objects s | None => [] end.

Lemma listed_span h cl c O p : class_inv sizemap h cl c O -> p ∈ listed c -> exists s, ph_read h p = Some s /\ good sizemap h cl p s.
Proof using. intros HK Hp. destruct (k_good _ _ _ _ _ HK p Hp) as (s & Hs). exists s. by destruct (gd_use _ _ _ _ _ Hs). Qed.

Lemma slots_nodup h cl c O : ph_wf h -> 1 <= cl < ncl -> class_inv sizemap h cl c O -> NoDup (listed c ≫= slots_at h cl).
Proof using Hsm SpanHeapLaws0.
  intros Hwf Hcl HK. apply NoDup_bind; [| |apply HK].
  - intros p q x Hp Hq Hx Hy. destruct (listed_span _ _ _ _ _ HK Hp) as (s & Es & Hs), (listed_span _ _ _ _ _ HK Hq) as (t & Et & Ht).
    unfold slots_at in Hx, Hy. rewrite Es in Hx. rewrite Et in Hy. apply elem_all_slots in Hx, Hy.
    by destruct (slot_unique sizemap Hsm _ _ _ _ _ _ _ _ Hwf Hs Ht Hx Hy).
  - intros p _. unfold slots_at. destruct (ph_read h p); [by apply NoDup_all_slots|constructor].
Qed.
Lemma free_sub h cl c O p x : class_inv sizemap h cl c O -> p ∈ listed c -> x ∈ free_at h p -> x ∈ slots_at h cl p.
Proof using.
  intros HK Hp. destruct (listed_span _ _ _ _ _ HK Hp) as (s & Es & Hs). unfold free_at, slots_at. rewrite Es. intros Hx.
  apply elem_all_slots. by apply (gd_slots _ _ _ _ _ Hs).
Qed.

(** Each slot of the class is free, in the transfer cache or out. *)
Lemma class_objects h cl c O outs : ph_wf h -> 1 <= cl < ncl -> class_inv sizemap h cl c O -> NoDup outs -> (forall x, x ∈ outs <-> O x) ->
  listed c ≫= slots_at h cl ≡ₚ (listed c ≫= free_at h) ++ tc_objs c ++ outs.
Proof using Hsm SpanHeapLaws0.
  intros Hwf Hcl HK Hn HO. pose proof (slots_nodup _ _ _ _ Hwf Hcl HK) as HA.
  assert (forall x, busy sizemap h cl c x <-> x ∈ tc_objs c ++ outs) as Hb by (intros x; rewrite <- (k_busy _ _ _ _ _ HK), elem_of_app, HO; tauto).
  assert (forall x p, p ∈ listed c -> x ∈ free_at h p -> busy sizemap h cl c x -> False) as Hex.
  { intros x p Hp Hx (q & t & Hq & Et & Hs & Hnx). assert (q = p) as ->.
    { destruct (listed_span _ _ _ _ _ HK Hp) as (s & Es & Hg), (listed_span _ _ _ _ _ HK Hq) as (t' & Et' & Hg').
      assert (t' = t) as -> by congruence. pose proof (free_sub _ _ _ _ _ _ HK Hp Hx) as Hx'. unfold slots_at in Hx'. rewrite Es in Hx'.
      apply elem_all_slots in Hx'. by destruct (slot_unique sizemap Hsm _ _ _ _ _ _ _ _ Hwf Hg' Hg Hs Hx'). }
    unfold free_at in Hx. by rewrite Et in Hx. }
  apply NoDup_Permutation; [done| |].
  - apply NoDup_app. split; [|split].
    + apply NoDup_bind; [| |apply HK].
      * intros p q x Hp Hq Hx Hy. apply (free_sub _ _ _ _ _ _ HK Hp) in Hx. apply (free_sub _ _ _ _ _ _ HK Hq) in Hy.
        destruct (listed_span _ _ _ _ _ HK Hp) as (s & Es & Hs), (listed_span _ _ _ _ _ HK Hq) as (t & Et & Ht).
        unfold slots_at in Hx, Hy. rewrite Es in Hx. rewrite Et in Hy. apply elem_all_slots in Hx, Hy.
        by destruct (slot_unique sizemap Hsm _ _ _ _ _ _ _ _ Hwf Hs Ht Hx Hy).
      * intros p Hp. destruct (listed_span _ _ _ _ _ HK Hp) as (s & Es & Hs). unfold free_at. rewrite Es. apply Hs.
    + intros x (p & Hx & Hp)%list_elem_of_bind Hx'. apply (Hex x p Hp Hx). by apply Hb.
    + apply NoDup_app. split; [apply HK|]. split; [|done]. intros x Hx Hx'. apply (k_tc_out _ _ _ _ _ HK x Hx). by apply HO.
  - intros x. rewrite (elem_of_app _ (tc_objs c ++ outs)), <- Hb, !list_elem_of_bind. split.
    + intros (p & Hx & Hp). destruct (listed_span _ _ _ _ _ HK Hp) as (s & Es & Hs). unfold slots_at in Hx. rewrite Es in Hx. apply elem_all_slots in Hx.
      destruct (decide (x ∈ objects s)); [left; exists p; unfold free_at; by rewrite Es|right; by exists p, s].
    + intros [(p & Hx & Hp)|(p & s & Hp & Es & Hs & _)]; exists p; (split; [|done]); [by eapply free_sub|].
      unfold slots_at. rewrite Es. by apply elem_all_slots.
Qed.
Lemma class_count h cl c O outs : ph_wf h -> 1 <= cl < ncl -> class_inv sizemap h cl c O -> NoDup outs -> (forall x, x ∈ outs <-> O x) ->
  Z.of_nat (length (listed c)) * nobj cl = sumZ (nfree h) (listed c) + Z.of_nat (length (tc_objs c)) + Z.of_nat (length outs).
Proof using Hsm SpanHeapLaws0.
  intros Hwf Hcl HK Hn HO. pose proof (Permutation_length (class_objects _ _ _ _ _ Hwf Hcl HK Hn HO)) as HL.
  rewrite !length_app in HL. apply (f_equal Z.of_nat) in HL. rewrite !Nat2Z.inj_add, !length_bind_sum in HL.
  rewrite (sumZ_const _ (nobj cl)) in HL.
  - rewrite (sumZ_ext _ (nfree h)) in HL; [lia|]. intros p _. unfold free_at, nfree. by destruct (ph_read h p).
  - intros p Hp. destruct (listed_span _ _ _ _ _ HK Hp) as (s & Es & _). unfold slots_at. rewrite Es, length_all_slots.
    destruct (so_class _ Hsm cl Hcl) as (_ & _ & _ & ? & _). lia.
Qed.
(** Class 0 has nothing. *)
Lemma class_zero h c O : class_inv sizemap h 0 c O -> listed c = [] /\ tc_objs c = [] /\ forall x, ~ O x.
Proof using.
  intros HK. assert (listed c = []) as El.
  { destruct (listed c) as [|p l] eqn:El; [done|]. destruct (k_good _ _ _ _ _ HK p) as (s & Hs); [rewrite El; left|]. by destruct (gd_range _ _ _ _ _ Hs). }
  assert (forall x, ~ busy sizemap h 0 c x) as Hb by (intros x (p & _ & Hp & _); rewrite El in Hp; by apply elem_of_nil in Hp).
  split; [done|]. split; [|intros x Hx; apply (Hb x), (k_busy _ _ _ _ _ HK); by left].
  destruct (tc_objs c) as [|x l] eqn:Et; [done|]. destruct (Hb x). apply (k_busy _ _ _ _ _ HK). right. rewrite Et. left.
Qed.

(** ** All classes *)

Definition list_of st (cl : Z) : list Z := match central_cache st !! cl with Some c => listed c | None => [] end.
Definition tc_of st (cl : Z) : list Z := match central_cache st !! cl with Some c => tc_objs c | None => [] end.
Definition outs (out : gmap Z Z) (cl : Z) : list Z := filter (fun x => out !! x = Some cl) (elements (dom out)).
Definition classes : list Z := seqZ 0 ncl.
Definition overhead (cl : Z) : Z := (cpages cl * kPageSize) mod csize cl.
(** Bytes in the lists of a class, with the tails of its spans, and in its
    transfer cache. *)
Definition class_free st (cl : Z) : Z := csize cl * sumZ (nfree (pageheap st)) (list_of st cl) + Z.of_nat (length (list_of st cl)) * overhead cl.
Definition class_tc st (cl : Z) : Z := csize cl * Z.of_nat (length (tc_of st cl)).
Definition all_listed st : list Z := classes ≫= list_of st.

Lemma elem_outs out cl x : x ∈ outs out cl <-> out !! x = Some cl.
Proof using. unfold outs. rewrite list_elem_of_filter, elem_of_elements, elem_of_dom. split; [by intros []|]. intros Hx. split; [done|by eexists]. Qed.
Lemma outs_nodup out cl : NoDup (outs out cl).
Proof using. apply NoDup_filter, NoDup_elements. Qed.
Lemma class_at out st cl : CInv sizemap out st -> cl ∈ classes -> exists c, central_cache st !! cl = Some c /\
  class_inv sizemap (pageheap st) cl c (fun x => out !! x = Some cl) /\ list_of st cl = listed c /\ tc_of st cl = tc_objs c.
Proof using.
  intros HI Hcl%elem_of_seqZ. destruct (ci_class _ _ _ HI cl) as (c & Hc & HK); [lia|]. exists c. unfold list_of, tc_of. by rewrite Hc.
Qed.

Lemma all_listed_nodup out st : CInv sizemap out st -> NoDup (all_listed st).
Proof using.
  intros HI. apply NoDup_bind; [| |apply NoDup_seqZ].
  - intros cl cl' p Hcl Hcl' Hp Hp'. destruct (class_at _ _ _ HI Hcl) as (c & _ & HK & El & _), (class_at _ _ _ HI Hcl') as (c' & _ & HK' & El' & _).
    rewrite El in Hp. rewrite El' in Hp'. destruct (k_good _ _ _ _ _ HK p Hp) as (s & Hs), (k_good _ _ _ _ _ HK' p Hp') as (t & Ht).
    by destruct (good_unique sizemap _ _ _ _ _ _ Hs Ht).
  - intros cl Hcl. destruct (class_at _ _ _ HI Hcl) as (c & _ & HK & -> & _). apply HK.
Qed.

Lemma bytes_by_class out st : CInv sizemap out st -> bytes_in csize out = sumZ (fun cl => csize cl * Z.of_nat (length (outs out cl))) classes.
Proof using.
  intros HI. rewrite (bytes_list _ _ (classes ≫= outs out)).
  - rewrite sumZ_bind. apply sumZ_ext. intros cl _. apply sumZ_const. intros x Hx%elem_outs. by rewrite Hx.
  - apply NoDup_bind; [|intros cl _; apply outs_nodup|apply NoDup_seqZ]. intros cl cl' x _ _ Hx%elem_outs Hx'%elem_outs. congruence.
  - intros x. rewrite list_elem_of_bind. setoid_rewrite elem_outs. split; [intros (cl & Hx & _); by eexists|].
    intros [cl Hx]. exists cl. split; [done|]. apply elem_of_seqZ. pose proof (ci_range _ _ _ HI _ _ Hx). lia.
Qed.

(** The spans of the central lists hold what is free in them and in the
    transfer caches, the tails, and the objects that are out. *)
Lemma central_balance out st : CInv sizemap out st ->
  sumZ (fun cl => Z.of_nat (length (list_of st cl)) * (cpages cl * kPageSize)) classes =
  sumZ (class_free st) classes + sumZ (class_tc st) classes + bytes_in csize out.
Proof using Hsm SpanHeapLaws0.
  intros HI. rewrite (bytes_by_class out st HI), <- !sumZ_add. apply sumZ_ext. intros cl Hcl.
  destruct (class_at _ _ _ HI Hcl) as (c & _ & HK & El & Et). unfold class_free, class_tc. rewrite El, Et.
  apply elem_of_seqZ in Hcl. destruct (decide (cl = 0)) as [->|Hn].
  - destruct (class_zero _ _ _ HK) as (-> & -> & Ho). destruct (outs out 0) as [|x l] eqn:E.
    { cbn. lia. }
    destruct (Ho x). apply elem_outs. rewrite E. left.
  - assert (1 <= cl < ncl) as Hcl' by lia.
    pose proof (class_count _ _ _ _ _ (ci_wf _ _ _ HI) Hcl' HK (outs_nodup out cl) (elem_outs out cl)) as HC.
    destruct (so_class _ Hsm cl Hcl') as (Hs & _). pose proof (Z.div_mod (cpages cl * kPageSize) (csize cl) ltac:(lia)) as HD.
    unfold overhead. fold (nobj cl) in HD. rewrite HD at 1. set (q := nobj cl) in *. set (r := _ mod _). clearbody q r. nia.
Qed.
End Objects.

(** ** Thread caches *)

Section Caches.
Context {C : Type} `{!CentralCache C} (sizemap : SizeMap) (holds : gmap Z Z -> C -> Prop).
Abbreviation csize := (csize sizemap).
Abbreviation ncl := (num_size_classes sizemap).
Implicit Types (ts : Caches C) (loc : gmap Z (option Z * Z)).

(** The objects in caches. *)
Definition cached_objects loc : gmap Z Z := omap (fun p => match p with (Some _, cl) => Some cl | _ => None end) loc.
Definition cache_bytes ts (t : Z) : Z := match heaps ts !! t with Some v => tc_bytes sizemap v | None => 0 end.
Definition list_in ts (t cl : Z) : list Z :=
  match heaps ts !! t with Some v => match ThreadCache.lists v !! cl with Some f => list_ f | None => [] end | None => [] end.

Lemma lookup_cached loc x cl : cached_objects loc !! x = Some cl <-> exists t, loc !! x = Some (Some t, cl).
Proof using. unfold cached_objects. rewrite lookup_omap. destruct (loc !! x) as [[[t|] c]|]; cbn; naive_solver. Qed.
Lemma cached_sub loc : cached_objects loc ⊆ snd <$> loc.
Proof using. apply map_subseteq_spec. intros x cl (t & Hx)%lookup_cached. by rewrite lookup_fmap, Hx. Qed.
Lemma elem_list_in ts t cl x : x ∈ list_in ts t cl <-> cached ts t cl x.
Proof using.
  unfold list_in, cached. destruct (heaps ts !! t) as [v|]; [|split; [by intros ?%elem_of_nil|by intros (v & f & Hv & _)]].
  destruct (ThreadCache.lists v !! cl) as [f|] eqn:Ef; split; [by eexists _, _|naive_solver|by intros ?%elem_of_nil|].
  intros (v' & f & [= <-] & Hf & _). congruence.
Qed.

Lemma cached_bytes loc l ts : TInv sizemap holds loc 0 0 (-1) l ts -> bytes_in csize (cached_objects loc) = sumZ (cache_bytes ts) l.
Proof using.
  intros [_ Hc Htc _ HL].
  assert (forall t, t ∈ l -> exists v, heaps ts !! t = Some v /\ tc_ok sizemap (-1) v) as Hv.
  { intros t Ht. apply (lk_dom _ _ HL) in Ht as [v Hv]. exists v. split; [done|]. specialize (Htc t v Hv). by case_decide. }
  rewrite (bytes_list _ _ (l ≫= (fun t => seqZ 0 ncl ≫= list_in ts t))).
  - rewrite sumZ_bind. apply sumZ_ext. intros t Ht. destruct (Hv t Ht) as (v & Ev & Hok). unfold cache_bytes. rewrite Ev, sumZ_bind.
    apply sumZ_ext. intros cl Hcl%elem_of_seqZ. rewrite (sumZ_const _ (csize cl)).
    + destruct (to_lists _ _ _ Hok cl ltac:(lia)) as (f & Ef & Hf). unfold list_in, list_bytes. rewrite Ev, Ef, (fl_len _ _ _ _ Hf).
      unfold bytes_of_class, CentralFreeListInv.csize. lia.
    + intros x Hx%elem_list_in%Hc. rewrite (proj2 (lookup_cached loc x cl)); [done|by eexists].
  - assert (forall t t' cl cl' x, x ∈ list_in ts t cl -> x ∈ list_in ts t' cl' -> t = t' /\ cl = cl') as Hu
      by (intros * Hx%elem_list_in%Hc Hx'%elem_list_in%Hc; naive_solver).
    apply NoDup_bind; [| |apply HL].
    + intros t t' x _ _ (cl & Hx & _)%list_elem_of_bind (cl' & Hx' & _)%list_elem_of_bind. by destruct (Hu _ _ _ _ _ Hx Hx').
    + intros t Ht. apply NoDup_bind; [|intros cl Hcl%elem_of_seqZ|apply NoDup_seqZ].
      * intros cl cl' x _ _ Hx Hx'. by destruct (Hu _ _ _ _ _ Hx Hx').
      * destruct (Hv t Ht) as (v & Ev & Hok), (to_lists _ _ _ Hok cl ltac:(lia)) as (f & Ef & Hf). unfold list_in. rewrite Ev, Ef. apply Hf.
  - intros x. rewrite list_elem_of_bind. split.
    + intros (t & (cl & Hx & _)%list_elem_of_bind & _). exists cl. apply lookup_cached. exists t. by apply Hc, elem_list_in.
    + intros [cl (t & Hx)%lookup_cached]. exists t. pose proof (proj2 (Hc t cl x) Hx) as (v & f & Ev & Ef & _).
      split; [|apply (lk_dom _ _ HL); by eexists]. apply list_elem_of_bind. exists cl. split; [by apply elem_list_in, Hc|].
      apply elem_of_seqZ. specialize (Htc t v Ev). pose proof (to_dom _ _ _ Htc cl f Ef). lia.
Qed.

(** The walk over the caches. *)
Lemma GetThreadStats_total l ts : links_ok ts l -> (forall t v, heaps ts !! t = Some v -> size_ v = tc_bytes sizemap v /\ 0 <= tc_bytes sizemap v) ->
  TC.GetThreadStats sizemap 0 None ts = Ret (u64 (sumZ (cache_bytes ts) l), None, ts).
Proof using.
  intros HL Hs. unfold TC.GetThreadStats. unfold mbind at 1, M_bind at 1, getS.
  assert (length l <= size (heaps ts))%nat as Hlen.
  { rewrite <- size_dom, <- (size_list_to_set (C := gset Z) l) by apply HL. apply subseteq_size. intros t Ht%elem_of_list_to_set.
    apply elem_of_dom. by apply (lk_dom _ _ HL). }
  assert (forall l head prev total fuel, tchain (heaps ts) head prev l -> (forall t, t ∈ l -> t <> 0) -> (length l < fuel)%nat ->
    loopM fuel (TC.thread_stats_step sizemap) (head, u64 total, None) ts = Ret (u64 (total + sumZ (cache_bytes ts) l), None, ts)) as Hw.
  { clear l HL Hlen. induction l as [|t l IH]; intros head prev total fuel Hc Hnz Hf; (destruct fuel as [|fuel]; [cbn in Hf; lia|]); cbn [tchain] in Hc; cbn [loopM].
    - subst head. unfold mbind, M_bind. cbn. by rewrite Z.add_0_r.
    - destruct Hc as (-> & v & Hv & _ & Hc).
      assert (TC.get_tc t ts = Ret (v, ts)) as Eg by (unfold TC.get_tc, mbind, M_bind, getS, liftM; cbn; by rewrite Hv).
      assert (TC.thread_stats_step sizemap (t, u64 total, None) ts = Ret (inl (next_ v, u64 (u64 total + u64 (size_ v)), None), ts)) as Es.
      { unfold TC.thread_stats_step. rewrite (proj2 (Z.eqb_neq t 0)) by (apply Hnz; left). unfold mbind at 1, M_bind at 1. by rewrite Eg. }
      unfold mbind at 1, M_bind at 1. rewrite Es.
      rewrite u64_add_l. rewrite (IH (next_ v) t (total + u64 (size_ v)) fuel Hc) by (try (intros; apply Hnz; by right); cbn in Hf; lia).
      destruct (Hs t v Hv) as [-> Hp]. do 2 f_equal. cbn [sumZ foldr]. fold (sumZ (cache_bytes ts) l). unfold cache_bytes at 2. rewrite Hv. f_equal.
      destruct (u64_ex (tc_bytes sizemap v)) as [k ->]. apply u64_eq. exists k. lia. }
  rewrite (Hw l _ 0 0 (S (size (heaps ts))) (lk_chain _ _ HL)); [done| |lia]. intros t Ht ->. by apply (lk_zero _ _ HL).
Qed.
End Caches.
