(* ===== verification/MallocExtensionSpec.v ===== *)
(** * The extension interface: what its answers mean

    The statistics are exact: what "generic.current_allocated_bytes" reports
    is the bytes of the objects and spans that users hold, with no
    subtraction wrapping around. [ReleaseToSystem] keeps the program's blocks
    and counts what it releases, and [GetOwnership] knows the blocks. *)
From Stdlib Require Import String.
From S2P Require Import Prelude Common Sampler ThreadCache ThreadCacheSpec ThreadCacheLife PageMap PackedCache Span SysEnv PageHeap PageHeapInv PageHeapOps PageHeapRelease PageHeapAlloc SystemAlloc SystemAllocSpec PageHeapSpec PageHeapFrame CentralFreeList CentralFreeListInv CentralFreeListSpec CentralCaches CentralPageHeap Malloc MallocInv MallocAlloc Startup Concrete MallocExtension MemoryAccounts.
Import SizeMap.
#[local] Open Scope Z_scope.

(** Equality modulo 2^64 of terms with [u64] inside. *)
Lemma u64_u64 a : u64 (u64 a) = u64 a.
Proof. apply Zmod_mod. Qed.
Lemma u64_add_r a b : u64 (a + u64 b) = u64 (a + b).
Proof. apply Zplus_mod_idemp_r. Qed.
Lemma u64_sub_r a b : u64 (a - u64 b) = u64 (a - b).
Proof. apply Zminus_mod_idemp_r. Qed.
Lemma u64_mul_l a b : u64 (u64 a * b) = u64 (a * b).
Proof. apply Zmult_mod_idemp_l. Qed.
Lemma u64_mul_r a b : u64 (a * u64 b) = u64 (a * b).
Proof. apply Zmult_mod_idemp_r. Qed.
Ltac u64_norm := rewrite ?u64_mul_l, ?u64_mul_r, ?u64_u64;
  repeat first [rewrite u64_add_l|rewrite u64_add_r|rewrite u64_sub_l|rewrite u64_sub_r|rewrite Z.add_assoc]; f_equal; try ring.

Section Statistics.
Context {PM E U : Type} `{!PageMap PM} `{!PageMapLaws PM} `{!SysEnv E} `{!SysEnvLaws E}.
Context (release_rate : double) (heap_limit_mb smallest_span_size_ : Z) (Hcfg : config_ok release_rate smallest_span_size_).
Abbreviation heap := (PageHeap PM E).
Abbreviation malloc := (Malloc heap U).
#[local] Instance ext_spans : SpanHeap heap := page_heap_spans release_rate heap_limit_mb smallest_span_size_.
#[local] Instance ext_objects : ObjectHeap heap := page_heap_objects release_rate heap_limit_mb smallest_span_size_.
Context {RS : Rest} (sizemap : SizeMap) (others : M (Central heap) unit) (metadata_system_bytes : E -> Z).
Context (Hsm : sizemap_ok (H := heap) sizemap) (Htc : tc_sizemap_ok sizemap).
Abbreviation csize := (csize sizemap).
Abbreviation cpages := (cpages sizemap).
Abbreviation ncl := (num_size_classes sizemap).
Implicit Types (st : malloc) (h : heap).
#[local] Instance ext_laws : SpanHeapLaws heap := page_heap_laws release_rate heap_limit_mb smallest_span_size_ Hcfg.

#[local] Instance ext_lists : CentralCache (Central heap) := central_lists sizemap others.

(** The counters that the code keeps in [int] are not exceeded. *)
Record counts_fit st : Prop := {
  cf_central : forall cl c, central_cache (central (threads st)) !! cl = Some c ->
    sumZ (nfree (MA.pageheap_of st)) (CentralFreeListInv.listed c) < 2 ^ 31;
  cf_caches : forall t v, heaps (threads st) !! t = Some v -> tc_bytes sizemap v < 2 ^ 31 }.

(** ** Reading the central lists *)

Lemma in_central_ret {A} (m : M (Central heap) A) a st :
  m (central (threads st)) = Ret (a, central (threads st)) -> EX.in_central m st = Ret (a, st).
Proof using. intros Em. unfold EX.in_central, MA.in_threads. unfold TC.in_central. rewrite Em. by destruct st as [[]]. Qed.

Lemma class_size_ok cl : cl ∈ classes sizemap -> 0 <= csize cl < 2 ^ 31.
Proof using Hsm Htc.
  intros Hcl%elem_of_seqZ. destruct (decide (cl = 0)) as [->|].
  - pose proof (ts_zero _ Htc) as Hz. unfold bytes_of_class in Hz. unfold CentralFreeListInv.csize. lia.
  - destruct (so_class _ Hsm cl ltac:(lia)) as (? & _). lia.
Qed.
Lemma csize_nonneg cl : 0 <= csize cl \/ ~ cl ∈ classes sizemap.
Proof using Hsm Htc. destruct (decide (cl ∈ classes sizemap)) as [Hc|]; [left; by apply class_size_ok|by right]. Qed.

(** What the accessors return. *)
Lemma class_counts out cl st : CInv sizemap out (central (threads st)) -> counts_fit st -> cl ∈ classes sizemap ->
  exists n o t, CFL.length_of cl (central (threads st)) = Ret (n, central (threads st)) /\
    CFL.tc_length sizemap cl (central (threads st)) = Ret (t, central (threads st)) /\
    CFL.OverheadBytes sizemap cl (central (threads st)) = Ret (u64 o, central (threads st)) /\
    csize cl * n + o = class_free sizemap (central (threads st)) cl /\ csize cl * t = class_tc sizemap (central (threads st)) cl.
Proof using Hsm Htc Hcfg.
  intros HI HF Hcl. destruct (class_at sizemap out _ cl HI Hcl) as (c & Hc & HK & El & Et).
  pose proof (k_class _ _ _ _ _ HK) as Ec. apply elem_of_seqZ in Hcl as Hr. unfold class_free, class_tc. rewrite El, Et.
  assert (forall A (m : CentralFreeList -> M (Central heap) A), (CFL.get_list cl ≫= m) (central (threads st)) = m c (central (threads st))) as Hget.
  { intros A m. unfold CFL.get_list, mbind, M_bind, getS, liftM. cbn. by rewrite Hc. }
  destruct (decide (cl = 0)) as [->|Hn].
  - destruct (class_zero sizemap _ _ _ HK) as (E1 & E2 & _). exists 0, 0. unfold CFL.length_of, CFL.tc_length, CFL.OverheadBytes. rewrite !Hget, Ec.
    rewrite (k_counter _ _ _ _ _ HK), E1, E2. eexists. split; [done|]. split; [unfold mbind, M_bind, liftM, num_objects_to_move; by rewrite (aget_class sizemap Hsm) by lia|].
    split; [done|]. pose proof (ts_zero _ Htc) as Hz. unfold bytes_of_class in Hz. unfold CentralFreeListInv.csize. rewrite Hz. cbn. lia.
  - assert (1 <= cl < ncl) as Hcl' by lia. destruct (central_lengths sizemap Hsm out _ cl c Hcl' HI Hc) as [E1 E2].
    destruct (so_class _ Hsm cl Hcl') as (Hs & Hp & _). destruct (ts_class _ Htc cl Hcl') as [_ Hmv].
    assert (0 <= sumZ (nfree (pageheap (central (threads st)))) (CentralFreeListInv.listed c) < 2 ^ 31) as H1.
    { split; [|by apply (cf_central _ HF cl c)]. apply sumZ_nonneg. intros p. unfold nfree. destruct (ph_read _ _); lia. }
    assert (0 <= Z.of_nat (length (tc_objs c)) < 2 ^ 31) as H2.
    { split; [lia|]. rewrite (tc_objs_length sizemap _ _ _ _ HK). pose proof (k_slots _ _ _ _ _ HK) as [? ?]. unfold kMaxNumTransferEntries in *.
      change (move_of_class sizemap cl) with (cmove sizemap cl) in Hmv. change kMaxDynamicFreeListLength with 8192 in Hmv. nia. }
    rewrite s32_small in E1, E2 by lia. eexists _, (Z.of_nat (length (CentralFreeListInv.listed c)) * overhead sizemap cl), _.
    split; [exact E1|]. split; [exact E2|]. split; [|split; [done|lia]]. unfold CFL.OverheadBytes. rewrite Hget, Ec, (proj2 (Z.eqb_neq cl 0)) by done.
    unfold mbind, M_bind, liftM, class_to_pages, class_to_size. rewrite !(aget_class sizemap Hsm) by lia. fold (csize cl) (cpages cl).
    rewrite (proj2 (Z.eqb_neq (csize cl) 0)) by lia. unfold mret, M_ret. do 2 f_equal. rewrite (k_spans _ _ _ _ _ HK), (u64_small (cpages cl * kPageSize)) by clia.
    unfold overhead. u64_norm.
Qed.

Lemma class_stats_ok out cl a b st : CInv sizemap out (central (threads st)) -> counts_fit st -> cl ∈ classes sizemap ->
  EX.class_stats sizemap false cl (u64 a, u64 b, []) st =
  Ret (u64 (a + class_free sizemap (central (threads st)) cl), u64 (b + class_tc sizemap (central (threads st)) cl), [], st).
Proof using Hsm Htc Hcfg.
  intros HI HF Hcl. pose proof (class_size_ok cl Hcl) as Hsz. apply elem_of_seqZ in Hcl as Hr.
  destruct (class_counts out cl st HI HF Hcl) as (n & o & t & En & Etc & Eo & Ef & Eb).
  unfold EX.class_stats. unfold mbind at 1, M_bind at 1. rewrite (in_central_ret _ _ _ En). unfold mbind at 1, M_bind at 1.
  rewrite (in_central_ret _ _ _ Etc). unfold mbind at 1, M_bind at 1. rewrite (in_central_ret _ _ _ Eo). unfold mbind at 1, M_bind at 1.
  unfold liftM, ByteSizeForClass. rewrite (aget_class sizemap Hsm) by lia. fold (csize cl). unfold mret, M_ret.
  rewrite <- Ef, <- Eb. match goal with |- Ret (?x, ?z, _, _) = Ret (?y, ?w, _, _) => assert (x = y /\ z = w) as [-> ->]; [split; u64_norm|done] end.
Qed.
Lemma all_class_stats_ok out l a b st : CInv sizemap out (central (threads st)) -> counts_fit st -> (forall cl, cl ∈ l -> cl ∈ classes sizemap) ->
  EX.all_class_stats sizemap false l (u64 a, u64 b, []) st =
  Ret (u64 (a + sumZ (class_free sizemap (central (threads st))) l), u64 (b + sumZ (class_tc sizemap (central (threads st))) l), [], st).
Proof using Hsm Htc Hcfg.
  intros HI HF. revert a b. induction l as [|cl l IH]; intros a b Hl; cbn [EX.all_class_stats]; [by rewrite !Z.add_0_r|].
  unfold mbind, M_bind. rewrite (class_stats_ok out) by (try done; apply Hl; left). rewrite IH by (intros; apply Hl; by right).
  cbn [sumZ foldr]. fold (sumZ (class_free sizemap (central (threads st))) l) (sumZ (class_tc sizemap (central (threads st))) l). by rewrite !Z.add_assoc.
Qed.

(** ** What users hold *)

(** The spans in use outside the central lists. *)
Definition span_pages_out st : Z :=
  msum (fun p s => if decide (p ∈ all_listed sizemap (central (threads st))) then 0 else if decide (location s = IN_USE) then Span.length_ s else 0)
    (spans (MA.pageheap_of st)).

Lemma inuse_split out st : CInv sizemap out (central (threads st)) ->
  inuse_pages (spans (MA.pageheap_of st)) =
  sumZ (fun cl => Z.of_nat (length (list_of (central (threads st)) cl)) * cpages cl) (classes sizemap) + span_pages_out st.
Proof using Hcfg.
  intros HI. set (c := central (threads st)) in *.
  assert (forall cl p, cl ∈ classes sizemap -> p ∈ list_of c cl -> exists s, spans (MA.pageheap_of st) !! p = Some s /\
    location s = IN_USE /\ Span.length_ s = cpages cl) as Hg.
  { intros cl p Hcl Hp. destruct (class_at sizemap out c cl HI Hcl) as (f & _ & HK & El & _). rewrite El in Hp.
    destruct (k_good _ _ _ _ _ HK p Hp) as (s & Hs). exists s. destruct (gd_use _ _ _ _ _ Hs) as [? ?]. split; [done|]. split; [done|]. apply Hs. }
  unfold inuse_pages, pages_on. rewrite (msum_take _ _ (all_listed sizemap c)); [|by eapply all_listed_nodup|].
  - f_equal. unfold all_listed. rewrite sumZ_bind. apply sumZ_ext. intros cl Hcl. rewrite (sumZ_const _ (cpages cl)); [lia|].
    intros p Hp. destruct (Hg cl p Hcl Hp) as (s & -> & Hl & ->). by rewrite decide_True.
  - intros p (cl & Hp & Hcl)%list_elem_of_bind. destruct (Hg cl p Hcl Hp) as (s & Hs & _). by eexists.
Qed.

Lemma for_range_classes : for_range 0 (ncl - 1) 1 = classes sizemap.
Proof using Hsm.
  pose proof (so_num _ Hsm). unfold for_range, classes. replace ((ncl - 1 - 0) / 1 + 1) with ncl by (rewrite Z.div_1_r; lia).
  rewrite <- (list_fmap_id (seqZ 0 ncl)) at 2. apply list_fmap_ext. intros i x _. cbn. lia.
Qed.

Lemma tc_bytes_fit l st : counts_fit st -> (exists loc L K, TInv sizemap (Keeps sizemap (large <$> L) K) loc 0 0 (-1) l (threads st)) ->
  forall t v, heaps (threads st) !! t = Some v -> size_ v = tc_bytes sizemap v /\ 0 <= tc_bytes sizemap v.
Proof using Hsm Htc Hcfg.
  intros HF (loc & L & K & HT) t v Hv. assert (0 <= tc_bytes sizemap v) as H0.
  { apply sumZ_pos. intros cl Hcl. pose proof (class_size_ok cl Hcl). apply elem_of_seqZ in Hcl.
    destruct (to_lists _ _ _ (ti_tc _ _ _ _ _ _ _ _ HT t v Hv) cl ltac:(lia)) as (f & Ef & Hf). unfold list_bytes. rewrite Ef, <- (fl_len _ _ _ _ Hf).
    change (bytes_of_class sizemap cl) with (csize cl). lia. }
  split; [|done]. rewrite (ti_size _ _ _ _ _ _ _ _ HT t v Hv). replace (tc_bytes sizemap v + _) with (tc_bytes sizemap v) by (case_decide; lia).
  apply s32_small. pose proof (cf_caches _ HF t v Hv). lia.
Qed.

Lemma account_nonneg out l st : CInv sizemap out (central (threads st)) -> counts_fit st ->
  (exists loc L K, TInv sizemap (Keeps sizemap (large <$> L) K) loc 0 0 (-1) l (threads st)) ->
  0 <= sumZ (class_free sizemap (central (threads st))) (classes sizemap) /\ 0 <= sumZ (class_tc sizemap (central (threads st))) (classes sizemap) /\
  0 <= sumZ (cache_bytes sizemap (threads st)) l /\ 0 <= span_pages_out st.
Proof using Hsm Htc Hcfg.
  intros HI HF HT. split_and!.
  - apply sumZ_pos. intros cl Hcl. pose proof (class_size_ok cl Hcl). unfold class_free, overhead.
    assert (0 <= sumZ (nfree (pageheap (central (threads st)))) (list_of (central (threads st)) cl)).
    { apply sumZ_nonneg. intros p. unfold nfree. destruct (ph_read _ p); lia. }
    destruct (decide (cl = 0)) as [->|Hn].
    + destruct (class_at sizemap out _ 0 HI Hcl) as (c & _ & HK & -> & _). destruct (class_zero sizemap _ _ _ HK) as (-> & _). cbn. lia.
    + apply elem_of_seqZ in Hcl. destruct (so_class _ Hsm cl ltac:(lia)) as (? & _).
      pose proof (Z.mod_pos_bound (cpages cl * kPageSize) (csize cl) ltac:(lia)). nia.
  - apply sumZ_pos. intros cl Hcl. pose proof (class_size_ok cl Hcl). unfold class_tc. nia.
  - apply sumZ_pos. intros t _. unfold cache_bytes. destruct (heaps (threads st) !! t) as [v|] eqn:Ev; [|lia]. by apply (tc_bytes_fit l st HF HT t v).
  - apply msum_nonneg. intros p s Hp. pose proof (ci_wf _ _ _ HI) as [HH _]. destruct (geo_wf _ _ _ _ (inv_geo _ _ _ HH) p s Hp) as (_ & _ & ? & _).
    repeat case_decide; lia.
Qed.

(** An object of class [cl] in a user's hands: it belongs to a span of the
    central lists and is free neither in it nor in a cache. *)
Definition in_hands st (x cl : Z) : Prop := cl ∈ classes sizemap /\
  (exists c, central_cache (central (threads st)) !! cl = Some c /\ busy sizemap (MA.pageheap_of st) cl c x) /\
  x ∉ tc_of (central (threads st)) cl /\ forall t, x ∉ list_in (threads st) t cl.

Lemma held_objects out loc l st (holds : gmap Z Z -> Central heap -> Prop) : CInv sizemap out (central (threads st)) -> snd <$> loc ⊆ out ->
  TInv sizemap holds loc 0 0 (-1) l (threads st) -> forall x cl, (out ∖ cached_objects loc) !! x = Some cl <-> in_hands st x cl.
Proof using.
  intros HI Hsub HT x cl. rewrite lookup_difference_Some. split.
  - intros [Hx Hc]. assert (cl ∈ classes sizemap) as Hcl by (apply elem_of_seqZ; pose proof (ci_range _ _ _ HI _ _ Hx); lia). split; [done|].
    destruct (class_at sizemap out _ cl HI Hcl) as (c & Ec & HK & _ & ->). split; [exists c; split; [done|]; apply (k_busy _ _ _ _ _ HK); by left|].
    split; [intros Ht; by apply (k_tc_out _ _ _ _ _ HK x Ht)|]. intros t Ht%elem_list_in%(ti_cached _ _ _ _ _ _ _ _ HT).
    assert (cached_objects loc !! x = Some cl) by (apply lookup_cached; by exists t). congruence.
  - intros (Hcl & (c & Ec & Hb) & Ht & Hl). destruct (class_at sizemap out _ cl HI Hcl) as (c' & Ec' & HK & _ & Et). assert (c' = c) as -> by congruence.
    rewrite Et in Ht. assert (out !! x = Some cl) as Hx by (apply (k_busy _ _ _ _ _ HK) in Hb as [?|?]; done). split; [done|].
    apply eq_None_not_Some. intros [cl' (t & Hlo)%lookup_cached]. assert (cl' = cl) as ->.
    { assert (out !! x = Some cl') by (eapply lookup_weaken; [|exact Hsub]; by rewrite lookup_fmap, Hlo). congruence. }
    apply (Hl t), elem_list_in. by apply (ti_cached _ _ _ _ _ _ _ _ HT).
Qed.

(** The statistics of a consistent state: what they are worth and that
    their difference is what users hold. *)
Lemma stats_balance u L K l st : MInv sizemap others u L K l st -> counts_fit st ->
  exists s u' lost, EX.stats_only sizemap metadata_system_bytes st = Ret (s, st) /\ u ⊆ u' /\ (forall x cl, u' !! x = Some cl <-> in_hands st x cl) /\ 0 <= lost /\
    total_pages (spans (MA.pageheap_of st)) + lost <= Z.of_nat (size (taken_pages (PageHeap.env (MA.pageheap_of st)))) /\
    pageheap_stats s = stats_ (MA.pageheap_of st) /\
    EX.current_allocated_bytes s = bytes_in csize u' + kPageSize * (span_pages_out st + lost) /\
    EX.current_allocated_bytes s + free_bytes (pageheap_stats s) + unmapped_bytes (pageheap_stats s)
      + central_bytes s + transfer_bytes s + thread_bytes s = system_bytes (pageheap_stats s).
Proof using Hsm Htc Hcfg PageMapLaws0 SysEnvLaws0.
  intros HM HF. destruct (mi_layers _ _ _ _ _ _ _ HM) as (loc & Eu & HT). pose proof (ti_holds _ _ _ _ _ _ _ _ HT) as [(out & [Hsub HI _ _ _]) _].
  pose proof (ci_wf _ _ _ HI) as [HH _]. destruct (heap_balance _ HH) as (lost & Hlost & Htk & Hbal & Hf0 & Hu0 & Hs44).
  change (pageheap (central (threads st))) with (MA.pageheap_of st) in *.
  set (A := sumZ (class_free sizemap (central (threads st))) (classes sizemap)). set (B := sumZ (class_tc sizemap (central (threads st))) (classes sizemap)).
  set (T := sumZ (cache_bytes sizemap (threads st)) l).
  pose proof (tc_bytes_fit l st HF (ex_intro _ loc (ex_intro _ L (ex_intro _ K HT)))) as Hsz.
  assert (EX.stats_only sizemap metadata_system_bytes st =
    Ret (mkTCMallocStats (u64 T) (u64 A) (u64 B) (metadata_system_bytes (PageHeap.env (MA.pageheap_of st))) (stats_ (MA.pageheap_of st)), st)) as ES.
  { unfold EX.stats_only, EX.ExtractStats. unfold mbind at 1 2, M_bind at 1 2. rewrite for_range_classes.
    change 0 with (u64 0) at 1 2. rewrite (all_class_stats_ok out) by done. unfold mbind at 1, M_bind at 1, MA.in_threads.
    rewrite (GetThreadStats_total sizemap l) by (try done; apply HT). by destruct st as [[]]. }
  assert (bytes_in csize out = T + bytes_in csize (out ∖ cached_objects loc)) as Ho.
  { rewrite (bytes_split _ out (cached_objects loc)) by (etrans; [apply cached_sub|done]). f_equal. by eapply cached_bytes. }
  pose proof (central_balance sizemap Hsm out _ HI) as HC. rewrite (inuse_split out st HI) in Hbal. fold A B in HC.
  assert (sumZ (fun cl => Z.of_nat (length (list_of (central (threads st)) cl)) * (cpages cl * kPageSize)) (classes sizemap) =
    kPageSize * sumZ (fun cl => Z.of_nat (length (list_of (central (threads st)) cl)) * cpages cl) (classes sizemap)) as Ek.
  { rewrite <- sumZ_scale. apply sumZ_ext. intros. lia. }
  destruct (account_nonneg out l st HI HF (ex_intro _ loc (ex_intro _ L (ex_intro _ K HT)))) as (HA & HB & HT0 & Hsp). fold A B T in HA, HB, HT0.
  assert (0 <= bytes_in csize (out ∖ cached_objects loc)) as Hu'.
  { apply sumZ_pos. intros x Hx%elem_of_elements%elem_of_dom. destruct Hx as [cl Hx]. rewrite Hx. apply lookup_difference_Some in Hx as [Hx _].
    apply class_size_ok, elem_of_seqZ. pose proof (ci_range _ _ _ HI _ _ Hx). cbn. lia. }
  eexists _, (out ∖ cached_objects loc), lost. split; [exact ES|]. cbn [pageheap_stats central_bytes transfer_bytes thread_bytes].
  assert (EX.current_allocated_bytes (mkTCMallocStats (u64 T) (u64 A) (u64 B) (metadata_system_bytes (PageHeap.env (MA.pageheap_of st))) (stats_ (MA.pageheap_of st)))
    = bytes_in csize (out ∖ cached_objects loc) + kPageSize * (span_pages_out st + lost)) as EV.
  { unfold EX.current_allocated_bytes. cbn [pageheap_stats central_bytes transfer_bytes thread_bytes]. rewrite (u64_small T), (u64_small A), (u64_small B), u64_small by clia. clia. }
  split; [|split; [by eapply held_objects|split; [done|split; [done|split; [done|split; [exact EV|]]]]]].
  - apply map_subseteq_spec. intros x cl Hx. rewrite <- Eu in Hx. apply lookup_users in Hx. apply lookup_difference_Some. split.
    + eapply lookup_weaken; [|exact Hsub]. by rewrite lookup_fmap, Hx.
    + apply eq_None_not_Some. intros [c (t & Hc)%lookup_cached]. congruence.
  - rewrite EV, (u64_small T), (u64_small A), (u64_small B) by clia. clia.
Qed.

(** ** The program's blocks *)

Definition block_bytes (B : gmap Z Z) : Z := bytes_in (fun n => n) B.

Lemma large_private u L K l st p s : MInv sizemap others u L K l st -> L !! p = Some s ->
  spans (MA.pageheap_of st) !! p = Some s /\ location s = IN_USE /\ p ∉ all_listed sizemap (central (threads st)).
Proof using.
  intros HM Hp. destruct (mi_layers _ _ _ _ _ _ _ HM) as (loc & _ & HT). pose proof (ti_holds _ _ _ _ _ _ _ _ HT) as [(out & [_ HI Hpv _ _]) _].
  destruct (Hpv p (large s)) as [[? ?] _ _ Hoff]; [by rewrite lookup_fmap, Hp|]. split; [done|]. split; [done|].
  intros (cl & Hin & Hcl)%list_elem_of_bind. destruct (class_at sizemap out _ cl HI Hcl) as (c & Hc & _ & El & _). rewrite El in Hin.
  by apply (Hoff cl c Hc).
Qed.

Lemma large_bytes u L K l st : MInv sizemap others u L K l st ->
  sumZ (fun p => default 0 (Span.length_ <$> L !! p)) (elements (dom L)) <= span_pages_out st.
Proof using SysEnvLaws0 PageMapLaws0.
  intros HM. pose proof (fun p s => large_private u L K l st p s HM) as HL. unfold span_pages_out.
  rewrite (msum_take _ _ (elements (dom L)) (NoDup_elements _)).
  2: { intros p [s Hs]%elem_of_elements%elem_of_dom. destruct (HL p s Hs) as (-> & _). by eexists. }
  rewrite (sumZ_ext (fun p => default 0 _) (fun p => match spans (MA.pageheap_of st) !! p with
    | Some s => if decide (p ∈ all_listed sizemap (central (threads st))) then 0 else if decide (location s = IN_USE) then Span.length_ s else 0 | None => 0 end)).
  - match goal with |- ?x <= ?x + ?y => enough (0 <= y) by lia end. apply msum_nonneg. intros p s Hp.
    destruct (mi_layers _ _ _ _ _ _ _ HM) as (loc & _ & HT). pose proof (ti_holds _ _ _ _ _ _ _ _ HT) as [(out & [_ HI _ _ _]) _].
    pose proof (ci_wf _ _ _ HI) as [HH _]. destruct (geo_wf _ _ _ _ (inv_geo _ _ _ HH) p s Hp) as (_ & _ & ? & _). repeat case_decide; lia.
  - intros p [s Hs]%elem_of_elements%elem_of_dom. rewrite Hs. destruct (HL p s Hs) as (-> & El & Hn). by rewrite decide_False, decide_True.
Qed.

Lemma blocks_bytes B u L K l st : MInv sizemap others u L K l st -> (forall a n, B !! a = Some n <-> block sizemap u L (stack_size st) a n) ->
  block_bytes B <= bytes_in csize u + kPageSize * span_pages_out st.
Proof using Hsm Hcfg SysEnvLaws0 PageMapLaws0.
  intros HM HB. set (at_ := fun p => default 0 ((fun s => start s * kPageSize) <$> L !! p)).
  assert (forall p s, L !! p = Some s -> exists n, B !! (start s * kPageSize) = Some n /\ n <= Span.length_ s * kPageSize) as HL.
  { intros p s Hp. assert (exists n, usable sizemap (stack_size st) s n) as [n Hn].
    { unfold usable. destruct (sample s) eqn:Es; [|by eexists]. destruct (mi_stack _ _ _ _ _ _ _ HM p s Hp Es) as (k & sz & n & ? & _ & ? & ? & _). by exists n, k, sz. }
    exists n. split; [apply HB; right; by exists p, s|]. by apply (usable_fits sizemap others u L K l st p s n HM Hp). }
  unfold block_bytes. rewrite (bytes_list _ _ (elements (dom u) ++ (at_ <$> elements (dom L)))).
  - rewrite sumZ_append, sumZ_fmap. apply Z.add_le_mono.
    + unfold bytes_in. apply sumZ_le. intros x [cl Hx]%elem_of_elements%elem_of_dom. rewrite Hx, (proj2 (HB x (csize cl))); [done|left; by exists cl].
    + etrans; [|apply Z.mul_le_mono_nonneg_l; [done|apply (large_bytes u L K l st HM)]]. rewrite <- sumZ_scale. apply sumZ_le.
      intros p [s Hs]%elem_of_elements%elem_of_dom. destruct (HL p s Hs) as (n & Hn & ?). unfold at_. rewrite Hs. cbn. rewrite Hn. cbn. lia.
  - apply NoDup_app. split; [apply NoDup_elements|]. split.
    + intros x [cl Hx]%elem_of_elements%elem_of_dom (p & Ex & Hp)%list_elem_of_fmap. apply elem_of_elements, elem_of_dom in Hp as [s Hs].
      unfold at_ in Ex. rewrite Hs in Ex. eapply (block_excl sizemap others Hsm u L K l st x cl p s); [done|done|done|exact Ex].
    + apply NoDup_fmap_2_strong; [|apply NoDup_elements]. intros p q [s Hs]%elem_of_elements%elem_of_dom [t Ht]%elem_of_elements%elem_of_dom Ex.
      unfold at_ in Ex. rewrite Hs, Ht in Ex. cbn in Ex. assert (start s = start t) as Est by clia.
      rewrite <- (la_desc _ _ _ (MInv_large sizemap others u L K l st p s HM Hs)), Est. apply (MInv_large sizemap others u L K l st q t HM Ht).
  - intros x. rewrite elem_of_app, list_elem_of_fmap. setoid_rewrite elem_of_elements. setoid_rewrite elem_of_dom. split.
    + intros [[cl Hx]|(p & -> & [s Hs])]; [exists (csize cl); apply HB; left; by exists cl|]. unfold at_. rewrite Hs. destruct (HL p s Hs) as (n & Hn & _). by exists n.
    + intros [n [(cl & Hx & _)|(p & s & Hp & -> & _)]%HB]; [left; by eexists|]. right. exists p. unfold at_. rewrite Hp. split; [done|by eexists].
Qed.

(** C14: the statistics are exact. In every consistent state whose counters
    fit their [int]s, the bytes reported as allocated, free in the page heap,
    returned to the system, and free in the central lists, the transfer and
    the thread caches add up to the heap's size, no subtraction wrapping
    around. The bytes reported as allocated are those of the objects in
    users' hands, which are free neither in their span nor in a cache, of the
    spans in use outside the central lists, and of pages obtained and lost
    when the page map could not grow; they are never less than the usable
    sizes of the program's blocks together. *)
Theorem allocated_bytes_exact (B : gmap Z Z) (x : Extension PM E U) : Rep sizemap others B (impl x) -> counts_fit (impl x) ->
  exists allocated heap_size free unmapped central transfer thread u' lost,
    let get name := EX.GetNumericProperty sizemap metadata_system_bytes name x in
    get "generic.current_allocated_bytes"%string = Ret (Some (allocated, false), x) /\
    get "generic.heap_size"%string = Ret (Some (heap_size, false), x) /\
    get "tcmalloc.pageheap_free_bytes"%string = Ret (Some (free, false), x) /\
    get "tcmalloc.pageheap_unmapped_bytes"%string = Ret (Some (unmapped, false), x) /\
    get "tcmalloc.central_cache_free_bytes"%string = Ret (Some (central, false), x) /\
    get "tcmalloc.transfer_cache_free_bytes"%string = Ret (Some (transfer, false), x) /\
    get "tcmalloc.current_total_thread_cache_bytes"%string = Ret (Some (thread, false), x) /\
    allocated + free + unmapped + central + transfer + thread = heap_size /\
    (forall y cl, u' !! y = Some cl <-> in_hands (impl x) y cl) /\
    0 <= lost <= Z.of_nat (size (taken_pages (PageHeap.env (MA.pageheap_of (impl x))))) - total_pages (spans (MA.pageheap_of (impl x))) /\
    allocated = bytes_in csize u' + kPageSize * (span_pages_out (impl x) + lost) /\
    block_bytes B <= allocated.
Proof using Hsm Htc Hcfg PageMapLaws0 SysEnvLaws0.
  intros (u & L & K & l & HM & HB) HF. destruct (stats_balance u L K l (impl x) HM HF) as (s & u' & lost & ES & Hu & Hcl & Hl & Htk & Ep & EV & Esum).
  pose proof (blocks_bytes B u L K l (impl x) HM HB) as Hb.
  assert (bytes_in csize u <= bytes_in csize u') as Hle.
  { rewrite (bytes_split csize u' u Hu). enough (0 <= bytes_in csize (u' ∖ u)) by lia. apply sumZ_pos.
    intros y [cl Hy]%elem_of_elements%elem_of_dom. rewrite Hy. apply lookup_difference_Some in Hy as [Hy _]. apply class_size_ok. by apply (Hcl y cl). }
  assert (forall f, EX.from_stats sizemap metadata_system_bytes f x = Ret (Some (f s, false), x)) as Hs.
  { intros f. unfold EX.from_stats, EX.in_impl, mbind, M_bind. rewrite ES. by destruct x. }
  assert (forall f, EX.from_pageheap f x = Ret (Some (f (pageheap_stats s), false), x)) as Hp by (intros f; rewrite Ep; by destruct x).
  eexists _, _, _, _, _, _, _, u', lost. cbn zeta. unfold EX.GetNumericProperty. cbn [String.eqb Ascii.eqb Bool.eqb].
  do 7 (split; [first [apply Hs|apply Hp]|]). split; [exact Esum|]. split; [done|]. split; [lia|]. split; [exact EV|]. rewrite EV. clia.
Qed.

(** ** Giving memory back *)

Lemma wp_in_impl {A} (m : M malloc A) (Q : A -> Extension PM E U -> Prop) x :
  wp m (fun a st => Q a (mkExtension st (extra_bytes_released_ x) (FLAGS_tcmalloc_sample_parameter x)
    (FLAGS_tcmalloc_heap_limit_mb x) (FLAGS_tcmalloc_release_rate x) (tcmalloc_sys_alloc x))) (impl x) -> wp (EX.in_impl m) Q x.
Proof using. unfold wp, EX.in_impl. by destruct (m (impl x)) as [[a st]|[]]. Qed.

(** A call of the page heap that leaves the spans in use alone keeps the
    program's blocks. *)
Lemma wp_keeping {A} (m : M heap A) B (R : A -> heap -> Prop) st : Rep sizemap others B st ->
  (heap_wf (MA.pageheap_of st) -> wp m (fun a h => heap_wf h /\ ph_frame ∅ (MA.pageheap_of st) h /\ ph_stay (MA.pageheap_of st) h /\ R a h) (MA.pageheap_of st)) ->
  wp (MA.in_pageheap m) (fun a st' => Rep sizemap others B st' /\ mem st' = mem st /\ R a (MA.pageheap_of st')) st.
Proof using.
  intros (u & L & K & l & HM & HB) Hm. destruct (Layers_holds _ _ _ _ _ _ _ (mi_layers _ _ _ _ _ _ _ HM)) as (m0 & _ & [(out & [_ HI _ _ _]) _]).
  apply wp_in_pageheap. eapply wp_mono; [apply Hm, (ci_wf _ _ _ HI)|]. intros a h (Hwf & HF & [Hst Hcs] & HR). split; [|done].
  exists u, L, K, l. split; [|done]. apply MInv_heap; [done|]. eapply Layers_heap; [apply HM|done|]. intros m1 [HH HK]. split; [|by etrans].
  by apply Holds_frame.
Qed.

Lemma wp_release_keeping num h : heap_wf h ->
  wp (PH.ReleaseAtLeastNPages num) (fun r h' => heap_wf h' /\ ph_frame ∅ h h' /\ ph_stay h h' /\
    0 <= r < 2 ^ 31 /\ returned_pages h + r <= returned_pages h' /\ (willing (E := E) -> num <= r \/ free_bytes (stats_ h') = 0)) h.
Proof using PageMapLaws0 SysEnvLaws0.
  intros Hwf. pose proof Hwf as [HI _]. eapply wp_mono; [eapply (wp_moves inner); [apply inner_Release|];
    apply (wp_ReleaseAtLeastNPages num (fun r h' => Inv ∅ 0 h' /\ same_inuse ∅ h h' /\ 0 <= r /\ returned_pages h + r <= returned_pages h' /\
      (willing (E := E) -> num <= r \/ free_bytes (stats_ h') <= 0))); [done|]|].
  { intros r h' HI' [Hs _ _] Hr _ Hret Hw. split_and!; try done. lia. }
  cbn beta. intros r h' ((HI' & Hs & Hr & Hret & Hw) & Hc & Ho). pose proof (returned_small h HI). pose proof (returned_small h' HI').
  split; [by eapply wf_loses; [|..|apply loses_same]|]. split; [apply same_inuse_frame; [done|done|by apply loses_same]|].
  split; [done|]. split; [lia|]. split; [done|]. intros [?|Hf]%Hw; [by left|right]. rewrite (bk_free _ _ _ (inv_books _ _ _ HI')) in *.
  match type of Hf with u64 ?x <= 0 => pose proof (u64_range x); lia end.
Qed.

(** [ReleaseToSystem] keeps the program's blocks and their contents, and
    keeps count of what it released beyond what was asked for: a request
    that the surplus covers only reduces it; otherwise the system gets at
    least the pages counted, and the surplus is what they exceed the
    request by. On a system that accepts every release the request is met
    up to a page, or no free byte is left. *)
Theorem ReleaseToSystem_correct B (x : Extension PM E U) n : Rep sizemap others B (impl x) -> 0 <= extra_bytes_released_ x -> 0 <= n < 2 ^ 64 ->
  wp (EX.ReleaseToSystem n) (fun _ x' => Rep sizemap others B (impl x') /\ mem (impl x') = mem (impl x) /\ 0 <= extra_bytes_released_ x' /\
    let h := MA.pageheap_of (impl x) in let h' := MA.pageheap_of (impl x') in
    (n <= extra_bytes_released_ x -> impl x' = impl x /\ extra_bytes_released_ x' = extra_bytes_released_ x - n) /\
    (extra_bytes_released_ x < n -> exists r, 0 <= r /\ returned_pages h + r <= returned_pages h' /\
       extra_bytes_released_ x' = Z.max 0 (kPageSize * r - (n - extra_bytes_released_ x)) /\
       (willing (E := E) -> n - extra_bytes_released_ x < kPageSize * (r + 1) \/ free_bytes (stats_ h') = 0))) x.
Proof using PageMapLaws0 SysEnvLaws0.
  intros HR He Hn. unfold EX.ReleaseToSystem. apply wp_bind, wp_get. destruct (Z.leb_spec n (extra_bytes_released_ x)).
  { apply wp_mod. split; [done|]. split; [done|]. cbn. split; [lia|]. split; [done|lia]. }
  apply wp_bind, wp_in_impl. eapply wp_mono; [eapply (wp_keeping _ B); [exact HR|intros Hwf; by apply wp_release_keeping]|].
  cbn beta. intros r st (HR' & Hm & Hr & Hret & Hw).
  assert (u64 (Z.shiftl r kPageShift) = kPageSize * r) as -> by (change (PH.bytes_of r = kPageSize * r); rewrite bytes_of_eq; apply u64_small; clia).
  rewrite shiftr_div in Hw by clia.
  assert (willing (E := E) -> n - extra_bytes_released_ x < kPageSize * (r + 1) \/ free_bytes (stats_ (MA.pageheap_of st)) = 0) as Hw'
    by (intros [?|?]%Hw; [left; consts; zdiv|by right]).
  rewrite Z.gtb_ltb. destruct (Z.ltb_spec (n - extra_bytes_released_ x) (kPageSize * r)); apply wp_mod; (do 2 (split; [done|])); cbn;
    (split; [lia|]; split; [lia|]; intros _; exists r; split_and!; [lia|done|lia|done]).
Qed.
End Statistics.

(** ** Ownership

    With the page map of the 48-bit build. *)
Section Ownership.
Context {E U : Type} `{!SysEnv E} `{!SysEnvLaws E}.
Context (release_rate : double) (heap_limit_mb smallest_span_size_ : Z) (Hcfg : config_ok release_rate smallest_span_size_).
Abbreviation heap := (PageHeap PM48 E).
#[local] Instance own_spans : SpanHeap heap := page_heap_spans release_rate heap_limit_mb smallest_span_size_.
#[local] Instance own_objects : ObjectHeap heap := page_heap_objects release_rate heap_limit_mb smallest_span_size_.
#[local] Instance own_laws : SpanHeapLaws heap := page_heap_laws release_rate heap_limit_mb smallest_span_size_ Hcfg.
Context {RS : Rest} (sizemap : SizeMap) (others : M (Central heap) unit) (IsEmergencyPtr : Z -> bool) (Hsm : sizemap_ok (H := heap) sizemap).
Implicit Types st : Malloc heap U.

Lemma owned_page st a : 0 <= a -> PH.GetDescriptor (Z.shiftr a kPageShift) (MA.pageheap_of st) <> 0 ->
  EX.GetOwnership IsEmergencyPtr a st = Ret (kOwned, st).
Proof using.
  intros Ha Hd. unfold EX.GetOwnership, EX.read_heap, mbind, M_bind, getS, mret, M_ret. cbn beta iota.
  assert (0 <= Z.shiftr a kPageShift < 2 ^ 35) as Hp.
  { split; [by apply Z.shiftr_nonneg|]. destruct (Z.lt_ge_cases (Z.shiftr a kPageShift) (2 ^ 35)) as [|Hge]; [done|].
    destruct Hd. by apply (PageMap2.get_out2 35 ltac:(lia)). }
  rewrite (shiftr_div (Z.shiftr a kPageShift)) by clia. change (kAddressBits - kPageShift) with 35. rewrite (Z.div_small (Z.shiftr a kPageShift)) by lia.
  cbn [Z.gtb Z.compare]. destruct (PackedCache.TryGet _ _); [done|]. by rewrite (proj2 (Z.eqb_neq _ 0)).
Qed.

(** Every block of the program is owned, whatever the emergency allocator
    says. *)
Theorem blocks_owned B st a n : Rep sizemap others B st -> B !! a = Some n -> EX.GetOwnership IsEmergencyPtr a st = Ret (kOwned, st).
Proof using Hsm Hcfg SysEnvLaws0.
  intros (u & L & K & l & HM & HB) [(cl & Hu & _)|(p & s & Hp & -> & _)]%HB.
  - destruct (Layers_holds _ _ _ _ _ _ _ (mi_layers _ _ _ _ _ _ _ HM)) as (m0 & _ & [(out & [_ HI _ _ _]) _]).
    destruct (small_block sizemap others Hsm _ _ _ _ _ a cl (mi_layers _ _ _ _ _ _ _ HM) Hu) as (p & s & Hs).
    destruct (sa_in _ _ _ _ _ _ _ Hs) as [Hi _], (ph_bounds _ _ _ (ci_wf _ _ _ HI) (sa_use _ _ _ _ _ _ _ Hs)) as (Hp & Hst & _).
    apply owned_page; [clia|]. intros E0. apply Hp. rewrite <- (sa_desc _ _ _ _ _ _ _ Hs). exact E0.
  - pose proof (MInv_large sizemap others u L K l st p s HM Hp) as Hs. destruct (la_bounds _ _ _ Hs) as (? & ? & _).
    apply owned_page; [clia|]. rewrite shiftr_div by clia. replace (start s * kPageSize / 2 ^ kPageShift) with (start s) by (consts; zdiv).
    intros E0. by rewrite <- (la_desc _ _ _ Hs) in *.
Qed.
End Ownership.

(** The program that holds two large blocks and nothing else. *)
Lemma two_blocks_bytes : block_bytes two_blocks = 311296.
Proof. reflexivity. Qed.
Abbreviation held_msp := (min_span_bytes 4096 / kPageSize).
Lemma held_fits sm (st : Malloc (PageHeap PM48 (gset Z)) unit) : two_held sm st -> counts_fit default_rate 0 held_msp sm st.
Proof.
  intros [? ? ? ? ? Hn He]. constructor; [|by rewrite Hn; intros t v Hv].
  intros cl c Hc. by rewrite (He cl c Hc).
Qed.

Lemma allocated_bytes_exact_witness : exists sm (x : Extension PM48 (gset Z) unit) allocated heap_size,
  @Rep _ unit (spans_of default_rate 0 4096) (objects_of default_rate 0 4096) nothing sm alone two_blocks (impl x) /\
  counts_fit default_rate 0 held_msp sm (impl x) /\
  EX.GetNumericProperty sm (fun _ => 0) "generic.current_allocated_bytes"%string x = Ret (Some (allocated, false), x) /\
  EX.GetNumericProperty sm (fun _ => 0) "generic.heap_size"%string x = Ret (Some (heap_size, false), x) /\
  311296 <= allocated.
Proof.
  destruct held_state as (sm & st & Hh). pose proof (held_fits sm st Hh) as Hf. destruct Hh as [H1 H2 _ HR _ _ _].
  pose proof (allocated_bytes_exact (PM := PM48) (E := gset Z) (U := unit) default_rate 0 held_msp (config default_rate rate_ok 4096 native_4k)
    sm alone (fun _ => 0) H1 H2 two_blocks (mkExtension st 0 0 0 default_rate 0) HR Hf) as (a & hs & f & un & c & t & th & u' & lost & E1 & E2 & H).
  exists sm, (mkExtension st 0 0 0 default_rate 0), a, hs. rewrite <- two_blocks_bytes. split_and!; [exact HR|exact Hf|exact E1|exact E2|apply H].
Defined.

Lemma ReleaseToSystem_correct_witness : exists sm (x : Extension PM48 (gset Z) unit),
  @Rep _ unit (spans_of default_rate 0 4096) (objects_of default_rate 0 4096) nothing sm alone two_blocks (impl x) /\
  wp (EX.ReleaseToSystem 100000) (fun _ x' =>
    @Rep _ unit (spans_of default_rate 0 4096) (objects_of default_rate 0 4096) nothing sm alone two_blocks (impl x') /\ 0 <= extra_bytes_released_ x') x.
Proof.
  destruct held_state as (sm & st & [_ _ _ HR _ _ _]). exists sm, (mkExtension st 3 0 0 default_rate 0). split; [done|].
  eapply wp_mono; [apply (ReleaseToSystem_correct (PM := PM48) (E := gset Z) (U := unit) default_rate 0 held_msp
    sm alone two_blocks (mkExtension st 3 0 0 default_rate 0) 100000 HR); cbn; lia|].
  by intros [] x' (? & _ & ? & _).
Defined.
Lemma blocks_owned_witness : exists sm (st : Malloc (PageHeap PM48 (gset Z)) unit), two_held sm st /\
  EX.GetOwnership (fun _ => false) 344064 st = Ret (kOwned, st).
Proof.
  destruct held_state as (sm & st & Hh). exists sm, st. split; [done|]. destruct Hh as [H1 _ _ HR _ _ _].
  by eapply (blocks_owned (E := gset Z) (U := unit) default_rate 0 held_msp (config default_rate rate_ok 4096 native_4k)
    sm alone (fun _ => false) H1 two_blocks st 344064 8192 HR).
Defined.
