(* ===== verification/SpinLock.v ===== *)
(** * Spin locks

    Models src/src/src/base/spinlock.h and spinlock.cc over the futex
    wait and wake of spinlock_linux-inl.h: the lock word and any number of
    threads, each at a point of [Lock], [TryLock] or [Unlock]. A step is one
    atomic access of the lock word or one futex call; steps of different
    threads interleave freely, loads and stores are sequentially consistent.
    [TrivialOnce] is modelled on top, with the lock it uses. *)
From S2P Require Import Prelude.

(** ** The lock word *)

Definition kSpinLockFree : Z := 0.
Definition kSpinLockHeld : Z := 1.
Definition kSpinLockSleeper : Z := 2.

Module SL.
(** Where a thread is. [c] is the countdown of [SpinLoop], [lock_value] the
    local variable of [SlowLock]. *)
Inductive pc :=
  | Idle                         (** outside *)
  | Lock0                        (** before the first exchange of [Lock] *)
  | Try0                         (** before the exchange of [TryLock] *)
  | Spin (c : Z)                 (** the loop of [SpinLoop] *)
  | SpinSwap                     (** its compare-and-exchange *)
  | Slow (lock_value : Z)        (** the test of the loop of [SlowLock] *)
  | Mark                         (** mark the word as having a sleeper *)
  | Retry (lock_value : Z)       (** the second exchange, free again *)
  | Delay (lock_value : Z)       (** before the futex wait *)
  | Asleep                       (** in the futex wait *)
  | Critical                     (** the lock is held *)
  | WakeOne.                     (** [SlowUnlock], before the futex wake *)

#[export] Instance pc_eq_dec : EqDecision pc.
Proof. solve_decision. Defined.

Record State := mkState { lockword_ : Z; threads : gmap Z pc }.

(** A strong exchange: the new word and the value seen. *)
Definition compare_exchange_strong (word old new : Z) : Z * Z :=
  if word =? old then (new, old) else (word, word).

(** [IsHeld]. *)
Definition IsHeld (s : State) : bool := negb (lockword_ s =? kSpinLockFree).

Section Steps.
(** [adaptive_spin_count]. *)
Context (adaptive_spin_count : Z).

(** One access of the lock word by one thread: the new word and the
    thread's next point. [weak] says that a weak exchange fails although the
    word matches. *)
Definition access (weak : bool) (word : Z) (p : pc) : option (Z * pc) :=
  match p with
  | Lock0 =>
      if (word =? kSpinLockFree) && negb weak then Some (kSpinLockHeld, Critical)
      else Some (word, Spin adaptive_spin_count)
  | Try0 =>
      if (word =? kSpinLockFree) && negb weak then Some (kSpinLockHeld, Critical) else Some (word, Idle)
  | Spin c =>
      if negb (word =? kSpinLockFree) && (c - 1 >? 0) then Some (word, Spin (c - 1)) else Some (word, SpinSwap)
  | SpinSwap =>
      let '(word, old) := compare_exchange_strong word kSpinLockFree kSpinLockSleeper in Some (word, Slow old)
  | Slow lock_value =>
      if lock_value =? kSpinLockFree then Some (word, Critical)
      else if lock_value =? kSpinLockHeld then Some (word, Mark)
      else Some (word, Delay lock_value)
  | Mark =>
      let '(word, lock_value) := compare_exchange_strong word kSpinLockHeld kSpinLockSleeper in
      if lock_value =? kSpinLockHeld then Some (word, Delay kSpinLockSleeper)
      else if lock_value =? kSpinLockFree then Some (word, Retry lock_value)
      else Some (word, Delay lock_value)
  | Retry lock_value =>
      let '(word, lock_value) := compare_exchange_strong word lock_value kSpinLockSleeper in Some (word, Slow lock_value)
  | Critical =>
      Some (kSpinLockFree, if negb (word =? kSpinLockHeld) then WakeOne else Idle)
  | Idle | Delay _ | Asleep | WakeOne => None
  end.

Inductive step : State -> State -> Prop :=
  | step_lock s t : threads s !! t = Some Idle -> step s (mkState (lockword_ s) (<[t := Lock0]> (threads s)))
  | step_try s t : threads s !! t = Some Idle -> step s (mkState (lockword_ s) (<[t := Try0]> (threads s)))
  | step_access s t p weak word p' : threads s !! t = Some p -> access weak (lockword_ s) p = Some (word, p') ->
      step s (mkState word (<[t := p']> (threads s)))
  (** The kernel puts the caller to sleep only if the word has the value. *)
  | step_wait s t v : threads s !! t = Some (Delay v) -> lockword_ s = v ->
      step s (mkState (lockword_ s) (<[t := Asleep]> (threads s)))
  | step_wait_changed s t v : threads s !! t = Some (Delay v) -> lockword_ s <> v ->
      step s (mkState (lockword_ s) (<[t := Spin adaptive_spin_count]> (threads s)))
  (** The wait has a timeout, and may end early. *)
  | step_timeout s t : threads s !! t = Some Asleep ->
      step s (mkState (lockword_ s) (<[t := Spin adaptive_spin_count]> (threads s)))
  | step_wake s t u : threads s !! t = Some WakeOne -> threads s !! u = Some Asleep ->
      step s (mkState (lockword_ s) (<[u := Spin adaptive_spin_count]> (<[t := Idle]> (threads s))))
  | step_wake_none s t : threads s !! t = Some WakeOne -> (forall u, threads s !! u <> Some Asleep) ->
      step s (mkState (lockword_ s) (<[t := Idle]> (threads s))).

(** A free lock and threads outside of it. *)
Definition initial (s : State) : Prop :=
  lockword_ s = kSpinLockFree /\ forall t p, threads s !! t = Some p -> p = Idle.
Inductive reachable : State -> Prop :=
  | reach_initial s : initial s -> reachable s
  | reach_next s s' : reachable s -> step s s' -> reachable s'.
End Steps.

(** ** Mutual exclusion *)

(** The thread has changed the word and is in. *)
Definition owns (p : pc) : bool :=
  match p with Critical => true | Slow v => v =? kSpinLockFree | _ => false end.
(** Points at which a thread is awake in [SlowLock] and will see the word
    again before it sleeps, or has yet to wake a sleeper. *)
Definition alert (p : pc) : bool :=
  match p with Spin _ | SpinSwap | Mark | Retry _ | WakeOne => true | Slow v => negb (v =? kSpinLockFree) | Delay v => true | _ => false end.

Definition local_ok (p : pc) : Prop :=
  match p with
  | Slow v => v = kSpinLockFree \/ v = kSpinLockHeld \/ v = kSpinLockSleeper
  | Retry v => v = kSpinLockFree
  | Delay v => v = kSpinLockSleeper
  | _ => True
  end.

Record inv (s : State) : Prop := {
  inv_word : lockword_ s = kSpinLockFree \/ lockword_ s = kSpinLockHeld \/ lockword_ s = kSpinLockSleeper;
  inv_local : forall t p, threads s !! t = Some p -> local_ok p;
  inv_unique : forall t u p q, threads s !! t = Some p -> threads s !! u = Some q -> owns p = true -> owns q = true -> t = u;
  inv_held : lockword_ s <> kSpinLockFree <-> exists t p, threads s !! t = Some p /\ owns p = true;
  inv_wake : forall t, threads s !! t = Some Asleep ->
    lockword_ s = kSpinLockSleeper \/ exists u p, threads s !! u = Some p /\ alert p = true }.

(** What a step of one thread may do to who owns the lock, and to who
    watches over sleepers. *)
Inductive ownership (w : Z) (p : pc) (w' : Z) (p' : pc) : Prop :=
  | own_same : owns p' = owns p -> (w' = kSpinLockFree <-> w = kSpinLockFree) -> ownership w p w' p'
  | own_take : owns p = false -> w = kSpinLockFree -> w' <> kSpinLockFree -> owns p' = true -> ownership w p w' p'
  | own_drop : owns p = true -> w' = kSpinLockFree -> owns p' = false -> ownership w p w' p'.
Inductive watch (w : Z) (p : pc) (w' : Z) (p' : pc) : Prop :=
  | watch_next : alert p' = true -> watch w p w' p'
  | watch_word : w' = kSpinLockSleeper -> watch w p w' p'
  | watch_same : alert p = false -> (w = kSpinLockSleeper -> w' = kSpinLockSleeper) -> p' <> Asleep -> watch w p w' p'.

Definition watched (w : Z) (m : gmap Z pc) : Prop := w = kSpinLockSleeper \/ exists u p, m !! u = Some p /\ alert p = true.

Lemma lock_own s t p w' p' : inv s -> threads s !! t = Some p ->
  (w' = kSpinLockFree \/ w' = kSpinLockHeld \/ w' = kSpinLockSleeper) -> local_ok p' ->
  ownership (lockword_ s) p w' p' ->
  (forall u, <[t := p']> (threads s) !! u = Some Asleep -> watched w' (<[t := p']> (threads s))) ->
  inv (mkState w' (<[t := p']> (threads s))).
Proof.
  intros [Hw Hl Hu Hh Hk] Ht Hw' Hl' Ho Hwa. constructor; cbn; [done| | | |exact Hwa].
  - intros u q [[<- <-]|[_ Hq]]%lookup_insert_Some; [done|by eapply Hl].
  - assert (owns p' = true -> forall u q, u <> t -> threads s !! u = Some q -> owns q = true -> False) as Hx.
    { intros Hp' u q Hne Hq Hoq. destruct Ho as [E _|_ E _ _|_ _ E]; [| |congruence].
      - destruct Hne. eapply Hu; [exact Hq|exact Ht|done|congruence].
      - destruct (proj2 Hh (ex_intro _ u (ex_intro _ q (conj Hq Hoq))) E). }
    intros u v q r [[<- <-]|[Hne Hq]]%lookup_insert_Some [[<- <-]|[Hne' Hr]]%lookup_insert_Some Hoq Hor;
      [done|by destruct (Hx Hoq v r (not_eq_sym Hne') Hr Hor)|by destruct (Hx Hor u q (not_eq_sym Hne) Hq Hoq)|by eapply Hu].
  - assert ((exists u q, <[t := p']> (threads s) !! u = Some q /\ owns q = true) <-> owns p' = true \/
      exists u q, u <> t /\ threads s !! u = Some q /\ owns q = true) as ->.
    { split.
      - intros (u & q & [[<- <-]|[Hne Hq]]%lookup_insert_Some & Ho'); [by left|right; exists u, q; auto].
      - intros [Hp'|(u & q & Hne & Hq & Ho')]; [exists t, p'; by rewrite lookup_insert_eq|exists u, q; by rewrite lookup_insert_ne]. }
    destruct Ho as [E Ef|E Ef Hn Hp'|E Ef E'].
    + rewrite Ef, Hh, E. split.
      * intros (u & q & Hq & Hoq). destruct (decide (u = t)) as [->|Hne]; [left; congruence|right; eauto].
      * intros [Hp|(u & q & _ & Hq & Hoq)]; eauto.
    + split; [by left|done].
    + split; [done|]. intros [?|(u & q & Hne & Hq & Hoq)]; [congruence|]. destruct Hne. by eapply Hu.
Qed.

Lemma lock_upd s t p w' p' : inv s -> threads s !! t = Some p ->
  (w' = kSpinLockFree \/ w' = kSpinLockHeld \/ w' = kSpinLockSleeper) -> local_ok p' ->
  ownership (lockword_ s) p w' p' -> watch (lockword_ s) p w' p' -> inv (mkState w' (<[t := p']> (threads s))).
Proof.
  intros HI Ht Hw' Hl' Ho Hwa. pose proof (inv_wake _ HI) as Hk. apply (lock_own s t p); [done..|].
  intros u Hu1. assert (w' = kSpinLockSleeper \/ alert p' = true \/
      (exists v q, v <> t /\ threads s !! v = Some q /\ alert q = true)) as [?|[?|(v & q & Hne & Hq & Ha)]].
    { destruct Hwa as [Ha|?|Ha Hws Hna]; [by right; left|by left|].
      apply lookup_insert_Some in Hu1 as [[_ ?]|[Hne Hu1]]; [done|].
      destruct (Hk u Hu1) as [?|(v & q & Hq & Haq)]; [left; auto|right; right]. exists v, q. split; [|done]. intros ->. congruence. }
  - by left.
  - right. exists t, p'. by rewrite lookup_insert_eq.
  - right. exists v, q. by rewrite lookup_insert_ne.
Qed.

(** All cases of one access. *)
Ltac accesses Ha p :=
  unfold access, compare_exchange_strong, kSpinLockFree, kSpinLockHeld, kSpinLockSleeper in *;
  destruct p as [| | |c| |v| |v|v| | |]; try discriminate Ha; cbn in *;
  repeat match type of Ha with context [if ?b then _ else _] => destruct b eqn:? end; simplify_eq Ha; intros; subst;
  rewrite ?andb_true_iff, ?andb_false_iff, ?negb_true_iff, ?negb_false_iff, ?Z.eqb_eq, ?Z.eqb_neq in *; cbn.

Lemma access_local n weak w p w' p' : access n weak w p = Some (w', p') -> local_ok p ->
  (w = kSpinLockFree \/ w = kSpinLockHeld \/ w = kSpinLockSleeper) ->
  (w' = kSpinLockFree \/ w' = kSpinLockHeld \/ w' = kSpinLockSleeper) /\ local_ok p'.
Proof. intros Ha Hl Hw. unfold local_ok in *. accesses Ha p; lia. Qed.
Lemma access_own n weak w p w' p' : access n weak w p = Some (w', p') -> local_ok p ->
  (owns p = true -> w <> kSpinLockFree) -> ownership w p w' p'.
Proof.
  intros Ha Hl Ho. accesses Ha p.
  all: first [apply own_same; cbn; unfold kSpinLockFree in *; solve [done|lia|apply Z.eqb_neq; lia]
    | apply own_take; cbn; unfold kSpinLockFree in *; solve [done|lia] | apply own_drop; cbn; solve [done|lia]].
Qed.
Lemma access_watch n weak w p w' p' : access n weak w p = Some (w', p') -> local_ok p -> watch w p w' p'.
Proof.
  intros Ha Hl. accesses Ha p.
  all: first [apply watch_next; cbn; unfold kSpinLockFree in *; solve [done|apply negb_true_iff, Z.eqb_neq; lia] | apply watch_word; cbn; solve [done|lia]
    | apply watch_same; cbn; unfold kSpinLockFree, kSpinLockSleeper in *; solve [done|lia]].
Qed.

Lemma lock_step n s s' : step n s s' -> inv s -> inv s'.
Proof.
  intros Hst HI. pose proof (inv_word _ HI) as Hw.
  destruct Hst as [s t Ht|s t Ht|s t p weak w' p' Ht Ha|s t v Ht Hv|s t v Ht Hv|s t Ht|s t u Ht Hu|s t Ht Hnone].
  - apply (lock_upd s t Idle); [done..| |]; [by apply own_same|by apply watch_same].
  - apply (lock_upd s t Idle); [done..| |]; [by apply own_same|by apply watch_same].
  - pose proof (inv_local _ HI _ _ Ht) as Hl. destruct (access_local _ _ _ _ _ _ Ha Hl Hw).
    eapply lock_upd; [done|done|done|done| |by eapply access_watch]. eapply access_own; [done|done|].
    intros Ho. apply (inv_held _ HI). eauto.
  - pose proof (inv_local _ HI _ _ Ht) as Hl. cbn in Hl. apply (lock_upd s t (Delay v)); [done..| |]; [by apply own_same|].
    apply watch_word. congruence.
  - apply (lock_upd s t (Delay v)); [done..| |]; [by apply own_same|by apply watch_next].
  - apply (lock_upd s t Asleep); [done..| |]; [by apply own_same|by apply watch_next].
  - assert (u <> t) by congruence. rewrite insert_insert_ne by done.
    assert (inv (mkState (lockword_ s) (<[u := Spin n]> (threads s)))) as HI1.
    { apply (lock_upd s u Asleep); [done..| |]; [by apply own_same|by apply watch_next]. }
    (** The woken thread watches now. *)
    set (s1 := mkState (lockword_ s) (<[u := Spin n]> (threads s))) in *.
    change (inv (mkState (lockword_ s) (<[t := Idle]> (threads s1)))).
    apply (lock_own s1 t WakeOne (lockword_ s) Idle); [done|by cbn; rewrite lookup_insert_ne|done|done|by apply own_same|].
    intros v _. right. exists u, (Spin n). cbn. by rewrite lookup_insert_ne, lookup_insert_eq.
  - apply (lock_own s t WakeOne); [done..|by apply own_same|].
    intros u [[_ ?]|[_ Hu]]%lookup_insert_Some; [done|by destruct (Hnone u)].
Qed.

Lemma lock_reachable n s : reachable n s -> inv s.
Proof.
  induction 1 as [s [Hw Hi]|s s' _ IH Hst]; [|by eapply lock_step]. constructor.
  - by left.
  - by intros t p ->%Hi.
  - intros t u p q ->%Hi. done.
  - split; [done|]. intros (t & p & ->%Hi & ?). done.
  - intros t ?%Hi. done.
Qed.

(** ** Progress *)

Definition waiting (p : pc) : bool :=
  match p with Idle | Try0 | Critical | WakeOne => false | _ => true end.

(** A thread alone, finishing its entry. *)
Lemma run_access n s t p w' p' : threads s !! t = Some p -> access n false (lockword_ s) p = Some (w', p') ->
  rtc (step n) s (mkState w' (<[t := p']> (threads s))).
Proof. intros Ht Ha. eapply rtc_once, (step_access n s t p false); [exact Ht|exact Ha]. Qed.
Lemma enter_slow n s t : threads s !! t = Some (Slow kSpinLockFree) -> exists s', rtc (step n) s s' /\ threads s' !! t = Some Critical.
Proof. intros Ht. eexists. split; [by eapply run_access|]. cbn. by rewrite lookup_insert_eq. Qed.
Lemma enter_swap n s t : threads s !! t = Some SpinSwap -> lockword_ s = kSpinLockFree ->
  exists s', rtc (step n) s s' /\ threads s' !! t = Some Critical.
Proof.
  intros Ht Hw. assert (access n false (lockword_ s) SpinSwap = Some (kSpinLockSleeper, Slow kSpinLockFree)) as Ha by by rewrite Hw.
  destruct (enter_slow n (mkState kSpinLockSleeper (<[t := Slow kSpinLockFree]> (threads s))) t) as (s' & Hr & Hs'); [cbn; by rewrite lookup_insert_eq|].
  exists s'. split; [|done]. etrans; [by eapply run_access|done].
Qed.
Lemma enter_spin n s t c : threads s !! t = Some (Spin c) -> lockword_ s = kSpinLockFree ->
  exists s', rtc (step n) s s' /\ threads s' !! t = Some Critical.
Proof.
  intros Ht Hw. assert (access n false (lockword_ s) (Spin c) = Some (lockword_ s, SpinSwap)) as Ha by by rewrite Hw.
  destruct (enter_swap n (mkState (lockword_ s) (<[t := SpinSwap]> (threads s))) t) as (s' & Hr & Hs'); [cbn; by rewrite lookup_insert_eq|done|].
  exists s'. split; [|done]. etrans; [by eapply run_access|done].
Qed.
Lemma enter_to_spin n s t s1 : step n s s1 -> threads s1 !! t = Some (Spin n) -> lockword_ s1 = kSpinLockFree ->
  exists s', rtc (step n) s s' /\ threads s' !! t = Some Critical.
Proof. intros Hst H1 Hw. destruct (enter_spin n s1 t n H1 Hw) as (s' & ? & ?). exists s'. split; [by eapply rtc_l|done]. Qed.
Lemma enter_free n s t p : inv s -> threads s !! t = Some p -> waiting p = true -> lockword_ s = kSpinLockFree ->
  exists s', rtc (step n) s s' /\ threads s' !! t = Some Critical.
Proof.
  intros HI Ht Hp Hw. pose proof (inv_local _ HI _ _ Ht) as Hl.
  assert (forall v, threads s !! t = Some (Delay v) -> v = kSpinLockSleeper -> exists s', rtc (step n) s s' /\ threads s' !! t = Some Critical) as Hdelay.
  { intros v Hv ->. eapply enter_to_spin; [eapply step_wait_changed; [exact Hv|by rewrite Hw]|cbn; by rewrite lookup_insert_eq|done]. }
  destruct p as [| | |c| |v| |v|v| | |]; try discriminate.
  - eexists. split; [eapply (run_access n s t Lock0); [done|by rewrite Hw]|]. cbn. by rewrite lookup_insert_eq.
  - by eapply enter_spin.
  - by eapply enter_swap.
  - (** A value seen before the lock became free. *)
    cbn in Hl. destruct Hl as [-> | [-> | ->]]; [by apply enter_slow| |].
    + set (s1 := mkState (lockword_ s) (<[t := Mark]> (threads s))).
      set (s2 := mkState (lockword_ s) (<[t := Retry kSpinLockFree]> (threads s1))).
      set (s3 := mkState kSpinLockSleeper (<[t := Slow kSpinLockFree]> (threads s2))).
      destruct (enter_slow n s3 t) as (s' & Hr & Hs'); [cbn; by rewrite lookup_insert_eq|]. exists s'. split; [|done].
      etrans; [apply (run_access n s t (Slow kSpinLockHeld) (lockword_ s) Mark); done|].
      etrans; [apply (run_access n s1 t Mark (lockword_ s) (Retry kSpinLockFree)); [cbn; by rewrite lookup_insert_eq|cbn; by rewrite Hw]|].
      etrans; [apply (run_access n s2 t (Retry kSpinLockFree) kSpinLockSleeper (Slow kSpinLockFree)); [cbn; by rewrite lookup_insert_eq|cbn; by rewrite Hw]|done].
    + set (s1 := mkState (lockword_ s) (<[t := Delay kSpinLockSleeper]> (threads s))).
      destruct (enter_to_spin n s1 t (mkState (lockword_ s) (<[t := Spin n]> (threads s1)))) as (s' & Hr & Hs');
        [apply (step_wait_changed n s1 t kSpinLockSleeper); [cbn; by rewrite lookup_insert_eq|cbn; by rewrite Hw]|cbn; by rewrite lookup_insert_eq|done|].
      exists s'. split; [|done]. etrans; [apply (run_access n s t (Slow kSpinLockSleeper) (lockword_ s) (Delay kSpinLockSleeper)); done|done].
  - set (s2 := mkState (lockword_ s) (<[t := Retry kSpinLockFree]> (threads s))).
    set (s3 := mkState kSpinLockSleeper (<[t := Slow kSpinLockFree]> (threads s2))).
    destruct (enter_slow n s3 t) as (s' & Hr & Hs'); [cbn; by rewrite lookup_insert_eq|]. exists s'. split; [|done].
    etrans; [apply (run_access n s t Mark (lockword_ s) (Retry kSpinLockFree)); [done|by rewrite Hw]|].
    etrans; [apply (run_access n s2 t (Retry kSpinLockFree) kSpinLockSleeper (Slow kSpinLockFree)); [cbn; by rewrite lookup_insert_eq|cbn; by rewrite Hw]|done].
  - cbn in Hl. subst v. set (s3 := mkState kSpinLockSleeper (<[t := Slow kSpinLockFree]> (threads s))).
    destruct (enter_slow n s3 t) as (s' & Hr & Hs'); [cbn; by rewrite lookup_insert_eq|]. exists s'. split; [|done].
    etrans; [apply (run_access n s t (Retry kSpinLockFree) kSpinLockSleeper (Slow kSpinLockFree)); [done|by rewrite Hw]|done].
  - by eapply Hdelay.
  - eapply enter_to_spin; [by eapply step_timeout|cbn; by rewrite lookup_insert_eq|done].
Qed.

(** ** Theorems *)

(** C18: the spin lock excludes. However the accesses of any number of
    threads interleave, weak exchanges failing at will and waits ending
    early, at most one thread is past [Lock] or a successful [TryLock]; while
    one is, [IsHeld] is true, and when [IsHeld] is false nobody is. *)
Theorem spinlock_excludes n s t u (Hr : reachable n s) (Ht : threads s !! t = Some Critical) (Hu : threads s !! u = Some Critical) :
  t = u /\ IsHeld s = true.
Proof.
  apply lock_reachable in Hr as HI. split; [by eapply (inv_unique _ HI)|].
  unfold IsHeld. apply negb_true_iff, Z.eqb_neq, (inv_held _ HI). by exists t, Critical.
Qed.

(** C32: no sleeper is forgotten. While a thread sleeps in the futex, either
    the lock word says so, the lock is held and its holder will wake a
    sleeper when it unlocks; or some other thread is awake in [SlowLock],
    or about to wake one, so that the sleeper does not depend on the
    timeout. *)
Theorem spinlock_no_lost_wakeup n s t (Hr : reachable n s) (Ht : threads s !! t = Some Asleep) :
  (exists u p, threads s !! u = Some p /\ u <> t /\ alert p = true) \/
  (exists u p, threads s !! u = Some p /\ owns p = true) /\ access n false (lockword_ s) Critical = Some (kSpinLockFree, WakeOne).
Proof.
  apply lock_reachable in Hr as HI. destruct (inv_wake _ HI t Ht) as [Hw|(u & p & Hu & Hp)].
  - right. split; [apply (inv_held _ HI); by rewrite Hw|]. cbn. by rewrite Hw.
  - left. exists u, p. split; [done|]. split; [|done]. intros ->. by assert (p = Asleep) as -> by congruence.
Qed.

(** A free lock can be taken by every thread that waits for it, from
    every point of [Lock], whether it spins, is about to sleep or sleeps. *)
Theorem spinlock_progress n s t p (Hr : reachable n s) (Ht : threads s !! t = Some p) (Hp : waiting p = true)
    (Hfree : IsHeld s = false) :
  exists s', rtc (step n) s s' /\ threads s' !! t = Some Critical.
Proof.
  apply lock_reachable in Hr as HI. eapply enter_free; [done..|]. by apply negb_false_iff, Z.eqb_eq in Hfree.
Qed.

(** ** Two threads *)

Lemma pair_lookup {A} (a b p : A) (t : Z) : (<[1 := a]> {[2 := b]} : gmap Z A) !! t = Some p -> p = a \/ t = 2 /\ p = b.
Proof. intros [[_ <-]|[_ [<- <-]%lookup_singleton_Some]]%lookup_insert_Some; auto. Qed.
Definition two : State := mkState kSpinLockFree (<[1 := Idle]> {[2 := Idle]}).
Lemma two_initial : initial two.
Proof. split; [done|]. by intros t p [?|[_ ?]]%pair_lookup. Qed.
(** The first holds the lock, the second fell asleep waiting. *)
Definition contended : State := mkState kSpinLockSleeper (<[1 := Critical]> {[2 := Asleep]}).
Lemma walk n w m t p w' p' m' : reachable n (mkState w m) -> m !! t = Some p -> access n false w p = Some (w', p') ->
  <[t := p']> m = m' -> reachable n (mkState w' m').
Proof. intros Hr Hp Ha <-. eapply reach_next; [done|]. by apply (step_access n (mkState w m) t p false). Qed.
Lemma walk_in n w m t m' : reachable n (mkState w m) -> m !! t = Some Idle -> <[t := Lock0]> m = m' -> reachable n (mkState w m').
Proof. intros Hr Hp <-. eapply reach_next; [done|]. by apply (step_lock n (mkState w m) t). Qed.
Lemma walk_sleep n w m t m' : reachable n (mkState w m) -> m !! t = Some (Delay w) -> <[t := Asleep]> m = m' -> reachable n (mkState w m').
Proof. intros Hr Hp <-. eapply reach_next; [done|]. by apply (step_wait n (mkState w m) t w). Qed.
Lemma contended_reachable : reachable 0 contended.
Proof.
  pose proof (reach_initial 0 two two_initial) as R.
  apply (walk_in 0 0 _ 1 (<[1 := Lock0]> {[2 := Idle]})) in R; [|done..].
  apply (walk 0 0 _ 1 Lock0 1 Critical (<[1 := Critical]> {[2 := Idle]})) in R; [|done..].
  apply (walk_in 0 1 _ 2 (<[1 := Critical]> {[2 := Lock0]})) in R; [|done..].
  apply (walk 0 1 _ 2 Lock0 1 (Spin 0) (<[1 := Critical]> {[2 := Spin 0]})) in R; [|done..].
  apply (walk 0 1 _ 2 (Spin 0) 1 SpinSwap (<[1 := Critical]> {[2 := SpinSwap]})) in R; [|done..].
  apply (walk 0 1 _ 2 SpinSwap 1 (Slow 1) (<[1 := Critical]> {[2 := Slow 1]})) in R; [|done..].
  apply (walk 0 1 _ 2 (Slow 1) 1 Mark (<[1 := Critical]> {[2 := Mark]})) in R; [|done..].
  apply (walk 0 1 _ 2 Mark 2 (Delay 2) (<[1 := Critical]> {[2 := Delay 2]})) in R; [|done..].
  by apply (walk_sleep 0 2 _ 2 (<[1 := Critical]> {[2 := Asleep]})) in R.
Qed.
Lemma spinlock_excludes_witness : 1 = 1 /\ IsHeld contended = true.
Proof. by apply (spinlock_excludes 0 contended 1 1 contended_reachable). Defined.
Lemma spinlock_no_lost_wakeup_witness : access 0 false (lockword_ contended) Critical = Some (kSpinLockFree, WakeOne).
Proof.
  destruct (spinlock_no_lost_wakeup 0 contended 2 contended_reachable eq_refl) as [(u & p & Hu & Hne & Hp)|[_ ?]]; [|done].
  by apply pair_lookup in Hu as [-> |[-> _]].
Defined.
Lemma spinlock_progress_witness : exists s', rtc (step 0) (mkState 0 (<[1 := Lock0]> {[2 := Idle]})) s' /\ threads s' !! 1 = Some Critical.
Proof.
  apply (spinlock_progress 0 (mkState 0 (<[1 := Lock0]> {[2 := Idle]})) 1 Lock0); [|done..].
  by apply (walk_in 0 0 _ 1 _ (reach_initial 0 two two_initial)).
Defined.
End SL.

(** ** Run once

    [TrivialOnce::RunOnce]. The lock is what [SL] shows it to be: [holder]
    is the thread inside. *)
Module Once.
Inductive pc :=
  | Idle
  | Load0                        (** the first load of [done_flag_] *)
  | Lock                         (** [SpinLockHolder] *)
  | Load1                        (** the second load, under the lock *)
  | Body                         (** before the body *)
  | Store                        (** the body is done *)
  | Unlock (result : bool)       (** the holder goes out of scope *)
  | Return (result : bool).

Record State := mkState { done_flag_ : Z; holder : option Z; runs : Z; threads : gmap Z pc }.

(** A step of thread [t] at point [p]; [runs] counts the runs of the body. *)
Definition next (t : Z) (d : Z) (h : option Z) (r : Z) (p : pc) : option (Z * option Z * Z * pc) :=
  match p with
  | Idle => Some (d, h, r, Load0)
  | Load0 => Some (d, h, r, if d =? 1 then Return false else Lock)
  | Lock => match h with None => Some (d, Some t, r, Load1) | Some _ => None end
  | Load1 => Some (d, h, r, if d =? 1 then Unlock false else Body)
  | Body => Some (d, h, r + 1, Store)
  | Store => Some (1, h, r, Unlock true)
  | Unlock b => Some (d, None, r, Return b)
  | Return _ => Some (d, h, r, Idle)
  end.
Inductive step : State -> State -> Prop :=
  | step_next s t p d h r p' : threads s !! t = Some p ->
      next t (done_flag_ s) (holder s) (runs s) p = Some (d, h, r, p') ->
      step s (mkState d h r (<[t := p']> (threads s))).
Inductive reachable : State -> Prop :=
  | reach_initial s : done_flag_ s = 0 -> holder s = None -> runs s = 0 ->
      (forall t p, threads s !! t = Some p -> p = Idle) -> reachable s
  | reach_next s s' : reachable s -> step s s' -> reachable s'.

Definition inside (p : pc) : bool :=
  match p with Load1 | Body | Store | Unlock _ => true | _ => false end.
(** What a thread at a point knows of the flag and of the runs. *)
Definition knows (d r : Z) (p : pc) : Prop :=
  match p with
  | Body => d = 0 /\ r = 0
  | Store => d = 0 /\ r = 1
  | Unlock _ | Return _ => d = 1 /\ r = 1
  | _ => True
  end.

Record inv (s : State) : Prop := {
  inv_flag : done_flag_ s = 1 /\ runs s = 1 \/
    done_flag_ s = 0 /\ (runs s = 0 \/ exists t, threads s !! t = Some Store);
  inv_holder : forall t p, threads s !! t = Some p -> inside p = true -> holder s = Some t;
  inv_knows : forall t p, threads s !! t = Some p -> knows (done_flag_ s) (runs s) p }.

(** One thread moves; the others keep their points. *)
Lemma once_upd s t d h r p' : inv s ->
  (d = 1 /\ r = 1 \/ d = 0 /\ (r = 0 \/ p' = Store \/ exists u, u <> t /\ threads s !! u = Some Store)) ->
  (inside p' = true -> h = Some t) -> knows d r p' ->
  (forall u q, u <> t -> threads s !! u = Some q -> inside q = true -> h = Some u) ->
  (forall u q, u <> t -> threads s !! u = Some q -> knows (done_flag_ s) (runs s) q -> knows d r q) ->
  inv (mkState d h r (<[t := p']> (threads s))).
Proof.
  intros [Hf Ho Hk] Hf' Hi Hkn Hi' Hk'. constructor; cbn.
  - destruct Hf' as [?|[? [?|[-> |(u & Hne & Hu)]]]]; [by left|right; auto|right; split; [done|right]..].
    + exists t. by rewrite lookup_insert_eq.
    + exists u. by rewrite lookup_insert_ne.
  - intros u q [[<- <-]|[Hne Hq]]%lookup_insert_Some; [done|]. by apply Hi'.
  - intros u q [[<- <-]|[Hne Hq]]%lookup_insert_Some; [done|]. eapply Hk'; [done|exact Hq|by eapply Hk].
Qed.
(** Flag, holder and count stay. *)
Lemma once_local s t p p' : inv s -> threads s !! t = Some p -> p <> Store -> (inside p' = true -> inside p = true) ->
  knows (done_flag_ s) (runs s) p' -> inv (mkState (done_flag_ s) (holder s) (runs s) (<[t := p']> (threads s))).
Proof.
  intros HI Ht Hp Hi Hk. pose proof HI as [Hf Ho _]. apply once_upd; [done| |by intros ?%Hi; eapply Ho|done|by intros u q _; apply Ho|done].
  destruct Hf as [?|[? [?|[u Hu]]]]; [by left|right; auto|]. right. split; [done|]. right; right. exists u. split; [congruence|done].
Qed.
(** A thread inside knows that nobody else is. *)
Lemma alone_inside s t p u q : inv s -> threads s !! t = Some p -> inside p = true -> u <> t -> threads s !! u = Some q -> inside q = false.
Proof.
  intros HI Ht Hp Hne Hq. destruct (inside q) eqn:E; [|done]. destruct Hne.
  pose proof (inv_holder _ HI t p Ht Hp). pose proof (inv_holder _ HI u q Hq E). congruence.
Qed.

Lemma once_step s s' : step s s' -> inv s -> inv s'.
Proof.
  intros [s0 t p d h r p' Ht Hn] HI. pose proof (inv_flag _ HI) as Hf. pose proof (inv_knows _ HI t p Ht) as Hkt.
  pose proof (fun Hp u q => alone_inside s0 t p u q HI Ht Hp) as Hx.
  assert (inside p = true -> holder s0 = Some t) as Hin by (by intros; eapply (inv_holder _ HI)).
  destruct p; cbn in Hn, Hkt.
  - simplify_eq. by eapply once_local.
  - simplify_eq. eapply once_local; [done..| |]; destruct (Z.eqb_spec (done_flag_ s0) 1); cbn; try done. lia.
  - destruct (holder s0) eqn:Eh; [done|]. simplify_eq. apply once_upd; [done| |done|done| |done].
    + destruct Hf as [?|[? [?|[u Hu]]]]; [by left|right; auto|]. by pose proof (inv_holder _ HI u Store Hu eq_refl); congruence.
    + intros u q _ Hq Hi. pose proof (inv_holder _ HI u q Hq Hi). congruence.
  - simplify_eq. eapply once_local; [done|done|done|done|]. destruct (Z.eqb_spec (done_flag_ s0) 1) as [E|E]; cbn; [lia|].
    destruct Hf as [?|[? [?|[u Hu]]]]; [lia|done|]. assert (u <> t) by congruence. by pose proof (Hx eq_refl u Store ltac:(done) Hu).
  - simplify_eq. destruct Hkt as [Ed Er]. apply once_upd; [done|right; auto|auto|cbn; lia| |].
    + intros u q Hne Hq Hi. by rewrite (Hx eq_refl u q Hne Hq) in Hi.
    + intros u q Hne Hq. pose proof (Hx eq_refl u q Hne Hq). destruct q; try done; cbn; lia.
  - simplify_eq. destruct Hkt as [Ed Er]. apply once_upd; [done|by left|auto|cbn; lia| |].
    + intros u q Hne Hq Hi. by rewrite (Hx eq_refl u q Hne Hq) in Hi.
    + intros u q Hne Hq. pose proof (Hx eq_refl u q Hne Hq). destruct q; try done; cbn; lia.
  - simplify_eq. apply once_upd; [done|by left|done|done| |done]. intros u q Hne Hq Hi. by rewrite (Hx eq_refl u q Hne Hq) in Hi.
  - simplify_eq. by eapply once_local.
Qed.
Lemma reachable_ok s : reachable s -> inv s.
Proof.
  induction 1 as [s Hd Hh Hr Hi|s s' _ IH Hst]; [|by eapply once_step].
  constructor; [by right; auto|..]; by intros t p ->%Hi.
Qed.

(** [TrivialOnce] runs its body once. In every interleaving the body has
    run at most once, and when any call returns, whatever it answers, the
    body has run exactly once and the flag is set. *)
Theorem once_runs_once s (Hr : reachable s) :
  0 <= runs s <= 1 /\ forall t b, threads s !! t = Some (Return b) -> runs s = 1 /\ done_flag_ s = 1.
Proof.
  pose proof (reachable_ok s Hr) as HI. split.
  - destruct (inv_flag _ HI) as [?|[? [?|[t Ht]]]]; [lia..|]. apply (inv_knows _ HI) in Ht. cbn in Ht. lia.
  - intros t b Ht. apply (inv_knows _ HI) in Ht. cbn in Ht. lia.
Qed.
Lemma hop d h r m t p d' h' r' p' : reachable (mkState d h r m) -> m !! t = Some p -> next t d h r p = Some (d', h', r', p') ->
  reachable (mkState d' h' r' (<[t := p']> m)).
Proof. intros Hr Hp Hn. eapply reach_next; [done|]. by apply (step_next (mkState d h r m) t p). Qed.
Lemma once_runs_once_witness : exists s, reachable s /\ threads s !! 1 = Some Lock /\ 0 <= runs s <= 1.
Proof.
  assert (reachable (mkState 0 None 0 {[1 := Idle]})) as R.
  { apply reach_initial; [done..|]. intros t p Hp. change (({[1 := Idle]} : gmap Z pc) !! t = Some p) in Hp.
    by apply lookup_singleton_Some in Hp as [_ <-]. }
  apply (hop 0 None 0 _ 1 Idle 0 None 0 Load0) in R; [|done..].
  apply (hop 0 None 0 _ 1 Load0 0 None 0 Lock) in R; [|done..].
  eexists. split; [exact R|]. split; [done|]. apply (once_runs_once _ R).
Defined.
End Once.
