(* ===== verification/AddressMap.v ===== *)
(** * The address map of the heap profiler

    Models src/src/src/addressmap-inl.h: a map from addresses to values as a
    hash table of clusters of 2^20 addresses, each an array of chains for
    blocks of 128 addresses. An [Entry] is an address into the store
    [entries]; chains are lists (LinkedList.v); a cluster that is not in the
    table has empty chains. The allocator passed to the constructor is a
    parameter with the behaviour of [malloc]. The theorems show that the
    structure is a finite map. *)
From S2P Require Import Prelude.

Definition kBlockBits : Z := 7.
Definition kBlockSize : Z := Z.shiftl 1 kBlockBits.
Definition kClusterBits : Z := 13.
Definition kClusterSize : Z := Z.shiftl 1 (kBlockBits + kClusterBits).
Definition kClusterBlocks : Z := Z.shiftl 1 kClusterBits.
Definition kHashBits : Z := 12.
Definition kHashSize : Z := Z.shiftl 1 12.
Definition ALLOC_COUNT : Z := 64.
Definition kHashMultiplier : Z := 2654435769.

Definition HashInt (x : Z) : Z :=
  let m := u32 (u32 x * kHashMultiplier) in Z.shiftr m (32 - kHashBits).
Definition BlockID (address : Z) : Z := Z.land (Z.shiftr address kBlockBits) (kClusterBlocks - 1).
Definition cluster_id (address : Z) : Z := Z.shiftr address (kBlockBits + kClusterBits).

Record Entry (V : Type) := mkEntry { key : Z; value : V }.
Arguments mkEntry {V}. Arguments key {V}. Arguments value {V}.
(** A chain that was never used is absent. *)
Record Cluster := mkCluster { id : Z; blocks : gmap Z (list Z) }.
Record AddressMap (V A : Type) := mkAddressMap {
  hashtable_ : gmap Z (list Cluster);
  entries : gmap Z (Entry V);
  free_ : list Z;
  allocated_ : list Z;
  heap : A }.
Arguments mkAddressMap {V A}. Arguments hashtable_ {V A}. Arguments entries {V A}. Arguments free_ {V A}.
Arguments allocated_ {V A}. Arguments heap {V A}.

Module AM.
Section AddressMap.
Context {V A : Type}.
(** The allocator, the deallocator, and [sizeof(Value)]. *)
Context (alloc : Z -> M A Z) (dealloc : Z -> M A unit) (sizeof_value : Z).
Abbreviation map := (AddressMap V A).

Definition sizeof_Object : Z := 8.
Definition sizeof_Entry : Z := 16 + sizeof_value.
Definition sizeof_Cluster : Z := 16 + 8 * kClusterBlocks.

Definition with_table (v : gmap Z (list Cluster)) (m : map) : map :=
  mkAddressMap v (entries m) (free_ m) (allocated_ m) (heap m).
Definition with_entries (v : gmap Z (Entry V)) (m : map) : map :=
  mkAddressMap (hashtable_ m) v (free_ m) (allocated_ m) (heap m).
Definition with_free (v : list Z) (m : map) : map :=
  mkAddressMap (hashtable_ m) (entries m) v (allocated_ m) (heap m).

(** [New]: the object's address; zeroed, and on the list of objects. *)
Definition New (num size : Z) : M map Z := fun m =>
  '(ptr, a) ← alloc (sizeof_Object + num * size) (heap m);
  Ret (ptr + sizeof_Object, mkAddressMap (hashtable_ m) (entries m) (free_ m) (ptr :: allocated_ m) a).

(** The constructor, over an allocator state. *)
Definition init (a : A) : outcome map :=
  '(_, m) ← New kHashSize 8 (mkAddressMap ∅ ∅ [] [] a);
  Ret m.
(** The destructor. *)
Definition destroy : M map unit := fun m =>
  '(_, a) ← forM_ (allocated_ m) dealloc (heap m);
  Ret (tt, mkAddressMap ∅ ∅ [] [] a).

Definition chain_of (m : map) (h : Z) : list Cluster := default [] (hashtable_ m !! h).
Definition find_id (i : Z) (l : list Cluster) : option Cluster := snd <$> list_find (fun c => id c = i) l.
Definition FindCluster (address : Z) (create : bool) : M map (option Cluster) :=
  m ← getS;
  let h := HashInt (cluster_id address) in
  match find_id (cluster_id address) (chain_of m h) with
  | Some c => mret (Some c)
  | None =>
      if create then
        _ ← New 1 sizeof_Cluster;
        let c := mkCluster (cluster_id address) ∅ in
        _ ← modS (fun m => with_table (<[h := c :: chain_of m h]> (hashtable_ m)) m);
        mret (Some c)
      else mret None
  end.
(** A store into the cluster [c]. *)
Definition put_cluster (c : Cluster) (m : map) : map :=
  let h := HashInt (id c) in
  with_table (<[h := (fun d => if decide (id d = id c) then c else d) <$> chain_of m h]> (hashtable_ m)) m.
Definition chain_at (c : Cluster) (block : Z) : list Z := default [] (blocks c !! block).
Definition set_chain (block : Z) (l : list Z) (c : Cluster) : Cluster := mkCluster (id c) (<[block := l]> (blocks c)).

(** The first entry of a chain with the key. *)
Definition find_key (k : Z) (m : map) (l : list Z) : option (nat * Z) :=
  list_find (fun e => key <$> entries m !! e = Some k) l.

(** The entry that holds the value, if any. *)
Definition FindMutable (k : Z) : M map (option Z) :=
  c ← FindCluster k false;
  match c with
  | None => mret None
  | Some c => m ← getS; mret (snd <$> find_key k m (chain_at c (BlockID k)))
  end.
Definition Find (k : Z) : M map (option V) :=
  r ← FindMutable k;
  m ← getS;
  mret (e ← r; value <$> entries m !! e).

(** A store through the pointer [FindMutable] returned. *)
Definition assign (e : Z) (v : V) : M map unit :=
  m ← getS;
  x ← liftM (deref (entries m !! e));
  modS (with_entries (<[e := mkEntry (key x) v]> (entries m))).

Definition refill : M map unit :=
  m ← getS;
  match free_ m with
  | [] =>
      array ← New ALLOC_COUNT sizeof_Entry;
      modS (with_free ((fun i => array + i * sizeof_Entry) <$> seqZ 0 ALLOC_COUNT))
  | _ => mret tt
  end.
Definition Insert (k : Z) (v : V) : M map unit :=
  r ← FindCluster k true;
  c ← liftM (deref r);
  let block := BlockID k in
  m ← getS;
  match find_key k m (chain_at c block) with
  | Some (_, e) => assign e v
  | None =>
      _ ← refill;
      m ← getS;
      match free_ m with
      | [] => liftM (Fault Undefined)
      | e :: l =>
          _ ← modS (with_free l);
          _ ← modS (fun m => with_entries (<[e := mkEntry k v]> (entries m)) m);
          modS (put_cluster (set_chain block (e :: chain_at c block) c))
      end
  end.

Definition FindAndRemove (k : Z) : M map (option V) :=
  r ← FindCluster k false;
  match r with
  | None => mret None
  | Some c =>
      let block := BlockID k in
      m ← getS;
      match find_key k m (chain_at c block) with
      | None => mret None
      | Some (i, e) =>
          x ← liftM (deref (entries m !! e));
          _ ← modS (put_cluster (set_chain block (delete i (chain_at c block)) c));
          _ ← modS (with_free (e :: free_ m));
          mret (Some (value x))
      end
  end.

(** The entries in the order in which [Iterate] passes them to its body. *)
Definition Iterate (m : map) : list (Z * V) :=
  h ← seqZ 0 kHashSize;
  c ← chain_of m h;
  b ← seqZ 0 kClusterBlocks;
  e ← chain_at c b;
  match entries m !! e with Some x => [(key x, value x)] | None => [] end.

(** The loop over the entries of one block: the entry found, or whether a
    smaller key was seen. *)
Fixpoint scan (size_func : V -> Z) (key_num : Z) (m : map) (l : list Z) (had_smaller_key : bool) : outcome (Z + bool) :=
  match l with
  | [] => Ret (inr had_smaller_key)
  | e :: l =>
      x ← deref (entries m !! e);
      if key x <=? key_num then
        if (key x =? key_num) || (key_num <? u64 (key x + size_func (value x))) then Ret (inl e)
        else scan size_func key_num m l true
      else scan size_func key_num m l had_smaller_key
  end.
(** To the previous cluster. *)
Definition previous_cluster (max_size key_num num : Z) : (Z * option Cluster) + option Z :=
  if num <? kClusterSize then inr None else
  let num := u64 (Z.lor num (kClusterSize - 1) - kClusterSize) in
  if u64 (key_num - num) >? max_size then inr None else inl (num, None).
(** One round of the two nested loops; the inner one holds its cluster. *)
Definition inside_body (size_func : V -> Z) (max_size key_num : Z) (m : map) (s : Z * option Cluster)
    : outcome ((Z * option Cluster) + option Z) :=
  let '(num, held) := s in
  let c := match held with Some c => Some c | None => find_id (cluster_id num) (chain_of m (HashInt (cluster_id num))) end in
  match c with
  | None => Ret (previous_cluster max_size key_num num)
  | Some c =>
      let block := BlockID num in
      r ← scan size_func key_num m (chain_at c block) false;
      match r with
      | inl e => Ret (inr (Some e))
      | inr true => Ret (inr None)
      | inr false =>
          if block =? 0 then Ret (previous_cluster max_size key_num num) else
          let num := u64 (Z.lor num (kBlockSize - 1) - kBlockSize) in
          if u64 (key_num - num) >? max_size then Ret (inr None) else Ret (inl (num, Some c))
      end
  end.
(** The value found and its key; 2^64 rounds are more than there are
    addresses. *)
Definition FindInside (size_func : V -> Z) (max_size k : Z) (m : map) : outcome (option (Z * V)) :=
  r ← wide_loop 64 (inside_body size_func max_size k m) (k, None);
  match r with
  | None => Ret None
  | Some e => x ← deref (entries m !! e); Ret (Some (key x, value x))
  end.
End AddressMap.
End AM.
Import AM.

(** ** Arithmetic of addresses *)

Lemma cluster_id_div a : cluster_id a = a / 2 ^ 20.
Proof. unfold cluster_id. by rewrite shiftr_div. Qed.
Lemma BlockID_div a : BlockID a = a / 2 ^ 7 mod 2 ^ 13.
Proof. unfold BlockID, kClusterBlocks, kClusterBits, kBlockBits. change (Z.shiftl 1 13 - 1) with (2 ^ 13 - 1). by rewrite land_ones_mod, shiftr_div. Qed.

Lemma HashInt_range x : 0 <= HashInt x < kHashSize.
Proof.
  unfold HashInt, kHashBits, kHashSize. cbn zeta. rewrite shiftr_div by lia. change (Z.shiftl 1 12) with 4096. pose proof (u32_range (u32 x * kHashMultiplier)). zdiv.
Qed.
Lemma BlockID_range a : 0 <= BlockID a < kClusterBlocks.
Proof. rewrite BlockID_div. change kClusterBlocks with (2 ^ 13). by apply Z.mod_pos_bound. Qed.
(** The last address of a block, of a cluster. *)
Lemma lor_last a n : 0 <= n -> Z.lor a (2 ^ n - 1) = a / 2 ^ n * 2 ^ n + 2 ^ n - 1.
Proof.
  intros Hn. pose proof (Z.add_lor_land a (2 ^ n - 1)) as E. rewrite land_ones_mod in E by done.
  pose proof (Z.div_mod a (2 ^ n) ltac:(pose proof (Z.pow_pos_nonneg 2 n); lia)). lia.
Qed.
Lemma delete_nodup {B} (l : list B) i x : NoDup l -> l !! i = Some x ->
  (forall y, y ∈ delete i l <-> y ∈ l /\ y <> x) /\ NoDup (delete i l).
Proof.
  intros Hnd Hi. pose proof (delete_Permutation _ _ _ Hi) as Hp. rewrite Hp in Hnd. apply NoDup_cons in Hnd as [Hx Hnd]. split; [|done].
  intros y. assert (y ∈ l <-> y = x \/ y ∈ delete i l) as -> by (rewrite <- elem_of_cons; by apply elem_of_Permutation_proper).
  split; [intros Hy; split; [by right|intros ->; done]|]. by intros [[->|?] ?].
Qed.

Section Spec.
Context {V A : Type}.
Context (alloc : Z -> M A Z) (dealloc : Z -> M A unit) (sizeof_value : Z).
Abbreviation map := (AddressMap V A).
Implicit Types (m : map) (X : gmap Z V).
(** The regions the allocator has given out. *)
Context (live : A -> gmap Z Z).
Hypothesis alloc_ok : forall n a, 0 < n -> wp (alloc n) (fun p a' => 0 < p /\ live a !! p = None /\ live a' = <[p := n]> (live a) /\
  forall q k, live a !! q = Some k -> p + n <= q \/ q + k <= p) a.
Hypothesis dealloc_ok : forall p a, is_Some (live a !! p) -> wp (dealloc p) (fun _ a' => live a' = delete p (live a)) a.
Hypothesis Hsize : 0 <= sizeof_value.

(** ** The table of clusters *)

Definition table_ok m : Prop :=
  (forall h c, c ∈ chain_of m h -> HashInt (id c) = h) /\ forall h, NoDup (id <$> chain_of m h).
(** The chain of block [b] of cluster [i]. *)
Definition slot m (i b : Z) : list Z :=
  match find_id i (chain_of m (HashInt i)) with Some c => chain_at c b | None => [] end.

Lemma find_id_Some i l c : find_id i l = Some c -> c ∈ l /\ id c = i.
Proof.
  unfold find_id. destruct (list_find _ l) as [[j d]|] eqn:E; [|done]. intros [= <-].
  apply list_find_Some in E as (Hl & Hi & _). split; [by eapply list_elem_of_lookup_2|done].
Qed.
Lemma find_id_None i l : find_id i l = None -> forall c, c ∈ l -> id c <> i.
Proof. unfold find_id. destruct (list_find _ l) as [[j d]|] eqn:E; [done|]. intros _. apply list_find_None in E. by rewrite Forall_forall in E. Qed.
Lemma find_id_in l c : NoDup (id <$> l) -> c ∈ l -> find_id (id c) l = Some c.
Proof.
  intros Hnd Hc. destruct (find_id (id c) l) as [d|] eqn:E; [|by destruct (find_id_None _ _ E c Hc)].
  apply find_id_Some in E as [Hd Hi]. f_equal. apply list_elem_of_lookup in Hc as [j Hj], Hd as [k Hk].
  assert (k = j) as ->; [|congruence]. eapply NoDup_lookup; [exact Hnd|by rewrite list_lookup_fmap, Hk|rewrite list_lookup_fmap, Hj; cbn; by rewrite Hi].
Qed.
Lemma slot_in m c b : table_ok m -> (exists h, c ∈ chain_of m h) -> slot m (id c) b = chain_at c b.
Proof. intros [Hh Hn] [h Hc]. pose proof (Hh h c Hc) as <-. unfold slot. by rewrite find_id_in. Qed.

Lemma chain_insert m h l h' : chain_of (with_table (<[h := l]> (hashtable_ m)) m) h' = if decide (h' = h) then l else chain_of m h'.
Proof. unfold chain_of. cbn. case_decide as E; [subst h'; by rewrite lookup_insert_eq|by rewrite lookup_insert_ne]. Qed.

(** A new cluster is empty. *)
Lemma table_add m i : table_ok m -> find_id i (chain_of m (HashInt i)) = None ->
  let m' := with_table (<[HashInt i := mkCluster i ∅ :: chain_of m (HashInt i)]> (hashtable_ m)) m in
  table_ok m' /\ (forall j b, slot m' j b = slot m j b) /\ find_id i (chain_of m' (HashInt i)) = Some (mkCluster i ∅).
Proof.
  intros [Hh Hn] Hi m'. split; [split|split].
  - intros h c. unfold m'. rewrite chain_insert. case_decide as E; [|apply Hh]. intros [->|Hc]%elem_of_cons; [done|]. rewrite E. by apply Hh.
  - intros h. unfold m'. rewrite chain_insert. case_decide as E; [|done]. cbn. constructor; [|done].
    intros (c & Ec & Hc)%list_elem_of_fmap. by destruct (find_id_None _ _ Hi c Hc).
  - intros j b. unfold slot, m'. rewrite chain_insert. case_decide as E; [|done]. unfold find_id. cbn [list_find].
    destruct (decide (id (mkCluster i ∅) = j)) as [Ej|Ej].
    + cbn in Ej. subst j. cbn. unfold find_id in Hi. by rewrite Hi.
    + rewrite E. by destruct (list_find _ _) as [[? ?]|].
  - unfold m'. rewrite chain_insert, decide_True by done. unfold find_id. cbn [list_find]. by rewrite decide_True.
Qed.

(** A store into one chain of one cluster. *)
Lemma table_put m c b l : table_ok m -> find_id (id c) (chain_of m (HashInt (id c))) = Some c ->
  let m' := put_cluster (set_chain b l c) m in
  table_ok m' /\ forall j b', slot m' j b' = if decide (j = id c /\ b' = b) then l else slot m j b'.
Proof.
  intros [Hh Hn] Hc m'. set (c' := set_chain b l c). set (f := fun d => if decide (id d = id c') then c' else d).
  assert (forall d, id (f d) = id d) as Hf by (intros d; unfold f; by case_decide).
  assert (forall h, chain_of m' h = if decide (h = HashInt (id c)) then f <$> chain_of m (HashInt (id c)) else chain_of m h) as Hch
    by (intros h; unfold m', put_cluster; rewrite chain_insert; done).
  assert (forall l, id <$> (f <$> l) = id <$> l) as Hids by (intros l'; rewrite <- list_fmap_compose; apply list_fmap_ext; intros ? ? _; apply Hf).
  split; [split|].
  - intros h d. rewrite Hch. case_decide as E; [|apply Hh]. intros (d' & -> & Hd)%list_elem_of_fmap. rewrite Hf, E. by apply Hh.
  - intros h. rewrite Hch. case_decide; [rewrite Hids|]; done.
  - intros j b'. unfold slot. rewrite Hch. destruct (decide (j = id c)) as [->|Hj].
    + rewrite decide_True by done. rewrite Hc. apply find_id_Some in Hc as [Hin _].
      assert (f c = c') as Efc by (unfold f; by rewrite decide_True).
      change (id c) with (id c'). rewrite (find_id_in _ c'); [|rewrite Hids; apply Hn|apply list_elem_of_fmap; by exists c].
      unfold c', chain_at. cbn. destruct (decide (b' = b)) as [->|Hb]; [rewrite lookup_insert_eq, decide_True by done; done|].
      rewrite lookup_insert_ne, decide_False by (done || intros [? ?]; done). done.
    + rewrite (decide_False (P := j = id c /\ b' = b)) by (intros [? ?]; done). case_decide as E; [|done]. rewrite <- E.
      assert (forall l, find_id j (f <$> l) = f <$> find_id j l) as Hff.
      { intros l'. unfold find_id. rewrite list_find_fmap.
        rewrite (list_find_ext _ (fun d => id d = j)) by (intros; cbn; by rewrite Hf). by destruct (list_find _ l') as [[? ?]|]. }
      rewrite Hff. destruct (find_id j (chain_of m (HashInt j))) as [d|] eqn:Ed; [|done]. cbn.
      apply find_id_Some in Ed as [_ Ed]. unfold f. by rewrite decide_False by (cbn; congruence).
Qed.

(** ** The map it stands for *)

Definition used m (e : Z) : Prop := e ∈ free_ m \/ exists i b, e ∈ slot m i b.
Record rep m X : Prop := {
  rp_table : table_ok m;
  rp_home : forall i b e, e ∈ slot m i b -> exists x, entries m !! e = Some x /\
    cluster_id (key x) = i /\ BlockID (key x) = b /\ X !! key x = Some (value x);
  rp_in : forall k v, X !! k = Some v -> 0 <= k < 2 ^ 64 /\
    exists e, e ∈ slot m (cluster_id k) (BlockID k) /\ entries m !! e = Some (mkEntry k v);
  rp_nodup : forall i b, NoDup (slot m i b);
  rp_keys : forall i b e f x, e ∈ slot m i b -> f ∈ slot m i b -> entries m !! e = Some x -> key <$> entries m !! f = Some (key x) -> e = f;
  rp_free : NoDup (free_ m) /\ forall e i b, e ∈ free_ m -> e ∉ slot m i b;
  rp_live : NoDup (allocated_ m) /\ forall p, p ∈ allocated_ m -> is_Some (live (heap m) !! p);
  rp_room : forall e, used m e -> exists p n, p ∈ allocated_ m /\ live (heap m) !! p = Some n /\ p <= e < p + n }.

Lemma find_key_Some k m l i e : find_key k m l = Some (i, e) -> l !! i = Some e /\ key <$> entries m !! e = Some k.
Proof. intros (Hl & Hk & _)%list_find_Some. done. Qed.
Lemma find_key_None k m l e : find_key k m l = None -> e ∈ l -> key <$> entries m !! e <> Some k.
Proof. intros Hn%list_find_None. rewrite Forall_forall in Hn. apply Hn. Qed.

(** What the chain of a key says. *)
Lemma rep_find m X k : rep m X -> 0 <= k < 2 ^ 64 ->
  match find_key k m (slot m (cluster_id k) (BlockID k)) with
  | Some (_, e) => exists v, X !! k = Some v /\ entries m !! e = Some (mkEntry k v)
  | None => X !! k = None
  end.
Proof.
  intros HR Hk. destruct (find_key _ _ _) as [[i e]|] eqn:E.
  - apply find_key_Some in E as [Hl He]. destruct (rp_home _ _ HR (cluster_id k) (BlockID k) e) as (x & Hx & _ & _ & HX); [by eapply list_elem_of_lookup_2|].
    rewrite Hx in He. injection He as <-. exists (value x). split; [done|]. rewrite Hx. by destruct x.
  - destruct (X !! k) as [v|] eqn:HX; [|done]. destruct (rp_in _ _ HR k v HX) as (_ & e & He & Hx).
    destruct (find_key_None _ _ _ _ E He). by rewrite Hx.
Qed.

Lemma FindCluster_find m k : FindCluster alloc k false m = Ret (find_id (cluster_id k) (chain_of m (HashInt (cluster_id k))), m).
Proof. unfold FindCluster, mbind, M_bind, getS. destruct (find_id _ _); done. Qed.
Lemma slot_cluster m i b : slot m i b = match find_id i (chain_of m (HashInt i)) with Some c => chain_at c b | None => [] end.
Proof. done. Qed.

Lemma FindMutable_find m X k : rep m X -> 0 <= k < 2 ^ 64 ->
  FindMutable alloc k m = Ret (snd <$> find_key k m (slot m (cluster_id k) (BlockID k)), m).
Proof.
  intros HR Hk. unfold FindMutable, mbind, M_bind. rewrite FindCluster_find, slot_cluster. by destruct (find_id _ _).
Qed.
Lemma Find_find m X k : rep m X -> 0 <= k < 2 ^ 64 -> Find alloc k m = Ret (X !! k, m).
Proof.
  intros HR Hk. unfold Find. unfold mbind at 1, M_bind at 1. rewrite (FindMutable_find m X) by done.
  pose proof (rep_find m X k HR Hk) as Hf. destruct (find_key _ _ _) as [[i e]|]; cbn; [|by rewrite Hf].
  destruct Hf as (v & -> & He). unfold mbind, M_bind, getS, mret, M_ret. by rewrite He.
Qed.

(** *** Memory *)

Lemma wp_New m X num size (Q : Z -> map -> Prop) : rep m X -> 0 < 8 + num * size ->
  (forall p a, let m' := mkAddressMap (hashtable_ m) (entries m) (free_ m) (p :: allocated_ m) a in
     rep m' X -> (forall e, used m e -> ~ (p <= e < p + (8 + num * size))) -> live a !! p = Some (8 + num * size) ->
     Q (p + 8) m') ->
  wp (New alloc num size) Q m.
Proof.
  intros HR Hn HQ. unfold New, wp. pose proof (alloc_ok (8 + num * size) (heap m) Hn) as Ha. unfold wp in Ha.
  change (sizeof_Object + num * size) with (8 + num * size). destruct (alloc _ _) as [[p a]|f]; obind; [|done].
  destruct Ha as (Hp & Hnone & Hl & Hd). apply HQ; [|intros e (q & k & Hq & Hlq & Hr)%(rp_room _ _ HR); destruct (Hd q k Hlq); lia|
    rewrite Hl; by rewrite lookup_insert_eq].
  assert (forall q, q ∈ allocated_ m -> q <> p) as Hne.
  { intros q Hq ->. destruct (proj2 (rp_live _ _ HR) p Hq) as [? ?]. congruence. }
  destruct HR as [HT H1 H2 H3 H4 H5 [H6 H7] H8]. constructor; try done; cbn.
  - split; [constructor; [|done]; intros Hq; by apply (Hne p)|]. intros q [->|Hq]%elem_of_cons; rewrite Hl; [by rewrite lookup_insert_eq|].
    rewrite lookup_insert_ne by (intros ->; by apply (Hne q)). by apply H7.
  - intros e He. destruct (H8 e He) as (q & k & Hq & Hlq & Hr). exists q, k. split; [by right|]. split; [|done].
    rewrite Hl, lookup_insert_ne; [done|]. intros ->. by apply (Hne q).
Qed.

Lemma rep_table m X m' : rep m X -> table_ok m' -> (forall i b, slot m' i b = slot m i b) -> entries m' = entries m ->
  free_ m' = free_ m -> allocated_ m' = allocated_ m -> heap m' = heap m -> rep m' X.
Proof.
  intros [HT H1 H2 H3 H4 H5 H6 H8] HT' Hs He Hf Ha Hh. constructor; [done| | | | | | |]; rewrite ?He, ?Hf, ?Ha, ?Hh; try done.
  - intros i b e. rewrite Hs. apply H1.
  - intros k v Hk. rewrite Hs. by apply H2.
  - intros i b. rewrite Hs. apply H3.
  - intros i b e f x. rewrite Hs. apply H4.
  - split; [apply H5|]. intros e i b. rewrite Hs. apply H5.
  - intros e [Hu|(i & b & Hu)]; apply H8; [left; by rewrite <- Hf|right; exists i, b; by rewrite <- Hs].
Qed.

Lemma wp_FindCluster m X k (Q : option Cluster -> map -> Prop) : rep m X ->
  (forall m' c, rep m' X -> find_id (cluster_id k) (chain_of m' (HashInt (cluster_id k))) = Some c -> Q (Some c) m') ->
  wp (FindCluster alloc k true) Q m.
Proof.
  intros HR HQ. unfold FindCluster. apply wp_bind, wp_get. cbn zeta. destruct (find_id _ _) as [c|] eqn:E; [apply wp_ret; by apply HQ|].
  apply wp_bind. eapply wp_New; [done|vm_compute; done|]. cbn zeta. intros p a HR' _ _. apply wp_bind, wp_mod, wp_ret.
  set (m1 := mkAddressMap _ _ _ _ _) in *. destruct (table_add m1 (cluster_id k) (rp_table _ _ HR') E) as (HT & Hs & Hf).
  apply HQ; [by eapply rep_table|done].
Qed.

(** *** Stores *)

(** A key is in the slot of its address only. *)
Lemma rep_key_home m X i b e k : rep m X -> e ∈ slot m i b -> key <$> entries m !! e = Some k ->
  e ∈ slot m (cluster_id k) (BlockID k) /\ i = cluster_id k /\ b = BlockID k.
Proof.
  intros HR He Hk. destruct (rp_home _ _ HR i b e He) as (x & Hx & Hi & Hb & _). rewrite Hx in Hk. injection Hk as <-. by rewrite Hi, Hb.
Qed.

Lemma rep_assign m X e k v0 v : rep m X -> e ∈ slot m (cluster_id k) (BlockID k) -> entries m !! e = Some (mkEntry k v0) ->
  rep (with_entries (<[e := mkEntry k v]> (entries m)) m) (<[k := v]> X).
Proof.
  intros HR He Hx. assert (forall f, key <$> <[e := mkEntry k v]> (entries m) !! f = key <$> entries m !! f) as Hkeys.
  { intros f. destruct (decide (f = e)) as [->|Hne]; [by rewrite lookup_insert_eq, Hx|by rewrite lookup_insert_ne]. }
  pose proof HR as [HT H1 H2 H3 H4 H5 H6 H8]. constructor; cbn; try done.
  - intros i b f Hf. change (f ∈ slot m i b) in Hf. destruct (H1 i b f Hf) as (x & Hfx & Hi & Hb & HX). destruct (decide (f = e)) as [->|Hne].
    + rewrite Hx in Hfx. injection Hfx as <-. exists (mkEntry k v). rewrite lookup_insert_eq. cbn. by rewrite lookup_insert_eq.
    + exists x. rewrite !lookup_insert_ne; [done| |done]. intros Ek. apply Hne. subst k.
      destruct (rep_key_home m X i b f (key x) HR Hf) as (Hf' & _ & _); [by rewrite Hfx|]. eapply H4; [exact Hf'|exact He|exact Hfx|by rewrite Hx].
  - intros k' v' [[<- <-]|[Hne Hk']]%lookup_insert_Some.
    + destruct (rp_home _ _ HR _ _ e He) as (x & Hx' & _ & _ & HX). rewrite Hx in Hx'. injection Hx' as <-. split; [by apply (H2 _ _ HX)|].
      exists e. by rewrite lookup_insert_eq.
    + destruct (H2 k' v' Hk') as (Hr & f & Hf & Hfx). split; [done|]. exists f. split; [done|]. rewrite lookup_insert_ne; [done|]. intros ->. congruence.
  - intros i b f g x Hf Hg Hfx. rewrite Hkeys. intros Hgx.
    destruct (decide (f = e)) as [->|Hne]; [|rewrite lookup_insert_ne in Hfx by done; by eapply H4].
    rewrite lookup_insert_eq in Hfx. injection Hfx as <-. by eapply (H4 i b e g); [done|done|exact Hx|].
Qed.

Lemma rep_push m X c e l k v : rep m X -> 0 <= k < 2 ^ 64 -> find_id (cluster_id k) (chain_of m (HashInt (cluster_id k))) = Some c ->
  free_ m = e :: l -> X !! k = None ->
  rep (put_cluster (set_chain (BlockID k) (e :: chain_at c (BlockID k)) c)
        (with_entries (<[e := mkEntry k v]> (entries m)) (with_free l m))) (<[k := v]> X).
Proof.
  intros HR Hk Hc Hfree HX. destruct (find_id_Some _ _ _ Hc) as [_ Hid]. set (m1 := with_entries _ _).
  assert (find_id (id c) (chain_of m1 (HashInt (id c))) = Some c) as Hc1 by (by rewrite Hid).
  assert (table_ok m1) as HT1 by apply HR. destruct (table_put m1 c (BlockID k) (e :: chain_at c (BlockID k)) HT1 Hc1) as [HT Hs].
  set (m2 := put_cluster _ m1) in *.
  assert (chain_at c (BlockID k) = slot m (cluster_id k) (BlockID k)) as Eslot by (unfold slot; by rewrite Hc).
  rewrite Hid, Eslot in Hs. change (slot m1) with (slot m) in Hs. pose proof (rp_free _ _ HR) as [Hfn Hfs]. rewrite Hfree in Hfn. apply NoDup_cons in Hfn as [Hel Hln].
  assert (forall i b, e ∉ slot m i b) as Henot by (intros i b; apply Hfs; rewrite Hfree; left).
  assert (forall i b f, f ∈ slot m2 i b <-> f ∈ slot m i b \/ f = e /\ i = cluster_id k /\ b = BlockID k) as Hin.
  { intros i b f. rewrite Hs. case_decide as E; [destruct E as [-> ->]; rewrite elem_of_cons; tauto|tauto]. }
  assert (forall f, f <> e -> entries m2 !! f = entries m !! f) as Hent by (intros f Hf; cbn; by rewrite lookup_insert_ne).
  assert (entries m2 !! e = Some (mkEntry k v)) as Hente by (cbn; by rewrite lookup_insert_eq).
  pose proof HR as [_ H1 H2 H3 H4 _ H6 H8]. constructor; [done| | | | | | |].
  - intros i b f [Hf|(-> & -> & ->)]%Hin; [|exists (mkEntry k v); cbn; by rewrite !lookup_insert_eq].
    destruct (H1 i b f Hf) as (x & Hx & Hi & Hb & HXx). exists x. assert (f <> e) by (intros ->; by apply (Henot i b)).
    rewrite Hent by done. do 3 (split; [done|]). rewrite lookup_insert_ne; [done|]. intros ->. congruence.
  - intros k' v' [[<- <-]|[Hne Hk']]%lookup_insert_Some; [split; [done|]; exists e; split; [apply Hin; by right|done]|].
    destruct (H2 k' v' Hk') as (Hr & f & Hf & Hx). split; [done|]. exists f. split; [apply Hin; by left|]. rewrite Hent; [done|]. intros ->. by apply (Henot _ _ Hf).
  - intros i b. rewrite Hs. case_decide; [constructor; [apply Henot|]|]; apply H3.
  - assert (forall i b f, f ∈ slot m i b -> key <$> entries m !! f <> Some k) as Hnk.
    { intros i b f Hf Ek. destruct (H1 i b f Hf) as (x & Hx & _ & _ & HXx). rewrite Hx in Ek. injection Ek as <-. congruence. }
    intros i b f g x [Hf|(-> & -> & ->)]%Hin [Hg|(-> & Ei & Eb)]%Hin Hfx Hgx; [| | |done].
    + rewrite Hent in Hfx, Hgx by (intros ->; by eapply Henot). by eapply H4.
    + rewrite Hente in Hgx. injection Hgx as Ek. rewrite Hent in Hfx by (intros ->; by eapply Henot).
      destruct (Hnk i b f Hf). rewrite Hfx. cbn in *. congruence.
    + rewrite Hente in Hfx. injection Hfx as <-. rewrite Hent in Hgx by (intros ->; by eapply Henot). by destruct (Hnk _ _ g Hg).
  - cbn. split; [done|]. intros f i b Hf [Hg|(-> & _)]%Hin; [|done]. apply (Hfs f i b); [rewrite Hfree; by right|done].
  - exact H6.
  - intros f Hf. apply H8. destruct Hf as [Hf|(i & b & [Hf|(-> & _)]%Hin)]; [left; rewrite Hfree; by right|right; eauto|left; rewrite Hfree; left].
Qed.

Lemma rep_delete m X c i e k : rep m X -> find_id (cluster_id k) (chain_of m (HashInt (cluster_id k))) = Some c ->
  chain_at c (BlockID k) !! i = Some e -> key <$> entries m !! e = Some k ->
  rep (with_free (e :: free_ m) (put_cluster (set_chain (BlockID k) (delete i (chain_at c (BlockID k))) c) m)) (delete k X).
Proof.
  intros HR Hc Hi Hek. destruct (find_id_Some _ _ _ Hc) as [_ Hid].
  assert (find_id (id c) (chain_of m (HashInt (id c))) = Some c) as Hc1 by (by rewrite Hid).
  destruct (table_put m c (BlockID k) (delete i (chain_at c (BlockID k))) (rp_table _ _ HR) Hc1) as [HT Hs].
  assert (chain_at c (BlockID k) = slot m (cluster_id k) (BlockID k)) as Eslot by (unfold slot; by rewrite Hc).
  rewrite Eslot in *. set (m1 := put_cluster _ m) in *. set (m2 := with_free _ m1). rewrite Hid in Hs.
  destruct (delete_nodup _ i e (rp_nodup _ _ HR (cluster_id k) (BlockID k)) Hi) as [Hdin Hdnd].
  assert (e ∈ slot m (cluster_id k) (BlockID k)) as Hein by (by eapply list_elem_of_lookup_2).
  assert (forall j b f, f ∈ slot m2 j b <-> f ∈ slot m j b /\ f <> e) as Hin.
  { intros j b f. change (slot m2 j b) with (slot m1 j b). rewrite Hs. case_decide as E; [destruct E as [-> ->]; apply Hdin|].
    split; [|by intros [? _]]. intros Hf. split; [done|]. intros ->. apply E.
    destruct (rep_key_home m X j b e k HR Hf Hek) as (_ & ? & ?). done. }
  pose proof HR as [_ H1 H2 H3 H4 [H5 H5'] H6 H8]. constructor; [done| | | | | |exact H6|].
  - intros j b f [Hf Hne]%Hin. destruct (H1 j b f Hf) as (x & Hx & Hj & Hb & HX). exists x. do 3 (split; [done|]).
    rewrite lookup_delete_ne; [done|]. intros Ek. apply Hne. subst k.
    destruct (rep_key_home m X j b f (key x) HR Hf) as (Hf' & _ & _); [by rewrite Hx|]. by eapply H4.
  - intros k' v' [Hne Hk']%lookup_delete_Some. destruct (H2 k' v' Hk') as (Hr & f & Hf & Hx). split; [done|]. exists f.
    split; [|done]. apply Hin. split; [done|]. intros ->. rewrite Hx in Hek. injection Hek as ->. done.
  - intros j b. change (slot m2 j b) with (slot m1 j b). rewrite Hs. case_decide; [apply Hdnd|apply H3].
  - intros j b f g x [Hf _]%Hin [Hg _]%Hin. by apply (H4 j b).
  - cbn. split.
    + constructor; [|done]. intros He. by apply (H5' e (cluster_id k) (BlockID k)).
    + intros f j b [-> |Hf]%elem_of_cons [Hg Hne]%Hin; [done|]. by eapply H5'.
  - intros f Hf. apply H8. destruct Hf as [[-> |Hf]%elem_of_cons|(j & b & [Hf _]%Hin)]; [right; eauto|by left|right; eauto].
Qed.

(** ** The operations *)

Lemma wp_refill m X (Q : unit -> map -> Prop) : rep m X ->
  (forall m', rep m' X -> hashtable_ m' = hashtable_ m -> entries m' = entries m -> free_ m' <> [] -> Q tt m') ->
  wp (refill alloc sizeof_value) Q m.
Proof.
  intros HR HQ. unfold refill. apply wp_bind, wp_get. destruct (free_ m) as [|e l] eqn:Ef; [|apply wp_ret, HQ; [done..|congruence]].
  apply wp_bind. eapply wp_New; [done|unfold sizeof_Entry; change ALLOC_COUNT with 64; lia|]. cbn zeta. intros p a HR' Hfresh Hlive.
  apply wp_mod. set (m1 := mkAddressMap _ _ _ _ _) in *. set (sz := sizeof_Entry sizeof_value) in *. assert (0 < sz) as Hsz by (unfold sz, sizeof_Entry; lia).
  set (batch := (fun i => p + 8 + i * sz) <$> seqZ 0 ALLOC_COUNT).
  assert (forall e, e ∈ batch -> p <= e < p + (8 + ALLOC_COUNT * sz)) as Hb.
  { intros e (i & -> & Hi%elem_of_seqZ)%list_elem_of_fmap. change ALLOC_COUNT with 64 in *. nia. }
  apply HQ; [|done|done|vm_compute; done]. destruct HR' as [HT H1 H2 H3 H4 H5 H6 H8]. constructor; try done; cbn.
  - split.
    + apply NoDup_fmap_2; [|apply NoDup_seqZ]. intros i j E. nia.
    + intros e i b He Hs. apply (Hfresh e); [right; eauto|by apply Hb].
  - intros e [He|He]; [|apply H8; by right]. exists p, (8 + ALLOC_COUNT * sz). split; [left|]. split; [done|by apply Hb].
Qed.

Lemma wp_assign m X e k v0 v : rep m X -> e ∈ slot m (cluster_id k) (BlockID k) -> entries m !! e = Some (mkEntry k v0) ->
  wp (assign e v) (fun _ m' => rep m' (<[k := v]> X)) m.
Proof.
  intros HR He Hx. unfold assign. apply wp_bind, wp_get. apply wp_bind. eapply wp_lift; [by rewrite Hx|]. apply wp_mod. by eapply rep_assign.
Qed.

Lemma wp_Insert m X k v : rep m X -> 0 <= k < 2 ^ 64 -> wp (Insert alloc sizeof_value k v) (fun _ m' => rep m' (<[k := v]> X)) m.
Proof.
  intros HR Hk. unfold Insert. apply wp_bind. eapply wp_FindCluster; [done|]. clear m HR. intros m c HR Hc.
  apply wp_bind. eapply wp_lift; [done|]. apply wp_bind, wp_get. cbn zeta. pose proof (rep_find m X k HR Hk) as Hf.
  rewrite slot_cluster, Hc in Hf. destruct (find_key k m (chain_at c (BlockID k))) as [[i e]|] eqn:E.
  - destruct Hf as (v0 & HX & He). eapply wp_assign; [done| |done]. rewrite slot_cluster, Hc. apply find_key_Some in E as [? _]. by eapply list_elem_of_lookup_2.
  - apply wp_bind. eapply wp_refill; [done|]. intros m' HR' Et Ee Hne. apply wp_bind, wp_get.
    destruct (free_ m') as [|e l] eqn:Ef; [done|]. apply wp_bind, wp_mod. apply wp_bind, wp_mod. apply wp_mod.
    apply (rep_push m' X c e l k v); [done|done| |done|done]. unfold chain_of in *. by rewrite Et.
Qed.

Lemma wp_FindAndRemove m X k : rep m X -> 0 <= k < 2 ^ 64 ->
  wp (FindAndRemove alloc k) (fun r m' => r = X !! k /\ rep m' (delete k X)) m.
Proof.
  intros HR Hk. unfold FindAndRemove. apply wp_bind. pose proof (rep_find m X k HR Hk) as Hf. rewrite slot_cluster in Hf.
  unfold wp at 1. rewrite FindCluster_find. destruct (find_id _ _) as [c|] eqn:Hc.
  2: { apply wp_ret. cbn in Hf. split; [done|]. by rewrite delete_id. }
  apply wp_bind, wp_get. cbn zeta. destruct (find_key k m (chain_at c (BlockID k))) as [[i e]|] eqn:E.
  - destruct Hf as (v & HX & He). apply wp_bind. eapply wp_lift; [by rewrite He|]. apply wp_bind, wp_mod. apply wp_bind, wp_mod. apply wp_ret.
    split; [done|]. apply find_key_Some in E as [Hi Hek]. by apply rep_delete.
  - apply wp_ret. split; [done|]. by rewrite delete_id.
Qed.

(** ** Iteration *)

Lemma elem_Iterate m X k v : rep m X -> (k, v) ∈ Iterate m <-> X !! k = Some v.
Proof.
  intros HR. unfold Iterate. rewrite list_elem_of_bind. split.
  - intros (h & Hh & _). apply list_elem_of_bind in Hh as (c & Hc & Hin). apply list_elem_of_bind in Hc as (b & Hb & _).
    apply list_elem_of_bind in Hb as (e & He & Hec). rewrite <- (slot_in m c b) in Hec by (apply HR || by exists h).
    destruct (rp_home _ _ HR _ _ e Hec) as (x & Hx & _ & _ & HX). rewrite Hx in He. apply list_elem_of_singleton in He as [= -> ->]. done.
  - intros HX. destruct (rp_in _ _ HR k v HX) as (Hk & e & He & Hx). rewrite slot_cluster in He.
    destruct (find_id _ _) as [c|] eqn:Hc; [|by apply elem_of_nil in He]. apply find_id_Some in Hc as [Hc _].
    exists (HashInt (cluster_id k)). split; [|apply elem_of_seqZ; pose proof (HashInt_range (cluster_id k)); lia].
    apply list_elem_of_bind. exists c. split; [|done]. apply list_elem_of_bind. exists (BlockID k).
    split; [|apply elem_of_seqZ; pose proof (BlockID_range k); lia]. apply list_elem_of_bind. exists e. split; [|done].
    rewrite Hx. by left.
Qed.
Lemma NoDup_Iterate m X : rep m X -> NoDup (Iterate m).
Proof.
  intros HR. pose proof (rp_table _ _ HR) as HT. pose proof HT as [Hh Hids].
  (** Where an element comes from. *)
  assert (forall h c b e k v, c ∈ chain_of m h -> e ∈ chain_at c b ->
    (k, v) ∈ match entries m !! e with Some x => [(key x, value x)] | None => [] end ->
    h = HashInt (cluster_id k) /\ id c = cluster_id k /\ b = BlockID k /\ entries m !! e = Some (mkEntry k v)) as Hfrom.
  { intros h c b e k v Hc He Hk. rewrite <- (slot_in m c b) in He by (done || by exists h).
    destruct (rp_home _ _ HR _ _ e He) as (x & Hx & Hi & Hb & _). rewrite Hx in Hk. apply list_elem_of_singleton in Hk as [= -> ->].
    rewrite Hi. split; [by rewrite (Hh h c Hc)|]. split; [done|]. split; [done|]. rewrite Hx. by destruct x. }
  unfold Iterate. apply NoDup_bind; [| |apply NoDup_seqZ].
  - intros h1 h2 [k v] _ _ H1 H2. apply list_elem_of_bind in H1 as (c1 & H1 & Hc1), H2 as (c2 & H2 & Hc2).
    apply list_elem_of_bind in H1 as (b1 & H1 & _), H2 as (b2 & H2 & _). apply list_elem_of_bind in H1 as (e1 & H1 & He1), H2 as (e2 & H2 & He2).
    destruct (Hfrom _ _ _ _ _ _ Hc1 He1 H1) as [-> _]. by destruct (Hfrom _ _ _ _ _ _ Hc2 He2 H2) as [-> _].
  - intros h _. apply NoDup_bind; [| |eapply NoDup_fmap_1, Hids].
    + intros c1 c2 [k v] Hc1 Hc2 H1 H2. apply list_elem_of_bind in H1 as (b1 & H1 & _), H2 as (b2 & H2 & _).
      apply list_elem_of_bind in H1 as (e1 & H1 & He1), H2 as (e2 & H2 & He2).
      destruct (Hfrom _ _ _ _ _ _ Hc1 He1 H1) as (_ & E1 & _). destruct (Hfrom _ _ _ _ _ _ Hc2 He2 H2) as (_ & E2 & _).
      pose proof (find_id_in _ c1 (Hids h) Hc1) as F1. rewrite E1, <- E2, (find_id_in _ c2 (Hids h) Hc2) in F1. by injection F1.
    + intros c Hc. apply NoDup_bind; [| |apply NoDup_seqZ].
      * intros b1 b2 [k v] _ _ H1 H2. apply list_elem_of_bind in H1 as (e1 & H1 & He1), H2 as (e2 & H2 & He2).
        destruct (Hfrom _ _ _ _ _ _ Hc He1 H1) as (_ & _ & -> & _). by destruct (Hfrom _ _ _ _ _ _ Hc He2 H2) as (_ & _ & -> & _).
      * intros b _. pose proof (slot_in m c b HT ltac:(by exists h)) as Es. apply NoDup_bind.
        -- intros e1 e2 [k v] He1 He2 H1 H2. destruct (Hfrom _ _ _ _ _ _ Hc He1 H1) as (_ & _ & _ & X1).
           destruct (Hfrom _ _ _ _ _ _ Hc He2 H2) as (_ & _ & _ & X2). rewrite <- Es in He1, He2. eapply (rp_keys _ _ HR); [exact He1|exact He2|exact X1|by rewrite X2].
        -- intros e _. destruct (entries m !! e); [apply NoDup_singleton|constructor].
        -- rewrite <- Es. apply HR.
Qed.
Lemma Iterate_perm m X : rep m X -> Iterate m ≡ₚ map_to_list X.
Proof.
  intros HR. apply NoDup_Permutation; [by eapply NoDup_Iterate|apply NoDup_map_to_list|]. intros [k v].
  rewrite (elem_Iterate m X) by done. symmetry. apply elem_of_map_to_list.
Qed.

(** ** What is allocated *)

(** Outside of its own objects, the allocator's regions are [F]. *)
Definition owned (F : gmap Z Z) m : Prop := (NoDup (allocated_ m) /\ forall p, p ∈ allocated_ m -> is_Some (live (heap m) !! p)) /\
  forall p, F !! p = if decide (p ∈ allocated_ m) then None else live (heap m) !! p.
Definition owns_more m m' : Prop := forall F, owned F m -> owned F m'.
#[export] Instance owns_more_preorder : PreOrder owns_more.
Proof. split; [by intros m a|]. intros m1 m2 m3 H1 H2 a Ha. auto. Qed.

Lemma owns_same m m' : allocated_ m' = allocated_ m -> heap m' = heap m -> owns_more m m'.
Proof. intros Ea Eh a. unfold owned. by rewrite Ea, Eh. Qed.
Lemma New_owns num size : 0 < 8 + num * size -> moves owns_more (New (V := V) alloc num size).
Proof.
  intros Hn m p m' E. unfold New in E. pose proof (alloc_ok (8 + num * size) (heap m) Hn) as Ha. unfold wp in Ha.
  change (sizeof_Object + num * size) with (8 + num * size) in E. destruct (alloc _ _) as [[q a']|]; [|done]. injection E as <- <-.
  destruct Ha as (_ & Hnone & Hl & _). intros a [[Hnd Hal] Ho]. unfold owned. cbn.
  assert (q ∉ allocated_ m) as Hq by (intros [? Hq]%Hal; congruence). assert (forall r, r ∈ allocated_ m -> r <> q) as Hne by (by intros r Hr ->).
  split; [split; [by constructor|]|].
  - intros r [->|Hr]%elem_of_cons; rewrite Hl; [by rewrite lookup_insert_eq|]. rewrite lookup_insert_ne by (intros E; by apply (Hne r)). by apply Hal.
  - intros r. rewrite Hl. destruct (decide (r = q)) as [->|Hr].
    + rewrite decide_True by left. rewrite Ho. by rewrite decide_False.
    + rewrite lookup_insert_ne by done. rewrite Ho. destruct (decide (r ∈ allocated_ m)); [rewrite decide_True by (by right)|rewrite decide_False; [|intros [?|?]%elem_of_cons]]; done.
Qed.
Lemma Cluster_owns k create : moves owns_more (FindCluster (V := V) alloc k create).
Proof.
  unfold FindCluster. apply moves_bind; [apply _|apply moves_get, _|]. intros m. cbn zeta. destruct (find_id _ _); [apply moves_ret, _|].
  destruct create; [|apply moves_ret, _]. apply moves_bind; [apply _|by apply New_owns|]. intros _.
  apply moves_bind; [apply _|apply moves_mod; intros; by apply owns_same|]. intros _. apply moves_ret, _.
Qed.
(** The stores leave the allocator alone. *)
Ltac owns :=
  repeat lazymatch goal with
  | |- moves _ (mbind _ _) => apply moves_bind; [apply _| |intro]
  | |- moves _ (modS _) => apply moves_mod; intro; by apply owns_same
  | |- moves _ (match ?x with _ => _ end) => destruct x
  | |- moves _ (FindCluster _ _ _) => apply Cluster_owns
  | |- moves _ (New _ _ _) => apply New_owns; unfold sizeof_Entry; change ALLOC_COUNT with 64; lia
  | |- moves _ getS => apply moves_get, _
  | |- moves _ (mret _) => apply moves_ret, _
  | |- moves _ (liftM _) => apply moves_lift, _
  end.
Lemma Find_owns k : moves owns_more (Find (V := V) alloc k).
Proof. unfold Find, FindMutable. owns. Qed.
Lemma Insert_owns k v : moves owns_more (Insert (V := V) alloc sizeof_value k v).
Proof. unfold Insert, assign, refill. cbn zeta. owns. Qed.
Lemma Remove_owns k : moves owns_more (FindAndRemove (V := V) alloc k).
Proof. unfold FindAndRemove. cbn zeta. owns. Qed.

(** ** Programs *)

Inductive op := OFind (k : Z) | OInsert (k : Z) (v : V) | ORemove (k : Z).
Definition key_of (o : op) : Z := match o with OFind k | OInsert k _ | ORemove k => k end.
Definition run_op (o : op) : M map (option V) :=
  match o with
  | OFind k => Find alloc k
  | OInsert k v => _ ← Insert alloc sizeof_value k v; mret None
  | ORemove k => FindAndRemove alloc k
  end.
(** The same on a finite map. *)
Definition spec_op (o : op) (X : gmap Z V) : option V * gmap Z V :=
  match o with
  | OFind k => (X !! k, X)
  | OInsert k v => (None, <[k := v]> X)
  | ORemove k => (X !! k, delete k X)
  end.
Fixpoint run_ops (l : list op) : M map (list (option V)) :=
  match l with
  | [] => mret []
  | o :: l => r ← run_op o; rs ← run_ops l; mret (r :: rs)
  end.
Fixpoint spec_ops (l : list op) (X : gmap Z V) : list (option V) * gmap Z V :=
  match l with
  | [] => ([], X)
  | o :: l => let '(r, X) := spec_op o X in let '(rs, X) := spec_ops l X in (r :: rs, X)
  end.

Lemma wp_run_op o m X F : rep m X -> owned F m -> 0 <= key_of o < 2 ^ 64 ->
  wp (run_op o) (fun r m' => r = (spec_op o X).1 /\ rep m' (spec_op o X).2 /\ owned F m') m.
Proof.
  intros HR Ho Hk. destruct o as [k|k v|k]; cbn in Hk |- *.
  - unfold wp. rewrite (Find_find m X) by done. done.
  - apply wp_bind. eapply wp_mono; [eapply (wp_moves owns_more); [apply Insert_owns|by apply wp_Insert]|].
    cbn beta. intros [] m' [? ?]. apply wp_ret. auto.
  - eapply wp_mono; [eapply (wp_moves owns_more); [apply Remove_owns|by apply wp_FindAndRemove]|].
    cbn beta. intros r m' [[-> ?] ?]. auto.
Qed.
Lemma wp_run_ops l : forall m X F, rep m X -> owned F m -> Forall (fun o => 0 <= key_of o < 2 ^ 64) l ->
  wp (run_ops l) (fun rs m' => rs = (spec_ops l X).1 /\ rep m' (spec_ops l X).2 /\ owned F m') m.
Proof.
  induction l as [|o l IH]; intros m X F HR Ho Hl; [by apply wp_ret|]. apply Forall_cons in Hl as [Hk Hl]. cbn [run_ops spec_ops].
  apply wp_bind. eapply wp_mono; [by apply (wp_run_op o m X F)|]. destruct (spec_op o X) as [r X1]. cbn [fst snd]. intros r' m1 (-> & HR1 & Ho1).
  apply wp_bind. eapply wp_mono; [by apply (IH m1 X1 F)|]. destruct (spec_ops l X1) as [rs X2]. cbn [fst snd]. intros rs' m2 (-> & HR2 & Ho2).
  by apply wp_ret.
Qed.

Lemma init_ok a : match init alloc a with Ret m => rep m ∅ /\ owned (live a) m | Fault f => f = OOM end.
Proof.
  unfold init. set (m0 := mkAddressMap ∅ ∅ [] [] a).
  assert (rep m0 ∅) as HR0.
  { constructor; try (intros *; unfold slot, chain_of; cbn; rewrite ?lookup_empty; cbn); try by intros ?%elem_of_nil.
    - split; [intros h c|intros h]; unfold chain_of; cbn; rewrite lookup_empty; [by intros ?%elem_of_nil|constructor].
    - done.
    - constructor.
    - split; [constructor|]. by intros e i b ?%elem_of_nil.
    - split; [constructor|]. by intros p ?%elem_of_nil.
    - intros [He|(i & b & He)]; by apply elem_of_nil in He. }
  assert (owned (live a) m0) as Ho0 by (split; [split; [constructor|by intros p ?%elem_of_nil]|done]).
  pose proof (wp_New m0 ∅ kHashSize 8 (fun _ m' => rep m' ∅) HR0 ltac:(done) ltac:(by cbn zeta; intros)) as Hw.
  pose proof (wp_moves owns_more _ _ m0 (New_owns kHashSize 8 ltac:(done)) Hw) as Hw'. unfold wp in Hw'.
  destruct (New alloc kHashSize 8 m0) as [[p m]|[]]; obind; try done. destruct Hw' as [? Hm]. split; [done|]. by apply Hm.
Qed.

(** ** The destructor *)

Lemma wp_dealloc_all l : forall a0, NoDup l -> (forall p, p ∈ l -> is_Some (live a0 !! p)) ->
  wp (forM_ l dealloc) (fun _ a' => forall p, live a' !! p = if decide (p ∈ l) then None else live a0 !! p) a0.
Proof.
  induction l as [|p l IH]; intros a0 Hnd Hl; [by apply wp_ret|]. apply NoDup_cons in Hnd as [Hp Hnd]. cbn [forM_]. apply wp_bind.
  eapply wp_mono; [apply dealloc_ok, Hl; left|]. cbn beta. intros [] a1 E1.
  eapply wp_mono; [apply IH; [done|]; intros q Hq; rewrite E1, lookup_delete_ne by (intros ->; done); apply Hl; by right|].
  cbn beta. intros [] a2 E2 q. rewrite E2, E1. destruct (decide (q ∈ l)); [rewrite decide_True by (by right); done|].
  destruct (decide (q = p)) as [->|Hne]; [rewrite decide_True by left; by rewrite lookup_delete_eq|].
  rewrite decide_False by (intros [?|?]%elem_of_cons; done). by rewrite lookup_delete_ne.
Qed.
Lemma wp_destroy F m : owned F m -> wp (destroy dealloc) (fun _ m' => live (heap m') = F) m.
Proof.
  intros [[Hnd Hal] Ho]. unfold destroy, wp. pose proof (wp_dealloc_all (allocated_ m) (heap m) Hnd Hal) as Hw. unfold wp in Hw.
  destruct (forM_ _ _ _) as [[[] a']|[]]; obind; try done. apply map_eq. intros p. rewrite Hw, Ho. by destruct (decide _).
Qed.

(** ** Finding the range around an address *)

Section Inside.
Context (size_func : V -> Z) (max_size k : Z) (m : map) (X : gmap Z V).
Hypothesis HR : rep m X.
Hypothesis Hk : 0 <= k < 2 ^ 64.
Hypothesis Hmax : 0 <= max_size.
Hypothesis Hsz : forall k' v, X !! k' = Some v -> 0 <= size_func v <= max_size /\ k' + size_func v < 2 ^ 64.
Hypothesis Hdisj : forall k1 k2 v1 v2, X !! k1 = Some v1 -> X !! k2 = Some v2 -> k1 < k2 -> k1 + size_func v1 <= k2.

(** The range of [k'] has the address, as start or inside. *)
Definition covers (k' : Z) (v : V) : Prop := k' = k \/ k' <= k < k' + size_func v.

Lemma scan_ok l : (forall e, e ∈ l -> exists x, entries m !! e = Some x /\ X !! key x = Some (value x)) -> forall had,
  exists r, scan size_func k m l had = Ret r /\
  match r with
  | inl e => exists x, entries m !! e = Some x /\ X !! key x = Some (value x) /\ covers (key x) (value x)
  | inr b => (forall e x, e ∈ l -> entries m !! e = Some x -> ~ covers (key x) (value x)) /\
      (b = true <-> had = true \/ exists e x, e ∈ l /\ entries m !! e = Some x /\ key x <= k)
  end.
Proof.
  induction l as [|e l IH]; intros Hl had.
  { exists (inr had). split; [done|]. split; [by intros e x ?%elem_of_nil|]. split; [by left|]. intros [?|(e & x & He & _)]; [done|by apply elem_of_nil in He]. }
  destruct (Hl e ltac:(left)) as (x & Hx & HX). destruct (Hsz _ _ HX) as [Hs1 Hs2]. destruct (rp_in _ _ HR _ _ HX) as [Hkx _].
  assert (forall e', e' ∈ l -> exists x, entries m !! e' = Some x /\ X !! key x = Some (value x)) as Hl' by (intros; apply Hl; by right).
  cbn [scan]. rewrite Hx. obind. destruct (Z.leb_spec (key x) k) as [Hle|Hgt].
  - rewrite u64_small by lia. destruct ((key x =? k) || (k <? key x + size_func (value x))) eqn:E.
    + exists (inl e). split; [done|]. exists x. split; [done|]. split; [done|]. unfold covers.
      apply orb_true_iff in E as [?%Z.eqb_eq|?%Z.ltb_lt]; lia.
    + apply orb_false_iff in E as [E1%Z.eqb_neq E2%Z.ltb_ge]. destruct (IH Hl' true) as (r & Hr & Hq). exists r. split; [done|]. destruct r as [e'|b]; [done|].
      destruct Hq as [Hq Hb]. split.
      * intros e' y [->|He']%elem_of_cons Hy; [|by eapply Hq]. assert (y = x) as -> by congruence. unfold covers. lia.
      * rewrite Hb. split; [|by left]. intros _. right. exists e, x. split; [left|done].
  - destruct (IH Hl' had) as (r & Hr & Hq). exists r. split; [done|]. destruct r as [e'|b]; [done|]. destruct Hq as [Hq Hb]. split.
    + intros e' y [->|He']%elem_of_cons Hy; [|by eapply Hq]. assert (y = x) as -> by congruence. unfold covers. lia.
    + rewrite Hb. split; (intros [?|(e' & y & He' & Hy & Hky)]; [by left|]).
      * right. exists e', y. split; [by right|done].
      * apply elem_of_cons in He' as [->|He']; [assert (y = x) as -> by congruence; lia|]. right. by exists e', y.
Qed.

(** Nothing at or below [k] lies above the block of [num]. *)
Definition above (n num : Z) : Prop := forall k' v, X !! k' = Some v -> k' <= k -> k' < (num / 2 ^ n + 1) * 2 ^ n.
Definition inside_inv (s : Z * option Cluster) : Prop :=
  0 <= s.1 <= k /\ above 7 s.1 /\ forall c, s.2 = Some c -> find_id (cluster_id s.1) (chain_of m (HashInt (cluster_id s.1))) = Some c.
Definition inside_post (r : option Z) : Prop :=
  match r with
  | Some e => exists x, entries m !! e = Some x /\ X !! key x = Some (value x) /\ covers (key x) (value x)
  | None => forall k' v, X !! k' = Some v -> ~ covers k' v
  end.

Lemma too_far num : (forall k' v, X !! k' = Some v -> k' <= k -> k' <= num) -> k - num > max_size -> inside_post None.
Proof. intros Ha Hfar k' v HX. destruct (Hsz _ _ HX). unfold covers. intros Hc. pose proof (Ha k' v HX ltac:(lia)). lia. Qed.

(** The step back over [2^n] addresses. *)
Lemma step_back n num : 0 <= n <= 20 -> 0 <= num <= k -> 2 ^ n <= num ->
  (forall k' v, X !! k' = Some v -> k' <= k -> k' < num / 2 ^ n * 2 ^ n) ->
  let num' := u64 (Z.lor num (2 ^ n - 1) - 2 ^ n) in
  num' = num / 2 ^ n * 2 ^ n - 1 /\ 0 <= num' < num /\ u64 (k - num') = k - num' /\
  (forall k' v, X !! k' = Some v -> k' <= k -> k' <= num').
Proof.
  intros Hn Hnum Hge Hb. assert (0 < 2 ^ n) by (apply Z.pow_pos_nonneg; lia). assert (2 ^ n <= 2 ^ 20) by (apply Z.pow_le_mono_r; lia).
  pose proof (Z.div_mod num (2 ^ n) ltac:(lia)). pose proof (Z.mod_pos_bound num (2 ^ n) ltac:(lia)).
  assert (1 <= num / 2 ^ n) by (apply Z.div_le_lower_bound; lia).
  cbn zeta. rewrite lor_last by lia. replace (num / 2 ^ n * 2 ^ n + 2 ^ n - 1 - 2 ^ n) with (num / 2 ^ n * 2 ^ n - 1) by lia.
  rewrite u64_small by nia. split; [done|]. split; [nia|]. split; [apply u64_small; nia|]. intros k' v HX Hle. specialize (Hb k' v HX Hle). lia.
Qed.
Lemma above_last num : (forall k' v, X !! k' = Some v -> k' <= k -> k' <= num) -> above 7 num.
Proof. intros Ha k' v HX Hle. specialize (Ha k' v HX Hle). zdiv. Qed.

Lemma previous_ok num : 0 <= num <= k -> (forall k' v, X !! k' = Some v -> k' <= k -> k' < num / 2 ^ 20 * 2 ^ 20) ->
  match previous_cluster max_size k num with
  | inl s => inside_inv s /\ 0 <= s.1 < num
  | inr r => inside_post r
  end.
Proof.
  intros Hnum Hb. unfold previous_cluster. change kClusterSize with (2 ^ 20). destruct (Z.ltb_spec num (2 ^ 20)) as [Hlt|Hge].
  - intros k' v HX Hc. rewrite (Z.div_small num) in Hb by lia. destruct (rp_in _ _ HR _ _ HX) as [? _].
    assert (k' <= k) by (unfold covers in Hc; lia). specialize (Hb k' v HX ltac:(done)). lia.
  - destruct (step_back 20 num ltac:(lia) Hnum Hge Hb) as (_ & Hn1 & Hu & Ha). cbn zeta in *. set (num' := u64 _) in *. rewrite Hu, Z.gtb_ltb.
    destruct (Z.ltb_spec max_size (k - num')); [eapply too_far; [exact Ha|lia]|]. split; [|cbn; lia].
    split; [cbn; lia|]. split; [by apply above_last|done].
Qed.

Lemma inside_step s : inside_inv s -> exists r, inside_body size_func max_size k m s = Ret r /\
  match r with inl s' => inside_inv s' /\ 0 <= s'.1 < s.1 | inr e => inside_post e end.
Proof.
  destruct s as [num held]. intros (Hnum & Habove & Hheld). cbn [fst snd] in *. unfold inside_body.
  assert (match held with Some c => Some c | None => find_id (cluster_id num) (chain_of m (HashInt (cluster_id num))) end =
    find_id (cluster_id num) (chain_of m (HashInt (cluster_id num)))) as -> by (destruct held as [c|]; [symmetry; by apply Hheld|done]).
  (** A key of the map at or below [k], in this cluster, is in its chain. *)
  assert (forall k' v, X !! k' = Some v -> k' <= k -> num / 2 ^ 20 * 2 ^ 20 <= k' -> cluster_id k' = cluster_id num) as Hcl.
  { intros k' v HX Hle Hge. specialize (Habove k' v HX Hle). rewrite !cluster_id_div. zdiv. }
  assert (forall k' v, X !! k' = Some v -> k' <= k -> num / 2 ^ 7 * 2 ^ 7 <= k' -> cluster_id k' = cluster_id num /\ BlockID k' = BlockID num) as Hbl.
  { intros k' v HX Hle Hge. specialize (Habove k' v HX Hle). assert (k' / 2 ^ 7 = num / 2 ^ 7) as E by zdiv.
    rewrite !cluster_id_div, !BlockID_div, E. split; [|done]. replace (2 ^ 20) with (2 ^ 7 * 2 ^ 13) by done. rewrite <- !Z.div_div, E by lia. done. }
  destruct (find_id _ _) as [c|] eqn:Hc.
  2: { eexists. split; [done|]. apply previous_ok; [done|]. intros k' v HX Hle. destruct (Z.lt_ge_cases k' (num / 2 ^ 20 * 2 ^ 20)) as [?|Hge]; [done|].
       destruct (rp_in _ _ HR _ _ HX) as (_ & e & He & _). rewrite slot_cluster, (Hcl k' v HX Hle Hge), Hc in He. by apply elem_of_nil in He. }
  cbn zeta. assert (slot m (cluster_id num) (BlockID num) = chain_at c (BlockID num)) as Es by (by rewrite slot_cluster, Hc). rewrite <- Es.
  destruct (scan_ok (slot m (cluster_id num) (BlockID num))) with (had := false) as (r & -> & Hr).
  { intros e He. destruct (rp_home _ _ HR _ _ e He) as (x & Hx & _ & _ & HX). by exists x. }
  obind. destruct r as [e|[]].
  - eexists. by split.
  - (** A smaller key whose range ends before [k]. *)
    eexists. split; [done|]. destruct Hr as [Hno Hb]. destruct (proj1 Hb eq_refl) as [?|(e & x & He & Hx & Hkx)]; [done|].
    destruct (rp_home _ _ HR _ _ e He) as (y & Hy & Hyi & Hyb & HXy). assert (y = x) as -> by congruence. specialize (Hno e x He Hx) as Hnx.
    intros k' v HX Hc'. assert (k' <= k) as Hle by (unfold covers in Hc'; lia). destruct (Hsz _ _ HX). destruct (Hsz _ _ HXy).
    destruct (Z.lt_total k' (key x)) as [Hlt|[->|Hgt]].
    + pose proof (Hdisj _ _ _ _ HX HXy Hlt). unfold covers in Hc'. lia.
    + rewrite HX in HXy. injection HXy as ->. done.
    + assert (num / 2 ^ 7 * 2 ^ 7 <= key x) as Hge.
      { rewrite cluster_id_div in *. rewrite cluster_id_div in Hyi. rewrite !BlockID_div in Hyb. zdiv. }
      destruct (rp_in _ _ HR _ _ HX) as (_ & f & Hf & Hfx). destruct (Hbl k' v HX Hle ltac:(lia)) as [E1 E2]. rewrite E1, E2 in Hf.
      by apply (Hno f (mkEntry k' v) Hf Hfx).
  - (** Nothing of the block is at or below [k]. *)
    destruct Hr as [_ Hb]. assert (forall k' v, X !! k' = Some v -> k' <= k -> k' < num / 2 ^ 7 * 2 ^ 7) as Hlow.
    { intros k' v HX Hle. destruct (Z.lt_ge_cases k' (num / 2 ^ 7 * 2 ^ 7)) as [?|Hge]; [done|]. exfalso.
      destruct (rp_in _ _ HR _ _ HX) as (_ & f & Hf & Hfx). destruct (Hbl k' v HX Hle Hge) as [E1 E2]. rewrite E1, E2 in Hf.
      assert (false = true); [|done]. apply Hb. right. by exists f, (mkEntry k' v). }
    destruct (Z.eqb_spec (BlockID num) 0) as [E0|E0].
    + eexists. split; [done|]. apply previous_ok; [done|]. intros k' v HX Hle. specialize (Hlow k' v HX Hle). rewrite BlockID_div in E0. zdiv.
    + assert (2 ^ 7 <= num) as Hge by (rewrite BlockID_div in E0; zdiv).
      change kBlockSize with (2 ^ 7). destruct (step_back 7 num ltac:(lia) Hnum Hge Hlow) as (En & Hn1 & Hu & Ha). cbn zeta in *. set (num' := u64 _) in *. rewrite Hu, Z.gtb_ltb.
      destruct (Z.ltb_spec max_size (k - num')); [eexists; split; [done|]; eapply too_far; [exact Ha|lia]|]. eexists. split; [done|]. cbn [fst]. split; [|done].
      split; [cbn; lia|]. split; [by apply above_last|]. cbn. intros c' [= <-]. assert (cluster_id num' = cluster_id num) as ->; [|done].
      rewrite !cluster_id_div. rewrite BlockID_div in E0. zdiv.
Qed.
Lemma FindInside_ok : exists r, FindInside size_func max_size k m = Ret r /\
  match r with Some (k', v) => X !! k' = Some v /\ covers k' v | None => forall k' v, X !! k' = Some v -> ~ covers k' v end.
Proof.
  unfold FindInside. destruct (wide_loop_spec (inside_body size_func max_size k m) inside_inv (fun s => s.1) inside_post inside_step 64 (k, None)) as (r & -> & Hr).
  - split; [cbn; lia|]. split; [|done]. intros k' v HX Hle. cbn. zdiv.
  - cbn [fst]. change (Z.of_nat 64) with 64. lia.
  - obind. destruct r as [e|]; [|by eexists]. destruct Hr as (x & Hx & HX & Hc). rewrite Hx. obind. by eexists.
Qed.
End Inside.

(** ** Theorems *)

(** C20: the address map is a finite map. From the constructor on, any
    sequence of [Insert], [Find] and [FindAndRemove] returns what a map from
    keys to values returns, [Iterate] then visits every pair of that map
    exactly once, and the destructor gives back exactly the memory the
    structure took. *)
Theorem addressmap_refines_map ops a (Hops : Forall (fun o => 0 <= key_of o < 2 ^ 64) ops) :
  match init alloc a with
  | Ret m => wp (run_ops ops) (fun rs m' => rs = (spec_ops ops ∅).1 /\ Iterate m' ≡ₚ map_to_list (spec_ops ops ∅).2 /\
      wp (destroy dealloc) (fun _ m2 => live (heap m2) = live a) m') m
  | Fault f => f = OOM
  end.
Proof.
  pose proof (init_ok a) as Hi. destruct (init alloc a) as [m|f]; [|done]. destruct Hi as [HR Ho].
  eapply wp_mono; [by apply (wp_run_ops ops m ∅ (live a))|]. cbn beta. intros rs m' (-> & HR' & Ho').
  split; [done|]. split; [by apply Iterate_perm|by apply wp_destroy].
Qed.

(** [FindInside] over ranges that do not overlap and are not longer than
    [max_size]: the search back through blocks and clusters ends, finds the
    one range that starts at or contains the address, with its key, and
    answers null only when there is none. *)
Theorem addressmap_find_inside size_func max_size k m X (HR : rep m X) (Hk : 0 <= k < 2 ^ 64) (Hmax : 0 <= max_size)
    (Hsz : forall k' v, X !! k' = Some v -> 0 <= size_func v <= max_size /\ k' + size_func v < 2 ^ 64)
    (Hdisj : forall k1 k2 v1 v2, X !! k1 = Some v1 -> X !! k2 = Some v2 -> k1 < k2 -> k1 + size_func v1 <= k2) :
  exists r, FindInside size_func max_size k m = Ret r /\
    match r with
    | Some (k', v) => X !! k' = Some v /\ (k' = k \/ k' <= k < k' + size_func v)
    | None => forall k' v, X !! k' = Some v -> ~ (k' = k \/ k' <= k < k' + size_func v)
    end.
Proof. by apply (FindInside_ok size_func max_size k m X). Qed.
End Spec.

(** ** A concrete allocator *)

Module ToyAlloc.
(** The regions given out; the next one starts after all of them. *)
Definition top (r : gmap Z Z) : Z := foldr (fun x acc => Z.max acc (Z.max (x.1 + x.2) (x.1 + 1))) 1 (map_to_list r).
Definition alloc (n : Z) : M (gmap Z Z) Z := r ← getS; _ ← modS (<[top r := n]>); mret (top r).
Definition dealloc (p : Z) : M (gmap Z Z) unit := modS (delete p).

Lemma top_above r q k : r !! q = Some k -> q + k <= top r /\ q < top r.
Proof.
  intros Hq. apply elem_of_map_to_list in Hq. unfold top. induction (map_to_list r) as [|[q' k'] l IH]; [by apply elem_of_nil in Hq|].
  cbn [foldr fst snd]. apply elem_of_cons in Hq as [[= <- <-]|Hq]; [lia|]. specialize (IH Hq). lia.
Qed.
Lemma top_pos r : 0 < top r.
Proof. unfold top. induction (map_to_list r) as [|x l IH]; cbn [foldr]; lia. Qed.
Lemma alloc_fresh n r : 0 < n -> wp (alloc n) (fun p r' => 0 < p /\ r !! p = None /\ r' = <[p := n]> r /\
  forall q k, r !! q = Some k -> p + n <= q \/ q + k <= p) r.
Proof.
  intros Hn. unfold alloc. apply wp_bind, wp_get. apply wp_bind, wp_mod, wp_ret. split; [apply top_pos|]. split.
  - apply eq_None_not_Some. intros [k Hq]. pose proof (top_above r _ k Hq). lia.
  - split; [done|]. intros q k Hq. right. apply (top_above r q k Hq).
Qed.
Lemma dealloc_deletes p r : is_Some (r !! p) -> wp (dealloc p) (fun _ r' => r' = delete p r) r.
Proof. intros _. by apply wp_mod. Qed.
End ToyAlloc.

Definition toy_ops : list (op (V := Z)) := [OInsert 4096 16; OInsert 8192 100; ORemove 4096; OFind 8192; OFind 4096].
Lemma addressmap_refines_map_witness : (spec_ops toy_ops ∅).1 = [None; None; Some 16; Some 100; None] /\
  match init (V := Z) ToyAlloc.alloc ∅ with
  | Ret m => wp (run_ops ToyAlloc.alloc 8 toy_ops) (fun rs _ => rs = (spec_ops toy_ops ∅).1) m
  | Fault f => f = OOM
  end.
Proof.
  split; [reflexivity|].
  pose proof (addressmap_refines_map (V := Z) ToyAlloc.alloc ToyAlloc.dealloc 8 (fun r => r) ToyAlloc.alloc_fresh ToyAlloc.dealloc_deletes ltac:(lia)
    toy_ops ∅ ltac:(repeat constructor; cbn; lia)) as Hr.
  destruct (init ToyAlloc.alloc ∅) as [m|f]; [|done]. eapply wp_mono; [exact Hr|]. by intros rs m' [? _].
Defined.
(** One range, [4096, 4112). *)
Definition toy_start : outcome (unit * AddressMap Z (gmap Z Z)) := m ← init ToyAlloc.alloc ∅; Insert ToyAlloc.alloc 8 4096 16 m.
Definition toy_map : AddressMap Z (gmap Z Z) := match toy_start with Ret (_, m) => m | Fault _ => mkAddressMap ∅ ∅ [] [] ∅ end.
Lemma toy_rep : rep (fun r => r) toy_map {[4096 := 16]}.
Proof.
  pose proof (init_ok (V := Z) ToyAlloc.alloc (fun r => r) ToyAlloc.alloc_fresh ∅) as Hi.
  assert (exists m, toy_start = Ret (tt, m)) as [m' E] by (eexists; vm_compute; reflexivity).
  unfold toy_map. rewrite E. unfold toy_start in E. destruct (init ToyAlloc.alloc ∅) as [m|f]; [|done]. destruct Hi as [HR _].
  pose proof (wp_Insert ToyAlloc.alloc 8 (fun r => r) ToyAlloc.alloc_fresh ltac:(lia) m ∅ 4096 16 HR ltac:(lia)) as Hw. unfold wp in Hw.
  change (Insert ToyAlloc.alloc 8 4096 16 m = Ret (tt, m')) in E. by rewrite E in Hw.
Qed.
Lemma addressmap_find_inside_witness : FindInside (fun v => v) 100 4100 toy_map = Ret (Some (4096, 16)).
Proof.
  destruct (addressmap_find_inside (fun r => r) (fun v => v) 100 4100 toy_map {[4096 := 16]} toy_rep) as (r & -> & Hq).
  - lia.
  - lia.
  - intros k' v [<- <-]%lookup_singleton_Some. lia.
  - intros k1 k2 v1 v2 [<- <-]%lookup_singleton_Some [<- <-]%lookup_singleton_Some. lia.
  - destruct r as [[k' v]|]; [|destruct (Hq 4096 16 eq_refl); lia]. destruct Hq as [[<- <-]%lookup_singleton_Some _]. done.
Defined.
