(* ===== verification/ProfileData.v ===== *)
(** * The sample table of the CPU profiler

    Models src/src/src/profiledata.h and profiledata.cc: stack traces are
    counted in a four-way associative table, entries that are displaced go
    to a buffer of machine words and from there to the profile file. The
    file is the sequence of words written to it; opening it is a parameter,
    a write always completes ([FDWrite] retries). The words of an entry's
    stack beyond its depth are never read and not kept. *)
From S2P Require Import Prelude.

Definition kMaxStackDepth : Z := 254.
Definition kAssociativity : Z := 4.
Definition kBuckets : Z := Z.shiftl 1 10.
Definition kBufferLength : Z := Z.shiftl 1 18.

Record Entry := mkEntry { count : Z; depth : Z; stack : list Z }.
Definition entry0 : Entry := mkEntry 0 0 [].
Record ProfileData := mkProfile {
  hash_ : gmap Z (list Entry);
  evict_ : list Z;
  out_ : Z;
  file : list Z;
  count_ : Z;
  evictions_ : Z;
  total_bytes_ : Z;
  start_time_ : Z }.

Module PD.
Definition with_hash (v : gmap Z (list Entry)) (p : ProfileData) : ProfileData :=
  mkProfile v (evict_ p) (out_ p) (file p) (count_ p) (evictions_ p) (total_bytes_ p) (start_time_ p).
Definition with_evict (v : list Z) (p : ProfileData) : ProfileData :=
  mkProfile (hash_ p) v (out_ p) (file p) (count_ p) (evictions_ p) (total_bytes_ p) (start_time_ p).
Definition with_counts (c e : Z) (p : ProfileData) : ProfileData :=
  mkProfile (hash_ p) (evict_ p) (out_ p) (file p) c e (total_bytes_ p) (start_time_ p).

Definition init : ProfileData := mkProfile ∅ [] (-1) [] 0 0 0 0.
Definition enabled (p : ProfileData) : bool := out_ p >=? 0.
(** [num_evicted_]. *)
Definition num_evicted_ (p : ProfileData) : Z := Z.of_nat (length (evict_ p)).
Definition bucket (p : ProfileData) (b : Z) : list Entry := default (replicate 4 entry0) (hash_ p !! b).

Definition FlushEvicted (p : ProfileData) : ProfileData :=
  mkProfile (hash_ p) [] (out_ p) (file p ++ evict_ p) (count_ p) (evictions_ p)
    (if num_evicted_ p >? 0 then u64 (total_bytes_ p + 8 * num_evicted_ p) else total_bytes_ p) (start_time_ p).

Definition Evict (entry : Entry) (p : ProfileData) : ProfileData :=
  let d := depth entry in
  let nslots := d + 2 in
  let p := if num_evicted_ p + nslots >? kBufferLength then FlushEvicted p else p in
  with_evict (evict_ p ++ [count entry; d] ++ take (Z.to_nat d) (stack entry)) p.

(** [Start]: [fd] is what [open] returns. *)
Definition Start (fd frequency now : Z) (p : ProfileData) : outcome (bool * ProfileData) :=
  if enabled p then Ret (false, p) else
  if fd <? 0 then Ret (false, p) else
  _ ← check (negb (frequency =? 0));
  let period := s32 (Z.quot 1000000 frequency) in
  Ret (true, mkProfile ∅ [0; 3; 0; u64 period; 0] fd [] 0 0 0 now).

(** The entries in the order of the two loops over the table. *)
Definition slots : list (Z * Z) := b ← seqZ 0 kBuckets; a ← seqZ 0 kAssociativity; [(b, a)].
Definition entry_at (p : ProfileData) (s : Z * Z) : Entry := default entry0 (bucket p s.1 !! Z.to_nat s.2).
Definition evict_used (p : ProfileData) (s : Z * Z) : ProfileData :=
  if count (entry_at p s) >? 0 then Evict (entry_at p s) p else p.
Definition set_entry (s : Z * Z) (e : Entry) (p : ProfileData) : ProfileData :=
  with_hash (<[s.1 := <[Z.to_nat s.2 := e]> (bucket p s.1)]> (hash_ p)) p.
Definition flush_used (p : ProfileData) (s : Z * Z) : ProfileData :=
  if count (entry_at p s) >? 0 then
    let p := Evict (entry_at p s) p in set_entry s (mkEntry 0 0 (stack (entry_at p s))) p
  else p.

Definition Reset (p : ProfileData) : ProfileData :=
  if negb (enabled p) then p else
  mkProfile ∅ [] (-1) (file p) (count_ p) (evictions_ p) (total_bytes_ p) 0.
(** [Stop], up to the dump of the memory map that follows the samples. *)
Definition Stop (p : ProfileData) : ProfileData :=
  if negb (enabled p) then p else
  let p := foldl evict_used p slots in
  let p := if num_evicted_ p + 3 >? kBufferLength then FlushEvicted p else p in
  let p := with_evict (evict_ p ++ [0; 1; 0]) p in
  Reset (FlushEvicted p).
Definition FlushTable (p : ProfileData) : ProfileData :=
  if negb (enabled p) then p else FlushEvicted (foldl flush_used p slots).

(** The hash of a trace. *)
Definition hash_step (h slot : Z) : Z :=
  let h := Z.lor (u64 (Z.shiftl h 8)) (Z.shiftr h (8 * (8 - 1))) in
  u64 (h + (slot * 31 + slot * 7 + slot * 3)).
Definition hash (l : list Z) : Z := foldl hash_step 0 l.

(** The way of the bucket that has the trace. *)
Definition matches (d : Z) (l : list Z) (e : Entry) : Prop := depth e = d /\ take (Z.to_nat d) (stack e) = l.
#[export] Instance matches_dec d l e : Decision (matches d l e).
Proof. unfold matches. apply _. Defined.
(** The way with the smallest count. *)
Definition smallest (l : list Entry) : Z :=
  foldl (fun e a => if count (default entry0 (l !! Z.to_nat a)) <? count (default entry0 (l !! Z.to_nat e)) then a else e)
    0 (seqZ 1 (kAssociativity - 1)).

Definition Add (d : Z) (l : list Z) (p : ProfileData) : outcome ProfileData :=
  if negb (enabled p) then Ret p else
  let d := if d >? kMaxStackDepth then kMaxStackDepth else d in
  _ ← check (d >? 0);
  let l := take (Z.to_nat d) l in
  let b := hash l mod kBuckets in
  let p := with_counts (s32 (count_ p + 1)) (evictions_ p) p in
  match list_find (matches d l) (bucket p b) with
  | Some (a, e) => Ret (set_entry (b, Z.of_nat a) (mkEntry (u64 (count e + 1)) (depth e) (stack e)) p)
  | None =>
      let a := smallest (bucket p b) in
      let e := entry_at p (b, a) in
      let p := if count e >? 0 then Evict e (with_counts (count_ p) (s32 (evictions_ p + 1)) p) else p in
      Ret (set_entry (b, a) (mkEntry 1 d l) p)
  end.

(** [GetCurrentState], without the name: enabled, start time, samples. *)
Definition GetCurrentState (p : ProfileData) : bool * Z * Z :=
  if enabled p then (true, start_time_ p, count_ p) else (false, 0, 0).
End PD.

(** ** The format of the file

    A header of five words, one record per entry (its count, the length of
    its trace, the trace) and the trailer [0; 1; 0]; [decode] reads it back
    and returns the sampling period, the records and the words that follow. *)
Notation record := (Z * list Z)%type.
Definition enc1 (r : record) : list Z := r.1 :: Z.of_nat (length r.2) :: r.2.
Definition enc (rs : list record) : list Z := rs ≫= enc1.
Definition header (period : Z) : list Z := [0; 3; 0; period; 0].
Fixpoint decode_records (fuel : nat) (w : list Z) : option (list record * list Z) :=
  match fuel, w with
  | S fuel, c :: d :: w =>
      let n := Z.to_nat d in
      if decide (length w < n)%nat then None else
      if c =? 0 then if decide (take n w = [0]) then Some ([], drop n w) else None
      else match decode_records fuel (drop n w) with
           | Some (rs, rest) => Some ((c, take n w) :: rs, rest)
           | None => None
           end
  | _, _ => None
  end.
Definition decode (w : list Z) : option (Z * list record * list Z) :=
  match w with
  | 0 :: 3 :: 0 :: period :: 0 :: w =>
      match decode_records (length w) w with
      | Some (rs, rest) => Some (period, rs, rest)
      | None => None
      end
  | _ => None
  end.

Lemma decode_records_enc rs rest fuel :
  Forall (fun r : record => 0 < r.1) rs -> (length rs < fuel)%nat ->
  decode_records fuel (enc rs ++ [0; 1; 0] ++ rest) = Some (rs, rest).
Proof.
  intros Hp. revert fuel. induction Hp as [|[c s] rs Hc _ IH]; intros [|fuel] Hf; simpl in Hf; try lia.
  - done.
  - change (enc ((c, s) :: rs)) with (enc1 (c, s) ++ enc rs). rewrite <- app_assoc. unfold enc1. simpl.
    rewrite Nat2Z.id, decide_False by (rewrite length_app; lia).
    simpl in Hc. rewrite (proj2 (Z.eqb_neq c 0)) by lia.
    rewrite drop_app_length, take_app_length. specialize (IH fuel ltac:(lia)). simpl in IH. by rewrite IH.
Qed.

Lemma length_enc rs : (length rs <= length (enc rs))%nat.
Proof. induction rs as [|r rs IH]; [done|]. change (enc (r :: rs)) with (enc1 r ++ enc rs).
  rewrite length_app. unfold enc1. simpl. lia. Qed.

Lemma decode_file period rs :
  Forall (fun r : record => 0 < r.1) rs -> decode (header period ++ enc rs ++ [0; 1; 0]) = Some (period, rs, []).
Proof.
  intros Hp. unfold decode, header. simpl.
  pose proof (decode_records_enc rs [] (length (enc rs ++ [0; 1; 0])) Hp) as H.
  rewrite app_nil_r in H. rewrite H; [done|]. rewrite length_app. pose proof (length_enc rs). simpl. lia.
Qed.

(** ** Counting samples *)
Definition sumZ (l : list Z) : Z := foldr Z.add 0 l.
Definition weight (t : list Z) (r : record) : Z := if decide (r.2 = t) then r.1 else 0.
Definition tally (t : list Z) (rs : list record) : Z := sumZ (weight t <$> rs).

Lemma sumZ_app l k : sumZ (l ++ k) = sumZ l + sumZ k.
Proof. induction l as [|x l IH]; simpl; lia. Qed.
Lemma tally_app t rs qs : tally t (rs ++ qs) = tally t rs + tally t qs.
Proof. unfold tally. rewrite fmap_app. apply sumZ_app. Qed.
Lemma enc_app rs qs : enc (rs ++ qs) = enc rs ++ enc qs.
Proof. apply bind_app. Qed.

(** Changing one term of a sum. *)
Lemma sumZ_update {A} `{EqDecision A} (f g : A -> Z) (x : A) (l : list A) :
  NoDup l -> x ∈ l -> (forall y, y <> x -> g y = f y) -> sumZ (g <$> l) = sumZ (f <$> l) - f x + g x.
Proof.
  intros Hn Hx He. induction Hn as [|y l Hy _ IH]; [set_solver|]. csimpl.
  destruct (decide (y = x)) as [->|Hne].
  - assert (g <$> l = f <$> l) as ->; [|lia].
    apply list_fmap_ext. intros i z Hz. apply He. intros ->. apply Hy. by eapply list_elem_of_lookup_2.
  - rewrite (He y Hne), IH by set_solver. lia.
Qed.

Module PDSpec.
Import PD.

Definition slot_ok (s : Z * Z) : Prop := 0 <= s.1 < kBuckets /\ 0 <= s.2 < kAssociativity.
Lemma elem_slots s : s ∈ slots <-> slot_ok s.
Proof.
  unfold slots, slot_ok. destruct s as [b a]. rewrite list_elem_of_bind. split.
  - intros (b' & H & Hb). apply list_elem_of_bind in H as (a' & H & Ha).
    apply list_elem_of_singleton in H. injection H as -> ->. apply elem_of_seqZ in Ha, Hb. simpl. lia.
  - intros [Hb Ha]. exists b. split; [|apply elem_of_seqZ; cbn in *; lia].
    apply list_elem_of_bind. exists a. split; [by left|apply elem_of_seqZ; cbn in *; lia].
Qed.
Lemma slots_NoDup : NoDup slots.
Proof.
  unfold slots. apply NoDup_bind; [| |apply NoDup_seqZ].
  - intros b b' [c a] _ _ H H'. apply list_elem_of_bind in H as (? & H & _), H' as (? & H' & _).
    apply list_elem_of_singleton in H, H'. congruence.
  - intros b _. apply NoDup_bind; [| |apply NoDup_seqZ].
    + intros a a' x _ _ H H'. apply list_elem_of_singleton in H, H'. congruence.
    + intros a _. apply NoDup_singleton.
Qed.

(** The record an entry stands for. *)
Definition rec_of (e : Entry) : record := (count e, take (Z.to_nat (depth e)) (stack e)).
Definition entry_ok (n : Z) (e : Entry) : Prop :=
  0 <= count e <= n /\ 0 <= depth e <= kMaxStackDepth /\ depth e <= Z.of_nat (length (stack e)).
Definition in_table (t : list Z) (p : ProfileData) : Z := sumZ ((fun s => weight t (rec_of (entry_at p s))) <$> slots).

(** [n] bounds the counts, [rs] is what went to the file and the buffer. *)
Record Inv (period n : Z) (rs : list record) (p : ProfileData) : Prop := {
  inv_enabled : enabled p = true;
  inv_words : file p ++ evict_ p = header period ++ enc rs;
  inv_buffer : num_evicted_ p <= kBufferLength;
  inv_buckets : forall b, length (bucket p b) = 4%nat;
  inv_entries : forall s, slot_ok s -> entry_ok n (entry_at p s);
  inv_records : Forall (fun r : record => 0 < r.1) rs }.

Lemma rec_of_enc n e : entry_ok n e -> enc1 (rec_of e) = [count e; depth e] ++ take (Z.to_nat (depth e)) (stack e).
Proof. intros (_ & Hd & Hl). unfold enc1, rec_of. simpl. rewrite length_take_le by lia. by rewrite Z2Nat.id by lia. Qed.

Lemma Evict_words e p : file (Evict e p) ++ evict_ (Evict e p) =
  (file p ++ evict_ p) ++ [count e; depth e] ++ take (Z.to_nat (depth e)) (stack e).
Proof. unfold Evict. destruct (_ >? _); simpl; by rewrite <- ?app_assoc. Qed.
Lemma Evict_hash e p : hash_ (Evict e p) = hash_ p.
Proof. unfold Evict. by destruct (_ >? _). Qed.
Lemma Evict_out e p : out_ (Evict e p) = out_ p.
Proof. unfold Evict. by destruct (_ >? _). Qed.
Lemma bucket_hash p q b : hash_ p = hash_ q -> bucket p b = bucket q b.
Proof. unfold bucket. by intros ->. Qed.
Lemma entry_at_hash p q s : hash_ p = hash_ q -> entry_at p s = entry_at q s.
Proof. unfold entry_at, bucket. by intros ->. Qed.

Lemma Evict_buffer n e p : entry_ok n e -> num_evicted_ p <= kBufferLength -> num_evicted_ (Evict e p) <= kBufferLength.
Proof.
  intros (_ & Hd & Hl) Hb. unfold Evict, num_evicted_ in *. change kBufferLength with 262144 in *.
  change kMaxStackDepth with 254 in *.
  destruct (_ >? _) eqn:E; simpl; rewrite ?length_app; simpl; rewrite length_take; lia.
Qed.

Lemma Evict_inv period n rs e p :
  Inv period n rs p -> entry_ok n e -> 0 < count e -> Inv period n (rs ++ [rec_of e]) (Evict e p).
Proof.
  intros [He Hw Hb Hl Hn Hr] Ho Hc. split.
  - unfold enabled. by rewrite Evict_out.
  - rewrite Evict_words, Hw, enc_app, <- !app_assoc. do 2 f_equal.
    unfold enc. rewrite bind_singleton. symmetry. by eapply rec_of_enc.
  - by eapply Evict_buffer.
  - intros b. rewrite (bucket_hash _ p); [apply Hl|apply Evict_hash].
  - intros s Hs. rewrite (entry_at_hash _ p); [by apply Hn|apply Evict_hash].
  - apply Forall_app. split; [done|]. by constructor.
Qed.

Lemma entry_at_set s e p s' : length (bucket p s.1) = 4%nat -> slot_ok s -> slot_ok s' ->
  entry_at (set_entry s e p) s' = if decide (s' = s) then e else entry_at p s'.
Proof.
  intros Hl [_ Ha] [_ Ha']. unfold entry_at, set_entry, bucket at 1. simpl. change kAssociativity with 4 in *.
  destruct s as [b a], s' as [b' a']. simpl in *. destruct (decide (b' = b)) as [->|Hb].
  - rewrite lookup_insert_eq. simpl. destruct (decide (a' = a)) as [->|Hne].
    + rewrite list_lookup_insert_eq by lia. by rewrite decide_True by done.
    + rewrite list_lookup_insert_ne by lia. rewrite decide_False by congruence. done.
  - rewrite lookup_insert_ne by done. by rewrite decide_False by congruence.
Qed.

Lemma in_table_set t s e p : (forall b, length (bucket p b) = 4%nat) -> slot_ok s ->
  in_table t (set_entry s e p) = in_table t p - weight t (rec_of (entry_at p s)) + weight t (rec_of e).
Proof.
  intros Hl Hs. unfold in_table. generalize elem_slots slots_NoDup. generalize slots as l. intros l El Hn.
  replace (weight t (rec_of e)) with (weight t (rec_of (if decide (s = s) then e else entry_at p s)))
    by by rewrite decide_True.
  rewrite <- (sumZ_update (fun s' => weight t (rec_of (entry_at p s')))
    (fun s' => weight t (rec_of (if decide (s' = s) then e else entry_at p s'))) s l Hn); [|by apply El|].
  - f_equal. apply list_fmap_ext. intros i x Hx. rewrite entry_at_set; [done|apply Hl|done|].
    apply El. by eapply list_elem_of_lookup_2.
  - intros y Hy. by rewrite decide_False.
Qed.

Lemma set_entry_inv period n rs s e p :
  Inv period n rs p -> slot_ok s -> entry_ok n e -> Inv period n rs (set_entry s e p).
Proof.
  intros [He Hw Hb Hl Hn Hr] Hs Ho. split; [exact He|exact Hw|exact Hb| | |exact Hr].
  - intros b. unfold bucket, set_entry. simpl. destruct (decide (b = s.1)) as [->|Hne].
    + rewrite lookup_insert_eq. simpl. rewrite length_insert. apply Hl.
    + rewrite lookup_insert_ne by done. apply Hl.
  - intros s' Hs'. rewrite entry_at_set by auto. destruct (decide (s' = s)); auto.
Qed.

Lemma FlushEvicted_inv period n rs p : Inv period n rs p -> Inv period n rs (FlushEvicted p).
Proof.
  intros [He Hw Hb Hl Hn Hr]. split; [exact He| | |exact Hl|exact Hn|exact Hr].
  - simpl. by rewrite app_nil_r.
  - unfold num_evicted_. by simpl.
Qed.

Lemma in_table_hash t p q : hash_ p = hash_ q -> in_table t p = in_table t q.
Proof. intros H. unfold in_table, entry_at, bucket. by rewrite H. Qed.
Lemma FlushEvicted_table t p : in_table t (FlushEvicted p) = in_table t p.
Proof. by apply in_table_hash. Qed.
Lemma weight_zero t e : count e = 0 -> weight t (rec_of e) = 0.
Proof. intros H. unfold weight, rec_of. simpl. rewrite H. by destruct (decide _). Qed.
Lemma weight_one t d l : 0 <= d -> weight t (rec_of (mkEntry 1 d l)) = if decide (take (Z.to_nat d) l = t) then 1 else 0.
Proof. done. Qed.

(** Evicting the entry of a slot and replacing it moves its count. *)
Lemma displace_inv period n rs p s e : Inv period n rs p -> slot_ok s -> entry_ok n e ->
  exists rs', Inv period n rs' (set_entry s e (if count (entry_at p s) >? 0 then Evict (entry_at p s) p else p)) /\
    forall t, tally t rs' + in_table t (set_entry s e (if count (entry_at p s) >? 0 then Evict (entry_at p s) p else p)) =
      tally t rs + in_table t p + weight t (rec_of e).
Proof.
  intros HI Hs He. pose proof (inv_entries _ _ _ _ HI s Hs) as Hso. destruct (_ >? _) eqn:E.
  - exists (rs ++ [rec_of (entry_at p s)]).
    assert (HE : Inv period n (rs ++ [rec_of (entry_at p s)]) (Evict (entry_at p s) p)) by (apply Evict_inv; auto; lia).
    split; [by apply set_entry_inv|]. intros t.
    rewrite in_table_set by (auto; apply HE). rewrite tally_app.
    rewrite (entry_at_hash (Evict (entry_at p s) p) p) by apply Evict_hash. unfold tally at 2. csimpl.
    rewrite (in_table_hash t (Evict (entry_at p s) p) p) by apply Evict_hash. lia.
  - exists rs. split; [by apply set_entry_inv|]. intros t. rewrite in_table_set by (auto; apply HI).
    rewrite (weight_zero t (entry_at p s)) by (destruct Hso; lia). lia.
Qed.

Lemma with_counts_inv period n rs c k p : Inv period n rs p -> Inv period n rs (with_counts c k p).
Proof. intros [He Hw Hb Hl Hn Hr]. split; [exact He|exact Hw|exact Hb|exact Hl|exact Hn|exact Hr]. Qed.
Lemma inv_le period n m rs p : n <= m -> Inv period n rs p -> Inv period m rs p.
Proof.
  intros Hm [He Hw Hb Hl Hn Hr]. split; try assumption. intros s Hs. destruct (Hn s Hs) as (? & ? & ?).
  split; [lia|done].
Qed.
Lemma Evict_counts e c k p : Evict e (with_counts c k p) = with_counts c k (Evict e p).
Proof. unfold Evict, num_evicted_, with_counts. simpl. by destruct (_ >? _). Qed.
Lemma smallest_range l : 0 <= smallest l < kAssociativity.
Proof. unfold smallest. change kAssociativity with 4. simpl. repeat case_match; lia. Qed.

(** [flush_used] keeps the totals, and so does the loop of [FlushTable]. *)
Lemma flush_used_inv period n rs p s : Inv period n rs p -> slot_ok s ->
  exists rs', Inv period n rs' (flush_used p s) /\
    forall t, tally t rs' + in_table t (flush_used p s) = tally t rs + in_table t p.
Proof.
  intros HI Hs. unfold flush_used. destruct (_ >? _) eqn:E; [|by exists rs].
  destruct (displace_inv period n rs p s (mkEntry 0 0 (stack (entry_at (Evict (entry_at p s) p) s))) HI Hs)
    as (rs' & HI' & Ht).
  - destruct (inv_entries _ _ _ _ HI s Hs) as (? & ? & ?). unfold entry_ok, kMaxStackDepth. simpl. lia.
  - rewrite E in HI', Ht. exists rs'. split; [exact HI'|]. intros t. rewrite (Ht t), weight_zero by done. lia.
Qed.
Lemma flush_loop_inv period n l rs p : Inv period n rs p -> Forall slot_ok l ->
  exists rs', Inv period n rs' (foldl flush_used p l) /\
    forall t, tally t rs' + in_table t (foldl flush_used p l) = tally t rs + in_table t p.
Proof.
  intros HI Hl. revert rs p HI. induction Hl as [|s l Hs _ IH]; intros rs p HI; [by exists rs|].
  destruct (flush_used_inv period n rs p s HI Hs) as (rs1 & HI1 & H1).
  destruct (IH rs1 _ HI1) as (rs2 & HI2 & H2). exists rs2. split; [exact HI2|]. intros t. simpl. rewrite H2. apply H1.
Qed.
Lemma slots_ok : Forall slot_ok slots.
Proof. apply Forall_forall. intros s. apply elem_slots. Qed.
Lemma FlushTable_inv period n rs p : Inv period n rs p ->
  exists rs', Inv period n rs' (FlushTable p) /\
    forall t, tally t rs' + in_table t (FlushTable p) = tally t rs + in_table t p.
Proof.
  intros HI. unfold FlushTable. rewrite (inv_enabled _ _ _ _ HI). cbn [negb].
  destruct (flush_loop_inv period n slots rs p HI slots_ok) as (rs' & HI' & Ht).
  exists rs'. split; [by apply FlushEvicted_inv|]. intros t. rewrite FlushEvicted_table. apply Ht.
Qed.

(** [Add] counts one sample of the trace, cut to [kMaxStackDepth]. *)
Definition cut (d : Z) (l : list Z) : list Z := take (Z.to_nat (Z.min d kMaxStackDepth)) l.
Lemma Add_inv period n rs d l p :
  Inv period n rs p -> 0 < d <= Z.of_nat (length l) -> n + 1 < 2 ^ 64 -> 0 <= n ->
  exists p' rs', Add d l p = Ret p' /\ Inv period (n + 1) rs' p' /\
    forall t, tally t rs' + in_table t p' = tally t rs + in_table t p + if decide (cut d l = t) then 1 else 0.
Proof.
  intros HI Hd Hn Hn0. unfold Add. rewrite (inv_enabled _ _ _ _ HI). cbn [negb].
  assert ((if d >? kMaxStackDepth then kMaxStackDepth else d) = Z.min d kMaxStackDepth) as ->.
  { destruct (Z.gtb_spec d kMaxStackDepth); lia. }
  assert (Hm : 0 < Z.min d kMaxStackDepth <= kMaxStackDepth) by (change kMaxStackDepth with 254; lia).
  fold (cut d l). assert (Hc : Z.of_nat (length (cut d l)) = Z.min d kMaxStackDepth).
  { unfold cut. rewrite length_take. lia. }
  revert Hm Hc. generalize (Z.min d kMaxStackDepth) as m. generalize (cut d l) as k. intros k m Hm Hc.
  rewrite (proj2 (Z.gtb_lt m 0)) by lia. cbn [check mbind].
  assert (Hb : 0 <= hash k mod kBuckets < kBuckets) by (apply Z.mod_pos_bound; done).
  revert Hb. generalize (hash k mod kBuckets) as b. intros b Hb.
  set (q := with_counts (s32 (count_ p + 1)) (evictions_ p) p).
  assert (HQ : Inv period (n + 1) rs q) by (apply (inv_le _ n); [lia|by apply with_counts_inv]).
  assert (Hk : take (Z.to_nat m) k = k) by (apply take_ge; lia).
  destruct (list_find _ _) as [[a e]|] eqn:Hf.
  - apply list_find_Some in Hf as (Ha & [Hed Hes] & _).
    assert (Ha4 := lookup_lt_Some _ _ _ Ha). rewrite (inv_buckets _ _ _ _ HQ) in Ha4.
    assert (Hs : slot_ok (b, Z.of_nat a)) by (split; simpl; [done|change kAssociativity with 4; lia]).
    assert (He : entry_at q (b, Z.of_nat a) = e).
    { unfold entry_at. cbn [fst snd]. by rewrite Nat2Z.id, Ha. }
    assert (Ho : entry_ok n e). { rewrite <- He. by apply (inv_entries _ _ _ _ HI). }
    eexists _, rs. split; [reflexivity|].
    destruct Ho as (Ho1 & Ho2 & Ho3). rewrite u64_small by lia. split.
    + apply set_entry_inv; [done|done|]. unfold entry_ok. simpl. split; [lia|done].
    + intros t. rewrite in_table_set by (auto; apply HQ). rewrite He.
      rewrite (in_table_hash t q p) by done. unfold weight, rec_of. simpl. rewrite Hed, Hes.
      destruct (decide (k = t)); lia.
  - set (a := smallest (bucket q b)). assert (Hs : slot_ok (b, a)) by (split; [done|apply smallest_range]).
    assert (Ho : entry_ok (n + 1) (mkEntry 1 m k)) by (unfold entry_ok; simpl; lia).
    destruct (displace_inv period (n + 1) rs q (b, a) _ HQ Hs Ho) as (rs' & HI' & Ht).
    exists (with_counts (count_ q) (if count (entry_at q (b, a)) >? 0 then s32 (evictions_ q + 1) else evictions_ q)
      (set_entry (b, a) (mkEntry 1 m k) (if count (entry_at q (b, a)) >? 0 then Evict (entry_at q (b, a)) q else q))), rs'.
    split; [|split; [by apply with_counts_inv|]].
    + destruct (_ >? _); [by rewrite Evict_counts|done].
    + intros t. etrans; [apply Ht|]. rewrite (in_table_hash t q p) by done.
      rewrite weight_one by lia. by rewrite Hk.
Qed.

(** The loop of [Stop] writes every entry and leaves the table. *)
Lemma evict_loop_inv period n l rs p : Inv period n rs p -> Forall slot_ok l ->
  exists us, Inv period n (rs ++ us) (foldl evict_used p l) /\ hash_ (foldl evict_used p l) = hash_ p /\
    forall t, tally t us = sumZ ((fun s => weight t (rec_of (entry_at p s))) <$> l).
Proof.
  intros HI Hl. revert rs p HI. induction Hl as [|s l Hs _ IH]; intros rs p HI.
  - exists []. rewrite app_nil_r. by csimpl.
  - assert (Hso := inv_entries _ _ _ _ HI s Hs). cbn [foldl]. unfold evict_used at 2 4.
    destruct (_ >? _) eqn:E.
    + destruct (IH (rs ++ [rec_of (entry_at p s)]) (Evict (entry_at p s) p)) as (us & HI' & Hh & Ht).
      { apply Evict_inv; [done|done|lia]. }
      exists (rec_of (entry_at p s) :: us). rewrite <- app_assoc in HI'. split; [exact HI'|].
      rewrite Hh, Evict_hash. split; [done|]. intros t. unfold tally in *. csimpl. rewrite Ht. f_equal. f_equal.
      apply list_fmap_ext. intros i x _. by rewrite (entry_at_hash (Evict _ p) p) by apply Evict_hash.
    + destruct (IH rs p HI) as (us & HI' & Hh & Ht). exists us. split; [done|]. split; [done|].
      intros t. rewrite (Ht t). csimpl. rewrite (weight_zero t (entry_at p s)) by (destruct Hso; lia). lia.
Qed.

Lemma Stop_file period n rs p : Inv period n rs p ->
  exists us, file (Stop p) = header period ++ enc us ++ [0; 1; 0] /\ enabled (Stop p) = false /\
    Forall (fun r : record => 0 < r.1) us /\ forall t, tally t us = tally t rs + in_table t p.
Proof.
  intros HI. unfold Stop. rewrite (inv_enabled _ _ _ _ HI). cbn [negb].
  destruct (evict_loop_inv period n slots rs p HI slots_ok) as (us & HI' & _ & Ht).
  revert HI'. generalize (foldl evict_used p slots) as q. intros q HQ. cbv zeta.
  assert (Hq : Inv period n (rs ++ us) (if num_evicted_ q + 3 >? kBufferLength then FlushEvicted q else q)).
  { destruct (_ >? _); [by apply FlushEvicted_inv|done]. }
  revert Hq. generalize (if num_evicted_ q + 3 >? kBufferLength then FlushEvicted q else q) as r. intros r Hr.
  exists (rs ++ us). assert (He : enabled (FlushEvicted (with_evict (evict_ r ++ [0; 1; 0]) r)) = true) by apply Hr.
  unfold Reset. rewrite He. split; [|split; [done|split; [apply Hr|]]].
  - cbn. rewrite !app_assoc, (inv_words _ _ _ _ Hr). by rewrite <- !app_assoc.
  - intros t. rewrite tally_app, (Ht t). done.
Qed.

(** ** The profile of a run *)
Inductive op := OAdd (d : Z) (l : list Z) | OFlush.
Definition op_ok (o : op) : Prop := match o with OAdd d l => 0 < d <= Z.of_nat (length l) | OFlush => True end.
Definition do_op (o : op) (p : ProfileData) : outcome ProfileData :=
  match o with OAdd d l => Add d l p | OFlush => Ret (FlushTable p) end.
Fixpoint run (os : list op) (p : ProfileData) : outcome ProfileData :=
  match os with [] => Ret p | o :: os => p ← do_op o p; run os p end.
(** How often the trace was added. *)
Definition is_add (t : list Z) (o : op) : Z :=
  match o with OAdd d l => if decide (cut d l = t) then 1 else 0 | OFlush => 0 end.
Definition added (t : list Z) (os : list op) : Z := sumZ (is_add t <$> os).

Lemma run_inv period os n rs p :
  Inv period n rs p -> Forall op_ok os -> 0 <= n -> n + Z.of_nat (length os) < 2 ^ 64 ->
  exists p' rs', run os p = Ret p' /\ Inv period (n + Z.of_nat (length os)) rs' p' /\
    forall t, tally t rs' + in_table t p' = tally t rs + in_table t p + added t os.
Proof.
  intros HI Hos. revert n rs p HI. induction Hos as [|o os Ho _ IH]; intros n rs p HI Hn0 Hn.
  - exists p, rs. split; [done|]. split; [apply (inv_le _ n); [simpl; lia|done]|].
    intros t. change (added t []) with 0. lia.
  - assert (Hs : exists p1 rs1, do_op o p = Ret p1 /\ Inv period (n + 1) rs1 p1 /\
      forall t, tally t rs1 + in_table t p1 = tally t rs + in_table t p + is_add t o).
    { destruct o as [d l|]; cbn [do_op is_add].
      - apply Add_inv; [done|done|cbn [length] in Hn; lia|done].
      - destruct (FlushTable_inv period n rs p HI) as (rs1 & HI1 & H1). exists (FlushTable p), rs1.
        split; [done|]. split; [apply (inv_le _ n); [lia|done]|]. intros t. rewrite H1. lia. }
    destruct Hs as (p1 & rs1 & Hp1 & HI1 & H1).
    destruct (IH (n + 1) rs1 p1 HI1) as (p2 & rs2 & Hp2 & HI2 & H2); [lia|cbn [length] in Hn; lia|].
    exists p2, rs2. cbn [run]. rewrite Hp1. split; [done|]. split; [apply (inv_le _ (n + 1 + Z.of_nat (length os))); [cbn [length]; lia|done]|].
    intros t. rewrite H2, H1. unfold added. csimpl. lia.
Qed.

Lemma bucket_empty p b : hash_ p = ∅ -> bucket p b = replicate 4 entry0.
Proof. intros H. unfold bucket. by rewrite H, lookup_empty. Qed.
Lemma entry_at_empty p s : hash_ p = ∅ -> entry_at p s = entry0.
Proof.
  intros H. unfold entry_at. rewrite bucket_empty by done.
  destruct (replicate 4 entry0 !! Z.to_nat s.2) as [e|] eqn:E; [|done]. by apply lookup_replicate in E as [-> _].
Qed.
Lemma Start_inv fd frequency now p :
  enabled p = false -> 0 <= fd -> frequency <> 0 ->
  exists p', Start fd frequency now p = Ret (true, p') /\ Inv (u64 (s32 (Z.quot 1000000 frequency))) 0 [] p' /\
    forall t, in_table t p' = 0.
Proof.
  intros He Hfd Hfr. unfold Start. rewrite He, (proj2 (Z.ltb_ge fd 0)) by lia.
  rewrite (proj2 (Z.eqb_neq frequency 0)) by done. cbn [negb check mbind].
  eexists. split; [reflexivity|]. split; [split|].
  - unfold enabled. simpl. lia.
  - reflexivity.
  - unfold num_evicted_. simpl. done.
  - intros b. by rewrite bucket_empty.
  - intros s _. rewrite entry_at_empty by done. unfold entry_ok, kMaxStackDepth. simpl. lia.
  - constructor.
  - intros t. unfold in_table. generalize slots as l. induction l as [|s l IH]; [done|]. csimpl.
    rewrite IH, entry_at_empty by done. by rewrite weight_zero.
Qed.
End PDSpec.

Import PDSpec.
(** C21: a CPU profile has every sample. After [Start], any sequence of [Add] and
    [FlushTable] calls and [Stop], the file decodes as a header with the period,
    records with positive counts and the trailer, and for every trace the counts
    of its records add up to the number of times it was added (traces are cut to
    254 frames), whatever was displaced from the table, and the buffer never overflows. *)
Theorem profile_roundtrip (fd frequency now : Z) (p : ProfileData) (os : list op) :
  PD.enabled p = false -> 0 <= fd -> frequency <> 0 -> Forall op_ok os -> Z.of_nat (length os) < 2 ^ 64 ->
  exists p1 p2 rs,
    PD.Start fd frequency now p = Ret (true, p1) /\ run os p1 = Ret p2 /\
    PD.num_evicted_ p2 <= kBufferLength /\ PD.enabled (PD.Stop p2) = false /\
    decode (file (PD.Stop p2)) = Some (u64 (s32 (Z.quot 1000000 frequency)), rs, []) /\
    Forall (fun r : record => 0 < r.1) rs /\ forall t, tally t rs = added t os.
Proof.
  intros He Hfd Hfr Hos Hn. destruct (Start_inv fd frequency now p He Hfd Hfr) as (p1 & Hp1 & HI1 & Ht1).
  destruct (run_inv _ os 0 [] p1 HI1 Hos) as (p2 & rs & Hp2 & HI2 & Ht2); [lia|lia|].
  destruct (Stop_file _ _ rs p2 HI2) as (us & Hf & Hd & Hpos & Htu).
  exists p1, p2, us. split; [done|]. split; [done|]. split; [apply HI2|]. split; [exact Hd|].
  split; [rewrite Hf; by apply decode_file|]. split; [done|].
  intros t. rewrite Htu, Ht2, Ht1. change (tally t []) with 0. lia.
Qed.

Lemma profile_roundtrip_witness :
  exists p1 p2 rs,
    PD.Start 3 100 7 PD.init = Ret (true, p1) /\ run [OAdd 2 [10; 20]; OFlush; OAdd 2 [10; 20]; OAdd 1 [5; 6]] p1 = Ret p2 /\
    decode (file (PD.Stop p2)) = Some (10000, rs, []) /\ tally [10; 20] rs = 2 /\ tally [5] rs = 1.
Proof.
  destruct (profile_roundtrip 3 100 7 PD.init [OAdd 2 [10; 20]; OFlush; OAdd 2 [10; 20]; OAdd 1 [5; 6]])
    as (p1 & p2 & rs & H1 & H2 & _ & _ & H3 & _ & H4); [done|lia|lia| |done|].
  - repeat constructor; simpl; lia.
  - exists p1, p2, rs. split; [exact H1|]. split; [exact H2|]. split; [exact H3|].
    split; rewrite H4; reflexivity.
Defined.
