(* ===== verification/HookList.v ===== *)
(** * Lists of allocation hooks

    Models src/src/src/malloc_hook-inl.h and malloc_hook.cc: the array of
    eight hook slots with its end index, its operations, and the calls that
    run the hooks. Hooks are addresses, the null one is 0. [HL] has the
    operations as they run under the lock, [HLC] the traversal without it,
    interleaved with the single stores of the operations. *)
From S2P Require Import Prelude.

Definition kHookListCapacity : nat := 8.
Definition kHookListMaxValues : nat := 7.
Definition kHookListSingularIdx : nat := 7.

Record HookList := mkHooks { priv_end : nat; priv_data : list Z }.

Module HL.
(** The zero-initialised list. *)
Definition init : HookList := mkHooks 0 (replicate kHookListCapacity 0).
Definition data (l : list Z) (i : nat) : Z := default 0 (l !! i).
(** The first index of a range whose value stops the loop, or its length. *)
Fixpoint first (stop : Z -> bool) (l : list Z) : nat :=
  match l with [] => O | v :: l => if stop v then O else S (first stop l) end.

(** A store by the holder of the lock. *)
Inductive store := SData (i : nat) (v : Z) | SEnd (e : nat).
Definition apply_store (h : HookList) (s : store) : HookList :=
  match s with
  | SData i v => mkHooks (priv_end h) (<[i := v]> (priv_data h))
  | SEnd e => mkHooks e (priv_data h)
  end.

(** [FixupPrivEndLocked]: the value it stores. *)
Fixpoint fixup (l : list Z) (hooks_end : nat) : nat :=
  match hooks_end with
  | O => O
  | S e => if data l e =? 0 then fixup l e else hooks_end
  end.

(** The result of each operation and its stores, in their order. *)
Definition Add (value : Z) (h : HookList) : bool * list store :=
  if value =? 0 then (false, []) else
  let index := first (fun v => Z.eqb v 0) (take kHookListMaxValues (priv_data h)) in
  if bool_decide (index = kHookListMaxValues) then (false, []) else
  let prev_num_hooks := priv_end h in
  (true, SData index value :: if (prev_num_hooks <=? index)%nat then [SEnd (index + 1)] else []).
Definition Remove (value : Z) (h : HookList) : bool * list store :=
  if value =? 0 then (false, []) else
  let hooks_end := priv_end h in
  let index := first (fun v => v =? value) (take hooks_end (priv_data h)) in
  if bool_decide (index = hooks_end) then (false, []) else
  (true, [SData index 0; SEnd (fixup (<[index := 0]> (priv_data h)) hooks_end)]).
Definition ExchangeSingular (value : Z) (h : HookList) : Z * list store :=
  (data (priv_data h) kHookListSingularIdx,
   [SData kHookListSingularIdx value;
    SEnd (if negb (value =? 0) then (kHookListSingularIdx + 1)%nat
          else fixup (<[kHookListSingularIdx := value]> (priv_data h)) (priv_end h))]).
Definition run {A} (r : A * list store) (h : HookList) : A * HookList := (r.1, foldl apply_store h r.2).

Definition GetSingular (h : HookList) : Z := data (priv_data h) kHookListSingularIdx.
Definition empty (h : HookList) : bool := (priv_end h =? 0)%nat.
(** The loop of [Traverse] over the slots before the end. *)
Fixpoint traverse (l : list Z) (n : nat) : list Z :=
  match l, n with
  | v :: l, S m => if v =? 0 then traverse l n else v :: traverse l m
  | _, _ => []
  end.
Definition Traverse (n : nat) (h : HookList) : list Z := traverse (take (priv_end h) (priv_data h)) n.
(** The hooks that [InvokeNewHook] and [InvokeDeleteHook] call, in order;
    [emergency] is [IsEmergencyPtr] of the pointer. *)
Definition InvokeHookSlow (emergency : bool) (h : HookList) : list Z :=
  if emergency then [] else Traverse kHookListMaxValues h.
Definition InvokeHook (emergency : bool) (h : HookList) : list Z :=
  if negb (empty h) then InvokeHookSlow emergency h else [].

(** ** The contract of malloc_hook-inl.h *)
Notation used := (fun v : Z => v <> 0).
Definition hooks (h : HookList) : list Z := filter used (priv_data h).
Definition normal (h : HookList) : list Z := filter used (take kHookListMaxValues (priv_data h)).

Record Inv (h : HookList) : Prop := {
  inv_length : length (priv_data h) = kHookListCapacity;
  inv_end : (priv_end h <= kHookListCapacity)%nat;
  inv_cover : forall i, (priv_end h <= i)%nat -> data (priv_data h) i = 0;
  inv_tight : priv_end h <> O -> data (priv_data h) (priv_end h - 1) <> 0 }.

Lemma first_length stop l : (first stop l <= length l)%nat.
Proof. induction l as [|v l IH]; simpl; [lia|]. destruct (stop v); lia. Qed.
Lemma first_stop stop l : (first stop l < length l)%nat -> stop (data l (first stop l)) = true.
Proof. induction l as [|v l IH]; simpl; [lia|]. destruct (stop v) eqn:E; [done|]. intros. apply IH. lia. Qed.
Lemma first_before stop l i : (i < first stop l)%nat -> stop (data l i) = false.
Proof. revert i. induction l as [|v l IH]; intros i; simpl; [lia|]. destruct (stop v) eqn:E; [lia|].
  destruct i; [done|]. intros. apply IH. lia. Qed.
Lemma data_take l n i : (i < n)%nat -> data (take n l) i = data l i.
Proof. intros. unfold data. by rewrite lookup_take_lt. Qed.
Lemma data_insert l i v : (i < length l)%nat -> data (<[i := v]> l) i = v.
Proof. intros. unfold data. by rewrite list_lookup_insert_eq. Qed.
Lemma data_insert_ne l i j v : i <> j -> data (<[i := v]> l) j = data l j.
Proof. intros. unfold data. by rewrite list_lookup_insert_ne. Qed.

Lemma traverse_filter l n : traverse l n = take n (filter used l).
Proof.
  revert n. induction l as [|v l IH]; intros [|n]; simpl; [done|done|by rewrite take_0|].
  destruct (Z.eqb_spec v 0) as [->|Hv].
  - rewrite filter_cons_False by lia. apply IH.
  - rewrite filter_cons_True by done. simpl. by rewrite IH.
Qed.
Lemma filter_zeros l : (forall i, data l i = 0) -> filter used l = [].
Proof.
  induction l as [|v l IH]; intros H; [done|]. assert (v = 0) as -> by apply (H 0%nat).
  rewrite filter_cons_False by lia. apply IH. intros i. apply (H (S i)).
Qed.
Lemma filter_take l n : (forall i, (n <= i)%nat -> data l i = 0) -> filter used (take n l) = filter used l.
Proof.
  intros H. rewrite <- (take_drop n l) at 2. rewrite filter_app, (filter_zeros (drop n l)), app_nil_r; [done|].
  intros i. unfold data. rewrite lookup_drop. apply H. lia.
Qed.
Lemma Traverse_hooks n h : Inv h -> Traverse n h = take n (hooks h).
Proof. intros HI. unfold Traverse, hooks. rewrite traverse_filter, filter_take; [done|apply HI]. Qed.

Lemma empty_hooks h : Inv h -> empty h = bool_decide (hooks h = []).
Proof.
  intros HI. unfold empty. symmetry. destruct (Nat.eqb_spec (priv_end h) 0) as [He|He].
  - rewrite bool_decide_eq_true. apply filter_zeros. intros i. apply HI. lia.
  - apply bool_decide_eq_false. intros Hn. pose proof (inv_tight h HI He) as Ht.
    apply Ht. unfold data. destruct (priv_data h !! (priv_end h - 1)%nat) as [v|] eqn:E; [|done]. simpl.
    destruct (decide (v = 0)) as [?|Hv]; [done|]. apply list_elem_of_lookup_2 in E.
    assert (Hin : v ∈ hooks h) by (apply list_elem_of_filter; done). rewrite Hn in Hin. by apply elem_of_nil in Hin.
Qed.

(** The end index after [FixupPrivEndLocked]. *)
Lemma fixup_spec l e :
  (fixup l e <= e)%nat /\ (forall i, (fixup l e <= i < e)%nat -> data l i = 0) /\
  (fixup l e <> O -> data l (fixup l e - 1) <> 0).
Proof.
  induction e as [|e (IH1 & IH2 & IH3)]; cbn [fixup].
  - split; [lia|]. split; [lia|done].
  - destruct (Z.eqb_spec (data l e) 0) as [H|H].
    + split; [lia|]. split; [|done]. intros i Hi. destruct (decide (i = e)) as [->|]; [done|]. apply IH2. lia.
    + split; [lia|]. split; [lia|]. intros _. by replace (S e - 1)%nat with e by lia.
Qed.
Lemma fixup_inv l e : length l = kHookListCapacity -> (e <= kHookListCapacity)%nat ->
  (forall i, (e <= i)%nat -> data l i = 0) -> Inv (mkHooks (fixup l e) l).
Proof.
  intros Hl He Hc. destruct (fixup_spec l e) as (H1 & H2 & H3). split; simpl; [done|lia| |done].
  intros i Hi. destruct (decide (e <= i)%nat); [by apply Hc|]. apply H2. lia.
Qed.

(** Filling a null slot adds the hook, clearing a slot removes its hook. *)
Lemma filter_fill l i v : l !! i = Some 0 -> v <> 0 -> filter used (<[i := v]> l) ≡ₚ v :: filter used l.
Proof.
  revert i. induction l as [|w l IH]; intros [|i] Hi Hv; [done|done| |].
  - injection Hi as ->. simpl. rewrite filter_cons_True by done. by rewrite filter_cons_False by lia.
  - cbn [insert list_insert]. destruct (decide (w = 0)) as [->|Hw].
    + rewrite !filter_cons_False by lia. by apply IH.
    + rewrite !filter_cons_True by done. rewrite (IH i Hi Hv). apply Permutation_swap.
Qed.
(** Remove the first occurrence. *)
Fixpoint remove1 (v : Z) (l : list Z) : list Z :=
  match l with [] => [] | w :: l => if w =? v then l else w :: remove1 v l end.
Lemma filter_clear l v : v <> 0 -> (first (fun w => Z.eqb w v) l < length l)%nat ->
  filter used (<[first (fun w => Z.eqb w v) l := 0]> l) = remove1 v (filter used l).
Proof.
  intros Hv. induction l as [|w l IH]; cbn [first length]; [lia|]. destruct (Z.eqb_spec w v) as [->|Hw]; intros Hl.
  - cbn [insert list_insert]. rewrite filter_cons_False by lia. rewrite filter_cons_True by done. simpl.
    by rewrite Z.eqb_refl.
  - cbn [insert list_insert]. destruct (decide (w = 0)) as [->|Hw0].
    + rewrite !filter_cons_False by lia. apply IH. lia.
    + rewrite !filter_cons_True by done. simpl. rewrite (proj2 (Z.eqb_neq w v)) by done. f_equal. apply IH. lia.
Qed.
Lemma first_elem v l : v ∈ l <-> (first (fun w => Z.eqb w v) l < length l)%nat.
Proof.
  induction l as [|w l IH]; cbn [first length]; [rewrite elem_of_nil; lia|]. rewrite elem_of_cons.
  destruct (Z.eqb_spec w v) as [->|Hw]; [split; [lia|auto]|]. rewrite IH. split; [intros [?|?]; [done|lia]|intros; right; lia].
Qed.
Lemma first_take stop l n : (first stop (take n l) < length (take n l))%nat -> first stop (take n l) = first stop l.
Proof.
  revert n. induction l as [|w l IH]; intros [|n]; simpl; [done|done|lia|].
  destruct (stop w); [done|]. intros H. f_equal. apply IH. lia.
Qed.
Lemma length_take_end h : Inv h -> length (take (priv_end h) (priv_data h)) = priv_end h.
Proof. intros HI. rewrite length_take, (inv_length h HI). pose proof (inv_end h HI). lia. Qed.
Lemma hooks_take h : Inv h -> hooks h = filter used (take (priv_end h) (priv_data h)).
Proof. intros HI. unfold hooks. rewrite filter_take; [done|apply HI]. Qed.

Lemma first_zero l : (forall i, (i < length l)%nat -> data l i <> 0) -> first (fun v => Z.eqb v 0) l = length l.
Proof.
  intros H. destruct (decide (first (fun v => Z.eqb v 0) l < length l)%nat) as [Hl|Hl].
  - exfalso. apply (H _ Hl). apply Z.eqb_eq. by apply (first_stop (fun v => Z.eqb v 0)).
  - pose proof (first_length (fun v => Z.eqb v 0) l). lia.
Qed.
Lemma normal_full h : Inv h ->
  length (normal h) = kHookListMaxValues <->
  first (fun v => Z.eqb v 0) (take kHookListMaxValues (priv_data h)) = kHookListMaxValues.
Proof.
  intros HI. unfold normal. set (l := take kHookListMaxValues (priv_data h)).
  assert (Hl : length l = kHookListMaxValues) by (unfold l; rewrite length_take, (inv_length h HI); done).
  rewrite <- Hl. clearbody l. clear. induction l as [|w l IH]; [done|]. cbn [first length].
  destruct (Z.eqb_spec w 0) as [->|Hw].
  - rewrite filter_cons_False by lia. pose proof (length_filter used l). lia.
  - rewrite filter_cons_True by done. simpl. lia.
Qed.

Lemma Add_spec v h : Inv h ->
  let '(ok, h') := run (Add v h) h in
  ok = bool_decide (v <> 0 /\ length (normal h) <> kHookListMaxValues) /\ Inv h' /\
  if ok then hooks h' ≡ₚ v :: hooks h /\ GetSingular h' = GetSingular h else h' = h.
Proof.
  intros HI. unfold run, Add. destruct (Z.eqb_spec v 0) as [->|Hv].
  { cbn. rewrite bool_decide_eq_false_2 by tauto. done. }
  pose proof (normal_full h HI) as Hfull. revert Hfull.
  set (index := first _ _). intros Hfull. case_bool_decide as Hi.
  { cbn. rewrite bool_decide_eq_false_2 by tauto. done. }
  assert (Hlen := inv_length h HI). assert (Hle : (index <= 7)%nat).
  { pose proof (first_length (fun v => Z.eqb v 0) (take kHookListMaxValues (priv_data h))) as H.
    rewrite length_take, Hlen in H. exact H. }
  change kHookListMaxValues with 7%nat in *. assert (H7 : (index < 7)%nat) by lia.
  assert (H0 : data (priv_data h) index = 0).
  { rewrite <- (data_take _ 7) by done. apply Z.eqb_eq. apply (first_stop (fun v => Z.eqb v 0)).
    rewrite length_take, Hlen. fold index. change kHookListCapacity with 8%nat. lia. }
  assert (Hl0 : priv_data h !! index = Some 0).
  { unfold data in H0. destruct (priv_data h !! index) eqn:E; [simpl in H0; by subst|].
    apply lookup_ge_None in E. change kHookListCapacity with 8%nat in Hlen. lia. }
  assert (Hstep : foldl apply_store h (SData index v :: if (priv_end h <=? index)%nat then [SEnd (index + 1)] else []) =
    mkHooks (Nat.max (priv_end h) (index + 1)) (<[index := v]> (priv_data h))).
  { destruct (Nat.leb_spec (priv_end h) index); cbn; f_equal; lia. }
  cbn [fst snd]. rewrite Hstep. split; [rewrite bool_decide_eq_true_2 by tauto; done|]. split.
  - split; simpl.
    + by rewrite length_insert.
    + pose proof (inv_end h HI). change kHookListCapacity with 8%nat in *. lia.
    + intros i Hmax. rewrite data_insert_ne by lia. apply HI. lia.
    + intros _. destruct (decide (priv_end h <= index)%nat).
      * replace (Nat.max (priv_end h) (index + 1) - 1)%nat with index by lia.
        rewrite data_insert; [done|]. change kHookListCapacity with 8%nat in *. lia.
      * replace (Nat.max (priv_end h) (index + 1) - 1)%nat with (priv_end h - 1)%nat by lia.
        destruct (decide (index = (priv_end h - 1)%nat)) as [Heq|].
        -- rewrite Heq at 1. rewrite data_insert; [done|]. pose proof (inv_end h HI). lia.
        -- rewrite data_insert_ne by done. apply HI. lia.
  - split; [by apply filter_fill|]. unfold GetSingular. simpl. apply data_insert_ne. unfold kHookListSingularIdx. lia.
Qed.

Lemma Remove_spec v h : Inv h ->
  let '(ok, h') := run (Remove v h) h in
  ok = bool_decide (v ∈ hooks h) /\ Inv h' /\ hooks h' = remove1 v (hooks h).
Proof.
  intros HI. assert (Hnot : v ∉ hooks h -> remove1 v (hooks h) = hooks h).
  { generalize (hooks h). induction l as [|w l IH]; [done|]. simpl. intros Hin.
    rewrite (proj2 (Z.eqb_neq w v)) by set_solver. f_equal. apply IH. set_solver. }
  unfold run, Remove. destruct (Z.eqb_spec v 0) as [->|Hv].
  { assert (H0 : 0 ∉ hooks h) by (unfold hooks; rewrite list_elem_of_filter; tauto).
    cbn. rewrite bool_decide_eq_false_2, Hnot by done. done. }
  assert (Hin : v ∈ hooks h <-> (first (fun w => Z.eqb w v) (take (priv_end h) (priv_data h)) < priv_end h)%nat).
  { rewrite (hooks_take h HI), list_elem_of_filter, first_elem, (length_take_end h HI). tauto. }
  pose proof (first_length (fun w => Z.eqb w v) (take (priv_end h) (priv_data h))) as Hle.
  rewrite (length_take_end h HI) in Hle.
  assert (Hft : (first (fun w => Z.eqb w v) (take (priv_end h) (priv_data h)) < priv_end h)%nat ->
    first (fun w => Z.eqb w v) (take (priv_end h) (priv_data h)) = first (fun w => Z.eqb w v) (priv_data h)).
  { intros. apply first_take. by rewrite (length_take_end h HI). }
  case_bool_decide as Hi; cbn [fst snd foldl apply_store priv_data priv_end].
  - assert (v ∉ hooks h) by (rewrite Hin; lia). rewrite bool_decide_eq_false_2, Hnot by done. done.
  - rewrite bool_decide_eq_true_2 by (apply Hin; lia). split; [done|].
    assert (Hlt : (first (fun w => Z.eqb w v) (take (priv_end h) (priv_data h)) < priv_end h)%nat) by lia.
    rewrite (Hft Hlt) in Hlt |- *.
    pose proof (inv_end h HI). pose proof (inv_length h HI). split.
    + apply fixup_inv; [by rewrite length_insert|done|]. intros i Hi'. rewrite data_insert_ne by lia. by apply HI.
    + unfold hooks. simpl. apply filter_clear; [done|]. change kHookListCapacity with 8%nat in *. lia.
Qed.

Lemma ExchangeSingular_spec v h : Inv h ->
  let '(old, h') := run (ExchangeSingular v h) h in
  old = GetSingular h /\ Inv h' /\ GetSingular h' = v /\ normal h' = normal h /\
  hooks h' = normal h ++ filter used [v].
Proof.
  intros HI. unfold run, ExchangeSingular. cbn [fst snd foldl apply_store priv_data priv_end].
  change kHookListSingularIdx with 7%nat. pose proof (inv_length h HI) as Hl. change kHookListCapacity with 8%nat in Hl.
  assert (Hsplit : exists l, take 7 (priv_data h) = l /\ <[7%nat := v]> (priv_data h) = l ++ [v] /\ length l = 7%nat).
  { destruct h as [e [|a [|b [|c [|d [|x [|y [|z [|w [|]]]]]]]]]]; try done. by eexists. }
  destruct Hsplit as (l & Htl & Hins & Hll).
  split; [done|]. split; [|split; [|split]].
  - destruct (Z.eqb_spec v 0) as [->|Hv]; cbn [negb].
    + pose proof (inv_end h HI). apply fixup_inv; [by rewrite length_insert|done|]. intros i Hi.
      destruct (decide (i = 7%nat)) as [->|]; [by rewrite data_insert by lia|].
      rewrite data_insert_ne by done. by apply HI.
    + split; cbn [priv_end priv_data]; [by rewrite length_insert|done| |].
      * intros i Hi. unfold data. rewrite lookup_ge_None_2; [done|]. rewrite length_insert. lia.
      * intros _. simpl. by rewrite data_insert by lia.
  - unfold GetSingular. cbn [priv_data]. apply data_insert. change kHookListSingularIdx with 7%nat. lia.
  - unfold normal. cbn [priv_data]. rewrite Hins. change kHookListMaxValues with 7%nat. rewrite Htl.
    rewrite take_app_le, take_ge by lia. done.
  - unfold hooks, normal. cbn [priv_data]. rewrite Hins, filter_app. change kHookListMaxValues with 7%nat. by rewrite Htl.
Qed.

Lemma init_inv : Inv init.
Proof.
  split; [done|simpl; lia| |done]. intros i _. unfold data. simpl.
  destruct ((_ : list Z) !! i) as [v|] eqn:E; [|done]. apply list_elem_of_lookup_2 in E. simpl. set_solver.
Qed.
End HL.

(** ** Traversal without the lock

    Changes of the list are serialised by [hooklist_spinlock]: at most one
    thread has stores left to do, and their values were computed from a list
    that nobody else changes. The traversal loads the end index once and then
    one slot at a time, between any of these stores. *)
Module HLC.
Import HL.

Inductive reader :=
  | RStart (n : nat)
  | RLoop (hooks_end i n : nat) (out : list Z)
  | RDone (out : list Z).
Record State := mkState { mem : HookList; pending : list store; trav : reader }.

Inductive step : State -> State -> Prop :=
  | step_add h v r : step (mkState h [] r) (mkState h (Add v h).2 r)
  | step_remove h v r : step (mkState h [] r) (mkState h (Remove v h).2 r)
  | step_exchange h v r : step (mkState h [] r) (mkState h (ExchangeSingular v h).2 r)
  | step_store h s ss r : step (mkState h (s :: ss) r) (mkState (apply_store h s) ss r)
  | step_load_end h ss n : step (mkState h ss (RStart n)) (mkState h ss (RLoop (priv_end h) 0 n []))
  | step_load h ss e i n out : (i < e)%nat -> (0 < n)%nat ->
      step (mkState h ss (RLoop e i n out))
        (mkState h ss (if data (priv_data h) i =? 0 then RLoop e (S i) n out
                       else RLoop e (S i) (n - 1) (out ++ [data (priv_data h) i])))
  | step_return h ss e i n out : ~ ((i < e)%nat /\ (0 < n)%nat) ->
      step (mkState h ss (RLoop e i n out)) (mkState h ss (RDone out)).

(** A state that a list reaches from its initialisation, and a run from a
    state with the lists in memory on the way. *)
Inductive reachable : State -> Prop :=
  | reach_init n : reachable (mkState init [] (RStart n))
  | reach_step s s' : reachable s -> step s s' -> reachable s'.
Inductive exec (s0 : State) : list HookList -> State -> Prop :=
  | exec_nil : exec s0 [mem s0] s0
  | exec_snoc ms s s' : exec s0 ms s -> step s s' -> exec s0 (ms ++ [mem s']) s'.

(** The stores left to do restore the invariant, and the end index is
    stored last. *)
Definition shape (ss : list store) : Prop :=
  match ss with [] | [_] | [SData _ _; _] => True | _ => False end.
Definition writer_ok (h : HookList) (ss : list store) : Prop := Inv (foldl apply_store h ss) /\ shape ss.

Lemma step_writer s s' : step s s' -> writer_ok (mem s) (pending s) -> writer_ok (mem s') (pending s').
Proof.
  intros Hs [HI Hsh]. destruct Hs; cbn [mem pending] in *; try (by split).
  - split; [pose proof (Add_spec v h HI) as H; unfold run in H; apply H|].
    unfold Add. repeat case_match; done.
  - split; [pose proof (Remove_spec v h HI) as H; unfold run in H; apply H|].
    unfold Remove. repeat case_match; done.
  - split; [pose proof (ExchangeSingular_spec v h HI) as H; unfold run in H; apply H|done].
  - split; [exact HI|]. destruct s, ss as [|[] [|? ?]]; simpl in *; done.
Qed.
Lemma reachable_writer s : reachable s -> writer_ok (mem s) (pending s).
Proof. induction 1 as [n|s s' _ IH Hs]; [split; [apply init_inv|done]|]. by eapply step_writer. Qed.

Definition stable (j : nat) (v : Z) (ms : list HookList) : Prop := forall m, m ∈ ms -> data (priv_data m) j = v.
Definition seen (v : Z) (ms : list HookList) : Prop := exists m j, m ∈ ms /\ data (priv_data m) j = v.
Lemma stable_app j v ms m : stable j v (ms ++ [m]) -> stable j v ms /\ data (priv_data m) j = v.
Proof. unfold stable. intros H. split; [intros m' Hm|]; apply H; set_solver. Qed.
Lemma seen_app v ms m : seen v ms -> seen v (ms ++ [m]).
Proof. intros (m' & j & H & E). exists m', j. split; [set_solver|done]. Qed.

(** A hook before the end index stays there while its slot is not changed. *)
Lemma step_cover s s' j : step s s' -> writer_ok (mem s) (pending s) ->
  data (priv_data (mem s')) j <> 0 -> (j < priv_end (mem s))%nat -> (j < priv_end (mem s'))%nat.
Proof.
  intros Hs [HI Hsh]. destruct Hs as [| | |h s ss| | |]; cbn [mem pending] in *; try done.
  destruct s as [i v|e]; [done|]. destruct ss as [|? ?]; [|done]. cbn in HI |- *.
  intros Hd _. destruct (decide (j < e)%nat) as [|Hge]; [done|]. exfalso. apply Hd. apply (inv_cover _ HI). simpl. lia.
Qed.

(** What the traversal knows about the run so far. *)
Definition trav_ok (n : nat) (covered : nat -> Z -> Prop) (seen : Z -> Prop) (r : reader) : Prop :=
  match r with
  | RStart m => m = n
  | RLoop e i m out =>
      (length out + m = n)%nat /\ (forall v, v ∈ out -> v <> 0 /\ seen v) /\
      forall j v, covered j v -> (j < e)%nat /\ ((j < i)%nat -> v ∈ out)
  | RDone out =>
      (length out <= n)%nat /\ (forall v, v ∈ out -> v <> 0 /\ seen v) /\
      forall j v, covered j v -> v ∈ out \/ length out = n
  end.
Lemma trav_ok_mono n (c c' : nat -> Z -> Prop) (k k' : Z -> Prop) r :
  (forall j v, c' j v -> c j v) -> (forall v, k v -> k' v) -> trav_ok n c k r -> trav_ok n c' k' r.
Proof. intros Hc Hk. destruct r; simpl; [done| |]; intros (? & H1 & H2); split; [done| |done|]; split; naive_solver. Qed.

(** A reader's step, from facts about the memory it reads. *)
Lemma trav_ok_step n (c : nat -> Z -> Prop) (k : Z -> Prop) s s' :
  step s s' -> (forall j v, c j v -> v <> 0 /\ data (priv_data (mem s)) j = v /\ (j < priv_end (mem s))%nat) ->
  (forall j, k (data (priv_data (mem s)) j)) -> trav_ok n c k (trav s) -> trav_ok n c k (trav s').
Proof.
  intros Hs Hc Hk. destruct Hs as [| | | |h ss m|h ss e i m out Hi Hm|h ss e i m out Hd]; cbn [mem trav] in *; try done.
  - simpl. intros ->. split; [done|]. split; [intros v; rewrite elem_of_nil; done|].
    intros j v Hj. destruct (Hc j v Hj) as (_ & _ & ?). split; [done|lia].
  - simpl. intros (Hl & Ho & Hcov). destruct (Z.eqb_spec (data (priv_data h) i) 0) as [Hz|Hz]; simpl.
    + split; [done|]. split; [done|]. intros j v Hj. destruct (Hc j v Hj) as (Hv & Hd & _).
      destruct (Hcov j v Hj) as [He Hin]. split; [done|]. intros. apply Hin.
      destruct (decide (j = i)) as [->|]; [congruence|lia].
    + rewrite length_app. simpl. split; [lia|]. split.
      * intros v. rewrite elem_of_app, list_elem_of_singleton. intros [Hv | ->]; auto.
      * intros j v Hj. destruct (Hc j v Hj) as (_ & Hd & _). destruct (Hcov j v Hj) as [He Hin]. split; [done|].
        intros. rewrite elem_of_app, list_elem_of_singleton. destruct (decide (j = i)) as [->|]; [by right|].
        left. apply Hin. lia.
  - simpl. intros (Hl & Ho & Hcov). split; [lia|]. split; [done|]. intros j v Hj. destruct (Hcov j v Hj) as [He Hin].
    destruct (decide (0 < m)%nat); [left; apply Hin|right]; lia.
Qed.

Lemma exec_inv n s0 ms s : reachable s0 -> trav s0 = RStart n -> exec s0 ms s ->
  writer_ok (mem s) (pending s) /\ mem s ∈ ms /\
  (forall j v, stable j v ms -> v <> 0 -> (j < priv_end (mem s0))%nat -> (j < priv_end (mem s))%nat) /\
  trav_ok n (fun j v => stable j v ms /\ v <> 0 /\ (j < priv_end (mem s0))%nat) (fun v => seen v ms) (trav s).
Proof.
  intros Hr Ht He. induction He as [|ms s s' He (Hw & Hm & Hc & Hok) Hs].
  - split; [by apply reachable_writer|]. split; [set_solver|]. split; [done|]. by rewrite Ht.
  - split; [by eapply step_writer|]. split; [set_solver|]. split.
    + intros j v Hst Hv Hj. apply stable_app in Hst as [Hst Hd]. eapply step_cover; [done|done|congruence|by eapply Hc].
    + apply (trav_ok_step _ _ _ s); [done| | |].
      * intros j v (Hst & Hv & Hj). apply stable_app in Hst as [Hst _]. split; [done|]. split; [by apply Hst|by eapply Hc].
      * intros j. exists (mem s), j. split; [set_solver|done].
      * eapply trav_ok_mono; [| |exact Hok]; simpl.
        -- intros j v (Hst & Hv). by apply stable_app in Hst as [Hst _].
        -- intros v. apply seen_app.
Qed.
End HLC.

Import HL.
(** Every list that calls make. *)
Inductive built : HookList -> Prop :=
  | built_init : built init
  | built_add v h : built h -> built (run (Add v h) h).2
  | built_remove v h : built h -> built (run (Remove v h) h).2
  | built_exchange v h : built h -> built (run (ExchangeSingular v h) h).2.
Lemma built_inv h : built h -> Inv h.
Proof.
  induction 1 as [|v h _ IH|v h _ IH|v h _ IH]; [apply init_inv| | |].
  - apply (Add_spec v h IH).
  - apply (Remove_spec v h IH).
  - apply (ExchangeSingular_spec v h IH).
Qed.

(** The hook list keeps its contract. In every list that calls of [Add],
    [Remove] and [ExchangeSingular] make: [Add] fails exactly for a null hook or
    with seven hooks installed, and adds one occurrence; [Remove] takes out the
    first occurrence and fails exactly when there is none; [ExchangeSingular]
    returns and replaces the singular hook; [empty] holds of no hook at all, and
    [Traverse] returns the first [n] hooks in the order of their slots. *)
Theorem hook_list_refines (h : HookList) (v : Z) (n : nat) : built h ->
  (let '(ok, h') := run (Add v h) h in
    ok = bool_decide (v <> 0 /\ length (normal h) <> kHookListMaxValues) /\
    if ok then hooks h' ≡ₚ v :: hooks h /\ GetSingular h' = GetSingular h else h' = h) /\
  (let '(ok, h') := run (Remove v h) h in ok = bool_decide (v ∈ hooks h) /\ hooks h' = remove1 v (hooks h)) /\
  (let '(old, h') := run (ExchangeSingular v h) h in
    old = GetSingular h /\ GetSingular h' = v /\ hooks h' = normal h ++ filter (fun w => w <> 0) [v]) /\
  empty h = bool_decide (hooks h = []) /\ Traverse n h = take n (hooks h).
Proof.
  intros HI%built_inv. split; [|split; [|split; [|split]]].
  - pose proof (Add_spec v h HI) as H. destruct (run (Add v h) h) as [ok h']. by destruct H as (? & _ & ?).
  - pose proof (Remove_spec v h HI) as H. destruct (run (Remove v h) h) as [ok h']. by destruct H as (? & _ & ?).
  - pose proof (ExchangeSingular_spec v h HI) as H. destruct (run (ExchangeSingular v h) h) as [old h'].
    by destruct H as (? & _ & ? & _ & ?).
  - by apply empty_hooks.
  - by apply Traverse_hooks.
Qed.

Lemma hook_list_refines_witness :
  hooks (run (Add 7 init) init).2 = [7] /\ Traverse 1 (run (Add 7 init) init).2 = [7].
Proof.
  destruct (hook_list_refines (run (Add 7 init) init).2 7 1 (built_add 7 init built_init)) as (_ & _ & _ & _ & H).
  split; [reflexivity|]. rewrite H. reflexivity.
Defined.

(** With seven hooks installed, the singular one is never called. *)
Theorem singular_hook_skipped h : built h -> length (normal h) = kHookListMaxValues ->
  InvokeHook false h = normal h.
Proof.
  intros HI%built_inv Hn. unfold InvokeHook, InvokeHookSlow. rewrite empty_hooks, Traverse_hooks by done.
  assert (Hh : exists k, hooks h = normal h ++ k).
  { exists (filter used (drop kHookListMaxValues (priv_data h))). unfold hooks, normal.
    rewrite <- (take_drop kHookListMaxValues (priv_data h)) at 1. apply filter_app. }
  destruct Hh as [k Hk]. rewrite Hk. rewrite take_app_le, take_ge by lia.
  rewrite bool_decide_eq_false_2; [done|]. intros [H _]%app_eq_nil. by rewrite H in Hn.
Qed.

Import HLC.
(** C23: the lock-free traversal is sound and complete under concurrent changes.
    Interleaved with the stores of any [Add], [Remove] and [ExchangeSingular]
    calls, a traversal for [n] hooks returns at most [n], each of them a hook that
    was in the list during the traversal; a hook installed before the traversal
    and left in its slot until it ends is among them, unless [n] were found. *)
Theorem traverse_concurrent (s0 s : State) (ms : list HookList) (n : nat) (out : list Z) :
  reachable s0 -> trav s0 = RStart n -> exec s0 ms s -> trav s = RDone out ->
  (length out <= n)%nat /\ (forall v, v ∈ out -> v <> 0 /\ seen v ms) /\
  forall j v, v <> 0 -> (j < priv_end (mem s0))%nat -> stable j v ms -> v ∈ out \/ length out = n.
Proof.
  intros Hr Ht He Hd. destruct (exec_inv n s0 ms s Hr Ht He) as (_ & _ & _ & Hok). rewrite Hd in Hok.
  destruct Hok as (Hl & Ho & Hc). split; [done|]. split; [done|]. intros j v Hv Hj Hst. by apply (Hc j).
Qed.

(** The hook 5 is removed while the traversal runs, 6 stays. *)
Definition race0 : State := mkState (mkHooks 2 [5; 6; 0; 0; 0; 0; 0; 0]) [] (RStart 7).
Lemma race0_reachable : reachable race0.
Proof.
  assert (Hadd : forall h v r, reachable (mkState h [] r) -> reachable (mkState (foldl apply_store h (Add v h).2) [] r)).
  { intros h v r H. pose proof (reach_step _ _ H (step_add h v r)) as H1. revert H1. clear H.
    generalize (Add v h).2 as ss. intros ss. revert h. induction ss as [|s ss IH]; intros h H; [done|].
    apply IH. eapply reach_step; [exact H|apply step_store]. }
  apply (Hadd (mkHooks 1 [5; 0; 0; 0; 0; 0; 0; 0]) 6). apply (Hadd init 5). apply reach_init.
Qed.
Lemma traverse_concurrent_witness : exists ms s, exec race0 ms s /\ trav s = RDone [6].
Proof.
  assert (He : exists ms s out, exec race0 ms s /\ trav s = RDone out /\ out = [6] /\ stable 1 6 ms).
  { pose proof (exec_snoc _ _ _ _ (exec_nil race0) (step_remove _ 5 _)) as H1. vm_compute in H1.
    pose proof (exec_snoc _ _ _ _ H1 (step_load_end _ _ _)) as H2. vm_compute in H2.
    pose proof (exec_snoc _ _ _ _ H2 (step_store _ _ _ _)) as H3. vm_compute in H3.
    pose proof (exec_snoc _ _ _ _ H3 (step_load _ _ 2 0 7 [] ltac:(lia) ltac:(lia))) as H4. vm_compute in H4.
    pose proof (exec_snoc _ _ _ _ H4 (step_load _ _ 2 1 7 [] ltac:(lia) ltac:(lia))) as H5. vm_compute in H5.
    pose proof (exec_snoc _ _ _ _ H5 (step_return _ _ 2 2 6 [6] ltac:(lia))) as H6.
    eexists _, _, [6]. split; [exact H6|]. split; [reflexivity|]. split; [reflexivity|].
    intros m Hm. vm_compute in Hm. repeat (apply elem_of_cons in Hm as [-> | Hm]; [reflexivity|]). by apply elem_of_nil in Hm. }
  destruct He as (ms & s & out & He & Hd & -> & Hst).
  destruct (traverse_concurrent race0 s ms 7 [6] race0_reachable eq_refl He Hd) as (_ & _ & H).
  destruct (H 1%nat 6 ltac:(lia) ltac:(simpl; lia) Hst); exists ms, s; done.
Defined.
