(* ===== verification/StackTraceTable.v ===== *)
(** * Dumps of stack traces

    Models src/src/src/stack_trace_table.h and stack_trace_table.cc, the list
    of growth stacks of static_vars.h with its reader in tcmalloc.cc, and the
    loops of malloc_extension.cc that read a dump. A dump is the array of
    words it is; traces live in a map from addresses to their fields. *)
From S2P Require Import Prelude.

Definition kMaxStackDepth : Z := 31.
(** [StackTrace]; [stack] has [kMaxStackDepth] words. *)
Record StackTrace := mkTrace { size : Z; depth : Z; stack : list Z }.

(** ** Producing a dump *)
Section Dump.
(** [next_fn] reads the trace of a position and moves to the next one. *)
Context (next_fn : Z -> outcome (StackTrace * Z)).

Fixpoint count_words (fuel : nat) (entry depth_total bucket_total : Z) : outcome (Z * Z) :=
  if entry =? 0 then Ret (depth_total, bucket_total) else
  match fuel with
  | O => Fault OutOfFuel
  | S fuel =>
      '(trace, entry) ← next_fn entry;
      count_words fuel entry (s32 (depth_total + depth trace)) (s32 (bucket_total + 1))
  end.

(** The array being filled, up to index [idx]. *)
Definition put (out_len : Z) (w : Z) (out : list Z) : outcome (list Z) :=
  if Z.of_nat (length out) <? out_len then Ret (out ++ [w]) else Fault Undefined.
Fixpoint put_all (out_len : Z) (ws : list Z) (out : list Z) : outcome (list Z) :=
  match ws with [] => Ret out | w :: ws => out ← put out_len w out; put_all out_len ws out end.
Definition put_trace (out_len : Z) (trace : StackTrace) (out : list Z) : outcome (list Z) :=
  out ← put out_len 1 out;
  out ← put out_len (size trace) out;
  out ← put out_len (depth trace) out;
  if Z.of_nat (length (stack trace)) <? depth trace then Fault Undefined
  else put_all out_len (take (Z.to_nat (depth trace)) (stack trace)) out.
Fixpoint fill (fuel : nat) (out_len entry : Z) (out : list Z) : outcome (list Z) :=
  if entry =? 0 then Ret out else
  match fuel with
  | O => Fault OutOfFuel
  | S fuel => '(trace, entry) ← next_fn entry; out ← put_trace out_len trace out; fill fuel out_len entry out
  end.
Definition ProduceStackTracesDump (fuel : nat) (head : Z) : outcome (list Z) :=
  '(depth_total, bucket_total) ← count_words fuel head 0 0;
  let out_len := s32 (bucket_total * 3 + depth_total + 1) in
  out ← fill fuel out_len head [];
  out ← put out_len 0 out;
  _ ← check (Z.of_nat (length out) =? out_len);
  Ret out.

(** The traces from a position on. *)
Fixpoint chain (head : Z) (ts : list StackTrace) : Prop :=
  match ts with
  | [] => head = 0
  | t :: ts => head <> 0 /\ exists e, next_fn head = Ret (t, e) /\ chain e ts
  end.
Definition trace_ok (t : StackTrace) : Prop :=
  0 <= depth t <= kMaxStackDepth /\ depth t <= Z.of_nat (length (stack t)).
Definition pcs (t : StackTrace) : list Z := take (Z.to_nat (depth t)) (stack t).
Definition enc1 (t : StackTrace) : list Z := 1 :: size t :: depth t :: pcs t.
Definition enc (ts : list StackTrace) : list Z := ts ≫= enc1.

Lemma length_enc1 t : trace_ok t -> Z.of_nat (length (enc1 t)) = 3 + depth t.
Proof. intros [? ?]. unfold enc1, pcs. simpl. rewrite length_take. lia. Qed.
Lemma enc_cons t ts : enc (t :: ts) = enc1 t ++ enc ts.
Proof. done. Qed.

Lemma length_enc_traces ts : (length ts <= length (enc ts))%nat.
Proof. induction ts as [|t ts IH]; [done|]. rewrite enc_cons, length_app. unfold enc1. simpl. lia. Qed.
Lemma count_words_spec ts fuel head d b :
  chain head ts -> Forall trace_ok ts -> (length ts <= fuel)%nat -> 0 <= d -> 0 <= b ->
  d + 3 * b + Z.of_nat (length (enc ts)) < 2 ^ 31 ->
  exists d' b', count_words fuel head d b = Ret (d', b') /\ 0 <= d' /\ 0 <= b' /\
    b' * 3 + d' = d + 3 * b + Z.of_nat (length (enc ts)).
Proof.
  intros Hc Ho. revert head d b fuel Hc. induction Ho as [|t ts Ht _ IH]; intros head d b fuel Hc Hf Hd Hb Hl.
  - simpl in Hc. subst head. exists d, b. destruct fuel; simpl; split; try done; simpl; lia.
  - destruct Hc as (Hh & e & Hn & Hc). destruct fuel as [|fuel]; [simpl in Hf; lia|].
    rewrite enc_cons, length_app, Nat2Z.inj_add, (length_enc1 t Ht) in Hl |- *.
    destruct Ht as [Ht1 Ht2]. change kMaxStackDepth with 31 in Ht1.
    cbn [count_words]. rewrite (proj2 (Z.eqb_neq head 0)) by done. rewrite Hn. obind.
    rewrite !s32_small by lia.
    destruct (IH e (d + depth t) (b + 1) fuel Hc ltac:(simpl in Hf; lia)) as (d' & b' & H & ? & ? & Heq); [lia|lia|lia|].
    exists d', b'. split; [done|]. lia.
Qed.

Lemma put_ok n w out : Z.of_nat (length out) + 1 <= n -> put n w out = Ret (out ++ [w]).
Proof. intros. unfold put. by rewrite (proj2 (Z.ltb_lt _ _)) by lia. Qed.
Lemma put_all_ok n ws out : Z.of_nat (length out + length ws) <= n -> put_all n ws out = Ret (out ++ ws).
Proof.
  revert out. induction ws as [|w ws IH]; intros out H; [by rewrite app_nil_r|]. cbn [put_all length] in *.
  rewrite put_ok by lia. obind. rewrite IH, <- app_assoc; [done|]. rewrite length_app. simpl. lia.
Qed.
Lemma put_trace_ok n t out : trace_ok t -> Z.of_nat (length out + length (enc1 t)) <= n ->
  put_trace n t out = Ret (out ++ enc1 t).
Proof.
  intros Ht Hn. rewrite Nat2Z.inj_add, (length_enc1 t Ht) in Hn. destruct Ht as [Ht1 Ht2].
  unfold put_trace. rewrite put_ok by lia. obind. rewrite put_ok by (rewrite length_app; simpl; lia). obind.
  rewrite put_ok by (rewrite !length_app; simpl; lia). obind. rewrite (proj2 (Z.ltb_ge _ _)) by lia.
  rewrite put_all_ok; [by rewrite <- !app_assoc|]. rewrite !length_app, length_take. simpl. lia.
Qed.
Lemma fill_spec ts fuel n head out :
  chain head ts -> Forall trace_ok ts -> (length ts <= fuel)%nat -> Z.of_nat (length out + length (enc ts)) <= n ->
  fill fuel n head out = Ret (out ++ enc ts).
Proof.
  intros Hc Ho. revert head out fuel Hc. induction Ho as [|t ts Ht _ IH]; intros head out fuel Hc Hf Hn.
  - simpl in Hc. subst head. rewrite app_nil_r. by destruct fuel.
  - destruct Hc as (Hh & e & He & Hc). destruct fuel as [|fuel]; [simpl in Hf; lia|].
    rewrite enc_cons, length_app in Hn. cbn [fill]. rewrite (proj2 (Z.eqb_neq head 0)) by done. rewrite He. obind.
    rewrite put_trace_ok by (done || lia). obind. rewrite (IH e) by (rewrite ?length_app; simpl in *; done || lia).
    by rewrite enc_cons, app_assoc.
Qed.

Lemma ProduceStackTracesDump_spec ts fuel head :
  chain head ts -> Forall trace_ok ts -> (length ts <= fuel)%nat -> Z.of_nat (length (enc ts)) < 2 ^ 31 - 1 ->
  ProduceStackTracesDump fuel head = Ret (enc ts ++ [0]).
Proof.
  intros Hc Ho Hf Hn. unfold ProduceStackTracesDump.
  destruct (count_words_spec ts fuel head 0 0 Hc Ho Hf) as (d & b & H & ? & ? & Heq); [lia|lia|lia|].
  rewrite H. obind. rewrite s32_small by lia. rewrite (fill_spec ts) by (done || simpl; lia). obind.
  rewrite put_ok by (simpl; lia). obind. rewrite check_true; [done|].
  apply Z.eqb_eq. rewrite length_app. simpl. lia.
Qed.
End Dump.

(** ** Reading a dump

    The loops of [PrintHeader], [GetHeapSample] and [GetHeapGrowthStacks]:
    the entries as they are printed, and the totals of the header line. *)
Record Printed := mkPrinted { p_count : Z; p_size : Z; p_pcs : list Z }.
Fixpoint read_entries (fuel : nat) (entry : list Z) : option (list Printed) :=
  match fuel, entry with
  | S fuel, c :: rest =>
      if c =? 0 then Some []
      else match rest with
           | s :: d :: rest =>
               if Z.of_nat (length rest) <? d then None else
               ps ← read_entries fuel (drop (Z.to_nat d) rest);
               Some (mkPrinted c s (take (Z.to_nat d) rest) :: ps)
           | _ => None
           end
  | _, _ => None
  end.
Definition PrintHeader (ps : list Printed) : Z * Z :=
  foldl (fun '(c, s) p => (u64 (c + p_count p), u64 (s + p_size p))) (0, 0) ps.

Definition printed (t : StackTrace) : Printed := mkPrinted 1 (size t) (pcs t).
Lemma read_entries_spec ts fuel : Forall trace_ok ts -> (length ts < fuel)%nat ->
  read_entries fuel (enc ts ++ [0]) = Some (printed <$> ts).
Proof.
  intros Ho. revert fuel. induction Ho as [|t ts [Ht1 Ht2] _ IH]; intros [|fuel] Hf; simpl in Hf; try lia; [done|].
  rewrite enc_cons, <- app_assoc. unfold enc1, printed. cbn [app read_entries Z.eqb].
  assert (Hl : length (pcs t) = Z.to_nat (depth t)) by (unfold pcs; rewrite length_take; lia).
  rewrite (proj2 (Z.ltb_ge _ _)) by (rewrite length_app; lia).
  rewrite <- Hl, drop_app_length, take_app_length, IH by lia. done.
Qed.

(** ** The table of sampled traces *)
Module STT.
Record Entry := mkEntry { next : Z; trace : StackTrace }.
(** The entries the allocator has handed out, and the fields. *)
Record Table := mkTable { heap : gmap Z Entry; error_ : bool; head_ : Z }.
Definition init : Table := mkTable ∅ false 0.

(** [alloc] is what [allocator_.allocate(1)] returns. *)
Definition AddTrace (alloc : option Z) (t : StackTrace) (tb : Table) : Table :=
  if error_ tb then tb else
  match alloc with
  | None => mkTable (heap tb) true (head_ tb)
  | Some entry => mkTable (<[entry := mkEntry (head_ tb) t]> (heap tb)) (error_ tb) entry
  end.

Definition next_fn (tb : Table) (e : Z) : outcome (StackTrace * Z) :=
  h ← deref (heap tb !! e); Ret (trace h, next h).
Fixpoint free_all (fuel : nat) (entry : Z) (h : gmap Z Entry) : outcome (gmap Z Entry) :=
  if entry =? 0 then Ret h else
  match fuel with
  | O => Fault OutOfFuel
  | S fuel => e ← deref (h !! entry); free_all fuel (next e) (delete entry h)
  end.
Definition ReadStackTracesAndClear (tb : Table) : outcome (list Z * Table) :=
  let fuel := length (map_to_list (heap tb)) in
  out ← ProduceStackTracesDump (next_fn tb) fuel (head_ tb);
  h ← free_all fuel (head_ tb) (heap tb);
  Ret (out, mkTable h false 0).
End STT.

Module STTSpec.
Import STT.
(** The entries from [e] on hold the traces, and they are all there is. *)
Fixpoint list_at (h : gmap Z Entry) (e : Z) (ts : list StackTrace) : Prop :=
  match ts with
  | [] => e = 0 /\ h = ∅
  | t :: ts => e <> 0 /\ exists n, h !! e = Some (mkEntry n t) /\ list_at (delete e h) n ts
  end.
Lemma list_at_length h e ts : list_at h e ts -> length (map_to_list h) = length ts.
Proof.
  revert h e. induction ts as [|t ts IH]; intros h e; simpl.
  - intros [_ ->]. by rewrite map_to_list_empty.
  - intros (_ & n & He & Ht). rewrite <- (IH _ _ Ht). rewrite !length_map_to_list.
    rewrite <- (insert_delete_id h e (mkEntry n t)) at 1 by done. rewrite map_size_insert_None; [done|].
    apply lookup_delete_eq.
Qed.
Lemma list_at_chain h e ts h' b hd : list_at h e ts -> h ⊆ h' -> chain (next_fn (mkTable h' b hd)) e ts.
Proof.
  revert h e. induction ts as [|t ts IH]; intros h e; simpl; [tauto|].
  intros (He & n & Hn & Ht) Hsub. split; [done|]. exists n. unfold next_fn. simpl.
  rewrite (lookup_weaken _ _ _ _ Hn Hsub). split; [done|]. apply (IH (delete e h)); [done|].
  etrans; [apply delete_subseteq|done].
Qed.
Lemma free_all_spec h e ts fuel : list_at h e ts -> (length ts <= fuel)%nat -> free_all fuel e h = Ret ∅.
Proof.
  revert h e fuel. induction ts as [|t ts IH]; intros h e fuel; simpl.
  - intros [-> ->] _. by destruct fuel.
  - intros (He & n & Hn & Ht) Hf. destruct fuel as [|fuel]; [lia|]. cbn [free_all].
    rewrite (proj2 (Z.eqb_neq e 0)) by done. rewrite Hn. obind. apply IH; [done|lia].
Qed.
Lemma AddTrace_list_at h e ts a t : list_at h e ts -> h !! a = None -> a <> 0 ->
  list_at (<[a := mkEntry e t]> h) a (t :: ts).
Proof.
  intros Hl Ha H0. split; [done|]. exists e. split; [apply lookup_insert_eq|]. by rewrite delete_insert_id.
Qed.

(** Calls of [AddTrace] with what the allocator returned for each, the
    addresses being fresh. *)
Fixpoint fresh (adds : list (option Z * StackTrace)) (h : gmap Z Entry) : Prop :=
  match adds with
  | [] => True
  | (Some a, t) :: adds => a <> 0 /\ h !! a = None /\ forall n, fresh adds (<[a := mkEntry n t]> h)
  | (None, _) :: _ => True
  end.
Definition add_all (adds : list (option Z * StackTrace)) (tb : Table) : Table :=
  foldl (fun tb '(a, t) => AddTrace a t tb) tb adds.
(** The traces before the first failure. *)
Fixpoint kept (adds : list (option Z * StackTrace)) : list StackTrace :=
  match adds with (Some _, t) :: adds => t :: kept adds | _ => [] end.

Lemma add_all_error adds tb : error_ tb = true -> add_all adds tb = tb.
Proof.
  intros He. induction adds as [|[a t] adds IH]; [done|]. cbn [add_all foldl]. unfold AddTrace. rewrite He. exact IH.
Qed.
Lemma add_all_spec adds tb ts : error_ tb = false -> list_at (heap tb) (head_ tb) ts -> fresh adds (heap tb) ->
  list_at (heap (add_all adds tb)) (head_ (add_all adds tb)) (rev (kept adds) ++ ts).
Proof.
  revert tb ts. induction adds as [|[[a|] t] adds IH]; intros tb ts He Hl Hf; [done| |].
  - destruct Hf as (Ha & Hn & Hf). cbn [add_all foldl kept rev]. rewrite <- app_assoc. unfold AddTrace. rewrite He.
    apply IH; [done| |apply Hf]. by apply AddTrace_list_at.
  - cbn [add_all foldl kept rev app]. unfold AddTrace. rewrite He.
    change (list_at (heap (add_all adds (mkTable (heap tb) true (head_ tb))))
      (head_ (add_all adds (mkTable (heap tb) true (head_ tb)))) ts).
    by rewrite !add_all_error.
Qed.
Lemma kept_ok (P : StackTrace -> Prop) adds : Forall (fun a : option Z * StackTrace => P a.2) adds -> Forall P (kept adds).
Proof. induction 1 as [|[[a|] t] adds]; simpl in *; auto. Qed.
End STTSpec.

Import STT STTSpec.
(** C34: what is sampled is what a heap profile shows. After calls of
    [AddTrace], [ReadStackTracesAndClear] writes exactly the array it allocates,
    and the loops that print a profile read from it the traces that were added
    before the allocator first failed, the last one first, each with count 1, its
    size and its frames; every entry is freed and the table is empty again. The
    array has fewer than 2^31 words, which the code counts in an [int]. *)
Theorem stack_traces_roundtrip (adds : list (option Z * StackTrace)) :
  fresh adds ∅ -> Forall (fun a : option Z * StackTrace => trace_ok a.2) adds ->
  Z.of_nat (length (enc (rev (kept adds)))) < 2 ^ 31 - 1 ->
  exists out, ReadStackTracesAndClear (add_all adds init) = Ret (out, init) /\
    read_entries (length out) out = Some (printed <$> rev (kept adds)).
Proof.
  intros Hf Ho Hl. pose proof (add_all_spec adds init [] eq_refl (conj eq_refl eq_refl) Hf) as H.
  rewrite app_nil_r in H. destruct (add_all adds init) as [h b e]. cbn [heap head_] in H.
  assert (Hk : Forall trace_ok (rev (kept adds))) by (apply Forall_rev, kept_ok; done).
  revert H Hk Hl. generalize (rev (kept adds)) as ts. intros ts H Hk Hl.
  pose proof (length_enc_traces ts).
  exists (enc ts ++ [0]). split.
  - unfold ReadStackTracesAndClear. cbn [heap head_]. rewrite (list_at_length _ _ _ H).
    rewrite (ProduceStackTracesDump_spec _ ts); [|by eapply list_at_chain|done|done|done]. obind.
    by rewrite (free_all_spec h e ts).
  - apply read_entries_spec; [done|]. rewrite length_app. simpl. lia.
Qed.

Lemma stack_traces_roundtrip_witness : exists out,
  ReadStackTracesAndClear (add_all [(Some 64, mkTrace 100 1 [7]); (Some 32, mkTrace 50 2 [8; 9]); (None, mkTrace 1 0 [])] init)
    = Ret (out, init) /\
  read_entries (length out) out = Some [mkPrinted 1 50 [8; 9]; mkPrinted 1 100 [7]].
Proof.
  apply (stack_traces_roundtrip [(Some 64, mkTrace 100 1 [7]); (Some 32, mkTrace 50 2 [8; 9]); (None, mkTrace 1 0 [])]).
  - split; [lia|]. split; [reflexivity|]. intros n. split; [lia|]. split; [reflexivity|]. done.
  - repeat constructor; simpl; unfold kMaxStackDepth; lia.
  - reflexivity.
Defined.

(** ** The list of growth stacks

    [push_growth_stack] links a trace through the last word of its [stack]
    and publishes it with a compare-and-exchange; any number of threads push
    at the same time, and readers take no lock. A step is one access of the
    shared list head, of a link, or the creation of a trace by its thread. *)
Module Growth.
Inductive pc :=
  | Link (s old_top : Z)      (** before the store of the link *)
  | Swap (s old_top : Z).     (** before the compare-and-exchange *)
Record State := mkState { growth_stacks_ : Z; traces : gmap Z StackTrace; pushing : gmap Z pc }.

Definition set_link (t : StackTrace) (p : Z) : StackTrace :=
  mkTrace (size t) (depth t) (<[Z.to_nat (kMaxStackDepth - 1) := p]> (stack t)).
Definition link_of (t : StackTrace) : Z := default 0 (stack t !! Z.to_nat (kMaxStackDepth - 1)).
Definition pushed_ok (t : StackTrace) : Prop :=
  0 <= depth t <= kMaxStackDepth - 1 /\ Z.of_nat (length (stack t)) = kMaxStackDepth.

Inductive step : State -> State -> Prop :=
  (** A thread makes a trace and calls [push_growth_stack]. *)
  | step_call st i s t : pushing st !! i = None -> traces st !! s = None -> s <> 0 -> pushed_ok t ->
      step st (mkState (growth_stacks_ st) (<[s := t]> (traces st)) (<[i := Link s (growth_stacks_ st)]> (pushing st)))
  | step_link st i s old t : pushing st !! i = Some (Link s old) -> traces st !! s = Some t ->
      step st (mkState (growth_stacks_ st) (<[s := set_link t old]> (traces st)) (<[i := Swap s old]> (pushing st)))
  | step_swap st i s old : pushing st !! i = Some (Swap s old) -> growth_stacks_ st = old ->
      step st (mkState s (traces st) (delete i (pushing st)))
  | step_retry st i s old : pushing st !! i = Some (Swap s old) -> growth_stacks_ st <> old ->
      step st (mkState (growth_stacks_ st) (traces st) (<[i := Link s (growth_stacks_ st)]> (pushing st))).
Definition start : State := mkState 0 ∅ ∅.
Definition reachable (st : State) : Prop := rtc step start st.

(** The iteration of [ReadHeapGrowthStackTraces]. *)
Definition next_fn (m : gmap Z StackTrace) (p : Z) : outcome (StackTrace * Z) :=
  t ← deref (m !! p); Ret (t, link_of t).

Definition node (p : pc) : Z := match p with Link s _ | Swap s _ => s end.
(** The published traces, newest first. *)
Fixpoint listed (m : gmap Z StackTrace) (p : Z) (l : list Z) : Prop :=
  match l with
  | [] => p = 0
  | q :: l => p = q /\ q <> 0 /\ exists t, m !! q = Some t /\ pushed_ok t /\ listed m (link_of t) l
  end.

Record Inv (st : State) (l : list Z) : Prop := {
  inv_listed : listed (traces st) (growth_stacks_ st) l;
  inv_private : forall i p, pushing st !! i = Some p -> node p ∉ l /\ node p <> 0 /\
    exists t, traces st !! node p = Some t /\ pushed_ok t /\ match p with Swap _ old => link_of t = old | Link _ _ => True end;
  inv_distinct : forall i j p q, pushing st !! i = Some p -> pushing st !! j = Some q -> node p = node q -> i = j }.

Lemma listed_frame m m' p l : listed m p l -> (forall q, q ∈ l -> m' !! q = m !! q) -> listed m' p l.
Proof.
  revert p. induction l as [|q l IH]; intros p; simpl; [done|]. intros (-> & Hq & t & Ht & Ho & Hl) Hf.
  split; [done|]. split; [done|]. exists t. split; [rewrite Hf; [done|set_solver]|]. split; [done|].
  apply IH; [done|set_solver].
Qed.
Lemma listed_lookup m p l q : listed m p l -> q ∈ l -> is_Some (m !! q).
Proof.
  revert p. induction l as [|r l IH]; intros p Hl Hq; [by apply elem_of_nil in Hq|].
  destruct Hl as (_ & _ & t & Ht & _ & Hl). apply elem_of_cons in Hq as [-> | Hq]; [by eauto|]. by eapply IH.
Qed.
Lemma set_link_ok t p : pushed_ok t -> pushed_ok (set_link t p) /\ link_of (set_link t p) = p.
Proof.
  intros [Hd Hl]. unfold pushed_ok, link_of, set_link. simpl. change kMaxStackDepth with 31 in *.
  rewrite length_insert. split; [done|]. rewrite list_lookup_insert_eq; [done|]. simpl. lia.
Qed.

(** A step publishes at most one trace and does not touch published ones. *)
Lemma step_inv st st' l : Inv st l -> step st st' ->
  exists l', Inv st' (l' ++ l) /\ forall q, q ∈ l -> traces st' !! q = traces st !! q.
Proof.
  intros [Hl Hp Hd] Hs. destruct Hs as [st i s t Hi Hs H0 Ho|st i s old t Hi Ht|st i s old Hi Htop|st i s old Hi Htop].
  - assert (Hsl : s ∉ l). { intros Hin. destruct (listed_lookup _ _ _ _ Hl Hin). congruence. }
    assert (Hf : forall q, q <> s -> <[s := t]> (traces st) !! q = traces st !! q) by (intros; by rewrite lookup_insert_ne).
    assert (Hpn : forall j p, pushing st !! j = Some p -> node p <> s).
    { intros j p Hj Heq. destruct (Hp j p Hj) as (_ & _ & u & Hu & _). rewrite Heq in Hu. congruence. }
    exists []. split; [split|]; simpl.
    + apply (listed_frame (traces st)); [done|]. intros q Hq. apply Hf. set_solver.
    + intros j p Hj. apply lookup_insert_Some in Hj as [[-> <-]|[Hij Hj]]; simpl.
      * split; [done|]. split; [done|]. exists t. rewrite lookup_insert_eq. done.
      * destruct (Hp j p Hj) as (? & ? & u & Hu & ?). split; [done|]. split; [done|]. exists u.
        rewrite Hf; [done|]. by eapply Hpn.
    + intros j k p q Hj Hk. apply lookup_insert_Some in Hj as [[-> <-]|[Hij Hj]], Hk as [[-> <-]|[Hik Hk]]; simpl.
      * done.
      * intros E. exfalso. by eapply (Hpn k q).
      * intros E. exfalso. by eapply (Hpn j p).
      * by apply Hd.
    + intros q Hq. apply Hf. set_solver.
  - destruct (Hp i _ Hi) as (Hsl & H0 & u & Hu & Hok & _). simpl in *. assert (u = t) as -> by congruence.
    destruct (set_link_ok t old Hok) as [Hok' Hlk].
    assert (Hf : forall q, q <> s -> <[s := set_link t old]> (traces st) !! q = traces st !! q) by (intros; by rewrite lookup_insert_ne).
    exists []. split; [split|]; simpl.
    + apply (listed_frame (traces st)); [done|]. intros q Hq. apply Hf. set_solver.
    + intros j p Hj. apply lookup_insert_Some in Hj as [[-> <-]|[Hij Hj]]; simpl.
      * split; [done|]. split; [done|]. exists (set_link t old). by rewrite lookup_insert_eq.
      * destruct (Hp j p Hj) as (? & ? & v & Hv & ?). split; [done|]. split; [done|]. exists v.
        rewrite Hf; [done|]. intros E. apply Hij. by apply (Hd i j _ _ Hi Hj).
    + intros j k p q Hj Hk. apply lookup_insert_Some in Hj as [[-> <-]|[Hij Hj]], Hk as [[-> <-]|[Hik Hk]]; simpl.
      * done.
      * intros E. by apply (Hd j k _ _ Hi Hk).
      * intros E. symmetry. by apply (Hd k j _ _ Hi Hj).
      * by apply Hd.
    + intros q Hq. apply Hf. set_solver.
  - destruct (Hp i _ Hi) as (Hsl & H0 & t & Ht & Hok & Hlk). simpl in *. exists [s]. split; [split|]; simpl.
    + split; [done|]. split; [done|]. exists t. rewrite Hlk, <- Htop. done.
    + intros j p Hj. apply lookup_delete_Some in Hj as [Hij Hj]. destruct (Hp j p Hj) as (? & ? & ?).
      split; [|done]. intros [E|?]%elem_of_cons; [|done]. apply Hij. by apply (Hd i j _ _ Hi Hj).
    + intros j k p q Hj Hk. apply lookup_delete_Some in Hj as [_ Hj], Hk as [_ Hk]. by apply Hd.
    + done.
  - destruct (Hp i _ Hi) as (Hsl & H0 & t & Ht & Hok & _). simpl in *. exists []. split; [split|]; simpl.
    + done.
    + intros j p Hj. apply lookup_insert_Some in Hj as [[-> <-]|[Hij Hj]]; simpl; [by eauto 10|by apply (Hp j)].
    + intros j k p q Hj Hk. apply lookup_insert_Some in Hj as [[-> <-]|[Hij Hj]], Hk as [[-> <-]|[Hik Hk]]; simpl.
      * done.
      * intros E. by apply (Hd j k _ _ Hi Hk).
      * intros E. symmetry. by apply (Hd k j _ _ Hi Hj).
      * by apply Hd.
    + done.
Qed.

Lemma steps_inv st st' l : Inv st l -> rtc step st st' ->
  exists l', Inv st' (l' ++ l) /\ forall q, q ∈ l -> traces st' !! q = traces st !! q.
Proof.
  intros HI Hs. revert l HI. induction Hs as [st|st st1 st' Hs _ IH]; intros l HI; [by exists []|].
  destruct (step_inv _ _ _ HI Hs) as (l1 & HI1 & H1). destruct (IH _ HI1) as (l2 & HI2 & H2).
  exists (l2 ++ l1). rewrite <- app_assoc. split; [done|]. intros q Hq. rewrite H2 by set_solver. by apply H1.
Qed.
Lemma start_inv : Inv start [].
Proof. split; simpl; [done| |]; intros i p; [|intros ? ?]; by rewrite lookup_empty. Qed.
Lemma listed_chain m p l : listed m p l -> exists ts, chain (next_fn m) p ts /\ omap (m !!.) l = ts /\ Forall pushed_ok ts /\ length ts = length l.
Proof.
  revert p. induction l as [|q l IH]; intros p; [by exists []|].
  intros (-> & Hq & t & Ht & Ho & Hl). destruct (IH _ Hl) as (ts & Hc & Hm & Hts & Hn). exists (t :: ts).
  split; [|split; [csimpl; by rewrite Ht, Hm|split; [by constructor|simpl; lia]]].
  split; [done|]. exists (link_of t). unfold next_fn. by rewrite Ht.
Qed.
Lemma pushed_trace_ok ts : Forall pushed_ok ts -> Forall trace_ok ts.
Proof. intros H. eapply Forall_impl; [exact H|]. intros t [? ?]. unfold trace_ok, kMaxStackDepth in *. lia. Qed.
End Growth.

Import Growth.
(** Reading the growth stacks needs no lock. In every interleaving of
    pushes, the traces reachable from the head that a reader took form a list
    [l] that later pushes extend and never change; so at any later moment a dump
    from that head has exactly those traces and is readable. *)
Theorem growth_stacks_snapshot (st st' : Growth.State) :
  Growth.reachable st -> rtc Growth.step st st' ->
  exists l l', Growth.listed (traces st) (growth_stacks_ st) l /\
    Growth.listed (traces st') (growth_stacks_ st') (l' ++ l) /\
    (forall q, q ∈ l -> traces st' !! q = traces st !! q) /\
    (Z.of_nat (length (enc (omap (traces st !!.) l))) < 2 ^ 31 - 1 ->
     exists out, ProduceStackTracesDump (Growth.next_fn (traces st')) (length l) (growth_stacks_ st) = Ret out /\
       read_entries (length out) out = Some (printed <$> omap (traces st !!.) l)).
Proof.
  intros Hr Hs. destruct (steps_inv _ _ _ start_inv Hr) as (l & HI & _). rewrite app_nil_r in HI.
  destruct (steps_inv _ _ _ HI Hs) as (l' & HI' & Hf). exists l, l'.
  split; [apply HI|]. split; [apply HI'|]. split; [done|]. intros Hn.
  assert (Hl : listed (traces st') (growth_stacks_ st) l) by (apply (listed_frame (traces st)); [apply HI|done]).
  destruct (listed_chain _ _ _ Hl) as (ts & Hc & Hts & Ho & Hlen).
  assert (Heq : omap (traces st !!.) l = ts).
  { rewrite <- Hts. clear -Hf. induction l as [|q l IH]; [done|]. csimpl. rewrite (Hf q) by set_solver.
    rewrite IH; [done|]. intros r Hr. apply Hf. set_solver. }
  rewrite Heq in *. apply pushed_trace_ok in Ho.
  pose proof (length_enc_traces ts).
  exists (enc ts ++ [0]). split; [apply ProduceStackTracesDump_spec; [done|done|lia|done]|].
  apply read_entries_spec; [done|]. rewrite length_app. simpl. lia.
Qed.

(** Two threads push: the second one has to retry. *)
Definition trace31 (s : Z) : StackTrace := mkTrace s 1 (replicate 31 0).
Lemma growth_stacks_snapshot_witness : exists st st',
  Growth.reachable st /\ rtc Growth.step st st' /\ growth_stacks_ st = 64 /\ growth_stacks_ st' = 32 /\
  exists l l', Growth.listed (traces st) 64 l /\ Growth.listed (traces st') 32 (l' ++ l).
Proof.
  assert (Ho : forall s, pushed_ok (trace31 s)) by (intros; split; unfold kMaxStackDepth; simpl; lia).
  assert (H : exists st st', Growth.reachable st /\ rtc Growth.step st st' /\ growth_stacks_ st = 64 /\ growth_stacks_ st' = 32).
  { set (s1 := Growth.mkState 0 {[64 := trace31 8]} {[1 := Link 64 0]}).
    set (s2 := Growth.mkState 0 {[64 := trace31 8; 32 := trace31 9]} {[1 := Link 64 0; 2 := Link 32 0]}).
    set (s3 := Growth.mkState 0 {[64 := trace31 8; 32 := trace31 9]} {[1 := Swap 64 0; 2 := Link 32 0]}).
    set (s4 := Growth.mkState 0 {[64 := trace31 8; 32 := trace31 9]} {[1 := Swap 64 0; 2 := Swap 32 0]}).
    set (s5 := Growth.mkState 64 {[64 := trace31 8; 32 := trace31 9]} {[2 := Swap 32 0]}).
    set (s6 := Growth.mkState 64 {[64 := trace31 8; 32 := trace31 9]} {[2 := Link 32 64]}).
    set (s7 := Growth.mkState 64 {[64 := trace31 8; 32 := set_link (trace31 9) 64]} {[2 := Swap 32 64]}).
    set (s8 := Growth.mkState 32 {[64 := trace31 8; 32 := set_link (trace31 9) 64]} ∅).
    exists s5, s8. split; [|split; [|done]].
    - apply (rtc_l _ _ s1); [by apply (step_call start 1 64 (trace31 8))|].
      apply (rtc_l _ _ s2); [by apply (step_call s1 2 32 (trace31 9))|].
      apply (rtc_l _ _ s3); [by apply (step_link s2 1 64 0 (trace31 8))|].
      apply (rtc_l _ _ s4); [by apply (step_link s3 2 32 0 (trace31 9))|].
      apply (rtc_l _ _ s5); [by apply (step_swap s4 1 64 0)|]. apply rtc_refl.
    - apply (rtc_l _ _ s6); [by apply (step_retry s5 2 32 0)|].
      apply (rtc_l _ _ s7); [by apply (step_link s6 2 32 64 (trace31 9))|].
      apply (rtc_l _ _ s8); [by apply (step_swap s7 2 32 64)|]. apply rtc_refl. }
  destruct H as (st & st' & Hr & Hs & H1 & H2). destruct (growth_stacks_snapshot st st' Hr Hs) as (l & l' & Hl & Hl' & _).
  exists st, st'. split; [done|]. split; [done|]. split; [done|]. split; [done|]. exists l, l'.
  rewrite <- H1 at 1. rewrite <- H2. done.
Defined.
