(* ===== verification/SkipList.v ===== *)
(** * The skip list of the low-level allocator

    Models the first half of src/src/src/base/low_level_alloc.cc: the
    headers of blocks with the links of the free list in them, and the
    skip-list functions that keep the free list in address order. Memory is a
    map from the address of a header to its fields; a link that was never
    written, or one that does not fit into its block, must not be read. *)
From S2P Require Import Prelude.

Definition kMaxLevel : Z := 30.
(** [sizeof (AllocList::Header)] and the offset of [next]. *)
Definition kHeaderSize : Z := 32.
Definition kNextOffset : Z := 40.

Record AllocList := mkNode { size : Z; magic : Z; arena : Z; levels : Z; next : gmap Z Z }.
Notation memory := (gmap Z AllocList).

(** [IntLog2]: 64 halvings end at zero. *)
Fixpoint int_log2 (fuel : nat) (i base result : Z) : Z :=
  match fuel with
  | O => result
  | S fuel => if i >? base then int_log2 fuel (Z.shiftr i 1) base (result + 1) else result
  end.
Definition IntLog2 (size base : Z) : Z := int_log2 64 size base 0.

(** [Random]: the result and the new value of the static variable [r]. *)
Definition lcg (r : Z) : Z := u32 (r * 1103515245 + 12345).
Definition random_step (s : Z * Z) : outcome ((Z * Z) + (Z * Z)) :=
  let '(r, result) := s in
  let r := lcg r in
  if Z.land (Z.shiftr r 30) 1 =? 0 then Ret (inl (r, result + 1)) else Ret (inr (result, r)).
Definition Random (r : Z) : outcome (Z * Z) := wide_loop 31 random_step (r, 1).

Definition LLA_SkiplistLevels (size base : Z) (random : bool) (r : Z) : outcome (Z * Z) :=
  let max_fit := s32 (u64 (size - kNextOffset) / 8) in
  '(n, r) ← (if random then Random r else Ret (1, r));
  let level := s32 (IntLog2 size base + n) in
  let level := if level >? max_fit then max_fit else level in
  let level := if level >? kMaxLevel - 1 then kMaxLevel - 1 else level in
  _ ← check (level >=? 1);
  Ret (level, r).

(** ** Links

    The head of the list is a whole [AllocList]; a block has room for the
    links that fit into its size. *)
Definition room (head p : Z) (n : AllocList) : Z := if p =? head then kMaxLevel else Z.min kMaxLevel ((size n - kNextOffset) / 8).
Definition get_next (head : Z) (m : memory) (p i : Z) : outcome Z :=
  n ← deref (m !! p);
  if i <? room head p n then deref (next n !! i) else Fault Undefined.
Definition set_next (head : Z) (m : memory) (p i v : Z) : outcome memory :=
  n ← deref (m !! p);
  if i <? room head p n then Ret (<[p := mkNode (size n) (magic n) (arena n) (levels n) (<[i := v]> (next n))]> m)
  else Fault Undefined.
Definition set_levels (m : memory) (p l : Z) : outcome memory :=
  n ← deref (m !! p); Ret (<[p := mkNode (size n) (magic n) (arena n) l (next n)]> m).

(** The links of a new head, all null. *)
Definition zero_links : gmap Z Z := list_to_map ((fun i => (i, 0)) <$> seqZ 0 kMaxLevel).
Lemma zero_links_lookup i : 0 <= i < kMaxLevel -> zero_links !! i = Some 0.
Proof.
  intros Hi. apply elem_of_list_to_map.
  - rewrite <- list_fmap_compose. rewrite (list_fmap_ext _ id), list_fmap_id; [apply NoDup_seqZ|done].
  - apply list_elem_of_fmap. exists i. split; [done|]. apply elem_of_seqZ. lia.
Qed.

(** The inner loop of [LLA_SkiplistSearch]. *)
Fixpoint advance (fuel : nat) (head : Z) (m : memory) (e level p : Z) : outcome Z :=
  n ← get_next head m p level;
  if negb (n =? 0) && (n <? e) then
    match fuel with O => Fault OutOfFuel | S fuel => advance fuel head m e level n end
  else Ret p.
Notation prevs := (gmap Z Z).
Definition LLA_SkiplistSearch (head e : Z) (m : memory) : outcome (Z * prevs) :=
  h ← deref (m !! head);
  '(_, prev) ← foldM (fun '(p, prev) level =>
      p ← advance (length (map_to_list m)) head m e level p; Ret (p, <[level := p]> prev))
    (reverse (seqZ 0 (levels h))) (head, ∅);
  if levels h =? 0 then Ret (0, prev)
  else p0 ← deref (prev !! 0); n ← get_next head m p0 0; Ret (n, prev).

Definition LLA_SkiplistInsert (head e : Z) (m : memory) : outcome (memory * prevs) :=
  '(_, prev) ← LLA_SkiplistSearch head e m;
  h ← deref (m !! head);
  n ← deref (m !! e);
  '(m, prev) ← foldM (fun '(m, prev) l => m ← set_levels m head (l + 1); Ret (m, <[l := head]> prev))
    (seqZ (levels h) (levels n - levels h)) (m, prev);
  m ← foldM (fun m i =>
      p ← deref (prev !! i);
      x ← get_next head m p i;
      m ← set_next head m e i x;
      set_next head m p i e) (seqZ 0 (levels n)) m;
  Ret (m, prev).

Fixpoint unlink (head e : Z) (prev : prevs) (ls : list Z) (m : memory) : outcome memory :=
  match ls with
  | [] => Ret m
  | i :: ls =>
      p ← deref (prev !! i);
      x ← get_next head m p i;
      if x =? e then x ← get_next head m e i; m ← set_next head m p i x; unlink head e prev ls m
      else Ret m
  end.
Fixpoint shrink (fuel : nat) (head : Z) (m : memory) : outcome memory :=
  h ← deref (m !! head);
  if levels h >? 0 then
    x ← get_next head m head (levels h - 1);
    if x =? 0 then
      m ← set_levels m head (levels h - 1);
      match fuel with O => Fault OutOfFuel | S fuel => shrink fuel head m end
    else Ret m
  else Ret m.
Definition LLA_SkiplistDelete (head e : Z) (m : memory) : outcome (memory * prevs) :=
  '(found, prev) ← LLA_SkiplistSearch head e m;
  _ ← check (e =? found);
  n ← deref (m !! e);
  m ← unlink head e prev (seqZ 0 (levels n)) m;
  m ← shrink (Z.to_nat kMaxLevel) head m;
  Ret (m, prev).

(** ** The number of levels *)

(** [k] steps of the generator. *)
Definition lcgs (k : N) (r : Z) : Z := N.iter k lcg r.
Lemma lcgs_add a b r : lcgs (a + b) r = lcgs a (lcgs b r).
Proof. apply N.iter_add. Qed.

(** Steps of the generator are affine modulo 2^32; squaring gives the map of
    [2 ^ n] steps. *)
Fixpoint affine (n : nat) : Z * Z :=
  match n with
  | O => (1103515245, 12345)
  | S n => let '(a, c) := affine n in (u32 (a * a), u32 (a * c + c))
  end.
Lemma lcgs_affine n r : 0 <= r < 2 ^ 32 -> lcgs (2 ^ N.of_nat n) r = u32 (r * (affine n).1 + (affine n).2).
Proof.
  revert r. induction n as [|n IH]; intros r Hr; [done|].
  replace (2 ^ N.of_nat (S n))%N with (2 ^ N.of_nat n + 2 ^ N.of_nat n)%N by (rewrite Nat2N.inj_succ, N.pow_succ_r'; lia).
  rewrite lcgs_add, (IH r Hr), IH by apply u32_range. cbn [affine]. destruct (affine n) as [a c]. cbn [fst snd].
  unfold u32.
  rewrite Zplus_mod, Zmult_mod_idemp_l, <- Zplus_mod.
  rewrite (Zplus_mod (r * ((a * a) mod 2 ^ 32))), Zmult_mod_idemp_r, Zmod_mod, <- Zplus_mod. f_equal. lia.
Qed.
Definition bit30 (r : Z) : Z := Z.land (Z.shiftr r 30) 1.
Lemma bit30_val r : bit30 r = r / 2 ^ 30 mod 2.
Proof. unfold bit30. rewrite Z.shiftr_div_pow2 by lia. apply (Z.land_ones _ 1). lia. Qed.
(** The low 31 bits have the full period: after half of it, bit 30 is flipped. *)
Lemma lcgs_half r : 0 <= r < 2 ^ 32 -> bit30 r = 0 -> bit30 (lcgs (2 ^ 30) r) = 1.
Proof.
  intros Hr H0. change (2 ^ 30)%N with (2 ^ N.of_nat 30)%N. rewrite (lcgs_affine 30 r Hr).
  assert (Ha : affine 30 = (1, 3221225472)) by (vm_compute; reflexivity).
  rewrite Ha. cbn [fst snd]. rewrite bit30_val in *. unfold u32.
  pose proof (Z.div_mod (r * 1 + 3221225472) (2 ^ 32) ltac:(lia)) as E.
  pose proof (Z.mod_pos_bound (r * 1 + 3221225472) (2 ^ 32) ltac:(lia)) as B.
  revert E B. generalize ((r * 1 + 3221225472) mod 2 ^ 32) as y.
  generalize ((r * 1 + 3221225472) / 2 ^ 32) as q. intros q y E B.
  pose proof (Z.div_mod r (2 ^ 30) ltac:(lia)). pose proof (Z.mod_pos_bound r (2 ^ 30) ltac:(lia)).
  pose proof (Z.div_mod y (2 ^ 30) ltac:(lia)). pose proof (Z.mod_pos_bound y (2 ^ 30) ltac:(lia)).
  pose proof (Z.div_mod (r / 2 ^ 30) 2 ltac:(lia)). pose proof (Z.div_mod (y / 2 ^ 30) 2 ltac:(lia)).
  pose proof (Z.mod_pos_bound (y / 2 ^ 30) 2 ltac:(lia)). lia.
Qed.

(** [wide] runs the generator while bit 30 is clear. *)
Lemma wide_random n r k : exists x, wide n random_step (r, k) = Ret x /\
  match x with
  | inl (r', k') => r' = lcgs (2 ^ N.of_nat n) r /\ k' = k + 2 ^ Z.of_nat n /\
      forall j, (1 <= j <= 2 ^ N.of_nat n)%N -> bit30 (lcgs j r) = 0
  | inr (k', r') => exists i, (i < 2 ^ N.of_nat n)%N /\ k' = k + Z.of_N i /\ r' = lcgs (i + 1) r /\
      forall j, (1 <= j <= i)%N -> bit30 (lcgs j r) = 0
  end.
Proof.
  revert r k. induction n as [|n IH]; intros r k.
  - cbn [wide]. unfold random_step. fold (bit30 (lcg r)). destruct (Z.eqb_spec (bit30 (lcg r)) 0) as [H|H];
      eexists; (split; [reflexivity|]); cbn.
    + split; [done|]. split; [lia|]. intros j Hj. assert (j = 1%N) as -> by lia. exact H.
    + exists 0%N. split; [lia|]. split; [lia|]. split; [done|lia].
  - assert (E : (2 ^ N.of_nat (S n) = 2 ^ N.of_nat n + 2 ^ N.of_nat n)%N) by (rewrite Nat2N.inj_succ, N.pow_succ_r'; lia).
    assert (EZ : 2 ^ Z.of_nat (S n) = 2 ^ Z.of_nat n + 2 ^ Z.of_nat n) by (rewrite Nat2Z.inj_succ, Z.pow_succ_r; lia).
    assert (EN : Z.of_N (2 ^ N.of_nat n) = 2 ^ Z.of_nat n) by (rewrite N2Z.inj_pow, nat_N_Z; done).
    rewrite E. revert E. generalize (2 ^ N.of_nat (S n))%N. intros _ _.
    cbn [wide]. destruct (IH r k) as ([[r1 k1]|[k1 r1]] & -> & H1); obind.
    + destruct H1 as (-> & -> & Hz). destruct (IH (lcgs (2 ^ N.of_nat n) r) (k + 2 ^ Z.of_nat n)) as (x & -> & H2).
      exists x. split; [done|]. revert Hz EN H2. generalize (2 ^ N.of_nat n)%N as h. intros h Hz EN H2.
      assert (Hj : forall j i, (forall j, (1 <= j <= i)%N -> bit30 (lcgs j (lcgs h r)) = 0) ->
        (1 <= j <= h + i)%N -> bit30 (lcgs j r) = 0).
      { intros j i Hi Hj. destruct (N.le_gt_cases j h); [apply Hz; lia|].
        replace j with ((j - h) + h)%N by lia. rewrite lcgs_add. apply Hi. lia. }
      destruct x as [[r2 k2]|[k2 r2]].
      * destruct H2 as (-> & -> & H2). rewrite <- lcgs_add. split; [done|]. split; [lia|]. intros j. by apply Hj.
      * destruct H2 as (i & Hi & -> & -> & H2). exists (h + i)%N. rewrite <- lcgs_add. split; [lia|]. split; [lia|].
        split; [f_equal; lia|]. intros j. by apply Hj.
    + exists (inr (k1, r1)). split; [done|]. destruct H1 as (i & Hi & -> & -> & H1). exists i. split; [lia|]. done.
Qed.

Lemma lcgs_range k r : 0 <= r < 2 ^ 32 -> 0 <= lcgs k r < 2 ^ 32.
Proof. intros Hr. unfold lcgs. apply N.iter_invariant; [|done]. intros. apply u32_range. Qed.

#[local] Opaque lcgs.
(** Bit 30 is not clear for more than half of the period. *)
Lemma lcgs_run r : 0 <= r < 2 ^ 32 -> ~ forall j, (1 <= j <= 2 ^ 30 + 1)%N -> bit30 (lcgs j r) = 0.
Proof.
  intros Hr H. assert (H1 : bit30 (lcgs 1 r) = 0) by (apply H; simpl; lia).
  assert (H2 : bit30 (lcgs (2 ^ 30 + 1) r) = 0) by (apply H; simpl; lia).
  assert (Hh := lcgs_half (lcgs 1 r) (lcgs_range 1 r Hr) H1). rewrite <- lcgs_add, H2 in Hh. done.
Qed.
(** [Random] returns, and its result is at least 1. *)
Lemma Random_spec r : 0 <= r < 2 ^ 32 -> exists n r', Random r = Ret (n, r') /\ 1 <= n <= 2 ^ 30 + 1 /\ 0 <= r' < 2 ^ 32.
Proof.
  intros Hr. unfold Random, wide_loop. destruct (wide_random 31 r 1) as ([[r1 k1]|[k1 r1]] & -> & H); obind.
  - exfalso. destruct H as (_ & _ & H). apply (lcgs_run r Hr). intros j Hj. apply H. simpl in *. lia.
  - destruct H as (i & Hi & -> & -> & H). exists (1 + Z.of_N i), (lcgs (i + 1) r). split; [done|].
    split; [|by apply lcgs_range]. split; [lia|].
    destruct (N.le_gt_cases i (2 ^ 30)) as [Hle|Hgt]; [simpl in Hle; lia|]. exfalso.
    apply (lcgs_run r Hr). intros j Hj. apply H. simpl in *. lia.
Qed.

Lemma int_log2_range fuel i base k : k <= int_log2 fuel i base k <= k + Z.of_nat fuel.
Proof.
  revert i k. induction fuel as [|fuel IH]; intros i k; cbn [int_log2]; [lia|].
  destruct (i >? base); [|lia]. pose proof (IH (Z.shiftr i 1) (k + 1)). lia.
Qed.
Lemma int_log2_mono fuel i j base k : i <= j -> int_log2 fuel i base k <= int_log2 fuel j base k.
Proof.
  revert i j k. induction fuel as [|fuel IH]; intros i j k Hij; cbn [int_log2]; [lia|].
  destruct (Z.gtb_spec i base) as [Hi|Hi], (Z.gtb_spec j base) as [Hj|Hj]; [| |pose proof (int_log2_range fuel (Z.shiftr j 1) base (k + 1))|]; try lia.
  apply IH. rewrite !Z.shiftr_div_pow2 by lia. by apply Z.div_le_mono.
Qed.

(** The levels that every block of the size has. *)
Definition min_levels (size : Z) : Z := Z.min (IntLog2 size 64 + 1) (Z.min ((size - kNextOffset) / 8) (kMaxLevel - 1)).
Lemma min_levels_mono s t : s <= t -> min_levels s <= min_levels t.
Proof.
  intros H. unfold min_levels. pose proof (int_log2_mono 64 s t 64 0 H).
  assert ((s - kNextOffset) / 8 <= (t - kNextOffset) / 8) by (apply Z.div_le_mono; lia). unfold IntLog2. lia.
Qed.
Definition size_ok (size : Z) : Prop := 64 <= size < 2 ^ 34.
Lemma levels_spec size random r : size_ok size -> 0 <= r < 2 ^ 32 ->
  exists l r', LLA_SkiplistLevels size 64 random r = Ret (l, r') /\ 0 <= r' < 2 ^ 32 /\
    1 <= l < kMaxLevel /\ l <= (size - kNextOffset) / 8 /\ min_levels size <= l /\ (random = false -> l = min_levels size).
Proof.
  intros Hs Hr. unfold LLA_SkiplistLevels, min_levels. change kMaxLevel with 30. change kNextOffset with 40.
  destruct Hs as [Hs1 Hs2].
  assert (Hfit : 3 <= (size - 40) / 8 < 2 ^ 31) by (split; [apply Z.div_le_lower_bound|apply Z.div_lt_upper_bound]; lia).
  rewrite u64_small, s32_small by lia.
  pose proof (int_log2_range 64 size 64 0). fold (IntLog2 size 64) in H.
  assert (Hn : exists n r', (if random then Random r else Ret (1, r)) = Ret (n, r') /\ 1 <= n <= 2 ^ 30 + 1 /\
    0 <= r' < 2 ^ 32 /\ (random = false -> n = 1)).
  { destruct random; [|exists 1, r; done || lia]. destruct (Random_spec r Hr) as (n & r' & ? & ? & ?). by exists n, r'. }
  destruct Hn as (n & r' & -> & Hn & Hr' & Hf). obind. rewrite s32_small by lia.
  assert (Hl : (let level := IntLog2 size 64 + n in
    let level := if level >? (size - 40) / 8 then (size - 40) / 8 else level in
    if level >? 30 - 1 then 30 - 1 else level) = Z.min (IntLog2 size 64 + n) (Z.min ((size - 40) / 8) 29)).
  { cbv zeta. destruct (Z.gtb_spec (IntLog2 size 64 + n) ((size - 40) / 8)), (Z.gtb_spec ((size - 40) / 8) (30 - 1)), (Z.gtb_spec (IntLog2 size 64 + n) (30 - 1)); lia. }
  cbv zeta in Hl. rewrite Hl. rewrite check_true by lia. obind.
  exists (Z.min (IntLog2 size 64 + n) (Z.min ((size - 40) / 8) 29)), r'. split; [done|]. split; [done|].
  split; [lia|]. split; [lia|]. split; [lia|]. intros E. rewrite (Hf E). lia.
Qed.

(** ** The invariant

    [Lv] gives the number of levels of every node of the list. The link of a
    node at a level leads to the next higher address that has the level. *)
Section Links.
Context (head : Z).
Implicit Types (Lv : gmap Z Z) (m : memory).

Definition meta (m : memory) (p : Z) : option (Z * Z * Z * Z) := (fun n => (size n, magic n, arena n, levels n)) <$> m !! p.
Definition nx (m : memory) (p i : Z) : option Z := m !! p ≫= fun n => next n !! i.
(** The head is below every block. *)
Definition key (p : Z) : Z := if p =? head then 0 else p.
Definition on Lv (p i : Z) : Prop := 0 <= i /\ (p = head /\ i < kMaxLevel \/ exists l, Lv !! p = Some l /\ i < l).
Definition is_succ Lv (k i y : Z) : Prop :=
  (y = 0 /\ forall z l, Lv !! z = Some l -> k < z -> l <= i) \/
  (k < y /\ (exists l, Lv !! y = Some l /\ i < l) /\ forall z l, Lv !! z = Some l -> k < z < y -> l <= i).
Definition is_pred Lv (e i p : Z) : Prop :=
  on Lv p i /\ key p < e /\ forall z l, Lv !! z = Some l -> key p < z < e -> l <= i.
Definition linked m Lv (i : Z) : Prop := forall p, on Lv p i -> exists y, nx m p i = Some y /\ is_succ Lv (key p) i y.
Definition nodes_ok m Lv : Prop := forall x l, Lv !! x = Some l ->
  0 < x /\ x <> head /\ 1 <= l < kMaxLevel /\ exists s g a, meta m x = Some (s, g, a, l) /\ l <= (s - kNextOffset) / 8.
Definition head_ok m Lv : Prop := exists s g a l, meta m head = Some (s, g, a, l) /\ 0 <= l < kMaxLevel /\
  (forall x k, Lv !! x = Some k -> k <= l) /\ (0 < l -> exists x, Lv !! x = Some l).
Record SkInv m Lv : Prop := {
  sk_nodes : nodes_ok m Lv;
  sk_head : head_ok m Lv;
  sk_links : forall i, linked m Lv i }.

Lemma key_head : key head = 0.
Proof. unfold key. by rewrite Z.eqb_refl. Qed.
Lemma key_node p : p <> head -> key p = p.
Proof. intros. unfold key. by rewrite (proj2 (Z.eqb_neq p head)). Qed.
Lemma on_key m Lv p i : nodes_ok m Lv -> on Lv p i -> p = head /\ key p = 0 \/ p <> head /\ key p = p /\ 0 < p.
Proof.
  intros Hn [_ [[-> _]|(l & Hl & _)]]; [left; split; [done|apply key_head]|right].
  destruct (Hn p l Hl) as (? & ? & _). split; [done|]. by rewrite key_node.
Qed.
Lemma on_lower Lv p i j : on Lv p i -> 0 <= j <= i -> on Lv p j.
Proof. intros [H0 H] Hj. split; [lia|]. destruct H as [[-> ?]|(l & ? & ?)]; [left; split; [done|lia]|right; exists l; split; [done|lia]]. Qed.
Lemma on_node Lv p i l : Lv !! p = Some l -> 0 <= i < l -> on Lv p i.
Proof. intros. split; [lia|]. right. exists l. split; [done|lia]. Qed.
Lemma on_head Lv i : 0 <= i < kMaxLevel -> on Lv head i.
Proof. intros. split; [lia|]. left. split; [done|lia]. Qed.

Lemma is_succ_unique Lv k i y y' : is_succ Lv k i y -> is_succ Lv k i y' -> y = y'.
Proof.
  intros [[-> H]|(Hk & (l & Hl & Hi) & H)] [[-> H']|(Hk' & (l' & Hl' & Hi') & H')]; [done| | |].
  - pose proof (H _ _ Hl' Hk'). lia.
  - pose proof (H' _ _ Hl Hk). lia.
  - destruct (Z.lt_trichotomy y y') as [Hlt|[->|Hlt]]; [|done|].
    + pose proof (H' _ _ Hl ltac:(lia)). lia.
    + pose proof (H _ _ Hl' ltac:(lia)). lia.
Qed.
(** Nothing with the level between [k] and [k']: the successor is the same. *)
Lemma is_succ_skip Lv k k' i y : k <= k' -> (forall z l, Lv !! z = Some l -> k < z <= k' -> l <= i) ->
  is_succ Lv k i y -> is_succ Lv k' i y.
Proof.
  intros Hk Hno [[-> H]|(Hy & (l & Hl & Hi) & H)]; [left|right].
  - split; [done|]. intros z l' Hz ?. apply (H z); [done|lia].
  - split; [|split; [by exists l|]].
    + destruct (Z.le_gt_cases y k'); [|done]. pose proof (Hno y l Hl ltac:(lia)). lia.
    + intros z l' Hz ?. apply (H z); [done|lia].
Qed.

(** Reading and writing links. *)
Lemma skip_next_ok m Lv p i : SkInv m Lv -> on Lv p i ->
  exists y, get_next head m p i = Ret y /\ nx m p i = Some y /\ is_succ Lv (key p) i y.
Proof.
  intros [Hn _ Hl] Ho. destruct (Hl i p Ho) as (y & Hy & Hs). exists y. split; [|done].
  unfold nx in Hy. apply bind_Some in Hy as (n & Hp & Hi). unfold get_next. rewrite Hp. obind.
  assert (Hr : i < room head p n); [|by rewrite (proj2 (Z.ltb_lt _ _) Hr), Hi].
  unfold room. destruct Ho as [_ [[-> ?]|(l & Hlv & ?)]]; [by rewrite Z.eqb_refl|].
  destruct (Hn p l Hlv) as (_ & Hne & ? & s & g & a & Hm & ?). unfold meta in Hm. rewrite Hp in Hm. injection Hm as <- <- <- <-.
  rewrite (proj2 (Z.eqb_neq p head)) by done. lia.
Qed.

(** The room of a node, from its fields. *)
Definition has_room m (p i : Z) : Prop := exists s g a l, meta m p = Some (s, g, a, l) /\
  (p = head /\ i < kMaxLevel \/ p <> head /\ i < kMaxLevel /\ i < (s - kNextOffset) / 8).
Lemma on_room m Lv p i : nodes_ok m Lv -> head_ok m Lv -> on Lv p i -> has_room m p i.
Proof.
  intros Hn (s & g & a & l & Hh & _) [_ [[-> ?]|(k & Hk & ?)]].
  - exists s, g, a, l. split; [done|]. by left.
  - destruct (Hn p k Hk) as (_ & ? & ? & s' & g' & a' & Hm & ?). exists s', g', a', k. split; [done|]. right. lia.
Qed.
Lemma set_next_spec m p i v : has_room m p i -> exists m', set_next head m p i v = Ret m' /\
  (forall q, meta m' q = meta m q) /\ forall q j, nx m' q j = if decide (q = p /\ j = i) then Some v else nx m q j.
Proof.
  intros (s & g & a & l & Hm & Hr). unfold meta in Hm. apply fmap_Some in Hm as (n & Hn & E). injection E as -> -> -> ->.
  unfold set_next. rewrite Hn. obind. assert (Hroom : i < room head p n).
  { unfold room. destruct Hr as [[-> ?]|(? & ? & ?)]; [by rewrite Z.eqb_refl|]. rewrite (proj2 (Z.eqb_neq p head)) by done. lia. }
  rewrite (proj2 (Z.ltb_lt _ _) Hroom). eexists. split; [reflexivity|]. split.
  - intros q. unfold meta. destruct (decide (q = p)) as [->|Hq]; [by rewrite lookup_insert_eq, Hn|by rewrite lookup_insert_ne].
  - intros q j. unfold nx. destruct (decide (q = p)) as [->|Hq].
    + rewrite lookup_insert_eq, Hn. simpl. destruct (decide (j = i)) as [->|Hj].
      * by rewrite lookup_insert_eq, decide_True.
      * rewrite lookup_insert_ne by done. by rewrite decide_False by tauto.
    + rewrite lookup_insert_ne by done. by rewrite decide_False by tauto.
Qed.
Lemma set_levels_spec m p l s g a k : meta m p = Some (s, g, a, k) -> exists m', set_levels m p l = Ret m' /\
  (forall q, meta m' q = if decide (q = p) then Some (s, g, a, l) else meta m q) /\ forall q j, nx m' q j = nx m q j.
Proof.
  intros Hm. unfold meta in Hm. apply fmap_Some in Hm as (n & Hn & E). injection E as -> -> -> ->.
  unfold set_levels. rewrite Hn. obind. eexists. split; [reflexivity|]. split.
  - intros q. unfold meta. destruct (decide (q = p)) as [->|Hq]; [by rewrite lookup_insert_eq|by rewrite lookup_insert_ne].
  - intros q j. unfold nx. destruct (decide (q = p)) as [->|Hq]; [by rewrite lookup_insert_eq, Hn|by rewrite lookup_insert_ne].
Qed.

(** *** The search *)
Definition above Lv (k : Z) : nat := length (filter (fun x : Z * Z => k < x.1) (map_to_list Lv)).
Lemma above_lt Lv k y l : Lv !! y = Some l -> k < y -> (above Lv y < above Lv k)%nat.
Proof.
  intros Hy Hk. unfold above. apply elem_of_map_to_list in Hy. revert Hy. generalize (map_to_list Lv) as xs.
  intros xs Hy.
  assert (Hle : forall ys : list (Z * Z), (length (filter (fun x : Z * Z => (y < x.1)%Z) ys) <= length (filter (fun x : Z * Z => (k < x.1)%Z) ys))%nat).
  { induction ys as [|x ys IH]; [done|]. rewrite !filter_cons. destruct (decide (y < x.1)), (decide (k < x.1)); simpl; lia. }
  induction xs as [|x xs IH]; [by apply elem_of_nil in Hy|].
  rewrite !filter_cons. apply elem_of_cons in Hy as [<-|Hy].
  - rewrite decide_False by (simpl; lia). rewrite decide_True by done. simpl. specialize (Hle xs). lia.
  - specialize (IH Hy). destruct (decide (y < x.1)), (decide (k < x.1)); simpl; lia.
Qed.
Lemma above_size m Lv k : nodes_ok m Lv -> (above Lv k <= length (map_to_list m))%nat.
Proof.
  intros Hn. unfold above. etrans; [apply length_filter|]. rewrite !length_map_to_list. rewrite <- !size_dom.
  apply subseteq_size. intros x [l Hx]%elem_of_dom. destruct (Hn x l Hx) as (_ & _ & _ & s & g & a & Hm & _).
  unfold meta in Hm. apply fmap_Some in Hm as (n & Hm & _). by apply elem_of_dom_2 in Hm.
Qed.

Lemma advance_spec m Lv e i fuel p : SkInv m Lv -> on Lv p i -> key p < e -> (above Lv (key p) <= fuel)%nat ->
  exists q, advance fuel head m e i p = Ret q /\ is_pred Lv e i q.
Proof.
  intros HI. revert p. induction fuel as [|fuel IH]; intros p Ho Hp Hf.
  all: cbn [advance]; destruct (skip_next_ok m Lv p i HI Ho) as (y & -> & _ & Hs); obind.
  all: destruct Hs as [[-> Hs]|(Hy & (l & Hl & Hi) & Hs)].
  all: try (rewrite Z.eqb_refl; cbn [negb andb]; exists p; split; [done|]; split; [done|]; split; [done|];
    intros z k Hz ?; apply (Hs z); [done|lia]).
  all: destruct (sk_nodes _ _ HI y l Hl) as (Hy0 & Hyh & _); pose proof (above_lt Lv (key p) y l Hl Hy).
  all: rewrite (proj2 (Z.eqb_neq y 0)) by lia; cbn [negb andb]; destruct (Z.ltb_spec y e).
  all: try (exists p; split; [done|]; split; [done|]; split; [done|]; intros z k Hz ?; apply (Hs z); [done|lia]).
  - lia.
  - apply IH; [apply (on_node _ _ _ l); [done|]; destruct Ho; lia|by rewrite key_node|rewrite key_node by done; lia].
Qed.

Lemma search_levels m Lv e k p prev : SkInv m Lv -> on Lv p (Z.of_nat k - 1) \/ k = O -> key p < e ->
  exists p' prev', foldM (fun '(p, prev) level =>
      p ← advance (length (map_to_list m)) head m e level p; Ret (p, <[level := p]> prev))
    (reverse (seqZ 0 (Z.of_nat k))) (p, prev) = Ret (p', prev') /\
    (forall i, 0 <= i < Z.of_nat k -> exists q, prev' !! i = Some q /\ is_pred Lv e i q) /\
    (forall i, Z.of_nat k <= i -> prev' !! i = (prev : prevs) !! i).
Proof.
  intros HI. revert p prev. induction k as [|k IH]; intros p prev Ho Hp.
  - exists p, prev. split; [done|]. split; [lia|done].
  - destruct Ho as [Ho|]; [|done]. replace (Z.of_nat (S k) - 1) with (Z.of_nat k) in Ho by lia.
    replace (Z.of_nat (S k)) with (Z.of_nat k + 1) by lia. rewrite seqZ_app by lia. cbn [seqZ].
    replace (seqZ (0 + Z.of_nat k) 1) with [Z.of_nat k] by (unfold seqZ; simpl; f_equal; lia).
    rewrite reverse_app. cbn [reverse rev_append app foldM].
    destruct (advance_spec m Lv e (Z.of_nat k) (length (map_to_list m)) p HI Ho Hp) as (q & Hq & Hpred).
    { apply above_size, HI. }
    cbn [app]. change (reverse [Z.of_nat k]) with [Z.of_nat k]. cbn [app foldM]. rewrite Hq. obind.
    destruct (IH q (<[Z.of_nat k := q]> prev)) as (p' & prev' & Hf & H1 & H2).
    { destruct k as [|k]; [by right|left]. apply (on_lower _ _ (Z.of_nat (S k))); [apply Hpred|lia]. }
    { apply Hpred. }
    exists p', prev'. split; [exact Hf|]. split.
    + intros i Hi. destruct (decide (i = Z.of_nat k)) as [->|]; [|apply H1; lia].
      exists q. rewrite H2 by lia. by rewrite lookup_insert_eq.
    + intros i Hi. rewrite H2 by lia. by rewrite lookup_insert_ne by lia.
Qed.

Lemma search_spec m Lv e s g a L : SkInv m Lv -> 0 < e -> meta m head = Some (s, g, a, L) ->
  exists y prev, LLA_SkiplistSearch head e m = Ret (y, prev) /\ is_succ Lv (e - 1) 0 y /\
    (forall i, 0 <= i < L -> exists q, prev !! i = Some q /\ is_pred Lv e i q).
Proof.
  intros HI He Hh. destruct (sk_head _ _ HI) as (s' & g' & a' & L' & Hh' & HL & Hmax & _).
  rewrite Hh in Hh'. injection Hh' as <- <- <- <-.
  unfold meta in Hh. apply fmap_Some in Hh as (h & Hm & E). injection E as -> -> -> ->.
  unfold LLA_SkiplistSearch. rewrite Hm. obind.
  destruct (search_levels m Lv e (Z.to_nat (levels h)) head ∅ HI) as (p' & prev & Hf & H1 & _).
  { destruct (decide (levels h = 0)) as [->|]; [by right|left]. apply on_head. lia. }
  { by rewrite key_head. }
  rewrite Z2Nat.id in Hf, H1 by lia. rewrite Hf. obind. destruct (Z.eqb_spec (levels h) 0) as [H0|H0].
  - exists 0, prev. split; [done|]. split; [|done]. left. split; [done|]. intros z l Hz _.
    pose proof (Hmax z l Hz). lia.
  - destruct (H1 0 ltac:(lia)) as (q & Hq & Hp & Hk & Hno). rewrite Hq. obind.
    destruct (skip_next_ok m Lv q 0 HI Hp) as (y & Hy & _ & Hs). rewrite Hy. obind.
    exists y, prev. split; [done|]. split; [|done]. apply (is_succ_skip Lv (key q)); [lia| |done].
    intros z l Hz ?. apply (Hno z); [done|lia].
Qed.

(** *** Insertion and deletion, level by level *)
Lemma is_succ_insert Lv e l k i y : Lv !! e = None -> e <= k \/ (y <> 0 /\ y < e) ->
  is_succ Lv k i y -> is_succ (<[e := l]> Lv) k i y.
Proof.
  intros He Hc [[-> H]|(Hy & (l' & Hl & Hi) & H)]; [left|right].
  - split; [done|]. intros z l' [[<- _]|[_ Hz]]%lookup_insert_Some ?; [lia|]. by apply (H z).
  - split; [done|]. split.
    + exists l'. rewrite lookup_insert_ne by congruence. done.
    + intros z l'' [[<- _]|[_ Hz]]%lookup_insert_Some ?; [lia|]. by apply (H z).
Qed.
Lemma is_succ_delete Lv e k i y : y <> e -> is_succ Lv k i y -> is_succ (delete e Lv) k i y.
Proof.
  intros He [[-> H]|(Hy & (l' & Hl & Hi) & H)]; [left|right].
  - split; [done|]. intros z l' [_ Hz]%lookup_delete_Some. by apply H.
  - split; [done|]. split; [exists l'; by rewrite lookup_delete_ne|]. intros z l'' [_ Hz]%lookup_delete_Some. by apply H.
Qed.
(** Another node of the level is before the predecessor or after [e]. *)
Lemma pred_order m Lv e i p q : nodes_ok m Lv -> is_pred Lv e i p -> on Lv q i -> q <> p ->
  key q < key p /\ (exists l, Lv !! p = Some l /\ i < l) /\ key p = p \/ e <= key q.
Proof.
  intros Hn (Hp & Hpe & Hno) Hq Hne. destruct (Z.le_gt_cases e (key q)) as [|Hlt]; [by right|left].
  destruct (on_key _ _ _ _ Hn Hp) as [(-> & Kp)|(Hph & Kp & ?)], (on_key _ _ _ _ Hn Hq) as [(-> & Kq)|(Hqh & Kq & ?)]; [done| | |].
  - destruct Hq as [_ [[? _]|(l & Hl & ?)]]; [done|]. pose proof (Hno q l Hl ltac:(lia)). lia.
  - destruct Hp as [_ [[? _]|(l & Hl & ?)]]; [done|]. split; [lia|]. split; [by exists l|done].
  - destruct Hp as [_ [[? _]|(l & Hl & ?)]]; [done|]. split; [|split; [by exists l|done]].
    destruct Hq as [_ [[? _]|(k & Hk & ?)]]; [done|]. destruct (Z.le_gt_cases (key p) (key q)); [|lia].
    pose proof (Hno q k Hk ltac:(lia)). lia.
Qed.

Lemma linked_insert m m' Lv e l i p y : nodes_ok m Lv -> linked m Lv i -> is_pred Lv e i p ->
  Lv !! e = None -> e <> head -> 0 < e -> i < l -> nx m p i = Some y ->
  (forall q, nx m' q i = if decide (q = p) then Some e else if decide (q = e) then Some y else nx m q i) ->
  linked m' (<[e := l]> Lv) i.
Proof.
  intros Hn Hlk Hpred He Heh He0 Hi Hy Hnx q Hq. destruct Hpred as (Hp & Hpe & Hno).
  destruct (Hlk p Hp) as (y' & Hy' & Hs). rewrite Hy in Hy'. injection Hy' as <-.
  assert (Hpne : p <> e). { intros ->. destruct Hp as [_ [[? _]|(? & ? & _)]]; congruence. }
  rewrite Hnx. destruct (decide (q = p)) as [->|Hqp]; [|destruct (decide (q = e)) as [->|Hqe]].
  - exists e. split; [done|]. right. split; [done|]. split; [exists l; by rewrite lookup_insert_eq|].
    intros z k [[<- _]|[_ Hz]]%lookup_insert_Some ?; [lia|]. by apply (Hno z).
  - exists y. split; [done|]. rewrite key_node by done. apply is_succ_insert; [done|left; lia|].
    apply (is_succ_skip Lv (key p)); [lia| |done]. intros z k Hz ?.
    apply (Hno z); [done|]. destruct (decide (z = e)); [congruence|lia].
  - assert (Hq' : on Lv q i).
    { destruct Hq as [H0 [?|(k & Hk & ?)]]; split; [done|by left|done|right]. rewrite lookup_insert_ne in Hk by done. by exists k. }
    destruct (Hlk q Hq') as (x & Hx & Hsx). exists x. split; [done|]. apply is_succ_insert; [done| |done].
    destruct (pred_order m Lv e i p q Hn (conj Hp (conj Hpe Hno)) Hq' Hqp) as [(Hlt & (k & Hk & ?) & Kp)|?]; [right|by left].
    destruct Hsx as [[-> Hsx]|(? & _ & Hsx)]; [pose proof (Hsx p k Hk ltac:(lia)); lia|].
    destruct (on_key _ _ _ _ Hn Hq') as [(-> & Kq)|(_ & Kq & ?)];
      (split; [lia|]; destruct (Z.le_gt_cases x p); [lia|pose proof (Hsx p k Hk ltac:(lia)); lia]).
Qed.
Lemma linked_insert_high m Lv e l i : Lv !! e = None -> l <= i -> linked m Lv i -> linked m (<[e := l]> Lv) i.
Proof.
  intros He Hl Hlk q Hq. assert (Hq' : on Lv q i).
  { destruct Hq as [H0 [?|(k & Hk & ?)]]; split; [done|by left|done|right].
    apply lookup_insert_Some in Hk as [[_ <-]|[_ Hk]]; [lia|by exists k]. }
  destruct (Hlk q Hq') as (y & Hy & [[-> Hs]|(Hy' & (k & Hk & ?) & Hs)]); eexists; (split; [done|]); [left|right].
  - split; [done|]. intros z k [[_ <-]|[_ Hz]]%lookup_insert_Some ?; [done|by apply (Hs z)].
  - split; [done|]. split; [exists k; rewrite lookup_insert_ne by congruence; done|].
    intros z k' [[_ <-]|[_ Hz]]%lookup_insert_Some ?; [done|by apply (Hs z)].
Qed.

(** The link of the predecessor leads to [e]. *)
Lemma pred_next Lv e l i p y : 0 < e -> Lv !! e = Some l -> i < l -> is_pred Lv e i p -> is_succ Lv (key p) i y -> y = e.
Proof.
  intros H0 He Hi (_ & Hpe & Hno) Hs. apply (is_succ_unique Lv (key p) i); [done|]. right. split; [done|].
  split; [by exists l|]. intros z k Hz ?. by apply (Hno z).
Qed.
Lemma linked_delete m m' Lv e l i p y : nodes_ok m Lv -> linked m Lv i -> is_pred Lv e i p ->
  Lv !! e = Some l -> i < l -> nx m e i = Some y ->
  (forall q, q <> e -> nx m' q i = if decide (q = p) then Some y else nx m q i) ->
  linked m' (delete e Lv) i.
Proof.
  intros Hn Hlk Hpred He Hi Hy Hnx q Hq. assert (Hpred' := Hpred). destruct Hpred as (Hp & Hpe & Hno).
  destruct (Hn e l He) as (He0 & Heh & _).
  assert (Hoe : on Lv e i) by (apply (on_node _ _ _ l); [done|]; destruct Hp; lia).
  destruct (Hlk e Hoe) as (y' & Hy' & Hs). rewrite Hy in Hy'. injection Hy' as <-. rewrite key_node in Hs by done.
  assert (Hye : y <> e) by (destruct Hs as [[-> _]|(? & _)]; lia).
  assert (Hqe : q <> e). { intros ->. destruct Hq as [_ [[? _]|(k & Hk & _)]]; [congruence|]. by rewrite lookup_delete_eq in Hk. }
  assert (Hq' : on Lv q i).
  { destruct Hq as [H0 [?|(k & Hk & ?)]]; split; [done|by left|done|right]. apply lookup_delete_Some in Hk as [_ Hk]. by exists k. }
  rewrite Hnx by done. destruct (decide (q = p)) as [->|Hqp].
  - exists y. split; [done|]. destruct Hs as [[-> Hs]|(Hey & (k & Hk & ?) & Hs)]; [left|right].
    + split; [done|]. intros z k [Hze Hz]%lookup_delete_Some ?. destruct (Z.lt_ge_cases z e); [apply (Hno z); [done|lia]|apply (Hs z); [done|lia]].
    + split; [lia|]. split; [exists k; by rewrite lookup_delete_ne by congruence|].
      intros z k' [Hze Hz]%lookup_delete_Some ?. destruct (Z.lt_ge_cases z e); [apply (Hno z); [done|lia]|apply (Hs z); [done|lia]].
  - destruct (Hlk q Hq') as (x & Hx & Hsx). exists x. split; [done|]. apply is_succ_delete; [|done]. intros ->.
    destruct (pred_order m Lv e i p q Hn Hpred' Hq' Hqp) as [(Hlt & (k & Hk & ?) & Kp)|Hge];
      destruct Hsx as [[E _]|(Hke & _ & Hsx)]; try lia. pose proof (Hsx p k Hk ltac:(lia)). lia.
Qed.
Lemma linked_delete_high m Lv e l i : Lv !! e = Some l -> l <= i -> linked m Lv i -> linked m (delete e Lv) i.
Proof.
  intros He Hl Hlk q Hq. assert (Hq' : on Lv q i).
  { destruct Hq as [H0 [?|(k & Hk & ?)]]; split; [done|by left|done|right]. apply lookup_delete_Some in Hk as [_ Hk]. by exists k. }
  destruct (Hlk q Hq') as (y & Hy & Hs). exists y. split; [done|].
  destruct (decide (y = e)) as [->|Hne]; [|by apply is_succ_delete].
  destruct Hs as [[-> Hs]|(? & (k & Hk & ?) & Hs)]; [|rewrite He in Hk; injection Hk as <-; lia].
  left. split; [done|]. intros z k [_ Hz]%lookup_delete_Some ?. by apply (Hs z).
Qed.

Lemma linked_ext m m' Lv i : (forall q, on Lv q i -> nx m' q i = nx m q i) -> linked m Lv i -> linked m' Lv i.
Proof. intros H Hl q Hq. destruct (Hl q Hq) as (y & Hy & Hs). exists y. by rewrite H. Qed.
Lemma nodes_ok_ext m m' Lv : (forall q, q <> head -> meta m' q = meta m q) -> nodes_ok m Lv -> nodes_ok m' Lv.
Proof. intros H Hn x l Hx. destruct (Hn x l Hx) as (? & ? & ? & s & g & a & Hm & ?). split; [done|]. split; [done|]. split; [done|].
  exists s, g, a. by rewrite H. Qed.
Lemma get_next_nx m p i y : nx m p i = Some y -> has_room m p i -> get_next head m p i = Ret y.
Proof.
  intros Hy (s & g & a & l & Hm & Hr). unfold nx in Hy. apply bind_Some in Hy as (n & Hp & Hi).
  unfold meta in Hm. rewrite Hp in Hm. injection Hm as <- <- <- <-. unfold get_next. rewrite Hp. obind.
  assert (Hroom : i < room head p n); [|by rewrite (proj2 (Z.ltb_lt _ _) Hroom), Hi].
  unfold room. destruct Hr as [[-> ?]|(? & ? & ?)]; [by rewrite Z.eqb_refl|]. rewrite (proj2 (Z.eqb_neq p head)) by done. lia.
Qed.
Lemma has_room_ext m m' p i : meta m' p = meta m p -> has_room m p i -> has_room m' p i.
Proof. unfold has_room. by intros ->. Qed.

Lemma extend_spec (k : nat) m prev s g a L : meta m head = Some (s, g, a, L) ->
  exists m' prev', foldM (fun '(m, prev) l => m ← set_levels m head (l + 1); Ret (m, <[l := head]> prev))
      (seqZ L (Z.of_nat k)) (m, prev) = Ret (m', prev' : prevs) /\
    (forall q, meta m' q = if decide (q = head) then Some (s, g, a, L + Z.of_nat k) else meta m q) /\
    (forall q j, nx m' q j = nx m q j) /\
    forall i, prev' !! i = if decide (L <= i < L + Z.of_nat k) then Some head else prev !! i.
Proof.
  revert m prev L. induction k as [|k IH]; intros m prev L Hh.
  - exists m, prev. split; [done|]. split; [|split; [done|]].
    + intros q. destruct (decide (q = head)) as [->|]; [|done]. rewrite Hh. do 2 f_equal. lia.
    + intros i. by rewrite decide_False by lia.
  - rewrite seqZ_cons by lia. replace (Z.pred (Z.of_nat (S k))) with (Z.of_nat k) by lia. cbn [foldM].
    destruct (set_levels_spec m head (L + 1) s g a L Hh) as (m1 & -> & Hm1 & Hx1). obind.
    destruct (IH m1 (<[L := head]> prev) (L + 1)) as (m' & prev' & Hf & Hm & Hx & Hp).
    { by rewrite Hm1, decide_True. }
    exists m', prev'. split; [exact Hf|]. split; [|split].
    + intros q. rewrite Hm, Hm1. destruct (decide (q = head)); [|done]. do 2 f_equal. lia.
    + intros q j. by rewrite Hx.
    + intros i. rewrite Hp. destruct (decide (i = L)) as [->|].
      * rewrite decide_False, decide_True by lia. by rewrite lookup_insert_eq.
      * rewrite lookup_insert_ne by done. destruct (decide (L + 1 <= i < L + 1 + Z.of_nat k)).
        -- by rewrite decide_True by lia.
        -- by rewrite decide_False by lia.
Qed.

Lemma link_levels Lv e l prev (k : nat) j m :
  nodes_ok m Lv -> head_ok m Lv \/ (exists s g a L, meta m head = Some (s, g, a, L)) ->
  Lv !! e = None -> e <> head -> 0 < e -> (forall i, i < l -> has_room m e i) -> 0 <= j -> j + Z.of_nat k = l ->
  (forall i, j <= i < l -> exists p, (prev : prevs) !! i = Some p /\ is_pred Lv e i p) ->
  (forall i, j <= i -> linked m Lv i) -> (forall i, i < j -> linked m (<[e := l]> Lv) i) ->
  exists m', foldM (fun m i => p ← deref (prev !! i); x ← get_next head m p i; m ← set_next head m e i x; set_next head m p i e)
      (seqZ j (Z.of_nat k)) m = Ret m' /\
    (forall q, meta m' q = meta m q) /\ (forall i, linked m' (<[e := l]> Lv) i) /\
    (forall q i, q <> e -> q <> head -> Lv !! q = None -> nx m' q i = nx m q i).
Proof.
  intros Hn Hh He Heh He0. revert j m Hn Hh. induction k as [|k IH]; intros j m Hn Hh Hroom Hj Hjk Hprev Hhi Hlo.
  - exists m. split; [done|]. split; [done|]. split; [|done]. intros i.
    destruct (Z.lt_ge_cases i j); [by apply Hlo|]. apply linked_insert_high; [done|lia|by apply Hhi].
  - rewrite seqZ_cons by lia. replace (Z.pred (Z.of_nat (S k))) with (Z.of_nat k) by lia. cbn [foldM].
    destruct (Hprev j ltac:(lia)) as (p & Hp & Hpred). rewrite Hp. obind.
    destruct (Hhi j ltac:(lia) p (proj1 Hpred)) as (y & Hy & _).
    assert (Hrp : has_room m p j).
    { destruct Hpred as ([_ [[-> ?]|(c & Hc & ?)]] & _).
      - destruct Hh as [(s & g & a & L & Hm & _)|(s & g & a & L & Hm)]; exists s, g, a, L; (split; [done|]); by left.
      - destruct (Hn p c Hc) as (_ & ? & ? & s & g & a & Hm & ?). exists s, g, a, c. split; [done|]. right. lia. }
    rewrite (get_next_nx m p j y Hy Hrp). obind.
    destruct (set_next_spec m e j y (Hroom j ltac:(lia))) as (m1 & -> & Hm1 & Hx1). obind.
    destruct (set_next_spec m1 p j e (has_room_ext _ _ _ _ (Hm1 p) Hrp)) as (m2 & -> & Hm2 & Hx2).
    assert (Hm : forall q, meta m2 q = meta m q) by (intros; by rewrite Hm2, Hm1).
    assert (Hne : forall q i, i <> j -> nx m2 q i = nx m q i).
    { intros q i Hi. rewrite Hx2, Hx1, !decide_False by tauto. done. }
    assert (Hpe : p <> e). { intros ->. destruct Hpred as ([_ [[? _]|(? & ? & _)]] & _); congruence. }
    obind.
    destruct (IH (j + 1) m2) as (m' & Hf & Hm' & Hl' & Hx'); [by apply (nodes_ok_ext m)| | |lia|lia| | | |].
    + right. destruct Hh as [(s & g & a & L & Hmh & _)|(s & g & a & L & Hmh)]; exists s, g, a, L; by rewrite Hm.
    + intros i Hi. apply (has_room_ext m); [done|]. by apply Hroom.
    + intros i Hi. apply Hprev. lia.
    + intros i Hi. apply (linked_ext m); [intros; apply Hne; lia|apply Hhi; lia].
    + intros i Hi. destruct (decide (i = j)) as [->|].
      * apply (linked_insert m m2 Lv e l j p y); try done; [apply Hhi; lia|lia|]. intros q. rewrite Hx2, Hx1.
        destruct (decide (q = p)) as [->|]; [by rewrite decide_True|]. rewrite decide_False by tauto.
        destruct (decide (q = e)) as [->|]; [by rewrite decide_True|]. by rewrite decide_False by tauto.
      * apply (linked_ext m); [intros; by apply Hne|apply Hlo; lia].
    + exists m'. split; [replace (Z.succ j) with (j + 1) by lia; exact Hf|]. split; [intros; by rewrite Hm'|]. split; [done|].
      intros q i Hqe Hqh Hq. rewrite (Hx' q i Hqe Hqh Hq), Hx2, Hx1, !decide_False; [done|tauto|].
      intros [-> _]. destruct Hpred as ([_ [[? _]|(? & ? & _)]] & _); congruence.
Qed.

Lemma insert_spec m Lv e s g a L se ge ae l : SkInv m Lv -> meta m head = Some (s, g, a, L) ->
  Lv !! e = None -> e <> head -> 0 < e -> meta m e = Some (se, ge, ae, l) -> 1 <= l < kMaxLevel -> l <= (se - kNextOffset) / 8 ->
  exists m' prev p0, LLA_SkiplistInsert head e m = Ret (m', prev) /\ SkInv m' (<[e := l]> Lv) /\
    (forall q, meta m' q = if decide (q = head) then Some (s, g, a, Z.max L l) else meta m q) /\
    (forall q i, q <> e -> q <> head -> Lv !! q = None -> nx m' q i = nx m q i) /\
    prev !! 0 = Some p0 /\ is_pred Lv e 0 p0.
Proof.
  intros HI Hh He Heh He0 Hm Hl Hfit. destruct (sk_head _ _ HI) as (s' & g' & a' & L' & Hh' & HL & Hmax & Htight).
  rewrite Hh in Hh'. injection Hh' as <- <- <- <-.
  destruct (search_spec m Lv e s g a L HI He0 Hh) as (y & prev & Hs & _ & Hprev).
  unfold LLA_SkiplistInsert. rewrite Hs. obind.
  assert (Eh : levels <$> m !! head = Some L /\ levels <$> m !! e = Some l).
  { unfold meta in Hh, Hm. apply fmap_Some in Hh as (h & -> & E), Hm as (n & -> & E'). injection E. injection E'. intros. simpl. by subst. }
  destruct Eh as [Eh Ee]. apply fmap_Some in Eh as (h & -> & ->), Ee as (n & -> & ->). obind.
  destruct (extend_spec (Z.to_nat (levels n - levels h)) m prev s g a (levels h) Hh) as (m1 & prev1 & Hf & Hm1 & Hx1 & Hp1).
  assert (Hseq : seqZ (levels h) (levels n - levels h) = seqZ (levels h) (Z.of_nat (Z.to_nat (levels n - levels h)))).
  { unfold seqZ. by rewrite Nat2Z.id. }
  rewrite Hseq, Hf. obind.
  assert (Hpred : forall i, 0 <= i < levels n -> exists p, prev1 !! i = Some p /\ is_pred Lv e i p).
  { intros i Hi. rewrite Hp1. destruct (decide (levels h <= i < levels h + Z.of_nat (Z.to_nat (levels n - levels h)))).
    - exists head. split; [done|]. split; [apply on_head; lia|]. rewrite key_head. split; [done|].
      intros z k Hz _. pose proof (Hmax z k Hz). lia.
    - apply Hprev. lia. }
  assert (Hn1 : nodes_ok m1 Lv) by (apply (nodes_ok_ext m); [intros q Hq; by rewrite Hm1, decide_False|apply HI]).
  destruct (link_levels Lv e (levels n) prev1 (Z.to_nat (levels n)) 0 m1 Hn1) as (m2 & Hf2 & Hm2 & Hl2 & Hx2); try done; try lia.
  - right. do 4 eexists. by rewrite Hm1, decide_True.
  - intros i Hi. exists se, ge, ae, (levels n). split; [by rewrite Hm1, decide_False|right; lia].
  - intros i _. apply (linked_ext m); [intros; apply Hx1|apply HI].
  - intros i Hi q [H0 _]. lia.
  - rewrite Z2Nat.id in Hf2 by lia. rewrite Hf2. obind. destruct (Hpred 0 ltac:(lia)) as (p0 & Hp0 & Hpr0).
    exists m2, prev1, p0. split; [done|].
    assert (Hmeta : forall q, meta m2 q = if decide (q = head) then Some (s, g, a, Z.max (levels h) (levels n)) else meta m q).
    { intros q. rewrite Hm2, Hm1. destruct (decide (q = head)); [|done]. do 2 f_equal. lia. }
    split; [|split; [exact Hmeta|split; [|done]]].
    + split; [| |done].
      * intros x k [[<- <-]|[Hne Hx]]%lookup_insert_Some.
        -- split; [done|]. split; [done|]. split; [done|]. exists se, ge, ae. by rewrite Hmeta, decide_False.
        -- destruct (sk_nodes _ _ HI x k Hx) as (? & ? & ? & sx & gx & ax & Hmx & ?). split; [done|]. split; [done|].
           split; [done|]. exists sx, gx, ax. by rewrite Hmeta, decide_False.
      * exists s, g, a, (Z.max (levels h) (levels n)). split; [by rewrite Hmeta, decide_True|]. split; [lia|]. split.
        -- intros x k [[<- <-]|[Hne Hx]]%lookup_insert_Some; [lia|]. pose proof (Hmax x k Hx). lia.
        -- intros _. destruct (Z.le_gt_cases (levels h) (levels n)).
           ++ exists e. rewrite Z.max_r by lia. by rewrite lookup_insert_eq.
           ++ rewrite Z.max_l by lia. destruct Htight as [x Hx]; [lia|]. exists x. rewrite lookup_insert_ne; [done|congruence].
    + intros q i Hqe Hqh Hq. rewrite Hx2 by done. apply Hx1.
Qed.

Lemma unlink_levels Lv e l prev (k : nat) j m :
  nodes_ok m Lv -> (exists s g a L, meta m head = Some (s, g, a, L)) -> Lv !! e = Some l -> 0 <= j -> j + Z.of_nat k = l ->
  (forall i, j <= i < l -> exists p, (prev : prevs) !! i = Some p /\ is_pred Lv e i p) ->
  (forall i, j <= i -> linked m Lv i) -> (forall i, i < j -> linked m (delete e Lv) i) ->
  exists m', unlink head e prev (seqZ j (Z.of_nat k)) m = Ret m' /\
    (forall q, meta m' q = meta m q) /\ (forall i, linked m' (delete e Lv) i) /\
    (forall q i, q <> head -> Lv !! q = None -> nx m' q i = nx m q i).
Proof.
  intros Hn Hh He. revert j m Hn Hh. induction k as [|k IH]; intros j m Hn Hh Hj Hjk Hprev Hhi Hlo.
  - exists m. split; [done|]. split; [done|]. split; [|done]. intros i.
    destruct (Z.lt_ge_cases i j); [by apply Hlo|]. apply (linked_delete_high m Lv e l); [done|lia|by apply Hhi].
  - rewrite seqZ_cons by lia. replace (Z.pred (Z.of_nat (S k))) with (Z.of_nat k) by lia. cbn [unlink].
    destruct (Hn e l He) as (He0 & Heh & Hl & se & ge & ae & Hme & Hfit).
    destruct (Hprev j ltac:(lia)) as (p & Hp & Hpred). rewrite Hp. obind.
    destruct (Hhi j ltac:(lia) p (proj1 Hpred)) as (y & Hy & Hs).
    assert (y = e) as -> by (apply (pred_next Lv e l j p); done || lia).
    assert (Hroom : forall q i, on Lv q i -> has_room m q i).
    { intros q i [_ [[-> ?]|(c & Hc & ?)]].
      - destruct Hh as (s & g & a & L & Hm). exists s, g, a, L. split; [done|]. by left.
      - destruct (Hn q c Hc) as (_ & ? & ? & s & g & a & Hm & ?). exists s, g, a, c. split; [done|]. right. lia. }
    rewrite (get_next_nx m p j e Hy (Hroom p j (proj1 Hpred))). obind. rewrite Z.eqb_refl.
    assert (Hoe : on Lv e j) by (apply (on_node _ _ _ l); [done|lia]).
    destruct (Hhi j ltac:(lia) e Hoe) as (y & Hye & _). rewrite (get_next_nx m e j y Hye (Hroom e j Hoe)). obind.
    destruct (set_next_spec m p j y (Hroom p j (proj1 Hpred))) as (m1 & -> & Hm1 & Hx1). obind.
    assert (Hne : forall q i, i <> j -> nx m1 q i = nx m q i).
    { intros q i Hi. rewrite Hx1, decide_False by tauto. done. }
    replace (Z.succ j) with (j + 1) by lia.
    destruct (IH (j + 1) m1) as (m' & Hf & Hm' & Hl' & Hx'); [by apply (nodes_ok_ext m)| |lia|lia| | | |].
    + destruct Hh as (s & g & a & L & Hmh). exists s, g, a, L. by rewrite Hm1.
    + intros i Hi. apply Hprev. lia.
    + intros i Hi. apply (linked_ext m); [intros; apply Hne; lia|apply Hhi; lia].
    + intros i Hi. destruct (decide (i = j)) as [->|].
      * apply (linked_delete m m1 Lv e l j p y); try done; [apply Hhi; lia|lia|]. intros q Hq. rewrite Hx1.
        destruct (decide (q = p)) as [->|]; [by rewrite decide_True|]. by rewrite decide_False by tauto.
      * apply (linked_ext m); [intros; by apply Hne|apply Hlo; lia].
    + exists m'. split; [exact Hf|]. split; [intros; by rewrite Hm'|]. split; [done|].
      intros q i Hqh Hq. rewrite (Hx' q i Hqh Hq), Hx1, decide_False; [done|].
      intros [-> _]. destruct Hpred as ([_ [[? _]|(? & ? & _)]] & _); congruence.
Qed.

Lemma shrink_spec (fuel : nat) m Lv s g a L : nodes_ok m Lv -> (forall i, linked m Lv i) ->
  meta m head = Some (s, g, a, L) -> 0 <= L < kMaxLevel -> L <= Z.of_nat fuel -> (forall x k, Lv !! x = Some k -> k <= L) ->
  exists m' L', shrink fuel head m = Ret m' /\ SkInv m' Lv /\
    (forall q, meta m' q = if decide (q = head) then Some (s, g, a, L') else meta m q) /\
    (forall q i, nx m' q i = nx m q i).
Proof.
  revert m L. induction fuel as [|fuel IH]; intros m L Hn Hl Hm HL Hf Hmax.
  all: cbn [shrink]; assert (Eh : levels <$> m !! head = Some L)
    by (unfold meta in Hm; apply fmap_Some in Hm as (h & -> & E); injection E; intros; simpl; by subst).
  all: apply fmap_Some in Eh as (h & -> & ->); obind; destruct (Z.gtb_spec (levels h) 0) as [Hpos|Hz].
  2, 4: exists m, (levels h); (split; [done|]); (split; [split; [done| |done]|split; [|done]]);
    [exists s, g, a, (levels h); (split; [done|]; split; [lia|]; split; [done|lia])|
     intros q; destruct (decide (q = head)) as [->|]; done].
  - lia.
  - destruct (Hl (levels h - 1) head) as (y & Hy & Hs); [apply on_head; lia|].
    assert (Hr : has_room m head (levels h - 1)) by (exists s, g, a, (levels h); split; [done|left; split; [done|lia]]).
    rewrite (get_next_nx m head _ y Hy Hr). obind. rewrite key_head in Hs. destruct (Z.eqb_spec y 0) as [->|Hy0].
    + destruct (set_levels_spec m head (levels h - 1) s g a (levels h) Hm) as (m1 & -> & Hm1 & Hx1). obind.
      destruct (IH m1 (levels h - 1)) as (m' & L' & Hsh & HI & Hm' & Hx'); [| | |lia|lia| |].
      * apply (nodes_ok_ext m); [intros q Hq; by rewrite Hm1, decide_False|done].
      * intros i. apply (linked_ext m); [intros; apply Hx1|done].
      * by rewrite Hm1, decide_True.
      * intros x k Hx. destruct (Hn x k Hx) as (? & _ & _). destruct Hs as [[_ Hs]|(? & _)]; [|lia]. by apply (Hs x).
      * exists m', L'. split; [done|]. split; [done|]. split; [|intros; by rewrite Hx'].
        intros q. rewrite Hm', Hm1. by destruct (decide (q = head)).
    + exists m, (levels h). split; [done|]. split; [|split; [|done]].
      * split; [done| |done]. exists s, g, a, (levels h). split; [done|]. split; [lia|]. split; [done|]. intros _.
        destruct Hs as [[? _]|(_ & (k & Hk & ?) & _)]; [done|]. exists y. rewrite Hk. f_equal. pose proof (Hmax y k Hk). lia.
      * intros q. destruct (decide (q = head)) as [->|]; done.
Qed.

Lemma delete_spec m Lv e l s g a L : SkInv m Lv -> meta m head = Some (s, g, a, L) -> Lv !! e = Some l ->
  exists m' prev L', LLA_SkiplistDelete head e m = Ret (m', prev) /\ SkInv m' (delete e Lv) /\
    (forall q, meta m' q = if decide (q = head) then Some (s, g, a, L') else meta m q) /\
    (forall q i, q <> head -> Lv !! q = None -> nx m' q i = nx m q i).
Proof.
  intros HI Hh He. destruct (sk_head _ _ HI) as (s' & g' & a' & L' & Hh' & HL & Hmax & Htight).
  rewrite Hh in Hh'. injection Hh' as <- <- <- <-.
  destruct (sk_nodes _ _ HI e l He) as (He0 & Heh & Hl & se & ge & ae & Hme & Hfit).
  destruct (search_spec m Lv e s g a L HI He0 Hh) as (y & prev & Hs & Hy & Hprev).
  assert (y = e) as ->.
  { apply (is_succ_unique Lv (e - 1) 0); [done|]. right. split; [lia|]. split; [exists l; split; [done|lia]|]. lia. }
  unfold LLA_SkiplistDelete. rewrite Hs. obind. rewrite check_true by apply Z.eqb_refl. obind.
  assert (Ee : levels <$> m !! e = Some l).
  { unfold meta in Hme. apply fmap_Some in Hme as (n & -> & E). injection E. intros. simpl. by subst. }
  apply fmap_Some in Ee as (n & -> & ->). obind.
  destruct (unlink_levels Lv e (levels n) prev (Z.to_nat (levels n)) 0 m) as (m1 & Hu & Hm1 & Hl1 & Hx1); try done; try lia; try apply HI.
  - by exists s, g, a, L.
  - intros i Hi. apply Hprev. pose proof (Hmax e _ He). lia.
  - intros i _. apply HI.
  - intros i Hi q [H0 _]. lia.
  - rewrite Z2Nat.id in Hu by lia. rewrite Hu. obind.
    destruct (shrink_spec (Z.to_nat kMaxLevel) m1 (delete e Lv) s g a L) as (m' & L' & Hsh & HI' & Hm' & Hx'); try done.
    + intros x k [_ Hx]%lookup_delete_Some. destruct (sk_nodes _ _ HI x k Hx) as (? & ? & ? & sx & gx & ax & Hmx & ?).
      split; [done|]. split; [done|]. split; [done|]. exists sx, gx, ax. by rewrite Hm1.
    + by rewrite Hm1.
    + change kMaxLevel with 30 in *. lia.
    + intros x k [_ Hx]%lookup_delete_Some. by apply (Hmax x).
    + rewrite Hsh. obind. exists m', prev, L'. split; [done|]. split; [done|]. split.
      * intros q. by rewrite Hm', Hm1.
      * intros q i Hqh Hq. rewrite Hx'. by apply Hx1.
Qed.

(** Changes that the list does not see. *)
Lemma SkInv_ext m m' Lv : SkInv m Lv -> (forall q, q = head \/ is_Some (Lv !! q) -> m' !! q = m !! q) -> SkInv m' Lv.
Proof.
  intros [Hn Hh Hl] H. split.
  - intros x l Hx. destruct (Hn x l Hx) as (? & ? & ? & s & g & a & Hm & ?). split; [done|]. split; [done|]. split; [done|].
    exists s, g, a. unfold meta. rewrite H by eauto. done.
  - destruct Hh as (s & g & a & l & Hm & ?). exists s, g, a, l. unfold meta. rewrite H by eauto. done.
  - intros i. apply (linked_ext m); [|done]. intros q [_ [[-> _]|(l & Hq & _)]]; unfold nx; rewrite H; eauto.
Qed.
End Links.

(** The free list is a sorted set. In a list with the nodes [Lv]: the search
    returns the lowest node at or above an address; inserting a node that fits
    its block and deleting a node of the list return with exactly that node added
    or removed, every link again leading to the next node of its level, and no
    field of another block changed. *)
Theorem skiplist_refines_set (head : Z) (m : memory) (Lv : gmap Z Z) (e s g a L : Z) :
  SkInv head m Lv -> meta m head = Some (s, g, a, L) -> 0 < e -> e <> head ->
  (exists y prev, LLA_SkiplistSearch head e m = Ret (y, prev) /\ is_succ Lv (e - 1) 0 y) /\
  (forall se ge ae l, Lv !! e = None -> meta m e = Some (se, ge, ae, l) -> 1 <= l < kMaxLevel -> l <= (se - kNextOffset) / 8 ->
     exists m' prev, LLA_SkiplistInsert head e m = Ret (m', prev) /\ SkInv head m' (<[e := l]> Lv) /\
       forall q, q <> head -> meta m' q = meta m q) /\
  (forall l, Lv !! e = Some l ->
     exists m' prev, LLA_SkiplistDelete head e m = Ret (m', prev) /\ SkInv head m' (delete e Lv) /\
       forall q, q <> head -> meta m' q = meta m q).
Proof.
  intros HI Hh He Heh. split; [|split].
  - destruct (search_spec head m Lv e s g a L HI He Hh) as (y & prev & E & Hs & _). by exists y, prev.
  - intros se ge ae l Hn Hm Hl Hfit.
    destruct (insert_spec head m Lv e s g a L se ge ae l HI Hh Hn Heh He Hm Hl Hfit) as (m' & prev & p0 & E & HI' & Hm' & _).
    exists m', prev. split; [done|]. split; [done|]. intros q Hq. by rewrite Hm', decide_False.
  - intros l Hl. destruct (delete_spec head m Lv e l s g a L HI Hh Hl) as (m' & prev & L' & E & HI' & Hm' & _).
    exists m', prev. split; [done|]. split; [done|]. intros q Hq. by rewrite Hm', decide_False.
Qed.

(** An empty list with a block of 64 bytes at 1024. *)
Definition toy_list : memory :=
  {[8 := mkNode 0 0 0 0 zero_links; 1024 := mkNode 64 0 0 1 ∅]}.
Lemma toy_list_inv : SkInv 8 toy_list ∅.
Proof.
  split.
  - intros x l H. by rewrite lookup_empty in H.
  - exists 0, 0, 0, 0. split; [reflexivity|]. split; [done|]. split; [|lia]. intros x k H. by rewrite lookup_empty in H.
  - intros i p [H0 [[-> Hi]|(l & H & _)]]; [|by rewrite lookup_empty in H]. exists 0. split.
    + unfold nx. change (toy_list !! 8) with (Some (mkNode 0 0 0 0 zero_links)).
      cbn [mbind option_bind next]. apply zero_links_lookup. lia.
    + left. split; [done|]. intros z l H. by rewrite lookup_empty in H.
Qed.
Lemma skiplist_refines_set_witness :
  exists m' prev, LLA_SkiplistInsert 8 1024 toy_list = Ret (m', prev) /\ SkInv 8 m' {[1024 := 1]}.
Proof.
  destruct (skiplist_refines_set 8 toy_list ∅ 1024 0 0 0 0 toy_list_inv) as (_ & Hi & _); [reflexivity|lia|lia|].
  destruct (Hi 64 0 0 1) as (m' & prev & E & HI & _); [reflexivity|reflexivity|unfold kMaxLevel; lia|by vm_compute|].
  exists m', prev. split; [exact E|exact HI].
Defined.
