(* ===== verification/LowLevelAlloc.v ===== *)
(** * The low-level allocator

    Models the second half of src/src/src/base/low_level_alloc.cc: the arena
    with its address-ordered free list, splitting and coalescing of blocks,
    allocation and release. The arena is at address [self]; the virtual method
    [MapPages] of its pages allocator is an argument of the allocation, the
    default one is modelled over what [mmap] returns. The state is the memory of
    block headers, the static variable of [Random] and the count of
    allocated blocks. *)
From S2P Require Import Prelude SkipList.

Definition kMinimalRegion : Z := Z.shiftl 1 20.
Definition kMagicAllocated : Z := 0x4c833e95.
Definition kMagicUnallocated : Z := Z.lnot kMagicAllocated.
Definition Magic (magic ptr : Z) : Z := Z.lxor magic ptr.
(** [RoundUp] on 64-bit words. *)
Definition RoundUp (addr align : Z) : Z := u64 (Z.land (addr + align - 1) (Z.lnot (align - 1))).

(** The address of the list head in an arena. *)
Definition freelist (arena : Z) : Z := arena + 8.

Record Arena := mkArena { mem : memory; rnd : Z; allocation_count : Z }.

Module LLA.
(** The constructor: [roundup], [min_size] and the empty list. *)
Fixpoint double_up (fuel : nat) (roundup target : Z) : Z :=
  match fuel with
  | O => roundup
  | S fuel => if roundup <? target then double_up fuel (roundup + roundup) target else roundup
  end.
Definition roundup : Z := double_up 64 16 kHeaderSize.
Definition min_size : Z := 2 * roundup.
Definition empty_head (self : Z) : AllocList :=
  mkNode 0 (Magic kMagicUnallocated (freelist self)) self 0 zero_links.
Definition new (self r : Z) : Arena := mkArena {[freelist self := empty_head self]} r 0.

(** Stores of the header fields. *)
Definition write_header (p s g a : Z) (m : memory) : memory :=
  let n := default (mkNode 0 0 0 0 ∅) (m !! p) in <[p := mkNode s g a (levels n) (next n)]> m.

(** [Next]. *)
Definition Next (self i prev : Z) (m : memory) : outcome Z :=
  np ← deref (m !! prev);
  _ ← check (i <? levels np);
  x ← get_next (freelist self) m prev i;
  if x =? 0 then Ret x else
  nx ← deref (m !! x);
  _ ← check (magic nx =? Magic kMagicUnallocated x);
  _ ← check (arena nx =? self);
  _ ← (if negb (prev =? freelist self) then
         _ ← check (prev <? x); check (prev + size np <? x)
       else Ret tt);
  Ret x.

Definition Coalesce (a : Z) (m : memory) (r : Z) : outcome (memory * Z) :=
  na ← deref (m !! a);
  n ← get_next (freelist (arena na)) m a 0;
  if negb (n =? 0) && (a + size na =? n) then
    nn ← deref (m !! n);
    let head := freelist (arena na) in
    let m := write_header a (size na + size nn) (magic na) (arena na) m in
    let m := write_header n (size nn) 0 0 m in
    '(m, _) ← LLA_SkiplistDelete head n m;
    '(m, _) ← LLA_SkiplistDelete head a m;
    '(l, r) ← LLA_SkiplistLevels (size na + size nn) min_size true r;
    m ← set_levels m a l;
    '(m, _) ← LLA_SkiplistInsert head a m;
    Ret (m, r)
  else Ret (m, r).

Definition AddToFreelist (self v : Z) (m : memory) (r : Z) : outcome (memory * Z) :=
  let f := v - kHeaderSize in
  nf ← deref (m !! f);
  _ ← check (magic nf =? Magic kMagicAllocated f);
  _ ← check (arena nf =? self);
  '(l, r) ← LLA_SkiplistLevels (size nf) min_size true r;
  m ← set_levels m f l;
  '(m, prev) ← LLA_SkiplistInsert (freelist self) f m;
  let m := write_header f (size nf) (Magic kMagicUnallocated f) (arena nf) m in
  '(m, r) ← Coalesce f m r;
  p0 ← deref (prev !! 0);
  Coalesce p0 m r.

Definition Free (v : Z) (A : Arena) : outcome Arena :=
  if v =? 0 then Ret A else
  let f := v - kHeaderSize in
  nf ← deref (mem A !! f);
  _ ← check (magic nf =? Magic kMagicAllocated f);
  '(m, r) ← AddToFreelist (arena nf) v (mem A) (rnd A);
  _ ← check (allocation_count A >? 0);
  Ret (mkArena m r (s32 (allocation_count A - 1))).

Definition UsableSize (p : Z) (A : Arena) : outcome Z :=
  f ← deref (mem A !! (p - kHeaderSize)); Ret (u64 (size f - kHeaderSize)).

(** [DefaultPagesAllocator::MapPages]; [mmap] gives the address for a size,
    or fails. *)
Definition MapPages (pagesize : Z) (mmap : Z -> option Z) (size : Z) : outcome (Z * Z) :=
  let actual_size := u64 (size + Z.land (u64 (Z.lnot size + 1)) (pagesize - 1)) in
  let actual_size := if actual_size <? size then size else actual_size in
  match mmap actual_size with
  | Some addr => Ret (addr, actual_size)
  | None => Fault OOM
  end.

Definition InsertAllocatedMemoryLocked (self new_pages new_pages_size : Z) (m : memory) (r : Z) : outcome (memory * Z) :=
  let m := write_header new_pages new_pages_size (Magic kMagicAllocated new_pages) self m in
  AddToFreelist self (new_pages + kHeaderSize) m r.

(** The first fit on level [i], or null. *)
Fixpoint first_fit (fuel : nat) (self i req_rnd before : Z) (m : memory) : outcome Z :=
  s ← Next self i before m;
  if s =? 0 then Ret 0 else
  n ← deref (m !! s);
  if size n <? req_rnd then match fuel with O => Fault OutOfFuel | S fuel => first_fit fuel self i req_rnd s m end
  else Ret s.

(** One round of the loop of [AllocWithArena]: a region that fits, or more
    memory in the free list. *)
Definition alloc_round (self : Z) (map_pages : Z -> outcome (Z * Z)) (req_rnd : Z) (s : memory * Z) :
    outcome ((memory * Z) + (Z * memory * Z)) :=
  let '(m, r) := s in
  '(l, _) ← LLA_SkiplistLevels req_rnd min_size false r;
  let i := l - 1 in
  h ← deref (m !! freelist self);
  s ← (if i <? levels h then first_fit (length (map_to_list m)) self i req_rnd (freelist self) m else Ret 0);
  if negb (s =? 0) then Ret (inr (s, m, r)) else
  '(new_pages, new_pages_size) ← map_pages (RoundUp req_rnd kMinimalRegion);
  '(m, r) ← InsertAllocatedMemoryLocked self new_pages new_pages_size m r;
  Ret (inl (m, r)).

(** Take the region [s] out of the free list and split off what is left. *)
Definition take_region (self req_rnd s : Z) (m : memory) (r : Z) : outcome (memory * Z) :=
  '(m, _) ← LLA_SkiplistDelete (freelist self) s m;
  ns ← deref (m !! s);
  '(m, r) ← (if u64 (req_rnd + min_size) <=? size ns then
      let n := req_rnd + s in
      let m := write_header n (size ns - req_rnd) (Magic kMagicAllocated n) self m in
      let m := write_header s req_rnd (magic ns) (arena ns) m in
      AddToFreelist self (n + kHeaderSize) m r
    else Ret (m, r));
  ns ← deref (m !! s);
  let m := write_header s (size ns) (Magic kMagicAllocated s) (arena ns) m in
  _ ← check (arena ns =? self);
  Ret (m, r).

Definition AllocWithArena (self : Z) (map_pages : Z -> outcome (Z * Z)) (request : Z) (A : Arena) : outcome (Z * Arena) :=
  if request =? 0 then Ret (0, A) else
  let req_rnd := RoundUp (u64 (request + kHeaderSize)) roundup in
  '(s, m, r) ← loop 2 (alloc_round self map_pages req_rnd) (mem A, rnd A);
  '(m, r) ← take_region self req_rnd s m r;
  Ret (s + kHeaderSize, mkArena m r (s32 (allocation_count A + 1))).
End LLA.

(** ** The free list

    [F] maps the free blocks to their sizes. All memory of the arena is among
    the bytes [W], of which no 16 GiB are contiguous: blocks of that size
    would need more levels than the list has. *)
Lemma obind_ret {A B} (f : A -> outcome B) (c : outcome A) (a : A) : c = Ret a -> (c ≫= f) = f a.
Proof. by intros ->. Qed.
(** Run one step of an outcome whose result is known. *)
Ltac run E := rewrite (obind_ret _ _ _ E); cbv beta iota.

Module LLAInv.
Import LLA.
#[local] Strategy opaque [Random LLA_SkiplistLevels LLA_SkiplistDelete LLA_SkiplistInsert LLA_SkiplistSearch].
(** Non-null addresses, with a hole in every stretch of 16 GiB. *)
Record holed (W : Z -> Prop) : Prop := {
  ho_pos : forall b, W b -> 0 < b;
  ho_hole : forall x, exists b, x <= b < x + 2 ^ 34 /\ ~ W b }.
Section Inv.
Context (self : Z) (W : Z -> Prop) (HW : holed W).
Notation head := (freelist self).
Implicit Types (F U : gmap Z Z) (m : memory).

Definition blk_ok (x s : Z) : Prop := 0 < x /\ s < 2 ^ 34 /\ 64 <= s /\ (32 | x) /\ (32 | s) /\ forall b, x <= b < x + s -> W b.
Lemma blk_intro x s : 64 <= s -> (32 | x) -> (32 | s) -> (forall b, x <= b < x + s -> W b) -> blk_ok x s.
Proof using HW.
  intros Hs Hx Hd Hb. split; [apply (ho_pos _ HW), Hb; lia|]. split; [|done].
  destruct (ho_hole _ HW x) as (b & Hr & Hn). destruct (Z.lt_ge_cases s (2 ^ 34)); [done|]. destruct Hn. apply Hb. lia.
Qed.
Definition cover F (b : Z) : Prop := exists x s, F !! x = Some s /\ x <= b < x + s.

Record FInv (m : memory) (r : Z) (F : gmap Z Z) (E : Z -> Prop) : Prop := {
  fi_list : exists Lv, SkInv head m Lv /\ (forall x, is_Some (F !! x) <-> is_Some (Lv !! x)) /\
    forall x s l, F !! x = Some s -> Lv !! x = Some l -> min_levels s <= l /\ meta m x = Some (s, Magic kMagicUnallocated x, self, l);
  fi_block : forall x s, F !! x = Some s -> blk_ok x s;
  fi_apart : forall x s y t, F !! x = Some s -> F !! y = Some t -> x < y -> x + s <= y;
  fi_merged : forall x s, F !! x = Some s -> ~ E x -> F !! (x + s) = None;
  fi_rnd : 0 <= r < 2 ^ 32;
  fi_head : exists L, meta m head = Some (0, Magic kMagicUnallocated head, self, L);
  fi_out : forall x s, F !! x = Some s -> head < x \/ x + s <= head }.

Lemma min_size_val : min_size = 64.
Proof. reflexivity. Qed.
Lemma blk_size x s : blk_ok x s -> size_ok s.
Proof using. intros (? & ? & ? & _). unfold size_ok. lia. Qed.

(** Stores of headers. *)
Lemma write_header_meta p s g a m q : meta (write_header p s g a m) q =
  if decide (q = p) then Some (s, g, a, levels (default (mkNode 0 0 0 0 ∅) (m !! p))) else meta m q.
Proof. unfold meta, write_header. destruct (decide (q = p)) as [->|]; [by rewrite lookup_insert_eq|by rewrite lookup_insert_ne]. Qed.
Lemma write_header_nx p s g a m q i : is_Some (m !! p) -> nx (write_header p s g a m) q i = nx m q i.
Proof.
  intros [n Hn]. unfold nx, write_header. rewrite Hn. simpl.
  destruct (decide (q = p)) as [->|]; [by rewrite lookup_insert_eq, Hn|by rewrite lookup_insert_ne].
Qed.
Lemma write_header_ne p s g a m q : q <> p -> write_header p s g a m !! q = m !! q.
Proof. intros. unfold write_header. by rewrite lookup_insert_ne. Qed.
Lemma meta_some m p s g a l : meta m p = Some (s, g, a, l) ->
  exists n, m !! p = Some n /\ size n = s /\ magic n = g /\ arena n = a /\ levels n = l.
Proof. unfold meta. intros (n & Hn & E)%fmap_Some. exists n. split; [done|]. by injection E. Qed.

(** The list does not see magics and arenas, and blocks may grow. *)
Lemma SkInv_weaken m m' Lv : SkInv head m Lv -> (forall q i, nx m' q i = nx m q i) ->
  (forall q s g a l, meta m q = Some (s, g, a, l) -> exists s' g' a', meta m' q = Some (s', g', a', l) /\ s <= s') ->
  SkInv head m' Lv.
Proof.
  intros [Hn Hh Hl] Hx Hm. split.
  - intros x l Hx'. destruct (Hn x l Hx') as (? & ? & ? & s & g & a & Hmx & ?). split; [done|]. split; [done|]. split; [done|].
    destruct (Hm _ _ _ _ _ Hmx) as (s' & g' & a' & Hm' & ?). exists s', g', a'. split; [done|].
    etrans; [done|]. apply Z.div_le_mono; lia.
  - destruct Hh as (s & g & a & l & Hmh & H). destruct (Hm _ _ _ _ _ Hmh) as (s' & g' & a' & Hm' & _). by exists s', g', a', l.
  - intros i. apply (linked_ext head m); [intros; apply Hx|done].
Qed.

(** The free block after [a] in the list, from the link of level 0. *)
Lemma next0 m r F E a s : FInv m r F E -> F !! a = Some s ->
  exists y, get_next head m a 0 = Ret y /\ (y <> 0 /\ a + s = y <-> is_Some (F !! (a + s))).
Proof using HW.
  intros HI Ha. destruct (fi_list _ _ _ _ HI) as (Lv & HS & Hdom & _).
  assert (Hla : is_Some (Lv !! a)) by (apply Hdom; eauto). destruct Hla as [l Hla].
  destruct (sk_nodes _ _ _ HS a l Hla) as (Ha0 & Hah & Hl & _).
  destruct (skip_next_ok head m Lv a 0 HS) as (y & Hy & _ & Hs); [apply (on_node _ _ _ _ l); [done|lia]|].
  exists y. split; [done|]. rewrite key_node in Hs by done. destruct (fi_block _ _ _ _ HI a s Ha) as (? & ? & ? & _).
  split.
  - intros [Hy0 ->]. destruct Hs as [[? _]|(_ & (k & Hk & _) & _)]; [done|]. apply Hdom. eauto.
  - intros [t Ht]. assert (Hlt : is_Some (Lv !! (a + s))) by (apply Hdom; eauto). destruct Hlt as [k Hk].
    destruct (sk_nodes _ _ _ HS _ _ Hk) as (_ & _ & ? & _).
    enough (y = a + s) by lia. apply (is_succ_unique Lv a 0); [done|]. right. split; [lia|]. split; [exists k; split; [done|lia]|].
    intros z c Hz ?. assert (Hfz : is_Some (F !! z)) by (apply Hdom; eauto). destruct Hfz as [t' Hfz].
    pose proof (fi_apart _ _ _ _ HI a s z t' Ha Hfz ltac:(lia)). lia.
Qed.

(** Joining [a] with a free block right after it. *)
Definition merge F (a s : Z) : gmap Z Z :=
  match F !! (a + s) with Some t => <[a := s + t]> (delete (a + s) F) | None => F end.

Lemma merge_cover F a s b : F !! a = Some s -> 0 < s -> (forall t, F !! (a + s) = Some t -> 0 <= t) ->
  cover (merge F a s) b <-> cover F b.
Proof.
  intros Ha Hs Ht. unfold merge. destruct (F !! (a + s)) as [t|] eqn:Hn; [|done]. specialize (Ht t eq_refl).
  unfold cover. split.
  - intros (x & u & [[<- <-]|[Hax [Hnx Hx]%lookup_delete_Some]]%lookup_insert_Some & Hb); [|by eauto].
    destruct (Z.lt_ge_cases b (a + s)); [exists a, s; split; [done|lia]|exists (a + s), t; split; [done|lia]].
  - intros (x & u & Hx & Hb). destruct (decide (x = a)) as [->|Hxa].
    + exists a, (s + t). rewrite lookup_insert_eq. split; [done|]. rewrite Ha in Hx. injection Hx as <-. lia.
    + destruct (decide (x = a + s)) as [->|Hxn].
      * exists a, (s + t). rewrite lookup_insert_eq. split; [done|]. rewrite Hn in Hx. injection Hx as <-. lia.
      * exists x, u. rewrite lookup_insert_ne, lookup_delete_ne by done. done.
Qed.

(** The header stores of [Coalesce]. *)
Lemma join_headers m Lv a n s t la gn an kn : SkInv head m Lv -> a <> n -> 0 <= t ->
  meta m a = Some (s, Magic kMagicUnallocated a, self, la) -> meta m n = Some (t, gn, an, kn) ->
  let m2 := write_header n t 0 0 (write_header a (s + t) (Magic kMagicUnallocated a) self m) in
  SkInv head m2 Lv /\ forall q, meta m2 q = if decide (q = n) then Some (t, 0, 0, kn) else
      if decide (q = a) then Some (s + t, Magic kMagicUnallocated a, self, la) else meta m q.
Proof.
  intros HS Han Ht Hma Hmn m2.
  destruct (meta_some _ _ _ _ _ _ Hma) as (na & Hna & Hsa & _ & _ & Hla), (meta_some _ _ _ _ _ _ Hmn) as (nn & Hnn & Hsn & _ & _ & Hln).
  assert (Hm2 : forall q, meta m2 q = if decide (q = n) then Some (t, 0, 0, kn) else
      if decide (q = a) then Some (s + t, Magic kMagicUnallocated a, self, la) else meta m q).
  { intros q. unfold m2. rewrite write_header_meta. destruct (decide (q = n)) as [->|].
    - rewrite write_header_ne by done. rewrite Hnn. simpl. by subst.
    - rewrite write_header_meta. destruct (decide (q = a)) as [->|]; [|done]. rewrite Hna. simpl. by subst. }
  split; [|exact Hm2]. apply (SkInv_weaken m); [done| |].
  - intros q i. unfold m2. rewrite !write_header_nx; [done|by eauto|]. rewrite write_header_ne by done. eauto.
  - intros q sq gq aq lq Hq. rewrite Hm2. destruct (decide (q = n)) as [->|].
    + rewrite Hmn in Hq. injection Hq as <- <- <- <-. eexists _, _, _. split; [done|lia].
    + destruct (decide (q = a)) as [->|]; [|exists sq, gq, aq; split; [done|lia]]. rewrite Hma in Hq. injection Hq as <- <- <- <-.
      eexists _, _, _. split; [done|lia].
Qed.
(** A node outside the list gets its levels and is inserted. *)
Lemma enlist m r Lv a s g l0 L : SkInv head m Lv -> 0 <= r < 2 ^ 32 ->
  meta m head = Some (0, Magic kMagicUnallocated head, self, L) -> Lv !! a = None -> a <> head -> 0 < a ->
  size_ok s -> meta m a = Some (s, g, self, l0) ->
  exists l r' m1 m2 prev p0, LLA_SkiplistLevels s min_size true r = Ret (l, r') /\ set_levels m a l = Ret m1 /\
    LLA_SkiplistInsert head a m1 = Ret (m2, prev) /\ prev !! 0 = Some p0 /\ is_pred head Lv a 0 p0 /\
    SkInv head m2 (<[a := l]> Lv) /\ 0 <= r' < 2 ^ 32 /\ min_levels s <= l /\
    meta m2 a = Some (s, g, self, l) /\ (exists L', meta m2 head = Some (0, Magic kMagicUnallocated head, self, L')) /\
    forall q, q <> head -> q <> a -> meta m2 q = meta m q.
Proof.
  intros HS Hr Hh Ha Hah Ha0 Hsz Hma.
  destruct (levels_spec s true r Hsz Hr) as (l & r' & Hlev & Hr' & Hl & Hfit & Hmin & _). rewrite <- min_size_val in Hlev.
  destruct (set_levels_spec m a l _ _ _ _ Hma) as (m5 & Hset & Hm5 & Hx5).
  assert (HS5 : SkInv head m5 Lv).
  { apply (SkInv_ext head m); [done|]. intros q Hq. unfold set_levels in Hset.
    destruct (meta_some _ _ _ _ _ _ Hma) as (n4 & Hn4 & _). rewrite Hn4 in Hset. injection Hset as <-.
    apply lookup_insert_ne. intros <-. destruct Hq as [?|[k Hk]]; congruence. }
  assert (Hh5 : meta m5 head = Some (0, Magic kMagicUnallocated head, self, L)) by (rewrite Hm5, decide_False by congruence; done).
  destruct (insert_spec head m5 _ a _ _ _ _ s g self l HS5 Hh5 Ha Hah Ha0) as (m6 & prev6 & p6 & Hins & HS6 & Hm6 & _ & Hp0 & Hpred);
    [by rewrite Hm5, decide_True|done|done|].
  exists l, r', m5, m6, prev6, p6. do 8 (split; [done|]). split; [|split].
  - by rewrite Hm6, decide_False, Hm5, decide_True.
  - eexists. by rewrite Hm6, decide_True.
  - intros q Hqh Hqa. rewrite Hm6, decide_False by done. by rewrite Hm5, decide_False.
Qed.
(** Deleting [n] and [a] from the list, growing [a] and inserting it again. *)
Lemma relist m r Lv a n s t L gn an kn : SkInv head m Lv -> 0 <= r < 2 ^ 32 ->
  meta m head = Some (0, Magic kMagicUnallocated head, self, L) -> a <> n ->
  is_Some (Lv !! a) -> is_Some (Lv !! n) -> size_ok (s + t) -> 0 <= t ->
  (exists l, meta m a = Some (s, Magic kMagicUnallocated a, self, l)) -> meta m n = Some (t, gn, an, kn) ->
  let m2 := write_header n t 0 0 (write_header a (s + t) (Magic kMagicUnallocated a) self m) in
  exists m' r' l, ('(m, _) ← LLA_SkiplistDelete head n m2; '(m, _) ← LLA_SkiplistDelete head a m;
    '(l, r) ← LLA_SkiplistLevels (s + t) min_size true r; m ← set_levels m a l;
    '(m, _) ← LLA_SkiplistInsert head a m; Ret (m, r)) = Ret (m', r') /\
  SkInv head m' (<[a := l]> (delete a (delete n Lv))) /\ 0 <= r' < 2 ^ 32 /\ min_levels (s + t) <= l /\
  meta m' a = Some (s + t, Magic kMagicUnallocated a, self, l) /\
  (exists L', meta m' head = Some (0, Magic kMagicUnallocated head, self, L')) /\
  forall q, q <> head -> q <> a -> q <> n -> meta m' q = meta m q.
Proof.
  intros HS Hr Hh Han [la Ha] [ln Hn] Hsz Ht [la' Hma] Hmn m2.
  destruct (sk_nodes _ _ _ HS a la Ha) as (Ha0 & Hah & _), (sk_nodes _ _ _ HS n ln Hn) as (Hn0 & Hnh & _).
  destruct (join_headers m Lv a n s t la' gn an kn HS Han Ht Hma Hmn) as [HS2 Hm2]. fold m2 in HS2, Hm2. clearbody m2.
  assert (Hh2 : meta m2 head = Some (0, Magic kMagicUnallocated head, self, L)) by (rewrite Hm2, !decide_False by congruence; done).
  destruct (delete_spec head m2 Lv n ln _ _ _ _ HS2 Hh2 Hn) as (m3 & prev3 & L3 & E3 & HS3 & Hm3 & _). run E3.
  assert (Hh3 : meta m3 head = Some (0, Magic kMagicUnallocated head, self, L3)) by by rewrite Hm3, decide_True.
  assert (Ha3 : delete n Lv !! a = Some la) by by rewrite lookup_delete_ne.
  destruct (delete_spec head m3 (delete n Lv) a la _ _ _ _ HS3 Hh3 Ha3) as (m4 & prev4 & L4 & E4 & HS4 & Hm4 & _). run E4.
  assert (Hh4 : meta m4 head = Some (0, Magic kMagicUnallocated head, self, L4)) by by rewrite Hm4, decide_True.
  assert (Hma4 : meta m4 a = Some (s + t, Magic kMagicUnallocated a, self, la')).
  { rewrite Hm4, decide_False by done. rewrite Hm3, decide_False by done. by rewrite Hm2, decide_False, decide_True. }
  destruct (enlist m4 r _ a (s + t) _ la' L4 HS4 Hr Hh4 (lookup_delete_eq _ _) Hah Ha0 Hsz Hma4)
    as (l & r' & m5 & m6 & prev & p0 & El & E5 & E6 & _ & _ & HS6 & Hr' & Hmin & Hma6 & Hh6 & Hf6).
  run El. run E5. run E6. exists m6, r', l. do 6 (split; [done|]).
  intros q Hqh Hqa Hqn. rewrite Hf6 by done. rewrite Hm4, decide_False by done. rewrite Hm3, decide_False by done. by rewrite Hm2, !decide_False.
Qed.

Lemma Coalesce_spec m r F E a s : FInv m r F E -> F !! a = Some s -> (is_Some (F !! (a + s)) -> ~ E (a + s)) ->
  exists m' r', Coalesce a m r = Ret (m', r') /\ FInv m' r' (merge F a s) (fun x => E x /\ x <> a) /\
    forall q, q <> head -> F !! q = None -> meta m' q = meta m q.
Proof using HW.
  intros HI Ha HE. destruct (fi_list _ _ _ _ HI) as (Lv & HS & Hdom & Hmeta).
  assert (Hla : is_Some (Lv !! a)) by (apply Hdom; eauto). destruct Hla as [l Hla].
  destruct (Hmeta a s l Ha Hla) as [_ Hma]. destruct (meta_some _ _ _ _ _ _ Hma) as (na & Hna & Hsa & Hga & Haa & _).
  destruct (next0 _ _ _ _ a s HI Ha) as (y & Hy & Hiff). unfold Coalesce. rewrite Hna. cbn [deref]. run (eq_refl (Ret na)).
  rewrite Hsa, Hga, Haa. run Hy. unfold merge. destruct (fi_block _ _ _ _ HI a s Ha) as (Hb1 & Hb2 & Hb3 & Hb4 & Hb5 & Hb6).
  destruct (F !! (a + s)) as [t|] eqn:Hn.
  - destruct (proj2 Hiff) as [Hy0 <-]; [by eauto|]. rewrite (proj2 (Z.eqb_neq _ 0)) by done. rewrite Z.eqb_refl. cbn [negb andb].
    assert (Hln : is_Some (Lv !! (a + s))) by (apply Hdom; eauto). destruct Hln as [ln Hln].
    destruct (Hmeta _ _ _ Hn Hln) as [_ Hmn]. destruct (meta_some _ _ _ _ _ _ Hmn) as (nn & Hnn & Hsn & _).
    rewrite Hnn. cbn [deref]. run (eq_refl (Ret nn)). rewrite Hsn. destruct (fi_head _ _ _ _ HI) as [L Hh].
    destruct (fi_block _ _ _ _ HI _ _ Hn) as (Hc1 & Hc2 & Hc3 & Hc4 & Hc5 & Hc6).
    assert (Hbig : blk_ok a (s + t)).
    { apply blk_intro; [lia|done|by apply Z.divide_add_r|]. intros b Hb. destruct (Z.lt_ge_cases b (a + s)); [apply Hb6|apply Hc6]; lia. }
    destruct (relist m r Lv a (a + s) s t L (Magic kMagicUnallocated (a + s)) self ln HS (fi_rnd _ _ _ _ HI) Hh) as (m' & r' & l' & Heq & HS' & Hr' & Hmin & Hma' & Hh' & Hfr);
      [lia|by eauto|by eauto|by eapply blk_size|lia|by eauto|exact Hmn|].
    exists m', r'. split; [exact Heq|]. split.
    + split.
      * exists (<[a := l']> (delete a (delete (a + s) Lv))). split; [done|]. split.
        -- intros x. destruct (decide (x = a)) as [->|Hxa]; [rewrite !lookup_insert_eq; split; eauto|].
           rewrite !lookup_insert_ne by done. destruct (decide (x = a + s)) as [->|Hxn].
           ++ rewrite (lookup_delete_ne (delete _ Lv)), !lookup_delete_eq by done. split; intros [? ?]; done.
           ++ rewrite !lookup_delete_ne by done. apply Hdom.
        -- intros x u k [[<- <-]|[Hxa [Hxn Hx]%lookup_delete_Some]]%lookup_insert_Some.
           ++ rewrite lookup_insert_eq. intros [= <-]. done.
           ++ rewrite lookup_insert_ne, lookup_delete_ne, lookup_delete_ne by done. intros Hk.
              destruct (Hmeta x u k Hx Hk) as [? ?]. split; [done|]. rewrite Hfr; [done| |done|done].
              intros ->. by destruct (sk_nodes _ _ _ HS _ _ Hk) as (_ & ? & _).
      * intros x u [[<- <-]|[Hxa [Hxn Hx]%lookup_delete_Some]]%lookup_insert_Some; [done|]. by apply (fi_block _ _ _ _ HI).
      * intros x u z v [[<- <-]|[Hxa [Hxn Hx]%lookup_delete_Some]]%lookup_insert_Some [[<- <-]|[Hza [Hzn Hz]%lookup_delete_Some]]%lookup_insert_Some Hlt; [lia| | |].
        -- assert (a + s <= z) by (by eapply (fi_apart _ _ _ _ HI)). assert (a + s + t <= z); [|lia]. eapply (fi_apart _ _ _ _ HI); [exact Hn|exact Hz|lia].
        -- by eapply (fi_apart _ _ _ _ HI).
        -- by eapply (fi_apart _ _ _ _ HI).
      * intros x u Hx HEx.
        assert (Hnone : forall z, F !! z = None -> z <> a -> <[a := s + t]> (delete (a + s) F) !! z = None).
        { intros z Hz Hza. rewrite lookup_insert_ne by done. apply lookup_delete_None. by right. }
        apply lookup_insert_Some in Hx as [[<- <-]|[Hxa [Hxn Hx]%lookup_delete_Some]].
        -- rewrite Z.add_assoc. apply Hnone; [|lia]. apply (fi_merged _ _ _ _ HI); eauto.
        -- destruct (fi_block _ _ _ _ HI x u Hx) as (? & ? & ? & _).
           assert (F !! (x + u) = None) by (apply (fi_merged _ _ _ _ HI); [done|]; intros ?; apply HEx; by split).
           apply Hnone; [done|]. intros E'. rewrite E', Ha in H2. done.
      * done.
      * done.
      * intros x u [[<- <-]|[Hxa [Hxn Hx]%lookup_delete_Some]]%lookup_insert_Some; [|by apply (fi_out _ _ _ _ HI)].
        destruct (fi_out _ _ _ _ HI _ _ Ha); [by left|]. destruct (fi_out _ _ _ _ HI _ _ Hn); [|right; lia].
        exfalso. lia.
    + intros q Hqh Hq. apply Hfr; congruence.
  - assert (Hc : negb (y =? 0) && (a + s =? y) = false).
    { apply andb_false_iff. rewrite negb_false_iff, Z.eqb_eq, Z.eqb_neq. destruct (decide (y = 0)) as [?|Hy0]; [by left|right].
      intros Hys. by destruct (proj1 Hiff (conj Hy0 Hys)). }
    rewrite Hc. exists m, r. split; [done|]. split; [|done]. destruct HI as [H1 H2 H3 H4 H5 H6 H7]. split; [exact H1|exact H2|exact H3| |exact H5|exact H6|exact H7].
    intros x u Hx HEx. destruct (decide (x = a)) as [->|]; [congruence|]. apply H4; tauto.
Qed.

(** The head of the list is next to no block. *)
Lemma Coalesce_head m r F E : FInv m r F E -> Coalesce head m r = Ret (m, r).
Proof.
  intros HI. destruct (fi_list _ _ _ _ HI) as (Lv & HS & _). destruct (fi_head _ _ _ _ HI) as [L Hh].
  destruct (meta_some _ _ _ _ _ _ Hh) as (h & Hhm & Hs & _ & Ha & _).
  destruct (skip_next_ok head m Lv head 0 HS) as (y & Hy & _ & Hsu); [by apply on_head|].
  unfold Coalesce. rewrite Hhm. obind. rewrite Ha, Hs, Hy. obind. destruct Hsu as [[-> _]|(_ & (l & Hl & _) & _)]; [done|].
  destruct (sk_nodes _ _ _ HS y l Hl) as (_ & ? & _). rewrite (proj2 (Z.eqb_neq (head + 0) y)) by lia. by rewrite andb_false_r.
Qed.

(** A block apart from the free ones. *)
Definition apart F (f s : Z) : Prop := forall y t, F !! y = Some t -> f + s <= y \/ y + t <= f.
Lemma insert_cover F f s b : F !! f = None -> cover (<[f := s]> F) b <-> cover F b \/ f <= b < f + s.
Proof.
  intros Hf. unfold cover. split.
  - intros (x & u & [[<- <-]|[_ Hx]]%lookup_insert_Some & Hb); [by right|left; by eauto].
  - intros [(x & u & Hx & Hb)|Hb]; [exists x, u; rewrite lookup_insert_ne by congruence; done|].
    exists f, s. by rewrite lookup_insert_eq.
Qed.

(** The free block right before [f] is the predecessor in the list. *)
Lemma pred_adjacent m r F E Lv f s p0 x u : FInv m r F E -> SkInv head m Lv ->
  (forall x, is_Some (F !! x) <-> is_Some (Lv !! x)) -> apart F f s -> 0 < s -> is_pred head Lv f 0 p0 ->
  F !! x = Some u -> x + u = f -> x = p0.
Proof using HW.
  intros HI HS Hdom Hap Hs (Hon & Hlt & Hno) Hx Hxu. destruct (fi_block _ _ _ _ HI x u Hx) as (? & ? & ? & _).
  assert (Hlx : is_Some (Lv !! x)) by (apply Hdom; eauto). destruct Hlx as [k Hk].
  destruct (sk_nodes _ _ _ HS x k Hk) as (_ & Hxh & ? & _).
  destruct (on_key head m Lv p0 0 (sk_nodes _ _ _ HS) Hon) as [(-> & Hk0)|(Hph & Hk0 & ?)].
  - rewrite Hk0 in Hno. pose proof (Hno x k Hk ltac:(lia)). lia.
  - destruct Hon as [_ [[? _]|(l & Hl & _)]]; [done|]. assert (Hfp : is_Some (F !! p0)) by (apply Hdom; eauto).
    destruct Hfp as [v Hv]. destruct (Z.lt_trichotomy x p0) as [Hxp|[?|Hxp]]; [|done|].
    + pose proof (fi_apart _ _ _ _ HI x u p0 v Hx Hv Hxp). lia.
    + pose proof (Hno x k Hk ltac:(lia)). lia.
Qed.

(** Inserting a block, before it is joined with its neighbours. *)
Lemma add_block m r F f s l0 : FInv m r F (fun _ => False) -> blk_ok f s -> apart F f s -> head < f \/ f + s <= head ->
  meta m f = Some (s, Magic kMagicAllocated f, self, l0) ->
  exists l r1 m1 m2 prev p0, LLA_SkiplistLevels s min_size true r = Ret (l, r1) /\ set_levels m f l = Ret m1 /\
    LLA_SkiplistInsert head f m1 = Ret (m2, prev) /\ prev !! 0 = Some p0 /\ (p0 = head \/ p0 < f /\ is_Some (F !! p0)) /\
    FInv (write_header f s (Magic kMagicUnallocated f) self m2) r1 (<[f := s]> F) (fun x => x = f \/ x = p0) /\
    forall q, q <> head -> q <> f -> meta (write_header f s (Magic kMagicUnallocated f) self m2) q = meta m q.
Proof using HW.
  intros HI Hb Hap Hout Hm. destruct (fi_list _ _ _ _ HI) as (Lv & HS & Hdom & Hmeta). destruct (fi_head _ _ _ _ HI) as [L Hh].
  pose proof Hb as (Hb1 & Hb2 & Hb3 & _). assert (Hfh : f <> head) by lia.
  assert (HFf : F !! f = None).
  { destruct (F !! f) as [t|] eqn:E; [|done]. destruct (fi_block _ _ _ _ HI f t E) as (? & ? & ? & _). destruct (Hap f t E); lia. }
  assert (HLf : Lv !! f = None).
  { destruct (Lv !! f) as [t|] eqn:E; [|done]. assert (is_Some (F !! f)) as [? ?] by (apply Hdom; eauto). congruence. }
  destruct (enlist m r Lv f s _ l0 L HS (fi_rnd _ _ _ _ HI) Hh HLf Hfh ltac:(lia) (blk_size f s Hb) Hm)
    as (l & r1 & m1 & m2 & prev & p0 & E1 & E2 & E3 & Hp0 & Hpred & HS2 & Hr1 & Hmin & Hmf & Hh2 & Hfr).
  exists l, r1, m1, m2, prev, p0. split; [done|]. split; [done|]. split; [done|]. split; [done|].
  destruct (meta_some _ _ _ _ _ _ Hmf) as (nf & Hnf & _ & _ & _ & Hlf).
  set (m3 := write_header f s (Magic kMagicUnallocated f) self m2).
  assert (Hm3 : forall q, meta m3 q = if decide (q = f) then Some (s, Magic kMagicUnallocated f, self, l) else meta m2 q).
  { intros q. unfold m3. rewrite write_header_meta, Hnf. simpl. by rewrite Hlf. }
  assert (HS3 : SkInv head m3 (<[f := l]> Lv)).
  { apply (SkInv_weaken m2); [done|intros; apply write_header_nx; by eauto|]. intros q s' g a k Hq. rewrite Hm3.
    destruct (decide (q = f)) as [->|]; [|exists s', g, a; split; [done|lia]].
    rewrite Hmf in Hq. injection Hq as <- <- <- <-. eexists _, _, _. split; [done|lia]. }
  split; [|split].
  - destruct (on_key head m Lv p0 0 (sk_nodes _ _ _ HS) (proj1 Hpred)) as [(? & _)|(Hph & Hk & _)]; [by left|right].
    split; [rewrite <- Hk; apply Hpred|]. destruct Hpred as ([_ [[? _]|(k & Hk' & _)]] & _); [done|]. apply Hdom. eauto.
  - split.
    + exists (<[f := l]> Lv). split; [done|]. split.
      * intros x. destruct (decide (x = f)) as [->|]; [rewrite !lookup_insert_eq; split; eauto|by rewrite !lookup_insert_ne].
      * intros x u k [[<- <-]|[Hxf Hx]]%lookup_insert_Some.
        -- rewrite lookup_insert_eq. intros [= <-]. split; [done|]. by rewrite Hm3, decide_True.
        -- rewrite lookup_insert_ne by done. intros Hk. destruct (Hmeta x u k Hx Hk) as [? Hmx]. split; [done|].
           rewrite Hm3, decide_False by done. rewrite Hfr; [done| |done].
           intros ->. by destruct (sk_nodes _ _ _ HS _ _ Hk) as (_ & ? & _).
    + intros x u [[<- <-]|[Hxf Hx]]%lookup_insert_Some; [done|by apply (fi_block _ _ _ _ HI)].
    + intros x u y t [[<- <-]|[Hxf Hx]]%lookup_insert_Some [[<- <-]|[Hyf Hy]]%lookup_insert_Some Hlt; [lia| | |].
      * destruct (fi_block _ _ _ _ HI y t Hy) as (? & ? & ? & _). destruct (Hap y t Hy); lia.
      * destruct (fi_block _ _ _ _ HI x u Hx) as (? & ? & ? & _). destruct (Hap x u Hx); lia.
      * by eapply (fi_apart _ _ _ _ HI).
    + intros x u [[<- <-]|[Hxf Hx]]%lookup_insert_Some HE; [tauto|].
      rewrite lookup_insert_ne; [by apply (fi_merged _ _ _ _ HI); auto|]. intros E. apply HE. right. symmetry in E.
      by eapply (pred_adjacent m r F _ Lv f s p0 x u); try done; lia.
    + done.
    + destruct Hh2 as [L' Hh2]. exists L'. by rewrite Hm3, decide_False.
    + intros x u [[<- <-]|[Hxf Hx]]%lookup_insert_Some; [done|by apply (fi_out _ _ _ _ HI)].
  - intros q Hqh Hqf. fold m3. rewrite Hm3, decide_False by done. by apply Hfr.
Qed.

Lemma FInv_weaken m r F (E E' : Z -> Prop) : FInv m r F E -> (forall x, is_Some (F !! x) -> E x -> E' x) -> FInv m r F E'.
Proof.
  intros [H1 H2 H3 H4 H5 H6 H7] HE. split; [exact H1|exact H2|exact H3| |exact H5|exact H6|exact H7].
  intros x s Hx Hn. apply H4; [done|]. intros Ex. apply Hn, HE; eauto.
Qed.
Lemma merge_self F a s : F !! a = Some s -> (forall t, F !! (a + s) = Some t -> 0 <= t) -> exists u, merge F a s !! a = Some u /\ s <= u.
Proof.
  intros Ha Ht. unfold merge. destruct (F !! (a + s)) as [t|] eqn:E; [|exists s; split; [done|lia]].
  exists (s + t). rewrite lookup_insert_eq. specialize (Ht t eq_refl). split; [done|lia].
Qed.
Lemma merge_other F a s x : x <> a -> x <> a + s -> merge F a s !! x = F !! x.
Proof. intros. unfold merge. destruct (F !! (a + s)); [by rewrite lookup_insert_ne, lookup_delete_ne|done]. Qed.
Lemma merge_none F a s q : is_Some (F !! a) -> F !! q = None -> merge F a s !! q = None.
Proof.
  intros [u Ha] Hq. unfold merge. destruct (F !! (a + s)) eqn:E; [|done]. rewrite lookup_insert_ne by congruence.
  apply lookup_delete_None. by right.
Qed.
Lemma fi_nonneg m r F E x t : FInv m r F E -> F !! x = Some t -> 0 <= t.
Proof. intros HI Hx. destruct (fi_block _ _ _ _ HI x t Hx) as (_ & _ & ? & _). lia. Qed.

(** The block joined with its free neighbours: [F'] covers the bytes of [F]
    and the block, and one of its blocks contains it. *)
Definition added F (f s : Z) (F' : gmap Z Z) : Prop :=
  (forall b, cover F' b <-> cover F b \/ f <= b < f + s) /\ exists x t, F' !! x = Some t /\ x <= f /\ f + s <= x + t.

Lemma AddToFreelist_spec m r F f s l0 : FInv m r F (fun _ => False) -> blk_ok f s -> apart F f s -> head < f \/ f + s <= head ->
  meta m f = Some (s, Magic kMagicAllocated f, self, l0) ->
  exists m' r' F', AddToFreelist self (f + kHeaderSize) m r = Ret (m', r') /\ FInv m' r' F' (fun _ => False) /\ added F f s F' /\
    forall q, q <> head -> q <> f -> F !! q = None -> meta m' q = meta m q.
Proof using HW.
  intros HI Hb Hap Hout Hm.
  destruct (add_block m r F f s l0 HI Hb Hap Hout Hm) as (l & r1 & m1 & m2 & prev & p0 & E1 & E2 & E3 & Hp0 & Hp & HI3 & Hfr3).
  destruct (meta_some _ _ _ _ _ _ Hm) as (nf & Hnf & Hs & Hg & Ha & _). destruct Hb as (Hb1 & Hb2 & Hb3 & _).
  unfold AddToFreelist. replace (f + kHeaderSize - kHeaderSize) with f by lia. rewrite Hnf. cbn [deref]. run (eq_refl (Ret nf)).
  rewrite Hs, Hg, Ha, !Z.eqb_refl. cbn [check]. run (eq_refl (Ret tt)). run (eq_refl (Ret tt)).
  run E1. run E2. run E3.
  assert (HFf : F !! f = None).
  { destruct (F !! f) as [t|] eqn:E; [|done]. destruct (fi_block _ _ _ _ HI f t E) as (? & ? & ? & _). destruct (Hap f t E); lia. }
  revert HI3 Hfr3. generalize (write_header f s (Magic kMagicUnallocated f) self m2) as m3. intros m3 HI3 Hfr3.
  destruct (Coalesce_spec m3 r1 _ _ f s HI3 (lookup_insert_eq _ _ _)) as (m4 & r4 & E4 & HI4 & Hfr4).
  { intros [t Ht] [?|He]; [lia|]. destruct Hp as [->|[? _]]; [|lia]. rewrite He in Ht.
    destruct (fi_out _ _ _ _ HI3 _ _ Ht), (fi_block _ _ _ _ HI3 _ _ Ht) as (_ & _ & ? & _); lia. }
  run E4. rewrite Hp0. cbn [deref]. run (eq_refl (Ret p0)).
  set (F2 := merge (<[f := s]> F) f s) in *.
  assert (Hc2 : forall b, cover F2 b <-> cover F b \/ f <= b < f + s).
  { intros b. unfold F2. rewrite merge_cover; [by apply insert_cover|apply lookup_insert_eq|lia|]. intros t Ht. by eapply (fi_nonneg _ _ _ _ _ _ HI3). }
  destruct (merge_self (<[f := s]> F) f s (lookup_insert_eq _ _ _)) as (u & Hu & Hsu).
  { intros t Ht. by eapply (fi_nonneg _ _ _ _ _ _ HI3). }
  fold F2 in Hu.
  assert (Hfr4' : forall q, q <> head -> q <> f -> F !! q = None -> meta m4 q = meta m q).
  { intros q Hqh Hqf Hq. rewrite Hfr4; [by apply Hfr3|done|]. by rewrite lookup_insert_ne. }
  assert (Hn2 : forall q, q <> f -> F !! q = None -> F2 !! q = None).
  { intros q Hqf Hq. apply merge_none; [rewrite lookup_insert_eq; eauto|by rewrite lookup_insert_ne]. }
  destruct Hp as [->|[Hpf [sp Hsp]]].
  - exists m4, r4, F2. split; [by eapply Coalesce_head|]. split; [|split; [split; [done|]|done]].
    + apply (FInv_weaken _ _ _ _ _ HI4). intros x [v Hx] [[->| ->] Hne]; [done|].
      destruct (fi_out _ _ _ _ HI4 _ _ Hx); destruct (fi_block _ _ _ _ HI4 _ _ Hx) as (_ & _ & ? & _); lia.
    + exists f, u. split; [done|]. lia.
  - assert (Hsp2 : F2 !! p0 = Some sp) by (unfold F2; rewrite merge_other, lookup_insert_ne by lia; done).
    destruct (fi_block _ _ _ _ HI p0 sp Hsp) as (? & ? & ? & _).
    destruct (Coalesce_spec m4 r4 F2 _ p0 sp HI4 Hsp2) as (m5 & r5 & E5 & HI5 & Hfr5); [lia|].
    exists m5, r5, (merge F2 p0 sp). split; [exact E5|]. split; [|split; [split|]].
    + apply (FInv_weaken _ _ _ _ _ HI5). intros x _ [[[->| ->] ?] ?]; done.
    + intros b. rewrite merge_cover; [done|done|lia|]. intros t Ht. by eapply (fi_nonneg _ _ _ _ _ _ HI4).
    + destruct (decide (p0 + sp = f)) as [<-|Hne].
      * exists p0, (sp + u). unfold merge. rewrite Hu, lookup_insert_eq. split; [done|lia].
      * exists f, u. rewrite merge_other by lia. split; [done|lia].
    + intros q Hqh Hqf Hq. rewrite Hfr5; [by apply Hfr4'|done|by apply Hn2].
Qed.

(** *** The search for a block *)
Lemma Next_spec m r F Lv L i p : FInv m r F (fun _ => False) -> SkInv head m Lv ->
  (forall x, is_Some (F !! x) <-> is_Some (Lv !! x)) ->
  (forall x s l, F !! x = Some s -> Lv !! x = Some l -> min_levels s <= l /\ meta m x = Some (s, Magic kMagicUnallocated x, self, l)) ->
  meta m head = Some (0, Magic kMagicUnallocated head, self, L) -> i < L -> on head Lv p i ->
  exists y, Next self i p m = Ret y /\ is_succ Lv (key head p) i y.
Proof using HW.
  intros HI HS Hdom Hmeta Hh HiL Hon. destruct (skip_next_ok head m Lv p i HS Hon) as (y & Hy & _ & Hs). exists y. split; [|done].
  assert (Hp : exists np, m !! p = Some np /\ i < levels np /\ (p = head \/ p <> head /\ F !! p = Some (size np))).
  { destruct Hon as [_ [[-> _]|(l & Hl & Hil)]].
    - destruct (meta_some _ _ _ _ _ _ Hh) as (np & Hnp & _ & _ & _ & EL). exists np. split; [done|]. split; [lia|]. by left.
    - assert (Hfp : is_Some (F !! p)) by (apply Hdom; eauto). destruct Hfp as [sp Hsp]. destruct (Hmeta p sp l Hsp Hl) as [_ Hm].
      destruct (meta_some _ _ _ _ _ _ Hm) as (np & Hnp & Es & _ & _ & EL). exists np. split; [done|]. split; [lia|]. right.
      rewrite Es. split; [|done]. by destruct (sk_nodes _ _ _ HS p l Hl) as (_ & ? & _). }
  destruct Hp as (np & Hnp & Hlev & Hcase). unfold Next. rewrite Hnp. cbn [deref]. run (eq_refl (Ret np)).
  rewrite (proj2 (Z.ltb_lt _ _) Hlev). cbn [check]. run (eq_refl (Ret tt)). run Hy.
  destruct Hs as [[-> _]|(Hky & (l & Hl & _) & _)]; [done|].
  destruct (sk_nodes _ _ _ HS y l Hl) as (Hy0 & Hyh & _). rewrite (proj2 (Z.eqb_neq y 0)) by lia.
  assert (Hfy : is_Some (F !! y)) by (apply Hdom; eauto). destruct Hfy as [sy Hsy]. destruct (Hmeta y sy l Hsy Hl) as [_ Hm].
  destruct (meta_some _ _ _ _ _ _ Hm) as (ny & Hny & _ & Hg & Ha & _). rewrite Hny. cbn [deref]. run (eq_refl (Ret ny)).
  rewrite Hg, Ha, !Z.eqb_refl. cbn [check]. run (eq_refl (Ret tt)). run (eq_refl (Ret tt)).
  destruct Hcase as [->|[Hph Hp]].
  - rewrite Z.eqb_refl. cbn [negb]. by run (eq_refl (Ret tt)).
  - rewrite (proj2 (Z.eqb_neq p head)) by done. cbn [negb]. rewrite key_node in Hky by done.
    rewrite (proj2 (Z.ltb_lt _ _) Hky). cbn [check]. run (eq_refl (Ret tt)).
    pose proof (fi_apart _ _ _ _ HI p _ y sy Hp Hsy Hky). pose proof (fi_merged _ _ _ _ HI p _ Hp ltac:(tauto)) as Hnone.
    assert (Hlt : p + size np < y) by (destruct (decide (p + size np = y)) as [E|]; [rewrite E in Hnone; congruence|lia]).
    rewrite (proj2 (Z.ltb_lt _ _) Hlt). cbn [check]. by run (eq_refl (Ret tt)).
Qed.

(** The lowest free block after [k] with room for [req]. *)
Definition fits F (req k y : Z) : Prop :=
  (y = 0 /\ forall x s, F !! x = Some s -> k < x -> s < req) \/
  (0 < y /\ (exists t, F !! y = Some t /\ req <= t) /\ forall x s, F !! x = Some s -> k < x < y -> s < req).

Lemma first_fit_spec m r F Lv L req fuel p : FInv m r F (fun _ => False) -> SkInv head m Lv ->
  (forall x, is_Some (F !! x) <-> is_Some (Lv !! x)) ->
  (forall x s l, F !! x = Some s -> Lv !! x = Some l -> min_levels s <= l /\ meta m x = Some (s, Magic kMagicUnallocated x, self, l)) ->
  meta m head = Some (0, Magic kMagicUnallocated head, self, L) -> min_levels req - 1 < L ->
  on head Lv p (min_levels req - 1) -> (above Lv (key head p) <= fuel)%nat ->
  exists y, first_fit fuel self (min_levels req - 1) req p m = Ret y /\ fits F req (key head p) y.
Proof using HW.
  intros HI HS Hdom Hmeta Hh HL. revert p.
  assert (Hsmall : forall x s l, F !! x = Some s -> Lv !! x = Some l -> l <= min_levels req - 1 -> s < req).
  { intros x s l Hx Hl Hle. destruct (Hmeta x s l Hx Hl) as [Hmin _]. destruct (Z.lt_ge_cases s req) as [|Hge]; [done|].
    pose proof (min_levels_mono _ _ Hge). lia. }
  assert (Hlv : forall x s, F !! x = Some s -> exists l, Lv !! x = Some l).
  { intros x s Hx. assert (is_Some (Lv !! x)) as [l Hl] by (apply Hdom; eauto). eauto. }
  induction fuel as [|fuel IH]; intros p Hon Hf; cbn [first_fit].
  all: destruct (Next_spec m r F Lv L _ p HI HS Hdom Hmeta Hh HL Hon) as (y & Hy & Hs); run Hy.
  all: destruct Hs as [[-> Hs]|(Hky & (l & Hl & Hil) & Hs)];
    [exists 0; split; [done|]; left; split; [done|]; intros x s Hx Hkx; destruct (Hlv x s Hx) as [c Hc]; by eapply (Hsmall x s c), Hs|].
  all: destruct (sk_nodes _ _ _ HS y l Hl) as (Hy0 & Hyh & _); rewrite (proj2 (Z.eqb_neq y 0)) by lia.
  all: assert (Hfy : is_Some (F !! y)) by (apply Hdom; eauto); destruct Hfy as [sy Hsy]; destruct (Hmeta y sy l Hsy Hl) as [_ Hm].
  all: destruct (meta_some _ _ _ _ _ _ Hm) as (ny & Hny & Hsz & _); rewrite Hny; cbn [deref]; run (eq_refl (Ret ny)); rewrite Hsz.
  all: pose proof (above_lt Lv (key head p) y l Hl Hky).
  all: assert (Hbetween : forall x s, F !! x = Some s -> key head p < x < y -> s < req)
    by (intros x s Hx Hkx; destruct (Hlv x s Hx) as [c Hc]; eapply (Hsmall x s c); [done|done|by eapply Hs]).
  all: destruct (Z.ltb_spec sy req); [|exists y; split; [done|]; right; split; [done|]; split; [by eauto|done]].
  - lia.
  - destruct (IH y) as (z & Hz & Hfit).
    + apply (on_node _ _ _ _ l); [done|]. destruct Hon. lia.
    + rewrite key_node by done. lia.
    + exists z. split; [done|]. rewrite key_node in Hfit by done.
      assert (Hstep : forall x s, F !! x = Some s -> key head p < x -> ~ y < x -> s < req).
      { intros x s Hx ? Hnlt. destruct (decide (x = y)) as [->|]; [congruence|]. apply (Hbetween x s Hx). lia. }
      destruct Hfit as [[-> Hfit]|(Hz0 & Hzt & Hfit)]; [left|right].
      * split; [done|]. intros x s Hx Hkx. destruct (Z.lt_ge_cases y x); [by apply (Hfit x)|]. by apply (Hstep x); [| |lia].
      * split; [done|]. split; [done|]. intros x s Hx Hkx.
        destruct (Z.lt_ge_cases y x); [apply (Hfit x); [done|lia]|]. apply (Hstep x); [done|lia|lia].
Qed.

(** The whole search of a round of [AllocWithArena]. *)
Lemma find_spec m r F req : FInv m r F (fun _ => False) -> size_ok req ->
  exists h y, m !! head = Some h /\
    (if min_levels req - 1 <? levels h then first_fit (length (map_to_list m)) self (min_levels req - 1) req head m else Ret 0) = Ret y /\
    fits F req 0 y.
Proof using HW.
  intros HI Hreq. destruct (fi_list _ _ _ _ HI) as (Lv & HS & Hdom & Hmeta). destruct (fi_head _ _ _ _ HI) as [L Hh].
  destruct (meta_some _ _ _ _ _ _ Hh) as (h & Hhm & _ & _ & _ & HL).
  destruct (levels_spec req false 0 Hreq ltac:(lia)) as (l & r' & _ & _ & Hl & _ & _ & Heq). specialize (Heq eq_refl). subst l.
  exists h. rewrite HL. destruct (Z.ltb_spec (min_levels req - 1) L) as [Hlt|Hge].
  - destruct (first_fit_spec m r F Lv L req (length (map_to_list m)) head HI HS Hdom Hmeta Hh Hlt) as (y & Hy & Hfit).
    + apply on_head. lia.
    + apply (above_size head), HS.
    + exists y. rewrite key_head in Hfit. done.
  - exists 0. split; [done|]. split; [done|]. left. split; [done|]. intros x s Hx _.
    assert (is_Some (Lv !! x)) as [k Hk] by (apply Hdom; eauto). destruct (Hmeta x s k Hx Hk) as [Hmin _].
    destruct (sk_head _ _ _ HS) as (? & ? & ? & L' & Hh' & _ & Hmax & _). rewrite Hh in Hh'. injection Hh' as <- <- <- <-.
    pose proof (Hmax x k Hk). destruct (Z.lt_ge_cases s req) as [|Hge']; [done|]. pose proof (min_levels_mono _ _ Hge'). lia.
Qed.

(** *** Taking a block out of the list *)
Lemma remove_block m r F y t : FInv m r F (fun _ => False) -> F !! y = Some t ->
  exists m' prev, LLA_SkiplistDelete head y m = Ret (m', prev) /\ FInv m' r (delete y F) (fun _ => False) /\
    forall q, q <> head -> meta m' q = meta m q.
Proof using HW.
  intros HI Hy. destruct (fi_list _ _ _ _ HI) as (Lv & HS & Hdom & Hmeta). destruct (fi_head _ _ _ _ HI) as [L Hh].
  assert (is_Some (Lv !! y)) as [l Hl] by (apply Hdom; eauto).
  destruct (delete_spec head m Lv y l _ _ _ _ HS Hh Hl) as (m' & prev & L' & E & HS' & Hm' & _). exists m', prev. split; [exact E|]. split.
  - destruct HI as [_ H2 H3 H4 H5 _ H7]. split.
    + exists (delete y Lv). split; [done|]. split.
      * intros x. destruct (decide (x = y)) as [->|]; [rewrite !lookup_delete_eq; split; intros [? ?]; done|by rewrite !lookup_delete_ne].
      * intros x s k [Hxy Hx]%lookup_delete_Some [_ Hk]%lookup_delete_Some. destruct (Hmeta x s k Hx Hk) as [? ?]. split; [done|].
        rewrite Hm', decide_False; [done|]. intros ->. by destruct (sk_nodes _ _ _ HS _ _ Hk) as (_ & ? & _).
    + intros x s [_ Hx]%lookup_delete_Some. by apply H2.
    + intros x s z u [_ Hx]%lookup_delete_Some [_ Hz]%lookup_delete_Some. by eapply H3.
    + intros x s [_ Hx]%lookup_delete_Some HE. apply lookup_delete_None. right. by apply H4.
    + done.
    + exists L'. by rewrite Hm', decide_True.
    + intros x s [_ Hx]%lookup_delete_Some. by apply H7.
  - intros q Hq. by rewrite Hm', decide_False.
Qed.
Lemma FInv_write m r F E p s g a : FInv m r F E -> p <> head -> F !! p = None -> FInv (write_header p s g a m) r F E.
Proof.
  intros HI Hph Hp. destruct (fi_list _ _ _ _ HI) as (Lv & HS & Hdom & Hmeta). destruct (fi_head _ _ _ _ HI) as [L Hh].
  destruct HI as [_ H2 H3 H4 H5 _ H7]. split; [|exact H2|exact H3|exact H4|exact H5| |exact H7].
  - exists Lv. split; [|split; [done|]].
    + apply (SkInv_ext head m); [done|]. intros q Hq. apply write_header_ne. intros ->.
      destruct Hq as [?|Hq]; [done|]. apply Hdom in Hq as [? ?]. congruence.
    + intros x u l Hx Hl. destruct (Hmeta x u l Hx Hl). split; [done|]. rewrite write_header_meta, decide_False; [done|congruence].
  - exists L. by rewrite write_header_meta, decide_False.
Qed.

(** Apart, byte by byte. *)
Lemma apart_cover F f s : 0 < s -> (forall y t, F !! y = Some t -> 0 < t) ->
  (forall b, f <= b < f + s -> ~ cover F b) <-> apart F f s.
Proof.
  intros Hs Hpos. split.
  - intros H y t Hy. specialize (Hpos y t Hy). destruct (Z.le_gt_cases (f + s) y); [by left|right].
    destruct (Z.le_gt_cases (y + t) f); [done|]. exfalso. apply (H (Z.max f y)); [lia|]. exists y, t. split; [done|lia].
  - intros H b Hb (y & t & Hy & Hby). destruct (H y t Hy); lia.
Qed.
Lemma fi_pos m r F E : FInv m r F E -> forall y t, F !! y = Some t -> 0 < t.
Proof. intros HI y t Hy. destruct (fi_block _ _ _ _ HI y t Hy) as (_ & _ & ? & _). lia. Qed.

(** ** The arena: [U] maps the allocated blocks to their sizes. *)
Record Inv (A : Arena) F U : Prop := {
  iv_free : FInv (mem A) (rnd A) F (fun _ => False);
  iv_used : forall x s, U !! x = Some s -> blk_ok x s /\ (head < x \/ x + s <= head) /\
    exists l, meta (mem A) x = Some (s, Magic kMagicAllocated x, self, l);
  iv_apart : forall x s y t, U !! x = Some s -> U !! y = Some t -> x < y -> x + s <= y;
  iv_sep : forall x s, U !! x = Some s -> apart F x s;
  iv_count : allocation_count A = Z.of_nat (base.size U) }.

Lemma apart_grow (R : Z -> Prop) F F' x s : 0 < s -> (forall y t, F !! y = Some t -> 0 < t) -> (forall y t, F' !! y = Some t -> 0 < t) ->
  (forall b, cover F' b -> cover F b \/ R b) -> (forall b, x <= b < x + s -> ~ R b) -> apart F x s -> apart F' x s.
Proof.
  intros Hs HF HF' Hc HR Ha. apply apart_cover; [done|done|]. intros b Hb [H|H]%Hc; [|by apply (HR b)].
  by apply (proj2 (apart_cover F x s Hs HF) Ha b).
Qed.
Lemma used_not_free A F U x s : Inv A F U -> U !! x = Some s -> F !! x = None /\ x <> head.
Proof.
  intros HI Hx. destruct (iv_used _ _ _ HI x s Hx) as ((_ & _ & ? & _) & ? & _). split; [|lia].
  destruct (F !! x) as [t|] eqn:E; [|done]. pose proof (fi_pos _ _ _ _ (iv_free _ _ _ HI) x t E).
  destruct (iv_sep _ _ _ HI x s Hx x t E); lia.
Qed.

(** [Free] of an allocated block. *)
Lemma Free_spec A F U x s : Inv A F U -> U !! x = Some s -> Z.of_nat (base.size U) < 2 ^ 31 ->
  exists A' F', Free (x + kHeaderSize) A = Ret A' /\ Inv A' F' (delete x U) /\ added F x s F'.
Proof using HW.
  intros HI Hx Hcount. destruct (iv_used _ _ _ HI x s Hx) as (Hb & Hout & l & Hm). pose proof Hb as (Hb1 & Hb2 & Hb3 & _).
  destruct (AddToFreelist_spec _ _ F x s l (iv_free _ _ _ HI) Hb (iv_sep _ _ _ HI x s Hx) Hout Hm) as (m' & r' & F' & E & HF' & Hadd & Hfr).
  destruct (meta_some _ _ _ _ _ _ Hm) as (nf & Hnf & _ & Hg & Ha & _). unfold Free. rewrite (proj2 (Z.eqb_neq _ 0)) by (unfold kHeaderSize; lia).
  replace (x + kHeaderSize - kHeaderSize) with x by lia. rewrite Hnf. cbn [deref]. run (eq_refl (Ret nf)).
  rewrite Hg, Ha, Z.eqb_refl. cbn [check]. run (eq_refl (Ret tt)). run E.
  assert (Hsz : Z.of_nat (base.size U) = Z.of_nat (base.size (delete x U)) + 1).
  { rewrite <- (insert_delete_id U x s Hx) at 1. rewrite map_size_insert_None by apply lookup_delete_eq. lia. }
  rewrite (iv_count _ _ _ HI), (proj2 (Z.gtb_lt _ 0)) by lia. cbn [check]. run (eq_refl (Ret tt)).
  eexists _, F'. split; [reflexivity|]. split; [|done]. rewrite s32_small by lia. destruct Hadd as [Hcov _].
  split; simpl; [done| | | |lia].
  - intros y t [Hxy Hy]%lookup_delete_Some. destruct (iv_used _ _ _ HI y t Hy) as (? & ? & k & Hmy). split; [done|]. split; [done|].
    exists k. destruct (used_not_free _ _ _ y t HI Hy). by rewrite Hfr.
  - intros y t z u [_ Hy]%lookup_delete_Some [_ Hz]%lookup_delete_Some. by eapply (iv_apart _ _ _ HI).
  - intros y t [Hxy Hy]%lookup_delete_Some. destruct (iv_used _ _ _ HI y t Hy) as ((_ & _ & ? & _) & _).
    apply (apart_grow (fun b => x <= b < x + s) F); [lia|eapply fi_pos, HI|by eapply fi_pos|apply Hcov| |by apply (iv_sep _ _ _ HI)].
    intros b Hb' Hbx. destruct (Z.lt_ge_cases x y) as [Hlt|Hge].
    + pose proof (iv_apart _ _ _ HI x s y t Hx Hy Hlt). lia.
    + pose proof (iv_apart _ _ _ HI y t x s Hy Hx ltac:(lia)). lia.
Qed.

(** *** Sizes *)
Lemma RoundUp_val x k : 0 <= x -> 0 <= k -> x + 2 ^ k <= 2 ^ 64 -> RoundUp x (2 ^ k) = (x + 2 ^ k - 1) / 2 ^ k * 2 ^ k.
Proof.
  intros Hx Hk Hle. unfold RoundUp. assert (0 < 2 ^ k) by (apply Z.pow_pos_nonneg; lia).
  rewrite <- (Z.ldiff_land _ (2 ^ k - 1)). replace (2 ^ k - 1) with (Z.ones k) by (rewrite Z.ones_equiv; lia). rewrite Z.ldiff_ones_r, Z.shiftl_mul_pow2, Z.shiftr_div_pow2 by lia.
  apply u64_small. pose proof (Z.mul_div_le (x + 2 ^ k - 1) (2 ^ k) ltac:(lia)).
  pose proof (Z.div_pos (x + 2 ^ k - 1) (2 ^ k) ltac:(lia) ltac:(lia)). nia.
Qed.
Lemma round_bounds x k : 0 <= k -> x <= (x + 2 ^ k - 1) / 2 ^ k * 2 ^ k < x + 2 ^ k.
Proof.
  intros Hk. assert (0 < 2 ^ k) by (apply Z.pow_pos_nonneg; lia).
  pose proof (Z.div_mod (x + 2 ^ k - 1) (2 ^ k) ltac:(lia)). pose proof (Z.mod_pos_bound (x + 2 ^ k - 1) (2 ^ k) ltac:(lia)). lia.
Qed.

Definition req_of (request : Z) : Z := RoundUp (u64 (request + kHeaderSize)) roundup.
Definition region_of (request : Z) : Z := RoundUp (req_of request) kMinimalRegion.
Lemma req_of_spec request : 0 < request < 2 ^ 33 ->
  request + kHeaderSize <= req_of request < request + kHeaderSize + 32 /\ (32 | req_of request) /\ size_ok (req_of request).
Proof.
  intros Hr. unfold req_of, size_ok. change kHeaderSize with 32. change roundup with (2 ^ 5). rewrite u64_small by lia.
  rewrite RoundUp_val by lia. pose proof (round_bounds (request + 32) 5 ltac:(lia)).
  assert (Hd : (32 | (request + 32 + 2 ^ 5 - 1) / 2 ^ 5 * 2 ^ 5)) by (exists ((request + 32 + 2 ^ 5 - 1) / 2 ^ 5); lia).
  split; [lia|]. split; [done|]. destruct Hd as [q Hq]. lia.
Qed.
Lemma region_of_spec request : 0 < request < 2 ^ 33 ->
  req_of request <= region_of request < req_of request + 2 ^ 20 /\ (2 ^ 20 | region_of request).
Proof.
  intros Hr. destruct (req_of_spec request Hr) as (_ & _ & H1 & H2). unfold region_of. change kMinimalRegion with (2 ^ 20).
  rewrite RoundUp_val by lia. split; [apply round_bounds; lia|]. by eexists.
Qed.
Lemma MapPages_spec k mmap request : 5 <= k <= 20 -> 0 < request < 2 ^ 33 ->
  MapPages (2 ^ k) mmap (region_of request) =
    match mmap (region_of request) with Some addr => Ret (addr, region_of request) | None => Fault OOM end.
Proof.
  intros Hk Hr. destruct (region_of_spec request Hr) as (Hb & q & Hq). destruct (req_of_spec request Hr) as (_ & _ & H1 & H2).
  revert Hb Hq. generalize (region_of request) as sz. intros sz Hb Hq. unfold MapPages.
  assert (Hz : Z.land (u64 (Z.lnot sz + 1)) (2 ^ k - 1) = 0).
  { replace (2 ^ k - 1) with (Z.ones k) by (rewrite Z.ones_equiv; lia). rewrite Z.land_ones by lia. replace (Z.lnot sz + 1) with (- sz) by (unfold Z.lnot; lia).
    unfold u64. rewrite <- Znumtheory.Zmod_div_mod; [|apply Z.pow_pos_nonneg; lia|lia|exists (2 ^ (64 - k)); rewrite <- Z.pow_add_r by lia; f_equal; lia].
    subst sz. replace (- (q * 2 ^ 20)) with ((- q * 2 ^ (20 - k)) * 2 ^ k); [apply Z_mod_mult|].
    rewrite <- Z.mul_assoc, <- Z.pow_add_r by lia. replace (20 - k + k) with 20 by lia. lia. }
  rewrite Hz, Z.add_0_r, u64_small by lia. by rewrite Z.ltb_irrefl.
Qed.

(** *** Allocation *)
Lemma alloc_round_fit m r F request map_pages x u :
  FInv m r F (fun _ => False) -> 0 < request < 2 ^ 33 -> F !! x = Some u -> req_of request <= u ->
  exists y t, F !! y = Some t /\ req_of request <= t /\ alloc_round self map_pages (req_of request) (m, r) = Ret (inr (y, m, r)).
Proof using HW.
  intros HI Hreq Hx Hu. destruct (req_of_spec request Hreq) as (_ & _ & Hok).
  destruct (levels_spec (req_of request) false r Hok (fi_rnd _ _ _ _ HI)) as (l & r' & Hl & _ & _ & _ & _ & Heq).
  specialize (Heq eq_refl). subst l. rewrite <- min_size_val in Hl.
  destruct (find_spec m r F (req_of request) HI Hok) as (h & y & Hh & Hy & Hfit).
  unfold alloc_round. run Hl. rewrite Hh. cbn [deref]. run (eq_refl (Ret h)). run Hy.
  destruct Hfit as [[-> Hno]|(Hy0 & (t & Hyt & Ht) & _)].
  - destruct (fi_block _ _ _ _ HI x u Hx) as (? & _). pose proof (Hno x u Hx ltac:(lia)). lia.
  - rewrite (proj2 (Z.eqb_neq y 0)) by lia. cbn [negb]. by exists y, t.
Qed.
Lemma alloc_round_spec m r F request map_pages :
  FInv m r F (fun _ => False) -> 0 < request < 2 ^ 33 ->
  (forall addr sz, map_pages (region_of request) = Ret (addr, sz) -> blk_ok addr sz /\ (head < addr \/ addr + sz <= head) /\ apart F addr sz) ->
  (exists y t, F !! y = Some t /\ req_of request <= t /\ (forall x s, F !! x = Some s -> x < y -> s < req_of request) /\
     alloc_round self map_pages (req_of request) (m, r) = Ret (inr (y, m, r))) \/
  ((forall x s, F !! x = Some s -> s < req_of request) /\
   match map_pages (region_of request) with
   | Fault e => alloc_round self map_pages (req_of request) (m, r) = Fault e
   | Ret (addr, sz) => exists m' r' F', alloc_round self map_pages (req_of request) (m, r) = Ret (inl (m', r')) /\
       FInv m' r' F' (fun _ => False) /\ added F addr sz F' /\
       forall q, q <> head -> q <> addr -> F !! q = None -> meta m' q = meta m q
   end).
Proof using HW.
  intros HI Hreq Hmap. destruct (req_of_spec request Hreq) as (_ & _ & Hok).
  destruct (levels_spec (req_of request) false r Hok (fi_rnd _ _ _ _ HI)) as (l & r' & Hl & _ & _ & _ & _ & Heq).
  specialize (Heq eq_refl). subst l. rewrite <- min_size_val in Hl.
  destruct (find_spec m r F (req_of request) HI Hok) as (h & y & Hh & Hy & Hfit).
  unfold alloc_round. run Hl. rewrite Hh. cbn [deref]. run (eq_refl (Ret h)). run Hy.
  destruct Hfit as [[-> Hno]|(Hy0 & (t & Hyt & Ht) & Hno)]; [right|left].
  - rewrite Z.eqb_refl. cbn [negb]. assert (Hno' : forall x s, F !! x = Some s -> s < req_of request).
    { intros x s Hx. apply (Hno x s Hx). destruct (fi_block _ _ _ _ HI x s Hx) as (? & _). lia. }
    split; [done|]. fold (region_of request).
    destruct (map_pages (region_of request)) as [[addr sz]|e]; [|done]. destruct (Hmap addr sz eq_refl) as (Hb & Hout & Hap).
    run (eq_refl (Ret (addr, sz))). unfold InsertAllocatedMemoryLocked.
    pose proof Hb as (_ & _ & Hb3 & _).
    assert (Hnone : F !! addr = None).
    { destruct (F !! addr) as [t|] eqn:E; [|done]. pose proof (fi_pos _ _ _ _ HI addr t E). destruct (Hap addr t E); lia. }
    destruct (AddToFreelist_spec (write_header addr sz (Magic kMagicAllocated addr) self m) r F addr sz
      (levels (default (mkNode 0 0 0 0 ∅) (m !! addr)))) as (m' & r1 & F' & E & HF' & Hadd & Hfr); try done.
    + apply FInv_write; [done|lia|done].
    + by rewrite write_header_meta, decide_True.
    + run E. exists m', r1, F'. split; [done|]. split; [done|]. split; [done|]. intros q Hqh Hqa Hq. rewrite Hfr by done.
      by rewrite write_header_meta, decide_False.
  - rewrite (proj2 (Z.eqb_neq y 0)) by lia. cbn [negb]. exists y, t. split; [done|]. split; [done|]. split; [|done].
    intros x s Hx Hxy. apply (Hno x s Hx). destruct (fi_block _ _ _ _ HI x s Hx) as (? & _). lia.
Qed.

Lemma take_region_spec m r F req y t : FInv m r F (fun _ => False) -> F !! y = Some t -> 64 <= req <= t -> (32 | req) ->
  exists m' r' F' s l, take_region self req y m r = Ret (m', r') /\ req <= s <= t /\ blk_ok y s /\
    FInv m' r' F' (fun _ => False) /\ meta m' y = Some (s, Magic kMagicAllocated y, self, l) /\
    (forall b, cover F b <-> cover F' b \/ y <= b < y + s) /\ apart F' y s /\
    forall q, q <> head -> F !! q = None -> ~ y <= q < y + t -> meta m' q = meta m q.
Proof using HW.
  intros HI Hy Hreq Hdiv. destruct (fi_list _ _ _ _ HI) as (Lv & HS & Hdom & Hmeta).
  assert (is_Some (Lv !! y)) as [l Hl] by (apply Hdom; eauto). destruct (Hmeta y t l Hy Hl) as [_ Hmy].
  destruct (sk_nodes _ _ _ HS y l Hl) as (_ & Hyh & _). destruct (fi_block _ _ _ _ HI y t Hy) as (Hb1 & Hb2 & Hb3 & Hb4 & Hb5 & Hb6).
  destruct (remove_block m r F y t HI Hy) as (m1 & prev & E & HI1 & Hfr1).
  assert (Hcov : forall b, cover F b <-> cover (delete y F) b \/ y <= b < y + t).
  { intros b. unfold cover. split.
    - intros (x & u & Hx & Hbx). destruct (decide (x = y)) as [->|]; [right; congruence|left]. exists x, u. by rewrite lookup_delete_ne.
    - intros [(x & u & [_ Hx]%lookup_delete_Some & Hbx)|Hb]; by eauto. }
  assert (Hap1 : apart (delete y F) y t).
  { intros z u [Hyz Hz]%lookup_delete_Some. destruct (Z.lt_ge_cases y z); [left; by eapply (fi_apart _ _ _ _ HI)|right].
    eapply (fi_apart _ _ _ _ HI); [done|done|lia]. }
  assert (Hmy1 : meta m1 y = Some (t, Magic kMagicUnallocated y, self, l)) by by rewrite Hfr1.
  destruct (meta_some _ _ _ _ _ _ Hmy1) as (ns & Hns & Hst & Hg & Ha & _).
  unfold take_region. run E. rewrite Hns. cbn [deref]. run (eq_refl (Ret ns)). rewrite Hst, Hg, Ha, min_size_val.
  rewrite u64_small by lia. destruct (Z.leb_spec (req + 64) t) as [Hsplit|Hwhole].
  - set (m2 := write_header y req (Magic kMagicUnallocated y) self (write_header (req + y) (t - req) (Magic kMagicAllocated (req + y)) self m1)).
    assert (Hnn : delete y F !! (req + y) = None).
    { destruct (delete y F !! (req + y)) as [u|] eqn:En; [|done]. pose proof (fi_pos _ _ _ _ HI1 _ _ En). destruct (Hap1 _ _ En); lia. }
    assert (Hhn : req + y <> head /\ (head < req + y \/ req + y + (t - req) <= head)).
    { destruct (fi_out _ _ _ _ HI y t Hy); lia. }
    assert (HI2 : FInv m2 r (delete y F) (fun _ => False)).
    { apply FInv_write; [apply FInv_write; [done|apply Hhn|done]|done|apply lookup_delete_eq]. }
    assert (Hm2 : forall q, q <> req + y -> q <> y -> meta m2 q = meta m1 q).
    { intros q H1 H2. unfold m2. by rewrite !write_header_meta, !decide_False. }
    destruct (AddToFreelist_spec m2 r (delete y F) (req + y) (t - req) (levels (default (mkNode 0 0 0 0 ∅) (m1 !! (req + y)))) HI2)
      as (m3 & r3 & F' & E3 & HI3 & Hadd & Hfr3).
    + apply blk_intro; [lia|by apply Z.divide_add_r|by apply Z.divide_sub_r|]. intros b Hb. apply Hb6. lia.
    + intros z u Hz. destruct (Hap1 z u Hz); lia.
    + apply Hhn.
    + unfold m2. rewrite write_header_meta, decide_False by lia. by rewrite write_header_meta, decide_True.
    + run E3. assert (Hmy3 : exists k, meta m3 y = Some (req, Magic kMagicUnallocated y, self, k)).
      { rewrite Hfr3 by (done || lia || apply lookup_delete_eq). unfold m2. rewrite write_header_meta, decide_True by done. by eexists. }
      destruct Hmy3 as [k Hmy3]. destruct (meta_some _ _ _ _ _ _ Hmy3) as (n3 & Hn3 & Hs3 & _ & Ha3 & _).
      rewrite Hn3. cbn [deref]. run (eq_refl (Ret n3)). rewrite Hs3, Ha3, Z.eqb_refl. cbn [check]. run (eq_refl (Ret tt)).
      destruct Hadd as [Hc _].
      assert (Hap3 : apart F' y req).
      { apply (apart_grow (fun b => req + y <= b < req + y + (t - req)) (delete y F)); [lia|by eapply fi_pos|by eapply fi_pos|apply Hc|intros; lia|].
        intros z u Hz. destruct (Hap1 z u Hz); lia. }
      assert (HF'y : F' !! y = None).
      { destruct (F' !! y) as [u|] eqn:En; [|done]. pose proof (fi_pos _ _ _ _ HI3 _ _ En). destruct (Hap3 _ _ En); lia. }
      eexists _, r3, F', req, _. split; [reflexivity|]. split; [lia|]. split; [apply blk_intro; [lia|done|done|intros b Hb; apply Hb6; lia]|].
      split; [by apply FInv_write|]. split; [rewrite write_header_meta, decide_True by done; reflexivity|]. split; [|split; [done|]].
      * intros b. rewrite Hcov, Hc. split; [intros [?|?]|intros [[?|?]|?]]; [by left; left| |by left|right; lia|right; lia].
        destruct (Z.lt_ge_cases b (y + req)); [right|left; right]; lia.
      * intros q Hqh Hq Hqn. rewrite write_header_meta, decide_False by lia. rewrite Hfr3; [|done|lia|].
        -- rewrite Hm2 by lia. by apply Hfr1.
        -- apply lookup_delete_None. by right.
  - run (eq_refl (Ret (m1, r))). rewrite Hns. cbn [deref]. run (eq_refl (Ret ns)). rewrite Hst, Ha, Z.eqb_refl. cbn [check]. run (eq_refl (Ret tt)).
    eexists _, r, (delete y F), t, _. split; [reflexivity|]. split; [lia|]. split; [unfold blk_ok; tauto|].
    split; [apply FInv_write; [done|done|apply lookup_delete_eq]|]. split; [rewrite write_header_meta, decide_True by done; reflexivity|].
    split; [done|]. split; [done|]. intros q Hqh Hq Hqn. rewrite write_header_meta, decide_False by lia. by apply Hfr1.
Qed.

Lemma finish_alloc m r F U n req y t : FInv m r F (fun _ => False) ->
  (forall x s, U !! x = Some s -> blk_ok x s /\ (head < x \/ x + s <= head) /\ exists l, meta m x = Some (s, Magic kMagicAllocated x, self, l)) ->
  (forall x s z u, U !! x = Some s -> U !! z = Some u -> x < z -> x + s <= z) -> (forall x s, U !! x = Some s -> apart F x s) ->
  n = Z.of_nat (base.size U) -> n + 1 < 2 ^ 31 -> F !! y = Some t -> 64 <= req <= t -> (32 | req) ->
  exists m' r' F' s, take_region self req y m r = Ret (m', r') /\ req <= s /\ (32 | y) /\ U !! y = None /\
    Inv (mkArena m' r' (s32 (n + 1))) F' (<[y := s]> U) /\ forall b, cover F b <-> cover F' b \/ y <= b < y + s.
Proof using HW.
  intros HI HU HUa HUs Hn Hn1 Hy Hreq Hdiv.
  destruct (take_region_spec m r F req y t HI Hy Hreq Hdiv) as (m' & r' & F' & s & l & E & Hs & Hb & HI' & Hm & Hcov & Hap & Hfr).
  assert (HUy : forall x u, U !! x = Some u -> x + u <= y \/ y + t <= x).
  { intros x u Hx. destruct (HUs x u Hx y t Hy); lia. }
  assert (Hnew : U !! y = None).
  { destruct (U !! y) as [u|] eqn:En; [|done]. destruct (HU y u En) as ((_ & _ & ? & _) & _). destruct (HUy y u En); lia. }
  exists m', r', F', s. split; [done|]. split; [lia|]. split; [apply Hb|]. split; [done|]. split; [|done].
  destruct (fi_block _ _ _ _ HI y t Hy) as (_ & _ & Ht & _).
  split; simpl; [done| | | |].
  - intros x u [[<- <-]|[Hxy Hx]]%lookup_insert_Some.
    + split; [done|]. split; [destruct (fi_out _ _ _ _ HI y t Hy); lia|]. eauto.
    + destruct (HU x u Hx) as (Hbx & Hox & k & Hmx). split; [done|]. split; [done|]. exists k. destruct Hbx as (_ & _ & ? & _).
      rewrite Hfr; [done|lia| |destruct (HUy x u Hx); lia].
      destruct (F !! x) as [v|] eqn:En; [|done]. pose proof (fi_pos _ _ _ _ HI _ _ En). destruct (HUs x u Hx x v En); lia.
  - intros x u z v [[<- <-]|[Hxy Hx]]%lookup_insert_Some [[<- <-]|[Hzy Hz]]%lookup_insert_Some Hlt; [lia| | |].
    + destruct (HUy z v Hz), (HU z v Hz) as ((_ & _ & ? & _) & _); lia.
    + destruct (HUy x u Hx), (HU x u Hx) as ((_ & _ & ? & _) & _); lia.
    + by eapply HUa.
  - intros x u [[<- <-]|[Hxy Hx]]%lookup_insert_Some; [done|]. destruct (HU x u Hx) as ((_ & _ & ? & _) & _).
    apply (apart_grow (fun _ => False) F); [lia|by eapply fi_pos|by eapply fi_pos| |tauto|by apply HUs].
    intros b Hb'. left. apply Hcov. by left.
  - rewrite map_size_insert_None by done. rewrite s32_small by lia. lia.
Qed.

(** What the operating system promises: new memory. *)
Definition fresh_pages F U (addr sz : Z) : Prop :=
  blk_ok addr sz /\ (head < addr \/ addr + sz <= head) /\ apart F addr sz /\ apart U addr sz.

Lemma Alloc_spec A F U request map_pages : Inv A F U -> 0 < request < 2 ^ 33 ->
  (forall addr sz, map_pages (region_of request) = Ret (addr, sz) -> region_of request <= sz /\ fresh_pages F U addr sz) ->
  Z.of_nat (base.size U) + 1 < 2 ^ 31 ->
  (exists e, AllocWithArena self map_pages request A = Fault e /\ map_pages (region_of request) = Fault e /\
     forall x s, F !! x = Some s -> s < req_of request) \/
  exists y s A' F', AllocWithArena self map_pages request A = Ret (y + kHeaderSize, A') /\
    Inv A' F' (<[y := s]> U) /\ U !! y = None /\ request + kHeaderSize <= s /\ (32 | y) /\
    ((exists t, F !! y = Some t /\ (forall x u, F !! x = Some u -> x < y -> u < req_of request) /\
       forall b, cover F b <-> cover F' b \/ y <= b < y + s) \/
     (exists addr sz, map_pages (region_of request) = Ret (addr, sz) /\ (forall x u, F !! x = Some u -> u < req_of request) /\
       forall b, cover F b \/ addr <= b < addr + sz <-> cover F' b \/ y <= b < y + s)).
Proof using HW.
  intros HI Hreq Hmap Hcount. destruct (req_of_spec request Hreq) as (Hr1 & Hr2 & Hr3 & Hr4).
  pose proof (iv_free _ _ _ HI) as HF. unfold AllocWithArena. rewrite (proj2 (Z.eqb_neq request 0)) by lia. fold (req_of request).
  cbn [loop]. destruct (alloc_round_spec (mem A) (rnd A) F request map_pages HF Hreq) as [(y & t & Hy & Ht & Hff & E)|[Hno E]].
  { intros addr sz Ha. by destruct (Hmap addr sz Ha) as (_ & ? & ? & ? & _). }
  - right. run E. run (eq_refl (Ret (y, mem A, rnd A))).
    destruct (finish_alloc (mem A) (rnd A) F U (allocation_count A) (req_of request) y t HF (iv_used _ _ _ HI) (iv_apart _ _ _ HI) (iv_sep _ _ _ HI)
      (iv_count _ _ _ HI)) as (m' & r' & F' & s & E2 & Hs & Hd & HUy & HI' & Hc); [rewrite (iv_count _ _ _ HI); lia|done|lia|done|].
    run E2. exists y, s, (mkArena m' r' (s32 (allocation_count A + 1))), F'. split; [done|]. split; [done|]. split; [done|]. split; [lia|]. split; [done|].
    left. by exists t.
  - destruct (map_pages (region_of request)) as [[addr sz]|e] eqn:Hm; [right|left; exists e; by rewrite E].
    destruct E as (m1 & r1 & F1 & E & HF1 & [Hc1 (x1 & t1 & Hx1 & Hx1a & Hx1b)] & Hfr). destruct (Hmap addr sz eq_refl) as (Hsz & Hb & Hout & HaF & HaU).
    run E. pose proof Hb as (_ & _ & Hbs & _).
    assert (HUaddr : forall x u b, U !! x = Some u -> x <= b < x + u -> ~ addr <= b < addr + sz).
    { intros x u b Hx Hxb Hab. destruct (HaU x u Hx); lia. }
    assert (HU1 : forall x u, U !! x = Some u -> apart F1 x u).
    { intros x u Hx. destruct (iv_used _ _ _ HI x u Hx) as ((_ & _ & ? & _) & _).
      apply (apart_grow (fun b => addr <= b < addr + sz) F); [lia|by eapply fi_pos|by eapply fi_pos|apply Hc1| |by apply (iv_sep _ _ _ HI)].
      intros b. by apply (HUaddr x u b). }
    destruct (region_of_spec request Hreq) as [Hreg _].
    destruct (alloc_round_fit m1 r1 F1 request map_pages x1 t1 HF1 Hreq Hx1 ltac:(lia)) as (y & t & Hy & Ht & E1).
    run E1. run (eq_refl (Ret (y, m1, r1))).
    destruct (finish_alloc m1 r1 F1 U (allocation_count A) (req_of request) y t HF1) as (m' & r' & F' & s & E2 & Hs & Hd & HUy & HI' & Hc).
    + intros x u Hx. destruct (iv_used _ _ _ HI x u Hx) as (? & ? & c & Hmx). split; [done|]. split; [done|]. exists c.
      destruct (used_not_free _ _ _ x u HI Hx). pose proof (fi_pos _ _ _ _ HF1). rewrite Hfr; [done|done| |done].
      intros ->. destruct H as (_ & _ & ? & _). apply (HUaddr addr u addr Hx); lia.
    + apply (iv_apart _ _ _ HI).
    + exact HU1.
    + apply (iv_count _ _ _ HI).
    + rewrite (iv_count _ _ _ HI). lia.
    + done.
    + lia.
    + done.
    + run E2. exists y, s, (mkArena m' r' (s32 (allocation_count A + 1))), F'. split; [done|]. split; [done|]. split; [done|].
      split; [lia|]. split; [done|]. right. exists addr, sz. split; [done|]. split; [done|]. intros b. rewrite <- Hc. symmetry. apply Hc1.
Qed.

(** *** A new arena, and what clients do to their memory *)
Lemma Inv_new r : 0 <= r < 2 ^ 32 -> Inv (new self r) ∅ ∅.
Proof.
  intros Hr. assert (Hm : meta (mem (new self r)) head = Some (0, Magic kMagicUnallocated head, self, 0)).
  { unfold meta, new. cbn [mem]. by rewrite lookup_singleton_eq. }
  split; [|intros x s H; by rewrite lookup_empty in H|intros x s y t H; by rewrite lookup_empty in H|intros x s H; by rewrite lookup_empty in H|].
  - split; [|intros x s H; by rewrite lookup_empty in H|intros x s y t H; by rewrite lookup_empty in H|done|done|by exists 0|intros x s H; by rewrite lookup_empty in H].
    exists ∅. split; [split|split; [done|intros x s l H; by rewrite lookup_empty in H]].
    + intros x l H. by rewrite lookup_empty in H.
    + exists 0, (Magic kMagicUnallocated head), self, 0. split; [done|]. split; [done|]. split; [|lia].
      intros x l H. by rewrite lookup_empty in H.
    + intros i p [H0 [[-> Hi]|(l & H & _)]]; [|by rewrite lookup_empty in H]. exists 0. split.
      * unfold nx, new. cbn [mem]. rewrite lookup_singleton_eq. cbn [mbind option_bind]. apply zero_links_lookup. lia.
      * left. split; [done|]. intros z l H. by rewrite lookup_empty in H.
  - simpl. by rewrite map_size_empty.
Qed.

(** A client may change anything but the headers of the allocated blocks and
    the memory of the free blocks and of the list head. *)
Definition client_writes F U (m m' : memory) : Prop :=
  (forall q, q = head \/ is_Some (F !! q) -> m' !! q = m !! q) /\
  forall x n, is_Some (U !! x) -> m !! x = Some n -> exists l nxt, m' !! x = Some (mkNode (size n) (magic n) (arena n) l nxt).
Lemma Inv_client A F U m' : Inv A F U -> client_writes F U (mem A) m' -> Inv (mkArena m' (rnd A) (allocation_count A)) F U.
Proof.
  intros HI [Hsame Hhdr]. pose proof (iv_free _ _ _ HI) as HF.
  split; simpl; [| |apply (iv_apart _ _ _ HI)|apply (iv_sep _ _ _ HI)|apply (iv_count _ _ _ HI)].
  - destruct (fi_list _ _ _ _ HF) as (Lv & HS & Hdom & Hmeta). destruct (fi_head _ _ _ _ HF) as [L Hh].
    destruct HF as [_ H2 H3 H4 H5 _ H7]. split; [|exact H2|exact H3|exact H4|exact H5| |exact H7].
    + exists Lv. split; [|split; [done|]].
      * apply (SkInv_ext head (mem A)); [done|]. intros q [?|Hq]; apply Hsame; [by left|right]. by apply Hdom.
      * intros x s l Hx Hl. unfold meta. rewrite Hsame by eauto. by apply Hmeta.
    + exists L. unfold meta. rewrite Hsame by eauto. exact Hh.
  - intros x s Hx. destruct (iv_used _ _ _ HI x s Hx) as (? & ? & l & Hm). split; [done|]. split; [done|].
    destruct (meta_some _ _ _ _ _ _ Hm) as (n & Hn & Es & Eg & Ea & _).
    destruct (Hhdr x n ltac:(eauto) Hn) as (l' & nxt & Hx'). exists l'. unfold meta. rewrite Hx'. simpl. by rewrite Es, Eg, Ea.
Qed.

(** *** Runs

    [reachable A U O]: the arena after calls and writes of clients; [U] has the
    blocks that were allocated and not freed, [O] the bytes the arena got from
    the operating system. *)
Definition mapped (O : Z -> Prop) (pages : outcome (Z * Z)) : Z -> Prop :=
  match pages with Ret (a, sz) => fun b => O b \/ a <= b < a + sz | Fault _ => O end.
(** New pages are in the window, aligned, and nobody's. *)
Definition new_pages (O : Z -> Prop) (map_pages : Z -> outcome (Z * Z)) (size : Z) : Prop :=
  forall addr sz, map_pages size = Ret (addr, sz) ->
    size <= sz /\ blk_ok addr sz /\ (head < addr \/ addr + sz <= head) /\ forall b, addr <= b < addr + sz -> ~ O b.
Definition arena_ok (A : Arena) (U : gmap Z Z) (O : Z -> Prop) : Prop :=
  exists F, Inv A F U /\ forall b, O b <-> cover F b \/ cover U b.

Lemma cover_apart F O addr sz : 0 < sz -> (forall y t, F !! y = Some t -> 0 < t) -> (forall b, cover F b -> O b) ->
  (forall b, addr <= b < addr + sz -> ~ O b) -> apart F addr sz.
Proof. intros Hs Hp HO Hn. apply apart_cover; [done|done|]. intros b Hb Hc. by apply (Hn b), HO. Qed.
Lemma used_pos A F U : Inv A F U -> forall y t, U !! y = Some t -> 0 < t.
Proof. intros HI y t Hy. destruct (iv_used _ _ _ HI y t Hy) as ((_ & _ & ? & _) & _). lia. Qed.

(** Every stretch of [len] mapped bytes meets an allocated block. *)
Definition no_room (O : Z -> Prop) U (len : Z) : Prop :=
  forall x, (forall b, x <= b < x + len -> O b) -> exists b, x <= b < x + len /\ cover U b.
(** Free bytes next to each other are in one block. *)
Lemma small_blocks_no_room A F U O len : Inv A F U -> (forall b, O b <-> cover F b \/ cover U b) -> 0 < len ->
  (forall x s, F !! x = Some s -> s < len) -> no_room O U len.
Proof using.
  intros HI HO Hlen Hs x Hx. pose proof (iv_free _ _ _ HI) as HF. destruct (proj1 (HO x) (Hx x ltac:(lia))) as [(y & s & Hy & Hb)|?]; [|exists x; split; [lia|done]].
  pose proof (Hs y s Hy). destruct (proj1 (HO (y + s)) (Hx (y + s) ltac:(lia))) as [(z & u & Hz & Hzb)|?]; [|exists (y + s); split; [lia|done]].
  exfalso. destruct (Z.lt_total z y) as [Hlt|[->|Hgt]].
  - pose proof (fi_apart _ _ _ _ HF z u y s Hz Hy Hlt). lia.
  - assert (u = s) by congruence. lia.
  - pose proof (fi_apart _ _ _ _ HF y s z u Hy Hz Hgt). assert (z = y + s) as -> by lia. rewrite (fi_merged _ _ _ _ HF y s Hy) in Hz; [done|auto].
Qed.

Lemma arena_alloc A U O request map_pages : arena_ok A U O -> 0 < request < 2 ^ 33 ->
  new_pages O map_pages (region_of request) -> Z.of_nat (base.size U) + 1 < 2 ^ 31 ->
  (exists e, AllocWithArena self map_pages request A = Fault e /\ map_pages (region_of request) = Fault e /\ no_room O U (req_of request)) \/
  exists y s A' O', AllocWithArena self map_pages request A = Ret (y + kHeaderSize, A') /\
    arena_ok A' (<[y := s]> U) O' /\ U !! y = None /\ request + kHeaderSize <= s /\ (32 | y) /\
    (O' = O \/ O' = mapped O (map_pages (region_of request))).
Proof using HW.
  intros (F & HI & HO) Hreq Hnew Hcount. pose proof (iv_free _ _ _ HI) as HF.
  destruct (Alloc_spec A F U request map_pages HI Hreq) as [(e & ? & ? & Hno)|(y & s & A' & F' & E & HI' & Hy & Hs & Hd & Hcase)];
    [|done|left; exists e; do 2 (split; [done|]); eapply small_blocks_no_room; [done|done|destruct (req_of_spec request Hreq) as (? & ? & ? & _); lia|done]|right].
  - intros addr sz Ha. destruct (Hnew addr sz Ha) as (Hsz & Hb & Hout & Hfree). pose proof Hb as (_ & _ & ? & _). split; [done|]. split; [done|]. split; [done|].
    split; (eapply (cover_apart _ O); [lia| | |done]); [by eapply fi_pos|intros b Hc; apply HO; by left|by eapply used_pos|intros b Hc; apply HO; by right].
  - exists y, s, A'. assert (HcU : forall b, cover (<[y := s]> U) b <-> cover U b \/ y <= b < y + s) by (intros; by apply insert_cover).
    destruct Hcase as [(t & _ & _ & Hc)|(addr & sz & Ha & _ & Hc)].
    + exists O. split; [done|]. split; [|by eauto 10]. exists F'. split; [done|]. intros b. rewrite HcU, HO, Hc. clear. tauto.
    + exists (mapped O (map_pages (region_of request))). rewrite Ha. split; [done|]. split; [|by eauto 10]. exists F'. split; [done|].
      intros b. rewrite HcU. cbn [mapped]. rewrite HO. specialize (Hc b). clear -Hc. tauto.
Qed.

Lemma arena_free A U O x s : arena_ok A U O -> U !! x = Some s -> Z.of_nat (base.size U) < 2 ^ 31 ->
  exists A', Free (x + kHeaderSize) A = Ret A' /\ arena_ok A' (delete x U) O.
Proof using HW.
  intros (F & HI & HO) Hx Hcount. destruct (Free_spec A F U x s HI Hx Hcount) as (A' & F' & E & HI' & [Hc _]).
  exists A'. split; [done|]. exists F'. split; [done|]. intros b. rewrite HO, Hc.
  rewrite <- (insert_delete_id U x s Hx) at 1. rewrite insert_cover by apply lookup_delete_eq. clear. tauto.
Qed.
End Inv.
End LLAInv.

Import LLA LLAInv.
Lemma arena_new self W r : 0 <= r < 2 ^ 32 -> arena_ok self W (new self r) ∅ (fun _ => False).
Proof.
  intros Hr. exists ∅. split; [by apply Inv_new|]. intros b. split; [done|].
  intros [(x & s & H & _)|(x & s & H & _)]; by rewrite lookup_empty in H.
Qed.
Lemma arena_usable self W A U O x s : holed W -> arena_ok self W A U O -> U !! x = Some s ->
  UsableSize (x + kHeaderSize) A = Ret (s - kHeaderSize).
Proof.
  intros HW (F & HI & _) Hx. destruct (iv_used _ _ _ _ _ HI x s Hx) as ((? & ? & ? & _) & _ & l & Hm).
  destruct (meta_some _ _ _ _ _ _ Hm) as (n & Hn & Es & _). unfold UsableSize.
  replace (x + kHeaderSize - kHeaderSize) with x by lia. rewrite Hn. obind. rewrite Es, u64_small; [done|].
  change kHeaderSize with 32. lia.
Qed.

(** C17: the low-level allocator hands out disjoint memory and loses none, as
    long as no 16 GiB of the memory [W] it is given are contiguous (a coalesced
    block of that size has no level in the list and stops the process, see
    [large_block_has_no_level]) and fewer than 2^31 - 1 blocks are allocated.
    With [U] the allocated blocks and [O] the bytes mapped so far: allocated
    blocks do not overlap and lie in [O]; an allocation of less than 8 GiB
    either stops because [MapPages] did, asked when every stretch of mapped
    bytes as long as the request with its header meets an allocated block, or
    returns a 32-byte aligned block
    outside of all others that is large enough, after at most one call of it,
    which must return pages that are not in use; every allocated block can be
    freed; no internal check of the free list fails; and after each of these, as
    after any writes of clients to their blocks, the same holds again, with free
    and allocated blocks together making up [O]. *)
Theorem low_level_alloc_correct (self : Z) (W : Z -> Prop) (A : Arena) (U : gmap Z Z) (O : Z -> Prop) :
  holed W -> arena_ok self W A U O -> Z.of_nat (base.size U) + 1 < 2 ^ 31 ->
  (forall x s, U !! x = Some s -> UsableSize (x + kHeaderSize) A = Ret (s - kHeaderSize) /\
     (forall b, x <= b < x + s -> O b) /\ forall y t, U !! y = Some t -> x < y -> x + s <= y) /\
  (forall request map_pages, 0 < request < 2 ^ 33 -> new_pages self W O map_pages (region_of request) ->
     (exists e, AllocWithArena self map_pages request A = Fault e /\ map_pages (region_of request) = Fault e /\ no_room O U (req_of request)) \/
     exists y s A' O', AllocWithArena self map_pages request A = Ret (y + kHeaderSize, A') /\
       arena_ok self W A' (<[y := s]> U) O' /\ U !! y = None /\ request <= s - kHeaderSize /\ (32 | y + kHeaderSize) /\
       (O' = O \/ O' = mapped O (map_pages (region_of request)))) /\
  (forall x s, U !! x = Some s -> exists A', Free (x + kHeaderSize) A = Ret A' /\ arena_ok self W A' (delete x U) O) /\
  (forall F m', Inv self W A F U -> (forall b, O b <-> cover F b \/ cover U b) -> client_writes self F U (mem A) m' ->
     arena_ok self W (mkArena m' (rnd A) (allocation_count A)) U O).
Proof.
  intros HW HA Hcount. split; [|split; [|split]].
  - intros x s Hx. split; [by eapply (arena_usable self W)|]. destruct HA as (F & HI & HO). split.
    + intros b Hb. apply HO. right. by exists x, s.
    + intros y t Hy. by eapply (iv_apart _ _ _ _ _ HI).
  - intros request map_pages Hreq Hnew.
    destruct (arena_alloc self W HW A U O request map_pages HA Hreq Hnew Hcount) as [?|(y & s & A' & O' & E & HA' & Hy & Hs & Hd & HO')]; [by left|right].
    exists y, s, A', O'. split; [done|]. split; [done|]. split; [done|]. split; [lia|]. split; [|done].
    apply Z.divide_add_r; [done|by exists 1].
  - intros x s Hx. eapply (arena_free self W); [done|done|done|lia].
  - intros F m' HI HO Hw. exists F. split; [by apply Inv_client|done].
Qed.

(** The default pages allocator gives new pages when [mmap] does. *)
Lemma default_new_pages self W O k mmap request : 5 <= k <= 20 -> 0 < request < 2 ^ 33 ->
  (forall addr, mmap (region_of request) = Some addr -> blk_ok W addr (region_of request) /\
     (freelist self < addr \/ addr + region_of request <= freelist self) /\ forall b, addr <= b < addr + region_of request -> ~ O b) ->
  new_pages self W O (MapPages (2 ^ k) mmap) (region_of request).
Proof.
  intros Hk Hr Hm addr sz E. rewrite (MapPages_spec k mmap request Hk Hr) in E.
  destruct (mmap (region_of request)) as [a|]; [|done]. injection E as <- <-. split; [lia|]. by apply Hm.
Qed.

(** Everything a 4 GiB address range has above its first pages. *)
Definition window (b : Z) : Prop := 8192 <= b < 2 ^ 32.
Lemma window_holed : holed window.
Proof.
  split; [unfold window; lia|]. intros x. unfold window. destruct (Z.lt_ge_cases x 8192); [exists x; lia|]. exists (x + 2 ^ 34 - 1). lia.
Qed.
(** A first allocation of 100 bytes, from an empty arena. *)
Lemma low_level_alloc_correct_witness : exists y s A' O',
  AllocWithArena 4096 (MapPages (2 ^ 12) (fun _ => Some 1048576)) 100 (new 4096 1) = Ret (y + kHeaderSize, A') /\
  arena_ok 4096 window A' {[y := s]} O' /\ 100 <= s - kHeaderSize.
Proof.
  destruct (low_level_alloc_correct 4096 window (new 4096 1) ∅ (fun _ => False)) as (_ & Ha & _);
    [exact window_holed|by apply arena_new|done|].
  destruct (Ha 100 (MapPages (2 ^ 12) (fun _ => Some 1048576))) as [(e & _ & E & _)|(y & s & A' & O' & E & HA & _ & Hs & _)]; [lia| | |].
  - apply (default_new_pages 4096 window); [lia|lia|]. intros addr [= <-].
    assert (Hr : region_of 100 = 1048576) by reflexivity. rewrite Hr.
    split; [|split; [by left|auto]]. apply (blk_intro _ window_holed); [lia|by exists 32768|by exists 32768|]. unfold window. lia.
  - rewrite (MapPages_spec 12 (fun _ => Some 1048576) 100) in E by lia. discriminate E.
  - exists y, s, A', O'. split; [exact E|]. split; [exact HA|exact Hs].
Defined.

(** [max_fit] is an [int]: a block of 16 GiB gets no level and the process
    stops, although it has room for all of them. *)
Theorem large_block_has_no_level (r : Z) : LLA_SkiplistLevels (2 ^ 34 + 40) 64 false r = Fault CheckFailed.
Proof. reflexivity. Qed.
