(* ===== verification/EmergencyMalloc.v ===== *)
(** * The emergency allocator

    Models src/src/src/emergency_malloc.h and emergency_malloc.cc: a 16 MiB
    region with a low-level arena in it, used while a thread must not enter
    the thread caches. The client-visible bytes are kept for the copy of
    [EmergencyRealloc]; the calls run under [emergency_malloc_lock]. *)
From S2P Require Import Prelude SkipList LowLevelAlloc.

Definition kEmergencyArenaShift : Z := 20 + 4.
Definition kEmergencyArenaSize : Z := Z.shiftl 1 kEmergencyArenaShift.
(** [sizeof(LowLevelAlloc::Arena)]. *)
Definition kSizeofArena : Z := 320.

Record Emergency := mkEmergency {
  emergency_arena_start : Z;
  emergency_arena_end : Z;
  emergency_arena : Arena;
  emergency_arena_start_shifted : Z;
  bytes : gmap Z Z;
  unmapped : list (Z * Z);
  errno : Z }.
Definition ENOMEM : Z := 12.

Module EM.
Definition init (r : Z) : Emergency := mkEmergency 0 0 (mkArena ∅ r 0) 0 ∅ [] 0.
Definition IsEmergencyPtr (ptr : Z) (e : Emergency) : bool :=
  (Z.shiftr ptr kEmergencyArenaShift =? emergency_arena_start_shifted e) && negb (emergency_arena_start_shifted e =? 0).

(** [EmergencyArenaPagesAllocator::MapPages]: the pages and the new end; a
    logged crash when nothing is left. *)
Definition MapPages (start end_ size : Z) : outcome (Z * Z * Z) :=
  let new_end := end_ + size in
  if new_end >? start + kEmergencyArenaSize then Fault OOM
  else let rv := end_ in let end_ := start + kEmergencyArenaSize in Ret (rv, end_ - rv, end_).
(** [LowLevelAlloc::NewArenaWithCustomAlloc]: the arena's address, the arena
    and the allocator's new end. *)
Definition NewArenaWithCustomAlloc (start end_ r : Z) : outcome (Z * Arena * Z) :=
  '(memory, got_amount, end_) ← MapPages start end_ kMinimalRegion;
  let result := LLA.new memory r in
  '(m, r) ← LLA.InsertAllocatedMemoryLocked memory (memory + kSizeofArena) (got_amount - kSizeofArena) (mem result) (rnd result);
  Ret (memory, mkArena m r 0, end_).

(** [mapped] is what [MapAnonymous] returns. *)
Definition InitEmergencyMalloc (mapped : option Z) (e : Emergency) : outcome Emergency :=
  match mapped with
  | None => Fault CheckFailed
  | Some arena_ptr =>
      let ptr := u64 (Z.land (arena_ptr + kEmergencyArenaSize - 1) (Z.lnot (kEmergencyArenaSize - 1))) in
      '(_, A, end_) ← NewArenaWithCustomAlloc ptr ptr (rnd (emergency_arena e));
      let head_unmap_size := ptr - arena_ptr in
      _ ← check (head_unmap_size <? kEmergencyArenaSize);
      let head := if negb (head_unmap_size =? 0) then [(arena_ptr, ptr - arena_ptr)] else [] in
      let tail_unmap_size := kEmergencyArenaSize - head_unmap_size in
      let tail_start := arena_ptr + head_unmap_size + kEmergencyArenaSize in
      Ret (mkEmergency ptr end_ A (Z.shiftr ptr kEmergencyArenaShift) (bytes e) (head ++ [(tail_start, tail_unmap_size)]) (errno e))
  end.

(** The allocator's end is at the end of the region once it is set up. *)
Definition map_pages (e : Emergency) (size : Z) : outcome (Z * Z) :=
  '(p, n, _) ← MapPages (emergency_arena_start e) (emergency_arena_end e) size; Ret (p, n).
Definition with_arena (A : Arena) (e : Emergency) : Emergency :=
  mkEmergency (emergency_arena_start e) (emergency_arena_end e) A (emergency_arena_start_shifted e) (bytes e) (unmapped e) (errno e).
Definition with_errno (v : Z) (e : Emergency) : Emergency :=
  mkEmergency (emergency_arena_start e) (emergency_arena_end e) (emergency_arena e) (emergency_arena_start_shifted e) (bytes e) (unmapped e) v.
Definition with_bytes (v : gmap Z Z) (e : Emergency) : Emergency :=
  mkEmergency (emergency_arena_start e) (emergency_arena_end e) (emergency_arena e) (emergency_arena_start_shifted e) v (unmapped e) (errno e).

Definition EmergencyMalloc (mapped : option Z) (size : Z) (e : Emergency) : outcome (Z * Emergency) :=
  e ← (if emergency_arena_start e =? 0 then
         e ← InitEmergencyMalloc mapped e; _ ← check (negb (emergency_arena_start e =? 0)); Ret e
       else Ret e);
  '(rv, A) ← LLA.AllocWithArena (emergency_arena_start e) (map_pages e) size (emergency_arena e);
  let e := with_arena A e in
  if rv =? 0 then Ret (rv, with_errno ENOMEM e) else Ret (rv, e).
Definition EmergencyFree (p : Z) (e : Emergency) : outcome Emergency :=
  _ ← check (negb (emergency_arena_start e =? 0));
  A ← LLA.Free p (emergency_arena e); Ret (with_arena A e).
Definition EmergencyAllocatedSize (p : Z) (e : Emergency) : outcome Z :=
  _ ← check (negb (emergency_arena_start e =? 0)); LLA.UsableSize p (emergency_arena e).

(** [memcpy] is undefined when the ranges overlap. *)
Definition memcpy (dst src n : Z) (b : gmap Z Z) : outcome (gmap Z Z) :=
  if (dst <? src + n) && (src <? dst + n) then Fault Undefined
  else Ret (foldl (fun acc i => match b !! (src + i) with Some v => <[dst + i := v]> acc | None => delete (dst + i) acc end) b (seqZ 0 n)).

Definition EmergencyRealloc (mapped : option Z) (old_ptr new_size : Z) (e : Emergency) : outcome (Z * Emergency) :=
  if old_ptr =? 0 then EmergencyMalloc mapped new_size e else
  if new_size =? 0 then e ← EmergencyFree old_ptr e; Ret (0, e) else
  _ ← check (negb (emergency_arena_start e =? 0));
  _ ← check (old_ptr <=? emergency_arena_end e);
  _ ← check (emergency_arena_start e <=? old_ptr);
  let old_ptr_size := u64 (emergency_arena_end e - old_ptr) in
  let copy_size := if new_size <? old_ptr_size then new_size else old_ptr_size in
  '(new_ptr, A) ← LLA.AllocWithArena (emergency_arena_start e) (map_pages e) new_size (emergency_arena e);
  let e := with_arena A e in
  if new_ptr =? 0 then Ret (0, with_errno ENOMEM e) else
  b ← memcpy new_ptr old_ptr copy_size (bytes e);
  A ← LLA.Free old_ptr (emergency_arena e);
  Ret (new_ptr, with_bytes b (with_arena A e)).
End EM.

Import EM LLAInv.
(** ** The emergency region

    [U] maps the allocated blocks to their sizes; the arena is the first thing
    in the region, all the rest is free or allocated. *)
Definition region (e : Emergency) (b : Z) : Prop :=
  emergency_arena_start e + kSizeofArena <= b < emergency_arena_start e + kEmergencyArenaSize.
Record em_ok (e : Emergency) (U : gmap Z Z) : Prop := {
  em_start : 0 < emergency_arena_start e;
  em_aligned : (kEmergencyArenaSize | emergency_arena_start e);
  em_end : emergency_arena_end e = emergency_arena_start e + kEmergencyArenaSize;
  em_shifted : emergency_arena_start_shifted e = Z.shiftr (emergency_arena_start e) kEmergencyArenaShift;
  em_arena : arena_ok (emergency_arena_start e) (region e) (emergency_arena e) U (region e) }.

(** The pointer test is a range test. *)
Lemma IsEmergencyPtr_range e U p : em_ok e U ->
  IsEmergencyPtr p e = true <-> emergency_arena_start e <= p < emergency_arena_start e + kEmergencyArenaSize.
Proof.
  intros [H0 [q Hq] _ Hs _]. unfold IsEmergencyPtr. rewrite Hs. rewrite !Z.shiftr_div_pow2 by (unfold kEmergencyArenaShift; lia).
  change (2 ^ kEmergencyArenaShift) with 16777216. change kEmergencyArenaSize with 16777216 in *. rewrite Hq in *.
  rewrite Z.div_mul by lia. rewrite andb_true_iff, negb_true_iff, Z.eqb_eq, Z.eqb_neq. split.
  - intros [Hp _]. pose proof (Z.div_mod p 16777216 ltac:(lia)). pose proof (Z.mod_pos_bound p 16777216 ltac:(lia)). lia.
  - intros Hp. split; [|lia]. symmetry. apply (Z.div_unique p 16777216 q (p - q * 16777216)); lia.
Qed.

Lemma region_holed e U : em_ok e U -> holed (region e).
Proof.
  intros HE. pose proof (em_start _ _ HE). unfold region, kSizeofArena. change kEmergencyArenaSize with 16777216. split; [lia|].
  intros x. destruct (Z.lt_ge_cases x (emergency_arena_start e)); [exists x|exists (x + 2 ^ 34 - 1)]; lia.
Qed.

(** The new arena owns the region. *)
Lemma NewArena_spec start r : 0 < start -> (kEmergencyArenaSize | start) -> 0 <= r < 2 ^ 32 ->
  exists A, NewArenaWithCustomAlloc start start r = Ret (start, A, start + kEmergencyArenaSize) /\
    arena_ok start (fun b => start + kSizeofArena <= b < start + kEmergencyArenaSize) A ∅ (fun b => start + kSizeofArena <= b < start + kEmergencyArenaSize).
Proof.
  intros H0 Hd Hr. set (lo := start + kSizeofArena). set (hi := start + kEmergencyArenaSize).
  set (W := fun b => lo <= b < hi). assert (HW : holed W).
  { unfold W, hi, lo, kSizeofArena. change kEmergencyArenaSize with 16777216. split; [lia|].
    intros x. destruct (Z.lt_ge_cases x start); [exists x|exists (x + 2 ^ 34 - 1)]; lia. }
  pose proof (Inv_new start W r Hr) as HI. pose proof (iv_free _ _ _ _ _ HI) as HF.
  assert (Hb : blk_ok W lo (kEmergencyArenaSize - kSizeofArena)).
  { apply (blk_intro _ HW); unfold W, hi, lo; change kEmergencyArenaSize with 16777216 in *; unfold kSizeofArena; [lia| | |lia].
    - destruct Hd as [q ->]. exists (q * 524288 + 10). lia.
    - exists 524278. lia. }
  assert (Hhead : freelist start < lo) by (unfold freelist, lo, kSizeofArena; lia).
  destruct (AddToFreelist_spec start W HW
    (LLA.write_header lo (kEmergencyArenaSize - kSizeofArena) (Magic kMagicAllocated lo) start (mem (LLA.new start r))) r ∅ lo (kEmergencyArenaSize - kSizeofArena)
    (levels (default (mkNode 0 0 0 0 ∅) (mem (LLA.new start r) !! lo)))) as (m' & r' & F' & E & HF' & [Hc _] & _).
  - apply FInv_write; [exact HF|lia|done].
  - exact Hb.
  - intros y t H. by rewrite lookup_empty in H.
  - by left.
  - by rewrite write_header_meta, decide_True.
  - exists (mkArena m' r' 0). split.
    + unfold NewArenaWithCustomAlloc.
      assert (Em : MapPages start start kMinimalRegion = Ret (start, kEmergencyArenaSize, start + kEmergencyArenaSize)).
      { unfold MapPages. rewrite Z.gtb_ltb, (proj2 (Z.ltb_ge _ _)) by (change kMinimalRegion with 1048576; change kEmergencyArenaSize with 16777216; lia).
        do 3 f_equal. lia. }
      run Em. unfold LLA.InsertAllocatedMemoryLocked. change (rnd (LLA.new start r)) with r. fold lo. run E. reflexivity.
    + exists F'. split.
      * split; simpl; [exact HF'| | | |done]; [intros x s H|intros x s y t H|intros x s H]; by rewrite lookup_empty in H.
      * intros b. rewrite Hc. unfold W, lo, hi. split.
        -- intros Hb'. left. right. lia.
        -- intros [[(x & s & H & _)|Hb']|(x & s & H & _)]; [by rewrite lookup_empty in H|lia|by rewrite lookup_empty in H].
Qed.

Lemma InitEmergencyMalloc_spec a e : 0 < a -> a + 2 * kEmergencyArenaSize < 2 ^ 63 -> 0 <= rnd (emergency_arena e) < 2 ^ 32 ->
  exists e', InitEmergencyMalloc (Some a) e = Ret e' /\ em_ok e' ∅ /\ bytes e' = bytes e /\
    forall b, a <= b < a + 2 * kEmergencyArenaSize <->
      (emergency_arena_start e' <= b < emergency_arena_start e' + kEmergencyArenaSize) \/
      exists p n, (p, n) ∈ unmapped e' /\ p <= b < p + n.
Proof.
  intros Ha Hhi Hr. set (ptr := (a + 2 ^ 24 - 1) / 2 ^ 24 * 2 ^ 24).
  assert (Hb : a <= ptr < a + kEmergencyArenaSize) by (unfold ptr; apply (round_bounds a 24); lia).
  assert (Eptr : u64 (Z.land (a + kEmergencyArenaSize - 1) (Z.lnot (kEmergencyArenaSize - 1))) = ptr).
  { apply (RoundUp_val a 24); [lia|lia|]. change kEmergencyArenaSize with 16777216 in *. lia. }
  assert (Hd : (kEmergencyArenaSize | ptr)) by (exists ((a + 2 ^ 24 - 1) / 2 ^ 24); done).
  destruct (NewArena_spec ptr (rnd (emergency_arena e)) ltac:(lia) Hd Hr) as (A & EA & HA).
  unfold InitEmergencyMalloc. rewrite Eptr. run EA.
  rewrite (proj2 (Z.ltb_lt _ _)) by lia. cbn [check]. run (eq_refl (Ret tt)).
  eexists. split; [reflexivity|]. split; [|split; [done|]].
  - split; cbn [emergency_arena_start emergency_arena_end emergency_arena emergency_arena_start_shifted]; [lia|done|done|done|exact HA].
  - intros b. cbn [emergency_arena_start unmapped]. split.
    + intros Hr'. destruct (Z.lt_ge_cases b ptr) as [Hlt|Hge].
      * right. exists a, (ptr - a). rewrite (proj2 (Z.eqb_neq (ptr - a) 0)) by lia. split; [set_solver|lia].
      * destruct (Z.lt_ge_cases b (ptr + kEmergencyArenaSize)); [left; lia|right].
        exists (a + (ptr - a) + kEmergencyArenaSize), (kEmergencyArenaSize - (ptr - a)). split; [set_solver|lia].
    + intros [Hr'|(p & n & Hin & Hpn)]; [lia|]. apply elem_of_app in Hin as [Hin|Hin].
      * destruct (negb _); [|by apply elem_of_nil in Hin]. apply list_elem_of_singleton in Hin. injection Hin as -> ->. lia.
      * apply list_elem_of_singleton in Hin. injection Hin as -> ->. lia.
Qed.

(** After the set-up the region cannot grow. *)
Lemma map_pages_oom e U n : em_ok e U -> 0 < n -> map_pages e n = Fault OOM.
Proof.
  intros HE Hn. unfold map_pages, MapPages. rewrite (em_end _ _ HE), Z.gtb_ltb, (proj2 (Z.ltb_lt _ _)) by lia. done.
Qed.

(** Allocation in a region that is set up. *)
Lemma malloc_step (e : Emergency) (U : gmap Z Z) (mapped : option Z) (n : Z) :
  em_ok e U -> 0 < n < 2 ^ 33 -> Z.of_nat (base.size U) + 1 < 2 ^ 31 ->
  EmergencyMalloc mapped n e = Fault OOM /\ no_room (region e) U (req_of n) \/
  exists y s A F, EmergencyMalloc mapped n e = Ret (y + kHeaderSize, with_arena A e) /\ em_ok (with_arena A e) (<[y := s]> U) /\
    U !! y = None /\ n <= s - kHeaderSize /\
    Inv (emergency_arena_start e) (region e) A F (<[y := s]> U).
Proof.
  intros HE Hn Hcount. pose proof (em_start _ _ HE) as H0.
  assert (Hoom : map_pages e (region_of n) = Fault OOM).
  { apply (map_pages_oom e U); [done|]. destruct (region_of_spec n Hn), (req_of_spec n Hn) as (_ & _ & ? & _). lia. }
  destruct (arena_alloc _ _ (region_holed e U HE) _ U _ n (map_pages e) (em_arena _ _ HE) Hn) as [(er & E & Em & Hno)|(y & s & A' & O' & E & HA & Hy & Hs & _ & HO)].
  { intros addr sz Hm. rewrite Hoom in Hm. done. }
  { done. }
  all: unfold EmergencyMalloc; rewrite (proj2 (Z.eqb_neq _ 0)) by lia; run (eq_refl (Ret e)); rewrite E.
  - left. rewrite Hoom in Em. injection Em as <-. by split.
  - right. rewrite Hoom in HO. assert (HO' : O' = region e) by (by destruct HO as [->| ->]).
    rewrite HO' in HA. run (eq_refl (Ret (y + kHeaderSize, A'))).
    assert (HI : exists F, Inv (emergency_arena_start e) (region e) A' F (<[y := s]> U))
      by (destruct HA as (F & HI & _); by exists F).
    destruct HI as [F HI]. destruct (iv_used _ _ _ _ _ HI y s (lookup_insert_eq _ _ _)) as ((Hb1 & _) & _).
    exists y, s, A', F. rewrite (proj2 (Z.eqb_neq (y + kHeaderSize) 0)) by (unfold kHeaderSize, kSizeofArena in *; lia).
    split; [done|]. split; [|split; [done|split; [lia|done]]].
    destruct HE as [h1 h2 h3 h4 h5]. split; [exact h1|exact h2|exact h3|exact h4|exact HA].
Qed.

(** C33: the emergency allocator stays in its region. Once it is set up, and
    with fewer than 2^31 - 1 blocks allocated, a call for no bytes returns null
    with [ENOMEM]; a call for less than 8 GiB either ends the process because
    every stretch of the 16 MiB as long as the request with its header, rounded
    up to 32 bytes, meets an allocated block, or returns a block that is large
    enough, does not overlap the others, and all of whose bytes, and no byte
    outside of the region, pass [IsEmergencyPtr], so that they are freed where
    they came from; its size can be asked for and it can be freed, and the
    region is set up the same way again afterwards. *)
Theorem emergency_malloc_correct (e : Emergency) (U : gmap Z Z) (mapped : option Z) (n : Z) :
  em_ok e U -> 0 <= n < 2 ^ 33 -> Z.of_nat (base.size U) + 1 < 2 ^ 31 ->
  (forall p, IsEmergencyPtr p e = true <-> emergency_arena_start e <= p < emergency_arena_start e + kEmergencyArenaSize) /\
  (n = 0 /\ EmergencyMalloc mapped n e = Ret (0, with_errno ENOMEM e) \/
   EmergencyMalloc mapped n e = Fault OOM /\ no_room (region e) U (req_of n) \/
   exists y s e', EmergencyMalloc mapped n e = Ret (y + kHeaderSize, e') /\ em_ok e' (<[y := s]> U) /\ U !! y = None /\ 0 < n /\
     n <= s - kHeaderSize /\ EmergencyAllocatedSize (y + kHeaderSize) e' = Ret (s - kHeaderSize) /\
     (forall b, y <= b < y + s -> IsEmergencyPtr b e' = true) /\
     (forall x t, U !! x = Some t -> x + t <= y \/ y + s <= x)) /\
  (forall x s, U !! x = Some s -> exists e', EmergencyFree (x + kHeaderSize) e = Ret e' /\ em_ok e' (delete x U)).
Proof.
  intros HE Hn Hcount. pose proof (em_start _ _ HE) as H0. split; [intros; by apply (IsEmergencyPtr_range e U)|split].
  - destruct (Z.eq_dec n 0) as [->|Hn0].
    { left. split; [done|]. unfold EmergencyMalloc. rewrite (proj2 (Z.eqb_neq _ 0)) by lia. by destruct e. }
    right. destruct (malloc_step e U mapped n HE ltac:(lia) Hcount) as [?|(y & s & A' & F & E & HE' & Hy & Hs & HI)]; [by left|right].
    destruct (iv_used _ _ _ _ _ HI y s (lookup_insert_eq _ _ _)) as ((Hb1 & Hb2 & Hb3 & _ & _ & HbW) & _).
    exists y, s, (with_arena A' e). do 3 (split; [done|]). split; [lia|]. split; [done|]. split; [|split].
    + unfold EmergencyAllocatedSize. cbn [emergency_arena_start with_arena]. rewrite (proj2 (Z.eqb_neq _ 0)) by lia. cbn [negb check]. run (eq_refl (Ret tt)).
      eapply (arena_usable _ _ _ (<[y := s]> U)); [apply (region_holed e U HE)|exact (em_arena _ _ HE')|apply lookup_insert_eq].
    + intros b Hb. apply (IsEmergencyPtr_range _ _ _ HE'). cbn [emergency_arena_start with_arena]. specialize (HbW b Hb). unfold region, kSizeofArena in HbW. lia.
    + intros x t Hx. assert (x <> y) by congruence.
      destruct (iv_used _ _ _ _ _ HI x t) as ((_ & _ & ? & _) & _); [by rewrite lookup_insert_ne|].
      destruct (Z.lt_ge_cases x y); [left|right]; eapply (iv_apart _ _ _ _ _ HI); rewrite ?lookup_insert_eq; try done; try lia; by rewrite lookup_insert_ne.
  - intros x s Hx. destruct (arena_free _ _ (region_holed e U HE) _ U _ x s (em_arena _ _ HE) Hx) as (A' & E & HA); [lia|].
    exists (with_arena A' e). unfold EmergencyFree. rewrite (proj2 (Z.eqb_neq _ 0)) by lia. cbn [negb check]. run (eq_refl (Ret tt)). run E.
    split; [done|]. destruct HE as [h1 h2 h3 h4 h5]. split; [exact h1|exact h2|exact h3|exact h4|exact HA].
Qed.

Lemma copied (b : gmap Z Z) dst src (n : nat) q :
  foldl (fun acc i => match b !! (src + i) with Some v => <[dst + i := v]> acc | None => delete (dst + i) acc end) b (seqZ 0 (Z.of_nat n)) !! q =
  if decide (dst <= q < dst + Z.of_nat n) then b !! (src + (q - dst)) else b !! q.
Proof.
  induction n as [|n IH]; [by rewrite decide_False by lia|].
  replace (Z.of_nat (S n)) with (Z.of_nat n + 1) by lia. rewrite seqZ_app by lia. rewrite foldl_app.
  replace (seqZ (0 + Z.of_nat n) 1) with [Z.of_nat n] by (unfold seqZ; simpl; f_equal; lia). cbn [foldl].
  destruct (decide (q = dst + Z.of_nat n)) as [->|Hq].
  - rewrite (decide_True (P := dst <= _ < _)) by lia. replace (src + (dst + Z.of_nat n - dst)) with (src + Z.of_nat n) by lia.
    destruct (b !! (src + Z.of_nat n)); [apply lookup_insert_eq|apply lookup_delete_eq].
  - assert (E : forall (m : gmap Z Z), match b !! (src + Z.of_nat n) with Some v => <[dst + Z.of_nat n := v]> m | None => delete (dst + Z.of_nat n) m end !! q = m !! q).
    { intros m. destruct (b !! (src + Z.of_nat n)); [by rewrite lookup_insert_ne|by rewrite lookup_delete_ne]. }
    rewrite E, IH. destruct (decide (dst <= q < dst + Z.of_nat n)).
    + by rewrite decide_True by lia.
    + by rewrite decide_False by lia.
Qed.

(** [EmergencyRealloc] of an allocated block to [n] bytes ends in one of
    three ways: the region is used up; or the memory behind the old block that it
    copies as well reaches into the new block, and [memcpy] is called with
    overlapping ranges; or the new block has the old contents, up to the smaller
    of the two sizes, and the old block is free. *)
Theorem emergency_realloc_cases (e : Emergency) (U : gmap Z Z) (mapped : option Z) (x s n : Z) :
  em_ok e U -> U !! x = Some s -> 0 < n < 2 ^ 33 -> Z.of_nat (base.size U) + 1 < 2 ^ 31 ->
  EmergencyRealloc mapped (x + kHeaderSize) n e = Fault OOM \/
  EmergencyRealloc mapped (x + kHeaderSize) n e = Fault Undefined \/
  exists y t e', EmergencyRealloc mapped (x + kHeaderSize) n e = Ret (y + kHeaderSize, e') /\
    em_ok e' (delete x (<[y := t]> U)) /\ U !! y = None /\ n <= t - kHeaderSize /\
    forall i, 0 <= i < Z.min n (s - kHeaderSize) -> bytes e' !! (y + kHeaderSize + i) = bytes e !! (x + kHeaderSize + i).
Proof.
  intros HE Hx Hn Hcount. pose proof (em_start _ _ HE) as H0. set (start := emergency_arena_start e) in *.
  assert (Hblk : blk_ok (region e) x s).
  { destruct (em_arena _ _ HE) as (F & HI & _). apply (iv_used _ _ _ _ _ HI x s Hx). }
  destruct Hblk as (Hb1 & Hb2 & Hb3 & _ & _ & HbW). pose proof (HbW x ltac:(lia)) as Hx1. pose proof (HbW (x + s - 1) ltac:(lia)) as Hx2.
  unfold region in Hx1, Hx2. fold start in Hx1, Hx2. unfold kSizeofArena in *. change kEmergencyArenaSize with 16777216 in *.
  unfold EmergencyRealloc. rewrite (proj2 (Z.eqb_neq (x + kHeaderSize) 0)) by (unfold kHeaderSize; lia).
  rewrite (proj2 (Z.eqb_neq n 0)) by lia. fold start. rewrite (proj2 (Z.eqb_neq start 0)) by lia.
  rewrite (em_end _ _ HE). fold start. change kEmergencyArenaSize with 16777216.
  rewrite (proj2 (Z.leb_le (x + kHeaderSize) _)) by (unfold kHeaderSize; lia). rewrite (proj2 (Z.leb_le start _)) by (unfold kHeaderSize; lia).
  cbn [negb check]. run (eq_refl (Ret tt)). run (eq_refl (Ret tt)). run (eq_refl (Ret tt)).
  rewrite u64_small by (unfold kHeaderSize; lia). set (csize := if n <? _ then n else _).
  assert (Hc : Z.min n (s - kHeaderSize) <= csize /\ 0 <= csize) by (unfold csize, kHeaderSize; destruct (Z.ltb_spec n (start + 16777216 - (x + 32))); lia).
  assert (Hoom : map_pages e (region_of n) = Fault OOM).
  { apply (map_pages_oom e U); [done|]. destruct (region_of_spec n Hn), (req_of_spec n Hn) as (_ & _ & ? & _). lia. }
  destruct (arena_alloc _ _ (region_holed e U HE) _ U _ n (map_pages e) (em_arena _ _ HE) Hn) as [(er & E & Em & _)|(y & t & A' & O' & E & HA & Hy & Ht & _ & HO)].
  { intros addr sz Hm. rewrite Hoom in Hm. done. }
  { done. }
  { left. fold start in E. rewrite E. rewrite Hoom in Em. by injection Em as <-. }
  right. fold start in E, HA. run E. rewrite Hoom in HO. assert (HO' : O' = region e) by (by destruct HO as [->| ->]). rewrite HO' in HA. clear HO HO' Hoom.
  assert (Hy0 : blk_ok (region e) y t).
  { destruct HA as (F & HI & _). apply (iv_used _ _ _ _ _ HI y t (lookup_insert_eq _ _ _)). }
  destruct Hy0 as (Hy1 & _). rewrite (proj2 (Z.eqb_neq (y + kHeaderSize) 0)) by (unfold kHeaderSize, kSizeofArena in *; lia).
  unfold memcpy. destruct ((_ <? _) && _) eqn:Hov; [by left|right].
  rewrite (obind_ret _ _ _ eq_refl). cbv beta.
  assert (Hxy : x <> y) by congruence.
  destruct (arena_free start _ (region_holed e U HE) A' (<[y := t]> U) (region e) x s HA) as (A2 & E2 & HA2).
  { by rewrite lookup_insert_ne. }
  { rewrite map_size_insert_None by done. lia. }
  cbn [emergency_arena with_arena]. run E2. exists y, t. eexists. split; [reflexivity|].
  split; [destruct HE as [h1 h2 h3 h4 h5]; split; [exact h1|exact h2|exact h3|exact h4|exact HA2]|].
  split; [done|]. split; [lia|]. intros i Hi. cbn [bytes with_bytes].
  replace csize with (Z.of_nat (Z.to_nat csize)) by lia. rewrite copied, decide_True by lia. f_equal. lia.
Qed.

(** A region at 1 GiB, freshly set up. *)
Definition region0 : outcome Emergency := InitEmergencyMalloc (Some (2 ^ 30)) (EM.init 1).
Lemma region0_ok : exists e, region0 = Ret e /\ em_ok e ∅.
Proof.
  destruct (InitEmergencyMalloc_spec (2 ^ 30) (EM.init 1)) as (e & E & HE & _);
    [lia|change kEmergencyArenaSize with 16777216; lia|simpl; lia|]. exists e. split; [exact E|exact HE].
Qed.
Lemma emergency_malloc_correct_witness : exists e, region0 = Ret e /\
  exists y s e', EmergencyMalloc None 100 e = Ret (y + kHeaderSize, e') /\ 100 <= s - kHeaderSize /\ IsEmergencyPtr y e' = true.
Proof.
  destruct region0_ok as (e & E & HE). exists e. split; [exact E|].
  destruct (emergency_malloc_correct e ∅ None 100 HE) as (_ & [[H _]|[[_ H]|(y & s & e' & H & _ & _ & _ & Hs & _ & Hb & _)]] & _); [lia|reflexivity|discriminate H| |].
  - exfalso. destruct (H (emergency_arena_start e + kSizeofArena)) as (b & _ & x & s & Hx & _); [|by rewrite lookup_empty in Hx].
    intros b Hb. change (req_of 100) with 160 in Hb. unfold region. change kEmergencyArenaSize with 16777216. unfold kSizeofArena in *. lia.
  - exists y, s, e'. split; [exact H|]. split; [exact Hs|]. apply Hb. unfold kHeaderSize in Hs. lia.
Defined.

(** A block of 16 bytes grown to 1000: the copy of 1000 bytes overlaps. *)
Theorem emergency_realloc_overlaps :
  (e ← region0; '(p, e) ← EmergencyMalloc None 16 e; '(q, _) ← EmergencyRealloc None p 1000 e; Ret q) = Fault Undefined.
Proof. vm_compute. reflexivity. Qed.

Lemma first_malloc : (e ← region0; '(p, _) ← EmergencyMalloc None 16 e; Ret p) = Ret (2 ^ 30 + kSizeofArena + kHeaderSize).
Proof. vm_compute. reflexivity. Qed.
Lemma emergency_realloc_cases_witness : exists e x s, em_ok e {[x := s]} /\
  (EmergencyRealloc None (x + kHeaderSize) 8 e = Fault OOM \/ EmergencyRealloc None (x + kHeaderSize) 8 e = Fault Undefined \/
   exists y t e', EmergencyRealloc None (x + kHeaderSize) 8 e = Ret (y + kHeaderSize, e') /\ 8 <= t - kHeaderSize).
Proof.
  destruct region0_ok as (e & E & HE).
  destruct (malloc_step e ∅ None 16 HE ltac:(lia) ltac:(reflexivity)) as [[H _]|(x & s & A & F & H & HE' & _)].
  { pose proof first_malloc as Hf. rewrite E in Hf. cbn [mbind outcome_bind] in Hf. rewrite H in Hf. discriminate Hf. }
  exists (with_arena A e), x, s. split; [exact HE'|].
  assert (Hx : ({[x := s]} : gmap Z Z) !! x = Some s) by apply lookup_singleton_eq.
  assert (Hn : Z.of_nat (base.size ({[x := s]} : gmap Z Z)) + 1 < 2 ^ 31) by (rewrite map_size_singleton; lia).
  destruct (emergency_realloc_cases (with_arena A e) {[x := s]} None x s 8 HE' Hx ltac:(lia) Hn)
    as [R|[R|(y & t & e' & R & _ & _ & Ht & _)]]; [left; exact R|right; left; exact R|right; right].
  exists y, t, e'. split; [exact R|exact Ht].
Defined.
