(* ===== verification/DebugAllocation.v ===== *)
(** * The debugging allocator

    Models src/src/src/debugallocation.cc: blocks with a header before and a
    trailer after the client's data, the map of allocation types, the checks of
    deallocation, and the queue that holds freed blocks so that later writes to
    them are noticed. Memory is a map of bytes; a fatal report is [CheckFailed].
    The map of allocation types is a finite map (AddressMap.v has the data
    structure); [do_malloc] and [mmap] are arguments, the stack of the deleter,
    traces and log texts are left out. *)
From S2P Require Import Prelude.

Notation mem := (gmap Z Z).

(** ** Words in memory *)
Definition word_bytes (v : Z) : list Z := (fun i => Z.shiftr v (8 * i) mod 256) <$> seqZ 0 8.
Definition word_of (l : list Z) : Z := foldr (fun b acc => b + 256 * acc) 0 l.
Definition load8 (m : mem) (a : Z) : outcome Z := deref (m !! a).
Fixpoint load_bytes (n : nat) (m : mem) (a : Z) : outcome (list Z) :=
  match n with
  | O => Ret []
  | S n => b ← load8 m a; l ← load_bytes n m (a + 1); Ret (b :: l)
  end.
Definition load (m : mem) (a : Z) : outcome Z := l ← load_bytes 8 m a; Ret (word_of l).
Fixpoint store_bytes (l : list Z) (a : Z) (m : mem) : mem :=
  match l with [] => m | b :: l => store_bytes l (a + 1) (<[a := b]> m) end.
Definition store (a v : Z) (m : mem) : mem := store_bytes (word_bytes v) a m.
Definition memset (a v n : Z) (m : mem) : mem := store_bytes (replicate (Z.to_nat n) v) a m.

Lemma store_bytes_lookup l a m q :
  store_bytes l a m !! q = if decide (a <= q < a + Z.of_nat (length l)) then l !! Z.to_nat (q - a) else m !! q.
Proof.
  revert a m. induction l as [|b l IH]; intros a m; cbn [store_bytes length]; [by rewrite decide_False by lia|].
  rewrite IH. destruct (decide (q = a)) as [->|Hq].
  - rewrite decide_False, decide_True by lia. rewrite Z.sub_diag. by rewrite lookup_insert_eq.
  - destruct (decide (a + 1 <= q < a + 1 + Z.of_nat (length l))).
    + rewrite decide_True by lia. replace (Z.to_nat (q - a)) with (S (Z.to_nat (q - (a + 1)))) by lia. done.
    + rewrite decide_False by lia. by rewrite lookup_insert_ne.
Qed.
Lemma memset_lookup a v n m q : 0 <= n -> memset a v n m !! q = if decide (a <= q < a + n) then Some v else m !! q.
Proof.
  intros Hn. unfold memset. rewrite store_bytes_lookup, length_replicate, Z2Nat.id by lia.
  destruct (decide (a <= q < a + n)); [|done]. apply lookup_replicate_2. lia.
Qed.
Lemma length_word_bytes v : length (word_bytes v) = 8%nat.
Proof. unfold word_bytes. by rewrite length_fmap, length_seqZ. Qed.
Lemma store_other a v m q : ~ a <= q < a + 8 -> store a v m !! q = m !! q.
Proof. intros H. unfold store. rewrite store_bytes_lookup, length_word_bytes. by rewrite decide_False by lia. Qed.

Lemma load_bytes_spec n m a l : length l = n -> (forall i, (i < n)%nat -> m !! (a + Z.of_nat i) = l !! i) -> load_bytes n m a = Ret l.
Proof.
  revert a l. induction n as [|n IH]; intros a [|b l] Hl Hm; try done.
  cbn [load_bytes]. unfold load8. pose proof (Hm O ltac:(lia)) as H0. replace (a + Z.of_nat 0) with a in H0 by lia. rewrite H0. cbn [lookup list_lookup]. obind.
  rewrite (IH (a + 1) l); [done|simpl in Hl; lia|]. intros i Hi. specialize (Hm (S i) ltac:(lia)).
  replace (a + 1 + Z.of_nat i) with (a + Z.of_nat (S i)) by lia. exact Hm.
Qed.
Lemma load_bytes_inv n m a l : load_bytes n m a = Ret l -> length l = n /\ forall i, (i < n)%nat -> m !! (a + Z.of_nat i) = l !! i.
Proof.
  revert a l. induction n as [|n IH]; intros a l; cbn [load_bytes].
  - intros [= <-]. split; [done|lia].
  - unfold load8. destruct (m !! a) as [b|] eqn:Hb; obind; [|done]. destruct (load_bytes n m (a + 1)) as [l'|] eqn:E; obind; [|done].
    intros [= <-]. destruct (IH _ _ E) as [Hl Hm]. split; [simpl; lia|]. intros [|i] Hi; [by rewrite Z.add_0_r|].
    replace (a + Z.of_nat (S i)) with (a + 1 + Z.of_nat i) by lia. apply Hm. lia.
Qed.
(** A word reads the same when its bytes are the same. *)
Lemma load_ext m m' a : (forall q, a <= q < a + 8 -> m' !! q = m !! q) -> load m' a = load m a.
Proof.
  intros H. unfold load. assert (E : forall n b, a <= b -> b + Z.of_nat n <= a + 8 -> load_bytes n m' b = load_bytes n m b).
  { induction n as [|n IH]; intros b Hb Hn; [done|]. cbn [load_bytes]. unfold load8. rewrite H by lia. by rewrite IH by lia. }
  by rewrite (E 8%nat a) by lia.
Qed.
Lemma word_of_bytes v : 0 <= v < 2 ^ 64 -> word_of (word_bytes v) = v.
Proof.
  intros Hv. assert (H : forall n k, 0 <= k -> word_of ((fun i => Z.shiftr v (8 * i) mod 256) <$> seqZ k (Z.of_nat n)) =
    Z.shiftr v (8 * k) mod 256 ^ Z.of_nat n).
  { induction n as [|n IH]; intros k Hk; [by rewrite Z.mod_1_r|]. rewrite seqZ_cons by lia.
    replace (Z.pred (Z.of_nat (S n))) with (Z.of_nat n) by lia. csimpl. rewrite IH by lia.
    replace (Z.of_nat (S n)) with (Z.of_nat n + 1) by lia. rewrite Z.pow_add_r by lia. rewrite !Z.shiftr_div_pow2 by lia.
    replace (8 * Z.succ k) with (8 * k + 8) by lia. rewrite Z.pow_add_r by lia. change (2 ^ 8) with 256.
    rewrite <- Z.div_div by (try apply Z.pow_pos_nonneg; lia). change (256 ^ 1) with 256.
    rewrite (Z.mul_comm (256 ^ Z.of_nat n)). rewrite Z.rem_mul_r by (try apply Z.pow_pos_nonneg; lia). done. }
  unfold word_bytes. change (seqZ 0 8) with (seqZ 0 (Z.of_nat 8)). rewrite (H 8%nat 0) by lia. rewrite Z.shiftr_0_r. apply Z.mod_small. done.
Qed.
Lemma load_store m a v : 0 <= v < 2 ^ 64 -> load (store a v m) a = Ret v.
Proof.
  intros Hv. unfold load. rewrite (load_bytes_spec 8 _ a (word_bytes v)); [obind; by rewrite word_of_bytes|apply length_word_bytes|].
  intros i Hi. unfold store. rewrite store_bytes_lookup, length_word_bytes, decide_True by lia. f_equal. lia.
Qed.
Lemma load_store_ne m a v b : b + 8 <= a \/ a + 8 <= b -> load (store a v m) b = load m b.
Proof. intros H. apply load_ext. intros q Hq. apply store_other. lia. Qed.

(** ** The circular queue of freed blocks *)
Definition kFreeQueueSize : Z := 1024.
(** [MallocBlockQueueEntry], without the deleter's stack. *)
Record QueueEntry := mkEntry { block : Z; esize : Z }.
Definition kSizeofQueueEntry : Z := 160.
Record FreeQueue := mkQueue { q_ : gmap Z QueueEntry; q_front_ : Z; q_back_ : Z }.
Module FQ.
Definition new : FreeQueue := mkQueue ∅ 0 0.
Definition Full (q : FreeQueue) : bool := (q_front_ q + 1) mod kFreeQueueSize =? q_back_ q.
Definition Push (e : QueueEntry) (q : FreeQueue) : FreeQueue :=
  mkQueue (<[q_front_ q := e]> (q_ q)) ((q_front_ q + 1) mod kFreeQueueSize) (q_back_ q).
Definition Pop (q : FreeQueue) : outcome (QueueEntry * FreeQueue) :=
  _ ← check (negb (q_back_ q =? q_front_ q));
  ret ← deref (q_ q !! q_back_ q);
  Ret (ret, mkQueue (q_ q) (q_front_ q) ((q_back_ q + 1) mod kFreeQueueSize)).
Definition size (q : FreeQueue) : Z := (q_front_ q - q_back_ q + kFreeQueueSize) mod kFreeQueueSize.
End FQ.

(** ** Blocks *)
Definition kMallocType : Z := s32 0xEFCDAB90.
Definition kNewType : Z := s32 0xFEBADC81.
Definition kArrayNewType : Z := s32 0xBCEADF72.
Definition kDeallocatedTypeBit : Z := 4.
Definition kMagicUninitializedByte : Z := 0xAB.
Definition kMagicDeletedByte : Z := 0xCD.
Definition kMagicDeletedSizeT : Z := Z.lor 0xCDCDCDCD (u64 (Z.shiftl 0xCDCDCDCD 32)).
Definition kMagicMalloc : Z := 0xDEADBEEF.
Definition kMagicMMap : Z := 0xABCDEFAB.
Definition kSizeofMallocBlock : Z := 48.
Definition data_offset : Z := 32.
Definition kMinAlign : Z := 16.
Definition kDeletedBuffer : Z := 1024.

Record Debug := mkDebug {
  memory : mem;
  alloc_map_ : gmap Z Z;
  free_queue_ : FreeQueue;
  free_queue_size_ : Z;
  freed : list Z;
  unmapped : list (Z * Z) }.

Module DB.
Definition with_memory (v : mem) (d : Debug) : Debug :=
  mkDebug v (alloc_map_ d) (free_queue_ d) (free_queue_size_ d) (freed d) (unmapped d).
Definition with_map (v : gmap Z Z) (d : Debug) : Debug :=
  mkDebug (memory d) v (free_queue_ d) (free_queue_size_ d) (freed d) (unmapped d).
Definition with_queue (q : FreeQueue) (n : Z) (d : Debug) : Debug :=
  mkDebug (memory d) (alloc_map_ d) q n (freed d) (unmapped d).
Definition with_freed (v : list Z) (d : Debug) : Debug :=
  mkDebug (memory d) (alloc_map_ d) (free_queue_ d) (free_queue_size_ d) v (unmapped d).
Definition with_unmapped (v : list (Z * Z)) (d : Debug) : Debug :=
  mkDebug (memory d) (alloc_map_ d) (free_queue_ d) (free_queue_size_ d) (freed d) v.

(** Addresses of the fields of the block at [b]. *)
Definition size1 (b : Z) : Z := b.
Definition offset (b : Z) : Z := b + 8.
Definition magic1 (b : Z) : Z := b + 16.
Definition alloc_type (b : Z) : Z := b + 24.
Definition data_addr (b : Z) : Z := b + data_offset.
Definition size2_addr (b size1 : Z) : Z := u64 (data_addr b + size1).
Definition magic2_addr (b size1 : Z) : Z := size2_addr b size1 + 8.

Definition IsValidMagicValue (v : Z) : bool := (v =? kMagicMMap) || (v =? kMagicMalloc).
Definition RoundUp (value alignment : Z) : Z := Z.land (value + alignment - 1) (Z.lnot (alignment - 1)).
Definition real_malloced_size (size : Z) : Z := u64 (size + kSizeofMallocBlock).
Definition real_mmapped_size (size : Z) : Z := u64 (RoundUp (size + data_offset) kMinAlign).

Definition Initialize (b size type : Z) (d : Debug) : outcome Debug :=
  mg ← load (memory d) (magic1 b);
  _ ← check (IsValidMagicValue mg);
  let d := with_map (<[data_addr b := type]> (alloc_map_ d)) d in
  let m := store (alloc_type b) (u64 type) (store (offset b) 0 (store (size1 b) size (memory d))) in
  let m := if negb (mg =? kMagicMMap) then store (size2_addr b size) size (store (magic2_addr b size) mg m) else m in
  let m := memset (data_addr b) kMagicUninitializedByte size m in
  _ ← (if negb (mg =? kMagicMMap) then
         s1 ← load m (size1 b); s2 ← load m (size2_addr b s1); _ ← check (s1 =? s2);
         g1 ← load m (magic1 b); g2 ← load m (magic2_addr b s1); check (g1 =? g2)
       else Ret tt);
  Ret (with_memory m d).

(** [CheckLocked]. Each failed test is a fatal report. *)
Definition CheckLocked (b type : Z) (d : Debug) : outcome unit :=
  match alloc_map_ d !! data_addr b with
  | None => Fault CheckFailed
  | Some map_type =>
      _ ← check (Z.land map_type kDeallocatedTypeBit =? 0);
      at_ ← load (memory d) (alloc_type b);
      _ ← check (negb (at_ =? kMagicDeletedSizeT));
      mg ← load (memory d) (magic1 b);
      _ ← check (IsValidMagicValue mg);
      _ ← (if negb (mg =? kMagicMMap) then
             s1 ← load (memory d) (size1 b); s2 ← load (memory d) (size2_addr b s1);
             _ ← check (s1 =? s2);
             g2 ← load (memory d) (magic2_addr b s1); check (IsValidMagicValue g2)
           else Ret tt);
      _ ← check (at_ =? u64 type);
      check (at_ =? u64 map_type)
  end.

(** [CheckAndClear]: the real size of the block. *)
Definition CheckAndClear (b type given_size : Z) (d : Debug) : outcome (Z * Debug) :=
  _ ← CheckLocked b type d;
  mg ← load (memory d) (magic1 b);
  s1 ← load (memory d) (size1 b);
  _ ← (if negb (mg =? kMagicMMap) then s2 ← load (memory d) (size2_addr b s1); check (s1 =? s2) else Ret tt);
  let d := with_map (<[data_addr b := Z.lor type kDeallocatedTypeBit]> (alloc_map_ d)) d in
  let size := if mg =? kMagicMMap then real_mmapped_size s1 else real_malloced_size s1 in
  _ ← check ((given_size =? 0) || (given_size =? s1));
  Ret (size, with_memory (memset b kMagicDeletedByte size (memory d)) d).

(** [FromRawPointer]. *)
Definition FromRawPointer (p : Z) (d : Debug) : outcome Z :=
  let mb := p - data_offset in
  at_ ← load (memory d) (alloc_type mb);
  _ ← check (negb (at_ =? kMagicDeletedSizeT));
  off ← load (memory d) (offset mb);
  if off =? 0 then Ret mb else
  let main_block := mb - off in
  moff ← load (memory d) (offset main_block);
  _ ← check (moff =? 0);
  _ ← check (main_block <? p);
  s1 ← load (memory d) (size1 main_block);
  _ ← check (negb (size2_addr main_block s1 <? p));
  Ret main_block.

(** [actual_data_size]. *)
Definition actual_data_size (b raw_ptr : Z) (d : Debug) : outcome Z :=
  s1 ← load (memory d) (size1 b);
  let raw_begin := data_addr b in
  let raw_end := u64 (raw_begin + s1) in
  _ ← check (raw_begin <=? raw_end);
  _ ← check (raw_begin <=? raw_ptr);
  _ ← check (raw_ptr <=? raw_end);
  Ret (raw_end - raw_ptr).

(** [CheckForCorruptedBuffer] and [CheckForDanglingWrites]. *)
Fixpoint all_deleted (n : nat) (p : Z) (m : mem) : outcome bool :=
  match n with
  | O => Ret true
  | S n => b ← load8 m p; r ← all_deleted n (p + 1) m; Ret ((b =? kMagicDeletedByte) && r)
  end.
Definition CheckForCorruptedBuffer (p n : Z) (m : mem) : outcome unit :=
  ok ← all_deleted (Z.to_nat n) p m; check ok.
Definition CheckForDanglingWrites (e : QueueEntry) (m : mem) : outcome unit :=
  let buffers := esize e / kDeletedBuffer in
  let remainder := esize e mod kDeletedBuffer in
  p ← foldM (fun p (_ : Z) => _ ← CheckForCorruptedBuffer p kDeletedBuffer m; Ret (p + kDeletedBuffer)) (seqZ 0 buffers) (block e);
  CheckForCorruptedBuffer p remainder m.

(** A batch of popped entries: check each and give it to [do_free]. *)
Definition free_entries (es : list QueueEntry) (d : Debug) : outcome Debug :=
  foldM (fun d e => _ ← CheckForDanglingWrites e (memory d); Ret (with_freed (freed d ++ [block e]) d)) es d.
(** The loop of [ProcessFreeQueue]; [es] are the entries in the local array. *)
Fixpoint drain (fuel : nat) (max_free_queue_size : Z) (es : list QueueEntry) (d : Debug) : outcome Debug :=
  if (free_queue_size_ d >? u64 max_free_queue_size) || FQ.Full (free_queue_ d) then
    match fuel with
    | O => Fault OutOfFuel
    | S fuel =>
        _ ← check (Z.of_nat (length es) <? 4);
        '(e, q) ← FQ.Pop (free_queue_ d);
        let d := with_queue q (u64 (free_queue_size_ d - (esize e + kSizeofQueueEntry))) d in
        let es := es ++ [e] in
        if Z.of_nat (length es) =? 4 then d ← free_entries es d; drain fuel max_free_queue_size [] d
        else drain fuel max_free_queue_size es d
    end
  else free_entries es d.
Definition ProcessFreeQueue (b : option Z) (size max_free_queue_size : Z) (d : Debug) : outcome Debug :=
  _ ← check (negb (FQ.Full (free_queue_ d)));
  let d := match b with
           | Some b => with_queue (FQ.Push (mkEntry b size) (free_queue_ d)) (u64 (free_queue_size_ d + (size + kSizeofQueueEntry))) d
           | None => d
           end in
  drain (Z.to_nat kFreeQueueSize) max_free_queue_size [] d.
(** At exit the queue is emptied. *)
Definition DanglingWriteChecker (d : Debug) : outcome Debug := ProcessFreeQueue None 0 0 d.

(** [Allocate]; [got] is the answer of [do_malloc], or of [mmap] in page-fence
    mode, to a request of so many bytes. *)
Definition Allocate (page_fence : bool) (pagesize : Z) (got : Z -> Z) (size type : Z) (d : Debug) : outcome (Z * Debug) :=
  if size >? 2 ^ 64 - 1 - kSizeofMallocBlock then Ret (0, d) else
  b ← (if page_fence then
         let sz := real_mmapped_size size in
         let num_pages := s32 (u64 (sz + pagesize - 1) / pagesize + 1) in
         let p := got (u64 (s32 (num_pages * pagesize))) in
         if p =? 2 ^ 64 - 1 then Fault OOM else Ret (p + s32 ((num_pages - 1) * pagesize) - sz)
       else Ret (got (real_malloced_size size)));
  if b =? 0 then Ret (0, d) else
  let d := with_memory (store (magic1 b) (if page_fence then kMagicMMap else kMagicMalloc) (memory d)) d in
  d ← Initialize b size type d;
  Ret (b, d).

(** [Deallocate] with its flags. *)
Definition Deallocate (never_reclaim reclaim : bool) (pagesize max_free_queue_size b type given_size : Z) (d : Debug) : outcome Debug :=
  mg ← load (memory d) (magic1 b);
  if mg =? kMagicMMap then
    '(size, d) ← CheckAndClear b type given_size d;
    let size := s32 size in
    let num_pages := s32 (Z.quot (size + pagesize - 1) pagesize + 1) in
    let p := b - s32 ((num_pages - 1) * pagesize) + size in
    if never_reclaim || negb reclaim then Ret d
    else Ret (with_unmapped (unmapped d ++ [(p, u64 (s32 (num_pages * pagesize)))]) d)
  else
    '(size, d) ← CheckAndClear b type given_size d;
    if reclaim then ProcessFreeQueue (Some b) size max_free_queue_size d else Ret d.

(** [DebugAllocate] and [DebugDeallocate] outside of the emergency mode and
    without tracing. *)
Definition DebugAllocate (page_fence : bool) (pagesize : Z) (got : Z -> Z) (size type : Z) (d : Debug) : outcome (Z * Debug) :=
  '(b, d) ← Allocate page_fence pagesize got size type d;
  if b =? 0 then Ret (0, d) else Ret (data_addr b, d).
Definition DebugDeallocate (never_reclaim reclaim : bool) (pagesize max_free_queue_size ptr type given_size : Z) (d : Debug) : outcome Debug :=
  if ptr =? 0 then Ret d else
  b ← FromRawPointer ptr d; Deallocate never_reclaim reclaim pagesize max_free_queue_size b type given_size d.

(** [do_debug_memalign]. *)
Definition do_debug_memalign (page_fence : bool) (pagesize : Z) (got : Z -> Z) (alignment size type : Z) (d : Debug) : outcome (Z * Debug) :=
  _ ← check (Z.land alignment (u64 (alignment - 1)) =? 0);
  let extra_bytes := u64 (data_offset + alignment - 1) in
  if u64 (size + extra_bytes) <? size then Ret (0, d) else
  '(p, d) ← DebugAllocate page_fence pagesize got (u64 (size + extra_bytes)) type d;
  if p =? 0 then Ret (0, d) else
  let orig_p := p in
  let p := RoundUp (orig_p + data_offset) alignment in
  let fake_hdr := p - data_offset in
  Ret (p, with_memory (store (offset fake_hdr) (u64 (s32 (p - orig_p))) (memory d)) d).

(** [tc_calloc] and [tc_realloc] with the default [tc_new_mode], without hooks. *)
Definition tc_calloc (page_fence : bool) (pagesize : Z) (got : Z -> Z) (count size : Z) (d : Debug) : outcome (Z * Debug) :=
  let total_size := u64 (count * size) in
  if negb (size =? 0) && negb (total_size / size =? count) then Ret (0, d) else
  '(block, d) ← DebugAllocate page_fence pagesize got total_size kMallocType d;
  if block =? 0 then Ret (0, d) else Ret (block, with_memory (memset block 0 total_size (memory d)) d).
Definition memcpy (dst src n : Z) (m : mem) : outcome mem := l ← load_bytes (Z.to_nat n) m src; Ret (store_bytes l dst m).
Definition tc_realloc (page_fence never_reclaim reclaim : bool) (pagesize max_free_queue_size : Z) (got : Z -> Z) (ptr size : Z) (d : Debug) : outcome (Z * Debug) :=
  if ptr =? 0 then DebugAllocate page_fence pagesize got size kMallocType d else
  if size =? 0 then d ← DebugDeallocate never_reclaim reclaim pagesize max_free_queue_size ptr kMallocType 0 d; Ret (0, d) else
  old ← FromRawPointer ptr d;
  _ ← CheckLocked old kMallocType d;
  '(p, d) ← Allocate page_fence pagesize got size kMallocType d;
  if p =? 0 then Ret (0, d) else
  old_size ← actual_data_size old ptr d;
  m ← memcpy (data_addr p) ptr (if old_size <? size then old_size else size) (memory d);
  d ← DebugDeallocate never_reclaim reclaim pagesize max_free_queue_size ptr kMallocType 0 (with_memory m d);
  Ret (data_addr p, d).

(** [CheckEverything] and [MemoryStats]: a walk over the map of types. *)
Definition CheckEverything (d : Debug) : outcome bool :=
  _ ← foldM (fun _ '(ptr, type) =>
        if Z.land type kDeallocatedTypeBit =? 0 then b ← FromRawPointer ptr d; CheckLocked b type d else Ret tt)
      (map_to_list (alloc_map_ d)) tt;
  Ret true.
Definition kMallocHistogramSize : Z := 64.
Fixpoint log_entry (fuel : nat) (mysize entry : Z) : outcome Z :=
  if mysize =? 0 then Ret entry else
  match fuel with O => Fault OutOfFuel | S fuel => log_entry fuel (Z.shiftr mysize 1) (entry + 1) end.
Definition stats_step (d : Debug) : Z * Z * list Z -> Z * Z -> outcome (Z * Z * list Z) := fun '(blocks, total, histogram) '(ptr, type) =>
  if Z.land type kDeallocatedTypeBit =? 0 then
    b ← FromRawPointer ptr d; _ ← CheckLocked b type d;
    mysize ← load (memory d) (size1 b);
    entry ← log_entry 64 mysize 0;
    _ ← check (entry <? kMallocHistogramSize);
    Ret (s32 (blocks + 1), u64 (total + mysize), alter (fun n => s32 (n + 1)) (Z.to_nat entry) histogram)
  else Ret (blocks, total, histogram).
Definition MemoryStats (d : Debug) : outcome (Z * Z * list Z) :=
  foldM (stats_step d) (map_to_list (alloc_map_ d)) (0, 0, replicate (Z.to_nat kMallocHistogramSize) 0).
End DB.

(** ** The queue is a list *)
Module DBSpec.
Import DB.
Record holds (q : FreeQueue) (l : list QueueEntry) : Prop := {
  h_front : q_front_ q = (q_back_ q + Z.of_nat (length l)) mod kFreeQueueSize;
  h_back : 0 <= q_back_ q < kFreeQueueSize;
  h_length : Z.of_nat (length l) < kFreeQueueSize;
  h_entries : forall i e, l !! i = Some e -> q_ q !! ((q_back_ q + Z.of_nat i) mod kFreeQueueSize) = Some e }.

Lemma holds_new : holds FQ.new [].
Proof. split; [done|done|done|]. intros i e H. by rewrite lookup_nil in H. Qed.
Lemma ring_inj a i j : 0 <= i < kFreeQueueSize -> 0 <= j < kFreeQueueSize -> (a + i) mod kFreeQueueSize = (a + j) mod kFreeQueueSize -> i = j.
Proof.
  unfold kFreeQueueSize. intros Hi Hj E. pose proof (Z.div_mod (a + i) 1024 ltac:(lia)). pose proof (Z.div_mod (a + j) 1024 ltac:(lia)).
  rewrite E in *. lia.
Qed.
Lemma Full_spec q l : holds q l -> FQ.Full q = bool_decide (Z.of_nat (length l) = kFreeQueueSize - 1).
Proof.
  intros [Hf Hb Hl _]. unfold FQ.Full. rewrite Hf, Zplus_mod_idemp_l.
  replace (q_back_ q + Z.of_nat (length l) + 1) with (q_back_ q + (Z.of_nat (length l) + 1)) by lia.
  apply eq_true_iff_eq. rewrite Z.eqb_eq, bool_decide_eq_true. unfold kFreeQueueSize in *. split.
  - intros E. destruct (decide (Z.of_nat (length l) + 1 < 1024)); [|lia]. exfalso.
    assert (Z.of_nat (length l) + 1 = 0); [|lia]. apply (ring_inj (q_back_ q)); unfold kFreeQueueSize; [lia|lia|].
    rewrite E, Z.add_0_r. symmetry. by apply Z.mod_small.
  - intros ->. change (1024 - 1 + 1) with (1 * 1024). rewrite Z_mod_plus_full. by apply Z.mod_small.
Qed.
Lemma size_spec q l : holds q l -> FQ.size q = Z.of_nat (length l).
Proof.
  intros [Hf Hb Hl _]. unfold FQ.size. rewrite Hf. unfold kFreeQueueSize in *.
  replace ((q_back_ q + Z.of_nat (length l)) mod 1024 - q_back_ q + 1024) with ((q_back_ q + Z.of_nat (length l)) mod 1024 + (1024 - q_back_ q)) by lia.
  rewrite Zplus_mod_idemp_l. replace (q_back_ q + Z.of_nat (length l) + (1024 - q_back_ q)) with (Z.of_nat (length l) + 1 * 1024) by lia.
  rewrite Z_mod_plus_full. apply Z.mod_small. lia.
Qed.
Lemma Push_spec q l e : holds q l -> Z.of_nat (length l) < kFreeQueueSize - 1 -> holds (FQ.Push e q) (l ++ [e]).
Proof.
  intros [Hf Hb Hl He] Hr. split; simpl; [| |rewrite length_app; simpl; lia|].
  - rewrite Hf, Zplus_mod_idemp_l, length_app. simpl. f_equal. lia.
  - done.
  - intros i x [Hi|[Hi Hx]]%lookup_app_Some.
    + rewrite lookup_insert_ne; [by apply He|]. apply lookup_lt_Some in Hi. rewrite Hf. intros E.
      assert (Z.of_nat i = Z.of_nat (length l)); [|lia]. apply (ring_inj (q_back_ q)); [lia|lia|done].
    + destruct (i - length l)%nat as [|k] eqn:Ek; [|by destruct k]. injection Hx as ->. assert (i = length l) as -> by lia.
      by rewrite <- Hf, lookup_insert_eq.
Qed.
Lemma Pop_spec q e l : holds q (e :: l) -> exists q', FQ.Pop q = Ret (e, q') /\ holds q' l.
Proof.
  intros [Hf Hb Hl He]. cbn [length] in Hl, Hf. unfold FQ.Pop. rewrite (proj2 (Z.eqb_neq _ _)).
  - cbn [negb check]. obind. pose proof (He O e eq_refl) as H0. rewrite Z.add_0_r, Z.mod_small in H0 by done. rewrite H0. obind.
    eexists. split; [reflexivity|]. split; simpl.
    + rewrite Hf, Zplus_mod_idemp_l. f_equal. lia.
    + by apply Z.mod_pos_bound.
    + lia.
    + intros i x Hx. rewrite Zplus_mod_idemp_l. rewrite <- (He (S i) x Hx). do 2 f_equal. lia.
  - rewrite Hf. intros E. assert (0 = Z.of_nat (S (length l))); [|lia].
    apply (ring_inj (q_back_ q)); [done|lia|]. rewrite Z.add_0_r, <- E. by apply Z.mod_small.
Qed.

(** *** Writes to freed blocks *)
Definition readable (m : mem) (e : QueueEntry) : Prop := 0 <= esize e /\ forall i, 0 <= i < esize e -> is_Some (m !! (block e + i)).
Definition clean (m : mem) (e : QueueEntry) : Prop := forall i, 0 <= i < esize e -> m !! (block e + i) = Some kMagicDeletedByte.
#[export] Instance clean_dec m e : Decision (clean m e).
Proof.
  destruct (decide (Forall (fun i => m !! (block e + i) = Some kMagicDeletedByte) (seqZ 0 (esize e)))) as [H|H]; [left|right].
  - intros i Hi. rewrite Forall_forall in H. apply H. apply elem_of_seqZ. lia.
  - intros Hc. apply H. rewrite Forall_forall. intros i Hi. apply Hc. apply elem_of_seqZ in Hi. lia.
Defined.

Lemma all_deleted_spec n p m : (forall i, 0 <= i < Z.of_nat n -> is_Some (m !! (p + i))) ->
  exists r, all_deleted n p m = Ret r /\ (r = true <-> forall i, 0 <= i < Z.of_nat n -> m !! (p + i) = Some kMagicDeletedByte).
Proof.
  revert p. induction n as [|n IH]; intros p Hr; cbn [all_deleted]; [exists true; split; [done|]; split; [lia|done]|].
  destruct (Hr 0 ltac:(lia)) as [b Hb]. rewrite Z.add_0_r in Hb. unfold load8. rewrite Hb. obind.
  destruct (IH (p + 1)) as (r & -> & Hrr). { intros i Hi. replace (p + 1 + i) with (p + (i + 1)) by lia. apply Hr. lia. }
  obind. eexists. split; [reflexivity|]. rewrite andb_true_iff, Z.eqb_eq, Hrr. split.
  - intros [-> Ha] i Hi. destruct (decide (i = 0)) as [->|]; [by rewrite Z.add_0_r|].
    replace (p + i) with (p + 1 + (i - 1)) by lia. apply Ha. lia.
  - intros Ha. split; [specialize (Ha 0 ltac:(lia)); rewrite Z.add_0_r in Ha; congruence|].
    intros i Hi. replace (p + 1 + i) with (p + (i + 1)) by lia. apply Ha. lia.
Qed.
Lemma CheckForCorruptedBuffer_spec p n m : 0 <= n -> (forall i, 0 <= i < n -> is_Some (m !! (p + i))) ->
  (CheckForCorruptedBuffer p n m = Ret tt /\ forall i, 0 <= i < n -> m !! (p + i) = Some kMagicDeletedByte) \/
  (CheckForCorruptedBuffer p n m = Fault CheckFailed /\ ~ forall i, 0 <= i < n -> m !! (p + i) = Some kMagicDeletedByte).
Proof.
  intros Hn Hr. unfold CheckForCorruptedBuffer. destruct (all_deleted_spec (Z.to_nat n) p m) as (r & -> & Hrr).
  { intros i Hi. apply Hr. lia. }
  rewrite Z2Nat.id in Hrr by lia. obind. destruct r; [left|right]; (split; [done|]); [by apply Hrr|]. by intros H%Hrr.
Qed.

(** The check accepts exactly the blocks nobody wrote to. *)
Lemma CheckForDanglingWrites_spec e m : readable m e ->
  CheckForDanglingWrites e m = if decide (clean m e) then Ret tt else Fault CheckFailed.
Proof.
  intros [He Hr]. unfold CheckForDanglingWrites. set (k := esize e / kDeletedBuffer).
  assert (Hk : 0 <= k) by (apply Z.div_pos; done). pose proof (Z.div_mod (esize e) kDeletedBuffer ltac:(done)) as Hdm. fold k in Hdm.
  pose proof (Z.mod_pos_bound (esize e) kDeletedBuffer ltac:(done)) as Hmb. unfold kDeletedBuffer in *.
  set (cl := fun a b : Z => forall i, a <= i < b -> m !! (block e + i) = Some kMagicDeletedByte).
  assert (Hchunk : forall a n, 0 <= a -> 0 <= n -> a + n <= esize e ->
    (CheckForCorruptedBuffer (block e + a) n m = Ret tt /\ cl a (a + n)) \/ (CheckForCorruptedBuffer (block e + a) n m = Fault CheckFailed /\ ~ cl a (a + n))).
  { intros a n Ha Hn Hle.
    destruct (CheckForCorruptedBuffer_spec (block e + a) n m Hn) as [[E Hall]|[E Hno]]; [intros i Hi; rewrite <- Z.add_assoc; apply Hr; lia| |]; [left|right]; (split; [done|]).
    - intros i Hi. specialize (Hall (i - a) ltac:(lia)). by replace (block e + a + (i - a)) with (block e + i) in Hall by lia.
    - intros H. apply Hno. intros i Hi. rewrite <- Z.add_assoc. apply H. lia. }
  assert (Hloop : forall n j, 0 <= j -> j + Z.of_nat n = k ->
    let f := foldM (fun p (_ : Z) => _ ← CheckForCorruptedBuffer p 1024 m; Ret (p + 1024)) (seqZ j (Z.of_nat n)) (block e + 1024 * j) in
    (f = Ret (block e + 1024 * k) /\ cl (1024 * j) (1024 * k)) \/ (f = Fault CheckFailed /\ ~ cl (1024 * j) (1024 * k))).
  { induction n as [|n IH]; intros j Hj Hjk f; unfold f.
    - assert (j = k) as -> by lia. left. split; [done|]. intros i Hi. lia.
    - rewrite seqZ_cons by lia. replace (Z.pred (Z.of_nat (S n))) with (Z.of_nat n) by lia. cbn [foldM].
      destruct (Hchunk (1024 * j) 1024 ltac:(lia) ltac:(lia) ltac:(lia)) as [[-> Hall]|[-> Hno]]; obind.
      + replace (block e + 1024 * j + 1024) with (block e + 1024 * Z.succ j) by lia.
        destruct (IH (Z.succ j) ltac:(lia) ltac:(lia)) as [[-> Hc]|[-> Hc]]; [left|right]; (split; [done|]).
        * intros i Hi. destruct (Z.lt_ge_cases i (1024 * Z.succ j)); [apply Hall; lia|apply Hc; lia].
        * intros H. apply Hc. intros i Hi. apply H. lia.
      + right. split; [done|]. intros H. apply Hno. intros i Hi. apply H. lia. }
  destruct (Hloop (Z.to_nat k) 0 ltac:(lia) ltac:(lia)) as [Hl0|Hl0]; rewrite Z2Nat.id in Hl0 by lia;
    replace (block e + 1024 * 0) with (block e) in Hl0 by lia; destruct Hl0 as [-> Hc]; obind.
  - destruct (Hchunk (1024 * k) (esize e mod 1024) ltac:(lia) ltac:(lia) ltac:(lia)) as [[-> Hall]|[-> Hno]].
    + rewrite decide_True; [done|]. intros i Hi. destruct (Z.lt_ge_cases i (1024 * k)); [apply Hc; lia|apply Hall; lia].
    + rewrite decide_False; [done|]. intros H. apply Hno. intros i Hi. apply H. lia.
  - rewrite decide_False; [done|]. intros H. apply Hc. intros i Hi. apply H. lia.
Qed.

(** *** Draining the queue *)
Definition total (l : list QueueEntry) : Z := foldr (fun e n => esize e + kSizeofQueueEntry + n) 0 l.
Lemma total_app l k : total (l ++ k) = total l + total k.
Proof. induction l as [|e l IH]; simpl; lia. Qed.
Lemma total_nonneg l : Forall (fun e => 0 <= esize e) l -> kSizeofQueueEntry * Z.of_nat (length l) <= total l.
Proof. induction 1 as [|e l He _ IH]; [done|]. cbn [total foldr length]. fold (total l). unfold kSizeofQueueEntry in *. lia. Qed.

Lemma free_entries_spec es d : Forall (readable (memory d)) es ->
  (free_entries es d = Ret (with_freed (freed d ++ (block <$> es)) d) /\ Forall (clean (memory d)) es) \/
  (free_entries es d = Fault CheckFailed /\ ~ Forall (clean (memory d)) es).
Proof.
  intros Hr. unfold free_entries. revert d Hr. induction es as [|e es IH]; intros d Hr.
  - left. split; [|done]. destruct d. cbn. by rewrite app_nil_r.
  - apply Forall_cons in Hr as [He Hr]. cbn [foldM]. rewrite (CheckForDanglingWrites_spec e (memory d) He).
    destruct (decide (clean (memory d) e)) as [Hc|Hc]; obind.
    + destruct (IH (with_freed (freed d ++ [block e]) d) Hr) as [[-> Hall]|[-> Hno]]; [left|right].
      * split; [|by constructor]. cbn. by rewrite <- app_assoc.
      * split; [done|]. intros H. apply Forall_cons in H as [_ H]. by apply Hno.
    + right. split; [done|]. intros H. apply Forall_cons in H as [H _]. done.
Qed.

Definition drained (d d' : Debug) (max : Z) (es l1 l2 : list QueueEntry) : Prop :=
  holds (free_queue_ d') l2 /\ free_queue_size_ d' = total l2 /\ freed d' = freed d ++ (block <$> es ++ l1) /\
  memory d' = memory d /\ alloc_map_ d' = alloc_map_ d /\ unmapped d' = unmapped d /\ total l2 <= u64 max /\ Z.of_nat (length l2) < kFreeQueueSize - 1.

Lemma drain_spec max fuel es d l : holds (free_queue_ d) l -> free_queue_size_ d = total l -> total l < 2 ^ 64 ->
  (length es < 4)%nat -> Forall (readable (memory d)) (es ++ l) -> (length l <= fuel)%nat ->
  (exists d' l1 l2, drain fuel max es d = Ret d' /\ l = l1 ++ l2 /\ Forall (clean (memory d)) (es ++ l1) /\ drained d d' max es l1 l2) \/
  (drain fuel max es d = Fault CheckFailed /\ ~ Forall (clean (memory d)) (es ++ l)).
Proof.
  revert es d l. induction fuel as [|fuel IH]; intros es d l Hq Hsz Ht He Hr Hf.
  all: cbn [drain]; rewrite Hsz, (Full_spec _ l Hq); destruct (_ || _) eqn:Hcond.
  2, 4: apply orb_false_iff in Hcond as [Hc1 Hc2]; apply bool_decide_eq_false in Hc2; pose proof (h_length _ _ Hq);
    destruct (free_entries_spec es d) as [[E Hcl]|[E Hno]]; [by apply Forall_app in Hr as [? _]| |];
    [left; exists (with_freed (freed d ++ (block <$> es)) d), [], l; split; [done|]; split; [done|]; rewrite !app_nil_r;
       split; [done|]; unfold drained; rewrite app_nil_r; do 6 (split; [done|]); lia
    |right; split; [done|]; intros H'; apply Forall_app in H' as [H' _]; done].
  - exfalso. destruct l as [|e l]; [|simpl in Hf; lia]. apply orb_true_iff in Hcond as [Hc|Hc].
    + simpl in Hc. pose proof (u64_range max). lia.
    + apply bool_decide_eq_true in Hc. simpl in Hc. unfold kFreeQueueSize in Hc. lia.
  - destruct l as [|e l].
    { exfalso. apply orb_true_iff in Hcond as [Hc|Hc]; [simpl in Hc; pose proof (u64_range max); lia|].
      apply bool_decide_eq_true in Hc. simpl in Hc. unfold kFreeQueueSize in Hc. lia. }
    rewrite check_true by lia. obind. destruct (Pop_spec _ _ _ Hq) as (q' & -> & Hq'). obind.
    apply Forall_app in Hr as [Hre Hrl]. apply Forall_cons in Hrl as [Hr1 Hrl].
    assert (Hnn : 0 <= total l).
    { pose proof (total_nonneg l). etrans; [|apply H]; [unfold kSizeofQueueEntry; lia|]. eapply Forall_impl; [exact Hrl|]. by intros x [? _]. }
    cbn [total foldr] in Ht |- *. fold (total l) in Ht |- *. destruct Hr1 as [Hr0 Hr1].
    replace (u64 (esize e + kSizeofQueueEntry + total l - (esize e + kSizeofQueueEntry))) with (total l)
      by (rewrite u64_small; unfold kSizeofQueueEntry in *; lia).
    set (d1 := with_queue q' (total l) d).
    assert (Hre1 : Forall (readable (memory d)) (es ++ [e])) by (apply Forall_app; split; [done|]; constructor; [by split|done]).
    destruct (Z.eqb_spec (Z.of_nat (length (es ++ [e]))) 4) as [H4|H4].
    + destruct (free_entries_spec (es ++ [e]) d1 Hre1) as [[-> Hcl]|[-> Hno]]; obind.
      * destruct (IH [] (with_freed (freed d1 ++ (block <$> es ++ [e])) d1) l) as [(d' & l1 & l2 & E & -> & Hc & Hd)|[E Hno]];
          [exact Hq'|done|unfold kSizeofQueueEntry in *; lia|simpl; lia|done|simpl in Hf; lia| |].
        -- left. exists d', (e :: l1), l2. split; [done|]. split; [done|]. split.
           ++ replace (es ++ e :: l1) with ((es ++ [e]) ++ l1) by by rewrite <- app_assoc. apply Forall_app. split; [exact Hcl|exact Hc].
           ++ destruct Hd as (h1 & h2 & h3 & h4). split; [done|]. split; [done|]. split; [|exact h4].
              rewrite h3. cbn. rewrite <- app_assoc. f_equal. rewrite <- fmap_app. by rewrite <- app_assoc.
        -- right. split; [done|]. intros H'. apply Hno. cbn. apply Forall_app in H' as [_ H']. by apply Forall_cons in H' as [_ ?].
      * right. split; [done|]. intros H'. apply Hno. cbn. apply Forall_app in H' as [H1 H2]. apply Forall_cons in H2 as [H2 _].
        apply Forall_app. split; [done|]. by constructor.
    + rewrite length_app in H4. cbn [length] in H4.
      destruct (IH (es ++ [e]) d1 l) as [(d' & l1 & l2 & E & -> & Hc & Hd)|[E Hno]];
        [exact Hq'|done|unfold kSizeofQueueEntry in *; lia|rewrite length_app; simpl; lia|cbn; apply Forall_app; done|simpl in Hf; lia| |].
      * left. exists d', (e :: l1), l2. split; [done|]. split; [done|]. rewrite <- app_assoc in Hc. split; [exact Hc|].
        destruct Hd as (h1 & h2 & h3 & h4). split; [done|]. split; [done|]. split; [|exact h4]. rewrite h3. by rewrite <- app_assoc.
      * right. split; [done|]. intros H'. apply Hno. rewrite <- app_assoc. exact H'.
Qed.

(** *** The life of a block *)
Definition known_type (t : Z) : Prop := t = kMallocType \/ t = kNewType \/ t = kArrayNewType.
Definition in_space (b size : Z) : Prop := 0 < b /\ 0 <= size /\ b + kSizeofMallocBlock + size < 2 ^ 64.
(** Header and trailer of an allocated block. *)
Record live (m : mem) (b size type : Z) : Prop := {
  lv_size : load m (size1 b) = Ret size;
  lv_offset : load m (offset b) = Ret 0;
  lv_magic : load m (magic1 b) = Ret kMagicMalloc;
  lv_type : load m (alloc_type b) = Ret (u64 type);
  lv_size2 : load m (b + data_offset + size) = Ret size;
  lv_magic2 : load m (b + data_offset + size + 8) = Ret kMagicMalloc }.

Lemma load_memset_ne m a v n b : 0 <= n -> b + 8 <= a \/ a + n <= b -> load (memset a v n m) b = load m b.
Proof. intros Hn H. apply load_ext. intros q Hq. rewrite memset_lookup by done. by rewrite decide_False by lia. Qed.
Lemma known_type_facts t : known_type t -> Z.land t kDeallocatedTypeBit = 0 /\ u64 t <> kMagicDeletedSizeT /\ 0 <= u64 t < 2 ^ 64.
Proof. intros Ht. split; [|split; [|apply u64_range]]; destruct Ht as [->|[->| ->]]; vm_compute; done. Qed.
Lemma size2_addr_val b size : in_space b size -> size2_addr b size = b + data_offset + size.
Proof. intros (? & ? & ?). unfold size2_addr, data_addr, data_offset, kSizeofMallocBlock in *. apply u64_small. lia. Qed.
(** Header and trailer do not see changes elsewhere. *)
Lemma live_ext m m' b size type : live m b size type ->
  (forall q, b <= q < b + data_offset \/ b + data_offset + size <= q < b + kSizeofMallocBlock + size -> m' !! q = m !! q) -> live m' b size type.
Proof.
  intros [H1 H2 H3 H4 H5 H6] He. unfold size1, offset, magic1, alloc_type, data_offset, kSizeofMallocBlock in *.
  split; (erewrite load_ext; [done|]); unfold size1, offset, magic1, alloc_type, data_offset; intros q Hq; apply He; lia.
Qed.

(** What [Initialize] leaves in memory. *)
Definition initialized (b size type : Z) (m : mem) : mem :=
  memset (data_addr b) kMagicUninitializedByte size
    (store (size2_addr b size) size (store (magic2_addr b size) kMagicMalloc
      (store (alloc_type b) (u64 type) (store (offset b) 0 (store (size1 b) size (store (magic1 b) kMagicMalloc m)))))).
Lemma initialized_live b size type m : in_space b size -> live (initialized b size type m) b size type.
Proof.
  intros Hin. unfold initialized, magic2_addr. rewrite (size2_addr_val b size Hin). destruct Hin as (H0 & Hs & Hb).
  unfold size1, offset, magic1, alloc_type, data_addr, data_offset, kSizeofMallocBlock in *. pose proof (u64_range type).
  split; unfold size1, offset, magic1, alloc_type, data_offset; rewrite load_memset_ne by lia.
  - do 4 rewrite load_store_ne by lia. apply load_store. lia.
  - do 3 rewrite load_store_ne by lia. by apply load_store.
  - do 5 rewrite load_store_ne by lia. by apply load_store.
  - do 2 rewrite load_store_ne by lia. by apply load_store.
  - apply load_store. lia.
  - rewrite load_store_ne by lia. by apply load_store.
Qed.
Lemma initialized_other b size type m q : in_space b size -> ~ b <= q < b + kSizeofMallocBlock + size -> initialized b size type m !! q = m !! q.
Proof.
  intros Hin Hq. unfold initialized, magic2_addr. rewrite (size2_addr_val b size Hin). destruct Hin as (H0 & Hs & Hb).
  unfold size1, offset, magic1, alloc_type, data_addr, data_offset, kSizeofMallocBlock in *.
  rewrite memset_lookup by done. rewrite decide_False by lia. by rewrite !store_other by lia.
Qed.

Lemma Allocate_spec pagesize got size type d b : in_space b size -> got (size + kSizeofMallocBlock) = b ->
  Allocate false pagesize got size type d =
    Ret (b, with_memory (initialized b size type (memory d)) (with_map (<[data_addr b := type]> (alloc_map_ d)) d)).
Proof.
  intros Hin Hg. pose proof Hin as (H0 & Hs & Hb). unfold Allocate, real_malloced_size.
  assert (Hbig : (size >? 2 ^ 64 - 1 - kSizeofMallocBlock) = false) by (rewrite Z.gtb_ltb; apply Z.ltb_ge; unfold kSizeofMallocBlock in *; lia).
  rewrite Hbig. rewrite u64_small by (unfold kSizeofMallocBlock in *; lia). rewrite Hg. obind. rewrite (proj2 (Z.eqb_neq b 0)) by lia.
  unfold Initialize. cbn [memory with_memory]. rewrite load_store by done. obind. cbn [check IsValidMagicValue]. obind.
  change (negb (kMagicMalloc =? kMagicMMap)) with true. cbn [memory with_map with_memory].
  fold (initialized b size type (memory d)).
  destruct (initialized_live b size type (memory d) Hin) as [h1 h2 h3 h4 h5 h6].
  rewrite h1. obind. unfold magic2_addr. rewrite (size2_addr_val b size Hin), h5. obind. rewrite check_true by apply Z.eqb_refl. obind.
  rewrite h3. obind. rewrite h6. obind. rewrite check_true by done. obind. done.
Qed.

Lemma CheckLocked_live b size type d : in_space b size -> known_type type -> live (memory d) b size type ->
  alloc_map_ d !! data_addr b = Some type -> CheckLocked b type d = Ret tt.
Proof.
  intros Hin Hk [h1 h2 h3 h4 h5 h6] Hm. destruct (known_type_facts type Hk) as (Hbit & Hdel & _).
  unfold CheckLocked. rewrite Hm, Hbit, h4. cbn [check Z.eqb]. obind. rewrite (proj2 (Z.eqb_neq _ _) Hdel). obind.
  rewrite h3. obind. cbn [check IsValidMagicValue]. obind. rewrite h1. change (negb (kMagicMalloc =? kMagicMMap)) with true. obind.
  unfold magic2_addr. rewrite (size2_addr_val b size Hin), h5. obind. rewrite check_true by apply Z.eqb_refl. obind. rewrite h6. obind.
  rewrite !check_true by (done || apply Z.eqb_refl). done.
Qed.
Lemma CheckAndClear_live b size type given d : in_space b size -> known_type type -> live (memory d) b size type ->
  alloc_map_ d !! data_addr b = Some type -> given = 0 \/ given = size ->
  CheckAndClear b type given d = Ret (size + kSizeofMallocBlock,
    with_memory (memset b kMagicDeletedByte (size + kSizeofMallocBlock) (memory d))
      (with_map (<[data_addr b := Z.lor type kDeallocatedTypeBit]> (alloc_map_ d)) d)).
Proof.
  intros Hin Hk Hl Hm Hg. unfold CheckAndClear. rewrite (CheckLocked_live b size type d Hin Hk Hl Hm). obind.
  destruct Hl as [h1 h2 h3 h4 h5 h6]. rewrite h3. obind. rewrite h1. obind. change (kMagicMalloc =? kMagicMMap) with false. cbn [negb].
  rewrite (size2_addr_val b size Hin), h5. obind. rewrite Z.eqb_refl. cbn [check]. obind.
  rewrite check_true by (destruct Hg as [->| ->]; [done|rewrite Z.eqb_refl; apply orb_true_r]). obind.
  unfold real_malloced_size. destruct Hin as (? & ? & ?). rewrite u64_small by (unfold kSizeofMallocBlock in *; lia). done.
Qed.
Lemma FromRawPointer_live b size type d : known_type type -> live (memory d) b size type -> FromRawPointer (data_addr b) d = Ret b.
Proof.
  intros Hk [h1 h2 h3 h4 h5 h6]. destruct (known_type_facts type Hk) as (_ & Hdel & _). unfold FromRawPointer.
  replace (data_addr b - data_offset) with b by (unfold data_addr; lia). rewrite h4. obind.
  rewrite check_true by (apply negb_true_iff; by apply Z.eqb_neq). obind. by rewrite h2.
Qed.

(** A word of deleted memory. *)
Lemma load_deleted m a : (forall q, a <= q < a + 8 -> m !! q = Some kMagicDeletedByte) -> load m a = Ret kMagicDeletedSizeT.
Proof.
  intros H. unfold load. rewrite (load_bytes_spec 8 m a (replicate 8 kMagicDeletedByte)); [done|done|].
  intros i Hi. rewrite lookup_replicate_2 by done. apply H. lia.
Qed.

(** The state between calls: [l] are the entries of the queue, clean or not. *)
Record Ok (d : Debug) (l : list QueueEntry) : Prop := {
  ok_queue : holds (free_queue_ d) l;
  ok_size : free_queue_size_ d = total l;
  ok_room : Z.of_nat (length l) < kFreeQueueSize - 1;
  ok_total : total l < 2 ^ 63;
  ok_readable : Forall (readable (memory d)) l }.

Lemma ProcessFreeQueue_spec b size max d l : Ok d l -> 0 <= size -> size + kSizeofQueueEntry + total l < 2 ^ 64 -> readable (memory d) (mkEntry b size) ->
  (exists d' l1 l2, ProcessFreeQueue (Some b) size max d = Ret d' /\ l ++ [mkEntry b size] = l1 ++ l2 /\
     Forall (clean (memory d)) l1 /\ drained d d' max [] l1 l2) \/
  (ProcessFreeQueue (Some b) size max d = Fault CheckFailed /\ ~ Forall (clean (memory d)) (l ++ [mkEntry b size])).
Proof.
  intros [Hq Hs Hroom Ht Hr] Hsz Htot Hrb. unfold ProcessFreeQueue. rewrite (Full_spec _ l Hq), check_true by (rewrite bool_decide_eq_false_2 by lia; done). obind.
  pose proof (Push_spec _ _ (mkEntry b size) Hq Hroom) as Hq'.
  assert (Hnn : 0 <= total l).
  { pose proof (total_nonneg l) as H. etrans; [|apply H]; [unfold kSizeofQueueEntry; lia|]. eapply Forall_impl; [exact Hr|]. by intros x [? _]. }
  assert (Htapp : total (l ++ [mkEntry b size]) = total l + (size + kSizeofQueueEntry)) by (rewrite total_app; simpl; lia).
  rewrite Hs, u64_small by (unfold kSizeofQueueEntry in *; lia).
  destruct (drain_spec max (Z.to_nat kFreeQueueSize) [] (with_queue (FQ.Push (mkEntry b size) (free_queue_ d)) (total l + (size + kSizeofQueueEntry)) d) (l ++ [mkEntry b size]))
    as [(d' & l1 & l2 & E & Hl & Hc & Hd)|[E Hno]]; [exact Hq'|done|lia|simpl; lia| | | |].
  - cbn. apply Forall_app. split; [done|by constructor].
  - pose proof (h_length _ _ Hq'). unfold kFreeQueueSize in *. lia.
  - left. exists d', l1, l2. done.
  - right. done.
Qed.
(** Freeing a live block: it is cleared, marked and queued. *)
Definition cleared (b size type : Z) (d : Debug) : Debug :=
  with_memory (memset b kMagicDeletedByte (size + kSizeofMallocBlock) (memory d))
    (with_map (<[data_addr b := Z.lor type kDeallocatedTypeBit]> (alloc_map_ d)) d).
Lemma DebugDeallocate_run never_reclaim reclaim pagesize max b size type given d : in_space b size -> known_type type -> live (memory d) b size type ->
  alloc_map_ d !! data_addr b = Some type -> given = 0 \/ given = size ->
  DebugDeallocate never_reclaim reclaim pagesize max (data_addr b) type given d =
    if reclaim then ProcessFreeQueue (Some b) (size + kSizeofMallocBlock) max (cleared b size type d) else Ret (cleared b size type d).
Proof.
  intros Hin Hk Hlive Ha Hg. pose proof Hin as (H0 & Hs & Hsp).
  unfold DebugDeallocate. rewrite (proj2 (Z.eqb_neq (data_addr b) 0)) by (unfold data_addr, data_offset; lia).
  rewrite (FromRawPointer_live b size type d Hk Hlive). obind. unfold Deallocate. rewrite (lv_magic (memory d) b size type Hlive). obind.
  change (kMagicMalloc =? kMagicMMap) with false. cbv iota. rewrite (CheckAndClear_live b size type given d Hin Hk Hlive Ha Hg). obind. done.
Qed.
Lemma DebugDeallocate_live pagesize max b size type given d l : in_space b size -> known_type type -> live (memory d) b size type ->
  alloc_map_ d !! data_addr b = Some type -> given = 0 \/ given = size -> size + kSizeofMallocBlock + kSizeofQueueEntry + total l < 2 ^ 64 ->
  let d2 := cleared b size type d in
  Ok d2 l ->
  (exists d3 l1 l2, DebugDeallocate false true pagesize max (data_addr b) type given d = Ret d3 /\
     l ++ [mkEntry b (size + kSizeofMallocBlock)] = l1 ++ l2 /\ Forall (clean (memory d2)) l1 /\ drained d2 d3 max [] l1 l2) \/
  (DebugDeallocate false true pagesize max (data_addr b) type given d = Fault CheckFailed /\ ~ Forall (clean (memory d2)) l).
Proof.
  intros Hin Hk Hlive Ha Hg Htot d2 HO2. pose proof Hin as (H0 & Hs & Hsp). rewrite (DebugDeallocate_run _ _ _ _ b size) by done. fold d2.
  assert (Hcl : clean (memory d2) (mkEntry b (size + kSizeofMallocBlock))).
  { intros i Hi. cbn in *. rewrite memset_lookup by (unfold kSizeofMallocBlock; lia). rewrite decide_True by lia. done. }
  destruct (ProcessFreeQueue_spec b (size + kSizeofMallocBlock) max d2 l HO2) as [H|[H Hno]]; [unfold kSizeofMallocBlock; lia|lia| | |].
  - split; [cbn; unfold kSizeofMallocBlock; lia|]. intros i Hi. rewrite (Hcl i Hi). done.
  - left. exact H.
  - right. split; [exact H|]. intros Hc. apply Hno. apply Forall_app. split; [exact Hc|]. by constructor.
Qed.

(** *** Runs that return *)
Lemma obind_Ret {A B} (c : outcome A) (f : A -> outcome B) r : (c ≫= f) = Ret r -> exists a, c = Ret a /\ f a = Ret r.
Proof. destruct c as [a|]; [|done]. intros H. by exists a. Qed.
Lemma check_Ret b u : check b = Ret u -> b = true.
Proof. by destruct b. Qed.
(** Take the first step of a run that returned. *)
Ltac step H a E := apply obind_Ret in H as (a & E & H); cbv beta iota zeta in H.

Lemma CheckLocked_Ret b type d : CheckLocked b type d = Ret tt -> exists t,
  alloc_map_ d !! data_addr b = Some t /\ Z.land t kDeallocatedTypeBit = 0 /\ u64 t = u64 type /\ load (memory d) (alloc_type b) = Ret (u64 type) /\
  (load (memory d) (magic1 b) = Ret kMagicMMap \/
   load (memory d) (magic1 b) = Ret kMagicMalloc /\ exists s g, load (memory d) (size1 b) = Ret s /\
     load (memory d) (size2_addr b s) = Ret s /\ load (memory d) (magic2_addr b s) = Ret g /\ IsValidMagicValue g = true).
Proof.
  unfold CheckLocked. destruct (alloc_map_ d !! data_addr b) as [t|]; [|done]. intros H. exists t. split; [done|].
  step H u1 E1. step H at_ Ea. step H u2 E2. step H mg Em. step H u3 E3. step H u4 E4. step H u5 E5.
  apply check_Ret, Z.eqb_eq in E1. apply check_Ret in E3. apply check_Ret, Z.eqb_eq in E5. apply check_Ret, Z.eqb_eq in H. subst at_.
  split; [done|]. split; [congruence|]. split; [done|]. unfold IsValidMagicValue in E3. destruct (Z.eqb_spec mg kMagicMMap) as [->|Hn]; [by left|].
  right. apply Z.eqb_eq in E3 as ->. split; [done|]. cbn [negb] in E4. step E4 s Es. step E4 s2 Es2. step E4 u6 E6. step E4 g Eg.
  apply check_Ret, Z.eqb_eq in E6 as <-. apply check_Ret in E4. by exists s, g.
Qed.
Lemma CheckAndClear_Ret b type given d n d' : CheckAndClear b type given d = Ret (n, d') ->
  CheckLocked b type d = Ret tt /\ (given = 0 \/ load (memory d) (size1 b) = Ret given) /\
  alloc_map_ d' = <[data_addr b := Z.lor type kDeallocatedTypeBit]> (alloc_map_ d).
Proof.
  unfold CheckAndClear. intros H. step H u E. destruct u. step H mg Em. step H s Es. step H u1 E1. step H u2 E2. injection H as _ <-.
  split; [done|]. split; [|done]. apply check_Ret in E2. destruct (Z.eqb_spec given 0); [by left|]. apply Z.eqb_eq in E2 as ->. by right.
Qed.
Lemma free_entries_map es d d' : free_entries es d = Ret d' -> alloc_map_ d' = alloc_map_ d.
Proof.
  unfold free_entries. revert d. induction es as [|e es IH]; intros d; cbn [foldM]; [by intros [= <-]|].
  intros H. step H d1 E. step E u E1. injection E as <-. by apply IH in H.
Qed.
Lemma drain_map max fuel es d d' : drain fuel max es d = Ret d' -> alloc_map_ d' = alloc_map_ d.
Proof.
  revert es d. induction fuel as [|fuel IH]; intros es d; cbn [drain]; destruct ((_ >? _) || _); try apply free_entries_map; [done|].
  intros H. step H u E. apply obind_Ret in H as ([e q] & Ep & H). cbv zeta in H. destruct (_ =? 4).
  - step H d1 E1. apply free_entries_map in E1. apply IH in H. by rewrite H, E1.
  - by apply IH in H.
Qed.
Lemma ProcessFreeQueue_map b n max d d' : ProcessFreeQueue b n max d = Ret d' -> alloc_map_ d' = alloc_map_ d.
Proof. unfold ProcessFreeQueue. intros H. step H u E. apply drain_map in H. by destruct b. Qed.
Lemma Deallocate_Ret never_reclaim pagesize max b type given d d' : Deallocate never_reclaim true pagesize max b type given d = Ret d' ->
  CheckLocked b type d = Ret tt /\ (given = 0 \/ load (memory d) (size1 b) = Ret given) /\
  alloc_map_ d' = <[data_addr b := Z.lor type kDeallocatedTypeBit]> (alloc_map_ d).
Proof.
  unfold Deallocate. intros H. step H mg Em. destruct (mg =? kMagicMMap); apply obind_Ret in H as ([n d1] & E & H);
    destruct (CheckAndClear_Ret _ _ _ _ _ _ E) as (H1 & H2 & H3); (split; [done|]); (split; [done|]).
  - cbv zeta in H. destruct (never_reclaim || _); by injection H as <-.
  - apply ProcessFreeQueue_map in H. congruence.
Qed.
(** The type of a freed block is never accepted again. *)
Lemma freed_not_live b type d t : alloc_map_ d !! data_addr b = Some (Z.lor t kDeallocatedTypeBit) -> CheckLocked b type d <> Ret tt.
Proof.
  intros Hm H. apply CheckLocked_Ret in H as (t' & Ht & Hbit & _). rewrite Hm in Ht. injection Ht as <-. revert Hbit.
  intros Hbit. apply (f_equal (fun z => Z.testbit z 2)) in Hbit.
  rewrite Z.land_spec, Z.lor_spec, orb_true_r in Hbit. done.
Qed.

(** *** Aligned blocks *)
Lemma RoundUp_spec v k : 0 <= k -> RoundUp v (2 ^ k) mod 2 ^ k = 0 /\ v <= RoundUp v (2 ^ k) < v + 2 ^ k.
Proof.
  intros Hk. unfold RoundUp. assert (0 < 2 ^ k) by (apply Z.pow_pos_nonneg; lia).
  assert (E : forall x, Z.land x (Z.lnot (2 ^ k - 1)) = x / 2 ^ k * 2 ^ k).
  { intros x. replace (2 ^ k - 1) with (Z.ones k) by (rewrite Z.ones_equiv; lia). change (Z.land x (Z.lnot (Z.ones k))) with (Z.ldiff x (Z.ones k)) || rewrite <- Z.ldiff_land.
    rewrite Z.ldiff_ones_r by lia. rewrite Z.shiftr_div_pow2, Z.shiftl_mul_pow2 by lia. done. }
  rewrite E. split; [by apply Z_mod_mult|]. pose proof (Z.div_mod (v + 2 ^ k - 1) (2 ^ k) ltac:(lia)). pose proof (Z.mod_pos_bound (v + 2 ^ k - 1) (2 ^ k) ltac:(lia)). lia.
Qed.
Lemma load_uninitialized m a : (forall q, a <= q < a + 8 -> m !! q = Some kMagicUninitializedByte) -> exists v, load m a = Ret v /\ v <> kMagicDeletedSizeT.
Proof.
  intros H. unfold load. rewrite (load_bytes_spec 8 m a (replicate 8 kMagicUninitializedByte)); [eexists; split; [reflexivity|done]|done|].
  intros i Hi. rewrite lookup_replicate_2 by done. apply H. lia.
Qed.
Lemma pow2_test k : 0 <= k < 64 -> Z.land (2 ^ k) (u64 (2 ^ k - 1)) = 0.
Proof.
  intros Hk. assert (0 < 2 ^ k) by (apply Z.pow_pos_nonneg; lia). assert (2 ^ k < 2 ^ 64) by (apply Z.pow_lt_mono_r; lia).
  rewrite u64_small by lia. replace (2 ^ k - 1) with (Z.ones k) by (rewrite Z.ones_equiv; lia). rewrite Z.land_ones by lia. apply Z_mod_same_full.
Qed.
Lemma do_debug_memalign_run d pagesize k size type b got : 0 <= k <= 62 -> 0 <= size ->
  let n := size + (data_offset + 2 ^ k - 1) in
  let p := RoundUp (data_addr b + data_offset) (2 ^ k) in
  in_space b n -> got (n + kSizeofMallocBlock) = b ->
  do_debug_memalign false pagesize got (2 ^ k) size type d =
    Ret (p, with_memory (store (offset (p - data_offset)) (u64 (s32 (p - data_addr b))) (initialized b n type (memory d)))
              (with_map (<[data_addr b := type]> (alloc_map_ d)) d)).
Proof.
  intros Hk Hs n p Hin Hg. pose proof Hin as (H0 & Hn & Hsp). assert (H2 : 0 < 2 ^ k) by (apply Z.pow_pos_nonneg; lia).
  assert (H62 : 2 ^ k <= 2 ^ 62) by (apply Z.pow_le_mono_r; lia).
  unfold do_debug_memalign. rewrite pow2_test by lia. cbn [check Z.eqb]. obind.
  rewrite (u64_small (data_offset + 2 ^ k - 1)) by (unfold data_offset; lia). fold n. unfold kSizeofMallocBlock in Hsp.
  rewrite (u64_small n) by lia. rewrite (proj2 (Z.ltb_ge n size)) by (unfold n, data_offset; lia).
  unfold DebugAllocate. rewrite (Allocate_spec pagesize got n type d b Hin Hg). obind. rewrite (proj2 (Z.eqb_neq b 0)) by lia. obind.
  by rewrite (proj2 (Z.eqb_neq (data_addr b) 0)) by (unfold data_addr, data_offset; lia).
Qed.
(** The data of a new block. *)
Lemma initialized_data b n type m q : 0 <= n -> data_addr b <= q < data_addr b + n -> initialized b n type m !! q = Some kMagicUninitializedByte.
Proof. intros Hn Hq. unfold initialized. rewrite memset_lookup by done. by rewrite decide_True. Qed.
(** The type word of a fake header is not the mark of deleted memory. *)
Lemma fake_type b n type m p v : 0 <= n -> data_addr b + data_offset <= p <= data_addr b + n ->
  exists w, load (store (offset (p - data_offset)) v (initialized b n type m)) (alloc_type (p - data_offset)) = Ret w /\ w <> kMagicDeletedSizeT.
Proof.
  intros Hn Hp. apply load_uninitialized. intros q Hq. unfold alloc_type, offset, data_addr, data_offset in *. rewrite store_other by lia.
  apply initialized_data; [done|]. unfold data_addr, data_offset. lia.
Qed.
End DBSpec.

Import DB DBSpec.
(** C31: a freed block is watched until it leaves the queue. When the queue is
    emptied, every block in it is given back in the order in which it was freed
    if no byte of any of them was written since, and the process is stopped
    otherwise; nothing else is touched. *)
Theorem dangling_writes_detected (d : Debug) (l : list QueueEntry) : Ok d l ->
  if decide (Forall (clean (memory d)) l) then
    exists d', DanglingWriteChecker d = Ret d' /\ freed d' = freed d ++ (block <$> l) /\ Ok d' [] /\
      memory d' = memory d /\ alloc_map_ d' = alloc_map_ d
  else DanglingWriteChecker d = Fault CheckFailed.
Proof.
  intros [Hq Hs Hroom Ht Hr]. unfold DanglingWriteChecker, ProcessFreeQueue.
  rewrite (Full_spec _ l Hq), check_true by (rewrite bool_decide_eq_false_2 by lia; done). obind.
  destruct (drain_spec 0 (Z.to_nat kFreeQueueSize) [] d l Hq Hs) as [(d' & l1 & l2 & E & -> & Hc & Hd)|[E Hno]];
    [lia|simpl; lia|done|pose proof (h_length _ _ Hq); unfold kFreeQueueSize in *; lia| |].
  - destruct Hd as (h1 & h2 & h3 & h4 & h5 & h6 & h7 & h8).
    assert (l2 = []) as ->.
    { apply Forall_app in Hr as [_ Hr]. pose proof (total_nonneg l2) as Hn. destruct l2 as [|e l2]; [done|].
      specialize (Hn ltac:(eapply Forall_impl; [exact Hr|]; by intros x [? _])). change (u64 0) with 0 in h7. cbn [length] in Hn. unfold kSizeofQueueEntry in Hn. lia. }
    rewrite app_nil_r in *. rewrite decide_True by done. exists d'. split; [done|]. split; [done|]. split; [|done].
    split; [done|done|unfold kFreeQueueSize; simpl; lia|simpl; lia|done].
  - rewrite decide_False by done. done.
Qed.

(** *** Blocks behind a page fence *)





(** *** Correct programs *)



(** C16: the debugging allocator catches wrong programs. Whatever the state and
    the memory, a free that returns has found the block recorded as allocated
    by the same kind of call, the type word intact, the size that was given
    right, and for blocks of malloc both copies of the size equal and
    both magic words valid; in every other case the process stops. From then on, whatever
    is written to memory, a second free of the same block never returns. *)
Theorem debug_free_catches (never_reclaim : bool) (pagesize max p type given : Z) (d d' : Debug) :
  DebugDeallocate never_reclaim true pagesize max p type given d = Ret d' -> p <> 0 ->
  exists b t, FromRawPointer p d = Ret b /\ alloc_map_ d !! data_addr b = Some t /\ Z.land t kDeallocatedTypeBit = 0 /\
    u64 t = u64 type /\ load (memory d) (alloc_type b) = Ret (u64 type) /\
    (given = 0 \/ load (memory d) (size1 b) = Ret given) /\
    (load (memory d) (magic1 b) = Ret kMagicMMap \/
     load (memory d) (magic1 b) = Ret kMagicMalloc /\ exists s g, load (memory d) (size1 b) = Ret s /\
       load (memory d) (size2_addr b s) = Ret s /\ load (memory d) (magic2_addr b s) = Ret g /\ IsValidMagicValue g = true) /\
    forall m2 p2 type2 given2 d3, FromRawPointer p2 (with_memory m2 d') = Ret b ->
      DebugDeallocate never_reclaim true pagesize max p2 type2 given2 (with_memory m2 d') = Ret d3 -> p2 = 0.
Proof.
  intros H Hp. unfold DebugDeallocate in H. rewrite (proj2 (Z.eqb_neq p 0) Hp) in H. step H b Eb.
  destruct (Deallocate_Ret _ _ _ _ _ _ _ _ H) as (Hc & Hg & Hm). destruct (CheckLocked_Ret _ _ _ Hc) as (t & h1 & h2 & h3 & h4 & h5).
  exists b, t. do 7 (split; [done|]). intros m2 p2 type2 given2 d3 Hb2 H2. destruct (Z.eq_dec p2 0) as [->|Hp2]; [done|]. exfalso.
  unfold DebugDeallocate in H2. rewrite (proj2 (Z.eqb_neq p2 0) Hp2), Hb2 in H2. cbn in H2.
  destruct (Deallocate_Ret _ _ _ _ _ _ _ _ H2) as (Hc2 & _). revert Hc2. apply (freed_not_live b type2 _ type).
  cbn. rewrite Hm. apply lookup_insert_eq.
Qed.

(** Aligned allocation. For a power of two up to 2^30 the result is aligned,
    the requested bytes lie inside the data of one block whose header and
    trailer stay intact, the fake header leads back to that block, and the size
    that is reported is at least the requested one. *)
Theorem debug_memalign_correct (d : Debug) (pagesize k size type b : Z) (got : Z -> Z) :
  0 <= k <= 30 -> 0 <= size -> known_type type ->
  let n := size + (data_offset + 2 ^ k - 1) in
  in_space b n -> got (n + kSizeofMallocBlock) = b ->
  exists p d', do_debug_memalign false pagesize got (2 ^ k) size type d = Ret (p, d') /\
    p mod 2 ^ k = 0 /\ data_addr b + data_offset <= p /\ p + size <= data_addr b + n /\
    live (memory d') b n type /\ alloc_map_ d' !! data_addr b = Some type /\
    FromRawPointer p d' = Ret b /\ exists m, actual_data_size b p d' = Ret m /\ size <= m.
Proof.
  intros Hk Hs Ht n Hin Hg. pose proof Hin as (H0 & Hn & Hsp). assert (H30 : 0 < 2 ^ k <= 2 ^ 30) by (split; [apply Z.pow_pos_nonneg|apply Z.pow_le_mono_r]; lia).
  rewrite (do_debug_memalign_run d pagesize k size type b got) by (done || lia). fold n.
  destruct (RoundUp_spec (data_addr b + data_offset) k ltac:(lia)) as [Hmod Hr]. set (p := RoundUp _ _) in *.
  eexists p, _. split; [reflexivity|]. split; [done|]. split; [lia|]. assert (Hpn : p + size <= data_addr b + n) by (unfold n, data_offset in *; lia).
  split; [done|]. cbn [memory with_memory with_map alloc_map_].
  rewrite s32_small by (unfold data_offset in *; lia). rewrite u64_small by (unfold data_offset in *; lia).
  assert (Hlive : live (store (offset (p - data_offset)) (p - data_addr b) (initialized b n type (memory d))) b n type).
  { eapply live_ext; [apply initialized_live, Hin|]. intros q Hq. apply store_other. unfold offset, data_addr, data_offset, kSizeofMallocBlock in *. lia. }
  split; [exact Hlive|]. split; [apply lookup_insert_eq|].
  assert (Hsz : size2_addr b n = data_addr b + n) by (rewrite size2_addr_val by done; unfold data_addr; lia).
  split.
  - unfold FromRawPointer. cbn [memory with_memory with_map].
    destruct (fake_type b n type (memory d) p (p - data_addr b)) as (v & -> & Hv); [done|lia|].
    obind. rewrite (proj2 (Z.eqb_neq v _) Hv). cbn [check negb]. obind. unfold kSizeofMallocBlock in Hsp. rewrite load_store by (unfold data_offset, data_addr in *; lia). obind.
    rewrite (proj2 (Z.eqb_neq (p - data_addr b) 0)) by (unfold data_offset in *; lia). cbv zeta.
    replace (p - data_offset - (p - data_addr b)) with b by (unfold data_addr; lia).
    rewrite (lv_offset _ _ _ _ Hlive). obind. cbn [check Z.eqb]. obind. rewrite (proj2 (Z.ltb_lt b p)) by (unfold data_addr, data_offset in *; lia).
    cbn [check]. obind. rewrite (lv_size _ _ _ _ Hlive). obind. rewrite Hsz, (proj2 (Z.ltb_ge (data_addr b + n) p)) by lia. done.
  - unfold actual_data_size. cbn [memory with_memory with_map]. rewrite (lv_size _ _ _ _ Hlive). obind. unfold size2_addr in Hsz. rewrite Hsz.
    rewrite !check_true by (unfold data_offset in *; lia). obind. eexists. split; [reflexivity|lia].
Qed.

(** The distance to the fake header is kept in an [int]: for an alignment of
    4 GiB and a block whose data starts at a multiple of 4 GiB it becomes 0, and
    freeing the aligned pointer stops the process. *)
Theorem memalign_offset_truncated (d : Debug) (pagesize max size b : Z) (got : Z -> Z) :
  0 <= size -> data_addr b mod 2 ^ 32 = 0 ->
  let n := size + (data_offset + 2 ^ 32 - 1) in
  in_space b n -> got (n + kSizeofMallocBlock) = b -> alloc_map_ d !! (data_addr b + 2 ^ 32) = None ->
  exists d', do_debug_memalign false pagesize got (2 ^ 32) size kMallocType d = Ret (data_addr b + 2 ^ 32, d') /\
    DebugDeallocate false true pagesize max (data_addr b + 2 ^ 32) kMallocType 0 d' = Fault CheckFailed.
Proof.
  intros Hs Hd n Hin Hg Hmap. pose proof Hin as (H0 & Hn & Hsp).
  rewrite (do_debug_memalign_run d pagesize 32 size kMallocType b got) by (done || lia). fold n.
  destruct (RoundUp_spec (data_addr b + data_offset) 32 ltac:(lia)) as [Hmod Hr].
  assert (Hp : RoundUp (data_addr b + data_offset) (2 ^ 32) = data_addr b + 2 ^ 32).
  { revert Hmod Hr. generalize (RoundUp (data_addr b + data_offset) (2 ^ 32)). intros p Hm Hr. unfold data_offset in *.
    apply Z.mod_divide in Hm as [x ->]; [|done]. apply Z.mod_divide in Hd as [y Hy]; [|done]. rewrite Hy in *. lia. }
  rewrite Hp. set (p := data_addr b + 2 ^ 32) in *. eexists. split; [reflexivity|].
  replace (p - data_addr b) with (2 ^ 32) by (unfold p; lia). change (u64 (s32 (2 ^ 32))) with 0.
  assert (Hpos : 0 < p) by (unfold p, data_addr, data_offset; lia).
  unfold DebugDeallocate. rewrite (proj2 (Z.eqb_neq p 0)) by lia. unfold FromRawPointer. cbn [memory with_memory with_map].
  destruct (fake_type b n kMallocType (memory d) p 0) as (v & -> & Hv); [done|unfold p, n, data_offset; lia|].
  obind. rewrite (proj2 (Z.eqb_neq v _) Hv). cbn [check negb]. obind. rewrite load_store by done. obind. change (0 =? 0) with true. cbv iota. obind.
  unfold Deallocate. cbn [memory with_memory with_map].
  destruct (load_uninitialized (store (offset (p - data_offset)) 0 (initialized b n kMallocType (memory d))) (magic1 (p - data_offset))) as (w & E & _).
  { intros q Hq. unfold magic1, offset in *. rewrite store_other by lia. apply initialized_data; [done|]. unfold p, n, data_offset in *. lia. }
  rewrite E. obind. unfold CheckAndClear, CheckLocked. cbn [alloc_map_ with_memory with_map].
  replace (data_addr (p - data_offset)) with p by (unfold data_addr; lia).
  rewrite lookup_insert_ne by (unfold p; lia). rewrite Hmap. by destruct (w =? kMagicMMap).
Qed.

(** Two blocks that do not overlap. *)
Definition apart (b n b' n' : Z) : Prop := b + n <= b' \/ b' + n' <= b.
(** [realloc] in the debugging allocator always moves. The new block is
    intact and starts with the old contents, up to the smaller of the two sizes;
    the old one is freed like by [free], which stops the process only if
    a block freed before was written to. *)
Theorem debug_realloc_copies (d : Debug) (l : list QueueEntry) (pagesize max b old nb size : Z) (got : Z -> Z) :
  Ok d l -> in_space b old -> in_space nb size -> 0 < size -> live (memory d) b old kMallocType ->
  alloc_map_ d !! data_addr b = Some kMallocType -> (forall q, data_addr b <= q < data_addr b + old -> is_Some (memory d !! q)) ->
  got (size + kSizeofMallocBlock) = nb -> apart b (old + kSizeofMallocBlock) nb (size + kSizeofMallocBlock) ->
  Forall (fun e => apart (block e) (esize e) b (old + kSizeofMallocBlock) /\ apart (block e) (esize e) nb (size + kSizeofMallocBlock)) l ->
  old + kSizeofMallocBlock + kSizeofQueueEntry + total l < 2 ^ 64 ->
  (exists d', tc_realloc false false true pagesize max got (data_addr b) size d = Ret (data_addr nb, d') /\
     (forall i, 0 <= i < old `min` size -> memory d' !! (data_addr nb + i) = memory d !! (data_addr b + i)) /\
     live (memory d') nb size kMallocType /\ alloc_map_ d' !! data_addr nb = Some kMallocType /\
     alloc_map_ d' !! data_addr b = Some (Z.lor kMallocType kDeallocatedTypeBit)) \/
  (tc_realloc false false true pagesize max got (data_addr b) size d = Fault CheckFailed /\ ~ Forall (clean (memory d)) l).
Proof.
  intros HO Hin Hnin Hsz Hlive Ha Hdata Hg Hap Hql Htot. assert (Hk : known_type kMallocType) by by left.
  pose proof Hin as (H0 & Ho & Hsp). pose proof Hnin as (Hn0 & _ & Hnsp). unfold apart in *.
  unfold tc_realloc. rewrite (proj2 (Z.eqb_neq (data_addr b) 0)) by (unfold data_addr, data_offset; lia). rewrite (proj2 (Z.eqb_neq size 0)) by lia.
  rewrite (FromRawPointer_live b old kMallocType d Hk Hlive). obind. rewrite (CheckLocked_live b old kMallocType d Hin Hk Hlive Ha). obind.
  rewrite (Allocate_spec pagesize got size kMallocType d nb Hnin Hg). obind. rewrite (proj2 (Z.eqb_neq nb 0)) by lia.
  set (m1 := initialized nb size kMallocType (memory d)). set (d1 := with_memory m1 _). set (n := old `min` size).
  assert (Hm1 : forall q, ~ nb <= q < nb + kSizeofMallocBlock + size -> m1 !! q = memory d !! q) by (intros q Hq; by apply initialized_other).
  assert (Hl1 : live m1 b old kMallocType).
  { eapply live_ext; [exact Hlive|]. intros q Hq. apply Hm1. unfold data_offset, kSizeofMallocBlock in *. lia. }
  unfold actual_data_size. rewrite (lv_size (memory d1) b old kMallocType Hl1). obind.
  assert (He : u64 (data_addr b + old) = data_addr b + old) by (apply u64_small; unfold data_addr, data_offset, kSizeofMallocBlock in *; lia).
  rewrite He, !check_true by lia. obind. replace (data_addr b + old - data_addr b) with old by lia.
  replace (if old <? size then old else size) with n by (unfold n; destruct (Z.ltb_spec old size); lia).
  set (l0 := (fun i => default 0 (memory d !! (data_addr b + i))) <$> seqZ 0 n).
  assert (Hl0 : forall i, 0 <= i < n -> l0 !! Z.to_nat i = memory d !! (data_addr b + i)).
  { intros i Hi. unfold l0. rewrite list_lookup_fmap, lookup_seqZ_lt by lia. cbn. rewrite Z2Nat.id by lia.
    destruct (Hdata (data_addr b + i) ltac:(lia)) as [v Hv]. change (0 + i) with i || rewrite ?Z.add_0_l. rewrite Hv. reflexivity. }
  assert (Hlen : Z.of_nat (length l0) = n) by (unfold l0; rewrite length_fmap, length_seqZ; lia).
  unfold memcpy. rewrite (load_bytes_spec (Z.to_nat n) (memory d1) (data_addr b) l0); [obind|lia|].
  2:{ intros i Hi. rewrite <- (Nat2Z.id i) at 2. rewrite Hl0 by lia. apply Hm1. unfold data_addr, data_offset, kSizeofMallocBlock in *. lia. }
  set (m2 := store_bytes l0 (data_addr nb) (memory d1)).
  assert (Hm2 : forall q, ~ data_addr nb <= q < data_addr nb + n -> m2 !! q = m1 !! q).
  { intros q Hq. unfold m2. rewrite store_bytes_lookup, Hlen, decide_False by done. done. }
  assert (Hcl : forall q, ~ (b <= q < b + (old + kSizeofMallocBlock)) -> ~ (nb <= q < nb + (size + kSizeofMallocBlock)) -> memory (cleared b old kMallocType (with_memory m2 d1)) !! q = memory d !! q).
  { intros q H1 H2. cbn. rewrite memset_lookup by (unfold kSizeofMallocBlock; lia). rewrite decide_False by done.
    rewrite Hm2 by (unfold data_addr, data_offset, kSizeofMallocBlock in *; lia). apply Hm1. lia. }
  assert (Hq : forall e i, e ∈ l -> 0 <= i < esize e -> memory (cleared b old kMallocType (with_memory m2 d1)) !! (block e + i) = memory d !! (block e + i)).
  { intros e i Hel Hi. rewrite Forall_forall in Hql. destruct (Hql e Hel). apply Hcl; lia. }
  destruct (DebugDeallocate_live pagesize max b old kMallocType 0 (with_memory m2 d1) l Hin Hk) as [(d3 & l1 & l2 & -> & _ & _ & Hd)|[-> Hno]]; obind.
  - eapply live_ext; [exact Hl1|]. intros q Hqq. apply Hm2. unfold data_addr, data_offset, kSizeofMallocBlock in *. lia.
  - cbn. rewrite lookup_insert_ne; [exact Ha|]. unfold data_addr, data_offset, kSizeofMallocBlock in *. lia.
  - by left.
  - done.
  - destruct HO as [h1 h2 h3 h4 h5]. split; [exact h1|exact h2|done|done|]. rewrite Forall_forall in h5 |- *. intros e Hel. destruct (h5 e Hel) as [He' Hr].
    split; [done|]. intros i Hi. rewrite Hq by done. by apply Hr.
  - left. exists d3. split; [done|]. destruct Hd as (_ & _ & _ & -> & -> & _). split; [|split; [|split]].
    + intros i Hi. cbn. rewrite memset_lookup by (unfold kSizeofMallocBlock; lia).
      rewrite decide_False by (unfold data_addr, data_offset, kSizeofMallocBlock in *; lia).
      unfold m2. rewrite store_bytes_lookup, Hlen, decide_True by lia. rewrite <- (Hl0 i) by done. f_equal. lia.
    + eapply live_ext; [apply (initialized_live nb size kMallocType (memory d) Hnin)|]. intros q Hqq. cbn. rewrite memset_lookup by (unfold kSizeofMallocBlock; lia).
      rewrite decide_False by (unfold data_addr, data_offset, kSizeofMallocBlock in *; lia). apply Hm2. unfold data_addr, data_offset, kSizeofMallocBlock in *. lia.
    + cbn. rewrite lookup_insert_ne, lookup_insert_eq; [done|]. unfold data_addr, data_offset, kSizeofMallocBlock in *. lia.
    + cbn. apply lookup_insert_eq.
  - right. split; [done|]. intros Hc. apply Hno. rewrite Forall_forall in Hc |- *. intros e Hel i Hi. rewrite Hq by done. by apply Hc.
Qed.

(** *** The whole heap *)
(** A block of the map that is not freed is found intact and has this size. *)
Definition intact (d : Debug) (e : Z * Z) (size : Z) : Prop :=
  exists b, FromRawPointer e.1 d = Ret b /\ CheckLocked b e.2 d = Ret tt /\ load (memory d) (size1 b) = Ret size.
Definition in_use (e : Z * Z) : bool := Z.land e.2 kDeallocatedTypeBit =? 0.
Definition bits (s : Z) : Z := if s =? 0 then 0 else Z.log2 s + 1.
Lemma log_entry_spec fuel s e : 0 <= s < 2 ^ Z.of_nat fuel -> log_entry fuel s e = Ret (e + bits s).
Proof.
  revert s e. induction fuel as [|fuel IH]; intros s e Hs; cbn [log_entry]; unfold bits.
  - assert (s = 0) as -> by (change (2 ^ Z.of_nat 0) with 1 in Hs; lia). cbn [Z.eqb]. f_equal. lia.
  - destruct (Z.eqb_spec s 0) as [->|H0]; [by rewrite Z.add_0_r|]. replace (Z.of_nat (S fuel)) with (Z.succ (Z.of_nat fuel)) in Hs by lia.
    rewrite Z.pow_succ_r in Hs by lia. rewrite Z.shiftr_div_pow2 by lia. change (2 ^ 1) with 2. rewrite IH by (split; [apply Z.div_pos|apply Z.div_lt_upper_bound]; lia).
    f_equal. unfold bits. destruct (Z.eqb_spec (s / 2) 0) as [Hz|Hz].
    + pose proof (Z.div_mod s 2 ltac:(lia)). pose proof (Z.mod_pos_bound s 2 ltac:(lia)). assert (s = 1) as -> by lia. change (Z.log2 1) with 0. lia.
    + pose proof (Z.div_mod s 2 ltac:(lia)) as Hdm. pose proof (Z.mod_pos_bound s 2 ltac:(lia)). pose proof (Z.div_pos s 2 ltac:(lia) ltac:(lia)).
      assert (Hl : Z.log2 s = Z.succ (Z.log2 (s / 2))); [|lia]. rewrite Hdm at 1.
      assert (s mod 2 = 0 \/ s mod 2 = 1) as [->| ->] by lia; [rewrite Z.add_0_r; apply Z.log2_double; lia|apply Z.log2_succ_double; lia].
Qed.
Definition count_bits (i : Z) (sizes : list Z) : Z := Z.of_nat (length (List.filter (fun s => bits s =? i) sizes)).
Definition histogram_of (sizes : list Z) : list Z := (fun i => count_bits (Z.of_nat i) sizes) <$> seq 0 64.
Lemma count_bits_app i sizes s : count_bits i (sizes ++ [s]) = count_bits i sizes + (if bits s =? i then 1 else 0).
Proof. unfold count_bits. rewrite List.filter_app, length_app. cbn [List.filter]. destruct (bits s =? i); cbn [length]; lia. Qed.
Lemma count_bits_le i sizes : 0 <= count_bits i sizes <= Z.of_nat (length sizes).
Proof. unfold count_bits. pose proof (List.filter_length_le (fun s => bits s =? i) sizes). lia. Qed.
Lemma histogram_step sizes s : Z.of_nat (length sizes) < 2 ^ 31 - 1 -> 0 <= bits s < 64 ->
  alter (fun n => s32 (n + 1)) (Z.to_nat (bits s)) (histogram_of sizes) = histogram_of (sizes ++ [s]).
Proof.
  intros Hl Hb. apply list_eq. intros i. unfold histogram_of. destruct (decide (i < 64)%nat) as [Hi|Hi].
  2:{ rewrite !lookup_ge_None_2; [done|rewrite length_fmap, length_seq; lia|rewrite length_alter, length_fmap, length_seq; lia]. }
  rewrite (list_lookup_fmap _ (seq 0 64)), lookup_seq_lt by done. cbn [fmap option_fmap option_map]. rewrite count_bits_app, Nat.add_0_l.
  destruct (decide (i = Z.to_nat (bits s))) as [->|Hne].
  - rewrite list_lookup_alter_eq, list_lookup_fmap, lookup_seq_lt by done. cbn [fmap option_fmap option_map]. rewrite Nat.add_0_l.
    rewrite Z2Nat.id, Z.eqb_refl by lia. pose proof (count_bits_le (bits s) sizes). by rewrite s32_small by lia.
  - rewrite list_lookup_alter_ne, list_lookup_fmap, lookup_seq_lt by done. cbn [fmap option_fmap option_map]. rewrite Nat.add_0_l.
    rewrite (proj2 (Z.eqb_neq (bits s) (Z.of_nat i))) by lia. by rewrite Z.add_0_r.
Qed.
Lemma bits_63 s : 0 <= s < 2 ^ 63 -> 0 <= bits s < 64.
Proof.
  intros Hs. unfold bits. destruct (Z.eqb_spec s 0); [lia|]. pose proof (Z.log2_nonneg s). pose proof (proj1 (Z.log2_lt_pow2 s 63 ltac:(lia)) ltac:(lia)). lia.
Qed.
(** Loads yield words. *)
Lemma load_range m a v : (forall q x, m !! q = Some x -> 0 <= x < 256) -> load m a = Ret v -> 0 <= v < 2 ^ 64.
Proof.
  intros Hb H. unfold load in H. step H l El. injection H as <-. apply load_bytes_inv in El as [Hl Hm].
  assert (Hr : forall n l, length l = n -> Forall (fun x => 0 <= x < 256) l -> 0 <= word_of l < 256 ^ Z.of_nat n).
  { clear. intros n l. revert n. induction l as [|x l IH]; intros n <- Hf; [done|]. apply Forall_cons in Hf as [Hx Hf]. specialize (IH _ eq_refl Hf).
    cbn [word_of foldr length]. fold (word_of l). replace (Z.of_nat (S (length l))) with (Z.succ (Z.of_nat (length l))) by lia. rewrite Z.pow_succ_r by lia. lia. }
  apply (Hr 8%nat l Hl). apply Forall_lookup. intros i x Hx. apply (Hb (a + Z.of_nat i)). rewrite <- Hx. apply Hm. apply lookup_lt_Some in Hx. lia.
Qed.

(** [VerifyAllMemory] and [MallocMemoryStats] visit every block that was
    not freed. When all of them are intact the first returns, and the second
    reports their number, their total size and, for every number of bits below
    64, how many sizes have that many bits. *)
Theorem memory_verified (d : Debug) (sizes : list Z) : let blocks := List.filter in_use (map_to_list (alloc_map_ d)) in
  Z.of_nat (length blocks) < 2 ^ 31 -> (forall q x, memory d !! q = Some x -> 0 <= x < 256) -> Forall2 (intact d) blocks sizes ->
  CheckEverything d = Ret true /\
  (Forall (fun s => s < 2 ^ 63) sizes -> MemoryStats d = Ret (Z.of_nat (length blocks), u64 (foldr Z.add 0 sizes), histogram_of sizes)).
Proof.
  intros blocks Hlen Hbytes Hall. split.
  - unfold CheckEverything. unfold blocks in Hall. clear blocks Hlen. revert sizes Hall. induction (map_to_list (alloc_map_ d)) as [|[p t] k IH]; intros sizes Hall; [done|].
    cbn [foldM]. cbn [List.filter] in Hall. unfold in_use in Hall at 1. cbn [snd] in Hall. destruct (Z.land t kDeallocatedTypeBit =? 0); obind; [|by apply (IH sizes)].
    inversion Hall as [|? s ? sizes' (b & Hb & Hc & _) Hrest]; subst. cbn [fst snd] in *. rewrite Hb. obind. rewrite Hc. obind. by apply (IH sizes').
  - intros Hsz. unfold MemoryStats. unfold blocks in *. clear blocks.
    assert (H : forall pre, Z.of_nat (length pre) + Z.of_nat (length (List.filter in_use (map_to_list (alloc_map_ d)))) < 2 ^ 31 ->
      foldM (stats_step d) (map_to_list (alloc_map_ d)) (Z.of_nat (length pre), u64 (foldr Z.add 0 pre), histogram_of pre) =
      Ret (Z.of_nat (length (pre ++ sizes)), u64 (foldr Z.add 0 (pre ++ sizes)), histogram_of (pre ++ sizes))).
    { revert sizes Hall Hsz. clear Hlen. induction (map_to_list (alloc_map_ d)) as [|[p t] k IH]; intros sizes Hall Hsz pre Hn.
      - apply Forall2_nil_inv_l in Hall as ->. by rewrite app_nil_r.
      - cbn [foldM]. cbn [List.filter] in Hall, Hn. unfold in_use in Hall at 1. unfold in_use in Hn at 1. cbn [snd] in Hall, Hn.
        unfold stats_step at 2. destruct (Z.land t kDeallocatedTypeBit =? 0); obind; [|by apply (IH sizes)].
        inversion Hall as [|? s ? sizes' (b & Hb & Hc & Hs) Hrest]; subst. cbn [fst snd] in *. rewrite Hb. obind. rewrite Hc. obind. rewrite Hs. obind.
        apply load_range in Hs; [|done]. apply Forall_cons in Hsz as [Hs63 Hsz]. rewrite log_entry_spec by (change (2 ^ Z.of_nat 64) with (2 ^ 64); lia). obind. rewrite Z.add_0_l.
        pose proof (bits_63 s ltac:(lia)). rewrite (proj2 (Z.ltb_lt (bits s) kMallocHistogramSize)) by (unfold kMallocHistogramSize; lia). cbn [check]. obind.
        cbn [length] in Hn. rewrite s32_small by lia. rewrite histogram_step by lia.
        replace (Z.of_nat (length pre) + 1) with (Z.of_nat (length (pre ++ [s]))) by (rewrite length_app; cbn; lia).
        replace (u64 (u64 (foldr Z.add 0 pre) + s)) with (u64 (foldr Z.add 0 (pre ++ [s]))).
        2:{ unfold u64. rewrite Zplus_mod_idemp_l. f_equal. clear. induction pre; cbn; lia. }
        rewrite (IH sizes') by (try done; rewrite length_app; cbn [length]; lia). by rewrite <- app_assoc. }
    specialize (H [] Hlen). cbn [app length] in H. rewrite (Forall2_length _ _ _ Hall). exact H.
Qed.

(** *** Instances *)
Definition no_blocks : Debug := mkDebug ∅ ∅ FQ.new 0 [] [].
Lemma Ok_no_blocks : Ok no_blocks [].
Proof. split; [apply holds_new|done|done|done|constructor]. Qed.

Definition after_new : Debug := match DebugAllocate false 4096 (fun _ => 4096) 24 kNewType no_blocks with Ret (_, d) => d | _ => no_blocks end.
Definition after_delete : Debug := match DebugDeallocate false true 4096 0 4128 kNewType 24 after_new with Ret d => d | _ => no_blocks end.
Lemma debug_free_catches_witness : DebugDeallocate false true 4096 0 4128 kNewType 24 after_new = Ret after_delete /\
  exists b, FromRawPointer 4128 after_new = Ret b.
Proof.
  assert (H : DebugDeallocate false true 4096 0 4128 kNewType 24 after_new = Ret after_delete) by (vm_compute; reflexivity).
  split; [exact H|]. destruct (debug_free_catches false 4096 0 4128 kNewType 24 after_new after_delete H) as (b & t & Hb & _); [done|].
  exists b. exact Hb.
Defined.
Lemma debug_memalign_correct_witness : exists p d', do_debug_memalign false 4096 (fun _ => 4096) (2 ^ 6) 10 kMallocType no_blocks = Ret (p, d') /\ p mod 2 ^ 6 = 0.
Proof.
  destruct (debug_memalign_correct no_blocks 4096 6 10 kMallocType 4096 (fun _ => 4096)) as (p & d' & h1 & h2 & _);
    [lia|lia|by left|unfold in_space, kSizeofMallocBlock, data_offset; lia|done|]. exists p, d'. split; [exact h1|exact h2].
Defined.
(** A freed block waits in the queue. *)
Definition waiting : Debug := match DebugDeallocate false true 4096 10000 4128 kNewType 24 after_new with Ret d => d | _ => no_blocks end.
Lemma Ok_waiting : Ok waiting [mkEntry 4096 72].
Proof.
  split; [|done|done|done|].
  - split; [done|done|done|]. intros [|i] e; [by intros [= <-]|done].
  - constructor; [|constructor]. split; [done|]. assert (H : forallb (fun i => bool_decide (is_Some (memory waiting !! (4096 + i)))) (seqZ 0 72) = true) by (vm_compute; reflexivity).
    intros i Hi. rewrite forallb_forall in H. apply (bool_decide_eq_true_1 (is_Some _)), H, list_elem_of_In, elem_of_seqZ. cbn in *. lia.
Qed.
Lemma dangling_writes_detected_witness : Ok waiting [mkEntry 4096 72] /\
  if decide (Forall (clean (memory waiting)) [mkEntry 4096 72]) then
    exists d', DanglingWriteChecker waiting = Ret d' /\ freed d' = freed waiting ++ [4096] /\ Ok d' [] /\
      memory d' = memory waiting /\ alloc_map_ d' = alloc_map_ waiting
  else DanglingWriteChecker waiting = Fault CheckFailed.
Proof. split; [exact Ok_waiting|]. exact (dangling_writes_detected waiting [mkEntry 4096 72] Ok_waiting). Defined.
Lemma memory_verified_witness : CheckEverything after_new = Ret true /\ MemoryStats after_new = Ret (1, 24, histogram_of [24]).
Proof.
  destruct (memory_verified after_new [24]) as [h1 h2].
  - vm_compute. reflexivity.
  - assert (H : bool_decide (map_Forall (fun _ x => 0 <= x < 256) (memory after_new)) = true) by (vm_compute; reflexivity).
    apply bool_decide_eq_true_1 in H. intros q x Hx. exact (H q x Hx).
  - constructor; [|constructor]. exists 4096. vm_compute. done.
  - split; [exact h1|]. exact (h2 ltac:(constructor; [lia|constructor])).
Defined.
Definition after_malloc : Debug := match DebugAllocate false 4096 (fun _ => 4096) 24 kMallocType no_blocks with Ret (_, d) => d | _ => no_blocks end.
Lemma debug_realloc_copies_witness :
  (exists d', tc_realloc false false true 4096 0 (fun _ => 8192) 4128 40 after_malloc = Ret (8224, d') /\
     forall i, 0 <= i < 24 -> memory d' !! (8224 + i) = memory after_malloc !! (4128 + i)) \/
  (tc_realloc false false true 4096 0 (fun _ => 8192) 4128 40 after_malloc = Fault CheckFailed /\ ~ Forall (clean (memory after_malloc)) []).
Proof.
  destruct (debug_realloc_copies after_malloc [] 4096 0 4096 24 8192 40 (fun _ => 8192)) as [(d' & h1 & h2 & _)|H].
  - split; [apply holds_new|done|done|done|constructor].
  - unfold in_space, kSizeofMallocBlock. lia.
  - unfold in_space, kSizeofMallocBlock. lia.
  - lia.
  - unfold after_malloc, DebugAllocate. rewrite (Allocate_spec 4096 (fun _ => 4096) 24 kMallocType no_blocks 4096); [|unfold in_space, kSizeofMallocBlock; lia|done].
    apply initialized_live. unfold in_space, kSizeofMallocBlock. lia.
  - done.
  - unfold after_malloc, DebugAllocate. rewrite (Allocate_spec 4096 (fun _ => 4096) 24 kMallocType no_blocks 4096); [|unfold in_space, kSizeofMallocBlock; lia|done].
    intros q Hq. cbn [memory with_memory]. eexists. apply initialized_data; [lia|exact Hq].
  - done.
  - left. unfold kSizeofMallocBlock. lia.
  - constructor.
  - done.
  - left. exists d'. split; [exact h1|exact h2].
  - right. exact H.
Defined.
