(* ===== verification/HeapProfileTable.v ===== *)
(** * The table of the heap profiler

    Models src/src/src/heap-profile-table.cc, heap-profile-table.h and
    heap-profile-stats.h: a hash table of buckets, one per allocation stack,
    with counters of allocations and frees, and a map from the addresses of the
    objects that are allocated to their sizes and buckets.

    The address map is used through the interface [AddressMapOps], with the
    laws [AddressMapLaws] that HeapProfileMap.v discharges with AddressMap.v;
    the theorems about the table are proved against the interface. Buckets and
    copies of stacks live in stores indexed by their addresses, chains are
    followed through the links. Counters are 64-bit. [MAPPED_LIBRARIES] is a
    string argument. *)
From Stdlib Require Import String DecimalString HexadecimalString.
From stdpp Require Import strings.
From S2P Require Import Prelude AddressMap.
Open Scope Z_scope.

(** ** The interface of the address map *)

(** [A] is the state of the allocator both the map and its client use. *)
Class AddressMapOps (V A : Type) := {
  am : Type;
  am_init : A -> outcome am;
  am_destroy : am -> outcome A;
  am_find : Z -> M am (option V);
  am_insert : Z -> V -> M am unit;
  (** a store through the pointer that [FindMutable] returns *)
  am_store : Z -> V -> M am unit;
  am_remove : Z -> M am (option V);
  am_iterate : am -> list (Z * V);
  am_inside : (V -> Z) -> Z -> Z -> am -> outcome (option (Z * V));
  (** the client takes and returns memory *)
  am_alloc : Z -> M am Z;
  am_dealloc : Z -> M am unit }.

(** [am_rep s X R]: the map is [X] and, besides its own memory, the
    allocator has given out [R]. *)
Class AddressMapLaws (V A : Type) `{AddressMapOps V A} (regions : A -> gmap Z Z) (am_rep : am -> gmap Z V -> gmap Z Z -> Prop) := {
  am_init_ok a : match am_init a with Ret s => am_rep s ∅ (regions a) | Fault f => f = OOM end;
  am_destroy_ok s X R : am_rep s X R -> match am_destroy s with Ret a => regions a = R | Fault f => f = OOM end;
  am_find_ok s X R k : am_rep s X R -> 0 <= k < 2 ^ 64 -> am_find k s = Ret (X !! k, s);
  am_insert_ok s X R k v : am_rep s X R -> 0 <= k < 2 ^ 64 -> wp (am_insert k v) (fun _ s' => am_rep s' (<[k := v]> X) R) s;
  am_store_ok s X R k v : am_rep s X R -> 0 <= k < 2 ^ 64 -> is_Some (X !! k) -> wp (am_store k v) (fun _ s' => am_rep s' (<[k := v]> X) R) s;
  am_remove_ok s X R k : am_rep s X R -> 0 <= k < 2 ^ 64 -> wp (am_remove k) (fun r s' => r = X !! k /\ am_rep s' (delete k X) R) s;
  am_iterate_ok s X R : am_rep s X R -> am_iterate s ≡ₚ map_to_list X;
  am_inside_ok s X R size_func max_size k : am_rep s X R -> 0 <= k < 2 ^ 64 -> 0 <= max_size ->
    (forall k' v, X !! k' = Some v -> 0 <= size_func v <= max_size /\ k' + size_func v < 2 ^ 64) ->
    (forall k1 k2 v1 v2, X !! k1 = Some v1 -> X !! k2 = Some v2 -> k1 < k2 -> k1 + size_func v1 <= k2) ->
    exists r, am_inside size_func max_size k s = Ret r /\
      match r with
      | Some (k', v) => X !! k' = Some v /\ (k' = k \/ k' <= k < k' + size_func v)
      | None => forall k' v, X !! k' = Some v -> ~ (k' = k \/ k' <= k < k' + size_func v)
      end;
  am_alloc_ok s X R n : am_rep s X R -> 0 < n ->
    wp (am_alloc n) (fun p s' => 0 < p /\ p mod 4 = 0 /\ R !! p = None /\ am_rep s' X (<[p := n]> R)) s;
  am_alloc_0 s : am_alloc 0 s = Ret (0, s);
  am_dealloc_ok s X R p : am_rep s X R -> is_Some (R !! p) -> wp (am_dealloc p) (fun _ s' => am_rep s' X (delete p R)) s }.

(** ** Data *)

Record Stats := mkStats { allocs : Z; frees : Z; alloc_size : Z; free_size : Z }.
Definition no_stats : Stats := mkStats 0 0 0 0.
Record Bucket := mkBucket { stats : Stats; hash : Z; depth : Z; stack : Z; next : Z }.
Record AllocValue := mkAlloc { bytes : Z; bucket_rep : Z }.

Module HPT.
Definition kHashTableSize : Z := 179999.
Definition sizeof_Bucket : Z := 64.
Definition sizeof_AllocationMap : Z := 40.

Definition kLive : Z := 1.
Definition kIgnore : Z := 2.
Definition kMask : Z := Z.lor kLive kIgnore.
Definition bucket (v : AllocValue) : Z := Z.ldiff (bucket_rep v) kMask.
Definition set_bucket (b : Z) (v : AllocValue) : AllocValue := mkAlloc (bytes v) b.
Definition live (v : AllocValue) : bool := negb (Z.land (bucket_rep v) kLive =? 0).
Definition set_live (l : bool) (v : AllocValue) : AllocValue :=
  mkAlloc (bytes v) (Z.lor (Z.ldiff (bucket_rep v) kLive) (if l then kLive else 0)).
Definition ignore (v : AllocValue) : bool := negb (Z.land (bucket_rep v) kIgnore =? 0).
Definition set_ignore (r : bool) (v : AllocValue) : AllocValue :=
  mkAlloc (bytes v) (Z.lor (Z.ldiff (bucket_rep v) kIgnore) (if r then kIgnore else 0)).

(** The counters of a [HeapProfileStats], modulo 2^64. *)
Definition add_alloc (n : Z) (s : Stats) : Stats := mkStats (s64 (allocs s + 1)) (frees s) (s64 (alloc_size s + n)) (free_size s).
Definition add_free (n : Z) (s : Stats) : Stats := mkStats (allocs s) (s64 (frees s + 1)) (alloc_size s) (s64 (free_size s + n)).
Definition Equivalent (s other : Stats) : bool :=
  (s64 (allocs s - frees s) =? s64 (allocs other - frees other)) &&
  (s64 (alloc_size s - free_size s) =? s64 (alloc_size other - free_size other)).

(** The hash of a stack. *)
Definition hash_step (h k : Z) : Z :=
  let h := u64 (h + k) in
  let h := u64 (h + u64 (Z.shiftl h 10)) in
  Z.lxor h (Z.shiftr h 6).
Definition hash_of (key : list Z) : Z :=
  let h := foldl hash_step 0 key in
  let h := u64 (h + u64 (Z.shiftl h 3)) in
  Z.lxor h (Z.shiftr h 11).
Definition slot_of (h : Z) : Z := u32 h mod kHashTableSize.

(** ** The text of a profile *)
Definition dec (z : Z) : string := DecimalString.NilZero.string_of_int (Z.to_int z).
Definition hex (z : Z) : string := HexadecimalString.NilZero.string_of_int (Z.to_hex_int z).
Fixpoint repeat_char (n : nat) (c : Ascii.ascii) : string := match n with O => EmptyString | S n => String c (repeat_char n c) end.
(** Right-aligned in a field of [n] characters. *)
Definition field (n : nat) (c : Ascii.ascii) (s : string) : string := (repeat_char (n - String.length s) c ++ s)%string.
Definition space : Ascii.ascii := Ascii.ascii_of_nat 32.
Definition zero_char : Ascii.ascii := Ascii.ascii_of_nat 48.
Definition newline : string := String (Ascii.ascii_of_nat 10) EmptyString.
Definition UnparseBucket (s : Stats) (st : list Z) (extra : string) : string :=
  (field 6 space (dec (s64 (allocs s - frees s))) ++ ": " ++ field 8 space (dec (s64 (alloc_size s - free_size s))) ++
   " [" ++ field 6 space (dec (allocs s)) ++ ": " ++ field 8 space (dec (alloc_size s)) ++ "] @" ++ extra ++
   foldr (fun pc r => " 0x" ++ field 8 zero_char (hex pc) ++ r) EmptyString st ++ newline)%string.
Definition kProfileHeader : string := "heap profile: ".
Definition kProcSelfMapsHeader : string := (newline ++ "MAPPED_LIBRARIES:" ++ newline)%string.

Section Table.
Context {A : Type} `{!AddressMapOps AllocValue A}.
Context (alloc : Z -> M A Z) (dealloc : Z -> M A unit).

Record HeapProfileTable := mkTable {
  total_ : Stats;
  (** address and contents of the array of chains; an absent entry is null *)
  bucket_table_ : Z;
  chains_ : gmap Z Z;
  num_buckets_ : Z;
  buckets : gmap Z Bucket;
  stacks : gmap Z (list Z);
  (** address and state of the address map *)
  map_addr : Z;
  address_map_ : am }.
Abbreviation table := HeapProfileTable.

Definition with_total (v : Stats) (t : table) : table :=
  mkTable v (bucket_table_ t) (chains_ t) (num_buckets_ t) (buckets t) (stacks t) (map_addr t) (address_map_ t).
Definition with_buckets (v : gmap Z Bucket) (t : table) : table :=
  mkTable (total_ t) (bucket_table_ t) (chains_ t) (num_buckets_ t) v (stacks t) (map_addr t) (address_map_ t).
Definition with_map (v : am) (t : table) : table :=
  mkTable (total_ t) (bucket_table_ t) (chains_ t) (num_buckets_ t) (buckets t) (stacks t) (map_addr t) v.
(** An operation of the address map, or of the allocator. *)
Definition in_map {B} (m : M am B) : M table B := fun t => '(r, s) ← m (address_map_ t); Ret (r, with_map s t).

(** The constructor. *)
Definition init (a : A) : outcome table :=
  '(tb, a) ← alloc (kHashTableSize * 8) a;
  '(mp, a) ← alloc sizeof_AllocationMap a;
  s ← am_init a;
  Ret (mkTable no_stats tb ∅ 0 ∅ ∅ mp s).

(** The stack of a bucket; a range of length 0 is not read. *)
Definition stack_of (t : table) (b : Bucket) : option (list Z) := if depth b =? 0 then Some [] else stacks t !! stack b.
Fixpoint find_bucket (fuel : nat) (t : table) (h : Z) (key : list Z) (p : Z) : outcome (option Z) :=
  if p =? 0 then Ret None else
  match fuel with
  | O => Fault OutOfFuel
  | S fuel =>
      b ← deref (buckets t !! p);
      if (hash b =? h) && (depth b =? Z.of_nat (length key)) then
        st ← deref (stack_of t b);
        if bool_decide (st = key) then Ret (Some p) else find_bucket fuel t h key (next b)
      else find_bucket fuel t h key (next b)
  end.
Definition GetBucket (key : list Z) : M table Z :=
  let h := hash_of key in
  let buck := slot_of h in
  t ← getS;
  r ← liftM (find_bucket (S (size (buckets t))) t h key (default 0 (chains_ t !! buck)));
  match r with
  | Some p => mret p
  | None =>
      let n := Z.of_nat (length key) in
      kcopy ← in_map (am_alloc (8 * n));
      b ← in_map (am_alloc sizeof_Bucket);
      _ ← modS (fun t => mkTable (total_ t) (bucket_table_ t) (<[buck := b]> (chains_ t)) (s32 (num_buckets_ t + 1))
             (<[b := mkBucket no_stats h n kcopy (default 0 (chains_ t !! buck))]> (buckets t))
             (if n =? 0 then stacks t else <[kcopy := key]> (stacks t)) (map_addr t) (address_map_ t));
      mret b
  end.

(** A store into a bucket. *)
Definition update_bucket (p : Z) (f : Stats -> Stats) : M table unit :=
  t ← getS;
  b ← liftM (deref (buckets t !! p));
  modS (with_buckets (<[p := mkBucket (f (stats b)) (hash b) (depth b) (stack b) (next b)]> (buckets t))).
Definition update_total (f : Stats -> Stats) : M table unit := modS (fun t => with_total (f (total_ t)) t).

Definition RecordAlloc (ptr n : Z) (call_stack : list Z) : M table unit :=
  b ← GetBucket call_stack;
  _ ← update_bucket b (add_alloc n);
  _ ← update_total (add_alloc n);
  in_map (am_insert ptr (mkAlloc n b)).
Definition RecordFree (ptr : Z) : M table unit :=
  r ← in_map (am_remove ptr);
  match r with
  | None => mret tt
  | Some v => _ ← update_bucket (bucket v) (add_free (bytes v)); update_total (add_free (bytes v))
  end.

Definition FindAlloc (ptr : Z) : M table (option Z) :=
  r ← in_map (am_find ptr); mret (bytes <$> r).
(** The size, the stack and its depth. *)
Definition FindAllocDetails (ptr : Z) : M table (option (Z * list Z * Z)) :=
  r ← in_map (am_find ptr);
  match r with
  | None => mret None
  | Some v =>
      t ← getS;
      b ← liftM (deref (buckets t !! bucket v));
      st ← liftM (deref (stack_of t b));
      mret (Some (bytes v, st, depth b))
  end.
Definition FindInsideAlloc (ptr max_size : Z) (t : table) : outcome (option (Z * Z)) :=
  r ← am_inside bytes max_size ptr (address_map_ t);
  Ret (match r with Some (p, v) => Some (p, bytes v) | None => None end).
Definition MarkAsLive (ptr : Z) : M table bool :=
  r ← in_map (am_find ptr);
  match r with
  | Some v => if negb (live v) then _ ← in_map (am_store ptr (set_live true v)); mret true else mret false
  | None => mret false
  end.
Definition MarkAsIgnored (ptr : Z) : M table unit :=
  r ← in_map (am_find ptr);
  match r with Some v => in_map (am_store ptr (set_ignore true v)) | None => mret tt end.

(** [IterateAllocs]: what the callback gets. *)
Record AllocInfo := mkInfo { object_size : Z; call_stack : list Z; stack_depth : Z; info_live : bool; ignored : bool }.
Definition IterateAllocs (t : table) : outcome (list (Z * AllocInfo)) :=
  foldM (fun acc '(ptr, v) =>
    b ← deref (buckets t !! bucket v); st ← deref (stack_of t b);
    Ret (acc ++ [(ptr, mkInfo (bytes v) st (depth b) (live v) (ignore v))])) (am_iterate (address_map_ t)) [].

(** A chain, and all chains in the order of the table. *)
Fixpoint walk (fuel : nat) (t : table) (p : Z) : outcome (list (Z * Bucket)) :=
  if p =? 0 then Ret [] else
  match fuel with
  | O => Fault OutOfFuel
  | S fuel => b ← deref (buckets t !! p); l ← walk fuel t (next b); Ret ((p, b) :: l)
  end.
Definition all_buckets (t : table) : outcome (list (Z * Bucket)) :=
  foldM (fun acc i => l ← walk (size (buckets t)) t (default 0 (chains_ t !! i)); Ret (acc ++ l)) (seqZ 0 kHashTableSize) [].

Definition SaveProfile (maps : string) (t : table) : outcome string :=
  l ← all_buckets t;
  lines ← foldM (fun acc '(p, b) => st ← deref (stack_of t b); Ret (acc ++ UnparseBucket (stats b) st EmptyString)%string) l EmptyString;
  Ret (kProfileHeader ++ UnparseBucket (total_ t) [] " heapprofile" ++ lines ++ kProcSelfMapsHeader ++ maps)%string.

(** The destructor. *)
Definition destroy (t : table) : outcome A :=
  a ← am_destroy (address_map_ t);
  '(_, a) ← dealloc (map_addr t) a;
  l ← all_buckets t;
  '(_, a) ← forM_ l (fun '(p, b) => _ ← dealloc (stack b); dealloc p) a;
  '(_, a) ← dealloc (bucket_table_ t) a;
  Ret a.
End Table.
End HPT.
