(* ===== verification/HeapProfileSpec.v ===== *)
(** * The heap profile is a ledger of allocations

    Proofs about HeapProfileTable.v. The specification keeps, for every stack,
    exact counts of the allocations and frees made from it, and for every
    address the object recorded there. The table refines it, with the counts
    modulo 2^64, for every implementation of the address map that satisfies
    the laws; HeapProfileMap.v has the instance. *)
From Stdlib Require Import String.
From S2P Require Import Prelude AddressMap HeapProfileTable.
Import HPT.
Open Scope Z_scope.

(** ** The ledger *)

Record Obj := mkObj { o_bytes : Z; o_stack : list Z; o_live : bool; o_ignored : bool }.
Record Ledger := mkLedger { l_stats : gmap (list Z) Stats; l_objs : gmap Z Obj; l_total : Stats }.
Definition empty_ledger : Ledger := mkLedger ∅ ∅ no_stats.
(** Exact counts. *)
Definition count_alloc (n : Z) (s : Stats) : Stats := mkStats (allocs s + 1) (frees s) (alloc_size s + n) (free_size s).
Definition count_free (n : Z) (s : Stats) : Stats := mkStats (allocs s) (frees s + 1) (alloc_size s) (free_size s + n).

Inductive op :=
  | OAlloc (ptr n : Z) (st : list Z)
  | OFree (ptr : Z)
  | OFind (ptr : Z)
  | ODetails (ptr : Z)
  | OLive (ptr : Z)
  | OIgnore (ptr : Z).
Inductive res := RNone | RSize (r : option Z) | RDetails (r : option (Z * list Z * Z)) | RBool (b : bool).
Definition op_ptr (o : op) : Z :=
  match o with OAlloc p _ _ | OFree p | OFind p | ODetails p | OLive p | OIgnore p => p end.

Definition ledger_step (o : op) (P : Ledger) : res * Ledger :=
  match o with
  | OAlloc ptr n st =>
      (RNone, mkLedger (<[st := count_alloc n (default no_stats (l_stats P !! st))]> (l_stats P))
                (<[ptr := mkObj n st false false]> (l_objs P)) (count_alloc n (l_total P)))
  | OFree ptr =>
      (RNone, match l_objs P !! ptr with
              | None => P
              | Some x => mkLedger (alter (count_free (o_bytes x)) (o_stack x) (l_stats P)) (delete ptr (l_objs P)) (count_free (o_bytes x) (l_total P))
              end)
  | OFind ptr => (RSize (o_bytes <$> l_objs P !! ptr), P)
  | ODetails ptr => (RDetails ((fun x => (o_bytes x, o_stack x, Z.of_nat (length (o_stack x)))) <$> l_objs P !! ptr), P)
  | OLive ptr =>
      match l_objs P !! ptr with
      | Some x => (RBool (negb (o_live x)), mkLedger (l_stats P) (<[ptr := mkObj (o_bytes x) (o_stack x) true (o_ignored x)]> (l_objs P)) (l_total P))
      | None => (RBool false, P)
      end
  | OIgnore ptr =>
      (RNone, match l_objs P !! ptr with
              | Some x => mkLedger (l_stats P) (<[ptr := mkObj (o_bytes x) (o_stack x) (o_live x) true]> (l_objs P)) (l_total P)
              | None => P
              end)
  end.
Fixpoint ledger_run (l : list op) (P : Ledger) : list res * Ledger :=
  match l with
  | [] => ([], P)
  | o :: l => let '(r, P) := ledger_step o P in let '(rs, P) := ledger_run l P in (r :: rs, P)
  end.

(** ** Counters *)

Definition wrap (s : Stats) : Stats := mkStats (s64 (allocs s)) (s64 (frees s)) (s64 (alloc_size s)) (s64 (free_size s)).
Lemma s64_add x y : s64 (s64 x + y) = s64 (x + y).
Proof.
  unfold s64. f_equal. replace ((x + 2 ^ 63) mod 2 ^ 64 - 2 ^ 63 + y + 2 ^ 63) with ((x + 2 ^ 63) mod 2 ^ 64 + y) by lia.
  rewrite Zplus_mod_idemp_l. f_equal. lia.
Qed.
Lemma s64_sub x y : s64 (s64 x - s64 y) = s64 (x - y).
Proof.
  unfold s64. f_equal. replace ((x + 2 ^ 63) mod 2 ^ 64 - 2 ^ 63 - ((y + 2 ^ 63) mod 2 ^ 64 - 2 ^ 63) + 2 ^ 63) with
    ((x + 2 ^ 63) mod 2 ^ 64 - (y + 2 ^ 63) mod 2 ^ 64 + 2 ^ 63) by lia.
  rewrite <- Zplus_mod_idemp_l, <- Zminus_mod, Zplus_mod_idemp_l. f_equal. lia.
Qed.
Lemma wrap_alloc n s : add_alloc n (wrap s) = wrap (count_alloc n s).
Proof. unfold add_alloc, wrap, count_alloc. cbn. by rewrite !s64_add. Qed.
Lemma wrap_free n s : add_free n (wrap s) = wrap (count_free n s).
Proof. unfold add_free, wrap, count_free. cbn. by rewrite !s64_add. Qed.

(** ** Flags in the low bits of a pointer *)

(** A value that points to the bucket [p] with these flags. *)
Definition packed (v : AllocValue) (p : Z) (l i : bool) : Prop :=
  exists q, p = Zpos q~0~0 /\
    bucket_rep v = match l, i with false, false => Zpos q~0~0 | true, false => Zpos q~0~1 | false, true => Zpos q~1~0 | true, true => Zpos q~1~1 end.
Lemma packed_new n p : 0 < p -> p mod 4 = 0 -> packed (mkAlloc n p) p false false.
Proof.
  intros Hp H4. exists (Z.to_pos (p / 4)). pose proof (Z.div_mod p 4 ltac:(lia)) as Hd.
  assert (p = 4 * Zpos (Z.to_pos (p / 4))) as E by (rewrite Z2Pos.id; lia). cbn [bucket_rep]. split; exact E.
Qed.
Lemma packed_get v p l i : packed v p l i -> bucket v = p /\ live v = l /\ ignore v = i.
Proof. intros (q & -> & E). unfold bucket, live, ignore. rewrite E. by destruct l, i. Qed.
Lemma packed_live v p l i : packed v p l i -> packed (set_live true v) p true i.
Proof. intros (q & -> & E). exists q. split; [done|]. unfold set_live. cbn [bucket_rep]. rewrite E. by destruct l, i. Qed.
Lemma packed_ignore v p l i : packed v p l i -> packed (set_ignore true v) p l true.
Proof. intros (q & -> & E). exists q. split; [done|]. unfold set_ignore. cbn [bucket_rep]. rewrite E. by destruct l, i. Qed.

(** ** Chains *)

Fixpoint chain (bs : gmap Z Bucket) (p : Z) (l : list Z) : Prop :=
  match l with
  | [] => p = 0
  | q :: l => p = q /\ 0 < q /\ exists b, bs !! q = Some b /\ chain bs (next b) l
  end.
Lemma chain_ext bs bs' p l : chain bs p l -> (forall q b, q ∈ l -> bs !! q = Some b -> exists b', bs' !! q = Some b' /\ next b' = next b) -> chain bs' p l.
Proof.
  revert p. induction l as [|q l IH]; intros p; cbn [chain]; [done|]. intros (-> & Hq & b & Hb & Hc) He.
  destruct (He q b ltac:(left) Hb) as (b' & Hb' & Hn). split; [done|]. split; [done|]. exists b'. split; [done|]. rewrite Hn. apply IH; [done|].
  intros q' c Hq'. apply He. by right.
Qed.

(** ** Accounting in the ledger *)

(** A sum over the values of a map. *)
Definition sum_map {K} `{Countable K} {V} (f : V -> Z) (m : gmap K V) : Z := map_fold (fun _ x acc => f x + acc) 0 m.
Section Sum.
Context {K : Type} `{Countable K} {V : Type} (f : V -> Z).
Implicit Types m : gmap K V.
Lemma sum_map_insert m k x : m !! k = None -> sum_map f (<[k := x]> m) = f x + sum_map f m.
Proof. intros Hk. unfold sum_map. rewrite map_fold_insert_L; [done|intros; lia|done]. Qed.
Lemma sum_map_delete m k x : m !! k = Some x -> sum_map f m = f x + sum_map f (delete k m).
Proof. intros Hk. rewrite <- (insert_delete_id m k x Hk) at 1. apply sum_map_insert, lookup_delete_eq. Qed.
Lemma sum_map_update m k x y : m !! k = Some x -> sum_map f (<[k := y]> m) = sum_map f m - f x + f y.
Proof. intros Hk. rewrite <- insert_delete_eq, sum_map_insert by apply lookup_delete_eq. rewrite (sum_map_delete m k x Hk). lia. Qed.
Lemma sum_map_list m : sum_map f m = foldr (fun kx acc => f kx.2 + acc) 0 (map_to_list m).
Proof. unfold sum_map. rewrite map_fold_foldr. induction (map_to_list m) as [|[k x] l IH]; [done|]. cbn. by rewrite IH. Qed.
End Sum.
(** The objects of one stack, weighed. *)
Definition held (w : Obj -> Z) (st : list Z) (O : gmap Z Obj) : Z := sum_map (fun x => if decide (o_stack x = st) then w x else 0) O.
Definition stats_at (P : Ledger) (st : list Z) : Stats := default no_stats (l_stats P !! st).
Record balanced (P : Ledger) : Prop := {
  ba_count st : allocs (stats_at P st) - frees (stats_at P st) = held (fun _ => 1) st (l_objs P);
  ba_bytes st : alloc_size (stats_at P st) - free_size (stats_at P st) = held o_bytes st (l_objs P);
  ba_known k x : l_objs P !! k = Some x -> is_Some (l_stats P !! o_stack x);
  ba_total : l_total P = mkStats (sum_map allocs (l_stats P)) (sum_map frees (l_stats P)) (sum_map alloc_size (l_stats P)) (sum_map free_size (l_stats P)) }.
(** No address is recorded again before it is freed. *)
Definition proper_op (o : op) (P : Ledger) : bool :=
  match o with OAlloc ptr _ _ => bool_decide (l_objs P !! ptr = None) | _ => true end.
Fixpoint proper (l : list op) (P : Ledger) : bool :=
  match l with [] => true | o :: l => proper_op o P && proper l (ledger_step o P).2 end.

Lemma sum_at (f : Stats -> Z) (S : gmap (list Z) Stats) st s : f no_stats = 0 -> sum_map f (<[st := s]> S) = sum_map f S - f (default no_stats (S !! st)) + f s.
Proof.
  intros H0. destruct (S !! st) as [s0|] eqn:E; cbn [default]; [by apply sum_map_update|]. rewrite sum_map_insert by done. lia.
Qed.
Lemma stats_at_insert P st s O T st' : stats_at (mkLedger (<[st := s]> (l_stats P)) O T) st' = if decide (st' = st) then s else stats_at P st'.
Proof. unfold stats_at. cbn. destruct (decide (st' = st)) as [->|Hne]; [by rewrite lookup_insert_eq|by rewrite lookup_insert_ne by congruence]. Qed.
Lemma balanced_flags P k x x' : balanced P -> l_objs P !! k = Some x -> o_bytes x' = o_bytes x -> o_stack x' = o_stack x ->
  balanced (mkLedger (l_stats P) (<[k := x']> (l_objs P)) (l_total P)).
Proof.
  intros [h1 h2 h3 h4] Hk Hb Hs. constructor; [intros st|intros st|intros k' y|done]; cbn [l_objs].
  - unfold held. rewrite (sum_map_update _ _ k x) by done. rewrite Hs. specialize (h1 st). unfold held in h1. unfold stats_at in *. cbn. lia.
  - unfold held. rewrite (sum_map_update _ _ k x) by done. rewrite Hs, Hb. specialize (h2 st). unfold held in h2. unfold stats_at in *. cbn. lia.
  - intros [[<- <-]|[_ Hy]]%lookup_insert_Some; cbn; [rewrite Hs|]; by eapply h3.
Qed.
Lemma balanced_alloc P ptr n st : balanced P -> l_objs P !! ptr = None -> balanced (ledger_step (OAlloc ptr n st) P).2.
Proof.
  intros [h1 h2 h3 h4] Hp. cbn [ledger_step snd]. fold (stats_at P st). constructor.
  - intros st'. rewrite stats_at_insert. cbn [l_objs]. unfold held. rewrite sum_map_insert by done. cbn [o_stack]. specialize (h1 st'). unfold held in h1.
    destruct (decide (st' = st)) as [->|Hne]; [rewrite decide_True by done; cbn; lia|rewrite decide_False by done; lia].
  - intros st'. rewrite stats_at_insert. cbn [l_objs]. unfold held. rewrite sum_map_insert by done. cbn [o_stack o_bytes]. specialize (h2 st'). unfold held in h2.
    destruct (decide (st' = st)) as [->|Hne]; [rewrite decide_True by done; cbn; lia|rewrite decide_False by done; lia].
  - intros k x. cbn. intros [[<- <-]|[_ Hx]]%lookup_insert_Some; [cbn; by rewrite lookup_insert_eq|].
    destruct (decide (o_stack x = st)) as [->|Hne]; [by rewrite lookup_insert_eq|]. rewrite lookup_insert_ne by done. by eapply h3.
  - cbn [l_total l_stats]. rewrite h4. unfold count_alloc. cbn. rewrite !sum_at by done. unfold stats_at. cbn. f_equal; lia.
Qed.
Lemma balanced_free P ptr : balanced P -> balanced (ledger_step (OFree ptr) P).2.
Proof.
  intros HB. pose proof HB as [h1 h2 h3 h4]. cbn [ledger_step snd]. destruct (l_objs P !! ptr) as [x|] eqn:Hx; [|done]. destruct (h3 ptr x Hx) as [s0 Hs0].
  assert (Ea : forall g, alter g (o_stack x) (l_stats P) = <[o_stack x := g s0]> (l_stats P)).
  { intros g. apply map_eq. intros k. destruct (decide (k = o_stack x)) as [->|Hne]; [by rewrite lookup_alter_eq, lookup_insert_eq, Hs0|by rewrite lookup_alter_ne, lookup_insert_ne]. }
  rewrite Ea. assert (E0 : stats_at P (o_stack x) = s0) by (unfold stats_at; by rewrite Hs0). constructor.
  - intros st. rewrite stats_at_insert. cbn [l_objs]. specialize (h1 st). unfold held in h1 |- *. rewrite (sum_map_delete _ _ ptr x Hx) in h1.
    destruct (decide (st = o_stack x)) as [->|Hne]; [rewrite decide_True in h1 by done; rewrite E0 in h1; cbn; lia|rewrite decide_False in h1 by congruence; lia].
  - intros st. rewrite stats_at_insert. cbn [l_objs]. specialize (h2 st). unfold held in h2 |- *. rewrite (sum_map_delete _ _ ptr x Hx) in h2.
    destruct (decide (st = o_stack x)) as [->|Hne]; [rewrite decide_True in h2 by done; rewrite E0 in h2; cbn; lia|rewrite decide_False in h2 by congruence; lia].
  - intros k y. cbn. intros [_ Hy]%lookup_delete_Some. destruct (decide (o_stack y = o_stack x)) as [->|Hne]; [by rewrite lookup_insert_eq|].
    rewrite lookup_insert_ne by done. by eapply h3.
  - cbn [l_total l_stats]. rewrite h4. unfold count_free. cbn. rewrite !sum_at by done. rewrite Hs0. cbn. f_equal; lia.
Qed.
Lemma balanced_run l : forall P, balanced P -> proper l P = true -> balanced (ledger_run l P).2.
Proof.
  induction l as [|o l IH]; intros P HB Hp; [done|]. cbn [proper ledger_run] in *. apply andb_true_iff in Hp as [Ho Hp].
  assert (HB1 : balanced (ledger_step o P).2).
  { destruct o as [ptr n st|ptr|ptr|ptr|ptr|ptr]; cbn [proper_op] in Ho.
    - apply bool_decide_eq_true_1 in Ho. by apply balanced_alloc.
    - by apply balanced_free.
    - done.
    - done.
    - cbn. destruct (l_objs P !! ptr) as [x|] eqn:E; [|done]. cbn. by eapply balanced_flags.
    - cbn. destruct (l_objs P !! ptr) as [x|] eqn:E; [|done]. cbn. by eapply balanced_flags. }
  destruct (ledger_step o P) as [r P1]. cbn [snd] in *. specialize (IH P1 HB1 Hp). by destruct (ledger_run l P1).
Qed.
Lemma balanced_empty : balanced empty_ledger.
Proof. constructor; try done. Qed.

Section Spec.
Context {A : Type} `{Ops : !AddressMapOps AllocValue A} (regions : A -> gmap Z Z) (am_rep : am -> gmap Z AllocValue -> gmap Z Z -> Prop).
Context `{Laws : !AddressMapLaws AllocValue A regions am_rep}.
Context (alloc : Z -> M A Z) (dealloc : Z -> M A unit).
Hypothesis alloc_ok : forall n a, 0 < n -> wp (alloc n) (fun p a' => 0 < p /\ regions a !! p = None /\ regions a' = <[p := n]> (regions a)) a.
Hypothesis dealloc_ok : forall p a, is_Some (regions a !! p) -> wp (dealloc p) (fun _ a' => regions a' = delete p (regions a)) a.
Hypothesis dealloc_null : forall a, dealloc 0 a = Ret (tt, a).
Abbreviation table := (HeapProfileTable (A := A)).
Implicit Types (t : table) (P : Ledger).

Lemma walk_chain t fuel p l : chain (buckets t) p l -> (length l <= fuel)%nat ->
  exists r, walk fuel t p = Ret r /\ r.*1 = l /\ Forall (fun x => buckets t !! x.1 = Some x.2) r.
Proof.
  revert fuel p. induction l as [|q l IH]; intros fuel p; cbn [chain length].
  - intros -> _. exists []. by destruct fuel.
  - intros (-> & Hq & b & Hb & Hc) Hf. destruct fuel as [|fuel]; [lia|]. cbn [walk]. rewrite (proj2 (Z.eqb_neq q 0)) by lia. rewrite Hb. obind.
    destruct (IH fuel (next b) Hc ltac:(lia)) as (r & -> & Hr & HF). obind. eexists. split; [reflexivity|]. split; [cbn; by rewrite Hr|]. by constructor.
Qed.
(** The search of a chain finds the bucket of the stack, if there is one. *)
Lemma find_bucket_chain t key fuel p l : chain (buckets t) p l -> (length l <= fuel)%nat ->
  (forall q b, q ∈ l -> buckets t !! q = Some b -> exists st, stack_of t b = Some st /\ hash b = hash_of st /\ depth b = Z.of_nat (length st)) ->
  exists r, find_bucket fuel t (hash_of key) key p = Ret r /\
    match r with
    | Some q => q ∈ l /\ exists b, buckets t !! q = Some b /\ stack_of t b = Some key
    | None => forall q b, q ∈ l -> buckets t !! q = Some b -> stack_of t b <> Some key
    end.
Proof.
  revert fuel p. induction l as [|q l IH]; intros fuel p; cbn [chain length].
  - intros -> _ _. exists None. split; [by destruct fuel|]. by intros q b ?%elem_of_nil.
  - intros (-> & Hq & b & Hb & Hc) Hf Hall. destruct fuel as [|fuel]; [lia|]. cbn [find_bucket]. rewrite (proj2 (Z.eqb_neq q 0)) by lia. rewrite Hb. obind.
    destruct (Hall q b ltac:(left) Hb) as (st & Hst & Hh & Hd).
    destruct (IH fuel (next b) Hc ltac:(lia)) as (r & Er & Hr); [intros q' b' Hq'; apply Hall; by right|].
    assert (Hskip : st <> key -> match r with
      | Some q' => q' ∈ q :: l /\ exists b, buckets t !! q' = Some b /\ stack_of t b = Some key
      | None => forall q' b, q' ∈ q :: l -> buckets t !! q' = Some b -> stack_of t b <> Some key end).
    { intros Hne. destruct r as [q'|]; [destruct Hr as [? ?]; split; [by right|done]|].
      intros q' b' [->|Hq']%elem_of_cons Hb'; [|by apply (Hr q' b')]. rewrite Hb in Hb'. injection Hb' as <-. congruence. }
    rewrite Hst. obind. destruct (decide (st = key)) as [->|Hne].
    + rewrite Hh, Hd, !Z.eqb_refl. cbn [andb]. rewrite bool_decide_eq_true_2 by done. exists (Some q). split; [done|]. split; [left|by exists b].
    + exists r. split; [|by apply Hskip]. rewrite (bool_decide_eq_false_2 (st = key)) by done. by destruct (_ && _).
Qed.

(** ** The invariant *)

(** The buckets are those of [S], each on the chain of its hash. *)
Record Shape t (S : gmap (list Z) Stats) (ch : Z -> list Z) : Prop := {
  sh_chain i : chain (buckets t) (default 0 (chains_ t !! i)) (ch i);
  sh_home i p : p ∈ ch i <-> exists b, buckets t !! p = Some b /\ slot_of (hash b) = i;
  sh_nodup i : NoDup (ch i);
  sh_bucket p b : buckets t !! p = Some b -> 0 < p /\ p mod 4 = 0 /\
    exists st s, stack_of t b = Some st /\ hash b = hash_of st /\ depth b = Z.of_nat (length st) /\ S !! st = Some s /\ stats b = wrap s;
  sh_unique p p' b b' : buckets t !! p = Some b -> buckets t !! p' = Some b' -> stack_of t b = stack_of t b' -> p = p';
  sh_all st : is_Some (S !! st) -> exists p b, buckets t !! p = Some b /\ stack_of t b = Some st;
  sh_num : num_buckets_ t = s32 (Z.of_nat (size S)) }.
(** An entry of the address map and the object it stands for. *)
Definition obj_ok t (v : AllocValue) (x : Obj) : Prop :=
  bytes v = o_bytes x /\ exists p b, packed v p (o_live x) (o_ignored x) /\ buckets t !! p = Some b /\ stack_of t b = Some (o_stack x).
(** The memory of the table, [F] being everybody else's. *)
Definition cells (x : Z * Bucket) : list Z := x.1 :: (if depth x.2 =? 0 then [] else [stack x.2]).
Definition own_list (bs : gmap Z Bucket) : list Z := mjoin (cells <$> map_to_list bs).
Definition own t : list Z := bucket_table_ t :: map_addr t :: own_list (buckets t).
Definition owns (F : gmap Z Z) (l : list Z) (R : gmap Z Z) : Prop :=
  NoDup l /\ Forall (fun q => is_Some (R !! q)) l /\ forall q, F !! q = if decide (q ∈ l) then None else R !! q.
Definition Inv (F : gmap Z Z) t P : Prop := exists ch X R,
  Shape t (l_stats P) ch /\ total_ t = wrap (l_total P) /\ am_rep (address_map_ t) X R /\
  (forall k, option_Forall2 (obj_ok t) (X !! k) (l_objs P !! k)) /\ owns F (own t) R /\
  (forall p b, buckets t !! p = Some b -> depth b = 0 -> stack b = 0).

Lemma own_list_insert bs p b : bs !! p = None -> own_list (<[p := b]> bs) ≡ₚ cells (p, b) ++ own_list bs.
Proof. intros H. unfold own_list. rewrite map_to_list_insert by done. done. Qed.
Lemma own_list_update bs p b b' : bs !! p = Some b -> cells (p, b') = cells (p, b) -> own_list (<[p := b']> bs) ≡ₚ own_list bs.
Proof.
  intros Hb Hc. rewrite <- (insert_delete_eq bs p b'). rewrite own_list_insert by apply lookup_delete_eq.
  rewrite <- (insert_delete_id bs p b Hb) at 2. rewrite own_list_insert by apply lookup_delete_eq. by rewrite Hc.
Qed.
Lemma owns_perm F l l' R : l ≡ₚ l' -> owns F l R -> owns F l' R.
Proof.
  intros Hp (h1 & h2 & h3). split; [by rewrite <- Hp|]. split; [by rewrite <- Hp|]. intros q. rewrite h3.
  destruct (decide (q ∈ l)) as [H|H]; rewrite Hp in H; [by rewrite decide_True|by rewrite decide_False].
Qed.
Lemma owns_cons F l R p n : owns F l R -> R !! p = None -> owns F (p :: l) (<[p := n]> R).
Proof.
  intros (h1 & h2 & h3) Hp. rewrite Forall_forall in h2. assert (Hpl : p ∉ l) by (intros [? ?]%h2; congruence).
  split; [by constructor|]. split.
  - apply Forall_cons. split; [by rewrite lookup_insert_eq|]. rewrite Forall_forall. intros q Hq. rewrite lookup_insert_ne by (intros ->; done). by apply h2.
  - intros q. rewrite h3. destruct (decide (q = p)) as [->|Hne].
    + rewrite decide_False by done. rewrite decide_True by left. done.
    + rewrite lookup_insert_ne by done. destruct (decide (q ∈ l)); [rewrite decide_True by (by right)|rewrite decide_False by (intros [?|?]%elem_of_cons; done)]; done.
Qed.

(** ** Counting in a bucket *)

Definition touched (f : Stats -> Stats) (b : Bucket) : Bucket := mkBucket (f (stats b)) (hash b) (depth b) (stack b) (next b).
(** Buckets stay where they are, with their stacks. *)
Definition keeps t t' : Prop := forall p b, buckets t !! p = Some b -> exists b', buckets t' !! p = Some b' /\ stack_of t' b' = stack_of t b.
Lemma obj_ok_keeps t t' v x : keeps t t' -> obj_ok t v x -> obj_ok t' v x.
Proof. intros Hk (? & p & b & ? & Hb & Hs). split; [done|]. destruct (Hk p b Hb) as (b' & Hb' & Hs'). exists p, b'. rewrite Hs'. done. Qed.
Lemma objs_keep t t' (X : gmap Z AllocValue) (O : gmap Z Obj) : keeps t t' -> (forall k, option_Forall2 (obj_ok t) (X !! k) (O !! k)) ->
  forall k, option_Forall2 (obj_ok t') (X !! k) (O !! k).
Proof. intros Hk Ho k. destruct (Ho k) as [v x Hv|]; constructor. by eapply obj_ok_keeps. Qed.

Lemma touch_lookup t p b f q : buckets t !! p = Some b ->
  (<[p := touched f b]> (buckets t)) !! q = (if decide (q = p) then touched f else fun c => c) <$> buckets t !! q.
Proof. intros Hb. destruct (decide (q = p)) as [->|Hne]; [by rewrite lookup_insert_eq, Hb|rewrite lookup_insert_ne by done; by destruct (buckets t !! q)]. Qed.
Lemma touch_cases t p b f q c : buckets t !! p = Some b -> <[p := touched f b]> (buckets t) !! q = Some c ->
  exists c0, buckets t !! q = Some c0 /\ hash c = hash c0 /\ depth c = depth c0 /\ stack c = stack c0 /\ next c = next c0 /\
    (forall t, stack_of t c = stack_of t c0) /\ stats c = (if decide (q = p) then f (stats c0) else stats c0).
Proof.
  intros Hb. rewrite (touch_lookup t p b f q Hb). destruct (buckets t !! q) as [c0|]; [|done]. cbn. intros [= <-]. exists c0.
  destruct (decide (q = p)); done.
Qed.
Lemma Shape_touch t S ch p b st f g : Shape t S ch -> buckets t !! p = Some b -> stack_of t b = Some st -> (forall s, f (wrap s) = wrap (g s)) ->
  Shape (with_buckets (<[p := touched f b]> (buckets t)) t) (alter g st S) ch.
Proof.
  intros HS Hb Hst Hfg. set (t' := with_buckets _ t).
  assert (Hsame : forall c, stack_of t' c = stack_of t c) by done.
  assert (Hex : forall q c0, buckets t !! q = Some c0 -> exists c, buckets t' !! q = Some c /\ hash c = hash c0 /\ next c = next c0 /\ stack_of t' c = stack_of t c0).
  { intros q c0 Hq. cbn. rewrite (touch_lookup t p b f q Hb), Hq. cbn. eexists. split; [reflexivity|]. by destruct (decide (q = p)). }
  constructor.
  - intros i. eapply chain_ext; [apply (sh_chain _ _ _ HS)|]. intros q c _ Hq. destruct (Hex q c Hq) as (c' & ? & _ & ? & _). by exists c'.
  - intros i q. rewrite (sh_home _ _ _ HS). split; intros (c & Hc & Hh).
    + destruct (Hex q c Hc) as (c' & ? & E & _). exists c'. by rewrite E.
    + apply (touch_cases t p b f q c Hb) in Hc as (c0 & ? & E & _). exists c0. by rewrite <- E.
  - apply (sh_nodup _ _ _ HS).
  - intros q c Hc. apply (touch_cases t p b f q c Hb) in Hc as (c0 & Hc0 & Eh & Ed & Es & En & Est & Estat).
    destruct (sh_bucket _ _ _ HS q c0 Hc0) as (h1 & h2 & st0 & s0 & h3 & h4 & h5 & h6 & h7). split; [done|]. split; [done|].
    rewrite Hsame, Est, Eh, Ed, Estat. destruct (decide (q = p)) as [->|Hne].
    + assert (c0 = b) as -> by congruence. assert (st0 = st) as -> by congruence. exists st, (g s0).
      rewrite lookup_alter_eq, h6, h7, Hfg. done.
    + exists st0, s0. rewrite lookup_alter_ne; [done|]. intros ->. apply Hne. apply (sh_unique _ _ _ HS q p c0 b); congruence.
  - intros q q' c c' Hq Hq'. apply (touch_cases t p b f q c Hb) in Hq as (c0 & Hc0 & _ & _ & _ & _ & Est & _).
    apply (touch_cases t p b f q' c' Hb) in Hq' as (c0' & Hc0' & _ & _ & _ & _ & Est' & _). rewrite !Hsame, Est, Est'. by apply (sh_unique _ _ _ HS).
  - intros st0 Hs. destruct (sh_all _ _ _ HS st0) as (q & c & Hq & Hc).
    { destruct (decide (st0 = st)) as [->|Hne]; [|by rewrite lookup_alter_ne in Hs by done].
      destruct (sh_bucket _ _ _ HS p b Hb) as (_ & _ & st1 & s1 & h3 & _ & _ & h6 & _). assert (st1 = st) as -> by congruence. by rewrite h6. }
    destruct (Hex q c Hq) as (c' & ? & _ & _ & E). exists q, c'. by rewrite E.
  - cbn. rewrite (sh_num _ _ _ HS). do 2 f_equal. rewrite <- !size_dom. by rewrite dom_alter_L.
Qed.
Lemma touch_keeps t p b f : buckets t !! p = Some b -> keeps t (with_buckets (<[p := touched f b]> (buckets t)) t).
Proof.
  intros Hb q c Hq. cbn. rewrite (touch_lookup t p b f q Hb), Hq. cbn. eexists. split; [reflexivity|]. by destruct (decide (q = p)).
Qed.

Definition with_stats (S : gmap (list Z) Stats) P : Ledger := mkLedger S (l_objs P) (l_total P).
Lemma wp_update_bucket F t P p b st f g : Inv F t P -> buckets t !! p = Some b -> stack_of t b = Some st -> (forall s, f (wrap s) = wrap (g s)) ->
  wp (update_bucket p f) (fun _ t' => Inv F t' (with_stats (alter g st (l_stats P)) P) /\ keeps t t') t.
Proof.
  intros (ch & X & R & HS & Ht & Hm & Ho & Hw & Hz) Hb Hst Hfg. unfold update_bucket. apply wp_bind, wp_get. apply wp_bind. eapply wp_lift; [by rewrite Hb|].
  apply wp_mod. pose proof (touch_keeps t p b f Hb) as Hk. split; [|exact Hk]. exists ch, X, R. split; [by apply Shape_touch|]. split; [done|]. split; [done|].
  split; [|split].
  - by eapply objs_keep.
  - eapply owns_perm; [|exact Hw]. unfold own. cbn. do 2 constructor. symmetry. by apply (own_list_update _ _ b).
  - intros q c Hc Hd. apply (touch_cases t p b f q c Hb) in Hc as (c0 & Hc0 & _ & Ed & Es & _). rewrite Es. apply (Hz q c0 Hc0). congruence.
Qed.
Lemma wp_update_total F t P f g : Inv F t P -> (forall s, f (wrap s) = wrap (g s)) ->
  wp (update_total f) (fun _ t' => Inv F t' (mkLedger (l_stats P) (l_objs P) (g (l_total P))) /\ buckets t' = buckets t /\ stacks t' = stacks t) t.
Proof.
  intros (ch & X & R & HS & Ht & Hm & Ho & Hw & Hz) Hfg. apply wp_mod. split; [|done]. exists ch, X, R. split; [by destruct HS; constructor|].
  split; [cbn; rewrite Ht; apply Hfg|]. split; [done|]. split; [|done]. exact Ho.
Qed.

(** ** Finding or making a bucket *)

Lemma chain_length t S ch i : Shape t S ch -> (length (ch i) <= size (buckets t))%nat.
Proof.
  intros HS. rewrite <- size_dom. rewrite <- (size_list_to_set (C := gset Z) (ch i)) by apply (sh_nodup _ _ _ HS). apply subseteq_size. intros p Hp.
  apply elem_of_list_to_set in Hp. apply (sh_home _ _ _ HS) in Hp as (b & Hb & _). by apply elem_of_dom_2 in Hb.
Qed.
Definition ensure (key : list Z) (S : gmap (list Z) Stats) : gmap (list Z) Stats := <[key := default no_stats (S !! key)]> S.

(** The table with one more bucket at [b]. *)
Definition extended (t : table) (key : list Z) (kcopy b : Z) (s : am) : table :=
  let n := Z.of_nat (length key) in
  mkTable (total_ t) (bucket_table_ t) (<[slot_of (hash_of key) := b]> (chains_ t)) (s32 (num_buckets_ t + 1))
    (<[b := mkBucket no_stats (hash_of key) n kcopy (default 0 (chains_ t !! slot_of (hash_of key)))]> (buckets t))
    (if n =? 0 then stacks t else <[kcopy := key]> (stacks t)) (map_addr t) s.
Lemma in_own_list bs p b : bs !! p = Some b -> p ∈ own_list bs /\ (depth b <> 0 -> stack b ∈ own_list bs).
Proof.
  intros Hb. apply elem_of_map_to_list in Hb. assert (H : forall q, q ∈ cells (p, b) -> q ∈ own_list bs).
  { intros q Hq. unfold own_list. apply list_elem_of_join. exists (cells (p, b)). split; [done|]. apply list_elem_of_fmap. by exists (p, b). }
  split; [apply H; left|]. intros Hd. apply H. unfold cells. cbn. rewrite (proj2 (Z.eqb_neq _ _) Hd). right. left.
Qed.
Lemma extended_stack t key kcopy b s c q : buckets t !! q = Some c -> (length key <> O -> kcopy ∉ own_list (buckets t)) ->
  stack_of (extended t key kcopy b s) c = stack_of t c.
Proof.
  intros Hc Hk. unfold stack_of. destruct (Z.eqb_spec (depth c) 0) as [|Hd]; [done|]. cbn. destruct (Z.eqb_spec (Z.of_nat (length key)) 0); [done|].
  rewrite lookup_insert_ne; [done|]. intros ->. apply Hk; [lia|]. by apply (in_own_list _ q c).
Qed.
Lemma s32_succ n : s32 (s32 n + 1) = s32 (n + 1).
Proof.
  unfold s32. f_equal. replace ((n + 2 ^ 31) mod 2 ^ 32 - 2 ^ 31 + 1 + 2 ^ 31) with ((n + 2 ^ 31) mod 2 ^ 32 + 1) by lia.
  rewrite Zplus_mod_idemp_l. f_equal. lia.
Qed.
Lemma Shape_extended t S ch key kcopy b s : Shape t S ch -> S !! key = None -> 0 < b -> b mod 4 = 0 -> buckets t !! b = None ->
  (length key <> O -> kcopy ∉ own_list (buckets t)) ->
  Shape (extended t key kcopy b s) (ensure key S) (fun i => if decide (i = slot_of (hash_of key)) then b :: ch i else ch i).
Proof.
  intros HS Hnew Hb0 Hb4 Hfresh Hk. set (t' := extended t key kcopy b s). set (nb := mkBucket no_stats (hash_of key) (Z.of_nat (length key)) kcopy (default 0 (chains_ t !! slot_of (hash_of key)))).
  assert (Hbs : buckets t' = <[b := nb]> (buckets t)) by done.
  assert (Hnb : stack_of t' nb = Some key).
  { unfold stack_of. cbn. destruct (Z.eqb_spec (Z.of_nat (length key)) 0) as [E|E]; [|by rewrite lookup_insert_eq]. destruct key; [done|cbn in E; lia]. }
  assert (Hold : forall q c, buckets t !! q = Some c -> stack_of t' c = stack_of t c) by (intros; by eapply extended_stack).
  assert (Hne : forall q c, buckets t !! q = Some c -> q <> b) by (intros q c Hq ->; congruence).
  assert (Hch : forall i, chain (buckets t') (default 0 (chains_ t !! i)) (ch i)).
  { intros i. eapply chain_ext; [apply (sh_chain _ _ _ HS)|]. intros q c _ Hq. rewrite Hbs. exists c. by rewrite lookup_insert_ne by (by apply not_eq_sym, (Hne q c)). }
  assert (Hkey : forall q c, buckets t !! q = Some c -> stack_of t c <> Some key).
  { intros q c Hq Hc. destruct (sh_bucket _ _ _ HS q c Hq) as (_ & _ & st & s0 & h1 & _ & _ & h2 & _). congruence. }
  constructor.
  - intros i. cbn [chains_ t' extended]. destruct (decide (i = slot_of (hash_of key))) as [->|Hi].
    + rewrite lookup_insert_eq. cbn [default chain]. split; [done|]. split; [done|]. exists nb. rewrite Hbs, lookup_insert_eq. split; [done|]. apply Hch.
    + rewrite lookup_insert_ne by done. apply Hch.
  - intros i p. rewrite Hbs. destruct (decide (p = b)) as [->|Hp].
    + rewrite lookup_insert_eq. destruct (decide (i = slot_of (hash_of key))) as [->|Hi].
      * split; [|left]. intros _. by exists nb.
      * rewrite (sh_home _ _ _ HS). split; [intros (c & Hc & _); congruence|]. intros (c & [= <-] & E). cbn in E. congruence.
    + rewrite lookup_insert_ne by done. rewrite <- (sh_home _ _ _ HS). destruct (decide (i = slot_of (hash_of key))); [|done]. rewrite elem_of_cons. naive_solver.
  - intros i. destruct (decide _); [|apply (sh_nodup _ _ _ HS)]. constructor; [|apply (sh_nodup _ _ _ HS)].
    rewrite (sh_home _ _ _ HS). intros (c & Hc & _). congruence.
  - intros p c. rewrite Hbs. intros [[<- <-]|[Hp Hc]]%lookup_insert_Some.
    + split; [done|]. split; [done|]. exists key, no_stats. unfold ensure. rewrite lookup_insert_eq, Hnew. done.
    + destruct (sh_bucket _ _ _ HS p c Hc) as (h1 & h2 & st & s0 & h3 & h4 & h5 & h6 & h7). split; [done|]. split; [done|]. exists st, s0.
      rewrite (Hold p c Hc). unfold ensure. rewrite lookup_insert_ne by congruence. done.
  - intros p p' c c'. rewrite Hbs. intros [[<- <-]|[Hp Hc]]%lookup_insert_Some [[<- <-]|[Hp' Hc']]%lookup_insert_Some E; [done| | |].
    + rewrite Hnb, (Hold p' c' Hc') in E. by destruct (Hkey p' c' Hc').
    + rewrite Hnb, (Hold p c Hc) in E. by destruct (Hkey p c Hc).
    + rewrite (Hold p c Hc), (Hold p' c' Hc') in E. by apply (sh_unique _ _ _ HS p p' c c').
  - intros st Hst. rewrite Hbs. destruct (decide (st = key)) as [->|Hs]; [exists b, nb; by rewrite lookup_insert_eq|].
    unfold ensure in Hst. rewrite lookup_insert_ne in Hst by done. destruct (sh_all _ _ _ HS st Hst) as (p & c & Hc & Hcs). exists p, c.
    rewrite lookup_insert_ne by (by apply not_eq_sym, (Hne p c)). by rewrite (Hold p c Hc).
  - cbn. rewrite (sh_num _ _ _ HS), s32_succ. f_equal. unfold ensure. rewrite map_size_insert_None by done. lia.
Qed.

Lemma wp_in_map {B} (m : M am B) (Q : B -> table -> Prop) t : wp m (fun r s' => Q r (with_map s' t)) (address_map_ t) -> wp (in_map m) Q t.
Proof. unfold wp, in_map. destruct (m (address_map_ t)) as [[r s']|[]]; done. Qed.
(** The array for a stack. *)
Lemma wp_alloc_stack s X R (key : list Z) l (F : gmap Z Z) (Q : Z -> am -> Prop) : am_rep s X R -> owns F l R ->
  (forall kcopy s' R', am_rep s' X R' -> (length key = O -> kcopy = 0) -> (length key <> O -> kcopy ∉ l) ->
     owns F ((if Z.of_nat (length key) =? 0 then [] else [kcopy]) ++ l) R' -> Q kcopy s') ->
  wp (am_alloc (8 * Z.of_nat (length key))) Q s.
Proof.
  intros Hm Hw HQ. destruct (Z.eqb_spec (Z.of_nat (length key)) 0) as [E|E].
  - rewrite E in *. cbn [Z.mul]. unfold wp. rewrite am_alloc_0. apply (HQ 0 s R); [done|done|lia|done].
  - eapply wp_mono; [eapply am_alloc_ok; [exact Hm|lia]|]. cbn beta. intros kcopy s' (_ & _ & Hk & Hm').
    eapply HQ; [exact Hm'|lia| |by apply owns_cons]. intros _ Hin. destruct Hw as (_ & Hf & _). rewrite Forall_forall in Hf. destruct (Hf kcopy Hin). congruence.
Qed.

Lemma wp_GetBucket F t P key : Inv F t P ->
  wp (GetBucket key) (fun p t' => Inv F t' (with_stats (ensure key (l_stats P)) P) /\ exists b, buckets t' !! p = Some b /\ stack_of t' b = Some key) t.
Proof.
  intros HI. pose proof HI as (ch & X & R & HS & Ht & Hm & Ho & Hw & Hz). unfold GetBucket. cbn zeta. apply wp_bind, wp_get. apply wp_bind.
  destruct (find_bucket_chain t key (S (size (buckets t))) (default 0 (chains_ t !! slot_of (hash_of key))) (ch (slot_of (hash_of key)))) as (r & Er & Hr).
  { apply (sh_chain _ _ _ HS). }
  { pose proof (chain_length t _ ch (slot_of (hash_of key)) HS). lia. }
  { intros q b _ Hb. destruct (sh_bucket _ _ _ HS q b Hb) as (_ & _ & st & s & h1 & h2 & h3 & _). by exists st. }
  eapply wp_lift; [exact Er|]. destruct r as [p|].
  - destruct Hr as (_ & b & Hb & Hst). apply wp_ret. split; [|by exists b]. destruct (sh_bucket _ _ _ HS p b Hb) as (_ & _ & st & s & h1 & _ & _ & h4 & _).
    assert (st = key) as -> by congruence. unfold ensure. rewrite h4. cbn [default]. rewrite insert_id by done. by destruct P.
  - assert (Hnew : l_stats P !! key = None).
    { destruct (l_stats P !! key) eqn:E; [|done]. destruct (sh_all _ _ _ HS key) as (p & b & Hb & Hst); [by rewrite E|].
      exfalso. apply (Hr p b); [|done|done]. apply (sh_home _ _ _ HS). exists b. split; [done|].
      destruct (sh_bucket _ _ _ HS p b Hb) as (_ & _ & st & s1 & h1 & -> & _). congruence. }
    apply wp_bind, wp_in_map. eapply wp_alloc_stack; [exact Hm|exact Hw|]. intros kcopy s1 R1 Hm1 Hk0 Hk1 Hw1.
    apply wp_bind, wp_in_map. eapply wp_mono; [eapply am_alloc_ok; [exact Hm1|done]|]. cbn beta. intros b s2 (Hb0 & Hb4 & HRb & Hm2).
    apply wp_bind, wp_mod. apply wp_ret. change (mkTable _ _ _ _ _ _ _ _) with (extended t key kcopy b s2).
    assert (Hbo : b ∉ own t).
    { intros Hin. destruct Hw1 as (_ & Hf & _). rewrite Forall_forall in Hf. destruct (Hf b) as [? ?]; [apply elem_of_app; by right|congruence]. }
    assert (Hfresh : buckets t !! b = None).
    { destruct (buckets t !! b) eqn:E; [|done]. exfalso. apply Hbo. unfold own. do 2 right. by apply (in_own_list _ b _ E). }
    assert (Hk1' : length key <> O -> kcopy ∉ own_list (buckets t)) by (intros Hl Hin; apply (Hk1 Hl); unfold own; do 2 right; done).
    assert (Hnb : stack_of (extended t key kcopy b s2) (mkBucket no_stats (hash_of key) (Z.of_nat (length key)) kcopy (default 0 (chains_ t !! slot_of (hash_of key)))) = Some key).
    { unfold stack_of. cbn. destruct (Z.eqb_spec (Z.of_nat (length key)) 0) as [E|E]; [|by rewrite lookup_insert_eq]. destruct key; [done|cbn in E; lia]. }
    split; [|eexists; cbn [buckets extended]; rewrite lookup_insert_eq; split; [reflexivity|exact Hnb]].
    eexists _, X, _. split; [by apply Shape_extended|]. split; [done|]. split; [exact Hm2|]. split; [|split].
    + apply (objs_keep t); [|exact Ho]. intros q c Hq. exists c. split; [|by eapply extended_stack].
      cbn. rewrite lookup_insert_ne; [done|]. intros ->. congruence.
    + eapply owns_perm; [|apply (owns_cons F _ R1 b 64 Hw1 HRb)]. unfold own. cbn [bucket_table_ map_addr buckets extended].
      rewrite own_list_insert by done. unfold cells. cbn [fst snd depth stack]. destruct (Z.of_nat (length key) =? 0); cbn [app]; solve_Permutation.
    + intros q c. cbn. intros [[<- <-]|[_ Hc]]%lookup_insert_Some; [|by apply (Hz q c)]. cbn. intros E. apply Hk0. lia.
Qed.

(** ** The operations *)

Definition run_op (o : op) : M table res :=
  match o with
  | OAlloc ptr n st => _ ← RecordAlloc ptr n st; mret RNone
  | OFree ptr => _ ← RecordFree ptr; mret RNone
  | OFind ptr => r ← FindAlloc ptr; mret (RSize r)
  | ODetails ptr => r ← FindAllocDetails ptr; mret (RDetails r)
  | OLive ptr => r ← MarkAsLive ptr; mret (RBool r)
  | OIgnore ptr => _ ← MarkAsIgnored ptr; mret RNone
  end.
Fixpoint run_ops (l : list op) : M table (list res) :=
  match l with
  | [] => mret []
  | o :: l => r ← run_op o; rs ← run_ops l; mret (r :: rs)
  end.

(** The map of objects changes, the buckets do not. *)
Lemma Inv_objs F t P s' X' R O' : Inv F t P -> am_rep s' X' R -> owns F (own t) R ->
  (forall k, option_Forall2 (obj_ok t) (X' !! k) (O' !! k)) -> Inv F (with_map s' t) (mkLedger (l_stats P) O' (l_total P)).
Proof.
  intros (ch & X & R0 & HS & Ht & _ & _ & _ & Hz) Hm Hw Ho. exists ch, X', R. split; [by destruct HS; constructor|]. split; [done|]. split; [done|].
  split; [|by split]. exact Ho.
Qed.
Lemma objs_insert t (X : gmap Z AllocValue) (O : gmap Z Obj) ptr v x : (forall k, option_Forall2 (obj_ok t) (X !! k) (O !! k)) -> obj_ok t v x ->
  forall k, option_Forall2 (obj_ok t) (<[ptr := v]> X !! k) (<[ptr := x]> O !! k).
Proof. intros Ho Hx k. destruct (decide (k = ptr)) as [->|Hne]; [rewrite !lookup_insert_eq; by constructor|by rewrite !lookup_insert_ne]. Qed.
Lemma objs_delete t (X : gmap Z AllocValue) (O : gmap Z Obj) ptr : (forall k, option_Forall2 (obj_ok t) (X !! k) (O !! k)) ->
  forall k, option_Forall2 (obj_ok t) (delete ptr X !! k) (delete ptr O !! k).
Proof. intros Ho k. destruct (decide (k = ptr)) as [->|Hne]; [rewrite !lookup_delete_eq; constructor|by rewrite !lookup_delete_ne]. Qed.

Lemma alter_ensure (g : Stats -> Stats) key S : alter g key (ensure key S) = <[key := g (default no_stats (S !! key))]> S.
Proof.
  unfold ensure. apply map_eq. intros k. destruct (decide (k = key)) as [->|Hne]; [by rewrite lookup_alter_eq, !lookup_insert_eq|].
  by rewrite lookup_alter_ne, !lookup_insert_ne.
Qed.
Lemma wp_RecordAlloc F t P ptr n st : Inv F t P -> 0 <= ptr < 2 ^ 64 ->
  wp (RecordAlloc ptr n st) (fun _ t' => Inv F t' (ledger_step (OAlloc ptr n st) P).2) t.
Proof.
  intros HI Hp. unfold RecordAlloc. apply wp_bind. eapply wp_mono; [by apply wp_GetBucket|]. cbn beta. intros p t1 (HI1 & b & Hb & Hst).
  apply wp_bind. eapply wp_mono; [apply (wp_update_bucket F t1 _ p b st (add_alloc n) (count_alloc n) HI1 Hb Hst); apply wrap_alloc|].
  cbn beta. intros [] t2 [HI2 Hk2]. apply wp_bind. eapply wp_mono; [apply (wp_update_total F t2 _ (add_alloc n) (count_alloc n) HI2); apply wrap_alloc|].
  cbn beta. intros [] t3 (HI3 & Hb3 & Hs3). apply wp_in_map. pose proof HI3 as (ch & X & R & HS & Ht & Hm & Ho & Hw & Hz).
  eapply wp_mono; [eapply am_insert_ok; [exact Hm|exact Hp]|]. cbn beta. intros [] s' Hm'. cbn [ledger_step snd]. rewrite <- alter_ensure.
  eapply (Inv_objs F t3 _ s' _ R _ HI3 Hm' Hw). apply objs_insert; [exact Ho|]. destruct (Hk2 p b Hb) as (b' & Hb' & Hst').
  split; [done|]. exists p, b'. rewrite Hb3. assert (Es : stack_of t3 b' = stack_of t2 b') by (unfold stack_of; by rewrite Hs3).
  split; [|split; [done|cbn [o_stack]; congruence]].
  destruct (sh_bucket _ _ _ HS p b') as (h1 & h2 & _); [by rewrite Hb3|]. by apply packed_new.
Qed.
Lemma wp_RecordFree F t P ptr : Inv F t P -> 0 <= ptr < 2 ^ 64 ->
  wp (RecordFree ptr) (fun _ t' => Inv F t' (ledger_step (OFree ptr) P).2) t.
Proof.
  intros HI Hp. pose proof HI as (ch & X & R & HS & Ht & Hm & Ho & Hw & Hz). unfold RecordFree. apply wp_bind, wp_in_map.
  eapply wp_mono; [eapply am_remove_ok; [exact Hm|exact Hp]|]. cbn beta. intros r s' [-> Hm']. cbn [ledger_step snd].
  pose proof (Inv_objs F t P s' _ R _ HI Hm' Hw (objs_delete t X (l_objs P) ptr Ho)) as HI1.
  specialize (Ho ptr). destruct (l_objs P !! ptr) as [x|] eqn:E; inversion Ho as [v ? Hv|]; subst; [|apply wp_ret; rewrite (delete_id (l_objs P)) in HI1 by done; by destruct P].
  - destruct Hv as (Hn & p & b & Hpk & Hb & Hst). destruct (packed_get _ _ _ _ Hpk) as (-> & _ & _). rewrite Hn.
    apply wp_bind. eapply wp_mono; [apply (wp_update_bucket F _ _ p b (o_stack x) (add_free (o_bytes x)) (count_free (o_bytes x)) HI1 Hb Hst); apply wrap_free|].
    cbn beta. intros [] t2 [HI2 _]. eapply wp_mono; [apply (wp_update_total F t2 _ (add_free (o_bytes x)) (count_free (o_bytes x)) HI2); apply wrap_free|].
    cbn beta. by intros [] t3 [? _].
Qed.
Lemma wp_find F t P ptr (Q : option AllocValue -> table -> Prop) : Inv F t P -> 0 <= ptr < 2 ^ 64 ->
  (forall r, option_Forall2 (obj_ok t) r (l_objs P !! ptr) -> Q r t) -> wp (in_map (am_find ptr)) Q t.
Proof.
  intros (ch & X & R & HS & Ht & Hm & Ho & Hw & Hz) Hp HQ. apply wp_in_map. unfold wp. rewrite (am_find_ok _ X R) by done.
  replace (with_map (address_map_ t) t) with t by (by destruct t). by apply HQ.
Qed.
Lemma wp_store F t P ptr v x x0 : Inv F t P -> 0 <= ptr < 2 ^ 64 -> l_objs P !! ptr = Some x0 -> obj_ok t v x ->
  wp (in_map (am_store ptr v)) (fun _ t' => Inv F t' (mkLedger (l_stats P) (<[ptr := x]> (l_objs P)) (l_total P))) t.
Proof.
  intros HI Hp Hx0 Hv. pose proof HI as (ch & X & R & HS & Ht & Hm & Ho & Hw & Hz). apply wp_in_map.
  eapply wp_mono; [eapply am_store_ok; [exact Hm|exact Hp|]|].
  - specialize (Ho ptr). rewrite Hx0 in Ho. inversion Ho; subst. done.
  - cbn beta. intros [] s' Hm'. apply (Inv_objs F t P s' _ R _ HI Hm' Hw). by apply objs_insert.
Qed.

Lemma wp_table_op F t P o : Inv F t P -> 0 <= op_ptr o < 2 ^ 64 ->
  wp (run_op o) (fun r t' => r = (ledger_step o P).1 /\ Inv F t' (ledger_step o P).2) t.
Proof.
  intros HI Hp. destruct o as [ptr n st|ptr|ptr|ptr|ptr|ptr]; cbn [run_op op_ptr] in *; apply wp_bind.
  - eapply wp_mono; [by apply wp_RecordAlloc|]. cbn beta. intros [] t' HI'. by apply wp_ret.
  - eapply wp_mono; [by apply wp_RecordFree|]. cbn beta. intros [] t' HI'. by apply wp_ret.
  - unfold FindAlloc. apply wp_bind. apply (wp_find F t P ptr _ HI Hp). intros r Hr. apply wp_ret, wp_ret. cbn. split; [|done]. f_equal.
    destruct Hr as [v x (Hn & _)|]; csimpl; [by rewrite Hn|done].
  - unfold FindAllocDetails. apply wp_bind. apply (wp_find F t P ptr _ HI Hp). intros r Hr. cbn [ledger_step fst snd].
    destruct Hr as [v x (Hn & p & b & Hpk & Hb & Hst)|]; [|apply wp_ret, wp_ret; done]. apply wp_bind, wp_get. apply wp_bind.
    destruct (packed_get _ _ _ _ Hpk) as (-> & _ & _). eapply wp_lift; [by rewrite Hb|]. apply wp_bind. eapply wp_lift; [by rewrite Hst|]. apply wp_ret, wp_ret.
    split; [|done]. destruct HI as (ch & X & R & HS & _). destruct (sh_bucket _ _ _ HS p b Hb) as (_ & _ & st & s & h1 & _ & h3 & _).
    assert (st = o_stack x) as -> by congruence. cbn. by rewrite Hn, h3.
  - unfold MarkAsLive. apply wp_bind. apply (wp_find F t P ptr _ HI Hp). intros r Hr. cbn [ledger_step].
    destruct (l_objs P !! ptr) as [x|] eqn:E; inversion Hr as [v ? Hv|]; subst; [|by apply wp_ret, wp_ret].
    pose proof Hv as (Hn & p & b & Hpk & Hb & Hst). destruct (packed_get _ _ _ _ Hpk) as (_ & Hl & _). rewrite Hl. cbn [fst snd].
    destruct (o_live x) eqn:El; cbn [negb].
    + apply wp_ret, wp_ret. split; [done|]. rewrite insert_id; [by destruct P|]. rewrite E. f_equal. destruct x; cbn in *; congruence.
    + apply wp_bind. eapply wp_mono; [apply (wp_store F t P ptr (set_live true v) (mkObj (o_bytes x) (o_stack x) true (o_ignored x)) x HI Hp E)|].
      * split; [done|]. exists p, b. split; [|done]. cbn. by eapply packed_live.
      * cbn beta. intros [] t' HI'. by apply wp_ret, wp_ret.
  - unfold MarkAsIgnored. apply wp_bind. apply (wp_find F t P ptr _ HI Hp). intros r Hr. cbn [ledger_step fst snd].
    destruct (l_objs P !! ptr) as [x|] eqn:E; inversion Hr as [v ? Hv|]; subst; [|by apply wp_ret, wp_ret].
    pose proof Hv as (Hn & p & b & Hpk & Hb & Hst).
    eapply wp_mono; [apply (wp_store F t P ptr (set_ignore true v) (mkObj (o_bytes x) (o_stack x) (o_live x) true) x HI Hp E)|].
    + split; [done|]. exists p, b. split; [|done]. cbn. by eapply packed_ignore.
    + cbn beta. intros [] t' HI'. by apply wp_ret.
Qed.
Lemma wp_table_ops F l : forall t P, Inv F t P -> Forall (fun o => 0 <= op_ptr o < 2 ^ 64) l ->
  wp (run_ops l) (fun rs t' => rs = (ledger_run l P).1 /\ Inv F t' (ledger_run l P).2) t.
Proof.
  induction l as [|o l IH]; intros t P HI Hl; [by apply wp_ret|]. apply Forall_cons in Hl as [Hk Hl]. cbn [run_ops ledger_run].
  apply wp_bind. eapply wp_mono; [by apply (wp_table_op F t P o)|]. destruct (ledger_step o P) as [r P1]. cbn [fst snd]. intros r' t1 (-> & HI1).
  apply wp_bind. eapply wp_mono; [by apply (IH t1 P1)|]. destruct (ledger_run l P1) as [rs P2]. cbn [fst snd]. intros rs' t2 (-> & HI2). by apply wp_ret.
Qed.

(** ** Visiting all buckets *)

Lemma slot_of_range h : 0 <= slot_of h < kHashTableSize.
Proof. unfold slot_of. by apply Z.mod_pos_bound. Qed.
Lemma all_buckets_perm t S ch : Shape t S ch -> exists r, all_buckets t = Ret r /\ r ≡ₚ map_to_list (buckets t).
Proof.
  intros HS. unfold all_buckets.
  destruct (foldM_spec (fun acc i => l ← walk (size (buckets t)) t (default 0 (chains_ t !! i)); Ret (acc ++ l))
    (fun pre acc => acc.*1 = pre ≫= ch /\ Forall (fun x => buckets t !! x.1 = Some x.2) acc) (seqZ 0 kHashTableSize) []) as (r & Er & Hr & HF).
  - intros pre i post acc _ [Ha HF]. destruct (walk_chain t (size (buckets t)) _ (ch i) (sh_chain _ _ _ HS i) (chain_length t S ch i HS)) as (l & -> & Hl & HFl).
    obind. eexists. split; [reflexivity|]. rewrite fmap_app, Ha, Hl, bind_app. split; [cbn; by rewrite app_nil_r|]. by apply Forall_app.
  - done.
  - exists r. split; [exact Er|]. apply NoDup_Permutation; [|apply NoDup_map_to_list|].
    + apply (NoDup_fmap_1 fst). rewrite Hr. apply NoDup_bind; [|intros i _; apply (sh_nodup _ _ _ HS)|apply NoDup_seqZ].
      intros i j x _ _ Hi Hj. apply (sh_home _ _ _ HS) in Hi as (b & Hb & <-), Hj as (b' & Hb' & <-). congruence.
    + rewrite Forall_forall in HF. intros [p b]. rewrite elem_of_map_to_list. split; [by intros H%HF|]. intros Hb.
      assert (Hp : p ∈ r.*1).
      { rewrite Hr. apply list_elem_of_bind. exists (slot_of (hash b)). split; [apply (sh_home _ _ _ HS); by exists b|].
        apply elem_of_seqZ. pose proof (slot_of_range (hash b)). lia. }
      apply list_elem_of_fmap in Hp as ([p' b'] & E & Hin). cbn in E. subst p'. pose proof (HF _ Hin) as E. cbn in E. congruence.
Qed.

(** ** Construction and destruction *)

Lemma wp_dealloc_own F p l a : owns F (p :: l) (regions a) -> wp (dealloc p) (fun _ a' => owns F l (regions a')) a.
Proof.
  intros (h1 & h2 & h3). apply NoDup_cons in h1 as [Hp h1]. apply Forall_cons in h2 as [Hs h2]. eapply wp_mono; [by apply dealloc_ok|].
  cbn beta. intros [] a' E. rewrite E. split; [done|]. rewrite Forall_forall in h2. split.
  - rewrite Forall_forall. intros q Hq. rewrite lookup_delete_ne by (intros ->; done). by apply h2.
  - intros q. rewrite h3. destruct (decide (q = p)) as [->|Hne].
    + rewrite decide_True by left. rewrite decide_False by done. by rewrite lookup_delete_eq.
    + rewrite lookup_delete_ne by done. destruct (decide (q ∈ l)); [rewrite decide_True by (by right)|rewrite decide_False by (intros [?|?]%elem_of_cons; done)]; done.
Qed.
Lemma owns_nil F R : owns F [] R -> R = F.
Proof. intros (_ & _ & h). apply map_eq. intros q. symmetry. rewrite h. by rewrite decide_False by apply not_elem_of_nil. Qed.
Lemma wp_free_buckets F last (r : list (Z * Bucket)) : (forall p b, (p, b) ∈ r -> depth b = 0 -> stack b = 0) -> forall a,
  owns F (mjoin (cells <$> r) ++ [last]) (regions a) ->
  wp (forM_ r (fun '(p, b) => _ ← dealloc (stack b); dealloc p)) (fun _ a' => owns F [last] (regions a')) a.
Proof.
  induction r as [|[p b] r IH]; intros Hz a Hw; [by apply wp_ret|]. cbn [forM_]. apply wp_bind, wp_bind.
  assert (Hz' : forall q c, (q, c) ∈ r -> depth c = 0 -> stack c = 0) by (intros q c Hq; apply (Hz q c); by right).
  cbn [fmap list_fmap mjoin list_join] in Hw. unfold cells in Hw at 1. cbn [fst snd] in Hw. destruct (Z.eqb_spec (depth b) 0) as [Hd|Hd].
  - rewrite (Hz p b ltac:(left) Hd). unfold wp at 1. rewrite dealloc_null. eapply wp_mono; [apply wp_dealloc_own; exact Hw|]. cbn beta. intros [] a1 Hw1. by apply IH.
  - eapply wp_mono; [apply wp_dealloc_own; eapply owns_perm; [|exact Hw]; cbn [app]; apply Permutation_swap|]. cbn beta. intros [] a1 Hw1.
    eapply wp_mono; [apply wp_dealloc_own; exact Hw1|]. cbn beta. intros [] a2 Hw2. by apply IH.
Qed.
Lemma table_destroy_ok F t P : Inv F t P -> match destroy dealloc t with Ret a => regions a = F | Fault f => f = OOM end.
Proof.
  intros (ch & X & R & HS & Ht & Hm & Ho & Hw & Hz). unfold destroy. pose proof (am_destroy_ok _ X R Hm) as Hd. destruct (am_destroy (address_map_ t)) as [a0|]; obind; [|done].
  destruct (all_buckets_perm t _ ch HS) as (r & Er & Hr).
  assert (Hw0 : owns F (map_addr t :: mjoin (cells <$> r) ++ [bucket_table_ t]) (regions a0)).
  { rewrite Hd. eapply owns_perm; [|exact Hw]. unfold own, own_list. rewrite Hr. solve_Permutation. }
  pose proof (wp_dealloc_own F _ _ a0 Hw0) as H1. unfold wp in H1. destruct (dealloc (map_addr t) a0) as [[[] a1]|[]]; obind; try done.
  rewrite Er. obind. pose proof (wp_free_buckets F (bucket_table_ t) r) as H2. specialize (H2 ltac:(intros p b Hp; rewrite Hr in Hp; apply elem_of_map_to_list in Hp; by apply (Hz p b)) a1 H1).
  unfold wp in H2. destruct (forM_ _ _ a1) as [[[] a2]|[]]; obind; try done.
  pose proof (wp_dealloc_own F _ _ a2 H2) as H3. unfold wp in H3. destruct (dealloc (bucket_table_ t) a2) as [[[] a3]|[]]; obind; try done. by apply owns_nil.
Qed.
Lemma table_init_ok a : match init alloc a with Ret t => Inv (regions a) t empty_ledger | Fault f => f = OOM end.
Proof.
  unfold init. pose proof (alloc_ok (kHashTableSize * 8) a ltac:(done)) as H1. unfold wp in H1. destruct (alloc _ a) as [[tb a1]|[]]; obind; try done.
  destruct H1 as (_ & Hn1 & E1). pose proof (alloc_ok sizeof_AllocationMap a1 ltac:(done)) as H2. unfold wp in H2. destruct (alloc _ a1) as [[mp a2]|[]]; obind; try done.
  destruct H2 as (_ & Hn2 & E2). pose proof (am_init_ok a2) as H3. destruct (am_init a2) as [s|]; obind; [|done].
  exists (fun _ => []), ∅, (regions a2). split; [|split; [done|split; [done|split; [|split]]]].
  - constructor; try done.
    + intros i p. split; [by intros ?%elem_of_nil|]. by intros (b & ? & _).
    + intros i. constructor.
    + by intros st [? Hs].
  - intros k. rewrite !lookup_empty. constructor.
  - rewrite E2. eapply owns_perm; [apply Permutation_swap|]. unfold own, own_list. cbn. apply owns_cons; [|done]. rewrite E1. apply owns_cons; [|done].
    split; [constructor|]. split; [constructor|]. intros q. by rewrite decide_False by apply not_elem_of_nil.
  - cbn. intros p b. by rewrite lookup_empty.
Qed.

(** ** The profile that is written *)

Definition concat_lines (l : list string) : string := foldr String.append EmptyString l.
Lemma append_assoc (a b c : string) : ((a ++ b) ++ c)%string = (a ++ b ++ c)%string.
Proof. induction a as [|x a IH]; [done|]. exact (f_equal (String x) IH). Qed.
Lemma append_nil_r (a : string) : (a ++ EmptyString)%string = a.
Proof. induction a as [|x a IH]; [done|]. exact (f_equal (String x) IH). Qed.
Definition line (x : list Z * Stats) : string := UnparseBucket (wrap x.2) x.1 EmptyString.

(** The buckets in the order of the table are the stacks of the ledger. *)
Lemma buckets_ledger F t P : Inv F t P -> exists r ss, all_buckets t = Ret r /\ ss ≡ₚ map_to_list (l_stats P) /\
  Forall2 (fun x y => stack_of t x.2 = Some y.1 /\ stats x.2 = wrap y.2) r ss.
Proof.
  intros (ch & X & R & HS & Ht & _). destruct (all_buckets_perm t _ ch HS) as (r & Er & Hr).
  set (st_of := fun x : Z * Bucket => default [] (stack_of t x.2)).
  assert (Hin : forall p b, (p, b) ∈ r -> exists s, stack_of t b = Some (st_of (p, b)) /\ l_stats P !! st_of (p, b) = Some s /\ stats b = wrap s).
  { intros p b Hp. rewrite Hr in Hp. apply elem_of_map_to_list in Hp. destruct (sh_bucket _ _ _ HS p b Hp) as (_ & _ & st & s0 & h1 & _ & _ & h2 & h3).
    exists s0. unfold st_of. cbn. by rewrite h1. }
  exists r, ((fun x => (st_of x, default no_stats (l_stats P !! st_of x))) <$> r). split; [done|]. split.
  - apply NoDup_Permutation; [|apply NoDup_map_to_list|].
    + apply NoDup_fmap_2_strong; [|rewrite Hr; apply NoDup_map_to_list]. intros [p b] [p' b'] Hx Hy E. injection E as E _.
      destruct (Hin p b Hx) as (_ & E1 & _). destruct (Hin p' b' Hy) as (_ & E2 & _). rewrite Hr in Hx, Hy. apply elem_of_map_to_list in Hx, Hy.
      assert (p = p') as <- by (apply (sh_unique _ _ _ HS p p' b b' Hx Hy); congruence). congruence.
    + intros [st s0]. rewrite elem_of_map_to_list, list_elem_of_fmap. split.
      * intros ([p b] & [= -> ->] & Hx). destruct (Hin p b Hx) as (s1 & _ & -> & _). done.
      * intros Hs. destruct (sh_all _ _ _ HS st) as (p & b & Hb & Hst); [by rewrite Hs|]. exists (p, b). unfold st_of. cbn. rewrite Hst. cbn. rewrite Hs. split; [done|].
        rewrite Hr. by apply elem_of_map_to_list.
  - apply Forall2_fmap_r. apply Forall_Forall2_diag. rewrite Forall_forall. intros [p b] Hx. destruct (Hin p b Hx) as (s1 & h1 & h2 & h3). cbn. by rewrite h2.
Qed.
Lemma SaveProfile_ok F t P maps : Inv F t P -> exists lines,
  SaveProfile maps t = Ret (kProfileHeader ++ UnparseBucket (wrap (l_total P)) [] " heapprofile" ++ concat_lines lines ++ kProcSelfMapsHeader ++ maps)%string /\
  lines ≡ₚ line <$> map_to_list (l_stats P).
Proof.
  intros HI. destruct (buckets_ledger F t P HI) as (r & ss & Er & Hp & HF). destruct HI as (ch & X & R & HS & Ht & _).
  exists (line <$> ss). split; [|by rewrite Hp]. unfold SaveProfile. rewrite Er. obind. rewrite Ht. clear Er Hp.
  assert (H : forall acc, foldM (fun acc '(p, b) => st ← deref (stack_of t b); Ret (acc ++ UnparseBucket (stats b) st EmptyString)%string) r acc =
    Ret (acc ++ concat_lines (line <$> ss))%string).
  { induction HF as [|[p b] [st s0] r ss [h1 h2] HF IH]; intros acc; [cbn; by rewrite append_nil_r|]. cbn [foldM fmap list_fmap concat_lines foldr fst snd] in *.
    rewrite h1. obind. rewrite IH, h2. by rewrite append_assoc. }
  rewrite H. obind. done.
Qed.

Definition info_of (x : Obj) : AllocInfo := mkInfo (o_bytes x) (o_stack x) (Z.of_nat (length (o_stack x))) (o_live x) (o_ignored x).
Lemma IterateAllocs_ok F t P : Inv F t P -> exists infos, IterateAllocs t = Ret infos /\ infos ≡ₚ prod_map (fun k => k) info_of <$> map_to_list (l_objs P).
Proof.
  intros (ch & X & R & HS & Ht & Hm & Ho & _). unfold IterateAllocs. pose proof (am_iterate_ok _ X R Hm) as Hi. set (l := am_iterate (address_map_ t)) in *.
  set (dummy := mkObj 0 [] false false). set (g := fun kv : Z * AllocValue => (kv.1, info_of (default dummy (l_objs P !! kv.1)))).
  assert (Hin : forall k v, (k, v) ∈ l -> exists x, l_objs P !! k = Some x /\ obj_ok t v x).
  { intros k v Hk. rewrite Hi in Hk. apply elem_of_map_to_list in Hk. specialize (Ho k). rewrite Hk in Ho. inversion Ho as [? x Hx|]; subst. by exists x. }
  exists (g <$> l). split.
  - assert (H : forall l' acc, (forall x, x ∈ l' -> x ∈ l) -> foldM (fun acc '(ptr, v) => b ← deref (buckets t !! bucket v); st ← deref (stack_of t b);
      Ret (acc ++ [(ptr, mkInfo (bytes v) st (depth b) (live v) (ignore v))])) l' acc = Ret (acc ++ (g <$> l'))).
    { induction l' as [|[k v] l' IH]; intros acc Hl; [cbn; by rewrite app_nil_r|]. cbn [foldM fmap list_fmap].
      destruct (Hin k v) as (x & Hx & Hn & p & b & Hpk & Hb & Hst); [apply Hl; left|]. destruct (packed_get _ _ _ _ Hpk) as (-> & Hl1 & Hl2).
      rewrite Hb. obind. rewrite Hst. obind. rewrite IH by (intros y Hy; apply Hl; by right). rewrite <- app_assoc. do 3 f_equal. unfold g, info_of. cbn. rewrite Hx. cbn.
      destruct (sh_bucket _ _ _ HS p b Hb) as (_ & _ & st & s0 & h1 & _ & h3 & _). assert (st = o_stack x) as -> by congruence. by rewrite h3, Hn, Hl1, Hl2. }
    by rewrite H.
  - apply NoDup_Permutation.
    + apply (NoDup_fmap_1 fst). rewrite <- list_fmap_compose. rewrite (list_fmap_ext _ fst l) by done. rewrite Hi. apply NoDup_fst_map_to_list.
    + apply (NoDup_fmap_1 fst). rewrite <- list_fmap_compose. rewrite (list_fmap_ext _ fst (map_to_list (l_objs P))) by done. apply NoDup_fst_map_to_list.
    + intros [k i]. rewrite !list_elem_of_fmap. split.
      * intros ([k' v] & [= -> ->] & Hk). destruct (Hin k' v Hk) as (x & Hx & _). exists (k', x). cbn. rewrite Hx. split; [done|]. by apply elem_of_map_to_list.
      * intros ([k' x] & [= -> ->] & Hk). apply elem_of_map_to_list in Hk. specialize (Ho k'). rewrite Hk in Ho. inversion Ho as [v ? Hv E|]; subst.
        exists (k', v). unfold g. cbn. rewrite Hk. split; [done|]. rewrite Hi. by apply elem_of_map_to_list.
Qed.

(** ** The client's own memory *)

Lemma wp_client_alloc F t P n : Inv F t P -> 0 < n ->
  wp (in_map (am_alloc n)) (fun p t' => 0 < p /\ F !! p = None /\ Inv (<[p := n]> F) t' P) t.
Proof.
  intros HI Hn. pose proof HI as (ch & X & R & HS & Ht & Hm & Ho & Hw & Hz). apply wp_in_map. eapply wp_mono; [eapply am_alloc_ok; [exact Hm|exact Hn]|].
  cbn beta. intros p s' (Hp & _ & HRp & Hm'). destruct Hw as (h1 & h2 & h3). rewrite Forall_forall in h2. assert (Hpl : p ∉ own t) by (intros Hin; destruct (h2 p Hin); congruence).
  split; [done|]. split; [rewrite h3; by destruct (decide _)|]. exists ch, X, (<[p := n]> R). split; [by destruct HS; constructor|]. split; [done|]. split; [done|].
  split; [exact Ho|]. split; [|done]. change (own (with_map s' t)) with (own t). split; [done|]. split.
  - rewrite Forall_forall. intros q Hq. rewrite lookup_insert_ne by (intros ->; done). by apply h2.
  - intros q. destruct (decide (q = p)) as [->|Hq]; [rewrite !lookup_insert_eq; by rewrite decide_False|rewrite !lookup_insert_ne by done; apply h3].
Qed.
Lemma wp_client_dealloc F t P p : Inv F t P -> is_Some (F !! p) -> wp (in_map (am_dealloc p)) (fun _ t' => Inv (delete p F) t' P) t.
Proof.
  intros HI [n Hn]. pose proof HI as (ch & X & R & HS & Ht & Hm & Ho & (h1 & h2 & h3) & Hz). assert (Hpl : p ∉ own t) by (intros Hin; rewrite h3, decide_True in Hn; done).
  rewrite h3, decide_False in Hn by done. apply wp_in_map. eapply wp_mono; [eapply am_dealloc_ok; [exact Hm|by rewrite Hn]|]. cbn beta. intros [] s' Hm'.
  exists ch, X, (delete p R). split; [by destruct HS; constructor|]. split; [done|]. split; [done|]. split; [exact Ho|]. split; [|done].
  change (own (with_map s' t)) with (own t). rewrite Forall_forall in h2. split; [done|]. split.
  - rewrite Forall_forall. intros q Hq. rewrite lookup_delete_ne by (intros ->; done). by apply h2.
  - intros q. destruct (decide (q = p)) as [->|Hq]; [rewrite !lookup_delete_eq; by rewrite decide_False|rewrite !lookup_delete_ne by done; apply h3].
Qed.
Lemma s64_range x : - 2 ^ 63 <= s64 x < 2 ^ 63.
Proof. unfold s64. pose proof (Z.mod_pos_bound (x + 2 ^ 63) (2 ^ 64) ltac:(lia)). lia. Qed.
(** The counters of the total are 64-bit values. *)
Definition in_range (s : Stats) : Prop := - 2 ^ 63 <= alloc_size s < 2 ^ 63 /\ - 2 ^ 63 <= free_size s < 2 ^ 63.
Lemma Inv_total F t P : Inv F t P -> in_range (total_ t).
Proof. intros (ch & X & R & HS & -> & _). split; apply s64_range. Qed.

(** ** Theorems *)

(** The objects of one stack that are reported, weighed. *)
Definition weigh (w : AllocInfo -> Z) (st : list Z) (infos : list (Z * AllocInfo)) : Z :=
  foldr (fun x acc => (if decide (call_stack x.2 = st) then w x.2 else 0) + acc) 0 infos.
Lemma weigh_perm w st l l' : l ≡ₚ l' -> weigh w st l = weigh w st l'.
Proof. induction 1 as [|x l l' _ IH|x y l|l l' l'' _ IH1 _ IH2]; unfold weigh in *; cbn [foldr]; lia. Qed.
Lemma weigh_held w st (O : gmap Z Obj) : weigh w st (prod_map (fun k => k) info_of <$> map_to_list O) = held (fun x => w (info_of x)) st O.
Proof. unfold held. rewrite sum_map_list. induction (map_to_list O) as [|[k x] l IH]; [done|]. unfold weigh in *. cbn [fmap list_fmap foldr prod_map fst snd] in *. by rewrite IH. Qed.
(** The sum of a counter over the buckets. *)
Definition sum_buckets (f : Stats -> Z) (l : list (Z * Bucket)) : Z := foldr (fun x acc => f (stats x.2) + acc) 0 l.
Lemma sum_buckets_wrap (f : Stats -> Z) (r : list (Z * Bucket)) (ss : list (list Z * Stats)) t (S : gmap (list Z) Stats) : (forall s, f (wrap s) = s64 (f s)) -> ss ≡ₚ map_to_list S ->
  Forall2 (fun x y => stack_of t x.2 = Some y.1 /\ stats x.2 = wrap y.2) r ss -> s64 (sum_buckets f r) = s64 (sum_map f S).
Proof.
  intros Hf Hp HF. rewrite sum_map_list. assert (E : foldr (fun kx acc => f kx.2 + acc) 0 (map_to_list S) = foldr (fun kx acc => f kx.2 + acc) 0 ss).
  { clear HF. induction Hp as [|x l l' _ IH|x y l|l l' l'' _ IH1 _ IH2]; cbn; lia. }
  rewrite E. clear E Hp. induction HF as [|x y r ss [_ h] HF IH]; [done|]. cbn. rewrite h, Hf, s64_add.
  rewrite <- (Z.add_comm (sum_buckets f r)), <- s64_add. unfold sum_buckets in *. rewrite IH, s64_add. f_equal. lia.
Qed.

(** C19: the heap profile is a ledger. From the constructor on, any sequence of
    [RecordAlloc], [RecordFree], [FindAlloc], [FindAllocDetails], [MarkAsLive]
    and [MarkAsIgnored] answers what the ledger answers; the profile then has
    one line for every stack that ever allocated, with its counts modulo 2^64,
    and one for the total; and the destructor gives back exactly the
    memory that was taken. *)
Theorem heap_profile_refines (ops : list op) (a : A) (maps : string) : Forall (fun o => 0 <= op_ptr o < 2 ^ 64) ops ->
  let P := (ledger_run ops empty_ledger).2 in
  match init alloc a with
  | Ret t => wp (run_ops ops) (fun rs t' => rs = (ledger_run ops empty_ledger).1 /\
      (exists lines, SaveProfile maps t' = Ret (kProfileHeader ++ UnparseBucket (wrap (l_total P)) [] " heapprofile" ++ concat_lines lines ++ kProcSelfMapsHeader ++ maps)%string /\
         lines ≡ₚ line <$> map_to_list (l_stats P)) /\
      match destroy dealloc t' with Ret a' => regions a' = regions a | Fault f => f = OOM end) t
  | Fault f => f = OOM
  end.
Proof.
  intros Hops P. pose proof (table_init_ok a) as Hi. destruct (init alloc a) as [t|f]; [|done].
  eapply wp_mono; [by apply (wp_table_ops (regions a) ops t empty_ledger)|]. cbn beta. intros rs t' (-> & HI'). split; [done|].
  split; [by eapply SaveProfile_ok|by eapply table_destroy_ok].
Qed.

(** The numbers of a profile are right. When no address is recorded again
    before it is freed, the objects and bytes in use that a bucket shows are
    the number and total size of the objects recorded with its stack and not
    freed, every such object has a bucket, and each total is the sum over the
    buckets (all modulo 2^64). *)
Theorem heap_profile_inuse (ops : list op) (a : A) : Forall (fun o => 0 <= op_ptr o < 2 ^ 64) ops -> proper ops empty_ledger = true ->
  match init alloc a with
  | Ret t => wp (run_ops ops) (fun _ t' => exists infos l, IterateAllocs t' = Ret infos /\ all_buckets t' = Ret l /\
      (forall p b st, (p, b) ∈ l -> stack_of t' b = Some st ->
         s64 (allocs (stats b) - frees (stats b)) = s64 (weigh (fun _ => 1) st infos) /\
         s64 (alloc_size (stats b) - free_size (stats b)) = s64 (weigh object_size st infos)) /\
      (forall k i, (k, i) ∈ infos -> exists p b, (p, b) ∈ l /\ stack_of t' b = Some (call_stack i)) /\
      total_ t' = mkStats (s64 (sum_buckets allocs l)) (s64 (sum_buckets frees l)) (s64 (sum_buckets alloc_size l)) (s64 (sum_buckets free_size l))) t
  | Fault f => f = OOM
  end.
Proof.
  intros Hops Hpr. pose proof (table_init_ok a) as Hi. destruct (init alloc a) as [t|f]; [|done].
  eapply wp_mono; [by apply (wp_table_ops (regions a) ops t empty_ledger)|]. cbn beta. intros rs t' (_ & HI').
  pose proof (balanced_run ops empty_ledger balanced_empty Hpr) as HB. set (P := (ledger_run ops empty_ledger).2) in *.
  destruct (IterateAllocs_ok _ t' P HI') as (infos & Einf & Hinf). destruct (buckets_ledger _ t' P HI') as (l & ss & El & Hss & HF).
  exists infos, l. split; [done|]. split; [done|].
  assert (Hb : forall p b st, (p, b) ∈ l -> stack_of t' b = Some st -> stats b = wrap (stats_at P st)).
  { intros p b st Hp Hst. apply list_elem_of_lookup in Hp as [n Hn]. destruct (Forall2_lookup_l _ _ _ _ _ HF Hn) as ([st' s0] & Hn' & h1 & h2). cbn in *.
    assert (st' = st) as -> by congruence. apply list_elem_of_lookup_2 in Hn'. rewrite Hss in Hn'. apply elem_of_map_to_list in Hn'. unfold stats_at. by rewrite Hn'. }
  split; [|split].
  - intros p b st Hp Hst. rewrite (Hb p b st Hp Hst). rewrite !(weigh_perm _ _ _ _ Hinf), !weigh_held. cbn [wrap allocs frees alloc_size free_size]. rewrite !s64_sub.
    rewrite (ba_count P HB st), (ba_bytes P HB st). done.
  - intros k i Hk. rewrite Hinf in Hk. apply list_elem_of_fmap in Hk as ([k' x] & [= -> ->] & Hx). apply elem_of_map_to_list in Hx.
    destruct (ba_known P HB k' x Hx) as [s0 Hs0]. assert (Hy : (o_stack x, s0) ∈ ss) by (rewrite Hss; by apply elem_of_map_to_list).
    apply list_elem_of_lookup in Hy as [n Hn]. destruct (Forall2_lookup_r _ _ _ _ _ HF Hn) as ([p b] & Hn' & h1 & _). exists p, b. split; [by eapply list_elem_of_lookup_2|done].
  - rewrite !(sum_buckets_wrap _ l ss t' (l_stats P)) by done. destruct HI' as (ch & X & R & HS & Ht & _). rewrite Ht, (ba_total P HB). done.
Qed.
End Spec.
