(* ===== verification/HeapProfileMap.v ===== *)
(** * The heap profile table over the address map

    AddressMap.v satisfies the interface of HeapProfileTable.v, and the
    theorems of HeapProfileSpec.v hold of the two together; the instances
    below run them over a small allocator. *)
From Stdlib Require Import String.
From S2P Require Import Prelude AddressMap HeapProfileTable HeapProfileSpec.
Open Scope Z_scope.

Section Instance.
Context {V A : Type} (alloc : Z -> M A Z) (dealloc : Z -> M A unit) (sizeof_value : Z) (regions : A -> gmap Z Z).
Hypothesis alloc_ok : forall n a, 0 < n -> wp (alloc n) (fun p a' => 0 < p /\ regions a !! p = None /\ regions a' = <[p := n]> (regions a) /\
  forall q k, regions a !! q = Some k -> p + n <= q \/ q + k <= p) a.
(** Blocks are aligned, and a request for nothing returns null. *)
Hypothesis alloc_aligned : forall n a, 0 < n -> wp (alloc n) (fun p _ => p mod 4 = 0) a.
Hypothesis alloc_null : forall a, alloc 0 a = Ret (0, a).
Hypothesis dealloc_ok : forall p a, is_Some (regions a !! p) -> wp (dealloc p) (fun _ a' => regions a' = delete p (regions a)) a.
Hypothesis Hsize : 0 <= sizeof_value.
Abbreviation map := (AddressMap V A).

Definition with_heap (a : A) (m : map) : map := mkAddressMap (hashtable_ m) (entries m) (free_ m) (allocated_ m) a.
#[local] Instance address_map_ops : AddressMapOps V A := {|
  am := map;
  am_init := AM.init alloc;
  am_destroy m := '(_, m') ← AM.destroy dealloc m; Ret (heap m');
  am_find := AM.Find alloc;
  am_insert := AM.Insert alloc sizeof_value;
  am_store k v := r ← AM.FindMutable alloc k; match r with Some e => AM.assign e v | None => liftM (Fault Undefined) end;
  am_remove := AM.FindAndRemove alloc;
  am_iterate := AM.Iterate;
  am_inside := AM.FindInside;
  am_alloc n := fun m => '(p, a) ← alloc n (heap m); Ret (p, with_heap a m);
  am_dealloc p := fun m => '(_, a) ← dealloc p (heap m); Ret (tt, with_heap a m) |}.
Definition map_rep (m : map) (X : gmap Z V) (R : gmap Z Z) : Prop := rep regions m X /\ owned regions R m.

Lemma map_alloc_ok m X R n : map_rep m X R -> 0 < n ->
  wp (am_alloc (V := V) n) (fun p m' => 0 < p /\ p mod 4 = 0 /\ R !! p = None /\ map_rep m' X (<[p := n]> R)) m.
Proof.
  intros [HR Ho] Hn. unfold wp. cbn. pose proof (alloc_ok n (heap m) Hn) as H1. pose proof (alloc_aligned n (heap m) Hn) as H2. unfold wp in H1, H2.
  destruct (alloc n (heap m)) as [[p a]|[]]; obind; try done. destruct H1 as (Hp & Hnone & Hl & Hd). destruct Ho as [[Hnd Hal] Ho].
  assert (Hne : forall q, q ∈ allocated_ m -> q <> p) by (intros q Hq ->; destruct (Hal p Hq); congruence).
  assert (Hkeep : forall q, q ∈ allocated_ m -> regions a !! q = regions (heap m) !! q).
  { intros q Hq. rewrite Hl, lookup_insert_ne; [done|]. intros ->. by apply (Hne q). }
  split; [done|]. split; [done|]. split; [rewrite Ho; destruct (decide _) as [Hin|]; [done|done]|]. split.
  - destruct HR as [HT h1 h2 h3 h4 h5 [h6 h7] h8]. constructor; try done; cbn.
    + split; [done|]. intros q Hq. rewrite Hkeep by done. by apply h7.
    + intros e He. destruct (h8 e He) as (q & k & Hq & Hlq & Hr). exists q, k. rewrite Hkeep by done. done.
  - split; [split; [done|]; cbn; intros q Hq; rewrite Hkeep by done; by apply Hal|]. intros q. cbn. rewrite Hl. destruct (decide (q = p)) as [->|Hqp].
    + rewrite !lookup_insert_eq. rewrite decide_False; [done|]. intros Hin. by apply (Hne p).
    + rewrite !lookup_insert_ne by done. apply Ho.
Qed.
Lemma map_dealloc_ok m X R p : map_rep m X R -> is_Some (R !! p) -> wp (am_dealloc (V := V) p) (fun _ m' => map_rep m' X (delete p R)) m.
Proof.
  intros [HR [[Hnd Hal] Ho]] [n Hn]. assert (Hp : p ∉ allocated_ m) by (intros Hin; rewrite Ho, decide_True in Hn by done; done).
  rewrite Ho, decide_False in Hn by done. unfold wp. cbn. pose proof (dealloc_ok p (heap m) ltac:(by rewrite Hn)) as H1. unfold wp in H1.
  destruct (dealloc p (heap m)) as [[[] a]|[]]; obind; try done.
  assert (Hkeep : forall q, q ∈ allocated_ m -> regions a !! q = regions (heap m) !! q) by (intros q Hq; rewrite H1, lookup_delete_ne; [done|intros ->; done]).
  split.
  - destruct HR as [HT h1 h2 h3 h4 h5 [h6 h7] h8]. constructor; try done; cbn.
    + split; [done|]. intros q Hq. rewrite Hkeep by done. by apply h7.
    + intros e He. destruct (h8 e He) as (q & k & Hq & Hlq & Hr). exists q, k. rewrite Hkeep by done. done.
  - split; [split; [done|]; cbn; intros q Hq; rewrite Hkeep by done; by apply Hal|]. intros q. cbn. rewrite H1. destruct (decide (q = p)) as [->|Hqp].
    + rewrite !lookup_delete_eq. by rewrite decide_False.
    + rewrite !lookup_delete_ne by done. apply Ho.
Qed.
Lemma map_store_ok m X R k v : map_rep m X R -> 0 <= k < 2 ^ 64 -> is_Some (X !! k) -> wp (am_store k v) (fun _ m' => map_rep m' (<[k := v]> X) R) m.
Proof.
  intros [HR Ho] Hk [v0 HX]. cbn. apply wp_bind. unfold wp at 1. rewrite (FindMutable_find alloc regions m X) by done.
  pose proof (rep_find regions m X k HR Hk) as Hf. destruct (AM.find_key _ _ _) as [[i e]|] eqn:E; [|congruence]. cbn.
  destruct Hf as (v1 & _ & He). apply find_key_Some in E as [Hi _].
  eapply wp_mono; [apply (wp_moves (owns_more regions)); [|eapply (wp_assign regions m X e k v1 v HR); [by eapply list_elem_of_lookup_2|done]]|].
  - unfold AM.assign. apply moves_bind; [apply _|apply moves_get, _|]. intros m1. apply moves_bind; [apply _|apply moves_lift, _|]. intros x.
    apply moves_mod. intros m2. by apply owns_same.
  - cbn beta. intros [] m' [HR' Hw]. split; [done|]. by apply Hw.
Qed.

(** The laws hold of the address map. *)
#[local] Instance address_map_laws : AddressMapLaws V A regions map_rep.
Proof.
  constructor.
  - intros a. cbn. pose proof (init_ok (V := V) alloc regions alloc_ok a) as H. by destruct (AM.init alloc a).
  - intros m X R [HR Ho]. cbn. pose proof (wp_destroy dealloc regions dealloc_ok R m Ho) as H. unfold wp in H.
    by destruct (AM.destroy dealloc m) as [[[] m']|[]]; obind.
  - intros m X R k [HR Ho] Hk. by apply (Find_find alloc regions).
  - intros m X R k v [HR Ho] Hk. cbn. eapply wp_mono; [apply (wp_moves (owns_more regions)); [by apply Insert_owns|by apply (wp_Insert alloc sizeof_value regions alloc_ok Hsize m X)]|].
    cbn beta. intros [] m' [HR' Hw]. split; [done|]. by apply Hw.
  - by apply map_store_ok.
  - intros m X R k [HR Ho] Hk. cbn. eapply wp_mono; [apply (wp_moves (owns_more regions)); [by apply Remove_owns|by apply (wp_FindAndRemove alloc regions m X)]|].
    cbn beta. intros r m' [[-> HR'] Hw]. split; [done|]. split; [done|]. by apply Hw.
  - intros m X R [HR Ho]. by apply (Iterate_perm regions).
  - intros m X R size_func max_size k [HR Ho] Hk Hmax Hsz Hdisj. by apply (FindInside_ok regions size_func max_size k m X).
  - by apply map_alloc_ok.
  - intros m. cbn. rewrite alloc_null. obind. by destruct m.
  - by apply map_dealloc_ok.
Qed.
End Instance.

(** ** A small allocator *)

Module AlignedAlloc.
(** Null is never given out. *)
Definition regions (r : gmap Z Z) : gmap Z Z := delete 0 r.
Definition alloc (n : Z) : M (gmap Z Z) Z := fun r => if n =? 0 then Ret (0, r) else Ret (4 * ToyAlloc.top r, <[4 * ToyAlloc.top r := n]> r).
Definition dealloc (p : Z) : M (gmap Z Z) unit := fun r => Ret (tt, if p =? 0 then r else delete p r).
Lemma aligned_alloc_ok n r : 0 < n -> wp (alloc n) (fun p r' => 0 < p /\ regions r !! p = None /\ regions r' = <[p := n]> (regions r) /\
  forall q k, regions r !! q = Some k -> p + n <= q \/ q + k <= p) r.
Proof.
  intros Hn. unfold wp, alloc, regions. rewrite (proj2 (Z.eqb_neq n 0)) by lia. pose proof (ToyAlloc.top_pos r). split; [lia|]. split.
  - rewrite lookup_delete_ne by lia. destruct (r !! (4 * ToyAlloc.top r)) as [k|] eqn:E; [|done]. apply ToyAlloc.top_above in E. lia.
  - split; [by rewrite delete_insert_ne by lia|]. intros q k [_ Hq]%lookup_delete_Some. apply ToyAlloc.top_above in Hq. lia.
Qed.
Lemma aligned_alloc_short n r : 0 < n -> wp (alloc n) (fun p r' => 0 < p /\ regions r !! p = None /\ regions r' = <[p := n]> (regions r)) r.
Proof. intros Hn. eapply wp_mono; [by apply aligned_alloc_ok|]. cbn beta. by intros p r' (h1 & h2 & h3 & _). Qed.
Lemma aligned_alloc_mod n r : 0 < n -> wp (alloc n) (fun p _ => p mod 4 = 0) r.
Proof. intros Hn. unfold wp, alloc. rewrite (proj2 (Z.eqb_neq n 0)) by lia. rewrite Z.mul_comm. apply Z_mod_mult. Qed.
Lemma aligned_dealloc_ok p (r : gmap Z Z) : is_Some (regions r !! p) -> wp (dealloc p) (fun _ r' => regions r' = delete p (regions r)) r.
Proof.
  unfold wp, dealloc, regions. intros [x [Hp _]%lookup_delete_Some]. rewrite (proj2 (Z.eqb_neq p 0)) by congruence. by rewrite delete_delete.
Qed.
End AlignedAlloc.
Import AlignedAlloc.

Definition toy_map_ops : AddressMapOps AllocValue (gmap Z Z) := address_map_ops alloc dealloc 16.
Definition toy_map_rep := map_rep (V := AllocValue) regions.
Lemma toy_map_laws : @AddressMapLaws AllocValue (gmap Z Z) toy_map_ops regions toy_map_rep.
Proof. apply (address_map_laws alloc dealloc 16 regions aligned_alloc_ok aligned_alloc_mod); [done|exact aligned_dealloc_ok|done]. Qed.

(** Two stacks; one of three objects is freed. *)
Definition toy_history : list op :=
  [OAlloc 4096 16 [1; 2]; OAlloc 8192 100 [3]; OAlloc 12288 50 [1; 2]; OFree 4096; OLive 8192; OFind 8192; ODetails 12288].
Lemma heap_profile_refines_witness :
  match HPT.init (AddressMapOps0 := toy_map_ops) alloc ∅ with
  | Ret t => wp (run_ops toy_history) (fun rs t' => rs = [RNone; RNone; RNone; RNone; RBool true; RSize (Some 100); RDetails (Some (50, [1; 2], 2))] /\
      match HPT.destroy dealloc t' with Ret a' => regions a' = ∅ | Fault f => f = OOM end) t
  | Fault f => f = OOM
  end.
Proof.
  pose proof (heap_profile_refines (Ops := toy_map_ops) regions toy_map_rep (Laws := toy_map_laws) alloc dealloc aligned_alloc_short aligned_dealloc_ok
    (fun r => eq_refl) toy_history ∅ EmptyString) as H.
  specialize (H ltac:(repeat (constructor; [cbn [op_ptr]; lia|]); constructor)). cbv zeta in H.
  destruct (HPT.init alloc ∅) as [t|f]; [|exact H]. eapply wp_mono; [exact H|]. cbn beta. intros rs t' (h1 & _ & h3). split; [exact h1|exact h3].
Defined.
Lemma heap_profile_inuse_witness :
  match HPT.init (AddressMapOps0 := toy_map_ops) alloc ∅ with
  | Ret t => wp (run_ops toy_history) (fun _ t' => exists infos l, HPT.IterateAllocs t' = Ret infos /\ HPT.all_buckets t' = Ret l) t
  | Fault f => f = OOM
  end.
Proof.
  pose proof (heap_profile_inuse (Ops := toy_map_ops) regions toy_map_rep (Laws := toy_map_laws) alloc aligned_alloc_short toy_history ∅) as H.
  specialize (H ltac:(repeat (constructor; [cbn [op_ptr]; lia|]); constructor) ltac:(vm_compute; reflexivity)).
  destruct (HPT.init alloc ∅) as [t|f]; [|exact H]. eapply wp_mono; [exact H|]. cbn beta. intros rs t' (infos & l & h1 & h2 & _).
  exists infos, l. split; [exact h1|exact h2].
Defined.
