(* ===== verification/HeapProfiler.v ===== *)
(** * The heap profiler

    Models src/src/src/heap-profiler.cc: starting and stopping, the hooks that
    record allocations and frees in the table of HeapProfileTable.v, and the
    decision to write a profile after them. Every operation runs under
    [heap_lock] and is one step. The arena of LowLevelAlloc is the allocator
    of the table, with [new_arena] and [delete_arena]; opening a file, the time
    and /proc/self/maps are arguments. *)
From Stdlib Require Import String.
From stdpp Require Import strings.
From S2P Require Import Prelude HookList AddressMap HeapProfileTable HeapProfileSpec HeapProfileMap.
Open Scope Z_scope.

(** The flags of the profiler. *)
Record Flags := mkFlags { allocation_interval : Z; deallocation_interval : Z; inuse_interval : Z; time_interval : Z }.

Module HP.
Section Profiler.
Context {A : Type} `{Ops : !AddressMapOps AllocValue A}.
Context (alloc : Z -> M A Z) (dealloc : Z -> M A unit) (new_arena : A) (delete_arena : A -> bool).
Context (flags : Flags) (sizeof_FileWriter : Z) (maps : string) (can_open : string -> bool) (NewHookFn DeleteHookFn : Z).
Abbreviation table := (HPT.HeapProfileTable (A := A)).

Record Profiler := mkProfiler {
  is_on : bool;
  dumping : bool;
  (** address and contents *)
  filename_prefix : option (Z * string);
  dump_count : Z;
  last_dump_alloc : Z;
  last_dump_free : Z;
  high_water_mark : Z;
  last_dump_time : Z;
  heap_profile : option (Z * table);
  new_hooks : HookList;
  delete_hooks : HookList;
  (** the files written, with their contents *)
  files : list (string * string) }.
(** Static storage. *)
Definition start_state : Profiler := mkProfiler false false None 0 0 0 0 0 None HL.init HL.init [].

Definition with_table (t : table) (s : Profiler) : Profiler :=
  mkProfiler (is_on s) (dumping s) (filename_prefix s) (dump_count s) (last_dump_alloc s) (last_dump_free s) (high_water_mark s) (last_dump_time s)
    ((fun x => (x.1, t)) <$> heap_profile s) (new_hooks s) (delete_hooks s) (files s).
Definition with_dumps (n : Z) (f : list (string * string)) (s : Profiler) : Profiler :=
  mkProfiler (is_on s) (dumping s) (filename_prefix s) n (last_dump_alloc s) (last_dump_free s) (high_water_mark s) (last_dump_time s)
    (heap_profile s) (new_hooks s) (delete_hooks s) f.
Definition with_marks (al fr hw : Z) (s : Profiler) : Profiler :=
  mkProfiler (is_on s) (dumping s) (filename_prefix s) (dump_count s) al fr hw (last_dump_time s)
    (heap_profile s) (new_hooks s) (delete_hooks s) (files s).
Definition with_time (v : Z) (s : Profiler) : Profiler :=
  mkProfiler (is_on s) (dumping s) (filename_prefix s) (dump_count s) (last_dump_alloc s) (last_dump_free s) (high_water_mark s) v
    (heap_profile s) (new_hooks s) (delete_hooks s) (files s).
(** An operation on the table of a running profiler. *)
Definition on_table {B} (m : M table B) : M Profiler B := fun s =>
  x ← deref (heap_profile s); '(r, t) ← m x.2; Ret (r, with_table t s).

Definition sizeof_HeapProfileTable : Z := 104.
Definition snprintf (n : nat) (s : string) : string := String.substring 0 (n - 1) s.

(** [GetHeapProfile]: the text, without the copy. *)
Definition DoDumpHeapProfileLocked (s : Profiler) : outcome string :=
  if is_on s then x ← deref (heap_profile s); HPT.SaveProfile maps x.2 else Ret EmptyString.

Definition file_name (prefix : string) (n : Z) : string :=
  snprintf 1000 (prefix ++ "." ++ HPT.field 4 HPT.zero_char (HPT.dec n) ++ ".heap").
(** [DumpProfileLocked]; the reason only goes to the log. *)
Definition DumpProfileLocked : M Profiler unit :=
  s ← getS;
  match filename_prefix s with
  | None => mret tt
  | Some (_, prefix) =>
      let n := s32 (dump_count s + 1) in
      let name := file_name prefix n in
      _ ← modS (with_dumps n (files s));
      if negb (can_open name) then mret tt else
      writer ← on_table (HPT.in_map (am_alloc sizeof_FileWriter));
      s ← getS;
      text ← liftM (DoDumpHeapProfileLocked s);
      _ ← on_table (HPT.in_map (am_dealloc writer));
      modS (fun s => with_dumps (dump_count s) (files s ++ [(name, text)]) s)
  end.

(** The condition of [MaybeDumpProfileLocked], and whether it is the time. *)
Definition need_to_dump (now : Z) (total : Stats) (s : Profiler) : bool * bool :=
  let inuse_bytes := s64 (alloc_size total - free_size total) in
  if (allocation_interval flags >? 0) && (alloc_size total >=? s64 (last_dump_alloc s + allocation_interval flags)) then (true, false)
  else if (deallocation_interval flags >? 0) && (free_size total >=? s64 (last_dump_free s + deallocation_interval flags)) then (true, false)
  else if (inuse_interval flags >? 0) && (inuse_bytes >? s64 (high_water_mark s + inuse_interval flags)) then (true, false)
  else if (time_interval flags >? 0) && (s64 (now - last_dump_time s) >=? time_interval flags) then (true, true)
  else (false, false).
Definition MaybeDumpProfileLocked (now : Z) : M Profiler unit :=
  s ← getS;
  if dumping s then mret tt else
  x ← liftM (deref (heap_profile s));
  let total := HPT.total_ x.2 in
  let inuse_bytes := s64 (alloc_size total - free_size total) in
  let '(need, timed) := need_to_dump now total s in
  _ ← modS (fun s => if timed then with_time now s else s);
  if need then
    _ ← DumpProfileLocked;
    modS (fun s => with_marks (alloc_size total) (free_size total)
                     (if inuse_bytes >? high_water_mark s then inuse_bytes else high_water_mark s) s)
  else mret tt.

(** [stack] is the trace of the caller. *)
Definition NewHook (now ptr bytes : Z) (stack : list Z) : M Profiler unit :=
  if ptr =? 0 then mret tt else
  s ← getS;
  if is_on s then _ ← on_table (HPT.RecordAlloc ptr bytes stack); MaybeDumpProfileLocked now else mret tt.
Definition DeleteHook (now ptr : Z) : M Profiler unit :=
  if ptr =? 0 then mret tt else
  s ← getS;
  if is_on s then _ ← on_table (HPT.RecordFree ptr); MaybeDumpProfileLocked now else mret tt.

Definition HeapProfilerStart (prefix : string) : M Profiler unit :=
  s ← getS;
  if is_on s then mret tt else
  '(hp, a) ← liftM (alloc sizeof_HeapProfileTable new_arena);
  t ← liftM (HPT.init alloc a);
  let '(ok1, nh) := HL.run (HL.Add NewHookFn (new_hooks s)) (new_hooks s) in
  _ ← liftM (check ok1);
  let '(ok2, dh) := HL.run (HL.Add DeleteHookFn (delete_hooks s)) (delete_hooks s) in
  _ ← liftM (check ok2);
  _ ← modS (fun s => mkProfiler true (dumping s) (filename_prefix s) (dump_count s) 0 0 0 0 (Some (hp, t)) nh dh (files s));
  p ← on_table (HPT.in_map (am_alloc (Z.of_nat (String.length prefix) + 1)));
  modS (fun s => mkProfiler (is_on s) (dumping s) (Some (p, prefix)) (dump_count s) (last_dump_alloc s) (last_dump_free s) (high_water_mark s)
                   (last_dump_time s) (heap_profile s) (new_hooks s) (delete_hooks s) (files s)).
Definition IsHeapProfilerRunning (s : Profiler) : bool := is_on s.
Definition HeapProfilerStop : M Profiler unit :=
  s ← getS;
  if negb (is_on s) then mret tt else
  let '(ok1, nh) := HL.run (HL.Remove NewHookFn (new_hooks s)) (new_hooks s) in
  _ ← liftM (check ok1);
  let '(ok2, dh) := HL.run (HL.Remove DeleteHookFn (delete_hooks s)) (delete_hooks s) in
  _ ← liftM (check ok2);
  x ← liftM (deref (heap_profile s));
  a ← liftM (HPT.destroy dealloc x.2);
  '(_, a) ← liftM (dealloc x.1 a);
  y ← liftM (deref (filename_prefix s));
  '(_, a) ← liftM (dealloc y.1 a);
  _ ← liftM (check (delete_arena a));
  modS (fun s => mkProfiler false (dumping s) None (dump_count s) (last_dump_alloc s) (last_dump_free s) (high_water_mark s)
                   (last_dump_time s) None nh dh (files s)).
Definition HeapProfilerDump : M Profiler unit :=
  s ← getS; if is_on s && negb (dumping s) then DumpProfileLocked else mret tt.

(** A program: the calls in the order in which they get the lock. *)
Inductive call :=
  | CStart (prefix : string)
  | CStop
  | CNew (now ptr n : Z) (stack : list Z)
  | CDelete (now ptr : Z)
  | CDump.
Definition run_call (c : call) : M Profiler unit :=
  match c with
  | CStart prefix => HeapProfilerStart prefix
  | CStop => HeapProfilerStop
  | CNew now ptr n stack => NewHook now ptr n stack
  | CDelete now ptr => DeleteHook now ptr
  | CDump => HeapProfilerDump
  end.
Definition run_calls (l : list call) : M Profiler unit := forM_ l run_call.
End Profiler.
End HP.

(** ** The profiler never fails and its profiles are never stale *)
Section Spec.
Import HP.
Context {A : Type} `{Ops : !AddressMapOps AllocValue A} (regions : A -> gmap Z Z) (am_rep : am -> gmap Z AllocValue -> gmap Z Z -> Prop).
Context `{Laws : !AddressMapLaws AllocValue A regions am_rep}.
Context (alloc : Z -> M A Z) (dealloc : Z -> M A unit) (new_arena : A) (delete_arena : A -> bool).
Hypothesis alloc_ok : forall n a, 0 < n -> wp (alloc n) (fun p a' => 0 < p /\ regions a !! p = None /\ regions a' = <[p := n]> (regions a)) a.
Hypothesis dealloc_ok : forall p a, is_Some (regions a !! p) -> wp (dealloc p) (fun _ a' => regions a' = delete p (regions a)) a.
Hypothesis dealloc_null : forall a, dealloc 0 a = Ret (tt, a).
Hypothesis new_arena_empty : regions new_arena = ∅.
Hypothesis delete_arena_ok : forall a, regions a = ∅ -> delete_arena a = true.
Context (flags : Flags) (sizeof_FileWriter : Z) (maps : string) (can_open : string -> bool) (NewHookFn DeleteHookFn : Z).
Hypothesis Hwriter : 0 < sizeof_FileWriter.
Hypothesis Hhooks : NewHookFn <> 0 /\ DeleteHookFn <> 0.
Abbreviation table := (HPT.HeapProfileTable (A := A)).
Abbreviation state := (Profiler (A := A)).
Implicit Types s : state.

(** No more than an interval was allocated, freed or added to the high-water
    mark since the last dump; [T] is the table's total. *)
Definition fresh s (T : Stats) : Prop :=
  (0 < allocation_interval flags -> last_dump_alloc s + allocation_interval flags < 2 ^ 63 ->
     alloc_size T < last_dump_alloc s + allocation_interval flags) /\
  (0 < deallocation_interval flags -> last_dump_free s + deallocation_interval flags < 2 ^ 63 ->
     free_size T < last_dump_free s + deallocation_interval flags) /\
  (0 < inuse_interval flags -> high_water_mark s + inuse_interval flags < 2 ^ 63 ->
     s64 (alloc_size T - free_size T) <= high_water_mark s + inuse_interval flags).
Definition marks_ok s : Prop :=
  - 2 ^ 63 <= last_dump_alloc s < 2 ^ 63 /\ - 2 ^ 63 <= last_dump_free s < 2 ^ 63 /\ - 2 ^ 63 <= high_water_mark s < 2 ^ 63.
Definition installed (f : Z) : HookList := (HL.run (HL.Add f HL.init) HL.init).2.
(** What the arena holds besides the table's own memory. *)
Definition client (hp pa n : Z) : gmap Z Z := <[pa := n]> {[hp := sizeof_HeapProfileTable]}.
Definition running s (hp : Z) (t : table) : Prop := is_on s = true /\ dumping s = false /\ heap_profile s = Some (hp, t) /\
  new_hooks s = installed NewHookFn /\ delete_hooks s = installed DeleteHookFn /\ marks_ok s /\
  exists pa pre n P, filename_prefix s = Some (pa, pre) /\ hp <> pa /\ Inv am_rep (client hp pa n) t P.
Definition stopped s : Prop := is_on s = false /\ dumping s = false /\ heap_profile s = None /\ filename_prefix s = None /\
  new_hooks s = HL.init /\ delete_hooks s = HL.init.
Definition good s : Prop := stopped s \/ exists hp t, running s hp t /\ fresh s (HPT.total_ t).

Lemma wp_on_table {B} (m : M table B) (Q : B -> state -> Prop) s hp t : heap_profile s = Some (hp, t) ->
  wp m (fun r t' => Q r (with_table t' s)) t -> wp (on_table m) Q s.
Proof. intros Hh. unfold wp, on_table. rewrite Hh. obind. destruct (m (hp, t).2) as [[r t']|[]] eqn:E; cbn in E; rewrite E; done. Qed.

(** Writing a file changes the table's allocator and the number of dumps only. *)
Definition same_marks s s' : Prop := last_dump_alloc s' = last_dump_alloc s /\ last_dump_free s' = last_dump_free s /\
  high_water_mark s' = high_water_mark s /\ last_dump_time s' = last_dump_time s.
Lemma wp_Dump s hp t : running s hp t ->
  wp (DumpProfileLocked sizeof_FileWriter maps can_open) (fun _ s' => exists t', running s' hp t' /\ same_marks s s' /\ HPT.total_ t' = HPT.total_ t) s.
Proof.
  intros (h1 & h2 & h3 & h4 & h5 & h6 & pa & pre & n & P & h7 & h8 & HI). unfold DumpProfileLocked. apply wp_bind, wp_get. rewrite h7. cbv zeta.
  apply wp_bind, wp_mod. assert (Htot : HPT.total_ t = wrap (l_total P)) by (by destruct HI as (? & ? & ? & _ & ? & _)).
  destruct (can_open _); cbn [negb].
  - apply wp_bind. eapply wp_on_table; [exact h3|]. eapply wp_mono; [by apply (wp_client_alloc regions am_rep _ t P sizeof_FileWriter HI)|].
    cbn beta. intros w t1 (Hw & HFw & HI1). apply wp_bind, wp_get. apply wp_bind. cbn [with_table with_dumps heap_profile].
    destruct (SaveProfile_ok am_rep _ t1 P maps HI1) as (lines & Esave & _).
    eapply wp_lift; [unfold DoDumpHeapProfileLocked; cbn; rewrite h1, h3; cbn; exact Esave|].
    apply wp_bind. eapply wp_on_table; [cbn; rewrite h3; reflexivity|]. eapply wp_mono; [apply (wp_client_dealloc regions am_rep _ t1 P w HI1); by rewrite lookup_insert_eq|].
    cbn beta. intros [] t2 HI2. apply wp_mod. rewrite delete_insert_id in HI2 by done. exists t2.
    split; [|split; [done|by destruct HI2 as (? & ? & ? & _ & -> & _)]]. split; [done|]. split; [done|]. split; [cbn; by rewrite h3|]. do 3 (split; [done|]). exists pa, pre, n, P. done.
  - apply wp_ret. exists t. split; [|done]. split; [done|]. split; [done|]. split; [done|]. do 3 (split; [done|]). exists pa, pre, n, P. done.
Qed.

Lemma running_marks s hp t al fr hw : running s hp t -> - 2 ^ 63 <= al < 2 ^ 63 -> - 2 ^ 63 <= fr < 2 ^ 63 -> - 2 ^ 63 <= hw < 2 ^ 63 ->
  running (with_marks al fr hw s) hp t.
Proof. intros (h1 & h2 & h3 & h4 & h5 & _ & h6) ? ? ?. split; [done|]. do 4 (split; [done|]). by split. Qed.
(** The decision, when nothing overflows, is the one of the flags' texts. *)
Lemma not_needed_fresh now s T : marks_ok s -> (need_to_dump flags now T s).1 = false -> fresh s T.
Proof.
  intros (Ha & Hf & Hh). unfold need_to_dump. cbv zeta. destruct (_ && _) eqn:E1; [done|]. destruct (_ && _) eqn:E2 in |- *; [done|].
  destruct (_ && _) eqn:E3 in |- *; [done|]. intros _. unfold fresh.
  split; [|split]; intros H0 H1.
  - rewrite s64_small in E1 by lia. lia.
  - rewrite s64_small in E2 by lia. lia.
  - rewrite (s64_small (high_water_mark s + inuse_interval flags)) in E3 by lia. lia.
Qed.
Lemma wp_MaybeDump now s hp t : running s hp t -> in_range (HPT.total_ t) ->
  wp (MaybeDumpProfileLocked flags sizeof_FileWriter maps can_open now) (fun _ s' => good s') s.
Proof.
  intros HR [Ra Rf]. pose proof HR as (h1 & h2 & h3 & h4 & h5 & h6 & Hx). unfold MaybeDumpProfileLocked. apply wp_bind, wp_get. rewrite h2.
  apply wp_bind. eapply wp_lift; [by rewrite h3|]. cbn [snd]. cbv zeta. pose proof (not_needed_fresh now s (HPT.total_ t) h6) as Hnn.
  destruct (need_to_dump flags now (HPT.total_ t) s) as [need timed]. cbn [fst] in Hnn. apply wp_bind, wp_mod.
  assert (HR' : running (if timed then with_time now s else s) hp t) by (destruct timed; [|done]; split; done).
  destruct need.
  - apply wp_bind. eapply wp_mono; [by apply (wp_Dump _ hp t)|]. cbn beta. intros [] s1 (t1 & HR1 & Hm1 & Et). apply wp_mod.
    right. exists hp, t1. pose proof (s64_range (alloc_size (HPT.total_ t) - free_size (HPT.total_ t))) as Hr.
    pose proof HR1 as (_ & _ & _ & _ & _ & (_ & _ & Hhw) & _). split.
    + apply running_marks; try done. by destruct (_ >? _).
    + rewrite Et. unfold fresh. cbn. split; [lia|]. split; [lia|]. intros Hi _. destruct (Z.gtb_spec (s64 (alloc_size (HPT.total_ t) - free_size (HPT.total_ t))) (high_water_mark s1)); lia.
  - apply wp_ret. right. exists hp, t. split; [done|]. specialize (Hnn eq_refl). by destruct timed.
Qed.

(** A change of the table that keeps its invariant. *)
Lemma wp_record (m : M table unit) now s hp t : running s hp t ->
  (forall F P, Inv am_rep F t P -> wp m (fun _ t' => exists P', Inv am_rep F t' P') t) ->
  wp (_ ← on_table m; MaybeDumpProfileLocked flags sizeof_FileWriter maps can_open now) (fun _ s' => good s') s.
Proof.
  intros HR Hm. pose proof HR as (h1 & h2 & h3 & h4 & h5 & h6 & pa & pre & n & P & h7 & h8 & HI). apply wp_bind. eapply wp_on_table; [exact h3|].
  eapply wp_mono; [by apply (Hm _ P HI)|]. cbn beta. intros [] t' (P' & HI'). apply (wp_MaybeDump now _ hp t'); [|by eapply Inv_total].
  split; [done|]. split; [done|]. split; [cbn; by rewrite h3|]. do 3 (split; [done|]). exists pa, pre, n, P'. done.
Qed.

Lemma add_hook f : f <> 0 -> HL.run (HL.Add f HL.init) HL.init = (true, installed f).
Proof. intros Hf. unfold installed, HL.Add. by rewrite (proj2 (Z.eqb_neq f 0) Hf). Qed.
Lemma remove_hook f : f <> 0 -> HL.run (HL.Remove f (installed f)) (installed f) = (true, HL.init).
Proof.
  intros Hf. assert (E : installed f = mkHooks 1 (f :: replicate 7 0)) by (unfold installed, HL.Add; rewrite (proj2 (Z.eqb_neq f 0) Hf); reflexivity).
  rewrite E. unfold HL.Remove. rewrite (proj2 (Z.eqb_neq f 0) Hf). cbn [priv_end priv_data take HL.first]. rewrite Z.eqb_refl. done.
Qed.
Lemma wp_Start s prefix : good s -> wp (HeapProfilerStart alloc new_arena NewHookFn DeleteHookFn prefix) (fun _ s' => good s') s.
Proof.
  intros HG. unfold HeapProfilerStart. apply wp_bind, wp_get. destruct HG as [(h1 & h2 & h3 & h4 & h5 & h6)|(hp & t & HR & HF)].
  2:{ pose proof HR as (h1 & _). rewrite h1. apply wp_ret. right. by exists hp, t. }
  rewrite h1. apply wp_bind. pose proof (alloc_ok sizeof_HeapProfileTable new_arena ltac:(done)) as H1. unfold wp in H1. unfold wp at 1, liftM at 1.
  destruct (alloc _ new_arena) as [[hp a]|[]]; try done. destruct H1 as (Hp & _ & Ea). rewrite new_arena_empty in Ea. cbv beta iota.
  apply wp_bind. pose proof (table_init_ok regions am_rep alloc alloc_ok a) as Hi. unfold wp at 1, liftM at 1. destruct (HPT.init alloc a) as [t|f]; [|by rewrite Hi].
  rewrite h5, h6, !add_hook by apply Hhooks. cbn [check]. apply wp_bind. eapply wp_lift; [done|]. apply wp_bind. eapply wp_lift; [done|]. apply wp_bind, wp_mod.
  apply wp_bind. eapply wp_on_table; [reflexivity|]. rewrite Ea in Hi. eapply wp_mono; [apply (wp_client_alloc regions am_rep _ t empty_ledger _ Hi); lia|].
  cbn beta. intros p t' (Hp' & HFp & HI'). apply wp_mod. right. exists hp, t'.
  assert (Hz : HPT.total_ t' = no_stats) by (by destruct HI' as (? & ? & ? & _ & ? & _)). split.
  - split; [done|]. split; [done|]. split; [done|]. split; [done|]. split; [done|]. split; [done|]. eexists p, prefix, _, empty_ledger. split; [done|]. split; [|exact HI'].
    intros ->. by rewrite lookup_insert_eq in HFp.
  - rewrite Hz. unfold fresh. cbn [last_dump_alloc last_dump_free high_water_mark alloc_size free_size no_stats with_table]. change (s64 (0 - 0)) with 0. lia.
Qed.
Lemma wp_Stop s : good s -> wp (HeapProfilerStop dealloc delete_arena NewHookFn DeleteHookFn) (fun _ s' => stopped s') s.
Proof.
  intros HG. unfold HeapProfilerStop. apply wp_bind, wp_get. destruct HG as [HS|(hp & t & (h1 & h2 & h3 & h4 & h5 & h6 & pa & pre & n & P & h7 & h8 & HI) & _)].
  { pose proof HS as (h1 & _). rewrite h1. by apply wp_ret. }
  rewrite h1, h4, h5. cbn [negb]. rewrite !remove_hook by apply Hhooks. cbn [check]. apply wp_bind. eapply wp_lift; [done|]. apply wp_bind. eapply wp_lift; [done|].
  apply wp_bind. eapply wp_lift; [by rewrite h3|]. cbn [fst snd]. pose proof (table_destroy_ok regions am_rep dealloc dealloc_ok dealloc_null _ t P HI) as Hd.
  apply wp_bind. unfold wp at 1, liftM at 1. destruct (HPT.destroy dealloc t) as [a|f]; [|by rewrite Hd].
  apply wp_bind. unfold wp at 1, liftM at 1. pose proof (dealloc_ok hp a) as H1. unfold wp in H1. rewrite Hd in H1. unfold client in H1.
  rewrite lookup_insert_ne, lookup_singleton_eq in H1 by done. specialize (H1 ltac:(done)). destruct (dealloc hp a) as [[[] a1]|[]]; try done. cbv beta iota.
  rewrite delete_insert_ne, delete_singleton_eq in H1 by done.
  apply wp_bind. eapply wp_lift; [by rewrite h7|]. cbn [fst]. apply wp_bind. unfold wp at 1, liftM at 1. pose proof (dealloc_ok pa a1) as H2. unfold wp in H2. rewrite H1 in H2.
  rewrite lookup_insert_eq in H2. specialize (H2 ltac:(done)). destruct (dealloc pa a1) as [[[] a2]|[]]; try done. cbv beta iota.
  rewrite delete_insert_id in H2 by done. apply wp_bind. eapply wp_lift; [by rewrite delete_arena_ok|]. apply wp_mod. done.
Qed.
Abbreviation step := (run_call alloc dealloc new_arena delete_arena flags sizeof_FileWriter maps can_open NewHookFn DeleteHookFn).
Abbreviation steps := (run_calls alloc dealloc new_arena delete_arena flags sizeof_FileWriter maps can_open NewHookFn DeleteHookFn).
Definition valid_call (c : call) : Prop := match c with CNew _ ptr _ _ | CDelete _ ptr => 0 <= ptr < 2 ^ 64 | _ => True end.
Lemma wp_call s c : good s -> valid_call c -> wp (step c) (fun _ s' => good s') s.
Proof.
  intros HG Hv. destruct c as [prefix| |now ptr n st|now ptr|]; cbn [run_call].
  - by apply wp_Start.
  - eapply wp_mono; [by apply wp_Stop|]. cbn beta. intros [] s' HS. by left.
  - unfold NewHook. destruct (ptr =? 0); [by apply wp_ret|]. apply wp_bind, wp_get. destruct HG as [HS|(hp & t & HR & HF)].
    + pose proof HS as (-> & _). apply wp_ret. by left.
    + pose proof HR as (h1 & _). rewrite h1. apply (wp_record _ now s hp t HR). intros F P HI.
      eapply wp_mono; [by apply (wp_RecordAlloc regions am_rep F t P)|]. cbn beta. intros [] t' HI'. by eexists.
  - unfold DeleteHook. destruct (ptr =? 0); [by apply wp_ret|]. apply wp_bind, wp_get. destruct HG as [HS|(hp & t & HR & HF)].
    + pose proof HS as (-> & _). apply wp_ret. by left.
    + pose proof HR as (h1 & _). rewrite h1. apply (wp_record _ now s hp t HR). intros F P HI.
      eapply wp_mono; [by apply (wp_RecordFree regions am_rep F t P)|]. cbn beta. intros [] t' HI'. by eexists.
  - unfold HeapProfilerDump. apply wp_bind, wp_get. destruct HG as [HS|(hp & t & HR & HF)].
    + pose proof HS as (-> & _). apply wp_ret. by left.
    + pose proof HR as (h1 & h2 & _). rewrite h1, h2. cbn [andb negb]. eapply wp_mono; [by apply (wp_Dump s hp t)|]. cbn beta.
      intros [] s' (t' & HR' & (e1 & e2 & e3 & _) & Et). right. exists hp, t'. split; [done|]. rewrite Et. unfold fresh. rewrite e1, e2, e3. exact HF.
Qed.
Lemma wp_calls l : Forall valid_call l -> forall s, good s -> wp (steps l) (fun _ s' => good s') s.
Proof.
  induction 1 as [|c l Hc _ IH]; intros s HG; [by apply wp_ret|]. unfold run_calls. cbn [forM_]. apply wp_bind. eapply wp_mono; [by apply wp_call|].
  cbn beta. intros [] s' HG'. by apply IH.
Qed.
Lemma good_start : good start_state.
Proof. left. done. Qed.

(** C22: the heap profiler as a state machine. In any order of starts, stops,
    dumps, allocations and frees no check fails and nothing is dereferenced
    that is not there: the hooks are installed exactly while it runs, stopping
    it frees all its memory, and after every call the profiles are fresh: less
    than the allocation (deallocation) interval was allocated (freed) since
    the marks of the last dump, and the bytes in use exceed the high-water mark by
    no more than the in-use interval. *)
Theorem heap_profiler_runs (l : list call) : Forall valid_call l ->
  wp (steps l) (fun _ s => dumping s = false /\
    new_hooks s = (if is_on s then installed NewHookFn else HL.init) /\ delete_hooks s = (if is_on s then installed DeleteHookFn else HL.init) /\
    match heap_profile s with Some (_, t) => is_on s = true /\ fresh s (HPT.total_ t) | None => is_on s = false end /\
    wp (HeapProfilerStop dealloc delete_arena NewHookFn DeleteHookFn) (fun _ s' => stopped s') s) start_state.
Proof.
  intros Hl. eapply wp_mono; [by apply (wp_calls l Hl start_state good_start)|]. cbn beta. intros [] s HG.
  pose proof (wp_Stop s HG) as Hstop. destruct HG as [(-> & -> & -> & _ & -> & ->)|(hp & t & (-> & -> & -> & -> & -> & _) & HF)]; done.
Qed.

(** The interval of the time flag is not counted from the last dump: a dump made
    for another reason leaves the time of the last dump as it was. *)
Theorem time_of_last_dump_not_kept now s hp t : running s hp t -> need_to_dump flags now (HPT.total_ t) s = (true, false) ->
  wp (MaybeDumpProfileLocked flags sizeof_FileWriter maps can_open now) (fun _ s' => last_dump_time s' = last_dump_time s) s.
Proof.
  intros HR Hn. pose proof HR as (h1 & h2 & h3 & _). unfold MaybeDumpProfileLocked. apply wp_bind, wp_get. rewrite h2.
  apply wp_bind. eapply wp_lift; [by rewrite h3|]. cbn [snd]. cbv zeta. rewrite Hn. apply wp_bind, wp_mod.
  apply wp_bind. eapply wp_mono; [by apply (wp_Dump s hp t)|]. cbn beta. intros [] s1 (t1 & _ & (_ & _ & _ & Et) & _). apply wp_mod. exact Et.
Qed.
End Spec.

(** ** An instance *)
Definition toy_flags : Flags := mkFlags 100 0 50 0.
Definition toy_calls : list HP.call := [HP.CNew 1 64 8 [1]; HP.CStart "prof"; HP.CNew 2 128 200 [1; 2]; HP.CDelete 3 128; HP.CStop; HP.CStart "prof"; HP.CDump].
Definition toy_delete_arena (a : gmap Z Z) : bool := bool_decide (AlignedAlloc.regions a = ∅).
Lemma toy_delete_arena_ok a : AlignedAlloc.regions a = ∅ -> toy_delete_arena a = true.
Proof. intros H. by apply bool_decide_eq_true_2. Qed.
Lemma heap_profiler_runs_witness :
  wp (HP.run_calls (Ops := toy_map_ops) AlignedAlloc.alloc AlignedAlloc.dealloc ∅ toy_delete_arena toy_flags 1048608 EmptyString (fun _ => true) 7 9 toy_calls)
    (fun _ s => HP.dumping s = false) HP.start_state.
Proof.
  eapply wp_mono; [apply (heap_profiler_runs (Ops := toy_map_ops) AlignedAlloc.regions toy_map_rep (Laws := toy_map_laws) AlignedAlloc.alloc AlignedAlloc.dealloc ∅ toy_delete_arena
    AlignedAlloc.aligned_alloc_short AlignedAlloc.aligned_dealloc_ok (fun r => eq_refl) (delete_empty 0) toy_delete_arena_ok toy_flags 1048608 EmptyString (fun _ => true) 7 9)|].
  - lia.
  - lia.
  - repeat (constructor; [cbn [valid_call]; first [exact I|lia]|]). constructor.
  - cbn beta. intros [] s (H & _). exact H.
Defined.
