(* ===== verification/GenericWriter.v ===== *)
(** * Writers of text

    Models src/src/src/base/generic_writer.h and generic_writer.cc: a buffer
    that is printed into, and the sinks behind it: a write function, a
    [std::string] that grows, and a list of chunks that is turned into one
    string at the end. Bytes are numbers. A sink owns the memory of the
    buffer; a pointer into the buffer is an offset into that memory. The
    text a format string produces is an argument of [AppendF]. Debug checks
    are compiled out. *)
From S2P Require Import Prelude.

(** ** The writer over a sink *)

(** [RecycleBuffer begin end want_at_least]; [poke] stores bytes through a
    pointer into the current buffer, which must be inside of it. *)
Class Sink (S : Type) := {
  RecycleBuffer : Z -> Z -> Z -> S -> outcome (Z * Z * S);
  poke : Z -> list Z -> S -> outcome S }.

Record Writer (S : Type) := mkWriter { buf_ : Z; buf_fill_ : Z; buf_end_ : Z; sink : S }.
Arguments mkWriter {S} buf_ buf_fill_ buf_end_ sink.
Arguments buf_ {S} w : rename.
Arguments buf_fill_ {S} w : rename.
Arguments buf_end_ {S} w : rename.
Arguments sink {S} w : rename.

Abbreviation len l := (Z.of_nat (length l)).
Definition INT_MAX : Z := 2 ^ 31 - 1.

Module GW.
Section GenericWriter.
Context {S : Type} `{!Sink S}.

Definition new (s : S) : Writer S := mkWriter 0 0 0 s.

(** [vsnprintf(p, size, ...)] for the text the format produces. *)
Definition vsnprintf (p size : Z) (text : list Z) (s : S) : outcome (Z * S) :=
  if size =? 0 then Ret (len text, s) else
  s ← poke p (take (Z.to_nat (size - 1)) text ++ [0]) s; Ret (len text, s).

Definition AppendF (text : list Z) (w : Writer S) : outcome (Writer S) :=
  let space_left := s32 (buf_end_ w - buf_fill_ w) in
  '(written, s) ← vsnprintf (buf_fill_ w) (u64 space_left) text (sink w);
  if written >=? space_left then
    '(b, e, s) ← RecycleBuffer (buf_ w) (buf_fill_ w) (s32 (written + 1)) s;
    let space_left := s32 (e - b) in
    '(written, s) ← vsnprintf b (u64 space_left) text s;
    let written := Z.min written (space_left - 1) in
    Ret (mkWriter b (b + written) e s)
  else Ret (mkWriter (buf_ w) (buf_fill_ w + written) (buf_end_ w) s).

(** One round of the loop of [AppendMem] with the bytes that are left. *)
Definition mem_round (st : list Z * Writer S) : outcome (list Z * Writer S + Writer S) :=
  let '(str, w) := st in
  let amount := Z.min (Z.min INT_MAX (len str)) (s32 (buf_end_ w - buf_fill_ w)) in
  s ← (if negb (amount =? 0) then poke (buf_fill_ w) (take (Z.to_nat amount) str) (sink w) else Ret (sink w));
  let str := drop (Z.to_nat amount) str in
  let fill := buf_fill_ w + amount in
  if len str =? 0 then Ret (inr (mkWriter (buf_ w) fill (buf_end_ w) s)) else
  '(b, e, s) ← RecycleBuffer (buf_ w) fill 1 s;
  Ret (inl (str, mkWriter b b e s)).
Definition AppendMem (str : list Z) (w : Writer S) : outcome (Writer S) :=
  loop (Datatypes.S (Datatypes.S (length str))) mem_round (str, w).
(** [AppendStr] of a string without its terminator. *)
Definition AppendStr (str : list Z) (w : Writer S) : outcome (Writer S) := AppendMem str w.

Definition FinalRecycle (w : Writer S) : outcome S :=
  '(_, _, s) ← RecycleBuffer (buf_ w) (buf_fill_ w) 0 (sink w); Ret s.

(** A sequence of calls. *)
Inductive append := F (text : list Z) | Mem (str : list Z).
Definition append1 (w : Writer S) (a : append) : outcome (Writer S) :=
  match a with F t => AppendF t w | Mem t => AppendMem t w end.
Definition appends (l : list append) (w : Writer S) : outcome (Writer S) := foldM append1 l w.
End GenericWriter.
End GW.

(** Bytes stored into an array at an offset. *)
Definition put (p : Z) (bs a : list Z) : outcome (list Z) :=
  if (0 <=? p) && (p + len bs <=? len a) then Ret (take (Z.to_nat p) a ++ bs ++ drop (Z.to_nat (p + len bs)) a)
  else Fault Undefined.

(** ** [WriteFnWriter]: a write function behind a fixed buffer *)

(** The calls of [write_fn_] so far, the first one first. *)
Record FnSink := mkFnSink { static_buffer_ : list Z; writes : list (list Z) }.
Module FnWriter.
Section FnWriter.
Context (kSize : Z).
Definition init (garbage : list Z) : FnSink := mkFnSink garbage [].
Definition recycle (buf_begin buf_end want_at_least : Z) (s : FnSink) : outcome (Z * Z * FnSink) :=
  let actually_filled := s32 (buf_end - buf_begin) in
  let s := if actually_filled >? 0
           then mkFnSink (static_buffer_ s) (writes s ++ [take (Z.to_nat actually_filled) (static_buffer_ s)]) else s in
  Ret (0, kSize, s).
Definition sink : Sink FnSink := {|
  RecycleBuffer := recycle;
  poke p bs s := a ← put p bs (static_buffer_ s); Ret (mkFnSink a (writes s)) |}.
(** [~WriteFnWriter]. *)
Definition destroy (w : Writer FnSink) : outcome FnSink := GW.FinalRecycle (Sink0 := sink) w.
End FnWriter.
End FnWriter.

(** ** [StringGenericWriter]: a string that grows *)
Record StringSink := mkStringSink { s_ : list Z; unused_size_ : Z }.
Module StringWriter.
Definition init (s : list Z) : StringSink := mkStringSink s 0.
(** [resize] fills with zero bytes. *)
Definition recycle (buf_begin buf_end want_at_least : Z) (s : StringSink) : outcome (Z * Z * StringSink) :=
  let unused := s32 (unused_size_ s - (buf_end - buf_begin)) in
  let deficit := s32 (want_at_least - unused) in
  let size := len (s_ s) in
  let '(str, unused) :=
    if deficit >? 0 then
      let new_size := Z.max (u64 (size + deficit)) (u64 (size * 2)) in
      (s_ s ++ replicate (Z.to_nat (new_size - size)) 0, s32 (unused + u64 (new_size - size)))
    else (s_ s, unused) in
  let ptr := len str - unused in
  Ret (ptr, ptr + unused, mkStringSink str unused).
Definition sink : Sink StringSink := {|
  RecycleBuffer := recycle;
  poke p bs s := a ← put p bs (s_ s); Ret (mkStringSink a (unused_size_ s)) |}.
(** [~StringGenericWriter]. *)
Definition destroy (w : Writer StringSink) : outcome (list Z) :=
  s ← GW.FinalRecycle (Sink0 := sink) w;
  Ret (if negb (unused_size_ s =? 0) then take (Z.to_nat (u64 (len (s_ s) - unused_size_ s))) (s_ s) else s_ s).
End StringWriter.

(** ** [ChunkedStorageWriter]: chunks from a private allocator *)
Record Chunk := mkChunk { address : Z; size : Z; used : Z; data : list Z }.
(** The chunks from [last_chunk] on, and the state of the allocator. *)
Record ChunkedStorage (A : Type) := mkStorage { chunks : list Chunk; allocator : A }.
Arguments mkStorage {A} chunks allocator.
Arguments chunks {A} c : rename.
Arguments allocator {A} c : rename.

Module Chunked.
Section Chunked.
Context {A : Type} (chunk_malloc : Z -> M A Z) (chunk_free : Z -> M A unit) (buffer_size : Z).
Definition sizeof_Chunk : Z := 24.
Definition kChunkSize : Z := sizeof_Chunk - 1.

Definition CloseChunk (actually_filled : Z) (s : ChunkedStorage A) : outcome (ChunkedStorage A) :=
  match chunks s with
  | [] => Fault Undefined
  | c :: l => Ret (mkStorage (mkChunk (address c) (size c) actually_filled (data c) :: l) (allocator s))
  end.
Definition AppendChunk (want_at_least : Z) (s : ChunkedStorage A) : outcome (Chunk * ChunkedStorage A) :=
  let size := Z.max (s32 (u64 (want_at_least + sizeof_Chunk))) buffer_size in
  '(p, a) ← chunk_malloc (u64 size) (allocator s);
  _ ← deref (if p =? 0 then None else Some tt);
  let csize := s32 (u64 (size - kChunkSize)) in
  let c := mkChunk p csize 0 (replicate (Z.to_nat csize) 0) in
  Ret (c, mkStorage (c :: chunks s) a).

Definition recycle (buf_begin buf_end want_at_least : Z) (s : ChunkedStorage A) : outcome (Z * Z * ChunkedStorage A) :=
  s ← (match chunks s with [] => Ret s | _ => CloseChunk (s32 (buf_end - buf_begin)) s end);
  if want_at_least =? 0 then Ret (0, 0, s) else
  '(c, s) ← AppendChunk want_at_least s; Ret (0, size c, s).
Definition sink : Sink (ChunkedStorage A) := {|
  RecycleBuffer := recycle;
  poke p bs s := match chunks s with
    | [] => Fault Undefined
    | c :: l => a ← put p bs (data c); Ret (mkStorage (mkChunk (address c) (size c) (used c) a :: l) (allocator s)) end |}.

(** The second loop of [StrDupAndRelease]: [data] filled from behind. *)
Definition take_chunk (st : list Z * Z * A) (c : Chunk) : outcome (list Z * Z * A) :=
  let '(out, total_size, a) := st in
  out ← put (total_size - used c) (take (Z.to_nat (used c)) (data c)) out;
  '(_, a) ← chunk_free (address c) a;
  Ret (out, total_size - used c, a).
(** [malloc] returns the address of the result. *)
Definition StrDupAndRelease (malloc : Z -> Z) (s : ChunkedStorage A) : outcome (list Z * A) :=
  let total_size := foldr (fun c n => used c + n) 0 (chunks s) in
  _ ← deref (if malloc (total_size + 1) =? 0 then None else Some tt);
  out ← put total_size [0] (replicate (Z.to_nat (total_size + 1)) 0);
  '(out, _, a) ← foldM take_chunk (chunks s) (out, total_size, allocator s);
  Ret (out, a).

Definition DoWithWriterToStrDup (malloc : Z -> Z) (body : Writer (ChunkedStorage A) -> outcome (Writer (ChunkedStorage A))) (a : A)
    : outcome (list Z * A) :=
  w ← body (GW.new (mkStorage [] a));
  s ← GW.FinalRecycle (Sink0 := sink) w;
  StrDupAndRelease malloc s.
End Chunked.
End Chunked.

(** ** What a sink promises *)

(** The call returns, or, when the sink allocates memory, runs out of it. *)
Definition returns {A} (may_fail : bool) (o : outcome A) (Q : A -> Prop) : Prop :=
  match o with Ret a => Q a | Fault f => f = OOM /\ may_fail = true end.
Lemma returns_bind {A B} mf (o : outcome A) (k : A -> outcome B) Q :
  returns mf o (fun a => returns mf (k a) Q) -> returns mf (o ≫= k) Q.
Proof. by destruct o. Qed.
Lemma returns_mono {A} mf (o : outcome A) (P Q : A -> Prop) : returns mf o P -> (forall a, P a -> Q a) -> returns mf o Q.
Proof. destruct o; cbn; auto. Qed.

(** [rep s b e t l]: the buffer is [b, e) and starts with the bytes [l]; the
    text [t] has left it. [final s t]: the sink has all of the text. No
    buffer is longer than [limit], and one of that length can always be had;
    at most [cap] bytes are written. *)
Class SinkLaws (S : Type) `{!Sink S} (may_fail : bool) (limit cap : Z)
    (rep : S -> Z -> Z -> list Z -> list Z -> Prop) (final : S -> list Z -> Prop) := {
  rep_room s b e t l : rep s b e t l -> 0 <= b /\ b + len l <= e /\ e - b <= limit;
  rep_prefix s b e t l l' : rep s b e t (l ++ l') -> rep s b e t l;
  rep_poke s b e t l bs : rep s b e t l -> 0 < len bs -> b + len l + len bs <= e ->
    exists s', poke (b + len l) bs s = Ret s' /\ rep s' b e t (l ++ bs);
  rep_recycle s b e t l want : rep s b e t l -> 0 < want <= INT_MAX -> len t + len l + want <= cap ->
    returns may_fail (RecycleBuffer b (b + len l) want s)
      (fun '(b', e', s') => rep s' b' e' (t ++ l) [] /\ Z.min want limit <= e' - b');
  rep_final s b e t l : rep s b e t l -> exists b' e' s', RecycleBuffer b (b + len l) 0 s = Ret (b', e', s') /\ final s' (t ++ l) }.

Section Writer.
Context {S : Type} `{!Sink S} {may_fail : bool} {limit cap : Z}
  {rep : S -> Z -> Z -> list Z -> list Z -> Prop} {final : S -> list Z -> Prop} `{!SinkLaws S may_fail limit cap rep final}.
Hypothesis limit_range : 1 <= limit <= INT_MAX.

(** The writer has been given the text [t]. *)
Definition given (t : list Z) (w : Writer S) : Prop := exists t0 l,
  t = t0 ++ l /\ buf_fill_ w = buf_ w + len l /\ rep (sink w) (buf_ w) (buf_end_ w) t0 l.
(** What a formatted append writes. *)
Definition cut (text : list Z) : list Z := take (Z.to_nat (limit - 1)) text.

Lemma vsnprintf_ok s b e t l text size : rep s b e t l -> 0 <= size -> b + len l + size <= e ->
  exists s', GW.vsnprintf (b + len l) size text s = Ret (len text, s') /\ rep s' b e t (l ++ take (Z.to_nat (size - 1)) text).
Proof using SinkLaws0.
  intros HR H0 Hs. unfold GW.vsnprintf. destruct (Z.eqb_spec size 0) as [->|Hn].
  - exists s. split; [done|]. cbn. by rewrite app_nil_r.
  - destruct (rep_poke s b e t l (take (Z.to_nat (size - 1)) text ++ [0])) as (s' & -> & HR'); [done|rewrite length_app; cbn [length]; lia| |].
    + rewrite length_app, length_take. cbn [length]. lia.
    + exists s'. split; [done|]. rewrite (assoc_L app) in HR'. by apply rep_prefix in HR'.
Qed.

Lemma AppendF_ok text t w : given t w -> len t + len text + 1 <= cap -> len text < INT_MAX ->
  returns may_fail (GW.AppendF text w) (given (t ++ cut text)).
Proof using SinkLaws0 limit_range.
  intros (t0 & l & -> & Hf & HR) Hcap Hlen. unfold INT_MAX in *. destruct (rep_room _ _ _ _ _ HR) as (? & ? & ?).
  destruct w as [b f e s]; cbn [buf_ buf_fill_ buf_end_ sink] in *. subst f. unfold GW.AppendF. cbn [buf_ buf_fill_ buf_end_ sink].
  rewrite (s32_small (e - _)), (u64_small (e - _)) by lia. set (sp := e - (b + len l)).
  destruct (vsnprintf_ok s b e t0 l text sp HR) as (s1 & -> & HR1); [lia..|]. obind. rewrite length_app in Hcap.
  destruct (Z.geb_spec (len text) sp) as [Hge|Hlt].
  - apply rep_prefix in HR1. apply returns_bind. rewrite s32_small by lia.
    eapply returns_mono; [apply (rep_recycle s1 b e t0 l (len text + 1)); [done|unfold INT_MAX; lia..]|].
    intros [[b' e'] s2] [HR2 Hroom]. destruct (rep_room _ _ _ _ _ HR2) as (? & Hbe & ?).
    assert (0 < e' - b') by lia. rewrite s32_small, u64_small by lia. cbn [length] in *.
    destruct (vsnprintf_ok s2 b' e' (t0 ++ l) [] text (e' - b') HR2) as (s3 & E & HR3); [cbn; lia..|].
    cbn [length] in E. rewrite Z.add_0_r in E. rewrite E. obind. cbn [returns app] in *.
    exists (t0 ++ l), (take (Z.to_nat (e' - b' - 1)) text). cbn [buf_ buf_fill_ buf_end_ sink]. split; [|split; [|done]].
    + f_equal. unfold cut. destruct (decide (limit <= e' - b')); [f_equal; lia|]. rewrite !take_ge by lia. done.
    + rewrite length_take. lia.
  - cbn [returns]. exists t0, (l ++ text). cbn [buf_ buf_fill_ buf_end_ sink]. unfold cut. rewrite take_ge in * by lia.
    split; [by rewrite (assoc_L app)|]. split; [rewrite length_app; lia|done].
Qed.

Lemma mem_loop fuel str t w : given t w -> len t + len str + 1 <= cap ->
  len str + (if decide (buf_fill_ w = buf_end_ w) then 1 else 0) < Z.of_nat fuel ->
  returns may_fail (loop fuel GW.mem_round (str, w)) (given (t ++ str)).
Proof using SinkLaws0 limit_range.
  revert str t w. induction fuel as [|fuel IH]; intros str t w Hw Hcap Hfuel; [destruct (decide _); lia|].
  destruct Hw as (t0 & l & -> & Hf & HR). unfold INT_MAX in *. destruct (rep_room _ _ _ _ _ HR) as (? & ? & ?).
  destruct w as [b f e s]; cbn [buf_ buf_fill_ buf_end_ sink] in *. subst f. rewrite length_app in Hcap.
  cbn [loop]. unfold GW.mem_round. cbn [buf_ buf_fill_ buf_end_ sink]. unfold INT_MAX. rewrite s32_small by lia.
  set (n := Z.min (Z.min (2 ^ 31 - 1) (len str)) (e - (b + len l))). set (k := Z.to_nat n).
  assert (exists s1, (if negb (n =? 0) then poke (b + len l) (take k str) s else Ret s) = Ret s1 /\ rep s1 b e t0 (l ++ take k str))
    as (s1 & -> & HR1).
  { destruct (Z.eqb_spec n 0) as [Hn|Hn]; cbn [negb].
    - exists s. split; [done|]. unfold k. rewrite Hn. cbn. by rewrite app_nil_r.
    - destruct (rep_poke s b e t0 l (take k str)) as (s1 & -> & HR1); [done|rewrite length_take; lia..|]. by exists s1. }
  obind. assert (Hl : len (l ++ take k str) = len l + n) by (rewrite length_app, length_take; lia).
  replace (b + len l + n) with (b + len (l ++ take k str)) by lia.
  destruct (Z.eqb_spec (len (drop k str)) 0) as [Hd|Hd].
  - obind. cbn [returns]. exists t0, (l ++ take k str). cbn [buf_ buf_fill_ buf_end_ sink]. split; [|done].
    rewrite length_drop in Hd. rewrite take_ge by lia. by rewrite (assoc_L app).
  - rewrite length_drop in Hd. assert (Hn : n = e - (b + len l)) by lia.
    apply returns_bind, returns_bind. eapply returns_mono; [apply (rep_recycle s1 b e t0 (l ++ take k str) 1); [done|unfold INT_MAX; lia|lia]|].
    intros [[b' e'] s2] [HR2 Hroom]. obind. cbn [returns].
    replace ((t0 ++ l) ++ str) with ((t0 ++ l ++ take k str) ++ drop k str) by (rewrite <- !(assoc_L app), take_drop; done).
    apply IH; cbn [buf_ buf_fill_ buf_end_ sink].
    + exists (t0 ++ l ++ take k str), []. rewrite app_nil_r. split; [done|]. split; [cbn; lia|done].
    + rewrite !length_app, length_take, length_drop. lia.
    + rewrite length_drop. repeat destruct (decide _); lia.
Qed.

Lemma AppendMem_ok str t w : given t w -> len t + len str + 1 <= cap -> returns may_fail (GW.AppendMem str w) (given (t ++ str)).
Proof using SinkLaws0 limit_range. intros Hw Hcap. unfold GW.AppendMem. apply mem_loop; [done..|]. destruct (decide _); lia. Qed.

Definition text_of (a : GW.append) : list Z := match a with GW.F t => cut t | GW.Mem t => t end.
Definition length_of (a : GW.append) : Z := match a with GW.F t => len t | GW.Mem t => len t end.
Definition texts (l : list GW.append) : list Z := concat (text_of <$> l).
Definition total (l : list GW.append) : Z := foldr (fun a n => length_of a + n) 0 l.

Lemma text_of_le a : len (text_of a) <= length_of a.
Proof using Type. destruct a; cbn; [unfold cut; rewrite length_take|]; lia. Qed.
Lemma total_texts_nonneg l : 0 <= total l.
Proof using Type. unfold total. induction l as [|[t|t] l IH]; cbn; lia. Qed.

Lemma appends_ok l : forall t w, given t w -> len t + total l + 1 <= cap -> total l < INT_MAX ->
  returns may_fail (GW.appends l w) (given (t ++ texts l)).
Proof using SinkLaws0 limit_range.
  induction l as [|a l IH]; intros t w Hw Hcap Htot; [cbn; by rewrite app_nil_r|].
  change (total (a :: l)) with (length_of a + total l) in *.
  pose proof (text_of_le a). pose proof (total_texts_nonneg l). apply returns_bind.
  apply returns_mono with (P := given (t ++ text_of a)).
  - destruct a; cbn [length_of] in *; [apply AppendF_ok|apply AppendMem_ok]; (done || lia).
  - intros w' Hw'. unfold texts. cbn. rewrite (assoc_L app). apply IH; [done| |lia]. rewrite length_app. lia.
Qed.

(** From a fresh writer to the end. *)
Lemma writer_ok l s t : rep s 0 0 t [] -> len t + total l + 1 <= cap -> total l < INT_MAX ->
  returns may_fail (w ← GW.appends l (GW.new s); GW.FinalRecycle w) (fun s' => final s' (t ++ texts l)).
Proof using SinkLaws0 limit_range.
  intros HR Hcap Htot. apply returns_bind. eapply returns_mono; [apply (appends_ok l t); [|done..]|].
  - exists t, []. by rewrite app_nil_r.
  - intros w (t0 & l0 & -> & Hf & HR'). unfold GW.FinalRecycle. rewrite Hf.
    destruct (rep_final _ _ _ _ _ HR') as (b' & e' & s' & -> & Hfin). done.
Qed.
End Writer.

(** ** The three sinks keep the promise *)
Lemma put_inside p bs a : 0 <= p -> p + len bs <= len a ->
  put p bs a = Ret (take (Z.to_nat p) a ++ bs ++ drop (Z.to_nat (p + len bs)) a).
Proof. intros. unfold put. rewrite (proj2 (Z.leb_le _ _)), (proj2 (Z.leb_le _ _)) by lia. done. Qed.
(** Bytes stored behind [l]. *)
Lemma put_behind l bs rest : len bs <= len rest -> put (len l) bs (l ++ rest) = Ret (l ++ bs ++ drop (length bs) rest).
Proof.
  intros. rewrite put_inside by (rewrite ?length_app; lia). f_equal. rewrite Nat2Z.id, take_app_length. f_equal. f_equal.
  rewrite drop_app_ge by lia. f_equal. lia.
Qed.

Section FnLaws.
Context (kSize cap : Z).
Hypothesis kSize_range : 1 <= kSize <= INT_MAX.
Definition fn_rep (s : FnSink) (b e : Z) (t l : list Z) : Prop := exists rest,
  b = 0 /\ (e = 0 \/ e = kSize) /\ static_buffer_ s = l ++ rest /\ len l + len rest = kSize /\ len l <= e /\ t = concat (writes s).
#[export] Instance fn_laws : SinkLaws (Sink0 := FnWriter.sink kSize) FnSink false kSize cap fn_rep (fun s t => concat (writes s) = t).
Proof using kSize_range.
  unfold INT_MAX in *. split.
  - intros s b e t l (rest & -> & He & _ & ? & ? & _). lia.
  - intros s b e t l l' (rest & -> & He & E & Hl & Hle & ->). rewrite length_app in *.
    exists (l' ++ rest). rewrite length_app, (assoc_L app). repeat split; [done..|lia|lia].
  - intros s b e t l bs (rest & -> & He & E & Hl & Hle & ->) _ Hroom. rewrite Z.add_0_l. cbn [poke FnWriter.sink].
    rewrite E, put_behind by lia. obind. eexists. split; [done|]. exists (drop (length bs) rest). cbn.
    rewrite length_app, length_drop, <- (assoc_L app). repeat split; [done..|lia|lia].
  - intros s b e t l want (rest & -> & He & E & Hl & Hle & ->) Hw _. cbn [RecycleBuffer FnWriter.sink]. unfold FnWriter.recycle.
    rewrite Z.add_0_l, Z.sub_0_r, s32_small by (unfold INT_MAX in *; lia). cbn [returns]. split; [|lia]. exists (static_buffer_ s).
    destruct (Z.gtb_spec (len l) 0) as [Hpos|Hz]; cbn.
    + rewrite concat_app. cbn. rewrite app_nil_r, E, Nat2Z.id, take_app_length, length_app. repeat split; [by right|lia..].
    + assert (l = []) as -> by (destruct l; [done|cbn in Hz; lia]). rewrite app_nil_r. cbn in *. rewrite E. repeat split; [by right|lia..].
  - intros s b e t l (rest & -> & He & E & Hl & Hle & ->). cbn [RecycleBuffer FnWriter.sink]. unfold FnWriter.recycle.
    rewrite Z.add_0_l, Z.sub_0_r, s32_small by (unfold INT_MAX in *; lia). do 3 eexists. split; [done|].
    destruct (Z.gtb_spec (len l) 0) as [Hpos|Hz]; cbn.
    + rewrite concat_app. cbn. by rewrite app_nil_r, E, Nat2Z.id, take_app_length.
    + assert (l = []) as -> by (destruct l; [done|cbn in Hz; lia]). by rewrite app_nil_r.
Qed.
End FnLaws.

Section StringLaws.
Context (cap : Z).
Hypothesis cap_range : cap <= 2 ^ 29.
Definition string_rep (s : StringSink) (b e : Z) (t l : list Z) : Prop := exists rest,
  s_ s = t ++ l ++ rest /\ unused_size_ s = len l + len rest /\ e - b = unused_size_ s /\
  (b = len t \/ (b = 0 /\ unused_size_ s = 0)) /\ len (s_ s) <= 2 * cap.
Definition string_final (s : StringSink) (t : list Z) : Prop :=
  exists rest, s_ s = t ++ rest /\ unused_size_ s = len rest /\ len (s_ s) <= 2 * cap.

Lemma string_recycle s b e t l want : string_rep s b e t l -> 0 <= want <= INT_MAX -> len t + len l + want <= cap \/ want = 0 ->
  exists b' e' s', StringWriter.recycle b (b + len l) want s = Ret (b', e', s') /\ string_rep s' b' e' (t ++ l) [] /\ want <= e' - b'.
Proof using cap_range.
  intros (rest & E & Eu & He & Hb & Hc) Hw Hcap. rewrite E, !length_app in Hc. unfold INT_MAX in *. unfold StringWriter.recycle.
  replace (unused_size_ s - (b + len l - b)) with (len rest) by lia. rewrite (s32_small (len rest)), (s32_small (want - _)) by lia.
  rewrite E. set (sz := len (t ++ l ++ rest)). assert (Esz : sz = len t + len l + len rest) by (unfold sz; rewrite !length_app; lia).
  destruct (Z.gtb_spec (want - len rest) 0) as [Hd|Hd].
  - rewrite (u64_small (sz + _)), (u64_small (sz * 2)) by lia. set (ns := Z.max (sz + (want - len rest)) (sz * 2)).
    rewrite (u64_small (ns - sz)), s32_small by lia. set (pad := replicate (Z.to_nat (ns - sz)) 0).
    assert (Hpad : len pad = ns - sz) by (unfold pad; rewrite length_replicate; lia).
    do 3 eexists. split; [done|]. split; [|lia]. exists (rest ++ pad). cbn [s_ unused_size_ app length]. rewrite !length_app.
    repeat split; [by rewrite <- !(assoc_L app)|lia..].
  - do 3 eexists. split; [done|]. split; [|lia]. exists rest. cbn [s_ unused_size_ app length]. rewrite !length_app.
    repeat split; [by rewrite <- !(assoc_L app)|lia..].
Qed.

#[export] Instance string_laws : SinkLaws (Sink0 := StringWriter.sink) StringSink false INT_MAX cap string_rep string_final.
Proof using cap_range.
  unfold INT_MAX in *. split.
  - intros s b e t l (rest & E & Eu & He & Hb & Hc). rewrite E, !length_app in Hc. lia.
  - intros s b e t l l' (rest & E & Eu & He & Hb & Hc). rewrite length_app in Eu.
    exists (l' ++ rest). rewrite length_app. repeat split; [by rewrite E, <- !(assoc_L app)|lia|done..].
  - intros s b e t l bs (rest & E & Eu & He & Hb & Hc) Hbs Hroom. cbn [poke StringWriter.sink].
    destruct Hb as [->|[-> Hu]]; [|lia].
    assert (Hput : put (len t + len l) bs (s_ s) = Ret (t ++ (l ++ bs) ++ drop (length bs) rest)).
    { rewrite E, (assoc_L app), <- Nat2Z.inj_add, <- length_app, put_behind by lia. by rewrite <- !(assoc_L app). }
    rewrite Hput. obind. eexists. split; [done|]. exists (drop (length bs) rest). cbn. rewrite E, !length_app in Hc.
    rewrite !length_app, length_drop. split_and!; [done|lia..].
  - intros s b e t l want HR Hw Hcap. destruct (string_recycle s b e t l want HR) as (b' & e' & s' & E & HR' & Hroom); [unfold INT_MAX; lia|lia|].
    cbn [RecycleBuffer StringWriter.sink]. rewrite E. cbn [returns]. split; [done|lia].
  - intros s b e t l HR. destruct (string_recycle s b e t l 0 HR) as (b' & e' & s' & E & HR' & Hroom); [unfold INT_MAX; lia|lia|].
    exists b', e', s'. split; [done|]. destruct HR' as (rest & E' & Eu & _ & _ & Hc). by exists rest.
Qed.
Lemma string_destroy s t : string_final s t ->
  (if negb (unused_size_ s =? 0) then take (Z.to_nat (u64 (len (s_ s) - unused_size_ s))) (s_ s) else s_ s) = t.
Proof using cap_range.
  intros (rest & E & Eu & Hc). destruct (Z.eqb_spec (unused_size_ s) 0) as [Hz|Hz]; cbn [negb].
  - destruct rest; [by rewrite E, app_nil_r|cbn in Eu; lia].
  - rewrite E in *. rewrite length_app in *. rewrite Eu, u64_small by lia. rewrite take_app_le, take_ge by lia. done.
Qed.
End StringLaws.

Section ChunkedLaws.
Context {A : Type} (chunk_malloc : Z -> M A Z) (chunk_free : Z -> M A unit) (buffer_size : Z) (live : A -> gmap Z Z) (F : gmap Z Z) (cap : Z).
Hypothesis malloc_ok : forall n a, 0 < n ->
  match chunk_malloc n a with
  | Ret (p, a') => p <> 0 /\ live a !! p = None /\ live a' = <[p := n]> (live a)
  | Fault f => f = OOM
  end.
Hypothesis free_ok : forall p a, is_Some (live a !! p) -> exists a', chunk_free p a = Ret (tt, a') /\ live a' = delete p (live a).
Hypothesis cap_range : 0 <= cap <= 2 ^ 30.
Hypothesis buffer_range : 0 <= buffer_size <= 2 ^ 30.

(** The chunks' memory comes on top of [F]. *)
Fixpoint mine (cs : list Chunk) (m : gmap Z Z) : Prop :=
  match cs with [] => m = F | c :: cs => is_Some (m !! address c) /\ mine cs (delete (address c) m) end.
Definition chunk_text (c : Chunk) : list Z := take (Z.to_nat (used c)) (data c).
Fixpoint chunks_text (cs : list Chunk) : list Z := match cs with [] => [] | c :: cs => chunks_text cs ++ chunk_text c end.
Definition closed (c : Chunk) : Prop := 0 <= used c <= len (data c).

Definition chunked_rep (s : ChunkedStorage A) (b e : Z) (t l : list Z) : Prop :=
  mine (chunks s) (live (allocator s)) /\ b = 0 /\
  match chunks s with
  | [] => e = 0 /\ t = [] /\ l = []
  | c :: cs => e = size c /\ size c <= INT_MAX /\ len (data c) = size c /\ (exists rest, data c = l ++ rest) /\ Forall closed cs /\ t = chunks_text cs
  end.
Definition chunked_final (s : ChunkedStorage A) (t : list Z) : Prop :=
  mine (chunks s) (live (allocator s)) /\ Forall closed (chunks s) /\ t = chunks_text (chunks s).

(** Closing the chunk that was filled. *)
Lemma close_ok s b e t l : chunked_rep s b e t l ->
  exists s', match chunks s with [] => Ret s | _ => Chunked.CloseChunk (s32 (b + len l - b)) s end = Ret s' /\ chunked_final s' (t ++ l).
Proof using Type.
  destruct s as [cs a]. unfold chunked_rep, Chunked.CloseChunk. cbn [chunks allocator].
  destruct cs as [|c cs]; intros (Hm & -> & HR).
  - destruct HR as (-> & -> & ->). by exists (mkStorage [] a).
  - destruct HR as (-> & Hs & Hd & (rest & E) & Hcs & ->). unfold INT_MAX in *. rewrite E, length_app in Hd.
    rewrite Z.add_0_l, Z.sub_0_r, s32_small by lia. eexists. split; [done|]. split; [done|]. cbn [chunks].
    split; [constructor; [|done]|]; unfold closed; cbn [used data].
    + rewrite E, length_app. lia.
    + cbn. f_equal. unfold chunk_text. cbn. by rewrite Nat2Z.id, E, take_app_length.
Qed.

#[export] Instance chunked_laws : SinkLaws (Sink0 := Chunked.sink chunk_malloc buffer_size) (ChunkedStorage A) true INT_MAX cap chunked_rep chunked_final.
Proof using malloc_ok cap_range buffer_range.
  split.
  - intros [[|c cs] a] b e t l (Hm & -> & HR); cbn in HR.
    + destruct HR as (-> & -> & ->). cbn. unfold INT_MAX. lia.
    + destruct HR as (-> & ? & Hd & (rest & E) & _). rewrite E, length_app in Hd. lia.
  - intros [[|c cs] a] b e t l l' (Hm & -> & HR); cbn in HR; (split; [done|]; split; [done|]); cbn.
    + destruct HR as (-> & -> & HR). by apply app_nil in HR as [-> ->].
    + destruct HR as (-> & ? & Hd & (rest & E) & ? & ->). repeat split; [done..| |done]. exists (l' ++ rest). by rewrite E, <- (assoc_L app).
  - intros [[|c cs] a] b e t l bs (Hm & -> & HR) Hbs Hroom; cbn in HR.
    + destruct HR as (-> & -> & ->). cbn in Hroom. lia.
    + destruct HR as (-> & ? & Hd & (rest & E) & ? & ->). rewrite E, length_app in Hd. rewrite Z.add_0_l. cbn.
      rewrite E, put_behind by lia. obind. eexists. split; [done|]. split; [done|]. split; [done|]. cbn.
      rewrite !length_app, length_drop. split_and!; [done|done|lia| |done|done]. exists (drop (length bs) rest). by rewrite <- (assoc_L app).
  - intros s b e t l want HR Hw Hcap. destruct (close_ok s b e t l HR) as (s' & E & Hm & Hcs & Et).
    cbn [RecycleBuffer Chunked.sink]. unfold Chunked.recycle. rewrite E. obind. rewrite (proj2 (Z.eqb_neq want 0)) by lia.
    unfold INT_MAX, Chunked.AppendChunk, Chunked.kChunkSize, Chunked.sizeof_Chunk in *.
    rewrite (u64_small (want + 24)), (s32_small (want + 24)) by lia. set (sz := Z.max (want + 24) buffer_size).
    rewrite (u64_small sz), (u64_small (sz - _)), (s32_small (sz - _)) by lia.
    pose proof (malloc_ok sz (allocator s') ltac:(lia)) as Hp. destruct (chunk_malloc sz (allocator s')) as [[p a']|f]; cbn; [|done].
    destruct Hp as (Hp0 & Hp & Hl). rewrite (proj2 (Z.eqb_neq p 0)) by done. obind. cbn [returns].
    split; [|cbn; lia]. unfold chunked_rep. cbn. rewrite Hl, length_replicate. split; [split|split; [done|]].
    + by rewrite lookup_insert_eq.
    + by rewrite delete_insert_id.
    + split_and!; [done|unfold INT_MAX; lia|lia|by eexists|done|done].
  - intros s b e t l HR. destruct (close_ok s b e t l HR) as (s' & E & Hfin).
    cbn [RecycleBuffer Chunked.sink]. unfold Chunked.recycle. rewrite E. obind. by do 3 eexists.
Qed.

Lemma take_chunks cs : forall X acc a, Forall closed cs -> mine cs (live a) -> len X = foldr (fun c n => used c + n) 0 cs ->
  exists a', foldM (Chunked.take_chunk chunk_free) cs (X ++ acc, len X, a) = Ret (chunks_text cs ++ acc, 0, a') /\ live a' = F.
Proof using free_ok.
  induction cs as [|c cs IH]; intros X acc a Hcl Hm HX; cbn in *.
  - destruct X; [by exists a|cbn in HX; lia].
  - apply Forall_cons in Hcl as [[Hu1 Hu2] Hcl]. destruct Hm as [Ha Hm]. unfold Chunked.take_chunk at 1.
    assert (Hs : 0 <= foldr (fun c n => used c + n) 0 cs).
    { clear - Hcl. induction Hcl as [|c' cs' [? _] _ IH']; cbn; lia. }
    set (tx := take (Z.to_nat (used c)) (data c)). assert (Htx : len tx = used c) by (unfold tx; rewrite length_take; lia).
    destruct (free_ok _ a Ha) as (a1 & Ef1 & Hl1). rewrite <- Hl1 in Hm.
    rewrite <- (take_drop (Z.to_nat (len X - used c)) X). set (Y := take _ X). set (Y' := drop _ X).
    assert (HY : len Y = len X - used c) by (unfold Y; rewrite length_take; lia).
    assert (HY' : len Y' = used c) by (unfold Y'; rewrite length_drop; lia).
    rewrite length_app, <- (assoc_L app). replace (Z.of_nat (length Y + length Y') - used c) with (len Y) by lia.
    rewrite put_behind by (rewrite length_app; lia). obind. rewrite Ef1. obind.
    rewrite drop_app_length' by lia. destruct (IH Y (tx ++ acc) a1 Hcl Hm) as (a' & Ef & Hl'); [lia|].
    exists a'. split; [|done]. etransitivity; [exact Ef|]. by rewrite <- (assoc_L app).
Qed.

Lemma strdup_ok malloc s t : chunked_final s t -> (forall n, malloc n <> 0) ->
  exists a', Chunked.StrDupAndRelease chunk_free malloc s = Ret (t ++ [0], a') /\ live a' = F.
Proof using free_ok.
  intros (Hm & Hcl & ->) Hmal. unfold Chunked.StrDupAndRelease. set (n := foldr _ 0 (chunks s)).
  assert (0 <= n). { unfold n. clear - Hcl. induction Hcl as [|c' cs' [? _] _ IH']; cbn; lia. }
  rewrite (proj2 (Z.eqb_neq _ 0)) by apply Hmal. obind.
  rewrite put_inside by (rewrite ?length_replicate; cbn; lia). obind.
  set (X := take (Z.to_nat n) _). assert (HX : len X = n) by (unfold X; rewrite length_take, length_replicate; lia).
  rewrite drop_ge by (rewrite length_replicate; cbn; lia). rewrite app_nil_r, <- HX.
  destruct (take_chunks (chunks s) X [0] (allocator s) Hcl Hm HX) as (a' & -> & Hl). by exists a'.
Qed.
End ChunkedLaws.

(** The text of the calls, nothing cut. *)
Definition whole (l : list GW.append) : list Z := concat ((fun a => match a with GW.F t => t | GW.Mem t => t end) <$> l).
Lemma texts_whole limit l : total l < limit -> texts (limit := limit) l = whole l.
Proof.
  unfold texts, whole. induction l as [|a l IH]; intros Hl; [done|]. change (total (a :: l)) with (length_of a + total l) in Hl.
  pose proof (total_texts_nonneg l). pose proof (text_of_le (limit := limit) a). cbn. rewrite IH by (destruct a; cbn in *; lia). f_equal.
  destruct a; cbn in *; [|done]. unfold cut. rewrite take_ge by lia. done.
Qed.

(** A string writer from beginning to end. *)
Lemma string_writer_ok l s : len s + total l < 2 ^ 29 ->
  (w ← GW.appends (Sink0 := StringWriter.sink) l (GW.new (StringWriter.init s)); StringWriter.destroy w) = Ret (s ++ whole l).
Proof.
  intros Htot. pose proof (total_texts_nonneg l). assert (Hint : INT_MAX = 2 ^ 31 - 1) by done.
  pose proof (string_laws (2 ^ 29) ltac:(lia)) as HL. unfold StringWriter.destroy.
  assert (Hr : string_rep (2 ^ 29) (StringWriter.init s) 0 0 s []).
  { exists []. cbn. rewrite app_nil_r. split_and!; [done..|by right|lia]. }
  pose proof (writer_ok (SinkLaws0 := HL) ltac:(lia) l _ s Hr ltac:(lia) ltac:(lia)) as HW. rewrite texts_whole in HW by lia.
  destruct (GW.appends (Sink0 := StringWriter.sink) l (GW.new (StringWriter.init s))) as [w|f]; obind; [|by destruct HW].
  cbn [mbind outcome_bind] in HW. destruct (GW.FinalRecycle (Sink0 := StringWriter.sink) w) as [s'|f]; obind; [|by destruct HW].
  cbn [returns] in HW. by rewrite (string_destroy (2 ^ 29) ltac:(lia) s' _ HW).
Qed.

(** Text reaches its destination. After any sequence of formatted and
    plain appends and the end of the writer: the write function was called
    with exactly that text, where a single formatted piece is cut to one byte
    less than the buffer; the string has the text behind what it held before;
    and the string made from chunks is the text with a terminator, with all
    memory of the chunks given back. *)
Theorem writers_deliver_text {A : Type} (l : list GW.append) (kSize buffer_size : Z) (garbage s : list Z)
    (chunk_malloc : Z -> M A Z) (chunk_free : Z -> M A unit) (live : A -> gmap Z Z) (malloc : Z -> Z) (a : A) :
  1 <= kSize <= INT_MAX -> len garbage = kSize -> len s + total l < 2 ^ 29 -> 0 <= buffer_size <= 2 ^ 30 ->
  (forall n a, 0 < n -> match chunk_malloc n a with
    | Ret (p, a') => p <> 0 /\ live a !! p = None /\ live a' = <[p := n]> (live a) | Fault f => f = OOM end) ->
  (forall p a, is_Some (live a !! p) -> exists a', chunk_free p a = Ret (tt, a') /\ live a' = delete p (live a)) ->
  (forall n, malloc n <> 0) ->
  (exists s', (w ← GW.appends (Sink0 := FnWriter.sink kSize) l (GW.new (FnWriter.init garbage)); FnWriter.destroy kSize w) = Ret s' /\
     concat (writes s') = texts (limit := kSize) l) /\
  (w ← GW.appends (Sink0 := StringWriter.sink) l (GW.new (StringWriter.init s)); StringWriter.destroy w) = Ret (s ++ whole l) /\
  match Chunked.DoWithWriterToStrDup chunk_malloc chunk_free buffer_size malloc
      (GW.appends (Sink0 := Chunked.sink chunk_malloc buffer_size) l) a with
  | Ret (out, a') => out = whole l ++ [0] /\ live a' = live a
  | Fault f => f = OOM
  end.
Proof.
  intros Hk Hg Htot Hb Hmal Hfree Hm. pose proof (total_texts_nonneg l). assert (Hint : INT_MAX = 2 ^ 31 - 1) by done. split; [|split].
  - pose proof (fn_laws kSize (total l + 1) Hk) as HL.
    pose proof (writer_ok (SinkLaws0 := HL) Hk l (FnWriter.init garbage) []) as HW. cbv beta in HW. unfold FnWriter.destroy.
    destruct (w ← GW.appends (Sink0 := FnWriter.sink kSize) l (GW.new (FnWriter.init garbage)); GW.FinalRecycle (Sink0 := FnWriter.sink kSize) w) as [s'|f]; cbn [returns] in HW.
    + exists s'. split; [done|]. apply HW; [|cbn; lia|lia]. exists garbage. cbn. repeat split; [by left|lia..].
    + destruct HW as [_ ?]; [|cbn; lia|lia|done]. exists garbage. cbn. repeat split; [by left|lia..].
  - by apply string_writer_ok.
  - pose proof (chunked_laws chunk_malloc buffer_size live (live a) (2 ^ 29) Hmal ltac:(lia) Hb) as HL.
    assert (Hr : chunked_rep live (live a) (mkStorage [] a) 0 0 [] []) by (by repeat split).
    pose proof (writer_ok (SinkLaws0 := HL) ltac:(lia) l _ [] Hr ltac:(cbn; lia) ltac:(lia)) as HW. rewrite texts_whole in HW by lia.
    unfold Chunked.DoWithWriterToStrDup. destruct (GW.appends (Sink0 := Chunked.sink chunk_malloc buffer_size) l (GW.new (mkStorage [] a))) as [w|f]; obind; [|by destruct HW].
    cbn [mbind outcome_bind] in HW. destruct (GW.FinalRecycle (Sink0 := Chunked.sink chunk_malloc buffer_size) w) as [s'|f]; obind; [|by destruct HW]. cbn [returns] in HW.
    destruct (strdup_ok chunk_free live (live a) Hfree malloc s' _ HW Hm) as (a' & -> & Hl). done.
Qed.

(** An allocator of chunks. *)
Definition toy_malloc (n : Z) : M (gmap Z Z) Z := fun m =>
  let p := fresh ({[0]} ∪ dom m : gset Z) in Ret (p, <[p := n]> m).
Definition toy_free (p : Z) : M (gmap Z Z) unit := fun m => Ret (tt, delete p m).
Lemma toy_malloc_ok n m : 0 < n -> match toy_malloc n m with
  | Ret (p, m') => p <> 0 /\ m !! p = None /\ m' = <[p := n]> m | Fault f => f = OOM end.
Proof.
  intros _. cbn. set (X := {[0]} ∪ dom m : gset Z). pose proof (is_fresh X) as Hf. unfold X in Hf at 2.
  split; [set_solver|]. split; [|done]. apply not_elem_of_dom. set_solver.
Qed.
Lemma toy_free_ok p m : is_Some (m !! p) -> exists m', toy_free p m = Ret (tt, m') /\ m' = delete p m.
Proof. intros _. by eexists. Qed.

Lemma writers_deliver_text_witness :
  let l := [GW.F [104; 105; 33]; GW.Mem [32; 116; 104; 101; 114; 101; 10]] in
  texts (limit := 4) l = [104; 105; 33; 32; 116; 104; 101; 114; 101; 10] /\
  (w ← GW.appends (Sink0 := StringWriter.sink) l (GW.new (StringWriter.init [65])); StringWriter.destroy w) = Ret ([65] ++ whole l).
Proof.
  intros l. split; [reflexivity|].
  refine (proj1 (proj2 (writers_deliver_text l 4 8 [7; 7; 7; 7] [65] toy_malloc toy_free id (fun _ => 4096) ∅ _ _ _ _
    toy_malloc_ok toy_free_ok _)));
    [unfold INT_MAX; lia|reflexivity|cbn; lia|lia|lia].
Defined.
