(* ===== verification/ProcMaps.v ===== *)
(** * The memory map of the process

    Models src/src/src/base/proc_maps_iterator.h and the Linux half of
    proc_maps_iterator.cc: reading /proc/self/maps line by line through a
    buffer, parsing a line, and writing mappings in the same format. A C
    string is the list of its bytes before the terminator, a pointer into a
    string the rest of it from there. What [open] and the calls of [read]
    return is an argument: [Some c] are bytes that are available, of which
    [read] returns as many as fit; [None] is an error, and after the last
    the file ends. Restarts after EINTR are not visible. *)
From S2P Require Import Prelude GenericWriter.

(** ** Lines of a file *)
Definition PATH_MAX : Z := 4096.
Definition kBufSize : Z := PATH_MAX + 1024.
(** The offset of [buf_end]. *)
Definition kBufEnd : Z := kBufSize - 1.
Definition NL : Z := 10.

(** [memchr] or [strchr]: what is before the first [c], and the rest from it on. *)
Fixpoint find_char (c : Z) (s : list Z) : option (list Z * list Z) :=
  match s with
  | [] => None
  | x :: s' => if x =? c then Some ([], s) else match find_char c s' with Some (p, q) => Some (x :: p, q) | None => None end
  end.
Definition c_string (s : list Z) : list Z := match find_char 0 s with Some (p, _) => p | None => s end.

Definition fd : Type := list (option (list Z)).
Definition read (n : Z) (f : fd) : list Z * fd :=
  match f with
  | [] => ([], [])
  | None :: f => ([], f)
  | Some c :: f => (take (Z.to_nat n) c, match drop (Z.to_nat n) c with [] => f | r => Some r :: f end)
  end.

(** The bytes from [sbuf] to [ebuf] are [text]; [sbuf] is an offset in [buf]. *)
Record LineState (B : Type) := mkLines { sbuf : Z; text : list Z; eof : bool; file : fd; arg : B }.
Arguments mkLines {B} sbuf text eof file arg.
Arguments sbuf {B} l : rename.
Arguments text {B} l : rename.
Arguments eof {B} l : rename.
Arguments file {B} l : rename.
Arguments arg {B} l : rename.
(** What the function returns, whether it closed the file, and the client's state. *)
Record Result (B : Type) := mkResult { ret : bool; closed_fd : bool; client : B }.
Arguments mkResult {B} ret closed_fd client.
Arguments ret {B} r : rename.
Arguments closed_fd {B} r : rename.
Arguments client {B} r : rename.

Section Lines.
Context {B : Type} (body : list Z -> B -> bool * B).

Definition line_round (l : LineState B) : outcome (LineState B + Result B) :=
  match find_char NL (text l) with
  | Some (line, rest) =>
      let '(go, b) := body (c_string line) (arg l) in
      if negb go then Ret (inr (mkResult true true b))
      else Ret (inl (mkLines (sbuf l + len line + 1) (drop 1 rest) (eof l) (file l) b))
  | None =>
      let count := len (text l) in
      let ebuf := sbuf l + count in
      if eof l then
        if count =? 0 then Ret (inr (mkResult true true (arg l))) else
        _ ← deref (if (0 <=? ebuf) && (ebuf <? kBufSize) then Some tt else None);
        Ret (inl (mkLines (sbuf l) (text l ++ [NL]) (eof l) (file l) (arg l)))
      else if ebuf =? kBufEnd then Ret (inr (mkResult false false (arg l)))
      else
        let '(bytes, f) := read (kBufEnd - count) (file l) in
        Ret (inl (mkLines 0 (text l ++ bytes) (len bytes =? 0) f (arg l)))
  end.

Definition available (f : fd) : nat := foldr (fun o n => (length (default [] o) + n)%nat) 0%nat f.
(** [opened] is what [open] gives. *)
Definition ForEachLine (opened : option fd) (b : B) : outcome (Result B) :=
  match opened with
  | None => Ret (mkResult false true b)
  | Some f => loop (2 * available f + 5) line_round (mkLines 0 [] false f b)
  end.
End Lines.

(** ** Parsing a line *)
Definition isspace (c : Z) : bool := (c =? 32) || ((9 <=? c) && (c <=? 13)).

(** [strtoull(text, &endptr, base)] of the C library, with where it stops. *)
Definition digit_value (base c : Z) : option Z :=
  let d := if (48 <=? c) && (c <=? 57) then Some (c - 48)
           else if (97 <=? c) && (c <=? 122) then Some (c - 87)
           else if (65 <=? c) && (c <=? 90) then Some (c - 55) else None in
  match d with Some v => if v <? base then Some v else None | None => None end.
Fixpoint scan_digits (base acc : Z) (s : list Z) : Z * list Z :=
  match s with
  | c :: s' => match digit_value base c with Some d => scan_digits base (acc * base + d) s' | None => (acc, s) end
  | [] => (acc, [])
  end.
Fixpoint skip_space (s : list Z) : list Z := match s with c :: s' => if isspace c then skip_space s' else s | [] => [] end.
Definition sign_of (s : list Z) : bool * list Z :=
  match s with c :: s' => if c =? 45 then (true, s') else if c =? 43 then (false, s') else (false, s) | [] => (false, s) end.
Definition skip_0x (base : Z) (s : list Z) : list Z :=
  match s with
  | z :: x :: d :: s' =>
      if (base =? 16) && (z =? 48) && ((x =? 120) || (x =? 88)) && bool_decide (is_Some (digit_value 16 d)) then d :: s' else s
  | _ => s
  end.
Definition strtoull (s : list Z) (base : Z) : Z * list Z :=
  let '(neg, s1) := sign_of (skip_space s) in
  let s2 := skip_0x base s1 in
  match s2 with
  | c :: _ => match digit_value base c with
      | None => (0, s)
      | Some _ => let '(v, r) := scan_digits base 0 s2 in
          ((if v >=? 2 ^ 64 then 2 ^ 64 - 1 else if (neg : bool) then u64 (- v) else v), r) end
  | [] => (0, s)
  end.

Definition ExtractUntilChar (text : list Z) (c : Z) : option (list Z * list Z) := find_char c text.
Fixpoint skip_but_last (s : list Z) : list Z :=
  match s with
  | a :: ((b :: _) as s') => if isspace a && isspace b then skip_but_last s' else s
  | _ => s
  end.
Definition SkipWhileWhitespace (s : list Z) (c : Z) : list Z := if isspace c then skip_but_last s else s.
(** The number and [*endptr_result], [None] for null. *)
Definition StringToIntegerUntilChar (text : list Z) (base c : Z) : Z * option (list Z) :=
  match ExtractUntilChar text c with
  | None => (0, None)
  | Some (p, rest) =>
      let '(v, r) := strtoull p base in
      if negb (len r =? 0) then (0, None) else (v, Some (SkipWhileWhitespace rest c))
  end.
Definition CopyStringUntilChar (text : list Z) (out_len c : Z) : option (list Z * list Z) :=
  match ExtractUntilChar text c with
  | None => None
  | Some (p, rest) => Some (take (Z.to_nat (out_len - 1)) p, SkipWhileWhitespace rest c)
  end.
Definition StringToIntegerUntilCharWithCheck (text : list Z) (base c : Z) : option (Z * list Z) :=
  match StringToIntegerUntilChar text base c with
  | (v, Some (_ :: rest)) => Some (v, rest)
  | _ => None
  end.

Record ProcMapping := mkMapping { m_start : Z; m_end : Z; m_flags : list Z; m_offset : Z; m_inode : Z; m_filename : list Z }.

Definition ParseProcMapsLine (text : list Z) : option ProcMapping :=
  if len text =? 0 then None else
  '(start, s) ← StringToIntegerUntilCharWithCheck text 16 45;
  '(end_, s) ← StringToIntegerUntilCharWithCheck s 16 32;
  '(flags, s) ← CopyStringUntilChar s 5 32;
  match s with
  | [] => None
  | _ :: s =>
      '(offset, s) ← StringToIntegerUntilCharWithCheck s 16 32;
      '(_, s) ← StringToIntegerUntilCharWithCheck s 16 58;
      '(_, s) ← StringToIntegerUntilCharWithCheck s 16 32;
      '(inode, s) ← StringToIntegerUntilCharWithCheck s 10 32;
      Some (mkMapping start end_ flags offset inode s)
  end.

(** The client's function is applied to every mapping. *)
Definition DoIterateLinux {B} (body : ProcMapping -> B -> B) (opened : option fd) (b : B) : outcome (Result B) :=
  ForEachLine (fun line b => match ParseProcMapsLine line with None => (false, b) | Some m => (true, body m b) end) opened b.

(** ** Writing mappings *)

(** [%x] and [%u] of a number below 2^64, and [0] padding to a width. *)
Definition digit_char (d : Z) : Z := if d <? 10 then 48 + d else 87 + d.
Fixpoint to_digits (fuel : nat) (base z : Z) (acc : list Z) : list Z :=
  match fuel with
  | O => acc
  | S n => let acc := digit_char (z mod base) :: acc in if z / base =? 0 then acc else to_digits n base (z / base) acc
  end.
Definition number (base z : Z) : list Z := to_digits 64 base z [].
Definition pad (n : nat) (l : list Z) : list Z := replicate (n - length l) 48 ++ l.
Definition is_at (l : list Z) (i : nat) (c : Z) : bool := bool_decide (l !! i = Some c).

(** [flags] is a string; a byte of it that the code tests for being the
    terminator is one that is there. *)
Definition FormatLine (m : ProcMapping) (dev : Z) : list GW.append :=
  let flags := m_flags m in
  let r := if is_at flags 0 114 then 114 else 45 in
  let w := if is_at flags 1 119 then 119 else 45 in
  let x := if is_at flags 2 120 then 120 else 45 in
  let p := if (2 <? len flags) && negb (is_at flags 3 112) then 45 else 112 in
  [GW.F (pad 8 (number 16 (m_start m)) ++ [45] ++ pad 8 (number 16 (m_end m)) ++ [32; r; w; x; p; 32] ++
         pad 8 (number 16 (m_offset m)) ++ [32] ++ pad 2 (number 16 (u32 (dev / 256))) ++ [58] ++ pad 2 (number 16 (u32 (dev mod 256))) ++
         [32] ++ number 10 (m_inode m) ++ [32]);
   GW.Mem (m_filename m); GW.Mem [NL]].
Definition SaveProcSelfMaps {S} `{!Sink S} (opened : option fd) (w : Writer S) : outcome (Writer S) :=
  r ← DoIterateLinux (fun m (w : outcome (Writer S)) => w ← w; GW.appends (FormatLine m 0) w) opened (Ret w);
  client r.

(** ** Every line is visited *)

(** The complete lines of a text, and what follows the last of them. *)
Fixpoint parts (s : list Z) : list (list Z) * list Z :=
  match s with
  | [] => ([], [])
  | c :: s =>
      let '(ls, r) := parts s in
      if c =? NL then ([] :: ls, r) else match ls with [] => ([], c :: r) | l :: ls => ((c :: l) :: ls, r) end
  end.
Definition lines (s : list Z) : list (list Z) := let '(ls, r) := parts s in ls ++ match r with [] => [] | _ => [r] end.

(** The bytes that come before the end or an error. *)
Fixpoint delivered (f : fd) : list Z :=
  match f with Some (x :: c) :: f => x :: c ++ delivered f | _ => [] end.
(** No [read] fills the buffer; [carry] is the beginning of a line left in it. *)
Fixpoint fits (carry : list Z) (f : fd) : Prop :=
  match f with
  | Some (x :: c) :: f => len carry + len (x :: c) < kBufEnd /\ fits (parts (carry ++ x :: c)).2 f
  | _ => True
  end.

Section Visit.
Context {B : Type} (body : list Z -> B -> bool * B).
(** The specification: the lines in order, until one is refused. *)
Fixpoint visit (ls : list (list Z)) (b : B) : Result B :=
  match ls with
  | [] => mkResult true true b
  | l :: ls => let '(go, b) := body (c_string l) b in if (go : bool) then visit ls b else mkResult true true b
  end.
End Visit.

Lemma find_char_Some c s p q : find_char c s = Some (p, q) -> exists r, q = c :: r /\ s = p ++ q /\ c ∉ p.
Proof.
  revert p q. induction s as [|x s IH]; intros p q; [done|]. cbn. destruct (Z.eqb_spec x c) as [->|Hn].
  - intros [= <- <-]. exists s. split_and!; [done..|set_solver].
  - destruct (find_char c s) as [[p' q']|]; [|done]. intros [= <- <-]. destruct (IH p' q' eq_refl) as (r & -> & -> & Hp).
    exists r. split_and!; [done..|set_solver].
Qed.
Lemma find_char_None c s : find_char c s = None -> c ∉ s.
Proof.
  induction s as [|x s IH]; cbn; [set_solver|]. destruct (Z.eqb_spec x c); [done|].
  destruct (find_char c s) as [[? ?]|]; [done|]. intros _. specialize (IH eq_refl). set_solver.
Qed.
Lemma find_char_app c p r : c ∉ p -> find_char c (p ++ c :: r) = Some (p, c :: r).
Proof.
  induction p as [|x p IH]; intros Hp; cbn; [by rewrite Z.eqb_refl|].
  rewrite (proj2 (Z.eqb_neq x c)), IH by set_solver. done.
Qed.
Lemma find_char_absent c s : c ∉ s -> find_char c s = None.
Proof.
  induction s as [|x s IH]; intros Hs; [done|]. cbn. rewrite (proj2 (Z.eqb_neq x c)), IH by set_solver. done.
Qed.

Lemma parts_line l s : NL ∉ l -> parts (l ++ NL :: s) = (l :: (parts s).1, (parts s).2).
Proof.
  induction l as [|x l IH]; intros Hl; cbn [app parts]; [by destruct (parts s)|].
  rewrite IH by set_solver. by rewrite (proj2 (Z.eqb_neq x NL)) by set_solver.
Qed.
Lemma parts_partial s : NL ∉ s -> parts s = ([], s).
Proof.
  induction s as [|x s IH]; intros Hs; [done|]. cbn [parts]. rewrite IH by set_solver.
  by rewrite (proj2 (Z.eqb_neq x NL)) by set_solver.
Qed.
Lemma lines_line l s : NL ∉ l -> lines (l ++ NL :: s) = l :: lines s.
Proof. intros Hl. unfold lines. rewrite parts_line by done. by destruct (parts s). Qed.
Lemma lines_partial s : NL ∉ s -> s <> [] -> lines s = [s].
Proof. intros Hs H0. unfold lines. rewrite parts_partial by done. by destruct s. Qed.

(** What the buffer holds of the file, and what is still to come. *)
Definition future {B} (l : LineState B) : list Z := text l ++ (if eof l then [] else delivered (file l)).
Definition terminated (s : list Z) : bool := match last s with Some c => c =? NL | None => true end.
Record LineInv {B} (l : LineState B) : Prop := {
  li_start : 0 <= sbuf l;
  li_more : eof l = false -> sbuf l + len (text l) < kBufEnd /\ fits (parts (text l)).2 (file l);
  li_end : eof l = true -> sbuf l + len (text l) <= kBufEnd \/ text l = [] \/ exists line, NL ∉ line /\ text l = line ++ [NL] }.
Definition rounds_left {B} (l : LineState B) : Z :=
  2 * Z.of_nat (available (file l)) + len (text l) + (if eof l then if terminated (text l) then 0 else 2 else 3).

Lemma terminated_tail l s : terminated (l ++ NL :: s) = terminated s.
Proof.
  unfold terminated. rewrite last_app. destruct s as [|x s]; [done|]. rewrite last_cons_cons.
  by destruct (last (x :: s)) eqn:E; [|apply last_None in E].
Qed.

Lemma available_cons o f : available (o :: f) = (length (default [] o) + available f)%nat.
Proof. done. Qed.

Section ForEachLine.
Context {B : Type} (body : list Z -> B -> bool * B).
Lemma line_round_ok (l : LineState B) : LineInv l -> exists r, line_round body l = Ret r /\
  match r with
  | inl l' => (LineInv l' /\ visit body (lines (future l')) (arg l') = visit body (lines (future l)) (arg l)) /\ 0 <= rounds_left l' < rounds_left l
  | inr b => b = visit body (lines (future l)) (arg l)
  end.
Proof.
  intros [H0 Hmore Hend]. destruct l as [sb tx ef fl b]. unfold line_round, future, rounds_left. cbn [sbuf text eof file arg] in *.
  destruct (find_char NL tx) as [[line rest]|] eqn:E.
  - apply find_char_Some in E as (r & -> & -> & Hl). rewrite <- (assoc_L app). cbn [app drop].
    rewrite lines_line by done. cbn [visit]. destruct (body (c_string line) b) as [[] b'] eqn:Eb; cbn [negb]; eexists; (split; [done|]); [|done].
    cbn [sbuf text eof file arg drop]. rewrite ?drop_0, terminated_tail.
    assert (Hlen : len (line ++ NL :: r) = len line + 1 + len r) by (rewrite length_app; cbn [length]; lia). rewrite Hlen in *.
    split; [split; [split; cbn [sbuf text eof file arg]|done]|destruct ef, (terminated r); lia].
    + lia.
    + intros ->. destruct (Hmore eq_refl) as [? Hf]. rewrite parts_line in Hf by done. split; [lia|done].
    + intros ->. destruct (Hend eq_refl) as [?|[?|(line' & Hl' & E')]]; [left; lia|by destruct line|].
      right. left. destruct r as [|x r]; [done|]. exfalso. apply Hl'.
      assert (E2 : (line ++ NL :: removelast (x :: r)) ++ [List.last (x :: r) 0] = line' ++ [NL]).
      { rewrite <- E', <- (assoc_L app). cbn [app]. do 2 f_equal. symmetry. by apply app_removelast_last. }
      apply app_inj_tail in E2 as [<- _]. set_solver.
  - apply find_char_None in E. destruct ef.
    + destruct (Z.eqb_spec (len tx) 0) as [Hz|Hz]; [destruct tx; [by eexists|cbn in Hz; lia]|].
      assert (Hne : tx <> []) by (by intros ->).
      destruct (Hend eq_refl) as [Hb|[?|(line' & Hl' & ->)]]; [|done|set_solver].
      unfold kBufEnd in *. rewrite (proj2 (Z.leb_le 0 (sb + len tx))), (proj2 (Z.ltb_lt (sb + len tx) kBufSize)) by lia. cbn [andb]. obind.
      eexists. split; [done|]. cbn [sbuf text eof file arg]. rewrite !app_nil_r, (lines_line tx []), (lines_partial tx) by done.
      split; [split; [split; [done..|intros _; right; right; by exists tx]|done]|].
      rewrite terminated_tail, length_app. cbn [length]. assert (terminated tx = false) as ->; [|cbn; lia].
      unfold terminated. destruct (last tx) as [c|] eqn:Ec; [|by apply last_None in Ec]. apply last_Some in Ec as (tx' & ->).
      apply Z.eqb_neq. set_solver.
    + destruct (Hmore eq_refl) as [Hb Hf]. rewrite (proj2 (Z.eqb_neq _ kBufEnd)) by lia. rewrite parts_partial in Hf by done. cbn [snd] in Hf.
      assert (Hstop : forall f, LineInv (mkLines 0 tx true f b)) by (split; cbn [sbuf text eof file arg]; [lia|done|left; lia]).
      assert (Hnil : forall n, drop n ([] : list Z) = []) by (by intros []).
      destruct fl as [|[[|x c]|] f]; cbn [read]; rewrite ?take_nil, ?Hnil; eexists; (split; [done|]);
        cbn [sbuf text eof file arg]; rewrite ?app_nil_r; change (len [] =? 0) with true; cbn iota;
        try (split; [by split; [apply Hstop|cbn [delivered]; rewrite ?app_nil_r]|rewrite ?available_cons; cbn [default length]; destruct (terminated tx); lia]).
      cbn [fits] in Hf. destruct Hf as [Hroom Hf]. rewrite take_ge, drop_ge by (cbn [length] in *; lia).
      rewrite (proj2 (Z.eqb_neq (len (x :: c)) 0)) by (cbn [length]; lia).
      rewrite length_app. rewrite available_cons. change (default [] (Some (x :: c))) with (x :: c). cbn [length] in *. split; [split; [split; cbn [sbuf text eof file arg]|]|].
      * lia.
      * intros _. rewrite length_app. cbn [length]. split; [lia|done].
      * done.
      * cbn [delivered]. by rewrite <- (assoc_L app).
      * lia.
Qed.

Lemma for_each_line f b : fits [] f -> ForEachLine body (Some f) b = Ret (visit body (lines (delivered f)) b).
Proof.
  intros Hf. unfold ForEachLine.
  destruct (loop_spec (line_round body) (fun l => LineInv l /\ visit body (lines (future l)) (arg l) = visit body (lines (delivered f)) b)
    rounds_left (fun r => r = visit body (lines (delivered f)) b)) with (fuel := (2 * available f + 5)%nat) (a := mkLines 0 [] false f b)
    as (r & -> & ->); [| | |done].
  - intros l [HI E]. destruct (line_round_ok l HI) as (r & -> & Hr). exists r. split; [done|]. destruct r as [l'|r]; [|by rewrite <- E].
    destruct Hr as [[? E'] ?]. by rewrite <- E, <- E'.
  - split; [|done]. split; cbn; [lia| |done]. intros _. split; [|done]. unfold kBufEnd, kBufSize, PATH_MAX. lia.
  - unfold rounds_left. cbn [file text eof length]. lia.
Qed.
End ForEachLine.

(** A buffer that a [read] fills up ends the iteration, wherever its lines
    end, with the file left open. *)
Theorem full_buffer_gives_up {B} (body : list Z -> B -> bool * B) (c : list Z) (f : fd) (b : B) :
  (forall l b, (body l b).1 = true) -> kBufEnd <= len c ->
  exists b', ForEachLine body (Some (Some c :: f)) b = Ret (mkResult false false b').
Proof.
  intros Hgo Hc. unfold ForEachLine. assert (HB : kBufEnd = 5119) by done.
  assert (E0 : line_round body (mkLines 0 [] false (Some c :: f) b) =
    Ret (inl (mkLines 0 (take (Z.to_nat kBufEnd) c) false (match drop (Z.to_nat kBufEnd) c with [] => f | r => Some r :: f end) b))).
  { unfold line_round. cbn [text find_char eof sbuf file arg read length]. rewrite (proj2 (Z.eqb_neq _ kBufEnd)) by lia.
    cbn [app]. replace (kBufEnd - Z.of_nat 0) with kBufEnd by lia.
    rewrite (proj2 (Z.eqb_neq (len (take _ c)) 0)) by (rewrite length_take; lia). done. }
  set (l1 := mkLines 0 (take (Z.to_nat kBufEnd) c) false _ b) in E0.
  destruct (loop_spec (line_round body) (fun l => eof l = false /\ sbuf l + len (text l) = kBufEnd) (fun l => len (text l))
    (fun r => ret r = false /\ closed_fd r = false)) with (fuel := (2 * available (Some c :: f) + 4)%nat) (a := l1) as (r & E & Hr).
  - intros l [He Hs]. unfold line_round. destruct (find_char NL (text l)) as [[line rest]|] eqn:E.
    + apply find_char_Some in E as (r & -> & E & Hl). specialize (Hgo (c_string line) (arg l)).
      destruct (body (c_string line) (arg l)) as [go b']. cbn in Hgo. subst go. cbn [negb]. eexists. split; [done|].
      cbn [eof sbuf text drop]. rewrite drop_0, E, length_app in *. cbn [length] in *. split; [split; [done|lia]|lia].
    + rewrite He, Hs, Z.eqb_refl. eexists. split; [done|]. done.
  - unfold l1. cbn [eof sbuf text]. rewrite length_take. split; [done|lia].
  - unfold l1. cbn [text]. rewrite length_take, available_cons. change (default [] (Some c)) with c. lia.
  - replace (2 * available (Some c :: f) + 5)%nat with (S (2 * available (Some c :: f) + 4)) by lia.
    cbn [loop]. rewrite E0. obind. rewrite E. exists (client r). destruct r as [r1 r2 b']. cbn in *. by destruct Hr as [-> ->].
Qed.

(** ** Numbers *)
Definition is_digit (base c : Z) : Prop := exists d, 0 <= d < base /\ c = digit_char d.
Lemma digit_value_char base d : 0 <= d < base -> base <= 16 -> digit_value base (digit_char d) = Some d.
Proof.
  intros Hd Hb. unfold digit_value, digit_char. destruct (Z.ltb_spec d 10).
  - rewrite (proj2 (Z.leb_le 48 _)), (proj2 (Z.leb_le _ 57)) by lia. cbn. rewrite (proj2 (Z.ltb_lt _ _)) by lia. f_equal. lia.
  - rewrite (proj2 (Z.leb_gt _ 57)), Bool.andb_false_r by lia.
    rewrite (proj2 (Z.leb_le 97 _)), (proj2 (Z.leb_le _ 122)) by lia. cbn. rewrite (proj2 (Z.ltb_lt _ _)) by lia. f_equal. lia.
Qed.
Lemma is_digit_range base c : is_digit base c -> base <= 16 -> 48 <= c <= 57 \/ 97 <= c <= 102.
Proof. intros (d & Hd & ->) Hb. unfold digit_char. destruct (Z.ltb_spec d 10); lia. Qed.

Section Numbers.
Context (base : Z).
Hypothesis base_range : 2 <= base <= 16.
Lemma to_digits_scan fuel : forall z acc, 0 <= z < base ^ Z.of_nat fuel ->
  scan_digits base 0 (to_digits fuel base z acc) = scan_digits base z acc.
Proof using base_range.
  induction fuel as [|n IH]; intros z acc Hz; cbn [to_digits]; [f_equal; cbn in Hz; lia|].
  rewrite Nat2Z.inj_succ, Z.pow_succ_r in Hz by lia. pose proof (Z.div_mod z base ltac:(lia)). pose proof (Z.mod_pos_bound z base ltac:(lia)).
  destruct (Z.eqb_spec (z / base) 0) as [E|E]; [|rewrite IH]; cbn [scan_digits]; rewrite ?digit_value_char by lia.
  - f_equal. lia.
  - f_equal. lia.
  - split; [apply Z.div_pos; lia|apply Z.div_lt_upper_bound; lia].
Qed.
Lemma to_digits_digits fuel : forall z acc, Forall (is_digit base) acc -> 0 <= z -> Forall (is_digit base) (to_digits fuel base z acc).
Proof using base_range.
  induction fuel as [|n IH]; intros z acc Ha Hz; cbn [to_digits]; [done|]. pose proof (Z.mod_pos_bound z base ltac:(lia)).
  assert (Forall (is_digit base) (digit_char (z mod base) :: acc)) by (constructor; [by eexists|done]).
  destruct (Z.eqb_spec (z / base) 0); [done|]. apply IH; [done|]. apply Z.div_pos; lia.
Qed.
Lemma to_digits_nonempty fuel z acc : to_digits (S fuel) base z acc <> [].
Proof using Type.
  revert z acc. induction fuel as [|n IH]; intros z acc; cbn [to_digits]; destruct (_ =? 0); try done. apply IH.
Qed.
Lemma pad_number_digits n z : 0 <= z -> Forall (is_digit base) (pad n (number base z)) /\ pad n (number base z) <> [].
Proof using base_range.
  intros Hz. unfold pad, number. split.
  - apply Forall_app. split; [apply Forall_replicate; exists 0; split; [lia|done]|by apply to_digits_digits].
  - intros [_ E]%app_eq_nil. by apply to_digits_nonempty in E.
Qed.
Lemma scan_pad n s : scan_digits base 0 (replicate n 48 ++ s) = scan_digits base 0 s.
Proof using base_range.
  induction n as [|n IH]; [done|]. cbn [replicate app scan_digits]. change 48 with (digit_char 0) at 1. by rewrite digit_value_char by lia.
Qed.
Lemma strtoull_number n z : 0 <= z < 2 ^ 64 -> strtoull (pad n (number base z)) base = (z, []).
Proof using base_range.
  intros Hz. destruct (pad_number_digits n z) as [Hd Hne]; [lia|].
  assert (Hscan : scan_digits base 0 (pad n (number base z)) = (z, [])).
  { unfold pad, number. rewrite scan_pad, to_digits_scan; [done|]. split; [lia|]. apply Z.lt_le_trans with (2 ^ 64); [lia|].
    change (Z.of_nat 64) with 64. apply Z.pow_le_mono_l. lia. }
  destruct (pad n (number base z)) as [|c s]; [done|]. unfold strtoull. inversion Hd as [|? ? Hc Hs]; subst.
  pose proof (is_digit_range _ _ Hc ltac:(lia)) as Hr. cbn [skip_space]. replace (isspace c) with false by (unfold isspace; lia).
  cbn [sign_of]. rewrite (proj2 (Z.eqb_neq c 45)), (proj2 (Z.eqb_neq c 43)) by lia.
  assert (skip_0x base (c :: s) = c :: s) as ->.
  { cbn. destruct s as [|x [|d s]]; [done..|]. inversion Hs as [|? ? Hx _]; subst. pose proof (is_digit_range _ _ Hx ltac:(lia)).
    rewrite (proj2 (Z.eqb_neq x 120)), (proj2 (Z.eqb_neq x 88)) by lia. cbn. by rewrite Bool.andb_false_r. }
  destruct Hc as (d & Hd' & ->). rewrite digit_value_char by lia. rewrite Hscan.
  destruct (Z.geb_spec z (2 ^ 64)); [lia|done].
Qed.
End Numbers.

(** ** Fields of a line *)
Lemma skip_but_last_space a s : isspace a = true -> exists b, skip_but_last (a :: s) = b :: skip_space s.
Proof.
  revert a. induction s as [|b s IH]; intros a Ha; [by exists a|].
  change (skip_but_last (a :: b :: s)) with (if isspace a && isspace b then skip_but_last (b :: s) else a :: b :: s).
  cbn [skip_space]. rewrite Ha. cbn [andb]. destruct (isspace b) eqn:Eb; [by apply IH|by exists a].
Qed.
(** What follows a number and the character [c] that ends it. *)
Lemma number_field base n z c rest : 2 <= base <= 16 -> 0 <= z < 2 ^ 64 -> 32 <= c <= 47 \/ c = 58 ->
  StringToIntegerUntilCharWithCheck (pad n (number base z) ++ c :: rest) base c = Some (z, if isspace c then skip_space rest else rest).
Proof.
  intros Hb Hz Hc. destruct (pad_number_digits base Hb n z) as [Hd Hne]; [lia|].
  unfold StringToIntegerUntilCharWithCheck, StringToIntegerUntilChar, ExtractUntilChar. rewrite find_char_app.
  - rewrite strtoull_number by lia. cbn [length negb Z.of_nat Z.eqb]. unfold SkipWhileWhitespace. destruct (isspace c) eqn:Ec; [|done].
    by destruct (skip_but_last_space c rest Ec) as (b & ->).
  - intros Hin. rewrite Forall_forall in Hd. apply Hd in Hin. apply is_digit_range in Hin; lia.
Qed.
Lemma skip_space_number base n z rest : 2 <= base <= 16 -> 0 <= z -> skip_space (pad n (number base z) ++ rest) = pad n (number base z) ++ rest.
Proof.
  intros Hb Hz. destruct (pad_number_digits base Hb n z) as [Hd Hne]; [lia|].
  destruct (pad n (number base z)) as [|c s]; [done|]. inversion Hd as [|? ? Hc _]; subst. apply is_digit_range in Hc; [|lia].
  cbn. by replace (isspace c) with false by (unfold isspace; lia).
Qed.

(** A line of /proc/self/maps: the device's numbers, and the spaces before
    the name, which the kernel aligns. *)
Definition maps_line (m : ProcMapping) (major minor : Z) (spaces : nat) : list Z :=
  pad 8 (number 16 (m_start m)) ++ 45 :: pad 8 (number 16 (m_end m)) ++ 32 :: m_flags m ++ 32 :: pad 8 (number 16 (m_offset m)) ++ 32 ::
  pad 2 (number 16 major) ++ 58 :: pad 2 (number 16 minor) ++ 32 :: pad 0 (number 10 (m_inode m)) ++ 32 :: replicate spaces 32 ++ m_filename m.
Definition flags_ok (l : list Z) : Prop := exists r w x p, l = [r; w; x; p] /\ (r = 114 \/ r = 45) /\ (w = 119 \/ w = 45) /\
  (x = 120 \/ x = 45) /\ (p = 112 \/ p = 115 \/ p = 45).
Record mapping_ok (m : ProcMapping) : Prop := {
  mo_start : 0 <= m_start m < 2 ^ 64; mo_end : 0 <= m_end m < 2 ^ 64; mo_offset : 0 <= m_offset m < 2 ^ 64; mo_inode : 0 <= m_inode m < 2 ^ 64;
  mo_flags : flags_ok (m_flags m);
  mo_name : 0 ∉ m_filename m /\ NL ∉ m_filename m /\ match m_filename m with c :: _ => isspace c = false | [] => True end }.

Lemma flags_field fl rest : flags_ok fl -> exists b, CopyStringUntilChar (skip_space (fl ++ 32 :: rest)) 5 32 = Some (fl, b :: skip_space rest).
Proof.
  intros (r & w & x & p & -> & Hr & Hw & Hx & Hp). cbn [app skip_space].
  replace (isspace r) with false by (unfold isspace; lia).
  unfold CopyStringUntilChar, ExtractUntilChar. change (r :: w :: x :: p :: 32 :: rest) with ([r; w; x; p] ++ 32 :: rest).
  rewrite find_char_app by (set_unfold; lia). destruct (skip_but_last_space 32 rest eq_refl) as (b & E).
  exists b. unfold SkipWhileWhitespace. change (isspace 32) with true. by rewrite E.
Qed.

(** One field of a line parsed. *)
Ltac parse_field :=
  rewrite ?skip_space_number by lia; rewrite number_field by lia;
  repeat change (isspace 32) with true; repeat change (isspace 45) with false; repeat change (isspace 58) with false;
  cbn iota; cbn [mbind option_bind].

Lemma parse_maps_line m major minor spaces : mapping_ok m -> 0 <= major < 2 ^ 64 -> 0 <= minor < 2 ^ 64 ->
  ParseProcMapsLine (maps_line m major minor spaces) = Some m.
Proof.
  intros [Hs He Ho Hi Hf (_ & _ & Hn)] Hma Hmi. unfold ParseProcMapsLine.
  rewrite (proj2 (Z.eqb_neq (len (maps_line _ _ _ _)) 0)) by (unfold maps_line; rewrite length_app; cbn [length]; lia).
  unfold maps_line. parse_field. parse_field.
  match goal with |- context [CopyStringUntilChar (skip_space (_ ++ 32 :: ?rest)) _ _] => destruct (flags_field _ rest Hf) as (b & ->) end.
  cbn [mbind option_bind]. do 4 parse_field.
  assert (skip_space (replicate spaces 32 ++ m_filename m) = m_filename m) as ->; [|by destruct m].
  induction spaces as [|n IH]; cbn; [|done]. destruct (m_filename m); [done|]. cbn. by rewrite Hn.
Qed.

Lemma not_in_number base n z c : 2 <= base <= 16 -> 0 <= z -> c < 48 -> c ∉ pad n (number base z).
Proof.
  intros Hb Hz Hc Hin. destruct (pad_number_digits base Hb n z Hz) as [Hd _]. rewrite Forall_forall in Hd.
  apply Hd, is_digit_range in Hin; lia.
Qed.
Lemma maps_line_clean m major minor spaces c : mapping_ok m -> 0 <= major -> 0 <= minor -> c = 0 \/ c = NL ->
  c ∉ maps_line m major minor spaces.
Proof.
  intros [Hs He Ho Hi (r & w & x & p & Ef & ?) (H0 & H1 & _)] Hma Hmi Hc. unfold maps_line, NL in *. rewrite Ef.
  assert (c ∉ m_filename m) by (by destruct Hc as [->| ->]).
  assert (c ∉ replicate spaces 32) by (intros [? _]%elem_of_replicate; lia).
  repeat (rewrite not_elem_of_app || rewrite not_elem_of_cons || split); try done; try apply not_elem_of_nil; try (apply not_in_number; lia); lia.
Qed.
Lemma c_string_clean s : 0 ∉ s -> c_string s = s.
Proof. intros Hs. unfold c_string. by rewrite find_char_absent. Qed.

(** A file of mappings: each with its device and its alignment. *)
Definition entry : Type := ProcMapping * Z * Z * nat.
Definition entry_line (e : entry) : list Z := let '(m, major, minor, spaces) := e in maps_line m major minor spaces.
Definition entry_ok (e : entry) : Prop := let '(m, major, minor, _) := e in mapping_ok m /\ 0 <= major < 2 ^ 64 /\ 0 <= minor < 2 ^ 64.
Definition maps_text (es : list entry) : list Z := concat ((fun e => entry_line e ++ [NL]) <$> es).
Definition mappings (es : list entry) : list ProcMapping := (fun e => e.1.1.1) <$> es.

Lemma lines_maps_text es : Forall entry_ok es -> lines (maps_text es) = entry_line <$> es.
Proof.
  induction 1 as [|[[[m ma] mi] k] es (Hm & Hma & Hmi) _ IH]; [done|]. unfold maps_text in *. cbn [fmap list_fmap concat].
  rewrite <- (assoc_L app). cbn [app]. rewrite lines_line; [by rewrite IH|]. apply maps_line_clean; [done|lia|lia|by right].
Qed.
Lemma iterate_maps {B} (body : ProcMapping -> B -> B) es b f : Forall entry_ok es -> delivered f = maps_text es -> fits [] f ->
  DoIterateLinux body (Some f) b = Ret (mkResult true true (foldl (fun b m => body m b) b (mappings es))).
Proof.
  intros Hes Ed Hf. unfold DoIterateLinux. rewrite for_each_line, Ed, lines_maps_text by done. f_equal. clear f Ed Hf. revert b.
  induction Hes as [|[[[m ma] mi] k] es (Hm & Hma & Hmi) _ IH]; intros b; [done|]. cbn [fmap list_fmap visit entry_line].
  rewrite c_string_clean, parse_maps_line by (done || (apply maps_line_clean; [done|lia|lia|by left])). apply IH.
Qed.

(** What is written for a mapping: shared mappings lose their mark. *)
Definition written (m : ProcMapping) : ProcMapping :=
  mkMapping (m_start m) (m_end m) (match m_flags m with [r; w; x; p] => [r; w; x; if p =? 112 then 112 else 45] | l => l end)
    (m_offset m) (m_inode m) (m_filename m).
Lemma format_line m : mapping_ok m -> whole (FormatLine m 0) = maps_line (written m) 0 0 0 ++ [NL].
Proof.
  intros [_ _ _ _ (r & w & x & p & Ef & Hr & Hw & Hx & Hp) _]. unfold whole, FormatLine, maps_line, written. rewrite Ef.
  cbn [fmap list_fmap concat m_start m_end m_flags m_offset m_inode m_filename replicate].
  repeat rewrite <- (assoc_L app). cbn [app]. unfold is_at. cbn [lookup list_lookup length].
  assert (Hb : forall (a b : Z), bool_decide (Some a = Some b) = (a =? b)).
  { intros a b. destruct (Z.eqb_spec a b) as [->|]; [by apply bool_decide_eq_true|apply bool_decide_eq_false; congruence]. }
  rewrite !Hb. change (pad 0 (number 10 (m_inode m))) with (number 10 (m_inode m)). repeat (rewrite <- (assoc_L app); cbn [app]).
  change (u32 (0 / 256)) with 0. change (u32 (0 mod 256)) with 0. change (2 <? Z.of_nat 4) with true.
  destruct Hr as [->| ->], Hw as [->| ->], Hx as [->| ->], Hp as [->|[->| ->]]; reflexivity.
Qed.
Lemma written_ok m : mapping_ok m -> mapping_ok (written m).
Proof.
  intros [Hs He Ho Hi (r & w & x & p & Ef & Hr & Hw & Hx & Hp) Hn]. split; [done..| |done]. exists r, w, x, (if p =? 112 then 112 else 45).
  cbn. rewrite Ef. split_and!; [done..|]. destruct (p =? 112); auto.
Qed.
Definition rewritten (es : list entry) : list entry := (fun m => (written m, 0, 0, 0%nat)) <$> mappings es.

Lemma save_appends {S} `{!Sink S} ms (w : Writer S) :
  foldl (fun (w : outcome (Writer S)) m => w ← w; GW.appends (FormatLine m 0) w) (Ret w) ms = GW.appends (concat ((fun m => FormatLine m 0) <$> ms)) w.
Proof.
  assert (Happ : forall l l' w, GW.appends (l ++ l') w = (w ← GW.appends l w; GW.appends l' w)).
  { unfold GW.appends. induction l as [|a l IH]; intros l' w'; [done|]. cbn [app foldM].
    destruct (GW.append1 w' a) as [w''|]; obind; [apply IH|done]. }
  assert (Hfault : forall ms e, foldl (fun (w : outcome (Writer S)) m => w ← w; GW.appends (FormatLine m 0) w) (Fault e) ms = Fault e).
  { induction ms0 as [|m ms0 IH]; intros e; [done|]. apply IH. }
  revert w. induction ms as [|m ms IH]; intros w; [done|]. cbn [fmap list_fmap concat]. rewrite Happ. cbn [foldl]. obind.
  destruct (GW.appends (FormatLine m 0) w) as [w'|e]; obind; [apply IH|apply Hfault].
Qed.
Lemma whole_app l l' : whole (l ++ l') = whole l ++ whole l'.
Proof. unfold whole. by rewrite fmap_app, concat_app. Qed.
Lemma total_whole l : total l = len (whole l).
Proof.
  unfold total, whole. induction l as [|a l IH]; [done|]. cbn [foldr fmap list_fmap concat]. rewrite IH, length_app. destruct a; cbn; lia.
Qed.

(** C40: the memory map survives reading, writing and reading again. When the
    kernel's lines arrive in pieces that do not fill the buffer, the iteration
    visits exactly the mappings of the file, in order, and closes it; a copy
    written into a string is one line per mapping, and reading that copy
    gives the same mappings again, except that shared ones have lost their
    mark. The copy and what the string held before have fewer than 2^29 bytes. *)
Theorem proc_maps_roundtrip (es : list entry) (s : list Z) (f f' : fd) :
  Forall entry_ok es -> delivered f = maps_text es -> fits [] f -> delivered f' = maps_text (rewritten es) -> fits [] f' ->
  len s + len (maps_text (rewritten es)) < 2 ^ 29 ->
  let collect o := DoIterateLinux (fun m l => l ++ [m]) o [] in
  collect (Some f) = Ret (mkResult true true (mappings es)) /\
  (w ← SaveProcSelfMaps (Sink0 := StringWriter.sink) (Some f) (GW.new (StringWriter.init s)); StringWriter.destroy w) = Ret (s ++ maps_text (rewritten es)) /\
  collect (Some f') = Ret (mkResult true true (written <$> mappings es)).
Proof.
  intros Hes Ed Hf Ed' Hf' Hlen collect.
  assert (Hms : Forall mapping_ok (mappings es)).
  { apply Forall_fmap. eapply Forall_impl; [exact Hes|]. by intros [[[m ma] mi] k] (? & _). }
  assert (Hre : Forall entry_ok (rewritten es)).
  { apply Forall_fmap. eapply Forall_impl; [exact Hms|]. intros m Hm. split_and!; [by apply written_ok|lia..]. }
  assert (Hcol : forall ms l, foldl (fun (l : list ProcMapping) m => l ++ [m]) l ms = l ++ ms).
  { induction ms as [|m ms IH]; intros l; cbn; [by rewrite app_nil_r|]. by rewrite IH, <- (assoc_L app). }
  assert (Hmap : mappings (rewritten es) = written <$> mappings es) by (unfold rewritten; generalize (mappings es); intros l; unfold mappings; by rewrite <- list_fmap_compose).
  split; [|split].
  - unfold collect. by rewrite (iterate_maps _ es), Hcol.
  - unfold SaveProcSelfMaps. rewrite (iterate_maps _ es) by done. obind. cbn [client]. rewrite save_appends.
    assert (Hw : whole (concat ((fun m => FormatLine m 0) <$> mappings es)) = maps_text (rewritten es)).
    { unfold rewritten, maps_text. revert Hms. generalize (mappings es). induction l as [|m l IH]; [done|].
      intros [Hm Hl]%Forall_cons. cbn [fmap list_fmap concat]. by rewrite whole_app, format_line, IH. }
    rewrite string_writer_ok by (rewrite total_whole, Hw; done). by rewrite Hw.
  - unfold collect. by rewrite (iterate_maps _ (rewritten es)), Hcol, Hmap.
Qed.

Definition sample_entries : list entry :=
  [(mkMapping 4194304 4198400 [114; 45; 120; 112] 0 77 [47; 97], 8, 1, 20%nat); (mkMapping 8192 12288 [114; 119; 45; 115] 512 0 [], 0, 0, 0%nat)].
Lemma proc_maps_roundtrip_witness :
  Forall entry_ok sample_entries /\
  DoIterateLinux (fun m l => l ++ [m]) (Some [Some (maps_text sample_entries)]) [] = Ret (mkResult true true (mappings sample_entries)).
Proof.
  assert (Hok : Forall entry_ok sample_entries).
  { repeat constructor; cbn; try lia; try set_solver.
    - exists 114, 45, 120, 112. auto 6.
    - exists 114, 119, 45, 115. auto 8. }
  split; [exact Hok|].
  refine (proj1 (proc_maps_roundtrip sample_entries [] [Some (maps_text sample_entries)] [Some (maps_text (rewritten sample_entries))] Hok _ _ _ _ _));
    [reflexivity|split; [reflexivity|exact I]|reflexivity|split; [reflexivity|exact I]|reflexivity].
Defined.
