(* ===== verification/CpuProfiler.v ===== *)
(** * The CPU profiler

    Models src/src/src/profile-handler.h, profile-handler.cc and profiler.cc
    over the collector of ProfileData.v: the registry of callbacks with its
    timer, the signal handler that calls them, and starting, stopping and
    flushing a profile. [HD] and [CP] have the operations; [Run] interleaves
    them with signals. A control operation is cut where a signal handler can
    run: at the critical sections of [signal_lock_] and at the calls of the
    collector, which take time. The environment variables, the results of
    [open] and [new], the program counter and the stack at a signal are
    arguments. *)
From S2P Require Import Prelude ProfileData.
Import PDSpec.

Definition ITIMER_REAL : Z := 0.
Definition ITIMER_PROF : Z := 2.
Definition SIGALRM : Z := 14.
Definition SIGPROF : Z := 27.
Definition kMaxFrequency : Z := 4000.
Definition kDefaultFrequency : Z := 100.
Definition kMillion : Z := 1000000.

(** What the constructor asks the environment: CPUPROFILE_REALTIME, the
    number read from CPUPROFILE_FREQUENCY if it is one,
    CPUPROFILE_PER_THREAD_TIMERS, the number in CPUPROFILE_TIMER_SIGNAL,
    whether [timer_create] is linked, and whether the handler of a signal is free. *)
Record Environment := mkEnv {
  realtime : bool; frequency : option Z; per_thread : bool; timer_signal : option Z; timer_create : bool; handler_free : Z -> bool }.

Record ProfileHandler := mkHandler {
  timer_running_ : bool;
  interrupts_ : Z;
  frequency_ : Z;
  timer_type_ : Z;
  signal_number_ : Z;
  callback_count_ : Z;
  allowed_ : bool;
  per_thread_timer_enabled_ : bool;
  callbacks_ : list Z;
  (** the tokens that are not deleted, with their callback functions *)
  tokens : gmap Z Z;
  (** the interval of the last [setitimer], in seconds and microseconds, and of each thread's timer in nanoseconds *)
  itimer : Z * Z;
  thread_timers : list Z }.

Module HD.
Definition with_timer (r : bool) (t : Z * Z) (h : ProfileHandler) : ProfileHandler :=
  mkHandler r (interrupts_ h) (frequency_ h) (timer_type_ h) (signal_number_ h) (callback_count_ h) (allowed_ h) (per_thread_timer_enabled_ h)
    (callbacks_ h) (tokens h) t (thread_timers h).
Definition with_count (c : Z) (h : ProfileHandler) : ProfileHandler :=
  mkHandler (timer_running_ h) (interrupts_ h) (frequency_ h) (timer_type_ h) (signal_number_ h) c (allowed_ h) (per_thread_timer_enabled_ h)
    (callbacks_ h) (tokens h) (itimer h) (thread_timers h).
Definition with_callbacks (l : list Z) (t : gmap Z Z) (h : ProfileHandler) : ProfileHandler :=
  mkHandler (timer_running_ h) (interrupts_ h) (frequency_ h) (timer_type_ h) (signal_number_ h) (callback_count_ h) (allowed_ h) (per_thread_timer_enabled_ h)
    l t (itimer h) (thread_timers h).
Definition with_interrupts (n : Z) (h : ProfileHandler) : ProfileHandler :=
  mkHandler (timer_running_ h) n (frequency_ h) (timer_type_ h) (signal_number_ h) (callback_count_ h) (allowed_ h) (per_thread_timer_enabled_ h)
    (callbacks_ h) (tokens h) (itimer h) (thread_timers h).
Definition with_threads (l : list Z) (h : ProfileHandler) : ProfileHandler :=
  mkHandler (timer_running_ h) (interrupts_ h) (frequency_ h) (timer_type_ h) (signal_number_ h) (callback_count_ h) (allowed_ h) (per_thread_timer_enabled_ h)
    (callbacks_ h) (tokens h) (itimer h) l.

(** The constructor. *)
Definition new (e : Environment) : ProfileHandler :=
  let timer_type := if realtime e then ITIMER_REAL else ITIMER_PROF in
  let signal_number := if timer_type =? ITIMER_PROF then SIGPROF else SIGALRM in
  let freq := match frequency e with
    | Some f => if s32 f >? 0 then if s32 f >? kMaxFrequency then kMaxFrequency else s32 f else kDefaultFrequency
    | None => kDefaultFrequency end in
  let per := (per_thread e || bool_decide (is_Some (timer_signal e))) && timer_create e in
  let signal_number := if per then default signal_number (s32 <$> timer_signal e) else signal_number in
  mkHandler false 0 freq timer_type signal_number 0 (handler_free e signal_number) per [] ∅ (0, 0) [].

Definition UpdateTimer (enable : bool) (h : ProfileHandler) : ProfileHandler :=
  if per_thread_timer_enabled_ h then h else
  if Bool.eqb enable (timer_running_ h) then h else
  let interval_usec := if enable then Z.quot kMillion (frequency_ h) else 0 in
  with_timer enable (Z.quot interval_usec kMillion, Z.rem interval_usec kMillion) h.

(** The interval of a thread's own timer; [timer_settime] refuses a second
    or more in the nanoseconds, which ends the process. *)
Definition StartLinuxThreadTimer (frequency : Z) : outcome Z :=
  let tv_nsec := Z.quot 1000000000 frequency in
  _ ← check ((0 <=? tv_nsec) && (tv_nsec <? 1000000000)); Ret tv_nsec.
Definition RegisterThread (h : ProfileHandler) : outcome ProfileHandler :=
  if negb (allowed_ h) then Ret h else
  if per_thread_timer_enabled_ h then
    t ← StartLinuxThreadTimer (frequency_ h); Ret (with_threads (thread_timers h ++ [t]) h)
  else Ret (UpdateTimer (callback_count_ h >? 0) h).

(** [RegisterCallback] in two parts: under [signal_lock_], and after it. *)
Definition register_splice (token callback : Z) (h : ProfileHandler) : ProfileHandler :=
  with_callbacks (callbacks_ h ++ [token]) (<[token := callback]> (tokens h)) h.
Definition register_finish (h : ProfileHandler) : ProfileHandler :=
  UpdateTimer true (with_count (s32 (callback_count_ h + 1)) h).
Definition RegisterCallback (token callback : Z) (h : ProfileHandler) : ProfileHandler := register_finish (register_splice token callback h).

(** [UnregisterCallback], up to the end of the critical section, and after it. *)
Definition unregister_swap (token : Z) (h : ProfileHandler) : outcome ProfileHandler :=
  _ ← check (callback_count_ h >? 0);
  _ ← check (bool_decide (token ∈ callbacks_ h));
  Ret (with_callbacks (filter (fun t => t <> token) (callbacks_ h)) (tokens h) h).
Definition unregister_finish (token : Z) (h : ProfileHandler) : outcome ProfileHandler :=
  let h := with_count (s32 (callback_count_ h - 1)) h in
  let h := if callback_count_ h =? 0 then UpdateTimer false h else h in
  _ ← deref (tokens h !! token);
  Ret (with_callbacks (callbacks_ h) (delete token (tokens h)) h).
Definition UnregisterCallback (token : Z) (h : ProfileHandler) : outcome ProfileHandler :=
  h ← unregister_swap token h; unregister_finish token h.

Definition Reset (h : ProfileHandler) : outcome ProfileHandler :=
  let copy := callbacks_ h in
  let h := with_callbacks [] (tokens h) h in
  h ← foldM (fun h t => _ ← deref (tokens h !! t); Ret (with_callbacks [] (delete t (tokens h)) h)) copy h;
  Ret (UpdateTimer false (with_count 0 h)).

(** [GetState]: frequency, callbacks, interrupts, allowed. *)
Definition GetState (h : ProfileHandler) : Z * Z * Z * bool := (frequency_ h, callback_count_ h, interrupts_ h, allowed_ h).
End HD.

(** ** The profiler *)
Record CpuProfiler := mkProfiler {
  collector_ : ProfileData;
  (** whether there is a [filter_] *)
  filter_ : bool;
  (** 0 for null *)
  prof_handler_token_ : Z }.

(** What a signal finds: the answer of the filter, the program counter, and
    the frames of [GetStackTraceWithContext]. *)
Record Sample := mkSample { passes : bool; pc_value : Z; frames : list Z }.

Module CP.
(** The callback of the profiler; others have other addresses. *)
Definition prof_handler_fn : Z := 1.
Definition with_token (t : Z) (c : CpuProfiler) : CpuProfiler := mkProfiler (collector_ c) (filter_ c) t.
Definition with_collector (p : ProfileData) (c : CpuProfiler) : CpuProfiler := mkProfiler p (filter_ c) (prof_handler_token_ c).

(** The trace that is added, and its depth. *)
Definition used_stack (s : Sample) : list Z :=
  match frames s with f :: _ => if f =? pc_value s then frames s else pc_value s :: frames s | [] => [pc_value s] end.
Definition prof_handler (s : Sample) (c : CpuProfiler) : outcome CpuProfiler :=
  if negb (filter_ c) || passes s then
    p ← PD.Add (Z.of_nat (length (used_stack s))) (used_stack s) (collector_ c); Ret (with_collector p c)
  else Ret c.

Definition EnableHandler (token : Z) (h : ProfileHandler) (c : CpuProfiler) : outcome (ProfileHandler * CpuProfiler) :=
  _ ← check (prof_handler_token_ c =? 0);
  let h := HD.RegisterCallback token prof_handler_fn h in
  _ ← check (negb (token =? 0));
  Ret (h, with_token token c).
Definition DisableHandler (h : ProfileHandler) (c : CpuProfiler) : outcome (ProfileHandler * CpuProfiler) :=
  _ ← check (negb (prof_handler_token_ c =? 0));
  h ← HD.UnregisterCallback (prof_handler_token_ c) h;
  Ret (h, with_token 0 c).

Definition Start (fd now token : Z) (filter : bool) (h : ProfileHandler) (c : CpuProfiler) : outcome (bool * ProfileHandler * CpuProfiler) :=
  if PD.enabled (collector_ c) then Ret (false, h, c) else
  '(ok, p) ← PD.Start fd (HD.GetState h).1.1.1 now (collector_ c);
  let c := with_collector p c in
  if negb ok then Ret (false, h, c) else
  let c := mkProfiler (collector_ c) filter (prof_handler_token_ c) in
  '(h, c) ← EnableHandler token h c;
  Ret (true, h, c).
Definition Stop (h : ProfileHandler) (c : CpuProfiler) : outcome (ProfileHandler * CpuProfiler) :=
  if negb (PD.enabled (collector_ c)) then Ret (h, c) else
  '(h, c) ← DisableHandler h c;
  Ret (h, with_collector (PD.Stop (collector_ c)) c).
Definition FlushTable (token : Z) (h : ProfileHandler) (c : CpuProfiler) : outcome (ProfileHandler * CpuProfiler) :=
  if negb (PD.enabled (collector_ c)) then Ret (h, c) else
  '(h, c) ← DisableHandler h c;
  EnableHandler token h (with_collector (PD.FlushTable (collector_ c)) c).
Definition Enabled (c : CpuProfiler) : bool := PD.enabled (collector_ c).

(** [CpuProfilerSwitch] on its signal: the number of profiles, and whether one runs. *)
Definition CpuProfilerSwitch (fd now token : Z) (sw : Z * bool) (h : ProfileHandler) (c : CpuProfiler)
    : outcome (Z * bool * ProfileHandler * CpuProfiler) :=
  let '(profile_count, started) := sw in
  if negb started then
    '(ok, h, c) ← Start fd now token false h c;
    _ ← check ok;
    Ret (u32 (profile_count + 1), true, h, c)
  else '(h, c) ← Stop h c; Ret (profile_count, false, h, c).

(** The signal handler: every callback in turn, under [signal_lock_]. Other
    clients' callbacks do not touch the profiler. *)
Definition run_callback (s : Sample) (h : ProfileHandler) (c : CpuProfiler) (token : Z) : outcome CpuProfiler :=
  f ← deref (tokens h !! token);
  if f =? prof_handler_fn then prof_handler s c else Ret c.
Definition SignalHandler (s : Sample) (h : ProfileHandler) (c : CpuProfiler) : outcome (ProfileHandler * CpuProfiler) :=
  let h := HD.with_interrupts (s64 (interrupts_ h + 1)) h in
  c ← foldM (run_callback s h) (callbacks_ h) c; Ret (h, c).
End CP.

(** ** Signals between the steps of an operation *)
Module Run.
Inductive after := ThenStop | ThenFlush.
(** Where the thread is that holds [lock_], if any. *)
Inductive pc :=
  | Idle
  | StartCollect (fd now : Z) (filter : bool)
  | EnableSplice
  | EnableFinish (token : Z)
  | DisableSwap (a : after)
  | DisableFinish (a : after)
  | Collect (a : after).
(** [handling]: the callbacks the signal handler still has to call. [log]
    records what was done with the profile since it was started. *)
Record State := mkState {
  hnd : ProfileHandler; prof : CpuProfiler; ctl : pc; handling : option (list Z * Sample); log : list op }.
Definition init (h : ProfileHandler) : State := mkState h (mkProfiler PD.init false 0) Idle None [].

(** A method of the collector is running. *)
Definition collecting (p : pc) : bool := match p with StartCollect _ _ _ | Collect _ => true | _ => false end.
(** The next step takes [signal_lock_]. *)
Definition locks (p : pc) : bool := match p with EnableSplice | DisableSwap _ => true | _ => false end.

(** The calls of the profiler's interface. *)
Inductive call := CStart (fd now : Z) (filter : bool) | CStop | CFlush.
Definition begin (c : call) (s : State) : State :=
  let on := PD.enabled (collector_ (prof s)) in
  let p := match c with
    | CStart fd now filter => if on then Idle else StartCollect fd now filter
    | CStop => if negb on then Idle else DisableSwap ThenStop
    | CFlush => if negb on then Idle else DisableSwap ThenFlush
    end in
  mkState (hnd s) (prof s) p (handling s) (log s).

(** One step of the operation; [token] is what [new] returns if it allocates. *)
Definition advance (token : Z) (s : State) : outcome State :=
  let h := hnd s in let c := prof s in
  match ctl s with
  | Idle => Ret s
  | StartCollect fd now filter =>
      '(ok, p) ← PD.Start fd (HD.GetState h).1.1.1 now (collector_ c);
      if negb ok then Ret (mkState h (CP.with_collector p c) Idle (handling s) (log s))
      else Ret (mkState h (mkProfiler p filter (prof_handler_token_ c)) EnableSplice (handling s) [])
  | EnableSplice =>
      _ ← check (prof_handler_token_ c =? 0);
      Ret (mkState (HD.register_splice token CP.prof_handler_fn h) c (EnableFinish token) (handling s) (log s))
  | EnableFinish token =>
      let h := HD.register_finish h in
      _ ← check (negb (token =? 0));
      Ret (mkState h (CP.with_token token c) Idle (handling s) (log s))
  | DisableSwap a =>
      _ ← check (negb (prof_handler_token_ c =? 0));
      h ← HD.unregister_swap (prof_handler_token_ c) h;
      Ret (mkState h c (DisableFinish a) (handling s) (log s))
  | DisableFinish a =>
      h ← HD.unregister_finish (prof_handler_token_ c) h;
      Ret (mkState h (CP.with_token 0 c) (Collect a) (handling s) (log s))
  | Collect ThenStop => Ret (mkState h (CP.with_collector (PD.Stop (collector_ c)) c) Idle (handling s) (log s))
  | Collect ThenFlush =>
      Ret (mkState h (CP.with_collector (PD.FlushTable (collector_ c)) c) EnableSplice (handling s) (log s ++ [OFlush]))
  end.

(** The next callback of the signal handler. Adding to the collector while
    one of its methods runs would be a data race. *)
Definition taken (smp : Sample) (c : CpuProfiler) : list op :=
  if negb (filter_ c) || passes smp then [OAdd (Z.of_nat (length (CP.used_stack smp))) (CP.used_stack smp)] else [].
Definition call_back (s : State) : outcome State :=
  match handling s with
  | Some (t :: rest, smp) =>
      f ← deref (tokens (hnd s) !! t);
      _ ← deref (if (f =? CP.prof_handler_fn) && collecting (ctl s) then None else Some tt);
      c ← CP.run_callback smp (hnd s) (prof s) t;
      Ret (mkState (hnd s) c (ctl s) (Some (rest, smp)) (log s ++ if f =? CP.prof_handler_fn then taken smp (prof s) else []))
  | _ => Ret s
  end.

Definition fresh_token (t : Z) (h : ProfileHandler) : Prop := 0 < t /\ tokens h !! t = None.
(** Bounds on what memory and time allow. *)
Definition room (s : State) : Prop := Z.of_nat (length (callbacks_ (hnd s))) < 2 ^ 30 /\ Z.of_nat (length (log s)) < 2 ^ 63.

Inductive step : State -> State -> Prop :=
  | step_begin s c : ctl s = Idle -> step s (begin c s)
  | step_advance s token s' : ctl s <> Idle -> (locks (ctl s) = true -> handling s = None) -> fresh_token token (hnd s) -> room s ->
      advance token s = Ret s' -> step s s'
  | step_signal s smp : handling s = None ->
      step s (mkState (HD.with_interrupts (s64 (interrupts_ (hnd s) + 1)) (hnd s)) (prof s) (ctl s) (Some (callbacks_ (hnd s), smp)) (log s))
  | step_callback s s' : handling s <> None -> room s -> call_back s = Ret s' -> step s s'
  | step_return s smp : handling s = Some ([], smp) -> step s (mkState (hnd s) (prof s) (ctl s) None (log s))
  (** other clients of the registry *)
  | step_register s token f : handling s = None -> fresh_token token (hnd s) -> f <> CP.prof_handler_fn -> room s ->
      step s (mkState (HD.RegisterCallback token f (hnd s)) (prof s) (ctl s) None (log s))
  | step_unregister s token f h : handling s = None -> token ∈ callbacks_ (hnd s) -> tokens (hnd s) !! token = Some f -> f <> CP.prof_handler_fn ->
      HD.UnregisterCallback token (hnd s) = Ret h -> step s (mkState h (prof s) (ctl s) None (log s)).
Inductive reachable (h0 : ProfileHandler) : State -> Prop :=
  | reach_init : reachable h0 (init h0)
  | reach_step s s' : reachable h0 s -> step s s' -> reachable h0 s'.
End Run.

(** ** The invariant *)
Module RunInv.
Import Run.
Definition period (h : ProfileHandler) : Z := u64 (s32 (Z.quot 1000000 (frequency_ h))).
Definition interval (h : ProfileHandler) : Z * Z := (Z.quot (Z.quot kMillion (frequency_ h)) kMillion, Z.rem (Z.quot kMillion (frequency_ h)) kMillion).
(** The process timer runs exactly while there are callbacks. *)
Definition timer_ok (h : ProfileHandler) : Prop := per_thread_timer_enabled_ h = false ->
  timer_running_ h = (callback_count_ h >? 0) /\ itimer h = if callback_count_ h >? 0 then interval h else (0, 0).
(** The profiler's token in the list. *)
Definition armed (s : State) : option Z :=
  match ctl s with
  | Idle | DisableSwap _ => if prof_handler_token_ (prof s) =? 0 then None else Some (prof_handler_token_ (prof s))
  | EnableFinish t => Some t
  | _ => None
  end.
(** Registered callbacks that are not counted yet, or counted still. *)
Definition owed (p : pc) : Z := match p with EnableFinish _ => 1 | DisableFinish _ => -1 | _ => 0 end.
Definition enabled (s : State) : bool := PD.enabled (collector_ (prof s)).
Definition token_ok (s : State) : Prop :=
  let t := prof_handler_token_ (prof s) in
  match ctl s with
  | Idle => enabled s = negb (t =? 0)
  | StartCollect _ _ _ => enabled s = false /\ t = 0
  | EnableSplice | Collect _ => enabled s = true /\ t = 0
  | EnableFinish u => enabled s = true /\ t = 0 /\ 0 < u
  | DisableSwap _ => enabled s = true /\ t <> 0
  | DisableFinish _ => enabled s = true /\ t <> 0 /\ t ∉ callbacks_ (hnd s) /\ tokens (hnd s) !! t = Some CP.prof_handler_fn
  end.
Definition collector_ok (s : State) : Prop := enabled s = true ->
  Z.of_nat (length (log s)) <= 2 ^ 63 /\ exists rs, Inv (period (hnd s)) (Z.of_nat (length (log s))) rs (collector_ (prof s)) /\
    forall t, tally t rs + in_table t (collector_ (prof s)) = added t (log s).

Record SInv (s : State) : Prop := {
  si_nodup : NoDup (callbacks_ (hnd s));
  si_live : forall t, t ∈ callbacks_ (hnd s) -> is_Some (tokens (hnd s) !! t);
  si_pos : forall t f, tokens (hnd s) !! t = Some f -> 0 < t;
  si_prof : forall t, t ∈ callbacks_ (hnd s) -> tokens (hnd s) !! t = Some CP.prof_handler_fn -> armed s = Some t;
  si_armed : forall t, armed s = Some t -> t ∈ callbacks_ (hnd s) /\ tokens (hnd s) !! t = Some CP.prof_handler_fn;
  si_count : callback_count_ (hnd s) + owed (ctl s) = Z.of_nat (length (callbacks_ (hnd s)));
  si_len : Z.of_nat (length (callbacks_ (hnd s))) <= 2 ^ 30;
  si_timer : timer_ok (hnd s);
  si_token : token_ok s;
  si_handling : forall l smp, handling s = Some (l, smp) -> l ⊆ callbacks_ (hnd s);
  si_freq : 1 <= frequency_ (hnd s) <= kMaxFrequency;
  si_collector : collector_ok s }.

(** What the timer functions leave alone. *)
Definition same_registry (h h' : ProfileHandler) : Prop := callbacks_ h' = callbacks_ h /\ tokens h' = tokens h /\ frequency_ h' = frequency_ h /\
  per_thread_timer_enabled_ h' = per_thread_timer_enabled_ h /\ interrupts_ h' = interrupts_ h.
Lemma UpdateTimer_same b h : same_registry h (HD.UpdateTimer b h) /\ callback_count_ (HD.UpdateTimer b h) = callback_count_ h.
Proof. unfold HD.UpdateTimer. destruct (per_thread_timer_enabled_ h) eqn:E; [done|]. destruct (Bool.eqb _ _); done. Qed.
Lemma register_finish_ok h : timer_ok h -> 0 <= callback_count_ h < 2 ^ 31 - 1 ->
  timer_ok (HD.register_finish h) /\ same_registry h (HD.register_finish h) /\ callback_count_ (HD.register_finish h) = callback_count_ h + 1.
Proof.
  intros Ht Hc. unfold HD.register_finish. rewrite s32_small by lia. set (h1 := HD.with_count _ h).
  destruct (UpdateTimer_same true h1) as [Hs Hn]. split; [|done]. intros Hp. destruct Hs as (_ & _ & Hf & Hp' & _). rewrite Hp' in Hp.
  change (per_thread_timer_enabled_ h = false) in Hp.
  destruct (Ht Hp) as [Hr Hi]. rewrite Hn. cbn [callback_count_ HD.with_count h1].
  rewrite (proj2 (Z.gtb_lt (callback_count_ h + 1) 0)) by lia. unfold HD.UpdateTimer. cbn [per_thread_timer_enabled_ HD.with_count h1]. rewrite Hp.
  cbn [timer_running_ h1 HD.with_count]. rewrite Hr. destruct (callback_count_ h >? 0); cbn; rewrite ?Hr, ?Hi; done.
Qed.
Lemma unregister_finish_ok t f h : timer_ok h -> 0 < callback_count_ h < 2 ^ 31 -> tokens h !! t = Some f ->
  exists h', HD.unregister_finish t h = Ret h' /\ timer_ok h' /\ callbacks_ h' = callbacks_ h /\ tokens h' = delete t (tokens h) /\
    frequency_ h' = frequency_ h /\ callback_count_ h' = callback_count_ h - 1 /\ per_thread_timer_enabled_ h' = per_thread_timer_enabled_ h.
Proof.
  intros Ht Hc Hl. unfold HD.unregister_finish. rewrite s32_small by lia. set (h1 := HD.with_count _ h). cbn [callback_count_ HD.with_count h1].
  assert (Hz : exists h2, (if callback_count_ h - 1 =? 0 then HD.UpdateTimer false h1 else h1) = h2 /\ timer_ok h2 /\ same_registry h h2 /\
    callback_count_ h2 = callback_count_ h - 1).
  { eexists. split; [reflexivity|]. destruct (Z.eqb_spec (callback_count_ h - 1) 0) as [E|E].
    - destruct (UpdateTimer_same false h1) as [Hs Hn]. split; [|done]. intros Hp. destruct Hs as (_ & _ & _ & Hp' & _). rewrite Hp' in Hp.
  change (per_thread_timer_enabled_ h = false) in Hp.
      destruct (Ht Hp) as [Hr Hi]. rewrite Hn. cbn [callback_count_ HD.with_count h1]. rewrite E. cbn [Z.gtb Z.compare].
      unfold HD.UpdateTimer. cbn [per_thread_timer_enabled_ HD.with_count h1]. rewrite Hp. cbn [timer_running_ h1 HD.with_count].
      rewrite Hr. replace (callback_count_ h >? 0) with true by lia. done.
    - split; [|done]. intros Hp. destruct (Ht Hp) as [Hr Hi]. cbn [timer_running_ itimer callback_count_ HD.with_count h1].
      rewrite Hr, Hi. replace (callback_count_ h >? 0) with true by lia. replace (callback_count_ h - 1 >? 0) with true by lia. done. }
  destruct Hz as (h2 & -> & Ht2 & (E1 & E2 & E3 & E4 & _) & E5). rewrite E2, Hl. obind. eexists. split; [done|]. cbn.
  rewrite E1, E3, E4, E5. split_and!; [|done..]. exact Ht2.
Qed.

Lemma period_same h h' : frequency_ h' = frequency_ h -> period h' = period h.
Proof. unfold period. by intros ->. Qed.
Lemma filter_out_absent (t : Z) (l : list Z) : t ∉ l -> filter (fun u => u <> t) l = l.
Proof.
  induction l as [|x l IH]; intros Ht; [done|]. rewrite filter_cons_True by set_solver. f_equal. apply IH. set_solver.
Qed.
Lemma length_filter_out (t : Z) (l : list Z) : NoDup l -> t ∈ l -> Z.of_nat (length (filter (fun u => u <> t) l)) = Z.of_nat (length l) - 1.
Proof.
  induction 1 as [|x l Hx Hl IH]; intros Ht; [by apply elem_of_nil in Ht|]. destruct (decide (x = t)) as [->|Hne].
  - rewrite filter_cons_False by naive_solver. rewrite filter_out_absent by done. cbn [length]. lia.
  - rewrite filter_cons_True by done. apply elem_of_cons in Ht as [->|Ht]; [done|]. specialize (IH Ht). cbn [length]. lia.
Qed.

(** Fields of a state that a constructor application shows. *)
Ltac fields := cbn [hnd prof ctl handling log collector_ filter_ prof_handler_token_ CP.with_token CP.with_collector callbacks_ tokens frequency_
  callback_count_ HD.with_callbacks HD.register_splice HD.with_interrupts armed owed token_ok enabled].

Lemma collector_same s s' : collector_ok s -> collector_ (prof s') = collector_ (prof s) -> log s' = log s -> frequency_ (hnd s') = frequency_ (hnd s) -> collector_ok s'.
Proof.
  unfold collector_ok, enabled. intros Hc -> -> Hf He. rewrite (period_same _ _ Hf). by apply Hc.
Qed.

Section Advance.
Context (s : State) (HI : SInv s).
Let h := hnd s.

Lemma start_ok fd now flt : ctl s = StartCollect fd now flt -> exists s', advance 0 s = Ret s' /\ SInv s'.
Proof using HI.
  intros Hctl. destruct HI as [H1 H2 H3 H4 H5 H6 H7 H8 H9 H10 H11 H12]. unfold token_ok, armed, collector_ok in *. rewrite Hctl in *. destruct H9 as [He Ht].
  unfold advance. rewrite Hctl. cbn [HD.GetState fst snd]. destruct (Z.ltb_spec fd 0) as [Hfd|Hfd].
  - unfold PD.Start. unfold enabled in He. rewrite He. rewrite (proj2 (Z.ltb_lt fd 0)) by done. obind. cbn [negb]. eexists. split; [done|].
    split; fields; unfold armed, token_ok, collector_ok, enabled; fields; rewrite ?Ht, ?He; cbn; try done.
  - destruct (Start_inv fd (frequency_ (hnd s)) now (collector_ (prof s)) He Hfd) as (p' & -> & Hp & Hin); [lia|].
    obind. cbn [negb]. eexists. split; [done|].
    split; fields; unfold armed, token_ok, collector_ok, enabled; fields; rewrite ?Ht; try done.
    + split; [apply (inv_enabled _ _ _ _ Hp)|done].
    + intros _. split; [cbn; lia|]. exists []. split; [exact Hp|]. intros t. rewrite Hin. reflexivity.
Qed.
Lemma splice_ok token : ctl s = EnableSplice -> handling s = None -> fresh_token token h -> room s -> exists s', advance token s = Ret s' /\ SInv s'.
Proof using HI.
  intros Hctl Hh [Hf0 Hf] [Hr _]. destruct HI as [H1 H2 H3 H4 H5 H6 H7 H8 H9 H10 H11 H12].
  unfold token_ok, armed in *. rewrite Hctl in *. destruct H9 as [He Ht].
  assert (Hnew : token ∉ callbacks_ (hnd s)) by (intros Hin; apply H2 in Hin; unfold h in Hf; rewrite Hf in Hin; by destruct Hin).
  unfold advance. rewrite Hctl, Ht. obind. cbn [check Z.eqb]. obind. eexists. split; [done|]. cbn [owed] in H6.
  split; fields; unfold armed, token_ok; fields; rewrite ?length_app; cbn [length]; try done.
  - apply NoDup_app. split_and!; [done|set_solver|apply NoDup_singleton].
  - intros t. rewrite elem_of_app, list_elem_of_singleton. intros [Hin| ->]; [|by rewrite lookup_insert_eq].
    rewrite lookup_insert_ne by (by intros ->). by apply H2.
  - intros t f. rewrite lookup_insert_Some. intros [[<- _]|[_ ?]]; [done|by eapply H3].
  - intros t. rewrite elem_of_app, list_elem_of_singleton. intros [Hin| ->]; [|done].
    rewrite lookup_insert_ne by (by intros ->). intros E. by apply H4 in E.
  - intros t [= <-]. rewrite lookup_insert_eq. split; [set_solver|done].
  - lia.
  - lia.
  - by rewrite Hh.
Qed.
Lemma enable_finish_ok t : ctl s = EnableFinish t -> exists s', advance 0 s = Ret s' /\ SInv s'.
Proof using HI.
  intros Hctl. destruct HI as [H1 H2 H3 H4 H5 H6 H7 H8 H9 H10 H11 H12]. unfold token_ok, armed in *. rewrite Hctl in *. destruct H9 as (He & Ht & Hpos).
  cbn [owed] in H6. destruct (H5 t eq_refl) as [Hin Htk]. assert (0 < Z.of_nat (length (callbacks_ (hnd s)))).
  { destruct (callbacks_ (hnd s)); [by apply elem_of_nil in Hin|cbn; lia]. }
  unfold advance. rewrite Hctl. obind. replace (t =? 0) with false by lia. cbn [negb check]. obind. eexists. split; [done|].
  destruct (register_finish_ok (hnd s) H8 ltac:(lia)) as (Htm & (E1 & E2 & E3 & E4 & _) & E5).
  split; fields; unfold armed, token_ok; fields; rewrite ?E1, ?E2, ?E3, ?E5; replace (t =? 0) with false by lia; try done.
  - lia.
  - by apply (collector_same s).
Qed.
Lemma swap_ok a : ctl s = DisableSwap a -> handling s = None -> exists s', advance 0 s = Ret s' /\ SInv s'.
Proof using HI.
  intros Hctl Hh. destruct HI as [H1 H2 H3 H4 H5 H6 H7 H8 H9 H10 H11 H12]. unfold token_ok, armed in *. rewrite Hctl in *. destruct H9 as (He & Ht).
  cbn [owed] in H6. set (t := prof_handler_token_ (prof s)) in *. rewrite (proj2 (Z.eqb_neq t 0)) in * by done.
  destruct (H5 t eq_refl) as [Hin Htk]. pose proof (length_filter_out t _ H1 Hin) as Hlen.
  unfold advance, HD.unregister_swap. rewrite Hctl. fold t. rewrite (proj2 (Z.eqb_neq t 0)) by done. cbn [negb check]. obind.
  assert (0 < Z.of_nat (length (callbacks_ (hnd s)))) by (destruct (callbacks_ (hnd s)); [by apply elem_of_nil in Hin|cbn; lia]).
  rewrite (proj2 (Z.gtb_lt (callback_count_ (hnd s)) 0)) by lia. cbn [check]. obind. rewrite bool_decide_eq_true_2 by done. cbn [check]. obind.
  eexists. split; [done|]. split; fields; unfold armed, token_ok; fields; try done.
  - by apply NoDup_filter.
  - intros u [_ Hu]%list_elem_of_filter. by apply H2.
  - intros u [Hne Hu]%list_elem_of_filter E. apply H4 in E; [|done]. by injection E.
  - lia.
  - lia.
  - split_and!; [done..| |done]. by intros [? _]%list_elem_of_filter.
  - by rewrite Hh.
Qed.
Lemma disable_finish_ok a : ctl s = DisableFinish a -> exists s', advance 0 s = Ret s' /\ SInv s'.
Proof using HI.
  intros Hctl. destruct HI as [H1 H2 H3 H4 H5 H6 H7 H8 H9 H10 H11 H12]. unfold token_ok, armed in *. rewrite Hctl in *. destruct H9 as (He & Ht & Hout & Htk).
  cbn [owed] in H6. unfold advance. rewrite Hctl. set (t := prof_handler_token_ (prof s)) in *.
  destruct (unregister_finish_ok t _ (hnd s) H8 ltac:(lia) Htk) as (h' & -> & Htm & E1 & E2 & E3 & E4 & _). obind.
  eexists. split; [done|]. split; fields; unfold armed, token_ok; fields; rewrite ?E1, ?E2, ?E3, ?E4; try done.
  - intros u Hu. rewrite lookup_delete_ne by (by intros ->). by apply H2.
  - intros u f [_ E]%lookup_delete_Some. by eapply H3.
  - intros u Hu [_ E]%lookup_delete_Some. by apply (H4 u).
  - lia.
  - by apply (collector_same s).
Qed.
Lemma collect_ok a : ctl s = Collect a -> room s -> exists s', advance 0 s = Ret s' /\ SInv s'.
Proof using HI.
  intros Hctl [_ Hr]. destruct HI as [H1 H2 H3 H4 H5 H6 H7 H8 H9 H10 H11 H12]. unfold token_ok, armed in *. rewrite Hctl in *. destruct H9 as (He & Ht).
  cbn [owed] in H6. destruct (H12 He) as (_ & rs & Hinv & Htl). unfold advance. rewrite Hctl. destruct a; eexists; (split; [done|]).
  - destruct (Stop_file _ _ rs _ Hinv) as (us & _ & Hd & _ & _).
    split; fields; unfold armed, token_ok, collector_ok, enabled; fields; rewrite ?Ht, ?Hd; cbn; try done.
  - destruct (FlushTable_inv _ _ rs _ Hinv) as (rs' & Hinv' & Htl').
    split; fields; unfold armed, token_ok, collector_ok, enabled; fields; rewrite ?Ht; try done.
    + split; [apply (inv_enabled _ _ _ _ Hinv')|done].
    + intros _. rewrite length_app. cbn [length]. split; [lia|]. exists rs'. split; [apply (inv_le _ (Z.of_nat (length (log s)))); [lia|done]|].
      intros t. rewrite Htl', Htl. unfold added. rewrite fmap_app, sumZ_app. cbn. lia.
Qed.
End Advance.

Lemma advance_ok token s : SInv s -> ctl s <> Idle -> (locks (ctl s) = true -> handling s = None) -> fresh_token token (hnd s) -> room s ->
  exists s', advance token s = Ret s' /\ SInv s'.
Proof.
  intros HI Hne Hl Hf Hr. destruct (ctl s) eqn:E; [done|..].
  - replace (advance token s) with (advance 0 s) by (unfold advance; by rewrite E). by eapply start_ok.
  - apply splice_ok; auto.
  - replace (advance token s) with (advance 0 s) by (unfold advance; by rewrite E). by eapply enable_finish_ok.
  - replace (advance token s) with (advance 0 s) by (unfold advance; by rewrite E). eapply swap_ok; eauto.
  - replace (advance token s) with (advance 0 s) by (unfold advance; by rewrite E). by eapply disable_finish_ok.
  - replace (advance token s) with (advance 0 s) by (unfold advance; by rewrite E). by eapply collect_ok.
Qed.

(** The profiler's callback runs only while the collector is on and idle. *)
Lemma prof_running s t : SInv s -> t ∈ callbacks_ (hnd s) -> tokens (hnd s) !! t = Some CP.prof_handler_fn ->
  enabled s = true /\ collecting (ctl s) = false.
Proof.
  intros HI Hin Ht. pose proof (si_prof _ HI t Hin Ht) as Ha. pose proof (si_token _ HI) as Hk. unfold armed, token_ok in *.
  destruct (ctl s); try done; try (by destruct Hk). destruct (_ =? 0); done.
Qed.

Lemma callback_ok s : SInv s -> room s -> exists s', call_back s = Ret s' /\ SInv s' /\
  match handling s with Some (_ :: l, smp) => handling s' = Some (l, smp) | _ => s' = s end.
Proof.
  intros HI [_ Hr]. unfold call_back. destruct (handling s) as [[[|t l] smp]|] eqn:Eh; [by exists s..| |by exists s].
  pose proof (si_handling _ HI _ _ Eh) as Hsub. assert (Hin : t ∈ callbacks_ (hnd s)) by (apply Hsub; left).
  destruct (si_live _ HI t Hin) as [f Hf]. unfold CP.run_callback. rewrite Hf. obind.
  assert (Hl : forall l' smp', Some (l, smp) = Some (l', smp') -> l' ⊆ callbacks_ (hnd s)).
  { intros l' smp' [= <- _] u Hu. apply Hsub. by right. }
  destruct (Z.eqb_spec f CP.prof_handler_fn) as [->|Hn]; cbn [andb].
  - destruct (prof_running s t HI Hin Hf) as [He Hc]. rewrite Hc. obind. unfold CP.prof_handler, taken.
    destruct (si_collector _ HI He) as (Hlog & rs & Hinv & Htl).
    destruct (negb (filter_ (prof s)) || passes smp); obind.
    + set (us := CP.used_stack smp). destruct (Add_inv _ _ rs (Z.of_nat (length us)) us _ Hinv) as (p' & rs' & -> & Hinv' & Htl'); [|lia|lia|].
      { assert (us <> []) by (unfold us, CP.used_stack; destruct (frames smp); [done|]; by destruct (_ =? _)). destruct us; [done|cbn; lia]. }
      obind. eexists. split; [done|]. split; [|done].
      assert (Hon : PD.enabled p' = true) by apply (inv_enabled _ _ _ _ Hinv').
      destruct HI as [H1 H2 H3 H4 H5 H6 H7 H8 H9 H10 H11 H12].
      split; fields; unfold armed, token_ok, collector_ok, enabled in *; fields; try done; rewrite ?Hon; try (by rewrite He in H9).
      intros _. rewrite length_app. cbn [length]. split; [lia|]. exists rs'. split; [by replace (Z.of_nat (_ + 1)) with (Z.of_nat (length (log s)) + 1) by lia|].
      intros u. rewrite Htl', Htl. unfold added. rewrite fmap_app, sumZ_app. cbn. lia.
    + eexists. split; [done|]. split; [|done]. rewrite app_nil_r. by destruct HI; split.
  - obind. eexists. split; [done|]. split; [|done]. rewrite app_nil_r. by destruct HI; split.
Qed.

Lemma register_ok s token f : SInv s -> handling s = None -> fresh_token token (hnd s) -> f <> CP.prof_handler_fn -> room s ->
  SInv (mkState (HD.RegisterCallback token f (hnd s)) (prof s) (ctl s) None (log s)).
Proof.
  intros HI Hh [Hf0 Hf] Hne [Hr _]. destruct HI as [H1 H2 H3 H4 H5 H6 H7 H8 H9 H10 H11 H12].
  assert (Hnew : token ∉ callbacks_ (hnd s)) by (intros Hin; apply H2 in Hin; rewrite Hf in Hin; by destruct Hin).
  assert (Hcount : 0 <= callback_count_ (hnd s) < 2 ^ 31 - 1).
  { unfold owed, token_ok, armed in *. destruct (ctl s); try lia. destruct (H5 _ eq_refl) as [Hin _].
    destruct (callbacks_ (hnd s)); [by apply elem_of_nil in Hin|cbn in *; lia]. }
  destruct (register_finish_ok (HD.register_splice token f (hnd s)) H8 Hcount) as (Htm & (E1 & E2 & E3 & E4 & _) & E5).
  unfold HD.RegisterCallback. split; fields; rewrite ?E1, ?E2, ?E3, ?E5; fields; rewrite ?length_app; cbn [length]; try done.
  - apply NoDup_app. split_and!; [done|set_solver|apply NoDup_singleton].
  - intros t. rewrite elem_of_app, list_elem_of_singleton. intros [Hin| ->]; [|by rewrite lookup_insert_eq].
    rewrite lookup_insert_ne by (by intros ->). by apply H2.
  - intros t g. rewrite lookup_insert_Some. intros [[<- _]|[_ ?]]; [done|by eapply H3].
  - intros t. rewrite elem_of_app, list_elem_of_singleton. intros [Hin| ->]; [|rewrite lookup_insert_eq; congruence].
    rewrite lookup_insert_ne by (by intros ->). by apply H4.
  - intros t Ht. destruct (H5 t Ht) as [Hin E]. rewrite lookup_insert_ne by (by intros ->). split; [set_solver|done].
  - lia.
  - lia.
  - unfold token_ok in *. fields. destruct (ctl s); try done. destruct H9 as (? & ? & Hout & E). rewrite E1, E2. fields.
    rewrite lookup_insert_ne by congruence. split_and!; [done..| |done]. rewrite not_elem_of_app, list_elem_of_singleton.
    split; [done|congruence].
  - by apply (collector_same s).
Qed.
Lemma unregister_ok s token f h : SInv s -> token ∈ callbacks_ (hnd s) -> tokens (hnd s) !! token = Some f -> f <> CP.prof_handler_fn ->
  HD.UnregisterCallback token (hnd s) = Ret h -> SInv (mkState h (prof s) (ctl s) None (log s)).
Proof.
  intros HI Hin Hf Hne Hu. destruct HI as [H1 H2 H3 H4 H5 H6 H7 H8 H9 H10 H11 H12]. pose proof (length_filter_out token _ H1 Hin) as Hlen.
  unfold HD.UnregisterCallback, HD.unregister_swap in Hu. destruct (callback_count_ (hnd s) >? 0) eqn:Ec; [|done]. apply Z.gtb_lt in Ec.
  cbn [check] in Hu. rewrite bool_decide_eq_true_2 in Hu by done. cbn [check mbind outcome_bind] in Hu.
  assert (callback_count_ (hnd s) < 2 ^ 31) by (unfold owed in H6; destruct (ctl s); lia).
  destruct (unregister_finish_ok token f (HD.with_callbacks (filter (fun t => t <> token) (callbacks_ (hnd s))) (tokens (hnd s)) (hnd s)) H8 ltac:(fields; lia) Hf)
    as (h' & E & Htm & E1 & E2 & E3 & E4 & _). rewrite E in Hu. injection Hu as <-. revert E1 E2 E3 E4. fields. intros E1 E2 E3 E4.
  split; fields; rewrite ?E1, ?E2, ?E3, ?E4; try done.
  - by apply NoDup_filter.
  - intros u [Hne' Hu]%list_elem_of_filter. rewrite lookup_delete_ne by done. by apply H2.
  - intros u g [_ Eu]%lookup_delete_Some. by eapply H3.
  - intros u [_ Hu]%list_elem_of_filter [_ Eu]%lookup_delete_Some. by apply (H4 u).
  - intros t Ht. destruct (H5 t Ht) as [Hi Et]. assert (t <> token) by congruence. rewrite lookup_delete_ne by done.
    split; [by apply list_elem_of_filter|done].
  - lia.
  - lia.
  - unfold token_ok in *. fields. destruct (ctl s); try done. destruct H9 as (? & ? & Hout & Et). rewrite E1, E2.
    assert (prof_handler_token_ (prof s) <> token) by congruence. rewrite lookup_delete_ne by done.
    split_and!; [done..| |done]. by intros [_ ?]%list_elem_of_filter.
  - by apply (collector_same s).
Qed.

Lemma step_ok s s' : SInv s -> step s s' -> SInv s'.
Proof.
  intros HI Hs. destruct Hs as [s c Hc|s token s' Hne Hl Hf Hr E|s smp Hh|s s' Hh Hr E|s smp Hh|s token f Hh Hf Hne Hr|s token f h Hh Hin Hf Hne Hu].
  - destruct HI as [H1 H2 H3 H4 H5 H6 H7 H8 H9 H10 H11 H12]. unfold token_ok, armed in *. rewrite Hc in *. unfold begin, enabled in *.
    destruct c as [fd now flt| |]; destruct (PD.enabled (collector_ (prof s))) eqn:He; cbn [negb];
      (destruct (Z.eqb_spec (prof_handler_token_ (prof s)) 0) as [E0|E0]; cbn [negb] in H9; [try done|try done]);
      split; unfold armed, token_ok, enabled; fields; rewrite ?E0, ?He; cbn [owed] in *; try done;
      try (rewrite (proj2 (Z.eqb_neq _ 0) E0); done); lia.
  - destruct (advance_ok token s HI Hne Hl Hf Hr) as (s2 & E' & HI'). congruence.
  - destruct HI as [H1 H2 H3 H4 H5 H6 H7 H8 H9 H10 H11 H12]. split; try done. by intros l smp' [= <- _].
  - destruct (callback_ok s HI Hr) as (s2 & E' & HI' & _). congruence.
  - destruct HI; by split.
  - by apply register_ok.
  - by eapply unregister_ok.
Qed.
Lemma handler_init_ok e : SInv (init (HD.new e)).
Proof.
  split; try done; try set_solver; cbn.
  - apply NoDup_nil_2.
  - unfold kDefaultFrequency, kMaxFrequency. destruct (frequency e) as [f|]; [|lia].
    destruct (Z.gtb_spec (s32 f) 0); [|lia]. destruct (Z.gtb_spec (s32 f) 4000); lia.
Qed.
Lemma reachable_inv e s : reachable (HD.new e) s -> SInv s.
Proof. induction 1 as [|s s' _ IH Hs]; [apply handler_init_ok|by eapply step_ok]. Qed.
End RunInv.

Import Run RunInv.
(** C36: the CPU profiler and its signal handler do not collide. In every
    interleaving of starts, stops and flushes with signals at any moment and
    with other clients of the registry, each callback that a signal is about
    to run has a token that was not deleted, the profiler's never runs while
    a method of the collector does, and it returns; the next step of an
    operation passes all its checks; between operations the process timer
    runs exactly while callbacks are registered; and the profile file a stop
    is about to write counts every trace as often as signals delivered it
    since the start. *)
Theorem cpu_profiler_safe (e : Environment) (s : State) : reachable (HD.new e) s -> room s ->
  (forall t l smp, handling s = Some (t :: l, smp) -> exists f s', tokens (hnd s) !! t = Some f /\
     (f = CP.prof_handler_fn -> collecting (ctl s) = false) /\ call_back s = Ret s' /\ handling s' = Some (l, smp)) /\
  (forall token, ctl s <> Idle -> (locks (ctl s) = true -> handling s = None) -> fresh_token token (hnd s) -> exists s', advance token s = Ret s') /\
  (ctl s = Idle -> per_thread_timer_enabled_ (hnd s) = false -> timer_running_ (hnd s) = bool_decide (callbacks_ (hnd s) <> [])) /\
  (ctl s = Collect ThenStop -> exists rs, decode (file (PD.Stop (collector_ (prof s)))) = Some (period (hnd s), rs, []) /\
     forall t, tally t rs = added t (log s)).
Proof.
  intros HR Hroom. apply reachable_inv in HR as HI. split_and!.
  - intros t l smp Hh. destruct (callback_ok s HI Hroom) as (s' & E & _ & Hn). rewrite Hh in Hn.
    assert (Hin : t ∈ callbacks_ (hnd s)) by (apply (si_handling _ HI _ _ Hh); left). destruct (si_live _ HI t Hin) as [f Hf].
    exists f, s'. split_and!; [done| |done..]. intros ->. by apply (prof_running s t).
  - intros token Hne Hl Hf. destruct (advance_ok token s HI Hne Hl Hf Hroom) as (s' & -> & _). by exists s'.
  - intros Hc Hp. destruct (si_timer _ HI Hp) as [-> _]. pose proof (si_count _ HI) as Hn. rewrite Hc in Hn. cbn [owed] in Hn.
    destruct (callbacks_ (hnd s)) as [|x l]; [rewrite bool_decide_eq_false_2 by naive_solver|rewrite bool_decide_eq_true_2 by done]; cbn in Hn; lia.
  - intros Hc. assert (He : enabled s = true) by (pose proof (si_token _ HI) as Hk; unfold token_ok in Hk; rewrite Hc in Hk; by destruct Hk).
    destruct (si_collector _ HI He) as (_ & rs & Hinv & Ht). destruct (Stop_file _ _ rs _ Hinv) as (us & -> & _ & Hpos & Hu).
    exists us. split; [by apply decode_file|]. intros t. by rewrite Hu, Ht.
Qed.

(** Each thread's own timer cannot run at one interrupt per second: the
    process ends when the thread is registered. *)
Theorem thread_timer_frequency_one h : allowed_ h = true -> per_thread_timer_enabled_ h = true -> frequency_ h = 1 -> HD.RegisterThread h = Fault CheckFailed.
Proof. intros Ha Hp Hf. unfold HD.RegisterThread, HD.StartLinuxThreadTimer. by rewrite Ha, Hp, Hf. Qed.
(** A profiler that was disabled because the signal is in use starts the
    timer all the same. *)
Theorem disallowed_timer_runs e t f : handler_free e (signal_number_ (HD.new e)) = false -> per_thread_timer_enabled_ (HD.new e) = false ->
  allowed_ (HD.RegisterCallback t f (HD.new e)) = false /\ timer_running_ (HD.RegisterCallback t f (HD.new e)) = true.
Proof.
  intros Hf Hp. unfold HD.RegisterCallback, HD.register_finish, HD.UpdateTimer. cbn [per_thread_timer_enabled_ HD.with_count HD.register_splice HD.with_callbacks].
  rewrite Hp. cbn. split; [|done]. exact Hf.
Qed.

(** A profile of one signal. *)
Definition one_env : Environment := mkEnv false None false None false (fun _ => true).
Definition one_sample : Sample := mkSample true 7 [9].
(** One more step from the state of [R], which is then written out. *)
Ltac normal R := match type of R with reachable ?h ?s => let s' := eval vm_compute in s in change (reachable h s') in R end.
Ltac next_step R R' tac := eassert (R' : reachable (HD.new one_env) _) by (eapply reach_step; [exact R|tac]); normal R'; clear R.
Ltac advance_with t := eapply (step_advance _ t); [discriminate|intros _; reflexivity|split; [lia|reflexivity]|split; cbn; lia|reflexivity].

Lemma cpu_profiler_safe_witness : exists s rs, reachable (HD.new one_env) s /\ ctl s = Collect ThenStop /\
  decode (file (PD.Stop (collector_ (prof s)))) = Some (10000, rs, []) /\ tally [7; 9] rs = 1.
Proof.
  pose proof (reach_init (HD.new one_env)) as R. normal R.
  next_step R R0 ltac:(apply (step_begin _ (CStart 3 5 false)); reflexivity).
  next_step R0 R1 ltac:(advance_with 16). next_step R1 R2 ltac:(advance_with 16). next_step R2 R3 ltac:(advance_with 32).
  next_step R3 R4 ltac:(apply (step_signal _ one_sample); reflexivity).
  next_step R4 R5 ltac:(eapply step_callback; [discriminate|split; cbn; lia|reflexivity]).
  next_step R5 R6 ltac:(eapply step_return; reflexivity).
  next_step R6 R7 ltac:(apply (step_begin _ CStop); reflexivity).
  next_step R7 R8 ltac:(advance_with 32). next_step R8 R9 ltac:(advance_with 32).
  match type of R9 with reachable _ ?s => exists s end.
  destruct (cpu_profiler_safe one_env _ R9) as (_ & _ & _ & Hf); [split; cbn; lia|].
  destruct (Hf eq_refl) as (rs & Hd & Ht). exists rs. split; [exact R9|]. split; [reflexivity|]. split; [exact Hd|]. rewrite Ht. reflexivity.
Defined.
