(* ===== verification/ThreadCachePtr.v ===== *)
(** * Thread-local cache pointers

    Models src/src/src/thread_cache_ptr.h and thread_cache_ptr.cc. [SlowTLS]
    is a hash table of entries linked through pointers to the place that
    points at them; it is used while the thread-local storage of the
    platform is not ready, while it is being set, and to signal that a
    stack trace is taken. Setting a thread-local value, creating the key and
    initialising the module can call malloc again, and so can the function
    that takes a trace: a call carries the calls that are nested in it. The
    model follows one thread, [me]; the table can hold entries of others. The
    client code is written and verified against the interface [SlowTlsOps];
    the hash table implements it. [ASSERT]s are kept as checks. *)
From S2P Require Import Prelude.

(** ** What the entry points need of the table *)

(** The fields of an entry besides its links. *)
Record Info := mkInfo { cache : Z; emergency_malloc : bool; was_allocated : bool }.
Class SlowTlsOps (T : Type) := {
  lookup_self : T -> outcome (option (Z * Info));
  (** at the address of a new entry *)
  register_self : Z -> Info -> T -> outcome T;
  unregister : Z -> T -> outcome T;
  set_emergency : Z -> bool -> T -> outcome T }.
(** [tls_ok t v o]: the thread's entry is [v], and [o] is what the table has
    for others. *)
Class SlowTlsLaws (T : Type) `{!SlowTlsOps T} {O : Type} (tls_ok : T -> option (Z * Info) -> O -> Prop) (vacant : Z -> T -> Prop) := {
  lookup_ok t v o : tls_ok t v o -> lookup_self t = Ret v;
  register_ok t o a i : tls_ok t None o -> 0 < a -> vacant a t ->
    exists t', register_self a i t = Ret t' /\ tls_ok t' (Some (a, i)) o /\ forall b, b <> a -> vacant b t -> vacant b t';
  unregister_ok t o a i : tls_ok t (Some (a, i)) o ->
    exists t', unregister a t = Ret t' /\ tls_ok t' None o /\ forall b, vacant b t -> vacant b t';
  emergency_ok t o a i b : tls_ok t (Some (a, i)) o ->
    exists t', set_emergency a b t = Ret t' /\ tls_ok t' (Some (a, mkInfo (cache i) b (was_allocated i))) o /\ forall b, vacant b t -> vacant b t' }.

(** ** The thread's pointer *)
Record Tls (T : Type) := mkTls {
  table : T;
  fast_path_cache : Z;
  (** the key is valid, and the value stored under it *)
  key_ready : bool;
  tls_value : Z;
  (** addresses of entries and of caches that are allocated next *)
  next_entry : Z;
  next_cache : Z }.
Arguments mkTls {T} table fast_path_cache key_ready tls_value next_entry next_cache.
Arguments table {T} t : rename.
Arguments fast_path_cache {T} t : rename.
Arguments key_ready {T} t : rename.
Arguments tls_value {T} t : rename.
Arguments next_entry {T} t : rename.
Arguments next_cache {T} t : rename.

(** A call, with what is called while it initialises the module and sets the
    thread-local value, or while the function of a scope runs. *)
Inductive act := Grab (during_init during_set : list act) | Scope (body : list act).
(** What it returns: the pointer and the mode, or whether a trace is allowed. *)
Inductive res := RGrab (ptr : Z) (is_emergency : bool) (nested : list res) | RScope (allowed : bool) (body : list res).

Module TCP.
Section ThreadCachePtr.
Context {T : Type} `{!SlowTlsOps T} (kHaveGoodTLS : bool).
Abbreviation S := (Tls T).
Definition with_table (t : T) (s : S) : S := mkTls t (fast_path_cache s) (key_ready s) (tls_value s) (next_entry s) (next_cache s).
Definition with_fast (c : Z) (s : S) : S := mkTls (table s) c (key_ready s) (tls_value s) (next_entry s) (next_cache s).
Definition with_value (c : Z) (s : S) : S := mkTls (table s) (fast_path_cache s) (key_ready s) c (next_entry s) (next_cache s).

Definition GetIfPresent (s : S) : Z :=
  if kHaveGoodTLS then fast_path_cache s else if negb (key_ready s) then 0 else tls_value s.
(** An address for an entry, and [ThreadCache::NewHeap]. *)
Definition new_entry (s : S) : Z * S :=
  (next_entry s, mkTls (table s) (fast_path_cache s) (key_ready s) (tls_value s) (next_entry s + 1) (next_cache s)).
Definition NewHeap (s : S) : Z * S :=
  (next_cache s, mkTls (table s) (fast_path_cache s) (key_ready s) (tls_value s) (next_entry s) (next_cache s + 1)).
Definition register (a : Z) (i : Info) (s : S) : outcome S := t ← register_self a i (table s); Ret (with_table t s).
Definition leave (a : Z) (s : S) : outcome S := t ← unregister a (table s); Ret (with_table t s).
(** [SetTlsValue], with the calls it makes. *)
Definition SetTlsValue (c : Z) (nested : S -> outcome (list res * S)) (s : S) : outcome (list res * S) :=
  '(r, s) ← nested s; Ret (r, with_value c s).
Definition quiet (s : S) : outcome (list res * S) := Ret ([], s).

Definition TryToReleaseCacheFromAllocation (a : Z) (i : Info) (s : S) : outcome (Z * S) :=
  _ ← check (negb (emergency_malloc i));
  if was_allocated i && key_ready s then s ← leave a s; Ret (cache i, s) else Ret (0, s).

Definition GetReallySlow (init : S -> outcome (list res * S)) (s : S) : outcome (Z * bool * list res * S) :=
  '(r, s) ← init s;
  v ← lookup_self (table s);
  match v with
  | Some (_, i) => Ret (cache i, emergency_malloc i, r, s)
  | None =>
      let '(c, s) := NewHeap s in
      let '(a, s) := new_entry s in
      s ← register a (mkInfo c false true) s;
      Ret (c, false, r, s)
  end.

(** The part of [GetSlow] that stores a cache in thread-local storage. *)
Definition store_cache (c : Z) (set : S -> outcome (list res * S)) (s : S) : outcome (Z * bool * list res * S) :=
  let '(a, s) := new_entry s in
  s ← register a (mkInfo c false false) s;
  '(r, s) ← SetTlsValue c set s;
  s ← leave a s;
  let s := if kHaveGoodTLS then with_fast c s else s in
  Ret (c, false, r, s).
Definition GetSlow (init set : S -> outcome (list res * S)) (s : S) : outcome (Z * bool * list res * S) :=
  _ ← check (GetIfPresent s =? 0);
  v ← lookup_self (table s);
  match v with
  | Some (a, i) =>
      if emergency_malloc i then Ret (0, true, [], s) else
      '(c, s) ← TryToReleaseCacheFromAllocation a i s;
      if c =? 0 then Ret (cache i, false, [], s) else store_cache c set s
  | None =>
      if negb (key_ready s) then GetReallySlow init s else
      let '(c, s) := NewHeap s in store_cache c set s
  end.

Definition WithStacktraceScope (fn : S -> outcome (list res * S)) (s : S) : outcome (bool * list res * S) :=
  v ← lookup_self (table s);
  match v with
  | Some (a, i) =>
      if emergency_malloc i then '(r, s) ← fn s; Ret (false, r, s) else
      _ ← check (GetIfPresent s =? 0);
      t ← set_emergency a true (table s);
      '(r, s) ← fn (with_table t s);
      t ← set_emergency a false (table s);
      Ret (true, r, with_table t s)
  | None =>
      let c := GetIfPresent s in
      let '(a, s) := new_entry s in
      s ← register a (mkInfo c true false) s;
      s ← (if negb (c =? 0) then
             _ ← check (key_ready s);
             '(_, s) ← SetTlsValue 0 quiet (if kHaveGoodTLS then with_fast 0 s else s); Ret s
           else Ret s);
      '(r, s) ← fn s;
      s ← (if negb (c =? 0) then
             '(_, s) ← SetTlsValue c quiet s; Ret (if kHaveGoodTLS then with_fast c s else s)
           else Ret s);
      s ← leave a s;
      Ret (true, r, s)
  end.

Fixpoint run (a : act) (s : S) {struct a} : outcome (res * S) :=
  let runs := fix runs (l : list act) (s : S) {struct l} : outcome (list res * S) :=
    match l with [] => Ret ([], s) | a :: l => '(r, s) ← run a s; '(rs, s) ← runs l s; Ret (r :: rs, s) end in
  match a with
  | Grab init set =>
      let c := GetIfPresent s in
      if negb (c =? 0) then Ret (RGrab c false [], s)
      else '(c, e, r, s) ← GetSlow (runs init) (runs set) s; Ret (RGrab c e r, s)
  | Scope body => '(b, r, s) ← WithStacktraceScope (runs body) s; Ret (RScope b r, s)
  end.
Fixpoint runs (l : list act) (s : S) : outcome (list res * S) :=
  match l with [] => Ret ([], s) | a :: l => '(r, s) ← run a s; '(rs, s) ← runs l s; Ret (r :: rs, s) end.

Definition ClearCacheTLS (s : S) : S := if kHaveGoodTLS then with_fast 0 s else s.
Definition ReleaseAndClear (s : S) : outcome (Z * S) :=
  let c := GetIfPresent s in
  if negb (c =? 0) then '(_, s) ← SetTlsValue 0 quiet (ClearCacheTLS s); Ret (c, s) else Ret (c, s).
(** [InitThreadCachePtrLate], with the calls of the initialisation and of
    the creation of the key. *)
Definition InitThreadCachePtrLate (nested : list act) (s : S) : outcome (list res * S) :=
  _ ← check (negb (key_ready s));
  '(r, s) ← runs nested s;
  Ret (r, mkTls (table s) (fast_path_cache s) true (tls_value s) (next_entry s) (next_cache s)).
(** The destructor of the key when the thread ends: the cache it deletes. *)
Definition thread_exit (s : S) : Z * S := (tls_value s, with_value 0 (ClearCacheTLS s)).
End ThreadCachePtr.
End TCP.

(** ** One cache per thread *)

(** What the results may be for a thread whose cache is [m] at the end:
    outside of scopes every pointer is that cache, inside of them none is given
    out and no further trace is allowed. *)
Fixpoint good (m : option Z) (emergency : bool) (r : res) : Prop :=
  let goods := fix goods (e : bool) (l : list res) : Prop := match l with [] => True | r :: l => good m e r /\ goods e l end in
  match r with
  | RGrab p e nested => if emergency then p = 0 /\ e = true /\ nested = [] else m = Some p /\ e = false /\ goods false nested
  | RScope allowed body => allowed = negb emergency /\ goods true body
  end.
Definition goods (m : option Z) : bool -> list res -> Prop :=
  fix goods (e : bool) (l : list res) : Prop := match l with [] => True | r :: l => good m e r /\ goods e l end.

Lemma res_ind' (P : res -> Prop) : (forall p e l, Forall P l -> P (RGrab p e l)) -> (forall b l, Forall P l -> P (RScope b l)) -> forall r, P r.
Proof.
  intros HG HS. fix IH 1. intros [p e l|b l]; [apply HG|apply HS]; induction l as [|r l IHl]; constructor; auto.
Qed.
Lemma act_ind' (P : act -> Prop) : (forall i l, Forall P i -> Forall P l -> P (Grab i l)) -> (forall l, Forall P l -> P (Scope l)) -> forall a, P a.
Proof.
  intros HG HS. fix IH 1. intros [i l|l]; [apply HG; [clear l; rename i into l|]|apply HS]; induction l as [|r l IHl]; constructor; auto.
Qed.
Lemma good_grab m e p b l : good m e (RGrab p b l) = if e then p = 0 /\ b = true /\ l = [] else m = Some p /\ b = false /\ goods m false l.
Proof. by destruct e. Qed.
Lemma good_scope m e b l : good m e (RScope b l) = (b = negb e /\ goods m true l).
Proof. done. Qed.

(** A thread that has a cache keeps it. *)
Definition grows (m m' : option Z) : Prop := forall c, m = Some c -> m' = Some c.
#[export] Instance grows_preorder : PreOrder grows.
Proof. split; [by intros m c|]. intros a b c H1 H2 x Hx. auto. Qed.
Lemma good_mono m m' r : grows m m' -> forall e, good m e r -> good m' e r.
Proof.
  intros Hm. assert (Hl : forall l, Forall (fun r => forall e, good m e r -> good m' e r) l -> forall e, goods m e l -> goods m' e l).
  { induction 1 as [|x l Hx _ IH]; intros e; [done|]. intros [? ?]. split; auto. }
  induction r as [p b l IH|b l IH] using res_ind'; intros e; rewrite ?good_grab, ?good_scope.
  - destruct e; [done|]. intros (-> & -> & Hg). split_and!; [by apply Hm|done|by apply Hl].
  - intros [-> Hg]. split; [done|by apply Hl].
Qed.
Lemma goods_mono m m' e l : grows m m' -> goods m e l -> goods m' e l.
Proof. intros Hm. induction l as [|r l IH]; [done|]. intros [? ?]. split; [by eapply good_mono|auto]. Qed.

Section Correct.
Context {T : Type} `{!SlowTlsOps T} {O : Type} {tls_ok : T -> option (Z * Info) -> O -> Prop} {vacant : Z -> T -> Prop}
  `{!SlowTlsLaws T tls_ok vacant} (kHaveGoodTLS : bool).
Import TCP.

(** The thread's cache is in thread-local storage unless it is in an entry. *)
Definition stored (v : option (Z * Info)) (m : option Z) : Z := match v with None => default 0 m | Some _ => 0 end.
Definition mode (v : option (Z * Info)) : bool := match v with Some (_, i) => emergency_malloc i | None => false end.
Record St (s : Tls T) (v : option (Z * Info)) (m : option Z) (o : O) : Prop := {
  st_tls : tls_ok (table s) v o;
  st_vacant : forall a, next_entry s <= a -> vacant a (table s);
  st_pos : 0 < next_entry s /\ 0 < next_cache s;
  st_value : tls_value s = stored v m;
  st_fast : kHaveGoodTLS = true -> fast_path_cache s = stored v m;
  st_ready : v = None -> m <> None -> key_ready s = true;
  st_entry : match v with Some (_, i) => cache i = default 0 m /\ (emergency_malloc i = false -> m <> None) | None => True end;
  st_cache : forall c, m = Some c -> 0 < c < next_cache s }.

(** The entry of the thread after a call. *)
Definition entry_after (ready : bool) (v v' : option (Z * Info)) : Prop :=
  match v with
  | Some (a, i) => v' = v \/ (was_allocated i = true /\ emergency_malloc i = false /\ ready = true /\ v' = None)
  | None => v' = None \/ (ready = false /\ exists a c, v' = Some (a, mkInfo c false true))
  end.
Record Done (s s' : Tls T) (v v' : option (Z * Info)) (m m' : option Z) (o : O) : Prop := {
  dn_st : St s' v' m' o;
  dn_ready : key_ready s' = key_ready s;
  dn_entry : entry_after (key_ready s) v v';
  dn_grows : grows m m';
  dn_mode : mode v = true -> m' = m;
  dn_new : next_cache s' = next_cache s + (if decide (m = m') then 0 else 1) }.

Lemma entry_after_refl r v : entry_after r v v.
Proof. destruct v as [[a i]|]; by left. Qed.
Lemma entry_after_trans r v1 v2 v3 : entry_after r v1 v2 -> entry_after r v2 v3 -> entry_after r v1 v3.
Proof.
  unfold entry_after. destruct v1 as [[a i]|].
  - intros [->|(? & ? & -> & ->)]; [done|]. intros [->|[? _]]; [|done]. right. done.
  - intros [->|(-> & a & c & ->)]; [done|]. intros [->|(_ & _ & ? & _)]; [right; eauto|done].
Qed.
Lemma mode_after r v v' : entry_after r v v' -> mode v' = mode v.
Proof.
  destruct v as [[a i]|]; cbn.
  - intros [->|(_ & E & _ & ->)]; [done|]. by rewrite E.
  - by intros [->|(_ & a & c & ->)].
Qed.
Lemma done_refl s v m o : St s v m o -> Done s s v v m m o.
Proof. intros HS. split; try done; [apply entry_after_refl|rewrite decide_True by done; lia]. Qed.
Lemma done_trans s1 s2 s3 v1 v2 v3 m1 m2 m3 o : Done s1 s2 v1 v2 m1 m2 o -> Done s2 s3 v2 v3 m2 m3 o -> Done s1 s3 v1 v3 m1 m3 o.
Proof.
  intros [A1 A2 A3 A4 A5 A6] [B1 B2 B3 B4 B5 B6]. split.
  - done.
  - congruence.
  - rewrite A2 in B3. by eapply entry_after_trans.
  - by transitivity m2.
  - intros Hm. rewrite B5; [by apply A5|]. by rewrite (mode_after _ _ _ A3).
  - rewrite B6, A6. destruct m1 as [c|].
    + assert (m2 = Some c) as -> by (by apply A4). assert (m3 = Some c) as -> by (by apply B4). by rewrite !decide_True by done; lia.
    + destruct m2 as [c|]; [assert (m3 = Some c) as -> by (by apply B4)|]; repeat destruct (decide _); try done; lia.
Qed.

(** A call and a list of calls are right from every state. *)
Definition right_from (f : Tls T -> outcome (list res * Tls T)) : Prop := forall s v m o, St s v m o ->
  exists r s' v' m', f s = Ret (r, s') /\ Done s s' v v' m m' o /\ goods m' (mode v) r.
Definition right1 (a : act) : Prop := forall s v m o, St s v m o ->
  exists r s' v' m', run kHaveGoodTLS a s = Ret (r, s') /\ Done s s' v v' m m' o /\ good m' (mode v) r.
Lemma runs_right l : Forall right1 l -> right_from (runs kHaveGoodTLS l).
Proof.
  induction 1 as [|a l Ha _ IH]; intros s v m o HS; cbn [runs].
  - exists [], s, v, m. split; [done|]. split; [by apply done_refl|done].
  - destruct (Ha s v m o HS) as (r & s1 & v1 & m1 & -> & D1 & G1). obind.
    destruct (IH s1 v1 m1 o (dn_st _ _ _ _ _ _ _ D1)) as (rs & s2 & v2 & m2 & -> & D2 & G2). obind.
    exists (r :: rs), s2, v2, m2. split; [done|]. split; [by eapply done_trans|].
    rewrite (mode_after _ _ _ (dn_entry _ _ _ _ _ _ _ D1)) in G2. split; [|done].
    eapply good_mono; [apply (dn_grows _ _ _ _ _ _ _ D2)|done].
Qed.
Lemma run_grab init set s : run kHaveGoodTLS (Grab init set) s =
  (let c := GetIfPresent kHaveGoodTLS s in if negb (c =? 0) then Ret (RGrab c false [], s)
   else '(c, e, r, s) ← GetSlow kHaveGoodTLS (runs kHaveGoodTLS init) (runs kHaveGoodTLS set) s; Ret (RGrab c e r, s)).
Proof. done. Qed.
Lemma run_scope body s : run kHaveGoodTLS (Scope body) s =
  ('(b, r, s) ← WithStacktraceScope kHaveGoodTLS (runs kHaveGoodTLS body) s; Ret (RScope b r, s)).
Proof. done. Qed.

Lemma present s v m o : St s v m o -> GetIfPresent kHaveGoodTLS s = stored v m.
Proof.
  intros HS. unfold GetIfPresent. destruct kHaveGoodTLS eqn:E; [by apply (st_fast _ _ _ _ HS)|].
  destruct (key_ready s) eqn:Er; cbn [negb]; [apply (st_value _ _ _ _ HS)|]. destruct v as [[a i]|]; [done|]. cbn.
  destruct m as [c|]; [|done]. pose proof (st_ready _ _ _ _ HS eq_refl ltac:(done)). congruence.
Qed.
(** The pointer is 0 exactly when there is no cache in thread-local storage. *)
Lemma absent s m o : St s None m o -> stored None m = 0 -> m = None.
Proof. intros HS. cbn. destruct m as [c|]; [|done]. pose proof (st_cache _ _ _ _ HS c eq_refl). cbn. lia. Qed.

Lemma register_st i s m o : St s None None o -> cache i = default 0 m -> (emergency_malloc i = false -> m <> None) ->
  (forall c, m = Some c -> 0 < c < next_cache s) ->
  exists s', register (next_entry s) i (new_entry s).2 = Ret s' /\ St s' (Some (next_entry s, i)) m o /\
    key_ready s' = key_ready s /\ next_cache s' = next_cache s.
Proof.
  intros HS Hc He Hm. destruct HS as [S1 S2 S3 S4 S5 S6 S7 S8]. unfold register. cbn [new_entry snd table].
  destruct (register_ok (table s) o (next_entry s) i S1) as (t' & -> & Ht & Hv); [lia|apply S2; lia|]. obind.
  eexists. split; [done|]. split; [|done]. split; cbn [with_table table next_entry next_cache tls_value fast_path_cache key_ready]; try done.
  - intros a Ha. apply Hv; [lia|]. apply S2. lia.
  - lia.
Qed.

Lemma store_cache_right c set s o : St s None None o -> key_ready s = true -> 0 < c < next_cache s -> right_from set ->
  exists r s', store_cache kHaveGoodTLS c set s = Ret (c, false, r, s') /\ St s' None (Some c) o /\ key_ready s' = key_ready s /\
    next_cache s' = next_cache s /\ goods (Some c) false r.
Proof.
  intros HS Hr Hc Hset. unfold store_cache. change (new_entry s) with (next_entry s, (new_entry s).2). cbn iota.
  destruct (register_st (mkInfo c false false) s (Some c) o HS) as (s1 & -> & HS1 & Hr1 & Hn1); [done|done|by intros ? [= <-]|]. obind. unfold SetTlsValue.
  destruct (Hset _ _ _ _ HS1) as (r & s2 & v2 & m2 & -> & D & G). obind. destruct D as [HS2 Hr2 He Hg _ Hn2].
  assert (m2 = Some c) as -> by (by apply Hg). destruct He as [->|(? & _)]; [|done]. cbn [mode] in G.
  unfold leave. cbn [with_value table]. destruct HS2 as [S1 S2 S3 S4 S5 S6 S7 S8].
  destruct (unregister_ok (table s2) o _ _ S1) as (t' & -> & Ht & Hv). obind. eexists r, _. split; [done|].
  rewrite decide_True in Hn2 by done. split; [|destruct kHaveGoodTLS; cbn; split_and!; (done || congruence || lia)].
  split; destruct kHaveGoodTLS; cbn; try done; try (intros; congruence); auto.
Qed.

Lemma GetSlow_right init set s v m o : St s v m o -> GetIfPresent kHaveGoodTLS s = 0 -> right_from init -> right_from set ->
  exists c e r s' v' m', GetSlow kHaveGoodTLS init set s = Ret (c, e, r, s') /\ Done s s' v v' m m' o /\ good m' (mode v) (RGrab c e r).
Proof.
  intros HS Hp Hinit Hset. unfold GetSlow. rewrite Hp. cbn [check Z.eqb]. obind. rewrite (lookup_ok _ _ _ (st_tls _ _ _ _ HS)). obind.
  rewrite (present _ _ _ _ HS) in Hp. destruct v as [[a i]|].
  - destruct (emergency_malloc i) eqn:Ee.
    { exists 0, true, [], s, (Some (a, i)), m. split; [done|]. split; [by apply done_refl|]. cbn [mode]. by rewrite Ee, good_grab. }
    destruct (st_entry _ _ _ _ HS) as [Ec Hm]. specialize (Hm Ee). destruct m as [c|]; [|done]. cbn in Ec.
    pose proof (st_cache _ _ _ _ HS c eq_refl) as Hc. unfold TryToReleaseCacheFromAllocation. rewrite Ee. cbn [negb check]. obind.
    destruct (was_allocated i && key_ready s) eqn:Ew.
    + apply andb_true_iff in Ew as [Ew Er]. unfold leave. destruct HS as [S1 S2 S3 S4 S5 S6 S7 S8].
      destruct (unregister_ok (table s) o a i S1) as (t' & -> & Ht & Hv). obind. rewrite Ec, (proj2 (Z.eqb_neq c 0)) by lia.
      destruct (store_cache_right c set (with_table t' s) o) as (r & s' & -> & HS' & Hr' & Hn' & G); [|done|done|done|].
      { split; cbn; try done; auto. }
      exists c, false, r, s', None, (Some c). split; [done|]. split.
      * split; [done|done|by right|done|done|]. rewrite decide_True by done. rewrite Hn'. cbn. lia.
      * cbn [mode]. rewrite Ee, good_grab. done.
    + cbn [Z.eqb]. exists (cache i), false, [], s, (Some (a, i)), (Some c). split; [done|]. split; [by apply done_refl|].
      cbn [mode]. rewrite Ee, good_grab. split_and!; [congruence|done|done].
  - apply (absent _ _ _ HS) in Hp as ->. destruct (key_ready s) eqn:Er; cbn [negb].
    + change (NewHeap s) with (next_cache s, (NewHeap s).2). cbn iota.
      destruct (store_cache_right (next_cache s) set (NewHeap s).2 o) as (r & s' & -> & HS' & Hr' & Hn' & G); [|done|destruct (st_pos _ _ _ _ HS); cbn; lia|done|].
      { destruct HS as [S1 S2 S3 S4 S5 S6 S7 S8]. split; cbn; try done; lia. }
      exists (next_cache s), false, r, s', None, (Some (next_cache s)). split; [done|]. split; [|by rewrite good_grab].
      split; [done|done|by left|done|done|]. rewrite decide_False by done. rewrite Hn'. done.
    + unfold GetReallySlow. destruct (Hinit _ _ _ _ HS) as (r & s1 & v1 & m1 & -> & D & G). obind.
      rewrite (lookup_ok _ _ _ (st_tls _ _ _ _ (dn_st _ _ _ _ _ _ _ D))). obind. pose proof D as [HS1 Hr1 He Hg Hmd Hn1]. rewrite Er in *.
      destruct He as [->|(_ & a & c & ->)].
      * assert (m1 = None) as ->. { destruct m1 as [c|]; [|done]. pose proof (st_ready _ _ _ _ HS1 eq_refl ltac:(done)). congruence. }
        rewrite decide_True in Hn1 by done. change (NewHeap s1) with (next_cache s1, (NewHeap s1).2). cbn iota.
        change (new_entry (NewHeap s1).2) with (next_entry (NewHeap s1).2, (new_entry (NewHeap s1).2).2). cbn iota.
        destruct (register_st (mkInfo (next_cache s1) false true) (NewHeap s1).2 (Some (next_cache s1)) o) as (s2 & -> & HS2 & Hr2 & Hn2).
        { destruct HS1 as [S1 S2 S3 S4 S5 S6 S7 S8]. split; cbn; try done; lia. }
        { done. } { done. } { intros c [= <-]. cbn. destruct (st_pos _ _ _ _ HS1). lia. }
        obind. exists (next_cache s1), false, r, s2, (Some (next_entry s1, mkInfo (next_cache s1) false true)), (Some (next_cache s1)).
        split; [done|]. split; [split; [done|cbn in Hr2; congruence|right; rewrite Er; eauto|done|done|]|].
        -- rewrite decide_False by done. rewrite Hn2. cbn. lia.
        -- rewrite good_grab. split_and!; [done..|]. by eapply goods_mono; [|exact G].
      * destruct (st_entry _ _ _ _ HS1) as [Ec Hm]. destruct m1 as [c1|]; [|by destruct (Hm eq_refl)]. cbn in Ec. subst c1. cbn [cache emergency_malloc].
        exists c, false, r, s1, (Some (a, mkInfo c false true)), (Some c). split; [done|]. split; [done|]. rewrite good_grab. done.
Qed.

(** In a scope nothing changes for the thread. *)
Lemma in_scope fn s a i m o : right_from fn -> St s (Some (a, i)) m o -> emergency_malloc i = true ->
  exists r s', fn s = Ret (r, s') /\ St s' (Some (a, i)) m o /\ key_ready s' = key_ready s /\ next_cache s' = next_cache s /\ goods m true r.
Proof.
  intros Hfn HS He. destruct (Hfn _ _ _ _ HS) as (r & s' & v' & m' & -> & [D1 D2 D3 D4 D5 D6] & G). cbn [mode] in *. rewrite He in *.
  assert (m' = m) as -> by auto. destruct D3 as [->|(_ & ? & _)]; [|congruence]. rewrite decide_True in D6 by done.
  exists r, s'. split_and!; (done || lia).
Qed.
Lemma Scope_right fn s v m o : St s v m o -> right_from fn ->
  exists b r s', WithStacktraceScope kHaveGoodTLS fn s = Ret (b, r, s') /\ Done s s' v v m m o /\ good m (mode v) (RScope b r).
Proof.
  intros HS Hfn. unfold WithStacktraceScope. rewrite (lookup_ok _ _ _ (st_tls _ _ _ _ HS)). obind. pose proof (present _ _ _ _ HS) as Hp.
  assert (Hdone : forall s', St s' v m o -> key_ready s' = key_ready s -> next_cache s' = next_cache s -> Done s s' v v m m o).
  { intros s' HS' Hr Hn. split; try done; [apply entry_after_refl|rewrite decide_True by done; lia]. }
  destruct v as [[a i]|]; cbn [mode].
  - destruct (emergency_malloc i) eqn:Ee.
    + destruct (in_scope fn s a i m o Hfn HS Ee) as (r & s' & -> & HS' & Hr & Hn & G). obind. exists false, r, s'. split; [done|]. split; [auto|done].
    + rewrite Hp. cbn [stored check Z.eqb]. obind. destruct (emergency_ok (table s) o a i true (st_tls _ _ _ _ HS)) as (t & -> & Ht & Hv). obind.
      destruct (in_scope fn (with_table t s) a (mkInfo (cache i) true (was_allocated i)) m o Hfn) as (r & s' & -> & HS' & Hr & Hn & G); [|done|].
      { destruct HS as [S1 S2 S3 S4 S5 S6 [S7 _] S8]. split; cbn; try done; auto. }
      obind. destruct (emergency_ok (table s') o a _ false (st_tls _ _ _ _ HS')) as (t' & -> & Ht' & Hv'). obind.
      exists true, r, (with_table t' s'). split; [done|]. split; [|done]. apply Hdone; [|done|done].
      destruct HS' as [S1 S2 S3 S4 S5 S6 _ S8]. pose proof (st_entry _ _ _ _ HS) as S7. cbn in Ht'.
      replace (mkInfo (cache i) false (was_allocated i)) with i in Ht' by (destruct i; cbn in *; by subst). split; cbn; try done; auto.
  - rewrite Hp. change (new_entry s) with (next_entry s, (new_entry s).2). cbn iota. set (c := stored None m).
    assert (Hc0 : c = 0 -> m = None) by apply (absent _ _ _ HS).
    (* the entry is added, and thread-local storage cleared *)
    assert (Hreg : exists s1 s2, register (next_entry s) (mkInfo c true false) (new_entry s).2 = Ret s1 /\
      (if negb (c =? 0) then _ ← check (key_ready s1); '(_, s1) ← SetTlsValue 0 quiet (if kHaveGoodTLS then with_fast 0 s1 else s1); Ret s1 else Ret s1) = Ret s2 /\
      St s2 (Some (next_entry s, mkInfo c true false)) m o /\ key_ready s2 = key_ready s /\ next_cache s2 = next_cache s).
    { destruct HS as [S1 S2 S3 S4 S5 S6 S7 S8]. unfold register. cbn [new_entry snd table].
      destruct (register_ok (table s) o (next_entry s) (mkInfo c true false) S1) as (t & -> & Ht & Hv); [lia|apply S2; lia|]. obind.
      destruct (Z.eqb_spec c 0) as [E|E]; cbn [negb].
      - do 2 eexists. split; [done|]. split; [done|]. split; [|done]. specialize (Hc0 E). subst m. split; cbn; try done; [|lia].
        intros b Hb. apply Hv; [lia|]. apply S2. lia.
      - assert (Hk : key_ready s = true). { apply S6; [done|]. intros ->. done. }
        do 2 eexists. split; [done|]. cbn [with_table key_ready]. rewrite Hk. cbn [check]. obind. split; [done|].
        split; [|destruct kHaveGoodTLS; done].
        split; destruct kHaveGoodTLS; cbn; try done; try lia; intros b Hb; apply Hv; (lia || (apply S2; lia)). }
    destruct Hreg as (s1 & s2 & -> & Hset & HS2 & Hr2 & Hn2). obind. rewrite Hset. obind.
    destruct (in_scope fn s2 _ _ m o Hfn HS2 eq_refl) as (r & s3 & -> & HS3 & Hr3 & Hn3 & G). obind.
    destruct HS3 as [S1 S2 S3 S4 S5 S6 S7 S8]. destruct (unregister_ok (table s3) o _ _ S1) as (t & Hun & Ht & Hv).
    assert (Hend : exists s4, (if negb (c =? 0) then '(_, s) ← SetTlsValue c quiet s3; Ret (if kHaveGoodTLS then with_fast c s else s) else Ret s3) = Ret s4 /\
      table s4 = table s3 /\ St (with_table t s4) None m o /\ key_ready s4 = key_ready s3 /\ next_cache s4 = next_cache s3).
    { destruct (Z.eqb_spec c 0) as [E|E]; cbn [negb].
      - exists s3. split_and!; try done. specialize (Hc0 E). subst m. split; cbn; try done; auto.
      - eexists. split; [done|]. assert (Hm : m <> None) by (intros ->; done).
        assert (Hk : key_ready s3 = true) by (rewrite Hr3, Hr2; by apply (st_ready _ _ _ _ HS)).
        split; [by destruct kHaveGoodTLS|]. split; [|by destruct kHaveGoodTLS]. split; destruct kHaveGoodTLS; cbn; try done; auto. }
    destruct Hend as (s4 & -> & Et & HS4 & Hr4 & Hn4). obind. unfold leave. rewrite Et, Hun. obind.
    exists true, r, (with_table t s4). split; [done|]. split; [|done]. apply Hdone; cbn; [done|congruence|lia].
Qed.

Lemma act_right a : right1 a.
Proof.
  induction a as [init set Hi Hs|body Hb] using act_ind'; intros s v m o HS.
  - rewrite run_grab. cbv zeta. destruct (Z.eqb_spec (GetIfPresent kHaveGoodTLS s) 0) as [E|E]; cbn [negb].
    + destruct (GetSlow_right (runs kHaveGoodTLS init) (runs kHaveGoodTLS set) s v m o HS E) as (c & e & r & s' & v' & m' & -> & D & G);
        [by apply runs_right..|]. obind. by exists (RGrab c e r), s', v', m'.
    + rewrite (present _ _ _ _ HS) in *. exists (RGrab (stored v m) false []), s, v, m. split; [done|]. split; [by apply done_refl|].
      destruct v as [[a i]|]; [done|]. cbn [mode stored] in *. rewrite good_grab. destruct m as [c|]; done.
  - rewrite run_scope. destruct (Scope_right (runs kHaveGoodTLS body) s v m o HS) as (b & r & s' & -> & D & G); [by apply runs_right|].
    obind. by exists (RScope b r), s', v, m.
Qed.
End Correct.

(** ** The hash table *)

(** [Entry**]: a slot of the table, or the [next] field of an entry. *)
Inductive place := Slot (i : Z) | Next (e : Z).
#[export] Instance place_eq_dec : EqDecision place.
Proof. solve_decision. Defined.
Record Entry := mkEntry { info : Info; thread_id : Z; next : Z; prev : place }.
Record SlowTLS := mkSlow { hash_table_ : gmap Z Z; entries : gmap Z Entry }.
Definition kTableSize : Z := 257.

Module ST.
Section SlowTLS.
(** [std::hash] and the identifier of the thread. *)
Context (hash : Z -> Z) (me : Z).
Definition ht_place (tid : Z) : place := Slot (hash tid mod kTableSize).
Definition get (p : place) (t : SlowTLS) : outcome Z :=
  match p with Slot i => aget kTableSize (hash_table_ t) i | Next e => x ← deref (entries t !! e); Ret (next x) end.
Definition set_entry (e : Z) (x : Entry) (t : SlowTLS) : SlowTLS := mkSlow (hash_table_ t) (<[e := x]> (entries t)).
Definition put (p : place) (v : Z) (t : SlowTLS) : outcome SlowTLS :=
  match p with
  | Slot i => h ← aset kTableSize (hash_table_ t) i v; Ret (mkSlow h (entries t))
  | Next e => x ← deref (entries t !! e); Ret (set_entry e (mkEntry (info x) (thread_id x) v (prev x)) t)
  end.
Definition set_prev (e : Z) (p : place) (t : SlowTLS) : outcome SlowTLS :=
  x ← deref (entries t !! e); Ret (set_entry e (mkEntry (info x) (thread_id x) (next x) p) t).

Definition lookup_round (tid : Z) (t : SlowTLS) (e : Z) : outcome (Z + option (Z * Info)) :=
  if e =? 0 then Ret (inr None) else
  x ← deref (entries t !! e);
  if thread_id x =? tid then Ret (inr (Some (e, info x))) else Ret (inl (next x)).
Definition Lookup (tid : Z) (t : SlowTLS) : outcome (option (Z * Info)) :=
  e ← get (ht_place tid) t; loop (S (size (entries t))) (lookup_round tid t) e.

(** The entry is written at [e] with its fields. *)
Definition RegisterEntry (e : Z) (i : Info) (t : SlowTLS) : outcome SlowTLS :=
  let p := ht_place me in
  nx ← get p t;
  let t := set_entry e (mkEntry i me nx p) t in
  t ← (if negb (nx =? 0) then
         x ← deref (entries t !! nx); _ ← check (bool_decide (prev x = p)); set_prev nx (Next e) t
       else Ret t);
  put p e t.
(** The memory of the entry is not used afterwards. *)
Definition UnregisterEntry (e : Z) (t : SlowTLS) : outcome SlowTLS :=
  x ← deref (entries t !! e);
  y ← get (prev x) t;
  _ ← check (y =? e);
  t ← put (prev x) (next x) t;
  t ← (if negb (next x =? 0) then
         z ← deref (entries t !! next x); _ ← check (bool_decide (prev z = Next e)); set_prev (next x) (prev x) t
       else Ret t);
  Ret (mkSlow (hash_table_ t) (delete e (entries t))).
Definition SetEmergency (e : Z) (b : bool) (t : SlowTLS) : outcome SlowTLS :=
  x ← deref (entries t !! e);
  Ret (set_entry e (mkEntry (mkInfo (cache (info x)) b (was_allocated (info x))) (thread_id x) (next x) (prev x)) t).

#[export] Instance slow_tls_ops : SlowTlsOps SlowTLS := {|
  lookup_self := Lookup me; register_self := RegisterEntry; unregister := UnregisterEntry; set_emergency := SetEmergency |}.
End SlowTLS.
End ST.
Import ST.

(** *** Chains *)
Abbreviation node := (Z * Z * Info)%type.
Definition addr (n : node) : Z := n.1.1.
(** The nodes [l] from the place [p] on, each pointing back at the place it is found. *)
Fixpoint seg (t : SlowTLS) (p : place) (l : list node) : Prop :=
  match l with
  | [] => True
  | (e, tid, i) :: l => get p t = Ret e /\ e <> 0 /\ (exists nx, entries t !! e = Some (mkEntry i tid nx p)) /\ seg t (Next e) l
  end.
Fixpoint end_of (p : place) (l : list node) : place := match l with [] => p | n :: l => end_of (Next (addr n)) l end.
Definition chain (t : SlowTLS) (p : place) (l : list node) : Prop := seg t p l /\ get (end_of p l) t = Ret 0.

Lemma seg_app t l1 : forall p l2, seg t p (l1 ++ l2) <-> seg t p l1 /\ seg t (end_of p l1) l2.
Proof.
  induction l1 as [|[[e tid] i] l1 IH]; intros p l2; cbn; [tauto|]. rewrite IH. tauto.
Qed.
Lemma end_of_app l1 : forall p l2, end_of p (l1 ++ l2) = end_of (end_of p l1) l2.
Proof. induction l1 as [|n l1 IH]; intros p l2; [done|]. apply IH. Qed.
Lemma chain_app t p l1 l2 : chain t p (l1 ++ l2) <-> seg t p l1 /\ chain t (end_of p l1) l2.
Proof. unfold chain. rewrite seg_app, end_of_app. tauto. Qed.
(** Where the last link of a list is. *)
Lemma end_of_cases p l : end_of p l = p \/ exists n, n ∈ l /\ end_of p l = Next (addr n).
Proof.
  revert p. induction l as [|n l IH]; intros p; [by left|]. right. cbn. destruct (IH (Next (addr n))) as [->|(m & Hm & ->)].
  - exists n. split; [by left|done].
  - exists m. split; [by right|done].
Qed.
(** A segment is kept by what leaves its first link, and the data of its nodes, alone. *)
Definition same_node (t t' : SlowTLS) (e : Z) : Prop :=
  forall i tid nx p, entries t !! e = Some (mkEntry i tid nx p) -> exists nx', entries t' !! e = Some (mkEntry i tid nx' p).
Lemma seg_frame t t' l : forall p, seg t p l -> (l <> [] -> get p t' = get p t) ->
  (forall n, n ∈ l -> entries t' !! addr n = entries t !! addr n) -> seg t' p l.
Proof.
  induction l as [|[[e tid] i] l IH]; intros p; [done|]. intros (Hg & H0 & (nx & He) & Hs) Hp Hn. cbn.
  assert (Ee : entries t' !! e = entries t !! e) by (apply (Hn (e, tid, i)); left).
  split_and!; [by rewrite Hp|done|exists nx; by rewrite Ee|]. apply IH; [done| |by intros n ?; apply Hn; right].
  intros _. cbn. by rewrite Ee.
Qed.
Lemma tls_chain_frame t t' p l : chain t p l -> get p t' = get p t -> (forall n, n ∈ l -> entries t' !! addr n = entries t !! addr n) -> chain t' p l.
Proof.
  intros [Hs He] Hp Hn. split; [by eapply seg_frame|]. destruct (end_of_cases p l) as [E|(n & Hin & E)]; rewrite E in *; [by rewrite Hp|].
  cbn in *. by rewrite Hn.
Qed.

(** A node is first in what follows it. *)
Lemma chain_head t p e tid i l : chain t p ((e, tid, i) :: l) -> get p t = Ret e /\ e <> 0 /\ (exists nx, entries t !! e = Some (mkEntry i tid nx p)) /\ chain t (Next e) l.
Proof. intros [(H1 & H2 & H3 & H4) H5]. split_and!; try done. Qed.
Lemma chain_cons t p e tid i l nx : get p t = Ret e -> e <> 0 -> entries t !! e = Some (mkEntry i tid nx p) -> chain t (Next e) l -> chain t p ((e, tid, i) :: l).
Proof. intros H1 H2 H3 [H4 H5]. split; [|done]. cbn. split_and!; eauto. Qed.
(** What a chain starts with: the null pointer, or its first node. *)
Lemma chain_first t p l : chain t p l -> get p t = Ret (match l with [] => 0 | n :: _ => addr n end).
Proof. destruct l as [|[[e tid] i] l]; [by intros [_ ?]|]. by intros (? & _)%chain_head. Qed.
Lemma seg_frame_links t t' l : forall p, NoDup (addr <$> l) -> (forall n, n ∈ l -> p <> Next (addr n)) -> seg t p l ->
  (forall p', p' <> end_of p l -> get p' t' = get p' t) -> (forall n, n ∈ l -> same_node t t' (addr n)) -> seg t' p l.
Proof.
  induction l as [|[[e tid] i] l IH]; intros p Hnd Hp; [done|]. intros (Hg & H0 & (nx & He) & Hs) Hget Hn. cbn in *.
  apply NoDup_cons in Hnd as [Hnin Hnd]. assert (Hne : forall n, n ∈ l -> e <> addr n).
  { intros n Hin ->. apply Hnin. apply list_elem_of_fmap. by exists n. }
  split_and!; [|done| |].
  - rewrite Hget; [done|]. destruct (end_of_cases (Next e) l) as [->|(n & Hin & ->)]; apply (Hp (e, tid, i)) || apply Hp; [by left|by right].
  - eapply (Hn (e, tid, i)); [by left|done].
  - apply IH; [done|intros n Hin [= E]; by apply (Hne n)|done|done|]. intros n Hin. apply Hn. by right.
Qed.

Lemma get_slot t i : 0 <= i < kTableSize -> get (Slot i) t = Ret (default 0 (hash_table_ t !! i)).
Proof. intros Hi. cbn. by rewrite aget_in. Qed.
(** A store through a place. *)
Lemma put_word_ok p v w t : get p t = Ret w -> exists t', put p v t = Ret t' /\ get p t' = Ret v /\ (forall p', p' <> p -> get p' t' = get p' t) /\
  (forall e, same_node t t' e) /\ (forall e, p <> Next e -> entries t' !! e = entries t !! e) /\
  (forall e, entries t !! e = None -> entries t' !! e = None).
Proof.
  destruct p as [i|e0]; cbn [get put]; intros Hg.
  - unfold aget in Hg. destruct ((0 <=? i) && (i <? kTableSize)) eqn:E; [|done].
    unfold aset. rewrite E. obind. eexists. split; [done|]. cbn [get hash_table_ entries]. unfold aget. rewrite E.
    split_and!; [by rewrite lookup_insert_eq| |intros e j tid nx q He; exists nx; exact He|done|done].
    intros [j|e'] Hne; cbn [get hash_table_ entries]; [|done]. unfold aget. by rewrite lookup_insert_ne by congruence.
  - destruct (entries t !! e0) as [x|] eqn:E; [|done]. obind. eexists. split; [done|]. cbn [get set_entry hash_table_ entries].
    split_and!; [by rewrite lookup_insert_eq| | | |].
    + intros [j|e'] Hne; cbn [get hash_table_ entries set_entry]; [done|]. by rewrite lookup_insert_ne by congruence.
    + intros e j tid nx q He. cbn [entries set_entry]. destruct (decide (e = e0)) as [->|Hne]; [|rewrite lookup_insert_ne by done; eauto].
      rewrite lookup_insert_eq. rewrite He in E. injection E as <-. eauto.
    + intros e Hne. by rewrite lookup_insert_ne by congruence.
    + intros e He. rewrite lookup_insert_ne by congruence. done.
Qed.
(** Changing where a node points back to changes no link. *)
Lemma set_tls_prev_ok e q t i tid nx p : entries t !! e = Some (mkEntry i tid nx p) ->
  exists t', set_prev e q t = Ret t' /\ (forall p', get p' t' = get p' t) /\ entries t' !! e = Some (mkEntry i tid nx q) /\
    (forall e', e' <> e -> entries t' !! e' = entries t !! e').
Proof.
  intros He. unfold set_prev. rewrite He. obind. eexists. split; [done|]. cbn [set_entry entries].
  split_and!; [|by rewrite lookup_insert_eq|by intros; rewrite lookup_insert_ne].
  intros [j|e']; cbn [get hash_table_ entries set_entry]; [done|]. destruct (decide (e' = e)) as [->|Hne]; [by rewrite lookup_insert_eq, He|by rewrite lookup_insert_ne].
Qed.

Section Table.
Context (hash : Z -> Z) (me : Z).
Definition slot_of (tid : Z) : Z := hash tid mod kTableSize.
Lemma slot_range tid : 0 <= slot_of tid < kTableSize.
Proof. apply Z.mod_pos_bound. done. Qed.

(** The whole table: the chain of every slot. *)
Record Rep (t : SlowTLS) (L : Z -> list node) : Prop := {
  rp_chain : forall i, 0 <= i < kTableSize -> chain t (Slot i) (L i);
  rp_nodup : forall i, 0 <= i < kTableSize -> NoDup (addr <$> L i);
  rp_apart : forall i j n m, 0 <= i < kTableSize -> 0 <= j < kTableSize -> n ∈ L i -> m ∈ L j -> addr n = addr m -> i = j;
  rp_slot : forall i n, 0 <= i < kTableSize -> n ∈ L i -> slot_of n.1.2 = i }.
Definition mine (l : list node) : list node := filter (fun n : node => n.1.2 = me) l.
Definition not_mine (l : list node) : list node := filter (fun n : node => n.1.2 <> me) l.
Definition slow_ok (t : SlowTLS) (v : option (Z * Info)) (o : Z -> list node) : Prop := exists L, Rep t L /\
  mine (L (slot_of me)) = (match v with Some (a, i) => [(a, me, i)] | None => [] end) /\
  forall i, 0 <= i < kTableSize -> o i = not_mine (L i).
Definition vacant (a : Z) (t : SlowTLS) : Prop := entries t !! a = None.

Lemma chain_live t p l n : chain t p l -> n ∈ l -> is_Some (entries t !! addr n).
Proof.
  revert p. induction l as [|[[e tid] i] l IH]; intros p Hc Hin; [by apply elem_of_nil in Hin|].
  apply chain_head in Hc as (_ & _ & (nx & He) & Hc). apply elem_of_cons in Hin as [->|Hin]; [by eexists|by eapply IH].
Qed.
Lemma tls_chain_length t p l : chain t p l -> NoDup (addr <$> l) -> (length l <= size (entries t))%nat.
Proof.
  intros Hc Hnd. rewrite <- (length_fmap addr l). rewrite <- (size_list_to_set (C := gset Z)) by done. rewrite <- size_dom.
  apply subseteq_size. intros x. rewrite elem_of_list_to_set, list_elem_of_fmap, elem_of_dom. intros (n & -> & Hn). by eapply chain_live.
Qed.
Fixpoint first_of (tid : Z) (l : list node) : option (Z * Info) :=
  match l with [] => None | (e, t, i) :: l => if t =? tid then Some (e, i) else first_of tid l end.
Lemma lookup_chain tid t l : forall p fuel e, chain t p l -> get p t = Ret e -> (length l < fuel)%nat -> loop fuel (lookup_round tid t) e = Ret (first_of tid l).
Proof.
  induction l as [|[[e' tid'] i] l IH]; intros p fuel e Hc Hg Hf; (destruct fuel as [|fuel]; [cbn in Hf; lia|]); cbn [loop].
  - apply chain_first in Hc. assert (e = 0) as -> by congruence. done.
  - apply chain_head in Hc as (Hg' & H0 & (nx & He) & Hc). assert (e = e') as -> by congruence.
    assert (lookup_round tid t e' = if tid' =? tid then Ret (inr (Some (e', i))) else Ret (inl nx)) as ->.
    { unfold lookup_round. rewrite (proj2 (Z.eqb_neq e' 0)) by done. by rewrite He. }
    cbn [first_of]. destruct (tid' =? tid); [done|]. obind.
    apply (IH (Next e')); [done| |cbn in Hf; lia]. cbn. by rewrite He.
Qed.
Lemma first_of_mine l : first_of me l = match mine l with (a, _, i) :: _ => Some (a, i) | [] => None end.
Proof.
  unfold mine. induction l as [|[[e t] i] l IH]; [done|]. cbn [first_of]. destruct (Z.eqb_spec t me) as [->|Hn].
  - by rewrite filter_cons_True.
  - by rewrite filter_cons_False.
Qed.
Lemma Lookup_ok t L tid : Rep t L -> Lookup hash tid t = Ret (first_of tid (L (slot_of tid))).
Proof.
  intros HR. pose proof (slot_range tid) as Hr. pose proof (rp_chain _ _ HR _ Hr) as Hc. unfold Lookup, ht_place. fold (slot_of tid).
  rewrite (chain_first _ _ _ Hc). obind. eapply lookup_chain; [done|by apply chain_first|].
  pose proof (tls_chain_length _ _ _ Hc (rp_nodup _ _ HR _ Hr)). lia.
Qed.

(** The table with one slot's chain changed. *)
Definition upd (k : Z) (l : list node) (L : Z -> list node) (i : Z) : list node := if decide (i = k) then l else L i.
Lemma upd_same k l L : upd k l L k = l.
Proof. unfold upd. by rewrite decide_True. Qed.
Lemma upd_other k l L i : i <> k -> upd k l L i = L i.
Proof. intros. unfold upd. by rewrite decide_False. Qed.
Lemma rep_update t t' L k l : Rep t L -> 0 <= k < kTableSize -> chain t' (Slot k) l -> NoDup (addr <$> l) ->
  (forall n, n ∈ l -> slot_of n.1.2 = k) ->
  (forall i n m, 0 <= i < kTableSize -> i <> k -> n ∈ L i -> m ∈ l -> addr n <> addr m) ->
  (forall i, 0 <= i < kTableSize -> i <> k -> get (Slot i) t' = get (Slot i) t) ->
  (forall i n, 0 <= i < kTableSize -> i <> k -> n ∈ L i -> entries t' !! addr n = entries t !! addr n) -> Rep t' (upd k l L).
Proof.
  intros [R1 R2 R3 R4] Hk Hc Hnd Hsl Hap Hget Hent. split.
  - intros i Hi. destruct (decide (i = k)) as [->|Hn]; [by rewrite upd_same|]. rewrite upd_other by done.
    apply (tls_chain_frame t); [by apply R1|by apply Hget|intros n Hin; by apply (Hent i)].
  - intros i Hi. destruct (decide (i = k)) as [->|Hn]; [by rewrite upd_same|]. rewrite upd_other by done. by apply R2.
  - intros i i' n m Hi Hi'. destruct (decide (i = k)) as [->|Hn], (decide (i' = k)) as [->|Hn']; rewrite ?upd_same, ?upd_other by done; [done| | |by apply R3].
    + intros Hn1 Hm1 E. by destruct (Hap i' m n Hi' Hn' Hm1 Hn1).
    + intros Hn1 Hm1 E. by destruct (Hap i n m Hi Hn Hn1 Hm1).
  - intros i n Hi. destruct (decide (i = k)) as [->|Hn]; rewrite ?upd_same, ?upd_other by done; auto.
Qed.

Lemma RegisterEntry_ok t L a i : Rep t L -> 0 < a -> vacant a t ->
  exists t', RegisterEntry hash me a i t = Ret t' /\ Rep t' (upd (slot_of me) ((a, me, i) :: L (slot_of me)) L) /\
    forall b, b <> a -> vacant b t -> vacant b t'.
Proof.
  intros HR Ha Hv. pose proof (slot_range me) as Hr. pose proof (rp_chain _ _ HR _ Hr) as Hc. pose proof (rp_nodup _ _ HR _ Hr) as Hnd.
  assert (Hfresh : forall j n, 0 <= j < kTableSize -> n ∈ L j -> addr n <> a).
  { intros j n Hj Hin E. destruct (chain_live _ _ _ n (rp_chain _ _ HR _ Hj) Hin) as [x Hx]. unfold vacant in Hv. congruence. }
  unfold RegisterEntry, ht_place. fold (slot_of me). set (p := Slot (slot_of me)) in *. rewrite (chain_first _ _ _ Hc). obind.
  set (nx := match L (slot_of me) with [] => 0 | n :: _ => addr n end). set (t1 := set_entry a (mkEntry i me nx p) t).
  assert (Hget1 : forall j, get (Slot j) t1 = get (Slot j) t) by done.
  assert (Ht2 : exists t2, (if negb (nx =? 0) then x ← deref (entries t1 !! nx); _ ← check (bool_decide (prev x = p)); set_prev nx (Next a) t1 else Ret t1) = Ret t2 /\
    (forall p', get p' t2 = get p' t1) /\ entries t2 !! a = Some (mkEntry i me nx p) /\ chain t2 (Next a) (L (slot_of me)) /\
    (forall e, e <> a -> (nx <> 0 -> e <> nx) -> entries t2 !! e = entries t !! e)).
  { unfold nx. destruct (L (slot_of me)) as [|[[e tid] j] l] eqn:El; cbn [addr fst].
    - exists t1. unfold t1, nx. split; [done|]. cbn [set_entry entries]. split_and!; [done|by rewrite lookup_insert_eq| |].
      + split; [done|]. cbn. by rewrite lookup_insert_eq.
      + intros e Hne _. by rewrite lookup_insert_ne.
    - apply chain_head in Hc as (_ & H0 & (nx' & He) & Hc). assert (Hea : e <> a) by (apply (Hfresh (slot_of me) (e, tid, j)); [done|rewrite El; left]).
      rewrite (proj2 (Z.eqb_neq e 0)) by done. cbn [negb]. assert (He1 : entries t1 !! e = Some (mkEntry j tid nx' p)) by (unfold t1; cbn; by rewrite lookup_insert_ne).
      rewrite He1. obind. cbn [prev]. rewrite bool_decide_eq_true_2 by done. cbn [check]. obind.
      destruct (set_tls_prev_ok e (Next a) t1 _ _ _ _ He1) as (t2 & -> & G & He2 & Hoth). exists t2. split; [done|]. split; [done|].
      assert (Ha2 : entries t2 !! a = Some (mkEntry i me nx p)) by (rewrite Hoth by done; unfold t1; cbn; by rewrite lookup_insert_eq).
      split; [exact Ha2|]. split; [|intros e' H1 H2; rewrite Hoth by auto; unfold t1; cbn; by rewrite lookup_insert_ne].
      apply chain_cons with nx'; [|done|done|].
      + rewrite G. unfold t1. cbn. by rewrite lookup_insert_eq.
      + apply NoDup_cons in Hnd as [Hnin _]. apply (tls_chain_frame t); [done| |].
        * rewrite G. unfold t1. cbn. by rewrite lookup_insert_ne.
        * intros n Hin. rewrite Hoth. -- unfold t1. cbn. rewrite lookup_insert_ne; [done|]. intros E. apply (Hfresh (slot_of me) n); [done|rewrite El; by right|done].
          -- intros E. apply Hnin. apply list_elem_of_fmap. by exists n. }
  destruct Ht2 as (t2 & -> & G2 & Ha2 & Hc2 & Hoth2). obind.
  assert (Hgp : get p t2 = Ret nx) by (rewrite G2; unfold p; rewrite Hget1; apply (chain_first _ _ _ Hc)).
  destruct (put_word_ok p a _ t2 Hgp) as (t' & -> & Gp & Gne & _ & Hent & Hnone). exists t'. split; [done|].
  assert (Hent' : forall e, entries t' !! e = entries t2 !! e) by (intros e; by apply Hent).
  assert (Hin_nx : forall n, n ∈ L (slot_of me) -> forall j m, 0 <= j < kTableSize -> j <> slot_of me -> m ∈ L j -> addr m <> addr n).
  { intros n Hn j m Hj Hne Hm E. apply Hne. by apply (rp_apart _ _ HR j (slot_of me) m n). }
  assert (Hnx : forall j m, 0 <= j < kTableSize -> j <> slot_of me -> m ∈ L j -> nx <> 0 -> addr m <> nx).
  { intros j m Hj Hne Hm. unfold nx. destruct (L (slot_of me)) as [|n l] eqn:El; [done|]. intros _. by apply (Hin_nx n ltac:(left) j m). }
  split.
  - eapply rep_update; [exact HR|done|..].
    + apply chain_cons with nx; [done|lia|by rewrite Hent'|]. apply (tls_chain_frame t2); [done|by rewrite Gne|intros n _; apply Hent'].
    + cbn [fmap list_fmap]. apply NoDup_cons. split; [|done]. intros (n & E & Hin)%list_elem_of_fmap. by apply (Hfresh (slot_of me) n).
    + intros n [->|Hin]%elem_of_cons; [done|by apply (rp_slot _ _ HR)].
    + intros j n m Hj Hne Hn [->|Hm]%elem_of_cons; [by apply (Hfresh j)|by apply (Hin_nx m Hm j)].
    + intros j Hj Hne. rewrite Gne, G2 by (unfold p; congruence). done.
    + intros j n Hj Hne Hin. rewrite Hent'. apply Hoth2; [by apply (Hfresh j)|by apply (Hnx j)].
  - intros b Hba Hvb. unfold vacant in *. rewrite Hent'. rewrite Hoth2; [done|done|].
    intros Hz ->. unfold nx in *. destruct (L (slot_of me)) as [|n l] eqn:El; [done|].
    destruct (chain_live _ _ _ n Hc ltac:(left)) as [x Hx]. congruence.
Qed.

(** A node in the middle of its chain. *)
Record Middle (t : SlowTLS) (L : Z -> list node) (k : Z) (l1 l2 : list node) (a tid : Z) (i : Info) (nx : Z) : Prop := {
  md_seg : seg t (Slot k) l1;
  md_get : get (end_of (Slot k) l1) t = Ret a;
  md_nonnull : a <> 0;
  md_entry : entries t !! a = Some (mkEntry i tid nx (end_of (Slot k) l1));
  md_rest : chain t (Next a) l2;
  md_next : nx = match l2 with [] => 0 | n :: _ => addr n end;
  md_nodup1 : NoDup (addr <$> l1);
  md_nodup2 : NoDup (addr <$> l2);
  md_out1 : forall n, n ∈ l1 -> addr n <> a;
  md_out2 : forall n, n ∈ l2 -> addr n <> a;
  md_apart : forall n m, n ∈ l1 -> m ∈ l2 -> addr n <> addr m }.
Lemma middle t L k l1 l2 a tid i : Rep t L -> 0 <= k < kTableSize -> L k = l1 ++ (a, tid, i) :: l2 -> exists nx, Middle t L k l1 l2 a tid i nx.
Proof.
  intros HR Hk E. pose proof (rp_chain _ _ HR _ Hk) as Hc. pose proof (rp_nodup _ _ HR _ Hk) as Hnd. rewrite E in Hc, Hnd.
  apply chain_app in Hc as [Hs (Hg & H0 & (nx & He) & Hc)%chain_head]. exists nx. rewrite fmap_app in Hnd. cbn in Hnd.
  apply NoDup_app in Hnd as (N1 & N2 & [N3 N4]%NoDup_cons). pose proof (chain_first _ _ _ Hc) as Hf. cbn in Hf. rewrite He in Hf. cbn in Hf.
  assert (Hin : forall n (l : list node), n ∈ l -> addr n ∈ addr <$> l) by (intros n l Hn; apply list_elem_of_fmap; by exists n).
  split; try done.
  - by injection Hf.
  - intros n Hn E'. apply (N2 (addr n)); [by apply Hin|]. rewrite E'. left.
  - intros n Hn E'. apply N3. rewrite <- E'. by apply Hin.
  - intros n m Hn Hm E'. apply (N2 (addr n)); [by apply Hin|]. rewrite E'. right. by apply Hin.
Qed.

Lemma UnregisterEntry_ok t L k l1 l2 a tid i : Rep t L -> 0 <= k < kTableSize -> L k = l1 ++ (a, tid, i) :: l2 ->
  exists t', UnregisterEntry a t = Ret t' /\ Rep t' (upd k (l1 ++ l2) L) /\ forall b, vacant b t -> vacant b t'.
Proof.
  intros HR Hk E. destruct (middle t L k l1 l2 a tid i HR Hk E) as (nx & [M1 M2 M3 M4 M5 M6 M7 M8 M9 M10 M11]). set (q := end_of (Slot k) l1) in *.
  assert (Hother : forall j n, 0 <= j < kTableSize -> j <> k -> n ∈ L j -> forall m, m ∈ L k -> addr n <> addr m).
  { intros j n Hj Hne Hn m Hm E'. apply Hne. by apply (rp_apart _ _ HR j k n m). }
  assert (Hq : q = Slot k \/ exists n, n ∈ l1 /\ q = Next (addr n)) by apply end_of_cases.
  assert (Hqa : q <> Next a) by (destruct Hq as [->|(n & Hn & ->)]; [done|intros [= E']; by apply (M9 n)]).
  unfold UnregisterEntry. rewrite M4. obind. cbn [prev next]. rewrite M2. obind. rewrite Z.eqb_refl. cbn [check]. obind.
  destruct (put_word_ok q nx a t M2) as (t1 & -> & G1 & Gne & Hsame & Hent & Hnone). obind.
  assert (Hseg1 : seg t1 (Slot k) l1) by (apply (seg_frame_links t); [done|done|done|done|by intros; apply Hsame]).
  assert (Hl2 : forall n, n ∈ l2 -> entries t1 !! addr n = entries t !! addr n).
  { intros n Hn. apply Hent. destruct Hq as [->|(m & Hm & ->)]; [done|]. intros [= E']. by apply (M11 m n). }
  assert (Hoth1 : forall j n, 0 <= j < kTableSize -> j <> k -> n ∈ L j -> entries t1 !! addr n = entries t !! addr n).
  { intros j n Hj Hne Hn. apply Hent. destruct Hq as [->|(m & Hm & ->)]; [done|]. intros [= E']. apply (Hother j n Hj Hne Hn m); [rewrite E; set_solver|done]. }
  (* the link back of the next node *)
  assert (Ht2 : exists t2, (if negb (nx =? 0) then z ← deref (entries t1 !! nx); _ ← check (bool_decide (prev z = Next a)); set_prev nx q t1 else Ret t1) = Ret t2 /\
    (forall p', get p' t2 = get p' t1) /\ chain t2 q l2 /\ (forall e, (nx <> 0 -> e <> nx) -> entries t2 !! e = entries t1 !! e)).
  { rewrite M6. destruct l2 as [|[[e tid'] i'] l2]; cbn [addr fst].
    - exists t1. split; [done|]. split; [done|]. split; [split; [done|cbn; by rewrite G1, M6]|done].
    - apply chain_head in M5 as (_ & H0 & (nx' & He) & Hc). rewrite (proj2 (Z.eqb_neq e 0)) by done. cbn [negb].
      assert (He1 : entries t1 !! e = Some (mkEntry i' tid' nx' (Next a))) by (etransitivity; [apply (Hl2 (e, tid', i')); left|exact He]).
      rewrite He1. obind. cbn [prev]. rewrite bool_decide_eq_true_2 by done. cbn [check]. obind.
      destruct (set_tls_prev_ok e q t1 _ _ _ _ He1) as (t2 & -> & G2 & He2 & Hoth2). exists t2. split; [done|]. split; [done|]. split; [|by auto].
      apply chain_cons with nx'; [by rewrite G2, G1, M6|done|done|]. apply NoDup_cons in M8 as [M8 _].
      apply (tls_chain_frame t); [done| |].
      + rewrite G2. apply Gne. intros E'. destruct Hq as [Eq|(m & Hm & Eq)]; rewrite Eq in E'; [done|]. injection E' as E'.
        apply (M11 m (e, tid', i') Hm); [left|by rewrite <- E'].
      + intros n Hn. rewrite Hoth2; [apply Hl2; by right|]. intros E'. apply M8. apply list_elem_of_fmap. by exists n. }
  destruct Ht2 as (t2 & -> & G2 & Hc2 & Hoth2). obind. eexists. split; [done|]. set (t' := mkSlow _ _).
  assert (Hget : forall p', p' <> Next a -> get p' t' = get p' t2).
  { intros [j|e] Hne; [done|]. unfold t'. cbn. by rewrite lookup_delete_ne by congruence. }
  assert (Hdel : forall e, e <> a -> entries t' !! e = entries t2 !! e) by (intros e Hne; unfold t'; cbn; by rewrite lookup_delete_ne).
  assert (Hnx2 : forall n, (nx <> 0 -> forall m, m ∈ l2 -> addr n <> addr m) -> nx <> 0 -> addr n <> nx).
  { intros n Hn Hz. rewrite M6. destruct l2 as [|m l2]; [done|]. apply Hn; [done|left]. }
  split.
  - eapply rep_update; [exact HR|done|..].
    + apply chain_app. split.
      * apply (seg_frame t1); [done|by intros _; rewrite Hget, G2|]. intros n Hn. rewrite Hdel by auto. apply Hoth2.
        apply Hnx2. intros _ m Hm. by apply M11.
      * apply (tls_chain_frame t2); [done|by apply Hget|]. intros n Hn. apply Hdel. auto.
    + rewrite fmap_app. apply NoDup_app. split_and!; [done| |done]. intros x (n & -> & Hn)%list_elem_of_fmap (m & E' & Hm)%list_elem_of_fmap. by apply (M11 n m).
    + intros n Hn. apply (rp_slot _ _ HR k n Hk). rewrite E. set_solver.
    + intros j n m Hj Hne Hn Hm. apply (Hother j n Hj Hne Hn). rewrite E. set_solver.
    + intros j Hj Hne. rewrite Hget, G2 by done. apply Gne. destruct Hq as [->|(m & _ & ->)]; congruence.
    + intros j n Hj Hne Hn. rewrite Hdel by (apply (Hother j n Hj Hne Hn (a, tid, i)); rewrite E; set_solver). rewrite Hoth2; [by apply (Hoth1 j)|].
      apply Hnx2. intros _ m Hm. apply (Hother j n Hj Hne Hn). rewrite E. set_solver.
  - intros b Hb. unfold vacant, t' in *. cbn. apply lookup_delete_None. destruct (decide (a = b)) as [|Hab]; [by left|right].
    rewrite Hoth2; [by apply Hnone|]. intros Hz ->. rewrite M6 in Hb, Hz. destruct l2 as [|n2 l2]; [done|].
    destruct (chain_live _ _ _ n2 M5 ltac:(left)) as [x Hx]. congruence.
Qed.

Lemma SetEmergency_ok t L k l1 l2 a tid i b : Rep t L -> 0 <= k < kTableSize -> L k = l1 ++ (a, tid, i) :: l2 ->
  exists t', SetEmergency a b t = Ret t' /\ Rep t' (upd k (l1 ++ (a, tid, mkInfo (cache i) b (was_allocated i)) :: l2) L) /\ forall b, vacant b t -> vacant b t'.
Proof.
  intros HR Hk E. destruct (middle t L k l1 l2 a tid i HR Hk E) as (nx & [M1 M2 M3 M4 M5 M6 M7 M8 M9 M10 M11]). set (q := end_of (Slot k) l1) in *.
  assert (Hother : forall j n, 0 <= j < kTableSize -> j <> k -> n ∈ L j -> forall m, m ∈ L k -> addr n <> addr m).
  { intros j n Hj Hne Hn m Hm E'. apply Hne. by apply (rp_apart _ _ HR j k n m). }
  unfold SetEmergency. rewrite M4. obind. cbn [info thread_id next prev]. set (t' := set_entry _ _ _). exists t'. split; [done|].
  assert (Hget : forall p', get p' t' = get p' t).
  { intros [j|e]; [done|]. unfold t'. cbn. destruct (decide (e = a)) as [->|Hne]; [by rewrite lookup_insert_eq, M4|by rewrite lookup_insert_ne]. }
  assert (Hent : forall e, e <> a -> entries t' !! e = entries t !! e) by (intros e Hne; unfold t'; cbn; by rewrite lookup_insert_ne).
  pose proof (rp_nodup _ _ HR _ Hk) as Hnd. rewrite E in Hnd. split.
  - eapply rep_update; [exact HR|done|..].
    + apply chain_app. split; [apply (seg_frame t); [done|done|intros n Hn; apply Hent; auto]|].
      apply chain_cons with nx; [by rewrite Hget|done|unfold t'; cbn; by rewrite lookup_insert_eq|].
      apply (tls_chain_frame t); [done|done|intros n Hn; apply Hent; auto].
    + rewrite fmap_app in *. exact Hnd.
    + intros n Hn. apply (elem_of_app l1) in Hn as [Hn|Hn]; [apply (rp_slot _ _ HR k n Hk); rewrite E; set_solver|].
      apply elem_of_cons in Hn as [->|Hn]; [apply (rp_slot _ _ HR k (a, tid, i) Hk); rewrite E; set_solver|apply (rp_slot _ _ HR k n Hk); rewrite E; set_solver].
    + intros j n m Hj Hne Hn Hm. assert (exists m', m' ∈ L k /\ addr m' = addr m) as (m' & Hm' & <-); [|by apply (Hother j n Hj Hne Hn)].
      apply elem_of_app in Hm as [Hm|[->|Hm]%elem_of_cons]; [exists m|exists (a, tid, i)|exists m]; rewrite E; (split; [set_solver|done]).
    + intros j Hj Hne. apply Hget.
    + intros j n Hj Hne Hn. apply Hent. apply (Hother j n Hj Hne Hn (a, tid, i)). rewrite E. set_solver.
  - intros c Hc. unfold vacant, t' in *. cbn. rewrite lookup_insert_ne by congruence. done.
Qed.

(** The thread's entry in its chain. *)
Lemma mine_split l a i : mine l = [(a, me, i)] -> exists l1 l2, l = l1 ++ (a, me, i) :: l2 /\ mine l1 = [] /\ mine l2 = [].
Proof.
  unfold mine. induction l as [|[[e t] x] l IH]; [done|]. destruct (decide (t = me)) as [->|Hn].
  - rewrite filter_cons_True by done. intros [= -> -> E]. by exists [], l.
  - rewrite filter_cons_False by done. intros E. destruct (IH E) as (l1 & l2 & -> & E1 & E2). exists ((e, t, x) :: l1), l2.
    split_and!; [done| |done]. by rewrite filter_cons_False.
Qed.
Lemma mine_app l1 l2 : mine (l1 ++ l2) = mine l1 ++ mine l2.
Proof. apply filter_app. Qed.
Lemma not_mine_app l1 l2 : not_mine (l1 ++ l2) = not_mine l1 ++ not_mine l2.
Proof. apply filter_app. Qed.
Lemma not_mine_mine a i l : not_mine ((a, me, i) :: l) = not_mine l.
Proof. unfold not_mine. by rewrite filter_cons_False by (cbn; tauto). Qed.
Lemma mine_cons a i l : mine ((a, me, i) :: l) = (a, me, i) :: mine l.
Proof. unfold mine. by rewrite filter_cons_True. Qed.

#[export] Instance slow_tls_laws : SlowTlsLaws (SlowTlsOps0 := slow_tls_ops hash me) SlowTLS slow_ok vacant.
Proof.
  pose proof (slot_range me) as Hr. split.
  - intros t v o (L & HR & Hm & _). cbn [lookup_self slow_tls_ops]. rewrite (Lookup_ok _ L me HR), first_of_mine, Hm. by destruct v as [[a i]|].
  - intros t o a i (L & HR & Hm & Ho) Ha Hv. destruct (RegisterEntry_ok t L a i HR Ha Hv) as (t' & E & HR' & Hvac). exists t'. split; [done|]. split; [|done].
    eexists. split; [exact HR'|]. rewrite upd_same, mine_cons, Hm. split; [done|]. intros j Hj. destruct (decide (j = slot_of me)) as [->|Hn].
    + by rewrite upd_same, not_mine_mine, Ho.
    + by rewrite upd_other, Ho.
  - intros t o a i (L & HR & Hm & Ho). apply mine_split in Hm as (l1 & l2 & E & E1 & E2).
    destruct (UnregisterEntry_ok t L _ l1 l2 a me i HR Hr E) as (t' & Eu & HR' & Hvac). exists t'. split; [done|]. split; [|done].
    eexists. split; [exact HR'|]. rewrite upd_same, mine_app, E1, E2. split; [done|]. intros j Hj. destruct (decide (j = slot_of me)) as [->|Hn].
    + rewrite upd_same, Ho, E, !not_mine_app, not_mine_mine by done. done.
    + by rewrite upd_other, Ho.
  - intros t o a i b (L & HR & Hm & Ho). apply mine_split in Hm as (l1 & l2 & E & E1 & E2).
    destruct (SetEmergency_ok t L _ l1 l2 a me i b HR Hr E) as (t' & Eu & HR' & Hvac). exists t'. split; [done|]. split; [|done].
    eexists. split; [exact HR'|]. rewrite upd_same, mine_app, mine_cons, E1, E2. split; [done|]. intros j Hj. destruct (decide (j = slot_of me)) as [->|Hn].
    + rewrite upd_same, Ho, E, !not_mine_app, !not_mine_mine by done. done.
    + by rewrite upd_other, Ho.
Qed.
End Table.

(** ** The pointer over the hash table *)
Section Whole.
Context (hash : Z -> Z) (me : Z) (kHaveGoodTLS : bool).
Abbreviation ops := (slow_tls_ops hash me).
(** The cache the thread has, in an entry or in thread-local storage. *)
Definition own_cache (s : Tls SlowTLS) : option Z :=
  match Lookup hash me (table s) with
  | Ret (Some (_, i)) => Some (cache i)
  | _ => let c := TCP.GetIfPresent kHaveGoodTLS s in if c =? 0 then None else Some c
  end.
(** A thread that starts, with what other threads have in the table. *)
Definition start (t : SlowTLS) (e : Z) : Tls SlowTLS := mkTls t 0 false 0 e 1.
Inductive reachable : Tls SlowTLS -> Prop :=
  | reach_start t o e : slow_ok hash me t None o -> 0 < e -> (forall a, e <= a -> vacant a t) -> reachable (start t e)
  | reach_act s a r s' : reachable s -> TCP.run (SlowTlsOps0 := ops) kHaveGoodTLS a s = Ret (r, s') -> reachable s'
  | reach_late s l r s' : reachable s -> TCP.InitThreadCachePtrLate (SlowTlsOps0 := ops) kHaveGoodTLS l s = Ret (r, s') -> reachable s'
  | reach_idle s c s' : reachable s -> TCP.ReleaseAndClear kHaveGoodTLS s = Ret (c, s') -> reachable s'.

Abbreviation St := (St (tls_ok := slow_ok hash me) (vacant := vacant) kHaveGoodTLS).
Lemma release_ok s v m o : St s v m o ->
  exists c s', TCP.ReleaseAndClear kHaveGoodTLS s = Ret (c, s') /\ (c = 0 /\ s' = s \/ v = None /\ m = Some c /\ St s' None None o).
Proof.
  intros HS. unfold TCP.ReleaseAndClear. rewrite (present _ _ _ _ _ HS).
  destruct (Z.eqb_spec (stored v m) 0) as [E|E]; cbn [negb]; [do 2 eexists; split; [done|by left]|].
  destruct v as [[a i]|]; [done|]. cbn [stored] in *. destruct m as [c|]; [|done]. cbn [default] in *. obind. do 2 eexists. split; [done|].
  right. split_and!; [done..|]. destruct HS as [S1 S2 S3 S4 S5 S6 S7 S8]. unfold TCP.ClearCacheTLS. split; destruct kHaveGoodTLS; cbn; try done; auto.
Qed.
Lemma reachable_st s : reachable s -> exists v m o, St s v m o /\ mode v = false.
Proof.
  pose proof (slow_tls_laws hash me) as HL.
  assert (Hruns : forall l, right_from (tls_ok := slow_ok hash me) (vacant := vacant) kHaveGoodTLS (TCP.runs (SlowTlsOps0 := ops) kHaveGoodTLS l)).
  { intros l. apply runs_right. apply Forall_forall. intros a _. apply (act_right (SlowTlsLaws0 := HL)). }
  induction 1 as [t o e Ht He Hv|s a r s' _ (v & m & o & HS & Hm) E|s l r s' _ (v & m & o & HS & Hm) E|s c s' _ (v & m & o & HS & Hm) E].
  - exists None, None, o. split; [|done]. split; cbn; try done; lia.
  - destruct (act_right (SlowTlsLaws0 := HL) kHaveGoodTLS a s v m o HS) as (r' & s2 & v' & m' & E' & D & _). rewrite E in E'. injection E' as <- <-.
    exists v', m', o. split; [apply D|]. by rewrite (mode_after _ _ _ (dn_entry _ _ _ _ _ _ _ _ D)).
  - unfold TCP.InitThreadCachePtrLate in E. destruct (key_ready s) eqn:Ek; [done|]. cbn [negb check mbind outcome_bind] in E.
    destruct (Hruns l s v m o HS) as (r' & s2 & v' & m' & E' & D & _). rewrite E' in E. cbn in E. injection E as <- <-.
    exists v', m', o. rewrite (mode_after _ _ _ (dn_entry _ _ _ _ _ _ _ _ D)). split; [|done].
    destruct (dn_st _ _ _ _ _ _ _ _ D) as [S1 S2 S3 S4 S5 S6 S7 S8]. by split.
  - destruct (release_ok s v m o HS) as (c' & s2 & E' & Hc). rewrite E in E'. injection E' as <- <-.
    destruct Hc as [[_ ->]|(-> & -> & HS')]; [by exists v, m, o|by exists None, None, o].
Qed.
Lemma own_cache_st s v m o : St s v m o -> mode v = false -> own_cache s = m.
Proof.
  intros HS Hm. unfold own_cache. destruct (slow_tls_laws hash me) as [Hlk _ _ _].
  rewrite (Hlk _ _ _ (st_tls _ _ _ _ _ HS) : Lookup hash me (table s) = Ret v).
  destruct v as [[a i]|].
  - destruct (st_entry _ _ _ _ _ HS) as [Ec Hi]. specialize (Hi Hm). by destruct m as [c|]; [cbn in Ec; subst c|].
  - rewrite (present _ _ _ _ _ HS). cbn [stored]. destruct m as [c|]; [|done].
    pose proof (st_cache _ _ _ _ _ HS c eq_refl). cbn [default from_option id]. unfold id. by rewrite (proj2 (Z.eqb_neq c 0)) by lia.
Qed.
Lemma first_of_not_mine tid l : tid <> me -> first_of tid l = first_of tid (not_mine me l).
Proof.
  intros Hn. unfold not_mine. induction l as [|[[e t] i] l IH]; [done|]. cbn [first_of]. destruct (decide (t = me)) as [->|Ht].
  - rewrite filter_cons_False by (cbn; tauto). by rewrite (proj2 (Z.eqb_neq me tid)) by done.
  - rewrite filter_cons_True by done. cbn [first_of]. by rewrite IH.
Qed.
Lemma others_same t t' v v' o tid : slow_ok hash me t v o -> slow_ok hash me t' v' o -> tid <> me -> Lookup hash tid t' = Lookup hash tid t.
Proof.
  intros (L & HR & _ & Ho) (L' & HR' & _ & Ho') Hn. rewrite (Lookup_ok hash t L), (Lookup_ok hash t' L') by done. pose proof (slot_range hash tid) as Hs.
  by rewrite (first_of_not_mine tid (L _)), (first_of_not_mine tid (L' _)), <- Ho, <- Ho'.
Qed.

(** C35: a thread has one cache. From every state a thread can be in, before
    or after thread-local storage is ready, a call of [Grab] or of
    [WithStacktraceScope], however deep the calls are that it makes through
    malloc, returns: every pointer handed out outside of stack traces is the
    thread's one cache, created at most once and never replaced; inside of
    them only the emergency mode is reported and no second trace is allowed;
    and no other thread's entry is touched. *)
Theorem thread_has_one_cache (s : Tls SlowTLS) (a : act) : reachable s ->
  exists r s', TCP.run (SlowTlsOps0 := ops) kHaveGoodTLS a s = Ret (r, s') /\ good (own_cache s') false r /\
    grows (own_cache s) (own_cache s') /\ next_cache s' = next_cache s + (if decide (own_cache s = own_cache s') then 0 else 1) /\
    forall tid, tid <> me -> Lookup hash tid (table s') = Lookup hash tid (table s).
Proof.
  intros HR. pose proof (slow_tls_laws hash me) as HL. destruct (reachable_st s HR) as (v & m & o & HS & Hm).
  destruct (act_right (SlowTlsLaws0 := HL) kHaveGoodTLS a s v m o HS) as (r & s' & v' & m' & E & D & G). pose proof D as [HS' Hr He Hg _ Hn].
  assert (Hm' : mode v' = false) by (by rewrite (mode_after _ _ _ He)). rewrite Hm in G. exists r, s'. split; [exact E|].
  rewrite (own_cache_st _ _ _ _ HS Hm), (own_cache_st _ _ _ _ HS' Hm'). split_and!; [done..|].
  intros tid. eapply others_same; [apply (st_tls _ _ _ _ _ HS)|apply (st_tls _ _ _ _ _ HS')].
Qed.
End Whole.

(** A thread that allocates before the key exists, then after, with a stack
    trace taken while the pointer is stored. *)
Definition empty_table : SlowTLS := mkSlow ∅ ∅.
Lemma empty_table_ok : slow_ok (fun x => x) 5 empty_table None (fun _ => []).
Proof.
  exists (fun _ => []). split; [|done]. split.
  - intros i Hi. split; [done|]. cbn. by rewrite aget_in.
  - intros i _. apply NoDup_nil_2.
  - intros i j n m _ _ Hn. by apply elem_of_nil in Hn.
  - intros i n _ Hn. by apply elem_of_nil in Hn.
Qed.
Lemma thread_has_one_cache_witness : exists r s',
  TCP.run (SlowTlsOps0 := slow_tls_ops (fun x => x) 5) true (Grab [] [Grab [] []; Scope [Grab [] []]]) (start empty_table 1) = Ret (r, s') /\
  good (own_cache (fun x => x) 5 true s') false r /\ own_cache (fun x => x) 5 true s' = Some 1.
Proof.
  destruct (thread_has_one_cache (fun x => x) 5 true (start empty_table 1) (Grab [] [Grab [] []; Scope [Grab [] []]])) as (r & s' & E & G & _).
  - apply (reach_start _ _ _ _ (fun _ => [])); [apply empty_table_ok|lia|reflexivity].
  - exists r, s'. split; [exact E|]. split; [exact G|]. injection E as <- <-. reflexivity.
Defined.
