(* ===== verification/Ia32Tables.v ===== *)
(** * The IA-32 instruction tables

    The types of windows/mini_disassembler_types.h and the tables of
    windows/ia32_opcode_map.cc and windows/ia32_modrm_map.cc that drive the
    disassembler of MiniDisassembler.v, entry by entry. The argument [x64]
    is the macro [_M_X64], on which two runs of the first table depend. A
    pointer to an entry is the entry; a null mnemonic is [None]. *)

From S2P Require Import Prelude.
From stdpp Require Import strings.
Local Open Scope string_scope.
Local Open Scope Z_scope.

(** The bits of a flag word are put together with C's bitwise or. *)
Local Infix "|||" := Z.lor (at level 50, left associativity).

Inductive InstructionType :=
  | IT_UNUSED | IT_UNKNOWN | IT_REFERENCE | IT_PREFIX | IT_PREFIX_ADDRESS
  | IT_PREFIX_OPERAND | IT_JUMP | IT_RETURN | IT_GENERIC.

#[export] Instance InstructionType_eq_dec : EqDecision InstructionType.
Proof. solve_decision. Defined.

(** Sizes of operands in bytes ([OperandSize]). *)
Definition OS_ZERO : Z := 0.
Definition OS_BYTE : Z := 1.
Definition OS_WORD : Z := 2.
Definition OS_DOUBLE_WORD : Z := 4.
Definition OS_QUAD_WORD : Z := 8.
Definition OS_DOUBLE_QUAD_WORD : Z := 16.
Definition OS_32_BIT_POINTER : Z := 32 / 8.
Definition OS_48_BIT_POINTER : Z := 48 / 8.
Definition OS_SINGLE_PRECISION_FLOATING : Z := 32 / 8.
Definition OS_DOUBLE_PRECISION_FLOATING : Z := 64 / 8.
Definition OS_DOUBLE_EXTENDED_PRECISION_FLOATING : Z := 80 / 8.
Definition OS_128_BIT_PACKED_SINGLE_PRECISION_FLOATING : Z := 128 / 8.
Definition OS_PSEUDO_DESCRIPTOR : Z := 6.

(** Addressing methods ([AddressingMethod]). *)
Definition AM_NOT_USED : Z := 0.
Definition AM_MASK : Z := 0x00FF0000.
Definition AM_A : Z := 0x00010000.
Definition AM_C : Z := 0x00020000.
Definition AM_D : Z := 0x00030000.
Definition AM_E : Z := 0x00040000.
Definition AM_F : Z := 0x00050000.
Definition AM_G : Z := 0x00060000.
Definition AM_I : Z := 0x00070000.
Definition AM_J : Z := 0x00080000.
Definition AM_M : Z := 0x00090000.
Definition AM_O : Z := 0x000A0000.
Definition AM_P : Z := 0x000B0000.
Definition AM_Q : Z := 0x000C0000.
Definition AM_R : Z := 0x000D0000.
Definition AM_S : Z := 0x000E0000.
Definition AM_T : Z := 0x000F0000.
Definition AM_V : Z := 0x00100000.
Definition AM_W : Z := 0x00110000.
Definition AM_X : Z := 0x00120000.
Definition AM_Y : Z := 0x00130000.
Definition AM_REGISTER : Z := 0x00140000.
Definition AM_IMPLICIT : Z := 0x00150000.

(** Operand types ([OperandType], an unsigned enumeration). *)
Definition OT_MASK : Z := 0xFF000000.
Definition OT_A : Z := 0x01000000.
Definition OT_B : Z := 0x02000000.
Definition OT_C : Z := 0x03000000.
Definition OT_D : Z := 0x04000000.
Definition OT_DQ : Z := 0x05000000.
Definition OT_P : Z := 0x06000000.
Definition OT_PI : Z := 0x07000000.
Definition OT_PS : Z := 0x08000000.
Definition OT_Q : Z := 0x09000000.
Definition OT_S : Z := 0x0A000000.
Definition OT_SS : Z := 0x0B000000.
Definition OT_SI : Z := 0x0C000000.
Definition OT_V : Z := 0x0D000000.
Definition OT_W : Z := 0x0E000000.
Definition OT_SD : Z := 0x0F000000.
Definition OT_PD : Z := 0x10000000.
Definition OT_ADDRESS_MODE_M : Z := 0x80000000.

(** The flag of a 64-bit immediate ([ImmediateOperandSize]). *)
Definition IOS_MASK : Z := 0x0000F000.
Definition IOS_DEFAULT : Z := 0x0.
Definition IOS_64 : Z := 0x00001000.

Record SpecificOpcode := mkSpecific {
  sp_table_index_ : Z; sp_type_ : InstructionType;
  sp_flag_dest_ : Z; sp_flag_source_ : Z; sp_flag_aux_ : Z;
  sp_mnemonic_ : option string }.

Record Opcode := mkOpcode {
  table_index_ : Z; type_ : InstructionType;
  flag_dest_ : Z; flag_source_ : Z; flag_aux_ : Z;
  mnemonic_ : option string;
  is_prefix_dependent_ : bool;
  opcode_if_f2_prefix_ : SpecificOpcode; opcode_if_f3_prefix_ : SpecificOpcode;
  opcode_if_66_prefix_ : SpecificOpcode }.

(** [{ 0 }], a structure with every member zero. *)
Definition zeroed : SpecificOpcode := mkSpecific 0 IT_UNUSED 0 0 0 None.

(** An entry that does not depend on prefixes. *)
Definition row (i : Z) (t : InstructionType) (d s a : Z) (m : option string) : Opcode :=
  mkOpcode i t d s a m false zeroed zeroed zeroed.

(** The view of an entry through a pointer to [SpecificOpcode], whose members
    are the first members of [Opcode] with the flags as [int]. *)
Definition specific (o : Opcode) : SpecificOpcode :=
  mkSpecific (table_index_ o) (type_ o) (s32 (flag_dest_ o)) (s32 (flag_source_ o)) (s32 (flag_aux_ o)) (mnemonic_ o).

Record OpcodeTable := mkTable {
  table_ : list Opcode; shift_ : Z; mask_ : Z; min_lim_ : Z; max_lim_ : Z }.

Record ModrmEntry := mkModrm {
  is_encoded_in_instruction_ : bool; use_sib_byte_ : bool; operand_size_ : Z }.

Definition s_first_opcode_byte_00_3f : list Opcode :=
  [ (* 0x0 *) row 0 IT_GENERIC (AM_E ||| OT_B) (AM_G ||| OT_B) AM_NOT_USED (Some "add");
    (* 0x1 *) row 0 IT_GENERIC (AM_E ||| OT_V) (AM_G ||| OT_V) AM_NOT_USED (Some "add");
    (* 0x2 *) row 0 IT_GENERIC (AM_G ||| OT_B) (AM_E ||| OT_B) AM_NOT_USED (Some "add");
    (* 0x3 *) row 0 IT_GENERIC (AM_G ||| OT_V) (AM_E ||| OT_V) AM_NOT_USED (Some "add");
    (* 0x4 *) row 0 IT_GENERIC (AM_REGISTER ||| OT_B) (AM_I ||| OT_B) AM_NOT_USED (Some "add");
    (* 0x5 *) row 0 IT_GENERIC (AM_REGISTER ||| OT_V) (AM_I ||| OT_V) AM_NOT_USED (Some "add");
    (* 0x6 *) row 0 IT_GENERIC (AM_REGISTER ||| OT_W) AM_NOT_USED AM_NOT_USED (Some "push");
    (* 0x7 *) row 0 IT_GENERIC (AM_REGISTER ||| OT_W) AM_NOT_USED AM_NOT_USED (Some "pop");
    (* 0x8 *) row 0 IT_GENERIC (AM_E ||| OT_B) (AM_G ||| OT_B) AM_NOT_USED (Some "or");
    (* 0x9 *) row 0 IT_GENERIC (AM_E ||| OT_V) (AM_G ||| OT_V) AM_NOT_USED (Some "or");
    (* 0xA *) row 0 IT_GENERIC (AM_G ||| OT_B) (AM_E ||| OT_B) AM_NOT_USED (Some "or");
    (* 0xB *) row 0 IT_GENERIC (AM_G ||| OT_V) (AM_E ||| OT_V) AM_NOT_USED (Some "or");
    (* 0xC *) row 0 IT_GENERIC (AM_REGISTER ||| OT_B) (AM_I ||| OT_B) AM_NOT_USED (Some "or");
    (* 0xD *) row 0 IT_GENERIC (AM_REGISTER ||| OT_V) (AM_I ||| OT_V) AM_NOT_USED (Some "or");
    (* 0xE *) row 0 IT_GENERIC (AM_REGISTER ||| OT_W) AM_NOT_USED AM_NOT_USED (Some "push");
    (* 0xF *) row 1 IT_REFERENCE AM_NOT_USED AM_NOT_USED AM_NOT_USED None;
    (* 0x10 *) row 0 IT_GENERIC (AM_E ||| OT_B) (AM_G ||| OT_B) AM_NOT_USED (Some "adc");
    (* 0x11 *) row 0 IT_GENERIC (AM_E ||| OT_V) (AM_G ||| OT_V) AM_NOT_USED (Some "adc");
    (* 0x12 *) row 0 IT_GENERIC (AM_G ||| OT_B) (AM_E ||| OT_B) AM_NOT_USED (Some "adc");
    (* 0x13 *) row 0 IT_GENERIC (AM_G ||| OT_V) (AM_E ||| OT_V) AM_NOT_USED (Some "adc");
    (* 0x14 *) row 0 IT_GENERIC (AM_REGISTER ||| OT_B) (AM_I ||| OT_B) AM_NOT_USED (Some "adc");
    (* 0x15 *) row 0 IT_GENERIC (AM_REGISTER ||| OT_V) (AM_I ||| OT_V) AM_NOT_USED (Some "adc");
    (* 0x16 *) row 0 IT_GENERIC (AM_REGISTER ||| OT_W) AM_NOT_USED AM_NOT_USED (Some "push");
    (* 0x17 *) row 0 IT_GENERIC (AM_REGISTER ||| OT_W) AM_NOT_USED AM_NOT_USED (Some "pop");
    (* 0x18 *) row 0 IT_GENERIC (AM_E ||| OT_B) (AM_G ||| OT_B) AM_NOT_USED (Some "sbb");
    (* 0x19 *) row 0 IT_GENERIC (AM_E ||| OT_V) (AM_G ||| OT_V) AM_NOT_USED (Some "sbb");
    (* 0x1A *) row 0 IT_GENERIC (AM_G ||| OT_B) (AM_E ||| OT_B) AM_NOT_USED (Some "sbb");
    (* 0x1B *) row 0 IT_GENERIC (AM_G ||| OT_V) (AM_E ||| OT_V) AM_NOT_USED (Some "sbb");
    (* 0x1C *) row 0 IT_GENERIC (AM_REGISTER ||| OT_B) (AM_I ||| OT_B) AM_NOT_USED (Some "sbb");
    (* 0x1D *) row 0 IT_GENERIC (AM_REGISTER ||| OT_V) (AM_I ||| OT_V) AM_NOT_USED (Some "sbb");
    (* 0x1E *) row 0 IT_GENERIC (AM_REGISTER ||| OT_W) AM_NOT_USED AM_NOT_USED (Some "push");
    (* 0x1F *) row 0 IT_GENERIC (AM_REGISTER ||| OT_W) AM_NOT_USED AM_NOT_USED (Some "pop");
    (* 0x20 *) row 0 IT_GENERIC (AM_E ||| OT_B) (AM_G ||| OT_B) AM_NOT_USED (Some "and");
    (* 0x21 *) row 0 IT_GENERIC (AM_E ||| OT_V) (AM_G ||| OT_V) AM_NOT_USED (Some "and");
    (* 0x22 *) row 0 IT_GENERIC (AM_G ||| OT_B) (AM_E ||| OT_B) AM_NOT_USED (Some "and");
    (* 0x23 *) row 0 IT_GENERIC (AM_G ||| OT_V) (AM_E ||| OT_V) AM_NOT_USED (Some "and");
    (* 0x24 *) row 0 IT_GENERIC (AM_REGISTER ||| OT_B) (AM_I ||| OT_B) AM_NOT_USED (Some "and");
    (* 0x25 *) row 0 IT_GENERIC (AM_REGISTER ||| OT_V) (AM_I ||| OT_V) AM_NOT_USED (Some "and");
    (* 0x26 *) row 0 IT_PREFIX AM_NOT_USED AM_NOT_USED AM_NOT_USED None;
    (* 0x27 *) row 0 IT_GENERIC AM_NOT_USED AM_NOT_USED AM_NOT_USED (Some "daa");
    (* 0x28 *) row 0 IT_GENERIC (AM_E ||| OT_B) (AM_G ||| OT_B) AM_NOT_USED (Some "sub");
    (* 0x29 *) row 0 IT_GENERIC (AM_E ||| OT_V) (AM_G ||| OT_V) AM_NOT_USED (Some "sub");
    (* 0x2A *) row 0 IT_GENERIC (AM_G ||| OT_B) (AM_E ||| OT_B) AM_NOT_USED (Some "sub");
    (* 0x2B *) row 0 IT_GENERIC (AM_G ||| OT_V) (AM_E ||| OT_V) AM_NOT_USED (Some "sub");
    (* 0x2C *) row 0 IT_GENERIC (AM_REGISTER ||| OT_B) (AM_I ||| OT_B) AM_NOT_USED (Some "sub");
    (* 0x2D *) row 0 IT_GENERIC (AM_REGISTER ||| OT_V) (AM_I ||| OT_V) AM_NOT_USED (Some "sub");
    (* 0x2E *) row 0 IT_PREFIX AM_NOT_USED AM_NOT_USED AM_NOT_USED None;
    (* 0x2F *) row 0 IT_GENERIC AM_NOT_USED AM_NOT_USED AM_NOT_USED (Some "das");
    (* 0x30 *) row 0 IT_GENERIC (AM_E ||| OT_B) (AM_G ||| OT_B) AM_NOT_USED (Some "xor");
    (* 0x31 *) row 0 IT_GENERIC (AM_E ||| OT_V) (AM_G ||| OT_V) AM_NOT_USED (Some "xor");
    (* 0x32 *) row 0 IT_GENERIC (AM_G ||| OT_B) (AM_E ||| OT_B) AM_NOT_USED (Some "xor");
    (* 0x33 *) row 0 IT_GENERIC (AM_G ||| OT_V) (AM_E ||| OT_V) AM_NOT_USED (Some "xor");
    (* 0x34 *) row 0 IT_GENERIC (AM_REGISTER ||| OT_B) (AM_I ||| OT_B) AM_NOT_USED (Some "xor");
    (* 0x35 *) row 0 IT_GENERIC (AM_REGISTER ||| OT_V) (AM_I ||| OT_V) AM_NOT_USED (Some "xor");
    (* 0x36 *) row 0 IT_PREFIX AM_NOT_USED AM_NOT_USED AM_NOT_USED None;
    (* 0x37 *) row 0 IT_GENERIC AM_NOT_USED AM_NOT_USED AM_NOT_USED (Some "aaa");
    (* 0x38 *) row 0 IT_GENERIC (AM_E ||| OT_B) (AM_G ||| OT_B) AM_NOT_USED (Some "cmp");
    (* 0x39 *) row 0 IT_GENERIC (AM_E ||| OT_V) (AM_G ||| OT_V) AM_NOT_USED (Some "cmp");
    (* 0x3A *) row 0 IT_GENERIC (AM_G ||| OT_B) (AM_E ||| OT_B) AM_NOT_USED (Some "cmp");
    (* 0x3B *) row 0 IT_GENERIC (AM_G ||| OT_V) (AM_E ||| OT_V) AM_NOT_USED (Some "cmp");
    (* 0x3C *) row 0 IT_GENERIC (AM_REGISTER ||| OT_B) (AM_I ||| OT_B) AM_NOT_USED (Some "cmp");
    (* 0x3D *) row 0 IT_GENERIC (AM_REGISTER ||| OT_V) (AM_I ||| OT_V) AM_NOT_USED (Some "cmp");
    (* 0x3E *) row 0 IT_PREFIX AM_NOT_USED AM_NOT_USED AM_NOT_USED None;
    (* 0x3F *) row 0 IT_GENERIC AM_NOT_USED AM_NOT_USED AM_NOT_USED (Some "aas") ].

Definition s_first_opcode_byte_40_4f (x64 : bool) : list Opcode :=
  if x64 then
  [ (* 0x40 *) row 0 IT_PREFIX AM_NOT_USED AM_NOT_USED AM_NOT_USED None;
    (* 0x41 *) row 0 IT_PREFIX AM_NOT_USED AM_NOT_USED AM_NOT_USED None;
    (* 0x42 *) row 0 IT_PREFIX AM_NOT_USED AM_NOT_USED AM_NOT_USED None;
    (* 0x43 *) row 0 IT_PREFIX AM_NOT_USED AM_NOT_USED AM_NOT_USED None;
    (* 0x44 *) row 0 IT_PREFIX AM_NOT_USED AM_NOT_USED AM_NOT_USED None;
    (* 0x45 *) row 0 IT_PREFIX AM_NOT_USED AM_NOT_USED AM_NOT_USED None;
    (* 0x46 *) row 0 IT_PREFIX AM_NOT_USED AM_NOT_USED AM_NOT_USED None;
    (* 0x47 *) row 0 IT_PREFIX AM_NOT_USED AM_NOT_USED AM_NOT_USED None;
    (* 0x48 *) row 0 IT_PREFIX AM_NOT_USED AM_NOT_USED AM_NOT_USED None;
    (* 0x49 *) row 0 IT_PREFIX AM_NOT_USED AM_NOT_USED AM_NOT_USED None;
    (* 0x4A *) row 0 IT_PREFIX AM_NOT_USED AM_NOT_USED AM_NOT_USED None;
    (* 0x4B *) row 0 IT_PREFIX AM_NOT_USED AM_NOT_USED AM_NOT_USED None;
    (* 0x4C *) row 0 IT_PREFIX AM_NOT_USED AM_NOT_USED AM_NOT_USED None;
    (* 0x4D *) row 0 IT_PREFIX AM_NOT_USED AM_NOT_USED AM_NOT_USED None;
    (* 0x4E *) row 0 IT_PREFIX AM_NOT_USED AM_NOT_USED AM_NOT_USED None;
    (* 0x4F *) row 0 IT_PREFIX AM_NOT_USED AM_NOT_USED AM_NOT_USED None ]
  else
  [ (* 0x40 *) row 0 IT_GENERIC (AM_REGISTER ||| OT_V) AM_NOT_USED AM_NOT_USED (Some "inc");
    (* 0x41 *) row 0 IT_GENERIC (AM_REGISTER ||| OT_V) AM_NOT_USED AM_NOT_USED (Some "inc");
    (* 0x42 *) row 0 IT_GENERIC (AM_REGISTER ||| OT_V) AM_NOT_USED AM_NOT_USED (Some "inc");
    (* 0x43 *) row 0 IT_GENERIC (AM_REGISTER ||| OT_V) AM_NOT_USED AM_NOT_USED (Some "inc");
    (* 0x44 *) row 0 IT_GENERIC (AM_REGISTER ||| OT_V) AM_NOT_USED AM_NOT_USED (Some "inc");
    (* 0x45 *) row 0 IT_GENERIC (AM_REGISTER ||| OT_V) AM_NOT_USED AM_NOT_USED (Some "inc");
    (* 0x46 *) row 0 IT_GENERIC (AM_REGISTER ||| OT_V) AM_NOT_USED AM_NOT_USED (Some "inc");
    (* 0x47 *) row 0 IT_GENERIC (AM_REGISTER ||| OT_V) AM_NOT_USED AM_NOT_USED (Some "inc");
    (* 0x48 *) row 0 IT_GENERIC (AM_REGISTER ||| OT_V) AM_NOT_USED AM_NOT_USED (Some "dec");
    (* 0x49 *) row 0 IT_GENERIC (AM_REGISTER ||| OT_V) AM_NOT_USED AM_NOT_USED (Some "dec");
    (* 0x4A *) row 0 IT_GENERIC (AM_REGISTER ||| OT_V) AM_NOT_USED AM_NOT_USED (Some "dec");
    (* 0x4B *) row 0 IT_GENERIC (AM_REGISTER ||| OT_V) AM_NOT_USED AM_NOT_USED (Some "dec");
    (* 0x4C *) row 0 IT_GENERIC (AM_REGISTER ||| OT_V) AM_NOT_USED AM_NOT_USED (Some "dec");
    (* 0x4D *) row 0 IT_GENERIC (AM_REGISTER ||| OT_V) AM_NOT_USED AM_NOT_USED (Some "dec");
    (* 0x4E *) row 0 IT_GENERIC (AM_REGISTER ||| OT_V) AM_NOT_USED AM_NOT_USED (Some "dec");
    (* 0x4F *) row 0 IT_GENERIC (AM_REGISTER ||| OT_V) AM_NOT_USED AM_NOT_USED (Some "dec") ].

Definition s_first_opcode_byte_50_b7 : list Opcode :=
  [ (* 0x50 *) row 0 IT_GENERIC (AM_REGISTER ||| OT_V) AM_NOT_USED AM_NOT_USED (Some "push");
    (* 0x51 *) row 0 IT_GENERIC (AM_REGISTER ||| OT_V) AM_NOT_USED AM_NOT_USED (Some "push");
    (* 0x52 *) row 0 IT_GENERIC (AM_REGISTER ||| OT_V) AM_NOT_USED AM_NOT_USED (Some "push");
    (* 0x53 *) row 0 IT_GENERIC (AM_REGISTER ||| OT_V) AM_NOT_USED AM_NOT_USED (Some "push");
    (* 0x54 *) row 0 IT_GENERIC (AM_REGISTER ||| OT_V) AM_NOT_USED AM_NOT_USED (Some "push");
    (* 0x55 *) row 0 IT_GENERIC (AM_REGISTER ||| OT_V) AM_NOT_USED AM_NOT_USED (Some "push");
    (* 0x56 *) row 0 IT_GENERIC (AM_REGISTER ||| OT_V) AM_NOT_USED AM_NOT_USED (Some "push");
    (* 0x57 *) row 0 IT_GENERIC (AM_REGISTER ||| OT_V) AM_NOT_USED AM_NOT_USED (Some "push");
    (* 0x58 *) row 0 IT_GENERIC (AM_REGISTER ||| OT_V) AM_NOT_USED AM_NOT_USED (Some "pop");
    (* 0x59 *) row 0 IT_GENERIC (AM_REGISTER ||| OT_V) AM_NOT_USED AM_NOT_USED (Some "pop");
    (* 0x5A *) row 0 IT_GENERIC (AM_REGISTER ||| OT_V) AM_NOT_USED AM_NOT_USED (Some "pop");
    (* 0x5B *) row 0 IT_GENERIC (AM_REGISTER ||| OT_V) AM_NOT_USED AM_NOT_USED (Some "pop");
    (* 0x5C *) row 0 IT_GENERIC (AM_REGISTER ||| OT_V) AM_NOT_USED AM_NOT_USED (Some "pop");
    (* 0x5D *) row 0 IT_GENERIC (AM_REGISTER ||| OT_V) AM_NOT_USED AM_NOT_USED (Some "pop");
    (* 0x5E *) row 0 IT_GENERIC (AM_REGISTER ||| OT_V) AM_NOT_USED AM_NOT_USED (Some "pop");
    (* 0x5F *) row 0 IT_GENERIC (AM_REGISTER ||| OT_V) AM_NOT_USED AM_NOT_USED (Some "pop");
    (* 0x60 *) row 0 IT_GENERIC AM_NOT_USED AM_NOT_USED AM_NOT_USED (Some "pushad");
    (* 0x61 *) row 0 IT_GENERIC AM_NOT_USED AM_NOT_USED AM_NOT_USED (Some "popad");
    (* 0x62 *) row 0 IT_GENERIC (AM_G ||| OT_V) (AM_M ||| OT_A) AM_NOT_USED (Some "bound");
    (* 0x63 *) row 0 IT_GENERIC (AM_E ||| OT_W) (AM_G ||| OT_W) AM_NOT_USED (Some "arpl");
    (* 0x64 *) row 0 IT_PREFIX AM_NOT_USED AM_NOT_USED AM_NOT_USED None;
    (* 0x65 *) row 0 IT_PREFIX AM_NOT_USED AM_NOT_USED AM_NOT_USED None;
    (* 0x66 *) row 0 IT_PREFIX_OPERAND AM_NOT_USED AM_NOT_USED AM_NOT_USED None;
    (* 0x67 *) row 0 IT_PREFIX_ADDRESS AM_NOT_USED AM_NOT_USED AM_NOT_USED None;
    (* 0x68 *) row 0 IT_GENERIC (AM_I ||| OT_V) AM_NOT_USED AM_NOT_USED (Some "push");
    (* 0x69 *) row 0 IT_GENERIC (AM_G ||| OT_V) (AM_E ||| OT_V) (AM_I ||| OT_V) (Some "imul");
    (* 0x6A *) row 0 IT_GENERIC (AM_I ||| OT_B) AM_NOT_USED AM_NOT_USED (Some "push");
    (* 0x6B *) row 0 IT_GENERIC (AM_G ||| OT_V) (AM_E ||| OT_V) (AM_I ||| OT_B) (Some "imul");
    (* 0x6C *) row 0 IT_GENERIC (AM_Y ||| OT_B) (AM_REGISTER ||| OT_B) AM_NOT_USED (Some "insb");
    (* 0x6D *) row 0 IT_GENERIC (AM_Y ||| OT_V) (AM_REGISTER ||| OT_V) AM_NOT_USED (Some "insd");
    (* 0x6E *) row 0 IT_GENERIC (AM_REGISTER ||| OT_B) (AM_X ||| OT_B) AM_NOT_USED (Some "outsb");
    (* 0x6F *) row 0 IT_GENERIC (AM_REGISTER ||| OT_V) (AM_X ||| OT_V) AM_NOT_USED (Some "outsb");
    (* 0x70 *) row 0 IT_JUMP (AM_J ||| OT_B) AM_NOT_USED AM_NOT_USED (Some "jo");
    (* 0x71 *) row 0 IT_JUMP (AM_J ||| OT_B) AM_NOT_USED AM_NOT_USED (Some "jno");
    (* 0x72 *) row 0 IT_JUMP (AM_J ||| OT_B) AM_NOT_USED AM_NOT_USED (Some "jc");
    (* 0x73 *) row 0 IT_JUMP (AM_J ||| OT_B) AM_NOT_USED AM_NOT_USED (Some "jnc");
    (* 0x74 *) row 0 IT_JUMP (AM_J ||| OT_B) AM_NOT_USED AM_NOT_USED (Some "jz");
    (* 0x75 *) row 0 IT_JUMP (AM_J ||| OT_B) AM_NOT_USED AM_NOT_USED (Some "jnz");
    (* 0x76 *) row 0 IT_JUMP (AM_J ||| OT_B) AM_NOT_USED AM_NOT_USED (Some "jbe");
    (* 0x77 *) row 0 IT_JUMP (AM_J ||| OT_B) AM_NOT_USED AM_NOT_USED (Some "ja");
    (* 0x78 *) row 0 IT_JUMP (AM_J ||| OT_B) AM_NOT_USED AM_NOT_USED (Some "js");
    (* 0x79 *) row 0 IT_JUMP (AM_J ||| OT_B) AM_NOT_USED AM_NOT_USED (Some "jns");
    (* 0x7A *) row 0 IT_JUMP (AM_J ||| OT_B) AM_NOT_USED AM_NOT_USED (Some "jpe");
    (* 0x7B *) row 0 IT_JUMP (AM_J ||| OT_B) AM_NOT_USED AM_NOT_USED (Some "jpo");
    (* 0x7C *) row 0 IT_JUMP (AM_J ||| OT_B) AM_NOT_USED AM_NOT_USED (Some "jl");
    (* 0x7D *) row 0 IT_JUMP (AM_J ||| OT_B) AM_NOT_USED AM_NOT_USED (Some "jge");
    (* 0x7E *) row 0 IT_JUMP (AM_J ||| OT_B) AM_NOT_USED AM_NOT_USED (Some "jle");
    (* 0x7F *) row 0 IT_JUMP (AM_J ||| OT_B) AM_NOT_USED AM_NOT_USED (Some "jg");
    (* 0x80 *) row 2 IT_REFERENCE (AM_E ||| OT_B) (AM_I ||| OT_B) AM_NOT_USED None;
    (* 0x81 *) row 3 IT_REFERENCE (AM_E ||| OT_V) (AM_I ||| OT_V) AM_NOT_USED None;
    (* 0x82 *) row 4 IT_REFERENCE (AM_E ||| OT_V) (AM_I ||| OT_B) AM_NOT_USED None;
    (* 0x83 *) row 5 IT_REFERENCE (AM_E ||| OT_V) (AM_I ||| OT_B) AM_NOT_USED None;
    (* 0x84 *) row 0 IT_GENERIC (AM_E ||| OT_B) (AM_G ||| OT_B) AM_NOT_USED (Some "test");
    (* 0x85 *) row 0 IT_GENERIC (AM_E ||| OT_V) (AM_G ||| OT_V) AM_NOT_USED (Some "test");
    (* 0x86 *) row 0 IT_GENERIC (AM_E ||| OT_B) (AM_G ||| OT_B) AM_NOT_USED (Some "xchg");
    (* 0x87 *) row 0 IT_GENERIC (AM_E ||| OT_V) (AM_G ||| OT_V) AM_NOT_USED (Some "xchg");
    (* 0x88 *) row 0 IT_GENERIC (AM_E ||| OT_B) (AM_G ||| OT_B) AM_NOT_USED (Some "mov");
    (* 0x89 *) row 0 IT_GENERIC (AM_E ||| OT_V) (AM_G ||| OT_V) AM_NOT_USED (Some "mov");
    (* 0x8A *) row 0 IT_GENERIC (AM_G ||| OT_B) (AM_E ||| OT_B) AM_NOT_USED (Some "mov");
    (* 0x8B *) row 0 IT_GENERIC (AM_G ||| OT_V) (AM_E ||| OT_V) AM_NOT_USED (Some "mov");
    (* 0x8C *) row 0 IT_GENERIC (AM_E ||| OT_W) (AM_S ||| OT_W) AM_NOT_USED (Some "mov");
    (* 0x8D *) row 0 IT_GENERIC (AM_G ||| OT_V) (AM_M ||| OT_ADDRESS_MODE_M) AM_NOT_USED (Some "lea");
    (* 0x8E *) row 0 IT_GENERIC (AM_S ||| OT_W) (AM_E ||| OT_W) AM_NOT_USED (Some "mov");
    (* 0x8F *) row 0 IT_GENERIC (AM_E ||| OT_V) AM_NOT_USED AM_NOT_USED (Some "pop");
    (* 0x90 *) row 0 IT_GENERIC AM_NOT_USED AM_NOT_USED AM_NOT_USED (Some "nop");
    (* 0x91 *) row 0 IT_GENERIC (AM_REGISTER ||| OT_V) (AM_REGISTER ||| OT_V) AM_NOT_USED (Some "xchg");
    (* 0x92 *) row 0 IT_GENERIC (AM_REGISTER ||| OT_V) (AM_REGISTER ||| OT_V) AM_NOT_USED (Some "xchg");
    (* 0x93 *) row 0 IT_GENERIC (AM_REGISTER ||| OT_V) (AM_REGISTER ||| OT_V) AM_NOT_USED (Some "xchg");
    (* 0x94 *) row 0 IT_GENERIC (AM_REGISTER ||| OT_V) (AM_REGISTER ||| OT_V) AM_NOT_USED (Some "xchg");
    (* 0x95 *) row 0 IT_GENERIC (AM_REGISTER ||| OT_V) (AM_REGISTER ||| OT_V) AM_NOT_USED (Some "xchg");
    (* 0x96 *) row 0 IT_GENERIC (AM_REGISTER ||| OT_V) (AM_REGISTER ||| OT_V) AM_NOT_USED (Some "xchg");
    (* 0x97 *) row 0 IT_GENERIC (AM_REGISTER ||| OT_V) (AM_REGISTER ||| OT_V) AM_NOT_USED (Some "xchg");
    (* 0x98 *) row 0 IT_GENERIC AM_NOT_USED AM_NOT_USED AM_NOT_USED (Some "cwde");
    (* 0x99 *) row 0 IT_GENERIC AM_NOT_USED AM_NOT_USED AM_NOT_USED (Some "cdq");
    (* 0x9A *) row 0 IT_JUMP (AM_A ||| OT_P) AM_NOT_USED AM_NOT_USED (Some "callf");
    (* 0x9B *) row 0 IT_GENERIC AM_NOT_USED AM_NOT_USED AM_NOT_USED (Some "wait");
    (* 0x9C *) row 0 IT_GENERIC AM_NOT_USED AM_NOT_USED AM_NOT_USED (Some "pushfd");
    (* 0x9D *) row 0 IT_GENERIC AM_NOT_USED AM_NOT_USED AM_NOT_USED (Some "popfd");
    (* 0x9E *) row 0 IT_GENERIC AM_NOT_USED AM_NOT_USED AM_NOT_USED (Some "sahf");
    (* 0x9F *) row 0 IT_GENERIC AM_NOT_USED AM_NOT_USED AM_NOT_USED (Some "lahf");
    (* 0xA0 *) row 0 IT_GENERIC (AM_REGISTER ||| OT_B) (AM_O ||| OT_B) AM_NOT_USED (Some "mov");
    (* 0xA1 *) row 0 IT_GENERIC (AM_REGISTER ||| OT_V) (AM_O ||| OT_V) AM_NOT_USED (Some "mov");
    (* 0xA2 *) row 0 IT_GENERIC (AM_O ||| OT_B) (AM_REGISTER ||| OT_B) AM_NOT_USED (Some "mov");
    (* 0xA3 *) row 0 IT_GENERIC (AM_O ||| OT_V) (AM_REGISTER ||| OT_V) AM_NOT_USED (Some "mov");
    (* 0xA4 *) row 0 IT_GENERIC (AM_X ||| OT_B) (AM_Y ||| OT_B) AM_NOT_USED (Some "movsb");
    (* 0xA5 *) row 0 IT_GENERIC (AM_X ||| OT_V) (AM_Y ||| OT_V) AM_NOT_USED (Some "movsd");
    (* 0xA6 *) row 0 IT_GENERIC (AM_X ||| OT_B) (AM_Y ||| OT_B) AM_NOT_USED (Some "cmpsb");
    (* 0xA7 *) row 0 IT_GENERIC (AM_X ||| OT_V) (AM_Y ||| OT_V) AM_NOT_USED (Some "cmpsd");
    (* 0xA8 *) row 0 IT_GENERIC (AM_REGISTER ||| OT_B) (AM_I ||| OT_B) AM_NOT_USED (Some "test");
    (* 0xA9 *) row 0 IT_GENERIC (AM_REGISTER ||| OT_V) (AM_I ||| OT_V) AM_NOT_USED (Some "test");
    (* 0xAA *) row 0 IT_GENERIC (AM_Y ||| OT_B) (AM_REGISTER ||| OT_B) AM_NOT_USED (Some "stosb");
    (* 0xAB *) row 0 IT_GENERIC (AM_Y ||| OT_V) (AM_REGISTER ||| OT_V) AM_NOT_USED (Some "stosd");
    (* 0xAC *) row 0 IT_GENERIC (AM_REGISTER ||| OT_B) (AM_X ||| OT_B) AM_NOT_USED (Some "lodsb");
    (* 0xAD *) row 0 IT_GENERIC (AM_REGISTER ||| OT_V) (AM_X ||| OT_V) AM_NOT_USED (Some "lodsd");
    (* 0xAE *) row 0 IT_GENERIC (AM_REGISTER ||| OT_B) (AM_Y ||| OT_B) AM_NOT_USED (Some "scasb");
    (* 0xAF *) row 0 IT_GENERIC (AM_REGISTER ||| OT_V) (AM_Y ||| OT_V) AM_NOT_USED (Some "scasd");
    (* 0xB0 *) row 0 IT_GENERIC (AM_REGISTER ||| OT_B) (AM_I ||| OT_B) AM_NOT_USED (Some "mov");
    (* 0xB1 *) row 0 IT_GENERIC (AM_REGISTER ||| OT_B) (AM_I ||| OT_B) AM_NOT_USED (Some "mov");
    (* 0xB2 *) row 0 IT_GENERIC (AM_REGISTER ||| OT_B) (AM_I ||| OT_B) AM_NOT_USED (Some "mov");
    (* 0xB3 *) row 0 IT_GENERIC (AM_REGISTER ||| OT_B) (AM_I ||| OT_B) AM_NOT_USED (Some "mov");
    (* 0xB4 *) row 0 IT_GENERIC (AM_REGISTER ||| OT_B) (AM_I ||| OT_B) AM_NOT_USED (Some "mov");
    (* 0xB5 *) row 0 IT_GENERIC (AM_REGISTER ||| OT_B) (AM_I ||| OT_B) AM_NOT_USED (Some "mov");
    (* 0xB6 *) row 0 IT_GENERIC (AM_REGISTER ||| OT_B) (AM_I ||| OT_B) AM_NOT_USED (Some "mov");
    (* 0xB7 *) row 0 IT_GENERIC (AM_REGISTER ||| OT_B) (AM_I ||| OT_B) AM_NOT_USED (Some "mov") ].

Definition s_first_opcode_byte_b8_bf (x64 : bool) : list Opcode :=
  if x64 then
  [ (* 0xB8 *) row 0 IT_GENERIC (AM_REGISTER ||| OT_V) (AM_I ||| OT_V ||| IOS_64) AM_NOT_USED (Some "mov");
    (* 0xB9 *) row 0 IT_GENERIC (AM_REGISTER ||| OT_V) (AM_I ||| OT_V ||| IOS_64) AM_NOT_USED (Some "mov");
    (* 0xBA *) row 0 IT_GENERIC (AM_REGISTER ||| OT_V) (AM_I ||| OT_V ||| IOS_64) AM_NOT_USED (Some "mov");
    (* 0xBB *) row 0 IT_GENERIC (AM_REGISTER ||| OT_V) (AM_I ||| OT_V ||| IOS_64) AM_NOT_USED (Some "mov");
    (* 0xBC *) row 0 IT_GENERIC (AM_REGISTER ||| OT_V) (AM_I ||| OT_V ||| IOS_64) AM_NOT_USED (Some "mov");
    (* 0xBD *) row 0 IT_GENERIC (AM_REGISTER ||| OT_V) (AM_I ||| OT_V ||| IOS_64) AM_NOT_USED (Some "mov");
    (* 0xBE *) row 0 IT_GENERIC (AM_REGISTER ||| OT_V) (AM_I ||| OT_V ||| IOS_64) AM_NOT_USED (Some "mov");
    (* 0xBF *) row 0 IT_GENERIC (AM_REGISTER ||| OT_V) (AM_I ||| OT_V ||| IOS_64) AM_NOT_USED (Some "mov") ]
  else
  [ (* 0xB8 *) row 0 IT_GENERIC (AM_REGISTER ||| OT_V) (AM_I ||| OT_V) AM_NOT_USED (Some "mov");
    (* 0xB9 *) row 0 IT_GENERIC (AM_REGISTER ||| OT_V) (AM_I ||| OT_V) AM_NOT_USED (Some "mov");
    (* 0xBA *) row 0 IT_GENERIC (AM_REGISTER ||| OT_V) (AM_I ||| OT_V) AM_NOT_USED (Some "mov");
    (* 0xBB *) row 0 IT_GENERIC (AM_REGISTER ||| OT_V) (AM_I ||| OT_V) AM_NOT_USED (Some "mov");
    (* 0xBC *) row 0 IT_GENERIC (AM_REGISTER ||| OT_V) (AM_I ||| OT_V) AM_NOT_USED (Some "mov");
    (* 0xBD *) row 0 IT_GENERIC (AM_REGISTER ||| OT_V) (AM_I ||| OT_V) AM_NOT_USED (Some "mov");
    (* 0xBE *) row 0 IT_GENERIC (AM_REGISTER ||| OT_V) (AM_I ||| OT_V) AM_NOT_USED (Some "mov");
    (* 0xBF *) row 0 IT_GENERIC (AM_REGISTER ||| OT_V) (AM_I ||| OT_V) AM_NOT_USED (Some "mov") ].

Definition s_first_opcode_byte_c0_ff : list Opcode :=
  [ (* 0xC0 *) row 6 IT_REFERENCE (AM_E ||| OT_B) (AM_I ||| OT_B) AM_NOT_USED None;
    (* 0xC1 *) row 7 IT_REFERENCE (AM_E ||| OT_V) (AM_I ||| OT_B) AM_NOT_USED None;
    (* 0xC2 *) row 0 IT_RETURN (AM_I ||| OT_W) AM_NOT_USED AM_NOT_USED (Some "ret");
    (* 0xC3 *) row 0 IT_RETURN AM_NOT_USED AM_NOT_USED AM_NOT_USED (Some "ret");
    (* 0xC4 *) row 0 IT_GENERIC (AM_G ||| OT_V) (AM_M ||| OT_P) AM_NOT_USED (Some "les");
    (* 0xC5 *) row 0 IT_GENERIC (AM_G ||| OT_V) (AM_M ||| OT_P) AM_NOT_USED (Some "lds");
    (* 0xC6 *) row 0 IT_GENERIC (AM_E ||| OT_B) (AM_I ||| OT_B) AM_NOT_USED (Some "mov");
    (* 0xC7 *) row 0 IT_GENERIC (AM_E ||| OT_V) (AM_I ||| OT_V) AM_NOT_USED (Some "mov");
    (* 0xC8 *) row 0 IT_GENERIC (AM_I ||| OT_W) (AM_I ||| OT_B) AM_NOT_USED (Some "enter");
    (* 0xC9 *) row 0 IT_GENERIC AM_NOT_USED AM_NOT_USED AM_NOT_USED (Some "leave");
    (* 0xCA *) row 0 IT_RETURN (AM_I ||| OT_W) AM_NOT_USED AM_NOT_USED (Some "retf");
    (* 0xCB *) row 0 IT_RETURN AM_NOT_USED AM_NOT_USED AM_NOT_USED (Some "retf");
    (* 0xCC *) row 0 IT_GENERIC AM_NOT_USED AM_NOT_USED AM_NOT_USED (Some "int3");
    (* 0xCD *) row 0 IT_GENERIC (AM_I ||| OT_B) AM_NOT_USED AM_NOT_USED (Some "int");
    (* 0xCE *) row 0 IT_GENERIC AM_NOT_USED AM_NOT_USED AM_NOT_USED (Some "into");
    (* 0xCF *) row 0 IT_GENERIC AM_NOT_USED AM_NOT_USED AM_NOT_USED (Some "iret");
    (* 0xD0 *) row 8 IT_REFERENCE (AM_E ||| OT_B) AM_NOT_USED AM_NOT_USED None;
    (* 0xD1 *) row 9 IT_REFERENCE (AM_E ||| OT_V) AM_NOT_USED AM_NOT_USED None;
    (* 0xD2 *) row 10 IT_REFERENCE (AM_E ||| OT_B) AM_NOT_USED AM_NOT_USED None;
    (* 0xD3 *) row 11 IT_REFERENCE (AM_E ||| OT_V) AM_NOT_USED AM_NOT_USED None;
    (* 0xD4 *) row 0 IT_GENERIC (AM_I ||| OT_B) AM_NOT_USED AM_NOT_USED (Some "aam");
    (* 0xD5 *) row 0 IT_GENERIC (AM_I ||| OT_B) AM_NOT_USED AM_NOT_USED (Some "aad");
    (* 0xD6 *) row 0 IT_UNUSED AM_NOT_USED AM_NOT_USED AM_NOT_USED None;
    (* 0xD7 *) row 0 IT_GENERIC AM_NOT_USED AM_NOT_USED AM_NOT_USED (Some "xlat");
    (* 0xD8 *) row 0 IT_UNKNOWN AM_NOT_USED AM_NOT_USED AM_NOT_USED None;
    (* 0xD9 *) row 0 IT_UNKNOWN AM_NOT_USED AM_NOT_USED AM_NOT_USED None;
    (* 0xDA *) row 0 IT_UNKNOWN AM_NOT_USED AM_NOT_USED AM_NOT_USED None;
    (* 0xDB *) row 0 IT_UNKNOWN AM_NOT_USED AM_NOT_USED AM_NOT_USED None;
    (* 0xDC *) row 0 IT_UNKNOWN AM_NOT_USED AM_NOT_USED AM_NOT_USED None;
    (* 0xDD *) row 0 IT_UNKNOWN AM_NOT_USED AM_NOT_USED AM_NOT_USED None;
    (* 0xDE *) row 0 IT_UNKNOWN AM_NOT_USED AM_NOT_USED AM_NOT_USED None;
    (* 0xDF *) row 0 IT_UNKNOWN AM_NOT_USED AM_NOT_USED AM_NOT_USED None;
    (* 0xE0 *) row 0 IT_JUMP (AM_J ||| OT_B) AM_NOT_USED AM_NOT_USED (Some "loopnz");
    (* 0xE1 *) row 0 IT_JUMP (AM_J ||| OT_B) AM_NOT_USED AM_NOT_USED (Some "loopz");
    (* 0xE2 *) row 0 IT_JUMP (AM_J ||| OT_B) AM_NOT_USED AM_NOT_USED (Some "loop");
    (* 0xE3 *) row 0 IT_JUMP (AM_J ||| OT_B) AM_NOT_USED AM_NOT_USED (Some "jcxz");
    (* 0xE4 *) row 0 IT_GENERIC (AM_REGISTER ||| OT_B) (AM_I ||| OT_B) AM_NOT_USED (Some "in");
    (* 0xE5 *) row 0 IT_GENERIC (AM_REGISTER ||| OT_B) (AM_I ||| OT_B) AM_NOT_USED (Some "in");
    (* 0xE6 *) row 0 IT_GENERIC (AM_I ||| OT_B) (AM_REGISTER ||| OT_B) AM_NOT_USED (Some "out");
    (* 0xE7 *) row 0 IT_GENERIC (AM_I ||| OT_B) (AM_REGISTER ||| OT_B) AM_NOT_USED (Some "out");
    (* 0xE8 *) row 0 IT_JUMP (AM_J ||| OT_V) AM_NOT_USED AM_NOT_USED (Some "call");
    (* 0xE9 *) row 0 IT_JUMP (AM_J ||| OT_V) AM_NOT_USED AM_NOT_USED (Some "jmp");
    (* 0xEA *) row 0 IT_JUMP (AM_A ||| OT_P) AM_NOT_USED AM_NOT_USED (Some "jmp");
    (* 0xEB *) row 0 IT_JUMP (AM_J ||| OT_B) AM_NOT_USED AM_NOT_USED (Some "jmp");
    (* 0xEC *) row 0 IT_GENERIC (AM_REGISTER ||| OT_B) (AM_REGISTER ||| OT_W) AM_NOT_USED (Some "in");
    (* 0xED *) row 0 IT_GENERIC (AM_REGISTER ||| OT_V) (AM_REGISTER ||| OT_W) AM_NOT_USED (Some "in");
    (* 0xEE *) row 0 IT_GENERIC (AM_REGISTER ||| OT_W) (AM_REGISTER ||| OT_B) AM_NOT_USED (Some "out");
    (* 0xEF *) row 0 IT_GENERIC (AM_REGISTER ||| OT_W) (AM_REGISTER ||| OT_V) AM_NOT_USED (Some "out");
    (* 0xF0 *) row 0 IT_PREFIX AM_NOT_USED AM_NOT_USED AM_NOT_USED (Some "lock:");
    (* 0xF1 *) row 0 IT_UNUSED AM_NOT_USED AM_NOT_USED AM_NOT_USED None;
    (* 0xF2 *) row 0 IT_PREFIX AM_NOT_USED AM_NOT_USED AM_NOT_USED (Some "repne:");
    (* 0xF3 *) row 0 IT_PREFIX AM_NOT_USED AM_NOT_USED AM_NOT_USED (Some "rep:");
    (* 0xF4 *) row 0 IT_GENERIC AM_NOT_USED AM_NOT_USED AM_NOT_USED (Some "hlt");
    (* 0xF5 *) row 0 IT_GENERIC AM_NOT_USED AM_NOT_USED AM_NOT_USED (Some "cmc");
    (* 0xF6 *) row 12 IT_REFERENCE (AM_E ||| OT_B) AM_NOT_USED AM_NOT_USED None;
    (* 0xF7 *) row 13 IT_REFERENCE (AM_E ||| OT_V) AM_NOT_USED AM_NOT_USED None;
    (* 0xF8 *) row 0 IT_GENERIC AM_NOT_USED AM_NOT_USED AM_NOT_USED (Some "clc");
    (* 0xF9 *) row 0 IT_GENERIC AM_NOT_USED AM_NOT_USED AM_NOT_USED (Some "stc");
    (* 0xFA *) row 0 IT_GENERIC AM_NOT_USED AM_NOT_USED AM_NOT_USED (Some "cli");
    (* 0xFB *) row 0 IT_GENERIC AM_NOT_USED AM_NOT_USED AM_NOT_USED (Some "sti");
    (* 0xFC *) row 0 IT_GENERIC AM_NOT_USED AM_NOT_USED AM_NOT_USED (Some "cld");
    (* 0xFD *) row 0 IT_GENERIC AM_NOT_USED AM_NOT_USED AM_NOT_USED (Some "std");
    (* 0xFE *) row 14 IT_REFERENCE AM_NOT_USED AM_NOT_USED AM_NOT_USED None;
    (* 0xFF *) row 15 IT_REFERENCE AM_NOT_USED AM_NOT_USED AM_NOT_USED None ].

Definition s_first_opcode_byte (x64 : bool) : list Opcode :=
  s_first_opcode_byte_00_3f ++ s_first_opcode_byte_40_4f x64 ++ s_first_opcode_byte_50_b7 ++ s_first_opcode_byte_b8_bf x64 ++ s_first_opcode_byte_c0_ff.

Definition s_opcode_byte_after_0f_part00 : list Opcode :=
  [ (* 0x0 *) row 16 IT_REFERENCE AM_NOT_USED AM_NOT_USED AM_NOT_USED None;
    (* 0x1 *) row 17 IT_REFERENCE AM_NOT_USED AM_NOT_USED AM_NOT_USED None;
    (* 0x2 *) row 0 IT_GENERIC (AM_G ||| OT_V) (AM_E ||| OT_W) AM_NOT_USED (Some "lar");
    (* 0x3 *) row 0 IT_GENERIC (AM_G ||| OT_V) (AM_E ||| OT_W) AM_NOT_USED (Some "lsl");
    (* 0x4 *) row 0 IT_UNUSED AM_NOT_USED AM_NOT_USED AM_NOT_USED None;
    (* 0x5 *) row 0 IT_UNUSED AM_NOT_USED AM_NOT_USED AM_NOT_USED None;
    (* 0x6 *) row 0 IT_GENERIC AM_NOT_USED AM_NOT_USED AM_NOT_USED (Some "clts");
    (* 0x7 *) row 0 IT_UNUSED AM_NOT_USED AM_NOT_USED AM_NOT_USED None;
    (* 0x8 *) row 0 IT_GENERIC AM_NOT_USED AM_NOT_USED AM_NOT_USED (Some "invd");
    (* 0x9 *) row 0 IT_GENERIC AM_NOT_USED AM_NOT_USED AM_NOT_USED (Some "wbinvd");
    (* 0xA *) row 0 IT_UNUSED AM_NOT_USED AM_NOT_USED AM_NOT_USED None;
    (* 0xB *) row 0 IT_UNUSED AM_NOT_USED AM_NOT_USED AM_NOT_USED (Some "ud2");
    (* 0xC *) row 0 IT_UNUSED AM_NOT_USED AM_NOT_USED AM_NOT_USED None;
    (* 0xD *) row 0 IT_UNUSED AM_NOT_USED AM_NOT_USED AM_NOT_USED None;
    (* 0xE *) row 0 IT_UNUSED AM_NOT_USED AM_NOT_USED AM_NOT_USED None;
    (* 0xF *) row 0 IT_UNUSED AM_NOT_USED AM_NOT_USED AM_NOT_USED None;
    (* 0x10 *) mkOpcode 0 IT_GENERIC (AM_V ||| OT_PS) (AM_W ||| OT_PS) AM_NOT_USED (Some "movups") true
      (mkSpecific 0 IT_GENERIC (AM_V ||| OT_SD) (AM_W ||| OT_SD) AM_NOT_USED (Some "movsd")) (mkSpecific 0 IT_GENERIC (AM_V ||| OT_SS) (AM_W ||| OT_SS) AM_NOT_USED (Some "movss")) (mkSpecific 0 IT_GENERIC (AM_V ||| OT_PD) (AM_W ||| OT_PD) AM_NOT_USED (Some "movupd"));
    (* 0x11 *) mkOpcode 0 IT_GENERIC (AM_W ||| OT_PS) (AM_V ||| OT_PS) AM_NOT_USED (Some "movups") true
      (mkSpecific 0 IT_GENERIC (AM_W ||| OT_SD) (AM_V ||| OT_SD) AM_NOT_USED (Some "movsd")) (mkSpecific 0 IT_GENERIC (AM_W ||| OT_SS) (AM_V ||| OT_SS) AM_NOT_USED (Some "movss")) (mkSpecific 0 IT_GENERIC (AM_W ||| OT_PD) (AM_V ||| OT_PD) AM_NOT_USED (Some "movupd"));
    (* 0x12 *) mkOpcode 0 IT_GENERIC (AM_W ||| OT_Q) (AM_V ||| OT_Q) AM_NOT_USED (Some "movlps") true
      (mkSpecific 0 IT_GENERIC (AM_V ||| OT_Q) (AM_V ||| OT_Q) AM_NOT_USED (Some "movhlps")) (mkSpecific 0 IT_GENERIC (AM_V ||| OT_Q) (AM_V ||| OT_Q) AM_NOT_USED (Some "movhlps")) (mkSpecific 0 IT_GENERIC (AM_V ||| OT_Q) (AM_W ||| OT_S) AM_NOT_USED (Some "movlpd"));
    (* 0x13 *) mkOpcode 0 IT_GENERIC (AM_V ||| OT_Q) (AM_W ||| OT_Q) AM_NOT_USED (Some "movlps") true
      zeroed zeroed (mkSpecific 0 IT_GENERIC (AM_V ||| OT_Q) (AM_W ||| OT_Q) AM_NOT_USED (Some "movlpd"));
    (* 0x14 *) mkOpcode 0 IT_GENERIC (AM_V ||| OT_PS) (AM_W ||| OT_Q) AM_NOT_USED (Some "unpcklps") true
      zeroed zeroed (mkSpecific 0 IT_GENERIC (AM_V ||| OT_PD) (AM_W ||| OT_Q) AM_NOT_USED (Some "unpcklpd"));
    (* 0x15 *) mkOpcode 0 IT_GENERIC (AM_V ||| OT_PS) (AM_W ||| OT_Q) AM_NOT_USED (Some "unpckhps") true
      zeroed zeroed (mkSpecific 0 IT_GENERIC (AM_V ||| OT_PD) (AM_W ||| OT_Q) AM_NOT_USED (Some "unpckhpd"));
    (* 0x16 *) mkOpcode 0 IT_GENERIC (AM_V ||| OT_Q) (AM_W ||| OT_Q) AM_NOT_USED (Some "movhps") true
      (mkSpecific 0 IT_GENERIC (AM_V ||| OT_Q) (AM_V ||| OT_Q) AM_NOT_USED (Some "movlhps")) (mkSpecific 0 IT_GENERIC (AM_V ||| OT_Q) (AM_V ||| OT_Q) AM_NOT_USED (Some "movlhps")) (mkSpecific 0 IT_GENERIC (AM_V ||| OT_Q) (AM_W ||| OT_Q) AM_NOT_USED (Some "movhpd"));
    (* 0x17 *) mkOpcode 0 IT_GENERIC (AM_W ||| OT_Q) (AM_V ||| OT_Q) AM_NOT_USED (Some "movhps") true
      zeroed zeroed (mkSpecific 0 IT_GENERIC (AM_W ||| OT_Q) (AM_V ||| OT_Q) AM_NOT_USED (Some "movhpd"));
    (* 0x18 *) row 18 IT_REFERENCE AM_NOT_USED AM_NOT_USED AM_NOT_USED None;
    (* 0x19 *) row 0 IT_UNUSED AM_NOT_USED AM_NOT_USED AM_NOT_USED None;
    (* 0x1A *) row 0 IT_UNUSED AM_NOT_USED AM_NOT_USED AM_NOT_USED None;
    (* 0x1B *) row 0 IT_UNUSED AM_NOT_USED AM_NOT_USED AM_NOT_USED None;
    (* 0x1C *) row 0 IT_UNUSED AM_NOT_USED AM_NOT_USED AM_NOT_USED None;
    (* 0x1D *) row 0 IT_UNUSED AM_NOT_USED AM_NOT_USED AM_NOT_USED None;
    (* 0x1E *) row 0 IT_UNUSED AM_NOT_USED AM_NOT_USED AM_NOT_USED None;
    (* 0x1F *) row 0 IT_UNUSED AM_NOT_USED AM_NOT_USED AM_NOT_USED None;
    (* 0x20 *) row 0 IT_GENERIC (AM_R ||| OT_D) (AM_C ||| OT_D) AM_NOT_USED (Some "mov");
    (* 0x21 *) row 0 IT_GENERIC (AM_R ||| OT_D) (AM_D ||| OT_D) AM_NOT_USED (Some "mov");
    (* 0x22 *) row 0 IT_GENERIC (AM_C ||| OT_D) (AM_R ||| OT_D) AM_NOT_USED (Some "mov");
    (* 0x23 *) row 0 IT_GENERIC (AM_D ||| OT_D) (AM_R ||| OT_D) AM_NOT_USED (Some "mov");
    (* 0x24 *) row 0 IT_UNUSED AM_NOT_USED AM_NOT_USED AM_NOT_USED None;
    (* 0x25 *) row 0 IT_UNUSED AM_NOT_USED AM_NOT_USED AM_NOT_USED None;
    (* 0x26 *) row 0 IT_UNUSED AM_NOT_USED AM_NOT_USED AM_NOT_USED None;
    (* 0x27 *) row 0 IT_UNUSED AM_NOT_USED AM_NOT_USED AM_NOT_USED None;
    (* 0x28 *) mkOpcode 0 IT_GENERIC (AM_V ||| OT_PS) (AM_W ||| OT_PS) AM_NOT_USED (Some "movaps") true
      zeroed zeroed (mkSpecific 0 IT_GENERIC (AM_V ||| OT_PD) (AM_W ||| OT_PD) AM_NOT_USED (Some "movapd"));
    (* 0x29 *) mkOpcode 0 IT_GENERIC (AM_W ||| OT_PS) (AM_V ||| OT_PS) AM_NOT_USED (Some "movaps") true
      zeroed zeroed (mkSpecific 0 IT_GENERIC (AM_W ||| OT_PD) (AM_V ||| OT_PD) AM_NOT_USED (Some "movapd"));
    (* 0x2A *) mkOpcode 0 IT_GENERIC (AM_V ||| OT_PS) (AM_Q ||| OT_Q) AM_NOT_USED (Some "cvtpi2ps") true
      (mkSpecific 0 IT_GENERIC (AM_V ||| OT_SD) (AM_E ||| OT_D) AM_NOT_USED (Some "cvtsi2sd")) (mkSpecific 0 IT_GENERIC (AM_V ||| OT_SS) (AM_E ||| OT_D) AM_NOT_USED (Some "cvtsi2ss")) (mkSpecific 0 IT_GENERIC (AM_V ||| OT_PD) (AM_Q ||| OT_DQ) AM_NOT_USED (Some "cvtpi2pd"));
    (* 0x2B *) mkOpcode 0 IT_GENERIC (AM_W ||| OT_PS) (AM_V ||| OT_PS) AM_NOT_USED (Some "movntps") true
      zeroed zeroed (mkSpecific 0 IT_GENERIC (AM_W ||| OT_PD) (AM_V ||| OT_PD) AM_NOT_USED (Some "movntpd"));
    (* 0x2C *) mkOpcode 0 IT_GENERIC (AM_Q ||| OT_Q) (AM_W ||| OT_PS) AM_NOT_USED (Some "cvttps2pi") true
      (mkSpecific 0 IT_GENERIC (AM_G ||| OT_D) (AM_W ||| OT_SD) AM_NOT_USED (Some "cvttsd2si")) (mkSpecific 0 IT_GENERIC (AM_G ||| OT_D) (AM_W ||| OT_SS) AM_NOT_USED (Some "cvttss2si")) (mkSpecific 0 IT_GENERIC (AM_Q ||| OT_DQ) (AM_W ||| OT_PD) AM_NOT_USED (Some "cvttpd2pi"));
    (* 0x2D *) mkOpcode 0 IT_GENERIC (AM_Q ||| OT_Q) (AM_W ||| OT_PS) AM_NOT_USED (Some "cvtps2pi") true
      (mkSpecific 0 IT_GENERIC (AM_G ||| OT_D) (AM_W ||| OT_SD) AM_NOT_USED (Some "cvtsd2si")) (mkSpecific 0 IT_GENERIC (AM_G ||| OT_D) (AM_W ||| OT_SS) AM_NOT_USED (Some "cvtss2si")) (mkSpecific 0 IT_GENERIC (AM_Q ||| OT_DQ) (AM_W ||| OT_PD) AM_NOT_USED (Some "cvtpd2pi"));
    (* 0x2E *) mkOpcode 0 IT_GENERIC (AM_V ||| OT_SS) (AM_W ||| OT_SS) AM_NOT_USED (Some "ucomiss") true
      zeroed zeroed (mkSpecific 0 IT_GENERIC (AM_V ||| OT_SD) (AM_W ||| OT_SD) AM_NOT_USED (Some "ucomisd"));
    (* 0x2F *) mkOpcode 0 IT_GENERIC (AM_V ||| OT_PS) (AM_W ||| OT_SS) AM_NOT_USED (Some "comiss") true
      zeroed zeroed (mkSpecific 0 IT_GENERIC (AM_V ||| OT_SD) (AM_W ||| OT_SD) AM_NOT_USED (Some "comisd"));
    (* 0x30 *) row 0 IT_GENERIC AM_NOT_USED AM_NOT_USED AM_NOT_USED (Some "wrmsr");
    (* 0x31 *) row 0 IT_GENERIC AM_NOT_USED AM_NOT_USED AM_NOT_USED (Some "rdtsc");
    (* 0x32 *) row 0 IT_GENERIC AM_NOT_USED AM_NOT_USED AM_NOT_USED (Some "rdmsr");
    (* 0x33 *) row 0 IT_GENERIC AM_NOT_USED AM_NOT_USED AM_NOT_USED (Some "rdpmc");
    (* 0x34 *) row 0 IT_GENERIC AM_NOT_USED AM_NOT_USED AM_NOT_USED (Some "sysenter");
    (* 0x35 *) row 0 IT_GENERIC AM_NOT_USED AM_NOT_USED AM_NOT_USED (Some "sysexit");
    (* 0x36 *) row 0 IT_UNUSED AM_NOT_USED AM_NOT_USED AM_NOT_USED None;
    (* 0x37 *) row 0 IT_UNUSED AM_NOT_USED AM_NOT_USED AM_NOT_USED None;
    (* 0x38 *) row 0 IT_UNUSED AM_NOT_USED AM_NOT_USED AM_NOT_USED None;
    (* 0x39 *) row 0 IT_UNUSED AM_NOT_USED AM_NOT_USED AM_NOT_USED None;
    (* 0x3A *) row 0 IT_UNUSED AM_NOT_USED AM_NOT_USED AM_NOT_USED None;
    (* 0x3B *) row 0 IT_UNUSED AM_NOT_USED AM_NOT_USED AM_NOT_USED None;
    (* 0x3C *) row 0 IT_GENERIC (AM_G ||| OT_V) (AM_E ||| OT_V) AM_NOT_USED (Some "movnti");
    (* 0x3D *) row 0 IT_UNUSED AM_NOT_USED AM_NOT_USED AM_NOT_USED None;
    (* 0x3E *) row 0 IT_UNUSED AM_NOT_USED AM_NOT_USED AM_NOT_USED None;
    (* 0x3F *) row 0 IT_UNUSED AM_NOT_USED AM_NOT_USED AM_NOT_USED None;
    (* 0x40 *) row 0 IT_GENERIC (AM_G ||| OT_V) (AM_E ||| OT_V) AM_NOT_USED (Some "cmovo");
    (* 0x41 *) row 0 IT_GENERIC (AM_G ||| OT_V) (AM_E ||| OT_V) AM_NOT_USED (Some "cmovno");
    (* 0x42 *) row 0 IT_GENERIC (AM_G ||| OT_V) (AM_E ||| OT_V) AM_NOT_USED (Some "cmovc");
    (* 0x43 *) row 0 IT_GENERIC (AM_G ||| OT_V) (AM_E ||| OT_V) AM_NOT_USED (Some "cmovnc");
    (* 0x44 *) row 0 IT_GENERIC (AM_G ||| OT_V) (AM_E ||| OT_V) AM_NOT_USED (Some "cmovz");
    (* 0x45 *) row 0 IT_GENERIC (AM_G ||| OT_V) (AM_E ||| OT_V) AM_NOT_USED (Some "cmovnz");
    (* 0x46 *) row 0 IT_GENERIC (AM_G ||| OT_V) (AM_E ||| OT_V) AM_NOT_USED (Some "cmovbe");
    (* 0x47 *) row 0 IT_GENERIC (AM_G ||| OT_V) (AM_E ||| OT_V) AM_NOT_USED (Some "cmova");
    (* 0x48 *) row 0 IT_GENERIC (AM_G ||| OT_V) (AM_E ||| OT_V) AM_NOT_USED (Some "cmovs");
    (* 0x49 *) row 0 IT_GENERIC (AM_G ||| OT_V) (AM_E ||| OT_V) AM_NOT_USED (Some "cmovns");
    (* 0x4A *) row 0 IT_GENERIC (AM_G ||| OT_V) (AM_E ||| OT_V) AM_NOT_USED (Some "cmovpe");
    (* 0x4B *) row 0 IT_GENERIC (AM_G ||| OT_V) (AM_E ||| OT_V) AM_NOT_USED (Some "cmovpo");
    (* 0x4C *) row 0 IT_GENERIC (AM_G ||| OT_V) (AM_E ||| OT_V) AM_NOT_USED (Some "cmovl");
    (* 0x4D *) row 0 IT_GENERIC (AM_G ||| OT_V) (AM_E ||| OT_V) AM_NOT_USED (Some "cmovge");
    (* 0x4E *) row 0 IT_GENERIC (AM_G ||| OT_V) (AM_E ||| OT_V) AM_NOT_USED (Some "cmovle");
    (* 0x4F *) row 0 IT_GENERIC (AM_G ||| OT_V) (AM_E ||| OT_V) AM_NOT_USED (Some "cmovg");
    (* 0x50 *) mkOpcode 0 IT_GENERIC (AM_E ||| OT_D) (AM_V ||| OT_PS) AM_NOT_USED (Some "movmskps") true
      zeroed zeroed (mkSpecific 0 IT_GENERIC (AM_E ||| OT_D) (AM_V ||| OT_PD) AM_NOT_USED (Some "movmskpd"));
    (* 0x51 *) mkOpcode 0 IT_GENERIC (AM_V ||| OT_PS) (AM_W ||| OT_PS) AM_NOT_USED (Some "sqrtps") true
      (mkSpecific 0 IT_GENERIC (AM_V ||| OT_SD) (AM_W ||| OT_SD) AM_NOT_USED (Some "sqrtsd")) (mkSpecific 0 IT_GENERIC (AM_V ||| OT_SS) (AM_W ||| OT_SS) AM_NOT_USED (Some "sqrtss")) (mkSpecific 0 IT_GENERIC (AM_V ||| OT_PD) (AM_W ||| OT_PD) AM_NOT_USED (Some "sqrtpd"));
    (* 0x52 *) mkOpcode 0 IT_GENERIC (AM_V ||| OT_PS) (AM_W ||| OT_PS) AM_NOT_USED (Some "rsqrtps") true
      zeroed (mkSpecific 0 IT_GENERIC (AM_V ||| OT_SS) (AM_W ||| OT_SS) AM_NOT_USED (Some "rsqrtss")) zeroed;
    (* 0x53 *) mkOpcode 0 IT_GENERIC (AM_V ||| OT_PS) (AM_W ||| OT_PS) AM_NOT_USED (Some "rcpps") true
      zeroed (mkSpecific 0 IT_GENERIC (AM_V ||| OT_SS) (AM_W ||| OT_SS) AM_NOT_USED (Some "rcpss")) zeroed;
    (* 0x54 *) mkOpcode 0 IT_GENERIC (AM_V ||| OT_PS) (AM_W ||| OT_PS) AM_NOT_USED (Some "andps") true
      zeroed zeroed (mkSpecific 0 IT_GENERIC (AM_V ||| OT_PD) (AM_W ||| OT_PD) AM_NOT_USED (Some "andpd")) ].

Definition s_opcode_byte_after_0f_part55 : list Opcode :=
  [ (* 0x55 *) mkOpcode 0 IT_GENERIC (AM_V ||| OT_PS) (AM_W ||| OT_PS) AM_NOT_USED (Some "andnps") true
      zeroed zeroed (mkSpecific 0 IT_GENERIC (AM_V ||| OT_PD) (AM_W ||| OT_PD) AM_NOT_USED (Some "andnpd"));
    (* 0x56 *) mkOpcode 0 IT_GENERIC (AM_V ||| OT_PS) (AM_W ||| OT_PS) AM_NOT_USED (Some "orps") true
      zeroed zeroed (mkSpecific 0 IT_GENERIC (AM_V ||| OT_PD) (AM_W ||| OT_PD) AM_NOT_USED (Some "orpd"));
    (* 0x57 *) mkOpcode 0 IT_GENERIC (AM_V ||| OT_PS) (AM_W ||| OT_PS) AM_NOT_USED (Some "xorps") true
      zeroed zeroed (mkSpecific 0 IT_GENERIC (AM_V ||| OT_PD) (AM_W ||| OT_PD) AM_NOT_USED (Some "xorpd"));
    (* 0x58 *) mkOpcode 0 IT_GENERIC (AM_V ||| OT_PS) (AM_W ||| OT_PS) AM_NOT_USED (Some "addps") true
      (mkSpecific 0 IT_GENERIC (AM_V ||| OT_SD) (AM_W ||| OT_SD) AM_NOT_USED (Some "addsd")) (mkSpecific 0 IT_GENERIC (AM_V ||| OT_SS) (AM_W ||| OT_SS) AM_NOT_USED (Some "addss")) (mkSpecific 0 IT_GENERIC (AM_V ||| OT_PD) (AM_W ||| OT_PD) AM_NOT_USED (Some "addpd"));
    (* 0x59 *) mkOpcode 0 IT_GENERIC (AM_V ||| OT_PS) (AM_W ||| OT_PS) AM_NOT_USED (Some "mulps") true
      (mkSpecific 0 IT_GENERIC (AM_V ||| OT_SD) (AM_W ||| OT_SD) AM_NOT_USED (Some "mulsd")) (mkSpecific 0 IT_GENERIC (AM_V ||| OT_SS) (AM_W ||| OT_SS) AM_NOT_USED (Some "mulss")) (mkSpecific 0 IT_GENERIC (AM_V ||| OT_PD) (AM_W ||| OT_PD) AM_NOT_USED (Some "mulpd"));
    (* 0x5A *) mkOpcode 0 IT_GENERIC (AM_V ||| OT_PD) (AM_W ||| OT_PS) AM_NOT_USED (Some "cvtps2pd") true
      (mkSpecific 0 IT_GENERIC (AM_V ||| OT_SD) (AM_W ||| OT_SD) AM_NOT_USED (Some "cvtsd2ss")) (mkSpecific 0 IT_GENERIC (AM_V ||| OT_SS) (AM_W ||| OT_SS) AM_NOT_USED (Some "cvtss2sd")) (mkSpecific 0 IT_GENERIC (AM_V ||| OT_PS) (AM_W ||| OT_PD) AM_NOT_USED (Some "cvtpd2ps"));
    (* 0x5B *) mkOpcode 0 IT_GENERIC (AM_V ||| OT_PS) (AM_W ||| OT_DQ) AM_NOT_USED (Some "cvtdq2ps") true
      zeroed (mkSpecific 0 IT_GENERIC (AM_V ||| OT_DQ) (AM_W ||| OT_PS) AM_NOT_USED (Some "cvttps2dq")) (mkSpecific 0 IT_GENERIC (AM_V ||| OT_DQ) (AM_W ||| OT_PS) AM_NOT_USED (Some "cvtps2dq"));
    (* 0x5C *) mkOpcode 0 IT_GENERIC (AM_V ||| OT_PS) (AM_W ||| OT_PS) AM_NOT_USED (Some "subps") true
      (mkSpecific 0 IT_GENERIC (AM_V ||| OT_SD) (AM_W ||| OT_SD) AM_NOT_USED (Some "subsd")) (mkSpecific 0 IT_GENERIC (AM_V ||| OT_SS) (AM_W ||| OT_SS) AM_NOT_USED (Some "subss")) (mkSpecific 0 IT_GENERIC (AM_V ||| OT_PD) (AM_W ||| OT_PD) AM_NOT_USED (Some "subpd"));
    (* 0x5D *) mkOpcode 0 IT_GENERIC (AM_V ||| OT_PS) (AM_W ||| OT_PS) AM_NOT_USED (Some "minps") true
      (mkSpecific 0 IT_GENERIC (AM_V ||| OT_SD) (AM_W ||| OT_SD) AM_NOT_USED (Some "minsd")) (mkSpecific 0 IT_GENERIC (AM_V ||| OT_SS) (AM_W ||| OT_SS) AM_NOT_USED (Some "minss")) (mkSpecific 0 IT_GENERIC (AM_V ||| OT_PD) (AM_W ||| OT_PD) AM_NOT_USED (Some "minpd"));
    (* 0x5E *) mkOpcode 0 IT_GENERIC (AM_V ||| OT_PS) (AM_W ||| OT_PS) AM_NOT_USED (Some "divps") true
      (mkSpecific 0 IT_GENERIC (AM_V ||| OT_SD) (AM_W ||| OT_SD) AM_NOT_USED (Some "divsd")) (mkSpecific 0 IT_GENERIC (AM_V ||| OT_SS) (AM_W ||| OT_SS) AM_NOT_USED (Some "divss")) (mkSpecific 0 IT_GENERIC (AM_V ||| OT_PD) (AM_W ||| OT_PD) AM_NOT_USED (Some "divpd"));
    (* 0x5F *) mkOpcode 0 IT_GENERIC (AM_V ||| OT_PS) (AM_W ||| OT_PS) AM_NOT_USED (Some "maxps") true
      (mkSpecific 0 IT_GENERIC (AM_V ||| OT_SD) (AM_W ||| OT_SD) AM_NOT_USED (Some "maxsd")) (mkSpecific 0 IT_GENERIC (AM_V ||| OT_SS) (AM_W ||| OT_SS) AM_NOT_USED (Some "maxss")) (mkSpecific 0 IT_GENERIC (AM_V ||| OT_PD) (AM_W ||| OT_PD) AM_NOT_USED (Some "maxpd"));
    (* 0x60 *) mkOpcode 0 IT_GENERIC (AM_P ||| OT_Q) (AM_Q ||| OT_D) AM_NOT_USED (Some "punpcklbw") true
      zeroed zeroed (mkSpecific 0 IT_GENERIC (AM_V ||| OT_DQ) (AM_W ||| OT_DQ) AM_NOT_USED (Some "punpcklbw"));
    (* 0x61 *) mkOpcode 0 IT_GENERIC (AM_P ||| OT_Q) (AM_Q ||| OT_D) AM_NOT_USED (Some "punpcklwd") true
      zeroed zeroed (mkSpecific 0 IT_GENERIC (AM_V ||| OT_DQ) (AM_W ||| OT_DQ) AM_NOT_USED (Some "punpcklwd"));
    (* 0x62 *) mkOpcode 0 IT_GENERIC (AM_P ||| OT_Q) (AM_Q ||| OT_D) AM_NOT_USED (Some "punpckldq") true
      zeroed zeroed (mkSpecific 0 IT_GENERIC (AM_V ||| OT_DQ) (AM_W ||| OT_DQ) AM_NOT_USED (Some "punpckldq"));
    (* 0x63 *) mkOpcode 0 IT_GENERIC (AM_P ||| OT_Q) (AM_Q ||| OT_D) AM_NOT_USED (Some "packsswb") true
      zeroed zeroed (mkSpecific 0 IT_GENERIC (AM_V ||| OT_DQ) (AM_W ||| OT_DQ) AM_NOT_USED (Some "packsswb"));
    (* 0x64 *) mkOpcode 0 IT_GENERIC (AM_P ||| OT_Q) (AM_Q ||| OT_D) AM_NOT_USED (Some "pcmpgtb") true
      zeroed zeroed (mkSpecific 0 IT_GENERIC (AM_V ||| OT_DQ) (AM_W ||| OT_DQ) AM_NOT_USED (Some "pcmpgtb"));
    (* 0x65 *) mkOpcode 0 IT_GENERIC (AM_P ||| OT_Q) (AM_Q ||| OT_D) AM_NOT_USED (Some "pcmpgtw") true
      zeroed zeroed (mkSpecific 0 IT_GENERIC (AM_V ||| OT_DQ) (AM_W ||| OT_DQ) AM_NOT_USED (Some "pcmpgtw"));
    (* 0x66 *) mkOpcode 0 IT_GENERIC (AM_P ||| OT_Q) (AM_Q ||| OT_D) AM_NOT_USED (Some "pcmpgtd") true
      zeroed zeroed (mkSpecific 0 IT_GENERIC (AM_V ||| OT_DQ) (AM_W ||| OT_DQ) AM_NOT_USED (Some "pcmpgtd"));
    (* 0x67 *) mkOpcode 0 IT_GENERIC (AM_P ||| OT_Q) (AM_Q ||| OT_D) AM_NOT_USED (Some "packuswb") true
      zeroed zeroed (mkSpecific 0 IT_GENERIC (AM_V ||| OT_DQ) (AM_W ||| OT_DQ) AM_NOT_USED (Some "packuswb"));
    (* 0x68 *) mkOpcode 0 IT_GENERIC (AM_P ||| OT_Q) (AM_Q ||| OT_D) AM_NOT_USED (Some "punpckhbw") true
      zeroed zeroed (mkSpecific 0 IT_GENERIC (AM_P ||| OT_DQ) (AM_Q ||| OT_DQ) AM_NOT_USED (Some "punpckhbw"));
    (* 0x69 *) mkOpcode 0 IT_GENERIC (AM_P ||| OT_Q) (AM_Q ||| OT_D) AM_NOT_USED (Some "punpckhwd") true
      zeroed zeroed (mkSpecific 0 IT_GENERIC (AM_P ||| OT_DQ) (AM_Q ||| OT_DQ) AM_NOT_USED (Some "punpckhwd"));
    (* 0x6A *) mkOpcode 0 IT_GENERIC (AM_P ||| OT_Q) (AM_Q ||| OT_D) AM_NOT_USED (Some "punpckhdq") true
      zeroed zeroed (mkSpecific 0 IT_GENERIC (AM_P ||| OT_DQ) (AM_Q ||| OT_DQ) AM_NOT_USED (Some "punpckhdq"));
    (* 0x6B *) mkOpcode 0 IT_GENERIC (AM_P ||| OT_Q) (AM_Q ||| OT_D) AM_NOT_USED (Some "packssdw") true
      zeroed zeroed (mkSpecific 0 IT_GENERIC (AM_P ||| OT_DQ) (AM_Q ||| OT_DQ) AM_NOT_USED (Some "packssdw"));
    (* 0x6C *) mkOpcode 0 IT_GENERIC AM_NOT_USED AM_NOT_USED AM_NOT_USED (Some "not used without prefix") true
      zeroed zeroed (mkSpecific 0 IT_GENERIC (AM_V ||| OT_DQ) (AM_W ||| OT_DQ) AM_NOT_USED (Some "punpcklqdq"));
    (* 0x6D *) mkOpcode 0 IT_GENERIC AM_NOT_USED AM_NOT_USED AM_NOT_USED (Some "not used without prefix") true
      zeroed zeroed (mkSpecific 0 IT_GENERIC (AM_V ||| OT_DQ) (AM_W ||| OT_DQ) AM_NOT_USED (Some "punpcklqdq"));
    (* 0x6E *) mkOpcode 0 IT_GENERIC (AM_P ||| OT_D) (AM_E ||| OT_D) AM_NOT_USED (Some "movd") true
      zeroed zeroed (mkSpecific 0 IT_GENERIC (AM_V ||| OT_DQ) (AM_E ||| OT_D) AM_NOT_USED (Some "movd"));
    (* 0x6F *) mkOpcode 0 IT_GENERIC (AM_P ||| OT_Q) (AM_Q ||| OT_D) AM_NOT_USED (Some "movq") true
      zeroed (mkSpecific 0 IT_GENERIC (AM_V ||| OT_DQ) (AM_W ||| OT_DQ) AM_NOT_USED (Some "movdqu")) (mkSpecific 0 IT_GENERIC (AM_V ||| OT_DQ) (AM_W ||| OT_DQ) AM_NOT_USED (Some "movdqa"));
    (* 0x70 *) mkOpcode 0 IT_GENERIC (AM_P ||| OT_Q) (AM_Q ||| OT_Q) (AM_I ||| OT_B) (Some "pshuf") true
      (mkSpecific 0 IT_GENERIC (AM_V ||| OT_DQ) (AM_W ||| OT_DQ) (AM_I ||| OT_B) (Some "pshuflw")) (mkSpecific 0 IT_GENERIC (AM_V ||| OT_DQ) (AM_W ||| OT_DQ) (AM_I ||| OT_B) (Some "pshufhw")) (mkSpecific 0 IT_GENERIC (AM_V ||| OT_DQ) (AM_W ||| OT_DQ) (AM_I ||| OT_B) (Some "pshufd"));
    (* 0x71 *) row 19 IT_REFERENCE AM_NOT_USED AM_NOT_USED AM_NOT_USED None;
    (* 0x72 *) row 20 IT_REFERENCE AM_NOT_USED AM_NOT_USED AM_NOT_USED None;
    (* 0x73 *) row 21 IT_REFERENCE AM_NOT_USED AM_NOT_USED AM_NOT_USED None;
    (* 0x74 *) mkOpcode 0 IT_GENERIC (AM_P ||| OT_Q) (AM_Q ||| OT_Q) AM_NOT_USED (Some "pcmpeqb") true
      zeroed zeroed (mkSpecific 0 IT_GENERIC (AM_V ||| OT_DQ) (AM_W ||| OT_DQ) AM_NOT_USED (Some "pcmpeqb"));
    (* 0x75 *) mkOpcode 0 IT_GENERIC (AM_P ||| OT_Q) (AM_Q ||| OT_Q) AM_NOT_USED (Some "pcmpeqw") true
      zeroed zeroed (mkSpecific 0 IT_GENERIC (AM_V ||| OT_DQ) (AM_W ||| OT_DQ) AM_NOT_USED (Some "pcmpeqw"));
    (* 0x76 *) mkOpcode 0 IT_GENERIC (AM_P ||| OT_Q) (AM_Q ||| OT_Q) AM_NOT_USED (Some "pcmpeqd") true
      zeroed zeroed (mkSpecific 0 IT_GENERIC (AM_V ||| OT_DQ) (AM_W ||| OT_DQ) AM_NOT_USED (Some "pcmpeqd"));
    (* 0x77 *) row 0 IT_GENERIC AM_NOT_USED AM_NOT_USED AM_NOT_USED (Some "emms");
    (* 0x78 *) row 0 IT_UNKNOWN AM_NOT_USED AM_NOT_USED AM_NOT_USED None;
    (* 0x79 *) row 0 IT_UNKNOWN AM_NOT_USED AM_NOT_USED AM_NOT_USED None;
    (* 0x7A *) row 0 IT_UNKNOWN AM_NOT_USED AM_NOT_USED AM_NOT_USED None;
    (* 0x7B *) row 0 IT_UNKNOWN AM_NOT_USED AM_NOT_USED AM_NOT_USED None;
    (* 0x7C *) row 0 IT_UNKNOWN AM_NOT_USED AM_NOT_USED AM_NOT_USED None;
    (* 0x7D *) row 0 IT_UNKNOWN AM_NOT_USED AM_NOT_USED AM_NOT_USED None;
    (* 0x7E *) mkOpcode 0 IT_GENERIC (AM_E ||| OT_D) (AM_P ||| OT_D) AM_NOT_USED (Some "movd") true
      zeroed (mkSpecific 0 IT_GENERIC (AM_V ||| OT_Q) (AM_W ||| OT_Q) AM_NOT_USED (Some "movq")) (mkSpecific 0 IT_GENERIC (AM_E ||| OT_D) (AM_V ||| OT_DQ) AM_NOT_USED (Some "movd"));
    (* 0x7F *) mkOpcode 0 IT_GENERIC (AM_Q ||| OT_Q) (AM_P ||| OT_Q) AM_NOT_USED (Some "movq") true
      zeroed (mkSpecific 0 IT_GENERIC (AM_W ||| OT_DQ) (AM_V ||| OT_DQ) AM_NOT_USED (Some "movdqu")) (mkSpecific 0 IT_GENERIC (AM_W ||| OT_DQ) (AM_V ||| OT_DQ) AM_NOT_USED (Some "movdqa"));
    (* 0x80 *) row 0 IT_JUMP (AM_J ||| OT_V) AM_NOT_USED AM_NOT_USED (Some "jo");
    (* 0x81 *) row 0 IT_JUMP (AM_J ||| OT_V) AM_NOT_USED AM_NOT_USED (Some "jno");
    (* 0x82 *) row 0 IT_JUMP (AM_J ||| OT_V) AM_NOT_USED AM_NOT_USED (Some "jc");
    (* 0x83 *) row 0 IT_JUMP (AM_J ||| OT_V) AM_NOT_USED AM_NOT_USED (Some "jnc") ].

Definition s_opcode_byte_after_0f_part84 : list Opcode :=
  [ (* 0x84 *) row 0 IT_JUMP (AM_J ||| OT_V) AM_NOT_USED AM_NOT_USED (Some "jz");
    (* 0x85 *) row 0 IT_JUMP (AM_J ||| OT_V) AM_NOT_USED AM_NOT_USED (Some "jnz");
    (* 0x86 *) row 0 IT_JUMP (AM_J ||| OT_V) AM_NOT_USED AM_NOT_USED (Some "jbe");
    (* 0x87 *) row 0 IT_JUMP (AM_J ||| OT_V) AM_NOT_USED AM_NOT_USED (Some "ja");
    (* 0x88 *) row 0 IT_JUMP (AM_J ||| OT_V) AM_NOT_USED AM_NOT_USED (Some "js");
    (* 0x89 *) row 0 IT_JUMP (AM_J ||| OT_V) AM_NOT_USED AM_NOT_USED (Some "jns");
    (* 0x8A *) row 0 IT_JUMP (AM_J ||| OT_V) AM_NOT_USED AM_NOT_USED (Some "jpe");
    (* 0x8B *) row 0 IT_JUMP (AM_J ||| OT_V) AM_NOT_USED AM_NOT_USED (Some "jpo");
    (* 0x8C *) row 0 IT_JUMP (AM_J ||| OT_V) AM_NOT_USED AM_NOT_USED (Some "jl");
    (* 0x8D *) row 0 IT_JUMP (AM_J ||| OT_V) AM_NOT_USED AM_NOT_USED (Some "jge");
    (* 0x8E *) row 0 IT_JUMP (AM_J ||| OT_V) AM_NOT_USED AM_NOT_USED (Some "jle");
    (* 0x8F *) row 0 IT_JUMP (AM_J ||| OT_V) AM_NOT_USED AM_NOT_USED (Some "jg");
    (* 0x90 *) row 0 IT_GENERIC (AM_E ||| OT_B) AM_NOT_USED AM_NOT_USED (Some "seto");
    (* 0x91 *) row 0 IT_GENERIC (AM_E ||| OT_B) AM_NOT_USED AM_NOT_USED (Some "setno");
    (* 0x92 *) row 0 IT_GENERIC (AM_E ||| OT_B) AM_NOT_USED AM_NOT_USED (Some "setc");
    (* 0x93 *) row 0 IT_GENERIC (AM_E ||| OT_B) AM_NOT_USED AM_NOT_USED (Some "setnc");
    (* 0x94 *) row 0 IT_GENERIC (AM_E ||| OT_B) AM_NOT_USED AM_NOT_USED (Some "setz");
    (* 0x95 *) row 0 IT_GENERIC (AM_E ||| OT_B) AM_NOT_USED AM_NOT_USED (Some "setnz");
    (* 0x96 *) row 0 IT_GENERIC (AM_E ||| OT_B) AM_NOT_USED AM_NOT_USED (Some "setbe");
    (* 0x97 *) row 0 IT_GENERIC (AM_E ||| OT_B) AM_NOT_USED AM_NOT_USED (Some "seta");
    (* 0x98 *) row 0 IT_GENERIC (AM_E ||| OT_B) AM_NOT_USED AM_NOT_USED (Some "sets");
    (* 0x99 *) row 0 IT_GENERIC (AM_E ||| OT_B) AM_NOT_USED AM_NOT_USED (Some "setns");
    (* 0x9A *) row 0 IT_GENERIC (AM_E ||| OT_B) AM_NOT_USED AM_NOT_USED (Some "setpe");
    (* 0x9B *) row 0 IT_GENERIC (AM_E ||| OT_B) AM_NOT_USED AM_NOT_USED (Some "setpo");
    (* 0x9C *) row 0 IT_GENERIC (AM_E ||| OT_B) AM_NOT_USED AM_NOT_USED (Some "setl");
    (* 0x9D *) row 0 IT_GENERIC (AM_E ||| OT_B) AM_NOT_USED AM_NOT_USED (Some "setge");
    (* 0x9E *) row 0 IT_GENERIC (AM_E ||| OT_B) AM_NOT_USED AM_NOT_USED (Some "setle");
    (* 0x9F *) row 0 IT_GENERIC (AM_E ||| OT_B) AM_NOT_USED AM_NOT_USED (Some "setg");
    (* 0xA0 *) row 0 IT_GENERIC (AM_REGISTER ||| OT_W) AM_NOT_USED AM_NOT_USED (Some "push");
    (* 0xA1 *) row 0 IT_GENERIC (AM_REGISTER ||| OT_W) AM_NOT_USED AM_NOT_USED (Some "pop");
    (* 0xA2 *) row 0 IT_GENERIC AM_NOT_USED AM_NOT_USED AM_NOT_USED (Some "cpuid");
    (* 0xA3 *) row 0 IT_GENERIC (AM_E ||| OT_V) (AM_G ||| OT_V) AM_NOT_USED (Some "bt");
    (* 0xA4 *) row 0 IT_GENERIC (AM_E ||| OT_V) (AM_G ||| OT_V) (AM_I ||| OT_B) (Some "shld");
    (* 0xA5 *) row 0 IT_GENERIC (AM_E ||| OT_V) (AM_G ||| OT_V) (AM_I ||| OT_B ||| AM_REGISTER) (Some "shld");
    (* 0xA6 *) row 0 IT_UNKNOWN AM_NOT_USED AM_NOT_USED AM_NOT_USED None;
    (* 0xA7 *) row 0 IT_UNKNOWN AM_NOT_USED AM_NOT_USED AM_NOT_USED None;
    (* 0xA8 *) row 0 IT_GENERIC (AM_REGISTER ||| OT_W) AM_NOT_USED AM_NOT_USED (Some "push");
    (* 0xA9 *) row 0 IT_GENERIC (AM_REGISTER ||| OT_W) AM_NOT_USED AM_NOT_USED (Some "pop");
    (* 0xAA *) row 0 IT_GENERIC AM_NOT_USED AM_NOT_USED AM_NOT_USED (Some "rsm");
    (* 0xAB *) row 0 IT_GENERIC (AM_E ||| OT_V) (AM_G ||| OT_V) AM_NOT_USED (Some "bts");
    (* 0xAC *) row 0 IT_GENERIC (AM_E ||| OT_V) (AM_G ||| OT_V) (AM_I ||| OT_B) (Some "shrd");
    (* 0xAD *) row 0 IT_GENERIC (AM_E ||| OT_V) (AM_G ||| OT_V) (AM_I ||| OT_B ||| AM_REGISTER) (Some "shrd");
    (* 0xAE *) row 22 IT_REFERENCE AM_NOT_USED AM_NOT_USED AM_NOT_USED None;
    (* 0xAF *) row 0 IT_GENERIC (AM_G ||| OT_V) (AM_E ||| OT_V) AM_NOT_USED (Some "imul");
    (* 0xB0 *) row 0 IT_GENERIC (AM_E ||| OT_B) (AM_G ||| OT_B) AM_NOT_USED (Some "cmpxchg");
    (* 0xB1 *) row 0 IT_GENERIC (AM_E ||| OT_V) (AM_G ||| OT_V) AM_NOT_USED (Some "cmpxchg");
    (* 0xB2 *) row 0 IT_GENERIC (AM_M ||| OT_P) AM_NOT_USED AM_NOT_USED (Some "lss");
    (* 0xB3 *) row 0 IT_GENERIC (AM_E ||| OT_V) (AM_G ||| OT_V) AM_NOT_USED (Some "btr");
    (* 0xB4 *) row 0 IT_GENERIC (AM_M ||| OT_P) AM_NOT_USED AM_NOT_USED (Some "lfs");
    (* 0xB5 *) row 0 IT_GENERIC (AM_M ||| OT_P) AM_NOT_USED AM_NOT_USED (Some "lgs");
    (* 0xB6 *) row 0 IT_GENERIC (AM_G ||| OT_V) (AM_E ||| OT_B) AM_NOT_USED (Some "movzx");
    (* 0xB7 *) row 0 IT_GENERIC (AM_G ||| OT_V) (AM_E ||| OT_W) AM_NOT_USED (Some "movzx");
    (* 0xB8 *) row 0 IT_UNKNOWN AM_NOT_USED AM_NOT_USED AM_NOT_USED None;
    (* 0xB9 *) row 0 IT_UNKNOWN AM_NOT_USED AM_NOT_USED AM_NOT_USED (Some "ud1");
    (* 0xBA *) row 23 IT_REFERENCE AM_NOT_USED AM_NOT_USED AM_NOT_USED None;
    (* 0xBB *) row 0 IT_GENERIC (AM_E ||| OT_V) (AM_G ||| OT_V) AM_NOT_USED (Some "btc");
    (* 0xBC *) row 0 IT_GENERIC (AM_G ||| OT_V) (AM_E ||| OT_V) AM_NOT_USED (Some "bsf");
    (* 0xBD *) row 0 IT_GENERIC (AM_G ||| OT_V) (AM_E ||| OT_V) AM_NOT_USED (Some "bsr");
    (* 0xBE *) row 0 IT_GENERIC (AM_G ||| OT_V) (AM_E ||| OT_B) AM_NOT_USED (Some "movsx");
    (* 0xBF *) row 0 IT_GENERIC (AM_G ||| OT_V) (AM_E ||| OT_W) AM_NOT_USED (Some "movsx");
    (* 0xC0 *) row 0 IT_GENERIC (AM_E ||| OT_B) (AM_G ||| OT_B) AM_NOT_USED (Some "xadd");
    (* 0xC1 *) row 0 IT_GENERIC (AM_E ||| OT_V) AM_NOT_USED AM_NOT_USED (Some "xadd");
    (* 0xC2 *) mkOpcode 0 IT_GENERIC (AM_V ||| OT_PS) (AM_W ||| OT_PS) (AM_I ||| OT_B) (Some "cmpps") true
      (mkSpecific 0 IT_GENERIC (AM_V ||| OT_SD) (AM_W ||| OT_SD) (AM_I ||| OT_B) (Some "cmpsd")) (mkSpecific 0 IT_GENERIC (AM_V ||| OT_SS) (AM_W ||| OT_SS) (AM_I ||| OT_B) (Some "cmpss")) (mkSpecific 0 IT_GENERIC (AM_V ||| OT_PD) (AM_W ||| OT_PD) (AM_I ||| OT_B) (Some "cmppd"));
    (* 0xC3 *) row 0 IT_GENERIC (AM_E ||| OT_D) (AM_G ||| OT_D) AM_NOT_USED (Some "movnti");
    (* 0xC4 *) mkOpcode 0 IT_GENERIC (AM_P ||| OT_Q) (AM_E ||| OT_D) (AM_I ||| OT_B) (Some "pinsrw") true
      zeroed zeroed (mkSpecific 0 IT_GENERIC (AM_V ||| OT_DQ) (AM_E ||| OT_D) (AM_I ||| OT_B) (Some "pinsrw"));
    (* 0xC5 *) mkOpcode 0 IT_GENERIC (AM_G ||| OT_D) (AM_P ||| OT_Q) (AM_I ||| OT_B) (Some "pextrw") true
      zeroed zeroed (mkSpecific 0 IT_GENERIC (AM_G ||| OT_D) (AM_V ||| OT_DQ) (AM_I ||| OT_B) (Some "pextrw"));
    (* 0xC6 *) mkOpcode 0 IT_GENERIC (AM_V ||| OT_PS) (AM_W ||| OT_PS) (AM_I ||| OT_B) (Some "shufps") true
      zeroed zeroed (mkSpecific 0 IT_GENERIC (AM_V ||| OT_PD) (AM_W ||| OT_PD) (AM_I ||| OT_B) (Some "shufpd"));
    (* 0xC7 *) row 24 IT_REFERENCE AM_NOT_USED AM_NOT_USED AM_NOT_USED None;
    (* 0xC8 *) row 0 IT_GENERIC (AM_REGISTER ||| OT_D) AM_NOT_USED AM_NOT_USED (Some "bswap");
    (* 0xC9 *) row 0 IT_GENERIC (AM_REGISTER ||| OT_D) AM_NOT_USED AM_NOT_USED (Some "bswap");
    (* 0xCA *) row 0 IT_GENERIC (AM_REGISTER ||| OT_D) AM_NOT_USED AM_NOT_USED (Some "bswap");
    (* 0xCB *) row 0 IT_GENERIC (AM_REGISTER ||| OT_D) AM_NOT_USED AM_NOT_USED (Some "bswap");
    (* 0xCC *) row 0 IT_GENERIC (AM_REGISTER ||| OT_D) AM_NOT_USED AM_NOT_USED (Some "bswap");
    (* 0xCD *) row 0 IT_GENERIC (AM_REGISTER ||| OT_D) AM_NOT_USED AM_NOT_USED (Some "bswap");
    (* 0xCE *) row 0 IT_GENERIC (AM_REGISTER ||| OT_D) AM_NOT_USED AM_NOT_USED (Some "bswap");
    (* 0xCF *) row 0 IT_GENERIC (AM_REGISTER ||| OT_D) AM_NOT_USED AM_NOT_USED (Some "bswap");
    (* 0xD0 *) row 0 IT_UNUSED AM_NOT_USED AM_NOT_USED AM_NOT_USED None;
    (* 0xD1 *) mkOpcode 0 IT_GENERIC (AM_P ||| OT_Q) (AM_Q ||| OT_Q) AM_NOT_USED (Some "psrlw") true
      zeroed zeroed (mkSpecific 0 IT_GENERIC (AM_V ||| OT_DQ) (AM_W ||| OT_DQ) AM_NOT_USED (Some "psrlw"));
    (* 0xD2 *) mkOpcode 0 IT_GENERIC (AM_P ||| OT_Q) (AM_Q ||| OT_Q) AM_NOT_USED (Some "psrld") true
      zeroed zeroed (mkSpecific 0 IT_GENERIC (AM_V ||| OT_DQ) (AM_W ||| OT_DQ) AM_NOT_USED (Some "psrld"));
    (* 0xD3 *) mkOpcode 0 IT_GENERIC (AM_P ||| OT_Q) (AM_Q ||| OT_Q) AM_NOT_USED (Some "psrlq") true
      zeroed zeroed (mkSpecific 0 IT_GENERIC (AM_V ||| OT_DQ) (AM_W ||| OT_DQ) AM_NOT_USED (Some "psrlq"));
    (* 0xD4 *) mkOpcode 0 IT_GENERIC (AM_P ||| OT_Q) (AM_Q ||| OT_Q) AM_NOT_USED (Some "paddq") true
      zeroed zeroed (mkSpecific 0 IT_GENERIC (AM_V ||| OT_DQ) (AM_W ||| OT_DQ) AM_NOT_USED (Some "paddq"));
    (* 0xD5 *) mkOpcode 0 IT_GENERIC (AM_P ||| OT_Q) (AM_Q ||| OT_Q) AM_NOT_USED (Some "pmullw") true
      zeroed zeroed (mkSpecific 0 IT_GENERIC (AM_V ||| OT_DQ) (AM_W ||| OT_DQ) AM_NOT_USED (Some "pmullw"));
    (* 0xD6 *) mkOpcode 0 IT_GENERIC AM_NOT_USED AM_NOT_USED AM_NOT_USED (Some "unused without prefix") true
      (mkSpecific 0 IT_GENERIC (AM_P ||| OT_Q) (AM_W ||| OT_Q) AM_NOT_USED (Some "movdq2q")) (mkSpecific 0 IT_GENERIC (AM_V ||| OT_DQ) (AM_Q ||| OT_Q) AM_NOT_USED (Some "movq2dq")) (mkSpecific 0 IT_GENERIC (AM_W ||| OT_Q) (AM_V ||| OT_Q) AM_NOT_USED (Some "movq"));
    (* 0xD7 *) mkOpcode 0 IT_GENERIC (AM_G ||| OT_D) (AM_P ||| OT_Q) AM_NOT_USED (Some "pmovmskb") true
      zeroed zeroed (mkSpecific 0 IT_GENERIC (AM_G ||| OT_D) (AM_V ||| OT_DQ) AM_NOT_USED (Some "pmovmskb"));
    (* 0xD8 *) mkOpcode 0 IT_GENERIC (AM_P ||| OT_Q) (AM_Q ||| OT_Q) AM_NOT_USED (Some "psubusb") true
      zeroed zeroed (mkSpecific 0 IT_GENERIC (AM_V ||| OT_DQ) (AM_W ||| OT_DQ) AM_NOT_USED (Some "psubusb"));
    (* 0xD9 *) mkOpcode 0 IT_GENERIC (AM_P ||| OT_Q) (AM_Q ||| OT_Q) AM_NOT_USED (Some "psubusw") true
      zeroed zeroed (mkSpecific 0 IT_GENERIC (AM_V ||| OT_DQ) (AM_W ||| OT_DQ) AM_NOT_USED (Some "psubusw"));
    (* 0xDA *) mkOpcode 0 IT_GENERIC (AM_P ||| OT_Q) (AM_Q ||| OT_Q) AM_NOT_USED (Some "pminub") true
      zeroed zeroed (mkSpecific 0 IT_GENERIC (AM_V ||| OT_DQ) (AM_W ||| OT_DQ) AM_NOT_USED (Some "pminub"));
    (* 0xDB *) mkOpcode 0 IT_GENERIC (AM_P ||| OT_Q) (AM_Q ||| OT_Q) AM_NOT_USED (Some "pand") true
      zeroed zeroed (mkSpecific 0 IT_GENERIC (AM_V ||| OT_DQ) (AM_W ||| OT_DQ) AM_NOT_USED (Some "pand"));
    (* 0xDC *) mkOpcode 0 IT_GENERIC (AM_P ||| OT_Q) (AM_Q ||| OT_Q) AM_NOT_USED (Some "paddusb") true
      zeroed zeroed (mkSpecific 0 IT_GENERIC (AM_V ||| OT_DQ) (AM_W ||| OT_DQ) AM_NOT_USED (Some "paddusb"));
    (* 0xDD *) mkOpcode 0 IT_GENERIC (AM_P ||| OT_Q) (AM_Q ||| OT_Q) AM_NOT_USED (Some "paddusw") true
      zeroed zeroed (mkSpecific 0 IT_GENERIC (AM_V ||| OT_DQ) (AM_W ||| OT_DQ) AM_NOT_USED (Some "paddusw"));
    (* 0xDE *) mkOpcode 0 IT_GENERIC (AM_P ||| OT_Q) (AM_Q ||| OT_Q) AM_NOT_USED (Some "pmaxub") true
      zeroed zeroed (mkSpecific 0 IT_GENERIC (AM_V ||| OT_DQ) (AM_W ||| OT_DQ) AM_NOT_USED (Some "pmaxub"));
    (* 0xDF *) mkOpcode 0 IT_GENERIC (AM_P ||| OT_Q) (AM_Q ||| OT_Q) AM_NOT_USED (Some "pandn") true
      zeroed zeroed (mkSpecific 0 IT_GENERIC (AM_V ||| OT_DQ) (AM_W ||| OT_DQ) AM_NOT_USED (Some "pandn")) ].

Definition s_opcode_byte_after_0f_parte0 : list Opcode :=
  [ (* 0xE0 *) mkOpcode 0 IT_GENERIC (AM_P ||| OT_Q) (AM_Q ||| OT_Q) AM_NOT_USED (Some "pavgb") true
      zeroed zeroed (mkSpecific 0 IT_GENERIC (AM_V ||| OT_DQ) (AM_W ||| OT_DQ) AM_NOT_USED (Some "pavgb"));
    (* 0xE1 *) mkOpcode 0 IT_GENERIC (AM_P ||| OT_Q) (AM_Q ||| OT_Q) AM_NOT_USED (Some "psraw") true
      zeroed zeroed (mkSpecific 0 IT_GENERIC (AM_V ||| OT_DQ) (AM_W ||| OT_DQ) AM_NOT_USED (Some "psrqw"));
    (* 0xE2 *) mkOpcode 0 IT_GENERIC (AM_P ||| OT_Q) (AM_Q ||| OT_Q) AM_NOT_USED (Some "psrad") true
      zeroed zeroed (mkSpecific 0 IT_GENERIC (AM_V ||| OT_DQ) (AM_W ||| OT_DQ) AM_NOT_USED (Some "psrad"));
    (* 0xE3 *) mkOpcode 0 IT_GENERIC (AM_P ||| OT_Q) (AM_Q ||| OT_Q) AM_NOT_USED (Some "pavgw") true
      zeroed zeroed (mkSpecific 0 IT_GENERIC (AM_V ||| OT_DQ) (AM_W ||| OT_DQ) AM_NOT_USED (Some "pavgw"));
    (* 0xE4 *) mkOpcode 0 IT_GENERIC (AM_P ||| OT_Q) (AM_Q ||| OT_Q) AM_NOT_USED (Some "pmulhuw") true
      zeroed zeroed (mkSpecific 0 IT_GENERIC (AM_V ||| OT_DQ) (AM_W ||| OT_DQ) AM_NOT_USED (Some "pmulhuw"));
    (* 0xE5 *) mkOpcode 0 IT_GENERIC (AM_P ||| OT_Q) (AM_Q ||| OT_Q) AM_NOT_USED (Some "pmulhuw") true
      zeroed zeroed (mkSpecific 0 IT_GENERIC (AM_V ||| OT_DQ) (AM_W ||| OT_DQ) AM_NOT_USED (Some "pmulhw"));
    (* 0xE6 *) mkOpcode 0 IT_GENERIC AM_NOT_USED AM_NOT_USED AM_NOT_USED (Some "not used without prefix") true
      (mkSpecific 0 IT_GENERIC (AM_V ||| OT_DQ) (AM_W ||| OT_PD) AM_NOT_USED (Some "cvtpd2dq")) (mkSpecific 0 IT_GENERIC (AM_V ||| OT_PD) (AM_W ||| OT_DQ) AM_NOT_USED (Some "cvtdq2pd")) (mkSpecific 0 IT_GENERIC (AM_V ||| OT_DQ) (AM_W ||| OT_PD) AM_NOT_USED (Some "cvttpd2dq"));
    (* 0xE7 *) mkOpcode 0 IT_GENERIC (AM_W ||| OT_Q) (AM_V ||| OT_Q) AM_NOT_USED (Some "movntq") true
      zeroed zeroed (mkSpecific 0 IT_GENERIC (AM_W ||| OT_DQ) (AM_V ||| OT_DQ) AM_NOT_USED (Some "movntdq"));
    (* 0xE8 *) mkOpcode 0 IT_GENERIC (AM_P ||| OT_Q) (AM_Q ||| OT_Q) AM_NOT_USED (Some "psubsb") true
      zeroed zeroed (mkSpecific 0 IT_GENERIC (AM_V ||| OT_DQ) (AM_W ||| OT_DQ) AM_NOT_USED (Some "psubsb"));
    (* 0xE9 *) mkOpcode 0 IT_GENERIC (AM_P ||| OT_Q) (AM_Q ||| OT_Q) AM_NOT_USED (Some "psubsw") true
      zeroed zeroed (mkSpecific 0 IT_GENERIC (AM_V ||| OT_DQ) (AM_W ||| OT_DQ) AM_NOT_USED (Some "psubsw"));
    (* 0xEA *) mkOpcode 0 IT_GENERIC (AM_P ||| OT_Q) (AM_Q ||| OT_Q) AM_NOT_USED (Some "pminsw") true
      zeroed zeroed (mkSpecific 0 IT_GENERIC (AM_V ||| OT_DQ) (AM_W ||| OT_DQ) AM_NOT_USED (Some "pminsw"));
    (* 0xEB *) mkOpcode 0 IT_GENERIC (AM_P ||| OT_Q) (AM_Q ||| OT_Q) AM_NOT_USED (Some "por") true
      zeroed zeroed (mkSpecific 0 IT_GENERIC (AM_V ||| OT_DQ) (AM_W ||| OT_DQ) AM_NOT_USED (Some "por"));
    (* 0xEC *) mkOpcode 0 IT_GENERIC (AM_P ||| OT_Q) (AM_Q ||| OT_Q) AM_NOT_USED (Some "paddsb") true
      zeroed zeroed (mkSpecific 0 IT_GENERIC (AM_V ||| OT_DQ) (AM_W ||| OT_DQ) AM_NOT_USED (Some "paddsb"));
    (* 0xED *) mkOpcode 0 IT_GENERIC (AM_P ||| OT_Q) (AM_Q ||| OT_Q) AM_NOT_USED (Some "paddsw") true
      zeroed zeroed (mkSpecific 0 IT_GENERIC (AM_V ||| OT_DQ) (AM_W ||| OT_DQ) AM_NOT_USED (Some "paddsw"));
    (* 0xEE *) mkOpcode 0 IT_GENERIC (AM_P ||| OT_Q) (AM_Q ||| OT_Q) AM_NOT_USED (Some "pmaxsw") true
      zeroed zeroed (mkSpecific 0 IT_GENERIC (AM_V ||| OT_DQ) (AM_W ||| OT_DQ) AM_NOT_USED (Some "pmaxsw"));
    (* 0xEF *) mkOpcode 0 IT_GENERIC (AM_P ||| OT_Q) (AM_Q ||| OT_Q) AM_NOT_USED (Some "pxor") true
      zeroed zeroed (mkSpecific 0 IT_GENERIC (AM_V ||| OT_DQ) (AM_W ||| OT_DQ) AM_NOT_USED (Some "pxor"));
    (* 0xF0 *) row 0 IT_UNUSED AM_NOT_USED AM_NOT_USED AM_NOT_USED None;
    (* 0xF1 *) mkOpcode 0 IT_GENERIC (AM_P ||| OT_Q) (AM_Q ||| OT_Q) AM_NOT_USED (Some "psllw") true
      zeroed zeroed (mkSpecific 0 IT_GENERIC (AM_V ||| OT_DQ) (AM_W ||| OT_DQ) AM_NOT_USED (Some "psllw"));
    (* 0xF2 *) mkOpcode 0 IT_GENERIC (AM_P ||| OT_Q) (AM_Q ||| OT_Q) AM_NOT_USED (Some "pslld") true
      zeroed zeroed (mkSpecific 0 IT_GENERIC (AM_V ||| OT_DQ) (AM_W ||| OT_DQ) AM_NOT_USED (Some "pslld"));
    (* 0xF3 *) mkOpcode 0 IT_GENERIC (AM_P ||| OT_Q) (AM_Q ||| OT_Q) AM_NOT_USED (Some "psllq") true
      zeroed zeroed (mkSpecific 0 IT_GENERIC (AM_V ||| OT_DQ) (AM_W ||| OT_DQ) AM_NOT_USED (Some "psllq"));
    (* 0xF4 *) mkOpcode 0 IT_GENERIC (AM_P ||| OT_Q) (AM_Q ||| OT_Q) AM_NOT_USED (Some "pmuludq") true
      zeroed zeroed (mkSpecific 0 IT_GENERIC (AM_V ||| OT_DQ) (AM_W ||| OT_DQ) AM_NOT_USED (Some "pmuludq"));
    (* 0xF5 *) mkOpcode 0 IT_GENERIC (AM_P ||| OT_Q) (AM_Q ||| OT_Q) AM_NOT_USED (Some "pmaddwd") true
      zeroed zeroed (mkSpecific 0 IT_GENERIC (AM_V ||| OT_DQ) (AM_W ||| OT_DQ) AM_NOT_USED (Some "pmaddwd"));
    (* 0xF6 *) mkOpcode 0 IT_GENERIC (AM_P ||| OT_Q) (AM_Q ||| OT_Q) AM_NOT_USED (Some "psadbw") true
      zeroed zeroed (mkSpecific 0 IT_GENERIC (AM_V ||| OT_DQ) (AM_W ||| OT_DQ) AM_NOT_USED (Some "psadbw"));
    (* 0xF7 *) mkOpcode 0 IT_GENERIC (AM_P ||| OT_PI) (AM_Q ||| OT_PI) AM_NOT_USED (Some "maskmovq") true
      zeroed zeroed (mkSpecific 0 IT_GENERIC (AM_V ||| OT_DQ) (AM_W ||| OT_DQ) AM_NOT_USED (Some "maskmovdqu"));
    (* 0xF8 *) mkOpcode 0 IT_GENERIC (AM_P ||| OT_Q) (AM_Q ||| OT_Q) AM_NOT_USED (Some "psubb") true
      zeroed zeroed (mkSpecific 0 IT_GENERIC (AM_V ||| OT_DQ) (AM_W ||| OT_DQ) AM_NOT_USED (Some "psubb"));
    (* 0xF9 *) mkOpcode 0 IT_GENERIC (AM_P ||| OT_Q) (AM_Q ||| OT_Q) AM_NOT_USED (Some "psubw") true
      zeroed zeroed (mkSpecific 0 IT_GENERIC (AM_V ||| OT_DQ) (AM_W ||| OT_DQ) AM_NOT_USED (Some "psubw"));
    (* 0xFA *) mkOpcode 0 IT_GENERIC (AM_P ||| OT_Q) (AM_Q ||| OT_Q) AM_NOT_USED (Some "psubd") true
      zeroed zeroed (mkSpecific 0 IT_GENERIC (AM_V ||| OT_DQ) (AM_W ||| OT_DQ) AM_NOT_USED (Some "psubd"));
    (* 0xFB *) mkOpcode 0 IT_GENERIC (AM_P ||| OT_Q) (AM_Q ||| OT_Q) AM_NOT_USED (Some "psubq") true
      zeroed zeroed (mkSpecific 0 IT_GENERIC (AM_V ||| OT_DQ) (AM_W ||| OT_DQ) AM_NOT_USED (Some "psubq"));
    (* 0xFC *) mkOpcode 0 IT_GENERIC (AM_P ||| OT_Q) (AM_Q ||| OT_Q) AM_NOT_USED (Some "paddb") true
      zeroed zeroed (mkSpecific 0 IT_GENERIC (AM_V ||| OT_DQ) (AM_W ||| OT_DQ) AM_NOT_USED (Some "paddb"));
    (* 0xFD *) mkOpcode 0 IT_GENERIC (AM_P ||| OT_Q) (AM_Q ||| OT_Q) AM_NOT_USED (Some "paddw") true
      zeroed zeroed (mkSpecific 0 IT_GENERIC (AM_V ||| OT_DQ) (AM_W ||| OT_DQ) AM_NOT_USED (Some "paddw"));
    (* 0xFE *) mkOpcode 0 IT_GENERIC (AM_P ||| OT_Q) (AM_Q ||| OT_Q) AM_NOT_USED (Some "paddd") true
      zeroed zeroed (mkSpecific 0 IT_GENERIC (AM_V ||| OT_DQ) (AM_W ||| OT_DQ) AM_NOT_USED (Some "paddd"));
    (* 0xFF *) row 0 IT_UNUSED AM_NOT_USED AM_NOT_USED AM_NOT_USED None ].

Definition s_opcode_byte_after_0f : list Opcode :=
  s_opcode_byte_after_0f_part00 ++ s_opcode_byte_after_0f_part55 ++ s_opcode_byte_after_0f_part84 ++ s_opcode_byte_after_0f_parte0.

Definition s_opcode_byte_after_0f00 : list Opcode :=
  [ (* 0x0 *) row 0 IT_GENERIC (AM_E ||| OT_W) AM_NOT_USED AM_NOT_USED (Some "sldt");
    (* 0x1 *) row 0 IT_GENERIC (AM_E ||| OT_W) AM_NOT_USED AM_NOT_USED (Some "str");
    (* 0x2 *) row 0 IT_GENERIC (AM_E ||| OT_W) AM_NOT_USED AM_NOT_USED (Some "lldt");
    (* 0x3 *) row 0 IT_GENERIC (AM_E ||| OT_W) AM_NOT_USED AM_NOT_USED (Some "ltr");
    (* 0x4 *) row 0 IT_GENERIC (AM_E ||| OT_W) AM_NOT_USED AM_NOT_USED (Some "verr");
    (* 0x5 *) row 0 IT_GENERIC (AM_E ||| OT_W) AM_NOT_USED AM_NOT_USED (Some "verw");
    (* 0x6 *) row 0 IT_UNUSED AM_NOT_USED AM_NOT_USED AM_NOT_USED None;
    (* 0x7 *) row 0 IT_UNUSED AM_NOT_USED AM_NOT_USED AM_NOT_USED None ].

Definition s_opcode_byte_after_0f01 : list Opcode :=
  [ (* 0x0 *) row 0 IT_GENERIC (AM_M ||| OT_S) AM_NOT_USED AM_NOT_USED (Some "sgdt");
    (* 0x1 *) row 0 IT_GENERIC (AM_M ||| OT_S) AM_NOT_USED AM_NOT_USED (Some "sidt");
    (* 0x2 *) row 0 IT_GENERIC (AM_M ||| OT_S) AM_NOT_USED AM_NOT_USED (Some "lgdt");
    (* 0x3 *) row 0 IT_GENERIC (AM_M ||| OT_S) AM_NOT_USED AM_NOT_USED (Some "lidt");
    (* 0x4 *) row 0 IT_GENERIC (AM_E ||| OT_W) AM_NOT_USED AM_NOT_USED (Some "smsw");
    (* 0x5 *) row 0 IT_UNUSED AM_NOT_USED AM_NOT_USED AM_NOT_USED None;
    (* 0x6 *) row 0 IT_GENERIC (AM_E ||| OT_W) AM_NOT_USED AM_NOT_USED (Some "lmsw");
    (* 0x7 *) row 0 IT_GENERIC (AM_M ||| OT_B) AM_NOT_USED AM_NOT_USED (Some "invlpg") ].

Definition s_opcode_byte_after_0f18 : list Opcode :=
  [ (* 0x0 *) row 0 IT_GENERIC (AM_M ||| OT_ADDRESS_MODE_M) AM_NOT_USED AM_NOT_USED (Some "prefetch");
    (* 0x1 *) row 0 IT_GENERIC (AM_REGISTER ||| OT_D) AM_NOT_USED AM_NOT_USED (Some "prefetch");
    (* 0x2 *) row 0 IT_GENERIC (AM_REGISTER ||| OT_D) AM_NOT_USED AM_NOT_USED (Some "prefetch");
    (* 0x3 *) row 0 IT_GENERIC (AM_REGISTER ||| OT_D) AM_NOT_USED AM_NOT_USED (Some "prefetch");
    (* 0x4 *) row 0 IT_UNUSED AM_NOT_USED AM_NOT_USED AM_NOT_USED None;
    (* 0x5 *) row 0 IT_UNUSED AM_NOT_USED AM_NOT_USED AM_NOT_USED None;
    (* 0x6 *) row 0 IT_UNUSED AM_NOT_USED AM_NOT_USED AM_NOT_USED None;
    (* 0x7 *) row 0 IT_UNUSED AM_NOT_USED AM_NOT_USED AM_NOT_USED None ].

Definition s_opcode_byte_after_0f71 : list Opcode :=
  [ (* 0x0 *) row 0 IT_UNUSED AM_NOT_USED AM_NOT_USED AM_NOT_USED None;
    (* 0x1 *) row 0 IT_UNUSED AM_NOT_USED AM_NOT_USED AM_NOT_USED None;
    (* 0x2 *) mkOpcode 0 IT_GENERIC (AM_P ||| OT_Q) (AM_I ||| OT_B) AM_NOT_USED (Some "psrlw") true
      zeroed zeroed (mkSpecific 0 IT_GENERIC (AM_P ||| OT_DQ) (AM_I ||| OT_B) AM_NOT_USED (Some "psrlw"));
    (* 0x3 *) row 0 IT_UNUSED AM_NOT_USED AM_NOT_USED AM_NOT_USED None;
    (* 0x4 *) mkOpcode 0 IT_GENERIC (AM_P ||| OT_Q) (AM_I ||| OT_B) AM_NOT_USED (Some "psraw") true
      zeroed zeroed (mkSpecific 0 IT_GENERIC (AM_P ||| OT_DQ) (AM_I ||| OT_B) AM_NOT_USED (Some "psraw"));
    (* 0x5 *) row 0 IT_UNUSED AM_NOT_USED AM_NOT_USED AM_NOT_USED None;
    (* 0x6 *) mkOpcode 0 IT_GENERIC (AM_P ||| OT_Q) (AM_I ||| OT_B) AM_NOT_USED (Some "psllw") true
      zeroed zeroed (mkSpecific 0 IT_GENERIC (AM_P ||| OT_DQ) (AM_I ||| OT_B) AM_NOT_USED (Some "psllw"));
    (* 0x7 *) row 0 IT_UNUSED AM_NOT_USED AM_NOT_USED AM_NOT_USED None ].

Definition s_opcode_byte_after_0f72 : list Opcode :=
  [ (* 0x0 *) row 0 IT_UNUSED AM_NOT_USED AM_NOT_USED AM_NOT_USED None;
    (* 0x1 *) row 0 IT_UNUSED AM_NOT_USED AM_NOT_USED AM_NOT_USED None;
    (* 0x2 *) mkOpcode 0 IT_GENERIC (AM_P ||| OT_Q) (AM_I ||| OT_B) AM_NOT_USED (Some "psrld") true
      zeroed zeroed (mkSpecific 0 IT_GENERIC (AM_W ||| OT_DQ) (AM_I ||| OT_B) AM_NOT_USED (Some "psrld"));
    (* 0x3 *) row 0 IT_UNUSED AM_NOT_USED AM_NOT_USED AM_NOT_USED None;
    (* 0x4 *) mkOpcode 0 IT_GENERIC (AM_P ||| OT_Q) (AM_I ||| OT_B) AM_NOT_USED (Some "psrad") true
      zeroed zeroed (mkSpecific 0 IT_GENERIC (AM_W ||| OT_DQ) (AM_I ||| OT_B) AM_NOT_USED (Some "psrad"));
    (* 0x5 *) row 0 IT_UNUSED AM_NOT_USED AM_NOT_USED AM_NOT_USED None;
    (* 0x6 *) mkOpcode 0 IT_GENERIC (AM_P ||| OT_Q) (AM_I ||| OT_B) AM_NOT_USED (Some "pslld") true
      zeroed zeroed (mkSpecific 0 IT_GENERIC (AM_W ||| OT_DQ) (AM_I ||| OT_B) AM_NOT_USED (Some "pslld"));
    (* 0x7 *) row 0 IT_UNUSED AM_NOT_USED AM_NOT_USED AM_NOT_USED None ].

Definition s_opcode_byte_after_0f73 : list Opcode :=
  [ (* 0x0 *) row 0 IT_UNUSED AM_NOT_USED AM_NOT_USED AM_NOT_USED None;
    (* 0x1 *) row 0 IT_UNUSED AM_NOT_USED AM_NOT_USED AM_NOT_USED None;
    (* 0x2 *) mkOpcode 0 IT_GENERIC (AM_P ||| OT_Q) (AM_I ||| OT_B) AM_NOT_USED (Some "psrlq") true
      zeroed zeroed (mkSpecific 0 IT_GENERIC (AM_W ||| OT_DQ) (AM_I ||| OT_B) AM_NOT_USED (Some "psrlq"));
    (* 0x3 *) row 0 IT_UNUSED AM_NOT_USED AM_NOT_USED AM_NOT_USED None;
    (* 0x4 *) row 0 IT_UNUSED AM_NOT_USED AM_NOT_USED AM_NOT_USED None;
    (* 0x5 *) row 0 IT_UNUSED AM_NOT_USED AM_NOT_USED AM_NOT_USED None;
    (* 0x6 *) mkOpcode 0 IT_GENERIC (AM_P ||| OT_Q) (AM_I ||| OT_B) AM_NOT_USED (Some "psllq") true
      zeroed zeroed (mkSpecific 0 IT_GENERIC (AM_W ||| OT_DQ) (AM_I ||| OT_B) AM_NOT_USED (Some "psllq"));
    (* 0x7 *) mkOpcode 0 IT_GENERIC (AM_W ||| OT_DQ) (AM_I ||| OT_B) AM_NOT_USED (Some "pslldq") true
      zeroed zeroed (mkSpecific 0 IT_GENERIC (AM_W ||| OT_DQ) (AM_I ||| OT_B) AM_NOT_USED (Some "pslldq")) ].

Definition s_opcode_byte_after_0fae : list Opcode :=
  [ (* 0x0 *) row 0 IT_GENERIC AM_NOT_USED AM_NOT_USED AM_NOT_USED (Some "fxsave");
    (* 0x1 *) row 0 IT_GENERIC AM_NOT_USED AM_NOT_USED AM_NOT_USED (Some "fxrstor");
    (* 0x2 *) row 0 IT_GENERIC AM_NOT_USED AM_NOT_USED AM_NOT_USED (Some "ldmxcsr");
    (* 0x3 *) row 0 IT_GENERIC AM_NOT_USED AM_NOT_USED AM_NOT_USED (Some "stmxcsr");
    (* 0x4 *) row 0 IT_UNUSED AM_NOT_USED AM_NOT_USED AM_NOT_USED None;
    (* 0x5 *) row 0 IT_GENERIC AM_NOT_USED AM_NOT_USED AM_NOT_USED (Some "lfence");
    (* 0x6 *) row 0 IT_GENERIC AM_NOT_USED AM_NOT_USED AM_NOT_USED (Some "mfence");
    (* 0x7 *) row 0 IT_GENERIC AM_NOT_USED AM_NOT_USED AM_NOT_USED (Some "clflush/sfence") ].

Definition s_opcode_byte_after_0fba : list Opcode :=
  [ (* 0x0 *) row 0 IT_UNUSED AM_NOT_USED AM_NOT_USED AM_NOT_USED None;
    (* 0x1 *) row 0 IT_UNUSED AM_NOT_USED AM_NOT_USED AM_NOT_USED None;
    (* 0x2 *) row 0 IT_UNUSED AM_NOT_USED AM_NOT_USED AM_NOT_USED None;
    (* 0x3 *) row 0 IT_UNUSED AM_NOT_USED AM_NOT_USED AM_NOT_USED None;
    (* 0x4 *) row 0 IT_GENERIC (AM_E ||| OT_V) (AM_I ||| OT_B) AM_NOT_USED (Some "bt");
    (* 0x5 *) row 0 IT_GENERIC (AM_E ||| OT_V) (AM_I ||| OT_B) AM_NOT_USED (Some "bts");
    (* 0x6 *) row 0 IT_GENERIC (AM_E ||| OT_V) (AM_I ||| OT_B) AM_NOT_USED (Some "btr");
    (* 0x7 *) row 0 IT_GENERIC (AM_E ||| OT_V) (AM_I ||| OT_B) AM_NOT_USED (Some "btc") ].

Definition s_opcode_byte_after_0fc7 : list Opcode :=
  [ (* 0x0 *) row 0 IT_UNUSED AM_NOT_USED AM_NOT_USED AM_NOT_USED None;
    (* 0x1 *) row 0 IT_GENERIC (AM_M ||| OT_Q) AM_NOT_USED AM_NOT_USED (Some "cmpxch8b") ].

Definition s_opcode_byte_after_80 : list Opcode :=
  [ (* 0x0 *) row 0 IT_GENERIC (AM_E ||| OT_B) (AM_I ||| OT_B) AM_NOT_USED (Some "add");
    (* 0x1 *) row 0 IT_GENERIC (AM_E ||| OT_B) (AM_I ||| OT_B) AM_NOT_USED (Some "or");
    (* 0x2 *) row 0 IT_GENERIC (AM_E ||| OT_B) (AM_I ||| OT_B) AM_NOT_USED (Some "adc");
    (* 0x3 *) row 0 IT_GENERIC (AM_E ||| OT_B) (AM_I ||| OT_B) AM_NOT_USED (Some "sbb");
    (* 0x4 *) row 0 IT_GENERIC (AM_E ||| OT_B) (AM_I ||| OT_B) AM_NOT_USED (Some "and");
    (* 0x5 *) row 0 IT_GENERIC (AM_E ||| OT_B) (AM_I ||| OT_B) AM_NOT_USED (Some "sub");
    (* 0x6 *) row 0 IT_GENERIC (AM_E ||| OT_B) (AM_I ||| OT_B) AM_NOT_USED (Some "xor");
    (* 0x7 *) row 0 IT_GENERIC (AM_E ||| OT_B) (AM_I ||| OT_B) AM_NOT_USED (Some "cmp") ].

Definition s_opcode_byte_after_81 : list Opcode :=
  [ (* 0x0 *) row 0 IT_GENERIC (AM_E ||| OT_V) (AM_I ||| OT_V) AM_NOT_USED (Some "add");
    (* 0x1 *) row 0 IT_GENERIC (AM_E ||| OT_V) (AM_I ||| OT_V) AM_NOT_USED (Some "or");
    (* 0x2 *) row 0 IT_GENERIC (AM_E ||| OT_V) (AM_I ||| OT_V) AM_NOT_USED (Some "adc");
    (* 0x3 *) row 0 IT_GENERIC (AM_E ||| OT_V) (AM_I ||| OT_V) AM_NOT_USED (Some "sbb");
    (* 0x4 *) row 0 IT_GENERIC (AM_E ||| OT_V) (AM_I ||| OT_V) AM_NOT_USED (Some "and");
    (* 0x5 *) row 0 IT_GENERIC (AM_E ||| OT_V) (AM_I ||| OT_V) AM_NOT_USED (Some "sub");
    (* 0x6 *) row 0 IT_GENERIC (AM_E ||| OT_V) (AM_I ||| OT_V) AM_NOT_USED (Some "xor");
    (* 0x7 *) row 0 IT_GENERIC (AM_E ||| OT_V) (AM_I ||| OT_V) AM_NOT_USED (Some "cmp") ].

Definition s_opcode_byte_after_82 : list Opcode :=
  [ (* 0x0 *) row 0 IT_GENERIC (AM_E ||| OT_V) (AM_I ||| OT_B) AM_NOT_USED (Some "add");
    (* 0x1 *) row 0 IT_GENERIC (AM_E ||| OT_V) (AM_I ||| OT_B) AM_NOT_USED (Some "or");
    (* 0x2 *) row 0 IT_GENERIC (AM_E ||| OT_V) (AM_I ||| OT_B) AM_NOT_USED (Some "adc");
    (* 0x3 *) row 0 IT_GENERIC (AM_E ||| OT_V) (AM_I ||| OT_B) AM_NOT_USED (Some "sbb");
    (* 0x4 *) row 0 IT_GENERIC (AM_E ||| OT_V) (AM_I ||| OT_B) AM_NOT_USED (Some "and");
    (* 0x5 *) row 0 IT_GENERIC (AM_E ||| OT_V) (AM_I ||| OT_B) AM_NOT_USED (Some "sub");
    (* 0x6 *) row 0 IT_GENERIC (AM_E ||| OT_V) (AM_I ||| OT_B) AM_NOT_USED (Some "xor");
    (* 0x7 *) row 0 IT_GENERIC (AM_E ||| OT_V) (AM_I ||| OT_B) AM_NOT_USED (Some "cmp") ].

Definition s_opcode_byte_after_83 : list Opcode :=
  [ (* 0x0 *) row 0 IT_GENERIC (AM_E ||| OT_V) (AM_I ||| OT_B) AM_NOT_USED (Some "add");
    (* 0x1 *) row 0 IT_GENERIC (AM_E ||| OT_V) (AM_I ||| OT_B) AM_NOT_USED (Some "or");
    (* 0x2 *) row 0 IT_GENERIC (AM_E ||| OT_V) (AM_I ||| OT_B) AM_NOT_USED (Some "adc");
    (* 0x3 *) row 0 IT_GENERIC (AM_E ||| OT_V) (AM_I ||| OT_B) AM_NOT_USED (Some "sbb");
    (* 0x4 *) row 0 IT_GENERIC (AM_E ||| OT_V) (AM_I ||| OT_B) AM_NOT_USED (Some "and");
    (* 0x5 *) row 0 IT_GENERIC (AM_E ||| OT_V) (AM_I ||| OT_B) AM_NOT_USED (Some "sub");
    (* 0x6 *) row 0 IT_GENERIC (AM_E ||| OT_V) (AM_I ||| OT_B) AM_NOT_USED (Some "xor");
    (* 0x7 *) row 0 IT_GENERIC (AM_E ||| OT_V) (AM_I ||| OT_B) AM_NOT_USED (Some "cmp") ].

Definition s_opcode_byte_after_c0 : list Opcode :=
  [ (* 0x0 *) row 0 IT_GENERIC (AM_E ||| OT_B) (AM_I ||| OT_B) AM_NOT_USED (Some "rol");
    (* 0x1 *) row 0 IT_GENERIC (AM_E ||| OT_B) (AM_I ||| OT_B) AM_NOT_USED (Some "ror");
    (* 0x2 *) row 0 IT_GENERIC (AM_E ||| OT_B) (AM_I ||| OT_B) AM_NOT_USED (Some "rcl");
    (* 0x3 *) row 0 IT_GENERIC (AM_E ||| OT_B) (AM_I ||| OT_B) AM_NOT_USED (Some "rcr");
    (* 0x4 *) row 0 IT_GENERIC (AM_E ||| OT_B) (AM_I ||| OT_B) AM_NOT_USED (Some "shl");
    (* 0x5 *) row 0 IT_GENERIC (AM_E ||| OT_B) (AM_I ||| OT_B) AM_NOT_USED (Some "shr");
    (* 0x6 *) row 0 IT_GENERIC (AM_E ||| OT_B) (AM_I ||| OT_B) AM_NOT_USED (Some "sal");
    (* 0x7 *) row 0 IT_GENERIC (AM_E ||| OT_B) (AM_I ||| OT_B) AM_NOT_USED (Some "sar") ].

Definition s_opcode_byte_after_c1 : list Opcode :=
  [ (* 0x0 *) row 0 IT_GENERIC (AM_E ||| OT_V) (AM_I ||| OT_B) AM_NOT_USED (Some "rol");
    (* 0x1 *) row 0 IT_GENERIC (AM_E ||| OT_V) (AM_I ||| OT_B) AM_NOT_USED (Some "ror");
    (* 0x2 *) row 0 IT_GENERIC (AM_E ||| OT_V) (AM_I ||| OT_B) AM_NOT_USED (Some "rcl");
    (* 0x3 *) row 0 IT_GENERIC (AM_E ||| OT_V) (AM_I ||| OT_B) AM_NOT_USED (Some "rcr");
    (* 0x4 *) row 0 IT_GENERIC (AM_E ||| OT_V) (AM_I ||| OT_B) AM_NOT_USED (Some "shl");
    (* 0x5 *) row 0 IT_GENERIC (AM_E ||| OT_V) (AM_I ||| OT_B) AM_NOT_USED (Some "shr");
    (* 0x6 *) row 0 IT_GENERIC (AM_E ||| OT_V) (AM_I ||| OT_B) AM_NOT_USED (Some "sal");
    (* 0x7 *) row 0 IT_GENERIC (AM_E ||| OT_V) (AM_I ||| OT_B) AM_NOT_USED (Some "sar") ].

Definition s_opcode_byte_after_d0 : list Opcode :=
  [ (* 0x0 *) row 0 IT_GENERIC (AM_E ||| OT_B) AM_IMPLICIT AM_NOT_USED (Some "rol");
    (* 0x1 *) row 0 IT_GENERIC (AM_E ||| OT_B) AM_IMPLICIT AM_NOT_USED (Some "ror");
    (* 0x2 *) row 0 IT_GENERIC (AM_E ||| OT_B) AM_IMPLICIT AM_NOT_USED (Some "rcl");
    (* 0x3 *) row 0 IT_GENERIC (AM_E ||| OT_B) AM_IMPLICIT AM_NOT_USED (Some "rcr");
    (* 0x4 *) row 0 IT_GENERIC (AM_E ||| OT_B) AM_IMPLICIT AM_NOT_USED (Some "shl");
    (* 0x5 *) row 0 IT_GENERIC (AM_E ||| OT_B) AM_IMPLICIT AM_NOT_USED (Some "shr");
    (* 0x6 *) row 0 IT_GENERIC (AM_E ||| OT_B) AM_IMPLICIT AM_NOT_USED (Some "sal");
    (* 0x7 *) row 0 IT_GENERIC (AM_E ||| OT_B) AM_IMPLICIT AM_NOT_USED (Some "sar") ].

Definition s_opcode_byte_after_d1 : list Opcode :=
  [ (* 0x0 *) row 0 IT_GENERIC (AM_E ||| OT_V) AM_IMPLICIT AM_NOT_USED (Some "rol");
    (* 0x1 *) row 0 IT_GENERIC (AM_E ||| OT_V) AM_IMPLICIT AM_NOT_USED (Some "ror");
    (* 0x2 *) row 0 IT_GENERIC (AM_E ||| OT_V) AM_IMPLICIT AM_NOT_USED (Some "rcl");
    (* 0x3 *) row 0 IT_GENERIC (AM_E ||| OT_V) AM_IMPLICIT AM_NOT_USED (Some "rcr");
    (* 0x4 *) row 0 IT_GENERIC (AM_E ||| OT_V) AM_IMPLICIT AM_NOT_USED (Some "shl");
    (* 0x5 *) row 0 IT_GENERIC (AM_E ||| OT_V) AM_IMPLICIT AM_NOT_USED (Some "shr");
    (* 0x6 *) row 0 IT_GENERIC (AM_E ||| OT_V) AM_IMPLICIT AM_NOT_USED (Some "sal");
    (* 0x7 *) row 0 IT_GENERIC (AM_E ||| OT_V) AM_IMPLICIT AM_NOT_USED (Some "sar") ].

Definition s_opcode_byte_after_d2 : list Opcode :=
  [ (* 0x0 *) row 0 IT_GENERIC (AM_E ||| OT_B) (AM_REGISTER ||| OT_B) AM_NOT_USED (Some "rol");
    (* 0x1 *) row 0 IT_GENERIC (AM_E ||| OT_B) (AM_REGISTER ||| OT_B) AM_NOT_USED (Some "ror");
    (* 0x2 *) row 0 IT_GENERIC (AM_E ||| OT_B) (AM_REGISTER ||| OT_B) AM_NOT_USED (Some "rcl");
    (* 0x3 *) row 0 IT_GENERIC (AM_E ||| OT_B) (AM_REGISTER ||| OT_B) AM_NOT_USED (Some "rcr");
    (* 0x4 *) row 0 IT_GENERIC (AM_E ||| OT_B) (AM_REGISTER ||| OT_B) AM_NOT_USED (Some "shl");
    (* 0x5 *) row 0 IT_GENERIC (AM_E ||| OT_B) (AM_REGISTER ||| OT_B) AM_NOT_USED (Some "shr");
    (* 0x6 *) row 0 IT_GENERIC (AM_E ||| OT_B) (AM_REGISTER ||| OT_B) AM_NOT_USED (Some "sal");
    (* 0x7 *) row 0 IT_GENERIC (AM_E ||| OT_B) (AM_REGISTER ||| OT_B) AM_NOT_USED (Some "sar") ].

Definition s_opcode_byte_after_d3 : list Opcode :=
  [ (* 0x0 *) row 0 IT_GENERIC (AM_E ||| OT_V) (AM_REGISTER ||| OT_B) AM_NOT_USED (Some "rol");
    (* 0x1 *) row 0 IT_GENERIC (AM_E ||| OT_V) (AM_REGISTER ||| OT_B) AM_NOT_USED (Some "ror");
    (* 0x2 *) row 0 IT_GENERIC (AM_E ||| OT_V) (AM_REGISTER ||| OT_B) AM_NOT_USED (Some "rcl");
    (* 0x3 *) row 0 IT_GENERIC (AM_E ||| OT_V) (AM_REGISTER ||| OT_B) AM_NOT_USED (Some "rcr");
    (* 0x4 *) row 0 IT_GENERIC (AM_E ||| OT_V) (AM_REGISTER ||| OT_B) AM_NOT_USED (Some "shl");
    (* 0x5 *) row 0 IT_GENERIC (AM_E ||| OT_V) (AM_REGISTER ||| OT_B) AM_NOT_USED (Some "shr");
    (* 0x6 *) row 0 IT_GENERIC (AM_E ||| OT_V) (AM_REGISTER ||| OT_B) AM_NOT_USED (Some "sal");
    (* 0x7 *) row 0 IT_GENERIC (AM_E ||| OT_V) (AM_REGISTER ||| OT_B) AM_NOT_USED (Some "sar") ].

Definition s_opcode_byte_after_f6 : list Opcode :=
  [ (* 0x0 *) row 0 IT_GENERIC (AM_E ||| OT_B) (AM_I ||| OT_B) AM_NOT_USED (Some "test");
    (* 0x1 *) row 0 IT_GENERIC (AM_E ||| OT_B) (AM_I ||| OT_B) AM_NOT_USED (Some "test");
    (* 0x2 *) row 0 IT_GENERIC (AM_E ||| OT_B) AM_NOT_USED AM_NOT_USED (Some "not");
    (* 0x3 *) row 0 IT_GENERIC (AM_E ||| OT_B) AM_NOT_USED AM_NOT_USED (Some "neg");
    (* 0x4 *) row 0 IT_GENERIC (OT_B ||| AM_REGISTER) (AM_E ||| OT_B) AM_NOT_USED (Some "mul");
    (* 0x5 *) row 0 IT_GENERIC (OT_B ||| AM_REGISTER) (AM_E ||| OT_B) AM_NOT_USED (Some "imul");
    (* 0x6 *) row 0 IT_GENERIC (AM_REGISTER ||| OT_B) (AM_E ||| OT_B) AM_NOT_USED (Some "div");
    (* 0x7 *) row 0 IT_GENERIC (AM_REGISTER ||| OT_B) (AM_E ||| OT_B) AM_NOT_USED (Some "idiv") ].

Definition s_opcode_byte_after_f7 : list Opcode :=
  [ (* 0x0 *) row 0 IT_GENERIC (AM_E ||| OT_V) (AM_I ||| OT_V) AM_NOT_USED (Some "test");
    (* 0x1 *) row 0 IT_GENERIC (AM_E ||| OT_V) (AM_I ||| OT_V) AM_NOT_USED (Some "test");
    (* 0x2 *) row 0 IT_GENERIC (AM_E ||| OT_V) AM_NOT_USED AM_NOT_USED (Some "not");
    (* 0x3 *) row 0 IT_GENERIC (AM_E ||| OT_V) AM_NOT_USED AM_NOT_USED (Some "neg");
    (* 0x4 *) row 0 IT_GENERIC (AM_REGISTER ||| OT_V) (AM_E ||| OT_V) AM_NOT_USED (Some "mul");
    (* 0x5 *) row 0 IT_GENERIC (AM_REGISTER ||| OT_V) (AM_E ||| OT_V) AM_NOT_USED (Some "imul");
    (* 0x6 *) row 0 IT_GENERIC (AM_REGISTER ||| OT_V) (AM_E ||| OT_V) AM_NOT_USED (Some "div");
    (* 0x7 *) row 0 IT_GENERIC (AM_REGISTER ||| OT_V) (AM_E ||| OT_V) AM_NOT_USED (Some "idiv") ].

Definition s_opcode_byte_after_fe : list Opcode :=
  [ (* 0x0 *) row 0 IT_GENERIC (AM_E ||| OT_B) AM_NOT_USED AM_NOT_USED (Some "inc");
    (* 0x1 *) row 0 IT_GENERIC (AM_E ||| OT_B) AM_NOT_USED AM_NOT_USED (Some "dec") ].

Definition s_opcode_byte_after_ff : list Opcode :=
  [ (* 0x0 *) row 0 IT_GENERIC (AM_E ||| OT_V) AM_NOT_USED AM_NOT_USED (Some "inc");
    (* 0x1 *) row 0 IT_GENERIC (AM_E ||| OT_V) AM_NOT_USED AM_NOT_USED (Some "dec");
    (* 0x2 *) row 0 IT_JUMP (AM_E ||| OT_V) AM_NOT_USED AM_NOT_USED (Some "call");
    (* 0x3 *) row 0 IT_JUMP (AM_E ||| OT_P) AM_NOT_USED AM_NOT_USED (Some "call");
    (* 0x4 *) row 0 IT_JUMP (AM_E ||| OT_V) AM_NOT_USED AM_NOT_USED (Some "jmp");
    (* 0x5 *) row 0 IT_JUMP (AM_E ||| OT_P) AM_NOT_USED AM_NOT_USED (Some "jmp");
    (* 0x6 *) row 0 IT_GENERIC (AM_E ||| OT_V) AM_NOT_USED AM_NOT_USED (Some "push");
    (* 0x7 *) row 0 IT_UNUSED AM_NOT_USED AM_NOT_USED AM_NOT_USED None ].

Definition s_ia32_opcode_map_ (x64 : bool) : list OpcodeTable :=
  [ (*  0 *) mkTable (s_first_opcode_byte x64) 0 0xff 0 0xff;
    (*  1 *) mkTable s_opcode_byte_after_0f 0 0xff 0 0xff;
    (*  2 *) mkTable s_opcode_byte_after_80 3 0x07 0 0x07;
    (*  3 *) mkTable s_opcode_byte_after_81 3 0x07 0 0x07;
    (*  4 *) mkTable s_opcode_byte_after_82 3 0x07 0 0x07;
    (*  5 *) mkTable s_opcode_byte_after_83 3 0x07 0 0x07;
    (*  6 *) mkTable s_opcode_byte_after_c0 3 0x07 0 0x07;
    (*  7 *) mkTable s_opcode_byte_after_c1 3 0x07 0 0x07;
    (*  8 *) mkTable s_opcode_byte_after_d0 3 0x07 0 0x07;
    (*  9 *) mkTable s_opcode_byte_after_d1 3 0x07 0 0x07;
    (* 10 *) mkTable s_opcode_byte_after_d2 3 0x07 0 0x07;
    (* 11 *) mkTable s_opcode_byte_after_d3 3 0x07 0 0x07;
    (* 12 *) mkTable s_opcode_byte_after_f6 3 0x07 0 0x07;
    (* 13 *) mkTable s_opcode_byte_after_f7 3 0x07 0 0x07;
    (* 14 *) mkTable s_opcode_byte_after_fe 3 0x07 0 0x01;
    (* 15 *) mkTable s_opcode_byte_after_ff 3 0x07 0 0x07;
    (* 16 *) mkTable s_opcode_byte_after_0f00 3 0x07 0 0x07;
    (* 17 *) mkTable s_opcode_byte_after_0f01 3 0x07 0 0x07;
    (* 18 *) mkTable s_opcode_byte_after_0f18 3 0x07 0 0x07;
    (* 19 *) mkTable s_opcode_byte_after_0f71 3 0x07 0 0x07;
    (* 20 *) mkTable s_opcode_byte_after_0f72 3 0x07 0 0x07;
    (* 21 *) mkTable s_opcode_byte_after_0f73 3 0x07 0 0x07;
    (* 22 *) mkTable s_opcode_byte_after_0fae 3 0x07 0 0x07;
    (* 23 *) mkTable s_opcode_byte_after_0fba 3 0x07 0 0x07;
    (* 24 *) mkTable s_opcode_byte_after_0fc7 3 0x07 0 0x01 ].

Definition s_ia16_modrm_map_ : list ModrmEntry :=
  [ (* r/m == 000 *) mkModrm false false OS_ZERO;
    (* r/m == 001 *) mkModrm false false OS_ZERO;
    (* r/m == 010 *) mkModrm false false OS_ZERO;
    (* r/m == 011 *) mkModrm false false OS_ZERO;
    (* r/m == 100 *) mkModrm false false OS_ZERO;
    (* r/m == 101 *) mkModrm false false OS_ZERO;
    (* r/m == 110 *) mkModrm true false OS_WORD;
    (* r/m == 111 *) mkModrm false false OS_ZERO;
    (* r/m == 000 *) mkModrm true false OS_BYTE;
    (* r/m == 001 *) mkModrm true false OS_BYTE;
    (* r/m == 010 *) mkModrm true false OS_BYTE;
    (* r/m == 011 *) mkModrm true false OS_BYTE;
    (* r/m == 100 *) mkModrm true false OS_BYTE;
    (* r/m == 101 *) mkModrm true false OS_BYTE;
    (* r/m == 110 *) mkModrm true false OS_BYTE;
    (* r/m == 111 *) mkModrm true false OS_BYTE;
    (* r/m == 000 *) mkModrm true false OS_WORD;
    (* r/m == 001 *) mkModrm true false OS_WORD;
    (* r/m == 010 *) mkModrm true false OS_WORD;
    (* r/m == 011 *) mkModrm true false OS_WORD;
    (* r/m == 100 *) mkModrm true false OS_WORD;
    (* r/m == 101 *) mkModrm true false OS_WORD;
    (* r/m == 110 *) mkModrm true false OS_WORD;
    (* r/m == 111 *) mkModrm true false OS_WORD;
    (* r/m == 000 *) mkModrm false false OS_ZERO;
    (* r/m == 001 *) mkModrm false false OS_ZERO;
    (* r/m == 010 *) mkModrm false false OS_ZERO;
    (* r/m == 011 *) mkModrm false false OS_ZERO;
    (* r/m == 100 *) mkModrm false false OS_ZERO;
    (* r/m == 101 *) mkModrm false false OS_ZERO;
    (* r/m == 110 *) mkModrm false false OS_ZERO;
    (* r/m == 111 *) mkModrm false false OS_ZERO ].

Definition s_ia32_modrm_map_ : list ModrmEntry :=
  [ (* r/m == 000 *) mkModrm false false OS_ZERO;
    (* r/m == 001 *) mkModrm false false OS_ZERO;
    (* r/m == 010 *) mkModrm false false OS_ZERO;
    (* r/m == 011 *) mkModrm false false OS_ZERO;
    (* r/m == 100 *) mkModrm false true OS_ZERO;
    (* r/m == 101 *) mkModrm true false OS_DOUBLE_WORD;
    (* r/m == 110 *) mkModrm false false OS_ZERO;
    (* r/m == 111 *) mkModrm false false OS_ZERO;
    (* r/m == 000 *) mkModrm true false OS_BYTE;
    (* r/m == 001 *) mkModrm true false OS_BYTE;
    (* r/m == 010 *) mkModrm true false OS_BYTE;
    (* r/m == 011 *) mkModrm true false OS_BYTE;
    (* r/m == 100 *) mkModrm true true OS_BYTE;
    (* r/m == 101 *) mkModrm true false OS_BYTE;
    (* r/m == 110 *) mkModrm true false OS_BYTE;
    (* r/m == 111 *) mkModrm true false OS_BYTE;
    (* r/m == 000 *) mkModrm true false OS_DOUBLE_WORD;
    (* r/m == 001 *) mkModrm true false OS_DOUBLE_WORD;
    (* r/m == 010 *) mkModrm true false OS_DOUBLE_WORD;
    (* r/m == 011 *) mkModrm true false OS_DOUBLE_WORD;
    (* r/m == 100 *) mkModrm true true OS_DOUBLE_WORD;
    (* r/m == 101 *) mkModrm true false OS_DOUBLE_WORD;
    (* r/m == 110 *) mkModrm true false OS_DOUBLE_WORD;
    (* r/m == 111 *) mkModrm true false OS_DOUBLE_WORD;
    (* r/m == 000 *) mkModrm false false OS_ZERO;
    (* r/m == 001 *) mkModrm false false OS_ZERO;
    (* r/m == 010 *) mkModrm false false OS_ZERO;
    (* r/m == 011 *) mkModrm false false OS_ZERO;
    (* r/m == 100 *) mkModrm false false OS_ZERO;
    (* r/m == 101 *) mkModrm false false OS_ZERO;
    (* r/m == 110 *) mkModrm false false OS_ZERO;
    (* r/m == 111 *) mkModrm false false OS_ZERO ].
