(* ===== verification/MiniDisassembler.v ===== *)
(** * The disassembler of the Windows patcher

    [MiniDisassembler] of windows/mini_disassembler.{h,cc} over the tables of
    Ia32Tables.v. The object is the record [MD]; memory is a finite map from
    addresses to bytes, and a read outside of it is undefined. The argument
    [x64] is the macro [_M_X64].

    An instruction is prefixes, opcode, ModR/M and SIB bytes, then
    displacement and immediate operands ([Insn]). [Format.valid] is the format
    as the code reads it, [Manual.insn] the format of the IA-32 manual over the
    same opcode tables; they differ in the sizes of a few operands, and
    [Manual.regular] leaves out the forms where they do. The disassembler
    recognises exactly the instructions of its format, reads no byte behind
    the SIB byte, always returns where the bytes it needs are readable, and
    for a regular instruction reports the length the manual gives it. *)

From S2P Require Import Prelude Ia32Tables.
From stdpp Require Import strings.
Local Open Scope Z_scope.

(** Bytes of code, and the read of one. *)
Notation code := (gmap Z Z).
Definition rd (m : code) (p : Z) : outcome Z := deref (m !! p).

(** A stretch of memory with given bytes. *)
Definition load (p : Z) (l : list Z) : code := list_to_map (imap (fun i b => (p + Z.of_nat i, b)) l).

Record MD := mkMD {
  instruction_type_ : InstructionType;
  operand_bytes_ : Z;
  have_modrm_ : bool;
  should_decode_modrm_ : bool;
  operand_is_32_bits_ : bool;
  operand_default_is_32_bits_ : bool;
  address_is_32_bits_ : bool;
  address_default_is_32_bits_ : bool;
  operand_default_support_64_bits_ : bool;
  operand_is_64_bits_ : bool;
  got_f2_prefix_ : bool;
  got_f3_prefix_ : bool;
  got_66_prefix_ : bool }.

Module Md.

(** Assignments to the members. *)
Definition set_type (t : InstructionType) (d : MD) : MD :=
  let '(mkMD _ b h s o od a ad s64 o64 f2 f3 f66) := d in mkMD t b h s o od a ad s64 o64 f2 f3 f66.
Definition add_bytes (k : Z) (d : MD) : MD :=
  let '(mkMD t b h s o od a ad s64 o64 f2 f3 f66) := d in mkMD t (u32 (b + k)) h s o od a ad s64 o64 f2 f3 f66.
Definition set_modrm (decode : bool) (d : MD) : MD :=
  let '(mkMD t b _ s o od a ad s64 o64 f2 f3 f66) := d in mkMD t b true (decode || s) o od a ad s64 o64 f2 f3 f66.
Definition set_op32 (v : bool) (d : MD) : MD :=
  let '(mkMD t b h s _ od a ad s64 o64 f2 f3 f66) := d in mkMD t b h s v od a ad s64 o64 f2 f3 f66.
Definition set_addr32 (v : bool) (d : MD) : MD :=
  let '(mkMD t b h s o od _ ad s64 o64 f2 f3 f66) := d in mkMD t b h s o od v ad s64 o64 f2 f3 f66.
Definition set_op64 (d : MD) : MD :=
  let '(mkMD t b h s o od a ad s64 _ f2 f3 f66) := d in mkMD t b h s o od a ad s64 true f2 f3 f66.
Definition set_f2 (d : MD) : MD :=
  let '(mkMD t b h s o od a ad s64 o64 _ f3 f66) := d in mkMD t b h s o od a ad s64 o64 true f3 f66.
Definition set_f3 (d : MD) : MD :=
  let '(mkMD t b h s o od a ad s64 o64 f2 _ f66) := d in mkMD t b h s o od a ad s64 o64 f2 true f66.
Definition set_66 (d : MD) : MD :=
  let '(mkMD t b h s o od a ad s64 o64 f2 f3 _) := d in mkMD t b h s o od a ad s64 o64 f2 f3 true.

Section Code.
Context (x64 : bool).

Definition Initialize (d : MD) : MD :=
  mkMD IT_UNKNOWN 0 false false (operand_default_is_32_bits_ d) (operand_default_is_32_bits_ d)
    (address_default_is_32_bits_ d) (address_default_is_32_bits_ d) x64 false false false false.

(** The constructors: with the defaults given, and with 32-bit defaults. *)
Definition MiniDisassembler2 (operand_default_is_32_bits address_default_is_32_bits : bool) : MD :=
  Initialize (mkMD IT_UNKNOWN 0 false false false operand_default_is_32_bits false address_default_is_32_bits
    false false false false false).
Definition MiniDisassembler : MD :=
  Initialize (mkMD IT_UNKNOWN 0 false false false true false true false false false false false).

(** The flags of one prefix byte. *)
Definition prefix_flags (b : Z) (d : MD) : MD :=
  if b =? 0xF2 then set_f2 d
  else if b =? 0xF3 then set_f3 d
  else if b =? 0x66 then set_66 d
  else if operand_default_support_64_bits_ d && negb (Z.land b 0x48 =? 0) then set_op64 d
  else d.

(** The entry of the first table for a byte. *)
Definition first_entry (b : Z) : outcome Opcode :=
  T ← deref (s_ia32_opcode_map_ x64 !! 0%nat); deref (table_ T !! Z.to_nat b).

Fixpoint ProcessPrefixes (fuel : nat) (m : code) (start_byte size : Z) (d : MD) : outcome (InstructionType * Z * MD) :=
  match fuel with
  | O => Fault OutOfFuel
  | S fuel =>
      b ← rd m start_byte;
      opcode ← first_entry b;
      let prefix d :=
        '(_, size, d) ← ProcessPrefixes fuel m (start_byte + 1) (u32 (size + 1)) (prefix_flags b d);
        Ret (type_ opcode, size, d) in
      match type_ opcode with
      | IT_PREFIX_ADDRESS => prefix (set_addr32 (negb (address_default_is_32_bits_ d)) d)
      | IT_PREFIX_OPERAND => prefix (set_op32 (negb (operand_default_is_32_bits_ d)) d)
      | IT_PREFIX => prefix d
      | _ => Ret (IT_GENERIC, size, d)
      end
  end.

(** The number of bytes of an immediate or offset operand, by its type. *)
Definition immediate_bytes (flag_operand : Z) (d : MD) : bool * MD :=
  let ot := Z.land flag_operand OT_MASK in
  let d32 := operand_is_32_bits_ d in
  if ot =? OT_B then (true, add_bytes OS_BYTE d)
  else if ot =? OT_C then (true, add_bytes (if d32 then OS_WORD else OS_BYTE) d)
  else if ot =? OT_D then (true, add_bytes OS_DOUBLE_WORD d)
  else if ot =? OT_DQ then (true, add_bytes OS_DOUBLE_QUAD_WORD d)
  else if ot =? OT_P then (true, add_bytes (if d32 then OS_48_BIT_POINTER else OS_32_BIT_POINTER) d)
  else if ot =? OT_PS then (true, add_bytes OS_128_BIT_PACKED_SINGLE_PRECISION_FLOATING d)
  else if ot =? OT_Q then (true, add_bytes OS_QUAD_WORD d)
  else if ot =? OT_S then (true, add_bytes OS_PSEUDO_DESCRIPTOR d)
  else if (ot =? OT_SD) || (ot =? OT_PD) then (true, add_bytes OS_DOUBLE_PRECISION_FLOATING d)
  else if ot =? OT_SS then (false, d)
  else if ot =? OT_V then
    (true, add_bytes (if operand_is_64_bits_ d && negb (Z.land flag_operand AM_I =? 0)
                         && negb (Z.land flag_operand IOS_64 =? 0) then OS_QUAD_WORD
                      else if d32 then OS_DOUBLE_WORD else OS_WORD) d)
  else if ot =? OT_W then (true, add_bytes OS_WORD d)
  else (true, d).

(** [case]: one of the labels of a [switch]. *)
Definition case (v : Z) (labels : list Z) : bool := existsb (Z.eqb v) labels.

Definition ProcessOperand (flag_operand : Z) (d : MD) : bool * MD :=
  if flag_operand =? AM_NOT_USED then (true, d)
  else
    let am := Z.land flag_operand AM_MASK in
    if case am [AM_A; AM_F; AM_X; AM_Y; AM_IMPLICIT] then (true, d)
    else if case am [AM_C; AM_D; AM_G; AM_P; AM_R; AM_S; AM_T; AM_V] then (true, set_modrm false d)
    else if case am [AM_E; AM_M; AM_Q; AM_W] then (true, set_modrm true d)
    else if case am [AM_I; AM_J; AM_O] then immediate_bytes flag_operand d
    else (true, d).

Definition ProcessSib (m : code) (start_byte mod_ size : Z) (d : MD) : outcome (bool * Z * MD) :=
  b ← rd m start_byte;
  let sib_base := Z.land b 0x07 in
  let d := if 0x05 =? sib_base then
             if (mod_ =? 0) || (mod_ =? 2) then add_bytes OS_DOUBLE_WORD d
             else if mod_ =? 1 then add_bytes OS_BYTE d else d
           else d in
  Ret (true, u32 (size + 1), d).

Definition ProcessModrm (m : code) (start_byte size : Z) (d : MD) : outcome (bool * Z * MD) :=
  if negb (should_decode_modrm_ d) then Ret (true, u32 (size + 1), d)
  else
    modrm ← rd m start_byte;
    let mod_ := Z.shiftr (Z.land modrm 0xC0) 3 in
    let modrm := Z.lor mod_ (Z.land modrm 0x07) in
    let mod_ := Z.shiftr mod_ 3 in
    modrm_entry ← deref ((if address_is_32_bits_ d then s_ia32_modrm_map_ else s_ia16_modrm_map_) !! Z.to_nat modrm);
    let d := if is_encoded_in_instruction_ modrm_entry then add_bytes (operand_size_ modrm_entry) d else d in
    if use_sib_byte_ modrm_entry then ProcessSib m (start_byte + 1) mod_ (u32 (size + 1)) d
    else Ret (true, u32 (size + 1), d).

(** The variant of an opcode that the prefixes select. *)
Definition specific_opcode (opcode : Opcode) (d : MD) : SpecificOpcode :=
  if is_prefix_dependent_ opcode then
    if got_f2_prefix_ d && bool_decide (sp_mnemonic_ (opcode_if_f2_prefix_ opcode) <> None) then opcode_if_f2_prefix_ opcode
    else if got_f3_prefix_ d && bool_decide (sp_mnemonic_ (opcode_if_f3_prefix_ opcode) <> None) then opcode_if_f3_prefix_ opcode
    else if got_66_prefix_ d && bool_decide (sp_mnemonic_ (opcode_if_66_prefix_ opcode) <> None) then opcode_if_66_prefix_ opcode
    else specific opcode
  else specific opcode.

(** The rest of [ProcessOpcode] once the opcode is known: its operands, then
    the ModR/M and SIB bytes. *)
Definition process_operands (m : code) (start_byte size : Z) (table : OpcodeTable) (opcode : Opcode) (d : MD)
    : outcome (InstructionType * Z * MD) :=
  let so := specific_opcode opcode d in
  let d := set_type (sp_type_ so) d in
  let d := (ProcessOperand (sp_flag_dest_ so) d).2 in
  let d := (ProcessOperand (sp_flag_source_ so) d).2 in
  let d := (ProcessOperand (sp_flag_aux_ so) d).2 in
  if negb (mask_ table =? 0xff) then
    if have_modrm_ d then
      '(_, size, d) ← ProcessModrm m start_byte size d; Ret (IT_GENERIC, size, d)
    else Ret (IT_GENERIC, u32 (size + 1), d)
  else
    if have_modrm_ d then
      '(_, size, d) ← ProcessModrm m (start_byte + 1) (u32 (size + 1)) d; Ret (IT_GENERIC, size, d)
    else Ret (IT_GENERIC, u32 (size + 1), d).

Fixpoint ProcessOpcode (fuel : nat) (m : code) (start_byte table_index size : Z) (d : MD) : outcome (InstructionType * Z * MD) :=
  match fuel with
  | O => Fault OutOfFuel
  | S fuel =>
      table ← deref (s_ia32_opcode_map_ x64 !! Z.to_nat table_index);
      b ← rd m start_byte;
      let current_byte := Z.land (u8 (Z.shiftr b (shift_ table))) (mask_ table) in
      if (current_byte <? min_lim_ table) || (max_lim_ table <? current_byte) then Ret (IT_UNKNOWN, size, set_type IT_UNKNOWN d)
      else
        opcode ← deref (table_ table !! Z.to_nat current_byte);
        match type_ opcode with
        | IT_UNUSED => Ret (IT_UNUSED, size, set_type IT_UNUSED d)
        | IT_REFERENCE =>
            '(_, size, d) ← ProcessOpcode fuel m (start_byte + 1) (table_index_ opcode) (u32 (size + 1)) d;
            Ret (instruction_type_ d, size, d)
        | _ => process_operands m start_byte size table opcode d
        end
  end.

(** The nesting of the tables. *)
Definition opcode_fuel : nat := 3.

Definition Disassemble (m : code) (start_byte instruction_bytes : Z) (d : MD) : outcome (InstructionType * Z * MD) :=
  let d := Initialize d in
  '(instruction_type, size, d) ← ProcessPrefixes (S (size m)) m start_byte 0 d;
  if bool_decide (instruction_type = IT_UNKNOWN) then Ret (instruction_type, instruction_bytes, d)
  else
    let current_byte := start_byte + size in
    '(_, size, d) ← ProcessOpcode opcode_fuel m current_byte 0 0 d;
    if bool_decide (instruction_type_ d = IT_UNKNOWN) || bool_decide (instruction_type_ d = IT_UNUSED)
    then Ret (IT_UNKNOWN, instruction_bytes, d)
    else
      let current_byte := current_byte + size in
      Ret (instruction_type_ d, u32 (instruction_bytes + (operand_bytes_ d + (current_byte - start_byte))), d).

End Code.
End Md.

(** ** The format of an instruction

    As the code reads it, with arithmetic instead of its masks and
    accumulators; [takes_rexw] and [counted] are where it leaves the manual. *)
Module Format.

(** [lock], [repne], [rep], segment overrides, operand size, address size;
    and the REX bytes of a 64-bit binary. *)
Definition legacy_prefixes : list Z := [0x26; 0x2E; 0x36; 0x3E; 0x64; 0x65; 0x66; 0x67; 0xF0; 0xF2; 0xF3].

Definition is_prefix (x64 : bool) (b : Z) : bool :=
  bool_decide (b ∈ legacy_prefixes) || (x64 && bool_decide (0x40 <= b < 0x50)).

(** What the prefixes say: operand and address size, and the prefixes that
    select variants of opcodes. *)
Record Mode := mkMode { op32 : bool; addr32 : bool; op64 : bool; f2 : bool; f3 : bool; p66 : bool }.

Definition has (b : Z) (pre : list Z) : bool := existsb (Z.eqb b) pre.

(** The prefixes the code takes for REX.W: those with bit 3 or bit 6 set that
    are not one of the three mandatory prefixes. *)
Definition takes_rexw (b : Z) : bool :=
  negb (has b [0xF2; 0xF3; 0x66]) && (Z.testbit b 3 || Z.testbit b 6).

Definition mode (x64 od ad : bool) (pre : list Z) : Mode :=
  mkMode (if has 0x66 pre then negb od else od) (if has 0x67 pre then negb ad else ad)
    (x64 && existsb takes_rexw pre) (has 0xF2 pre) (has 0xF3 pre) (has 0x66 pre).

(** The addressing method and the type of an operand. *)
Definition method (flag : Z) : Z := (flag / 2 ^ 16) mod 2 ^ 8.
Definition type_of (flag : Z) : Z := (flag / 2 ^ 24) mod 2 ^ 8.

(** Methods that need a ModR/M byte: C D G P R S T V name a register in it,
    E M Q W a register or memory. *)
Definition in_reg (flag : Z) : bool := has (method flag) [2; 3; 6; 11; 13; 14; 15; 16].
Definition in_memory (flag : Z) : bool := has (method flag) [4; 9; 12; 17].
Definition needs_modrm (flag : Z) : bool := in_reg flag || in_memory flag.

(** Bytes of an immediate, a jump offset or a direct offset (I, J, O). *)
Definition immediate (M : Mode) (flag : Z) : Z :=
  if has (method flag) [7; 8; 10] then
    match type_of flag with
    | 2 => 1
    | 3 => if op32 M then 2 else 1
    | 4 => 4
    | 5 => 16
    | 6 => if op32 M then 6 else 4
    | 8 => 16
    | 9 | 15 | 16 => 8
    | 10 => 6
    | 13 => if op64 M && negb (method flag =? 8) && Z.testbit flag 12 then 8 else if op32 M then 4 else 2
    | 14 => 2
    | _ => 0
    end
  else 0.

(** The fields of the ModR/M and SIB bytes, and the displacement they
    announce by the manual. *)
Definition mod_of (b : Z) : Z := b / 64.
Definition rm_of (b : Z) : Z := b mod 8.

Definition needs_sib (M : Mode) (b : Z) : bool := addr32 M && negb (mod_of b =? 3) && (rm_of b =? 4).

Definition displacement (M : Mode) (b : Z) (sib : option Z) : Z :=
  if addr32 M then
    match mod_of b with
    | 0 => if (rm_of b =? 5) || bool_decide (rm_of b = 4 /\ (s ← sib; Some (s mod 8)) = Some 5) then 4 else 0
    | 1 => 1
    | 2 => 4
    | _ => 0
    end
  else
    match mod_of b with
    | 0 => if rm_of b =? 6 then 2 else 0
    | 1 => 1
    | 2 => 2
    | _ => 0
    end.

(** The displacement the code counts: with a SIB byte whose base field is 5
    and a displacement of its own, it is counted twice. *)
Definition counted (M : Mode) (b : Z) (sib : option Z) : Z :=
  displacement M b sib +
  (if bool_decide ((s ← sib; Some (s mod 8)) = Some 5 /\ (mod_of b = 1 \/ mod_of b = 2)) then displacement M b sib else 0).

(** The entry of a table for a byte of the opcode. *)
Definition entry (x64 : bool) (i b : Z) : option (OpcodeTable * Opcode) :=
  T ← s_ia32_opcode_map_ x64 !! Z.to_nat i;
  let k := (b / 2 ^ shift_ T) mod (mask_ T + 1) in
  if bool_decide (min_lim_ T <= k <= max_lim_ T) then o ← table_ T !! Z.to_nat k; Some (T, o) else None.

(** Escape bytes [esc], then byte [b], lead from table [i] to an opcode. *)
Inductive opcode_at (x64 : bool) : Z -> list Z -> Z -> OpcodeTable -> Opcode -> Prop :=
  | at_here i b T o : entry x64 i b = Some (T, o) -> type_ o <> IT_UNUSED -> type_ o <> IT_REFERENCE ->
      opcode_at x64 i [] b T o
  | at_ref i b T o esc b' T' o' : entry x64 i b = Some (T, o) -> type_ o = IT_REFERENCE ->
      opcode_at x64 (table_index_ o) esc b' T' o' -> opcode_at x64 i (b :: esc) b' T' o'.

(** The variant of the opcode under the prefixes. *)
Definition variant (M : Mode) (o : Opcode) : SpecificOpcode :=
  let named so := bool_decide (is_Some (sp_mnemonic_ so)) in
  if is_prefix_dependent_ o && f2 M && named (opcode_if_f2_prefix_ o) then opcode_if_f2_prefix_ o
  else if is_prefix_dependent_ o && f3 M && named (opcode_if_f3_prefix_ o) then opcode_if_f3_prefix_ o
  else if is_prefix_dependent_ o && p66 M && named (opcode_if_66_prefix_ o) then opcode_if_66_prefix_ o
  else specific o.

Definition flags (so : SpecificOpcode) : list Z := [sp_flag_dest_ so; sp_flag_source_ so; sp_flag_aux_ so].
Definition immediates (M : Mode) (fs : list Z) : Z := foldr (fun f a => immediate M f + a) 0 fs.

Record Insn := mkInsn { i_prefixes : list Z; i_opcode : list Z; i_modrm : list Z; i_operands : list Z }.

Definition header (i : Insn) : list Z := i_prefixes i ++ i_opcode i ++ i_modrm i.
Definition encode (i : Insn) : list Z := header i ++ i_operands i.

(** ModR/M bytes whose displacement has [k] bytes, by a rule for its size. *)
Inductive modrm_ok (disp : Mode -> Z -> option Z -> Z) (M : Mode) (fs : list Z) : list Z -> Z -> Prop :=
  | modrm_reg b : existsb in_memory fs = false -> modrm_ok disp M fs [b] 0
  | modrm_plain b : existsb in_memory fs = true -> needs_sib M b = false -> modrm_ok disp M fs [b] (disp M b None)
  | modrm_sib b s : existsb in_memory fs = true -> needs_sib M b = true -> modrm_ok disp M fs [b; s] (disp M b (Some s)).

(** The opcode byte [b] and the ModR/M bytes. Where the opcode continues in
    the ModR/M byte (a table with a mask), [b] is that byte and not one of the
    opcode. *)
Definition tail_ok (disp : Mode -> Z -> option Z -> Z) (M : Mode) (fs : list Z) (T : OpcodeTable) (b : Z) (op mr : list Z) (k : Z) : Prop :=
  (if mask_ T =? 0xff then op = [b] else op = [] /\ exists mr', mr = b :: mr') /\
  (if existsb needs_modrm fs then modrm_ok disp M fs mr k else k = 0 /\ mr = if mask_ T =? 0xff then [] else [b]).

Section Valid.
Context (x64 od ad : bool).

(** The instructions of the tables. *)
Inductive valid : Insn -> InstructionType -> Prop :=
  | Valid pre esc b T o op mr ops k (M := mode x64 od ad pre) (so := variant M o) :
      Forall (fun b => is_prefix x64 b = true) pre ->
      is_prefix x64 (hd b esc) = false ->
      opcode_at x64 0 esc b T o ->
      sp_type_ so <> IT_UNKNOWN -> sp_type_ so <> IT_UNUSED ->
      tail_ok counted M (flags so) T b op mr k ->
      Z.of_nat (length ops) = k + immediates M (flags so) ->
      valid (mkInsn pre (esc ++ op) mr ops) (sp_type_ so).
End Valid.

(** The opcode behind a list of bytes, and the operands its entry lists. *)
Fixpoint find (x64 : bool) (n : nat) (i : Z) (l : list Z) : option Opcode :=
  match n, l with
  | S n, b :: l =>
      '(_, o) ← entry x64 i b;
      match type_ o with IT_UNUSED => None | IT_REFERENCE => find x64 n (table_index_ o) l | _ => Some o end
  | _, _ => None
  end.

Definition operands (x64 od ad : bool) (i : Insn) : list Z :=
  match find x64 Md.opcode_fuel 0 (i_opcode i ++ i_modrm i) with
  | Some o => flags (variant (mode x64 od ad (i_prefixes i)) o)
  | None => []
  end.
End Format.

(** ** The format of the manual

    The same opcodes with the operand sizes of the IA-32 manual. In a 64-bit
    binary the defaults [od] and [ad] are 32 bits. *)
Module Manual.
Import Format.

(** REX counts as the last prefix only, and its bit 3 is W. *)
Definition rexw (x64 : bool) (pre : list Z) : bool :=
  x64 && match last pre with Some b => bool_decide (0x48 <= b < 0x50) | None => false end.

(** The sizes: 64-bit code has the ModR/M forms of 32-bit addresses, with an
    address-size prefix too. *)
Definition mode (x64 od ad : bool) (pre : list Z) : Mode :=
  mkMode (if has 0x66 pre then negb od else od) (x64 || if has 0x67 pre then negb ad else ad)
    (rexw x64 pre) (has 0xF2 pre) (has 0xF3 pre) (has 0x66 pre).

(** Bytes of an address that is encoded as such. *)
Definition moffs (x64 ad : bool) (pre : list Z) : Z :=
  if x64 then if has 0x67 pre then 4 else 8 else if (if has 0x67 pre then negb ad else ad) then 4 else 2.

(** Bytes of an operand behind the ModR/M bytes: a far pointer (A), an offset
    (O), a near jump (J), which has 32 bits in 64-bit code, an immediate (I),
    which REX.W makes one of 32 bits, or of 64 for the instructions that have
    such, whatever the operand-size prefix says. *)
Definition operand (x64 od ad : bool) (pre : list Z) (flag : Z) : Z :=
  let M := mode x64 od ad pre in
  if method flag =? 1 then if op32 M then 6 else 4
  else if method flag =? 10 then moffs x64 ad pre
  else if (method flag =? 8) && (type_of flag =? 13) && x64 then 4
  else if (method flag =? 7) && (type_of flag =? 13) && op64 M then if Z.testbit flag 12 then 8 else 4
  else immediate M flag.

Definition operand_bytes (x64 od ad : bool) (pre : list Z) (fs : list Z) : Z :=
  foldr (fun f a => operand x64 od ad pre f + a) 0 fs.

Section Insn.
Context (x64 od ad : bool).

Inductive insn : Insn -> InstructionType -> Prop :=
  | Insn_ pre esc b T o op mr ops k (M := mode x64 od ad pre) (so := variant M o) :
      Forall (fun b => is_prefix x64 b = true) pre ->
      is_prefix x64 (hd b esc) = false ->
      opcode_at x64 0 esc b T o ->
      sp_type_ so <> IT_UNKNOWN -> sp_type_ so <> IT_UNUSED ->
      tail_ok displacement M (flags so) T b op mr k ->
      Z.of_nat (length ops) = k + operand_bytes x64 od ad pre (flags so) ->
      insn (mkInsn pre (esc ++ op) mr ops) (sp_type_ so).

(** The forms whose length the code gets wrong. A memory operand with a SIB
    byte of base 5 and a displacement of the ModR/M byte; *)
Definition twice (i : Insn) : bool :=
  existsb in_memory (operands x64 od ad i) &&
  match i_modrm i with [b; s] => (s mod 8 =? 5) && ((mod_of b =? 1) || (mod_of b =? 2)) | _ => false end.

(** a far pointer; an offset, unless it has the size of the operand; *)
Definition far (f : Z) : bool := method f =? 1.
Definition offset (pre : list Z) (f : Z) : bool :=
  let M := Format.mode x64 od ad pre in (method f =? 10) && (x64 || negb (type_of f =? 13) || negb (eqb (op32 M) (addr32 M))).

(** in 64-bit code, an immediate that REX.W would widen behind a prefix that
    the code takes for REX.W; with an operand-size prefix, a near jump and,
    under REX.W, the other immediates of the operand's size; *)
Definition widened (pre : list Z) (f : Z) : bool :=
  (method f =? 7) && (type_of f =? 13) && Z.testbit f 12 && x64 && existsb takes_rexw pre && negb (rexw x64 pre).
Definition narrowed (pre : list Z) (f : Z) : bool :=
  (type_of f =? 13) && x64 && has 0x66 pre && ((method f =? 8) || (method f =? 7) && rexw x64 pre && negb (Z.testbit f 12)).

(** and any form with an address-size prefix in 64-bit code. *)
Definition short_address (pre : list Z) : bool := x64 && has 0x67 pre.

Definition regular (i : Insn) : bool :=
  let pre := i_prefixes i in
  negb (twice i) && negb (short_address pre) &&
  forallb (fun f => negb (far f || offset pre f || widened pre f || narrowed pre f)) (operands x64 od ad i).
End Insn.

(** An operand of 64-bit code that is addressed relative to the end of the
    instruction: a memory operand whose ModR/M byte has mod 0 and r/m 5. The
    value is the position of its displacement in the bytes [l]. *)
Fixpoint prefixes_of (x64 : bool) (l : list Z) : list Z :=
  match l with b :: l => if is_prefix x64 b then b :: prefixes_of x64 l else [] | [] => [] end.

Fixpoint modrm_at (x64 : bool) (n : nat) (i : Z) (l : list Z) : option (Opcode * list Z) :=
  match n, l with
  | S n, b :: l =>
      '(T, o) ← entry x64 i b;
      match type_ o with
      | IT_UNUSED => None
      | IT_REFERENCE => modrm_at x64 n (table_index_ o) l
      | _ => Some (o, if mask_ T =? 0xff then l else b :: l)
      end
  | _, _ => None
  end.

Definition rip_relative (x64 : bool) (l : list Z) : option nat :=
  let pre := prefixes_of x64 l in
  '(o, r) ← modrm_at x64 Md.opcode_fuel 0 (drop (length pre) l);
  match r with
  | b :: _ => if x64 && existsb in_memory (flags (variant (mode x64 true true pre) o)) && (mod_of b =? 0) && (rm_of b =? 5)
              then Some (length l - length r + 1)%nat else None
  | [] => None
  end.
End Manual.

(** ** The tables *)

(** Memory holds bytes, and less than 2^31 of them. *)
Definition code_ok (m : code) : Prop :=
  (forall p b, m !! p = Some b -> 0 <= b < 256) /\ Z.of_nat (size m) < 2 ^ 31.

(** The bytes [l] at address [p]. *)
Definition at_ (m : code) (p : Z) (l : list Z) : Prop :=
  forall i b, l !! i = Some b -> m !! (p + Z.of_nat i) = Some b.

Lemma all_bytes (P : Z -> bool) : forallb P (seqZ 0 256) = true -> forall b, 0 <= b < 256 -> P b = true.
Proof. rewrite forallb_forall. intros H b Hb. apply H, list_elem_of_In, elem_of_seqZ. lia. Qed.

Definition prefix_type (t : InstructionType) : bool :=
  match t with IT_PREFIX | IT_PREFIX_ADDRESS | IT_PREFIX_OPERAND => true | _ => false end.

Definition first_ok (x64 : bool) (b : Z) : bool :=
  match Md.first_entry x64 b with
  | Ret o => bool_decide (Format.is_prefix x64 b = prefix_type (type_ o)) &&
      bool_decide (type_ o = IT_PREFIX_OPERAND <-> b = 0x66) && bool_decide (type_ o = IT_PREFIX_ADDRESS <-> b = 0x67)
  | _ => false
  end.

Lemma first_entry_ok x64 b : 0 <= b < 256 -> exists o, Md.first_entry x64 b = Ret o /\
  Format.is_prefix x64 b = prefix_type (type_ o) /\ (type_ o = IT_PREFIX_OPERAND <-> b = 0x66) /\
  (type_ o = IT_PREFIX_ADDRESS <-> b = 0x67).
Proof.
  intros Hb. assert (first_ok x64 b = true) as H.
  { apply all_bytes; [|done]. destruct x64; vm_compute; reflexivity. }
  revert H. unfold first_ok. destruct (Md.first_entry x64 b) as [o|]; [|done].
  rewrite !andb_true_iff, !bool_decide_eq_true. naive_solver.
Qed.

Lemma rexw_bits b : 0 <= b < 256 -> negb (Z.land b 0x48 =? 0) = Z.testbit b 3 || Z.testbit b 6.
Proof.
  intros Hb. apply eqb_prop. revert b Hb. apply (all_bytes (fun b => eqb _ _)). vm_compute. reflexivity.
Qed.

Lemma takes_rexw_land b : 0 <= b < 256 ->
  Format.takes_rexw b = negb ((b =? 0xF2) || ((b =? 0xF3) || ((b =? 0x66) || false))) && negb (Z.land b 0x48 =? 0).
Proof. intros Hb. unfold Format.takes_rexw. by rewrite rexw_bits. Qed.

(** ** Bytes in memory *)
Lemma at_nil m p : at_ m p [].
Proof. intros i b H. by rewrite lookup_nil in H. Qed.

Lemma at_cons m p b l : at_ m p (b :: l) <-> m !! p = Some b /\ at_ m (p + 1) l.
Proof.
  split.
  - intros H. split; [specialize (H 0%nat b eq_refl); by replace (p + Z.of_nat 0) with p in H by lia|].
    intros i c Hi. specialize (H (S i) c Hi). by replace (p + 1 + Z.of_nat i) with (p + Z.of_nat (S i)) by lia.
  - intros [H1 H2] [|i] c Hi; cbn in Hi; [simplify_eq; by replace (p + Z.of_nat 0) with p by lia|].
    replace (p + Z.of_nat (S i)) with (p + 1 + Z.of_nat i) by lia. by apply H2.
Qed.

Lemma at_app m p l l' : at_ m p (l ++ l') <-> at_ m p l /\ at_ m (p + Z.of_nat (length l)) l'.
Proof.
  revert p. induction l as [|b l IH]; intros p; cbn [app length].
  - replace (p + Z.of_nat 0) with p by lia. split; [split; [apply at_nil|done]|by intros [_ ?]].
  - rewrite !at_cons, IH. replace (p + 1 + Z.of_nat (length l)) with (p + Z.of_nat (S (length l))) by lia. tauto.
Qed.

Lemma at_range m p l b : code_ok m -> at_ m p l -> b ∈ l -> 0 <= b < 256.
Proof. intros [Hm _] H [i Hi]%list_elem_of_lookup. exact (Hm _ _ (H _ _ Hi)). Qed.

(** A run of addresses is no longer than the memory. *)
Lemma at_size m p l : at_ m p l -> (length l <= size m)%nat.
Proof.
  intros H. assert (length l = size (list_to_set (C := gset Z) (seqZ p (Z.of_nat (length l))))) as ->.
  { rewrite size_list_to_set, length_seqZ by apply NoDup_seqZ. lia. }
  rewrite <- (size_dom m). apply subseteq_size. intros a Ha. rewrite elem_of_list_to_set, elem_of_seqZ in Ha. apply elem_of_dom.
  destruct (lookup_lt_is_Some_2 l (Z.to_nat (a - p))) as [b Hb]; [lia|]. exists b.
  specialize (H _ _ Hb). by replace (p + Z.of_nat (Z.to_nat (a - p))) with a in H by lia.
Qed.

(** ** Prefixes *)
Section Prefixes.
Context (x64 od ad : bool).

(** The object after the prefixes [pre]. *)
Definition after (pre : list Z) : MD :=
  let M := Format.mode x64 od ad pre in
  mkMD IT_UNKNOWN 0 false false (Format.op32 M) od (Format.addr32 M) ad x64 (Format.op64 M)
    (Format.f2 M) (Format.f3 M) (Format.p66 M).

Lemma has_snoc a pre b : Format.has a (pre ++ [b]) = Format.has a pre || (a =? b).
Proof. unfold Format.has. rewrite existsb_app. cbn. by rewrite orb_false_r. Qed.

Lemma after_step pre b (d := after pre) : 0 <= b < 256 ->
  Md.prefix_flags b (if b =? 0x66 then Md.set_op32 (negb od) d else if b =? 0x67 then Md.set_addr32 (negb ad) d else d)
  = after (pre ++ [b]).
Proof.
  intros Hb. subst d. unfold after, Format.mode. rewrite !has_snoc, existsb_app. unfold Md.prefix_flags.
  cbn [existsb]. rewrite takes_rexw_land by done. rewrite !(Z.eqb_sym _ b), !orb_false_r.
  destruct (Z.eqb_spec b 0x66) as [->|]; [cbn; rewrite ?orb_true_r, ?orb_false_r; done|].
  destruct (Z.eqb_spec b 0x67) as [->|]; [cbn; rewrite ?orb_true_r, ?orb_false_r; by destruct x64|].
  destruct (Z.eqb_spec b 0xF2) as [->|]; [cbn; rewrite ?orb_true_r, ?orb_false_r; done|].
  destruct (Z.eqb_spec b 0xF3) as [->|]; [cbn; rewrite ?orb_true_r, ?orb_false_r; done|].
  cbn. rewrite ?orb_false_r. destruct x64; cbn; [|done]. destruct (Z.land b 72 =? 0); cbn; by rewrite ?orb_true_r, ?orb_false_r.
Qed.

Lemma ProcessPrefixes_prefix n m p sz pre b : code_ok m -> m !! p = Some b -> Format.is_prefix x64 b = true ->
  exists t, t <> IT_UNKNOWN /\ Md.ProcessPrefixes x64 (S n) m p sz (after pre) =
    ('(_, size, d) ← Md.ProcessPrefixes x64 n m (p + 1) (u32 (sz + 1)) (after (pre ++ [b])); Ret (t, size, d)).
Proof.
  intros Hm Hb Hpre. pose proof (proj1 Hm _ _ Hb) as Hr. cbn [Md.ProcessPrefixes]. unfold rd. rewrite Hb. obind.
  destruct (first_entry_ok x64 b Hr) as (o & -> & Ht & H66 & H67). obind. rewrite Hpre in Ht.
  rewrite <- after_step by done. exists (type_ o).
  destruct (type_ o) eqn:Eo; try discriminate Ht; (split; [done|]).
  - destruct (Z.eqb_spec b 0x66); [naive_solver|]. destruct (Z.eqb_spec b 0x67); naive_solver.
  - rewrite (proj1 H67 eq_refl). done.
  - rewrite (proj1 H66 eq_refl). done.
Qed.

Lemma ProcessPrefixes_stop n m p sz d b : code_ok m -> m !! p = Some b -> Format.is_prefix x64 b = false ->
  Md.ProcessPrefixes x64 (S n) m p sz d = Ret (IT_GENERIC, sz, d).
Proof.
  intros Hm Hb Hpre. pose proof (proj1 Hm _ _ Hb) as Hr. cbn [Md.ProcessPrefixes]. unfold rd. rewrite Hb. obind.
  destruct (first_entry_ok x64 b Hr) as (o & -> & Ht & _). obind. rewrite Hpre in Ht.
  by destruct (type_ o).
Qed.

(** Prefixes up to a byte that is not one are all taken. *)
Lemma ProcessPrefixes_run m p sz pre done b n : code_ok m -> at_ m p (pre ++ [b]) ->
  Forall (fun b => Format.is_prefix x64 b = true) pre -> Format.is_prefix x64 b = false -> (length pre < n)%nat ->
  0 <= sz -> sz + Z.of_nat (length pre) < 2 ^ 32 ->
  exists t, t <> IT_UNKNOWN /\
    Md.ProcessPrefixes x64 n m p sz (after done) = Ret (t, sz + Z.of_nat (length pre), after (done ++ pre)).
Proof.
  intros Hm. revert p sz done n. induction pre as [|c pre IH]; intros p sz dn [|n] Hat Hf Hb Hn H0 Hsz; cbn [length] in *; try lia.
  - apply at_cons in Hat as [Hp _]. exists IT_GENERIC. rewrite (ProcessPrefixes_stop n m p sz _ b), app_nil_r by done.
    split; [done|]. do 2 f_equal. f_equal. lia.
  - cbn [app] in Hat. apply at_cons in Hat as [Hp Hat]. apply Forall_cons in Hf as [Hc Hf].
    destruct (ProcessPrefixes_prefix n m p sz dn c) as (t & Ht & ->); [done..|]. rewrite u32_small by lia.
    destruct (IH (p + 1) (sz + 1) (dn ++ [c]) n) as (t' & _ & ->); [done..|lia|lia|lia|]. obind.
    exists t. split; [done|]. rewrite <- app_assoc. cbn. do 2 f_equal. f_equal. lia.
Qed.

(** The bytes at an address are prefixes up to another byte, or up to the end
    of memory. *)
Lemma prefixes_end m p : (exists pre b, at_ m p (pre ++ [b]) /\ Forall (fun b => Format.is_prefix x64 b = true) pre /\
    Format.is_prefix x64 b = false) \/
  (exists pre, at_ m p pre /\ Forall (fun b => Format.is_prefix x64 b = true) pre /\ m !! (p + Z.of_nat (length pre)) = None).
Proof.
  assert (forall n p, (exists pre b, at_ m p (pre ++ [b]) /\ Forall (fun b => Format.is_prefix x64 b = true) pre /\
    Format.is_prefix x64 b = false) \/
    (exists pre, at_ m p pre /\ Forall (fun b => Format.is_prefix x64 b = true) pre /\ m !! (p + Z.of_nat (length pre)) = None) \/
    (exists pre, at_ m p pre /\ length pre = n)) as H.
  { induction n as [|n IH]; intros q; [right; right; exists []; split; [apply at_nil|done]|].
    destruct (m !! q) as [b|] eqn:Hb.
    2: { right. left. exists []. split; [apply at_nil|]. split; [constructor|]. by replace (q + Z.of_nat (length (@nil Z))) with q by (cbn; lia). }
    destruct (Format.is_prefix x64 b) eqn:Hp.
    2: { left. exists [], b. cbn. rewrite at_cons. split_and!; [done|apply at_nil|constructor|done]. }
    destruct (IH (q + 1)) as [(pre & c & ? & ? & ?)|[(pre & ? & ? & Hn)|(pre & ? & <-)]].
    - left. exists (b :: pre), c. cbn. rewrite at_cons. auto.
    - right. left. exists (b :: pre). rewrite at_cons. split_and!; [done..|by constructor|]. cbn [length].
      by replace (q + Z.of_nat (S (length pre))) with (q + 1 + Z.of_nat (length pre)) by lia.
    - right. right. exists (b :: pre). by rewrite at_cons. }
  destruct (H (S (size m)) p) as [?|[?|(pre & Hat & Hl)]]; [auto..|]. apply at_size in Hat. lia.
Qed.

Lemma ProcessPrefixes_fault m p sz pre dn n : code_ok m -> at_ m p pre ->
  Forall (fun b => Format.is_prefix x64 b = true) pre -> m !! (p + Z.of_nat (length pre)) = None -> (length pre < n)%nat ->
  Md.ProcessPrefixes x64 n m p sz (after dn) = Fault Undefined.
Proof.
  intros Hm. revert p sz dn n. induction pre as [|c pre IH]; intros p sz dn [|n] Hat Hf Hn Hl; cbn [length] in *; try lia.
  - cbn [Md.ProcessPrefixes]. unfold rd. replace (p + Z.of_nat 0) with p in Hn by lia. by rewrite Hn.
  - apply at_cons in Hat as [Hp Hat]. apply Forall_cons in Hf as [Hc Hf].
    destruct (ProcessPrefixes_prefix n m p sz dn c) as (t & Ht & ->); [done..|].
    rewrite IH; [done..| |lia]. by replace (p + 1 + Z.of_nat (length pre)) with (p + Z.of_nat (S (length pre))) by lia.
Qed.
End Prefixes.

(** ** Opcodes *)

(** The tables hold an entry for every byte within their limits, and
    references nest at most [n] deep. *)
Fixpoint table_ok (x64 : bool) (n : nat) (i : Z) : bool :=
  match n with
  | O => false
  | S n =>
      match s_ia32_opcode_map_ x64 !! Z.to_nat i with
      | None => false
      | Some T => bool_decide (0 <= shift_ T) && ((mask_ T =? 0xff) || (mask_ T =? 0x07)) &&
          forallb (fun k => if bool_decide (min_lim_ T <= k <= max_lim_ T) then
              match table_ T !! Z.to_nat k with
              | None => false
              | Some o => match type_ o with IT_REFERENCE => table_ok x64 n (table_index_ o) | _ => true end
              end else true) (seqZ 0 256)
      end
  end.

Lemma tables_ok x64 : table_ok x64 Md.opcode_fuel 0 = true.
Proof. destruct x64; vm_compute; reflexivity. Qed.

Lemma table_index T b : 0 <= b < 256 -> 0 <= shift_ T -> mask_ T = 0xff \/ mask_ T = 0x07 ->
  Z.land (u8 (Z.shiftr b (shift_ T))) (mask_ T) = (b / 2 ^ shift_ T) mod (mask_ T + 1) /\
  0 <= (b / 2 ^ shift_ T) mod (mask_ T + 1) < 256.
Proof.
  intros Hb Hs HT. rewrite shiftr_div by done.
  assert (0 <= b / 2 ^ shift_ T < 256).
  { split; [apply Z.div_pos; lia|]. apply Z.div_lt_upper_bound; [lia|].
    assert (1 <= 2 ^ shift_ T) by (apply (Z.pow_le_mono_r 2 0); lia). nia. }
  unfold u8. rewrite (Z.mod_small (b / _) (2 ^ 8)) by lia.
  destruct HT as [-> | ->].
  - change 0xff with (2 ^ 8 - 1). rewrite land_ones_mod by lia. change (2 ^ 8 - 1 + 1) with (2 ^ 8). split; [done|]. apply Z.mod_pos_bound. lia.
  - change 0x07 with (2 ^ 3 - 1). rewrite land_ones_mod by lia. change (2 ^ 3 - 1 + 1) with (2 ^ 3). split; [done|].
    pose proof (Z.mod_pos_bound (b / 2 ^ shift_ T) (2 ^ 3)). lia.
Qed.

(** One step into the tables, in the terms of the format. *)
Lemma ProcessOpcode_step x64 n m p i sz d b : code_ok m -> table_ok x64 (S n) i = true -> m !! p = Some b ->
  match Format.entry x64 i b with
  | Some (T, o) =>
      (mask_ T = 0xff \/ mask_ T = 0x07) /\
      (type_ o = IT_REFERENCE -> table_ok x64 n (table_index_ o) = true) /\
      Md.ProcessOpcode x64 (S n) m p i sz d =
        match type_ o with
        | IT_UNUSED => Ret (IT_UNUSED, sz, Md.set_type IT_UNUSED d)
        | IT_REFERENCE => '(_, size, d) ← Md.ProcessOpcode x64 n m (p + 1) (table_index_ o) (u32 (sz + 1)) d; Ret (instruction_type_ d, size, d)
        | _ => Md.process_operands m p sz T o d
        end
  | None => Md.ProcessOpcode x64 (S n) m p i sz d = Ret (IT_UNKNOWN, sz, Md.set_type IT_UNKNOWN d)
  end.
Proof.
  intros Hm Hok Hb. pose proof (proj1 Hm _ _ Hb) as Hr. cbn [table_ok] in Hok. unfold Format.entry. cbn [Md.ProcessOpcode].
  destruct (s_ia32_opcode_map_ x64 !! Z.to_nat i) as [T|]; [|done]. cbn [mbind option_bind]. obind.
  unfold rd. rewrite Hb. obind.
  apply andb_true_iff in Hok as [Hok Hall]. apply andb_true_iff in Hok as [Hs%bool_decide_eq_true HT].
  rewrite orb_true_iff, !Z.eqb_eq in HT. destruct (table_index T b Hr Hs HT) as [-> Hk].
  pose proof (all_bytes _ Hall _ Hk) as Hent. cbn beta in Hent. case_bool_decide as Hlim.
  - destruct (table_ T !! Z.to_nat _) as [o|]; [|done]. cbn [mbind option_bind]. split; [done|].
    split; [intros Ho; by rewrite Ho in Hent|].
    destruct (Z.ltb_spec ((b / 2 ^ shift_ T) mod (mask_ T + 1)) (min_lim_ T)); [lia|].
    destruct (Z.ltb_spec (max_lim_ T) ((b / 2 ^ shift_ T) mod (mask_ T + 1))); [lia|]. done.
  - destruct (Z.ltb_spec ((b / 2 ^ shift_ T) mod (mask_ T + 1)) (min_lim_ T)); [done|].
    destruct (Z.ltb_spec (max_lim_ T) ((b / 2 ^ shift_ T) mod (mask_ T + 1))); [done|]. lia.
Qed.

(** ** Operands *)
Lemma land_byte f k : 0 <= k -> Z.land f (255 * 2 ^ k) = (f / 2 ^ k) mod 2 ^ 8 * 2 ^ k.
Proof.
  intros Hk. rewrite <- (land_ones_mod (f / 2 ^ k) 8), <- !shiftr_div, <- !shiftl_mul by lia. change (2 ^ 8 - 1) with (Z.ones 8). change 255 with (Z.ones 8).
  apply Z.bits_inj'. intros n Hn. rewrite Z.land_spec, !Z.shiftl_spec by lia.
  destruct (Z.lt_ge_cases n k); [rewrite !(Z.testbit_neg_r _ (n - k)) by lia; by rewrite andb_false_r|].
  rewrite Z.land_spec, Z.shiftr_spec by lia. do 2 f_equal. lia.
Qed.

Lemma am_mask f : Z.land f AM_MASK = Format.method f * 2 ^ 16.
Proof. exact (land_byte f 16 ltac:(lia)). Qed.
Lemma ot_mask f : Z.land f OT_MASK = Format.type_of f * 2 ^ 24.
Proof. exact (land_byte f 24 ltac:(lia)). Qed.

Lemma case_has v l k : 0 < k -> Md.case (v * k) (map (fun x => x * k) l) = Format.has v l.
Proof.
  intros Hk. unfold Md.case, Format.has. induction l as [|x l IH]; cbn; [done|]. rewrite IH. f_equal.
  destruct (Z.eqb_spec (v * k) (x * k)), (Z.eqb_spec v x); nia.
Qed.

Lemma case_am f ls l : ls = map (fun x => x * 2 ^ 16) l -> Md.case (Format.method f * 2 ^ 16) ls = Format.has (Format.method f) l.
Proof. intros ->. apply case_has. lia. Qed.

Lemma type_eqb v c : (v * 2 ^ 24 =? c * 2 ^ 24) = (v =? c).
Proof. destruct (Z.eqb_spec (v * 2 ^ 24) (c * 2 ^ 24)), (Z.eqb_spec v c); lia. Qed.

Lemma has_in v l : Format.has v l = true <-> v ∈ l.
Proof.
  unfold Format.has. rewrite existsb_exists. setoid_rewrite Z.eqb_eq. setoid_rewrite <- list_elem_of_In. naive_solver.
Qed.

Section Operands.
Context (x64 od ad : bool).

(** The object once [k] operand bytes and the need for a ModR/M byte are
    known. *)
Definition state (pre : list Z) (t : InstructionType) (k : Z) (h s : bool) : MD :=
  let M := Format.mode x64 od ad pre in
  mkMD t k h s (Format.op32 M) od (Format.addr32 M) ad x64 (Format.op64 M) (Format.f2 M) (Format.f3 M) (Format.p66 M).

Lemma immediate_bytes_ok pre t k h s f (M := Format.mode x64 od ad pre) : 0 <= k < 2 ^ 32 -> Format.has (Format.method f) [7; 8; 10] = true ->
  (Md.immediate_bytes f (state pre t k h s)).2 = state pre t (u32 (k + Format.immediate M f)) h s.
Proof.
  intros Hk Hm. unfold Format.immediate. rewrite Hm.
  assert (negb (Z.land f AM_I =? 0) = negb (Format.method f =? 8)) as EI.
  { assert (Z.land f AM_I = Z.land (Format.method f * 2 ^ 16) AM_I) as ->.
    { rewrite <- am_mask, <- Z.land_assoc. done. }
    apply has_in in Hm. rewrite !elem_of_cons, elem_of_nil in Hm. by destruct Hm as [-> | [-> | [-> | []]]]. }
  assert (negb (Z.land f IOS_64 =? 0) = Z.testbit f 12) as E64.
  { change IOS_64 with (2 ^ 12). destruct (Z.testbit f 12) eqn:Et.
    - destruct (Z.eqb_spec (Z.land f (2 ^ 12)) 0) as [E|]; [|done]. exfalso.
      assert (Z.testbit (Z.land f (2 ^ 12)) 12 = true) by (rewrite Z.land_spec, Et; done). by rewrite E in *.
    - destruct (Z.eqb_spec (Z.land f (2 ^ 12)) 0) as [|E]; [done|]. exfalso. apply E.
      apply Z.bits_inj'. intros n Hn. rewrite Z.land_spec, Z.bits_0, Z.pow2_bits_eqb by lia.
      destruct (Z.eqb_spec 12 n) as [<-|]; [by rewrite Et|apply andb_false_r]. }
  unfold Md.immediate_bytes. rewrite EI, E64, ot_mask.
  change OT_B with (2 * 2 ^ 24). change OT_C with (3 * 2 ^ 24). change OT_D with (4 * 2 ^ 24). change OT_DQ with (5 * 2 ^ 24).
  change OT_PS with (8 * 2 ^ 24). change OT_P with (6 * 2 ^ 24). change OT_Q with (9 * 2 ^ 24). change OT_SD with (15 * 2 ^ 24).
  change OT_SS with (11 * 2 ^ 24). change OT_S with (10 * 2 ^ 24). change OT_PD with (16 * 2 ^ 24). change OT_V with (13 * 2 ^ 24).
  change OT_W with (14 * 2 ^ 24). rewrite !(type_eqb (Format.type_of f)).
  assert (u32 (k + 0) = k) as E0 by (rewrite Z.add_0_r; by apply u32_small).
  assert (state pre t k h s = state pre t (u32 (k + 0)) h s) as Es by (by rewrite E0).
  generalize (Format.type_of f). intros a. clear Hm EI E64.
  destruct a as [|a|a]; [exact Es| |exact Es].
  do 5 (try destruct a as [a|a|]); cbn; try reflexivity; try exact Es.
Qed.

Lemma ProcessOperand_ok pre t k h s f (M := Format.mode x64 od ad pre) : 0 <= k < 2 ^ 32 ->
  (Md.ProcessOperand f (state pre t k h s)).2 =
  state pre t (u32 (k + Format.immediate M f)) (h || Format.needs_modrm f) (s || Format.in_memory f).
Proof.
  intros Hk. unfold Md.ProcessOperand. destruct (Z.eqb_spec f AM_NOT_USED) as [->|_].
  { cbn. by rewrite Z.add_0_r, u32_small, !orb_false_r. }
  rewrite am_mask, (case_am f [AM_A; AM_F; AM_X; AM_Y; AM_IMPLICIT] [1; 5; 18; 19; 21] eq_refl),
    (case_am f [AM_C; AM_D; AM_G; AM_P; AM_R; AM_S; AM_T; AM_V] [2; 3; 6; 11; 13; 14; 15; 16] eq_refl),
    (case_am f [AM_E; AM_M; AM_Q; AM_W] [4; 9; 12; 17] eq_refl), (case_am f [AM_I; AM_J; AM_O] [7; 8; 10] eq_refl).
  assert (forall l, Format.has (Format.method f) l = true -> Format.method f ∈ l) as Hin by (intros l; apply has_in).
  unfold Format.needs_modrm, Format.in_reg, Format.in_memory.
  assert (Format.has (Format.method f) [7; 8; 10] = false -> u32 (k + Format.immediate M f) = k) as Hno.
  { intros E. unfold Format.immediate. by rewrite E, Z.add_0_r, u32_small. }
  destruct (Format.has (Format.method f) [1; 5; 18; 19; 21]) eqn:E1.
  { apply Hin in E1. rewrite !elem_of_cons, elem_of_nil in E1. revert Hno.
    destruct E1 as [-> | [-> | [-> | [-> | [-> | []]]]]]; intros Hno; cbn in *; by rewrite (Hno eq_refl), !orb_false_r. }
  destruct (Format.has (Format.method f) [2; 3; 6; 11; 13; 14; 15; 16]) eqn:E2.
  { apply Hin in E2. rewrite !elem_of_cons, elem_of_nil in E2. revert Hno.
    destruct E2 as [-> | [-> | [-> | [-> | [-> | [-> | [-> | [-> | []]]]]]]]]; intros Hno; cbn in *;
      by rewrite (Hno eq_refl), orb_true_r, orb_false_r. }
  destruct (Format.has (Format.method f) [4; 9; 12; 17]) eqn:E3.
  { apply Hin in E3. rewrite !elem_of_cons, elem_of_nil in E3. revert Hno.
    destruct E3 as [-> | [-> | [-> | [-> | []]]]]; intros Hno; cbn in *; by rewrite (Hno eq_refl), !orb_true_r. }
  rewrite !orb_false_r. destruct (Format.has (Format.method f) [7; 8; 10]) eqn:E4; [by apply immediate_bytes_ok|].
  by rewrite Hno.
Qed.

Lemma variant_ok pre t k h s o : Md.specific_opcode o (state pre t k h s) = Format.variant (Format.mode x64 od ad pre) o.
Proof.
  unfold Md.specific_opcode, Format.variant. cbn.
  assert (forall so, bool_decide (sp_mnemonic_ so <> None) = bool_decide (is_Some (sp_mnemonic_ so))) as E.
  { intros so. apply bool_decide_ext, not_eq_None_Some. }
  rewrite !E. by destruct (is_prefix_dependent_ o).
Qed.

Lemma immediate_range M f : 0 <= Format.immediate M f <= 16.
Proof.
  unfold Format.immediate. destruct (Format.has _ _); [|lia]. generalize (Format.type_of f). intros a.
  destruct a as [|a|a]; [lia| |lia]. do 5 (try destruct a as [a|a|]); cbn; repeat case_match; lia.
Qed.

(** The tables of ModR/M bytes say what the manual says, SIB bytes apart. *)
Definition modrm_sum (b : Z) : bool :=
  let k := Z.to_nat (Z.lor (Z.shiftr (Z.land b 0xC0) 3) (Z.land b 0x07)) in
  let M a := Format.mkMode true a false false false false in
  let says a e := bool_decide (use_sib_byte_ e = Format.needs_sib (M a) b) &&
    bool_decide ((if is_encoded_in_instruction_ e then operand_size_ e else 0) = Format.displacement (M a) b None) in
  match s_ia32_modrm_map_ !! k, s_ia16_modrm_map_ !! k with
  | Some e, Some e' => says true e && says false e' && bool_decide (Z.shiftr (Z.shiftr (Z.land b 0xC0) 3) 3 = Format.mod_of b)
  | _, _ => false
  end.

Lemma modrm_entry M b : 0 <= b < 256 -> exists e,
  (if Format.addr32 M then s_ia32_modrm_map_ else s_ia16_modrm_map_) !!
    Z.to_nat (Z.lor (Z.shiftr (Z.land b 0xC0) 3) (Z.land b 0x07)) = Some e /\
  use_sib_byte_ e = Format.needs_sib M b /\
  (if is_encoded_in_instruction_ e then operand_size_ e else 0) = Format.displacement M b None /\
  Z.shiftr (Z.shiftr (Z.land b 0xC0) 3) 3 = Format.mod_of b.
Proof.
  intros Hb. assert (modrm_sum b = true) as H by (revert b Hb; apply all_bytes; vm_compute; reflexivity).
  revert H. unfold modrm_sum. generalize (Z.to_nat (Z.lor (Z.shiftr (Z.land b 0xC0) 3) (Z.land b 0x07))). intros k.
  destruct (s_ia32_modrm_map_ !! k) as [e|] eqn:E1, (s_ia16_modrm_map_ !! k) as [e'|] eqn:E2; try done.
  rewrite !andb_true_iff, !bool_decide_eq_true. intros [[[H1 H2] [H3 H4]] H5].
  destruct M as [? [] ? ? ? ?]; cbn [Format.addr32]; eauto.
Qed.

Lemma counted_sib M b s : 0 <= b < 256 -> Format.needs_sib M b = true ->
  Format.counted M b (Some s) = Format.displacement M b None +
    (if s mod 8 =? 5 then if (Format.mod_of b =? 0) || (Format.mod_of b =? 2) then 4 else 1 else 0).
Proof.
  intros Hb. assert (0 <= Format.mod_of b <= 3) by (unfold Format.mod_of; zdiv).
  unfold Format.needs_sib, Format.counted, Format.displacement. rewrite !andb_true_iff, negb_true_iff, Z.eqb_eq, Z.eqb_neq.
  intros [[-> H3] H4]. cbn [mbind option_bind]. rewrite H4.
  assert (Format.mod_of b = 0 \/ Format.mod_of b = 1 \/ Format.mod_of b = 2) as [-> | [-> | ->]] by lia;
    (destruct (Z.eqb_spec (s mod 8) 5) as [E|E]; [by rewrite E|]);
    rewrite !bool_decide_eq_false_2 by (intros H'; destruct H'; congruence); done.
Qed.

Lemma ProcessModrm_ok m q sz pre t k h b (M := Format.mode x64 od ad pre) : code_ok m -> 0 <= k -> k + 8 < 2 ^ 32 -> m !! q = Some b ->
  Md.ProcessModrm m q sz (state pre t k h true) =
  if Format.needs_sib M b then
    s ← rd m (q + 1); Ret (true, u32 (u32 (sz + 1) + 1), state pre t (k + Format.counted M b (Some s)) h true)
  else Ret (true, u32 (sz + 1), state pre t (k + Format.counted M b None) h true).
Proof.
  intros Hm Hk Hk' Hb. pose proof (proj1 Hm _ _ Hb) as Hr. unfold Md.ProcessModrm. cbn [should_decode_modrm_ state negb].
  unfold rd at 1. rewrite Hb. obind. change (address_is_32_bits_ (state pre t k h true)) with (Format.addr32 M).
  destruct (modrm_entry M b Hr) as (e & -> & Hs & Hd & Hmod). obind. rewrite Hs, Hmod.
  assert (0 <= Format.displacement M b None <= 4) as HD by (unfold Format.displacement; repeat case_match; lia).
  assert ((if is_encoded_in_instruction_ e then Md.add_bytes (operand_size_ e) (state pre t k h true) else state pre t k h true)
    = state pre t (k + Format.displacement M b None) h true) as ->.
  { rewrite <- Hd in *. destruct (is_encoded_in_instruction_ e); cbn; [|by rewrite Z.add_0_r]. by rewrite u32_small by lia. }
  destruct (Format.needs_sib M b) eqn:Es.
  - unfold Md.ProcessSib. destruct (rd m (q + 1)) as [s|] eqn:Es'; obind; [|done]. rewrite counted_sib by done.
    change 0x07 with (2 ^ 3 - 1). rewrite land_ones_mod by lia. change (2 ^ 3) with 8. rewrite (Z.eqb_sym 5).
    assert (0 <= Format.mod_of b <= 2).
    { unfold Format.needs_sib in Es. rewrite !andb_true_iff, negb_true_iff, Z.eqb_neq in Es. unfold Format.mod_of in *. zdiv. }
    do 2 f_equal. destruct (s mod 8 =? 5); [|by rewrite Z.add_0_r]. rewrite Z.add_assoc.
    destruct (Z.eqb_spec (Format.mod_of b) 0), (Z.eqb_spec (Format.mod_of b) 2), (Z.eqb_spec (Format.mod_of b) 1); cbn; try lia;
      by rewrite u32_small by (unfold OS_DOUBLE_WORD, OS_BYTE; lia).
  - assert (Format.counted M b None = Format.displacement M b None) as ->; [|done].
    unfold Format.counted. case_bool_decide; [naive_solver|lia].
Qed.

Lemma operands_ok pre so (M := Format.mode x64 od ad pre) (d := state pre (sp_type_ so) 0 false false) :
  (Md.ProcessOperand (sp_flag_aux_ so) (Md.ProcessOperand (sp_flag_source_ so) (Md.ProcessOperand (sp_flag_dest_ so) d).2).2).2 =
  state pre (sp_type_ so) (Format.immediates M (Format.flags so)) (existsb Format.needs_modrm (Format.flags so))
    (existsb Format.in_memory (Format.flags so)) /\ 0 <= Format.immediates M (Format.flags so) <= 48.
Proof.
  unfold Format.flags, Format.immediates. cbn [foldr existsb].
  pose proof (immediate_range M (sp_flag_dest_ so)). pose proof (immediate_range M (sp_flag_source_ so)).
  pose proof (immediate_range M (sp_flag_aux_ so)). split; [|lia]. subst d.
  rewrite ProcessOperand_ok by lia. fold M. rewrite u32_small by lia.
  rewrite ProcessOperand_ok by lia. fold M. rewrite u32_small by lia.
  rewrite ProcessOperand_ok by lia. fold M. rewrite u32_small by lia.
  rewrite !orb_false_l, !orb_false_r, !orb_assoc, !Z.add_assoc, Z.add_0_r. done.
Qed.

Lemma process_operands_eq m p sz T o pre (M := Format.mode x64 od ad pre) (so := Format.variant M o) (fs := Format.flags so)
    (n := if mask_ T =? 0xff then 1 else 0) :
  Md.process_operands m p sz T o (after x64 od ad pre) =
  let d := state pre (sp_type_ so) (Format.immediates M fs) (existsb Format.needs_modrm fs) (existsb Format.in_memory fs) in
  if existsb Format.needs_modrm fs then
    '(_, size, d) ← Md.ProcessModrm m (p + n) (if mask_ T =? 0xff then u32 (sz + 1) else sz) d; Ret (IT_GENERIC, size, d)
  else Ret (IT_GENERIC, u32 (sz + 1), d).
Proof.
  unfold Md.process_operands. change (after x64 od ad pre) with (state pre IT_UNKNOWN 0 false false). rewrite variant_ok. fold M. fold so.
  change (Md.set_type (sp_type_ so) (state pre IT_UNKNOWN 0 false false)) with (state pre (sp_type_ so) 0 false false).
  rewrite (proj1 (operands_ok pre so)). cbn [have_modrm_ state]. fold M. fold fs. subst n.
  destruct (mask_ T =? 0xff); cbn [negb]; [done|]. by rewrite Z.add_0_r.
Qed.

(** Forward: the bytes of the format are processed. *)
Lemma process_operands_run m p sz T o pre b op mr k (M := Format.mode x64 od ad pre) (so := Format.variant M o) (fs := Format.flags so) :
  code_ok m -> 0 <= sz < 2 ^ 31 -> Format.tail_ok Format.counted M fs T b op mr k -> at_ m p (op ++ mr) ->
  Md.process_operands m p sz T o (after x64 od ad pre) =
  Ret (IT_GENERIC, sz + Z.of_nat (length (op ++ mr)),
       state pre (sp_type_ so) (k + Format.immediates M fs) (existsb Format.needs_modrm fs) (existsb Format.in_memory fs)).
Proof.
  intros Hm Hsz [Hop Hmr] Hat. rewrite process_operands_eq. fold M. fold so. fold fs. cbn zeta.
  pose proof (proj2 (operands_ok pre so)) as Hi. fold M in Hi. fold fs in Hi.
  destruct (existsb Format.needs_modrm fs) eqn:En.
  - assert (at_ m (p + (if mask_ T =? 0xff then 1 else 0)) mr /\ length op = if mask_ T =? 0xff then 1%nat else 0%nat) as [Hq Hl].
    { apply at_app in Hat as [_ Hat]. destruct (mask_ T =? 0xff).
      - by subst op.
      - by destruct Hop as [-> _]. }
    rewrite length_app, Hl. destruct Hmr as [c Ed|c Ed Es|c s Ed Es]; rewrite Ed in *.
    + unfold Md.ProcessModrm. cbn. destruct (mask_ T =? 0xff); rewrite ?u32_small by (rewrite ?u32_small; lia); do 2 f_equal; f_equal; lia.
    + apply at_cons in Hq as [Hc _]. rewrite (ProcessModrm_ok _ _ _ _ _ _ _ c) by (done || lia). fold M. rewrite Es. obind. cbn [length].
      rewrite (Z.add_comm (Format.immediates M fs)).
      destruct (mask_ T =? 0xff); rewrite ?u32_small by (rewrite ?u32_small; lia); do 2 f_equal; f_equal; lia.
    + apply at_cons in Hq as [Hc [Hs _]%at_cons]. rewrite (ProcessModrm_ok _ _ _ _ _ _ _ c) by (done || lia). fold M. rewrite Es.
      unfold rd. rewrite Hs. obind. cbn [length]. rewrite (Z.add_comm (Format.immediates M fs)).
      destruct (mask_ T =? 0xff); rewrite (u32_small (sz + 1)), (u32_small (sz + 1 + 1)), ?(u32_small (sz + 1 + 1 + 1)) by lia;
        do 2 f_equal; f_equal; lia.
  - destruct Hmr as [-> ->]. rewrite u32_small by lia. rewrite Z.add_0_l. do 2 f_equal. f_equal.
    destruct (mask_ T =? 0xff); [subst op|destruct Hop as [-> _]]; cbn; lia.
Qed.

(** The first [j] bytes at [p] are readable and the next one is not. *)
Definition ends_at (m : code) (p : Z) (j : nat) : Prop :=
  m !! (p + Z.of_nat j) = None /\ forall j', (j' < j)%nat -> is_Some (m !! (p + Z.of_nat j')).

Lemma ends_at_S m p b j : m !! p = Some b -> ends_at m (p + 1) j -> ends_at m p (S j).
Proof.
  intros Hb [Hn Hj]. split; [by replace (p + Z.of_nat (S j)) with (p + 1 + Z.of_nat j) by lia|].
  intros [|j'] Hlt; [replace (p + Z.of_nat 0) with p by lia; eauto|].
  replace (p + Z.of_nat (S j')) with (p + 1 + Z.of_nat j') by lia. apply Hj. lia.
Qed.

Lemma ends_at_0 m p : m !! p = None -> ends_at m p 0.
Proof. intros H. split; [by replace (p + Z.of_nat 0) with p by lia|lia]. Qed.

Lemma counted_range M b s : 0 <= Format.counted M b s <= 8.
Proof.
  assert (0 <= Format.displacement M b s <= 4) by (unfold Format.displacement; repeat case_match; lia).
  unfold Format.counted. case_bool_decide; lia.
Qed.

Lemma ProcessModrm_cases m q sz pre t i h fs (M := Format.mode x64 od ad pre) (s := existsb Format.in_memory fs) :
  code_ok m -> 0 <= sz <= 2 ^ 31 -> 0 <= i <= 48 ->
  (exists c k, (1 <= c <= 2)%nat /\ 0 <= k <= 8 /\
    Md.ProcessModrm m q sz (state pre t i h s) = Ret (true, sz + Z.of_nat c, state pre t (k + i) h s) /\
    forall w, length w = c -> at_ m q w -> Format.modrm_ok Format.counted M fs w k) \/
  (Md.ProcessModrm m q sz (state pre t i h s) = Fault Undefined /\ exists j, (j <= 1)%nat /\ ends_at m q j).
Proof.
  intros Hm Hsz Hi. destruct s eqn:Es; subst s.
  2: { left. exists 1%nat, 0. unfold Md.ProcessModrm. cbn. rewrite u32_small by lia. split_and!; [lia..|done|].
       intros [|c [|]] Hw _; try done. by constructor. }
  destruct (m !! q) as [b|] eqn:Hb.
  2: { right. unfold Md.ProcessModrm, rd. cbn. rewrite Hb. split; [done|]. exists 0%nat. split; [lia|by apply ends_at_0]. }
  rewrite (ProcessModrm_ok _ _ _ _ _ _ _ b) by (done || lia). fold M. destruct (Format.needs_sib M b) eqn:En.
  - unfold rd. destruct (m !! (q + 1)) as [s|] eqn:Hs; cbn.
    + left. exists 2%nat, (Format.counted M b (Some s)). rewrite (u32_small (sz + 1)), u32_small, (Z.add_comm i) by lia.
      split_and!; [lia..|apply counted_range|apply counted_range|do 2 f_equal; f_equal; lia|].
      intros [|c [|c' [|]]] Hw Hat; try done. apply at_cons in Hat as [Hc [Hc' _]%at_cons]. simplify_eq. by constructor.
    + right. split; [done|]. exists 1%nat. split; [lia|]. apply (ends_at_S _ _ b); [done|]. by apply ends_at_0.
  - left. exists 1%nat, (Format.counted M b None). rewrite u32_small, (Z.add_comm i) by lia.
    split_and!; [lia..|apply counted_range|apply counted_range|do 2 f_equal; f_equal; lia|].
    intros [|c [|]] Hw Hat; try done. apply at_cons in Hat as [Hc _]. simplify_eq. by constructor.
Qed.

(** Backward: what is processed has the format, whatever the bytes that are
    counted without being read. *)
Lemma process_operands_cases m p sz T o pre b (M := Format.mode x64 od ad pre) (so := Format.variant M o) (fs := Format.flags so) :
  code_ok m -> 0 <= sz < 2 ^ 31 -> m !! p = Some b ->
  (exists c k, (1 <= c <= 3)%nat /\ 0 <= k <= 8 /\ Md.process_operands m p sz T o (after x64 od ad pre) =
    Ret (IT_GENERIC, sz + Z.of_nat c,
         state pre (sp_type_ so) (k + Format.immediates M fs) (existsb Format.needs_modrm fs) (existsb Format.in_memory fs)) /\
    forall w, length w = c -> at_ m p w -> exists op mr, w = op ++ mr /\ Format.tail_ok Format.counted M fs T b op mr k) \/
  (Md.process_operands m p sz T o (after x64 od ad pre) = Fault Undefined /\ exists j, (j <= 2)%nat /\ ends_at m p j).
Proof.
  intros Hm Hsz Hb. rewrite process_operands_eq. fold M. fold so. fold fs. cbn zeta.
  pose proof (proj2 (operands_ok pre so)) as Hi. fold M in Hi. fold fs in Hi. unfold Format.tail_ok.
  destruct (existsb Format.needs_modrm fs) eqn:En.
  2: { left. exists 1%nat, 0. rewrite u32_small by lia. split_and!; [lia..|done|]. intros [|x [|]] Hl Hat; try done.
       apply at_cons in Hat as [Hx _]. simplify_eq. destruct (mask_ T =? 0xff); [by exists [b], []|exists [], [b]]. split; [done|]. split; [|done]. eauto. }
  set (n := if mask_ T =? 0xff then 1 else 0). set (sz' := if mask_ T =? 0xff then u32 (sz + 1) else sz).
  assert (sz' = sz + n /\ 0 <= n <= 1) as [-> Hn] by (unfold sz', n; destruct (mask_ T =? 0xff); rewrite ?u32_small; lia).
  destruct (ProcessModrm_cases m (p + n) (sz + n) pre (sp_type_ so) (Format.immediates M fs) true fs)
    as [(c & k & Hc & Hk & -> & Hall)|[-> (j & Hj & He)]]; [done|lia..| |]; obind; fold M in Hall || idtac; unfold n in *; clear n.
  - left. destruct (mask_ T =? 0xff).
    + exists (S c), k. split_and!; [lia..|do 2 f_equal; f_equal; lia|]. intros [|x w] Hl Hat; [done|]. apply at_cons in Hat as [Hx Hw]. simplify_eq.
      exists [b], w. split; [done|]. split; [done|]. apply Hall; [cbn in Hl; lia|done].
    + exists c, k. split_and!; [lia..|do 2 f_equal; f_equal; lia|]. rewrite Z.add_0_r in Hall. intros w Hl Hat. exists [], w. split; [done|].
      split; [|by apply Hall]. split; [done|]. destruct w as [|x w]; [cbn in Hl; lia|]. apply at_cons in Hat as [Hx _]. simplify_eq. eauto.
  - right. split; [done|]. destruct (mask_ T =? 0xff).
    + exists (S j). split; [lia|]. by apply (ends_at_S _ _ b).
    + rewrite Z.add_0_r in He. exists j. split; [lia|done].
Qed.
End Operands.

(** ** Opcodes through the tables *)
Section Opcodes.
Context (x64 od ad : bool).
Notation mode := (Format.mode x64 od ad).
Notation after := (after x64 od ad).
Notation opcode_at := Format.opcode_at.

(** The object after an instruction: its type and operand bytes. *)
Definition final (pre : list Z) (o : Opcode) (k : Z) : MD :=
  let M := mode pre in let so := Format.variant M o in let fs := Format.flags so in
  state x64 od ad pre (sp_type_ so) (k + Format.immediates M fs) (existsb Format.needs_modrm fs) (existsb Format.in_memory fs).

Lemma tail_head disp M fs T b op mr k : Format.tail_ok disp M fs T b op mr k -> exists w, op ++ mr = b :: w.
Proof.
  intros [Hop _]. destruct (mask_ T =? 0xff); [subst op; eauto|]. destruct Hop as [-> [mr' ->]]. eauto.
Qed.

Lemma ProcessOpcode_run n i esc b T o m p sz pre op mr k : code_ok m -> opcode_at x64 i esc b T o -> table_ok x64 n i = true ->
  Format.tail_ok Format.counted (mode pre) (Format.flags (Format.variant (mode pre) o)) T b op mr k -> at_ m p (esc ++ op ++ mr) ->
  0 <= sz -> sz + Z.of_nat (length esc) < 2 ^ 31 ->
  exists t, Md.ProcessOpcode x64 n m p i sz (after pre) = Ret (t, sz + Z.of_nat (length (esc ++ op ++ mr)), final pre o k).
Proof.
  intros Hm Hat. revert n p sz. induction Hat as [i b T o He Hu Hr|i b T o esc b' T' o' He Hr _ IH];
    intros [|n] p sz Hok Ht Hmem H0 Hsz; try done.
  - destruct (tail_head _ _ _ _ _ _ _ _ Ht) as [w Hw]. pose proof Hmem as Hb. cbn [app] in Hb. rewrite Hw in Hb. apply at_cons in Hb as [Hb _].
    pose proof (ProcessOpcode_step x64 n m p i sz (after pre) b Hm Hok Hb) as Hs. rewrite He in Hs. destruct Hs as (_ & _ & ->).
    cbn [app length] in *. rewrite (process_operands_run x64 od ad m p sz T o pre b op mr k) by (done || lia). unfold final.
    exists IT_GENERIC. by destruct (type_ o).
  - cbn [app] in Hmem. apply at_cons in Hmem as [Hb Hmem].
    pose proof (ProcessOpcode_step x64 n m p i sz (after pre) b Hm Hok Hb) as Hs. rewrite He in Hs. destruct Hs as (_ & Hn & ->).
    cbn [length] in Hsz. rewrite Hr, u32_small by lia.
    destruct (IH n (p + 1) (sz + 1)) as [t ->]; [by apply Hn|done|done|lia|lia|]. obind. eexists. do 2 f_equal. f_equal.
    cbn [app length]. lia.
Qed.

Lemma opcode_depth i esc b T o n : opcode_at x64 i esc b T o -> table_ok x64 n i = true -> (length esc < n)%nat.
Proof.
  intros H. revert n. induction H as [i b T o|i b T o esc b' T' o' He Hr _ IH]; intros [|n] Hok; try done; cbn [length]; [lia|].
  enough (table_ok x64 n (table_index_ o) = true) as H by (specialize (IH _ H); lia).
  cbn [table_ok] in Hok. unfold Format.entry in He. destruct (s_ia32_opcode_map_ x64 !! Z.to_nat i) as [T0|]; [|done].
  cbn [mbind option_bind] in He. destruct (bool_decide (min_lim_ T0 <= (b / 2 ^ shift_ T0) mod (mask_ T0 + 1) <= max_lim_ T0)) eqn:Hk; [|done].
  apply andb_true_iff in Hok as [Hok Hall]. apply andb_true_iff in Hok as [_ HT].
  rewrite orb_true_iff, !Z.eqb_eq in HT.
  pose proof (all_bytes _ Hall ((b / 2 ^ shift_ T0) mod (mask_ T0 + 1))) as Hent. cbn beta in Hent.
  rewrite Hk in Hent. destruct (table_ T0 !! _) as [o1|]; [|done]. cbn in He. simplify_eq. rewrite Hr in Hent.
  apply Hent. pose proof (Z.mod_pos_bound (b / 2 ^ shift_ T) (mask_ T + 1)). lia.
Qed.

(** What [ProcessOpcode] can return. *)
Definition opcode_cases (n : nat) (i : Z) (m : code) (p sz : Z) (pre : list Z) (r : outcome (InstructionType * Z * MD)) : Prop :=
  (exists esc b T o c k t, opcode_at x64 i esc b T o /\ (length esc < n)%nat /\ at_ m p (esc ++ [b]) /\ (1 <= c <= 3)%nat /\ 0 <= k <= 8 /\
     r = Ret (t, sz + Z.of_nat (length esc + c), final pre o k) /\
     forall w, length w = c -> at_ m (p + Z.of_nat (length esc)) w -> exists op mr, w = op ++ mr /\
       Format.tail_ok Format.counted (mode pre) (Format.flags (Format.variant (mode pre) o)) T b op mr k) \/
  (exists t sz' d', r = Ret (t, sz', d') /\ (instruction_type_ d' = IT_UNKNOWN \/ instruction_type_ d' = IT_UNUSED) /\
     operand_default_is_32_bits_ d' = od /\ address_default_is_32_bits_ d' = ad) \/
  (r = Fault Undefined /\ exists j, (j <= n + 1)%nat /\ ends_at m p j).

Lemma ProcessOpcode_cases n i m p sz pre : code_ok m -> table_ok x64 n i = true -> 0 <= sz -> sz + Z.of_nat n < 2 ^ 31 ->
  opcode_cases n i m p sz pre (Md.ProcessOpcode x64 n m p i sz (after pre)).
Proof.
  intros Hm. revert i p sz. induction n as [|n IH]; intros i p sz Hok H0 Hsz; [done|].
  destruct (m !! p) as [b|] eqn:Hb.
  2: { right. right. cbn [Md.ProcessOpcode table_ok] in *. destruct (s_ia32_opcode_map_ x64 !! Z.to_nat i); [|done]. obind.
       unfold rd. rewrite Hb. split; [done|]. exists 0%nat. split; [lia|by apply ends_at_0]. }
  pose proof (ProcessOpcode_step x64 n m p i sz (after pre) b Hm Hok Hb) as Hs.
  destruct (Format.entry x64 i b) as [[T o]|] eqn:He.
  2: { rewrite Hs. right. left. do 3 eexists. split; [done|]. cbn. auto. }
  destruct Hs as (_ & Hn & ->).
  assert (type_ o <> IT_UNUSED -> type_ o <> IT_REFERENCE ->
    opcode_cases (S n) i m p sz pre (Md.process_operands m p sz T o (after pre))) as Hhere.
  { intros Hu Hr. destruct (process_operands_cases x64 od ad m p sz T o pre b) as [(c & k & Hc & Hk & -> & Hall)|[-> (j & Hj & He')]]; [done|lia|done| |].
    - left. exists [], b, T, o, c, k, IT_GENERIC. cbn [length app]. replace (p + Z.of_nat 0) with p by lia.
      split_and!; [by constructor|lia|by rewrite at_cons; split; [|apply at_nil]|lia..|done|done].
    - right. right. split; [done|]. exists j. split; [lia|done]. }
  destruct (type_ o) eqn:Eo; try (apply Hhere; done); clear Hhere.
  - right. left. do 3 eexists. split; [done|]. cbn. auto.
  - rewrite u32_small by lia.
    destruct (IH (table_index_ o) (p + 1) (sz + 1)) as [(esc & b' & T' & o' & c & k & t & Hat & Hl & Hmem & Hc & Hk & -> & Hall)|
      [(t & sz' & d' & -> & Hd)|[-> (j & Hj & He')]]]; [by apply Hn|lia|lia|..]; obind.
    + left. exists (b :: esc), b', T', o', c, k, (instruction_type_ (final pre o' k)). cbn [length app]. rewrite at_cons.
      replace (p + Z.of_nat (S (length esc))) with (p + 1 + Z.of_nat (length esc)) by lia.
      split_and!; [by eapply Format.at_ref|lia|done|done|lia..|do 2 f_equal; f_equal; lia|done].
    + right. left. eauto 10.
    + right. right. split; [done|]. exists (S j). split; [lia|]. by apply (ends_at_S _ _ b).
Qed.
End Opcodes.

(** ** Whole instructions *)
Section Whole.
Context (x64 : bool) (d : MD).
Notation od := (operand_default_is_32_bits_ d).
Notation ad := (address_default_is_32_bits_ d).
Notation prefixes := (Forall (fun b => Format.is_prefix x64 b = true)).

Lemma at_prefix m p l l' : at_ m p l -> at_ m p l' -> (length l <= length l')%nat -> l `prefix_of` l'.
Proof.
  revert p l'. induction l as [|b l IH]; intros p [|b' l'] H H' Hl; cbn in Hl; try apply prefix_nil; [lia|].
  apply at_cons in H as [Hb H], H' as [Hb' H']. simplify_eq. apply prefix_cons, (IH (p + 1)); [done..|lia].
Qed.

(** Behind the prefixes, what is left is the opcode. *)
Lemma Disassemble_opcode m p n pre b : code_ok m -> at_ m p (pre ++ [b]) -> prefixes pre -> Format.is_prefix x64 b = false ->
  Md.Disassemble x64 m p n d =
  '(_, size, d) ← Md.ProcessOpcode x64 Md.opcode_fuel m (p + Z.of_nat (length pre)) 0 0 (after x64 od ad pre);
  if bool_decide (instruction_type_ d = IT_UNKNOWN) || bool_decide (instruction_type_ d = IT_UNUSED) then Ret (IT_UNKNOWN, n, d)
  else Ret (instruction_type_ d, u32 (n + (operand_bytes_ d + (p + Z.of_nat (length pre) + size - p))), d).
Proof.
  intros Hm Hat Hp Hb. pose proof (at_size _ _ _ Hat) as Hs. rewrite length_app in Hs. cbn in Hs. destruct Hm as [Hm Hm'].
  destruct (ProcessPrefixes_run x64 od ad m p 0 pre [] b (S (size m))) as (t & Ht & E); [done..|lia|lia|lia|].
  unfold Md.Disassemble. 
  assert (Md.Initialize x64 d = after x64 od ad []) as -> by (unfold after, Format.mode; cbn; by rewrite andb_false_r).
  rewrite E. obind. rewrite bool_decide_eq_false_2 by done.
  by rewrite Z.add_0_l.
Qed.

Lemma opcode_first i esc b T o : Format.opcode_at x64 i esc b T o -> exists w, esc ++ [b] = hd b esc :: w.
Proof. destruct 1; cbn; eauto. Qed.

(** Every instruction of the format is recognised. *)
Lemma Disassemble_valid m p n i t : code_ok m -> Format.valid x64 od ad i t -> at_ m p (Format.header i) ->
  exists d', Md.Disassemble x64 m p n d = Ret (t, u32 (n + Z.of_nat (length (Format.encode i))), d') /\
    operand_default_is_32_bits_ d' = od /\ address_default_is_32_bits_ d' = ad.
Proof.
  intros Hm Hv Hat. destruct Hv as [pre esc b T o op mr ops k M so Hpre Hnp Ho H1 H2 Ht Hops].
  unfold Format.header in Hat. cbn [Format.i_prefixes Format.i_opcode Format.i_modrm] in Hat. rewrite <- app_assoc in Hat.
  destruct (tail_head _ _ _ _ _ _ _ _ Ht) as [w Hw]. destruct (opcode_first _ _ _ _ _ Ho) as [w' Hw'].
  rewrite (Disassemble_opcode m p n pre (hd b esc)); [|done| |done|done].
  2: { rewrite Hw in Hat. change (b :: w) with ([b] ++ w) in Hat. rewrite (app_assoc esc), Hw' in Hat.
       apply at_app in Hat as [H1' H2']. apply at_app. split; [done|]. cbn in H2'. apply at_cons in H2' as [H3 _].
       rewrite at_cons. split; [done|apply at_nil]. }
  apply at_app in Hat as [_ Hat]. destruct (ProcessOpcode_run x64 od ad Md.opcode_fuel 0 esc b T o m (p + Z.of_nat (length pre)) 0 pre op mr k)
    as [t' ->]; [done|done|apply tables_ok|done|done|lia| |].
  { pose proof (opcode_depth x64 _ _ _ _ _ _ Ho (tables_ok x64)). unfold Md.opcode_fuel in *. lia. }
  obind. change (instruction_type_ (final x64 od ad pre o k)) with (sp_type_ so).
  rewrite !bool_decide_eq_false_2 by done. cbn [orb]. exists (final x64 od ad pre o k). split; [|done]. do 3 f_equal.
  change (operand_bytes_ (final x64 od ad pre o k)) with (k + Format.immediates M (Format.flags so)).
  unfold Format.encode, Format.header. cbn [Format.i_prefixes Format.i_opcode Format.i_modrm Format.i_operands].
  rewrite !length_app. f_equal. lia.
Qed.

(** What [Disassemble] can do: an instruction of the format, whatever its
    unread operands are; none of them starts here; or a byte among the first
    five behind the prefixes is not readable. *)
Definition disassemble_cases (m : code) (p n : Z) (r : outcome (InstructionType * Z * MD)) : Prop :=
  match r with
  | Ret (t, n', d') =>
      operand_default_is_32_bits_ d' = od /\ address_default_is_32_bits_ d' = ad /\
      if decide (t = IT_UNKNOWN) then n' = n
      else exists len, n' = u32 (n + Z.of_nat len) /\ 0 < Z.of_nat len < 2 ^ 32 /\
        forall l, at_ m p l -> length l = len -> exists i, Format.valid x64 od ad i t /\ Format.encode i = l
  | Fault f => f = Undefined /\ exists pre j, prefixes pre /\ at_ m p pre /\ (j <= 4)%nat /\ ends_at m (p + Z.of_nat (length pre)) j
  end.

Lemma Disassemble_total m p n : code_ok m -> disassemble_cases m p n (Md.Disassemble x64 m p n d).
Proof.
  intros Hm. destruct (prefixes_end x64 m p) as [(pre & b0 & Hat & Hp & Hb)|(pre & Hat & Hp & Hend)].
  2: { assert (Md.Disassemble x64 m p n d = Fault Undefined) as ->.
       { unfold Md.Disassemble. assert (Md.Initialize x64 d = after x64 od ad []) as -> by (unfold after, Format.mode; cbn; by rewrite andb_false_r).
         rewrite (ProcessPrefixes_fault x64 od ad m p 0 pre) by (done || (pose proof (at_size _ _ _ Hat); lia)). done. }
       split; [done|]. exists pre, 0%nat. split_and!; [done..|lia|by apply ends_at_0]. }
  rewrite (Disassemble_opcode m p n pre b0) by done.
  destruct (ProcessOpcode_cases x64 od ad Md.opcode_fuel 0 m (p + Z.of_nat (length pre)) 0 pre) as
    [(esc & b & T & o & c & k & t & Ho & Hl & Hmem & Hc & Hk & -> & Hall)|[(t & sz' & d' & -> & Hd & Hod & Had)|[-> (j & Hj & He)]]];
    [done|apply tables_ok|lia|unfold Md.opcode_fuel; lia|..]; obind.
  - set (so := Format.variant (Format.mode x64 od ad pre) o) in *. change (instruction_type_ (final x64 od ad pre o k)) with (sp_type_ so).
    destruct (bool_decide (sp_type_ so = IT_UNKNOWN) || bool_decide (sp_type_ so = IT_UNUSED)) eqn:Eb; [done|].
    apply orb_false_iff in Eb as [E1%bool_decide_eq_false E2%bool_decide_eq_false]. cbn [disassemble_cases]. split_and!; [done..|].
    rewrite decide_False by done.
    set (M := Format.mode x64 od ad pre) in *. pose proof (proj2 (operands_ok x64 od ad pre so)) as Hi. fold M in Hi.
    exists (length pre + length esc + c + Z.to_nat (k + Format.immediates M (Format.flags so)))%nat. split_and!; [|lia|unfold Md.opcode_fuel in Hl; pose proof (at_size _ _ _ Hat) as Hsz; rewrite length_app in Hsz; destruct Hm; lia|].
    { f_equal. change (operand_bytes_ (final x64 od ad pre o k)) with (k + Format.immediates M (Format.flags so)). lia. }
    intros l Hm' Hlen. destruct (opcode_first _ _ _ _ _ Ho) as [w' Hw'].
    assert (hd b esc = b0) as Hfirst.
    { apply at_app in Hat as [_ [Hb0 _]%at_cons]. rewrite Hw' in Hmem. apply at_cons in Hmem as [Hh _]. congruence. }
    assert (at_ m p (pre ++ esc)) as Hpe.
    { apply at_app in Hat as [Ha _]. apply at_app in Hmem as [Hm'' _]. apply at_app. done. }
    destruct (at_prefix m p (pre ++ esc) l) as [rest ->]; [done..|rewrite length_app; lia|]. rewrite !length_app in Hlen.
    apply at_app in Hm' as [_ Hrest]. rewrite length_app in Hrest.
    destruct (Hall (take c rest)) as (op & mr & Etake & Htail).
    { rewrite length_take. lia. }
    { rewrite <- (take_drop c rest) in Hrest. apply at_app in Hrest as [Hr _].
      by replace (p + Z.of_nat (length pre) + Z.of_nat (length esc)) with (p + Z.of_nat (length pre + length esc)) by lia. }
    exists (Format.mkInsn pre (esc ++ op) mr (drop c rest)). split.
    + apply (Format.Valid x64 od ad pre esc b T o op mr _ k); [done|by rewrite Hfirst|done..|]. rewrite length_drop. fold M. fold so. lia.
    + unfold Format.encode, Format.header. cbn. rewrite <- !app_assoc. do 2 f_equal. rewrite (app_assoc op), <- Etake. apply take_drop.
  - assert (bool_decide (instruction_type_ d' = IT_UNKNOWN) || bool_decide (instruction_type_ d' = IT_UNUSED) = true) as ->.
    { destruct Hd as [-> | ->]; done. }
    cbn. done.
  - cbn. split; [done|]. apply at_app in Hat as [Hat _]. exists pre, j. unfold Md.opcode_fuel in Hj. split_and!; [done..|lia|done].
Qed.
End Whole.

(** ** Sizes and types *)

(** The modes that matter for immediates. *)
Definition plain_mode (a b : bool) : Format.Mode := Format.mkMode a true b false false false.

(** A variant of an opcode has a type the callers know, unless it is an
    error, and at most 8 bytes of immediates, 4 with a ModR/M byte. *)
Definition variant_small (so : SpecificOpcode) : bool :=
  let imm a b := Format.immediates (plain_mode a b) (Format.flags so) in
  let bound := if existsb Format.needs_modrm (Format.flags so) then 4 else 8 in
  bool_decide (sp_type_ so ∈ [IT_JUMP; IT_RETURN; IT_GENERIC; IT_UNKNOWN; IT_UNUSED]) &&
  forallb (fun ab => imm ab.1 ab.2 <=? bound) [(true, true); (true, false); (false, true); (false, false)].

Definition row_small (x64 : bool) (i k : nat) (o : Opcode) : bool :=
  bool_decide (type_ o = IT_REFERENCE) || bool_decide (type_ o = IT_UNUSED) ||
  ((i =? 0)%nat && Format.is_prefix x64 (Z.of_nat k)) ||
  forallb variant_small [specific o; opcode_if_f2_prefix_ o; opcode_if_f3_prefix_ o; opcode_if_66_prefix_ o].

Lemma rows_small x64 i T k o : s_ia32_opcode_map_ x64 !! i = Some T -> table_ T !! k = Some o -> row_small x64 i k o = true.
Proof.
  assert (forallb (forallb id) (imap (fun i T => imap (row_small x64 i) (table_ T)) (s_ia32_opcode_map_ x64)) = true) as H
    by (destruct x64; vm_compute; reflexivity).
  intros HT Ho. rewrite forallb_forall in H. specialize (H (imap (row_small x64 i) (table_ T))). rewrite forallb_forall in H.
  apply (H ltac:(apply list_elem_of_In, elem_of_lookup_imap; eauto) (row_small x64 i k o)), list_elem_of_In, elem_of_lookup_imap. eauto.
Qed.

Lemma entry_small x64 i b T o : Format.entry x64 i b = Some (T, o) -> 0 <= b < 256 -> (i = 0 -> Format.is_prefix x64 b = false) ->
  0 <= i -> type_ o <> IT_UNUSED -> type_ o <> IT_REFERENCE ->
  forallb variant_small [specific o; opcode_if_f2_prefix_ o; opcode_if_f3_prefix_ o; opcode_if_66_prefix_ o] = true.
Proof.
  unfold Format.entry. intros He Hb Hp Hi Hu Hr. destruct (s_ia32_opcode_map_ x64 !! Z.to_nat i) as [T0|] eqn:HT; [|done].
  cbn [mbind option_bind] in He. destruct (bool_decide _); [|done]. destruct (table_ T0 !! _) as [o0|] eqn:Ho; [|done]. cbn in He. simplify_eq.
  pose proof (rows_small _ _ _ _ _ HT Ho) as H. unfold row_small in H. rewrite !bool_decide_eq_false_2 in H by done. cbn [orb] in H.
  destruct (decide (i = 0)) as [->|Hne].
  - assert (Some T = Some (mkTable (s_first_opcode_byte x64) 0 0xff 0 0xff)) as ET by (by rewrite <- HT).
    simplify_eq. cbn [shift_ mask_] in H. rewrite Z.pow_0_r, Z.div_1_r, Z.mod_small, Z2Nat.id, Hp in H by lia. exact H.
  - destruct (Nat.eqb_spec (Z.to_nat i) 0) as [E|]; [lia|]. exact H.
Qed.

Lemma reference_pos x64 i b T o : Format.entry x64 i b = Some (T, o) -> type_ o = IT_REFERENCE -> 0 < table_index_ o.
Proof.
  assert (forallb (fun T => forallb (fun o => negb (bool_decide (type_ o = IT_REFERENCE)) || (0 <? table_index_ o)) (table_ T)) (s_ia32_opcode_map_ x64) = true)
    as H by (destruct x64; vm_compute; reflexivity).
  unfold Format.entry. intros He Hr. destruct (s_ia32_opcode_map_ x64 !! Z.to_nat i) as [T0|] eqn:HT; [|done].
  cbn [mbind option_bind] in He. destruct (bool_decide _); [|done]. destruct (table_ T0 !! _) as [o0|] eqn:Ho; [|done]. cbn in He. simplify_eq.
  rewrite forallb_forall in H. specialize (H T ltac:(by apply list_elem_of_In; eapply list_elem_of_lookup_2)).
  rewrite forallb_forall in H. specialize (H o ltac:(by apply list_elem_of_In; eapply list_elem_of_lookup_2)).
  rewrite bool_decide_eq_true_2 in H by done. cbn in H. lia.
Qed.

Lemma immediates_mode M fs : Format.immediates M fs = Format.immediates (plain_mode (Format.op32 M) (Format.op64 M)) fs.
Proof. reflexivity. Qed.

Lemma variant_in M o : Format.variant M o ∈ [specific o; opcode_if_f2_prefix_ o; opcode_if_f3_prefix_ o; opcode_if_66_prefix_ o].
Proof. unfold Format.variant. repeat case_match; set_solver. Qed.

(** An opcode found through the tables has only small variants. *)
Lemma opcode_small x64 i esc b T o M : Format.opcode_at x64 i esc b T o -> Forall (fun b => 0 <= b < 256) (esc ++ [b]) ->
  (i = 0 -> Format.is_prefix x64 (hd b esc) = false) -> 0 <= i -> variant_small (Format.variant M o) = true.
Proof.
  intros H. induction H as [i b T o He Hu Hr|i b T o esc b' T' o' He Hr Ho IH]; intros Hf Hp Hi.
  - cbn in Hf. apply Forall_cons in Hf as [Hb _]. pose proof (entry_small x64 i b T o He Hb Hp Hi Hu Hr) as Hs.
    rewrite forallb_forall in Hs. apply Hs, list_elem_of_In, variant_in.
  - cbn in Hf. apply Forall_cons in Hf as [_ Hf]. assert (0 < table_index_ o) by (by eapply reference_pos). apply IH; [done|lia|lia].
Qed.

Lemma valid_shape x64 od ad i t : Format.valid x64 od ad i t -> Forall (fun b => 0 <= b < 256) (Format.header i) ->
  t ∈ [IT_JUMP; IT_RETURN; IT_GENERIC] /\ (length (Format.encode i) <= length (Format.i_prefixes i) + 17)%nat.
Proof.
  intros Hv Hf. destruct Hv as [pre esc b T o op mr ops k M so Hpre Hnp Ho H1 H2 Ht Hops].
  unfold Format.encode, Format.header in *. cbn [Format.i_prefixes Format.i_opcode Format.i_modrm Format.i_operands] in *.
  assert (Forall (fun b => 0 <= b < 256) (esc ++ [b])) as Hr.
  { destruct (tail_head _ _ _ _ _ _ _ _ Ht) as [w Hw]. rewrite <- app_assoc, Hw in Hf. rewrite !Forall_app in Hf. rewrite Forall_app.
    destruct Hf as (_ & He & Hb). apply Forall_cons in Hb as [Hb _]. split; [done|]. by apply Forall_cons. }
  pose proof (opcode_small x64 0 esc b T o M Ho Hr ltac:(done) ltac:(lia)) as Hs. fold so in Hs.
  unfold variant_small in Hs. apply andb_true_iff in Hs as [Hty%bool_decide_eq_true Hi].
  split; [set_solver|]. rewrite !length_app. pose proof (opcode_depth x64 _ _ _ _ _ _ Ho (tables_ok x64)) as Hd. unfold Md.opcode_fuel in Hd.
  assert (Format.immediates M (Format.flags so) <= if existsb Format.needs_modrm (Format.flags so) then 4 else 8) as HI.
  { rewrite immediates_mode. rewrite forallb_forall in Hi. apply Z.leb_le, (Hi (Format.op32 M, Format.op64 M)).
    destruct (Format.op32 M), (Format.op64 M); cbn; auto. }
  destruct Ht as [Hop Hmr]. assert (length op <= 1)%nat by (destruct (mask_ T =? 0xff); [subst op|destruct Hop as [-> _]]; cbn; lia).
  destruct (existsb Format.needs_modrm (Format.flags so)).
  - destruct Hmr as [c|c|c s]; cbn [length]; [lia| |]; [pose proof (counted_range M c None)|pose proof (counted_range M c (Some s))]; lia.
  - destruct Hmr as [-> ->]. destruct (mask_ T =? 0xff); cbn [length]; lia.
Qed.

(** ** What is read *)
Definition agree (m m' : code) (p n : Z) : Prop := forall a, p <= a < p + n -> m' !! a = m !! a.

Lemma agree_sub m m' p n q k : agree m m' p n -> p <= q -> q + k <= p + n -> agree m m' q k.
Proof. intros H ?? a Ha. apply H. lia. Qed.

Lemma ProcessModrm_agree m m' q sz d : agree m m' q 2 -> Md.ProcessModrm m' q sz d = Md.ProcessModrm m q sz d.
Proof.
  intros H. unfold Md.ProcessModrm, rd. rewrite (H q) by lia. destruct (negb _); [done|]. destruct (deref (m !! q)); [|done]. obind.
  destruct (deref _); [|done]. obind. destruct (use_sib_byte_ _); [|done]. unfold Md.ProcessSib, rd. by rewrite (H (q + 1)) by lia.
Qed.

Lemma ProcessOpcode_agree x64 n m m' p i sz d : agree m m' p (Z.of_nat n + 2) ->
  Md.ProcessOpcode x64 n m' p i sz d = Md.ProcessOpcode x64 n m p i sz d.
Proof.
  revert p i sz d. induction n as [|n IH]; intros p i sz d H; [done|]. cbn [Md.ProcessOpcode].
  destruct (deref (s_ia32_opcode_map_ x64 !! Z.to_nat i)) as [T|]; [|done]. obind. unfold rd. rewrite (H p) by lia.
  destruct (deref (m !! p)) as [b|]; [|done]. obind. destruct (_ || _); [done|]. destruct (deref (table_ T !! _)) as [o|]; [|done]. obind.
  rewrite IH by (apply (agree_sub _ _ _ _ _ _ H); lia).
  assert (Md.process_operands m' p sz T o d = Md.process_operands m p sz T o d) as ->; [|done].
  unfold Md.process_operands. rewrite (ProcessModrm_agree m m' p), (ProcessModrm_agree m m' (p + 1)); [done|apply (agree_sub _ _ _ _ _ _ H); lia..].
Qed.

(** Only the prefixes and five bytes behind them matter. *)
Lemma Disassemble_agree x64 d m m' p n pre b : code_ok m -> code_ok m' -> at_ m p (pre ++ [b]) ->
  Forall (fun b => Format.is_prefix x64 b = true) pre -> Format.is_prefix x64 b = false ->
  agree m m' p (Z.of_nat (length pre) + 5) -> Md.Disassemble x64 m' p n d = Md.Disassemble x64 m p n d.
Proof.
  intros Hm Hm' Hat Hpre Hb H. rewrite (Disassemble_opcode x64 d m p n pre b) by done.
  rewrite (Disassemble_opcode x64 d m' p n pre b); [|done| |done|done].
  - rewrite (ProcessOpcode_agree x64 Md.opcode_fuel m m'); [done|]. apply (agree_sub _ _ _ _ _ _ H); unfold Md.opcode_fuel; lia.
  - intros j c Hj. pose proof (lookup_lt_Some _ _ _ Hj) as Hl. rewrite length_app in Hl. cbn in Hl. rewrite H by lia. by apply Hat.
Qed.

(** An instruction copied elsewhere decodes the same. *)
Lemma Disassemble_copy x64 d d' m m' p p' t len dd l : code_ok m -> code_ok m' ->
  operand_default_is_32_bits_ d' = operand_default_is_32_bits_ d -> address_default_is_32_bits_ d' = address_default_is_32_bits_ d ->
  Md.Disassemble x64 m p 0 d = Ret (t, len, dd) -> t <> IT_UNKNOWN -> at_ m p l -> Z.of_nat (length l) = len -> at_ m' p' l ->
  exists dd', Md.Disassemble x64 m' p' 0 d' = Ret (t, len, dd') /\ operand_default_is_32_bits_ dd' = operand_default_is_32_bits_ d /\
    address_default_is_32_bits_ dd' = address_default_is_32_bits_ d.
Proof.
  intros Hm Hm' Ho Ha Hd Ht Hat Hl Hat'. pose proof (Disassemble_total x64 d m p 0 Hm) as H. rewrite Hd in H. destruct H as (_ & _ & H).
  rewrite decide_False in H by done. destruct H as (n & Hn & Hpos & Hall). rewrite Z.add_0_l, u32_small in Hn by lia.
  destruct (Hall l Hat ltac:(lia)) as (i & Hv & <-). rewrite <- Ho, <- Ha in Hv |- *.
  destruct (Disassemble_valid x64 d' m' p' 0 i t Hm' Hv) as (dd' & -> & Hdef); [by apply at_app in Hat' as [? _]|].
  exists dd'. split; [|done]. rewrite Z.add_0_l, u32_small by lia. by rewrite Hl.
Qed.

(** ** The two formats *)
Section Formats.
Context (x64 od ad : bool).
Hypothesis defaults : x64 = true -> od = true /\ ad = true.

Lemma find_at n i esc b T o w : Format.opcode_at x64 i esc b T o -> (length esc < n)%nat -> Format.find x64 n i (esc ++ b :: w) = Some o.
Proof.
  intros H. revert n. induction H as [i b T o He Hu Hr|i b T o esc b' T' o' He Hr _ IH]; intros [|n] Hl; cbn in Hl; try lia;
    cbn [Format.find app]; rewrite He; cbn [mbind option_bind].
  - by destruct (type_ o).
  - rewrite Hr. apply IH. lia.
Qed.

Lemma variant_mode pre o : Format.variant (Manual.mode x64 od ad pre) o = Format.variant (Format.mode x64 od ad pre) o.
Proof. reflexivity. Qed.

Lemma operands_at pre esc b T o op mr ops disp M k : Format.opcode_at x64 0 esc b T o ->
  Format.tail_ok disp M (Format.flags (Format.variant (Format.mode x64 od ad pre) o)) T b op mr k ->
  Format.operands x64 od ad (Format.mkInsn pre (esc ++ op) mr ops) = Format.flags (Format.variant (Format.mode x64 od ad pre) o).
Proof.
  intros Ho Ht. unfold Format.operands. cbn [Format.i_opcode Format.i_modrm Format.i_prefixes].
  destruct (tail_head _ _ _ _ _ _ _ _ Ht) as [w Hw]. rewrite <- app_assoc, Hw, (find_at _ _ _ _ _ _ _ Ho); [done|].
  exact (opcode_depth x64 _ _ _ _ _ _ Ho (tables_ok x64)).
Qed.

Lemma addr_mode pre : Manual.short_address x64 pre = false ->
  Format.addr32 (Manual.mode x64 od ad pre) = Format.addr32 (Format.mode x64 od ad pre).
Proof.
  unfold Manual.short_address, Manual.mode, Format.mode. cbn. destruct x64; cbn; [|done]. intros ->. destruct defaults; naive_solver.
Qed.

Lemma rexw_taken pre : Manual.rexw x64 pre = true -> Format.op64 (Format.mode x64 od ad pre) = true.
Proof.
  unfold Manual.rexw, Format.mode. cbn. destruct x64; [|done]. cbn. destruct (last pre) as [b|] eqn:El; [|done].
  intros Hb%bool_decide_eq_true. apply existsb_exists. exists b. split.
  - apply last_Some in El as [l ->]. apply in_or_app. right. by left.
  - assert (forallb (fun b => Format.takes_rexw b) (seqZ 0x48 8) = true) as H by (vm_compute; reflexivity).
    rewrite forallb_forall in H. apply H, list_elem_of_In, elem_of_seqZ. lia.
Qed.

Lemma offset_regular pre f : Format.method f = 10 -> Manual.offset x64 od ad pre f = false ->
  Manual.moffs x64 ad pre = Format.immediate (Format.mode x64 od ad pre) f.
Proof.
  unfold Manual.offset. intros Em. rewrite Em. cbn [Z.eqb Pos.eqb andb]. rewrite !orb_false_iff. intros [[-> Et%negb_false_iff%Z.eqb_eq] Eo].
  unfold Manual.moffs, Format.immediate. rewrite Em, Et. apply negb_false_iff, eqb_prop in Eo. cbn in Eo |- *. by rewrite Eo.
Qed.

(** An operand outside the listed forms has the size the code counts. *)
Lemma operand_regular pre f : Manual.short_address x64 pre = false ->
  Manual.far f || Manual.offset x64 od ad pre f || Manual.widened x64 pre f || Manual.narrowed x64 pre f = false ->
  Manual.operand x64 od ad pre f = Format.immediate (Format.mode x64 od ad pre) f.
Proof.
  intros Ha. rewrite !orb_false_iff. intros [[[Hf Ho] Hw] Hn]. unfold Manual.operand. fold (Manual.far f). rewrite Hf.
  pose proof (rexw_taken pre) as Hx.
  destruct (Z.eqb_spec (Format.method f) 10) as [Em|]; [exact (offset_regular pre f Em Ho)|].
  destruct (Z.eqb_spec (Format.method f) 8) as [Em|].
  { cbn [andb]. rewrite Em. cbn [Z.eqb Pos.eqb andb]. unfold Manual.narrowed in Hn. rewrite Em in Hn. unfold Format.immediate. rewrite Em.
    cbn [Z.eqb Pos.eqb negb]. rewrite !andb_false_r. destruct (Z.eqb_spec (Format.type_of f) 13) as [Et|]; [|done]. rewrite Et.
    destruct x64; [|done]. destruct defaults as [-> ->]; [done|]. cbn in Hn |- *. by destruct (Format.has 102 pre). }
  destruct (Z.eqb_spec (Format.method f) 7) as [Em|Em]; cbn [andb].
  2: { assert (Format.has (Format.method f) [7; 8; 10] = false) as E.
       { apply not_true_iff_false. rewrite has_in. set_solver. }
       unfold Format.immediate. by rewrite E. }
  destruct (Z.eqb_spec (Format.type_of f) 13) as [Et|Et]; cbn [andb].
  2: { unfold Format.immediate. rewrite Em. cbn. destruct (Format.type_of f) as [|[[[[]|[]|]|[[]|[]|]|]|[[[]|[]|]|[[]|[]|]|]|]|]; done. }
  unfold Manual.widened, Manual.narrowed in *. unfold Format.immediate in *. rewrite Em, Et in *. remember (Z.testbit f 12) as wide eqn:E12. clear E12. cbn in Hx, Hw, Hn |- *.
  destruct (Manual.rexw x64 pre) eqn:Er; cbn.
  - assert (x64 = true) as E by (unfold Manual.rexw in Er; by destruct x64). destruct (defaults E) as [-> _].
    rewrite E in *. rewrite Hx by done. by destruct wide, (Format.has 102 pre).
  - rewrite andb_true_r in Hw. destruct (x64 && existsb _ _) eqn:E; [|done]. rewrite <- andb_assoc, E, andb_true_r in Hw. by rewrite Hw.
Qed.

Lemma operands_regular pre fs : Manual.short_address x64 pre = false ->
  forallb (fun f => negb (Manual.far f || Manual.offset x64 od ad pre f || Manual.widened x64 pre f || Manual.narrowed x64 pre f)) fs = true ->
  Manual.operand_bytes x64 od ad pre fs = Format.immediates (Format.mode x64 od ad pre) fs.
Proof.
  intros Ha. unfold Manual.operand_bytes, Format.immediates. induction fs as [|f fs IH]; cbn [foldr forallb]; [done|].
  rewrite andb_true_iff, negb_true_iff. intros [Hf Hfs]. by rewrite operand_regular, IH.
Qed.

(** The ModR/M bytes are the same in both formats, with a displacement that
    the code may count twice. *)
Lemma modrm_same disp disp' M M' fs mr k : Format.addr32 M' = Format.addr32 M -> Format.modrm_ok disp M fs mr k ->
  exists k', Format.modrm_ok disp' M' fs mr k' /\
    ((forall b s, existsb Format.in_memory fs = true -> mr = b :: option_list s -> disp' M' b s = disp M b s) -> k' = k).
Proof.
  intros Ha [b Hf|b Hf Hs|b s Hf Hs].
  - exists 0. split; [by constructor|done].
  - exists (disp' M' b None). split; [constructor; [done|]; unfold Format.needs_sib in *; by rewrite Ha|]. intros H. by apply H.
  - exists (disp' M' b (Some s)). split; [constructor; [done|]; unfold Format.needs_sib in *; by rewrite Ha|]. intros H. by apply H.
Qed.

Lemma tail_same disp disp' M M' fs T b op mr k : Format.addr32 M' = Format.addr32 M -> Format.tail_ok disp M fs T b op mr k ->
  exists k', Format.tail_ok disp' M' fs T b op mr k' /\
    ((forall b s, existsb Format.in_memory fs = true -> mr = b :: option_list s -> disp' M' b s = disp M b s) -> k' = k).
Proof.
  intros Ha [Hop Hmr]. unfold Format.tail_ok. destruct (existsb Format.needs_modrm fs).
  - destruct (modrm_same disp disp' M M' fs mr k Ha Hmr) as (k' & H & E). eauto.
  - exists 0. destruct Hmr as [-> ->]. eauto.
Qed.

Lemma displacement_mode M M' b s : Format.addr32 M' = Format.addr32 M -> Format.displacement M' b s = Format.displacement M b s.
Proof. intros E. unfold Format.displacement. by rewrite E. Qed.

Lemma counted_once M b s (i : Format.Insn) : existsb Format.in_memory (Format.operands x64 od ad i) = true -> Format.i_modrm i = b :: option_list s ->
  Manual.twice x64 od ad i = false -> Format.counted M b s = Format.displacement M b s.
Proof.
  intros Hf Hm Ht. unfold Manual.twice in Ht. rewrite Hf, Hm in Ht. unfold Format.counted. rewrite bool_decide_eq_false_2; [lia|].
  intros [Hs Hmod]. destruct s as [s|]; [|done]. cbn in Hs, Ht. injection Hs as Hs. rewrite Hs in Ht. destruct Hmod as [E|E]; by rewrite E in Ht.
Qed.

(** On the regular instructions the formats agree. *)
Lemma regular_same i t : Manual.regular x64 od ad i = true -> Manual.insn x64 od ad i t <-> Format.valid x64 od ad i t.
Proof.
  unfold Manual.regular. rewrite !andb_true_iff, !negb_true_iff. intros [[Ht Ha] Hall].
  pose proof (addr_mode _ Ha) as Hm. split; intros H; destruct H as [pre esc b T o op mr ops k M so Hpre Hnp Ho H1 H2 Htl Hops];
    cbn [Format.i_prefixes] in *; unfold so in *; rewrite ?variant_mode in *.
  - destruct (tail_same _ Format.counted M (Format.mode x64 od ad pre) _ _ _ _ _ _ ltac:(done) Htl) as (k' & Htl' & Ek).
    pose proof (operands_at _ _ _ _ _ _ _ ops _ _ _ Ho Htl) as Eo.
    apply (Format.Valid x64 od ad pre esc b T o op mr ops k'); [done..|]. rewrite Hops. f_equal; [|rewrite Eo in Hall; by apply operands_regular].
    symmetry. apply Ek. intros c s Hf Hmr. rewrite (displacement_mode (Format.mode x64 od ad pre) M) by done.
    by apply (counted_once _ _ _ (Format.mkInsn pre (esc ++ op) mr ops)); rewrite ?Eo.
  - destruct (tail_same _ Format.displacement M (Manual.mode x64 od ad pre) _ _ _ _ _ _ ltac:(done) Htl) as (k' & Htl' & Ek).
    pose proof (operands_at _ _ _ _ _ _ _ ops _ _ _ Ho Htl) as Eo. rewrite <- (variant_mode pre o) in *.
    apply (Manual.Insn_ x64 od ad pre esc b T o op mr ops k'); [done..|]. rewrite Hops. f_equal; [|rewrite Eo in Hall; symmetry; by apply operands_regular].
    symmetry. apply Ek. intros c s Hf Hmr. rewrite (displacement_mode M) by done. symmetry.
    by apply (counted_once _ _ _ (Format.mkInsn pre (esc ++ op) mr ops)); rewrite ?Eo.
Qed.

Lemma tail_nonneg M fs T b op mr k : Format.tail_ok Format.counted M fs T b op mr k -> 0 <= k.
Proof.
  intros [_ Hmr]. destruct (existsb _ _); [|by destruct Hmr as [-> _]].
  destruct Hmr as [|c|c s]; [done|apply (counted_range M c None)|apply (counted_range M c (Some s))].
Qed.

(** Apart from addresses cut short, the code finds the bytes up to the
    operands where the manual has them. *)
Lemma insn_header i t : Manual.insn x64 od ad i t -> Manual.short_address x64 (Format.i_prefixes i) = false ->
  exists i', Format.valid x64 od ad i' t /\ Format.header i' = Format.header i.
Proof.
  intros [pre esc b T o op mr ops k M so Hpre Hnp Ho H1 H2 Htl Hops] Ha. cbn [Format.i_prefixes] in *. pose proof (addr_mode _ Ha) as Hm.
  unfold so in *. rewrite ?variant_mode in *. destruct (tail_same _ Format.counted M (Format.mode x64 od ad pre) _ _ _ _ _ _ ltac:(done) Htl) as (k' & Htl' & _).
  set (so' := Format.variant (Format.mode x64 od ad pre) o) in *. set (n := k' + Format.immediates (Format.mode x64 od ad pre) (Format.flags so')).
  exists (Format.mkInsn pre (esc ++ op) mr (replicate (Z.to_nat n) 0)). split; [|done].
  apply (Format.Valid x64 od ad pre esc b T o op mr _ k'); [done..|]. fold so'. rewrite length_replicate.
  pose proof (tail_nonneg _ _ _ _ _ _ _ Htl'). pose proof (proj2 (operands_ok x64 od ad pre so')). lia.
Qed.

End Formats.

(** C38: A regular instruction of the IA-32 manual that starts at the address
    is reported with its type (a jump, a return or another instruction) and
    the length the manual gives it is added to the counter; its bytes up to
    the SIB byte are all that is read, and it is at most 17 bytes long behind
    its prefixes. Irregular are exactly the forms of [Manual.regular]: a SIB
    byte of base 5 with a displacement of the ModR/M byte, a far pointer, an
    offset operand of another size than the operand, and in 64-bit code an
    immediate that REX.W would widen behind another prefix the code takes for
    it, an operand-size prefix on a near jump or on an immediate under REX.W,
    and an address-size prefix. The type is right for them too, except behind
    an address-size prefix in 64-bit code, but the length need not be.
    Conversely a reported type and length are those of an instruction as the
    code reads the format, and by the manual if it is regular. On an error the
    type is IT_UNKNOWN, for an unused opcode too, and the counter is left
    alone, where the comment in mini_disassembler.h has 0xffffffff and an
    unused type. The only fault is a read of one of the five bytes behind the
    prefixes where memory ends: neither a table nor the fuel is overrun. The
    defaults of the object never change. Which operands an opcode has is taken
    from the tables of ia32_opcode_map.cc. *)
Theorem disassemble_correct x64 d m p n (od := operand_default_is_32_bits_ d) (ad := address_default_is_32_bits_ d) :
  code_ok m -> (x64 = true -> od = true /\ ad = true) ->
  match Md.Disassemble x64 m p n d with
  | Ret (t, n', d') =>
      operand_default_is_32_bits_ d' = od /\ address_default_is_32_bits_ d' = ad /\
      if decide (t = IT_UNKNOWN) then n' = n
      else exists len, n' = u32 (n + Z.of_nat len) /\ 0 < Z.of_nat len < 2 ^ 32 /\
        forall l, at_ m p l -> length l = len -> exists i, Format.encode i = l /\ Format.valid x64 od ad i t /\
          (Manual.regular x64 od ad i = true -> Manual.insn x64 od ad i t)
  | Fault f => f = Undefined /\ exists pre j, Forall (fun b => Format.is_prefix x64 b = true) pre /\ at_ m p pre /\
      (j <= 4)%nat /\ ends_at m (p + Z.of_nat (length pre)) j
  end /\
  (forall i t, Manual.insn x64 od ad i t -> at_ m p (Format.header i) ->
     (Manual.short_address x64 (Format.i_prefixes i) = false ->
        t ∈ [IT_JUMP; IT_RETURN; IT_GENERIC] /\ exists n' d', Md.Disassemble x64 m p n d = Ret (t, n', d')) /\
     (Manual.regular x64 od ad i = true ->
        (length (Format.encode i) <= length (Format.i_prefixes i) + 17)%nat /\
        exists d', Md.Disassemble x64 m p n d = Ret (t, u32 (n + Z.of_nat (length (Format.encode i))), d'))).
Proof.
  intros Hm Hdef. assert (forall l b, at_ m p l -> b ∈ l -> 0 <= b < 256) as Hr by (intros; by eapply at_range). split.
  - pose proof (Disassemble_total x64 d m p n Hm) as H. destruct (Md.Disassemble x64 m p n d) as [[[t n'] d']|f]; [|exact H].
    destruct H as (? & ? & H). do 2 (split; [done|]). destruct (decide _); [done|]. destruct H as (len & ? & ? & H). exists len. do 2 (split; [done|]).
    intros l Hl Hlen. destruct (H l Hl Hlen) as (i & Hv & He). exists i. do 2 (split; [done|]). intros Hreg. by apply (regular_same x64 od ad Hdef).
  - intros i t Hi Hat. split; [intros Ha|intros Hreg].
    + destruct (insn_header x64 od ad Hdef i t Hi Ha) as (i' & Hv & Hh). rewrite <- Hh in Hat. split.
      * apply (valid_shape _ _ _ _ _ Hv), Forall_forall. eauto.
      * destruct (Disassemble_valid x64 d m p n i' t Hm Hv Hat) as (d' & Hd & _). eauto.
    + apply (regular_same x64 od ad Hdef i t Hreg) in Hi as Hv. split.
      * apply (valid_shape _ _ _ _ _ Hv), Forall_forall. eauto.
      * destruct (Disassemble_valid x64 d m p n i t Hm Hv Hat) as (d' & Hd & _). eauto.
Qed.

(** The type and the length of the instruction whose bytes are [l]. *)
Definition decode (x64 : bool) (l : list Z) : outcome (InstructionType * Z) :=
  '(t, n, _) ← Md.Disassemble x64 (load 100 l) 100 0 (Md.MiniDisassembler x64); Ret (t, n).

Lemma code_ok_dec (m : code) : bool_decide (map_Forall (fun _ b => 0 <= b < 256) m) = true -> Z.of_nat (size m) < 2 ^ 31 -> code_ok m.
Proof. intros H%bool_decide_eq_true Hs. split; [exact H|done]. Qed.

(** [mov rax, [rbp + 8]] in 64-bit code ([48 8B 45 08]), with its REX.W
    prefix, ModR/M byte and displacement. *)
Definition mov_local : Format.Insn := Format.mkInsn [0x48] [0x8B] [0x45] [0x08].

Lemma mov_local_insn : Manual.insn true true true mov_local IT_GENERIC.
Proof.
  pose (so := mkSpecific 0 IT_GENERIC (Z.lor AM_G OT_V) (Z.lor AM_E OT_V) AM_NOT_USED (Some "mov"%string)).
  assert (exists T o, Format.entry true 0 0x8B = Some (T, o) /\ mask_ T = 0xff /\ type_ o = IT_GENERIC /\
    Format.variant (Manual.mode true true true [0x48]) o = so) as (T & o & He & HT & Ho & Hv).
  { do 2 eexists. split; [reflexivity|]. split_and!; vm_compute; reflexivity. }
  change IT_GENERIC with (sp_type_ so). rewrite <- Hv.
  apply (Manual.Insn_ true true true [0x48] [] 0x8B T o [0x8B] [0x45] [0x08] 1); [by repeat constructor|done| |by rewrite Hv..| |by rewrite Hv].
  - apply Format.at_here; [done|by rewrite Ho..].
  - unfold Format.tail_ok. rewrite Hv, HT. split; [done|]. exact (Format.modrm_plain Format.displacement (Manual.mode true true true [0x48]) (Format.flags so) 0x45 eq_refl eq_refl).
Qed.

Lemma disassemble_correct_witness : code_ok (load 100 (Format.encode mov_local)) /\
  exists d', Md.Disassemble true (load 100 (Format.encode mov_local)) 100 0 (Md.MiniDisassembler true) = Ret (IT_GENERIC, 4, d').
Proof.
  assert (code_ok (load 100 (Format.encode mov_local))) as H by (apply code_ok_dec; vm_compute; reflexivity).
  split; [exact H|].
  assert (at_ (load 100 (Format.encode mov_local)) 100 (Format.header mov_local)) as Hat.
  { cbn. rewrite !at_cons. split_and!; [vm_compute; reflexivity..|apply at_nil]. }
  exact (proj2 (proj2 (proj2 (disassemble_correct true (Md.MiniDisassembler true) _ 100 0 H ltac:(done)) _ _ mov_local_insn Hat) eq_refl)).
Defined.

(** Known instructions: [mov eax, imm32], [jz rel32], [call rel32],
    [movabs rax, imm64], [mov eax, [ebp + 8]], [ret], [rep movsb]. *)
Example known_instructions :
  decode false [0xB8; 1; 2; 3; 4] = Ret (IT_GENERIC, 5) /\ decode true [0x0F; 0x84; 1; 2; 3; 4] = Ret (IT_JUMP, 6) /\
  decode true [0xE8; 1; 2; 3; 4] = Ret (IT_JUMP, 5) /\ decode true [0x48; 0xB8; 1; 2; 3; 4; 5; 6; 7; 8] = Ret (IT_GENERIC, 10) /\
  decode false [0x8B; 0x45; 8] = Ret (IT_GENERIC, 3) /\ decode true [0xC3] = Ret (IT_RETURN, 1) /\
  decode false [0xF3; 0xA4] = Ret (IT_GENERIC, 2).
Proof. vm_compute. done. Qed.

(** [mov eax, [ebp + ecx + 8]] has four bytes, one of them the displacement;
    the code counts the displacement for the ModR/M byte and again for the
    SIB byte, and reports five. *)
Theorem sib_displacement_counted_twice :
  Format.displacement (Format.mode false true true []) 0x44 (Some 0x0D) = 1 /\
  decode false [0x8B; 0x44; 0x0D; 0x08] = Ret (IT_GENERIC, 5).
Proof. vm_compute. done. Qed.

(** [mov r8d, imm32] has six bytes: its REX prefix 41 has no W bit, but the
    code takes it for one and counts a 64-bit immediate. *)
Theorem rex_without_w_counts_64_bits : Z.testbit 0x41 3 = false /\ decode true [0x41; 0xB8; 1; 2; 3; 4] = Ret (IT_GENERIC, 10).
Proof. vm_compute. done. Qed.

(** A far call has seven bytes; the code counts no pointer for it. *)
Theorem far_call_counts_one_byte : decode false [0x9A; 1; 2; 3; 4; 5; 6] = Ret (IT_JUMP, 1).
Proof. vm_compute. done. Qed.

(** The other irregular forms: [mov al, [address]] has five bytes and is given
    two; in 64-bit code a [jmp] behind an operand-size prefix has six bytes and
    is given four, [mov rax, imm32] behind one eight and is given six, and
    [mov eax, [edi + esi]] behind an address-size prefix four and is given
    three. *)
Theorem irregular_forms_miscounted :
  decode false [0xA0; 1; 2; 3; 4] = Ret (IT_GENERIC, 2) /\ decode true [0x66; 0xE9; 1; 2; 3; 4] = Ret (IT_JUMP, 4) /\
  decode true [0x66; 0x48; 0xC7; 0xC0; 1; 2; 3; 4] = Ret (IT_GENERIC, 6) /\ decode true [0x67; 0x8B; 0x04; 0x37] = Ret (IT_GENERIC, 3).
Proof. vm_compute. done. Qed.

(** An unused opcode is reported as unknown and the counter is left alone. *)
Theorem unused_opcode_is_unknown : decode false [0x0F; 0x04] = Ret (IT_UNKNOWN, 0).
Proof. vm_compute. done. Qed.
