(* ===== verification/PreamblePatcher.v ===== *)
(** * The function patcher of the Windows port

    [PreamblePatcher] of windows/preamble_patcher.{h,cc} and
    windows/preamble_patcher_with_stub.cc: replacing the first instructions
    of a function by a jump, after moving them into a stub that goes on with
    the rest of the function, and undoing it. Memory is a map from addresses
    to bytes, shared by the target, the stub and the pages of stubs; a write
    outside of it is undefined. [x64] is the macro [_M_X64]; pointers have 64
    or 32 bits accordingly, [int] has 32. Assertions are those of a release
    build. The operating system is the class [Windows]. *)

From S2P Require Import Prelude Ia32Tables MiniDisassembler.
Local Open Scope Z_scope.

Inductive SideStepError :=
  | SIDESTEP_SUCCESS | SIDESTEP_INVALID_PARAMETER | SIDESTEP_INSUFFICIENT_BUFFER | SIDESTEP_JUMP_INSTRUCTION
  | SIDESTEP_FUNCTION_TOO_SMALL | SIDESTEP_UNSUPPORTED_INSTRUCTION | SIDESTEP_NO_SUCH_MODULE | SIDESTEP_NO_SUCH_FUNCTION
  | SIDESTEP_ACCESS_DENIED | SIDESTEP_UNEXPECTED.

#[export] Instance SideStepError_eq_dec : EqDecision SideStepError.
Proof. solve_decision. Defined.

Definition INT_MAX : Z := 2 ^ 31 - 1.
Definition INT_MIN : Z := - 2 ^ 31.
Definition UINT_MAX : Z := 2 ^ 32 - 1.
Definition SCHAR_MAX : Z := 127.
Definition SCHAR_MIN : Z := -128.

Definition ASM_JMP32REL : Z := 0xE9.
Definition ASM_INT3 : Z := 0xCC.
Definition ASM_JMP32ABS_0 : Z := 0xFF.
Definition ASM_JMP32ABS_1 : Z := 0x25.
Definition ASM_JMP8REL : Z := 0xEB.
Definition ASM_JCC32REL_0 : Z := 0x0F.
Definition ASM_JCC32REL_1_MASK : Z := 0x80.
Definition ASM_NOP : Z := 0x90.
Definition ASM_REXW : Z := 0x48.
Definition ASM_MOVRAX_IMM : Z := 0xB8.
Definition ASM_JMP : Z := 0xFF.
Definition ASM_JMP_RAX : Z := 0xE0.

(** ** Bytes and words *)
Definition s8 (x : Z) : Z := (x + 2 ^ 7) mod 2 ^ 8 - 2 ^ 7.

(** The [n] low bytes of a number, lowest first, and back. *)
Definition le (n : nat) (z : Z) : list Z := (fun i => (z / 256 ^ Z.of_nat i) mod 256) <$> seq 0 n.
Definition le_val (l : list Z) : Z := foldr (fun b a => b + 256 * a) 0 l.

(** Reading [n] bytes; writing bytes where all of them are mapped. *)
Fixpoint rdn (m : code) (p : Z) (n : nat) : outcome (list Z) :=
  match n with O => Ret [] | S n => b ← rd m p; l ← rdn m (p + 1) n; Ret (b :: l) end.

Definition mapped (m : code) (p : Z) (n : nat) : bool := forallb (fun i => bool_decide (is_Some (m !! (p + Z.of_nat i)))) (seq 0 n).

Definition store (m : code) (p : Z) (l : list Z) : code := load p l ∪ m.

Definition write (p : Z) (l : list Z) : M code unit := fun m =>
  if mapped m p (length l) then Ret (tt, store m p l) else Fault Undefined.

Definition memcpy (dst src : Z) (n : Z) : M code unit :=
  m ← getS; l ← liftM (rdn m src (Z.to_nat n)); write dst l.

Definition memset (dst c n : Z) : M code unit := write dst (replicate (Z.to_nat n) c).

(** A byte, an [int], through a pointer. *)
Definition byte_at (p : Z) : M code Z := m ← getS; liftM (rd m p).
Definition int_at (p : Z) : M code Z := m ← getS; l ← liftM (rdn m p 4); mret (s32 (le_val l)).

Module Pp.
Section Code.
Context (x64 : bool).

(** Pointer arithmetic, and the distance of two pointers. *)
Definition ptr (a : Z) : Z := if x64 then u64 a else u32 a.
Definition dist (a b : Z) : Z := if x64 then s64 (a - b) else s32 (a - b).
Definition ptr_bytes : nat := if x64 then 8 else 4.
Definition pointer_at (p : Z) : M code Z := m ← getS; l ← liftM (rdn m p ptr_bytes); mret (le_val l).

Definition MAX_PREAMBLE_STUB_SIZE : Z := if x64 then 64 else 32.

Definition IsShortConditionalJump (target instruction_size : Z) : M code bool :=
  b ← byte_at target; mret ((Z.land b 0x70 =? 0x70) && (instruction_size =? 2)).
Definition IsShortJump (target instruction_size : Z) : M code bool :=
  b ← byte_at target; mret ((b =? 0xeb) && (instruction_size =? 2)).
Definition IsNearConditionalJump (target instruction_size : Z) : M code bool :=
  b ← byte_at target;
  if b =? 0xf then c ← byte_at (target + 1); mret ((Z.land c 0x80 =? 0x80) && (instruction_size =? 6)) else mret false.
Definition IsNearRelativeJump (target instruction_size : Z) : M code bool :=
  b ← byte_at target; mret ((b =? 0xe9) && (instruction_size =? 5)).
Definition IsNearAbsoluteCall (target instruction_size : Z) : M code bool :=
  b ← byte_at target;
  if b =? 0xff then c ← byte_at (target + 1); mret ((Z.land c 0x10 =? 0x10) && (instruction_size =? 6)) else mret false.
Definition IsNearRelativeCall (target instruction_size : Z) : M code bool :=
  b ← byte_at target; mret ((b =? 0xe8) && (instruction_size =? 5)).
Definition IsMovWithDisplacement (target instruction_size : Z) : M code bool :=
  if instruction_size =? 7 then
    b ← byte_at target;
    if b =? 0x48 then
      c ← byte_at (target + 1);
      if c =? 0x8b then
        r ← byte_at (target + 2);
        mret ((Z.shiftr r 6 =? 0) && (Z.land r 0x7 =? 5))
      else mret false
    else mret false
  else mret false.

(** The four relocations: the error, and the bytes needed ([*target_bytes],
    0 where the code leaves it alone). *)
Definition PatchShortConditionalJump (source instruction_size target target_size : Z) : M code (SideStepError * Z) :=
  off ← byte_at (source + 1);
  let original_jump_dest := ptr (source + 2 + s8 off) in
  let stub_jump_from := ptr (target + 6) in
  let fixup_jump_offset := dist original_jump_dest stub_jump_from in
  if (INT_MAX <? fixup_jump_offset) || (fixup_jump_offset <? INT_MIN) then mret (SIDESTEP_JUMP_INSTRUCTION, 0)
  else
    (if 6 <? target_size then
       b ← byte_at source;
       let jmpcode := u16 (Z.lor (Z.shiftl (Z.lor 0x80 (Z.land b 0xf)) 8) 0x0f) in
       _ ← write target (le 2 jmpcode); write (target + 2) (le 4 fixup_jump_offset)
     else mret tt) ≫= fun _ => mret (SIDESTEP_SUCCESS, 6).

Definition PatchShortJump (source instruction_size target target_size : Z) : M code (SideStepError * Z) :=
  off ← byte_at (source + 1);
  let original_jump_dest := ptr (source + 2 + s8 off) in
  let stub_jump_from := ptr (target + 5) in
  let fixup_jump_offset := dist original_jump_dest stub_jump_from in
  if (INT_MAX <? fixup_jump_offset) || (fixup_jump_offset <? INT_MIN) then mret (SIDESTEP_JUMP_INSTRUCTION, 0)
  else
    (if 5 <? target_size then
       _ ← write target [0xe9]; write (target + 1) (le 4 fixup_jump_offset)
     else mret tt) ≫= fun _ => mret (SIDESTEP_SUCCESS, 5).

Definition PatchNearJumpOrCall (source instruction_size target target_size : Z) : M code (SideStepError * Z) :=
  let jmp_offset_in_instruction := if instruction_size =? 5 then 1 else 2 in
  off ← int_at (source + jmp_offset_in_instruction);
  let original_jump_dest := ptr (source + instruction_size + off) in
  let stub_jump_from := ptr (target + instruction_size) in
  let fixup_jump_offset := dist original_jump_dest stub_jump_from in
  if (INT_MAX <? fixup_jump_offset) || (fixup_jump_offset <? INT_MIN) then mret (SIDESTEP_JUMP_INSTRUCTION, 0)
  else if (fixup_jump_offset <? SCHAR_MAX) && (SCHAR_MIN <? fixup_jump_offset) then
    (if 2 <? target_size then
       b ← byte_at source;
       c ← (if b =? ASM_JCC32REL_0 then byte_at (source + 1) else mret 0);
       if (b =? ASM_JCC32REL_0) && (Z.land c ASM_JCC32REL_1_MASK =? ASM_JCC32REL_1_MASK) then
         let jmpcode := u16 (Z.lor (Z.shiftl (u8 fixup_jump_offset) 8) (Z.lor 0x70 (Z.land c 0xf))) in
         write target (le 2 jmpcode)
       else
         _ ← write target [ASM_JMP8REL]; write (target + 1) [u8 fixup_jump_offset]
     else mret tt) ≫= fun _ => mret (SIDESTEP_SUCCESS, 2)
  else
    (if instruction_size <? target_size then
       _ ← memcpy target source jmp_offset_in_instruction;
       write (target + jmp_offset_in_instruction) (le 4 fixup_jump_offset)
     else mret tt) ≫= fun _ => mret (SIDESTEP_SUCCESS, instruction_size).

Definition PatchMovWithDisplacement (source instruction_size target target_size : Z) : M code (SideStepError * Z) :=
  let mov_offset_in_instruction := 3 in
  off ← int_at (source + mov_offset_in_instruction);
  let original_mov_dest := ptr (source + instruction_size + off) in
  let stub_mov_from := ptr (target + instruction_size) in
  let fixup_mov_offset := dist original_mov_dest stub_mov_from in
  if (INT_MAX <? fixup_mov_offset) || (fixup_mov_offset <? INT_MIN) then mret (SIDESTEP_UNEXPECTED, 0)
  else
    (if instruction_size <? target_size then
       _ ← memcpy target source mov_offset_in_instruction;
       write (target + mov_offset_in_instruction) (le 4 fixup_mov_offset)
     else mret tt) ≫= fun _ => mret (SIDESTEP_SUCCESS, instruction_size).

(** One of the four near forms, tested in the order of the [||]. *)
Definition IsNear (p cur_bytes : Z) : M code bool :=
  a ← IsNearConditionalJump p cur_bytes;
  if a : bool then mret true else
  b ← IsNearRelativeJump p cur_bytes;
  if b : bool then mret true else
  c ← IsNearAbsoluteCall p cur_bytes;
  if c : bool then mret true else IsNearRelativeCall p cur_bytes.

(** [disassembler.Disassemble], on the memory of the state. *)
Definition Disassemble (p : Z) (d : MD) : M code (InstructionType * Z * MD) :=
  m ← getS; liftM (Md.Disassemble x64 m p 0 d).

(** The branch taken for a jump in the loop of [RawPatchWithStub]. *)
Definition move_jump (p cur_bytes stub room : Z) : M code (SideStepError * Z) :=
  a ← IsShortConditionalJump p cur_bytes;
  if a : bool then PatchShortConditionalJump p cur_bytes stub room else
  b ← IsShortJump p cur_bytes;
  if b : bool then PatchShortJump p cur_bytes stub room else
  c ← IsNear p cur_bytes;
  if c : bool then PatchNearJumpOrCall p cur_bytes stub room else mret (SIDESTEP_JUMP_INSTRUCTION, 0).

(** The body of the loop: the bytes moved into the stub, or an error. *)
Definition move_instruction (p stub room : Z) (d : MD) : M code (SideStepError + (Z * Z * MD)) :=
  '(instruction_type, cur_bytes, d) ← Disassemble p d;
  match instruction_type with
  | IT_JUMP =>
      '(jump_ret, jump_bytes) ← move_jump p cur_bytes stub room;
      if bool_decide (jump_ret <> SIDESTEP_SUCCESS) then mret (inl SIDESTEP_JUMP_INSTRUCTION)
      else mret (inr (cur_bytes, jump_bytes, d))
  | IT_RETURN => mret (inl SIDESTEP_FUNCTION_TOO_SMALL)
  | IT_GENERIC =>
      mov ← IsMovWithDisplacement p cur_bytes;
      if mov : bool then
        '(mov_ret, mov_bytes) ← PatchMovWithDisplacement p cur_bytes stub room;
        if bool_decide (mov_ret <> SIDESTEP_SUCCESS) then mret (inl SIDESTEP_UNSUPPORTED_INSTRUCTION)
        else mret (inr (cur_bytes, mov_bytes, d))
      else _ ← memcpy stub p cur_bytes; mret (inr (cur_bytes, cur_bytes, d))
  | _ => mret (inl SIDESTEP_UNSUPPORTED_INSTRUCTION)
  end.

(** Every instruction has a byte, so five rounds reach five bytes. *)
Definition patch_fuel : nat := 6.

Definition move_preamble (target preamble_stub stub_size : Z) : M code (SideStepError + (Z * Z)) :=
  loopM patch_fuel (fun '(preamble_bytes, stub_bytes, d) =>
    if preamble_bytes <? 5 then
      r ← move_instruction (target + preamble_bytes) (preamble_stub + stub_bytes) (u32 (stub_size - stub_bytes)) d;
      match r with
      | inl e => mret (inr (inl e))
      | inr (cur_bytes, moved, d) => mret (inl (u32 (preamble_bytes + cur_bytes), u32 (stub_bytes + moved), d))
      end
    else mret (inr (inr (preamble_bytes, stub_bytes)))) (0, 0, Md.MiniDisassembler x64).

(** Bytes of the trampoline, or [None] where the stub is too far. *)
Definition trampoline_bytes (target replacement_function preamble_stub : Z) : option Z :=
  if x64 then
    let replacement_target_offset := s64 (replacement_function - target - 5) in
    if (INT_MAX <? replacement_target_offset) || (replacement_target_offset <? INT_MIN) then
      let trampoline_offset := s64 (preamble_stub - target - 5) in
      if (INT_MAX <? trampoline_offset) || (trampoline_offset <? INT_MIN) then None else Some 13
    else Some 0
  else Some 0.

(** [endbr32] or [endbr64] at the target is kept. *)
Definition skip_endbr (target : Z) : M code Z :=
  a ← byte_at target;
  if negb (a =? 0xf3) then mret target else
  b ← byte_at (target + 1);
  if negb (b =? 0x0f) then mret target else
  c ← byte_at (target + 2);
  if negb (c =? 0x1e) then mret target else
  e ← byte_at (target + 3);
  if (e =? 0xfb) || (e =? 0xfa) then mret (target + 4) else mret target.

(** The jump back, the trampoline and the jump over the target. *)
Definition write_jumps (target replacement_function preamble_stub preamble_bytes stub_bytes trampoline : Z) : M code unit :=
  let relative_offset_to_target_rest := s32 (dist (target + preamble_bytes) (preamble_stub + stub_bytes + 5)) in
  _ ← write (preamble_stub + stub_bytes) [ASM_JMP32REL];
  _ ← write (preamble_stub + stub_bytes + 1) (le 4 relative_offset_to_target_rest);
  replacement_function ←
    (if x64 && negb (trampoline =? 0) then
       let trampoline_pos := stub_bytes + 5 in
       _ ← write (preamble_stub + trampoline_pos) [ASM_NOP];
       _ ← write (preamble_stub + trampoline_pos + 1) [ASM_REXW];
       _ ← write (preamble_stub + trampoline_pos + 2) [ASM_MOVRAX_IMM];
       _ ← write (preamble_stub + trampoline_pos + 3) (le ptr_bytes replacement_function);
       _ ← write (preamble_stub + trampoline_pos + 11) [ASM_JMP];
       _ ← write (preamble_stub + trampoline_pos + 12) [ASM_JMP_RAX];
       mret (preamble_stub + trampoline_pos)
     else mret replacement_function);
  _ ← write target [ASM_JMP32REL];
  let offset_to_replacement_function := s32 (dist replacement_function target - 5) in
  _ ← write (target + 1) (le 4 offset_to_replacement_function);
  if 5 <? preamble_bytes then memset (target + 5) ASM_INT3 (preamble_bytes - 5) else mret tt.

(** The error and the value stored through [bytes_needed], if it is. *)
Definition RawPatchWithStub (target_function replacement_function preamble_stub stub_size : Z) : M code (SideStepError * option Z) :=
  if (target_function =? 0) || (replacement_function =? 0) || (preamble_stub =? 0) then mret (SIDESTEP_INVALID_PARAMETER, None)
  else
    _ ← (if stub_size =? 0 then mret tt else memset preamble_stub 0xcc stub_size);
    match trampoline_bytes target_function replacement_function preamble_stub with
    | None => mret (SIDESTEP_UNEXPECTED, None)
    | Some required_trampoline_bytes =>
        target ← skip_endbr target_function;
        r ← move_preamble target preamble_stub stub_size;
        match r with
        | inl e => mret (e, None)
        | inr (preamble_bytes, stub_bytes) =>
            let needed := u32 (stub_bytes + 5 + required_trampoline_bytes) in
            if stub_size <? needed then mret (SIDESTEP_INSUFFICIENT_BUFFER, Some needed)
            else
              _ ← write_jumps target replacement_function preamble_stub preamble_bytes stub_bytes required_trampoline_bytes;
              mret (SIDESTEP_SUCCESS, Some needed)
        end
    end.

(** Where a jump at the target goes: the address behind a chain of jumps.
    [jmp32rel] is the code at that label. *)
Definition jmp32rel (target : Z) : M code Z :=
  new_target_v ←
    (if x64 then target_offset ← int_at (target + 2); mret (ptr (target + target_offset + 6))
     else l ← (m ← getS; liftM (rdn m (target + 2) 4)); mret (le_val l));
  pointer_at new_target_v.

(** One round of the loop: the address jumped to, and the jump's own (behind
    a REX prefix), or [None] where there is no jump. *)
Definition follow_jump (target : Z) : M code (option (Z * Z)) :=
  b ← byte_at target;
  if b =? ASM_JMP32REL then off ← int_at (target + 1); mret (Some (ptr (target + 5 + off), target))
  else if b =? ASM_JMP8REL then off ← byte_at (target + 1); mret (Some (ptr (target + 2 + s8 off), target))
  else
    abs ← (if b =? ASM_JMP32ABS_0 then c ← byte_at (target + 1); mret (c =? ASM_JMP32ABS_1) else mret false);
    if abs : bool then n ← jmp32rel target; mret (Some (n, target))
    else if x64 && (b =? ASM_REXW) then
      c ← byte_at (target + 1);
      if c =? ASM_JMP32ABS_0 then
        e ← byte_at (target + 2);
        if e =? ASM_JMP32ABS_1 then n ← jmp32rel (target + 1); mret (Some (n, target + 1)) else mret None
      else mret None
    else mret None.

(** Does a trampoline start here? *)
Definition is_trampoline (p : Z) : M code bool :=
  a ← byte_at p;
  if negb (a =? ASM_NOP) then mret false else
  b ← byte_at (p + 1);
  if negb (b =? ASM_REXW) then mret false else
  c ← byte_at (p + 2); mret (c =? ASM_MOVRAX_IMM).

Definition ResolveTargetImpl (fuel : nat) (target stop_before : Z) (stop_before_trampoline : bool) : M code Z :=
  if target =? 0 then mret 0
  else loopM fuel (fun target =>
    r ← follow_jump target;
    match r with
    | None => mret (inr target)
    | Some (new_target, target) =>
        if new_target =? stop_before then mret (inr target)
        else
          t ← (if stop_before_trampoline then is_trampoline new_target else mret false);
          if t : bool then mret (inr target) else mret (inl new_target)
    end) target.

Definition ResolveTarget (fuel : nat) (target_function : Z) : M code Z := ResolveTargetImpl fuel target_function 0 false.

(** The loop of [Unpatch]: instructions of the stub go back to the target. The
    state is the bytes taken from the stub and those put at the target. *)
Definition restore_instruction (stub target : Z) (d : MD) : M code (SideStepError + (Z * Z * MD)) :=
  '(instruction_type, cur_bytes, d) ← Disassemble stub d;
  match instruction_type with
  | IT_JUMP =>
      n ← IsNear stub cur_bytes;
      '(jump_ret, jump_bytes) ←
        (if n : bool then PatchNearJumpOrCall stub cur_bytes target MAX_PREAMBLE_STUB_SIZE else mret (SIDESTEP_JUMP_INSTRUCTION, 0));
      if bool_decide (jump_ret = SIDESTEP_JUMP_INSTRUCTION) then mret (inl SIDESTEP_UNSUPPORTED_INSTRUCTION)
      else mret (inr (cur_bytes, jump_bytes, d))
  | IT_GENERIC =>
      mov ← IsMovWithDisplacement stub cur_bytes;
      if mov : bool then
        '(mov_ret, _) ← PatchMovWithDisplacement stub cur_bytes target MAX_PREAMBLE_STUB_SIZE;
        if bool_decide (mov_ret <> SIDESTEP_SUCCESS) then mret (inl SIDESTEP_UNSUPPORTED_INSTRUCTION)
        else mret (inr (cur_bytes, 0, d))
      else _ ← memcpy target stub cur_bytes; mret (inr (cur_bytes, cur_bytes, d))
  | _ => mret (inl SIDESTEP_UNSUPPORTED_INSTRUCTION)
  end.

Definition restore_preamble (fuel : nat) (preamble_stub target : Z) : M code (SideStepError + Z) :=
  loopM fuel (fun '(preamble_bytes, target_bytes, d) =>
    if target_bytes <? 5 then
      r ← restore_instruction (preamble_stub + preamble_bytes) (target + target_bytes) d;
      match r with
      | inl e => mret (inr (inl e))
      | inr (cur_bytes, moved, d) => mret (inl (u32 (preamble_bytes + cur_bytes), u32 (target_bytes + moved), d))
      end
    else mret (inr (inr target_bytes))) (0, 0, Md.MiniDisassembler x64).

End Code.
End Pp.

(** ** The operating system and the patcher's own state *)
Class Windows (OS : Type) := {
  VirtualProtect : Z -> Z -> Z -> OS -> bool * Z * OS;
  FlushInstructionCache : Z -> Z -> OS -> bool * OS;
  VirtualQuery : Z -> OS -> option Z;
  VirtualAlloc : Z -> Z -> OS -> Z * OS;
  dwAllocationGranularity : Z;
  dwPageSize : Z }.

Definition PAGE_EXECUTE_READWRITE : Z := 0x40.

(** The static members, the memory and the system. *)
Record Patcher (OS : Type) := mkPatcher {
  mem : code; preamble_pages_ : Z; granularity_ : Z; pagesize_ : Z; initialized_ : bool; os : OS }.
Arguments mkPatcher {OS}.
Arguments mem {OS}.
Arguments preamble_pages_ {OS}.
Arguments granularity_ {OS}.
Arguments pagesize_ {OS}.
Arguments initialized_ {OS}.
Arguments os {OS}.

Definition kPreamblePageMagic : Z := 0x4347414D.

Module Pt.
Section Code.
Context {OS : Type} `{W : Windows OS} (x64 : bool) (resolve_fuel : nat).
Notation Patcher := (Patcher OS).

Definition set_mem (m : code) (s : Patcher) : Patcher :=
  mkPatcher m (preamble_pages_ s) (granularity_ s) (pagesize_ s) (initialized_ s) (os s).
Definition set_os (o : OS) (s : Patcher) : Patcher :=
  mkPatcher (mem s) (preamble_pages_ s) (granularity_ s) (pagesize_ s) (initialized_ s) o.
Definition set_pages (p : Z) (s : Patcher) : Patcher :=
  mkPatcher (mem s) p (granularity_ s) (pagesize_ s) (initialized_ s) (os s).

Definition on_mem {A} (f : M code A) : M Patcher A := fun s => '(a, m) ← f (mem s); Ret (a, set_mem m s).

Definition protect (p n prot : Z) : M Patcher (bool * Z) := fun s =>
  let '(ok, old, o) := VirtualProtect p n prot (os s) in Ret (ok, old, set_os o s).
Definition flush (p n : Z) : M Patcher bool := fun s =>
  let '(ok, o) := FlushInstructionCache p n (os s) in Ret (ok, set_os o s).

(** Memory from the system is zero. *)
Definition virtual_alloc (p n : Z) : M Patcher Z := fun s =>
  let '(pv, o) := VirtualAlloc p n (os s) in
  Ret (pv, set_os o (if pv =? 0 then s else set_mem (mem s ∪ load pv (replicate (Z.to_nat n) 0)) s)).

Definition Initialize : M Patcher unit := modS (fun s =>
  if initialized_ s then s else mkPatcher (mem s) (preamble_pages_ s) dwAllocationGranularity dwPageSize true (os s)).

(** Attempts at multiples of the granularity, below or above a base, while
    [stop] allows; [i] is the counter of the loop. *)
Definition try_pages (fuel : nat) (at_i : Z -> Z) (stop : Z -> bool) (n : Z) : M Patcher Z :=
  loopM fuel (fun i => if stop i then mret (inr 0)
                       else pv ← virtual_alloc (at_i i) n; if pv =? 0 then mret (inl (i + 1)) else mret (inr pv)) 1.

Definition page_fuel (g : Z) : nat := Z.to_nat (2 ^ 32 / g + 2).

Definition AllocPageNear (target : Z) : M Patcher Z :=
  s ← getS;
  match VirtualQuery target (os s) with
  | None => mret 0
  | Some allocation_base =>
      _ ← Initialize;
      s ← getS;
      let g := granularity_ s in
      let high_target := UINT_MAX <? s64 target in
      pv ← try_pages (page_fuel g) (fun i => allocation_base - i * g)
             (fun i => let val := s64 allocation_base - i * g in (high_target && (INT_MAX <? s64 target - val)) || (val <=? 0)) (pagesize_ s);
      if negb (pv =? 0) then mret pv
      else
        let allocation_base := Z.land (s64 target) (Z.lnot (g - 1)) + g in
        try_pages (page_fuel g) (fun i => allocation_base + i * g)
          (fun i => let val := s64 allocation_base + i * g - s64 target in (INT_MAX <? val) || (val <? 0)) (pagesize_ s)
  end.

(** [PreamblePage]: [magic_], [next_] and [free_] at their offsets. *)
Definition next_ : Z := if x64 then 8 else 4.
Definition free_ : Z := if x64 then 16 else 8.
Definition pointer (p : Z) : M Patcher Z := on_mem (Pp.pointer_at x64 p).
Definition set_pointer (p v : Z) : M Patcher unit := on_mem (write p (le (Pp.ptr_bytes x64) v)).

(** Is the block's page near enough to the target? *)
Definition near (preamble_page target pagesize : Z) : bool :=
  let val := s64 preamble_page - s64 target in
  ((0 <? val) && (val + pagesize <=? INT_MAX)) || ((val <? 0) && (INT_MIN <=? val)).

(** The first page of the list with a free block near the target. *)
Definition find_page (fuel : nat) (target : Z) : M Patcher Z :=
  s ← getS;
  loopM fuel (fun preamble_page =>
    if preamble_page =? 0 then mret (inr 0)
    else
      free ← pointer (preamble_page + free_);
      if negb (free =? 0) && near preamble_page target (pagesize_ s) then mret (inr preamble_page)
      else next ← pointer (preamble_page + next_); mret (inl next)) (preamble_pages_ s).

(** The free list of a new page: every block but the first, in order. *)
Definition init_page (fuel : nat) (preamble_page : Z) : M Patcher unit :=
  s ← getS;
  let limit := preamble_page + pagesize_ s in
  pp ← loopM fuel (fun '(pp, ptr) =>
         if ptr <? limit then _ ← set_pointer pp ptr; mret (inl (ptr, ptr + Pp.MAX_PREAMBLE_STUB_SIZE x64))
         else mret (inr pp)) (preamble_page + free_, preamble_page + Pp.MAX_PREAMBLE_STUB_SIZE x64);
  _ ← set_pointer pp 0;
  _ ← on_mem (write preamble_page (le 4 kPreamblePageMagic));
  _ ← set_pointer (preamble_page + next_) (preamble_pages_ s);
  modS (set_pages preamble_page).

(** [walk_fuel] bounds the pages of the list. *)
Definition AllocPreambleBlockNear (walk_fuel : nat) (target : Z) : M Patcher Z :=
  preamble_page ← find_page walk_fuel target;
  preamble_page ←
    (if preamble_page =? 0 then
       preamble_page ← AllocPageNear target;
       _ ← (s ← getS; init_page (Z.to_nat (pagesize_ s)) preamble_page);
       mret preamble_page
     else mret preamble_page);
  ret ← pointer (preamble_page + free_);
  next ← pointer ret;
  _ ← set_pointer (preamble_page + free_) next;
  mret ret.

Definition FreePreambleBlock (block : Z) : M Patcher unit :=
  s ← getS;
  let preamble_page := block - Z.land block (granularity_ s - 1) in
  free ← pointer (preamble_page + free_);
  _ ← set_pointer block free;
  set_pointer (preamble_page + free_) block.

Definition RawPatchWithStubAndProtections (target_function replacement_function preamble_stub stub_size : Z)
    : M Patcher (SideStepError * option Z) :=
  '(succeeded, old) ← protect target_function (Pp.MAX_PREAMBLE_STUB_SIZE x64) PAGE_EXECUTE_READWRITE;
  if negb succeeded then mret (SIDESTEP_ACCESS_DENIED, None)
  else
    '(error_code, needed) ← on_mem (Pp.RawPatchWithStub x64 target_function replacement_function preamble_stub stub_size);
    _ ← protect target_function (Pp.MAX_PREAMBLE_STUB_SIZE x64) old;
    if bool_decide (error_code <> SIDESTEP_SUCCESS) then mret (error_code, needed)
    else
      _ ← flush target_function (Pp.MAX_PREAMBLE_STUB_SIZE x64);
      mret (SIDESTEP_SUCCESS, needed).

(** The error and, on success, the stub stored through
    [original_function_stub], whose old value is an argument; [None] is a null
    pointer there. *)
Definition RawPatch (walk_fuel : nat) (target_function replacement_function : Z) (original_function_stub : option Z)
    : M Patcher (SideStepError * option Z) :=
  match original_function_stub with
  | None => mret (SIDESTEP_INVALID_PARAMETER, None)
  | Some old_stub =>
      if (target_function =? 0) || (replacement_function =? 0) || negb (old_stub =? 0) || (target_function =? replacement_function)
      then mret (SIDESTEP_INVALID_PARAMETER, None)
      else
        target_function ← on_mem (Pp.ResolveTarget x64 resolve_fuel target_function);
        preamble_stub ← AllocPreambleBlockNear walk_fuel target_function;
        if preamble_stub =? 0 then mret (SIDESTEP_INSUFFICIENT_BUFFER, None)
        else
          '(error_code, _) ← RawPatchWithStubAndProtections target_function replacement_function preamble_stub (Pp.MAX_PREAMBLE_STUB_SIZE x64);
          if bool_decide (error_code <> SIDESTEP_SUCCESS) then
            _ ← FreePreambleBlock preamble_stub; mret (error_code, None)
          else
            _ ← flush target_function (Pp.MAX_PREAMBLE_STUB_SIZE x64);
            mret (SIDESTEP_SUCCESS, Some preamble_stub)
  end.

(** [restore_fuel] bounds the instructions of the stub. *)
Definition Unpatch (restore_fuel : nat) (target_function replacement_function original_function_stub : Z) : M Patcher SideStepError :=
  if (target_function =? 0) || (replacement_function =? 0) || (original_function_stub =? 0) then mret SIDESTEP_INVALID_PARAMETER
  else
    target ← on_mem (Pp.ResolveTargetImpl x64 resolve_fuel target_function replacement_function true);
    b ← on_mem (byte_at target);
    if negb (b =? ASM_JMP32REL) then mret SIDESTEP_INVALID_PARAMETER
    else
      '(succeeded, old) ← protect target 5 PAGE_EXECUTE_READWRITE;
      if negb succeeded then mret SIDESTEP_ACCESS_DENIED
      else
        r ← on_mem (Pp.restore_preamble x64 restore_fuel original_function_stub target);
        match r with
        | inl e => mret e
        | inr _ =>
            _ ← FreePreambleBlock original_function_stub;
            _ ← protect target 5 old;
            succeeded ← flush target (Pp.MAX_PREAMBLE_STUB_SIZE x64);
            if negb succeeded then mret SIDESTEP_UNEXPECTED else mret SIDESTEP_SUCCESS
        end.

End Code.
End Pt.
