(* ===== verification/PreamblePatcherSpec.v ===== *)
(** * What patching and unpatching do

    The effect of an instruction is what it does at its own address: a jump,
    a conditional jump or a call to an address, an operation on an operand
    relative to the next instruction, or plain bytes. [RawPatchWithStub] either fails and leaves
    everything but the stub alone, or leaves at the target a jump to the
    replacement and in the stub the same effects in the same order, followed
    by a jump to the rest of the target. The forms for which this is not so
    are named in [flawed]. [Unpatch] puts the original bytes back where the
    preamble has none of the forms it handles differently. *)

From stdpp Require Import strings.
From S2P Require Import Prelude Ia32Tables MiniDisassembler PreamblePatcher.
Local Open Scope Z_scope.

(** ** Words *)
Lemma le_4 z : le 4 z = [z mod 256; (z / 256) mod 256; (z / 65536) mod 256; (z / 16777216) mod 256].
Proof. unfold le. cbn. by rewrite Z.div_1_r. Qed.

Lemma le_val_4 z : le_val (le 4 z) = u32 z.
Proof. rewrite le_4. unfold u32. cbn. zdiv. Qed.

Lemma s32_u32 z : s32 (u32 z) = s32 z.
Proof. unfold s32, u32. zdiv. Qed.

(** An offset read back is the offset written, when it is an [int]. *)
Lemma offset_back z : INT_MIN <= z <= INT_MAX -> s32 (le_val (le 4 z)) = z.
Proof. unfold INT_MIN, INT_MAX. intros Hz. rewrite le_val_4, s32_u32. apply s32_small. lia. Qed.

Lemma le_length n z : length (le n z) = n.
Proof. unfold le. by rewrite length_fmap, length_seq. Qed.

Lemma le_bytes n z : Forall (fun b => 0 <= b < 256) (le n z).
Proof. unfold le. apply Forall_fmap, Forall_true. intros i. cbn. apply Z.mod_pos_bound. lia. Qed.

Lemma le_4_add z k : le 4 (z + 2 ^ 32 * k) = le 4 z.
Proof.
  rewrite !le_4. replace (z + 2 ^ 32 * k) with (z + 2 ^ 24 * k * 256) by lia.
  rewrite Z.div_add by lia. replace (z + 2 ^ 24 * k * 256) with (z + 2 ^ 16 * k * 65536) by lia. rewrite Z.div_add by lia.
  replace (z + 2 ^ 16 * k * 65536) with (z + 2 ^ 8 * k * 16777216) by lia. rewrite Z.div_add by lia.
  repeat (f_equal; [zdiv|]). f_equal. zdiv.
Qed.

Lemma s32_ex z : exists k, s32 z = z + 2 ^ 32 * k.
Proof. exists (- ((z + 2 ^ 31) / 2 ^ 32)). unfold s32. zdiv. Qed.

(** Four bytes are the bytes of the [int] they stand for. *)
Lemma le_of_bytes l : length l = 4%nat -> Forall (fun b => 0 <= b < 256) l -> le 4 (s32 (le_val l)) = l.
Proof.
  destruct l as [|a [|b [|c [|d [|]]]]]; try done. intros _ Hf.
  apply Forall_cons in Hf as [Ha [Hb [Hc [Hd _]%Forall_cons]%Forall_cons]%Forall_cons].
  destruct (s32_ex (le_val [a; b; c; d])) as [k ->]. rewrite le_4_add, le_4. cbn. repeat (f_equal; [zdiv|]). f_equal. zdiv.
Qed.

(** ** Memory *)
Lemma lookup_load p l a : load p l !! a = if decide (p <= a) then l !! Z.to_nat (a - p) else None.
Proof.
  unfold load. revert p. induction l as [|b l IH]; intros p.
  { transitivity (@None Z); [apply lookup_empty|by destruct (decide _)]. }
  rewrite imap_cons. cbn beta. rewrite list_to_map_cons. replace (p + Z.of_nat 0) with p by lia.
  replace (imap ((fun i b => (p + Z.of_nat i, b)) ∘ S) l) with (imap (fun i b => (p + 1 + Z.of_nat i, b)) l).
  2: { apply imap_ext. intros i x _. cbn. f_equal. lia. }
  destruct (decide (a = p)) as [->|Hne].
  { rewrite lookup_insert_eq, decide_True by lia. by replace (Z.to_nat (p - p)) with 0%nat by lia. }
  rewrite lookup_insert_ne, IH by done. destruct (decide (p <= a)), (decide (p + 1 <= a)); try lia; [|done].
  by replace (Z.to_nat (a - p)) with (S (Z.to_nat (a - (p + 1)))) by lia.
Qed.

Lemma lookup_store m p l a : store m p l !! a = if decide (p <= a < p + Z.of_nat (length l)) then l !! Z.to_nat (a - p) else m !! a.
Proof.
  unfold store. rewrite lookup_union, lookup_load. destruct (decide (p <= a < _)) as [Ha|Ha].
  - rewrite decide_True by lia. destruct (lookup_lt_is_Some_2 l (Z.to_nat (a - p))) as [b ->]; [lia|]. by destruct (m !! a).
  - destruct (decide (p <= a)); [|by rewrite (left_id_L None _)].
    rewrite (proj2 (lookup_ge_None l _)) by lia. by rewrite (left_id_L None _).
Qed.

Lemma at_store m p l : at_ (store m p l) p l.
Proof.
  intros i b Hi. pose proof (lookup_lt_Some _ _ _ Hi). rewrite lookup_store, decide_True by lia.
  by replace (Z.to_nat (p + Z.of_nat i - p)) with i by lia.
Qed.

(** A step that writes bytes within an interval. *)
Definition writes (lo hi : Z) (m m' : code) : Prop :=
  (forall a, ~ (lo <= a < hi) -> m' !! a = m !! a) /\ (forall a, is_Some (m' !! a) <-> is_Some (m !! a)) /\
  (forall p b, m' !! p = Some b -> m !! p = Some b \/ 0 <= b < 256).

#[export] Instance writes_preorder lo hi : PreOrder (writes lo hi).
Proof.
  split.
  - intros m. split_and!; [done..|auto].
  - intros m1 m2 m3 (A1 & B1 & C1) (A2 & B2 & C2). split_and!.
    + intros a Ha. by rewrite A2, A1.
    + intros a. by rewrite B2, B1.
    + intros p b Hb. destruct (C2 _ _ Hb); auto.
Qed.

Lemma writes_weaken lo hi lo' hi' m m' : writes lo hi m m' -> lo' <= lo -> hi <= hi' -> writes lo' hi' m m'.
Proof. intros (A & B & C) ??. split_and!; [|done..]. intros a Ha. apply A. lia. Qed.

Lemma writes_ok lo hi m m' : writes lo hi m m' -> code_ok m -> code_ok m'.
Proof.
  intros (_ & B & C) [Hb Hs]. split; [intros p b Hp; destruct (C _ _ Hp); eauto|].
  enough (dom m' = dom m) as E by (by rewrite <- size_dom, E, size_dom). apply set_eq. intros a. by rewrite !elem_of_dom.
Qed.

Lemma writes_at lo hi m m' p l : writes lo hi m m' -> at_ m p l -> p + Z.of_nat (length l) <= lo \/ hi <= p -> at_ m' p l.
Proof.
  intros (A & _) Hat Hd i b Hi. pose proof (lookup_lt_Some _ _ _ Hi). rewrite A by lia. by apply Hat.
Qed.

(** [n] readable bytes. *)
Definition readable (m : code) (p n : Z) : Prop := forall a, p <= a < p + n -> is_Some (m !! a).

Lemma writes_readable lo hi m m' p n : writes lo hi m m' -> readable m p n -> readable m' p n.
Proof. intros (_ & B & _) H a Ha. apply B. auto. Qed.

Lemma readable_bytes m p n : readable m p (Z.of_nat n) -> exists l, length l = n /\ at_ m p l.
Proof.
  revert p. induction n as [|n IH]; intros p H; [exists []; split; [done|apply at_nil]|].
  destruct (IH (p + 1)) as (l & Hl & Hat); [intros a Ha; apply H; lia|]. destruct (H p ltac:(lia)) as [b Hb].
  exists (b :: l). rewrite at_cons. cbn. auto.
Qed.

Lemma at_readable m p l : at_ m p l -> readable m p (Z.of_nat (length l)).
Proof.
  intros H a Ha. destruct (lookup_lt_is_Some_2 l (Z.to_nat (a - p))) as [b Hb]; [lia|]. exists b.
  specialize (H _ _ Hb). by replace (p + Z.of_nat (Z.to_nat (a - p))) with a in H by lia.
Qed.

Lemma at_rdn m p l : at_ m p l -> rdn m p (length l) = Ret l.
Proof.
  revert p. induction l as [|b l IH]; intros p H; [done|]. apply at_cons in H as [Hb H]. cbn. unfold rd. rewrite Hb. obind. by rewrite IH.
Qed.

Lemma wp_write_bytes p l (Q : unit -> code -> Prop) m : readable m p (Z.of_nat (length l)) ->
  Forall (fun b => 0 <= b < 256) l ->
  (forall m', m' = store m p l -> writes p (p + Z.of_nat (length l)) m m' -> at_ m' p l -> Q tt m') -> wp (write p l) Q m.
Proof.
  intros Hr Hf HQ. unfold wp, write.
  assert (mapped m p (length l) = true) as ->.
  { unfold mapped. apply forallb_forall. intros i Hi%list_elem_of_In%elem_of_seq. apply bool_decide_eq_true. apply Hr. lia. }
  apply HQ; [done| |apply at_store]. split_and!.
  - intros a Ha. by rewrite lookup_store, decide_False.
  - intros a. rewrite lookup_store. destruct (decide _) as [Ha|]; [|done]. split; intros _; [by apply Hr|]. apply lookup_lt_is_Some_2. lia.
  - intros a b. rewrite lookup_store. destruct (decide _); [|auto]. intros Hb. right. rewrite Forall_forall in Hf. apply Hf. by eapply list_elem_of_lookup_2.
Qed.

Lemma wp_byte p b (Q : Z -> code -> Prop) m : m !! p = Some b -> Q b m -> wp (byte_at p) Q m.
Proof. intros Hb HQ. unfold byte_at. wp_steps. unfold rd. rewrite Hb. by apply (wp_lift _ b). Qed.

Lemma wp_int p l (Q : Z -> code -> Prop) m : at_ m p l -> length l = 4%nat -> Q (s32 (le_val l)) m -> wp (int_at p) Q m.
Proof. intros Hat Hl HQ. unfold int_at. wp_steps. apply (wp_lift _ l); [by rewrite <- Hl, at_rdn|]. by wp_steps. Qed.

Lemma wp_memcpy dst src l (Q : unit -> code -> Prop) m : at_ m src l -> readable m dst (Z.of_nat (length l)) -> Forall (fun b => 0 <= b < 256) l ->
  (forall m', m' = store m dst l -> writes dst (dst + Z.of_nat (length l)) m m' -> at_ m' dst l -> Q tt m') -> wp (memcpy dst src (Z.of_nat (length l))) Q m.
Proof.
  intros Hat Hr Hf HQ. unfold memcpy. wp_steps. rewrite Nat2Z.id. apply (wp_lift _ l); [by apply at_rdn|]. by apply wp_write_bytes.
Qed.

(** ** Effects *)
Inductive effect :=
  | Jump (dest : Z) | Jcc (cc dest : Z) | Call (dest : Z)
  | Relative (front back : list Z) (addr : Z) | Plain (l : list Z).

(** ** Which two-byte opcodes are jumps *)
Definition variants (o : Opcode) : list SpecificOpcode := [specific o; opcode_if_f2_prefix_ o; opcode_if_f3_prefix_ o; opcode_if_66_prefix_ o].
Definition no_jump (o : Opcode) : bool := forallb (fun so => negb (bool_decide (sp_type_ so = IT_JUMP))) (variants o).

(** Behind [0F], only 80 to 8F among the bytes from 80 on are jumps, and the
    tables that are referred to have none. *)
Definition row_jumps (i k : nat) (o : Opcode) : bool :=
  if (16 <=? i)%nat then no_jump o && negb (bool_decide (type_ o = IT_REFERENCE))
  else if (i =? 1)%nat then
    (if bool_decide (type_ o = IT_REFERENCE) then 16 <=? table_index_ o else (k <? 0x90)%nat || no_jump o)
  else true.

Lemma rows_jumps x64 i T k o : s_ia32_opcode_map_ x64 !! i = Some T -> table_ T !! k = Some o -> row_jumps i k o = true.
Proof.
  assert (forallb (forallb id) (imap (fun i T => imap (row_jumps i) (table_ T)) (s_ia32_opcode_map_ x64)) = true) as H
    by (destruct x64; vm_compute; reflexivity).
  intros HT Ho. rewrite forallb_forall in H. specialize (H (imap (row_jumps i) (table_ T))). rewrite forallb_forall in H.
  apply (H ltac:(apply list_elem_of_In, elem_of_lookup_imap; eauto) (row_jumps i k o)), list_elem_of_In, elem_of_lookup_imap. eauto.
Qed.

Lemma entry_rows x64 i b T o : Format.entry x64 i b = Some (T, o) ->
  s_ia32_opcode_map_ x64 !! Z.to_nat i = Some T /\ table_ T !! Z.to_nat ((b / 2 ^ shift_ T) mod (mask_ T + 1)) = Some o.
Proof.
  unfold Format.entry. destruct (s_ia32_opcode_map_ x64 !! Z.to_nat i) as [T0|]; [|done]. cbn [mbind option_bind].
  destruct (bool_decide _); [|done]. destruct (table_ T0 !! _) as [o0|] eqn:Ho; [|done]. cbn. intros. by simplify_eq.
Qed.

Lemma no_jump_variant M o : no_jump o = true -> sp_type_ (Format.variant M o) <> IT_JUMP.
Proof.
  unfold no_jump. rewrite forallb_forall. intros H E. specialize (H (Format.variant M o)). rewrite bool_decide_eq_true_2 in H by done.
  discriminate H. apply list_elem_of_In, variant_in.
Qed.

Lemma extension_no_jump x64 j esc b T o M : Format.opcode_at x64 j esc b T o -> 16 <= j -> sp_type_ (Format.variant M o) <> IT_JUMP.
Proof.
  intros Ho Hj. destruct Ho as [j b T o He _ _|j b T o esc b' T' o' He Hr _]; apply entry_rows in He as [H1 H2];
    pose proof (rows_jumps _ _ _ _ _ H1 H2) as H; unfold row_jumps in H; rewrite (proj2 (Nat.leb_le 16 (Z.to_nat j))) in H by lia;
    apply andb_true_iff in H as [Hn Hf].
  - by apply no_jump_variant.
  - by rewrite bool_decide_eq_true_2 in Hf.
Qed.

Section Effects.
Context (x64 : bool).
Notation ptr := (Pp.ptr x64).
Notation dist := (Pp.dist x64).

(** An instruction that is no relative jump or call: what it does depends on
    its address [p] only through an operand relative to its end. *)
Definition other_effect (p : Z) (l : list Z) : effect :=
  match Manual.rip_relative x64 l with
  | Some k => Relative (take k l) (drop (k + 4) l) (ptr (p + Z.of_nat (length l) + s32 (le_val (take 4 (drop k l)))))
  | None => Plain l
  end.

(** What the instruction [l] of type [t] does at address [p]. *)
Definition effect_of (t : InstructionType) (p : Z) (l : list Z) : effect :=
  match t, l with
  | IT_JUMP, [b; o] =>
      if b =? 0xEB then Jump (ptr (p + 2 + s8 o)) else if b / 16 =? 7 then Jcc (b mod 16) (ptr (p + 2 + s8 o)) else other_effect p l
  | IT_JUMP, [b; o1; o2; o3; o4] =>
      let dest := ptr (p + 5 + s32 (le_val [o1; o2; o3; o4])) in
      if b =? 0xE9 then Jump dest else if b =? 0xE8 then Call dest else other_effect p l
  | IT_JUMP, [b; c; o1; o2; o3; o4] =>
      if (b =? 0x0F) && (c / 16 =? 8) then Jcc (c mod 16) (ptr (p + 6 + s32 (le_val [o1; o2; o3; o4]))) else other_effect p l
  | _, _ => other_effect p l
  end.

(** What the disassembler takes for one instruction of the given type, and
    what the manual does; the forms whose length it gets wrong. *)
Definition reads (t : InstructionType) (l : list Z) : Prop := exists i, Format.valid x64 true true i t /\ Format.encode i = l.
Definition genuine (t : InstructionType) (l : list Z) : Prop := exists i, Manual.insn x64 true true i t /\ Format.encode i = l.
Definition miscounted (t : InstructionType) (l : list Z) : Prop :=
  exists i, Format.valid x64 true true i t /\ Format.encode i = l /\ Manual.regular x64 true true i = false.

(** [mov reg, [rip + disp]], the operand relative to its address that the
    code adjusts. *)
Definition adjusted_mov (l : list Z) : Prop :=
  exists r off, l = [0x48; 0x8B; r] ++ off /\ length off = 4%nat /\ r / 64 = 0 /\ r mod 8 = 5.

(** The instructions the code gets wrong when it moves them from [p] to [q]:
    calls and jumps through [FF] and jumps behind the prefixes [F0] and up,
    whose first byte is taken for that of a short conditional jump or whose
    operand for an offset; near jumps and calls that are shortened; other
    operands relative to the address; and those of another length than it
    counts. *)
Definition flawed (t : InstructionType) (p q : Z) (l : list Z) : Prop :=
  t = IT_JUMP /\ (0xF0 <= hd 0 l \/
    exists op off, l = op ++ off /\ length off = 4%nat /\
      SCHAR_MIN < dist (ptr (p + Z.of_nat (length l) + s32 (le_val off))) (ptr (q + Z.of_nat (length l))) < SCHAR_MAX) \/
  t = IT_GENERIC /\ is_Some (Manual.rip_relative x64 l) /\ ~ adjusted_mov l \/
  miscounted t l.

(** The instruction [l] at [p] has become [s] at [q]: an instruction of the
    same effect, and the same bytes unless it is a jump or the [mov] above. *)
Definition moved (t : InstructionType) (p q : Z) (l s : list Z) : Prop :=
  (t = IT_GENERIC -> ~ adjusted_mov l -> s = l) /\
  (~ flawed t p q l -> genuine t l /\ genuine t s /\ effect_of t q s = effect_of t p l).

Lemma reads_genuine t l : reads t l -> ~ miscounted t l -> genuine t l.
Proof.
  intros (i & Hv & He) Hn. exists i. split; [|done]. apply regular_same; [done| |done].
  apply not_false_iff_true. intros E. apply Hn. exists i. done.
Qed.

Lemma moved_jump p q l s : reads IT_JUMP l ->
  (~ flawed IT_JUMP p q l -> genuine IT_JUMP s /\ effect_of IT_JUMP q s = effect_of IT_JUMP p l) -> moved IT_JUMP p q l s.
Proof.
  intros Hr H. split; [done|]. intros Hf. destruct (H Hf) as [Hs He]. split; [|done]. apply reads_genuine; [done|]. intros Hm. apply Hf. by right; right.
Qed.

(** A jump that starts with [0F] and a byte from 80 on is a conditional
    jump. *)
Lemma jcc_byte c r : reads IT_JUMP (0x0F :: c :: r) -> 0x80 <= c < 256 -> c / 16 = 8.
Proof.
  intros (i & Hv & He) Hc. remember IT_JUMP as t eqn:Et. destruct Hv as [pre esc b T o op mr ops k M so Hpre Hnp Ho _ _ Ht _].
  unfold Format.encode, Format.header in He. cbn [Format.i_prefixes Format.i_opcode Format.i_modrm Format.i_operands] in He.
  destruct (tail_head _ _ _ _ _ _ _ _ Ht) as [w Hw]. rewrite <- !app_assoc, (app_assoc op), Hw in He.
  destruct pre as [|x pre]; cbn [app] in He.
  2: { exfalso. injection He as -> _. apply Forall_cons in Hpre as [Hx _]. by destruct x64. }
  inversion Ho as [i b1 T1 o1 He1 Hu1 Hr1|i b1 T1 o1 esc1 b2 T2 o2 He1 Hr1 Ho1]; subst.
  { exfalso. cbn in He. injection He as ->. apply Hr1. destruct x64; vm_compute in He1; by simplify_eq. }
  cbn [app] in He. injection He as -> He. assert (table_index_ o1 = 1) as E1 by (destruct x64; vm_compute in He1; by simplify_eq).
  rewrite E1 in Ho1. inversion Ho1 as [i b3 T3 o3 He3 Hu3 Hr3|i b3 T3 o3 esc3 b4 T4 o4 He3 Hr3 Ho3]; subst.
  - cbn in He. injection He as ->. destruct (entry_rows _ _ _ _ _ He3) as [H1 H2]. pose proof (rows_jumps _ _ _ _ _ H1 H2) as HJ.
    unfold row_jumps in HJ. cbn [Nat.leb Z.to_nat Pos.to_nat] in HJ. change (Z.to_nat 1) with 1%nat in *. cbn [Nat.leb Nat.eqb] in HJ.
    rewrite bool_decide_eq_false_2 in HJ by done.
    assert (T = mkTable s_opcode_byte_after_0f 0 0xff 0 0xff) as ->.
    { assert (Some T = Some (mkTable s_opcode_byte_after_0f 0 0xff 0 0xff)) as E by (by rewrite <- H1). congruence. }
    cbn [shift_ mask_] in HJ. rewrite Z.pow_0_r, Z.div_1_r, Z.mod_small in HJ by lia. apply orb_true_iff in HJ as [HJ|HJ].
    + apply Nat.ltb_lt in HJ. change 0x90%nat with (Z.to_nat 0x90) in HJ. assert (c < 0x90) by lia. zdiv.
    + by apply (no_jump_variant M) in HJ.
  - exfalso. destruct (entry_rows _ _ _ _ _ He3) as [H1 H2]. pose proof (rows_jumps _ _ _ _ _ H1 H2) as HJ.
    unfold row_jumps in HJ. change (Z.to_nat 1) with 1%nat in *. cbn [Nat.leb Nat.eqb] in HJ. rewrite bool_decide_eq_true_2 in HJ by done.
    apply (extension_no_jump x64 _ _ _ _ _ M) in Ho3; [done|lia].
Qed.

(** ** Relocation *)
Lemma ptr_eq a b : (exists k, a = b + 2 ^ (if x64 then 64 else 32) * k) -> ptr a = ptr b.
Proof.
  intros [k ->]. unfold Pp.ptr. destruct x64; unfold u64, u32; rewrite Z.mul_comm; apply Z.mod_add; lia.
Qed.

Lemma ptr_ex a : exists k, ptr a = a + 2 ^ (if x64 then 64 else 32) * k.
Proof.
  unfold Pp.ptr. destruct x64; [exists (- (a / 2 ^ 64))|exists (- (a / 2 ^ 32))]; unfold u64, u32; zdiv.
Qed.

Lemma dist_ex a b : exists k, dist a b = a - b + 2 ^ (if x64 then 64 else 32) * k.
Proof.
  unfold Pp.dist. destruct x64; [exists (- ((a - b + 2 ^ 63) / 2 ^ 64))|exists (- ((a - b + 2 ^ 31) / 2 ^ 32))]; unfold s64, s32; zdiv.
Qed.

Lemma ptr_dist a b : ptr (b + dist (ptr a) (ptr b)) = ptr a.
Proof.
  apply ptr_eq. destruct (ptr_ex a) as [k1 ->], (ptr_ex b) as [k2 E2].
  destruct (dist_ex (a + 2 ^ (if x64 then 64 else 32) * k1) (ptr b)) as [k3 ->]. rewrite E2. exists (k1 - k2 + k3). ring.
Qed.

(** The offset that is written leads to the address it was computed from. *)
Lemma reloc a b (off := dist (ptr a) (ptr b)) : INT_MIN <= off <= INT_MAX -> ptr (b + s32 (le_val (le 4 off))) = ptr a.
Proof. intros H. rewrite offset_back by done. apply ptr_dist. Qed.

(** ** The forms the code writes are instructions *)
Lemma near_regular op off : op ∈ [[0xE9]; [0xE8]] \/ (exists c, op = [0x0F; c] /\ 0x80 <= c < 0x90) ->
  Manual.regular x64 true true (Format.mkInsn [] op [] off) = true.
Proof.
  intros [Hop|(c & -> & Hc)].
  - rewrite !elem_of_cons, elem_of_nil in Hop. destruct Hop as [-> | [-> | []]]; destruct x64; vm_compute; reflexivity.
  - assert (c ∈ seqZ 0x80 16) as Hin by (apply elem_of_seqZ; lia). vm_compute in Hin.
    repeat (apply elem_of_cons in Hin as [->|Hin]; [destruct x64; vm_compute; reflexivity|]). by apply elem_of_nil in Hin.
Qed.

Lemma near_insn op off : op ∈ [[0xE9]; [0xE8]] \/ (exists c, op = [0x0F; c] /\ 0x80 <= c < 0x90) -> length off = 4%nat -> genuine IT_JUMP (op ++ off).
Proof.
  intros Hop Hl. exists (Format.mkInsn [] op [] off). split; [|by unfold Format.encode, Format.header; cbn; rewrite app_nil_r].
  apply regular_same; [done|by apply near_regular|].
  assert (forall esc b T o, op = esc ++ [b] -> Format.is_prefix x64 (hd b esc) = false -> Format.opcode_at x64 0 esc b T o ->
    Format.variant (Format.mode x64 true true []) o = mkSpecific 0 IT_JUMP (Z.lor AM_J OT_V) 0 0 (sp_mnemonic_ (Format.variant (Format.mode x64 true true []) o)) ->
    mask_ T = 0xff -> Format.valid x64 true true (Format.mkInsn [] op [] off) IT_JUMP) as H.
  { intros esc b T o -> Hp Ho Hv HT. set (so := Format.variant (Format.mode x64 true true []) o) in *.
    replace IT_JUMP with (sp_type_ so) by (by rewrite Hv).
    apply (Format.Valid x64 true true [] esc b T o [b] [] off 0); [constructor|done|done|by fold so; rewrite Hv|by fold so; rewrite Hv| |].
    - unfold Format.tail_ok. fold so. rewrite HT, Hv. done.
    - fold so. rewrite Hv, Hl. destruct x64; reflexivity. }
  destruct Hop as [Hop|(c & -> & Hc)].
  - rewrite !elem_of_cons, elem_of_nil in Hop. destruct Hop as [-> | [-> | []]]; destruct x64.
    all: eapply (H []); [reflexivity..| | |]; [eapply Format.at_here; [reflexivity|done..]|reflexivity|reflexivity].
  - assert (exists T o, Format.entry x64 1 c = Some (T, o) /\ type_ o = IT_JUMP /\ mask_ T = 0xff /\
      Format.variant (Format.mode x64 true true []) o = mkSpecific 0 IT_JUMP (Z.lor AM_J OT_V) 0 0 (sp_mnemonic_ (Format.variant (Format.mode x64 true true []) o))) as (T & o & He & Ht & HT & Hv).
    { assert (c ∈ seqZ 0x80 16) as Hin by (apply elem_of_seqZ; lia). vm_compute in Hin.
      repeat (apply elem_of_cons in Hin as [->|Hin]; [destruct x64; do 2 eexists; split_and!; reflexivity|]). by apply elem_of_nil in Hin. }
    eapply (H [0x0F] c T o); [done|by destruct x64| |done|done].
    destruct x64; (eapply Format.at_ref; [reflexivity|reflexivity|]); apply Format.at_here; rewrite ?Ht; done.
Qed.

(** ** The relocations *)

(** A relocation from [p] to [q] writes at most [n] bytes at [q]; if it
    succeeds, it leaves there [k] bytes that are the moved instruction. *)
Definition relocates (t : InstructionType) (p q n : Z) (l : list Z) (m : code) (r : SideStepError * Z) (m' : code) : Prop :=
  writes q (q + n) m m' /\
  (r.1 = SIDESTEP_SUCCESS -> exists s, at_ m' q s /\ Z.of_nat (length s) = r.2 /\ r.2 <= n /\ moved t p q l s).

Definition apart (p n q k : Z) : Prop := p + n <= q \/ q + k <= p.

Lemma range_test off : (INT_MAX <? off) || (off <? INT_MIN) = false -> INT_MIN <= off <= INT_MAX.
Proof. rewrite orb_false_iff, !Z.ltb_ge. lia. Qed.

Lemma cc_code b : 0 <= b < 256 -> le 2 (u16 (Z.lor (Z.shiftl (Z.lor 0x80 (Z.land b 0xf)) 8) 0x0f)) = [0x0F; 0x80 + b mod 16].
Proof.
  intros Hb. assert (bool_decide (le 2 (u16 (Z.lor (Z.shiftl (Z.lor 0x80 (Z.land b 0xf)) 8) 0x0f)) = [0x0F; 0x80 + b mod 16]) = true) as H.
  { revert b Hb. apply all_bytes. vm_compute. reflexivity. }
  by apply bool_decide_eq_true in H.
Qed.

(** Two writes side by side. *)
Lemma wp_write2 q l l' (Q : unit -> code -> Prop) m : readable m q (Z.of_nat (length l + length l')) ->
  Forall (fun b => 0 <= b < 256) (l ++ l') ->
  (forall m', writes q (q + Z.of_nat (length l + length l')) m m' -> at_ m' q (l ++ l') -> Q tt m') ->
  wp (_ ← write q l; write (q + Z.of_nat (length l)) l') Q m.
Proof.
  intros Hr [Hf Hf']%Forall_app HQ. apply wp_bind, wp_write_bytes; [intros a Ha; apply Hr; lia|done|]. intros m1 _ W1 A1.
  apply wp_write_bytes; [|done|].
  { eapply writes_readable; [done|]. intros a Ha. apply Hr. lia. }
  intros m2 _ W2 A2. apply HQ.
  - etrans; [eapply writes_weaken; [exact W1|lia..]|eapply writes_weaken; [exact W2|lia..]].
  - apply at_app. split; [|done]. eapply writes_at; [exact W2|done|]. lia.
Qed.

Lemma short_dest_cc p q b o : 0 <= b < 256 -> b / 16 = 7 -> forall off, INT_MIN <= off <= INT_MAX -> off = dist (ptr (p + 2 + s8 o)) (ptr (q + 6)) ->
  genuine IT_JUMP ([0x0F; 0x80 + b mod 16] ++ le 4 off) /\
  effect_of IT_JUMP q ([0x0F; 0x80 + b mod 16] ++ le 4 off) = effect_of IT_JUMP p [b; o].
Proof.
  intros Hb H7 off Ho Eo. split.
  { apply near_insn; [|apply le_length]. right. exists (0x80 + b mod 16). split; [done|]. zdiv. }
  pose proof (reloc (p + 2 + s8 o) (q + 6)) as HR. cbn zeta in HR. rewrite <- Eo in HR. specialize (HR Ho).
  rewrite le_4 in HR |- *. cbn [app effect_of]. rewrite Z.eqb_refl, H7. cbn [andb].
  assert ((128 + b mod 16) / 16 = 8) as -> by zdiv. cbn [Z.eqb Pos.eqb].
  destruct (Z.eqb_spec b 0xEB); [subst b; done|]. rewrite HR. f_equal. zdiv.
Qed.

Lemma wp_short_cc p q b o room m : code_ok m -> at_ m p [b; o] -> reads IT_JUMP [b; o] -> readable m q 6 -> 6 < room -> apart p 2 q 6 ->
  (b / 16 = 7 \/ 0xF0 <= b) -> wp (Pp.PatchShortConditionalJump x64 p 2 q room) (relocates IT_JUMP p q 6 [b; o] m) m.
Proof.
  intros Hm Hat Hrd Hr Hroom Hap Hb16. pose proof Hat as Hat'. apply at_cons in Hat' as [Hb [Ho _]%at_cons].
  pose proof (proj1 Hm _ _ Hb) as Hbr. unfold Pp.PatchShortConditionalJump.
  apply wp_bind, (wp_byte _ o); [done|]. destruct (_ || _) eqn:Et.
  { apply wp_ret. split; [reflexivity|done]. }
  apply range_test in Et. set (off := dist _ _) in *. rewrite (proj2 (Z.ltb_lt 6 room)) by done.
  apply wp_bind, wp_bind, (wp_byte _ b); [done|]. rewrite cc_code by done.
  apply (wp_write2 q [0x0F; 0x80 + b mod 16]); [by rewrite le_length|apply Forall_app; split; [|apply le_bytes]|].
  { repeat constructor; try lia; zdiv. }
  rewrite le_length. intros m' W A. apply wp_ret. split; [exact W|]. intros _. eexists. split; [exact A|].
  cbn [snd fst]. rewrite length_app, le_length. split; [done|]. split; [lia|]. apply moved_jump; [done|]. intros Hfl.
  apply (short_dest_cc p q b o); [done| |done|done]. destruct Hb16 as [|Hge]; [done|]. exfalso. apply Hfl. left. split; [done|]. left. exact Hge.
Qed.

Lemma wp_short p q o room m : code_ok m -> at_ m p [0xEB; o] -> reads IT_JUMP [0xEB; o] -> readable m q 5 -> 5 < room -> apart p 2 q 5 ->
  wp (Pp.PatchShortJump x64 p 2 q room) (relocates IT_JUMP p q 5 [0xEB; o] m) m.
Proof.
  intros Hm Hat Hrd Hr Hroom Hap. pose proof Hat as Hat'. apply at_cons in Hat' as [Hb [Ho _]%at_cons]. unfold Pp.PatchShortJump.
  apply wp_bind, (wp_byte _ o); [done|]. destruct (_ || _) eqn:Et.
  { apply wp_ret. split; [reflexivity|done]. }
  apply range_test in Et. set (off := dist _ _) in *. rewrite (proj2 (Z.ltb_lt 5 room)) by done.
  apply wp_bind, (wp_write2 q [0xe9]); [by rewrite le_length|apply Forall_app; split; [|apply le_bytes]|].
  { repeat constructor; lia. }
  rewrite le_length. intros m' W A. apply wp_ret. split; [exact W|]. intros _. eexists. split; [exact A|].
  cbn [snd fst]. rewrite length_app, le_length. split; [done|]. split; [lia|]. apply moved_jump; [done|]. intros _. split.
  { apply near_insn; [left; set_solver|apply le_length]. }
  pose proof (reloc (p + 2 + s8 o) (q + 5) Et) as HR. fold off in HR. rewrite le_4 in HR |- *. cbn [app effect_of Z.eqb Pos.eqb]. by rewrite HR.
Qed.

(** A near jump or call: an opcode and four bytes of offset. *)
Definition near_form (op off : list Z) : Prop :=
  length off = 4%nat /\ (op = [0xE9] \/ op = [0xE8] \/ (exists c, op = [0x0F; c] /\ 0x80 <= c < 0x90) \/
    (exists c, op = [0xFF; c])).

Lemma near_effect p q op off off' : near_form op off -> hd 0 (op ++ off) < 0xF0 -> INT_MIN <= off' <= INT_MAX ->
  off' = dist (ptr (p + Z.of_nat (length (op ++ off)) + s32 (le_val off))) (ptr (q + Z.of_nat (length (op ++ off)))) ->
  genuine IT_JUMP (op ++ le 4 off') /\ effect_of IT_JUMP q (op ++ le 4 off') = effect_of IT_JUMP p (op ++ off).
Proof.
  intros [Hl Hop] Hhd Ho Eo.
  pose proof (reloc (p + Z.of_nat (length (op ++ off)) + s32 (le_val off)) (q + Z.of_nat (length (op ++ off)))) as HR.
  cbn zeta in HR. rewrite <- Eo in HR. specialize (HR Ho). clear Eo.
  destruct off as [|a [|b [|c [|e [|]]]]]; try done.
  destruct Hop as [-> | [-> | [(c' & -> & Hc)|(c' & ->)]]]; [..|cbn in Hhd; lia].
  all: (split; [apply near_insn; [|apply le_length]; set_solver|]); rewrite le_4 in HR |- *; cbn [app length] in HR; cbn [app effect_of Z.eqb Pos.eqb].
  - change (Z.of_nat 5) with 5 in HR. by rewrite HR.
  - change (Z.of_nat 5) with 5 in HR. by rewrite HR.
  - change (Z.of_nat 6) with 6 in HR. assert (c' / 16 = 8) as -> by zdiv. cbn [andb Z.eqb Pos.eqb]. by rewrite HR.
Qed.

Lemma wp_near p q op off room m (l := op ++ off) (n := Z.of_nat (length l)) : code_ok m -> at_ m p l -> reads IT_JUMP l -> near_form op off ->
  readable m q n -> n < room -> apart p n q n ->
  wp (Pp.PatchNearJumpOrCall x64 p n q room) (relocates IT_JUMP p q n l m) m.
Proof.
  intros Hm Hat Hrd Hf Hr Hroom Hap. destruct (Hf) as [Hl Hop].
  assert (n = Z.of_nat (length op) + 4) as En by (subst n l; rewrite length_app; lia).
  assert ((if n =? 5 then 1 else 2) = Z.of_nat (length op) /\ 1 <= Z.of_nat (length op) <= 2) as [Ej Hj].
  { rewrite En. destruct Hop as [-> | [-> | [(c & -> & _)|(c & ->)]]]; done. }
  pose proof Hat as Hat'. apply at_app in Hat' as [Hao Haf]. unfold Pp.PatchNearJumpOrCall. rewrite Ej.
  apply wp_bind, (wp_int _ off); [done..|]. destruct (_ || _) eqn:Et.
  { apply wp_ret. split; [reflexivity|done]. }
  apply range_test in Et. set (fix_ := dist _ _) in *.
  assert (Forall (fun b => 0 <= b < 256) l) as Hbytes by (apply Forall_forall; intros b Hb; exact (at_range m p l b Hm Hat Hb)).
  destruct ((fix_ <? SCHAR_MAX) && (SCHAR_MIN <? fix_)) eqn:Es.
  - assert (flawed IT_JUMP p q l) as Hfl.
    { left. split; [done|]. right. exists op, off. apply andb_true_iff in Es as [Ha%Z.ltb_lt Hb%Z.ltb_lt]. split_and!; [done..|exact Hb|exact Ha]. }
    assert (2 <= n) by lia. rewrite (proj2 (Z.ltb_lt 2 room)) by lia.
    assert (forall s, length s = 2%nat -> forall m', writes q (q + 2) m m' -> at_ m' q s -> relocates IT_JUMP p q n l m (SIDESTEP_SUCCESS, 2) m') as Hdone.
    { intros s Hs m' W A. split; [eapply writes_weaken; [exact W|lia..]|]. intros _. exists s. cbn. split_and!; [done|lia|lia|]. by apply moved_jump. }
    assert (exists b l', l = b :: l' /\ (b = 0x0F -> exists c l'', l' = c :: l'')) as (b & l' & El & Hc).
    { subst l. destruct Hop as [-> | [-> | [(c & -> & _)|(c & ->)]]]; cbn; do 2 eexists; (split; [done|]); intros; try done; eauto. }
    rewrite El in Hat. apply at_cons in Hat as [Hb Hat]. apply wp_bind, wp_bind, (wp_byte _ b); [done|].
    assert (exists c, 0 <= c < 256 /\ forall Q : Z -> code -> Prop, Q c m -> wp (if b =? ASM_JCC32REL_0 then byte_at (p + 1) else mret 0) Q m) as (c & Hcr & Hwc).
    { unfold ASM_JCC32REL_0. destruct (Z.eqb_spec b 0x0F) as [->|]; [|exists 0; split; [lia|by intros; apply wp_ret]].
      destruct (Hc eq_refl) as (c & l'' & ->). apply at_cons in Hat as [Hc' _]. exists c. split; [exact (proj1 Hm _ _ Hc')|]. intros Q HQ. by apply (wp_byte _ c). }
    apply wp_bind, Hwc. destruct ((b =? ASM_JCC32REL_0) && _).
    + apply wp_write_bytes; [rewrite le_length; intros a Ha; apply Hr; lia|apply le_bytes|]. rewrite le_length. intros m' _ W A.
      apply wp_ret. eapply Hdone; [|exact W|exact A]. apply le_length.
    + apply (wp_write2 q [ASM_JMP8REL] [u8 fix_]); [intros a Ha; apply Hr; cbn in Ha; lia| |].
      { repeat constructor; unfold ASM_JMP8REL; try lia; unfold u8; apply Z.mod_pos_bound; lia. }
      intros m' W A. apply wp_ret. by apply (Hdone ([ASM_JMP8REL] ++ [u8 fix_])).
  - rewrite (proj2 (Z.ltb_lt n room)) by done. apply wp_bind, wp_bind.
    apply Forall_app in Hbytes as [Hbo _].
    apply wp_memcpy; [done|intros a Ha; apply Hr; lia|done|]. intros m1 _ W1 A1.
    apply wp_write_bytes; [rewrite le_length|apply le_bytes|].
    { eapply writes_readable; [exact W1|]. intros a Ha. apply Hr. lia. }
    rewrite le_length. intros m2 _ W2 A2. apply wp_ret. split.
    + etrans; [eapply writes_weaken; [exact W1|lia..]|eapply writes_weaken; [exact W2|lia..]].
    + intros _. exists (op ++ le 4 fix_). cbn [snd]. rewrite length_app, le_length. split_and!; [|lia|lia|].
      * apply at_app. split; [|done]. eapply writes_at; [exact W2|done|]. lia.
      * apply moved_jump; [done|]. intros Hfl. apply near_effect; [done| |done|done].
        destruct (Z.lt_ge_cases (hd 0 l) 0xF0); [done|]. exfalso. apply Hfl. left. split; [done|]. by left.
Qed.

(** [mov reg, [rip + disp]] is an instruction of a 64-bit binary only. *)
Lemma mov_64 r off : length off = 4%nat -> reads IT_GENERIC ([0x48; 0x8B; r] ++ off) -> x64 = true.
Proof.
  unfold reads. intros Hl Hi. destruct x64; [done|]. exfalso.
  destruct Hi as (i & Hv & He). destruct Hv as [pre esc b T o op mr ops k M so Hpre Hnp Ho _ _ Ht Hops].
  unfold Format.encode, Format.header in He. cbn [Format.i_prefixes Format.i_opcode Format.i_modrm Format.i_operands] in He.
  destruct (tail_head _ _ _ _ _ _ _ _ Ht) as [w Hw]. rewrite <- !app_assoc, (app_assoc op) in He.
  destruct pre as [|x pre]; [|cbn in He; injection He as -> _; apply Forall_cons in Hpre as [Hx _]; by vm_compute in Hx].
  inversion Ho as [i b1 T1 o1 He1 Hu1 Hr1|i b1 T1 o1 esc1 b2 T2 o2 He1 Hr1 Ho1]; subst.
  + rewrite Hw in He. cbn in He. injection He as -> He.
    assert (o = row 0 IT_GENERIC (Z.lor AM_REGISTER OT_V) AM_NOT_USED AM_NOT_USED (Some "dec"%string) /\ mask_ T = 0xff) as [-> HT].
    { vm_compute in He1. by simplify_eq. }
    destruct Ht as [Hop Hmr]. rewrite HT in Hop, Hmr. cbn in Hop, Hmr. destruct Hmr as [-> ->]. subst op.
    cbn in Hw. injection Hw as <-. change (Format.immediates M (Format.flags so)) with 0 in Hops. assert (length ops = 0%nat) by lia. apply (f_equal length) in He. cbn in He. lia.
  + cbn in He. injection He as -> He. vm_compute in He1. by simplify_eq.
Qed.

Lemma mov_genuine r off : x64 = true -> length off = 4%nat -> r / 64 = 0 -> r mod 8 = 5 -> genuine IT_GENERIC ([0x48; 0x8B; r] ++ off).
Proof.
  unfold genuine. intros -> Hl Hmod Hrm. exists (Format.mkInsn [0x48] [0x8B] [r] off). split; [|done].
  pose (o := row 0 IT_GENERIC (Z.lor AM_G OT_V) (Z.lor AM_E OT_V) AM_NOT_USED (Some "mov"%string)).
  apply (Manual.Insn_ true true true [0x48] [] 0x8B (mkTable (s_first_opcode_byte true) 0 0xff 0 0xff) o [0x8B] [r] off 4).
  - by repeat constructor.
  - done.
  - by apply Format.at_here.
  - done.
  - done.
  - split; [done|]. cbn [existsb]. replace 4 with (Format.displacement (Manual.mode true true true [72]) r None).
    + apply Format.modrm_plain; [done|]. unfold Format.needs_sib, Format.rm_of. rewrite Hrm. cbn. by rewrite andb_false_r.
    + unfold Format.displacement, Format.mod_of, Format.rm_of. rewrite Hmod, Hrm. reflexivity.
  - rewrite Hl. reflexivity.
Qed.

Lemma mov_effect p r off : x64 = true -> length off = 4%nat -> r / 64 = 0 -> r mod 8 = 5 ->
  effect_of IT_GENERIC p ([0x48; 0x8B; r] ++ off) = Relative [0x48; 0x8B; r] [] (ptr (p + 7 + s32 (le_val off))).
Proof.
  intros Ex Hl Hmod Hrm. destruct off as [|a [|b [|c [|e [|]]]]]; try done. cbn [app effect_of]. unfold other_effect.
  assert (Manual.rip_relative x64 [0x48; 0x8B; r; a; b; c; e] = Some 3%nat) as ->; [|done].
  unfold Manual.rip_relative. rewrite Ex. change (Manual.prefixes_of true [0x48; 0x8B; r; a; b; c; e]) with [0x48]. cbn [length drop].
  change (Manual.modrm_at true Md.opcode_fuel 0 [0x8B; r; a; b; c; e]) with
    (Some (row 0 IT_GENERIC (Z.lor AM_G OT_V) (Z.lor AM_E OT_V) AM_NOT_USED (Some "mov"%string), [r; a; b; c; e])).
  cbn [mbind option_bind]. unfold Format.mod_of, Format.rm_of. rewrite Hmod, Hrm. reflexivity.
Qed.

Lemma wp_mov p q r off room m (l := [0x48; 0x8B; r] ++ off) : code_ok m -> at_ m p l -> length off = 4%nat -> r / 64 = 0 -> r mod 8 = 5 ->
  reads IT_GENERIC l -> readable m q 7 -> 7 < room -> apart p 7 q 7 ->
  wp (Pp.PatchMovWithDisplacement x64 p 7 q room) (relocates IT_GENERIC p q 7 l m) m.
Proof.
  intros Hm Hat Hl Hmod Hrm Hins Hr Hroom Hap. pose proof Hat as Hat'. apply at_app in Hat' as [Hao Haf]. unfold Pp.PatchMovWithDisplacement.
  apply wp_bind, (wp_int _ off); [done..|]. destruct (_ || _) eqn:Et.
  { apply wp_ret. split; [reflexivity|done]. }
  apply range_test in Et. set (fix_ := dist _ _) in *. rewrite (proj2 (Z.ltb_lt 7 room)) by done.
  assert (0 <= r < 256) as Hrr by (apply (at_range m p l r Hm Hat); unfold l; set_solver).
  apply wp_bind, wp_bind. apply (wp_memcpy q p [0x48; 0x8B; r]); [done|intros a Ha; apply Hr; cbn in Ha; lia|repeat constructor; lia|].
  intros m1 _ W1 A1. apply (wp_write_bytes (q + 3)); [rewrite le_length|apply le_bytes|].
  { eapply writes_readable; [exact W1|]. intros a Ha. apply Hr. lia. }
  rewrite le_length. intros m2 _ W2 A2. apply wp_ret. split.
  - etrans; [eapply writes_weaken; [exact W1|cbn; lia..]|eapply writes_weaken; [exact W2|lia..]].
  - intros _. exists ([0x48; 0x8B; r] ++ le 4 fix_). cbn [snd]. rewrite length_app, le_length. split_and!; [|done|lia|].
    + apply at_app. split; [|done]. eapply writes_at; [exact W2|done|]. cbn. lia.
    + pose proof (mov_64 r off Hl Hins) as Ex. split; [intros _ Hn; exfalso; apply Hn; exists r, off; done|]. intros _.
      split_and!; [by apply mov_genuine|by apply mov_genuine|]. unfold l. rewrite !mov_effect by done. f_equal.
      exact (reloc (p + 7 + s32 (le_val off)) (q + 7) Et).
Qed.

(** ** Moving one instruction *)
Lemma test_70 b : 0 <= b < 256 -> (Z.land b 0x70 =? 0x70) = true -> b / 16 = 7 \/ 0xF0 <= b.
Proof.
  intros Hb H. assert (implb (Z.land b 0x70 =? 0x70) (bool_decide (b / 16 = 7 \/ 0xF0 <= b)) = true) as HH.
  { clear H. revert b Hb. apply all_bytes. vm_compute. reflexivity. }
  rewrite H in HH. cbn in HH. by apply bool_decide_eq_true in HH.
Qed.

Lemma test_80 b : 0 <= b < 256 -> (Z.land b 0x80 =? 0x80) = true -> 0x80 <= b.
Proof.
  intros Hb H. assert (implb (Z.land b 0x80 =? 0x80) (0x80 <=? b) = true) as HH.
  { clear H. revert b Hb. apply all_bytes. vm_compute. reflexivity. }
  rewrite H in HH. cbn in HH. lia.
Qed.

Lemma test_modrm r : 0 <= r < 256 -> (Z.shiftr r 6 =? 0) && (Z.land r 0x7 =? 5) = true -> r / 64 = 0 /\ r mod 8 = 5.
Proof.
  intros Hr. rewrite shiftr_div by lia. change 0x7 with (2 ^ 3 - 1). rewrite land_ones_mod by lia. change (2 ^ 6) with 64. change (2 ^ 3) with 8.
  rewrite andb_true_iff, !Z.eqb_eq. done.
Qed.

(** The four near forms, as a list of bytes. *)
Lemma wp_IsNear p l m (Q : bool -> code -> Prop) : code_ok m -> at_ m p l -> (2 <= length l)%nat -> reads IT_JUMP l ->
  ((exists op off, l = op ++ off /\ near_form op off) -> Q true m) -> Q false m -> wp (Pp.IsNear p (Z.of_nat (length l))) Q m.
Proof.
  intros Hm Hat Hl Hi Ht Hf. destruct l as [|b [|c l]]; cbn in Hl; try lia. clear Hl. set (n := Z.of_nat (length (b :: c :: l))).
  pose proof Hat as Hat'. apply at_cons in Hat' as [Hb [Hc _]%at_cons]. pose proof (proj1 Hm _ _ Hc) as Hcr.
  assert (forall k, n = k -> length l = Z.to_nat (k - 2)) as Hn by (intros k <-; unfold n; cbn; lia).
  assert (forall b', b' = 0xE9 \/ b' = 0xE8 -> b = b' -> n = 5 -> Q true m) as H5.
  { intros b' Hb' -> E%Hn. apply Ht. exists [b'], (c :: l). split; [done|]. split; [cbn; lia|]. destruct Hb' as [-> | ->]; auto. }
  assert (n = 6 -> (b = 0x0F /\ 0x80 <= c < 0x90) \/ b = 0xFF -> Q true m) as H6.
  { intros E%Hn Hb'. apply Ht. exists [b; c], l. split; [done|]. split; [done|]. destruct Hb' as [[-> Hc'] | ->]; eauto 6. }
  unfold Pp.IsNear, Pp.IsNearConditionalJump, Pp.IsNearRelativeJump, Pp.IsNearAbsoluteCall, Pp.IsNearRelativeCall.
  apply wp_bind, wp_bind, (wp_byte _ b); [done|].
  assert (wp (b0 ← byte_at p; mret ((b0 =? 0xe8) && (n =? 5))) Q m) as Hcall.
  { apply wp_bind, (wp_byte _ b); [done|]. apply wp_ret. destruct (Z.eqb_spec b 0xe8) as [->|]; [|done].
    destruct (Z.eqb_spec n 5); [|done]. cbn. by apply (H5 0xE8); [right| |]. }
  assert (wp (c0 ← (b0 ← byte_at p; if b0 =? 0xff then c0 ← byte_at (p + 1); mret ((Z.land c0 0x10 =? 0x10) && (n =? 6)) else mret false);
    if c0 : bool then mret true else (b0 ← byte_at p; mret ((b0 =? 0xe8) && (n =? 5)))) Q m) as Habs.
  { apply wp_bind, wp_bind, (wp_byte _ b); [done|]. destruct (Z.eqb_spec b 0xff) as [->|]; [|by apply wp_ret].
    apply wp_bind, (wp_byte _ c); [done|]. apply wp_ret. destruct (_ && _) eqn:E; [|done].
    apply wp_ret, H6; [|auto]. apply andb_true_iff in E as [_ E]. by apply Z.eqb_eq. }
  assert (wp (b0 ← (b0 ← byte_at p; mret ((b0 =? 0xe9) && (n =? 5)));
    if b0 : bool then mret true else
    (c0 ← (b0 ← byte_at p; if b0 =? 0xff then c0 ← byte_at (p + 1); mret ((Z.land c0 0x10 =? 0x10) && (n =? 6)) else mret false);
    if c0 : bool then mret true else (b0 ← byte_at p; mret ((b0 =? 0xe8) && (n =? 5))))) Q m) as Hrel.
  { apply wp_bind, wp_bind, (wp_byte _ b); [done|]. apply wp_ret. destruct (Z.eqb_spec b 0xe9) as [->|]; [|done].
    destruct (Z.eqb_spec n 5); [|done]. cbn. apply wp_ret. by apply (H5 0xE9); [left| |]. }
  destruct (Z.eqb_spec b 0xf) as [->|]; [|by apply wp_ret].
  apply wp_bind, (wp_byte _ c); [done|]. apply wp_ret. destruct (_ && _) eqn:E; [|done].
  apply wp_ret. apply andb_true_iff in E as [E1%test_80 E2%Z.eqb_eq]; [|done]. apply H6; [done|]. left. split; [done|].
  assert (c / 16 = 8) by (apply (jcc_byte c l); [done|lia]). zdiv.
Qed.

Lemma one_byte_not_near p b c m : m !! p = Some b -> m !! (p + 1) = Some c -> wp (Pp.IsNear p 1) (fun r m' => r = false /\ m' = m) m.
Proof.
  intros Hb Hc. unfold Pp.IsNear, Pp.IsNearConditionalJump, Pp.IsNearRelativeJump, Pp.IsNearAbsoluteCall, Pp.IsNearRelativeCall.
  change (1 =? 6) with false. change (1 =? 5) with false.
  assert (forall (k : Z) (P : Z -> bool) (Q : bool -> code -> Prop), Q false m ->
    wp (b0 ← byte_at p; if b0 =? k then c0 ← byte_at (p + 1); mret (P c0 && false) else mret false) Q m) as H6.
  { intros k P Q HQ. apply wp_bind, (wp_byte _ b); [done|]. destruct (b =? k); [|by apply wp_ret].
    apply wp_bind, (wp_byte _ c); [done|]. apply wp_ret. by rewrite andb_false_r. }
  assert (forall (P : Z -> bool) (Q : bool -> code -> Prop), Q false m -> wp (b0 ← byte_at p; mret (P b0 && false)) Q m) as H5.
  { intros P Q HQ. apply wp_bind, (wp_byte _ b); [done|]. apply wp_ret. by rewrite andb_false_r. }
  apply wp_bind, (H6 0xf (fun c => Z.land c 0x80 =? 0x80)). apply wp_bind, (H5 (fun b => b =? 0xe9)).
  apply wp_bind, (H6 0xff (fun c => Z.land c 0x10 =? 0x10)). by apply (H5 (fun b => b =? 0xe8)).
Qed.

Lemma wp_move_jump p q room l m : code_ok m -> at_ m p l -> (0 < length l)%nat -> reads IT_JUMP l -> readable m p 2 ->
  readable m q 15 -> 15 < room -> apart p 15 q 15 ->
  wp (Pp.move_jump x64 p (Z.of_nat (length l)) q room) (fun r m' => relocates IT_JUMP p q 6 l m r m' /\
    (r.1 = SIDESTEP_SUCCESS -> r.2 <= 3 * Z.of_nat (length l))) m.
Proof.
  intros Hm Hat Hl Hi Hp Hr Hroom Hap. unfold Pp.move_jump, Pp.IsShortConditionalJump, Pp.IsShortJump.
  destruct l as [|b [|o l]]; cbn in Hl; [lia| |].
  { apply at_cons in Hat as [Hb _]. destruct (Hp (p + 1) ltac:(lia)) as [c Hc]. change (Z.of_nat (length [b])) with 1.
    apply wp_bind, wp_bind, (wp_byte _ b); [done|]. apply wp_ret. change (1 =? 2) with false. rewrite andb_false_r.
    apply wp_bind, wp_bind, (wp_byte _ b); [done|]. apply wp_ret. rewrite andb_false_r.
    apply wp_bind. eapply wp_mono; [apply (one_byte_not_near p b c m Hb Hc)|]. intros r m' [-> ->]. apply wp_ret. split; [split; [reflexivity|done]|done]. }
  pose proof Hat as Hat'. apply at_cons in Hat' as [Hb _]. pose proof (proj1 Hm _ _ Hb) as Hbr.
  assert (forall n, n <= 6 -> readable m q n /\ n < room /\ apart p n q n) as Hn.
  { intros n Hn. unfold apart in *. split_and!; [intros a Ha; apply Hr; lia|lia|lia]. }
  apply wp_bind, wp_bind, (wp_byte _ b); [done|]. apply wp_ret. destruct (_ && _) eqn:E1.
  { apply andb_true_iff in E1 as [E1%test_70 E2%Z.eqb_eq]; [|done]. destruct l; cbn in E2; [|lia]. change (Z.of_nat (length [b; o])) with 2.
    destruct (Hn 6 ltac:(lia)) as (R & Hlt & A). eapply wp_mono; [apply (wp_short_cc p q b o); try done; unfold apart in *; lia|].
    intros [e k] m' H. split; [exact H|]. cbn. intros E. destruct (proj2 H E) as (s & _ & _ & Hk & _). cbn in Hk. lia. }
  clear E1. apply wp_bind, wp_bind, (wp_byte _ b); [done|]. apply wp_ret. destruct (_ && _) eqn:E1.
  { apply andb_true_iff in E1 as [->%Z.eqb_eq E2%Z.eqb_eq]. destruct l; cbn in E2; [|lia]. change (Z.of_nat (length [235; o])) with 2.
    eapply wp_mono; [apply (wp_short p q o); try done; [intros a Ha; apply Hr; lia|lia|unfold apart in *; lia]|].
    intros [e k] m' [W H]. split; [|cbn; intros E; destruct (H E) as (s & _ & _ & Hk & _); cbn in Hk; lia].
    split; [eapply writes_weaken; [exact W|lia..]|]. intros E. destruct (H E) as (s & A & L & Hk & Hmv). cbn in Hk. exists s. cbn. split_and!; [done|done|lia|done]. }
  clear E1. apply wp_bind, (wp_IsNear p (b :: o :: l)); [done|done|cbn; lia|done| |].
  - intros (op & off & El & Hf). rewrite El in Hat, Hi |- *. pose proof (proj1 Hf) as Hoff.
    assert (length (op ++ off) = 5 \/ length (op ++ off) = 6)%nat as H56.
    { rewrite length_app, Hoff. destruct Hf as [_ [-> | [-> | [(c & -> & _)|(c & ->)]]]]; cbn; lia. }
    destruct (Hn (Z.of_nat (length (op ++ off))) ltac:(lia)) as (R & Hlt & A).
    eapply wp_mono; [by apply wp_near|]. intros [e k] m' [W H]. split; [|intros E; destruct (H E) as (s & _ & _ & Hk & _); cbn in *; lia].
    split; [eapply writes_weaken; [exact W|lia..]|]. intros E. destruct (H E) as (s & A' & L & Hk & Hmv). exists s. split_and!; [done|done|lia|done].
  - apply wp_ret. split; [|done]. split; [reflexivity|done].
Qed.

(** Code that is not too long: at each of the first five bytes of the target
    an instruction of at most 15 bytes, the limit of the processor, would
    start, or none. *)
Definition code_at (m : code) (target : Z) : Prop :=
  readable m target 32 /\ forall k, 0 <= k < 5 -> exists pre b, at_ m (target + k) (pre ++ [b]) /\
    Forall (fun b => Format.is_prefix x64 b = true) pre /\ Format.is_prefix x64 b = false /\ (length pre <= 14)%nat /\
    forall t n d', Md.Disassemble x64 m (target + k) 0 (Md.MiniDisassembler x64) = Ret (t, n, d') -> n <= 15.

Lemma code_at_agree m m' target : code_ok m -> code_ok m' -> agree m m' target 32 -> code_at m target -> code_at m' target.
Proof.
  intros Hm Hm' Ha [Hr H]. split.
  { intros a Hin. rewrite Ha by done. by apply Hr. }
  intros k Hk. destruct (H k Hk) as (pre & b & Hat & Hp & Hb & Hl & Hn). exists pre, b. split_and!; [|done..|].
  - intros j c Hj. pose proof (lookup_lt_Some _ _ _ Hj) as Hjl. rewrite length_app in Hjl. cbn in Hjl. rewrite Ha by lia. by apply Hat.
  - rewrite (Disassemble_agree x64 _ m m' _ 0 pre b); [done..|]. apply (agree_sub _ _ _ _ _ _ Ha); lia.
Qed.

(** Decoding there returns, and says what the bytes are. *)
Lemma code_at_decode m target k d : code_ok m -> code_at m target -> 0 <= k < 5 ->
  operand_default_is_32_bits_ d = true -> address_default_is_32_bits_ d = true ->
  exists t n d', Md.Disassemble x64 m (target + k) 0 d = Ret (t, n, d') /\
    operand_default_is_32_bits_ d' = true /\ address_default_is_32_bits_ d' = true /\
    (t <> IT_UNKNOWN -> 0 < n <= 15 /\ t ∈ [IT_JUMP; IT_RETURN; IT_GENERIC] /\
       exists l, at_ m (target + k) l /\ Z.of_nat (length l) = n /\ reads t l).
Proof.
  intros Hm [Hr H] Hk Ho Ha. destruct (H k Hk) as (pre & b & Hat & Hp & Hb & Hl & Hn). clear H.
  assert (Md.Disassemble x64 m (target + k) 0 d = Md.Disassemble x64 m (target + k) 0 (Md.MiniDisassembler x64)) as E.
  { rewrite (Disassemble_opcode x64 d m _ 0 pre b), (Disassemble_opcode x64 (Md.MiniDisassembler x64) m _ 0 pre b) by done.
    rewrite Ho, Ha. done. }
  pose proof (Disassemble_total x64 d m (target + k) 0 Hm) as HT. rewrite E in HT |- *.
  destruct (Md.Disassemble x64 m (target + k) 0 (Md.MiniDisassembler x64)) as [[[t n] d']|f] eqn:ED; cbn in HT.
  - exists t, n, d'. rewrite Ho, Ha in HT. destruct HT as (H1 & H2 & H3). split_and!; [done..|]. intros Ht. rewrite decide_False in H3 by done.
    destruct H3 as (len & En & Hlen & Hall). pose proof (Hn _ _ _ eq_refl) as H15. rewrite Z.add_0_l, u32_small in En by lia.
    destruct (readable_bytes m (target + k) len) as (l & Hll & Hla); [intros a Hin; apply Hr; lia|].
    destruct (Hall l Hla Hll) as (i & Hv & Hi). split; [lia|]. split.
    + apply (valid_shape _ _ _ _ _ Hv). apply Forall_forall. intros x Hx. apply (at_range m (target + k) l x Hm Hla). rewrite <- Hi.
      unfold Format.encode. set_solver.
    + exists l. split_and!; [done|lia|]. exists i. done.
  - exfalso. destruct HT as (_ & pre' & j & Hp' & Hat' & Hj & [He _]).
    assert (length pre' <= length pre)%nat.
    { destruct (decide (length pre' <= length pre)%nat); [done|]. exfalso.
      destruct (lookup_lt_is_Some_2 pre' (length pre)) as [x Hx]; [lia|]. pose proof (Hat' _ _ Hx) as Hx'.
      assert (m !! (target + k + Z.of_nat (length pre)) = Some b) as Hb' by (apply Hat, list_lookup_middle; done).
      rewrite Hb' in Hx'. simplify_eq. rewrite Forall_forall in Hp'. rewrite (Hp' x) in Hb; [done|]. by eapply list_elem_of_lookup_2. }
    destruct (Hr (target + k + Z.of_nat (length pre') + Z.of_nat j)) as [x Hx]; [lia|]. by rewrite Hx in He.
Qed.

Lemma wp_IsMov p l m (Q : bool -> code -> Prop) : code_ok m -> at_ m p l ->
  (adjusted_mov l -> Q true m) -> (~ adjusted_mov l -> Q false m) -> wp (Pp.IsMovWithDisplacement p (Z.of_nat (length l))) Q m.
Proof.
  intros Hm Hat Ht Hf. unfold Pp.IsMovWithDisplacement. destruct (Z.eqb_spec (Z.of_nat (length l)) 7) as [El|El].
  2: { apply wp_ret, Hf. intros (r & off & -> & Hoff & _). rewrite length_app, Hoff in El. done. }
  destruct l as [|b [|c [|r [|o1 [|o2 [|o3 [|o4 [|]]]]]]]]; try (cbn in El; lia). clear El.
  pose proof Hat as Hat'. apply at_cons in Hat' as [Hb [Hc [Hr _]%at_cons]%at_cons]. replace (p + 1 + 1) with (p + 2) in Hr by lia.
  pose proof (proj1 Hm _ _ Hr) as Hrr.
  assert (~ (b = 0x48 /\ c = 0x8B /\ r / 64 = 0 /\ r mod 8 = 5) -> Q false m) as Hf'.
  { intros Hn. apply Hf. intros (r' & off & E & _ & ? & ?). apply Hn. injection E as -> -> -> _. done. }
  apply wp_bind, (wp_byte _ b); [done|]. destruct (Z.eqb_spec b 0x48) as [->|]; [|apply wp_ret, Hf'; naive_solver].
  apply wp_bind, (wp_byte _ c); [done|]. change 0x8b with 0x8B. destruct (Z.eqb_spec c 0x8B) as [->|]; [|apply wp_ret, Hf'; naive_solver].
  apply wp_bind, (wp_byte _ r); [done|]. apply wp_ret. destruct ((Z.shiftr r 6 =? 0) && (Z.land r 0x7 =? 5)) eqn:E.
  - apply test_modrm in E as [E1 E2]; [|done]. apply Ht. exists r, [o1; o2; o3; o4]. done.
  - apply Hf'. intros (_ & _ & E1 & E2). revert E. rewrite shiftr_div by lia. change 0x7 with (2 ^ 3 - 1). rewrite land_ones_mod by lia.
    change (2 ^ 6) with 64. change (2 ^ 3) with 8. by rewrite E1, E2.
Qed.

Lemma moved_copy p q l : reads IT_GENERIC l -> ~ adjusted_mov l -> moved IT_GENERIC p q l l.
Proof.
  intros Hr Hn. split; [done|]. intros Hf. assert (genuine IT_GENERIC l) as Hg.
  { apply reads_genuine; [done|]. intros Hm. apply Hf. by right; right. }
  split_and!; [done..|]. cbn [effect_of]. unfold other_effect. destruct (Manual.rip_relative x64 l) as [k|] eqn:E; [|done].
  exfalso. apply Hf. right. left. eauto.
Qed.

(** What moving one instruction leaves. *)
Definition moves_one (p q : Z) (m : code) (r : SideStepError + (Z * Z * MD)) (m' : code) : Prop :=
  writes q (q + 15) m m' /\
  match r with
  | inl e => e <> SIDESTEP_SUCCESS
  | inr (cur, n, d') => operand_default_is_32_bits_ d' = true /\ address_default_is_32_bits_ d' = true /\
      exists t l s, at_ m p l /\ Z.of_nat (length l) = cur /\ 0 < cur <= 15 /\ reads t l /\ t ∈ [IT_JUMP; IT_GENERIC] /\
        at_ m' q s /\ Z.of_nat (length s) = n /\ n <= 15 /\ n <= 3 * cur /\ moved t p q l s
  end.

Lemma wp_move_instruction m target k q room d : code_ok m -> code_at m target -> 0 <= k < 5 ->
  operand_default_is_32_bits_ d = true -> address_default_is_32_bits_ d = true ->
  readable m q 15 -> 15 < room -> apart target 32 q 15 ->
  wp (Pp.move_instruction x64 (target + k) q room d) (moves_one (target + k) q m) m.
Proof.
  intros Hm Hc Hk Ho Ha Hr Hroom Hap. destruct (code_at_decode m target k d Hm Hc Hk Ho Ha) as (t & n & d' & ED & Ho' & Ha' & Hins).
  assert (apart (target + k) 15 q 15) as Hap' by (unfold apart in *; lia).
  unfold Pp.move_instruction, Pp.Disassemble. apply wp_bind, wp_bind, wp_get, (wp_lift _ _ _ _ ED). cbn beta iota.
  destruct (decide (t = IT_UNKNOWN)) as [->|Ht]; [apply wp_ret; split; [reflexivity|done]|].
  destruct (Hins Ht) as (Hn & Htt & l & Hat & Hl & Hi). clear Hins. subst n.
  assert (readable m (target + k) 2) as Hp2 by (intros a Hin; apply (proj1 Hc); lia).
  rewrite !elem_of_cons, elem_of_nil in Htt. destruct Htt as [-> | [-> | [-> | []]]].
  - apply wp_bind. eapply wp_mono; [apply wp_move_jump; try done; lia|]. intros [e j] m' [[W H] Hj]. cbn beta iota.
    assert (writes q (q + 15) m m') as W15 by (eapply writes_weaken; [exact W|lia..]).
    case_bool_decide as He; apply wp_ret; [split; [exact W15|done]|]. cbn in He. destruct (H He) as (s & As & Ls & Hle & Hmv). cbn in Ls, Hle.
    split; [exact W15|]. split_and!; [done..|]. specialize (Hj He). cbn in Hj. exists IT_JUMP, l, s. split_and!; try done; [lia..|set_solver|lia].
  - apply wp_ret. split; [reflexivity|done].
  - apply wp_bind, (wp_IsMov _ l); [done..| |].
    + intros (r & off & El & Hoff & Hmod & Hrm). rewrite El in *.
      assert (Z.of_nat (length ([0x48; 0x8B; r] ++ off)) = 7) as -> by (rewrite length_app, Hoff; done).
      apply wp_bind. eapply wp_mono; [apply (wp_mov (target + k) q r off); try done; [intros a Hin; apply Hr; lia|lia|unfold apart in *; lia]|].
      intros [e j] m' [W H]. cbn beta iota.
      assert (writes q (q + 15) m m') as W15 by (eapply writes_weaken; [exact W|lia..]).
      case_bool_decide as He; apply wp_ret; [split; [exact W15|done]|]. cbn in He. destruct (H He) as (s & As & Ls & Hle & Hmv). cbn in Ls, Hle.
      split; [exact W15|]. split_and!; [done..|]. exists IT_GENERIC, ([0x48; 0x8B; r] ++ off), s.
      split_and!; try done; [by rewrite length_app, Hoff|set_solver|lia|lia].
    + intros Hpl. apply wp_bind, wp_memcpy; [done|intros a Hin; apply Hr; lia| |].
      { apply Forall_forall. intros x Hx. exact (at_range m _ l x Hm Hat Hx). }
      intros m' _ W A. apply wp_ret. split; [eapply writes_weaken; [exact W|lia..]|]. split_and!; [done..|]. exists IT_GENERIC, l, l.
      split_and!; try done; [lia..|set_solver|lia|lia|]. by apply moved_copy.
Qed.

(** ** Moving the preamble *)

(** The instructions moved: type, original bytes, bytes in the stub. *)
Notation moved_list := (list (InstructionType * list Z * list Z)).

Definition originals (L : moved_list) : list Z := concat ((fun x => x.1.2) <$> L).
Definition copies (L : moved_list) : list Z := concat ((fun x => x.2) <$> L).

Fixpoint relocated (p q : Z) (L : moved_list) : Prop :=
  match L with
  | [] => True
  | (t, i, s) :: L => reads t i /\ t ∈ [IT_JUMP; IT_GENERIC] /\ moved t p q i s /\
      relocated (p + Z.of_nat (length i)) (q + Z.of_nat (length s)) L
  end.

Lemma originals_snoc L t i s : originals (L ++ [(t, i, s)]) = originals L ++ i.
Proof. unfold originals. rewrite fmap_app, concat_app. cbn. by rewrite app_nil_r. Qed.
Lemma copies_snoc L t i s : copies (L ++ [(t, i, s)]) = copies L ++ s.
Proof. unfold copies. rewrite fmap_app, concat_app. cbn. by rewrite app_nil_r. Qed.

Lemma relocated_snoc p q L t i s : relocated p q L -> reads t i -> t ∈ [IT_JUMP; IT_GENERIC] ->
  moved t (p + Z.of_nat (length (originals L))) (q + Z.of_nat (length (copies L))) i s -> relocated p q (L ++ [(t, i, s)]).
Proof.
  revert p q. induction L as [|[[t' i'] s'] L IH]; intros p q HL Hi Ht Hm.
  - cbn in Hm. rewrite !Z.add_0_r in Hm. cbn. auto.
  - destruct HL as (H1 & H2 & H3 & H4). cbn. split_and!; [done..|]. apply IH; [done..|].
    unfold originals, copies in *. cbn in Hm. rewrite !length_app, !Nat2Z.inj_add, !Z.add_assoc in Hm. exact Hm.
Qed.

(** No more instructions than five bytes need. *)
Definition least (L : moved_list) : Prop := forall L1 x L2, L = L1 ++ x :: L2 -> Z.of_nat (length (originals L1)) < 5.

Lemma least_snoc L x : least L -> Z.of_nat (length (originals L)) < 5 -> least (L ++ [x]).
Proof.
  intros HL H5 L1 y L2 E. destruct L2 as [|z L2 _] using rev_ind.
  - apply app_inj_tail in E as [-> _]. done.
  - rewrite app_comm_cons, app_assoc in E. apply app_inj_tail in E as [-> _]. by eapply HL.
Qed.

(** The state of the loop: the instructions moved so far, out of the memory
    [m0] and into the stub of [m]. *)
Definition moving (target stub : Z) (m0 m : code) (pb sb : Z) : Prop :=
  writes stub (stub + 32) m0 m /\ exists L, at_ m0 target (originals L) /\ Z.of_nat (length (originals L)) = pb /\
    at_ m stub (copies L) /\ Z.of_nat (length (copies L)) = sb /\ relocated target stub L /\ least L.

Lemma writes_agree lo hi m m' p n : writes lo hi m m' -> apart p n lo (hi - lo) -> agree m m' p n.
Proof. intros (A & _) Hap a Ha. apply A. unfold apart in Hap. lia. Qed.

Lemma agree_at m m' p n l : agree m m' p n -> at_ m' p l -> Z.of_nat (length l) <= n -> at_ m p l.
Proof. intros Ha Hat Hl i b Hi. pose proof (lookup_lt_Some _ _ _ Hi). rewrite <- Ha by lia. by apply Hat. Qed.

Lemma wp_move_preamble target stub stub_size m0 m : code_ok m -> code_at m target -> writes stub (stub + 32) m0 m -> 32 <= stub_size < 2 ^ 31 ->
  readable m stub 32 -> apart target 32 stub 32 ->
  wp (Pp.move_preamble x64 target stub stub_size) (fun r m' =>
    match r with
    | inl e => e <> SIDESTEP_SUCCESS /\ writes stub (stub + 32) m0 m'
    | inr (pb, sb) => 5 <= pb <= 19 /\ 0 <= sb <= 27 /\ moving target stub m m' pb sb
    end) m.
Proof.
  intros Hm Hc W0 Hsz Hr Hap. unfold Pp.move_preamble.
  apply (loopM_count _ (fun n '(pb, sb, d) m' => moving target stub m m' pb sb /\
    operand_default_is_32_bits_ d = true /\ address_default_is_32_bits_ d = true /\
    0 <= pb <= 19 /\ 0 <= sb <= 27 /\ (pb < 5 -> sb <= 3 * pb) /\ 5 - pb <= Z.of_nat n)) with (n := 5%nat).
  - intros n [[pb sb] d] m1 ([W (L & AO & LO & AC & LC & HL & Hls)] & Ho & Ha & Hpb & Hsb & H3 & Hn). destruct (Z.ltb_spec pb 5) as [Hlt|Hge].
    2: { apply wp_ret. split; [lia|]. split; [lia|]. split; [done|]. eauto 12. }
    specialize (H3 Hlt). pose proof (writes_ok _ _ _ _ W Hm) as Hm1. rewrite u32_small by lia.
    assert (agree m m1 target 32) as Hag by (eapply writes_agree; [exact W|unfold apart in *; lia]).
    apply wp_bind. eapply wp_mono; [apply (wp_move_instruction m1 target pb (stub + sb)); try done|].
    + by apply (code_at_agree m m1).
    + lia.
    + eapply writes_readable; [exact W|]. intros a Hin. apply Hr. lia.
    + lia.
    + unfold apart in *. lia.
    + intros [e|[[cur k] d']] m2 [W2 H]; [apply wp_ret; split; [done|]|].
      { etrans; [exact W0|]. etrans; [exact W|]. eapply writes_weaken; [exact W2|lia..]. }
      destruct H as (Ho' & Ha' & t & l & s & Al & Ll & Hcur & Hi & Ht & As & Ls & Hk & Hk3 & Hmv). apply wp_ret.
      rewrite !u32_small by lia. destruct n as [|n]; [lia|]. exists n. split; [done|]. split_and!; [|done|done|lia..].
      split; [etrans; [exact W|]; eapply writes_weaken; [exact W2|lia..]|].
      exists (L ++ [(t, l, s)]). rewrite originals_snoc, copies_snoc, !length_app, !at_app, LO, LC. split_and!; [done| |lia| | |lia| |].
      * eapply (agree_at m m1 _ 15); [|exact Al|lia]. apply (agree_sub _ _ _ _ _ _ Hag); lia.
      * eapply writes_at; [exact W2|exact AC|lia].
      * done.
      * apply relocated_snoc; [done..|]. by rewrite LO, LC.
      * apply least_snoc; [done|lia].
  - split_and!; try done. split; [reflexivity|]. exists []. split_and!; try done; [apply at_nil..|]. intros [|] ? ? E; discriminate E.
  - unfold Pp.patch_fuel. lia.
Qed.

(** ** The jumps *)

(** A near jump to [dest] at [p]. *)
Definition jumps (m : code) (p dest : Z) : Prop :=
  exists off, at_ m p ([ASM_JMP32REL] ++ off) /\ length off = 4%nat /\ effect_of IT_JUMP p ([ASM_JMP32REL] ++ off) = Jump (ptr dest).

Lemma jump_reach a b z : (exists k, z = a - b + 2 ^ (if x64 then 64 else 32) * k) -> (x64 = true -> INT_MIN <= z <= INT_MAX) ->
  ptr (b + s32 (le_val (le 4 (s32 z)))) = ptr a.
Proof.
  intros [k ->] Hr. set (z := a - b + _) in *.
  assert (INT_MIN <= s32 z <= INT_MAX) by (unfold s32, INT_MIN, INT_MAX; pose proof (Z.mod_pos_bound (z + 2 ^ 31) (2 ^ 32)); lia).
  rewrite offset_back by done. apply ptr_eq. destruct x64 eqn:Ex.
  - rewrite s32_small by (specialize (Hr eq_refl); unfold INT_MIN, INT_MAX in Hr; lia). exists k. unfold z. lia.
  - destruct (s32_ex z) as [k' ->]. exists (k + k'). unfold z. lia.
Qed.

Lemma jump_bytes m p a z : (exists k, z = a - (p + 5) + 2 ^ (if x64 then 64 else 32) * k) -> (x64 = true -> INT_MIN <= z <= INT_MAX) ->
  at_ m p ([ASM_JMP32REL] ++ le 4 (s32 z)) -> jumps m p a.
Proof.
  intros Hz Hr Hat. pose proof (jump_reach a (p + 5) z Hz Hr) as HR. exists (le 4 (s32 z)). split; [done|]. split; [apply le_length|].
  rewrite le_4 in HR |- *. cbn [app effect_of ASM_JMP32REL]. change (ASM_JMP32REL =? 0xE9) with true. cbn match. by rewrite HR.
Qed.

(** The trampoline [nop; mov rax, replacement; jmp rax]. *)
Definition trampoline (replacement : Z) : list Z :=
  [ASM_NOP; ASM_REXW; ASM_MOVRAX_IMM] ++ le (Pp.ptr_bytes x64) replacement ++ [ASM_JMP; ASM_JMP_RAX].

(** Consecutive writes of one block. *)
Lemma wp_write_app q l l' (Q : unit -> code -> Prop) m0 m n : writes q (q + n) m0 m -> at_ m q l ->
  readable m q n -> Z.of_nat (length l + length l') <= n -> Forall (fun b => 0 <= b < 256) l' ->
  (forall m', writes q (q + n) m0 m' -> at_ m' q (l ++ l') -> readable m' q n -> Q tt m') -> wp (write (q + Z.of_nat (length l)) l') Q m.
Proof.
  intros W A Hr Hn Hf HQ. apply wp_write_bytes; [intros a Ha; apply Hr; lia|done|]. intros m' _ W' A'. apply HQ.
  - etrans; [exact W|]. eapply writes_weaken; [exact W'|lia..].
  - apply at_app. split; [|done]. eapply writes_at; [exact W'|done|lia].
  - eapply writes_readable; [exact W'|done].
Qed.

Lemma wp_trampoline {A} q repl m (v : A) (Q : A -> code -> Prop) : x64 = true -> readable m q 13 ->
  (forall m', writes q (q + 13) m m' -> at_ m' q (trampoline repl) -> Q v m') ->
  wp (_ ← write q [ASM_NOP]; _ ← write (q + 1) [ASM_REXW]; _ ← write (q + 2) [ASM_MOVRAX_IMM];
      _ ← write (q + 3) (le (Pp.ptr_bytes x64) repl); _ ← write (q + 11) [ASM_JMP]; _ ← write (q + 12) [ASM_JMP_RAX]; mret v) Q m.
Proof.
  intros Ex Hr HQ. assert (Pp.ptr_bytes x64 = 8%nat) as E8 by (unfold Pp.ptr_bytes; by rewrite Ex). unfold trampoline in HQ. rewrite E8 in *.
  assert (forall x : Z, 0 <= x < 256 -> Forall (fun b => 0 <= b < 256) [x]) as H1 by (intros; by apply Forall_singleton).
  apply wp_bind. replace q with (q + Z.of_nat (length (@nil Z))) at 1 by (cbn; lia).
  apply (wp_write_app q [] _ _ m m 13); [reflexivity|apply at_nil|done|cbn; lia|by apply H1|]. cbn [app]. intros m1 W1 A1 R1.
  apply wp_bind, (wp_write_app q [ASM_NOP] _ _ m m1 13); [done..|cbn; lia|by apply H1|]. cbn [app]. intros m2 W2 A2 R2.
  apply wp_bind, (wp_write_app q [ASM_NOP; ASM_REXW] _ _ m m2 13); [done..|cbn; lia|by apply H1|]. cbn [app]. intros m3 W3 A3 R3.
  apply wp_bind, (wp_write_app q [ASM_NOP; ASM_REXW; ASM_MOVRAX_IMM] _ _ m m3 13); [done..|rewrite le_length; cbn; lia|apply le_bytes|].
  intros m4 W4 A4 R4. replace (q + 11) with (q + Z.of_nat (length ([ASM_NOP; ASM_REXW; ASM_MOVRAX_IMM] ++ le 8 repl))) by (rewrite length_app, le_length; cbn; lia).
  apply wp_bind, (wp_write_app q _ _ _ m m4 13); [done..|rewrite length_app, le_length; cbn; lia|by apply H1|]. intros m5 W5 A5 R5.
  replace (q + 12) with (q + Z.of_nat (length (([ASM_NOP; ASM_REXW; ASM_MOVRAX_IMM] ++ le 8 repl) ++ [ASM_JMP]))) by (rewrite !length_app, le_length; cbn; lia).
  apply wp_bind, (wp_write_app q _ _ _ m m5 13); [done..|rewrite !length_app, le_length; cbn; lia|by apply H1|]. intros m6 W6 A6 R6. apply wp_ret, HQ; [done|].
  rewrite <- !app_assoc in A6. exact A6.
Qed.

Lemma jumps_frame lo hi m m' p dest : writes lo hi m m' -> jumps m p dest -> apart p 5 lo (hi - lo) -> jumps m' p dest.
Proof.
  intros W (off & A & Hl & E) Hap. exists off. split; [|done]. eapply writes_at; [exact W|done|]. rewrite length_app, Hl. unfold apart in Hap. cbn. lia.
Qed.

(** What the jumps are, for [tr] bytes of trampoline. *)
Definition jumps_written (target repl stub pb sb tr : Z) (m m' : code) : Prop :=
  (exists m1, writes (stub + sb) (stub + sb + 5 + tr) m m1 /\ writes target (target + pb) m1 m') /\
  jumps m' (stub + sb) (target + pb) /\
  (if tr =? 0 then jumps m' target repl else at_ m' (stub + sb + 5) (trampoline repl) /\ jumps m' target (stub + sb + 5)) /\
  at_ m' (target + 5) (replicate (Z.to_nat (pb - 5)) ASM_INT3).

Lemma trampoline_length repl : x64 = true -> length (trampoline repl) = 13%nat.
Proof. intros Ex. unfold trampoline, Pp.ptr_bytes. rewrite !length_app, le_length, Ex. done. Qed.

(** The jump over the target, once the stub is complete. *)
Lemma wp_target_jump target dest pb m (Q : unit -> code -> Prop) : 5 <= pb <= 19 -> readable m target 32 ->
  (x64 = true -> INT_MIN <= dist dest target - 5 <= INT_MAX) ->
  (forall m', writes target (target + pb) m m' -> jumps m' target dest -> at_ m' (target + 5) (replicate (Z.to_nat (pb - 5)) ASM_INT3) -> Q tt m') ->
  wp (_ ← write target [ASM_JMP32REL]; _ ← write (target + 1) (le 4 (s32 (dist dest target - 5)));
      if 5 <? pb then memset (target + 5) ASM_INT3 (pb - 5) else mret tt) Q m.
Proof.
  intros Hpb Hr Hd HQ. apply wp_bind, wp_write_bytes; [intros a Ha; apply Hr; cbn in Ha; lia|by apply Forall_singleton|]. intros m1 _ W1 A1.
  apply wp_bind, (wp_write_app target [ASM_JMP32REL] _ _ m m1 5);
    [eapply writes_weaken; [exact W1|cbn; lia..]|exact A1| |by rewrite le_length|apply le_bytes|].
  { eapply writes_readable; [exact W1|]. intros a Ha. apply Hr. lia. }
  intros m2 W2 A2 R2. apply (jump_bytes m2 target dest) in A2; [| |exact Hd].
  2: { destruct (dist_ex dest target) as [k ->]. exists k. lia. }
  destruct (Z.ltb_spec 5 pb).
  - unfold memset. apply wp_write_bytes; [rewrite length_replicate|apply Forall_replicate; unfold ASM_INT3; lia|].
    { eapply writes_readable; [exact W2|]. intros a Ha. apply Hr. lia. }
    rewrite length_replicate. intros m3 _ W3 A3. apply HQ; [| |done].
    + etrans; eapply writes_weaken; [exact W2|lia|lia|exact W3|lia|lia].
    + eapply jumps_frame; [exact W3|exact A2|unfold apart; lia].
  - apply wp_ret. assert (pb = 5) as -> by lia. apply HQ; [done|done|apply at_nil].
Qed.

Lemma wp_write_jumps target repl stub pb sb tr m : 5 <= pb <= 19 -> 0 <= sb <= 27 -> tr = 0 \/ x64 = true /\ tr = 13 ->
  readable m (stub + sb) (5 + tr) -> readable m target 32 -> apart target 32 (stub + sb) (5 + tr) ->
  (x64 = true -> INT_MIN <= dist (target + pb) (stub + sb + 5) <= INT_MAX) ->
  (x64 = true -> INT_MIN <= dist (if tr =? 0 then repl else stub + sb + 5) target - 5 <= INT_MAX) ->
  wp (Pp.write_jumps x64 target repl stub pb sb tr) (fun _ m' => jumps_written target repl stub pb sb tr m m') m.
Proof.
  intros Hpb Hsb Htr Hrs Hrt Hap H1 H2. unfold Pp.write_jumps.
  apply wp_bind, wp_write_bytes; [intros a Ha; apply Hrs; cbn in Ha; lia|by apply Forall_singleton|]. intros m1 _ W1 A1.
  apply wp_bind, (wp_write_app (stub + sb) [ASM_JMP32REL] _ _ m m1 5);
    [eapply writes_weaken; [exact W1|cbn; lia..]|exact A1| |by rewrite le_length|apply le_bytes|].
  { eapply writes_readable; [exact W1|]. intros a Ha. apply Hrs. lia. }
  intros m2 W2 A2 R2. apply (jump_bytes m2 (stub + sb) (target + pb)) in A2; [| |exact H1].
  2: { destruct (dist_ex (target + pb) (stub + sb + 5)) as [k ->]. eauto. }
  assert (readable m2 target 32) as Hrt2 by (eapply writes_readable; [exact W2|done]).
  assert (readable m2 (stub + sb) (5 + tr)) as Hrs2 by (eapply writes_readable; [exact W2|done]). unfold apart in Hap.
  destruct Htr as [-> |[Ex ->]].
  - rewrite andb_false_r. apply wp_bind, wp_ret. change (0 =? 0) with true in H2. cbn match in H2.
    apply wp_target_jump; [done..|]. intros m3 W3 A3 F3. split_and!; [|eapply jumps_frame; [exact W3|exact A2|unfold apart; lia]|done|done].
    exists m2. split; [|done]. eapply writes_weaken; [exact W2|lia..].
  - replace (x64 && negb (13 =? 0)) with true by (by rewrite Ex). change (13 =? 0) with false in H2. cbn match in H2.
    rewrite !Z.add_assoc. apply wp_bind, wp_trampoline; [done|intros a Ha; apply Hrs2; lia|].
    intros m3 W3 A3. apply wp_target_jump; [done|eapply writes_readable; [exact W3|done]|done|]. intros m4 W4 A4 F4. split_and!; [| | |done].
    + exists m3. split; [|done]. etrans; eapply writes_weaken; [exact W2|lia|lia|exact W3|lia|lia].
    + eapply jumps_frame; [exact W4| |unfold apart; lia]. eapply jumps_frame; [exact W3|exact A2|unfold apart; lia].
    + change (13 =? 0) with false. cbn match. split; [|done]. eapply writes_at; [exact W4|exact A3|]. rewrite trampoline_length by done. lia.
Qed.

(** ** The whole patch *)

(** Where the patch goes: behind an [endbr]. *)
Definition entry_point (m : code) (tf : Z) : Z :=
  if bool_decide (m !! tf = Some 0xf3 /\ m !! (tf + 1) = Some 0x0f /\ m !! (tf + 2) = Some 0x1e /\
    (m !! (tf + 3) = Some 0xfb \/ m !! (tf + 3) = Some 0xfa)) then tf + 4 else tf.

Lemma wp_skip_endbr tf m (Q : Z -> code -> Prop) : readable m tf 4 -> Q (entry_point m tf) m -> wp (Pp.skip_endbr tf) Q m.
Proof.
  intros Hr HQ. destruct (Hr tf ltac:(lia)) as [a Ha], (Hr (tf + 1) ltac:(lia)) as [b Hb], (Hr (tf + 2) ltac:(lia)) as [c Hc], (Hr (tf + 3) ltac:(lia)) as [e He].
  unfold entry_point in HQ. rewrite Ha, Hb, Hc, He in HQ. unfold Pp.skip_endbr.
  apply wp_bind, (wp_byte _ a); [done|]. destruct (Z.eqb_spec a 0xf3); [|apply wp_ret; by rewrite bool_decide_eq_false_2 in HQ by naive_solver].
  apply wp_bind, (wp_byte _ b); [done|]. destruct (Z.eqb_spec b 0x0f); [|apply wp_ret; by rewrite bool_decide_eq_false_2 in HQ by naive_solver].
  apply wp_bind, (wp_byte _ c); [done|]. destruct (Z.eqb_spec c 0x1e); [|apply wp_ret; by rewrite bool_decide_eq_false_2 in HQ by naive_solver].
  apply wp_bind, (wp_byte _ e); [done|]. destruct (Z.eqb_spec e 0xfb), (Z.eqb_spec e 0xfa); cbn [orb negb]; apply wp_ret;
    (rewrite bool_decide_eq_true_2 in HQ by naive_solver) || (rewrite bool_decide_eq_false_2 in HQ by naive_solver); done.
Qed.

Record patchable (m : code) (tf repl stub stub_size : Z) : Prop := {
  pa_code : code_ok m;
  pa_readable : readable m tf 36;
  pa_target : code_at m (entry_point m tf);
  pa_stub : readable m stub stub_size;
  pa_size : 32 <= stub_size < 2 ^ 31;
  pa_apart : apart tf 36 stub stub_size;
  pa_range : 0 < tf < 2 ^ 62 /\ 0 < repl < 2 ^ 62 /\ 0 < stub < 2 ^ 62;
  pa_near : x64 = true -> - 2 ^ 31 + 128 <= stub - tf <= 2 ^ 31 - 128;
  pa_edge : ~ (INT_MIN <= repl - tf - 5 < INT_MIN + 4) }.

(** Only the stub changes on failure. *)
Definition untouched (stub stub_size : Z) (m m' : code) : Prop := forall a, ~ (stub <= a < stub + stub_size) -> m' !! a = m !! a.

(** The target jumps to the replacement, the stub does what the preamble did
    and goes on behind it, and nothing else changes; no more instructions
    were moved than needed. *)
Definition patched (tf repl stub stub_size : Z) (m m' : code) (L : moved_list) : Prop :=
  let target := entry_point m tf in let pb := Z.of_nat (length (originals L)) in let sb := Z.of_nat (length (copies L)) in
  code_ok m' /\ (forall a, is_Some (m' !! a) <-> is_Some (m !! a)) /\ 5 <= pb <= 19 /\ sb + 5 <= stub_size /\ least L /\ at_ m target (originals L) /\ relocated target stub L /\ at_ m' stub (copies L) /\
  jumps m' (stub + sb) (target + pb) /\
  (jumps m' target repl \/ x64 = true /\ at_ m' (stub + sb + 5) (trampoline repl) /\ jumps m' target (stub + sb + 5)) /\
  at_ m' (target + 5) (replicate (Z.to_nat (pb - 5)) ASM_INT3) /\
  (forall a, ~ (stub <= a < stub + stub_size) -> ~ (target <= a < target + pb) -> m' !! a = m !! a).

Lemma entry_cases m tf : entry_point m tf = tf \/ entry_point m tf = tf + 4.
Proof. unfold entry_point. case_bool_decide; auto. Qed.

Lemma trampoline_cases tf repl stub : 0 < tf < 2 ^ 62 /\ 0 < repl < 2 ^ 62 /\ 0 < stub < 2 ^ 62 ->
  (x64 = true -> - 2 ^ 31 + 128 <= stub - tf <= 2 ^ 31 - 128) ->
  exists tr, Pp.trampoline_bytes x64 tf repl stub = Some tr /\ (tr = 0 \/ x64 = true /\ tr = 13) /\
    (x64 = true -> tr = 0 -> INT_MIN <= repl - tf - 5 <= INT_MAX).
Proof.
  intros Hr Hn. unfold Pp.trampoline_bytes. destruct x64 eqn:Ex; [|exists 0; split_and!; auto; done]. specialize (Hn eq_refl).
  rewrite !s64_small by lia. destruct (_ || _) eqn:E1.
  - unfold INT_MAX, INT_MIN in *. destruct (Z.ltb_spec (2 ^ 31 - 1) (stub - tf - 5)); [lia|]. destruct (Z.ltb_spec (stub - tf - 5) (- 2 ^ 31)); [lia|].
    exists 13. split_and!; auto. done.
  - apply range_test in E1. exists 0. split_and!; auto.
Qed.

Lemma dist_small a b : 0 <= a < 2 ^ 63 -> 0 <= b < 2 ^ 63 -> x64 = true -> dist a b = a - b.
Proof. intros Ha Hb Ex. unfold Pp.dist. rewrite Ex. apply s64_small. lia. Qed.

(** The jumps finish the patch. *)
Lemma patched_jumps tf repl stub stub_size m m1 m2 m3 L tr (target := entry_point m tf) : patchable m tf repl stub stub_size ->
  writes stub (stub + stub_size) m m1 -> writes stub (stub + 32) m1 m2 ->
  at_ m1 target (originals L) -> at_ m2 stub (copies L) -> relocated target stub L -> least L ->
  let pb := Z.of_nat (length (originals L)) in let sb := Z.of_nat (length (copies L)) in
  5 <= pb <= 19 -> sb + 5 + tr <= stub_size -> tr = 0 \/ x64 = true /\ tr = 13 ->
  jumps_written target repl stub pb sb tr m2 m3 -> patched tf repl stub stub_size m m3 L.
Proof.
  intros P W1 W2 AO AC HL Hls pb sb Hpb Hsb Htr ((m4 & W4 & W5) & J1 & J2 & F). pose proof (pa_apart _ _ _ _ _ P) as Hap. pose proof (pa_size _ _ _ _ _ P) as Hsz.
  unfold apart in Hap. assert (tf <= target <= tf + 4) as Ht by (unfold target; destruct (entry_cases m tf) as [-> | ->]; lia).
  unfold patched. fold target. fold pb. fold sb. split_and!; [| |lia|lia|lia| | | | | | | |].
  - apply (writes_ok _ _ _ _ W5), (writes_ok _ _ _ _ W4), (writes_ok _ _ _ _ W2), (writes_ok _ _ _ _ W1), P.
  - intros a. destruct W5 as (_ & -> & _), W4 as (_ & -> & _), W2 as (_ & -> & _). apply W1.
  - exact Hls.
  - eapply (agree_at m m1 _ 19); [eapply writes_agree; [exact W1|unfold apart; lia]|done|lia].
  - done.
  - eapply writes_at; [exact W5| |fold sb; lia]. eapply writes_at; [exact W4|exact AC|]. fold sb. lia.
  - exact J1.
  - destruct Htr as [-> |[Ex ->]]; [by left|right]. by destruct J2.
  - exact F.
  - intros a Ha Hat. rewrite (proj1 W5) by done. rewrite (proj1 W4) by lia. rewrite (proj1 W2) by lia. by rewrite (proj1 W1).
Qed.

(** C37: patching a function. [RawPatchWithStub] returns. If it reports
    success, the target starts with a jump to the replacement, or to a
    trampoline in the stub that loads its address and jumps to it, filled up
    with breakpoints; the stub holds what became of the instructions
    overwritten, in their order, followed by a jump to the first instruction
    that was not moved; no other byte of memory changes. If none of the
    overwritten instructions is of a form in [flawed], they and those in the
    stub are instructions of the manual and have the same effects: the same
    jump, conditional jump or call, the same operand relative to the address,
    or bytes that do not depend on it. The forms in [flawed] are jumps and
    calls through FF or behind a prefix, near jumps and calls the code
    shortens, operands relative to the address in other instructions than
    [mov reg, [rip + disp]], and instructions whose length the disassembler
    gets wrong. If an error is reported, only the stub has changed. Assumed
    of the arguments ([patchable]): addresses below 2^62, a stub of at least 32
    and less than 2^31 bytes that does not overlap the first 36 bytes of the
    function, which are readable; at each of the first five bytes of the
    target there are at most 14 prefixes and the disassembler finds at most
    15 bytes, the limit of the processor; in a 64-bit binary the stub is within 2 GiB less 128 bytes
    of the function; and the replacement is not one of the four addresses at
    the very end of the reach of a jump that an [endbr] puts out of it. *)
Theorem patch_correct tf repl stub stub_size m : patchable m tf repl stub stub_size ->
  wp (Pp.RawPatchWithStub x64 tf repl stub stub_size) (fun r m' =>
    if decide (r.1 = SIDESTEP_SUCCESS) then exists L, patched tf repl stub stub_size m m' L else untouched stub stub_size m m') m.
Proof.
  intros P. destruct (P) as [Hm Hrd Hc Hst Hsz Hap Hrg Hnr Hedge]. unfold Pp.RawPatchWithStub.
  rewrite (proj2 (Z.eqb_neq tf 0)), (proj2 (Z.eqb_neq repl 0)), (proj2 (Z.eqb_neq stub 0)), (proj2 (Z.eqb_neq stub_size 0)) by lia. cbn [orb].
  assert (Z.of_nat (length (replicate (Z.to_nat stub_size) 0xcc)) = stub_size) as El by (rewrite length_replicate; lia).
  apply wp_bind, wp_write_bytes; [by rewrite El|apply Forall_replicate; lia|]. rewrite El. intros m1 _ W1 _.
  pose proof (writes_ok _ _ _ _ W1 Hm) as Hm1.
  assert (agree m m1 tf 36) as Hag by (eapply writes_agree; [exact W1|unfold apart in *; lia]).
  destruct (trampoline_cases tf repl stub Hrg Hnr) as (tr & -> & Htr & Htr0).
  assert (forall m', writes stub (stub + stub_size) m1 m' -> untouched stub stub_size m m') as Hun.
  { intros m' W' a Ha. rewrite (proj1 W') by lia. by rewrite (proj1 W1). }
  assert (entry_point m1 tf = entry_point m tf) as Eent by (unfold entry_point; by rewrite !Hag by lia).
  apply wp_bind, wp_skip_endbr; [eapply writes_readable; [exact W1|]; intros a Ha; apply Hrd; lia|]. rewrite Eent.
  set (target := entry_point m tf) in *. assert (target = tf \/ target = tf + 4) as Htf by apply entry_cases. unfold apart in Hap.
  assert (code_at m1 target) as Hc1 by (apply (code_at_agree m m1); [done..|apply (agree_sub _ _ _ _ _ _ Hag); lia|done]).
  apply wp_bind. eapply wp_mono; [apply (wp_move_preamble target stub stub_size m1 m1); try done; [|unfold apart; lia]|].
  { eapply writes_readable; [exact W1|]. intros a Ha. apply Hst. lia. }
  intros [e|[pb sb]] m2 H.
  { apply wp_ret. destruct H as [He W2]. cbn [fst]. rewrite decide_False by done. apply Hun. eapply writes_weaken; [exact W2|lia..]. }
  destruct H as (Hpb & Hsb & W2 & L & AO & LO & AC & LC & HL & Hls). rewrite u32_small by lia.
  destruct (Z.ltb_spec stub_size (sb + 5 + tr)).
  { apply wp_ret. cbn [fst]. apply Hun. eapply writes_weaken; [exact W2|lia..]. }
  apply wp_bind. eapply wp_mono; [apply wp_write_jumps; try done|].
  - eapply writes_readable; [exact W2|]. eapply writes_readable; [exact W1|]. intros a Ha. apply Hst. lia.
  - eapply writes_readable; [exact W2|]. eapply writes_readable; [exact W1|]. intros a Ha. apply Hrd. lia.
  - unfold apart. lia.
  - intros Ex. specialize (Hnr Ex). rewrite dist_small by (done || lia). unfold INT_MIN, INT_MAX. lia.
  - intros Ex. specialize (Hnr Ex). rewrite dist_small by (done || destruct (tr =? 0); lia). unfold INT_MIN, INT_MAX in *.
    destruct (Z.eqb_spec tr 0); [specialize (Htr0 Ex ltac:(done)); lia|lia].
  - intros [] m3 HJ. apply wp_ret. cbn [fst]. rewrite decide_True by done. exists L. subst pb sb. by apply (patched_jumps tf repl stub stub_size m m1 m2 m3 L tr).
Qed.
End Effects.
