(* ===== verification/PreambleUnpatch.v ===== *)
(** * Unpatching, and patches that go wrong

    [Unpatch] of a function whose preamble was moved without change restores
    every byte outside of the stub and its page; a concrete system and
    function show that the hypotheses of both directions can be met. The
    theorems at the end exhibit the preambles that patching or unpatching
    changes. *)

From stdpp Require Import strings.
From S2P Require Import Prelude Ia32Tables MiniDisassembler PreamblePatcher PreamblePatcherSpec.
Local Open Scope Z_scope.

Section Restore.
Context (x64 : bool).

(** Every instruction of the preamble is copied as it is: neither jumps nor
    the [mov] whose operand is adjusted. *)
Definition straight (L : list (InstructionType * list Z * list Z)) : Prop :=
  Forall (fun x => x.1.1 = IT_GENERIC /\ ~ adjusted_mov x.1.2) L.

Lemma straight_copies p q L : relocated x64 p q L -> straight L -> copies L = originals L.
Proof.
  revert p q. induction L as [|[[t i] s] L IH]; intros p q HL HS; [done|]. apply Forall_cons in HS as [[Ht Hn] HS]. cbn [fst snd] in Ht, Hn.
  destruct HL as (_ & _ & [Hm _] & HL). rewrite (Hm Ht Hn). unfold copies, originals in *. cbn. by rewrite (IH _ _ HL HS).
Qed.

Lemma insn_positive t l : reads x64 t l -> (0 < length l)%nat.
Proof.
  intros (i & Hv & <-). destruct Hv as [pre esc b T o op mr ops k M so Hpre Hnp Ho H1 H2 Ht Hops].
  destruct (tail_head _ _ _ _ _ _ _ _ Ht) as [w Hw]. apply (f_equal length) in Hw. rewrite length_app in Hw. cbn in Hw.
  unfold Format.encode, Format.header. cbn. rewrite !length_app. lia.
Qed.

(** Decoding the copy of an instruction. *)
Lemma decode_insn m p t l d : code_ok m -> reads x64 t l -> at_ m p l -> Z.of_nat (length l) < 2 ^ 32 ->
  operand_default_is_32_bits_ d = true -> address_default_is_32_bits_ d = true ->
  exists d', Md.Disassemble x64 m p 0 d = Ret (t, Z.of_nat (length l), d') /\
    operand_default_is_32_bits_ d' = true /\ address_default_is_32_bits_ d' = true.
Proof.
  intros Hm (i & Hv & <-) Hat Hl Ho Ha.
  assert (Format.valid x64 (operand_default_is_32_bits_ d) (address_default_is_32_bits_ d) i t) as Hv' by (by rewrite Ho, Ha).
  destruct (Disassemble_valid x64 d m p 0 i t Hm Hv') as (d' & E & E1 & E2); [by apply at_app in Hat as [? _]|].
  rewrite Z.add_0_l, u32_small in E by lia. exists d'. rewrite E1, E2. done.
Qed.

(** One instruction goes back. *)
Lemma wp_restore_instruction m stub target i d : code_ok m -> reads x64 IT_GENERIC i -> ~ adjusted_mov i ->
  at_ m stub i -> readable m target (Z.of_nat (length i)) ->
  operand_default_is_32_bits_ d = true -> address_default_is_32_bits_ d = true ->
  wp (Pp.restore_instruction x64 stub target d) (fun r m' => writes target (target + Z.of_nat (length i)) m m' /\ at_ m' target i /\
    exists d', r = inr (Z.of_nat (length i), Z.of_nat (length i), d') /\
      operand_default_is_32_bits_ d' = true /\ address_default_is_32_bits_ d' = true) m.
Proof.
  intros Hm Hi Hp Hat Hr Ho Ha. pose proof (at_size _ _ _ Hat) as Hs.
  destruct (decode_insn m stub IT_GENERIC i d Hm Hi Hat ltac:(destruct Hm; lia) Ho Ha) as (d' & E & Ho' & Ha').
  unfold Pp.restore_instruction, Pp.Disassemble. apply wp_bind, wp_bind, wp_get, (wp_lift _ _ _ _ E). cbn beta iota.
  apply wp_bind, (wp_IsMov _ i); [done..| |].
  - done.
  - intros _. apply wp_bind, wp_memcpy; [done..| |].
    + apply Forall_forall. intros x Hx. exact (at_range m _ i x Hm Hat Hx).
    + intros m' _ W A. apply wp_ret. eauto 6.
Qed.

Lemma originals_app L L' : originals (L ++ L') = originals L ++ originals L'.
Proof. unfold originals. by rewrite fmap_app, concat_app. Qed.

Lemma relocated_insn p q L t i s : relocated x64 p q L -> (t, i, s) ∈ L -> reads x64 t i.
Proof.
  revert p q. induction L as [|[[t' i'] s'] L IH]; intros p q HL Hin; [by apply elem_of_nil in Hin|].
  destruct HL as (Hi & _ & _ & HL). apply elem_of_cons in Hin as [E|Hin]; [by simplify_eq|by eapply IH].
Qed.

(** The whole preamble goes back. *)
Lemma wp_restore_preamble m stub target L p q fuel (n := Z.of_nat (length (originals L))) : code_ok m -> straight L -> least L ->
  relocated x64 p q L -> 5 <= n -> at_ m stub (originals L) -> readable m target n -> apart target n stub n -> (5 < fuel)%nat ->
  wp (Pp.restore_preamble x64 fuel stub target) (fun r m' => writes target (target + n) m m' /\ at_ m' target (originals L) /\ exists k, r = inr k) m.
Proof.
  intros Hm HS Hls HL Hn5 Hst Hr Hap Hf. pose proof (at_size _ _ _ Hst) as Hsize. pose proof (proj2 Hm) as Hm31. unfold Pp.restore_preamble.
  apply (loopM_count _ (fun k '(pb, tb, d) m' => exists L1 L2, L = L1 ++ L2 /\ pb = Z.of_nat (length (originals L1)) /\ tb = pb /\
    operand_default_is_32_bits_ d = true /\ address_default_is_32_bits_ d = true /\
    writes target (target + n) m m' /\ at_ m' target (originals L1) /\ 5 - pb <= Z.of_nat k)) with (n := 5%nat); [| |done].
  2: { exists [], L. split_and!; done. }
  intros k [[pb tb] d] m1 (L1 & L2 & EL & Epb & -> & Ho & Ha & W & A1 & Hk). destruct (Z.ltb_spec pb 5) as [Hlt|Hge].
  2: { apply wp_ret. destruct L2 as [|x L2]; [rewrite app_nil_r in EL; subst L1; eauto|]. exfalso. specialize (Hls _ _ _ EL). lia. }
  destruct L2 as [|[[t i] s] L2]; [exfalso; rewrite app_nil_r in EL; subst L1; lia|].
  assert (t = IT_GENERIC /\ ~ adjusted_mov i) as [-> Hpl].
  { unfold straight in HS. rewrite EL, Forall_app, Forall_cons in HS. naive_solver. }
  assert (reads x64 IT_GENERIC i) as Hi by (apply (relocated_insn p q L _ i s HL); rewrite EL, elem_of_app; right; left).
  assert (originals L = originals L1 ++ i ++ originals L2) as EO by (by rewrite EL, originals_app).
  assert (n = pb + Z.of_nat (length i) + Z.of_nat (length (originals L2))) as En by (unfold n; rewrite EO, !length_app; lia).
  pose proof (insn_positive _ _ Hi) as Hpos. unfold apart in Hap.
  assert (at_ m1 (stub + pb) i) as Hat1.
  { eapply writes_at; [exact W| |lia]. rewrite EO, !at_app in Hst. rewrite Epb. tauto. }
  apply wp_bind. eapply wp_mono; [apply (wp_restore_instruction m1 (stub + pb) (target + pb) i d); try done|].
  - by apply (writes_ok _ _ _ _ W).
  - eapply writes_readable; [exact W|]. intros a Hin. apply Hr. lia.
  - intros r m2 (W2 & A2 & d' & -> & Ho' & Ha'). apply wp_ret. rewrite !u32_small by (unfold n in *; lia).
    destruct k as [|k]; [lia|]. exists k. split; [done|]. exists (L1 ++ [(IT_GENERIC, i, s)]), L2. rewrite originals_snoc, length_app, at_app, <- app_assoc.
    split_and!; try done; [lia|etrans; [exact W|]; eapply writes_weaken; [exact W2|lia..]| |by rewrite <- Epb|lia].
    eapply writes_at; [exact W2|exact A1|lia].
Qed.
End Restore.

Section Unpatch.
Context {OS : Type} `{W : Windows OS} (x64 : bool) (resolve_fuel restore_fuel : nat).
Notation Patcher := (Patcher OS).
Implicit Types s : Patcher.

Lemma wp_on_mem {A} (f : M code A) (Q : A -> Patcher -> Prop) s :
  wp f (fun a m => Q a (Pt.set_mem m s)) (mem s) -> wp (Pt.on_mem f) Q s.
Proof. unfold wp, Pt.on_mem. destruct (f (mem s)) as [[a m]|[]]; done. Qed.

Lemma wp_protect p n prot (Q : bool * Z -> Patcher -> Prop) s :
  (let '(ok, old, o) := VirtualProtect p n prot (os s) in Q (ok, old) (Pt.set_os o s)) -> wp (Pt.protect p n prot) Q s.
Proof. unfold wp, Pt.protect. by destruct (VirtualProtect p n prot (os s)) as [[ok old] o]. Qed.

Lemma wp_flush p n (Q : bool -> Patcher -> Prop) s :
  (let '(ok, o) := FlushInstructionCache p n (os s) in Q ok (Pt.set_os o s)) -> wp (Pt.flush p n) Q s.
Proof. unfold wp, Pt.flush. by destruct (FlushInstructionCache p n (os s)) as [ok o]. Qed.

(** The jump of a patched function is not followed. *)
Lemma wp_resolve_patched m target repl q : jumps x64 m target repl \/ jumps x64 m target q /\ at_ m q (trampoline x64 repl) /\ Pp.ptr x64 q = q ->
  target <> 0 -> Pp.ptr x64 repl = repl -> (0 < resolve_fuel)%nat -> forall Q : Z -> code -> Prop, Q target m ->
  wp (Pp.ResolveTargetImpl x64 resolve_fuel target repl true) Q m.
Proof.
  intros HJ H0 Hrepl Hf Q HQ. unfold Pp.ResolveTargetImpl. rewrite (proj2 (Z.eqb_neq target 0)) by done.
  destruct resolve_fuel as [|fuel]; [lia|]. cbn [loopM]. apply wp_bind.
  assert (exists dest, jumps x64 m target dest /\ (dest = repl \/ dest = q /\ at_ m q (trampoline x64 repl) /\ Pp.ptr x64 q = q)) as (dest & (off & A & Hl & E) & Hd).
  { destruct HJ as [HJ|(HJ & ?)]; eauto. }
  pose proof A as A'. apply at_cons in A' as [Hb Hoff].
  apply wp_bind, wp_bind, (wp_byte _ ASM_JMP32REL); [done|]. rewrite Z.eqb_refl. apply wp_bind, (wp_int _ off); [done..|]. apply wp_ret. cbn beta iota.
  assert (Pp.ptr x64 (target + 5 + s32 (le_val off)) = Pp.ptr x64 dest) as ->.
  { destruct off as [|? [|? [|? [|? [|]]]]]; try done. cbn [app effect_of] in E. change (ASM_JMP32REL =? 0xE9) with true in E. by injection E. }
  destruct (Z.eqb_spec (Pp.ptr x64 dest) repl); [by apply wp_ret|].
  destruct Hd as [-> |(-> & At & ->)]; [done|]. unfold trampoline in At. apply at_cons in At as [T1 [T2 [T3 _]%at_cons]%at_cons].
  replace (q + 1 + 1) with (q + 2) in T3 by lia. unfold Pp.is_trampoline.
  apply wp_bind, wp_bind, (wp_byte _ ASM_NOP); [done|]. apply wp_bind, (wp_byte _ ASM_REXW); [done|]. apply wp_bind, (wp_byte _ ASM_MOVRAX_IMM); [done|].
  apply wp_ret. by apply wp_ret.
Qed.

(** The page a block belongs to. *)
Definition page_of s (block : Z) : Z := block - Z.land block (granularity_ s - 1).

Lemma wp_pointer p (Q : Z -> Patcher -> Prop) s : readable (mem s) p (Z.of_nat (Pp.ptr_bytes x64)) -> (forall v, Q v s) -> wp (Pt.pointer x64 p) Q s.
Proof.
  intros Hr HQ. destruct (readable_bytes _ _ _ Hr) as (l & Hl & Hat). unfold Pt.pointer. apply wp_on_mem. unfold Pp.pointer_at.
  apply wp_bind, wp_get. apply wp_bind, (wp_lift _ l); [by rewrite <- Hl, at_rdn|]. apply wp_ret. destruct s. apply HQ.
Qed.

Lemma wp_set_pointer p v (Q : unit -> Patcher -> Prop) s : readable (mem s) p (Z.of_nat (Pp.ptr_bytes x64)) ->
  (forall m', writes p (p + Z.of_nat (Pp.ptr_bytes x64)) (mem s) m' -> Q tt (Pt.set_mem m' s)) -> wp (Pt.set_pointer x64 p v) Q s.
Proof.
  intros Hr HQ. unfold Pt.set_pointer. apply wp_on_mem, wp_write_bytes; [by rewrite le_length|apply le_bytes|]. rewrite le_length. intros m' _ W' _. by apply HQ.
Qed.

(** Freeing a block writes its first bytes and the list head of its page. *)
Lemma wp_free block s (w := Z.of_nat (Pp.ptr_bytes x64)) (hd_ := page_of s block + Pt.free_ x64) (Q : unit -> Patcher -> Prop) :
  readable (mem s) block w -> readable (mem s) hd_ w ->
  (forall s', os s' = os s -> (forall a, ~ (block <= a < block + w) -> ~ (hd_ <= a < hd_ + w) -> mem s' !! a = mem s !! a) -> Q tt s') ->
  wp (Pt.FreePreambleBlock x64 block) Q s.
Proof.
  intros Hb Hh HQ. unfold Pt.FreePreambleBlock. apply wp_bind, wp_get. fold (page_of s block). fold hd_.
  apply wp_bind, wp_pointer; [done|]. intros v. apply wp_bind, wp_set_pointer; [done|]. intros m1 W1.
  apply wp_set_pointer; [eapply writes_readable; [exact W1|done]|]. intros m2 W2. apply HQ; [done|]. intros a H1 H2.
  cbn. rewrite (proj1 W2) by done. by rewrite (proj1 W1).
Qed.

Lemma patched_readable tf repl stub stub_size m m' L : patched x64 tf repl stub stub_size m m' L ->
  readable m' (entry_point m tf) (Z.of_nat (length (originals L))).
Proof.
  intros (_ & _ & Hn & _ & _ & _ & _ & _ & _ & HJ & HF & _) a Ha. set (n := Z.of_nat (length (originals L))) in *.
  destruct (Z.lt_ge_cases a (entry_point m tf + 5)).
  - assert (exists dest, jumps x64 m' (entry_point m tf) dest) as (dest & off & A & Hl & _) by (destruct HJ as [?|(_ & _ & ?)]; eauto).
    apply at_readable in A. apply A. rewrite length_app, Hl. cbn. lia.
  - apply at_readable in HF. apply HF. rewrite length_replicate. lia.
Qed.

(** C39: unpatching restores the function. After a successful patch of a
    function without [endbr] whose moved instructions are neither jumps nor
    [mov reg, [rip + disp]], [Unpatch] asks for write access to the five bytes
    of the jump. If the system grants it, every byte is put back, those of the
    stub and of the free list of its page apart, the protection is set back
    and the instruction cache flushed, and the result is success, or
    SIDESTEP_UNEXPECTED if the flush fails. If the system refuses, the result
    is SIDESTEP_ACCESS_DENIED and no byte has changed. *)
Theorem unpatch_restores s tf repl stub stub_size m L (w := Z.of_nat (Pp.ptr_bytes x64)) (hd_ := page_of s stub + Pt.free_ x64) :
  patchable x64 m tf repl stub stub_size -> entry_point m tf = tf -> Pp.ptr x64 repl = repl ->
  patched x64 tf repl stub stub_size m (mem s) L -> straight L -> readable (mem s) hd_ w ->
  (0 < resolve_fuel)%nat -> (5 < restore_fuel)%nat ->
  wp (Pt.Unpatch x64 resolve_fuel restore_fuel tf repl stub) (fun e s' =>
    let '(granted, old, o1) := VirtualProtect tf 5 PAGE_EXECUTE_READWRITE (os s) in
    if granted : bool then
      let '(flushed, o) := FlushInstructionCache tf (Pp.MAX_PREAMBLE_STUB_SIZE x64) (VirtualProtect tf 5 old o1).2 in
      e = (if flushed : bool then SIDESTEP_SUCCESS else SIDESTEP_UNEXPECTED) /\ os s' = o /\
      forall a, ~ (stub <= a < stub + stub_size) -> ~ (hd_ <= a < hd_ + w) -> mem s' !! a = m !! a
    else e = SIDESTEP_ACCESS_DENIED /\ mem s' = mem s) s.
Proof.
  intros P He Hrepl HP HS Hh Hf Hf'. pose proof (patched_readable _ _ _ _ _ _ _ HP) as Hrd. rewrite He in Hrd.
  destruct (pa_range _ _ _ _ _ _ P) as (R1 & R2 & R3). pose proof (pa_size _ _ _ _ _ _ P) as Hsz.
  pose proof (pa_apart _ _ _ _ _ _ P) as Hap. pose proof (pa_stub _ _ _ _ _ _ P) as Hst0.
  destruct HP as (Hm & Hdom & Hn & Hcl & Hls & HO & HL & HC & HJ1 & HJ & HF & Hfr). rewrite He in *.
  assert (readable (mem s) stub stub_size) as Hst by (intros a Ha; by apply Hdom, Hst0).
  pose proof (straight_copies _ _ _ _ HL HS) as EC. rewrite EC in *. set (n := Z.of_nat (length (originals L))) in *.
  unfold Pt.Unpatch. rewrite (proj2 (Z.eqb_neq tf 0)), (proj2 (Z.eqb_neq repl 0)), (proj2 (Z.eqb_neq stub 0)) by lia. cbn [orb].
  apply wp_bind, wp_on_mem, (wp_resolve_patched _ _ _ (stub + n + 5)); [|lia|done|done|].
  { destruct HJ as [HJ|(Ex & At & HJ)]; [by left|right]. split_and!; [done..|]. unfold Pp.ptr. rewrite Ex. apply u64_small. lia. }
  assert (mem s !! tf = Some ASM_JMP32REL) as Hb.
  { destruct HJ as [(off & A & _)|(_ & _ & (off & A & _))]; by apply at_cons in A as [? _]. }
  apply wp_bind, wp_on_mem, (wp_byte _ ASM_JMP32REL); [done|]. rewrite Z.eqb_refl. cbn [negb].
  apply wp_bind, wp_protect. cbn [os Pt.set_mem]. destruct (VirtualProtect tf 5 PAGE_EXECUTE_READWRITE (os s)) as [[ok old] o] eqn:EV.
  cbn beta iota. destruct ok; cbn [negb]; [|by apply wp_ret].
  apply wp_bind, wp_on_mem. cbn [mem Pt.set_os Pt.set_mem].
  eapply wp_mono; [apply (wp_restore_preamble x64 (mem s) stub tf L tf stub restore_fuel); try done; fold n; unfold apart in *; lia|].
  intros r m1 (W1 & A1 & k & ->). fold n in W1. cbn beta iota.
  apply wp_bind, wp_free; cbn [mem Pt.set_mem granularity_ page_of].
  - eapply writes_readable; [exact W1|]. intros a Ha. apply Hst. unfold Pp.ptr_bytes in Ha. destruct x64; lia.
  - eapply writes_readable; [exact W1|]. exact Hh.
  - intros s' Hos Hs'. assert (forall a, ~ (stub <= a < stub + stub_size) -> ~ (hd_ <= a < hd_ + w) -> mem s' !! a = m !! a) as Hfin.
    { intros a Ha1 Ha2. rewrite Hs'; [|unfold Pp.ptr_bytes; destruct x64; lia|exact Ha2].
      destruct (decide (tf <= a < tf + n)) as [Hin|Hout].
      - destruct (lookup_lt_is_Some_2 (originals L) (Z.to_nat (a - tf))) as [b Hb']; [unfold n in Hin; lia|].
        pose proof (A1 _ _ Hb') as E1. pose proof (HO _ _ Hb') as E2. replace (tf + Z.of_nat (Z.to_nat (a - tf))) with a in * by lia. congruence.
      - rewrite (proj1 W1) by done. by apply Hfr. }
    apply wp_bind, wp_protect. rewrite Hos. cbn [os Pt.set_mem Pt.set_os]. destruct (VirtualProtect tf 5 old o) as [[ok' old'] o'].
    apply wp_bind, wp_flush. cbn [os Pt.set_os snd]. destruct (FlushInstructionCache tf (Pp.MAX_PREAMBLE_STUB_SIZE x64) o') as [ok'' o''].
    by destruct ok''; apply wp_ret.
Qed.
End Unpatch.

(** ** A concrete function and system *)
#[local] Instance toy_windows : Windows unit := {|
  VirtualProtect _ _ _ o := (true, 0x20, o);
  FlushInstructionCache _ _ o := (true, o);
  VirtualQuery _ _ := Some 0x10000;
  VirtualAlloc _ _ o := (0, o);
  dwAllocationGranularity := 2 ^ 30;
  dwPageSize := 0x1000 |}.

(** A function at 0x1000 that starts with [l], and a page of stubs at 0x20000
    whose second block is the stub. *)
Definition toy_code (l : list Z) : code := load 0x1000 (l ++ replicate (Z.to_nat (48 - Z.of_nat (length l))) 0x90) ∪ load 0x20000 (replicate 192 0).
Definition toy_stub : Z := 0x20040.
Definition toy_replacement : Z := 0x8000.

(** The memory after patching it, and after putting the preamble back. *)
Definition toy_patch (x64 : bool) (l : list Z) : outcome (SideStepError * code) :=
  '(e, _, m) ← Pp.RawPatchWithStub x64 0x1000 toy_replacement toy_stub (Pp.MAX_PREAMBLE_STUB_SIZE x64) (toy_code l); Ret (e, m).
Definition toy_unpatch (x64 : bool) (m : code) : outcome (SideStepError * code) :=
  '(e, s) ← Pt.Unpatch x64 10 10 0x1000 toy_replacement toy_stub (mkPatcher m 0x20000 0x10000 0x1000 true tt); Ret (e, mem s).

(** The first [n] bytes of the target or the stub after either. *)
Definition after_patch (x64 : bool) (l : list Z) (p : Z) (n : nat) : outcome (SideStepError * list Z) :=
  '(e, m) ← toy_patch x64 l; b ← rdn m p n; Ret (e, b).
Definition after_unpatch (x64 : bool) (l : list Z) (p : Z) (n : nat) : outcome (SideStepError * list Z) :=
  '(_, m) ← toy_patch x64 l; '(e, m) ← toy_unpatch x64 m; b ← rdn m p n; Ret (e, b).

Lemma rdn_at m p l : rdn m p (length l) = Ret l -> at_ m p l.
Proof.
  revert p. induction l as [|b l IH]; intros p H; [apply at_nil|]. cbn in H. unfold rd in H. destruct (m !! p) as [c|] eqn:Hc; [|done].
  cbn in H. destruct (rdn m (p + 1) (length l)) as [l'|] eqn:E; [|done]. cbn in H. simplify_eq. apply at_cons. split; [done|]. by apply IH.
Qed.

Lemma readable_dec m p n : rdn m p (Z.to_nat n) ≫= (fun _ => Ret true) = Ret true -> readable m p n.
Proof.
  intros H. destruct (rdn m p (Z.to_nat n)) as [l|] eqn:E; [|done]. clear H.
  assert (forall k p l, rdn m p k = Ret l -> length l = k) as Hl.
  { induction k as [|k IH]; intros q l' H; cbn in H; [by simplify_eq|]. destruct (rd m q); [|done]. cbn in H.
    destruct (rdn m (q + 1) k) eqn:E'; [|done]. cbn in H. simplify_eq. cbn. f_equal. by eapply IH. }
  pose proof (Hl _ _ _ E) as El. rewrite <- El in E. apply rdn_at, at_readable in E. intros a Ha. apply E. lia.
Qed.

(** Bytes that decode to their own length are an instruction. *)
Lemma decode_reads x64 t l : decode x64 l = Ret (t, Z.of_nat (length l)) -> t <> IT_UNKNOWN -> code_ok (load 100 l) -> reads x64 t l.
Proof.
  unfold decode. intros H Ht Hm. pose proof (Disassemble_total x64 (Md.MiniDisassembler x64) (load 100 l) 100 0 Hm) as HT.
  destruct (Md.Disassemble x64 (load 100 l) 100 0 (Md.MiniDisassembler x64)) as [[[t' n] d']|]; cbn in H; [|done]. simplify_eq.
  destruct HT as (_ & _ & HT). rewrite decide_False in HT by done. destruct HT as (len & En & Hlen & Hall).
  rewrite Z.add_0_l, u32_small in En by lia. apply Hall; [|lia]. intros i b Hi. rewrite lookup_load, decide_True by lia.
  by replace (Z.to_nat (100 + Z.of_nat i - 100)) with i by lia.
Qed.

(** The memory a run leaves. *)
Definition memory_after {A} (r : outcome (A * code)) : code := match r with Ret (_, m) => m | Fault _ => ∅ end.

Lemma wp_success (r : M code (SideStepError * option Z)) (P U : code -> Prop) m :
  wp r (fun a m' => if decide (a.1 = SIDESTEP_SUCCESS) then P m' else U m') m ->
  match r m with Ret (a, _) => bool_decide (a.1 = SIDESTEP_SUCCESS) | Fault _ => false end = true -> P (memory_after (r m)).
Proof. unfold wp. destruct (r m) as [[a m']|]; [|done]. intros H E%bool_decide_eq_true. by rewrite decide_True in H. Qed.

(** [push ebp; mov ebp, esp; sub esp, 16]. *)
Definition prologue : list (list Z) := [[0x55]; [0x8B; 0xEC]; [0x83; 0xEC; 0x10]].
Definition toy_list : list (InstructionType * list Z * list Z) := (fun l => (IT_GENERIC, l, l)) <$> prologue.
Definition toy_memory : code := toy_code (concat prologue).
Definition toy_patched : code := memory_after (Pp.RawPatchWithStub false 0x1000 toy_replacement toy_stub 32 toy_memory).

Lemma toy_patchable : patchable false toy_memory 0x1000 toy_replacement toy_stub 32.
Proof.
  assert (code_ok toy_memory) as Hm by (apply code_ok_dec; [vm_compute; reflexivity|vm_compute; reflexivity]).
  split.
  - exact Hm.
  - apply readable_dec. vm_compute. reflexivity.
  - split; [apply readable_dec; vm_compute; reflexivity|]. intros k Hk. change (entry_point toy_memory 0x1000) with 0x1000.
    assert (k = 0 \/ k = 1 \/ k = 2 \/ k = 3 \/ k = 4) as Hc by lia.
    destruct Hc as [-> | [-> | [-> | [-> | ->]]]]; [exists [], 0x55|exists [], 0x8B|exists [], 0xEC|exists [], 0x83|exists [], 0xEC].
    all: (split; [apply rdn_at; vm_compute; reflexivity|]); (split; [constructor|]); (split; [reflexivity|]); (split; [cbn; lia|]);
      intros t n d' H; vm_compute in H; injection H as <- <- <-; lia.
  - apply readable_dec. vm_compute. reflexivity.
  - lia.
  - left. vm_compute. discriminate.
  - unfold toy_replacement, toy_stub. lia.
  - discriminate.
  - unfold INT_MIN, toy_replacement. lia.
Qed.

Lemma patch_correct_witness : patchable false toy_memory 0x1000 toy_replacement toy_stub 32 /\
  exists L, patched false 0x1000 toy_replacement toy_stub 32 toy_memory toy_patched L.
Proof.
  split; [exact toy_patchable|].
  apply (wp_success _ (fun m' => exists L, patched false 0x1000 toy_replacement toy_stub 32 toy_memory m' L) (untouched toy_stub 32 toy_memory));
    [exact (patch_correct false 0x1000 toy_replacement toy_stub 32 toy_memory toy_patchable)|vm_compute; reflexivity].
Defined.

Lemma frame_dec (P : Z -> bool) (m m' : code) : bool_decide (filter (fun x => P x.1 = true) m' = filter (fun x => P x.1 = true) m) = true ->
  forall a, P a = true -> m' !! a = m !! a.
Proof.
  intros E%bool_decide_eq_true a Ha. apply (f_equal (fun x : code => x !! a)) in E. rewrite !map_lookup_filter in E.
  destruct (m' !! a) as [b|], (m !! a) as [c|]; cbn in E; rewrite ?option_guard_True in E by done; done.
Qed.

Lemma short_no_mov l : length l <> 7%nat -> ~ adjusted_mov l.
Proof. intros Hl (r & off & -> & Hoff & _). rewrite length_app, Hoff in Hl. by apply Hl. Qed.

Lemma toy_insn l : l ∈ prologue -> reads false IT_GENERIC l.
Proof.
  unfold prologue. rewrite !elem_of_cons, elem_of_nil. intros [-> | [-> | [-> | []]]];
    (apply decode_reads; [vm_compute; reflexivity|done|apply code_ok_dec; vm_compute; reflexivity]).
Qed.

Lemma toy_relocated : relocated false 0x1000 toy_stub toy_list.
Proof.
  cbn [toy_list prologue fmap list_fmap relocated]. split_and!; try (apply toy_insn; unfold prologue; set_solver); try set_solver;
    (apply moved_copy; [apply toy_insn; unfold prologue; set_solver|by apply short_no_mov]).
Qed.

Lemma toy_least : least toy_list.
Proof.
  intros L1 x L2 E. destruct L1 as [|y1 [|y2 [|y3 [|y4 L1]]]]; cbn in E; try discriminate E; injection E as; subst; cbn; lia.
Qed.

Lemma toy_is_patched : patched false 0x1000 toy_replacement toy_stub 32 toy_memory toy_patched toy_list.
Proof.
  unfold patched. change (entry_point toy_memory 0x1000) with 0x1000. change (Z.of_nat (length (originals toy_list))) with 6.
  change (Z.of_nat (length (copies toy_list))) with 6. split_and!; try lia.
  - apply code_ok_dec; vm_compute; reflexivity.
  - assert (dom toy_patched = dom toy_memory) as E by (apply (bool_decide_eq_true_1 _); vm_compute; reflexivity).
    intros a. by rewrite <- !elem_of_dom, E.
  - exact toy_least.
  - apply rdn_at. vm_compute. reflexivity.
  - exact toy_relocated.
  - apply rdn_at. vm_compute. reflexivity.
  - exists [0xBB; 0x0F; 0xFE; 0xFF]. split; [apply rdn_at; vm_compute; reflexivity|]. split; [done|]. vm_compute. reflexivity.
  - left. exists [0xFB; 0x6F; 0; 0]. split; [apply rdn_at; vm_compute; reflexivity|]. split; [done|]. vm_compute. reflexivity.
  - apply rdn_at. vm_compute. reflexivity.
  - intros a H1 H2. apply (frame_dec (fun a => negb (bool_decide (toy_stub <= a < toy_stub + 32)) && negb (bool_decide (0x1000 <= a < 0x1000 + 6))));
      [vm_compute; reflexivity|]. rewrite !bool_decide_eq_false_2 by done. done.
Qed.

Definition toy_state : Patcher unit := mkPatcher toy_patched 0x20000 0x10000 0x1000 true tt.

Lemma unpatch_restores_witness : straight toy_list /\
  wp (Pt.Unpatch false 10 10 0x1000 toy_replacement toy_stub) (fun e s' => e = SIDESTEP_SUCCESS /\ os s' = tt /\
    forall a, ~ (toy_stub <= a < toy_stub + 32) -> ~ (0x20008 <= a < 0x20008 + 4) -> mem s' !! a = toy_memory !! a) toy_state.
Proof.
  assert (straight toy_list) as HS by (repeat constructor; by apply short_no_mov).
  split; [exact HS|]. exact (unpatch_restores false 10 10 toy_state 0x1000 toy_replacement toy_stub 32 toy_memory toy_list
    toy_patchable eq_refl eq_refl toy_is_patched HS ltac:(apply readable_dec; vm_compute; reflexivity) ltac:(lia) ltac:(lia)).
Defined.

(** ** Preambles that are changed *)

(** [call eax] as the first instruction is taken for a short conditional jump
    and becomes [jg] in the stub. *)
Theorem call_register_becomes_jg : after_patch false [0xFF; 0xD0] toy_stub 2 = Ret (SIDESTEP_SUCCESS, [0x0F; 0x8F]).
Proof. vm_compute. reflexivity. Qed.

(** The operand of [call [address]] of a 32-bit binary is an absolute
    address, but is adjusted as if it were relative; so is the displacement
    of [call [rax + disp32]]. *)
Theorem indirect_call_adjusted :
  after_patch false [0xFF; 0x15; 1; 1; 0; 0] toy_stub 6 = Ret (SIDESTEP_SUCCESS, [0xFF; 0x15; 0xC1; 0x10; 0xFE; 0xFF]) /\
  after_patch true [0xFF; 0x90; 1; 1; 0; 0] toy_stub 6 = Ret (SIDESTEP_SUCCESS, [0xFF; 0x90; 0xC1; 0x10; 0xFE; 0xFF]).
Proof. vm_compute. done. Qed.

(** [lea rax, [rip + disp32]] is copied with its displacement, so that in the
    stub it computes another address. *)
Theorem rip_relative_lea_copied :
  after_patch true [0x48; 0x8D; 0x05; 1; 1; 0; 0] toy_stub 7 = Ret (SIDESTEP_SUCCESS, [0x48; 0x8D; 0x05; 1; 1; 0; 0]) /\
  effect_of true IT_GENERIC 0x1000 [0x48; 0x8D; 0x05; 1; 1; 0; 0] = Relative [0x48; 0x8D; 0x05] [] 0x1108 /\
  effect_of true IT_GENERIC toy_stub [0x48; 0x8D; 0x05; 1; 1; 0; 0] = Relative [0x48; 0x8D; 0x05] [] (toy_stub + 0x108).
Proof. vm_compute. done. Qed.

(** [jz +16] comes back as [jz +12]: the offset of the shortened jump is
    still counted from the end of the long one. *)
Theorem unpatch_misplaces_short_jump : after_unpatch false [0x74; 0x10] 0x1000 2 = Ret (SIDESTEP_SUCCESS, [0x74; 0x0C]).
Proof. vm_compute. reflexivity. Qed.

(** [call +32] comes back as a jump. *)
Theorem unpatch_turns_call_into_jump : after_unpatch true [0xE8; 0x20; 0; 0; 0] 0x1000 2 = Ret (SIDESTEP_SUCCESS, [0xEB; 0x20]).
Proof. vm_compute. reflexivity. Qed.

(** [mov rax, [rip + 257]] does not come back: the bytes put at the target
    are not counted, and what follows in the stub overwrites them. *)
Theorem unpatch_loses_mov :
  after_unpatch true [0x48; 0x8B; 0x05; 1; 1; 0; 0] 0x1000 7 = Ret (SIDESTEP_SUCCESS, [0xEB; 2; 0xCC; 0xCC; 0xCC; 0; 0]).
Proof. vm_compute. reflexivity. Qed.

(** A function that starts with [endbr64] is patched behind it and cannot be
    unpatched. *)
Theorem endbr_is_not_unpatched :
  after_patch true (0xF3 :: 0x0F :: 0x1E :: 0xFA :: concat prologue) 0x1004 1 = Ret (SIDESTEP_SUCCESS, [ASM_JMP32REL]) /\
  after_unpatch true (0xF3 :: 0x0F :: 0x1E :: 0xFA :: concat prologue) 0x1004 1 = Ret (SIDESTEP_INVALID_PARAMETER, [ASM_JMP32REL]).
Proof. vm_compute. done. Qed.

(** A jump to itself is followed for ever. *)
Theorem resolve_target_loops fuel : Pp.ResolveTarget false fuel 0x1000 (load 0x1000 [0xEB; 0xFE]) = Fault OutOfFuel.
Proof.
  unfold Pp.ResolveTarget, Pp.ResolveTargetImpl. change (0x1000 =? 0) with false. cbn match.
  induction fuel as [|fuel IH]; [done|]. cbn [loopM]. unfold mbind at 1, M_bind at 1.
  match goal with |- context [mbind ?f ?m (load 0x1000 [0xEB; 0xFE])] =>
    assert (mbind f m (load 0x1000 [0xEB; 0xFE]) = Ret (inl 0x1000, load 0x1000 [0xEB; 0xFE])) as -> end; [|exact IH].
  unfold mbind, M_bind. assert (Pp.follow_jump false 0x1000 (load 0x1000 [0xEB; 0xFE]) = Ret (Some (0x1000, 0x1000), load 0x1000 [0xEB; 0xFE])) as ->; [|done].
  vm_compute. reflexivity.
Qed.

(** Where the system has no page to give, the null pointer is written
    through before the caller can test it. *)
Theorem no_page_is_dereferenced :
  Pt.AllocPreambleBlockNear true 10 0x1000 (mkPatcher (toy_code [0x90]) 0 0 0 false tt) = Fault Undefined.
Proof. vm_compute. reflexivity. Qed.
